(* ===== verification/_CoqProject ===== *)
-Q . S2P
Prelude.v
RustStr.v
Json.v
Ids.v
BTree.v
Model.v
Decimal.v
DecimalProofs.v
Records.v
Snapshot.v
Reduction.v
ReductionInv.v
ReductionOps.v
ReductionSafety.v
ReductionHistory.v
Effects.v
Recovery.v
Artifact.v
Gc.v
Scenario.v
Witnesses.v
Agents.v
AgentsSound.v
AgentsSafe.v
SessionErrors.v
WireEncode.v
WireDecode.v
WireSeal.v
WireFields.v
WireRecords.v
WireSealProofs.v
Store.v
StoreIndex.v
StoreFast.v
StoreGraph.v
StoreSession.v
Jsonl.v
JsonlSession.v
JsonlReader.v
JsonlLog.v
JsonlCommit.v
JsonlCrash.v
JsonlCodec.v
Verification.v
Configuration.v
Messages.v
Transcript.v
TranscriptProofs.v
TranscriptJson.v
SchemaValidation.v
SchemaProofs.v
CoreState.v
CoreStateProofs.v
Tools.v
ToolsProofs.v
Compaction.v
CompactionProofs.v
RequestContext.v
AgentLifecycle.v
AgentLifecycleProofs.v
Measurement.v
RunWorld.v
ToolRun.v
ToolRunProofs.v
RunRequest.v
CompactionRun.v
RunLoop.v
RunLoopProofs.v
CompactionRunProofs.v
ContextCodec.v
ContextProjection.v
ContextProofs.v
AnthropicSse.v
AnthropicEvents.v
AnthropicPayload.v
AnthropicStream.v
AnthropicProofs.v
Trace.v
TraceProofs.v
TraceDecode.v
