(* ===== verification/Prelude.v ===== *)
(** * Verification of the tea session core

    Tea runs a coding agent as one durable session.  The crate [tea-session]
    ([src/crates/tea-session/src]) holds what makes it durable: an append-only
    log of commits, each a group of semantic entries, operation records,
    lane-topology mutations and session facts; a pure reducer that turns any
    prefix of the log into the state of a lane, its pending work and the
    single next recovery action; and the writers that extend the log, in
    memory or in a JSONL file.  This library models that core as executable
    functions and proves the properties a host relies on after a crash, and
    with it the pure parts of the runtime crate [tea-core]
    ([src/crates/tea-core/src]) that decide what a model is shown.

    ** Parts and files

    Shared:
    - [Prelude] (this file): outcomes of fallible code ([Ok], [Err] for a
      Rust error, [Panic] for a panic), the [let?] and [check?] notations for
      the [?] operator, fallible loops, record update, derived equality,
      machine integers, ordered maps and the inversion tactics.
    - [RustStr]: the methods of [str] the crate uses, on byte strings, and
      UTF-8 validation.
    - [BTree]: iteration over ordered maps under insertion and replacement.

    Data:
    - [Json]: [crates/tea-protocol/src/json.rs], JSON values, their conversion
      to the value type of the miniserde package and the indented printer.
    - [Ids]: [ids.rs], digests, the canonical hash writer, identifiers and
      their derivation, normalized paths.
    - [Model], [Records]: [model.rs], the structs and enums of entries,
      records, facts, mutations and commits, and the fact types of
      [agents.rs].  Fields carry a prefix of the struct's initials.
    - [Decimal], [DecimalProofs]: usage totals and decimal cost addition.
    - [Snapshot]: [SessionSnapshot], the typed views and the ordered index.

    Reduction:
    - [Reduction]: [reduction.rs].  [ReducerState] is the record of the local
      maps of [reduce_lane_prefix]; there is one handler per record, fact,
      entry and lane mutation ([on_operation_started], [on_turn_checkpoint],
      ...), [reduce_step] is the loop body, [finish_reduction] the part after
      the loop, [derive_recovery_plan] the planner.
    - [ReductionInv], [ReductionOps], [ReductionSafety], [ReductionHistory],
      [Effects], [Recovery]: invariants and theorems of the reducer.
    - [Agents]: [agents.rs], the subagent graph: the scan of the timeline
      ([graph_scan]) and the loops that bind spawns, operations, deltas,
      reports and applications ([graph_finish]).  [AgentsSound], [AgentsSafe]
      hold its theorems and a session with one subagent.

    Writing:
    - [SessionErrors], [WireEncode], [WireDecode], [WireSeal]: the encoders,
      decoders and seals of [jsonl.rs]; [WireFields],
      [WireRecords], [WireSealProofs] prove them inverse to one another.
    - [Store]: [store.rs], the append index, commit preparation, validation
      and [MemorySession].  [StoreIndex] relates the index to the reducer,
      [StoreFast] and [StoreGraph] show that a commit the index accepts alone
      is accepted by full replay, [StoreSession] puts them together.
    - [Jsonl], [JsonlSession]: the file layer of [jsonl.rs], the bounded line
      reader, the replay of a file, the append of a line, the [HEAD] cache
      and the operations of [JsonlSession] on a directory.  [JsonlReader]
      compares the reader with a reference, [JsonlLog] relates a log to its
      text, [JsonlCommit] shows that a durable commit refines the in-memory
      one, [JsonlCrash] is the life of a directory under failures and
      crashes, with the [HEAD] cache.

    Artifacts:
    - [Artifact]: [artifact.rs], the store interface as a class with its laws,
      the default methods and the in-memory store as an instance.
    - [Gc], [Verification]: [gc.rs] and [verification.rs], proved against the
      store laws.

    Runtime:
    - [Configuration]: [state/configuration.rs], prompt
      sections and declared tools at their position in the conversation.
    - [Messages]: [state/messages.rs], the conversation and the bounds of
      provider-private items.
    - [Transcript], [TranscriptJson]: [transcript.rs], the projections of a
      transcript, its preparation for replay ([Preparation] is the record of
      the locals of [prepared_for]) and canonical JSON, with their theorems;
      [TranscriptProofs] prepares them.
    - [SchemaValidation], [SchemaProofs]: [schema_validation.rs]; numbers are
      compared as IEEE doubles.
    - [CoreState], [CoreStateProofs]: [state/lifecycle.rs],
      [state/accounting.rs], [queue.rs] and the helpers of [routing.rs].
    - [Tools], [ToolsProofs]: [tool.rs] and [scheduler.rs], calls, results,
      failures, the registry and the text of a result shown to a model.
    - [Compaction]: the data and pure functions of [compaction.rs] and the
      automatic split of [run/mod.rs].  [CompactionProofs] holds its
      theorems.
    - [RequestContext]: the errors of [error.rs] and what [run/mod.rs] does
      between the history and a request, with its theorems.
    - [AgentLifecycle], [AgentLifecycleProofs]: [agent/mod.rs] and the run
      handle of [run/mod.rs]; the calls of several threads are sequences of
      sections under one lock ([Pending], [exec]), interleaved by [step].
    - [RunWorld]: a run and its host.  A computation [M] takes the world
      ([RunEnv]) to a result and crosses boundaries where the host may
      interfere; effects, events, hooks and pending updates are its steps.
    - [ToolRun]: [run/tool_execution.rs] and the polling of [run/mod.rs] as
      such computations.  [ToolRunProofs] is a total-correctness calculus for
      them and holds the theorems.
    - [Measurement]: [measurement.rs], the layout of a request, its canonical
      surface and the ledger that compares it with the previous one.
    - [RunRequest], [RunLoop]: the drive of a run ([run/mod.rs]) as a
      computation: a round is a request with what follows its response
      ([drive_round]); compaction, recovery, routing, the provider stream and
      the settlement are its parts.  The compactor is any sequence of port
      operations ending in a result, the provider any sequence of events.
    - [CompactionRun]: the request port, the automatic and the manual
      compaction and the durable publication of a replacement.
      [RunLoopProofs] and [CompactionRunProofs] hold the theorems.
    - [ContextCodec], [ContextProjection]: [runtime/context.rs], from the log
      of a session to the messages of a lane: the branch, the patches that
      policies propose, the selection, the order of turns and the messages of
      entries ([derive_branch_context]), and the stored form of a compaction
      replacement with its round trip.  [ContextProofs] holds the theorems.

    A provider:
    - [AnthropicSse]: [crates/tea-providers/src/anthropic/sse.rs], the decoder
      of server-sent events and the repair of malformed JSON, with their
      theorems.
    - [AnthropicEvents]: [anthropic/events.rs] and [retry.rs], the reduction
      of events to the model events of [RunWorld] ([reducer_push],
      [reducer_finish]), and the pure helpers of [anthropic/mod.rs]: headers,
      the delay a server asks for (with [f64] and [Duration] at their
      precision), estimated costs, the text of failures.
    - [AnthropicPayload]: [anthropic/payload.rs], [catalog.rs] and [config.rs],
      the body of a request: messages on the wire, tools, cache breakpoints,
      limits and features ([build_request]), with its theorems.
    - [AnthropicStream]: the event stream of [anthropic/mod.rs].  [EventStream]
      is its state, and [provider_stream] starts it from a model request; [poll_round] is one round of the loop of
      [poll_next_event], in which the host decides what is cancelled or ready
      and the server what each attempt answers.  [AnthropicProofs] holds the
      theorems.

    Traces:
    - [Trace]: the crate [tea-trace], trace events, the CBOR and JSON Lines
      writers and the sinks.
    - [TraceProofs] gives the record of an event as one tree and shows that
      both writers print it, and reads CBOR back; [TraceDecode] is the strict
      JSON Lines decoder and reads the JSON Lines text back.

    [Scenario], [Witnesses] and [JsonlCodec] hold concrete sessions and the
    theorems applied to them.

    ** What is shown

    The reducer returns on every log whose cost texts are decimal: the
    [expect]s on active operations are guarded by the lifecycle invariant,
    and the parent walk ends because entries form a forest.  Every reachable
    state satisfies the entry forest, operation and epoch lifecycle, effect
    attribution and input lifecycle invariants.  Longer logs only extend
    shorter ones.  The recovery action is justified by what is outstanding,
    checkpoints are recorded only for settled operations and stay so, forked
    lanes are isolated, the pending queue is exactly the pending inputs in
    order, and validating a prospective commit agrees with committing it.
    The subagent graph binds every agent to the tool intent that spawned it.

    The append index is the projection of the reducer's state, so a session
    written through the incremental path reopens under full replay.  What the
    writer asks of its client is stated as [StoreSession.admissible]: decimal
    cost texts, a sequence counter that is not exhausted, and no lone user
    message under an identity that a tool intent or an activation reserved;
    the last is a condition the code does not check, and
    [StoreSession.stray_user_message_corrupts] shows what happens without it.

    Sealed commits and headers decode to themselves, decoding accepts only
    exact encodings, and a digest covers everything but for collisions.  The
    replay of a file does not depend on how it is read, and a failed read is
    an error.  Over every sequence of commits with write failures, closings,
    crashes that lose unsynchronized bytes, reopenings and repairs
    ([JsonlCrash.world_step]), the file is a valid log followed by at most
    one unterminated line, no commit acknowledged in strict mode is lost, and
    repair makes the directory usable again.  A durable client must also use
    identifiers and provider contexts the decoder accepts and values whose
    JSON text is exact ([JsonlCommit.durable_admissible]).

    Snapshots replay exactly what was pushed.  Garbage collection never
    touches a planned root and leaves exactly the reachable objects;
    verification establishes that every reachable object is present, intact
    and of its recorded length, and survives a collection.  Decimal addition
    is exact, paging and search return what they promise, digests, JSON
    values and hashed field sequences are recovered from their encodings.

    In the runtime, the update computed from two configurations is valid and
    leads exactly from one to the other; both projections of a transcript
    carry the same configuration and conversation; updates in place only
    extend the request text.  A prepared transcript answers every tool call
    before the next message, keeps updates in order, drops incomplete turns
    and shows private reasoning only to the model that produced it.  Schema
    validation never panics and accepts exactly the values that conform to
    [SchemaProofs.conforms], the meaning of the supported vocabulary.  The
    streaming preview is bounded, and accounting totals are the sums of what
    was reported.

    At most one run owns an agent: in every interleaving of starting, driving,
    aborting, settling and resetting, at most one run is unfinished; two
    interleavings of an abort that leave the agent stuck are exhibited.  The
    structural check of a history decides the pairing discipline of
    [CompactionProofs.structured]; the automatic split and the carried
    configuration keep it.  A request carries the canonical configuration and
    authorised tools only, whatever a hook does.  A batch of tool calls
    returns with one result per call and all its effects settled, whichever
    way progress, completion and cancellation interleave, and then the
    history passes the structural check; a nested call of a cancelled
    composition tool is the exception that is exhibited.

    Driving a run returns and settles it: terminal, with an idle and free
    agent, whatever hooks, gate, stream, compactor and other threads do until
    they settle down.  A stream adds exactly one message, the reduction of its
    events.  A compaction leaves the conversation alone or publishes a checked
    replacement that was written first.  Recovery completes a batch in the
    order of its calls, routing stays within the approved targets, and the
    continuity reported for a request is the prefix relation of the bytes.

    The branch of a lane the reducer accepts is found without an error, and
    deriving a context from it returns.  A context shows every selected entry,
    each assistant with the results of its calls in the order of the calls,
    hides exactly what a compaction replaced, keeps the original task in view
    and fits its limit; a replacement decodes to what was encoded.  Private
    material of another lane stays out, except through the replacement of an
    inherited compaction, which is exhibited.

    Every request sent to Anthropic answers the tool uses it shows in the next
    message, keeps its limits, and differs from a replay the adapter declares
    safe in its output limit alone.  It hands the run a stream it accepts, with one terminal
    event at the end, whatever the server does; it is sent a bounded number of
    times, always with the same bytes, and never again after output; it is
    over as soon as the server's answers are; and an answered request gives
    exactly the reduction of the events the server wrote, however the bytes
    are chunked.  Repairing JSON is idempotent, backoff is the capped power of
    two, and an estimated cost is an exact sum.  A requested delay that does
    not fit a [Duration] panics, which is exhibited.

    The two trace encodings print the same record.  A CBOR sequence of any
    number of records is read back exactly, and so is the JSON Lines text of
    an episode in lifecycle order; the decoder accepts nothing but canonical
    lines in that order.  An isolated sink never fails and counts refusals.

    ** Bounds and fuel

    [Reduction.reverse_chain] walks parents with the number of entries as
    fuel, [Artifact.search_loop] scans with the length of the object as fuel,
    [Jsonl.decode_commit_lines] reads lines with the number of unread bytes as
    fuel, [SchemaValidation.validate_value] descends with the height of the
    schema as fuel, [ContextProjection.branch_walk] walks parents with one
    more than the number of entries as fuel; all are proved sufficient (the model panics when fuel runs out, and
    the theorems exclude that).  The polling loops of [ToolRun] take fuel for
    the polls that find nothing; a host that settles down after [D] boundaries
    needs at most [2 * D + 1] rounds and one per call
    ([ToolRunProofs.settles_down]).  A drive takes fuel for rounds as well:
    each round crosses a boundary or is the one retry of an overflow, so
    [2 * D + 2] rounds suffice ([RunLoopProofs.remaining]).
    [ContextProjection.ordered_from] takes the length of the branch, of which
    every round consumes an entry, and [AnthropicSse.push_loop] the length of
    its buffer, of which every round removes a byte.  The polls of a provider
    stream are a list of rounds; [AnthropicProofs.progress_measure] decreases
    with each that is not idle.  Unsigned integers are natural numbers with
    the saturating and checked operations of the source written out; [usize]
    has 64 bits.

    ** Parameters

    BLAKE3 and the miniserde text codec are dependencies of the repository:
    the classes [Ids.Blake3] and [Json.Miniserde].  [Ids.Blake3Law] states the
    shape of a digest, [JsonlLog.MiniserdeLaw] that the compact printer writes
    one line of UTF-8 that the parser reads back, for values without
    floating-point numbers; [JsonlCodec] is a codec that satisfies it.  For
    traces, [TraceDecode.parses_record] states that the parser returns the tree
    of a written line.  The answers of the operating system (buffer contents, write and
    synchronization failures) are arguments of the operations; a file keeps
    at least its synchronized prefix over a crash.

    ** Not modelled, and planned

    The filesystem artifact store, file locks, permissions, directory
    publication and export are file I/O.  Of [tea-core], the nested-call service,
    cache warming, the supervisor and the harness lineage are not modelled.
    Of [tea-providers], the capture of Anthropic requests and the other adapters
    are not modelled; the application, transport and terminal crates are outside
    this library. *)

From stdpp Require Import base gmap sets list strings pretty sorting.

(** ** Outcomes of fallible Rust code

    A Rust function returning [Result<A, E>] that may also panic (through
    [expect], an out-of-range index or a checked subtraction) is a function
    into [Outcome E A].  Panics are values, so that "never panics" is a
    statement about the definitions and not a modelling convention. *)
Inductive Outcome (E A : Type) : Type :=
| Ok (a : A)
| Err (e : E)
| Panic (reason : string).
Arguments Ok {E A} a.
Arguments Err {E A} e.
Arguments Panic {E A} reason.

(** The [?] operator: errors and panics leave the function early. *)
Definition obind {E A B : Type} (m : Outcome E A) (k : A -> Outcome E B) : Outcome E B :=
  match m with
  | Ok a => k a
  | Err e => Err e
  | Panic r => Panic r
  end.

(** [Result::map_err]. *)
Definition map_err {E F A : Type} (f : E -> F) (m : Outcome E A) : Outcome F A :=
  match m with
  | Ok a => Ok a
  | Err e => Err (f e)
  | Panic r => Panic r
  end.

(** [Option::ok_or_else] followed by [?]. *)
Definition ok_or {E A : Type} (o : option A) (e : E) : Outcome E A :=
  match o with
  | Some a => Ok a
  | None => Err e
  end.

(** [Option::expect]. *)
Definition expect {E A : Type} (o : option A) (reason : string) : Outcome E A :=
  match o with
  | Some a => Ok a
  | None => Panic reason
  end.

Declare Scope rust_scope.
Delimit Scope rust_scope with rust.
Notation "'let?' x ':=' m 'in' k" := (obind m (fun x => k))
  (at level 10, x pattern, m at level 100, k at level 200,
   format "'[v' 'let?'  x  ':='  m  'in' '/' k ']'") : rust_scope.
Notation "'check?' m 'in' k" := (obind m (fun _ => k))
  (at level 10, m at level 100, k at level 200,
   format "'[v' 'check?'  m  'in' '/' k ']'") : rust_scope.
#[global] Open Scope rust_scope.

(** A [for] loop over a list whose body may leave the function with [?]. *)
Fixpoint ofold {E A S : Type} (f : S -> A -> Outcome E S) (s : S) (l : list A) : Outcome E S :=
  match l with
  | [] => Ok s
  | x :: l => obind (f s x) (fun s => ofold f s l)
  end.

(** [Iterator::map] followed by [collect::<Result<Vec<_>, _>>()]. *)
Section omap_list.
Context {E A B : Type} (f : A -> Outcome E B).

Fixpoint omap_list (l : list A) : Outcome E (list B) :=
  match l with
  | [] => Ok []
  | x :: l => obind (f x) (fun y => obind (omap_list l) (fun ys => Ok (y :: ys)))
  end.
End omap_list.

Definition is_ok {E A : Type} (m : Outcome E A) : bool :=
  match m with Ok _ => true | _ => false end.

Section outcome_facts.
Context {E A B : Type}.
Implicit Types (m : Outcome E A) (k : A -> Outcome E B).

Lemma obind_Ok_inv m k b :
  obind m k = Ok b -> exists a, m = Ok a /\ k a = Ok b.
Proof. destruct m; simpl; [eauto | discriminate..]. Qed.

Lemma obind_assoc {C} m k (h : B -> Outcome E C) :
  obind (obind m k) h = obind m (fun a => obind (k a) h).
Proof. by destruct m. Qed.

Lemma ok_or_Ok_inv (o : option A) (e : E) a : ok_or o e = Ok a -> o = Some a.
Proof. destruct o; simpl; congruence. Qed.

Lemma expect_Ok_inv (o : option A) r a : @expect E A o r = Ok a -> o = Some a.
Proof. destruct o; simpl; congruence. Qed.
End outcome_facts.

Lemma ofold_app {E A S} (f : S -> A -> Outcome E S) s l1 l2 :
  ofold f s (l1 ++ l2) = obind (ofold f s l1) (fun s => ofold f s l2).
Proof.
  revert s; induction l1 as [|x l1 IH]; intros s; simpl; [done|].
  destruct (f s x); simpl; auto.
Qed.

Lemma ofold_snoc {E A S} (f : S -> A -> Outcome E S) s l x :
  ofold f s (l ++ [x]) = obind (ofold f s l) (fun s => f s x).
Proof.
  rewrite ofold_app. destruct (ofold f s l) as [s'| |]; simpl; [|done..].
  by destruct (f s' x).
Qed.

(** The invariant rule for a fallible loop. *)
Lemma ofold_invariant {E A S} (I : S -> Prop) (f : S -> A -> Outcome E S) s l s' :
  (forall s x s', I s -> f s x = Ok s' -> I s') ->
  I s -> ofold f s l = Ok s' -> I s'.
Proof.
  intros Hstep. revert s; induction l as [|x l IH]; intros s HI; simpl.
  - by intros [= <-].
  - intros (s1 & Hf & Hrest)%obind_Ok_inv. eauto.
Qed.

(** A loop never panics when no body does from a state of the invariant. *)
Lemma ofold_no_panic {E A S} (I : S -> Prop) (f : S -> A -> Outcome E S) s l r :
  (forall s x s', I s -> f s x = Ok s' -> I s') ->
  (forall s x r, I s -> f s x <> Panic r) ->
  I s -> ofold f s l <> Panic r.
Proof.
  intros Hstep Hsafe. revert s; induction l as [|x l IH]; intros s HI; simpl; [done|].
  destruct (f s x) as [s1| |r1] eqn:Hf; simpl; [eauto|done|].
  intros [= ->]. by eapply Hsafe.
Qed.

(** The same rule where the body may use that it visits an element of the list. *)
Lemma ofold_invariant_in {E A S} (I : S -> Prop) (f : S -> A -> Outcome E S) s l s' :
  (forall s x s', x ∈ l -> I s -> f s x = Ok s' -> I s') ->
  I s -> ofold f s l = Ok s' -> I s'.
Proof.
  revert s; induction l as [|x l IH]; intros s Hstep HI; simpl.
  - by intros [= <-].
  - intros (s1 & Hf & Hrest)%obind_Ok_inv.
    apply (IH s1); [|eapply Hstep; [left|..]; eauto|done].
    intros ????. eapply Hstep. by right.
Qed.

(** What the body establishes of the element it visits, and later bodies keep,
    holds of every element at the end. *)
Lemma ofold_visits {E A S} (P : S -> A -> Prop) (f : S -> A -> Outcome E S) s l s' :
  (forall s x s', f s x = Ok s' -> P s' x) ->
  (forall s x s' y, P s y -> f s x = Ok s' -> P s' y) ->
  ofold f s l = Ok s' -> forall x, x ∈ l -> P s' x.
Proof.
  intros Hvisit Hkeep. revert s; induction l as [|y l IH]; intros s Hf x Hx; [by inversion Hx|].
  simpl in Hf. apply obind_Ok_inv in Hf as (s1 & Hs1 & Hf).
  apply elem_of_cons in Hx as [->|Hx]; [|by eapply IH].
  eapply (ofold_invariant (fun s => P s y)); eauto.
Qed.

(** A loop never panics when no body does, for a body that may use its element. *)
Lemma ofold_no_panic_in {E A S} (I : S -> Prop) (f : S -> A -> Outcome E S) s l r :
  (forall s x s', x ∈ l -> I s -> f s x = Ok s' -> I s') ->
  (forall s x r, x ∈ l -> I s -> f s x <> Panic r) ->
  I s -> ofold f s l <> Panic r.
Proof.
  revert s; induction l as [|x l IH]; intros s Hstep Hsafe HI; simpl; [done|].
  destruct (f s x) as [s1| |r1] eqn:Hf; simpl; [|done|].
  - apply IH; [intros ????; apply Hstep; by right|intros ?????; eapply Hsafe; [by right|done]|].
    eapply Hstep; [left|..]; eauto.
  - intros [= ->]. eapply Hsafe; [left|..]; eauto.
Qed.

(** Every body succeeding, a loop succeeds. *)
Lemma ofold_total {E A S} (I : S -> Prop) (f : S -> A -> Outcome E S) s l :
  (forall s x, I s -> x ∈ l -> exists s', f s x = Ok s' /\ I s') ->
  I s -> exists s', ofold f s l = Ok s' /\ I s'.
Proof.
  revert s; induction l as [|x l IH]; intros s Hstep HI; simpl; [eauto|].
  destruct (Hstep s x HI) as (s1 & -> & HI1); [set_solver|].
  apply IH; [|done]. intros s2 y ??. apply Hstep; set_solver.
Qed.

Lemma obind_no_panic {E A B} (m : Outcome E A) (k : A -> Outcome E B) r :
  (forall r, m <> Panic r) -> (forall a r, k a <> Panic r) -> obind m k <> Panic r.
Proof. destruct m as [a|e|r']; simpl; intros Hm Hk; [apply Hk|done|by destruct (Hm r')]. Qed.

Lemma omap_list_no_panic {E A B} (f : A -> Outcome E B) l r :
  Forall (fun x => forall r, f x <> Panic r) l -> omap_list f l <> Panic r.
Proof.
  intros Hall; revert r; induction Hall as [|x l Hx _ IH]; intros r; simpl; [done|].
  apply obind_no_panic; [done|]. intros y r'. by apply obind_no_panic.
Qed.

Lemma is_ok_obind {E A B} (m : Outcome E A) (k : A -> Outcome E B) :
  is_ok (obind m k) = match m with Ok a => is_ok (k a) | _ => false end.
Proof. by destruct m. Qed.

Lemma is_ok_obind_Ok {E A B} (m : Outcome E A) (g : A -> B) :
  is_ok (obind m (fun a => Ok (g a))) = is_ok m.
Proof. by destruct m. Qed.

Lemma omap_list_Forall2 {E A B} (f : A -> Outcome E B) l k :
  omap_list f l = Ok k <-> Forall2 (fun x y => f x = Ok y) l k.
Proof.
  revert k; induction l as [|x l IH]; intros k; simpl.
  - split; [by intros [= <-]|by inversion 1].
  - split.
    + intros (y & Hy & (ys & Hys & [= <-])%obind_Ok_inv)%obind_Ok_inv.
      constructor; [done|]. by apply IH.
    + inversion 1 as [|? y ? ys Hy Hys]; subst. rewrite Hy; simpl.
      by rewrite (proj2 (IH ys) Hys).
Qed.

(** ** Field updates of records

    [s <| f := v |>] is the record [s] with field [f] replaced.  A record
    opts in by an [Eta] instance that lists its fields once; setters are then
    built on demand by unification against that expansion. *)
Class Eta (R : Type) := eta : R -> R.

Class Setter {R T : Type} (proj : R -> T) := set_field : (T -> T) -> R -> R.
Arguments set_field {R T} proj {_} _ _ : assert.

Ltac build_setter proj :=
  lazymatch type of proj with
  | ?R -> ?T =>
      let inst := constr:(_ : Eta R) in
      let body := eval red in inst in
      exact (fun (f : T -> T) (r : R) =>
        ltac:(let b := eval cbv beta in (body r) in
              match b with
              | context C [proj r] => let t := context C [f (proj r)] in exact t
              end))
  end.

#[export] Hint Extern 1 (Setter ?proj) => build_setter proj : typeclass_instances.

Notation "r <| p := v |>" := (set_field p (fun _ => v) r)
  (at level 1, left associativity, p at level 9, v at level 200,
   format "r '[' <|  p  :=  v  |> ']'") : rust_scope.
Notation "r <| p ::= f |>" := (set_field p f r)
  (at level 1, left associativity, p at level 9, f at level 200,
   format "r '[' <|  p  ::=  f  |> ']'") : rust_scope.

(** ** Equality as Rust derives it

    [PartialEq] is the boolean equality of the source.  For types with a
    total equality it is the decision procedure; types that hold an [f64]
    get the IEEE comparison instead, so [a == a] may be [false]. *)
Class PartialEq (A : Type) := partial_eq : A -> A -> bool.

#[export] Instance partial_eq_decide `{EqDecision A} : PartialEq A | 50 :=
  fun a b => bool_decide (a = b).

Infix "==?" := partial_eq (at level 70, no associativity) : rust_scope.
Notation "a !=? b" := (negb (partial_eq a b)) (at level 70, no associativity) : rust_scope.

#[export] Instance partial_eq_option `{PartialEq A} : PartialEq (option A) | 60 := fun a b =>
  match a, b with
  | Some a, Some b => a ==? b
  | None, None => true
  | _, _ => false
  end.

Fixpoint list_partial_eq {A} `{PartialEq A} (l k : list A) : bool :=
  match l, k with
  | [], [] => true
  | x :: l, y :: k => (x ==? y) && list_partial_eq l k
  | _, _ => false
  end.
#[export] Instance partial_eq_list `{PartialEq A} : PartialEq (list A) | 60 := list_partial_eq.

#[export] Instance partial_eq_prod `{PartialEq A} `{PartialEq B} : PartialEq (A * B) | 60 :=
  fun a b => (a.1 ==? b.1) && (a.2 ==? b.2).

Lemma partial_eq_decide_spec `{EqDecision A} (a b : A) :
  partial_eq_decide a b = true <-> a = b.
Proof. apply bool_decide_eq_true. Qed.

(** ** Machine integers

    Unsigned integers are values of [N] kept within their width by the
    operations that produce them. *)
Definition u16_max : N := 65535.
Definition u32_max : N := 4294967295.
Definition u64_max : N := 18446744073709551615.

(** [u64::saturating_add]. *)
Definition u64_saturating_add (a b : N) : N := (a + b) `min` u64_max.

(** [u32::saturating_add]. *)
Definition u32_saturating_add (a b : N) : N := (a + b) `min` u32_max.

(** [value as u32] truncates to the low 32 bits. *)
Definition as_u32 (n : nat) : N := N.of_nat n `mod` 2 ^ 32.

Lemma u64_saturating_add_bound a b : (u64_saturating_add a b <= u64_max)%N.
Proof. unfold u64_saturating_add. lia. Qed.

Lemma u64_saturating_add_exact a b :
  (a + b <= u64_max)%N -> u64_saturating_add a b = (a + b)%N.
Proof. unfold u64_saturating_add. lia. Qed.

(** ** Ordered maps

    A [BTreeMap] is a [gmap]; where the source iterates over it, the model
    iterates over the bindings sorted by key, as Rust does. *)
Class BTreeKey (K : Type) := key_leb : K -> K -> bool.
#[export] Instance string_btree_key : BTreeKey string := String.leb.

Section btree.
Context `{Countable K} `{!BTreeKey K} {V : Type}.

Definition binding_le (a b : K * V) : Prop := key_leb a.1 b.1 = true.
#[export] Instance binding_le_dec a b : Decision (binding_le a b) := decide (key_leb a.1 b.1 = true).

(** [BTreeMap::iter], [BTreeMap::values]. *)
Definition btree_iter (m : gmap K V) : list (K * V) := merge_sort binding_le (map_to_list m).
Definition btree_values (m : gmap K V) : list V := (btree_iter m).*2.

Lemma elem_of_btree_iter (m : gmap K V) k v : (k, v) ∈ btree_iter m <-> m !! k = Some v.
Proof.
  unfold btree_iter. rewrite (merge_sort_Permutation binding_le). apply elem_of_map_to_list.
Qed.

Lemma elem_of_btree_values (m : gmap K V) v :
  v ∈ btree_values m <-> exists k, m !! k = Some v.
Proof.
  unfold btree_values. rewrite list_elem_of_fmap. split.
  - intros ([k w] & -> & Hin). exists k. by apply elem_of_btree_iter.
  - intros (k & Hk). exists (k, v). split; [done|]. by apply elem_of_btree_iter.
Qed.
End btree.

#[export] Instance partial_eq_gmap `{Countable K} `{!BTreeKey K} `{PartialEq V} :
  PartialEq (gmap K V) | 60 :=
  fun m1 m2 => btree_iter m1 ==? btree_iter m2.

(** ** Automation

    [tea] collects the inversion lemmas of boolean tests; [outcome_inv]
    decomposes a successful fallible computation into the successes of its
    parts. *)
Create HintDb tea discriminated.

(** [BTreeMap::contains_key] and [BTreeSet::contains]. *)
Definition has {K V} `{Countable K} (k : K) (m : gmap K V) : bool :=
  match m !! k with Some _ => true | None => false end.
Definition mem {K} `{Countable K} (k : K) (X : gset K) : bool := bool_decide (k ∈ X).

Section membership.
Context `{Countable K} {V : Type}.

Lemma has_true (k : K) (m : gmap K V) : has k m = true <-> is_Some (m !! k).
Proof. unfold has. rewrite <-not_eq_None_Some. destruct (m !! k); naive_solver. Qed.

Lemma has_false (k : K) (m : gmap K V) : has k m = false <-> m !! k = None.
Proof. unfold has. by destruct (m !! k). Qed.

Lemma mem_true (k : K) (X : gset K) : mem k X = true <-> k ∈ X.
Proof. apply bool_decide_eq_true. Qed.

Lemma mem_false (k : K) (X : gset K) : mem k X = false <-> k ∉ X.
Proof. apply bool_decide_eq_false. Qed.
End membership.

Lemma eqb_true `{EqDecision A} (a b : A) : (a ==? b) = true <-> a = b.
Proof. apply bool_decide_eq_true. Qed.

Lemma eqb_false `{EqDecision A} (a b : A) : (a ==? b) = false <-> a <> b.
Proof. apply bool_decide_eq_false. Qed.

Lemma existsb_false_elem {A} (p : A -> bool) l :
  existsb p l = false <-> forall x, x ∈ l -> p x = false.
Proof.
  induction l as [|y l IH]; simpl; [by split; [intros _ ? ?%elem_of_nil|]|].
  rewrite orb_false_iff, IH. setoid_rewrite elem_of_cons. naive_solver.
Qed.

Lemma existsb_true_elem {A} (p : A -> bool) l :
  existsb p l = true <-> exists x, x ∈ l /\ p x = true.
Proof.
  rewrite existsb_exists. by setoid_rewrite list_elem_of_In.
Qed.

Lemma forallb_elem {A} (p : A -> bool) l : forallb p l = true <-> forall x, x ∈ l -> p x = true.
Proof. rewrite forallb_forall. by setoid_rewrite list_elem_of_In. Qed.

Lemma filter_elem {A} (p : A -> bool) l x : x ∈ List.filter p l <-> x ∈ l /\ p x = true.
Proof. rewrite !list_elem_of_In. apply filter_In. Qed.

Lemma find_elem {A} (p : A -> bool) l x : List.find p l = Some x -> x ∈ l /\ p x = true.
Proof. rewrite list_elem_of_In. apply find_some. Qed.

(** Turn a boolean hypothesis into the proposition it decides. *)
Ltac bool_inv :=
  repeat match goal with
  | H : negb _ = true |- _ => apply negb_true_iff in H
  | H : negb _ = false |- _ => apply negb_false_iff in H
  | H : (_ && _) = true |- _ => apply andb_true_iff in H; destruct H
  | H : (_ || _) = false |- _ => apply orb_false_iff in H; destruct H
  | H : (_ ==? _) = true |- _ => rewrite eqb_true in H
  | H : (_ ==? _) = false |- _ => rewrite eqb_false in H
  | H : has _ _ = true |- _ => apply has_true in H
  | H : has _ _ = false |- _ => apply has_false in H
  | H : mem _ _ = true |- _ => apply mem_true in H
  | H : mem _ _ = false |- _ => apply mem_false in H
  | H : N.eqb _ _ = true |- _ => apply N.eqb_eq in H
  | H : N.eqb _ _ = false |- _ => apply N.eqb_neq in H
  | H : N.ltb _ _ = false |- _ => apply N.ltb_ge in H
  end.

Ltac outcome_inv_step :=
  match goal with
  | H : obind ?m _ = Ok _ |- _ =>
      let x := fresh "x" in let H1 := fresh "Hok" in let H2 := fresh "Hok" in
      apply obind_Ok_inv in H as (x & H1 & H2)
  | H : ok_or _ _ = Ok _ |- _ => apply ok_or_Ok_inv in H
  | H : expect _ _ = Ok _ |- _ => apply expect_Ok_inv in H
  | H : Err _ = Ok _ |- _ => discriminate H
  | H : Panic _ = Ok _ |- _ => discriminate H
  | H : Ok ?a = Ok ?b |- _ =>
      let E := fresh in assert (a = b) as E by congruence; clear H;
      first [subst a | subst b | injection E; clear E; intros; subst | idtac]
  | u : unit |- _ => destruct u
  end.

Ltac outcome_inv := repeat outcome_inv_step.

(** ** Stable sorting

    [slice::sort_by_key], which keeps the order of equal keys. *)
Fixpoint insert_by_key {A} (key : A -> N) (x : A) (l : list A) : list A :=
  match l with
  | [] => [x]
  | y :: l' => if (key x <=? key y)%N then x :: l else y :: insert_by_key key x l'
  end.
Definition sort_by_key {A} (key : A -> N) (l : list A) : list A := foldr (insert_by_key key) [] l.
Lemma insert_by_key_perm {A} (key : A -> N) x l : insert_by_key key x l ≡ₚ x :: l.
Proof. induction l as [|y l IH]; cbn; [done|]. destruct (key x <=? key y)%N; [done|]. rewrite IH. by constructor. Qed.
Lemma sort_by_key_perm {A} (key : A -> N) l : sort_by_key key l ≡ₚ l.
Proof. induction l as [|x l IH]; cbn; [done|]. by rewrite insert_by_key_perm, IH. Qed.
Lemma insert_by_key_sorted {A} (key : A -> N) x l :
  StronglySorted N.le (map key l) -> StronglySorted N.le (map key (insert_by_key key x l)).
Proof.
  induction l as [|y l IH]; cbn; [by repeat constructor|]. intros Hs. inversion Hs as [|? ? Hl Hy]; subst.
  destruct (N.leb_spec (key x) (key y)) as [Hle|Hgt]; cbn.
  - constructor; [done|]. constructor; [done|]. eapply Forall_impl; [exact Hy|]. cbn. intros. lia.
  - constructor; [by apply IH|]. rewrite (insert_by_key_perm key x l). constructor; [lia|done].
Qed.
Lemma sort_by_key_sorted {A} (key : A -> N) l : StronglySorted N.le (map key (sort_by_key key l)).
Proof. induction l as [|x l IH]; cbn; [constructor|]. by apply insert_by_key_sorted. Qed.
