(* ===== verification/RustStr.v ===== *)
(** * The parts of Rust's [str] the session crate uses

    A [String] is its UTF-8 byte sequence, a Stdlib [string] whose characters
    are the bytes; [len] is [String.length].  Methods that look at Unicode
    scalar values go through [chars], the UTF-8 decoder; [from_utf8] is the
    strict validation of bytes that come from a file. *)

From Stdlib Require Import Ascii.
From stdpp Require Import base list strings.
From S2P Require Import Prelude.

Local Open Scope N_scope.

(** The byte value of an element of a byte string. *)
Definition byte_of (a : ascii) : N := Ascii.N_of_ascii a.

(** [str::as_bytes]. *)
Fixpoint bytes_of (s : string) : list N :=
  match s with
  | EmptyString => []
  | String a s => byte_of a :: bytes_of s
  end.

Definition ascii_of_byte (n : N) : ascii := Ascii.ascii_of_N n.

(** [String::from_utf8] on bytes known to be text. *)
Fixpoint string_of_bytes (l : list N) : string :=
  match l with
  | [] => EmptyString
  | b :: l => String (ascii_of_byte b) (string_of_bytes l)
  end.

Definition str_len (s : string) : nat := String.length s.
Definition str_is_empty (s : string) : bool :=
  match s with EmptyString => true | _ => false end.

(** A continuation byte carries six payload bits. *)
Definition cont_bits (a : ascii) : N := N.land (byte_of a) 63.

(** [str::chars]: the Unicode scalar values of a valid UTF-8 string. *)
Fixpoint chars (s : string) : list N :=
  match s with
  | EmptyString => []
  | String a s1 =>
      let b := byte_of a in
      if b <? 128 then b :: chars s1
      else if b <? 224 then
        match s1 with
        | String a1 s2 => (N.shiftl (N.land b 31) 6 + cont_bits a1) :: chars s2
        | EmptyString => []
        end
      else if b <? 240 then
        match s1 with
        | String a1 (String a2 s2) =>
            (N.shiftl (N.land b 15) 12 + N.shiftl (cont_bits a1) 6 + cont_bits a2) :: chars s2
        | _ => []
        end
      else
        match s1 with
        | String a1 (String a2 (String a3 s2)) =>
            (N.shiftl (N.land b 7) 18 + N.shiftl (cont_bits a1) 12
             + N.shiftl (cont_bits a2) 6 + cont_bits a3) :: chars s2
        | _ => []
        end
  end.

(** [char::is_control]: the general category Cc. *)
Definition char_is_control (c : N) : bool := (c <? 32) || ((127 <=? c) && (c <? 160)).

(** [char::is_whitespace]: the White_Space property. *)
Definition char_is_whitespace (c : N) : bool :=
  ((9 <=? c) && (c <=? 13)) || (c =? 32) || (c =? 133) || (c =? 160) || (c =? 5760)
  || ((8192 <=? c) && (c <=? 8202)) || (c =? 8232) || (c =? 8233) || (c =? 8239)
  || (c =? 8287) || (c =? 12288).

(** [value.chars().any(char::is_control)]. *)
Definition has_control (s : string) : bool := existsb char_is_control (chars s).

Fixpoint drop_while {A} (p : A -> bool) (l : list A) : list A :=
  match l with
  | [] => []
  | x :: l' => if p x then drop_while p l' else l
  end.

(** [str::trim] on the decoded text. *)
Definition trim_chars (l : list N) : list N :=
  reverse (drop_while char_is_whitespace (reverse (drop_while char_is_whitespace l))).

(** [value == value.trim()]. *)
Definition str_is_trimmed (s : string) : bool := bool_decide (trim_chars (chars s) = chars s).

(** [str::contains] and [str::starts_with] for an ASCII character. *)
Fixpoint str_contains (c : ascii) (s : string) : bool :=
  match s with
  | EmptyString => false
  | String a s => Ascii.eqb a c || str_contains c s
  end.
Definition str_starts_with (c : ascii) (s : string) : bool :=
  match s with
  | String a _ => Ascii.eqb a c
  | EmptyString => false
  end.

(** [str::trim_start_matches] for an ASCII character. *)
Fixpoint trim_start_matches (c : ascii) (s : string) : string :=
  match s with
  | String a s' => if Ascii.eqb a c then trim_start_matches c s' else s
  | EmptyString => EmptyString
  end.

(** [str::split] on an ASCII separator: never empty. *)
Fixpoint str_split (c : ascii) (s : string) : list string :=
  match s with
  | EmptyString => [EmptyString]
  | String a s =>
      if Ascii.eqb a c then EmptyString :: str_split c s
      else match str_split c s with
           | [] => [String a EmptyString]
           | seg :: segs => String a seg :: segs
           end
  end.

(** [str::split_once] on the first byte satisfying an ASCII predicate. *)
Fixpoint split_once (p : ascii -> bool) (s : string) : option (string * string) :=
  match s with
  | EmptyString => None
  | String a s =>
      if p a then Some (EmptyString, s)
      else match split_once p s with
           | Some (before, after) => Some (String a before, after)
           | None => None
           end
  end.

Definition is_ascii_digit (b : N) : bool := (48 <=? b) && (b <=? 57).
Definition is_ascii_lowercase (b : N) : bool := (97 <=? b) && (b <=? 122).
Definition is_ascii_uppercase (b : N) : bool := (65 <=? b) && (b <=? 90).
Definition is_ascii_alphanumeric (b : N) : bool :=
  is_ascii_digit b || is_ascii_lowercase b || is_ascii_uppercase b.

Fixpoint str_concat (l : list string) : string :=
  match l with
  | [] => EmptyString
  | s :: l => s +:+ str_concat l
  end.

(** ** Facts *)

Lemma bytes_of_string_of_bytes l :
  Forall (fun b => b < 256) l -> bytes_of (string_of_bytes l) = l.
Proof.
  induction 1 as [|b l Hb _ IH]; simpl; [done|].
  unfold byte_of, ascii_of_byte. by rewrite Ascii.N_ascii_embedding, IH.
Qed.

Lemma string_of_bytes_of s : string_of_bytes (bytes_of s) = s.
Proof.
  induction s as [|a s IH]; simpl; [done|].
  unfold byte_of, ascii_of_byte. by rewrite Ascii.ascii_N_embedding, IH.
Qed.

Lemma byte_of_bound a : byte_of a < 256.
Proof. apply Ascii.N_ascii_bounded. Qed.

Lemma bytes_of_bound s : Forall (fun b => b < 256) (bytes_of s).
Proof. induction s; simpl; constructor; auto using byte_of_bound. Qed.

Lemma bytes_of_inj s t : bytes_of s = bytes_of t -> s = t.
Proof. intros Heq. rewrite <-(string_of_bytes_of s), Heq. apply string_of_bytes_of. Qed.

Lemma length_bytes_of s : length (bytes_of s) = String.length s.
Proof. induction s; simpl; auto. Qed.

Lemma bytes_of_app s t : bytes_of (s +:+ t) = (bytes_of s ++ bytes_of t)%list.
Proof. induction s as [|a s IH]; simpl; [done|]. by rewrite IH. Qed.

Lemma str_split_non_nil c s : str_split c s <> [].
Proof. destruct s as [|a s]; simpl; [done|]. by repeat case_match. Qed.

(** Splitting and joining by the separator give the text back. *)
Fixpoint str_join (c : ascii) (l : list string) : string :=
  match l with
  | [] => EmptyString
  | [s] => s
  | s :: l => s +:+ String c (str_join c l)
  end.

Lemma str_join_split c s : str_join c (str_split c s) = s.
Proof.
  induction s as [|a s IH]; simpl; [done|].
  destruct (Ascii.eqb a c) eqn:Hac.
  - apply Ascii.eqb_eq in Hac as ->. simpl.
    destruct (str_split c s) eqn:Hs; [by apply str_split_non_nil in Hs|]. by rewrite IH.
  - destruct (str_split c s) as [|seg segs]; simpl in *; [by rewrite <-IH|].
    rewrite <-IH. by destruct segs.
Qed.

(** A decidable fact about bytes is checked by evaluating it on all of them. *)
Lemma byte_forall (P : N -> bool) :
  forallb P (map N.of_nat (seq 0 256)) = true -> forall b, b < 256 -> P b = true.
Proof.
  intros Hall b Hb. rewrite forallb_forall in Hall. apply Hall.
  rewrite <-(N2Nat.id b). apply in_map, in_seq. lia.
Qed.

(** [core::str::Utf8Error]. *)
Record Utf8Error := mk_utf8_error {
  valid_up_to : N;
  error_len : option N;
}.

Definition in_range (low high b : N) : bool := (low <=? b) && (b <=? high).
Definition is_continuation : N -> bool := in_range 128 191.

(** The second byte a three-byte or four-byte lead admits. *)
Definition second_of_three (first b : N) : bool :=
  if first =? 224 then in_range 160 191 b
  else if first =? 237 then in_range 128 159 b
  else is_continuation b.
Definition second_of_four (first b : N) : bool :=
  if first =? 240 then in_range 144 191 b
  else if first =? 244 then in_range 128 143 b
  else is_continuation b.

(** [run_utf8_validation], from the byte at position [index] on. *)
Fixpoint utf8_validation (index : N) (bytes : list N) : option Utf8Error :=
  let malformed len := Some (mk_utf8_error index (Some len)) in
  let incomplete := Some (mk_utf8_error index None) in
  match bytes with
  | [] => None
  | first :: l =>
      if first <? 128 then utf8_validation (index + 1) l
      else if in_range 194 223 first then
        match l with
        | [] => incomplete
        | b1 :: l1 => if is_continuation b1 then utf8_validation (index + 2) l1 else malformed 1
        end
      else if in_range 224 239 first then
        match l with
        | [] => incomplete
        | b1 :: l1 =>
            if second_of_three first b1 then
              match l1 with
              | [] => incomplete
              | b2 :: l2 => if is_continuation b2 then utf8_validation (index + 3) l2 else malformed 2
              end
            else malformed 1
        end
      else if in_range 240 244 first then
        match l with
        | [] => incomplete
        | b1 :: l1 =>
            if second_of_four first b1 then
              match l1 with
              | [] => incomplete
              | b2 :: l2 =>
                  if is_continuation b2 then
                    match l2 with
                    | [] => incomplete
                    | b3 :: l3 =>
                        if is_continuation b3 then utf8_validation (index + 4) l3 else malformed 3
                    end
                  else malformed 2
              end
            else malformed 1
        end
      else malformed 1
  end.

(** [str::from_utf8] and [String::from_utf8]. *)
Definition from_utf8 (bytes : list N) : Outcome Utf8Error string :=
  match utf8_validation 0 bytes with
  | Some error => Err error
  | None => Ok (string_of_bytes bytes)
  end.

(** The text of a [str] is valid by its type. *)
Definition utf8_ok (s : string) : bool :=
  match utf8_validation 0 (bytes_of s) with None => true | Some _ => false end.

Lemma from_utf8_text s : utf8_ok s = true -> from_utf8 (bytes_of s) = Ok s.
Proof.
  unfold utf8_ok, from_utf8. destruct (utf8_validation 0 (bytes_of s)); [done|].
  by rewrite string_of_bytes_of.
Qed.

Lemma utf8_validation_ascii index l : Forall (fun b => b < 128) l -> utf8_validation index l = None.
Proof.
  intros Hl. revert index. induction Hl as [|b l Hb _ IH]; intros index; cbn [utf8_validation]; [done|].
  apply N.ltb_lt in Hb. rewrite Hb. apply IH.
Qed.
