(* ===== verification/Json.v ===== *)
(** * tea-protocol: the JSON value model ([crates/tea-protocol/src/json.rs])

    [JsonValue] with the accessors the session crate calls, its derived
    equality, the conversions to and from the value type of the [miniserde]
    package and the indented printer.  The text codec of [miniserde] itself
    is not part of the repository: it is the parameter class [Miniserde]. *)

From Stdlib Require Import Ascii.
From stdpp Require Import base list strings sorting sets.
From S2P Require Import Prelude RustStr.

Set Warnings "-register-all".

(** ** Data *)

(** An [f64] as its IEEE-754 bit pattern: bits 0-51 the fraction, 52-62 the exponent. *)
Record F64 := mk_f64 { f64_bits : N }.

Definition f64_exponent (x : F64) : N := (f64_bits x / 4503599627370496) `mod` 2048.
Definition f64_fraction (x : F64) : N := f64_bits x `mod` 4503599627370496.

(** [f64::is_finite], [f64::is_nan]. *)
Definition f64_is_finite (x : F64) : bool := negb (f64_exponent x =? 2047)%N.
Definition f64_is_nan (x : F64) : bool :=
  (f64_exponent x =? 2047)%N && negb (f64_fraction x =? 0)%N.
Definition f64_is_zero (x : F64) : bool := (f64_bits x `mod` 9223372036854775808 =? 0)%N.

#[global] Arguments f64_exponent : simpl never.
#[global] Arguments f64_fraction : simpl never.
#[global] Arguments f64_is_finite : simpl never.
#[global] Arguments f64_is_nan : simpl never.
#[global] Arguments f64_is_zero : simpl never.

(** [==] on [f64]: a NaN differs from everything, the two zeros agree. *)
#[export] Instance f64_partial_eq : PartialEq F64 := fun x y =>
  negb (f64_is_nan x) && negb (f64_is_nan y)
  && ((f64_bits x =? f64_bits y)%N || (f64_is_zero x && f64_is_zero y)).

Inductive JsonNumber :=
| Signed (value : Z)
| Unsigned (value : N)
| Float (value : F64).

(** Objects are [BTreeMap]s: association lists kept in strict key order. *)
Inductive JsonValue :=
| JsonNull
| JsonBool (value : bool)
| JsonNum (value : JsonNumber)
| JsonString (value : string)
| JsonArray (values : list JsonValue)
| JsonObject (values : list (string * JsonValue)).

Inductive JsonKind := KindNull | KindBoolean | KindNumber | KindString | KindArray | KindObject.

Inductive JsonError :=
| TypeMismatch (expected actual : JsonKind)
| MissingField (field : string)
| InvalidNumber (message : string)
| Unsupported (message : string)
| JsonMessage (message : string).

#[export] Instance json_number_partial_eq : PartialEq JsonNumber := fun a b =>
  match a, b with
  | Signed x, Signed y => (x =? y)%Z
  | Unsigned x, Unsigned y => (x =? y)%N
  | Float x, Float y => x ==? y
  | _, _ => false
  end.

Fixpoint json_eq (a b : JsonValue) : bool :=
  match a, b with
  | JsonNull, JsonNull => true
  | JsonBool x, JsonBool y => Bool.eqb x y
  | JsonNum x, JsonNum y => x ==? y
  | JsonString x, JsonString y => String.eqb x y
  | JsonArray l, JsonArray k =>
      (fix go l k :=
         match l, k with
         | [], [] => true
         | x :: l, y :: k => json_eq x y && go l k
         | _, _ => false
         end) l k
  | JsonObject l, JsonObject k =>
      (fix go l k :=
         match l, k with
         | [], [] => true
         | (f, x) :: l, (g, y) :: k => String.eqb f g && json_eq x y && go l k
         | _, _ => false
         end) l k
  | _, _ => false
  end.
#[export] Instance json_value_partial_eq : PartialEq JsonValue := json_eq.

(** Induction through the nested lists. *)
Section json_induction.
Variable P : JsonValue -> Prop.
Hypothesis Hnull : P JsonNull.
Hypothesis Hbool : forall b, P (JsonBool b).
Hypothesis Hnum : forall n, P (JsonNum n).
Hypothesis Hstr : forall s, P (JsonString s).
Hypothesis Harr : forall l, Forall P l -> P (JsonArray l).
Hypothesis Hobj : forall l, Forall (fun kv => P kv.2) l -> P (JsonObject l).

Fixpoint json_ind' (v : JsonValue) : P v :=
  match v with
  | JsonNull => Hnull
  | JsonBool b => Hbool b
  | JsonNum n => Hnum n
  | JsonString s => Hstr s
  | JsonArray l =>
      Harr l ((fix go l : Forall P l :=
                 match l with
                 | [] => Forall_nil_2 _
                 | x :: l => Forall_cons_2 _ _ _ (json_ind' x) (go l)
                 end) l)
  | JsonObject l =>
      Hobj l ((fix go l : Forall (fun kv => P kv.2) l :=
                 match l with
                 | [] => Forall_nil_2 _
                 | (f, x) :: l => Forall_cons_2 _ (f, x) _ (json_ind' x) (go l)
                 end) l)
  end.
End json_induction.

(** ** [BTreeMap<String, V>] as a sorted association list *)

Definition str_lt (a b : string) : Prop := String.compare a b = Lt.

Fixpoint btree_insert {V} (k : string) (v : V) (l : list (string * V)) : list (string * V) :=
  match l with
  | [] => [(k, v)]
  | (k', v') :: l' =>
      match String.compare k k' with
      | Lt => (k, v) :: l
      | Eq => (k, v) :: l'
      | Gt => (k', v') :: btree_insert k v l'
      end
  end.

Fixpoint btree_get {V} (k : string) (l : list (string * V)) : option V :=
  match l with
  | [] => None
  | (k', v') :: l => if String.eqb k k' then Some v' else btree_get k l
  end.

(** [Iterator::collect] into a [BTreeMap]. *)
Definition btree_collect {V} (l : list (string * V)) : list (string * V) :=
  foldl (fun m kv => btree_insert kv.1 kv.2 m) [] l.

Definition btree_wf {V} (l : list (string * V)) : Prop :=
  StronglySorted (fun a b => str_lt a.1 b.1) l.

(** ** [impl JsonValue] *)

(** [JsonValue::number]. *)
Definition json_number (n : JsonNumber) : Outcome JsonError JsonValue :=
  match n with
  | Float value =>
      if f64_is_finite value then Ok (JsonNum n)
      else Err (InvalidNumber "JSON numbers must be finite")
  | _ => Ok (JsonNum n)
  end.

(** [JsonValue::kind]. *)
Definition kind (v : JsonValue) : JsonKind :=
  match v with
  | JsonNull => KindNull
  | JsonBool _ => KindBoolean
  | JsonNum _ => KindNumber
  | JsonString _ => KindString
  | JsonArray _ => KindArray
  | JsonObject _ => KindObject
  end.

(** [JsonValue::as_str], [as_bool], [as_u64], [as_array], [as_object], [is_null], [get]. *)
Definition json_as_str (v : JsonValue) : option string :=
  match v with JsonString s => Some s | _ => None end.
Definition json_as_bool (v : JsonValue) : option bool :=
  match v with JsonBool b => Some b | _ => None end.
Definition json_as_u64 (v : JsonValue) : option N :=
  match v with JsonNum (Unsigned n) => Some n | _ => None end.
Definition json_as_array (v : JsonValue) : option (list JsonValue) :=
  match v with JsonArray l => Some l | _ => None end.
Definition json_as_object (v : JsonValue) : option (list (string * JsonValue)) :=
  match v with JsonObject l => Some l | _ => None end.
Definition json_is_null (v : JsonValue) : bool :=
  match v with JsonNull => true | _ => false end.
Definition json_get (key : string) (v : JsonValue) : option JsonValue :=
  match v with JsonObject l => btree_get key l | _ => None end.

(** [JsonValue::object]. *)
Definition json_object (values : list (string * JsonValue)) : JsonValue :=
  JsonObject (btree_collect values).

(** ** The conversions to miniserde's value type *)

(** [miniserde::json::{Number, Value}], as the exhaustive matches of
    [from_miniserde] show them. *)
Inductive MiniNumber := MiniU64 (value : N) | MiniI64 (value : Z) | MiniF64 (value : F64).
Inductive MiniValue :=
| MiniNull
| MiniBool (value : bool)
| MiniNum (value : MiniNumber)
| MiniString (value : string)
| MiniArray (values : list MiniValue)
| MiniObject (values : list (string * MiniValue)).

(** The text codec of the package. *)
Class Miniserde := {
  mini_to_string : MiniValue -> string;
  mini_from_str : string -> option MiniValue;
}.

(** [JsonValue::from_miniserde]. *)
Fixpoint from_miniserde (value : MiniValue) : Outcome JsonError JsonValue :=
  match value with
  | MiniNull => Ok JsonNull
  | MiniBool b => Ok (JsonBool b)
  | MiniNum (MiniI64 z) => Ok (JsonNum (Signed z))
  | MiniNum (MiniU64 n) => Ok (JsonNum (Unsigned n))
  | MiniNum (MiniF64 x) => json_number (Float x)
  | MiniString s => Ok (JsonString s)
  | MiniArray values =>
      let? l := omap_list from_miniserde values in
      Ok (JsonArray l)
  | MiniObject values =>
      let? l := omap_list (fun kv => let? y := from_miniserde kv.2 in Ok (kv.1, y)) values in
      Ok (JsonObject (btree_collect l))
  end.

(** [JsonValue::to_miniserde]. *)
Fixpoint to_miniserde (value : JsonValue) : Outcome JsonError MiniValue :=
  match value with
  | JsonNull => Ok MiniNull
  | JsonBool b => Ok (MiniBool b)
  | JsonNum (Signed z) => Ok (MiniNum (MiniI64 z))
  | JsonNum (Unsigned n) => Ok (MiniNum (MiniU64 n))
  | JsonNum (Float x) =>
      if f64_is_finite x then Ok (MiniNum (MiniF64 x))
      else Err (InvalidNumber "JSON numbers must be finite")
  | JsonString s => Ok (MiniString s)
  | JsonArray values =>
      let? l := omap_list to_miniserde values in
      Ok (MiniArray l)
  | JsonObject values =>
      let? l := omap_list (fun kv => let? y := to_miniserde kv.2 in Ok (kv.1, y)) values in
      Ok (MiniObject l)
  end.

(** [Debug] of [JsonKind]. *)
Definition json_kind_debug (k : JsonKind) : string :=
  match k with
  | KindNull => "Null"
  | KindBoolean => "Boolean"
  | KindNumber => "Number"
  | KindString => "String"
  | KindArray => "Array"
  | KindObject => "Object"
  end.

(** [Display] of [JsonError]; a field name is shown quoted, as [Debug] prints
    text that needs no escape. *)
Definition json_error_display (e : JsonError) : string :=
  let quote := String (ascii_of_byte 34) EmptyString in
  match e with
  | TypeMismatch expected actual =>
      "expected JSON " +:+ json_kind_debug expected +:+ ", got " +:+ json_kind_debug actual
  | MissingField field => "missing JSON field " +:+ quote +:+ field +:+ quote
  | InvalidNumber message => "invalid JSON number: " +:+ message
  | Unsupported message => "unsupported JSON operation: " +:+ message
  | JsonMessage message => message
  end.

Section text.
Context `{Miniserde}.

(** [JsonValue::parse]. *)
Definition json_parse (input : string) : Outcome JsonError JsonValue :=
  let? value := ok_or (mini_from_str input) (JsonMessage "invalid JSON") in
  from_miniserde value.

(** [JsonValue::to_json_string]. *)
Definition to_json_string (v : JsonValue) : Outcome JsonError string :=
  let? m := to_miniserde v in
  Ok (mini_to_string m).

Definition newline : string := String (ascii_of_byte 10) EmptyString.

(** [indent]. *)
Fixpoint indent (depth : nat) : string :=
  match depth with
  | O => EmptyString
  | S depth => "  " +:+ indent depth
  end.

(** [write_pretty]: the text it appends to [output]. *)
Fixpoint write_pretty (value : JsonValue) (depth : nat) : Outcome JsonError string :=
  match value with
  | JsonNull => Ok "null"
  | JsonBool b => Ok (if b then "true" else "false")
  | JsonNum _ | JsonString _ => to_json_string value
  | JsonArray values =>
      match values with
      | [] => Ok "[]"
      | _ =>
          let? body :=
            (fix go l :=
               match l with
               | [] => Ok EmptyString
               | x :: l =>
                   let? t := write_pretty x (S depth) in
                   let? rest := go l in
                   Ok (newline +:+ indent (S depth) +:+ t
                       +:+ (match l with [] => "" | _ => "," end) +:+ rest)
               end) values in
          Ok ("[" +:+ body +:+ newline +:+ indent depth +:+ "]")
      end
  | JsonObject values =>
      match values with
      | [] => Ok "{}"
      | _ =>
          let? body :=
            (fix go l :=
               match l with
               | [] => Ok EmptyString
               | (f, x) :: l =>
                   let? k := to_json_string (JsonString f) in
                   let? t := write_pretty x (S depth) in
                   let? rest := go l in
                   Ok (newline +:+ indent (S depth) +:+ k +:+ ": " +:+ t
                       +:+ (match l with [] => "" | _ => "," end) +:+ rest)
               end) values in
          Ok ("{" +:+ body +:+ newline +:+ indent depth +:+ "}")
      end
  end.

(** [JsonValue::to_json_string_pretty]. *)
Definition to_json_string_pretty (v : JsonValue) : Outcome JsonError string := write_pretty v 0.
End text.

(** ** Facts *)

(** Every object of the value is a well-formed [BTreeMap]. *)
Fixpoint json_wf (v : JsonValue) : Prop :=
  match v with
  | JsonArray l =>
      (fix go l := match l with [] => True | x :: l => json_wf x /\ go l end) l
  | JsonObject l =>
      btree_wf l /\ (fix go l := match l with [] => True | (_, x) :: l => json_wf x /\ go l end) l
  | _ => True
  end.

(** Every number of the value is finite. *)
Fixpoint json_finite (v : JsonValue) : bool :=
  match v with
  | JsonNum (Float x) => f64_is_finite x
  | JsonArray l => forallb json_finite l
  | JsonObject l => forallb (fun kv => json_finite kv.2) l
  | _ => true
  end.

Lemma str_lt_compare_gt a b : str_lt a b -> String.compare b a = Gt.
Proof. unfold str_lt. intros Hlt. rewrite String.compare_antisym, Hlt. done. Qed.

Lemma str_lt_ne a b : str_lt a b -> a <> b.
Proof.
  unfold str_lt. intros Hlt ->. pose proof (String.compare_antisym b b) as Hcmp.
  by rewrite Hlt in Hcmp.
Qed.

Lemma btree_insert_last {V} k (v : V) l :
  Forall (fun kv => str_lt kv.1 k) l -> btree_insert k v l = l ++ [(k, v)].
Proof.
  induction 1 as [|[k' v'] l Hlt _ IH]; simpl; [done|].
  simpl in Hlt. by rewrite (str_lt_compare_gt _ _ Hlt), IH.
Qed.

Lemma foldl_btree_insert_sorted {V} (l acc : list (string * V)) :
  btree_wf (acc ++ l) -> foldl (fun m kv => btree_insert kv.1 kv.2 m) acc l = acc ++ l.
Proof.
  revert acc; induction l as [|[k v] l IH]; intros acc Hwf; simpl; [by rewrite app_nil_r|].
  rewrite btree_insert_last.
  - rewrite IH; rewrite <-(assoc_L app); done.
  - clear IH. induction acc as [|[k' v'] acc IH]; [constructor|].
    inversion Hwf as [|?? Hss Hall]; subst. constructor; [|by apply IH].
    rewrite Forall_forall in Hall. apply (Hall (k, v)). set_solver.
Qed.

(** Collecting an ordered sequence of bindings changes nothing. *)
Lemma btree_collect_sorted {V} (l : list (string * V)) : btree_wf l -> btree_collect l = l.
Proof. intros. by apply (foldl_btree_insert_sorted l []). Qed.

Lemma to_miniserde_array l m :
  to_miniserde (JsonArray l) = Ok m ->
  exists ms, m = MiniArray ms /\ Forall2 (fun v w => to_miniserde v = Ok w) l ms.
Proof.
  simpl. intros (ms & Hms%omap_list_Forall2 & [= <-])%obind_Ok_inv. eauto.
Qed.

Lemma to_miniserde_object l m :
  to_miniserde (JsonObject l) = Ok m ->
  exists ms, m = MiniObject ms /\
    Forall2 (fun v w => v.1 = w.1 /\ to_miniserde v.2 = Ok w.2) l ms.
Proof.
  simpl. intros (ms & Hms%omap_list_Forall2 & [= <-])%obind_Ok_inv. exists ms. split; [done|].
  eapply Forall2_impl; [exact Hms|]. intros [f v] [g w] (y & Hy & [= <- <-])%obind_Ok_inv. done.
Qed.

Lemma from_miniserde_object ms l :
  btree_wf l ->
  Forall2 (fun m v => m.1 = v.1 /\ from_miniserde m.2 = Ok v.2) ms l ->
  from_miniserde (MiniObject ms) = Ok (JsonObject l).
Proof.
  intros Hwf Hall. simpl.
  assert (omap_list (fun kv => let? y := from_miniserde kv.2 in Ok (kv.1, y)) ms = Ok l) as ->.
  { apply omap_list_Forall2. eapply Forall2_impl; [exact Hall|].
    intros [f m] [g v]; simpl. by intros [-> ->]. }
  simpl. by rewrite btree_collect_sorted.
Qed.

(** Encoding for miniserde and decoding again gives the value back. *)
Lemma from_to_miniserde v m :
  json_wf v -> to_miniserde v = Ok m -> from_miniserde m = Ok v.
Proof.
  revert m. induction v as [|b|[z|n|x]|s|l IH|l IH] using json_ind'; intros m Hwf Hto;
    [by injection Hto as <-..| |by injection Hto as <-| |].
  - cbn [to_miniserde] in Hto. destruct (f64_is_finite x) eqn:Hx; [|discriminate].
    injection Hto as <-. cbn [from_miniserde json_number]. by rewrite Hx.
  - apply to_miniserde_array in Hto as (ms & -> & Hall). simpl.
    enough (omap_list from_miniserde ms = Ok l) as -> by done. apply omap_list_Forall2.
    revert IH Hwf; induction Hall as [|v w l ms Hv _ IHl]; intros Hind Hwf; [constructor|].
    inversion Hind; subst. destruct Hwf as [Hw1 Hw2]. constructor; auto.
  - apply to_miniserde_object in Hto as (ms & -> & Hall).
    destruct Hwf as [Hss Hwf]. apply from_miniserde_object; [done|]. clear Hss.
    revert IH Hwf; induction Hall as [|[f v] [f' w] l ms [Hf Hv] _ IHl]; intros Hind Hwf;
      [constructor|].
    inversion Hind; subst. destruct Hwf as [Hw1 Hw2]. simpl in *. constructor; auto.
Qed.

(** Encoding fails exactly on the values that hold a non-finite number. *)
Lemma to_miniserde_ok_finite v : is_ok (to_miniserde v) = json_finite v.
Proof.
  induction v as [|b|[z|n|x]|s|l IH|l IH] using json_ind'; try done.
  - simpl. by destruct (f64_is_finite x).
  - simpl. rewrite is_ok_obind_Ok. induction IH as [|v l Hv _ IH]; simpl; [done|].
    rewrite <-Hv, <-IH, !is_ok_obind. destruct (to_miniserde v); simpl; [|done..].
    apply is_ok_obind_Ok.
  - simpl. rewrite is_ok_obind_Ok. induction IH as [|[f v] l Hv _ IH]; simpl in *; [done|].
    rewrite <-Hv, <-IH, !is_ok_obind. destruct (to_miniserde v); simpl; [|done..].
    apply is_ok_obind_Ok.
Qed.

Lemma to_miniserde_no_panic v r : to_miniserde v <> Panic r.
Proof.
  revert r; induction v as [|b|[z|n|x]|s|l IH|l IH] using json_ind'; intros r; try done; simpl.
  - by destruct (f64_is_finite x).
  - apply obind_no_panic; [|done]. intros r'. apply omap_list_no_panic.
    by eapply Forall_impl; [exact IH|].
  - apply obind_no_panic; [|done]. intros r'. apply omap_list_no_panic.
    eapply Forall_impl; [exact IH|]. intros [f v] Hv r''. by apply obind_no_panic.
Qed.

Lemma to_json_string_no_panic `{Miniserde} v r : to_json_string v <> Panic r.
Proof. apply obind_no_panic; [apply to_miniserde_no_panic|done]. Qed.

(** A JSON value whose numbers are finite converts to the codec's value type and back
    unchanged, object order included; a value with a non-finite number is rejected. *)
Theorem json_conversion_roundtrip v :
  json_wf v ->
  (json_finite v = true -> exists m, to_miniserde v = Ok m /\ from_miniserde m = Ok v) /\
  (json_finite v = false -> exists e, to_miniserde v = Err e).
Proof.
  intros Hwf. pose proof (to_miniserde_ok_finite v) as Hok.
  destruct (to_miniserde v) as [m|e|r] eqn:Hv; simpl in Hok.
  - split; [|congruence]. intros _. exists m. split; [done|]. by apply from_to_miniserde.
  - split; [congruence|]. intros _. by exists e.
  - by apply to_miniserde_no_panic in Hv.
Qed.

(** ** Equality of finite values *)

Lemma f64_finite_eq x : f64_is_finite x = true -> (x ==? x) = true.
Proof.
  unfold partial_eq, f64_partial_eq, f64_is_nan, f64_is_finite. intros Hf%negb_true_iff.
  rewrite Hf. cbn [andb negb]. by rewrite N.eqb_refl.
Qed.

Lemma json_eq_refl v : json_finite v = true -> json_eq v v = true.
Proof.
  induction v as [|b|[z|n|x]|s|l IH|l IH] using json_ind'; simpl; intros Hf; try done.
  - by destruct b.
  - apply Z.eqb_refl.
  - apply N.eqb_refl.
  - by apply f64_finite_eq.
  - apply String.eqb_refl.
  - induction IH as [|v l Hv _ IH]; simpl in *; [done|]. apply andb_true_iff in Hf as [H1 H2].
    rewrite Hv by done. by apply IH.
  - induction IH as [|[k v] l Hv _ IH]; simpl in *; [done|]. apply andb_true_iff in Hf as [H1 H2].
    rewrite String.eqb_refl, Hv by done. by apply IH.
Qed.

Lemma f64_eq_sym (x y : F64) : (x ==? y) = (y ==? x).
Proof.
  unfold partial_eq, f64_partial_eq. rewrite (N.eqb_sym (f64_bits x)).
  destruct (f64_is_nan x), (f64_is_nan y), (f64_is_zero x), (f64_is_zero y); done.
Qed.

Lemma json_eq_sym a b : json_eq a b = json_eq b a.
Proof.
  revert b. induction a as [|x|[z|n|x]|s|l IH|l IH] using json_ind'; intros [|y|[z'|n'|y]|s'|k|k]; simpl; try done.
  - by destruct x, y.
  - apply Z.eqb_sym.
  - apply N.eqb_sym.
  - apply f64_eq_sym.
  - apply String.eqb_sym.
  - revert k. induction IH as [|v l Hv _ IH]; intros [|w k]; simpl; try done. by rewrite Hv, IH.
  - revert k. induction IH as [|[f v] l Hv _ IH]; intros [|[g w] k]; simpl; try done.
    simpl in Hv. by rewrite String.eqb_sym, Hv, IH.
Qed.

(** ** Induction on the codec's values *)

Section mini_induction.
Variable P : MiniValue -> Prop.
Hypothesis Hnull : P MiniNull.
Hypothesis Hbool : forall b, P (MiniBool b).
Hypothesis Hnum : forall n, P (MiniNum n).
Hypothesis Hstr : forall s, P (MiniString s).
Hypothesis Harr : forall l, Forall P l -> P (MiniArray l).
Hypothesis Hobj : forall l, Forall (fun kv => P kv.2) l -> P (MiniObject l).

Fixpoint mini_ind' (m : MiniValue) : P m :=
  match m with
  | MiniNull => Hnull
  | MiniBool b => Hbool b
  | MiniNum n => Hnum n
  | MiniString s => Hstr s
  | MiniArray l =>
      Harr l ((fix go l : Forall P l :=
                 match l with
                 | [] => Forall_nil_2 _
                 | x :: l => Forall_cons_2 _ _ _ (mini_ind' x) (go l)
                 end) l)
  | MiniObject l =>
      Hobj l ((fix go l : Forall (fun kv => P kv.2) l :=
                 match l with
                 | [] => Forall_nil_2 _
                 | (k, x) :: l => Forall_cons_2 _ (k, x) _ (mini_ind' x) (go l)
                 end) l)
  end.
End mini_induction.
