(* ===== verification/Ids.v ===== *)
(** * tea-session: digests, canonical hashing and durable identifiers
    ([crates/tea-session/src/ids.rs])

    BLAKE3 is a dependency of the repository, not part of it: it is the
    parameter [blake3_hash] of the class [Blake3].  [Blake3Law] states the
    documented shape of its output. *)

From Stdlib Require Import Ascii ZifyBool ZifyN.
From stdpp Require Import base gmap list strings sorting pretty.
From S2P Require Import Prelude RustStr.

Local Open Scope N_scope.

(** ** Digests *)

(** [Digest([u8; 32])]. *)
Record Digest := mk_digest { digest_bytes : list N }.

#[export] Instance digest_eq_dec : EqDecision Digest.
Proof. solve_decision. Defined.
#[export] Instance digest_countable : Countable Digest.
Proof. by refine (inj_countable' digest_bytes mk_digest _); intros []. Defined.

Definition digest_wf (d : Digest) : Prop :=
  length (digest_bytes d) = 32%nat /\ Forall (fun b => b < 256) (digest_bytes d).

Class Blake3 := { blake3_hash : list N -> Digest }.
Class Blake3Law `{Blake3} : Prop := blake3_wf : forall bytes, digest_wf (blake3_hash bytes).

(** [Digest::zero], [Digest::from_bytes]. *)
Definition digest_zero : Digest := mk_digest (replicate 32 0).
Definition digest_from_bytes `{Blake3} (bytes : list N) : Digest := blake3_hash bytes.

Inductive DigestError :=
| WrongLength (actual : nat)
| InvalidHex (index : nat).

(** [hex_value]. *)
Definition hex_value (byte : N) : option N :=
  if (48 <=? byte) && (byte <=? 57) then Some (byte - 48)
  else if (97 <=? byte) && (byte <=? 102) then Some (byte - 97 + 10)
  else if (65 <=? byte) && (byte <=? 70) then Some (byte - 65 + 10)
  else None.

(** The loop of [Digest::from_hex] over pairs of characters. *)
Fixpoint from_hex_pairs (index : nat) (bytes : list N) : Outcome DigestError (list N) :=
  match bytes with
  | high :: low :: rest =>
      let? high := ok_or (hex_value high) (InvalidHex (index * 2)) in
      let? low := ok_or (hex_value low) (InvalidHex (index * 2 + 1)) in
      let? rest := from_hex_pairs (S index) rest in
      Ok (N.lor (N.shiftl high 4) low :: rest)
  | _ => Ok []
  end.

(** [Digest::from_hex]. *)
Definition digest_from_hex (value : string) : Outcome DigestError Digest :=
  if negb (Nat.eqb (str_len value) 64) then Err (WrongLength (str_len value))
  else let? bytes := from_hex_pairs 0 (bytes_of value) in Ok (mk_digest bytes).

Definition hex_digit (n : N) : N := if n <? 10 then 48 + n else 87 + n.

(** [write!("{byte:02x}")] and [Digest::to_hex]. *)
Definition hex_byte (b : N) : list N := [hex_digit (b / 16); hex_digit (b mod 16)].
Definition digest_to_hex (d : Digest) : string :=
  string_of_bytes (concat (map hex_byte (digest_bytes d))).

(** ** Canonical hashing *)

(** [to_be_bytes] of an unsigned integer of [n] bytes. *)
Fixpoint be_bytes (n : nat) (v : N) : list N :=
  match n with
  | O => []
  | S n => (v / 256 ^ N.of_nat n) mod 256 :: be_bytes n v
  end.

(** A [CanonicalHashWriter] is the byte stream its hasher has absorbed. *)
Record CanonicalHashWriter := mk_writer { hasher : list N }.

(** [write_frame]: an eight-byte length, then the bytes. *)
Definition write_frame (h : list N) (bytes : list N) : list N :=
  h ++ be_bytes 8 (N.of_nat (length bytes)) ++ bytes.

(** [CanonicalHashWriter::new]. *)
Definition hash_new (domain : string) (schema_version abi_version : N) : CanonicalHashWriter :=
  let h := write_frame [] (bytes_of "tea-canonical-hash-v1") in
  let h := write_frame h (bytes_of domain) in
  let h := h ++ be_bytes 2 schema_version in
  let h := h ++ be_bytes 2 abi_version in
  mk_writer h.

(** [bytes], [string], [u64], [boolean], [discriminant]. *)
Definition hash_bytes (w : CanonicalHashWriter) (name : string) (value : list N) :=
  mk_writer (write_frame (write_frame (hasher w) (bytes_of name)) value).
Definition hash_string (w : CanonicalHashWriter) (name value : string) :=
  hash_bytes w name (bytes_of value).
Definition hash_u64 (w : CanonicalHashWriter) (name : string) (value : N) :=
  hash_bytes w name (be_bytes 8 value).
Definition hash_boolean (w : CanonicalHashWriter) (name : string) (value : bool) :=
  hash_bytes w name [if value then 1 else 0].
Definition hash_discriminant (w : CanonicalHashWriter) (name : string) (value : N) :=
  hash_bytes w name (be_bytes 2 value).

(** [sorted_byte_map]. *)
Definition entry_le (a b : string * list N) : Prop := String.leb a.1 b.1 = true.
#[export] Instance entry_le_dec a b : Decision (entry_le a b) := decide (String.leb a.1 b.1 = true).

Definition hash_sorted_byte_map (w : CanonicalHashWriter) (name : string)
    (entries : list (string * list N)) : CanonicalHashWriter :=
  let entries := merge_sort entry_le entries in
  let w := hash_u64 w name (N.of_nat (length entries)) in
  foldl (fun w kv => hash_bytes (hash_string w "map_key" kv.1) "map_value" kv.2) w entries.

(** [finish]. *)
Definition hash_finish `{Blake3} (w : CanonicalHashWriter) : Digest := blake3_hash (hasher w).

(** ** Opaque identifiers *)

Inductive IdError :=
| IdEmpty
| IdTooLong (actual : nat)
| IdUnsafeCharacter (character : N).

Definition id_char_unsafe (c : N) : bool :=
  char_is_control c || (c =? 47) || (c =? 92) || (c =? 58) || (c =? 0).

(** [validate_id]. *)
Definition validate_id (value : string) : Outcome IdError unit :=
  if str_is_empty value then Err IdEmpty
  else if Nat.ltb 200 (str_len value) then Err (IdTooLong (str_len value))
  else match List.find id_char_unsafe (chars value) with
       | Some character => Err (IdUnsafeCharacter character)
       | None => Ok tt
       end.

(** The newtypes generated by the [opaque_id!] macro, one kind per type. *)
Inductive IdKind :=
| KSession | KLane | KEntry | KRecord | KOperation | KTurnCheckpoint | KEpoch | KStep
| KProviderRequest | KToolInvocation | KHarnessTree | KHarnessSnapshot | KHarnessRevision
| KHarnessCandidate | KModelHarnessProfile | KExperiment | KFailureSignature | KStableHook
| KArtifactPolicy | KCoreRun | KAgent | KWorkspaceLease | KWorkspaceDelta.

Record Id (k : IdKind) := mk_id { as_str : string }.
Arguments mk_id {k} as_str.
Arguments as_str {k} _.

Abbreviation SessionId := (Id KSession).
Abbreviation LaneId := (Id KLane).
Abbreviation EntryId := (Id KEntry).
Abbreviation RecordId := (Id KRecord).
Abbreviation OperationId := (Id KOperation).
Abbreviation TurnCheckpointId := (Id KTurnCheckpoint).
Abbreviation EpochId := (Id KEpoch).
Abbreviation StepId := (Id KStep).
Abbreviation ProviderRequestId := (Id KProviderRequest).
Abbreviation HarnessSnapshotId := (Id KHarnessSnapshot).
Abbreviation HarnessRevisionId := (Id KHarnessRevision).
Abbreviation HarnessCandidateId := (Id KHarnessCandidate).
Abbreviation ModelHarnessProfileId := (Id KModelHarnessProfile).
Abbreviation StableHookId := (Id KStableHook).
Abbreviation ArtifactPolicyId := (Id KArtifactPolicy).
Abbreviation CoreRunId := (Id KCoreRun).
Abbreviation AgentId := (Id KAgent).
Abbreviation WorkspaceLeaseId := (Id KWorkspaceLease).
Abbreviation WorkspaceDeltaId := (Id KWorkspaceDelta).

#[export] Instance id_eq_dec k : EqDecision (Id k).
Proof. solve_decision. Defined.
#[export] Instance id_countable k : Countable (Id k).
Proof. by refine (inj_countable' as_str mk_id _); intros []. Defined.
#[export] Instance id_btree_key k : BTreeKey (Id k) := fun a b => String.leb (as_str a) (as_str b).

(** [$name::new]. *)
Definition id_new {k} (value : string) : Outcome IdError (Id k) :=
  check? validate_id value in
  Ok (mk_id value).

(** [.expect(...)] on a [Result]. *)
Definition expect_ok {E F A} (m : Outcome E A) (reason : string) : Outcome F A :=
  match m with
  | Ok a => Ok a
  | _ => Panic reason
  end.

(** [IdGenerator]: the next counter value and [IdGenerator::next], whose
    [fetch_add] wraps at 64 bits. *)
Record IdGenerator := mk_id_generator { id_next : N }.
Definition id_generator_new : IdGenerator := mk_id_generator 1.
Definition id_generator_next (g : IdGenerator) (id_kind : string) :
    Outcome IdError (string * IdGenerator) :=
  check? validate_id id_kind in
  Ok (id_kind +:+ "-" +:+ string_of_bytes (concat (map hex_byte (be_bytes 8 (id_next g)))),
      mk_id_generator ((id_next g + 1) mod 2 ^ 64)).

(** [LaneId::main]. *)
Definition lane_main : LaneId := mk_id "main".

Section derivations.
Context `{Blake3}.

(** [AgentId::derive]. *)
Definition agent_id_derive {E} (session_id : SessionId) (parent_lane_id : LaneId)
    (parent_operation_id : OperationId) (spawn_idempotency_key : string) : Outcome E AgentId :=
  let w := hash_new "tea-agent-id-v1" 1 1 in
  let w := hash_string w "session_id" (as_str session_id) in
  let w := hash_string w "parent_lane_id" (as_str parent_lane_id) in
  let w := hash_string w "parent_operation_id" (as_str parent_operation_id) in
  let w := hash_string w "spawn_idempotency_key" spawn_idempotency_key in
  expect_ok (id_new ("agent-" +:+ digest_to_hex (hash_finish w)))
    "domain-separated agent IDs are valid opaque IDs".

(** [AgentId::lane_id]. *)
Definition agent_lane_id {E} (agent_id : AgentId) : Outcome E LaneId :=
  expect_ok (id_new (as_str agent_id)) "agent IDs are valid lane IDs".

(** [WorkspaceLeaseId::derive]. *)
Definition workspace_lease_id_derive {E} (agent_id : AgentId) : Outcome E WorkspaceLeaseId :=
  let w := hash_new "tea-workspace-lease-v1" 1 1 in
  let w := hash_string w "agent_id" (as_str agent_id) in
  expect_ok (id_new ("lease-" +:+ digest_to_hex (hash_finish w)))
    "domain-separated workspace lease IDs are valid opaque IDs".

(** [WorkspaceDeltaId::derive]. *)
Definition workspace_delta_id_derive {E} (workspace_lease_id : WorkspaceLeaseId)
    (base_commit result_commit : string) : Outcome E WorkspaceDeltaId :=
  let w := hash_new "tea-workspace-delta-v1" 1 1 in
  let w := hash_string w "workspace_lease_id" (as_str workspace_lease_id) in
  let w := hash_string w "base_commit" base_commit in
  let w := hash_string w "result_commit" result_commit in
  expect_ok (id_new ("delta-" +:+ digest_to_hex (hash_finish w)))
    "domain-separated workspace delta IDs are valid opaque IDs".

(** [derive_subagent_operation_id]. *)
Definition derive_subagent_operation_id {E} (agent_id : AgentId) (task : string) :
    Outcome E OperationId :=
  let w := hash_new "tea-subagent-operation-v1" 1 1 in
  let w := hash_string w "agent_id" (as_str agent_id) in
  let w := hash_bytes w "task_digest" (digest_bytes (digest_from_bytes (bytes_of task))) in
  expect_ok (id_new ("operation-" +:+ digest_to_hex (hash_finish w)))
    "domain-separated subagent operation IDs are valid opaque IDs".
End derivations.

(** [ArtifactId(Digest)] and [Sequence(u64)]. *)
Record ArtifactId := mk_artifact_id { artifact_digest : Digest }.
#[export] Instance artifact_id_eq_dec : EqDecision ArtifactId.
Proof. solve_decision. Defined.
#[export] Instance artifact_id_countable : Countable ArtifactId.
Proof. by refine (inj_countable' artifact_digest mk_artifact_id _); intros []. Defined.

Definition artifact_id_from_bytes `{Blake3} (bytes : list N) : ArtifactId :=
  mk_artifact_id (digest_from_bytes bytes).
Definition artifact_id_from_hex (value : string) : Outcome DigestError ArtifactId :=
  let? d := digest_from_hex value in Ok (mk_artifact_id d).
Definition artifact_id_to_hex (a : ArtifactId) : string := digest_to_hex (artifact_digest a).

Definition Sequence := N.

(** ** Normalized paths *)

Inductive NormalizedPathError :=
| PathEmpty
| PathAbsolute (path : string)
| PathTraversalOrEmpty (path : string)
| PathUnsafeCharacter (path : string).

Record NormalizedPath := mk_normalized_path { path_str : string }.

Definition slash : ascii := ascii_of_byte 47.
Definition backslash : ascii := ascii_of_byte 92.
Definition nul : ascii := ascii_of_byte 0.

Definition segment_is_traversal (segment : string) : bool :=
  str_is_empty segment || String.eqb segment "." || String.eqb segment "..".

Definition portable_path_byte (b : N) : bool :=
  is_ascii_alphanumeric b || (b =? 46) || (b =? 95) || (b =? 45).

(** The loop of [NormalizedPath::new] over [value.split('/')]. *)
Fixpoint check_segments (value : string) (segments : list string) :
    Outcome NormalizedPathError unit :=
  match segments with
  | [] => Ok tt
  | segment :: segments =>
      if segment_is_traversal segment then Err (PathTraversalOrEmpty value)
      else if existsb (fun b => negb (portable_path_byte b)) (bytes_of segment)
      then Err (PathUnsafeCharacter value)
      else check_segments value segments
  end.

(** [NormalizedPath::new]. *)
Definition normalized_path_new (value : string) : Outcome NormalizedPathError NormalizedPath :=
  if str_is_empty value then Err PathEmpty
  else if str_starts_with slash value || str_starts_with backslash value
          || bool_decide (bytes_of value !! 1%nat = Some 58)
  then Err (PathAbsolute value)
  else if str_contains backslash value || existsb (fun b => b =? 0) (bytes_of value)
  then Err (PathUnsafeCharacter value)
  else check? check_segments value (str_split slash value) in
       Ok (mk_normalized_path value).

(** [CanonicalHashWriter::normalized_path]. *)
Definition hash_normalized_path (w : CanonicalHashWriter) (name : string)
    (value : NormalizedPath) : CanonicalHashWriter :=
  hash_string w name (path_str value).

(** ** Hexadecimal spelling *)

Lemma hex_value_digit n : n < 16 -> hex_value (hex_digit n) = Some n.
Proof.
  intros Hn. unfold hex_digit, hex_value.
  destruct (N.ltb_spec n 10); repeat case_match; f_equal; lia.
Qed.

Lemma hex_digit_bound n : n < 16 -> hex_digit n < 128.
Proof. unfold hex_digit. case_match; lia. Qed.

Lemma hex_split b : b < 256 -> N.lor (N.shiftl (b / 16) 4) (b mod 16) = b.
Proof.
  intros Hb. apply N.eqb_eq. revert b Hb.
  apply (byte_forall (fun b => N.lor (N.shiftl (b / 16) 4) (b mod 16) =? b)). vm_compute. done.
Qed.

Lemma hex_byte_bound b : b < 256 -> Forall (fun c => c < 128) (hex_byte b).
Proof.
  intros Hb. repeat constructor; apply hex_digit_bound; [|by apply N.mod_upper_bound].
  apply N.Div0.div_lt_upper_bound. lia.
Qed.

Lemma concat_hex_bound l :
  Forall (fun b => b < 256) l -> Forall (fun c => c < 128) (concat (map hex_byte l)).
Proof.
  induction 1 as [|b l Hb _ IH]; [constructor|]. cbn [map concat].
  by apply Forall_app_2; [apply hex_byte_bound|].
Qed.

Lemma length_concat_hex l : length (concat (map hex_byte l)) = (2 * length l)%nat.
Proof. induction l; simpl in *; lia. Qed.

Lemma from_hex_pairs_hex i l :
  Forall (fun b => b < 256) l -> from_hex_pairs i (concat (map hex_byte l)) = Ok l.
Proof.
  intros Hall; revert i; induction Hall as [|b l Hb _ IH]; intros i; simpl; [done|].
  rewrite !hex_value_digit; simpl; [|by apply N.mod_upper_bound|].
  - by rewrite IH, hex_split.
  - apply N.Div0.div_lt_upper_bound. lia.
Qed.

Lemma bytes_of_digest_hex d :
  digest_wf d -> bytes_of (digest_to_hex d) = concat (map hex_byte (digest_bytes d)).
Proof.
  intros [_ Hb]. apply bytes_of_string_of_bytes.
  eapply Forall_impl; [by apply concat_hex_bound|]. simpl. lia.
Qed.

Lemma length_digest_to_hex d : digest_wf d -> str_len (digest_to_hex d) = 64%nat.
Proof.
  intros Hwf. unfold str_len. rewrite <-length_bytes_of, bytes_of_digest_hex by done.
  rewrite length_concat_hex. destruct Hwf as [-> _]. done.
Qed.

(** ** Canonical framing is injective *)

Definition be_value (l : list N) : N := foldl (fun acc b => acc * 256 + b) 0 l.

Lemma foldl_be_bytes n v acc :
  foldl (fun acc b => acc * 256 + b) acc (be_bytes n v)
  = acc * 256 ^ N.of_nat n + v mod 256 ^ N.of_nat n.
Proof.
  revert acc; induction n as [|n IH]; intros acc; cbn [be_bytes foldl].
  - rewrite N.pow_0_r, N.mod_1_r. lia.
  - rewrite IH, Nat2N.inj_succ, N.pow_succ_r'.
    rewrite (N.mul_comm 256 (256 ^ _)), N.Div0.mod_mul_r. lia.
Qed.

Lemma be_value_be_bytes n v : v < 256 ^ N.of_nat n -> be_value (be_bytes n v) = v.
Proof. intros Hv. unfold be_value. rewrite foldl_be_bytes, N.mod_small by done. lia. Qed.

Lemma length_be_bytes n v : length (be_bytes n v) = n.
Proof. induction n; simpl; auto. Qed.

Definition frame (bytes : list N) : list N := be_bytes 8 (N.of_nat (length bytes)) ++ bytes.

(** A length a [u64] can hold. *)
Definition frame_ok (bytes : list N) : Prop := N.of_nat (length bytes) < 256 ^ 8.

Lemma frame_inj b1 b2 r1 r2 :
  frame_ok b1 -> frame_ok b2 -> frame b1 ++ r1 = frame b2 ++ r2 -> b1 = b2 /\ r1 = r2.
Proof.
  unfold frame, frame_ok. intros H1 H2 Heq. rewrite <-!(assoc_L app) in Heq.
  apply app_inj_1 in Heq as [Hlen Heq]; [|by rewrite !length_be_bytes].
  apply (f_equal be_value) in Hlen. rewrite !be_value_be_bytes in Hlen by done.
  apply Nat2N.inj in Hlen. by apply app_inj_1 in Heq.
Qed.

(** The stream of a writer that appends the named [fields] in order. *)
Definition canonical_writer (domain : string) (schema abi : N) (fields : list (string * list N)) :
    CanonicalHashWriter :=
  foldl (fun w f => hash_bytes w f.1 f.2) (hash_new domain schema abi) fields.

Definition field_ok (f : string * list N) : Prop := frame_ok (bytes_of f.1) /\ frame_ok f.2.

Definition frames (fields : list (string * list N)) : list N :=
  concat (map (fun f => frame (bytes_of f.1) ++ frame f.2) fields).

Lemma write_frame_frame h b : write_frame h b = h ++ frame b.
Proof. done. Qed.

Lemma hasher_foldl_fields w fields :
  hasher (foldl (fun w f => hash_bytes w f.1 f.2) w fields) = hasher w ++ frames fields.
Proof.
  revert w; induction fields as [|f fields IH]; intros w; [by rewrite app_nil_r|].
  unfold frames in *. cbn [foldl map concat]. rewrite IH. unfold hash_bytes. cbn [hasher].
  rewrite !write_frame_frame, <-!(assoc_L app). done.
Qed.

Lemma frame_non_nil b r : frame b ++ r <> [].
Proof. done. Qed.

Lemma frames_inj f1 f2 :
  Forall field_ok f1 -> Forall field_ok f2 -> frames f1 = frames f2 -> f1 = f2.
Proof.
  intros H1; revert f2; induction H1 as [|[n1 v1] f1 [Hn1 Hv1] _ IH]; intros f2 H2 Heq.
  - destruct f2 as [|[n v] f2]; [done|]. unfold frames in Heq. simpl in Heq.
    rewrite <-(assoc_L app) in Heq. by symmetry in Heq; apply frame_non_nil in Heq.
  - destruct H2 as [|[n2 v2] f2 [Hn2 Hv2] H2].
    { unfold frames in Heq. simpl in Heq. rewrite <-(assoc_L app) in Heq.
      by apply frame_non_nil in Heq. }
    unfold frames in Heq. cbn [map concat] in Heq. rewrite <-!(assoc_L app) in Heq.
    apply frame_inj in Heq as [Hn Heq]; [|done..].
    apply frame_inj in Heq as [Hv Heq]; [|done..]. simpl in Hn, Hv.
    apply bytes_of_inj in Hn as ->. subst v2. f_equal. by apply IH.
Qed.

Lemma hasher_hash_new domain schema abi :
  hasher (hash_new domain schema abi)
  = frame (bytes_of "tea-canonical-hash-v1") ++ frame (bytes_of domain)
    ++ be_bytes 2 schema ++ be_bytes 2 abi.
Proof. unfold hash_new. cbn [hasher]. rewrite !write_frame_frame, <-!(assoc_L app). done. Qed.

(** ** Derived identifiers are valid *)

Lemma chars_ascii s : Forall (fun b => b < 128) (bytes_of s) -> chars s = bytes_of s.
Proof.
  induction s as [|a s IH]; simpl; [done|]. inversion 1 as [|?? Ha Hs]; subst.
  destruct (N.ltb_spec (byte_of a) 128); [|lia]. by rewrite IH.
Qed.

(** Bytes that may stand in any durable identifier. *)
Definition id_safe_byte (b : N) : bool := is_ascii_digit b || is_ascii_lowercase b || (b =? 45).

Lemma id_safe_byte_ok b : id_safe_byte b = true -> b < 128 /\ id_char_unsafe b = false.
Proof.
  unfold id_safe_byte, is_ascii_digit, is_ascii_lowercase, id_char_unsafe, char_is_control. lia.
Qed.

Lemma find_none_Forall {A} (p : A -> bool) l :
  Forall (fun x => p x = false) l -> List.find p l = None.
Proof. induction 1 as [|x l Hx _ IH]; simpl; [done|]. by rewrite Hx. Qed.

Lemma validate_id_safe s :
  s <> EmptyString -> (str_len s <= 200)%nat ->
  Forall (fun b => id_safe_byte b = true) (bytes_of s) -> validate_id s = Ok tt.
Proof.
  intros Hne Hlen Hsafe. unfold validate_id. destruct s as [|a s]; [done|]. simpl str_is_empty.
  destruct (Nat.ltb_spec 200 (str_len (String a s))); [lia|]. cbv beta iota.
  rewrite chars_ascii, find_none_Forall; [done|..];
    (eapply Forall_impl; [exact Hsafe|]); intros b Hb%id_safe_byte_ok; tauto.
Qed.

Lemma hex_digit_safe n : n < 16 -> id_safe_byte (hex_digit n) = true.
Proof.
  unfold hex_digit, id_safe_byte, is_ascii_digit, is_ascii_lowercase.
  destruct (N.ltb_spec n 10); lia.
Qed.

Lemma concat_hex_safe l :
  Forall (fun b => b < 256) l ->
  Forall (fun c => id_safe_byte c = true) (concat (map hex_byte l)).
Proof.
  induction 1 as [|b l Hb _ IH]; [constructor|]. cbn [map concat].
  apply Forall_app_2; [|done].
  repeat constructor; apply hex_digit_safe; [|by apply N.mod_upper_bound].
  apply N.Div0.div_lt_upper_bound. lia.
Qed.

Lemma str_len_app s t : str_len (s +:+ t) = (str_len s + str_len t)%nat.
Proof. unfold str_len. induction s; simpl; auto. Qed.

(** A short safe prefix followed by a digest spelling is a valid identifier. *)
Lemma id_new_prefixed_digest k prefix d :
  (0 < str_len prefix <= 136)%nat ->
  Forall (fun b => id_safe_byte b = true) (bytes_of prefix) ->
  digest_wf d -> @id_new k (prefix +:+ digest_to_hex d) = Ok (mk_id (prefix +:+ digest_to_hex d)).
Proof.
  intros Hlen Hsafe Hwf. unfold id_new. rewrite validate_id_safe; [done|..].
  - destruct prefix; [simpl in Hlen; lia|done].
  - rewrite str_len_app, length_digest_to_hex by done. lia.
  - rewrite bytes_of_app. apply Forall_app_2; [done|].
    rewrite bytes_of_digest_hex by done. apply concat_hex_safe, Hwf.
Qed.

Section derivation_facts.
Context `{Blake3Law}.

Lemma agent_id_derive_Ok {E} session lane operation key :
  exists d, digest_wf d /\
    @agent_id_derive _ E session lane operation key = Ok (mk_id ("agent-" +:+ digest_to_hex d)).
Proof.
  eexists; split; [|unfold agent_id_derive; rewrite id_new_prefixed_digest; [reflexivity|..]];
    [apply blake3_wf|simpl; lia|repeat constructor|apply blake3_wf].
Qed.

Lemma workspace_lease_id_derive_no_panic {E} agent r :
  @workspace_lease_id_derive _ E agent <> Panic r.
Proof.
  unfold workspace_lease_id_derive. rewrite id_new_prefixed_digest; [done|simpl; lia|repeat constructor|].
  apply blake3_wf.
Qed.

Lemma workspace_delta_id_derive_no_panic {E} lease base result r :
  @workspace_delta_id_derive _ E lease base result <> Panic r.
Proof.
  unfold workspace_delta_id_derive. rewrite id_new_prefixed_digest; [done|simpl; lia|repeat constructor|].
  apply blake3_wf.
Qed.

Lemma derive_subagent_operation_id_no_panic {E} agent task r :
  @derive_subagent_operation_id _ E agent task <> Panic r.
Proof.
  unfold derive_subagent_operation_id.
  rewrite id_new_prefixed_digest; [done|simpl; lia|repeat constructor|apply blake3_wf].
Qed.
End derivation_facts.

Lemma digest_from_hex_ok d : digest_wf d -> digest_from_hex (digest_to_hex d) = Ok d.
Proof.
  intros Hwf. unfold digest_from_hex. rewrite length_digest_to_hex by done. simpl.
  rewrite bytes_of_digest_hex by done. rewrite from_hex_pairs_hex by apply Hwf.
  by destruct d.
Qed.

Lemma canonical_writer_inj domain1 domain2 schema1 schema2 abi1 abi2 fields1 fields2 :
  frame_ok (bytes_of domain1) -> frame_ok (bytes_of domain2) ->
  schema1 < 2 ^ 16 -> schema2 < 2 ^ 16 -> abi1 < 2 ^ 16 -> abi2 < 2 ^ 16 ->
  Forall field_ok fields1 -> Forall field_ok fields2 ->
  hasher (canonical_writer domain1 schema1 abi1 fields1)
    = hasher (canonical_writer domain2 schema2 abi2 fields2) ->
  domain1 = domain2 /\ schema1 = schema2 /\ abi1 = abi2 /\ fields1 = fields2.
Proof.
  intros Hd1 Hd2 Hs1 Hs2 Ha1 Ha2 Hf1 Hf2. unfold canonical_writer.
  rewrite !hasher_foldl_fields, !hasher_hash_new, <-!(assoc_L app). intros Heq.
  apply frame_inj in Heq as [_ Heq]; [|vm_compute; done..].
  apply frame_inj in Heq as [->%bytes_of_inj Heq]; [|done..].
  apply app_inj_1 in Heq as [Hs Heq]; [|by rewrite !length_be_bytes].
  apply app_inj_1 in Heq as [Ha Heq]; [|by rewrite !length_be_bytes].
  apply (f_equal be_value) in Hs, Ha. rewrite !be_value_be_bytes in Hs, Ha by done.
  repeat split; [done..|]. by apply frames_inj.
Qed.

(** ** Properties *)

(** Printing a digest as hexadecimal text and parsing the text gives the digest back. *)
Theorem digest_hex_roundtrip d : digest_wf d -> digest_from_hex (digest_to_hex d) = Ok d.
Proof. apply digest_from_hex_ok. Qed.

(** The canonical hash writer feeds the digest a prefix-free encoding: two field sequences
    with the same hashed bytes have the same domain, schema version, ABI version and fields. *)
Theorem canonical_writer_injective domain1 domain2 schema1 schema2 abi1 abi2 fields1 fields2 :
  frame_ok (bytes_of domain1) -> frame_ok (bytes_of domain2) ->
  schema1 < 2 ^ 16 -> schema2 < 2 ^ 16 -> abi1 < 2 ^ 16 -> abi2 < 2 ^ 16 ->
  Forall field_ok fields1 -> Forall field_ok fields2 ->
  hasher (canonical_writer domain1 schema1 abi1 fields1)
    = hasher (canonical_writer domain2 schema2 abi2 fields2) ->
  domain1 = domain2 /\ schema1 = schema2 /\ abi1 = abi2 /\ fields1 = fields2.
Proof. apply canonical_writer_inj. Qed.

(** Deriving a child agent identity and its lane never panics: the derived text is always a
    valid identifier and the lane carries the agent's text. *)
Theorem agent_lane_id_total `{Blake3Law} {E} session lane operation key :
  exists agent, @agent_id_derive _ E session lane operation key = Ok agent /\
    @agent_lane_id E agent = Ok (mk_id (as_str agent)).
Proof.
  destruct (@agent_id_derive_Ok _ _ E session lane operation key) as (d & Hd & Heq).
  eexists; split; [exact Heq|]. unfold agent_lane_id. cbn [as_str].
  rewrite id_new_prefixed_digest; [done|simpl; lia|repeat constructor|done].
Qed.

(** ** Normalized paths *)

(** A path component that may enter a canonical tree hash. *)
Definition segment_ok (segment : string) : bool :=
  negb (segment_is_traversal segment) && forallb portable_path_byte (bytes_of segment).

Lemma existsb_negb_forallb {A} (p : A -> bool) l :
  existsb (fun x => negb (p x)) l = negb (forallb p l).
Proof. induction l as [|x l IH]; simpl; [done|]. rewrite IH. by destruct (p x). Qed.

Lemma check_segments_Ok value segments :
  check_segments value segments = Ok tt <-> Forall (fun s => segment_ok s = true) segments.
Proof.
  induction segments as [|s segments IH]; simpl; [split; [constructor|done]|].
  rewrite existsb_negb_forallb, Forall_cons, <-IH. unfold segment_ok.
  destruct (segment_is_traversal s), (forallb portable_path_byte (bytes_of s)); simpl;
    split; (tauto || discriminate || (intros [? _]; discriminate)).
Qed.

Lemma split_portable_bytes s :
  Forall (fun seg => forallb portable_path_byte (bytes_of seg) = true) (str_split slash s) ->
  Forall (fun b => (b =? 47) || portable_path_byte b = true) (bytes_of s).
Proof.
  induction s as [|a s IH]; simpl; [constructor|].
  destruct (Ascii.eqb_spec a slash) as [->|Hne].
  - intros Hall. apply Forall_cons in Hall as [_ Hall]. constructor; [done|auto].
  - destruct (str_split slash s) as [|seg segs] eqn:Hs; [by apply str_split_non_nil in Hs|].
    intros Hall. apply Forall_cons in Hall as [Hhead Hall]. simpl in Hhead.
    apply andb_true_iff in Hhead as [Ha Hseg]. constructor; [by rewrite Ha, orb_true_r|].
    apply IH. by constructor.
Qed.

Lemma str_contains_bytes c s : str_contains c s = true -> byte_of c ∈ bytes_of s.
Proof.
  induction s as [|a s IH]; simpl; [done|]. rewrite orb_true_iff.
  intros [->%Ascii.eqb_eq|Hs]; constructor; auto.
Qed.

Lemma str_split_head s c segs seg :
  str_split c s = seg :: segs -> str_starts_with c s = true -> seg = EmptyString.
Proof.
  destruct s as [|a s]; simpl; [done|]. intros Heq Ha. rewrite Ha in Heq. congruence.
Qed.

(** A path is accepted for canonical hashing exactly when every slash-separated segment is
    a non-empty, non-dot segment of portable bytes. *)
Theorem normalized_path_new_iff value :
  normalized_path_new value = Ok (mk_normalized_path value)
  <-> Forall (fun segment => segment_ok segment = true) (str_split slash value).
Proof.
  unfold normalized_path_new. split.
  - repeat case_match; try discriminate.
    intros ([] & Hseg & _)%obind_Ok_inv. exact (proj1 (check_segments_Ok value _) Hseg).
  - intros Hall.
    assert (Forall (fun b => (b =? 47) || portable_path_byte b = true) (bytes_of value)) as Hport.
    { apply split_portable_bytes. eapply Forall_impl; [exact Hall|].
      intros seg Hseg. unfold segment_ok in Hseg. by apply andb_true_iff in Hseg as [_ ->]. }
    rewrite Forall_forall in Hport.
    assert (forall b, (b =? 47) || portable_path_byte b = false -> b ∉ bytes_of value) as Hnot.
    { intros b Hb Hin. apply Hport in Hin. congruence. }
    destruct (str_is_empty value) eqn:He.
    { destruct value; [|done]. simpl in Hall. by inversion Hall. }
    destruct (str_starts_with slash value) eqn:Hslash.
    { destruct (str_split slash value) eqn:Hs; [by apply str_split_non_nil in Hs|].
      inversion Hall; subst. by rewrite (str_split_head _ _ _ _ Hs Hslash) in *. }
    destruct (str_starts_with backslash value) eqn:Hback.
    { destruct value as [|a v]; [done|]. simpl in Hback. apply Ascii.eqb_eq in Hback as ->.
      exfalso; apply (Hnot 92); [done|]. simpl. constructor. }
    destruct (bool_decide_reflect (bytes_of value !! 1%nat = Some 58)) as [Hcolon|_].
    { exfalso; apply (Hnot 58); [done|]. by eapply list_elem_of_lookup_2. }
    destruct (str_contains backslash value) eqn:Hbs.
    { exfalso; apply (Hnot 92); [done|]. by apply str_contains_bytes in Hbs. }
    destruct (existsb (fun b => b =? 0) (bytes_of value)) eqn:Hnul.
    { apply existsb_exists in Hnul as (b & Hin & ->%N.eqb_eq).
      exfalso; apply (Hnot 0); [done|]. by apply list_elem_of_In. }
    simpl. by rewrite (proj2 (check_segments_Ok _ _) Hall).
Qed.
