(* ===== verification/BTree.v ===== *)
(** * Iterating over an ordered map

    A [BTreeMap] visits its bindings in key order, so a fresh key changes the
    visited sequence by exactly one binding.  The order laws of a key type
    are a class; identifiers satisfy them. *)

From stdpp Require Import base gmap sets list strings sorting.
From S2P Require Import Prelude RustStr Json Ids.

(** The order of a key type is total. *)
Class BTreeKeyLaw (K : Type) `{BTreeKey K} : Prop := {
  key_leb_trans : forall a b c : K, key_leb a b = true -> key_leb b c = true -> key_leb a c = true;
  key_leb_total : forall a b : K, key_leb a b = true \/ key_leb b a = true;
  key_leb_antisym : forall a b : K, key_leb a b = true -> key_leb b a = true -> a = b;
}.

Lemma str_compare_trans a b c o :
  String.compare a b = o -> String.compare b c = o -> String.compare a c = o.
Proof.
  revert b c. induction a as [|x a IH]; intros [|y b] [|z c]; simpl; try congruence.
  unfold Ascii.compare.
  destruct (N.compare_spec (Ascii.N_of_ascii x) (Ascii.N_of_ascii y)) as [Hxy|Hxy|Hxy];
  destruct (N.compare_spec (Ascii.N_of_ascii y) (Ascii.N_of_ascii z)) as [Hyz|Hyz|Hyz];
  destruct (N.compare_spec (Ascii.N_of_ascii x) (Ascii.N_of_ascii z)) as [Hxz|Hxz|Hxz];
    intros H1 H2; subst; try congruence; try lia; eauto.
Qed.

#[export] Instance string_key_law : BTreeKeyLaw string.
Proof.
  split; unfold key_leb, string_btree_key.
  - intros a b c. unfold String.leb.
    destruct (String.compare a b) eqn:Hab; [|..|done]; destruct (String.compare b c) eqn:Hbc; try done; intros _ _.
    + by rewrite (str_compare_trans a b c Eq).
    + apply String.compare_eq_iff in Hab as ->. by rewrite Hbc.
    + apply String.compare_eq_iff in Hbc as ->. by rewrite Hab.
    + by rewrite (str_compare_trans a b c Lt).
  - apply String.leb_total.
  - apply String.leb_antisym.
Qed.

#[export] Instance id_key_law k : BTreeKeyLaw (Id k).
Proof.
  split; unfold key_leb, id_btree_key.
  - intros a b c. apply (key_leb_trans (K := string)).
  - intros a b. apply (key_leb_total (K := string)).
  - intros [a] [b] Hab Hba. f_equal. by apply (key_leb_antisym (K := string)).
Qed.

Lemma StronglySorted_remove {A} (R : relation A) l1 x l2 :
  StronglySorted R (l1 ++ x :: l2) -> StronglySorted R (l1 ++ l2).
Proof.
  induction l1 as [|y l1 IH]; simpl; intros Hs.
  - by apply StronglySorted_inv in Hs as [? _].
  - apply StronglySorted_inv in Hs as [Hs Hall]. constructor; [by apply IH|].
    apply Forall_app in Hall as [? ?%Forall_cons_1]. apply Forall_app. naive_solver.
Qed.

Section iteration.
Context `{Countable K} `{!BTreeKey K} `{!BTreeKeyLaw K} {V : Type}.
Implicit Types (m : gmap K V) (l : list (K * V)).

#[export] Instance binding_le_total : Total (binding_le (K := K) (V := V)).
Proof. intros [a v] [b w]. apply key_leb_total. Qed.

#[export] Instance binding_le_trans : Transitive (binding_le (K := K) (V := V)).
Proof. intros [a v] [b w] [c x]. apply key_leb_trans. Qed.

Lemma btree_iter_sorted m : StronglySorted binding_le (btree_iter m).
Proof. apply Sorted_StronglySorted, Sorted_merge_sort; apply _. Qed.

(** Two ways to visit the bindings of a map in order are the same. *)
Lemma btree_iter_unique m l :
  StronglySorted binding_le l -> l ≡ₚ map_to_list m -> btree_iter m = l.
Proof.
  intros Hl Hp. assert (btree_iter m ≡ₚ map_to_list m) as Hq
    by (unfold btree_iter; apply (merge_sort_Permutation binding_le)).
  apply (StronglySorted_unique_strong binding_le); [|apply btree_iter_sorted|done|by rewrite Hq, Hp].
  intros [a v] [b w]. rewrite Hq, Hp, !elem_of_map_to_list. intros Ha Hb Hab Hba.
  assert (a = b) as -> by by apply key_leb_antisym. congruence.
Qed.

Lemma StronglySorted_replace (k : K) (v w : V) l1 l2 :
  StronglySorted binding_le (l1 ++ (k, v) :: l2) -> StronglySorted binding_le (l1 ++ (k, w) :: l2).
Proof.
  induction l1 as [|y l1 IH]; simpl; intros Hs;
    apply StronglySorted_inv in Hs as [Hs Hall]; constructor; auto.
  apply Forall_app in Hall as [? [? ?]%Forall_cons_1]. apply Forall_app. split; [done|]. by constructor.
Qed.

(** Inserting a fresh key adds one binding at its place. *)
Lemma btree_iter_insert m k (v : V) :
  m !! k = None -> exists l1 l2, btree_iter m = l1 ++ l2 /\
    forall w, btree_iter (<[k := w]> m) = l1 ++ (k, w) :: l2.
Proof.
  intros Hk. assert ((k, v) ∈ btree_iter (<[k := v]> m)) as Hin
    by (apply elem_of_btree_iter, lookup_insert_eq).
  apply list_elem_of_split in Hin as (l1 & l2 & Hl). exists l1, l2.
  assert (l1 ++ l2 ≡ₚ map_to_list m) as Hp.
  { apply (Permutation_cons_inv (a := (k, v))). rewrite Permutation_middle, <-Hl.
    unfold btree_iter. rewrite (merge_sort_Permutation binding_le). by apply map_to_list_insert. }
  pose proof (btree_iter_sorted (<[k := v]> m)) as Hs. rewrite Hl in Hs. split.
  - apply btree_iter_unique; [by eapply StronglySorted_remove|done].
  - intros w. apply btree_iter_unique; [by eapply StronglySorted_replace|].
    by rewrite map_to_list_insert, <-Permutation_middle, Hp.
Qed.

(** Replacing the value of a key replaces one binding. *)
Lemma btree_iter_replace m k v w :
  m !! k = Some v -> exists l1 l2, btree_iter m = l1 ++ (k, v) :: l2 /\
    btree_iter (<[k := w]> m) = l1 ++ (k, w) :: l2.
Proof.
  intros Hk. destruct (btree_iter_insert (delete k m) k v (lookup_delete_eq m k)) as (l1 & l2 & _ & Hl).
  exists l1, l2. rewrite <-!Hl, insert_delete_id, insert_delete_eq by done. done.
Qed.

(** A loop that ignores the fresh binding is the loop without it. *)
Lemma ofold_btree_insert {E S} (h : S -> K * V -> Outcome E S) m k v s :
  m !! k = None -> (forall s, h s (k, v) = Ok s) ->
  ofold h s (btree_iter (<[k := v]> m)) = ofold h s (btree_iter m).
Proof.
  intros Hk Hh. destruct (btree_iter_insert m k v Hk) as (l1 & l2 & -> & Hl). rewrite Hl, !ofold_app.
  destruct (ofold h s l1) as [t| |]; simpl; [|done..]. by rewrite Hh.
Qed.

(** The same for pure traversals of the values. *)
Lemma foldl_btree_insert {S} (h : S -> V -> S) m k v s :
  m !! k = None -> (forall s, h s v = s) ->
  foldl h s (btree_values (<[k := v]> m)) = foldl h s (btree_values m).
Proof.
  intros Hk Hh. unfold btree_values.
  destruct (btree_iter_insert m k v Hk) as (l1 & l2 & -> & Hl). rewrite Hl, !fmap_app, !foldl_app. simpl.
  by rewrite Hh.
Qed.

Lemma omap_btree_insert {B} (h : K * V -> option B) m k v :
  m !! k = None -> h (k, v) = None ->
  omap h (btree_iter (<[k := v]> m)) = omap h (btree_iter m).
Proof.
  intros Hk Hh. destruct (btree_iter_insert m k v Hk) as (l1 & l2 & -> & Hl). rewrite Hl, !omap_app. simpl.
  by rewrite Hh.
Qed.

Lemma omap_btree_values_insert {B} (h : V -> option B) m k v :
  m !! k = None -> h v = None ->
  omap h (btree_values (<[k := v]> m)) = omap h (btree_values m).
Proof.
  intros Hk Hh. unfold btree_values.
  destruct (btree_iter_insert m k v Hk) as (l1 & l2 & -> & Hl).
  rewrite Hl, !fmap_app, !omap_app. simpl. by rewrite Hh.
Qed.
End iteration.
