(* ===== verification/Model.v ===== *)
(** * tea-session: the durable data model ([crates/tea-session/src/model.rs]
    and the fact types of [crates/tea-session/src/agents.rs])

    One [Record] per struct and one [Inductive] per enum, with the source's
    fields and variants in the source's order.  Field names carry a prefix of
    the struct's initials, because Rocq projections share one name space.
    [BTreeMap] fields are [gmap]s, except JSON objects (see [Json]). *)

From stdpp Require Import base gmap list strings.
From S2P Require Import Prelude RustStr Json Ids.

(** [Metadata = BTreeMap<String, JsonValue>]. *)
Definition Metadata := list (string * JsonValue).

Definition SESSION_HEADER_KIND : string := "tea-session".
Definition SESSION_FORMAT_IDENTITY : string := "tea-session-jsonl".
Definition SESSION_FORMAT_VERSION : N := 1.

Record SessionHeader := mk_header {
  sh_kind : string;
  sh_format : string;
  sh_version : N;
  sh_session_id : SessionId;
  sh_created_at_ms : N;
  sh_workspace : string;
  sh_metadata : Metadata;
  sh_initial_lane : LaneId;
  sh_digest : Digest;
}.
#[export] Instance session_header_eta : Eta SessionHeader := fun h =>
  mk_header (sh_kind h) (sh_format h) (sh_version h) (sh_session_id h) (sh_created_at_ms h)
    (sh_workspace h) (sh_metadata h) (sh_initial_lane h) (sh_digest h).

(** [SessionHeader::new_at]. *)
Definition header_new_at (session_id : SessionId) (workspace : string) (metadata : Metadata)
    (created_at_ms : N) : SessionHeader := {|
  sh_kind := SESSION_HEADER_KIND;
  sh_format := SESSION_FORMAT_IDENTITY;
  sh_version := SESSION_FORMAT_VERSION;
  sh_session_id := session_id;
  sh_created_at_ms := created_at_ms;
  sh_workspace := workspace;
  sh_metadata := metadata;
  sh_initial_lane := lane_main;
  sh_digest := digest_zero;
|}.

(** ** Semantic entries *)

Record UserMessageEntry := mk_user_message {
  um_content : string;
  um_metadata : Metadata;
}.

Record OpaqueProviderContextEntry := mk_opaque_context {
  oc_provider : string;
  oc_kind : string;
  oc_item_id : option string;
  oc_payload : string;
}.
#[export] Instance opaque_context_eq_dec : EqDecision OpaqueProviderContextEntry.
Proof. solve_decision. Defined.

Inductive AssistantContentEntry :=
| ContentText (text : string)
| ContentThinking (text : string) (signature : option OpaqueProviderContextEntry)
| ContentRedactedThinking (context : OpaqueProviderContextEntry).
#[export] Instance assistant_content_eq_dec : EqDecision AssistantContentEntry.
Proof. solve_decision. Defined.

(** [AssistantContentEntry::text_content]. *)
Definition text_content (text : string) : list AssistantContentEntry :=
  if str_is_empty text then [] else [ContentText text].

Record AssistantToolCall := mk_tool_call {
  tc_id : string;
  tc_name : string;
  tc_arguments : JsonValue;
}.

Record ModelChangedEntry := mk_model_changed {
  mc_provider : string;
  mc_model : string;
  mc_revision : option string;
}.
#[export] Instance model_changed_eq_dec : EqDecision ModelChangedEntry.
Proof. solve_decision. Defined.

Record AssistantMessageEntry := mk_assistant_message {
  am_content : list AssistantContentEntry;
  am_tool_calls : list AssistantToolCall;
  am_stop_reason : option string;
  am_error_message : option string;
  am_opaque_context : list OpaqueProviderContextEntry;
  am_origin : option ModelChangedEntry;
  am_metadata : Metadata;
}.

(** [AssistantMessageEntry::text]. *)
Definition assistant_text (m : AssistantMessageEntry) : string :=
  foldl (fun text block =>
           match block with
           | ContentText t => text +:+ t
           | _ => text
           end) EmptyString (am_content m).

Inductive PayloadRef :=
| PayloadInline (value : JsonValue)
| PayloadArtifact (artifact_id : ArtifactId) (byte_len : N) (media_type : string).

(** [PayloadRef::artifact_id]. *)
Definition payload_artifact_id (p : PayloadRef) : option ArtifactId :=
  match p with
  | PayloadInline _ => None
  | PayloadArtifact artifact_id _ _ => Some artifact_id
  end.

Record Usage := mk_usage {
  us_total_tokens : option N;
  us_input_tokens : option N;
  us_output_tokens : option N;
  us_reasoning_tokens : option N;
  us_cache_read_tokens : option N;
  us_cache_write_tokens : option N;
  us_cost : option string;
}.
#[export] Instance usage_eq_dec : EqDecision Usage.
Proof. solve_decision. Defined.

(** [Usage::default]. *)
Definition usage_default : Usage := mk_usage None None None None None None None.

Record ToolResultEntry := mk_tool_result {
  tr_tool_call_id : string;
  tr_tool_name : string;
  tr_full_result : PayloadRef;
  tr_model_projection : JsonValue;
  tr_is_error : bool;
  tr_terminate : bool;
  tr_usage : Usage;
  tr_projection_strategy_id : string;
  tr_artifact_policy_id : ArtifactPolicyId;
}.

Record CompactionEntry := mk_compaction {
  ce_covered_from : option EntryId;
  ce_covered_to : option EntryId;
  ce_retained_tail_boundary : option EntryId;
  ce_summary : string;
  ce_strategy_id : string;
  ce_recovery_index_artifact : option ArtifactId;
  ce_harness_revision_id : option HarnessRevisionId;
  ce_replacement : PayloadRef;
  ce_replacement_digest : Digest;
  ce_provider_request_id : option ProviderRequestId;
}.

Record BranchSummaryEntry := mk_branch_summary {
  bs_summary : string;
  bs_covered_to : option EntryId;
}.
#[export] Instance branch_summary_eq_dec : EqDecision BranchSummaryEntry.
Proof. solve_decision. Defined.

Record ThinkingChangedEntry := mk_thinking_changed { th_level : string }.
#[export] Instance thinking_changed_eq_dec : EqDecision ThinkingChangedEntry.
Proof. solve_decision. Defined.

Record PromptSectionChange := mk_section_change {
  psc_id : string;
  psc_content : option string;
}.
#[export] Instance section_change_eq_dec : EqDecision PromptSectionChange.
Proof. solve_decision. Defined.

Record ToolDeclarationRecord := mk_tool_declaration {
  td_name : string;
  td_description : string;
  td_schema : JsonValue;
}.

Record ConfigurationChangedEntry := mk_configuration_changed {
  cc_sections : list PromptSectionChange;
  cc_tools_added : list ToolDeclarationRecord;
  cc_tools_removed : list string;
}.

Record HarnessRevisionChangedEntry := mk_harness_revision_changed {
  hr_revision_id : HarnessRevisionId;
  hr_snapshot_id : HarnessSnapshotId;
  hr_rollback_from : option HarnessRevisionId;
}.
#[export] Instance harness_revision_changed_eq_dec : EqDecision HarnessRevisionChangedEntry.
Proof. solve_decision. Defined.

Inductive MemoryVisibility := ModelVisible | ExternalOnly.
Inductive MemoryRetention := RetainSession | RetainCheckpoint.
#[export] Instance memory_visibility_eq_dec : EqDecision MemoryVisibility.
Proof. solve_decision. Defined.
#[export] Instance memory_retention_eq_dec : EqDecision MemoryRetention.
Proof. solve_decision. Defined.

Record PluginMemoryEntry := mk_plugin_memory {
  pm_plugin_id : string;
  pm_kind : string;
  pm_content : PayloadRef;
  pm_provenance : list string;
  pm_visibility : MemoryVisibility;
  pm_retention : MemoryRetention;
}.

Record CustomEntry := mk_custom_entry {
  cu_type_name : string;
  cu_payload : PayloadRef;
  cu_model_visible : bool;
}.

Inductive SessionEntry :=
| UserMessage (entry : UserMessageEntry)
| AssistantMessage (entry : AssistantMessageEntry)
| ToolResult (entry : ToolResultEntry)
| Compaction (entry : CompactionEntry)
| BranchSummary (entry : BranchSummaryEntry)
| ModelChanged (entry : ModelChangedEntry)
| ThinkingChanged (entry : ThinkingChangedEntry)
| ConfigurationChanged (entry : ConfigurationChangedEntry)
| HarnessRevisionChanged (entry : HarnessRevisionChangedEntry)
| PluginMemory (entry : PluginMemoryEntry)
| CustomSemantic (entry : CustomEntry).

(** [SessionEntry::is_model_visible]. *)
Definition is_model_visible (e : SessionEntry) : bool :=
  match e with
  | UserMessage _ | AssistantMessage _ | ToolResult _ => true
  | Compaction _ | BranchSummary _ => true
  | ConfigurationChanged _ => true
  | ModelChanged _ | ThinkingChanged _ | HarnessRevisionChanged _ => false
  | PluginMemory entry => bool_decide (pm_visibility entry = ModelVisible)
  | CustomSemantic entry => cu_model_visible entry
  end.

(** [SessionEntry::artifact_references]. *)
Definition entry_artifact_references (e : SessionEntry) : list ArtifactId :=
  let references :=
    match e with
    | ToolResult entry => option_list (payload_artifact_id (tr_full_result entry))
    | Compaction entry => option_list (ce_recovery_index_artifact entry)
    | PluginMemory entry => option_list (payload_artifact_id (pm_content entry))
    | CustomSemantic entry => option_list (payload_artifact_id (cu_payload entry))
    | _ => []
    end in
  match e with
  | Compaction entry =>
      match payload_artifact_id (ce_replacement entry) with
      | Some id => references ++ [id]
      | None => references
      end
  | _ => references
  end.

(** *** Derived [PartialEq] of the entry types that hold JSON *)

#[export] Instance user_message_partial_eq : PartialEq UserMessageEntry := fun a b =>
  (um_content a ==? um_content b) && (um_metadata a ==? um_metadata b).
#[export] Instance tool_call_partial_eq : PartialEq AssistantToolCall := fun a b =>
  (tc_id a ==? tc_id b) && (tc_name a ==? tc_name b) && (tc_arguments a ==? tc_arguments b).
#[export] Instance assistant_message_partial_eq : PartialEq AssistantMessageEntry := fun a b =>
  (am_content a ==? am_content b) && (am_tool_calls a ==? am_tool_calls b)
  && (am_stop_reason a ==? am_stop_reason b) && (am_error_message a ==? am_error_message b)
  && (am_opaque_context a ==? am_opaque_context b) && (am_origin a ==? am_origin b)
  && (am_metadata a ==? am_metadata b).
#[export] Instance payload_ref_partial_eq : PartialEq PayloadRef := fun a b =>
  match a, b with
  | PayloadInline v, PayloadInline w => v ==? w
  | PayloadArtifact i1 l1 m1, PayloadArtifact i2 l2 m2 =>
      (i1 ==? i2) && (l1 ==? l2) && (m1 ==? m2)
  | _, _ => false
  end.
#[export] Instance tool_result_partial_eq : PartialEq ToolResultEntry := fun a b =>
  (tr_tool_call_id a ==? tr_tool_call_id b) && (tr_tool_name a ==? tr_tool_name b)
  && (tr_full_result a ==? tr_full_result b) && (tr_model_projection a ==? tr_model_projection b)
  && (tr_is_error a ==? tr_is_error b) && (tr_terminate a ==? tr_terminate b)
  && (tr_usage a ==? tr_usage b) && (tr_projection_strategy_id a ==? tr_projection_strategy_id b)
  && (tr_artifact_policy_id a ==? tr_artifact_policy_id b).
#[export] Instance compaction_partial_eq : PartialEq CompactionEntry := fun a b =>
  (ce_covered_from a ==? ce_covered_from b) && (ce_covered_to a ==? ce_covered_to b)
  && (ce_retained_tail_boundary a ==? ce_retained_tail_boundary b)
  && (ce_summary a ==? ce_summary b) && (ce_strategy_id a ==? ce_strategy_id b)
  && (ce_recovery_index_artifact a ==? ce_recovery_index_artifact b)
  && (ce_harness_revision_id a ==? ce_harness_revision_id b)
  && (ce_replacement a ==? ce_replacement b)
  && (ce_replacement_digest a ==? ce_replacement_digest b)
  && (ce_provider_request_id a ==? ce_provider_request_id b).
#[export] Instance tool_declaration_partial_eq : PartialEq ToolDeclarationRecord := fun a b =>
  (td_name a ==? td_name b) && (td_description a ==? td_description b)
  && (td_schema a ==? td_schema b).
#[export] Instance configuration_changed_partial_eq : PartialEq ConfigurationChangedEntry :=
  fun a b =>
  (cc_sections a ==? cc_sections b) && (cc_tools_added a ==? cc_tools_added b)
  && (cc_tools_removed a ==? cc_tools_removed b).
#[export] Instance plugin_memory_partial_eq : PartialEq PluginMemoryEntry := fun a b =>
  (pm_plugin_id a ==? pm_plugin_id b) && (pm_kind a ==? pm_kind b)
  && (pm_content a ==? pm_content b) && (pm_provenance a ==? pm_provenance b)
  && (pm_visibility a ==? pm_visibility b) && (pm_retention a ==? pm_retention b).
#[export] Instance custom_entry_partial_eq : PartialEq CustomEntry := fun a b =>
  (cu_type_name a ==? cu_type_name b) && (cu_payload a ==? cu_payload b)
  && (cu_model_visible a ==? cu_model_visible b).

#[export] Instance session_entry_partial_eq : PartialEq SessionEntry := fun a b =>
  match a, b with
  | UserMessage x, UserMessage y => x ==? y
  | AssistantMessage x, AssistantMessage y => x ==? y
  | ToolResult x, ToolResult y => x ==? y
  | Compaction x, Compaction y => x ==? y
  | BranchSummary x, BranchSummary y => x ==? y
  | ModelChanged x, ModelChanged y => x ==? y
  | ThinkingChanged x, ThinkingChanged y => x ==? y
  | ConfigurationChanged x, ConfigurationChanged y => x ==? y
  | HarnessRevisionChanged x, HarnessRevisionChanged y => x ==? y
  | PluginMemory x, PluginMemory y => x ==? y
  | CustomSemantic x, CustomSemantic y => x ==? y
  | _, _ => false
  end.

Record EntryHeader := mk_entry_header {
  eh_id : EntryId;
  eh_parent_id : option EntryId;
  eh_seq : Sequence;
  eh_timestamp_ms : N;
}.

Record StoredEntry := mk_stored_entry {
  se_lane_id : LaneId;
  se_header : EntryHeader;
  se_body : SessionEntry;
}.

Record ProvisionedEntry := mk_provisioned {
  pe_id : EntryId;
  pe_body : SessionEntry;
}.
#[export] Instance provisioned_entry_partial_eq : PartialEq ProvisionedEntry := fun a b =>
  (pe_id a ==? pe_id b) && (pe_body a ==? pe_body b).

(** [ProvisionedEntry::user], [ProvisionedEntry::assistant]. *)
Definition provisioned_user (id : EntryId) (content : string) : ProvisionedEntry :=
  mk_provisioned id (UserMessage (mk_user_message content [])).
Definition provisioned_assistant (id : EntryId) (content : string)
    (tool_calls : list AssistantToolCall) : ProvisionedEntry :=
  mk_provisioned id (AssistantMessage {|
    am_content := text_content content;
    am_tool_calls := tool_calls;
    am_stop_reason := None;
    am_error_message := None;
    am_opaque_context := [];
    am_origin := None;
    am_metadata := [];
  |}).
