(* ===== verification/Decimal.v ===== *)
(** * Usage totals and exact decimal costs
    ([Usage::saturating_add_assign], [add_optional], [decimal_add],
    [decimal_parts] and [decimal_normalize] of
    [crates/tea-session/src/model.rs])

    Costs are text the provider reported.  The [u8] and [i64] arithmetic of
    the digit loop is checked: an overflow is a [Panic], as in a build with
    overflow checks; where the model returns [Ok], no operation overflows and
    a build that wraps computes the same text. *)

From Stdlib Require Import Ascii.
From stdpp Require Import base list strings.
From S2P Require Import Prelude RustStr Json Ids Model.

Local Open Scope N_scope.

(** Checked [u8] arithmetic. *)
Definition u8_sub {E} (a b : N) : Outcome E N :=
  if a <? b then Panic "attempt to subtract with overflow" else Ok (a - b).
Definition u8_add {E} (a b : N) : Outcome E N :=
  if 255 <? a + b then Panic "attempt to add with overflow" else Ok (a + b).

Definition i64_min : Z := -9223372036854775808.
Definition i64_max : Z := 9223372036854775807.

Definition char_dot : ascii := ascii_of_byte 46.
Definition char_plus : ascii := ascii_of_byte 43.
Definition char_minus : ascii := ascii_of_byte 45.
Definition char_zero : ascii := ascii_of_byte 48.
Definition is_exponent_mark (a : ascii) : bool := (byte_of a =? 101) || (byte_of a =? 69).

(** [str::parse::<i64>]: an optional sign and at least one digit, in range. *)
Fixpoint digits_value (acc : N) (bytes : list N) : option N :=
  match bytes with
  | [] => Some acc
  | b :: bytes => if is_ascii_digit b then digits_value (acc * 10 + (b - 48)) bytes else None
  end.
Definition i64_from_str (s : string) : option Z :=
  let '(negative, rest) :=
    match s with
    | String a rest =>
        if Ascii.eqb a char_minus then (true, rest)
        else if Ascii.eqb a char_plus then (false, rest) else (false, s)
    | EmptyString => (false, s)
    end in
  match bytes_of rest with
  | [] => None
  | bytes =>
      match digits_value 0 bytes with
      | Some n =>
          let z := if negative : bool then (- Z.of_N n)%Z else Z.of_N n in
          if ((i64_min <=? z) && (z <=? i64_max))%Z then Some z else None
      | None => None
      end
  end.

(** [std::iter::repeat_n('0', n)] as text. *)
Fixpoint zeros (n : nat) : string :=
  match n with
  | O => EmptyString
  | S n => String char_zero (zeros n)
  end.

(** [decimal_parts]. *)
Definition decimal_parts {E} (value : string) : Outcome E (string * nat) :=
  let '(coefficient, exponent) :=
    match split_once is_exponent_mark value with
    | Some (coefficient, exponent) => (coefficient, default 0%Z (i64_from_str exponent))
    | None => (value, 0%Z)
    end in
  let '(whole, fraction) :=
    default (coefficient, EmptyString) (split_once (Ascii.eqb char_dot) coefficient) in
  let digits := trim_start_matches char_plus whole +:+ fraction in
  let difference := (Z.of_nat (str_len fraction) - exponent)%Z in
  if (i64_max <? difference)%Z then Panic "attempt to subtract with overflow" else
  let scale := Z.to_nat (Z.max difference 0) in
  let digits := trim_start_matches char_zero digits in
  Ok (if str_is_empty digits then String char_zero EmptyString else digits, scale).

(** [while output.ends_with(c) { output.pop(); }] on the bytes of ASCII text. *)
Definition trim_end_byte (b : N) (l : list N) : list N := reverse (drop_while (N.eqb b) (reverse l)).
Definition pop_end_byte (b : N) (l : list N) : list N :=
  match reverse l with
  | x :: r => if x =? b then reverse r else l
  | [] => l
  end.

(** [decimal_normalize]. *)
Definition decimal_normalize {E} (value : string) : Outcome E string :=
  let? (digits, scale) := decimal_parts value in
  if bool_decide (scale = 0%nat) then Ok digits else
  let output :=
    if bool_decide (str_len digits <= scale)%nat then
      "0." +:+ zeros (scale - str_len digits) +:+ digits
    else
      let position := (str_len digits - scale)%nat in
      let bytes := bytes_of digits in
      string_of_bytes (take position bytes) +:+ "." +:+ string_of_bytes (drop position bytes) in
  Ok (string_of_bytes (pop_end_byte 46 (trim_end_byte 48 (bytes_of output)))).

(** The digit loop of [decimal_add] over both reversed byte sequences; the
    result is the reversed output. *)
Definition digit_sum {E} (l r : option N) (carry : N) : Outcome E N :=
  let? a := u8_sub (default 48 l) 48 in
  let? b := u8_add a (default 48 r) in
  let? c := u8_sub b 48 in
  u8_add c carry.

Fixpoint add_digits {E} (lefts rights : list N) (carry : N) {struct lefts} :
    Outcome E (list N) :=
  match lefts with
  | [] =>
      (fix rest (rights : list N) (carry : N) : Outcome E (list N) :=
         match rights with
         | [] => Ok (if carry =? 0 then [] else [48 + carry])
         | r :: rights =>
             let? sum := digit_sum None (Some r) carry in
             let? output := rest rights (sum / 10) in
             Ok (48 + sum mod 10 :: output)
         end) rights carry
  | l :: lefts =>
      let? sum := digit_sum (Some l) (head rights) carry in
      let? output := add_digits lefts (tail rights) (sum / 10) in
      Ok (48 + sum mod 10 :: output)
  end.

(** The [if scale != 0] block of [decimal_add]. *)
Definition insert_decimal_point (output : list N) (scale : nat) : list N :=
  if bool_decide (scale = 0%nat) then output else
  let output :=
    if bool_decide (length output <= scale)%nat
    then replicate (scale + 1 - length output) 48 ++ output else output in
  let position := (length output - scale)%nat in
  take position output ++ 46 :: drop position output.

(** [decimal_add]. *)
Definition decimal_add {E} (lhs rhs : string) : Outcome E string :=
  let? (left_digits, left_scale) := decimal_parts lhs in
  let? (right_digits, right_scale) := decimal_parts rhs in
  let scale := (left_scale `max` right_scale)%nat in
  let left_text := left_digits +:+ zeros (scale - left_scale) in
  let right_text := right_digits +:+ zeros (scale - right_scale) in
  let? output := add_digits (reverse (bytes_of left_text)) (reverse (bytes_of right_text)) 0 in
  decimal_normalize (string_of_bytes (insert_decimal_point (reverse output) scale)).

(** [add_optional]. *)
Definition add_optional (lhs rhs : option N) : option N :=
  match lhs, rhs with
  | Some l, Some r => Some (u64_saturating_add l r)
  | Some l, None => Some l
  | None, Some r => Some r
  | None, None => None
  end.

(** [Usage::saturating_add_assign]. *)
Definition usage_saturating_add_assign {E} (self other : Usage) : Outcome E Usage :=
  let? cost :=
    match us_cost other with
    | Some cost =>
        match us_cost self with
        | Some previous => let? sum := decimal_add previous cost in Ok (Some sum)
        | None => Ok (Some cost)
        end
    | None => Ok (us_cost self)
    end in
  Ok {|
    us_total_tokens := add_optional (us_total_tokens self) (us_total_tokens other);
    us_input_tokens := add_optional (us_input_tokens self) (us_input_tokens other);
    us_output_tokens := add_optional (us_output_tokens self) (us_output_tokens other);
    us_reasoning_tokens := add_optional (us_reasoning_tokens self) (us_reasoning_tokens other);
    us_cache_read_tokens := add_optional (us_cache_read_tokens self) (us_cache_read_tokens other);
    us_cache_write_tokens := add_optional (us_cache_write_tokens self) (us_cache_write_tokens other);
    us_cost := cost;
  |}.

Example decimal_add_sample : @decimal_add unit "0.2" "5e-3" = Ok "0.205".
Proof. reflexivity. Qed.
