(* ===== verification/DecimalProofs.v ===== *)
(** * Exactness of cost addition

    The digit-string arithmetic of [Decimal] is exact on the plain decimal
    texts whose exponent does not exceed the number of fraction digits, never
    overflows on them, and yields a plain decimal text again.  A larger
    exponent is dropped by [decimal_parts]. *)

From Stdlib Require Import Ascii ZifyBool ZifyN.
From stdpp Require Import base list strings sets.
From S2P Require Import Prelude RustStr Json Ids Model Decimal.

Local Open Scope N_scope.

(** ** Digit sequences *)

Definition is_digit (b : N) : Prop := 48 <= b <= 57.
Definition digits (l : list N) : Prop := Forall is_digit l.

(** The number a digit sequence denotes, most significant digit first, and
    least significant digit first. *)
Definition num (l : list N) : N := foldl (fun acc b => acc * 10 + (b - 48)) 0 l.
Fixpoint lenum (l : list N) : N :=
  match l with
  | [] => 0
  | b :: l => (b - 48) + 10 * lenum l
  end.

Lemma num_snoc l b : num (l ++ [b]) = num l * 10 + (b - 48).
Proof. unfold num. by rewrite foldl_snoc. Qed.

Lemma num_reverse l : num (reverse l) = lenum l.
Proof.
  induction l as [|b l IH]; [done|]. rewrite reverse_cons, num_snoc, IH. simpl. lia.
Qed.

Lemma lenum_reverse l : lenum (reverse l) = num l.
Proof. by rewrite <-num_reverse, reverse_involutive. Qed.

Lemma foldl_num_acc acc l :
  foldl (fun acc b => acc * 10 + (b - 48)) acc l = acc * 10 ^ N.of_nat (length l) + num l.
Proof.
  unfold num. revert acc. induction l as [|b l IH]; intros acc; simpl foldl.
  - simpl. lia.
  - rewrite IH, (IH (_ + _)). simpl length. rewrite Nat2N.inj_succ, N.pow_succ_r'. lia.
Qed.

Lemma num_app l k : num (l ++ k) = num l * 10 ^ N.of_nat (length k) + num k.
Proof. unfold num at 1. rewrite foldl_app. apply foldl_num_acc. Qed.

Lemma num_cons b l : num (b :: l) = (b - 48) * 10 ^ N.of_nat (length l) + num l.
Proof. exact (num_app [b] l). Qed.

Lemma num_zeros n : num (replicate n 48) = 0.
Proof. induction n as [|n IH]; [done|]. rewrite replicate_S, num_cons, IH. lia. Qed.

Lemma num_zeros_app n l : num (replicate n 48 ++ l) = num l.
Proof. rewrite num_app, num_zeros. lia. Qed.

Lemma num_app_zeros l n : num (l ++ replicate n 48) = num l * 10 ^ N.of_nat n.
Proof. rewrite num_app, num_zeros, length_replicate. lia. Qed.

Lemma digits_zeros n : digits (replicate n 48).
Proof. apply Forall_replicate. unfold is_digit. lia. Qed.

Lemma digits_byte l : digits l -> Forall (fun b => b < 256) l.
Proof. intros Hl. eapply Forall_impl; [exact Hl|]. unfold is_digit. lia. Qed.

(** ** The addition loop *)

Lemma digit_sum_Ok {E} l r c :
  (forall b, l = Some b -> is_digit b) -> (forall b, r = Some b -> is_digit b) -> c <= 1 ->
  @digit_sum E l r c = Ok ((default 48 l - 48) + (default 48 r - 48) + c).
Proof.
  intros Hl Hr Hc.
  assert (is_digit (default 48 l)) as Hl' by (destruct l; simpl; [auto|unfold is_digit; lia]).
  assert (is_digit (default 48 r)) as Hr' by (destruct r; simpl; [auto|unfold is_digit; lia]).
  unfold digit_sum, u8_sub, u8_add, is_digit in *.
  generalize dependent (default 48 l); intros a Ha.
  generalize dependent (default 48 r); intros b Hb.
  replace (a <? 48) with false by lia. simpl.
  replace (255 <? a - 48 + b) with false by lia. simpl.
  replace (a - 48 + b <? 48) with false by lia. simpl.
  replace (255 <? a - 48 + b - 48 + c) with false by lia. f_equal. lia.
Qed.

Lemma digit_mod s : is_digit (48 + s mod 10).
Proof. unfold is_digit. pose proof (N.mod_lt s 10 ltac:(done)). lia. Qed.

(** One column: the digit written and the carry passed on. *)
Lemma column_value a b c l r o :
  is_digit a -> is_digit b -> c <= 1 -> let s := (a - 48) + (b - 48) + c in
  s / 10 <= 1 /\
  (digits o -> lenum o = lenum l + lenum r + s / 10 ->
   digits (48 + s mod 10 :: o) /\
   lenum (48 + s mod 10 :: o) = (a - 48 + 10 * lenum l) + (b - 48 + 10 * lenum r) + c).
Proof.
  intros Ha Hb Hc s. pose proof (N.div_mod s 10 ltac:(done)) as Hs. split.
  - enough (s / 10 < 2) by lia. apply N.Div0.div_lt_upper_bound. unfold s, is_digit in *. lia.
  - intros Ho Hn. split; [constructor; [apply digit_mod|done]|].
    simpl lenum. rewrite Hn. unfold s in *. lia.
Qed.

Lemma add_digits_nil_cons {E} b r c : @add_digits E [] (b :: r) c =
  (let? sum := digit_sum None (Some b) c in
   let? output := add_digits [] r (sum / 10) in Ok (48 + sum mod 10 :: output)).
Proof. done. Qed.

Lemma add_digits_cons {E} a l r c : @add_digits E (a :: l) r c =
  (let? sum := digit_sum (Some a) (head r) c in
   let? output := add_digits l (tail r) (sum / 10) in Ok (48 + sum mod 10 :: output)).
Proof. done. Qed.

Lemma zero_is_digit : is_digit 48.
Proof. unfold is_digit. lia. Qed.

Lemma add_digits_nil_Ok {E} r c :
  digits r -> c <= 1 ->
  exists o, @add_digits E [] r c = Ok o /\ digits o /\ lenum o = lenum r + c /\
    (length r <= length o)%nat.
Proof.
  intros Hr; revert c; induction Hr as [|b r Hb Hr IH]; intros c Hc.
  - simpl. destruct (c =? 0) eqn:Hc0; eexists; (split; [done|]); simpl.
    + split_and!; [constructor|lia..].
    + split_and!; [repeat constructor; unfold is_digit; lia|lia..].
  - rewrite add_digits_nil_cons, digit_sum_Ok by naive_solver. cbn [obind from_option id].
    destruct (column_value 48 b c [] r [] zero_is_digit Hb Hc) as [Hcarry _].
    destruct (IH _ Hcarry) as (o & Ho & Hd & Hn & Hlen). rewrite Ho.
    destruct (column_value 48 b c [] r o zero_is_digit Hb Hc) as [_ Hcol].
    destruct Hcol as [Hd' Hn']; [done|simpl; lia|].
    eexists; split; [done|]. split_and!; [done| |simpl; lia].
    rewrite Hn'. simpl lenum. lia.
Qed.

Lemma add_digits_Ok {E} l r c :
  digits l -> digits r -> c <= 1 ->
  exists o, @add_digits E l r c = Ok o /\ digits o /\ lenum o = lenum l + lenum r + c /\
    (length l <= length o)%nat /\ (length r <= length o)%nat.
Proof.
  intros Hl; revert r c; induction Hl as [|a l Ha Hl IH]; intros r c Hr Hc.
  - destruct (@add_digits_nil_Ok E r c Hr Hc) as (o & Ho & Hd & Hn & Hlen).
    exists o. split_and!; [done|done|simpl; lia|simpl; lia|done].
  - assert (is_digit (default 48 (head r)) /\ digits (tail r) /\
            lenum r = default 48 (head r) - 48 + 10 * lenum (tail r) /\
            (length r <= S (length (tail r)))%nat) as (Hb & Ht & Hr' & Hlr).
    { destruct Hr as [|b r Hb Hr]; simpl; [split_and!; [apply zero_is_digit|constructor|lia|lia]|].
      by split_and!. }
    rewrite add_digits_cons, digit_sum_Ok; [|naive_solver| |done]; cycle 1.
    { intros b Heq. by rewrite Heq in Hb. }
    cbn [obind]. change (default 48 (Some a)) with a.
    destruct (column_value a (default 48 (head r)) c l (tail r) [] Ha Hb Hc) as [Hcarry _].
    destruct (IH (tail r) _ Ht Hcarry) as (o & Ho & Hd & Hn & Hlen & Hlen'). rewrite Ho.
    destruct (column_value a (default 48 (head r)) c l (tail r) o Ha Hb Hc) as [_ Hcol].
    destruct Hcol as [Hd' Hn']; [done|done|].
    eexists; split; [done|]. split_and!; [done| |simpl; lia|simpl; lia].
    rewrite Hn'. simpl lenum. lia.
Qed.

(** ** Splitting plain texts *)

Lemma byte_of_ascii b : b < 256 -> byte_of (ascii_of_byte b) = b.
Proof. apply Ascii.N_ascii_embedding. Qed.

Lemma eqb_ascii b c : b < 256 -> Ascii.eqb c (ascii_of_byte b) = (byte_of c =? b).
Proof.
  intros Hb. apply eq_bool_prop_intro. rewrite !Is_true_true, N.eqb_eq, Ascii.eqb_eq. split.
  - intros ->. by apply byte_of_ascii.
  - intros <-. unfold byte_of, ascii_of_byte. by rewrite Ascii.ascii_N_embedding.
Qed.

Lemma split_once_none p l :
  Forall (fun b => p (ascii_of_byte b) = false) l -> split_once p (string_of_bytes l) = None.
Proof. induction 1 as [|b l Hb _ IH]; simpl; [done|]. by rewrite Hb, IH. Qed.

Lemma split_once_some p l x k :
  Forall (fun b => p (ascii_of_byte b) = false) l -> p (ascii_of_byte x) = true ->
  split_once p (string_of_bytes (l ++ x :: k)) = Some (string_of_bytes l, string_of_bytes k).
Proof.
  intros Hl Hx. induction Hl as [|b l Hb _ IH]; simpl; [by rewrite Hx|]. by rewrite Hb, IH.
Qed.

Lemma digit_not_mark b : is_digit b -> is_exponent_mark (ascii_of_byte b) = false.
Proof. unfold is_digit, is_exponent_mark. intros. rewrite byte_of_ascii by lia. lia. Qed.

Lemma digit_not_byte b c : is_digit b -> c < 256 -> ~ is_digit c ->
  Ascii.eqb (ascii_of_byte c) (ascii_of_byte b) = false.
Proof.
  unfold is_digit. intros Hb Hc Hn. rewrite eqb_ascii by lia. rewrite byte_of_ascii by lia. lia.
Qed.

Lemma string_of_bytes_app l k : string_of_bytes (l ++ k) = string_of_bytes l +:+ string_of_bytes k.
Proof. induction l as [|b l IH]; simpl; [done|]. by rewrite IH. Qed.

Lemma zeros_bytes n : zeros n = string_of_bytes (replicate n 48).
Proof. induction n as [|n IH]; simpl; [done|]. by rewrite IH. Qed.

Lemma str_len_bytes l : str_len (string_of_bytes l) = length l.
Proof. induction l as [|b l IH]; simpl; [done|]. unfold str_len in *. simpl. by rewrite IH. Qed.

Lemma trim_plus_digits l :
  digits l -> trim_start_matches char_plus (string_of_bytes l) = string_of_bytes l.
Proof.
  destruct 1 as [|b l Hb _]; [done|]. simpl. unfold char_plus.
  rewrite eqb_ascii, byte_of_ascii by (unfold is_digit in *; lia).
  by replace (b =? 43) with false by (unfold is_digit in *; lia).
Qed.

(** Trimming leading zeros keeps the digits and their value. *)
Lemma trim_zero_digits l :
  digits l -> exists k, trim_start_matches char_zero (string_of_bytes l) = string_of_bytes k /\
    digits k /\ num k = num l.
Proof.
  induction 1 as [|b l Hb Hl IH]; simpl; [exists []; split_and!; [done|constructor|done]|].
  unfold char_zero.
  rewrite eqb_ascii, byte_of_ascii by (unfold is_digit in *; lia).
  destruct (b =? 48) eqn:Hz.
  - destruct IH as (k & Hk & Hd & Hn). exists k. split_and!; [done|done|].
    rewrite Hn. apply N.eqb_eq in Hz as ->. rewrite num_cons. lia.
  - exists (b :: l). split_and!; [done| |done]. by constructor.
Qed.

(** ** Plain decimal texts *)

(** [whole.fraction] and an optional exponent; the value is
    [num (whole ++ fraction) * 10 ^ (exponent - length fraction)]. *)
Record DecimalText := mk_text {
  dt_whole : list N;
  dt_fraction : list N;
  dt_exponent : option (bool * list N);
}.

Definition text_exponent (d : DecimalText) : Z :=
  match dt_exponent d with
  | None => 0
  | Some (negative, ds) => if negative : bool then - Z.of_N (num ds) else Z.of_N (num ds)
  end%Z.
Definition text_coefficient (d : DecimalText) : N := num (dt_whole d ++ dt_fraction d).
(** The number of decimal places the value needs, when nonnegative. *)
Definition text_scale (d : DecimalText) : Z :=
  (Z.of_nat (length (dt_fraction d)) - text_exponent d)%Z.

Definition point (fraction : list N) : list N :=
  match fraction with [] => [] | _ => 46 :: fraction end.
Definition render (d : DecimalText) : string :=
  string_of_bytes (dt_whole d ++ point (dt_fraction d) ++
    match dt_exponent d with
    | None => []
    | Some (negative, ds) => 101 :: (if negative : bool then [45] else []) ++ ds
    end).

(** Only digits, an exponent text that is not empty, and a value that needs
    between zero and [i64::MAX] decimal places. *)
Record text_ok (d : DecimalText) : Prop := {
  to_whole : digits (dt_whole d);
  to_fraction : digits (dt_fraction d);
  to_exponent : forall n ds, dt_exponent d = Some (n, ds) -> digits ds /\ ds <> [];
  to_scale : (0 <= text_scale d <= i64_max)%Z;
  to_length : (Z.of_nat (length (dt_fraction d)) <= i64_max)%Z;
}.

Lemma digits_value_num acc l : digits l -> digits_value acc l = Some (acc * 10 ^ N.of_nat (length l) + num l).
Proof.
  intros Hl. revert acc. induction Hl as [|b l Hb Hl IH]; intros acc; simpl digits_value.
  - unfold num. simpl. f_equal. lia.
  - unfold is_ascii_digit. replace ((48 <=? b) && (b <=? 57)) with true
      by (unfold is_digit in *; lia).
    rewrite IH, num_cons. simpl length. rewrite Nat2N.inj_succ, N.pow_succ_r'. f_equal. lia.
Qed.

Lemma i64_from_str_digits (n : bool) ds :
  digits ds -> ds <> [] ->
  let z := (if n then - Z.of_N (num ds) else Z.of_N (num ds))%Z in
  (i64_min <= z <= i64_max)%Z ->
  i64_from_str (string_of_bytes ((if n then [45] else []) ++ ds)) = Some z.
Proof.
  intros Hds Hne z Hz.
  assert (i64_from_str (string_of_bytes ((if n then [45] else []) ++ ds)) =
    match bytes_of (string_of_bytes ds) with
    | [] => None
    | bytes => match digits_value 0 bytes with
               | Some v => let z := (if n then - Z.of_N v else Z.of_N v)%Z in
                   if ((i64_min <=? z) && (z <=? i64_max))%Z then Some z else None
               | None => None end
    end) as ->.
  { destruct n; simpl app; [done|]. destruct Hds as [|b ds Hb _]; [done|].
    unfold i64_from_str. simpl string_of_bytes.
    unfold char_minus, char_plus. rewrite !eqb_ascii, !byte_of_ascii by (unfold is_digit in *; lia).
    replace (b =? 45) with false by (unfold is_digit in *; lia).
    by replace (b =? 43) with false by (unfold is_digit in *; lia). }
  rewrite bytes_of_string_of_bytes by by apply digits_byte.
  destruct ds as [|b ds]; [done|]. rewrite digits_value_num by done.
  rewrite N.mul_0_l, N.add_0_l. fold z. cbv zeta. fold z.
  by replace ((i64_min <=? z) && (z <=? i64_max))%Z with true by lia.
Qed.

Lemma mark_e : is_exponent_mark (ascii_of_byte 101) = true.
Proof. reflexivity. Qed.
Lemma dot_eqb : Ascii.eqb char_dot (ascii_of_byte 46) = true.
Proof. reflexivity. Qed.

Lemma digits_no_mark l : digits l -> Forall (fun b => is_exponent_mark (ascii_of_byte b) = false) l.
Proof. intros Hl. eapply Forall_impl; [exact Hl|]. apply digit_not_mark. Qed.

Lemma digits_no_dot l : digits l -> Forall (fun b => Ascii.eqb char_dot (ascii_of_byte b) = false) l.
Proof.
  intros Hl. eapply Forall_impl; [exact Hl|]. intros b Hb. apply digit_not_byte; [done|lia|].
  unfold is_digit. lia.
Qed.

Lemma point_no_mark f : digits f -> Forall (fun b => is_exponent_mark (ascii_of_byte b) = false) (point f).
Proof.
  intros Hf. destruct f as [|b f]; [constructor|]. constructor; [reflexivity|]. by apply digits_no_mark.
Qed.

(** Splitting at the point gives both digit sequences back. *)
Lemma split_point w f :
  digits w ->
  default (string_of_bytes (w ++ point f), EmptyString)
    (split_once (Ascii.eqb char_dot) (string_of_bytes (w ++ point f)))
  = (string_of_bytes w, string_of_bytes f).
Proof.
  intros Hw. destruct f as [|b f]; simpl point.
  - rewrite app_nil_r, split_once_none by by apply digits_no_dot. done.
  - rewrite split_once_some; [done|by apply digits_no_dot|apply dot_eqb].
Qed.

Lemma split_mark d :
  text_ok d ->
  match split_once is_exponent_mark (render d) with
  | Some (coefficient, exponent) => (coefficient, default 0%Z (i64_from_str exponent))
  | None => (render d, 0%Z)
  end = (string_of_bytes (dt_whole d ++ point (dt_fraction d)), text_exponent d).
Proof.
  intros [Hw Hf He Hs Hl]. unfold render, text_scale, text_exponent, i64_max in *.
  assert (Forall (fun b => is_exponent_mark (ascii_of_byte b) = false)
            (dt_whole d ++ point (dt_fraction d))) as Hno.
  { apply Forall_app; split; [by apply digits_no_mark|by apply point_no_mark]. }
  rewrite app_assoc. destruct (dt_exponent d) as [[n ds]|].
  - destruct (He n ds eq_refl) as [Hds Hne].
    rewrite split_once_some; [|done|apply mark_e]. f_equal.
    rewrite i64_from_str_digits; [done..|]. unfold i64_min, i64_max. destruct n; lia.
  - rewrite app_nil_r, split_once_none by done. done.
Qed.

Lemma decimal_parts_render {E} d :
  text_ok d ->
  exists k, @decimal_parts E (render d) = Ok (string_of_bytes k, Z.to_nat (text_scale d)) /\
    digits k /\ k <> [] /\ num k = text_coefficient d.
Proof.
  intros Hok. pose proof Hok as [Hw Hf _ Hs Hl].
  destruct (trim_zero_digits (dt_whole d ++ dt_fraction d)) as (k & Hk & Hd & Hn);
    [by apply Forall_app|].
  unfold decimal_parts. rewrite split_mark by done. rewrite split_point by done.
  rewrite trim_plus_digits by done. rewrite <-string_of_bytes_app, Hk, str_len_bytes.
  fold (text_scale d). replace (i64_max <? text_scale d)%Z with false by lia.
  rewrite Z.max_l by lia. destruct k as [|b k].
  - exists [48]. split_and!; [done| |done|done]. repeat constructor; unfold is_digit; lia.
  - exists (b :: k). by split_and!.
Qed.

(** ** Normalisation *)

Lemma drop_while_zeros l : exists n, l = replicate n 48 ++ drop_while (N.eqb 48) l.
Proof.
  induction l as [|b l [n Hn]]; [by exists 0%nat|]. cbn [drop_while].
  destruct (48 =? b) eqn:Hb.
  - apply N.eqb_eq in Hb as <-. exists (S n). rewrite replicate_S. cbn [app]. by rewrite <-Hn.
  - by exists 0%nat.
Qed.

Lemma drop_while_app_stop {A} (p : A -> bool) l x k :
  p x = false -> drop_while p (l ++ x :: k) = drop_while p l ++ x :: k.
Proof.
  intros Hx. induction l as [|y l IH]; simpl; [by rewrite Hx|]. by destruct (p y).
Qed.

(** Removing trailing zeros and then a trailing point. *)
Lemma trim_fraction w f :
  digits w -> w <> [] -> digits f ->
  exists n f', f = f' ++ replicate n 48 /\ digits f' /\
    pop_end_byte 46 (trim_end_byte 48 (w ++ 46 :: f)) = w ++ point f'.
Proof.
  intros Hw Hne Hf.
  destruct (drop_while_zeros (reverse f)) as [n Hn].
  set (g := drop_while (N.eqb 48) (reverse f)) in *.
  exists n, (reverse g). assert (f = reverse g ++ replicate n 48) as Hfg.
  { rewrite <-(reverse_involutive f), Hn, reverse_app. f_equal. by rewrite reverse_replicate. }
  split_and!; [done| |].
  { rewrite Hfg in Hf. by apply Forall_app in Hf as [? _]. }
  unfold trim_end_byte. rewrite reverse_app, reverse_cons, <-app_assoc. simpl app.
  rewrite drop_while_app_stop by done. fold g. unfold pop_end_byte.
  rewrite (reverse_involutive (g ++ _)).
  assert (reverse (g ++ 46 :: reverse w) = w ++ 46 :: reverse g) as Hrev.
  { by rewrite reverse_app, reverse_cons, reverse_involutive, <-app_assoc. }
  assert (digits (reverse g)) as Hdg. { rewrite Hfg in Hf. by apply Forall_app in Hf as [? _]. }
  rewrite Hrev. clearbody g. destruct g as [|b g']; cbn [app].
  - rewrite N.eqb_refl, reverse_involutive, reverse_nil. simpl. by rewrite app_nil_r.
  - replace (b =? 46) with false; cycle 1.
    { assert (is_digit b) as Hb; [|unfold is_digit in *; lia].
      pose proof (proj1 (Forall_forall _ _) Hdg b) as Hb. apply Hb. rewrite elem_of_reverse.
      set_solver. }
    rewrite reverse_cons. by destruct (reverse g').
Qed.

(** Placing the point [n] digits from the end, padding with zeros. *)
Lemma place_point k n :
  digits k -> k <> [] ->
  exists w f, digits w /\ w <> [] /\ digits f /\ length f = n /\ num (w ++ f) = num k /\
    (if bool_decide (length k <= n)%nat
     then "0." +:+ zeros (n - length k) +:+ string_of_bytes k
     else string_of_bytes (take (length k - n) k) +:+ "." +:+
          string_of_bytes (drop (length k - n) k))
    = string_of_bytes (w ++ 46 :: f).
Proof.
  intros Hd Hne. case_bool_decide as Hle.
  - exists [48], (replicate (n - length k) 48 ++ k). split_and!.
    + repeat constructor; unfold is_digit; lia.
    + done.
    + apply Forall_app; split; [apply digits_zeros|done].
    + rewrite length_app, length_replicate. lia.
    + rewrite app_assoc. change ([48] ++ ?l) with (replicate (S (n - length k)) 48).
      apply num_zeros_app.
    + rewrite zeros_bytes. cbn [app string_of_bytes]. by rewrite string_of_bytes_app.
  - exists (take (length k - n) k), (drop (length k - n) k). split_and!.
    + by apply Forall_take.
    + intros Hnil. apply (f_equal length) in Hnil. rewrite length_take in Hnil. simpl in Hnil. lia.
    + by apply Forall_drop.
    + rewrite length_drop. lia.
    + by rewrite take_drop.
    + by rewrite string_of_bytes_app.
Qed.

(** A normalised text: [w.f] without the point when [f] is empty, with the
    value of [m / 10 ^ n]. *)
Definition plain_text (s : string) (m : N) (n : nat) : Prop :=
  exists w f, s = render (mk_text w f None) /\ digits w /\ w <> [] /\ digits f /\
    (length f <= n)%nat /\ num (w ++ f) * 10 ^ N.of_nat n = m * 10 ^ N.of_nat (length f).

Lemma decimal_parts_point {E} w f :
  digits w -> digits f -> (Z.of_nat (length f) <= i64_max)%Z ->
  exists k, @decimal_parts E (string_of_bytes (w ++ point f)) = Ok (string_of_bytes k, length f) /\
    digits k /\ k <> [] /\ num k = num (w ++ f).
Proof.
  intros Hw Hf Hlen. assert (text_ok (mk_text w f None)) as Hok.
  { split; unfold text_scale, text_exponent; simpl; try done; lia. }
  destruct (@decimal_parts_render E _ Hok) as (k & Hk & Hrest). exists k.
  unfold render, text_scale, text_exponent in Hk. simpl in Hk.
  by rewrite app_nil_r, Z.sub_0_r, Nat2Z.id in Hk.
Qed.

Lemma decimal_normalize_plain {E} w f :
  digits w -> digits f -> (Z.of_nat (length f) <= i64_max)%Z ->
  exists s, @decimal_normalize E (string_of_bytes (w ++ point f)) = Ok s /\
    plain_text s (num (w ++ f)) (length f).
Proof.
  intros Hw Hf Hlen.
  destruct (@decimal_parts_point E w f Hw Hf Hlen) as (k & Hk & Hd & Hkne & Hn).
  unfold decimal_normalize. rewrite Hk. cbn [obind]. rewrite str_len_bytes.
  rewrite bytes_of_string_of_bytes by by apply digits_byte. case_bool_decide as Hz.
  - eexists; split; [done|]. exists k, []. unfold render. simpl.
    rewrite !app_nil_r, Hz. split_and!; [done|done|done|constructor|lia|]. by rewrite Hn.
  - destruct (place_point k (length f) Hd Hkne) as (w1 & f1 & Hw1 & Hw1ne & Hf1 & Hlen1 & Hnum & ->).
    rewrite bytes_of_string_of_bytes; cycle 1.
    { apply Forall_app; split; [by apply digits_byte|]. constructor; [lia|by apply digits_byte]. }
    destruct (trim_fraction w1 f1 Hw1 Hw1ne Hf1) as (n & f' & Hff & Hf' & ->).
    eexists; split; [done|]. exists w1, f'. unfold render; simpl.
    split_and!; [by rewrite app_nil_r|done|done|done|rewrite <-Hlen1, Hff, length_app; lia|].
    rewrite <-Hn, <-Hnum, Hff, app_assoc, num_app_zeros, <-Hlen1, Hff, length_app, length_replicate.
    rewrite Nat2N.inj_add, N.pow_add_r. lia.
Qed.

(** ** Addition *)

Definition scale_of (d : DecimalText) : nat := Z.to_nat (text_scale d).

(** Coefficient of a text at a larger number of decimal places. *)
Definition coefficient_at (d : DecimalText) (scale : nat) : N :=
  text_coefficient d * 10 ^ N.of_nat (scale - scale_of d).

(** The digits of the sum with the point placed are a plain text. *)
Lemma insert_point o scale :
  digits o -> (length o <> 0)%nat ->
  exists w f, digits w /\ digits f /\ length f = scale /\ num (w ++ f) = num o /\
    insert_decimal_point o scale = w ++ point f.
Proof.
  intros Ho Hne. unfold insert_decimal_point. case_bool_decide as Hz.
  - exists o, []. simpl. rewrite app_nil_r. by split_and!; try constructor.
  - set (o1 := if bool_decide (length o <= scale)%nat
               then replicate (scale + 1 - length o) 48 ++ o else o).
    assert (digits o1 /\ num o1 = num o /\ (scale < length o1)%nat) as (Hd & Hn & Hlen).
    { unfold o1. case_bool_decide; [|by split_and!; [..|lia]].
      rewrite num_zeros_app, length_app, length_replicate.
      split_and!; [|done|lia]. apply Forall_app; split; [apply digits_zeros|done]. }
    exists (take (length o1 - scale) o1), (drop (length o1 - scale) o1).
    rewrite length_drop, take_drop. split_and!; [by apply Forall_take|by apply Forall_drop|lia|done|].
    cbv zeta. f_equal. destruct (drop (length o1 - scale) o1) eqn:Hdrop; [|done].
    apply (f_equal length) in Hdrop. rewrite length_drop in Hdrop. simpl in Hdrop. lia.
Qed.

Lemma decimal_add_plain {E} d1 d2 :
  text_ok d1 -> text_ok d2 ->
  let scale := (scale_of d1 `max` scale_of d2)%nat in
  exists s, @decimal_add E (render d1) (render d2) = Ok s /\
    plain_text s (coefficient_at d1 scale + coefficient_at d2 scale) scale.
Proof.
  intros Hok1 Hok2 scale.
  destruct (@decimal_parts_render E d1 Hok1) as (k1 & Hk1 & Hd1 & Hne1 & Hn1).
  destruct (@decimal_parts_render E d2 Hok2) as (k2 & Hk2 & Hd2 & Hne2 & Hn2).
  unfold decimal_add. rewrite Hk1, Hk2. cbn [obind]. fold (scale_of d1) (scale_of d2) scale.
  rewrite !zeros_bytes, <-!string_of_bytes_app.
  assert (forall k n, digits k -> digits (k ++ replicate n 48)) as Happ.
  { intros k n Hk. apply Forall_app; split; [done|apply digits_zeros]. }
  rewrite !bytes_of_string_of_bytes by (apply digits_byte, Happ; done).
  edestruct (@add_digits_Ok E) as (o & Ho & Hod & Hon & Hlen & _);
    [apply Forall_reverse, (Happ k1 (scale - scale_of d1)%nat Hd1)
    |apply Forall_reverse, (Happ k2 (scale - scale_of d2)%nat Hd2)|instantiate (1 := 0); lia|].
  rewrite Ho. cbn [obind]. rewrite !lenum_reverse, !num_app_zeros, Hn1, Hn2 in Hon.
  destruct (insert_point (reverse o) scale) as (w & f & Hw & Hf & Hlf & Hnum & ->).
  { by apply Forall_reverse. }
  { rewrite length_reverse. rewrite length_reverse, length_app in Hlen. destruct k1; simpl in *; [done|lia]. }
  destruct (@decimal_normalize_plain E w f Hw Hf) as (s & Hs & Hplain).
  { rewrite Hlf. destruct Hok1 as [_ _ _ Hs1 _], Hok2 as [_ _ _ Hs2 _].
    unfold scale, scale_of. lia. }
  exists s. split; [done|]. rewrite Hnum, num_reverse, Hon, Hlf, N.add_0_r in Hplain. done.
Qed.

(** Adding two decimal cost texts whose exponent does not exceed their fraction digits
    succeeds without overflow and yields a plain decimal text whose value is exactly the sum. *)
Theorem decimal_add_exact {E} d1 d2 :
  text_ok d1 -> text_ok d2 ->
  let scale := (scale_of d1 `max` scale_of d2)%nat in
  exists s, @decimal_add E (render d1) (render d2) = Ok s /\
    plain_text s (coefficient_at d1 scale + coefficient_at d2 scale) scale.
Proof. apply decimal_add_plain. Qed.

Lemma decimal_add_exact_witness :
  exists s, @decimal_add unit "0.2" "5e-3" = Ok s /\
    plain_text s (coefficient_at (mk_text [48] [50] None) 3
                  + coefficient_at (mk_text [53] [] (Some (true, [51]))) 3) 3.
Proof.
  apply (@decimal_add_exact unit (mk_text [48] [50] None) (mk_text [53] [] (Some (true, [51])))).
  - split; simpl; try (repeat constructor; unfold is_digit; lia); try done;
      unfold text_scale, text_exponent, i64_max; simpl; lia.
  - split; simpl; try (repeat constructor; unfold is_digit; lia); try (by vm_compute).
    intros n ds [= <- <-]. split; [|done]. repeat constructor; unfold is_digit; lia.
Defined.

(** A positive decimal exponent is dropped by cost addition: 1e3 plus 0 yields 1, although
    1000 plus 0 yields 1000. *)
Theorem decimal_positive_exponent_dropped :
  @decimal_add unit "1e3" "0" = Ok "1" /\ @decimal_add unit "1000" "0" = Ok "1000".
Proof. split; reflexivity. Qed.
