(* ===== verification/Records.v ===== *)
(** * tea-session: operation records, facts and mutations
    ([crates/tea-session/src/model.rs] from [LaneRecord] on, and the fact
    types of [crates/tea-session/src/agents.rs])

    The write-ahead vocabulary of a session: the lane records of the
    operation log, the lane-topology mutations, the session-wide facts, the
    mutation taxonomy a commit is made of, and the derived values the lane
    reducer returns.  Field names carry a prefix of the struct's initials. *)

From stdpp Require Import base gmap list strings.
From S2P Require Import Prelude RustStr Json Ids Model.

(** ** Operation records *)

Inductive OperationKind :=
| KindRun
| KindSubagent (agent_id : AgentId) (parent_operation_id : OperationId)
| KindOther (name : string).
#[export] Instance operation_kind_eq_dec : EqDecision OperationKind.
Proof. solve_decision. Defined.

Record OperationStartedRecord := mk_operation_started {
  os_id : OperationId;
  os_lane_id : LaneId;
  os_source_leaf_id : option EntryId;
  os_kind : OperationKind;
  os_original_input : list ProvisionedEntry;
  os_input_ids : list EntryId;
  os_initial_harness_revision : HarnessRevisionId;
  os_model_harness_profile : ModelHarnessProfileId;
  os_operation_resume_data : gmap StableHookId JsonValue;
}.

(** [OperationStartedRecord::new] and [with_input_ids]. *)
Definition operation_started_new (id : OperationId) (lane_id : LaneId)
    (source_leaf_id : option EntryId) (kind : OperationKind)
    (original_input : list ProvisionedEntry) (initial_harness_revision : HarnessRevisionId)
    (model_harness_profile : ModelHarnessProfileId) : OperationStartedRecord :=
  mk_operation_started id lane_id source_leaf_id kind original_input []
    initial_harness_revision model_harness_profile ∅.
Definition with_input_ids (r : OperationStartedRecord) (input_ids : list EntryId) :
    OperationStartedRecord :=
  mk_operation_started (os_id r) (os_lane_id r) (os_source_leaf_id r) (os_kind r)
    (os_original_input r) input_ids (os_initial_harness_revision r)
    (os_model_harness_profile r) (os_operation_resume_data r).

Inductive OperationOutcome :=
| OutcomeCompleted
| OutcomeAborted
| OutcomeFailed (code : string).
#[export] Instance operation_outcome_eq_dec : EqDecision OperationOutcome.
Proof. solve_decision. Defined.

Record OperationFinishedRecord := mk_operation_finished {
  of_operation_id : OperationId;
  of_outcome : OperationOutcome;
}.

Record AbortRequestedRecord := mk_abort_requested {
  ar_operation_id : OperationId;
  ar_reason : option string;
}.

Record EpochStartedRecord := mk_epoch_started {
  es_id : EpochId;
  es_operation_id : OperationId;
  es_epoch_index : N;
  es_source_leaf_id : option EntryId;
  es_harness_revision_id : HarnessRevisionId;
  es_harness_snapshot_id : HarnessSnapshotId;
  es_model_harness_profile : ModelHarnessProfileId;
  es_core_run_id : CoreRunId;
  es_epoch_resume_data : gmap StableHookId JsonValue;
}.

Inductive EpochFinishReason := EpochSettled | EpochActivationPending | EpochInterrupted.
#[export] Instance epoch_finish_reason_eq_dec : EqDecision EpochFinishReason.
Proof. solve_decision. Defined.

Record EpochFinishedRecord := mk_epoch_finished {
  ef_epoch_id : EpochId;
  ef_operation_id : OperationId;
  ef_reason : EpochFinishReason;
}.

Inductive StepKind := StepAssistant | StepCompaction.
#[export] Instance step_kind_eq_dec : EqDecision StepKind.
Proof. solve_decision. Defined.
#[export] Instance step_kind_countable : Countable StepKind.
Proof.
  refine (inj_countable' (fun k => match k with StepAssistant => true | StepCompaction => false end)
            (fun b : bool => if b then StepAssistant else StepCompaction) _).
  by intros [].
Defined.

Record StepAttemptedRecord := mk_step_attempted {
  sa_id : StepId;
  sa_operation_id : OperationId;
  sa_epoch_id : EpochId;
  sa_kind : StepKind;
  sa_attempt : N;
  sa_result_entry_id : EntryId;
  sa_reason : option string;
}.

Record ProviderRequestStartedRecord := mk_provider_started {
  prs_request_id : ProviderRequestId;
  prs_operation_id : OperationId;
  prs_epoch_id : EpochId;
  prs_step_id : StepId;
  prs_physical_attempt : N;
  prs_model_harness_profile : ModelHarnessProfileId;
  prs_request_surface_digest : Digest;
  prs_idempotency_key : option string;
}.

Inductive ProviderSettlementClassification :=
| SettlementCompleted
| SettlementRetryable
| SettlementDiscarded
| SettlementInterrupted.
#[export] Instance settlement_eq_dec : EqDecision ProviderSettlementClassification.
Proof. solve_decision. Defined.

Record ProviderErrorRecord := mk_provider_error {
  per_source : string;
  per_message : option string;
  per_status_code : option N;
  per_attempt : option N;
  per_logical_request_id : option string;
  per_visible_stream_event : option bool;
  per_auth_refresh_attempted : option bool;
  per_quota_reset_at_unix_seconds : option N;
  per_error_type : option string;
  per_error_code : option string;
  per_retryable : option bool;
  per_response_bytes : option N;
  per_request_bytes : option N;
  per_response_body : option string;
}.

Record ProviderRequestSettledRecord := mk_provider_settled {
  pst_request_id : ProviderRequestId;
  pst_operation_id : OperationId;
  pst_outcome : JsonValue;
  pst_provider_error : option ProviderErrorRecord;
  pst_usage : option Usage;
  pst_response_artifact : option ArtifactId;
  pst_classification : ProviderSettlementClassification;
}.

Inductive ToolReplayPolicy := ReplayNever | ReplaySafe.
#[export] Instance tool_replay_policy_eq_dec : EqDecision ToolReplayPolicy.
Proof. solve_decision. Defined.

Record ToolStartedRecord := mk_tool_started {
  ts_record_id : RecordId;
  ts_operation_id : OperationId;
  ts_epoch_id : EpochId;
  ts_assistant_entry_id : EntryId;
  ts_tool_index : N;
  ts_tool_call_id : string;
  ts_tool_name : string;
  ts_effective_args : JsonValue;
  ts_result_entry_id : EntryId;
  ts_replay_policy_at_start : ToolReplayPolicy;
  ts_tool_definition_digest : Digest;
  ts_harness_revision_id : HarnessRevisionId;
  ts_idempotency_key : string;
}.

Record InputAcceptedRecord := mk_input_accepted {
  ia_lane_id : LaneId;
  ia_entry : ProvisionedEntry;
}.

Record InputWithdrawnRecord := mk_input_withdrawn {
  iw_lane_id : LaneId;
  iw_input_id : EntryId;
}.

Record InputSettledRecord := mk_input_settled {
  is_operation_id : OperationId;
  is_input_id : EntryId;
  is_outcome : OperationOutcome;
}.

Record ExtensionControlEnqueuedRecord := mk_control_enqueued {
  xe_operation_id : OperationId;
  xe_control_id : string;
  xe_extension_id : string;
  xe_harness_revision_id : HarnessRevisionId;
  xe_command_name : string;
  xe_arguments : JsonValue;
}.

Record ExtensionControlAppliedRecord := mk_control_applied { xa_control_id : string }.

Record WriteDeferredRecord := mk_write_deferred {
  wd_operation_id : OperationId;
  wd_entry : ProvisionedEntry;
}.

Record HarnessActivationRequestedRecord := mk_activation_requested {
  ha_operation_id : OperationId;
  ha_candidate_id : HarnessCandidateId;
  ha_parent_revision_id : HarnessRevisionId;
  ha_proposed_snapshot_id : HarnessSnapshotId;
  ha_revision_entry_id : EntryId;
}.
#[export] Instance activation_requested_eq_dec : EqDecision HarnessActivationRequestedRecord.
Proof. solve_decision. Defined.

Record UsageRecord := mk_usage_record {
  ur_operation_id : OperationId;
  ur_request_id : option ProviderRequestId;
  ur_usage : Usage;
}.

Inductive CacheMaintenanceOutcome :=
| MaintenanceCompleted
| MaintenanceFailed (message : string)
| MaintenanceCancelled.

Record CacheMaintenanceRecord := mk_cache_maintenance {
  cm_operation_id : OperationId;
  cm_model : option ModelChangedEntry;
  cm_selected_model : option ModelChangedEntry;
  cm_outcome : CacheMaintenanceOutcome;
  cm_usage : Usage;
  cm_estimated_cost : option string;
}.

Inductive LaneRecord :=
| OperationStarted (record : OperationStartedRecord)
| OperationFinished (record : OperationFinishedRecord)
| AbortRequested (record : AbortRequestedRecord)
| EpochStarted (record : EpochStartedRecord)
| EpochFinished (record : EpochFinishedRecord)
| StepAttempted (record : StepAttemptedRecord)
| ProviderRequestStarted (record : ProviderRequestStartedRecord)
| ProviderRequestSettled (record : ProviderRequestSettledRecord)
| ToolStarted (record : ToolStartedRecord)
| InputAccepted (record : InputAcceptedRecord)
| InputWithdrawn (record : InputWithdrawnRecord)
| InputSettled (record : InputSettledRecord)
| ExtensionControlEnqueued (record : ExtensionControlEnqueuedRecord)
| ExtensionControlApplied (record : ExtensionControlAppliedRecord)
| WriteDeferred (record : WriteDeferredRecord)
| HarnessActivationRequested (record : HarnessActivationRequestedRecord)
| UsageFact (record : UsageRecord)
| CacheMaintenance (record : CacheMaintenanceRecord).

(** [LaneRecord::operation_id]. *)
Definition record_operation_id (r : LaneRecord) : option OperationId :=
  match r with
  | OperationStarted record => Some (os_id record)
  | OperationFinished record => Some (of_operation_id record)
  | AbortRequested record => Some (ar_operation_id record)
  | EpochStarted record => Some (es_operation_id record)
  | EpochFinished record => Some (ef_operation_id record)
  | StepAttempted record => Some (sa_operation_id record)
  | ProviderRequestStarted record => Some (prs_operation_id record)
  | ProviderRequestSettled record => Some (pst_operation_id record)
  | ToolStarted record => Some (ts_operation_id record)
  | InputAccepted _ | InputWithdrawn _ => None
  | InputSettled record => Some (is_operation_id record)
  | ExtensionControlEnqueued record => Some (xe_operation_id record)
  | ExtensionControlApplied _ => None
  | WriteDeferred record => Some (wd_operation_id record)
  | HarnessActivationRequested record => Some (ha_operation_id record)
  | UsageFact record => Some (ur_operation_id record)
  | CacheMaintenance record => Some (cm_operation_id record)
  end.

Record StoredRecord := mk_stored_record {
  sr_seq : Sequence;
  sr_timestamp_ms : N;
  sr_record : LaneRecord;
}.

(** ** Lane topology *)

Inductive LaneMutation :=
| LaneCreated (lane_id : LaneId) (base_leaf_id : option EntryId).

Record StoredLaneMutation := mk_stored_lane {
  sl_seq : Sequence;
  sl_timestamp_ms : N;
  sl_mutation : LaneMutation;
}.

(** ** Session facts *)

Inductive AgentContextMode := ContextTask | ContextParent.
#[export] Instance agent_context_mode_eq_dec : EqDecision AgentContextMode.
Proof. solve_decision. Defined.

Record SubagentModelRecord := mk_subagent_model {
  sm_provider : string;
  sm_model : string;
  sm_revision : option string;
  sm_display_name : string;
  sm_context_window : option N;
}.
#[export] Instance subagent_model_eq_dec : EqDecision SubagentModelRecord.
Proof. solve_decision. Defined.

Record SubagentPolicyFact := mk_subagent_policy {
  sp_schema_version : N;
  sp_models : list SubagentModelRecord;
  sp_max_concurrent : N;
  sp_max_total_per_operation : N;
  sp_timeout_ms : N;
  sp_tool_surface_digest : Digest;
}.

Record AgentSpawnedFact := mk_agent_spawned {
  as_agent_id : AgentId;
  as_parent_lane_id : LaneId;
  as_parent_operation_id : OperationId;
  as_lane_id : LaneId;
  as_task_name : string;
  as_model : SubagentModelRecord;
  as_thinking : string;
  as_context_mode : AgentContextMode;
  as_base_leaf_id : option EntryId;
  as_workspace_lease_id : WorkspaceLeaseId;
  as_harness_revision_id : HarnessRevisionId;
  as_harness_snapshot_id : HarnessSnapshotId;
  as_model_harness_profile_id : ModelHarnessProfileId;
  as_spawn_tool_call_id : string;
}.

Record WorkspaceDeltaFact := mk_workspace_delta {
  wf_delta_id : WorkspaceDeltaId;
  wf_agent_id : AgentId;
  wf_workspace_lease_id : WorkspaceLeaseId;
  wf_base_commit : string;
  wf_result_commit : string;
  wf_changed_paths : list string;
  wf_patch : PayloadRef;
}.

Record AgentTaskFinishedFact := mk_agent_finished {
  af_agent_id : AgentId;
  af_operation_id : OperationId;
  af_outcome : OperationOutcome;
  af_final_entry_id : option EntryId;
  af_report : PayloadRef;
  af_workspace_delta_id : option WorkspaceDeltaId;
}.

Record WorkspaceDeltaAppliedFact := mk_delta_applied {
  wa_delta_id : WorkspaceDeltaId;
  wa_target_lane_id : LaneId;
  wa_tool_call_id : string;
  wa_changed_paths : list string;
}.

Record ProviderRequestMaterialFact := mk_provider_material {
  pmf_operation_id : OperationId;
  pmf_epoch_id : EpochId;
  pmf_request_id : ProviderRequestId;
  pmf_request : PayloadRef;
}.

Record ExtensionStateValueSetFact := mk_extension_state_set {
  xs_lane_id : LaneId;
  xs_extension_id : string;
  xs_state_version : string;
  xs_value : JsonValue;
}.

Record ExtensionStateValue := mk_extension_state_value {
  xv_state_version : string;
  xv_value : JsonValue;
}.
#[export] Instance extension_state_value_partial_eq : PartialEq ExtensionStateValue := fun a b =>
  (xv_state_version a ==? xv_state_version b) && (xv_value a ==? xv_value b).

Record TurnCheckpointFact := mk_turn_checkpoint {
  tcf_checkpoint_id : TurnCheckpointId;
  tcf_lane_id : LaneId;
  tcf_operation_id : OperationId;
  tcf_leaf_id : option EntryId;
  tcf_extension_state : gmap string ExtensionStateValue;
}.

Record ForkedLaneFact := mk_forked_lane {
  fl_checkpoint_id : TurnCheckpointId;
  fl_lane_id : LaneId;
  fl_base_leaf_id : option EntryId;
}.

Record HarnessCatalogFact := mk_harness_catalog {
  hc_schema_version : N;
  hc_artifact_id : ArtifactId;
  hc_byte_len : N;
}.

Record SchemaFieldMismatch := mk_schema_mismatch {
  sfm_field : string;
  sfm_expected : string;
  sfm_actual : string;
}.

Record ToolSchemaDeviationFact := mk_schema_deviation {
  tsd_operation_id : OperationId;
  tsd_epoch_id : EpochId;
  tsd_assistant_entry_id : EntryId;
  tsd_tool_call_id : string;
  tsd_tool_name : string;
  tsd_model_harness_profile : ModelHarnessProfileId;
  tsd_arguments_valid_json : bool;
  tsd_unknown_fields : list string;
  tsd_missing_fields : list string;
  tsd_type_mismatches : list SchemaFieldMismatch;
  tsd_raw_arguments : PayloadRef;
}.

Record TraceArtifactFact := mk_trace_artifact {
  ta_schema_version : N;
  ta_operation_id : OperationId;
  ta_epoch_id : EpochId;
  ta_core_run_id : CoreRunId;
  ta_harness_revision_id : HarnessRevisionId;
  ta_harness_snapshot_id : HarnessSnapshotId;
  ta_model_harness_profile : ModelHarnessProfileId;
  ta_artifact_id : ArtifactId;
  ta_byte_len : N;
  ta_media_type : string;
}.

Inductive SessionFact :=
| SubagentPolicy (fact : SubagentPolicyFact)
| AgentSpawned (fact : AgentSpawnedFact)
| WorkspaceDelta (fact : WorkspaceDeltaFact)
| AgentTaskFinished (fact : AgentTaskFinishedFact)
| WorkspaceDeltaApplied (fact : WorkspaceDeltaAppliedFact)
| HarnessCatalog (fact : HarnessCatalogFact)
| ToolSchemaDeviation (fact : ToolSchemaDeviationFact)
| TraceArtifact (fact : TraceArtifactFact)
| ProviderRequestMaterial (fact : ProviderRequestMaterialFact)
| ExtensionStateValueSet (fact : ExtensionStateValueSetFact)
| TurnCheckpoint (fact : TurnCheckpointFact)
| ForkedLane (fact : ForkedLaneFact)
| CustomFact (type_name : string) (payload : JsonValue).

(** [SessionFact::artifact_references]. *)
Definition fact_artifact_references (f : SessionFact) : list ArtifactId :=
  match f with
  | SubagentPolicy _ | AgentSpawned _ | WorkspaceDeltaApplied _
  | ExtensionStateValueSet _ | TurnCheckpoint _ | ForkedLane _ => []
  | WorkspaceDelta fact => option_list (payload_artifact_id (wf_patch fact))
  | AgentTaskFinished fact => option_list (payload_artifact_id (af_report fact))
  | HarnessCatalog fact => [hc_artifact_id fact]
  | ToolSchemaDeviation fact => option_list (payload_artifact_id (tsd_raw_arguments fact))
  | TraceArtifact fact => [ta_artifact_id fact]
  | ProviderRequestMaterial fact => option_list (payload_artifact_id (pmf_request fact))
  | CustomFact _ _ => []
  end.

Record StoredFact := mk_stored_fact {
  sf_seq : Sequence;
  sf_timestamp_ms : N;
  sf_fact : SessionFact;
}.

(** ** Mutations and commits *)

Inductive SessionMutation :=
| MutEntry (entry : StoredEntry)
| MutRecord (record : StoredRecord)
| MutLane (mutation : StoredLaneMutation)
| MutFact (fact : StoredFact).

Inductive SessionCommitItem :=
| ItemEntry (lane_id : LaneId) (entry : ProvisionedEntry)
| ItemRecord (record : LaneRecord)
| ItemLane (mutation : LaneMutation)
| ItemFact (fact : SessionFact).

Record SessionCommit := mk_commit { commit_items : list SessionCommitItem }.

(** The [InvalidInput] message of [SessionCommit::new]. *)
Definition empty_commit_message : string := "a semantic commit must contain at least one item".

(** [SessionCommit::new], [one] and [push]; the error carries its message. *)
Definition commit_new (items : list SessionCommitItem) : Outcome string SessionCommit :=
  match items with
  | [] => Err empty_commit_message
  | _ => Ok (mk_commit items)
  end.
Definition commit_one (item : SessionCommitItem) : SessionCommit := mk_commit [item].
Definition commit_push (c : SessionCommit) (item : SessionCommitItem) : SessionCommit :=
  mk_commit (commit_items c ++ [item]).

Record StoredMutation := mk_stored_mutation {
  smu_seq : Sequence;
  smu_timestamp_ms : N;
  smu_prev_digest : Digest;
  smu_digest : Digest;
  smu_mutation : SessionMutation;
}.

Record StoredCommit := mk_stored_commit {
  sc_seq : Sequence;
  sc_timestamp_ms : N;
  sc_prev_digest : Digest;
  sc_digest : Digest;
  sc_items : list StoredMutation;
}.

(** ** Derived lane values *)

Inductive LaneStatus :=
| LaneIdle
| LaneRunning
| LaneFaulted (reason : string).

Record LaneState := mk_lane_state {
  ls_lane_id : LaneId;
  ls_leaf_id : option EntryId;
  ls_status : LaneStatus;
  ls_active_operation : option OperationId;
  ls_active_harness_revision : option HarnessRevisionId;
}.

Record EffectiveLaneConfiguration := mk_configuration {
  ec_model : option ModelChangedEntry;
  ec_thinking_level : option string;
  ec_declared_tool_names : list string;
  ec_harness_revision : option HarnessRevisionId;
}.
#[export] Instance configuration_eta : Eta EffectiveLaneConfiguration := fun c =>
  mk_configuration (ec_model c) (ec_thinking_level c) (ec_declared_tool_names c)
    (ec_harness_revision c).

(** [EffectiveLaneConfiguration::default]. *)
Definition configuration_default : EffectiveLaneConfiguration := mk_configuration None None [] None.

Record AcceptedInput := mk_accepted_input {
  ai_lane_id : LaneId;
  ai_entry : ProvisionedEntry;
  ai_accepted_sequence : Sequence;
}.

Inductive InputStatus :=
| InputPending
| InputIsWithdrawn
| InputDispatched (operation_id : OperationId)
| InputIsSettled (operation_id : OperationId) (outcome : OperationOutcome).
#[export] Instance input_status_eq_dec : EqDecision InputStatus.
Proof. solve_decision. Defined.

Record InputState := mk_input_state {
  in_accepted : AcceptedInput;
  in_status : InputStatus;
}.
#[export] Instance input_state_eta : Eta InputState := fun i =>
  mk_input_state (in_accepted i) (in_status i).

Record InputReduction := mk_input_reduction {
  ir_pending_inputs : list AcceptedInput;
  ir_input_states : gmap EntryId InputState;
}.

Record PendingExtensionControl := mk_pending_control {
  pc_accepted_sequence : Sequence;
  pc_accepted_item_index : N;
  pc_control : ExtensionControlEnqueuedRecord;
}.

Record PendingWrite := mk_pending_write {
  pw_operation_id : OperationId;
  pw_entry : ProvisionedEntry;
}.

Record PendingHarnessActivation := mk_pending_activation {
  pa_request : HarnessActivationRequestedRecord;
}.
