(* ===== verification/Snapshot.v ===== *)
(** * tea-session: the replayed snapshot ([SessionSnapshot] of
    [crates/tea-session/src/model.rs])

    A snapshot owns each payload once, in the typed view of its kind, and
    keeps an ordered index of envelopes that point into the views.  The
    theorems show that the index never dangles and that replaying it gives
    back exactly the committed items in commit order. *)

From stdpp Require Import base gmap list strings.
From S2P Require Import Prelude RustStr Json Ids Model Records.

Inductive MutationLocation :=
| LocEntry (index : nat)
| LocRecord (index : nat)
| LocLane (index : nat)
| LocFact (index : nat).

Record StoredMutationEnvelope := mk_envelope {
  env_seq : Sequence;
  env_timestamp_ms : N;
  env_prev_digest : Digest;
  env_digest : Digest;
  env_location : MutationLocation;
}.

Record SessionSnapshot := mk_snapshot {
  ss_header : SessionHeader;
  ss_entries : list StoredEntry;
  ss_records : list StoredRecord;
  ss_lane_mutations : list StoredLaneMutation;
  ss_facts : list StoredFact;
  ss_timeline : list StoredMutationEnvelope;
  ss_last_sequence : Sequence;
  ss_last_digest : Digest;
  ss_main_harness_revision : option HarnessRevisionId;
}.
#[export] Instance snapshot_eta : Eta SessionSnapshot := fun s =>
  mk_snapshot (ss_header s) (ss_entries s) (ss_records s) (ss_lane_mutations s) (ss_facts s)
    (ss_timeline s) (ss_last_sequence s) (ss_last_digest s) (ss_main_harness_revision s).

(** [SessionSnapshot::empty]. *)
Definition snapshot_empty (header : SessionHeader) : SessionSnapshot := {|
  ss_header := header;
  ss_entries := [];
  ss_records := [];
  ss_lane_mutations := [];
  ss_facts := [];
  ss_timeline := [];
  ss_last_sequence := 0%N;
  ss_last_digest := sh_digest header;
  ss_main_harness_revision := None;
|}.

(** [SessionSnapshot::next_sequence]. *)
Definition next_sequence (s : SessionSnapshot) : Sequence := u64_saturating_add (ss_last_sequence s) 1.

(** [SessionSnapshot::push_semantic_mutation]. *)
Definition push_semantic_mutation (s : SessionSnapshot) (mutation : SessionMutation) :
    SessionSnapshot * MutationLocation :=
  match mutation with
  | MutEntry entry =>
      let s :=
        match se_body entry with
        | HarnessRevisionChanged revision =>
            if se_lane_id entry ==? lane_main
            then s <| ss_main_harness_revision := Some (hr_revision_id revision) |>
            else s
        | _ => s
        end in
      let s := s <| ss_entries ::= fun l => l ++ [entry] |> in
      (s, LocEntry (length (ss_entries s) - 1))
  | MutRecord record =>
      let s := s <| ss_records ::= fun l => l ++ [record] |> in
      (s, LocRecord (length (ss_records s) - 1))
  | MutLane lane =>
      let s := s <| ss_lane_mutations ::= fun l => l ++ [lane] |> in
      (s, LocLane (length (ss_lane_mutations s) - 1))
  | MutFact fact =>
      let s := s <| ss_facts ::= fun l => l ++ [fact] |> in
      (s, LocFact (length (ss_facts s) - 1))
  end.

(** One iteration of the loop of [SessionSnapshot::push_commit]. *)
Definition push_item (stored : StoredCommit) (s : SessionSnapshot) (item : StoredMutation) :
    SessionSnapshot :=
  let '(s, location) := push_semantic_mutation s (smu_mutation item) in
  s <| ss_timeline ::= fun l => l ++ [{|
    env_seq := sc_seq stored;
    env_timestamp_ms := sc_timestamp_ms stored;
    env_prev_digest := sc_prev_digest stored;
    env_digest := sc_digest stored;
    env_location := location;
  |}] |>.

(** [SessionSnapshot::push_commit]. *)
Definition push_commit (s : SessionSnapshot) (stored : StoredCommit) : SessionSnapshot :=
  foldl (push_item stored)
    (s <| ss_last_sequence := sc_seq stored |> <| ss_last_digest := sc_digest stored |>)
    (sc_items stored).

(** [SessionSnapshot::borrow_mutation]: an index out of range panics.  The
    borrowed view and [StoredMutationRef::to_owned] carry the same value. *)
Definition borrow_mutation {E} (s : SessionSnapshot) (e : StoredMutationEnvelope) :
    Outcome E StoredMutation :=
  let? mutation :=
    match env_location e with
    | LocEntry i => expect (MutEntry <$> ss_entries s !! i) "index out of bounds"
    | LocRecord i => expect (MutRecord <$> ss_records s !! i) "index out of bounds"
    | LocLane i => expect (MutLane <$> ss_lane_mutations s !! i) "index out of bounds"
    | LocFact i => expect (MutFact <$> ss_facts s !! i) "index out of bounds"
    end in
  Ok (mk_stored_mutation (env_seq e) (env_timestamp_ms e) (env_prev_digest e) (env_digest e)
        mutation).

(** [SessionSnapshot::mutations], collected. *)
Definition mutations {E} (s : SessionSnapshot) : Outcome E (list StoredMutation) :=
  omap_list (borrow_mutation s) (ss_timeline s).

(** ** The index never dangles *)

(** The envelope fields of every item are those of its commit. *)
Definition commit_sealed (c : StoredCommit) : Prop :=
  Forall (fun m => smu_seq m = sc_seq c /\ smu_timestamp_ms m = sc_timestamp_ms c
                   /\ smu_prev_digest m = sc_prev_digest c /\ smu_digest m = sc_digest c)
    (sc_items c).

(** The view a snapshot gives of each kind of mutation. *)
Definition view_entry (m : StoredMutation) : option StoredEntry :=
  match smu_mutation m with MutEntry e => Some e | _ => None end.
Definition view_record (m : StoredMutation) : option StoredRecord :=
  match smu_mutation m with MutRecord r => Some r | _ => None end.
Definition view_lane (m : StoredMutation) : option StoredLaneMutation :=
  match smu_mutation m with MutLane l => Some l | _ => None end.
Definition view_fact (m : StoredMutation) : option StoredFact :=
  match smu_mutation m with MutFact f => Some f | _ => None end.

(** The replay of a snapshot is [ms], and each typed view is the filtered
    replay: the representation relation between a snapshot and its log. *)
Record represents (s : SessionSnapshot) (ms : list StoredMutation) : Prop := {
  rep_timeline : forall E, @mutations E s = Ok ms;
  rep_entries : ss_entries s = omap view_entry ms;
  rep_records : ss_records s = omap view_record ms;
  rep_lanes : ss_lane_mutations s = omap view_lane ms;
  rep_facts : ss_facts s = omap view_fact ms;
}.

Lemma represents_empty header : represents (snapshot_empty header) [].
Proof. by split. Qed.

(** A location that is in range keeps its payload when views only grow. *)
Lemma borrow_mutation_mono {E} s s' e m :
  ss_entries s `prefix_of` ss_entries s' -> ss_records s `prefix_of` ss_records s' ->
  ss_lane_mutations s `prefix_of` ss_lane_mutations s' -> ss_facts s `prefix_of` ss_facts s' ->
  @borrow_mutation E s e = Ok m -> @borrow_mutation E s' e = Ok m.
Proof.
  intros [ke He] [kr Hr] [kl Hl] [kf Hf] (mu & Hmu & Hm)%obind_Ok_inv.
  unfold borrow_mutation. cut (match env_location e with
    | LocEntry i => @expect E _ (MutEntry <$> ss_entries s' !! i) "index out of bounds"
    | LocRecord i => expect (MutRecord <$> ss_records s' !! i) "index out of bounds"
    | LocLane i => expect (MutLane <$> ss_lane_mutations s' !! i) "index out of bounds"
    | LocFact i => expect (MutFact <$> ss_facts s' !! i) "index out of bounds"
    end = Ok mu); [intros ->; exact Hm|].
  destruct (env_location e); apply expect_Ok_inv in Hmu;
    apply fmap_Some in Hmu as (x & Hx & ->);
    rewrite ?He, ?Hr, ?Hl, ?Hf; by rewrite (lookup_app_l_Some _ _ _ _ Hx).
Qed.

Lemma omap_list_snoc {E A B} (f : A -> Outcome E B) l x ys y :
  omap_list f l = Ok ys -> f x = Ok y -> omap_list f (l ++ [x]) = Ok (ys ++ [y]).
Proof.
  rewrite !omap_list_Forall2. intros Hl Hx. apply Forall2_app; [done|]. by repeat constructor.
Qed.

Lemma lookup_snoc_last {A} (l : list A) x : (l ++ [x]) !! (length (l ++ [x]) - 1)%nat = Some x.
Proof. rewrite length_app. simpl. rewrite lookup_app_r by lia. by replace (_ - _)%nat with 0%nat by lia. Qed.

(** The payload of an item under the envelope of its commit. *)
Definition restamp (c : StoredCommit) (m : StoredMutation) : StoredMutation :=
  mk_stored_mutation (sc_seq c) (sc_timestamp_ms c) (sc_prev_digest c) (sc_digest c)
    (smu_mutation m).

Lemma mutations_extend {E} s s' ms e m :
  @mutations E s = Ok ms ->
  ss_entries s `prefix_of` ss_entries s' -> ss_records s `prefix_of` ss_records s' ->
  ss_lane_mutations s `prefix_of` ss_lane_mutations s' -> ss_facts s `prefix_of` ss_facts s' ->
  ss_timeline s' = ss_timeline s ++ [e] -> @borrow_mutation E s' e = Ok m ->
  @mutations E s' = Ok (ms ++ [m]).
Proof.
  intros Hms ???? Htl Hm. unfold mutations. rewrite Htl. apply omap_list_snoc; [|done].
  apply omap_list_Forall2. apply omap_list_Forall2 in Hms.
  eapply Forall2_impl; [exact Hms|]. intros. by eapply borrow_mutation_mono.
Qed.

(** The five obligations of [represents] after one push. *)
Ltac solve_push_item s :=
  split; simpl;
  [ let E := fresh in intros E; eapply (mutations_extend s); simpl;
    [ eauto | first [reflexivity | by eexists].. | reflexivity
    | unfold borrow_mutation; simpl; by rewrite lookup_snoc_last ]
  | rewrite omap_app; simpl; rewrite ?app_nil_r; congruence .. ].

Lemma represents_push_item c s ms item :
  represents s ms -> represents (push_item c s item) (ms ++ [restamp c item]).
Proof.
  intros [Htl He Hr Hl Hf]. unfold push_item, restamp.
  destruct (smu_mutation item) as [e|r|l|f]; simpl; [|solve_push_item s..].
  destruct (se_body e) eqn:Hb; try (case_match; simpl); solve_push_item s.
Qed.

Lemma represents_push_commit s ms c :
  represents s ms -> represents (push_commit s c) (ms ++ map (restamp c) (sc_items c)).
Proof.
  intros Hrep. unfold push_commit.
  assert (represents (s <| ss_last_sequence := sc_seq c |> <| ss_last_digest := sc_digest c |>) ms)
    as Hrep'. { destruct Hrep; by split. }
  clear Hrep. revert Hrep'.
  generalize (s <| ss_last_sequence := sc_seq c |> <| ss_last_digest := sc_digest c |>).
  revert ms. induction (sc_items c) as [|item items IH]; intros ms s' Hrep; simpl.
  - by rewrite app_nil_r.
  - rewrite cons_middle, app_assoc. by apply IH, represents_push_item.
Qed.

Lemma restamp_sealed c : commit_sealed c -> map (restamp c) (sc_items c) = sc_items c.
Proof.
  unfold commit_sealed. induction 1 as [|m l (H1 & H2 & H3 & H4) _ IH]; simpl; [done|].
  rewrite IH. f_equal. destruct m; unfold restamp; simpl in *; congruence.
Qed.

Lemma push_commit_header s c : ss_header (push_commit s c) = ss_header s.
Proof.
  unfold push_commit.
  cut (forall s', ss_header s' = ss_header s ->
         ss_header (foldl (push_item c) s' (sc_items c)) = ss_header s); [eauto|].
  induction (sc_items c) as [|i l IH]; intros s' Hs'; simpl; [done|].
  apply IH. unfold push_item. destruct (smu_mutation i); simpl; repeat (case_match; simpl); done.
Qed.

Lemma push_commit_last s c :
  ss_last_sequence (push_commit s c) = sc_seq c /\ ss_last_digest (push_commit s c) = sc_digest c.
Proof.
  unfold push_commit.
  cut (forall s', ss_last_sequence s' = sc_seq c /\ ss_last_digest s' = sc_digest c ->
    ss_last_sequence (foldl (push_item c) s' (sc_items c)) = sc_seq c /\
    ss_last_digest (foldl (push_item c) s' (sc_items c)) = sc_digest c); [eauto|].
  induction (sc_items c) as [|i l IH]; intros s' Hs'; simpl; [done|].
  apply IH. unfold push_item. destruct (smu_mutation i); simpl; repeat (case_match; simpl); done.
Qed.

(** A snapshot built from its header by pushing commits. *)
Definition replay (header : SessionHeader) (cs : list StoredCommit) : SessionSnapshot :=
  foldl push_commit (snapshot_empty header) cs.

Lemma represents_foldl s ms cs :
  represents s ms ->
  represents (foldl push_commit s cs) (ms ++ concat (map (fun c => map (restamp c) (sc_items c)) cs)).
Proof.
  revert s ms. induction cs as [|c cs IH]; intros s ms Hrep; simpl; [by rewrite app_nil_r|].
  rewrite app_assoc. by apply IH, represents_push_commit.
Qed.

(** A snapshot built by pushing sealed commits replays, without a dangling index, exactly
    the committed items in commit order, and its typed views are the filtered replay. *)
Theorem snapshot_replays_commits header cs :
  Forall commit_sealed cs -> represents (replay header cs) (concat (map sc_items cs)).
Proof.
  intros Hcs. pose proof (represents_foldl _ _ cs (represents_empty header)) as Hrep.
  simpl in Hrep. replace (map sc_items cs) with (map (fun c => map (restamp c) (sc_items c)) cs);
    [done|]. clear Hrep.
  induction Hcs as [|c cs Hc _ IH]; simpl; [done|]. by rewrite IH, restamp_sealed.
Qed.
