(* ===== verification/Reduction.v ===== *)
(** * tea-session: the pure lane reducer ([crates/tea-session/src/reduction.rs])

    [reduce_lane_prefix] folds the ordered mutations of a session into the
    ordered maps of [ReducerState] (the locals of the source function), one
    handler per mutation variant, and then derives the lane's configuration,
    input queue, recovery plan and totals.  Every corruption branch returns
    [Err] with the source's diagnostic; the [expect]s of the source are
    [Panic]s. *)

From Stdlib Require Import Ascii.
From stdpp Require Import base gmap sets list strings pretty sorting.
From S2P Require Import Prelude RustStr Json Ids Decimal Model Records Snapshot.

Record Corruption := mk_corruption { corruption_message : string }.

(** [format!] of literal and displayed pieces. *)
Definition fmt (pieces : list string) : string := str_concat pieces.
#[global] Arguments fmt : simpl never.

(** [return Err(Corruption::new(...))]. *)
Definition corrupt {A} (pieces : list string) : Outcome Corruption A :=
  Err (mk_corruption (fmt pieces)).

Definition show_n (n : N) : string := pretty n.
#[global] Arguments show_n : simpl never.

(** [if condition { return Err(...) }]. *)
Definition reject_if (condition : bool) (pieces : list string) : Outcome Corruption unit :=
  if condition then corrupt pieces else Ok ().

Lemma reject_if_Ok c pieces u : reject_if c pieces = Ok u -> c = false.
Proof. by destruct c. Qed.

Lemma reject_if_no_panic c pieces r : reject_if c pieces <> Panic r.
Proof. by destruct c. Qed.

(** ** Results *)

Inductive RecoveryPlan :=
| AppendAcceptedInput (operation_id : OperationId) (entries : list ProvisionedEntry)
| ReconcileToolEffect (result_entry_id : EntryId)
| ReplayToolIfStillSafe (tool : ToolStartedRecord)
| ResumeAssistantToolPath (assistant_entry_id : EntryId)
| ReconcileProviderRequest (request_id : ProviderRequestId)
| ProviderRequestNotAdmitted (request_id : ProviderRequestId)
| ActivateHarness (request : HarnessActivationRequestedRecord)
| StartEpoch (operation_id : OperationId)
| ResumeOperation (operation_id : OperationId).

Abbreviation ExtensionStateMap := (gmap string ExtensionStateValue).

Record LaneReduction := mk_lane_reduction {
  lr_lane_state : LaneState;
  lr_effective_configuration : EffectiveLaneConfiguration;
  lr_recovery_plan : option RecoveryPlan;
  lr_input_reduction : InputReduction;
  lr_pending_extension_controls : list PendingExtensionControl;
  lr_extension_state : ExtensionStateMap;
  lr_pending_writes : list PendingWrite;
  lr_pending_harness_activation : option PendingHarnessActivation;
  lr_usage_totals : Usage;
}.

Record OperationState := mk_operation_state {
  op_lane_id : LaneId;
  op_original_input : list ProvisionedEntry;
  op_finished : bool;
  op_outcome : option OperationOutcome;
  op_epoch_ids : list EpochId;
  op_open_epochs : gset EpochId;
  op_entry_ids : list EntryId;
}.
#[export] Instance operation_state_eta : Eta OperationState := fun o =>
  mk_operation_state (op_lane_id o) (op_original_input o) (op_finished o) (op_outcome o)
    (op_epoch_ids o) (op_open_epochs o) (op_entry_ids o).

(** The local variables of the fold. *)
Record ReducerState := mk_reducer_state {
  lane_leaves : gmap LaneId (option EntryId);
  entries : gmap EntryId StoredEntry;
  operations : gmap OperationId OperationState;
  active_operations : gmap LaneId OperationId;
  epochs : gmap EpochId OperationId;
  step_attempts : gmap (OperationId * EpochId * StepKind) (StepId * N);
  steps : gmap StepId (OperationId * EpochId * StepKind);
  provisioned_entries : gmap EntryId ProvisionedEntry;
  tool_starts : list (Sequence * ToolStartedRecord);
  provider_starts : gmap ProviderRequestId ProviderRequestStartedRecord;
  provider_settled : gmap ProviderRequestId ProviderSettlementClassification;
  provider_material : gset ProviderRequestId;
  compaction_provider_requests : gset ProviderRequestId;
  input_states : gmap EntryId InputState;
  input_order : list EntryId;
  extension_controls : gmap string PendingExtensionControl;
  applied_extension_controls : gset string;
  extension_state : gmap LaneId ExtensionStateMap;
  checkpoints : gmap TurnCheckpointId TurnCheckpointFact;
  forked_lanes : gset LaneId;
  fresh_lanes : gset LaneId;
  child_spawns : gmap AgentId (OperationId * Sequence);
  child_terminal : gset AgentId;
  checkpoint_ready_for : option OperationId;
  deferred_writes : list PendingWrite;
  activation_requests : list HarnessActivationRequestedRecord;
  usage_by_lane : gmap LaneId Usage;
  observed_sequence : Sequence;
  observed_item_index : N;
}.
#[export] Instance reducer_state_eta : Eta ReducerState := fun s =>
  mk_reducer_state (lane_leaves s) (entries s) (operations s) (active_operations s) (epochs s)
    (step_attempts s) (steps s) (provisioned_entries s) (tool_starts s) (provider_starts s)
    (provider_settled s) (provider_material s) (compaction_provider_requests s) (input_states s)
    (input_order s) (extension_controls s) (applied_extension_controls s) (extension_state s)
    (checkpoints s) (forked_lanes s) (fresh_lanes s) (child_spawns s) (child_terminal s)
    (checkpoint_ready_for s) (deferred_writes s) (activation_requests s) (usage_by_lane s)
    (observed_sequence s) (observed_item_index s).

Definition initial_state (header : SessionHeader) : ReducerState := {|
  lane_leaves := {[ sh_initial_lane header := None ]};
  entries := ∅;
  operations := ∅;
  active_operations := ∅;
  epochs := ∅;
  step_attempts := ∅;
  steps := ∅;
  provisioned_entries := ∅;
  tool_starts := [];
  provider_starts := ∅;
  provider_settled := ∅;
  provider_material := ∅;
  compaction_provider_requests := ∅;
  input_states := ∅;
  input_order := [];
  extension_controls := ∅;
  applied_extension_controls := ∅;
  extension_state := {[ sh_initial_lane header := ∅ ]};
  checkpoints := ∅;
  forked_lanes := ∅;
  fresh_lanes := ∅;
  child_spawns := ∅;
  child_terminal := ∅;
  checkpoint_ready_for := None;
  deferred_writes := [];
  activation_requests := [];
  usage_by_lane := ∅;
  observed_sequence := 0%N;
  observed_item_index := 0%N;
|}.

(** [open_operation] and [open_operation_mut]. *)
Definition open_operation (operations : gmap OperationId OperationState) (id : OperationId) :
    Outcome Corruption OperationState :=
  match operations !! id with
  | None => corrupt ["record refers to unknown operation "; as_str id]
  | Some operation =>
      if op_finished operation then corrupt ["record follows terminal operation "; as_str id]
      else Ok operation
  end.

(** ** Field validation *)

Section validation.
Context `{Miniserde} `{Blake3}.

(** [validate_bounded_extension_identifier]. *)
Definition validate_bounded_extension_identifier (label value : string) :
    Outcome Corruption unit :=
  reject_if (str_is_empty value || (200 <? str_len value)%nat || has_control value)
    [label; " must be nonempty, non-control text within 200 bytes"].

(** [validate_extension_state_value]. *)
Definition validate_extension_state_value (fact : ExtensionStateValueSetFact) :
    Outcome Corruption unit :=
  check? validate_bounded_extension_identifier "extension state namespace" (xs_extension_id fact) in
  check? validate_bounded_extension_identifier "extension state version" (xs_state_version fact) in
  let? text := map_err (fun error => mk_corruption
      (fmt ["extension state cannot encode canonically: "; json_error_display error]))
      (to_json_string (xs_value fact)) in
  let bytes := N.of_nat (str_len text) in
  reject_if (65536 <? bytes)%N
    ["extension state value exceeds the 65536-byte limit ("; show_n bytes; ")"].

(** [validate_extension_control]. *)
Definition validate_extension_control (record : ExtensionControlEnqueuedRecord) :
    Outcome Corruption unit :=
  check? validate_bounded_extension_identifier "extension control ID" (xe_control_id record) in
  check? validate_bounded_extension_identifier "extension control extension ID"
           (xe_extension_id record) in
  check? validate_bounded_extension_identifier "extension control command name"
           (xe_command_name record) in
  let? text := map_err (fun error => mk_corruption
      (fmt ["extension control cannot encode canonically: "; json_error_display error]))
      (to_json_string (xe_arguments record)) in
  let bytes := N.of_nat (str_len text) in
  reject_if (65536 <? bytes)%N
    ["extension control arguments exceed the 65536-byte limit ("; show_n bytes; ")"].

(** [validate_compaction_replacement]. *)
Definition validate_compaction_replacement (entry : CompactionEntry) : Outcome Corruption unit :=
  let? digest :=
    match ce_replacement entry with
    | PayloadInline value =>
        check? reject_if (json_is_null value) ["compaction replacement must not be null"] in
        let? canonical := map_err (fun error => mk_corruption
            (fmt ["compaction replacement cannot encode canonically: "; json_error_display error]))
            (to_json_string value) in
        Ok (digest_from_bytes (bytes_of canonical))
    | PayloadArtifact artifact_id _ _ => Ok (artifact_digest artifact_id)
    end in
  reject_if (digest !=? ce_replacement_digest entry)
    ["compaction replacement digest does not match its exact payload"].

(** [validate_tool_started]. *)
Definition validate_tool_started (record : ToolStartedRecord) (entries : gmap EntryId StoredEntry)
    (prior : list (Sequence * ToolStartedRecord)) : Outcome Corruption unit :=
  check? reject_if (str_is_empty (ts_tool_call_id record) || str_is_empty (ts_tool_name record)
                    || str_is_empty (ts_idempotency_key record))
    ["tool intent "; as_str (ts_record_id record); " has an empty durable identity field"] in
  let? assistant := ok_or (entries !! ts_assistant_entry_id record)
    (mk_corruption (fmt ["tool intent "; as_str (ts_record_id record);
       " refers to missing assistant entry "; as_str (ts_assistant_entry_id record)])) in
  let? assistant :=
    match se_body assistant with
    | AssistantMessage assistant => Ok assistant
    | _ => corrupt ["tool intent "; as_str (ts_record_id record);
                    " source entry is not an assistant message"]
    end in
  let? call := ok_or (am_tool_calls assistant !! N.to_nat (ts_tool_index record))
    (mk_corruption (fmt ["tool intent "; as_str (ts_record_id record); " source ordinal ";
       show_n (ts_tool_index record); " is absent"])) in
  check? reject_if ((tc_id call !=? ts_tool_call_id record) || (tc_name call !=? ts_tool_name record))
    ["tool intent "; as_str (ts_record_id record);
     " does not match its durable assistant call position"] in
  check? reject_if (existsb (fun '(_, prior) =>
      (ts_assistant_entry_id prior ==? ts_assistant_entry_id record)
      && (ts_tool_index prior ==? ts_tool_index record)) prior)
    ["tool invocation "; as_str (ts_assistant_entry_id record); ":";
     show_n (ts_tool_index record); " was started more than once"] in
  reject_if (existsb (fun '(_, prior) =>
      ts_result_entry_id prior ==? ts_result_entry_id record) prior)
    ["provisioned tool result entry "; as_str (ts_result_entry_id record); " is reused"].

(** ** Handlers *)

(** [SessionMutationRef::Lane]. *)
Definition on_lane_created (s : ReducerState) (lane_id : LaneId) (base_leaf_id : option EntryId) :
    Outcome Corruption ReducerState :=
  check? reject_if (has lane_id (lane_leaves s)) ["duplicate lane ID "; as_str lane_id] in
  check?
    match base_leaf_id with
    | Some base =>
        reject_if (negb (has base (entries s)))
          ["lane "; as_str lane_id; " refers to missing base entry "; as_str base]
    | None => Ok ()
    end in
  Ok (s <| lane_leaves ::= <[lane_id := base_leaf_id]> |>
        <| extension_state ::= <[lane_id := ∅]> |>
        <| fresh_lanes ::= union {[lane_id]} |>).

(** The provider-request half of a compaction entry's check. *)
Definition is_completed_compaction_request (s : ReducerState) (request_id : ProviderRequestId) :
    bool :=
  match provider_starts s !! request_id with
  | Some request =>
      match steps s !! prs_step_id request with
      | Some (operation_id, epoch_id, kind) =>
          (operation_id ==? prs_operation_id request) && (epoch_id ==? prs_epoch_id request)
          && (kind ==? StepCompaction)
      | None => false
      end
  | None => false
  end.

Definition on_compaction (s : ReducerState) (compaction : CompactionEntry) :
    Outcome Corruption ReducerState :=
  check? validate_compaction_replacement compaction in
  match ce_provider_request_id compaction with
  | Some request_id =>
      check? reject_if
        (negb (is_completed_compaction_request s request_id)
         || negb (mem request_id (provider_material s))
         || (provider_settled s !! request_id !=? Some SettlementCompleted)
         || mem request_id (compaction_provider_requests s))
        ["compaction entry refers to provider request "; as_str request_id;
         " without one completed compaction request, material, and unique replacement"] in
      Ok (s <| compaction_provider_requests ::= union {[request_id]} |>)
  | None => Ok s
  end.

(** [SessionMutationRef::Entry]. *)
Definition on_entry (s : ReducerState) (stored : StoredEntry) : Outcome Corruption ReducerState :=
  let id := eh_id (se_header stored) in
  let lane := se_lane_id stored in
  let s := s <| fresh_lanes ::= fun X => X ∖ {[lane]} |> in
  let? s :=
    match se_body stored with
    | Compaction compaction => on_compaction s compaction
    | _ => Ok s
    end in
  let? current_leaf := ok_or (lane_leaves s !! lane)
    (mk_corruption (fmt ["entry "; as_str id; " targets unknown lane "; as_str lane])) in
  check? reject_if (eh_parent_id (se_header stored) !=? current_leaf)
    ["entry "; as_str id; " has stale or invalid parent on lane "; as_str lane] in
  check? reject_if (has id (entries s)) ["duplicate entry ID "; as_str id] in
  check?
    match provisioned_entries s !! id with
    | Some provisioned =>
        reject_if (pe_body provisioned !=? se_body stored)
          ["provisioned entry "; as_str id; " materialized with different content"]
    | None => Ok ()
    end in
  check?
    match eh_parent_id (se_header stored) with
    | Some parent_id =>
        reject_if (negb (has parent_id (entries s)))
          ["entry "; as_str id; " refers to missing parent "; as_str parent_id]
    | None => Ok ()
    end in
  let? s :=
    match active_operations s !! lane with
    | Some operation_id =>
        let? operation := expect (operations s !! operation_id) "active operation was inserted" in
        Ok (s <| operations ::= <[operation_id :=
                   operation <| op_entry_ids ::= fun l => l ++ [id] |>]> |>)
    | None => Ok s
    end in
  Ok (s <| lane_leaves ::= <[lane := Some id]> |> <| entries ::= <[id := stored]> |>).

(** The provisioning loop of [LaneRecord::OperationStarted]. *)
Definition provision_one (record : OperationStartedRecord) (s : ReducerState)
    (provisioned : ProvisionedEntry) : Outcome Corruption ReducerState :=
  check? reject_if (has (pe_id provisioned) (entries s))
    ["operation "; as_str (os_id record); " provisions an already materialized entry ";
     as_str (pe_id provisioned)] in
  match provisioned_entries s !! pe_id provisioned with
  | Some existing =>
      if existing !=? provisioned then
        corrupt ["provisioned entry "; as_str (pe_id provisioned); " has conflicting content"]
      else
        corrupt ["provisioned entry "; as_str (pe_id provisioned); " was accepted more than once"]
  | None => Ok (s <| provisioned_entries ::= <[pe_id provisioned := provisioned]> |>)
  end.

(** The dispatch loop of [LaneRecord::OperationStarted]. *)
Definition dispatch_one (record : OperationStartedRecord) (acc : ReducerState * gset EntryId)
    (input : EntryId * ProvisionedEntry) : Outcome Corruption (ReducerState * gset EntryId) :=
  let '(s, seen_input_ids) := acc in
  let '(input_id, provisioned) := input in
  check? reject_if ((input_id !=? pe_id provisioned) || mem input_id seen_input_ids)
    ["operation "; as_str (os_id record); " has duplicate or mismatched input membership"] in
  let? state := ok_or (input_states s !! input_id)
    (mk_corruption (fmt ["operation "; as_str (os_id record); " dispatches unaccepted input ";
       as_str input_id])) in
  check? reject_if ((ai_lane_id (in_accepted state) !=? os_lane_id record)
                    || (ai_entry (in_accepted state) !=? provisioned)
                    || (in_status state !=? InputPending))
    ["operation "; as_str (os_id record); " dispatches unavailable input "; as_str input_id] in
  Ok (s <| input_states ::= <[input_id :=
             state <| in_status := InputDispatched (os_id record) |>]> |>,
      {[input_id]} ∪ seen_input_ids).

(** [LaneRecord::OperationStarted]. *)
Definition on_operation_started (s : ReducerState) (record : OperationStartedRecord) :
    Outcome Corruption ReducerState :=
  let s := s <| fresh_lanes ::= fun X => X ∖ {[os_lane_id record]} |> in
  check? reject_if (has (os_id record) (operations s))
    ["duplicate operation ID "; as_str (os_id record)] in
  let? current_leaf := ok_or (lane_leaves s !! os_lane_id record)
    (mk_corruption (fmt ["operation "; as_str (os_id record); " targets unknown lane ";
       as_str (os_lane_id record)])) in
  check? reject_if (os_source_leaf_id record !=? current_leaf)
    ["operation "; as_str (os_id record); " accepted against stale lane leaf"] in
  check? reject_if (has (os_lane_id record) (active_operations s))
    ["lane "; as_str (os_lane_id record); " has more than one open operation"] in
  let s := s <| active_operations ::= <[os_lane_id record := os_id record]> |> in
  let? s := ofold (provision_one record) s (os_original_input record) in
  let? s :=
    match os_input_ids record with
    | [] => Ok s
    | _ =>
        check? reject_if (length (os_input_ids record) !=? length (os_original_input record))
          ["operation "; as_str (os_id record);
           " input membership and original input lengths differ"] in
        let? (s, _) := ofold (dispatch_one record) (s, ∅)
                         (zip (os_input_ids record) (os_original_input record)) in
        Ok s
    end in
  Ok (s <| operations ::= <[os_id record := {|
        op_lane_id := os_lane_id record;
        op_original_input := os_original_input record;
        op_finished := false;
        op_outcome := None;
        op_epoch_ids := [];
        op_open_epochs := ∅;
        op_entry_ids := [];
      |}]> |>).

(** [LaneRecord::OperationFinished]. *)
Definition on_operation_finished (s : ReducerState) (record : OperationFinishedRecord) :
    Outcome Corruption ReducerState :=
  let? operation := open_operation (operations s) (of_operation_id record) in
  check? reject_if (op_open_epochs operation !=? ∅)
    ["operation "; as_str (of_operation_id record); " finished with an open epoch"] in
  let operation := operation <| op_finished := true |>
                             <| op_outcome := Some (of_outcome record) |> in
  check? reject_if (active_operations s !! op_lane_id operation !=? Some (of_operation_id record))
    ["operation "; as_str (of_operation_id record); " was not active on its lane at finish"] in
  Ok (s <| operations ::= <[of_operation_id record := operation]> |>
        <| active_operations ::= delete (op_lane_id operation) |>
        <| checkpoint_ready_for := Some (of_operation_id record) |>).

(** [LaneRecord::AbortRequested]. *)
Definition on_abort_requested (s : ReducerState) (record : AbortRequestedRecord) :
    Outcome Corruption ReducerState :=
  check? open_operation (operations s) (ar_operation_id record) in Ok s.

(** [LaneRecord::EpochStarted]. *)
Definition on_epoch_started (s : ReducerState) (record : EpochStartedRecord) :
    Outcome Corruption ReducerState :=
  let? operation := open_operation (operations s) (es_operation_id record) in
  check? reject_if (op_open_epochs operation !=? ∅)
    ["operation "; as_str (es_operation_id record); " has more than one open epoch"] in
  check? reject_if (es_epoch_index record !=? as_u32 (length (op_epoch_ids operation)))
    ["epoch "; as_str (es_id record); " has non-consecutive index ";
     show_n (es_epoch_index record)] in
  check? reject_if (has (es_id record) (epochs s)) ["duplicate epoch ID "; as_str (es_id record)] in
  Ok (s <| epochs ::= <[es_id record := es_operation_id record]> |>
        <| operations ::= <[es_operation_id record :=
             operation <| op_epoch_ids ::= fun l => l ++ [es_id record] |>
                       <| op_open_epochs ::= union {[es_id record]} |>]> |>).

(** [LaneRecord::EpochFinished]. *)
Definition on_epoch_finished (s : ReducerState) (record : EpochFinishedRecord) :
    Outcome Corruption ReducerState :=
  let? operation := open_operation (operations s) (ef_operation_id record) in
  check? reject_if ((epochs s !! ef_epoch_id record !=? Some (ef_operation_id record))
                    || negb (mem (ef_epoch_id record) (op_open_epochs operation)))
    ["epoch "; as_str (ef_epoch_id record); " is not open for operation ";
     as_str (ef_operation_id record)] in
  Ok (s <| operations ::= <[ef_operation_id record :=
             operation <| op_open_epochs ::= fun X => X ∖ {[ef_epoch_id record]} |>]> |>).

(** [LaneRecord::StepAttempted]. *)
Definition on_step_attempted (s : ReducerState) (record : StepAttemptedRecord) :
    Outcome Corruption ReducerState :=
  let? operation := open_operation (operations s) (sa_operation_id record) in
  check? reject_if (epochs s !! sa_epoch_id record !=? Some (sa_operation_id record))
    ["step "; as_str (sa_id record); " refers to invalid epoch "; as_str (sa_epoch_id record)] in
  check? reject_if (negb (mem (sa_epoch_id record) (op_open_epochs operation)))
    ["step "; as_str (sa_id record); " was recorded after its epoch settled"] in
  check? reject_if (has (sa_id record) (steps s))
    ["step ID "; as_str (sa_id record); " was attempted more than once"] in
  let key := (sa_operation_id record, sa_epoch_id record, sa_kind record) in
  let s := s <| steps ::= <[sa_id record := key]> |> in
  let insert := s <| step_attempts ::= <[key := (sa_id record, sa_attempt record)]> |> in
  let non_consecutive :=
    corrupt ["step "; as_str (sa_id record); " has non-consecutive attempt ";
             show_n (sa_attempt record)] in
  match step_attempts s !! key with
  | None => if (sa_attempt record =? 1)%N then Ok insert else non_consecutive
  | Some (previous_id, previous_attempt) =>
      if (sa_attempt record =? u32_saturating_add previous_attempt 1)%N
         && (sa_id record !=? previous_id) then Ok insert
      else if sa_id record ==? previous_id then
        corrupt ["step ID "; as_str (sa_id record); " was attempted more than once"]
      else non_consecutive
  end.

(** [LaneRecord::ProviderRequestStarted]. *)
Definition on_provider_request_started (s : ReducerState) (record : ProviderRequestStartedRecord) :
    Outcome Corruption ReducerState :=
  let? operation := open_operation (operations s) (prs_operation_id record) in
  check? reject_if ((epochs s !! prs_epoch_id record !=? Some (prs_operation_id record))
                    || negb (mem (prs_epoch_id record) (op_open_epochs operation)))
    ["provider request "; as_str (prs_request_id record);
     " refers to a closed or invalid epoch"] in
  let owns_step :=
    match steps s !! prs_step_id record with
    | Some (operation_id, epoch_id, _) =>
        (operation_id ==? prs_operation_id record) && (epoch_id ==? prs_epoch_id record)
    | None => false
    end in
  check? reject_if (negb owns_step)
    ["provider request "; as_str (prs_request_id record); " does not name its owning step ";
     as_str (prs_step_id record)] in
  check? reject_if (has (prs_request_id record) (provider_starts s))
    ["duplicate provider request ID "; as_str (prs_request_id record)] in
  Ok (s <| provider_starts ::= <[prs_request_id record := record]> |>).

(** [LaneRecord::ProviderRequestSettled]. *)
Definition on_provider_request_settled (s : ReducerState) (record : ProviderRequestSettledRecord) :
    Outcome Corruption ReducerState :=
  check? open_operation (operations s) (pst_operation_id record) in
  let? start := ok_or (provider_starts s !! pst_request_id record)
    (mk_corruption (fmt ["provider settlement "; as_str (pst_request_id record);
       " has no request intent"])) in
  check? reject_if ((prs_operation_id start !=? pst_operation_id record)
                    || has (pst_request_id record) (provider_settled s))
    ["invalid duplicate or cross-operation provider settlement ";
     as_str (pst_request_id record)] in
  Ok (s <| provider_settled ::= <[pst_request_id record := pst_classification record]> |>).

(** [LaneRecord::ToolStarted]. *)
Definition on_tool_started (s : ReducerState) (seq : Sequence) (record : ToolStartedRecord) :
    Outcome Corruption ReducerState :=
  let? operation := open_operation (operations s) (ts_operation_id record) in
  check? reject_if ((epochs s !! ts_epoch_id record !=? Some (ts_operation_id record))
                    || negb (mem (ts_epoch_id record) (op_open_epochs operation)))
    ["tool intent "; as_str (ts_record_id record); " refers to a closed or invalid epoch"] in
  check? validate_tool_started record (entries s) (tool_starts s) in
  Ok (s <| tool_starts ::= fun l => l ++ [(seq, record)] |>).

(** [LaneRecord::InputAccepted]. *)
Definition on_input_accepted (s : ReducerState) (seq : Sequence) (record : InputAcceptedRecord) :
    Outcome Corruption ReducerState :=
  let s := s <| fresh_lanes ::= fun X => X ∖ {[ia_lane_id record]} |> in
  let id := pe_id (ia_entry record) in
  check? reject_if (negb (has (ia_lane_id record) (lane_leaves s)))
    ["accepted input "; as_str id; " targets unknown lane "; as_str (ia_lane_id record)] in
  check?
    match pe_body (ia_entry record) with
    | UserMessage _ => Ok ()
    | _ => corrupt ["accepted input "; as_str id; " is not a user message"]
    end in
  check? reject_if (has id (entries s) || has id (input_states s))
    ["input "; as_str id; " was accepted more than once or already materialized"] in
  Ok (s <| input_order ::= fun l => l ++ [id] |>
        <| input_states ::= <[id := {|
             in_accepted := {|
               ai_lane_id := ia_lane_id record;
               ai_entry := ia_entry record;
               ai_accepted_sequence := seq;
             |};
             in_status := InputPending;
           |}]> |>).

(** [LaneRecord::InputWithdrawn]. *)
Definition on_input_withdrawn (s : ReducerState) (record : InputWithdrawnRecord) :
    Outcome Corruption ReducerState :=
  let? input := ok_or (input_states s !! iw_input_id record)
    (mk_corruption (fmt ["input "; as_str (iw_input_id record);
       " was withdrawn before acceptance"])) in
  check? reject_if ((ai_lane_id (in_accepted input) !=? iw_lane_id record)
                    || (in_status input !=? InputPending))
    ["input "; as_str (iw_input_id record); " is not pending on lane ";
     as_str (iw_lane_id record)] in
  Ok (s <| input_states ::= <[iw_input_id record :=
             input <| in_status := InputIsWithdrawn |>]> |>).

(** [LaneRecord::InputSettled]. *)
Definition on_input_settled (s : ReducerState) (record : InputSettledRecord) :
    Outcome Corruption ReducerState :=
  let? operation := ok_or (operations s !! is_operation_id record)
    (mk_corruption (fmt ["input "; as_str (is_input_id record); " settles unknown operation ";
       as_str (is_operation_id record)])) in
  check? reject_if (negb (op_finished operation)
                    || (op_outcome operation !=? Some (is_outcome record)))
    ["input "; as_str (is_input_id record); " settles before or contrary to operation ";
     as_str (is_operation_id record)] in
  let? input := ok_or (input_states s !! is_input_id record)
    (mk_corruption (fmt ["input "; as_str (is_input_id record); " settled without acceptance"])) in
  check? reject_if (in_status input !=? InputDispatched (is_operation_id record))
    ["input "; as_str (is_input_id record); " is not dispatched by operation ";
     as_str (is_operation_id record)] in
  Ok (s <| input_states ::= <[is_input_id record :=
             input <| in_status := InputIsSettled (is_operation_id record) (is_outcome record) |>]> |>).

(** [LaneRecord::ExtensionControlEnqueued]. *)
Definition on_extension_control_enqueued (s : ReducerState) (seq : Sequence) (item_index : N)
    (record : ExtensionControlEnqueuedRecord) : Outcome Corruption ReducerState :=
  check? open_operation (operations s) (xe_operation_id record) in
  check? validate_extension_control record in
  check? reject_if (has (xe_control_id record) (extension_controls s))
    ["extension control "; xe_control_id record; " was accepted more than once"] in
  Ok (s <| extension_controls ::= <[xe_control_id record := {|
             pc_accepted_sequence := seq;
             pc_accepted_item_index := item_index;
             pc_control := record;
           |}]> |>).

(** [LaneRecord::ExtensionControlApplied]. *)
Definition on_extension_control_applied (s : ReducerState)
    (record : ExtensionControlAppliedRecord) : Outcome Corruption ReducerState :=
  let id := xa_control_id record in
  let? control := ok_or (extension_controls s !! id)
    (mk_corruption (fmt ["extension control "; id; " was applied before acceptance or twice"])) in
  let? operation := ok_or (operations s !! xe_operation_id (pc_control control))
    (mk_corruption (fmt ["extension control "; id; " targets unknown operation"])) in
  check? reject_if (negb (op_finished operation) || mem id (applied_extension_controls s))
    ["extension control "; id; " was applied before its operation settled"] in
  Ok (s <| extension_controls ::= delete id |>
        <| applied_extension_controls ::= union {[id]} |>).

(** [LaneRecord::WriteDeferred]. *)
Definition on_write_deferred (s : ReducerState) (record : WriteDeferredRecord) :
    Outcome Corruption ReducerState :=
  check? open_operation (operations s) (wd_operation_id record) in
  Ok (s <| deferred_writes ::= fun l =>
             l ++ [mk_pending_write (wd_operation_id record) (wd_entry record)] |>).

(** [LaneRecord::HarnessActivationRequested]. *)
Definition on_harness_activation_requested (s : ReducerState)
    (record : HarnessActivationRequestedRecord) : Outcome Corruption ReducerState :=
  check? open_operation (operations s) (ha_operation_id record) in
  Ok (s <| activation_requests ::= fun l => l ++ [record] |>).

(** [LaneRecord::Usage]. *)
Definition on_usage (s : ReducerState) (record : UsageRecord) : Outcome Corruption ReducerState :=
  let? operation := open_operation (operations s) (ur_operation_id record) in
  let? total := usage_saturating_add_assign
      (default usage_default (usage_by_lane s !! op_lane_id operation)) (ur_usage record) in
  Ok (s <| usage_by_lane ::= <[op_lane_id operation := total]> |>).

(** [LaneRecord::CacheMaintenance]. *)
Definition on_cache_maintenance (s : ReducerState) (record : CacheMaintenanceRecord) :
    Outcome Corruption ReducerState :=
  check? open_operation (operations s) (cm_operation_id record) in Ok s.

(** The [match &stored.record] of the fold. *)
Definition on_record (s : ReducerState) (item_index : N) (stored : StoredRecord) :
    Outcome Corruption ReducerState :=
  match sr_record stored with
  | OperationStarted record => on_operation_started s record
  | OperationFinished record => on_operation_finished s record
  | AbortRequested record => on_abort_requested s record
  | EpochStarted record => on_epoch_started s record
  | EpochFinished record => on_epoch_finished s record
  | StepAttempted record => on_step_attempted s record
  | ProviderRequestStarted record => on_provider_request_started s record
  | ProviderRequestSettled record => on_provider_request_settled s record
  | ToolStarted record => on_tool_started s (sr_seq stored) record
  | InputAccepted record => on_input_accepted s (sr_seq stored) record
  | InputWithdrawn record => on_input_withdrawn s record
  | InputSettled record => on_input_settled s record
  | ExtensionControlEnqueued record =>
      on_extension_control_enqueued s (sr_seq stored) item_index record
  | ExtensionControlApplied record => on_extension_control_applied s record
  | WriteDeferred record => on_write_deferred s record
  | HarnessActivationRequested record => on_harness_activation_requested s record
  | UsageFact record => on_usage s record
  | CacheMaintenance record => on_cache_maintenance s record
  end.

(** [SessionFact::ProviderRequestMaterial]. *)
Definition on_provider_request_material (s : ReducerState) (fact : ProviderRequestMaterialFact) :
    Outcome Corruption ReducerState :=
  let? start := ok_or (provider_starts s !! pmf_request_id fact)
    (mk_corruption (fmt ["provider request material "; as_str (pmf_request_id fact);
       " has no request intent"])) in
  check? reject_if ((prs_operation_id start !=? pmf_operation_id fact)
                    || (prs_epoch_id start !=? pmf_epoch_id fact)
                    || has (pmf_request_id fact) (provider_settled s)
                    || mem (pmf_request_id fact) (provider_material s))
    ["provider request material "; as_str (pmf_request_id fact);
     " is duplicate, late, or cross-owned"] in
  Ok (s <| provider_material ::= union {[pmf_request_id fact]} |>).

(** [SessionFact::ExtensionStateValueSet]. *)
Definition on_extension_state_value_set (s : ReducerState) (fact : ExtensionStateValueSetFact) :
    Outcome Corruption ReducerState :=
  let s := s <| fresh_lanes ::= fun X => X ∖ {[xs_lane_id fact]} |> in
  check? validate_extension_state_value fact in
  let? state := ok_or (extension_state s !! xs_lane_id fact)
    (mk_corruption (fmt ["extension state targets unknown lane "; as_str (xs_lane_id fact)])) in
  Ok (s <| extension_state ::= <[xs_lane_id fact :=
             <[xs_extension_id fact := {|
                 xv_state_version := xs_state_version fact;
                 xv_value := xs_value fact;
               |}]> state]> |>).

(** The unresolved-work condition of [SessionFact::TurnCheckpoint]. *)
Definition has_unresolved_work (s : ReducerState) (operation_id : OperationId) : bool :=
  existsb (fun '(_, tool) =>
      (ts_operation_id tool ==? operation_id)
      && negb (has (ts_result_entry_id tool) (entries s))) (tool_starts s)
  || existsb (fun request =>
      (prs_operation_id request ==? operation_id)
      && negb (has (prs_request_id request) (provider_settled s))) (btree_values (provider_starts s))
  || existsb (fun control => xe_operation_id (pc_control control) ==? operation_id)
       (btree_values (extension_controls s))
  || existsb (fun '(agent_id, (owner, _)) =>
      (owner ==? operation_id) && negb (mem agent_id (child_terminal s)))
       (btree_iter (child_spawns s)).

(** [SessionFact::TurnCheckpoint]. *)
Definition on_turn_checkpoint (s : ReducerState) (fact : TurnCheckpointFact) :
    Outcome Corruption ReducerState :=
  let id := as_str (tcf_checkpoint_id fact) in
  check? reject_if (has (tcf_checkpoint_id fact) (checkpoints s))
    ["turn checkpoint "; id; " was recorded more than once"] in
  check? reject_if (checkpoint_ready_for s !=? Some (tcf_operation_id fact))
    ["turn checkpoint "; id; " does not immediately follow settlement of operation ";
     as_str (tcf_operation_id fact)] in
  let? operation := ok_or (operations s !! tcf_operation_id fact)
    (mk_corruption (fmt ["turn checkpoint "; id; " refers to unknown operation ";
       as_str (tcf_operation_id fact)])) in
  check? reject_if (negb (op_finished operation) || (op_lane_id operation !=? tcf_lane_id fact))
    ["turn checkpoint "; id; " does not name a settled operation on its lane"] in
  check? reject_if (default None (lane_leaves s !! tcf_lane_id fact) !=? tcf_leaf_id fact)
    ["turn checkpoint "; id; " does not capture the current lane leaf"] in
  check? reject_if (has_unresolved_work s (tcf_operation_id fact))
    ["turn checkpoint "; id; " has unresolved work owned by operation ";
     as_str (tcf_operation_id fact)] in
  check? reject_if (extension_state s !! tcf_lane_id fact !=? Some (tcf_extension_state fact))
    ["turn checkpoint "; id; " does not capture the exact extension state"] in
  Ok (s <| checkpoints ::= <[tcf_checkpoint_id fact := fact]> |>
        <| checkpoint_ready_for := None |>).

(** [SessionFact::ForkedLane]. *)
Definition on_forked_lane (s : ReducerState) (fact : ForkedLaneFact) :
    Outcome Corruption ReducerState :=
  let? checkpoint := ok_or (checkpoints s !! fl_checkpoint_id fact)
    (mk_corruption (fmt ["forked lane "; as_str (fl_lane_id fact);
       " refers to unknown checkpoint "; as_str (fl_checkpoint_id fact)])) in
  check? reject_if
    (negb (mem (fl_lane_id fact) (fresh_lanes s))
     || mem (fl_lane_id fact) (forked_lanes s)
     || (default None (lane_leaves s !! fl_lane_id fact) !=? fl_base_leaf_id fact)
     || (fl_base_leaf_id fact !=? tcf_leaf_id checkpoint)
     || existsb (fun operation => op_lane_id operation ==? fl_lane_id fact)
          (btree_values (operations s)))
    ["forked lane "; as_str (fl_lane_id fact); " is not a fresh exact checkpoint branch"] in
  Ok (s <| fresh_lanes ::= fun X => X ∖ {[fl_lane_id fact]} |>
        <| forked_lanes ::= union {[fl_lane_id fact]} |>
        <| extension_state ::= <[fl_lane_id fact := tcf_extension_state checkpoint]> |>).

(** [SessionFact::AgentSpawned]. *)
Definition on_agent_spawned (s : ReducerState) (seq : Sequence) (fact : AgentSpawnedFact) :
    Outcome Corruption ReducerState :=
  let s := s <| fresh_lanes ::= fun X => X ∖ {[as_lane_id fact]} |> in
  check? reject_if (has (as_agent_id fact) (child_spawns s))
    ["agent "; as_str (as_agent_id fact); " was spawned more than once"] in
  Ok (s <| child_spawns ::= <[as_agent_id fact := (as_parent_operation_id fact, seq)]> |>).

(** The [match &stored.fact] of the fold. *)
Definition on_fact (s : ReducerState) (stored : StoredFact) : Outcome Corruption ReducerState :=
  match sf_fact stored with
  | ProviderRequestMaterial fact => on_provider_request_material s fact
  | ExtensionStateValueSet fact => on_extension_state_value_set s fact
  | TurnCheckpoint fact => on_turn_checkpoint s fact
  | ForkedLane fact => on_forked_lane s fact
  | AgentSpawned fact => on_agent_spawned s (sf_seq stored) fact
  | AgentTaskFinished fact =>
      Ok (s <| child_terminal ::= union {[af_agent_id fact]} |>)
  | SubagentPolicy _ | WorkspaceDelta _ | WorkspaceDeltaApplied _ | HarnessCatalog _
  | ToolSchemaDeviation _ | TraceArtifact _ | CustomFact _ _ => Ok s
  end.

(** ** The fold *)

(** [preserves_checkpoint_readiness]. *)
Definition preserves_checkpoint_readiness (s : ReducerState) (mutation : SessionMutation) : bool :=
  match mutation with
  | MutRecord stored =>
      match sr_record stored with
      | InputSettled record => checkpoint_ready_for s ==? Some (is_operation_id record)
      | ExtensionControlApplied record =>
          match checkpoint_ready_for s with
          | Some operation_id =>
              match extension_controls s !! xa_control_id record with
              | Some control => xe_operation_id (pc_control control) ==? operation_id
              | None => false
              end
          | None => false
          end
      | _ => false
      end
  | MutFact stored =>
      match sf_fact stored with
      | TurnCheckpoint _ => true
      | ExtensionStateValueSet fact =>
          match checkpoint_ready_for s with
          | Some operation_id =>
              match operations s !! operation_id with
              | Some operation => op_lane_id operation ==? xs_lane_id fact
              | None => false
              end
          | None => false
          end
      | _ => false
      end
  | MutEntry _ | MutLane _ => false
  end.

Definition apply_mutation (s : ReducerState) (item_index : N) (mutation : SessionMutation) :
    Outcome Corruption ReducerState :=
  match mutation with
  | MutLane stored =>
      match sl_mutation stored with
      | LaneCreated lane_id base_leaf_id => on_lane_created s lane_id base_leaf_id
      end
  | MutEntry stored => on_entry s stored
  | MutRecord stored => on_record s item_index stored
  | MutFact stored => on_fact s stored
  end.

(** The body of the [for] loop. *)
Definition reduce_step (s : ReducerState) (m : StoredMutation) : Outcome Corruption ReducerState :=
  let item_index := observed_item_index s in
  let s := s <| observed_item_index ::= fun n => u64_saturating_add n 1 |> in
  let sequence := smu_seq m in
  let observed := observed_sequence s in
  check? reject_if (negb (sequence =? observed)%N
                    && negb (sequence =? u64_saturating_add observed 1)%N)
    ["session commit sequence must be consecutive: expected "; show_n observed; " or ";
     show_n (u64_saturating_add observed 1); ", found "; show_n sequence] in
  let s := s <| observed_sequence := sequence |> in
  let s := if preserves_checkpoint_readiness s (smu_mutation m) then s
           else s <| checkpoint_ready_for := None |> in
  apply_mutation s item_index (smu_mutation m).

(** ** Derived values *)

(** [any_assistant_call_matches]. *)
Definition any_assistant_call_matches (entries : gmap EntryId StoredEntry)
    (call_id tool_name : string) : bool :=
  existsb (fun entry =>
    match se_body entry with
    | AssistantMessage assistant =>
        existsb (fun call => (tc_id call ==? call_id) && (tc_name call ==? tool_name))
          (am_tool_calls assistant)
    | _ => false
    end) (btree_values entries).

(** One iteration of each loop of [validate_tool_results]. *)
Definition validate_start_result (entries : gmap EntryId StoredEntry) (start : ToolStartedRecord) :
    Outcome Corruption unit :=
  match entries !! ts_result_entry_id start with
  | None => Ok ()
  | Some entry =>
      match se_body entry with
      | ToolResult result =>
          reject_if ((tr_tool_call_id result !=? ts_tool_call_id start)
                     || (tr_tool_name result !=? ts_tool_name start))
            ["tool result "; as_str (ts_result_entry_id start);
             " disagrees with its durable effect intent"]
      | _ => corrupt ["provisioned tool result entry "; as_str (ts_result_entry_id start);
                      " materialized with a non-tool-result body"]
      end
  end.

Definition validate_entry_result (entries : gmap EntryId StoredEntry)
    (starts : list (Sequence * ToolStartedRecord)) (entry_id : EntryId) (entry : StoredEntry) :
    Outcome Corruption unit :=
  match se_body entry with
  | ToolResult result =>
      match List.find (fun '(_, started) => ts_result_entry_id started ==? entry_id) starts with
      | Some (_, start) =>
          reject_if ((tr_tool_call_id result !=? ts_tool_call_id start)
                     || (tr_tool_name result !=? ts_tool_name start))
            ["tool result "; as_str entry_id; " disagrees with its durable effect intent"]
      | None =>
          reject_if (negb (any_assistant_call_matches entries (tr_tool_call_id result)
                             (tr_tool_name result)))
            ["tool result "; as_str entry_id; " has no matching assistant tool call"]
      end
  | _ => Ok ()
  end.

(** [validate_tool_results]. *)
Definition validate_tool_results (entries : gmap EntryId StoredEntry)
    (starts : list (Sequence * ToolStartedRecord)) : Outcome Corruption unit :=
  check? ofold (fun _ '(_, start) => validate_start_result entries start) () starts in
  ofold (fun _ '(entry_id, entry) => validate_entry_result entries starts entry_id entry) ()
    (btree_iter entries).

(** The [while] loop of [derive_configuration].  Parents precede their
    children in a session, so the number of entries bounds the walk; see
    [ReductionInv.derive_configuration_total]. *)
Fixpoint reverse_chain (fuel : nat) (entries : gmap EntryId StoredEntry) (cursor : option EntryId) :
    Outcome Corruption (list StoredEntry) :=
  match cursor with
  | None => Ok []
  | Some entry_id =>
      match fuel with
      | O => Panic "parent chain exceeds the number of entries"
      | S fuel =>
          let? entry := ok_or (entries !! entry_id)
            (mk_corruption (fmt ["lane leaf refers to missing entry "; as_str entry_id])) in
          let? chain := reverse_chain fuel entries (eh_parent_id (se_header entry)) in
          Ok (entry :: chain)
      end
  end.

(** One entry's contribution to the configuration. *)
Definition retain_names (p : string -> bool) (names : list string) : list string :=
  List.filter p names.
Definition add_tool (names : list string) (tool : ToolDeclarationRecord) : list string :=
  retain_names (fun name => name !=? td_name tool) names ++ [td_name tool].

Definition apply_configuration (c : EffectiveLaneConfiguration) (entry : StoredEntry) :
    EffectiveLaneConfiguration :=
  match se_body entry with
  | ModelChanged model => c <| ec_model := Some model |>
  | ThinkingChanged thinking => c <| ec_thinking_level := Some (th_level thinking) |>
  | ConfigurationChanged change =>
      c <| ec_declared_tool_names ::= fun names =>
             foldl add_tool
               (retain_names (fun name => negb (existsb (String.eqb name) (cc_tools_removed change)))
                  names)
               (cc_tools_added change) |>
  | HarnessRevisionChanged revision => c <| ec_harness_revision := Some (hr_revision_id revision) |>
  | _ => c
  end.

(** [derive_configuration]. *)
Definition derive_configuration (entries : gmap EntryId StoredEntry) (leaf : option EntryId) :
    Outcome Corruption EffectiveLaneConfiguration :=
  let? chain := reverse_chain (size entries) entries leaf in
  Ok (foldl apply_configuration configuration_default (reverse chain)).

(** One iteration of [unresolved_activation]. *)
Definition resolve_activation (entries : gmap EntryId StoredEntry)
    (pending : option PendingHarnessActivation) (request : HarnessActivationRequestedRecord) :
    Outcome Corruption (option PendingHarnessActivation) :=
  match entries !! ha_revision_entry_id request with
  | None =>
      match pending with
      | Some _ => corrupt ["operation has more than one unresolved harness activation"]
      | None => Ok (Some (mk_pending_activation request))
      end
  | Some entry =>
      match se_body entry with
      | HarnessRevisionChanged revision =>
          if (hr_revision_id revision ==? ha_parent_revision_id request)
             || (hr_snapshot_id revision !=? ha_proposed_snapshot_id request)
          then corrupt ["activation entry must name a new revision and the requested snapshot"]
          else Ok pending
      | _ => corrupt ["activation provisioned entry materialized with a different semantic type"]
      end
  end.

(** [unresolved_activation]. *)
Definition unresolved_activation (requests : list HarnessActivationRequestedRecord)
    (entries : gmap EntryId StoredEntry) (active_operation : option OperationId) :
    Outcome Corruption (option PendingHarnessActivation) :=
  match active_operation with
  | None => Ok None
  | Some operation_id =>
      ofold (resolve_activation entries) None
        (List.filter (fun request => ha_operation_id request ==? operation_id) requests)
  end.

(** The candidate recovery actions, in the order [derive_recovery_plan] tries
    them; each is the first hit of the corresponding loop. *)
Definition plan_missing_input (s : ReducerState) (id : OperationId) (operation : OperationState) :
    option RecoveryPlan :=
  match List.filter (fun entry => negb (has (pe_id entry) (entries s)))
          (op_original_input operation) with
  | [] => None
  | missing => Some (AppendAcceptedInput id missing)
  end.

Definition plan_tool (s : ReducerState) (id : OperationId) : option RecoveryPlan :=
  match List.find (fun '(_, tool) => (ts_operation_id tool ==? id)
          && negb (has (ts_result_entry_id tool) (entries s))) (tool_starts s) with
  | Some (_, tool) =>
      Some match ts_replay_policy_at_start tool with
           | ReplayNever => ReconcileToolEffect (ts_result_entry_id tool)
           | ReplaySafe => ReplayToolIfStillSafe tool
           end
  | None => None
  end.

Definition plan_provider (s : ReducerState) (id : OperationId) : option RecoveryPlan :=
  match List.find (fun request => (prs_operation_id request ==? id)
          && negb (has (prs_request_id request) (provider_settled s)))
          (btree_values (provider_starts s)) with
  | Some request =>
      Some (if mem (prs_request_id request) (provider_material s)
            then ReconcileProviderRequest (prs_request_id request)
            else ProviderRequestNotAdmitted (prs_request_id request))
  | None => None
  end.

Definition plan_activation (s : ReducerState) (id : OperationId) (operation : OperationState) :
    option RecoveryPlan :=
  ActivateHarness <$>
    List.find (fun request => (ha_operation_id request ==? id)
      && negb (has (ha_revision_entry_id request) (entries s))
      && (op_open_epochs operation ==? ∅)) (activation_requests s).

Definition call_settled (entries : gmap EntryId StoredEntry) (call : AssistantToolCall) : bool :=
  existsb (fun entry =>
    match se_body entry with
    | ToolResult result =>
        (tr_tool_call_id result ==? tc_id call) && (tr_tool_name result ==? tc_name call)
    | _ => false
    end) (btree_values entries).

Definition needs_tool_path (s : ReducerState) (entry_id : EntryId) : bool :=
  match entries s !! entry_id with
  | Some entry =>
      match se_body entry with
      | AssistantMessage assistant =>
          existsb (fun call => negb (call_settled (entries s) call)) (am_tool_calls assistant)
      | _ => false
      end
  | None => false
  end.

Definition plan_tool_path (s : ReducerState) (operation : OperationState) : option RecoveryPlan :=
  ResumeAssistantToolPath <$> List.find (needs_tool_path s) (reverse (op_entry_ids operation)).

Definition plan_epoch (id : OperationId) (operation : OperationState) : RecoveryPlan :=
  if (op_epoch_ids operation ==? []) || (op_open_epochs operation ==? ∅)
  then StartEpoch id else ResumeOperation id.

(** [Option::or]. *)
Definition plan_or (a b : option RecoveryPlan) : option RecoveryPlan :=
  match a with Some _ => a | None => b end.

(** [derive_recovery_plan]. *)
Definition derive_recovery_plan (s : ReducerState) (active_operation : option OperationId) :
    Outcome Corruption (option RecoveryPlan) :=
  match active_operation with
  | None => Ok None
  | Some id =>
      let? operation := expect (operations s !! id) "active operation was inserted" in
      Ok (plan_or (plan_missing_input s id operation)
         (plan_or (plan_tool s id)
         (plan_or (plan_provider s id)
         (plan_or (plan_activation s id operation)
         (plan_or (plan_tool_path s operation)
                  (Some (plan_epoch id operation)))))))
  end.

(** [sort_by_key(|control| (accepted_sequence, accepted_item_index))]. *)
Definition control_le (a b : PendingExtensionControl) : Prop :=
  (pc_accepted_sequence a < pc_accepted_sequence b)%N
  \/ pc_accepted_sequence a = pc_accepted_sequence b
     /\ (pc_accepted_item_index a <= pc_accepted_item_index b)%N.
#[export] Instance control_le_dec a b : Decision (control_le a b).
Proof. unfold control_le. apply _. Defined.

Definition input_is_pending (i : InputState) : bool := in_status i ==? InputPending.

Definition pending_inputs_of (states : gmap EntryId InputState) (order : list EntryId) :
    list AcceptedInput :=
  omap (fun id =>
    match states !! id with
    | Some input => if input_is_pending input then Some (in_accepted input) else None
    | None => None
    end) order.

Definition lane_inputs (s : ReducerState) (lane : LaneId) : gmap EntryId InputState :=
  filter (fun '(_, input) => ai_lane_id (in_accepted input) = lane) (input_states s).

Definition lane_controls (s : ReducerState) (lane : LaneId) : list PendingExtensionControl :=
  merge_sort control_le
    (List.filter (fun control =>
       match operations s !! xe_operation_id (pc_control control) with
       | Some operation => op_lane_id operation ==? lane
       | None => false
       end) (btree_values (extension_controls s))).

(** The part of [reduce_lane_prefix] after the loop. *)
Definition finish_reduction (s : ReducerState) (last_sequence : Sequence) (lane : LaneId) :
    Outcome Corruption LaneReduction :=
  check? reject_if (negb (last_sequence =? observed_sequence s)%N)
    ["snapshot last sequence disagrees with mutation timeline"] in
  let? leaf := ok_or (lane_leaves s !! lane)
    (mk_corruption (fmt ["unknown lane "; as_str lane])) in
  check? validate_tool_results (entries s) (tool_starts s) in
  let? configuration := derive_configuration (entries s) leaf in
  let active_operation := active_operations s !! lane in
  let pending_writes :=
    List.filter (fun pending => negb (has (pe_id (pw_entry pending)) (entries s)))
      (deferred_writes s) in
  let states := lane_inputs s lane in
  let pending_inputs := pending_inputs_of states (input_order s) in
  let controls := lane_controls s lane in
  let? activation := unresolved_activation (activation_requests s) (entries s) active_operation in
  let? recovery_plan := derive_recovery_plan s active_operation in
  Ok {|
    lr_lane_state := {|
      ls_lane_id := lane;
      ls_leaf_id := leaf;
      ls_status := match active_operation with Some _ => LaneRunning | None => LaneIdle end;
      ls_active_operation := active_operation;
      ls_active_harness_revision := ec_harness_revision configuration;
    |};
    lr_effective_configuration := configuration;
    lr_recovery_plan := recovery_plan;
    lr_input_reduction := {|
      ir_pending_inputs := pending_inputs;
      ir_input_states := states;
    |};
    lr_pending_extension_controls := controls;
    lr_extension_state := default ∅ (extension_state s !! lane);
    lr_pending_writes := pending_writes;
    lr_pending_harness_activation := activation;
    lr_usage_totals := default usage_default (usage_by_lane s !! lane);
  |}.

Definition reduce_all (header : SessionHeader) (ms : list StoredMutation) :
    Outcome Corruption ReducerState :=
  ofold reduce_step (initial_state header) ms.

(** [reduce_lane_prefix]. *)
Definition reduce_lane_prefix (header : SessionHeader) (last_sequence : Sequence)
    (ms : list StoredMutation) (lane : LaneId) : Outcome Corruption LaneReduction :=
  let? s := reduce_all header ms in
  finish_reduction s last_sequence lane.

(** [reduce_lane] and [reduce_lane_ref]. *)
Definition reduce_lane_ref (input : SessionSnapshot) (lane : LaneId) :
    Outcome Corruption LaneReduction :=
  let? ms := mutations input in
  reduce_lane_prefix (ss_header input) (ss_last_sequence input) ms lane.

(** [extension_state_for_lane]. *)
Definition extension_state_for_lane (input : SessionSnapshot) (lane : LaneId) :
    Outcome Corruption ExtensionStateMap :=
  let? reduction := reduce_lane_ref input lane in
  Ok (lr_extension_state reduction).

(** [reduce_lane_ref_with_commit]. *)
Definition reduce_lane_ref_with_commit (input : SessionSnapshot) (appended : StoredCommit)
    (lane : LaneId) : Outcome Corruption LaneReduction :=
  let? ms := mutations input in
  reduce_lane_prefix (ss_header input) (sc_seq appended) (ms ++ sc_items appended) lane.
End validation.
