(* ===== verification/ReductionOps.v ===== *)
(** * Operations, epochs and panic freedom

    The lifecycle invariant of [Reduction]: an operation is unfinished
    exactly while it is the active operation of its lane, an operation has at
    most one open epoch and none once it is finished, and epoch ownership is
    a function.  From it: the reducer's [expect]s cannot fail. *)

From stdpp Require Import base gmap sets list strings sorting.
From S2P Require Import Prelude RustStr Json Ids Decimal Model Records Snapshot Reduction.
From S2P Require Import ReductionInv.

(** Well-formedness of one operation's own state. *)
Record operation_ok (op : OperationState) : Prop := {
  ok_finished : op_finished op = true -> op_open_epochs op = ∅;
  ok_outcome : op_finished op = true <-> is_Some (op_outcome op);
  ok_one_epoch : forall e e', e ∈ op_open_epochs op -> e' ∈ op_open_epochs op -> e = e';
  ok_open_known : forall e, e ∈ op_open_epochs op -> e ∈ op_epoch_ids op;
  ok_epochs_nodup : NoDup (op_epoch_ids op);
}.

Record lifecycle (leaves : gmap LaneId (option EntryId)) (es : gmap EntryId StoredEntry)
    (ops : gmap OperationId OperationState) (act : gmap LaneId OperationId)
    (eps : gmap EpochId OperationId) : Prop := {
  lc_active : forall lane id, act !! lane = Some id <->
    exists op, ops !! id = Some op /\ op_lane_id op = lane /\ op_finished op = false;
  lc_ok : forall id op, ops !! id = Some op -> operation_ok op;
  lc_lane : forall id op, ops !! id = Some op -> is_Some (leaves !! op_lane_id op);
  lc_epochs : forall e id, eps !! e = Some id <->
    exists op, ops !! id = Some op /\ e ∈ op_epoch_ids op;
  lc_entries : forall id op e, ops !! id = Some op -> e ∈ op_entry_ids op -> is_Some (es !! e);
}.

Definition state_lifecycle (s : ReducerState) : Prop :=
  lifecycle (lane_leaves s) (entries s) (operations s) (active_operations s) (epochs s).

(** Lanes and entries only grow. *)
Lemma lifecycle_mono leaves leaves' es es' ops act eps :
  (forall lane, is_Some (leaves !! lane) -> is_Some (leaves' !! lane)) ->
  (forall e, is_Some (es !! e) -> is_Some (es' !! e)) ->
  lifecycle leaves es ops act eps -> lifecycle leaves' es' ops act eps.
Proof. intros Hl He [Ha Ho Hlane Hep Hent]. split; eauto. Qed.

Section updates.
Context (leaves : gmap LaneId (option EntryId)) (es : gmap EntryId StoredEntry).

(** Replace an operation by one with the same lane, status and epochs. *)
Lemma lifecycle_update ops act eps id op op' :
  lifecycle leaves es ops act eps -> ops !! id = Some op ->
  op_lane_id op' = op_lane_id op -> op_finished op' = op_finished op ->
  op_epoch_ids op' = op_epoch_ids op -> operation_ok op' ->
  (forall e, e ∈ op_entry_ids op' -> is_Some (es !! e)) ->
  lifecycle leaves es (<[id := op']> ops) act eps.
Proof.
  intros [Ha Ho Hl He Hent] Hop Hlane Hfin Heps Hok Hes.
  assert (forall (P : OperationState -> Prop), (P op <-> P op') -> forall k,
    (exists o, <[id := op']> ops !! k = Some o /\ P o) <-> (exists o, ops !! k = Some o /\ P o))
    as Hex.
  { intros P HP k. destruct (decide (k = id)) as [->|Hne].
    - rewrite lookup_insert_eq, Hop. split; intros (o & [= <-] & Hp); eexists; split; [done| |done|];
        by apply HP.
    - by rewrite lookup_insert_ne. }
  split.
  - intros lane k. rewrite Ha. symmetry. apply Hex. by rewrite Hlane, Hfin.
  - intros k o. rewrite lookup_insert_Some. intros [[_ <-]|[_ Hk]]; eauto.
  - intros k o. rewrite lookup_insert_Some. intros [[_ <-]|[_ Hk]]; [rewrite Hlane|]; eauto.
  - intros e k. rewrite He. symmetry. apply Hex. by rewrite Heps.
  - intros k o e. rewrite lookup_insert_Some. intros [[_ <-]|[_ Hk]]; eauto.
Qed.

Lemma lifecycle_start ops act eps record :
  lifecycle leaves es ops act eps -> ops !! os_id record = None ->
  act !! os_lane_id record = None -> is_Some (leaves !! os_lane_id record) ->
  lifecycle leaves es (<[os_id record := opened record]> ops)
    (<[os_lane_id record := os_id record]> act) eps.
Proof.
  intros [Ha Ho Hl He Hent] Hnew Hidle Hlane. split.
  - intros lane k. rewrite lookup_insert_Some. split.
    + intros [[<- <-]|[Hne Hk]].
      * exists (opened record). by rewrite lookup_insert_eq.
      * apply Ha in Hk as (o & Hk & Ho'). exists o. rewrite lookup_insert_ne; [done|congruence].
    + intros (o & Hk & Hlo & Hfo). apply lookup_insert_Some in Hk as [[<- <-]|[Hne Hk]]; [by left|].
      right. split; [|by apply Ha; eauto]. intros <-.
      assert (act !! op_lane_id o = Some k) by (apply Ha; eauto). congruence.
  - intros k o. rewrite lookup_insert_Some. intros [[_ <-]|[_ Hk]]; [|eauto].
    split; simpl; [done|split; [done|by intros [? [=]]]|set_solver|set_solver|constructor].
  - intros k o. rewrite lookup_insert_Some. intros [[_ <-]|[_ Hk]]; eauto.
  - intros e k. rewrite He. split; intros (o & Hk & Hin).
    + exists o. rewrite lookup_insert_ne; [done|congruence].
    + apply lookup_insert_Some in Hk as [[<- <-]|[_ Hk]]; [by apply not_elem_of_nil in Hin|eauto].
  - intros k o e. rewrite lookup_insert_Some. intros [[_ <-]|[_ Hk]] Hin; [|eauto].
    by apply not_elem_of_nil in Hin.
Qed.

Lemma lifecycle_finish ops act eps id op outcome :
  lifecycle leaves es ops act eps -> ops !! id = Some op -> op_finished op = false ->
  op_open_epochs op = ∅ ->
  lifecycle leaves es
    (<[id := op <| op_finished := true |> <| op_outcome := Some outcome |>]> ops)
    (delete (op_lane_id op) act) eps.
Proof.
  intros [Ha Ho Hl He Hent] Hop Hopen Hclosed.
  assert (act !! op_lane_id op = Some id) as Hact by (apply Ha; eauto).
  destruct (Ho _ _ Hop) as [H1 H2 H3 H4 H5]. split.
  - intros lane k. rewrite lookup_delete_Some. split.
    + intros [Hne Hk]. apply Ha in Hk as (o & Hk & Hlo & Hfo). exists o.
      rewrite lookup_insert_ne; [done|]. intros <-. congruence.
    + intros (o & Hk & Hlo & Hfo). apply lookup_insert_Some in Hk as [[_ <-]|[Hne Hk]]; [done|].
      split; [|apply Ha; eauto]. intros Heq. apply Hne.
      assert (act !! lane = Some k) by (apply Ha; eauto). congruence.
  - intros k o. rewrite lookup_insert_Some. intros [[_ <-]|[_ Hk]]; [|eauto].
    split; simpl; eauto. split; eauto.
  - intros k o. rewrite lookup_insert_Some. intros [[_ <-]|[_ Hk]]; simpl; eauto.
  - intros e k. rewrite He. split; intros (o & Hk & Hin).
    + destruct (decide (k = id)) as [->|]; [|by exists o; rewrite lookup_insert_ne].
      rewrite lookup_insert_eq. eexists; split; [done|]. simpl. by simplify_eq.
    + apply lookup_insert_Some in Hk as [[<- <-]|[_ Hk]]; eauto.
  - intros k o e. rewrite lookup_insert_Some. intros [[_ <-]|[_ Hk]]; simpl; eauto.
Qed.

Lemma lifecycle_epoch_start ops act eps id op epoch :
  lifecycle leaves es ops act eps -> ops !! id = Some op -> op_finished op = false ->
  op_open_epochs op = ∅ -> eps !! epoch = None ->
  lifecycle leaves es
    (<[id := op <| op_epoch_ids ::= fun l => l ++ [epoch] |>
                <| op_open_epochs ::= union {[epoch]} |>]> ops) act (<[epoch := id]> eps).
Proof.
  intros [Ha Ho Hl He Hent] Hop Hopen Hclosed Hfresh.
  destruct (Ho _ _ Hop) as [H1 H2 H3 H4 H5]. split.
  - intros lane k. rewrite Ha. split; intros (o & Hk & Hp).
    + destruct (decide (k = id)) as [->|]; [|by exists o; rewrite lookup_insert_ne].
      rewrite lookup_insert_eq. eexists; split; [done|]. simpl. by simplify_eq.
    + apply lookup_insert_Some in Hk as [[<- <-]|[_ Hk]]; eauto.
  - intros k o. rewrite lookup_insert_Some. intros [[_ <-]|[_ Hk]]; [|eauto].
    split; simpl; [congruence|done|rewrite Hclosed; set_solver|set_solver|].
    apply NoDup_app. split_and!; [done| |by apply NoDup_singleton].
    intros e Hin ->%list_elem_of_singleton.
    assert (eps !! epoch = Some id) by (apply He; eauto). congruence.
  - intros k o. rewrite lookup_insert_Some. intros [[_ <-]|[_ Hk]]; simpl; eauto.
  - intros e k. destruct (decide (e = epoch)) as [->|Hne].
    + rewrite lookup_insert_eq. split.
      * intros [= <-]. rewrite lookup_insert_eq. eexists; split; [done|]. simpl. set_solver.
      * intros (o & Hk & Hin). apply lookup_insert_Some in Hk as [[<- <-]|[_ Hk]]; [done|].
        assert (eps !! epoch = Some k) by (apply He; eauto). congruence.
    + rewrite lookup_insert_ne by done. rewrite He. split; intros (o & Hk & Hin).
      * destruct (decide (k = id)) as [->|]; [|by exists o; rewrite lookup_insert_ne].
        rewrite lookup_insert_eq. eexists; split; [done|]. simpl. simplify_eq. set_solver.
      * apply lookup_insert_Some in Hk as [[<- <-]|[_ Hk]]; [|eauto].
        exists op. split; [done|]. simpl in Hin. set_solver.
  - intros k o e. rewrite lookup_insert_Some. intros [[_ <-]|[_ Hk]]; simpl; eauto.
Qed.
End updates.

Section preservation.
Context `{Miniserde} `{Blake3}.

Lemma on_record_lifecycle s i stored s' :
  state_lifecycle s -> on_record s i stored = Ok s' -> state_lifecycle s'.
Proof.
  unfold on_record, state_lifecycle. intros HI. destruct (sr_record stored).
  1: { intros (Hnew & Hleaf & Hidle & ? & ? & _ & ->)%on_operation_started_Ok. simpl.
       apply lifecycle_start; [done..|]. by rewrite Hleaf. }
  all: unfold_record_handlers; intros; reducer_inv; try done.
  - by apply lifecycle_finish.
  - by apply lifecycle_epoch_start.
  - eapply lifecycle_update; [done|done|done|done|done| |].
    + destruct (lc_ok _ _ _ _ _ HI _ _ ltac:(eassumption)) as [A1 A2 A3 A4 A5].
      split; simpl; [intros ?; set_solver|done|set_solver|set_solver|done].
    + simpl. intros e. eapply lc_entries; eauto.
Qed.

Lemma on_fact_ops_frame s stored s' :
  on_fact s stored = Ok s' ->
  operations s' = operations s /\ active_operations s' = active_operations s /\ epochs s' = epochs s.
Proof.
  unfold on_fact. destruct (sf_fact stored); unfold_fact_handlers; intros; reducer_inv; done.
Qed.

Lemma apply_mutation_lifecycle s i m s' :
  state_lifecycle s -> apply_mutation s i m = Ok s' -> state_lifecycle s'.
Proof.
  destruct m as [e|r|[seq ts [lane base]]|f]; simpl; intros HI Hok.
  - apply on_entry_Ok in Hok as (Hleaf & Hnone & _ & _ & requests & ops & -> & Hops).
    unfold state_lifecycle in *; simpl.
    assert (lifecycle (<[se_lane_id e := Some (eh_id (se_header e))]> (lane_leaves s))
              (<[eh_id (se_header e) := e]> (entries s)) (operations s) (active_operations s)
              (epochs s)) as HI'.
    { eapply lifecycle_mono; [| |exact HI]; intros k Hk;
        rewrite lookup_insert_is_Some'; eauto. }
    destruct (active_operations s !! se_lane_id e) as [oid|]; [|by rewrite Hops].
    destruct Hops as (op & Hop & ->).
    eapply lifecycle_update; try done.
    + by destruct (lc_ok _ _ _ _ _ HI _ _ Hop); split.
    + simpl. intros x. rewrite elem_of_app. intros [Hin|Hin]; [|apply list_elem_of_singleton in Hin as ->].
      * eapply lc_entries; [exact HI'|done|done].
      * rewrite lookup_insert_eq. eauto.
  - by eapply on_record_lifecycle.
  - apply on_lane_created_Ok in Hok as (_ & _ & ->). unfold state_lifecycle; simpl.
    eapply lifecycle_mono; [| |exact HI]; [|done]. intros k Hk. rewrite lookup_insert_is_Some'. eauto.
  - pose proof (on_fact_frame _ _ _ Hok) as [E1 E2].
    apply on_fact_ops_frame in Hok as (E3 & E4 & E5).
    unfold state_lifecycle. by rewrite E1, E2, E3, E4, E5.
Qed.

Lemma initial_lifecycle header : state_lifecycle (initial_state header).
Proof.
  split; simpl; try (intros *; by rewrite lookup_empty);
    (intros *; rewrite lookup_empty; split; [done|]; by intros (? & ? & _)).
Qed.

Lemma reduce_all_lifecycle header ms s : reduce_all header ms = Ok s -> state_lifecycle s.
Proof.
  apply reduce_all_invariant; [apply initial_lifecycle|done|exact apply_mutation_lifecycle].
Qed.

(** C34: In every state the reducer reaches, entries form a forest: each is stored under its own
    identity, every parent and every lane leaf is an existing entry, and a rank below the number
    of entries strictly decreases along parent links. *)
Theorem reduced_entries_forest header ms s :
  reduce_all header ms = Ok s -> state_forest s.
Proof. apply reduce_all_forest. Qed.

(** C2: In every state the reducer reaches, an operation is unfinished exactly while it is the
    active operation of its lane, has at most one open epoch and none once finished, has an
    outcome exactly when finished, and epoch ownership, entry membership and lanes are
    consistent. *)
Theorem reduced_operations_lifecycle header ms s :
  reduce_all header ms = Ok s -> state_lifecycle s.
Proof. apply reduce_all_lifecycle. Qed.
End preservation.
