(* ===== verification/ReductionSafety.v ===== *)
(** * The reducer returns

    Reducing a session never panics: the [expect]s on active operations are
    guarded by the lifecycle invariant, the parent walk terminates because
    entries form a forest, and cost addition does not overflow on decimal
    cost texts. *)

From stdpp Require Import base gmap sets list strings sorting.
From S2P Require Import Prelude RustStr Json Ids Decimal DecimalProofs Model Records Snapshot.
From S2P Require Import Reduction ReductionInv ReductionOps.

(** ** Decimal cost texts *)

Definition cost_ok (u : Usage) : Prop :=
  forall c, us_cost u = Some c -> exists d, text_ok d /\ c = render d.

Lemma plain_text_cost s m n :
  plain_text s m n -> (Z.of_nat n <= i64_max)%Z -> exists d, text_ok d /\ s = render d.
Proof.
  intros (w & f & -> & Hw & _ & Hf & Hlen & _) Hn. exists (mk_text w f None). split; [|done].
  split; unfold text_scale, text_exponent; simpl; try done; lia.
Qed.

Lemma usage_add_total {E} self other :
  cost_ok self -> cost_ok other ->
  exists total, @usage_saturating_add_assign E self other = Ok total /\ cost_ok total.
Proof.
  intros Hs Ho. unfold usage_saturating_add_assign.
  destruct (us_cost other) as [c|] eqn:Hc; simpl; [|by eexists; split].
  destruct (Ho c Hc) as (d2 & Hd2 & ->).
  destruct (us_cost self) as [p|] eqn:Hp; simpl.
  - destruct (Hs p Hp) as (d1 & Hd1 & ->).
    destruct (@decimal_add_plain E d1 d2 Hd1 Hd2) as (s & -> & Hplain).
    eexists; split; [done|]. intros c [= <-]. eapply plain_text_cost; [exact Hplain|].
    destruct (to_scale _ Hd1), (to_scale _ Hd2). unfold scale_of. lia.
  - eexists; split; [done|]. intros c [= <-]. eauto.
Qed.

(** The usage records of a mutation carry decimal cost texts. *)
Definition costs_ok (m : SessionMutation) : Prop :=
  match m with
  | MutRecord stored =>
      match sr_record stored with
      | UsageFact record => cost_ok (ur_usage record)
      | _ => True
      end
  | _ => True
  end.

Definition totals_ok (s : ReducerState) : Prop :=
  forall lane u, usage_by_lane s !! lane = Some u -> cost_ok u.

(** ** Inversion of a panic *)

Lemma obind_Panic_inv {E A B} (m : Outcome E A) (k : A -> Outcome E B) r :
  obind m k = Panic r -> m = Panic r \/ exists a, m = Ok a /\ k a = Panic r.
Proof. destruct m; simpl; [eauto|done|intros [= ->]; auto]. Qed.

Lemma ok_or_no_panic {E A} (o : option A) (e : E) r : ok_or o e <> Panic r.
Proof. by destruct o. Qed.

Lemma expect_Panic_inv {E A} (o : option A) reason r : @expect E A o reason = Panic r -> o = None.
Proof. by destruct o. Qed.

Lemma map_err_Panic_inv {E F A} (f : E -> F) (m : Outcome E A) r :
  map_err f m = Panic r -> m = Panic r.
Proof. destruct m; simpl; congruence. Qed.

Ltac panic_inv_step :=
  match goal with
  | H : obind _ _ = Panic _ |- _ =>
      let x := fresh "x" in let H1 := fresh "Hpo" in
      apply obind_Panic_inv in H as [H|(x & H1 & H)]
  | H : reject_if _ _ = Panic _ |- _ => by apply reject_if_no_panic in H
  | H : corrupt _ = Panic _ |- _ => discriminate H
  | H : ok_or _ _ = Panic _ |- _ => by apply ok_or_no_panic in H
  | H : open_operation _ _ = Panic _ |- _ => by apply open_operation_no_panic in H
  | H : map_err _ _ = Panic _ |- _ => apply map_err_Panic_inv in H
  | H : to_json_string _ = Panic _ |- _ => by apply to_json_string_no_panic in H
  | H : Ok _ = Panic _ |- _ => discriminate H
  | H : Err _ = Panic _ |- _ => discriminate H
  | H : (if ?b then _ else _) = Panic _ |- _ => destruct b eqn:?
  | H : match ?x with _ => _ end = Panic _ |- _ => destruct x eqn:?
  end.
Ltac panic_inv := repeat panic_inv_step.

Section safety.
Context `{Miniserde} `{Blake3}.

Lemma validators_no_panic r :
  (forall label v, validate_bounded_extension_identifier label v <> Panic r) /\
  (forall f, validate_extension_state_value f <> Panic r) /\
  (forall f, validate_extension_control f <> Panic r) /\
  (forall c, validate_compaction_replacement c <> Panic r) /\
  (forall t es prior, validate_tool_started t es prior <> Panic r).
Proof.
  split_and!; intros *; intros Hp;
    unfold validate_extension_state_value, validate_extension_control,
      validate_compaction_replacement, validate_tool_started,
      validate_bounded_extension_identifier in Hp; panic_inv.
Qed.

Lemma ofold_unit_no_panic {A E S} (f : S -> A -> Outcome E S) l s r :
  (forall s x r, f s x <> Panic r) -> ofold f s l <> Panic r.
Proof. intros Hf. by apply (ofold_no_panic (fun _ => True)). Qed.

Lemma provision_no_panic record s l r : ofold (provision_one record) s l <> Panic r.
Proof.
  apply ofold_unit_no_panic. intros t x r' Hp. unfold provision_one in Hp. panic_inv.
Qed.

Lemma dispatch_no_panic record s l r : ofold (dispatch_one record) s l <> Panic r.
Proof.
  apply ofold_unit_no_panic. intros [t seen] [id p] r' Hp. unfold dispatch_one in Hp. panic_inv.
Qed.

Lemma on_entry_no_panic s stored r : state_lifecycle s -> on_entry s stored <> Panic r.
Proof.
  intros HI Hp. unfold on_entry in Hp.
  apply obind_Panic_inv in Hp as [Hp|(t & Ht & Hp)].
  - destruct (se_body stored); try discriminate. unfold on_compaction in Hp. panic_inv.
    by apply validators_no_panic in Hp.
  - assert (operations t = operations s /\ active_operations t = active_operations s) as [Eo Ea].
    { clear Hp. destruct (se_body stored); try (injection Ht as <-; done).
      by apply on_compaction_frame in Ht as [requests ->]. }
    panic_inv. apply expect_Panic_inv in Hp. rewrite Eo in Hp. rewrite Ea in *.
    match goal with Ha : active_operations s !! _ = Some _ |- _ =>
      apply (lc_active _ _ _ _ _ HI) in Ha as (op & Hop & _) end. congruence.
Qed.

Lemma on_record_no_panic s i stored r :
  totals_ok s -> costs_ok (MutRecord stored) -> on_record s i stored <> Panic r.
Proof.
  unfold on_record, costs_ok. intros Ht Hc Hp. destruct (sr_record stored).
  1: { unfold on_operation_started in Hp. panic_inv;
       by (apply provision_no_panic in Hp || apply dispatch_no_panic in Hp). }
  all: revert Hp; unfold_record_handlers; intros Hp; panic_inv;
    try (by apply validators_no_panic in Hp).
  destruct (@usage_add_total Corruption (default usage_default (usage_by_lane s !! op_lane_id x))
              (ur_usage record)) as (total & Hok & _); [|done|congruence].
  destruct (usage_by_lane s !! op_lane_id x) eqn:Hu; simpl; [by eapply Ht|done].
Qed.

Lemma on_fact_no_panic s stored r : on_fact s stored <> Panic r.
Proof.
  unfold on_fact. intros Hp. destruct (sf_fact stored); revert Hp; unfold_fact_handlers; intros Hp;
    panic_inv; by apply validators_no_panic in Hp.
Qed.

Lemma apply_mutation_no_panic s i m r :
  state_lifecycle s -> totals_ok s -> costs_ok m -> apply_mutation s i m <> Panic r.
Proof.
  intros HI Ht Hc. destruct m as [e|rec|[seq ts [lane base]]|f]; simpl.
  - by apply on_entry_no_panic.
  - by apply on_record_no_panic.
  - unfold on_lane_created. intros Hp. panic_inv.
  - apply on_fact_no_panic.
Qed.

(** Totals change only by a usage record, and stay decimal. *)
Lemma apply_mutation_totals s i m s' :
  totals_ok s -> costs_ok m -> apply_mutation s i m = Ok s' -> totals_ok s'.
Proof.
  intros Ht Hc Hok. destruct m as [e|rec|[seq ts [lane base]]|f]; simpl in *.
  - by apply on_entry_Ok in Hok as (_ & _ & _ & _ & requests & ops & -> & _).
  - unfold on_record in Hok. destruct (sr_record rec).
    1: { by apply on_operation_started_Ok in Hok as (_ & _ & _ & ? & ? & _ & ->). }
    all: revert Hok; unfold_record_handlers; intros Hok; reducer_inv; try done.
    destruct (@usage_add_total Corruption (default usage_default (usage_by_lane s !! op_lane_id x))
              (ur_usage record)) as (total & Htot & Hcost); [|done|].
    { destruct (usage_by_lane s !! op_lane_id x) eqn:Hu; simpl; [by eapply Ht|done]. }
    intros lane u. simpl. rewrite lookup_insert_Some. intros [[_ <-]|[_ Hl]]; [|eauto].
    match goal with Hu : usage_saturating_add_assign _ _ = Ok ?v |- cost_ok ?v =>
      rewrite Htot in Hu; by injection Hu as <- end.
  - by apply on_lane_created_Ok in Hok as (_ & _ & ->).
  - revert Hok. unfold on_fact.
    destruct (sf_fact f); unfold_fact_handlers; intros Hok; reducer_inv; done.
Qed.

Definition state_safe (s : ReducerState) : Prop := state_lifecycle s /\ state_forest s /\ totals_ok s.

Lemma initial_safe header : state_safe (initial_state header).
Proof.
  split_and!; [apply initial_lifecycle|apply initial_forest|].
  intros lane u. simpl. by rewrite lookup_empty.
Qed.

Lemma reduce_step_safe s m :
  state_safe s -> costs_ok (smu_mutation m) ->
  (forall r, reduce_step s m <> Panic r) /\ (forall s', reduce_step s m = Ok s' -> state_safe s').
Proof.
  intros (Hl & Hf & Ht) Hc. split.
  - intros r Hp. unfold reduce_step in Hp.
    apply obind_Panic_inv in Hp as [Hp|(u & Hok & Hp)]; [by apply reject_if_no_panic in Hp|].
    destruct (preserves_checkpoint_readiness _ _) in Hp; revert Hp; by apply apply_mutation_no_panic.
  - intros s' (_ & ready & _ & Hok)%reduce_step_Ok. split_and!.
    + by eapply apply_mutation_lifecycle; [|exact Hok].
    + by eapply apply_mutation_forest; [|exact Hok].
    + by eapply apply_mutation_totals; [| |exact Hok].
Qed.

Lemma reduce_fold_safe s ms :
  state_safe s -> Forall (fun m => costs_ok (smu_mutation m)) ms ->
  (forall r, ofold reduce_step s ms <> Panic r) /\
  (forall s', ofold reduce_step s ms = Ok s' -> state_safe s').
Proof.
  intros Hs Hms. revert s Hs. induction Hms as [|m ms Hm _ IH]; intros s Hs; simpl.
  - split; [done|]. by intros s' [= <-].
  - destruct (reduce_step_safe s m Hs Hm) as [Hnp Hok]. split.
    + intros r [Hp|(t & Ht & Hp)]%obind_Panic_inv; [by eapply Hnp|].
      by eapply (IH t (Hok t Ht)).
    + intros s' (t & Ht & Hs')%obind_Ok_inv. by eapply (IH t (Hok t Ht)).
Qed.

Lemma finish_reduction_no_panic s last lane r :
  state_safe s -> finish_reduction s last lane <> Panic r.
Proof.
  intros (Hl & Hf & _) Hp. unfold finish_reduction in Hp.
  apply obind_Panic_inv in Hp as [Hp|(u & _ & Hp)]; [panic_inv|].
  apply obind_Panic_inv in Hp as [Hp|(leaf & Hleaf & Hp)]; [panic_inv|].
  apply ok_or_Ok_inv in Hleaf.
  apply obind_Panic_inv in Hp as [Hp|(u' & _ & Hp)].
  { revert Hp. unfold validate_tool_results. intros Hp. panic_inv; revert Hp;
      apply ofold_unit_no_panic; intros _ [a b] r' Hp;
      unfold validate_start_result, validate_entry_result in Hp; panic_inv. }
  destruct (derive_configuration_total s lane leaf Hf Hleaf) as (chain & _ & Hc).
  rewrite Hc in Hp. cbn [obind] in Hp.
  apply obind_Panic_inv in Hp as [Hp|(act & _ & Hp)].
  { unfold unresolved_activation in Hp. destruct (active_operations s !! lane); [|done].
    revert Hp. apply ofold_unit_no_panic. intros pend req r' Hp. unfold resolve_activation in Hp.
    panic_inv. }
  apply obind_Panic_inv in Hp as [Hp|(plan & _ & Hp)]; [|done].
  unfold derive_recovery_plan in Hp.
  destruct (active_operations s !! lane) as [id|] eqn:Ha; [|done].
  apply (lc_active _ _ _ _ _ Hl) in Ha as (op & Hop & _). rewrite Hop in Hp. done.
Qed.

(** C1: The lane reducer always returns a reduction or a reported corruption: when the usage
    records of the log carry decimal cost texts, neither an expect, nor an arithmetic overflow,
    nor an endless parent walk can occur. *)
Theorem reduce_lane_prefix_returns header last ms lane r :
  Forall (fun m => costs_ok (smu_mutation m)) ms ->
  reduce_lane_prefix header last ms lane <> Panic r.
Proof.
  intros Hms. destruct (reduce_fold_safe _ ms (initial_safe header) Hms) as [Hnp Hok].
  intros [Hp|(s & Hs & Hp)]%obind_Panic_inv; [by eapply Hnp|].
  by eapply finish_reduction_no_panic; [apply Hok|].
Qed.
End safety.
