(* ===== verification/ReductionHistory.v ===== *)
(** * History of a session prefix

    Reducing a longer prefix only extends what a shorter one established:
    entries, checkpoints and finished operations never change, and accepted
    inputs only move forward through Pending, Withdrawn or Dispatched, and
    Settled.  The pending queue is the pending inputs of the lane in
    acceptance order. *)

From stdpp Require Import base gmap sets list strings sorting relations.
From S2P Require Import Prelude RustStr Json Ids Decimal Model Records Snapshot Reduction.
From S2P Require Import ReductionInv ReductionOps.

(** ** Extension of states *)

(** The one-way transitions of an accepted input. *)
Inductive input_moves : InputStatus -> InputStatus -> Prop :=
| moves_stay st : input_moves st st
| moves_withdraw : input_moves InputPending InputIsWithdrawn
| moves_dispatch op : input_moves InputPending (InputDispatched op)
| moves_settle op outcome : input_moves (InputDispatched op) (InputIsSettled op outcome)
| moves_through op outcome : input_moves InputPending (InputIsSettled op outcome).

Lemma input_moves_trans a b c : input_moves a b -> input_moves b c -> input_moves a c.
Proof. destruct 1; inversion 1; subst; constructor. Qed.

(** An operation keeps its lane and input; once finished it never changes. *)
Definition operation_extends (op op' : OperationState) : Prop :=
  op_lane_id op' = op_lane_id op /\ op_original_input op' = op_original_input op /\
  op_epoch_ids op `prefix_of` op_epoch_ids op' /\ op_entry_ids op `prefix_of` op_entry_ids op' /\
  (op_finished op = true -> op' = op).

Record extends (s s' : ReducerState) : Prop := {
  ex_entries : entries s ⊆ entries s';
  ex_checkpoints : checkpoints s ⊆ checkpoints s';
  ex_epochs : epochs s ⊆ epochs s';
  ex_settled : provider_settled s ⊆ provider_settled s';
  ex_material : provider_material s ⊆ provider_material s';
  ex_lanes : forall lane, is_Some (lane_leaves s !! lane) -> is_Some (lane_leaves s' !! lane);
  ex_operations : forall id op, operations s !! id = Some op ->
    exists op', operations s' !! id = Some op' /\ operation_extends op op';
  ex_inputs : forall id i, input_states s !! id = Some i ->
    exists i', input_states s' !! id = Some i' /\ in_accepted i' = in_accepted i
      /\ input_moves (in_status i) (in_status i');
  ex_tools : tool_starts s `prefix_of` tool_starts s';
  ex_order : input_order s `prefix_of` input_order s';
}.

Lemma operation_extends_refl op : operation_extends op op.
Proof. by split_and!. Qed.

#[export] Instance extends_refl : Reflexive extends.
Proof. intros s. split; eauto using operation_extends_refl, moves_stay. Qed.

Lemma operation_extends_trans a b c :
  operation_extends a b -> operation_extends b c -> operation_extends a c.
Proof.
  intros (A1 & A2 & A3 & A4 & A5) (B1 & B2 & B3 & B4 & B5). split_and!.
  - congruence.
  - congruence.
  - by etrans.
  - by etrans.
  - intros Hf. rewrite <-(A5 Hf). apply B5. by rewrite (A5 Hf).
Qed.

#[export] Instance extends_trans : Transitive extends.
Proof.
  intros s1 s2 s3 [A1 A2 A3 A4 A5 A6 A7 A8 A9 A10] [B1 B2 B3 B4 B5 B6 B7 B8 B9 B10].
  split; try (by etrans); [eauto| |].
  - intros id op (op1 & Hop1 & E1)%A7. destruct (B7 _ _ Hop1) as (op2 & Hop2 & E2).
    eauto using operation_extends_trans.
  - intros id i (i1 & Hi1 & Eq1 & E1)%A8. destruct (B8 _ _ Hi1) as (i2 & Hi2 & Eq2 & E2).
    exists i2. split_and!; [done|congruence|by eapply input_moves_trans].
Qed.

(** Pointwise updates that extend. *)
Lemma operations_update (ops : gmap OperationId OperationState) k o o' :
  ops !! k = Some o -> operation_extends o o' ->
  forall id op, ops !! id = Some op ->
  exists op', <[k := o']> ops !! id = Some op' /\ operation_extends op op'.
Proof.
  intros Hk He id op Hop. destruct (decide (k = id)) as [<-|].
  - rewrite lookup_insert_eq. simplify_eq. eauto.
  - rewrite lookup_insert_ne by done. eauto using operation_extends_refl.
Qed.

Lemma inputs_update (m : gmap EntryId InputState) k i st :
  m !! k = Some i -> input_moves (in_status i) st ->
  forall id j, m !! id = Some j ->
  exists j', <[k := i <| in_status := st |>]> m !! id = Some j' /\
    in_accepted j' = in_accepted j /\ input_moves (in_status j) (in_status j').
Proof.
  intros Hk Hm id j Hj. destruct (decide (k = id)) as [<-|].
  - rewrite lookup_insert_eq. simplify_eq. eauto.
  - rewrite lookup_insert_ne by done. eauto using moves_stay.
Qed.

Lemma inputs_dispatched record (m m' : gmap EntryId InputState) :
  dispatched_from record m m' -> forall id j, m !! id = Some j ->
  exists j', m' !! id = Some j' /\ in_accepted j' = in_accepted j
    /\ input_moves (in_status j) (in_status j').
Proof.
  intros Hd id j Hj. destruct (Hd id) as [Heq|(i & Hi & [_ Hp] & _ & Hm')].
  - rewrite Heq. eauto using moves_stay.
  - simplify_eq. eexists; split_and!; [done|done|]. simpl. rewrite Hp. constructor.
Qed.

(** Every obligation of [extends] about a field the handler leaves alone. *)
Ltac extends_frame :=
  split; simpl;
  [ try reflexivity; try by apply insert_subseteq
  | try reflexivity; try by apply insert_subseteq
  | try reflexivity; try by apply insert_subseteq
  | try reflexivity; try by apply insert_subseteq
  | try reflexivity; try set_solver
  | try done; try (intros ? ?; rewrite lookup_insert_is_Some'; by auto)
  | try (by eauto using operation_extends_refl)
  | try (by eauto using moves_stay)
  | try reflexivity; try (by eexists)
  | try reflexivity; try (by eexists) ].

Section history.
Context `{Miniserde} `{Blake3}.

Lemma on_record_extends s i stored s' : on_record s i stored = Ok s' -> extends s s'.
Proof.
  unfold on_record. destruct (sr_record stored).
  1: { intros (Hnew & _ & _ & ? & inputs & Hd & ->)%on_operation_started_Ok. extends_frame.
       - intros id op Hop. exists op. rewrite lookup_insert_ne by congruence.
         eauto using operation_extends_refl.
       - by apply inputs_dispatched with record. }
  all: unfold_record_handlers; intros; reducer_inv; extends_frame.
  - eapply operations_update; [done|]. split_and!; try done. simpl. congruence.
  - eapply operations_update; [done|]. split_and!; try done; simpl; [by eexists|congruence].
  - eapply operations_update; [done|]. split_and!; try done. simpl. congruence.
  - intros id j Hj. exists j. rewrite lookup_insert_ne by congruence. eauto using moves_stay.
  - eapply inputs_update; [done|]. match goal with Hs : in_status _ = _ |- _ => rewrite Hs end.
    constructor.
  - eapply inputs_update; [done|]. match goal with Hs : in_status _ = _ |- _ => rewrite Hs end.
    constructor.
Qed.

Lemma on_fact_extends s stored s' : on_fact s stored = Ok s' -> extends s s'.
Proof.
  unfold on_fact.
  destruct (sf_fact stored); unfold_fact_handlers; intros; reducer_inv; extends_frame.
Qed.

Lemma apply_mutation_extends s i m s' :
  state_lifecycle s -> apply_mutation s i m = Ok s' -> extends s s'.
Proof.
  destruct m as [e|r|[seq ts [lane base]]|f]; simpl; intros HI Hok.
  - apply on_entry_Ok in Hok as (_ & Hnone & _ & _ & requests & ops & -> & Hops). extends_frame.
    destruct (active_operations s !! se_lane_id e) as [oid|] eqn:Ha; [|rewrite Hops];
      [|by eauto using operation_extends_refl].
    destruct Hops as (op & Hop & ->). eapply operations_update; [done|].
    apply (lc_active _ _ _ _ _ HI) in Ha as (op' & Hop' & _ & Hf). simplify_eq.
    split_and!; try done; simpl; [by eexists|congruence].
  - by eapply on_record_extends.
  - apply on_lane_created_Ok in Hok as (Hnew & _ & ->). extends_frame.
  - by eapply on_fact_extends.
Qed.

Lemma reduce_step_extends s m s' : state_lifecycle s -> reduce_step s m = Ok s' -> extends s s'.
Proof.
  intros HI (_ & ready & _ & Hok)%reduce_step_Ok.
  etrans; [|eapply apply_mutation_extends; [|exact Hok]]; [|done].
  split; simpl; eauto using operation_extends_refl, moves_stay.
Qed.

Lemma reduce_fold_extends ms : forall s s',
  state_lifecycle s -> ofold reduce_step s ms = Ok s' -> extends s s'.
Proof.
  induction ms as [|m ms IH]; intros s s' HI; simpl; [by intros [= <-]|].
  intros (t & Ht & Hrest)%obind_Ok_inv. etrans; [by eapply reduce_step_extends|].
  eapply IH; [|done]. eapply (reduce_step_invariant state_lifecycle); [done| |done|done].
  exact apply_mutation_lifecycle.
Qed.

(** Reducing a longer log extends the reduction of every prefix: entries, checkpoints,
    epochs and settlements are never changed or lost, a finished operation never changes again,
    and an accepted input keeps its payload and only moves forward (pending, then withdrawn or
    dispatched, then settled by the same operation). *)
Theorem reduce_prefix_extends header ms1 ms2 s2 :
  reduce_all header (ms1 ++ ms2) = Ok s2 ->
  exists s1, reduce_all header ms1 = Ok s1 /\ extends s1 s2.
Proof.
  unfold reduce_all. rewrite ofold_app. intros (s1 & Hs1 & Hs2)%obind_Ok_inv.
  exists s1. split; [done|]. eapply reduce_fold_extends; [|done].
  by eapply reduce_all_lifecycle.
Qed.

(** ** Accepted inputs *)

(** What each input status requires of the operations. *)
Definition status_ok (s : ReducerState) (i : InputState) : Prop :=
  match in_status i with
  | InputPending | InputIsWithdrawn => True
  | InputDispatched id => exists op, operations s !! id = Some op
      /\ op_lane_id op = ai_lane_id (in_accepted i)
  | InputIsSettled id outcome => exists op, operations s !! id = Some op
      /\ op_lane_id op = ai_lane_id (in_accepted i)
      /\ op_finished op = true /\ op_outcome op = Some outcome
  end.

Record inputs_ok (s : ReducerState) : Prop := {
  in_nodup : NoDup (input_order s);
  in_known : forall id, id ∈ input_order s <-> is_Some (input_states s !! id);
  in_user : forall id i, input_states s !! id = Some i ->
    pe_id (ai_entry (in_accepted i)) = id /\
    exists msg, pe_body (ai_entry (in_accepted i)) = UserMessage msg;
  in_status_ok : forall id i, input_states s !! id = Some i -> status_ok s i;
}.

(** Operations that only extend keep every status justified. *)
Lemma status_ok_mono s s' i :
  (forall id op, operations s !! id = Some op ->
     exists op', operations s' !! id = Some op' /\ operation_extends op op') ->
  status_ok s i -> status_ok s' i.
Proof.
  unfold status_ok. intros Hops. destruct (in_status i) as [| |id|id outcome]; [done..| |].
  - intros (op & (op' & Hop' & Hl & _)%Hops & Hlane). exists op'. split; [done|congruence].
  - intros (op & (op' & Hop' & Hl & _ & _ & _ & Hfin)%Hops & Hlane & Hf & Ho).
    rewrite (Hfin Hf) in Hop'. eauto.
Qed.

(** Same queue, same inputs: only the operations may have moved on. *)
Lemma inputs_ok_frame s s' :
  input_order s' = input_order s -> input_states s' = input_states s ->
  extends s s' -> inputs_ok s -> inputs_ok s'.
Proof.
  intros Eo Ei Hex [A1 A2 A3 A4]. split; rewrite ?Eo, ?Ei; try done.
  intros id i Hi. eapply status_ok_mono; [apply Hex|eauto].
Qed.

(** One input changes status. *)
Lemma inputs_ok_update s s' k i st :
  input_states s !! k = Some i -> input_order s' = input_order s ->
  input_states s' = <[k := i <| in_status := st |>]> (input_states s) ->
  extends s s' -> status_ok s' (i <| in_status := st |>) -> inputs_ok s -> inputs_ok s'.
Proof.
  intros Hk Eo Ei Hex Hst [A1 A2 A3 A4]. split; rewrite ?Eo, ?Ei; try done.
  - intros id. rewrite A2, lookup_insert_is_Some'. split; [auto|]. intros [<-|]; eauto.
  - intros id j. rewrite lookup_insert_Some. intros [[<- <-]|[_ Hj]]; [exact (A3 _ _ Hk)|by apply A3].
  - intros id j. rewrite lookup_insert_Some. intros [[<- <-]|[_ Hj]]; [done|].
    eapply status_ok_mono; [apply Hex|eauto].
Qed.

Lemma inputs_ok_started s record s' :
  on_operation_started s record = Ok s' -> extends s s' -> inputs_ok s -> inputs_ok s'.
Proof.
  intros (Hnew & _ & _ & ? & inputs & Hd & ->)%on_operation_started_Ok Hex [A1 A2 A3 A4].
  split; simpl; try done.
  - intros id. rewrite A2. destruct (Hd id) as [->|(i & -> & _ & _ & ->)]; [done|].
    by split; eauto.
  - intros id j Hj. destruct (Hd id) as [Heq|(i & Hi & _ & _ & Hm)]; [apply A3; congruence|].
    rewrite Hm in Hj. injection Hj as <-. exact (A3 _ _ Hi).
  - intros id j Hj. destruct (Hd id) as [Heq|(i & Hi & [Hlane _] & _ & Hm)].
    + rewrite Heq in Hj. eapply status_ok_mono; [apply Hex|eauto].
    + rewrite Hm in Hj. injection Hj as <-. unfold status_ok; simpl.
      exists (opened record). by rewrite lookup_insert_eq.
Qed.

Lemma inputs_ok_accepted s seq record s' :
  on_input_accepted s seq record = Ok s' -> extends s s' -> inputs_ok s -> inputs_ok s'.
Proof.
  unfold on_input_accepted. intros Hok Hex [A1 A2 A3 A4]. reducer_inv. split; simpl.
  - apply NoDup_app. split_and!; [done| |by apply NoDup_singleton].
    intros id Hin ->%list_elem_of_singleton. apply A2 in Hin as [? Hin]. congruence.
  - intros id. rewrite elem_of_app, list_elem_of_singleton, lookup_insert_is_Some', A2. naive_solver.
  - intros id j. rewrite lookup_insert_Some. intros [[<- <-]|[_ Hj]]; [|eauto]. simpl. eauto.
  - intros id j. rewrite lookup_insert_Some. intros [[<- <-]|[_ Hj]]; [done|].
    eapply status_ok_mono; [apply Hex|eauto].
Qed.

Lemma on_record_inputs_ok s i stored s' :
  on_record s i stored = Ok s' -> inputs_ok s -> inputs_ok s'.
Proof.
  intros Hok. pose proof (on_record_extends _ _ _ _ Hok) as Hex. revert Hok.
  unfold on_record. destruct (sr_record stored) eqn:Hrec.
  1: { intros Hok. by apply inputs_ok_started with record. }
  9: { intros Hok. by apply inputs_ok_accepted with (sr_seq stored) record. }
  all: unfold_record_handlers; intros; reducer_inv; try (by eapply inputs_ok_frame; [..|eassumption]).
  - by eapply inputs_ok_update.
  - eapply inputs_ok_update; try done. exists x. simpl. split_and!; try done.
    assert (status_ok s x1) as Hst by by eapply in_status_ok.
    unfold status_ok in Hst. rewrite Hok2 in Hst. destruct Hst as (op & Hop & Hlane). congruence.
Qed.

Lemma apply_mutation_inputs_ok s i m s' :
  state_lifecycle s -> inputs_ok s -> apply_mutation s i m = Ok s' -> inputs_ok s'.
Proof.
  intros HI Hin Hok. pose proof (apply_mutation_extends _ _ _ _ HI Hok) as Hex.
  destruct m as [e|r|[seq ts [lane base]]|f]; simpl in Hok.
  - apply on_entry_Ok in Hok as (_ & _ & _ & _ & requests & ops & -> & _).
    by eapply inputs_ok_frame; [..|exact Hin].
  - by eapply on_record_inputs_ok.
  - apply on_lane_created_Ok in Hok as (_ & _ & ->). by eapply inputs_ok_frame; [..|exact Hin].
  - assert (input_order s' = input_order s /\ input_states s' = input_states s) as [E1 E2].
    { clear Hex. revert Hok. unfold on_fact.
      destruct (sf_fact f); unfold_fact_handlers; intros; reducer_inv; done. }
    by eapply inputs_ok_frame; [..|exact Hin].
Qed.

Lemma reduce_all_inputs_ok header ms s : reduce_all header ms = Ok s -> inputs_ok s.
Proof.
  intros Hok. cut (state_lifecycle s /\ inputs_ok s); [by intros []|]. revert ms s Hok.
  apply reduce_all_invariant.
  - split; [apply initial_lifecycle|]. split; simpl.
    + constructor.
    + intros id. rewrite lookup_empty, elem_of_nil. split; [done|by intros []].
    + intros id i. by rewrite lookup_empty.
    + intros id i. by rewrite lookup_empty.
  - intros s index seq ready [H1 [A1 A2 A3 A4]]. split; [exact H1|by split].
  - intros s i m s' [H1 H2] Hok. split; [by eapply apply_mutation_lifecycle|].
    by eapply apply_mutation_inputs_ok.
Qed.

(** In every state the reducer reaches, accepted inputs are user messages under their own
    identity queued once; a dispatched input names an operation of its lane, and a settled one
    names a finished operation of its lane with the same outcome. *)
Theorem reduced_inputs_justified header ms s :
  reduce_all header ms = Ok s -> inputs_ok s.
Proof. apply reduce_all_inputs_ok. Qed.

(** Whether an identity is a pending input of the lane. *)
Definition pending_on (s : ReducerState) (lane : LaneId) (id : EntryId) : bool :=
  match lane_inputs s lane !! id with
  | Some i => input_is_pending i
  | None => false
  end.

Lemma lane_inputs_Some s lane id i :
  lane_inputs s lane !! id = Some i <->
  input_states s !! id = Some i /\ ai_lane_id (in_accepted i) = lane.
Proof. unfold lane_inputs. rewrite map_lookup_filter_Some. done. Qed.

Lemma pending_inputs_ids s lane order :
  inputs_ok s ->
  map (fun a => pe_id (ai_entry a)) (pending_inputs_of (lane_inputs s lane) order)
  = List.filter (pending_on s lane) order.
Proof.
  intros Hin. induction order as [|id order IH]; simpl; [done|]. unfold pending_on at 1.
  destruct (lane_inputs s lane !! id) as [i|] eqn:Hi; [|done].
  destruct (input_is_pending i); simpl; [|done]. rewrite IH. f_equal.
  apply lane_inputs_Some in Hi as [Hi _]. by apply (in_user _ Hin).
Qed.

Lemma elem_of_pending_inputs s lane order a :
  a ∈ pending_inputs_of (lane_inputs s lane) order <->
  exists id i, id ∈ order /\ input_states s !! id = Some i /\ ai_lane_id (in_accepted i) = lane /\
    in_status i = InputPending /\ in_accepted i = a.
Proof.
  unfold pending_inputs_of. rewrite list_elem_of_omap. split.
  - intros (id & Hid & Ha). destruct (lane_inputs s lane !! id) as [i|] eqn:Hi; [|done].
    destruct (input_is_pending i) eqn:Hp; [|done]. injection Ha as <-.
    apply lane_inputs_Some in Hi as [Hi Hl]. unfold input_is_pending in Hp. bool_inv.
    by exists id, i.
  - intros (id & i & Hid & Hi & Hl & Hp & <-). exists id. split; [done|].
    rewrite (proj2 (lane_inputs_Some s lane id i)) by done.
    unfold input_is_pending. by rewrite Hp.
Qed.

Lemma reduce_lane_prefix_state header last ms lane r :
  reduce_lane_prefix header last ms lane = Ok r ->
  exists s, reduce_all header ms = Ok s /\ finish_reduction s last lane = Ok r.
Proof. apply obind_Ok_inv. Qed.

Lemma finish_reduction_inputs s last lane r :
  finish_reduction s last lane = Ok r ->
  lr_input_reduction r =
    mk_input_reduction (pending_inputs_of (lane_inputs s lane) (input_order s)) (lane_inputs s lane).
Proof. unfold finish_reduction. intros Hok. by outcome_inv. Qed.

Lemma filter_sublist {A} (p : A -> bool) l : List.filter p l `sublist_of` l.
Proof. induction l as [|x l IH]; simpl; [done|]. destruct (p x); by constructor. Qed.

(** The pending inputs of a lane reduction are exactly the accepted inputs of that lane
    that are still pending, each once, in acceptance order. *)
Theorem pending_inputs_queue header last ms lane r :
  reduce_lane_prefix header last ms lane = Ok r ->
  exists s, reduce_all header ms = Ok s /\
    let pending := ir_pending_inputs (lr_input_reduction r) in
    let ids := map (fun a => pe_id (ai_entry a)) pending in
    NoDup ids /\ ids `sublist_of` input_order s /\
    forall a, a ∈ pending <-> exists i, input_states s !! pe_id (ai_entry a) = Some i /\
      in_accepted i = a /\ in_status i = InputPending /\ ai_lane_id a = lane.
Proof.
  intros (s & Hs & Hfin)%reduce_lane_prefix_state. exists s. split; [done|].
  pose proof (reduce_all_inputs_ok _ _ _ Hs) as Hin.
  rewrite (finish_reduction_inputs _ _ _ _ Hfin). simpl.
  rewrite pending_inputs_ids by done. split_and!.
  - eapply sublist_NoDup; [apply Hin|apply filter_sublist].
  - apply filter_sublist.
  - intros a. rewrite elem_of_pending_inputs. split.
    + intros (id & i & _ & Hi & Hl & Hp & <-). destruct (in_user _ Hin _ _ Hi) as [-> _]. eauto.
    + intros (i & Hi & <- & Hp & Hl). eexists _, i. split_and!; [|exact Hi|done..].
      apply (in_known _ Hin). by eexists.
Qed.
End history.
