(* ===== verification/Effects.v ===== *)
(** * External effects, checkpoints and forks

    Provider requests, settlements, request material and tool intents are
    attributed to existing epochs, steps and assistant calls and are unique;
    a turn checkpoint is only ever recorded for an operation whose effects
    are all settled, and stays so; a forked lane sees exactly the extension
    state of its checkpoint until it writes its own. *)

From stdpp Require Import base gmap sets list strings sorting.
From S2P Require Import Prelude RustStr Json Ids Decimal Model Records Snapshot Reduction.
From S2P Require Import ReductionInv ReductionOps ReductionHistory.

(** ** Attribution of effects *)

(** The assistant call a tool intent executes. *)
Definition names_call (es : gmap EntryId StoredEntry) (t : ToolStartedRecord) : Prop :=
  exists e m c, es !! ts_assistant_entry_id t = Some e /\ se_body e = AssistantMessage m /\
    am_tool_calls m !! N.to_nat (ts_tool_index t) = Some c /\
    tc_id c = ts_tool_call_id t /\ tc_name c = ts_tool_name t.

Record effects_ok (s : ReducerState) : Prop := {
  ef_steps : forall sid o e k, steps s !! sid = Some (o, e, k) -> epochs s !! e = Some o;
  ef_starts : forall k r, provider_starts s !! k = Some r ->
    prs_request_id r = k /\ epochs s !! prs_epoch_id r = Some (prs_operation_id r) /\
    exists kind, steps s !! prs_step_id r = Some (prs_operation_id r, prs_epoch_id r, kind);
  ef_settled : forall k, is_Some (provider_settled s !! k) -> is_Some (provider_starts s !! k);
  ef_material : forall k, k ∈ provider_material s -> is_Some (provider_starts s !! k);
  ef_tools : forall q t, (q, t) ∈ tool_starts s ->
    epochs s !! ts_epoch_id t = Some (ts_operation_id t) /\ names_call (entries s) t;
  ef_results : NoDup (map (fun x => ts_result_entry_id x.2) (tool_starts s));
  ef_calls : NoDup (map (fun x => (ts_assistant_entry_id x.2, ts_tool_index x.2)) (tool_starts s));
}.

Lemma validate_tool_started_Ok t es prior :
  validate_tool_started t es prior = Ok () ->
  names_call es t /\
  (forall x, x ∈ prior -> ts_result_entry_id x.2 <> ts_result_entry_id t) /\
  (forall x, x ∈ prior -> (ts_assistant_entry_id x.2, ts_tool_index x.2)
     <> (ts_assistant_entry_id t, ts_tool_index t)).
Proof.
  unfold validate_tool_started. intros Hok. reducer_inv. split_and!.
  - eexists _, _, _. split_and!; done.
  - intros [q p] Hx. match goal with Hr : existsb _ prior = false |- _ =>
      apply (proj1 (existsb_false_elem _ _) Hr) in Hx end. bool_inv. done.
  - intros [q p] Hx [= Ha Hi]. match goal with Hr : existsb (fun '(_, _) => _ && _) prior = false |- _ =>
      apply (proj1 (existsb_false_elem _ _) Hr) in Hx end.
    rewrite andb_false_iff in Hx. destruct Hx; bool_inv; done.
Qed.

Lemma names_call_mono es es' t : es ⊆ es' -> names_call es t -> names_call es' t.
Proof.
  intros Hsub (e & m & c & He & Hrest). exists e, m, c.
  split; [by eapply lookup_weaken|done].
Qed.

Lemma effects_frame s s' :
  steps s' = steps s -> provider_starts s' = provider_starts s ->
  provider_settled s' = provider_settled s -> provider_material s' = provider_material s ->
  tool_starts s' = tool_starts s -> extends s s' -> effects_ok s -> effects_ok s'.
Proof.
  intros E1 E2 E3 E4 E5 Hex [A1 A2 A3 A4 A5 A6 A7].
  pose proof (ex_epochs _ _ Hex) as Hep. pose proof (ex_entries _ _ Hex) as Hen.
  split; rewrite ?E1, ?E2, ?E3, ?E4, ?E5; try done.
  - intros. eapply lookup_weaken; eauto.
  - intros k r (? & ? & ?)%A2. split_and!; [done|by eapply lookup_weaken|done].
  - intros q t [Ht Hn]%A5. split; [by eapply lookup_weaken|by eapply names_call_mono].
Qed.

Section preservation.
Context `{Miniserde} `{Blake3}.

Lemma effects_step_attempted s record s' :
  on_step_attempted s record = Ok s' -> effects_ok s -> effects_ok s'.
Proof.
  unfold on_step_attempted. intros Hok [A1 A2 A3 A4 A5 A6 A7].
  assert (epochs s !! sa_epoch_id record = Some (sa_operation_id record) /\
    steps s !! sa_id record = None /\
    exists m, s' = s <| steps ::= <[sa_id record :=
      (sa_operation_id record, sa_epoch_id record, sa_kind record)]> |> <| step_attempts := m |>)
    as (Hep & Hnew & m & ->).
  { reducer_inv; (split_and!; [done|done|by eexists]). }
  split; simpl; try done.
  - intros sid o e k. rewrite lookup_insert_Some. intros [[_ [= <- <- <-]]|[_ Hk]]; eauto.
  - intros k r (? & ? & kind & Hk)%A2. split_and!; [done..|]. exists kind.
    rewrite lookup_insert_ne by congruence. done.
Qed.

Lemma on_record_effects s i stored s' :
  extends s s' -> on_record s i stored = Ok s' -> effects_ok s -> effects_ok s'.
Proof.
  intros Hex. unfold on_record. destruct (sr_record stored) eqn:Hr; intros Hok Heff.
  1: { apply on_operation_started_Ok in Hok as (_ & _ & _ & ? & ? & _ & ->).
       by eapply effects_frame; [..|exact Heff]. }
  5: { by eapply effects_step_attempted. }
  all: revert Hok; unfold_record_handlers; intros Hok; reducer_inv;
    try (by eapply effects_frame; [..|exact Heff]); destruct Heff as [A1 A2 A3 A4 A5 A6 A7].
  - (* ProviderRequestStarted *)
    bool_inv. simplify_eq. split; simpl; try done.
    + intros k r'. rewrite lookup_insert_Some. intros [[<- <-]|[_ Hk]]; [|eauto].
      split_and!; [done|done|].
      destruct (steps s !! prs_step_id record) as [[[o e] kind]|] eqn:Hstep; [|done].
      exists kind. bool_inv. by subst.
    + intros k Hk%A3. rewrite lookup_insert_is_Some'. auto.
    + intros k Hk%A4. rewrite lookup_insert_is_Some'. auto.
  - (* ProviderRequestSettled *)
    split; simpl; try done.
    intros k. rewrite lookup_insert_is_Some'. intros [<-|Hk]; eauto.
  - (* ToolStarted *)
    match goal with Hv : validate_tool_started _ _ _ = Ok _ |- _ =>
      apply validate_tool_started_Ok in Hv as (Hcall & Hres & Hpos) end.
    split; simpl; try done.
    + intros q t. rewrite elem_of_app, list_elem_of_singleton. intros [Ht|[= -> ->]]; eauto.
    + rewrite map_app. apply NoDup_app. split_and!; [done| |apply NoDup_singleton].
      intros z (y & -> & Hy)%list_elem_of_fmap Hz%list_elem_of_singleton. by eapply Hres.
    + rewrite map_app. apply NoDup_app. split_and!; [done| |apply NoDup_singleton].
      intros z (y & -> & Hy)%list_elem_of_fmap Hz%list_elem_of_singleton. by eapply Hpos.
Qed.

Lemma apply_mutation_effects s i m s' :
  state_lifecycle s -> effects_ok s -> apply_mutation s i m = Ok s' -> effects_ok s'.
Proof.
  intros HI Heff Hok. pose proof (apply_mutation_extends _ _ _ _ HI Hok) as Hex.
  destruct m as [e|r|[seq ts [lane base]]|f]; simpl in Hok.
  - apply on_entry_Ok in Hok as (_ & _ & _ & _ & requests & ops & -> & _).
    by eapply effects_frame; [..|exact Heff].
  - by eapply on_record_effects.
  - apply on_lane_created_Ok in Hok as (_ & _ & ->). by eapply effects_frame; [..|exact Heff].
  - revert Hok. unfold on_fact.
    destruct (sf_fact f); unfold_fact_handlers; intros; reducer_inv;
      try (by eapply effects_frame; [..|exact Heff]).
    destruct Heff as [A1 A2 A3 A4 A5 A6 A7]. split; simpl; try done.
    intros k. rewrite elem_of_union, elem_of_singleton. intros [->|]; eauto.
Qed.

Lemma reduce_all_effects header ms s : reduce_all header ms = Ok s -> effects_ok s.
Proof.
  intros Hok. cut (state_lifecycle s /\ effects_ok s); [by intros []|]. revert ms s Hok.
  apply reduce_all_invariant.
  - split; [apply initial_lifecycle|].
    split; simpl; try (intros *; rewrite lookup_empty); try done; try constructor; try set_solver.
  - intros s index seq ready [H1 [A1 A2 A3 A4 A5 A6 A7]]. split; [exact H1|by split].
  - intros s i m s' [H1 H2] Hok. split; [by eapply apply_mutation_lifecycle|].
    by eapply apply_mutation_effects.
Qed.

(** In every state the reducer reaches, steps and provider requests name the epoch and
    operation that own them, settlements and request material refer to started requests, and
    each tool intent names an assistant call at its ordinal with the call's identity and name,
    no two intents sharing a call position or a result entry. *)
Theorem reduced_effects_attributed header ms s :
  reduce_all header ms = Ok s -> effects_ok s.
Proof. apply reduce_all_effects. Qed.

(** ** Turn checkpoints *)

(** Nothing the operation started is outstanding. *)
Definition tools_settled (s : ReducerState) (id : OperationId) : Prop :=
  forall q t, (q, t) ∈ tool_starts s -> ts_operation_id t = id ->
    is_Some (entries s !! ts_result_entry_id t).
Definition providers_settled (s : ReducerState) (id : OperationId) : Prop :=
  forall k r, provider_starts s !! k = Some r -> prs_operation_id r = id ->
    is_Some (provider_settled s !! prs_request_id r).
Definition controls_settled (s : ReducerState) (id : OperationId) : Prop :=
  forall k c, extension_controls s !! k = Some c -> xe_operation_id (pc_control c) <> id.

Record checkpoint_settled (s : ReducerState) (f : TurnCheckpointFact) : Prop := {
  cp_operation : exists op, operations s !! tcf_operation_id f = Some op /\
    op_finished op = true /\ op_lane_id op = tcf_lane_id f;
  cp_leaf : forall e, tcf_leaf_id f = Some e -> is_Some (entries s !! e);
  cp_tools : tools_settled s (tcf_operation_id f);
  cp_providers : providers_settled s (tcf_operation_id f);
  cp_controls : controls_settled s (tcf_operation_id f);
}.

Definition checkpoints_ok (s : ReducerState) : Prop :=
  forall cid f, checkpoints s !! cid = Some f -> tcf_checkpoint_id f = cid /\ checkpoint_settled s f.

Definition is_open (s : ReducerState) (id : OperationId) : Prop :=
  exists op, operations s !! id = Some op /\ op_finished op = false.

(** New work is only ever started by an open operation. *)
Record new_work (s s' : ReducerState) : Prop := {
  nw_tools : forall q t, (q, t) ∈ tool_starts s' ->
    (q, t) ∈ tool_starts s \/ is_open s (ts_operation_id t);
  nw_providers : forall k r, provider_starts s' !! k = Some r ->
    provider_starts s !! k = Some r \/ is_open s (prs_operation_id r);
  nw_controls : forall k c, extension_controls s' !! k = Some c ->
    extension_controls s !! k = Some c \/ is_open s (xe_operation_id (pc_control c));
}.

Lemma on_record_new_work s i stored s' : on_record s i stored = Ok s' -> new_work s s'.
Proof.
  unfold on_record. destruct (sr_record stored).
  1: { intros (_ & _ & _ & ? & ? & _ & ->)%on_operation_started_Ok. split; simpl; auto. }
  all: unfold_record_handlers; intros; reducer_inv; split; simpl; try (by auto).
  - intros k r. rewrite lookup_insert_Some. intros [[<- <-]|[_ Hk]]; [right; by eexists|by left].
  - intros q t. rewrite elem_of_app, list_elem_of_singleton.
    intros [Ht|[= -> ->]]; [by left|right; by eexists].
  - intros k c. rewrite lookup_insert_Some. intros [[<- <-]|[_ Hk]]; [right; by eexists|by left].
  - intros k c. rewrite lookup_delete_Some. intros [_ Hk]. by left.
Qed.

Lemma apply_mutation_new_work s i m s' : apply_mutation s i m = Ok s' -> new_work s s'.
Proof.
  destruct m as [e|r|[seq ts [lane base]]|f]; simpl.
  - intros (_ & _ & _ & _ & requests & ops & -> & _)%on_entry_Ok. split; simpl; auto.
  - apply on_record_new_work.
  - intros (_ & _ & ->)%on_lane_created_Ok. split; simpl; auto.
  - unfold on_fact. destruct (sf_fact f); unfold_fact_handlers; intros; reducer_inv;
      split; simpl; auto.
Qed.

(** A settled checkpoint stays settled: its operation is finished. *)
Lemma checkpoint_settled_mono s s' f :
  extends s s' -> new_work s s' -> checkpoint_settled s f -> checkpoint_settled s' f.
Proof.
  intros Hex [N1 N2 N3] [(op & Hop & Hf & Hl) B2 B3 B4 B5].
  assert (~ is_open s (tcf_operation_id f)) as Hclosed.
  { intros (op' & Hop' & Hf'). congruence. }
  split.
  - destruct (ex_operations _ _ Hex _ _ Hop) as (op' & Hop' & _ & _ & _ & _ & Heq).
    rewrite (Heq Hf) in Hop'. eauto.
  - intros e [x He]%B2. exists x. eapply lookup_weaken; [done|apply Hex].
  - intros q t Ht Hid. destruct (N1 q t Ht) as [Hold|Hopen]; [|by rewrite Hid in Hopen].
    destruct (B3 q t Hold Hid) as [x Hx]. exists x. eapply lookup_weaken; [done|apply Hex].
  - intros k r Hr Hid. destruct (N2 k r Hr) as [Hold|Hopen]; [|by rewrite Hid in Hopen].
    destruct (B4 k r Hold Hid) as [x Hx]. exists x. eapply lookup_weaken; [done|apply Hex].
  - intros k c Hc Hid. destruct (N3 k c Hc) as [Hold|Hopen]; [by eapply B5|by rewrite Hid in Hopen].
Qed.

Lemma unresolved_work_false s id :
  has_unresolved_work s id = false ->
  tools_settled s id /\ providers_settled s id /\ controls_settled s id /\
  forall agent seq, child_spawns s !! agent = Some (id, seq) -> agent ∈ child_terminal s.
Proof.
  unfold has_unresolved_work. intros Hw. bool_inv.
  repeat match goal with Hx : existsb _ _ = false |- _ => rewrite existsb_false_elem in Hx end.
  split_and!.
  - intros q t Ht <-. match goal with Hx : forall x, x ∈ tool_starts s -> _ |- _ => apply Hx in Ht end.
    apply andb_false_iff in Ht as [Ht|Ht]; bool_inv; done.
  - intros k r Hk <-. assert (r ∈ btree_values (provider_starts s)) as Hr
      by (apply elem_of_btree_values; eauto).
    match goal with Hx : forall x, x ∈ btree_values (provider_starts s) -> _ |- _ => apply Hx in Hr end.
    apply andb_false_iff in Hr as [Hr|Hr]; bool_inv; done.
  - intros k c Hk. assert (c ∈ btree_values (extension_controls s)) as Hc
      by (apply elem_of_btree_values; eauto).
    match goal with Hx : forall x, x ∈ btree_values (extension_controls s) -> _ |- _ =>
      apply Hx in Hc end. by bool_inv.
  - intros agent seq Hk. apply elem_of_btree_iter in Hk.
    match goal with Hx : forall x, x ∈ btree_iter (child_spawns s) -> _ |- _ => apply Hx in Hk end.
    apply andb_false_iff in Hk as [Hk|Hk]; bool_inv; done.
Qed.

Lemma on_turn_checkpoint_Ok s f s' :
  state_forest s -> on_turn_checkpoint s f = Ok s' ->
  checkpoints s !! tcf_checkpoint_id f = None /\ checkpoint_settled s f /\
  default None (lane_leaves s !! tcf_lane_id f) = tcf_leaf_id f /\
  (forall agent seq, child_spawns s !! agent = Some (tcf_operation_id f, seq) ->
     agent ∈ child_terminal s) /\
  s' = s <| checkpoints ::= <[tcf_checkpoint_id f := f]> |> <| checkpoint_ready_for := None |>.
Proof.
  intros Hforest. unfold on_turn_checkpoint. intros Hok. reducer_inv.
  match goal with Hw : has_unresolved_work _ _ = false |- _ =>
    apply unresolved_work_false in Hw as (W1 & W2 & W3 & W4) end.
  split_and!; try done. split; try done; [by eexists|].
  intros e He. destruct (lane_leaves s !! tcf_lane_id f) as [[l|]|] eqn:Hl; simpl in *; try congruence.
  eapply forest_leaf; [done|]. rewrite Hl. congruence.
Qed.

Lemma apply_mutation_checkpoints s i m s' :
  state_lifecycle s -> state_forest s -> checkpoints_ok s -> apply_mutation s i m = Ok s' ->
  checkpoints_ok s'.
Proof.
  intros HI Hforest Hcp Hok. pose proof (apply_mutation_extends _ _ _ _ HI Hok) as Hex.
  pose proof (apply_mutation_new_work _ _ _ _ Hok) as Hnw. intros cid f Hf.
  assert (checkpoints s !! cid = Some f \/ tcf_checkpoint_id f = cid /\ checkpoint_settled s f)
    as [Hold|[Hid Hnew]]; [| |by split; [|eapply checkpoint_settled_mono]].
  - clear Hex Hnw. destruct m as [e|r|[seq ts [lane base]]|fact]; simpl in Hok.
    + apply on_entry_Ok in Hok as (_ & _ & _ & _ & requests & ops & -> & _). by left.
    + left. revert Hok Hf. unfold on_record. destruct (sr_record r).
      1: { by intros (_ & _ & _ & ? & ? & _ & ->)%on_operation_started_Ok. }
      all: unfold_record_handlers; intros; reducer_inv; done.
    + apply on_lane_created_Ok in Hok as (_ & _ & ->). by left.
    + revert Hok. unfold on_fact. destruct (sf_fact fact) eqn:Hfact.
      11: { intros (_ & Hs & _ & _ & ->)%on_turn_checkpoint_Ok; [|done]. simpl in Hf.
            apply lookup_insert_Some in Hf as [[<- <-]|[_ Hf]]; [by right|by left]. }
      all: unfold_fact_handlers; intros; reducer_inv; by left.
  - destruct (Hcp _ _ Hold) as [Hid Hs]. split; [done|]. by eapply checkpoint_settled_mono.
Qed.

Lemma reduce_all_checkpoints header ms s : reduce_all header ms = Ok s -> checkpoints_ok s.
Proof.
  intros Hok. cut (state_lifecycle s /\ state_forest s /\ checkpoints_ok s); [by intros (_ & _ & ?)|].
  revert ms s Hok. apply reduce_all_invariant.
  - split_and!; [apply initial_lifecycle|apply initial_forest|].
    intros cid f. simpl. by rewrite lookup_empty.
  - intros s index seq ready (H1 & H2 & H3). split_and!; [exact H1|exact H2|].
    intros cid f Hf. destruct (H3 cid f Hf) as [Hid []]. split; [done|by split].
  - intros s i m s' (H1 & H2 & H3) Hok. split_and!.
    + by eapply apply_mutation_lifecycle.
    + by eapply apply_mutation_forest.
    + by eapply apply_mutation_checkpoints.
Qed.

(** C4: Every recorded turn checkpoint names a finished operation of its lane and an existing
    leaf, and in every later state that operation still has no tool intent without a result, no
    unsettled provider request and no waiting extension control. *)
Theorem checkpoints_stay_settled header ms s cid f :
  reduce_all header ms = Ok s -> checkpoints s !! cid = Some f ->
  tcf_checkpoint_id f = cid /\ checkpoint_settled s f.
Proof. intros Hs. by apply (reduce_all_checkpoints _ _ _ Hs). Qed.

(** ** Forked lanes *)

Definition lanes_known (s : ReducerState) : Prop :=
  forall lane, lane ∈ fresh_lanes s \/ lane ∈ forked_lanes s -> is_Some (lane_leaves s !! lane).

Lemma on_entry_lanes s stored s' :
  on_entry s stored = Ok s' -> lanes_known s -> lanes_known s'.
Proof.
  intros (_ & _ & _ & _ & requests & ops & -> & _)%on_entry_Ok Hk lane Hl. simpl in *.
  rewrite lookup_insert_is_Some'. right. apply Hk. set_solver.
Qed.

Lemma apply_mutation_lanes s i m s' :
  lanes_known s -> apply_mutation s i m = Ok s' -> lanes_known s'.
Proof.
  destruct m as [e|r|[seq ts [lane0 base]]|f]; simpl; intros Hk Hok.
  - by eapply on_entry_lanes.
  - pose proof (on_record_frame _ _ _ _ Hok) as [El _]. intros lane Hl. rewrite El. apply Hk.
    revert Hok. unfold on_record. destruct (sr_record r).
    1: { intros (_ & _ & _ & ? & ? & _ & ->)%on_operation_started_Ok. simpl in *. set_solver. }
    all: unfold_record_handlers; intros; reducer_inv; set_solver.
  - apply on_lane_created_Ok in Hok as (_ & _ & ->). intros lane Hl. simpl in *.
    rewrite lookup_insert_is_Some'. destruct (decide (lane0 = lane)); [by left|].
    right. apply Hk. set_solver.
  - pose proof (on_fact_frame _ _ _ Hok) as [El _]. intros lane Hl. rewrite El. apply Hk.
    revert Hok. unfold on_fact. destruct (sf_fact f); unfold_fact_handlers; intros; reducer_inv;
      set_solver.
Qed.

Lemma reduce_all_lanes header ms s : reduce_all header ms = Ok s -> lanes_known s.
Proof.
  apply reduce_all_invariant; [|done|exact apply_mutation_lanes].
  intros lane. simpl. set_solver.
Qed.

(** The mutation writes extension state of the lane. *)
Definition writes_extension (lane : LaneId) (m : SessionMutation) : bool :=
  match m with
  | MutFact stored =>
      match sf_fact stored with
      | ExtensionStateValueSet fact => xs_lane_id fact ==? lane
      | _ => false
      end
  | _ => false
  end.

Lemma apply_mutation_isolated s i m s' lane :
  lane ∈ forked_lanes s -> is_Some (lane_leaves s !! lane) ->
  writes_extension lane m = false -> apply_mutation s i m = Ok s' ->
  lane ∈ forked_lanes s' /\ extension_state s' !! lane = extension_state s !! lane.
Proof.
  intros Hf [leaf Hleaf] Hw Hok. destruct m as [e|r|[seq ts [lane0 base]]|f]; simpl in *.
  - by apply on_entry_Ok in Hok as (_ & _ & _ & _ & requests & ops & -> & _).
  - revert Hok. unfold on_record. destruct (sr_record r).
    1: { by intros (_ & _ & _ & ? & ? & _ & ->)%on_operation_started_Ok. }
    all: unfold_record_handlers; intros; reducer_inv; done.
  - apply on_lane_created_Ok in Hok as (Hnew & _ & ->). simpl.
    rewrite lookup_insert_ne by congruence. done.
  - revert Hok. unfold on_fact.
    destruct (sf_fact f); unfold_fact_handlers; intros; reducer_inv; try done.
    + by rewrite lookup_insert_ne by done.
    + rewrite lookup_insert_ne; [set_solver|]. intros Heq. rewrite Heq in *. done.
Qed.

Lemma reduce_fold_isolated lane ms : forall s s',
  lane ∈ forked_lanes s -> is_Some (lane_leaves s !! lane) -> state_lifecycle s ->
  Forall (fun m => writes_extension lane (smu_mutation m) = false) ms ->
  ofold reduce_step s ms = Ok s' -> extension_state s' !! lane = extension_state s !! lane.
Proof.
  induction ms as [|m ms IH]; intros s s' Hf Hl HI Hw; simpl; [by intros [= <-]|].
  inversion_clear Hw as [|? ? Hm Hms]. intros (t & Ht & Hrest)%obind_Ok_inv.
  pose proof (reduce_step_extends _ _ _ HI Ht) as Hex.
  apply reduce_step_Ok in Ht as (_ & ready & _ & Ht).
  eapply (apply_mutation_isolated _ _ _ _ lane) in Ht as Hiso; [|done..].
  destruct Hiso as [Hf' Heq].
  etrans; [eapply IH|exact Heq]; [done|by eapply ex_lanes| |done|done].
  by eapply apply_mutation_lifecycle; [|exact Ht].
Qed.

(** A lane forked from a checkpoint has exactly the extension state captured by that
    checkpoint, whatever is committed afterwards on other lanes, until a fact writes extension
    state on the forked lane itself. *)
Theorem forked_lane_isolated header ms1 fork stored fact ms2 s :
  reduce_all header (ms1 ++ fork :: ms2) = Ok s ->
  smu_mutation fork = MutFact stored -> sf_fact stored = ForkedLane fact ->
  Forall (fun m => writes_extension (fl_lane_id fact) (smu_mutation m) = false) ms2 ->
  exists s1 checkpoint, reduce_all header ms1 = Ok s1 /\
    checkpoints s1 !! fl_checkpoint_id fact = Some checkpoint /\
    fl_base_leaf_id fact = tcf_leaf_id checkpoint /\
    extension_state s !! fl_lane_id fact = Some (tcf_extension_state checkpoint).
Proof.
  unfold reduce_all. rewrite ofold_app. intros (s1 & Hs1 & Hrest)%obind_Ok_inv Hm Hfact Hw.
  simpl in Hrest. apply obind_Ok_inv in Hrest as (t & Ht & Hrest).
  assert (state_lifecycle t) as HIt.
  { eapply (reduce_step_invariant state_lifecycle); [done| | |exact Ht].
    - exact apply_mutation_lifecycle.
    - by eapply reduce_all_lifecycle. }
  pose proof (reduce_all_lanes header ms1 s1 Hs1) as Hlanes.
  apply reduce_step_Ok in Ht as (_ & ready & _ & Ht). rewrite Hm in Ht. simpl in Ht.
  unfold on_fact in Ht. rewrite Hfact in Ht. unfold on_forked_lane in Ht. reducer_inv.
  exists s1, x. split_and!; try done.
  erewrite (reduce_fold_isolated (fl_lane_id fact) ms2 _ s); [|..|exact Hrest]; simpl.
  - by rewrite lookup_insert_eq.
  - set_solver.
  - apply Hlanes. by left.
  - done.
  - done.
Qed.
End preservation.
