(* ===== verification/Recovery.v ===== *)
(** * Recovery planning

    The single next action [derive_recovery_plan] picks is justified by the
    reduced state: effects whose outcome is unknown are reconciled and never
    replayed unless they were declared replay-safe, provider requests are
    reported by what storage proves about them, and every later kind of
    action is chosen only when nothing of an earlier kind is outstanding. *)

From stdpp Require Import base gmap sets list strings sorting.
From S2P Require Import Prelude RustStr Json Ids Decimal Model Records Snapshot Reduction.
From S2P Require Import ReductionInv ReductionOps ReductionHistory Effects.

Section plan.
Context (s : ReducerState) (id : OperationId) (op : OperationState).

(** What is outstanding for the operation, in the planner's order. *)
Definition inputs_materialised : Prop :=
  forall p, p ∈ op_original_input op -> is_Some (entries s !! pe_id p).
Definition activations_resolved : Prop :=
  forall a, a ∈ activation_requests s -> ha_operation_id a = id ->
    is_Some (entries s !! ha_revision_entry_id a) \/ op_open_epochs op <> ∅.
Definition tool_paths_done : Prop := forall e, e ∈ op_entry_ids op -> needs_tool_path s e = false.

(** When each action may be chosen. *)
Definition plan_justified (p : RecoveryPlan) : Prop :=
  match p with
  | AppendAcceptedInput oid missing =>
      oid = id /\ missing <> [] /\
      missing = List.filter (fun e => negb (has (pe_id e) (entries s))) (op_original_input op)
  | ReconcileToolEffect result =>
      inputs_materialised /\ entries s !! result = None /\
      exists q t, (q, t) ∈ tool_starts s /\ ts_operation_id t = id /\ ts_result_entry_id t = result
        /\ ts_replay_policy_at_start t = ReplayNever
  | ReplayToolIfStillSafe t =>
      inputs_materialised /\ entries s !! ts_result_entry_id t = None /\
      (exists q, (q, t) ∈ tool_starts s) /\ ts_operation_id t = id /\
      ts_replay_policy_at_start t = ReplaySafe
  | ReconcileProviderRequest rid =>
      inputs_materialised /\ tools_settled s id /\ provider_settled s !! rid = None /\
      rid ∈ provider_material s /\
      exists k r, provider_starts s !! k = Some r /\ prs_request_id r = rid /\ prs_operation_id r = id
  | ProviderRequestNotAdmitted rid =>
      inputs_materialised /\ tools_settled s id /\ provider_settled s !! rid = None /\
      (rid ∉ provider_material s) /\
      exists k r, provider_starts s !! k = Some r /\ prs_request_id r = rid /\ prs_operation_id r = id
  | ActivateHarness a =>
      inputs_materialised /\ tools_settled s id /\ providers_settled s id /\ op_open_epochs op = ∅ /\
      a ∈ activation_requests s /\ ha_operation_id a = id /\
      entries s !! ha_revision_entry_id a = None
  | ResumeAssistantToolPath e =>
      inputs_materialised /\ tools_settled s id /\ providers_settled s id /\ activations_resolved /\
      e ∈ op_entry_ids op /\ needs_tool_path s e = true
  | StartEpoch oid =>
      oid = id /\ inputs_materialised /\ tools_settled s id /\ providers_settled s id /\
      activations_resolved /\ tool_paths_done /\ (op_epoch_ids op = [] \/ op_open_epochs op = ∅)
  | ResumeOperation oid =>
      oid = id /\ inputs_materialised /\ tools_settled s id /\ providers_settled s id /\
      activations_resolved /\ tool_paths_done /\ op_open_epochs op <> ∅
  end.

Lemma plan_missing_input_cases :
  match plan_missing_input s id op with
  | Some p => plan_justified p
  | None => inputs_materialised
  end.
Proof.
  unfold plan_missing_input.
  destruct (List.filter _ (op_original_input op)) as [|p l] eqn:Hf; simpl; [|by rewrite Hf].
  intros p Hp. destruct (has (pe_id p) (entries s)) eqn:Hh; bool_inv; [done|].
  assert (p ∈ List.filter (fun e => negb (has (pe_id e) (entries s))) (op_original_input op)) as Hin.
  { apply filter_elem. split; [done|]. by rewrite (proj2 (has_false _ _) Hh). }
  rewrite Hf in Hin. by apply not_elem_of_nil in Hin.
Qed.

Lemma find_none_elem {A} (f : A -> bool) l : List.find f l = None -> forall x, x ∈ l -> f x = false.
Proof. intros Hf x Hx. by apply (find_none f l Hf), list_elem_of_In. Qed.

Lemma plan_tool_cases :
  inputs_materialised ->
  match plan_tool s id with
  | Some p => plan_justified p
  | None => tools_settled s id
  end.
Proof.
  intros Hin. unfold plan_tool. destruct (List.find _ (tool_starts s)) as [[q t]|] eqn:Hf.
  - apply find_elem in Hf as [Ht Hb]. bool_inv.
    destruct (ts_replay_policy_at_start t) eqn:Hp; simpl; eauto 10.
  - intros q t Ht Hop. apply (find_none_elem _ _ Hf) in Ht.
    apply andb_false_iff in Ht as [Ht|Ht]; bool_inv; done.
Qed.

Lemma plan_provider_cases :
  inputs_materialised -> tools_settled s id ->
  match plan_provider s id with
  | Some p => plan_justified p
  | None => providers_settled s id
  end.
Proof.
  intros Hin Ht. unfold plan_provider.
  destruct (List.find _ (btree_values (provider_starts s))) as [r|] eqn:Hf.
  - apply find_elem in Hf as [Hr Hb]. bool_inv. apply elem_of_btree_values in Hr as [k Hk].
    destruct (mem (prs_request_id r) (provider_material s)) eqn:Hm; bool_inv; simpl; eauto 10.
  - intros k r Hk Hop. assert (r ∈ btree_values (provider_starts s)) as Hr
      by (apply elem_of_btree_values; eauto).
    apply (find_none_elem _ _ Hf) in Hr. apply andb_false_iff in Hr as [Hr|Hr]; bool_inv; done.
Qed.

Lemma plan_activation_cases :
  inputs_materialised -> tools_settled s id -> providers_settled s id ->
  match plan_activation s id op with
  | Some p => plan_justified p
  | None => activations_resolved
  end.
Proof.
  intros Hin Ht Hp. unfold plan_activation.
  destruct (List.find _ (activation_requests s)) as [a|] eqn:Hf; simpl.
  - apply find_elem in Hf as [Ha Hb]. bool_inv. done.
  - intros a Ha Hop. apply (find_none_elem _ _ Hf) in Ha.
    apply andb_false_iff in Ha as [Ha|Ha]; [apply andb_false_iff in Ha as [Ha|Ha]|]; bool_inv; auto.
Qed.

Lemma plan_tool_path_cases :
  inputs_materialised -> tools_settled s id -> providers_settled s id -> activations_resolved ->
  match plan_tool_path s op with
  | Some p => plan_justified p
  | None => tool_paths_done
  end.
Proof.
  intros Hin Ht Hp Ha. unfold plan_tool_path.
  destruct (List.find _ (reverse (op_entry_ids op))) as [e|] eqn:Hf; simpl.
  - apply find_elem in Hf as [He Hb]. rewrite elem_of_reverse in He. done.
  - intros e He. apply (find_none_elem _ _ Hf). by rewrite elem_of_reverse.
Qed.

Lemma derive_recovery_plan_justified :
  operations s !! id = Some op ->
  exists p, derive_recovery_plan s (Some id) = Ok (Some p) /\ plan_justified p.
Proof.
  intros Hop. unfold derive_recovery_plan. rewrite Hop. simpl.
  pose proof plan_missing_input_cases as H1. destruct (plan_missing_input s id op); simpl; [eauto|].
  pose proof (plan_tool_cases H1) as H2. destruct (plan_tool s id); simpl; [eauto|].
  pose proof (plan_provider_cases H1 H2) as H3. destruct (plan_provider s id); simpl; [eauto|].
  pose proof (plan_activation_cases H1 H2 H3) as H4.
  destruct (plan_activation s id op); simpl; [eauto|].
  pose proof (plan_tool_path_cases H1 H2 H3 H4) as H5. destruct (plan_tool_path s op); simpl; [eauto|].
  eexists; split; [done|]. unfold plan_epoch.
  destruct ((op_epoch_ids op ==? []) || (op_open_epochs op ==? ∅)) eqn:He; simpl.
  - split_and!; try done. apply orb_true_iff in He as [He|He]; bool_inv; auto.
  - bool_inv. by split_and!.
Qed.
End plan.

Section theorems.
Context `{Miniserde} `{Blake3}.

Lemma finish_reduction_plan s last lane r :
  finish_reduction s last lane = Ok r ->
  lr_lane_state r = mk_lane_state lane (default None (lane_leaves s !! lane))
    (match active_operations s !! lane with Some _ => LaneRunning | None => LaneIdle end)
    (active_operations s !! lane) (ec_harness_revision (lr_effective_configuration r)) /\
  derive_recovery_plan s (active_operations s !! lane) = Ok (lr_recovery_plan r) /\
  lane_leaves s !! lane = Some (ls_leaf_id (lr_lane_state r)).
Proof.
  unfold finish_reduction. intros Hok. outcome_inv. simpl.
  match goal with Hl : lane_leaves s !! lane = _ |- _ => rewrite Hl end. done.
Qed.

(** A lane reduction has a recovery action and an active operation exactly when it reports
    the lane as running; an idle lane has neither. *)
Theorem recovery_plan_iff_running header last ms lane r :
  reduce_lane_prefix header last ms lane = Ok r ->
  (ls_status (lr_lane_state r) = LaneIdle /\ ls_active_operation (lr_lane_state r) = None
     /\ lr_recovery_plan r = None) \/
  (ls_status (lr_lane_state r) = LaneRunning /\ is_Some (ls_active_operation (lr_lane_state r))
     /\ is_Some (lr_recovery_plan r)).
Proof.
  intros (s & Hs & Hfin)%reduce_lane_prefix_state.
  destruct (finish_reduction_plan _ _ _ _ Hfin) as (-> & Hplan & _). simpl.
  destruct (active_operations s !! lane) as [id|] eqn:Ha.
  - right. apply (lc_active _ _ _ _ _ (reduce_all_lifecycle _ _ _ Hs)) in Ha as (op & Hop & _).
    destruct (derive_recovery_plan_justified s id op Hop) as (p & Hp & _).
    rewrite Hp in Hplan. injection Hplan as <-. split_and!; eauto.
  - left. simpl in Hplan. by injection Hplan as <-.
Qed.

(** C3: The recovery action of a lane is justified by the reduced state: a tool effect is
    offered for replay only if its intent was recorded replay-safe and has no result, any other
    unsettled intent is reconciled, a provider request is reported by whether its material was
    retained, and each kind of action is chosen only when nothing of an earlier kind is
    outstanding. *)
Theorem recovery_plan_sound header last ms lane r p :
  reduce_lane_prefix header last ms lane = Ok r -> lr_recovery_plan r = Some p ->
  exists s id op, reduce_all header ms = Ok s /\ active_operations s !! lane = Some id /\
    operations s !! id = Some op /\ op_lane_id op = lane /\ op_finished op = false /\
    plan_justified s id op p.
Proof.
  intros (s & Hs & Hfin)%reduce_lane_prefix_state Hp.
  destruct (finish_reduction_plan _ _ _ _ Hfin) as (_ & Hplan & _). rewrite Hp in Hplan.
  destruct (active_operations s !! lane) as [id|] eqn:Ha; [|done].
  pose proof Ha as Ha'.
  apply (lc_active _ _ _ _ _ (reduce_all_lifecycle _ _ _ Hs)) in Ha as (op & Hop & Hl & Hf).
  destruct (derive_recovery_plan_justified s id op Hop) as (p' & Hp' & Hj).
  rewrite Hp' in Hplan. injection Hplan as <-. by exists s, id, op.
Qed.

(** Validating a prospective commit in borrowed form gives the same result as committing it
    to the snapshot and reducing the snapshot. *)
Theorem reduce_with_commit_agrees input ms c lane :
  represents input ms -> commit_sealed c ->
  reduce_lane_ref_with_commit input c lane = reduce_lane_ref (push_commit input c) lane.
Proof.
  intros Hrep Hc. unfold reduce_lane_ref_with_commit, reduce_lane_ref.
  rewrite (rep_timeline _ _ Hrep).
  rewrite (rep_timeline _ _ (represents_push_commit _ _ c Hrep)), restamp_sealed by done. simpl.
  by rewrite push_commit_header, (proj1 (push_commit_last input c)).
Qed.

(** ** Declared tools *)

Lemma retain_names_elem p l x : x ∈ retain_names p l <-> x ∈ l /\ p x = true.
Proof. apply filter_elem. Qed.

Lemma add_tool_nodup names tool : NoDup names -> NoDup (add_tool names tool).
Proof.
  intros Hnd. unfold add_tool. apply NoDup_app. split_and!.
  - eapply sublist_NoDup; [done|apply filter_sublist].
  - intros x Hx ->%list_elem_of_singleton. apply retain_names_elem in Hx as [_ Hx]. by bool_inv.
  - apply NoDup_singleton.
Qed.

Lemma foldl_add_tool_nodup tools : forall names, NoDup names -> NoDup (foldl add_tool names tools).
Proof. induction tools; intros names Hn; simpl; eauto using add_tool_nodup. Qed.

Lemma apply_configuration_nodup c e :
  NoDup (ec_declared_tool_names c) -> NoDup (ec_declared_tool_names (apply_configuration c e)).
Proof.
  intros Hnd. unfold apply_configuration. destruct (se_body e); simpl; try done.
  apply foldl_add_tool_nodup. eapply sublist_NoDup; [done|apply filter_sublist].
Qed.

Lemma foldl_configuration_nodup es c :
  NoDup (ec_declared_tool_names c) ->
  NoDup (ec_declared_tool_names (foldl apply_configuration c es)).
Proof. revert c. induction es as [|e es IH]; intros c Hc; simpl; eauto using apply_configuration_nodup. Qed.

(** The effective configuration of a lane is the replay, from the root, of the entries on
    the parent chain of its leaf; the reported harness revision is the one it derives and no
    tool is declared twice. *)
Theorem effective_configuration_from_branch header last ms lane r :
  reduce_lane_prefix header last ms lane = Ok r ->
  exists s chain, reduce_all header ms = Ok s /\
    reverse_chain (size (entries s)) (entries s) (ls_leaf_id (lr_lane_state r)) = Ok chain /\
    lr_effective_configuration r = foldl apply_configuration configuration_default (reverse chain) /\
    ls_active_harness_revision (lr_lane_state r) = ec_harness_revision (lr_effective_configuration r) /\
    NoDup (ec_declared_tool_names (lr_effective_configuration r)).
Proof.
  intros (s & Hs & Hfin)%reduce_lane_prefix_state.
  destruct (finish_reduction_plan _ _ _ _ Hfin) as (Hstate & _ & Hleaf).
  destruct (derive_configuration_total s lane _ (reduce_all_forest _ _ _ Hs) Hleaf)
    as (chain & Hchain & Hconf).
  assert (lr_effective_configuration r = foldl apply_configuration configuration_default (reverse chain))
    as Heq.
  { unfold finish_reduction in Hfin. outcome_inv. simpl in *. congruence. }
  exists s, chain. split_and!; try done.
  - by rewrite Hstate.
  - rewrite Heq. apply foldl_configuration_nodup. constructor.
Qed.
End theorems.
