(* ===== verification/Artifact.v ===== *)
(** * tea-session: immutable artifacts ([crates/tea-session/src/artifact.rs])

    The [ArtifactStore] trait as a class over an explicit store state, with
    the default methods defined from [store_get], the in-memory store as an
    instance, and the laws clients rely on as a second class.  The filesystem
    store is I/O and is not modelled. *)

From stdpp Require Import base gmap sets list strings sorting pretty.
From S2P Require Import Prelude RustStr Json Ids.

Definition MAX_PAGE_BYTES : N := 1048576.

Record ArtifactPolicy := mk_artifact_policy {
  ap_policy_id : ArtifactPolicyId;
  ap_model_readable : bool;
  ap_redact_before_persist : bool;
  ap_maximum_inline_bytes : N;
  ap_maximum_page_bytes : N;
}.

(** [ArtifactPolicy::default]; the built-in identity is valid (see
    [Ids.validate_id]). *)
Definition artifact_policy_default : ArtifactPolicy := {|
  ap_policy_id := mk_id "tea-recoverable-v1";
  ap_model_readable := true;
  ap_redact_before_persist := false;
  ap_maximum_inline_bytes := 8192;
  ap_maximum_page_bytes := 4096;
|}.

Record ArtifactDescriptor := mk_descriptor {
  ad_artifact_id : ArtifactId;
  ad_byte_len : N;
  ad_media_type : string;
}.

Record ArtifactInventoryItem := mk_item {
  ii_artifact_id : ArtifactId;
  ii_byte_len : N;
}.
#[export] Instance inventory_item_eq_dec : EqDecision ArtifactInventoryItem.
Proof. solve_decision. Defined.

Record ArtifactPage := mk_page {
  pg_offset : N;
  pg_bytes : list N;
  pg_eof : bool;
}.

Record ArtifactMatch := mk_match {
  ma_offset : N;
  ma_context : list N;
}.

Inductive ArtifactError :=
| NotFound (artifact_id : ArtifactId)
| UnsafePath (path message : string)
| ArtifactCorruption (artifact_id : ArtifactId) (message : string)
| InvalidRequest (message : string)
| ArtifactIo (path message : string).

(** [ArtifactPolicy::validate]. *)
Definition artifact_policy_validate (p : ArtifactPolicy) : Outcome ArtifactError unit :=
  if (ap_maximum_inline_bytes p =? 0)%N
  then Err (InvalidRequest "artifact inline limit must be greater than zero")
  else if (ap_maximum_page_bytes p =? 0)%N || (MAX_PAGE_BYTES <? ap_maximum_page_bytes p)%N
  then Err (InvalidRequest "artifact page limit must be within 1..=1048576 bytes")
  else Ok ().

(** [validate_media_type], [validate_bound] and [validate_search_bounds]. *)
Definition validate_media_type (media_type : string) : Outcome ArtifactError unit :=
  if str_is_empty media_type || (200 <? str_len media_type)%nat || has_control media_type
  then Err (InvalidRequest "artifact media type must be a bounded non-control string")
  else Ok ().
Definition validate_bound (maximum_bytes : N) : Outcome ArtifactError unit :=
  if (maximum_bytes =? 0)%N || (MAX_PAGE_BYTES <? maximum_bytes)%N
  then Err (InvalidRequest "artifact page bound must be within 1..=1048576 bytes")
  else Ok ().
Definition validate_search_bounds (query : list N) (maximum_results context_bytes : N) :
    Outcome ArtifactError unit :=
  if bool_decide (query = []) || (MAX_PAGE_BYTES <? N.of_nat (length query))%N
  then Err (InvalidRequest "literal artifact query must contain 1..=1048576 bytes")
  else if (maximum_results =? 0)%N || (1000 <? maximum_results)%N
          || (MAX_PAGE_BYTES <? context_bytes)%N
  then Err (InvalidRequest "artifact search bounds exceed the durable reader limits")
  else Ok ().

(** Identities are ordered by their digest bytes. *)
Fixpoint bytes_leb (l k : list N) : bool :=
  match l, k with
  | [], _ => true
  | _, [] => false
  | a :: l, b :: k => (a <? b)%N || ((a =? b)%N && bytes_leb l k)
  end.
#[export] Instance artifact_id_btree_key : BTreeKey ArtifactId := fun a b =>
  bytes_leb (digest_bytes (artifact_digest a)) (digest_bytes (artifact_digest b)).

(** ** The store interface *)

(** The required methods and the two that a backend may leave unsupported.
    Methods that change the store return its next state, also with an error. *)
Class ArtifactStore (S : Type) := {
  store_put : S -> list N -> string -> S * Outcome ArtifactError ArtifactDescriptor;
  store_get : S -> ArtifactId -> Outcome ArtifactError (list N);
  store_inventory : S -> Outcome ArtifactError (list ArtifactInventoryItem);
  store_remove : S -> ArtifactId -> S * Outcome ArtifactError unit;
}.

(** The rejections of the trait's default [inventory] and [remove]. *)
Definition default_inventory : Outcome ArtifactError (list ArtifactInventoryItem) :=
  Err (InvalidRequest "artifact store does not support inventory").
Definition default_remove : Outcome ArtifactError unit :=
  Err (InvalidRequest "artifact store does not support explicit removal").

(** [<[u8]>::windows(n).position(|window| window == query)] for a query of
    positive length. *)
Fixpoint window_position (query bytes : list N) : option nat :=
  if bool_decide (take (length query) bytes = query) then Some 0 else
  match bytes with
  | [] => None
  | _ :: bytes => S <$> window_position query bytes
  end.

(** The slice [bytes[start..end]]. *)
Definition slice (bytes : list N) (first last : nat) : list N := take (last - first) (drop first bytes).

(** The [while] loop of [search_literal]; the cursor passes at least one byte
    per round, so the length of the object bounds the rounds. *)
Fixpoint search_loop (fuel : nat) (bytes query : list N) (maximum_results context : nat)
    (cursor : nat) (matches : list ArtifactMatch) : Outcome ArtifactError (list ArtifactMatch) :=
  if bool_decide (cursor + length query <= length bytes /\ length matches < maximum_results) then
    match fuel with
    | O => Panic "search exceeds the length of the object"
    | S fuel =>
        match window_position query (drop cursor bytes) with
        | None => Ok matches
        | Some relative =>
            let offset := cursor + relative in
            let first := offset - context in
            let last := (offset + length query + context) `min` length bytes in
            search_loop fuel bytes query maximum_results context (offset + length query)
              (matches ++ [mk_match (N.of_nat offset) (slice bytes first last)])
        end
    end
  else Ok matches.

Section defaults.
Context `{Blake3} {S : Type} `{!ArtifactStore S}.

(** [ArtifactStore::verify_object]. *)
Definition verify_object (s : S) (artifact_id : ArtifactId) : Outcome ArtifactError N :=
  let? bytes := store_get s artifact_id in
  if artifact_id_from_bytes bytes ==? artifact_id then Ok (N.of_nat (length bytes))
  else Err (ArtifactCorruption artifact_id
              "artifact bytes do not match their content-addressed identity").

(** [ArtifactStore::read_page]. *)
Definition read_page (s : S) (artifact_id : ArtifactId) (offset maximum_bytes : N) :
    Outcome ArtifactError ArtifactPage :=
  check? validate_bound maximum_bytes in
  let? bytes := store_get s artifact_id in
  let offset := N.to_nat (offset `min` N.of_nat (length bytes)) in
  let last := (offset + N.to_nat maximum_bytes) `min` length bytes in
  Ok (mk_page (N.of_nat offset) (slice bytes offset last) (bool_decide (last = length bytes))).

(** [ArtifactStore::search_literal]. *)
Definition search_literal (s : S) (artifact_id : ArtifactId) (query : list N)
    (maximum_results context_bytes : N) : Outcome ArtifactError (list ArtifactMatch) :=
  check? validate_search_bounds query maximum_results context_bytes in
  let? bytes := store_get s artifact_id in
  search_loop (length bytes) bytes query (N.to_nat maximum_results) (N.to_nat context_bytes) 0 [].
End defaults.

(** ** The in-memory store *)

Record MemoryArtifactStore := mk_memory_store { mas_objects : gmap ArtifactId (list N) }.

(** [MemoryArtifactStore::put], [get], [inventory] and [remove]. *)
Definition memory_put `{Blake3} (s : MemoryArtifactStore) (bytes : list N) (media_type : string) :
    MemoryArtifactStore * Outcome ArtifactError ArtifactDescriptor :=
  match validate_media_type media_type with
  | Err e => (s, Err e)
  | Panic r => (s, Panic r)
  | Ok _ =>
      let artifact_id := artifact_id_from_bytes bytes in
      let descriptor := mk_descriptor artifact_id (N.of_nat (length bytes)) media_type in
      match mas_objects s !! artifact_id with
      | Some existing =>
          if bool_decide (existing = bytes) then (s, Ok descriptor)
          else (s, Err (ArtifactCorruption artifact_id
                          "existing object has different bytes for the same digest"))
      | None => (mk_memory_store (<[artifact_id := bytes]> (mas_objects s)), Ok descriptor)
      end
  end.

Definition memory_get (s : MemoryArtifactStore) (artifact_id : ArtifactId) :
    Outcome ArtifactError (list N) :=
  ok_or (mas_objects s !! artifact_id) (NotFound artifact_id).

Definition memory_inventory (s : MemoryArtifactStore) :
    Outcome ArtifactError (list ArtifactInventoryItem) :=
  Ok (map (fun '(artifact_id, bytes) => mk_item artifact_id (N.of_nat (length bytes)))
        (btree_iter (mas_objects s))).

Definition memory_remove (s : MemoryArtifactStore) (artifact_id : ArtifactId) :
    MemoryArtifactStore * Outcome ArtifactError unit :=
  match mas_objects s !! artifact_id with
  | None => (s, Err (NotFound artifact_id))
  | Some _ => (mk_memory_store (delete artifact_id (mas_objects s)), Ok ())
  end.

#[export] Instance memory_artifact_store `{Blake3} : ArtifactStore MemoryArtifactStore := {|
  store_put := memory_put;
  store_get := memory_get;
  store_inventory := memory_inventory;
  store_remove := memory_remove;
|}.

(** ** What clients may rely on *)

(** A store's contents as a finite map, and how the operations act on it. *)
Class ArtifactStoreLaws (S : Type) `{Blake3} `{!ArtifactStore S} := {
  objects : S -> gmap ArtifactId (list N);
  law_get : forall s id bytes, store_get s id = Ok bytes <-> objects s !! id = Some bytes;
  law_get_missing : forall s id, objects s !! id = None -> store_get s id = Err (NotFound id);
  law_inventory : forall s items, store_inventory s = Ok items ->
    NoDup (map ii_artifact_id items) /\
    forall i, i ∈ items <-> exists bytes, objects s !! ii_artifact_id i = Some bytes
      /\ ii_byte_len i = N.of_nat (length bytes);
  law_remove_ok : forall s id s', store_remove s id = (s', Ok ()) ->
    is_Some (objects s !! id) /\ objects s' = delete id (objects s);
  law_remove_err : forall s id s' e, store_remove s id = (s', Err e) -> objects s' = objects s;
  law_remove_panic : forall s id s' r, store_remove s id <> (s', Panic r);
  law_put_ok : forall s bytes media s' d, store_put s bytes media = (s', Ok d) ->
    ad_artifact_id d = artifact_id_from_bytes bytes /\ ad_byte_len d = N.of_nat (length bytes) /\
    objects s' = <[artifact_id_from_bytes bytes := bytes]> (objects s);
}.

(** A [BTreeMap] iterates over each key once. *)
Lemma btree_iter_keys_nodup {K V} `{Countable K} `{!BTreeKey K} (m : gmap K V) :
  NoDup (map fst (btree_iter m)).
Proof.
  unfold btree_iter. change (NoDup ((merge_sort binding_le (map_to_list m)).*1)).
  rewrite (merge_sort_Permutation binding_le). apply NoDup_fst_map_to_list.
Qed.

Lemma memory_inventory_items s items :
  memory_inventory s = Ok items ->
  NoDup (map ii_artifact_id items) /\
  forall i, i ∈ items <-> exists bytes, mas_objects s !! ii_artifact_id i = Some bytes
    /\ ii_byte_len i = N.of_nat (length bytes).
Proof.
  unfold memory_inventory. intros [= <-]. split.
  - rewrite map_map. erewrite map_ext; [apply btree_iter_keys_nodup|]. by intros [].
  - intros [id len]. simpl. rewrite list_elem_of_fmap. split.
    + intros ([id' bytes] & [= -> ->] & Hin%elem_of_btree_iter). eauto.
    + intros (bytes & Hid & ->). exists (id, bytes). by rewrite elem_of_btree_iter.
Qed.

#[export] Instance memory_artifact_store_laws `{Blake3} : ArtifactStoreLaws MemoryArtifactStore.
Proof.
  refine {| objects := mas_objects |}; simpl.
  - intros s id bytes. unfold memory_get. destruct (mas_objects s !! id); simpl; split; congruence.
  - intros s id Hid. unfold memory_get. by rewrite Hid.
  - apply memory_inventory_items.
  - intros s id s'. unfold memory_remove. destruct (mas_objects s !! id); by intros [= <-].
  - intros s id s' e. unfold memory_remove. by destruct (mas_objects s !! id); intros [= <-].
  - intros s id s' r. unfold memory_remove. by destruct (mas_objects s !! id).
  - intros s bytes media s' d. unfold memory_put. destruct (validate_media_type media); [|done..].
    destruct (mas_objects s !! artifact_id_from_bytes bytes) as [existing|] eqn:He.
    + case_bool_decide; [|done]. subst. intros [= <- <-]. simpl. by rewrite insert_id.
    + by intros [= <- <-].
Defined.

(** ** Paging and search *)

Section reading.
Context `{Blake3} {Store : Type} `{!ArtifactStore Store} `{!ArtifactStoreLaws Store}.

(** A page read returns exactly the requested slice of the object, never more than the
    requested and permitted number of bytes, and reports end of file exactly when the page
    reaches the end of the object. *)
Theorem read_page_exact (s : Store) id offset maximum page bytes :
  objects s !! id = Some bytes -> read_page s id offset maximum = Ok page ->
  pg_bytes page = take (N.to_nat maximum) (drop (N.to_nat offset) bytes) /\
  (N.of_nat (length (pg_bytes page)) <= maximum <= MAX_PAGE_BYTES)%N /\
  (pg_eof page = true <-> N.of_nat (length bytes) <= pg_offset page + maximum)%N.
Proof.
  intros Hb Hok. unfold read_page in Hok. apply obind_Ok_inv in Hok as (u & Hv & Hok).
  rewrite (proj2 (law_get s id bytes) Hb) in Hok. simpl in Hok. injection Hok as <-. simpl.
  unfold validate_bound in Hv. destruct (_ || _) eqn:Hbound in Hv; [done|]. bool_inv.
  assert (N.to_nat (offset `min` N.of_nat (length bytes)) = N.to_nat offset `min` length bytes)
    as -> by lia.
  unfold slice. split_and!.
  - destruct (decide (N.to_nat offset <= length bytes)).
    + rewrite (Nat.min_l (N.to_nat offset)) by lia.
      destruct (decide (N.to_nat offset + N.to_nat maximum <= length bytes)).
      * rewrite Nat.min_l by lia. f_equal. lia.
      * rewrite Nat.min_r by lia. rewrite !take_ge; [done|rewrite length_drop; lia..].
    + rewrite (drop_ge bytes (N.to_nat offset)) by lia. rewrite take_nil.
      rewrite drop_ge by lia. apply take_nil.
  - rewrite length_take. lia.
  - done.
  - rewrite bool_decide_eq_true. lia.
Qed.

(** A match is a non-overlapping occurrence of the query. *)
Definition occurrence (bytes query : list N) (offset : nat) : Prop :=
  take (length query) (drop offset bytes) = query.

Lemma window_position_Some query bytes n :
  window_position query bytes = Some n ->
  occurrence bytes query n /\ forall k, k < n -> ~ occurrence bytes query k.
Proof.
  revert n. induction bytes as [|b bytes IH]; intros n; simpl; case_bool_decide as Hd.
  - intros [= <-]. split; [done|lia].
  - done.
  - intros [= <-]. split; [done|lia].
  - intros (m & Hm & ->)%fmap_Some. apply IH in Hm as [Hm Hlt]. split; [done|].
    intros [|k] Hk; [done|]. apply Hlt. lia.
Qed.

Lemma window_position_None query bytes n :
  query <> [] -> window_position query bytes = None -> ~ occurrence bytes query n.
Proof.
  intros Hne. revert n. induction bytes as [|b bytes IH]; intros n; simpl; case_bool_decide as Hd;
    try done.
  - intros _ Ho. unfold occurrence in Ho. rewrite drop_nil, take_nil in Ho. by subst.
  - intros Hn%fmap_None. destruct n as [|n]; [done|]. by apply IH.
Qed.

Lemma occurrence_bound bytes query n :
  query <> [] -> occurrence bytes query n -> n + length query <= length bytes.
Proof.
  unfold occurrence. intros Hne Ho. apply (f_equal length) in Ho.
  rewrite length_take, length_drop in Ho.
  assert (0 < length query) by (destruct query; [done|simpl; lia]). lia.
Qed.

(** The greedy search from [cursor]: each offset is the leftmost occurrence
    at or after the end of the previous one, and the list ends early only
    when no occurrence is left. *)
Inductive leftmost_from (bytes query : list N) : nat -> nat -> list nat -> Prop :=
| leftmost_full cursor : leftmost_from bytes query cursor 0 []
| leftmost_done cursor limit :
    (forall k, cursor <= k -> ~ occurrence bytes query k) ->
    leftmost_from bytes query cursor limit []
| leftmost_cons cursor limit n l :
    cursor <= n -> occurrence bytes query n ->
    (forall k, cursor <= k < n -> ~ occurrence bytes query k) ->
    leftmost_from bytes query (n + length query) limit l ->
    leftmost_from bytes query cursor (S limit) (n :: l).

Lemma occurrence_drop bytes query cursor k :
  occurrence (drop cursor bytes) query k <-> occurrence bytes query (cursor + k).
Proof. unfold occurrence. by rewrite drop_drop. Qed.

Lemma search_loop_spec fuel bytes query maximum context : forall cursor matches,
  query <> [] -> length bytes <= fuel + cursor ->
  exists offsets found,
    search_loop fuel bytes query maximum context cursor matches = Ok (matches ++ found) /\
    map ma_offset found = map N.of_nat offsets /\
    leftmost_from bytes query cursor (maximum - length matches) offsets.
Proof.
  induction fuel as [|fuel IH]; intros cursor matches Hne Hfuel; simpl;
    assert (0 < length query) by (destruct query; [done|simpl; lia]); case_bool_decide as Hc.
  1: lia.
  2: destruct (window_position query (drop cursor bytes)) as [rel|] eqn:Hw.
  2: { apply window_position_Some in Hw as [Ho Hmin]. rewrite occurrence_drop in Ho.
       edestruct (IH (cursor + rel + length query)) as (offsets & found & Heq & Hmap & Hleft);
         [done|lia|].
       eexists (cursor + rel :: offsets), _. rewrite Heq, <-app_assoc. split_and!; [done| |].
       - simpl. by rewrite Hmap.
       - rewrite length_app in Hleft. simpl in Hleft.
         replace (maximum - length matches) with (S (maximum - (length matches + 1))) by lia.
         constructor; [lia|done| |done]. intros k Hk Hko. apply (Hmin (k - cursor)); [lia|].
         rewrite occurrence_drop. by replace (cursor + (k - cursor)) with k by lia. }
  all: exists [], []; rewrite app_nil_r; (split_and!; [done|done|]).
  2: { constructor 2. intros k Hk Ho. eapply (window_position_None query _ (k - cursor) Hne Hw).
       rewrite occurrence_drop. by replace (cursor + (k - cursor)) with k by lia. }
  all: destruct (decide (length matches < maximum));
    [|replace (maximum - length matches) with 0 by lia; constructor].
  all: constructor 2; intros k Hk Ho; apply occurrence_bound in Ho; [lia|done].
Qed.

(** A literal artifact search within its bounds terminates and returns the greedy non-
    overlapping occurrences of the query from the left, up to the result limit. *)
Theorem search_literal_leftmost (s : Store) id query maximum context bytes :
  objects s !! id = Some bytes -> validate_search_bounds query maximum context = Ok () ->
  exists matches offsets, search_literal s id query maximum context = Ok matches /\
    map ma_offset matches = map N.of_nat offsets /\
    leftmost_from bytes query 0 (N.to_nat maximum) offsets.
Proof.
  intros Hb Hv. unfold search_literal. rewrite Hv. simpl.
  rewrite (proj2 (law_get s id bytes) Hb). simpl.
  unfold validate_search_bounds in Hv.
  destruct (bool_decide (query = []) || _) eqn:Hq in Hv; [done|].
  bool_inv. rewrite bool_decide_eq_false in *.
  destruct (search_loop_spec (length bytes) bytes query (N.to_nat maximum) (N.to_nat context) 0 [])
    as (offsets & found & -> & Hmap & Hleft); [done|lia|].
  exists found, offsets. simpl in Hleft. rewrite Nat.sub_0_r in Hleft. done.
Qed.
End reading.
