(* ===== verification/Gc.v ===== *)
(** * tea-session: artifact garbage collection ([crates/tea-session/src/gc.rs])

    Planning and application against the [ArtifactStore] interface.  The
    theorems are proved from the laws of the interface, for any store. *)

From stdpp Require Import base gmap sets list strings sorting.
From S2P Require Import Prelude RustStr Json Ids Model Records Snapshot Reduction Artifact.

Record ArtifactQuota := mk_quota {
  maximum_objects : option N;
  maximum_bytes : option N;
}.

Record ArtifactQuotaStatus := mk_quota_status {
  object_count : N;
  byte_count : N;
  objects_within_limit : bool;
  bytes_within_limit : bool;
}.

(** [ArtifactQuotaStatus::is_within_limit]. *)
Definition is_within_limit (q : ArtifactQuotaStatus) : bool :=
  objects_within_limit q && bytes_within_limit q.

Record ArtifactGcPlan := mk_gc_plan {
  reachable : gset ArtifactId;
  unreferenced : list ArtifactInventoryItem;
  plan_quota_status : ArtifactQuotaStatus;
}.

Record ArtifactGcReport := mk_gc_report {
  removed : list ArtifactInventoryItem;
  report_quota_status : ArtifactQuotaStatus;
}.

(** [session_artifact_roots]. *)
Definition record_artifact_roots (r : StoredRecord) : list ArtifactId :=
  match sr_record r with
  | ProviderRequestSettled settled => option_list (pst_response_artifact settled)
  | _ => []
  end.
Definition session_artifact_roots (snapshot : SessionSnapshot) : gset ArtifactId :=
  list_to_set (flat_map (fun e => entry_artifact_references (se_body e)) (ss_entries snapshot))
  ∪ list_to_set (flat_map record_artifact_roots (ss_records snapshot))
  ∪ list_to_set (flat_map (fun f => fact_artifact_references (sf_fact f)) (ss_facts snapshot)).

(** [quota_status]. *)
Definition quota_status (inventory : list ArtifactInventoryItem) (quota : ArtifactQuota) :
    ArtifactQuotaStatus :=
  let objects := N.of_nat (length inventory) in
  let bytes := foldl (fun total item => u64_saturating_add total (ii_byte_len item)) 0%N inventory in
  {| object_count := objects;
     byte_count := bytes;
     objects_within_limit :=
       match maximum_objects quota with None => true | Some limit => (objects <=? limit)%N end;
     bytes_within_limit :=
       match maximum_bytes quota with None => true | Some limit => (bytes <=? limit)%N end |}.

(** [current_by_id.get(&id)]: the last inventory item of that identity. *)
Definition find_item (inventory : list ArtifactInventoryItem) (id : ArtifactId) :
    option ArtifactInventoryItem :=
  List.find (fun item => ii_artifact_id item ==? id) (reverse inventory).

(** The identities of the roots in [BTreeSet] order. *)
Definition ordered_ids (X : gset ArtifactId) : list ArtifactId :=
  map fst (btree_iter (gset_to_gmap () X)).

(** [for artifact_id in &reachable { if !by_id.contains_key(..) { return Err } }]. *)
Definition check_roots (inventory : list ArtifactInventoryItem) (roots : gset ArtifactId) :
    Outcome ArtifactError unit :=
  ofold (fun _ id => match find_item inventory id with
                     | Some _ => Ok ()
                     | None => Err (NotFound id)
                     end) () (ordered_ids roots).

Section gc.
Context `{Blake3} {Store : Type} `{!ArtifactStore Store}.

(** [plan_artifact_gc]. *)
Definition plan_artifact_gc (store : Store) (snapshot : SessionSnapshot)
    (additional_roots : list ArtifactId) (quota : ArtifactQuota) :
    Outcome ArtifactError ArtifactGcPlan :=
  let roots := session_artifact_roots snapshot ∪ list_to_set additional_roots in
  let? inventory := store_inventory store in
  check? check_roots inventory roots in
  Ok {| reachable := roots;
        unreferenced := List.filter (fun item => negb (mem (ii_artifact_id item) roots)) inventory;
        plan_quota_status := quota_status inventory quota |}.

(** The removal loop of [apply_artifact_gc]; a failing round returns with the
    removals already made. *)
Fixpoint remove_planned (store : Store) (current : list ArtifactInventoryItem)
    (planned : list ArtifactInventoryItem) : Store * Outcome ArtifactError unit :=
  match planned with
  | [] => (store, Ok ())
  | item :: planned =>
      match find_item current (ii_artifact_id item) with
      | None => (store, Err (NotFound (ii_artifact_id item)))
      | Some current_item =>
          if (ii_byte_len current_item =? ii_byte_len item)%N then
            match store_remove store (ii_artifact_id item) with
            | (store, Ok _) => remove_planned store current planned
            | (store, Err e) => (store, Err e)
            | (store, Panic r) => (store, Panic r)
            end
          else (store, Err (ArtifactCorruption (ii_artifact_id item)
                              "artifact byte length changed after GC planning"))
      end
  end.

(** [apply_artifact_gc]. *)
Definition apply_artifact_gc (store : Store) (plan : ArtifactGcPlan) (quota : ArtifactQuota) :
    Store * Outcome ArtifactError ArtifactGcReport :=
  match (let? current := store_inventory store in
         check? check_roots current (reachable plan) in Ok current) with
  | Err e => (store, Err e)
  | Panic r => (store, Panic r)
  | Ok current =>
      match remove_planned store current (unreferenced plan) with
      | (store, Ok _) =>
          (store, let? after := store_inventory store in
                  Ok (mk_gc_report (unreferenced plan) (quota_status after quota)))
      | (store, Err e) => (store, Err e)
      | (store, Panic r) => (store, Panic r)
      end
  end.

(** ** Facts *)

Lemma elem_of_ordered_ids X id : id ∈ ordered_ids X <-> id ∈ X.
Proof.
  unfold ordered_ids. rewrite list_elem_of_fmap. split.
  - intros ([k []] & -> & Hin%elem_of_btree_iter). by apply lookup_gset_to_gmap_Some in Hin as [? _].
  - intros Hid. exists (id, ()). split; [done|]. apply elem_of_btree_iter.
    by apply lookup_gset_to_gmap_Some.
Qed.

Lemma find_item_Some inventory id item :
  find_item inventory id = Some item -> item ∈ inventory /\ ii_artifact_id item = id.
Proof.
  unfold find_item. intros [Hin Heq]%find_elem. rewrite elem_of_reverse in Hin. by bool_inv.
Qed.

Lemma find_item_total inventory item :
  item ∈ inventory -> is_Some (find_item inventory (ii_artifact_id item)).
Proof.
  intros Hin. unfold find_item.
  destruct (List.find _ (reverse inventory)) as [i|] eqn:Hf; [by eexists|].
  assert (item ∈ reverse inventory) as Hr by by rewrite elem_of_reverse.
  apply list_elem_of_In in Hr. apply (find_none _ _ Hf) in Hr. by bool_inv.
Qed.

Lemma check_roots_Ok inventory roots :
  check_roots inventory roots = Ok () <-> forall id, id ∈ roots -> is_Some (find_item inventory id).
Proof.
  unfold check_roots. setoid_rewrite <-elem_of_ordered_ids.
  induction (ordered_ids roots) as [|id ids IH]; simpl.
  - split; [intros _ id Hid; by apply not_elem_of_nil in Hid|done].
  - destruct (find_item inventory id) eqn:Hf; simpl.
    + rewrite IH. split.
      * intros Hall k [->|Hk]%elem_of_cons; [by rewrite Hf|auto].
      * intros Hall k Hk. apply Hall. by apply elem_of_cons; right.
    + split; [done|]. intros Hall. destruct (Hall id) as [? Hid]; [by apply elem_of_cons; left|].
      congruence.
Qed.

Context `{!ArtifactStoreLaws Store}.

(** Removals only ever touch the planned identities. *)
Lemma remove_planned_frame planned : forall store current store' res,
  remove_planned store current planned = (store', res) ->
  (forall id, id ∉ map ii_artifact_id planned -> objects store' !! id = objects store !! id) /\
  (res = Ok () -> forall id, id ∈ map ii_artifact_id planned -> objects store' !! id = None).
Proof.
  induction planned as [|item planned IH]; intros store current store' res; simpl.
  { intros [= <- <-]. split; [done|]. intros _ id Hid. by apply not_elem_of_nil in Hid. }
  destruct (find_item _ _) as [ci|]; [|by intros [= <- <-]].
  destruct (_ =? _)%N; [|by intros [= <- <-]].
  destruct (store_remove store (ii_artifact_id item)) as [st [[]|e|r]] eqn:Hrem.
  - intros Hrest. apply IH in Hrest as [Hframe Hdone].
    apply law_remove_ok in Hrem as [_ Hobj]. rewrite Hobj in Hframe. split.
    + intros id [Hne Hid]%not_elem_of_cons. rewrite Hframe by done. by rewrite lookup_delete_ne.
    + intros Hres id [->|Hid]%elem_of_cons; [|by apply Hdone].
      destruct (decide (ii_artifact_id item ∈ map ii_artifact_id planned)) as [Hin|Hnin].
      * by apply Hdone.
      * rewrite Hframe by done. by rewrite lookup_delete_eq.
  - intros [= <- <-]. apply law_remove_err in Hrem as ->. done.
  - by apply law_remove_panic in Hrem.
Qed.

Lemma plan_Ok store snapshot additional quota plan :
  plan_artifact_gc store snapshot additional quota = Ok plan ->
  reachable plan = session_artifact_roots snapshot ∪ list_to_set additional /\
  (forall id, id ∈ reachable plan -> is_Some (objects store !! id)) /\
  (forall item, item ∈ unreferenced plan <-> (ii_artifact_id item ∉ reachable plan) /\
     exists bytes, objects store !! ii_artifact_id item = Some bytes /\
       ii_byte_len item = N.of_nat (length bytes)) /\
  NoDup (map ii_artifact_id (unreferenced plan)).
Proof.
  unfold plan_artifact_gc. intros (inv & Hinv & (u & Hroots & [= <-])%obind_Ok_inv)%obind_Ok_inv.
  destruct u. apply law_inventory in Hinv as [Hnd Hitems]. rewrite check_roots_Ok in Hroots.
  simpl. split_and!; [done| | |].
  - intros id (item & [Hin <-]%find_item_Some)%Hroots. apply Hitems in Hin as (bytes & -> & _). eauto.
  - intros item. rewrite filter_elem, Hitems, negb_true_iff, mem_false. tauto.
  - clear -Hnd. induction inv as [|i inv IH]; simpl; [done|].
    simpl in Hnd. apply NoDup_cons in Hnd as [Hni Hnd]. destruct (negb _); simpl; [|auto].
    constructor; [|auto]. intros (j & Heq & [Hj _]%filter_elem)%list_elem_of_fmap.
    apply Hni. apply list_elem_of_fmap. eauto.
Qed.


(** What a collection leaves in the store it was planned on. *)
Lemma gc_result store snapshot additional quota plan store' report :
  plan_artifact_gc store snapshot additional quota = Ok plan ->
  apply_artifact_gc store plan quota = (store', Ok report) ->
  removed report = unreferenced plan /\
  forall id, objects store' !! id = if mem id (reachable plan) then objects store !! id else None.
Proof.
  intros (Hreach & _ & Hun & _)%plan_Ok Happly. unfold apply_artifact_gc in Happly.
  destruct (let? current := store_inventory store in _) as [current|e|r] eqn:Hpre; [|done..].
  destruct (remove_planned store current (unreferenced plan)) as [st [[]|e|r]] eqn:Hrem; [|done..].
  injection Happly as -> Hrep. apply obind_Ok_inv in Hrep as (after & _ & [= <-]). split; [done|].
  destruct (remove_planned_frame _ _ _ _ _ Hrem) as [Hframe Hdone]. intros id.
  destruct (mem id (reachable plan)) eqn:Hm; bool_inv.
  - apply Hframe. intros (item & -> & [Hn _]%Hun)%list_elem_of_fmap. done.
  - destruct (decide (id ∈ map ii_artifact_id (unreferenced plan))) as [Hin|Hnin]; [by apply Hdone|].
    rewrite Hframe by done. destruct (objects store !! id) as [bytes|] eqn:Ho; [|done].
    exfalso. apply Hnin. apply list_elem_of_fmap. exists (mk_item id (N.of_nat (length bytes))).
    split; [done|]. apply Hun. simpl. eauto.
Qed.

(** A collection applied to the store it was planned on removes exactly the planned
    unreferenced objects: afterwards the store holds the reachable objects, unchanged, and
    nothing else. *)
Theorem gc_leaves_exactly_reachable store snapshot additional quota plan store' report :
  plan_artifact_gc store snapshot additional quota = Ok plan ->
  apply_artifact_gc store plan quota = (store', Ok report) ->
  removed report = unreferenced plan /\
  forall id, objects store' !! id = if mem id (reachable plan) then objects store !! id else None.
Proof. apply gc_result. Qed.
End gc.

(** ** Limits of the root set *)

(** A concrete digest function for the examples: the bytes themselves. *)
Definition example_blake3 : Blake3 := {| blake3_hash := fun l => mk_digest (take 32 (l ++ replicate 32 0%N)) |}.

Section examples.
#[local] Existing Instance example_blake3.
#[local] Open Scope N_scope.

Definition example_header : SessionHeader := header_new_at (mk_id "s") "w" [] 0.
Definition example_bytes : list N := [1; 2; 3]%N.
Definition example_artifact : ArtifactId := artifact_id_from_bytes example_bytes.
Definition example_store : MemoryArtifactStore :=
  mk_memory_store {[ example_artifact := example_bytes ]}.
Definition example_entry : SessionEntry :=
  CustomSemantic (mk_custom_entry "t" (PayloadArtifact example_artifact 3 "m") true).

(** A one-item commit of the example session. *)
Definition example_commit (m : SessionMutation) : StoredCommit :=
  mk_stored_commit 1 0 digest_zero digest_zero
    [mk_stored_mutation 1 0 digest_zero digest_zero m].
Definition example_no_quota : ArtifactQuota := mk_quota None None.

Definition snapshot_before : SessionSnapshot := snapshot_empty example_header.
Definition snapshot_after : SessionSnapshot :=
  push_commit snapshot_before (example_commit (MutEntry
    (mk_stored_entry lane_main (mk_entry_header (mk_id "e") None 1 0) example_entry))).

(** C37: A collection plan made before a commit still deletes an object that the commit made
    reachable: application rechecks only the roots recorded in the plan. *)
Theorem stale_plan_removes_new_root :
  exists plan store' report,
    plan_artifact_gc example_store snapshot_before [] example_no_quota = Ok plan /\
    apply_artifact_gc example_store plan example_no_quota = (store', Ok report) /\
    (example_artifact ∈ session_artifact_roots snapshot_after) /\
    mas_objects store' !! example_artifact = None.
Proof.
  eexists _, _, _. split; [vm_compute; reflexivity|]. split; [vm_compute; reflexivity|].
  split; [apply (bool_decide_unpack _ (dec := _)); vm_compute; exact I|vm_compute; reflexivity].
Qed.

(** A session with an open operation whose deferred write names the artifact. *)
#[local] Instance example_miniserde : Miniserde := {|
  mini_to_string := fun _ => EmptyString;
  mini_from_str := fun _ => None;
|}.

Definition deferred_write : WriteDeferredRecord :=
  mk_write_deferred (mk_id "o") (mk_provisioned (mk_id "e") example_entry).
Definition deferred_snapshot : SessionSnapshot :=
  push_commit snapshot_before (mk_stored_commit 1 0 digest_zero digest_zero
    [mk_stored_mutation 1 0 digest_zero digest_zero (MutRecord (mk_stored_record 1 0
       (OperationStarted (operation_started_new (mk_id "o") lane_main None KindRun []
          (mk_id "r") (mk_id "p")))));
     mk_stored_mutation 1 0 digest_zero digest_zero (MutRecord (mk_stored_record 1 0
       (WriteDeferred deferred_write)))]).

(** An artifact referenced only by a deferred write that is still pending is not a session
    root, so a collection removes it although the session will materialise an entry that names
    it. *)
Theorem deferred_write_artifact_collected :
  (exists r, reduce_lane_ref deferred_snapshot lane_main = Ok r /\
     lr_pending_writes r = [mk_pending_write (mk_id "o") (wd_entry deferred_write)]) /\
  entry_artifact_references (pe_body (wd_entry deferred_write)) = [example_artifact] /\
  exists plan store' report,
    plan_artifact_gc example_store deferred_snapshot [] example_no_quota = Ok plan /\
    apply_artifact_gc example_store plan example_no_quota = (store', Ok report) /\
    mas_objects store' !! example_artifact = None.
Proof.
  split; [eexists; split; vm_compute; reflexivity|]. split; [reflexivity|].
  eexists _, _, _. split; [vm_compute; reflexivity|]. split; vm_compute; reflexivity.
Qed.
End examples.
