(* ===== verification/Scenario.v ===== *)
(** * A concrete session

    One user turn, interrupted during a tool effect ([turn_open]), then
    settled, checkpointed and forked ([turn_settled]): the inputs at which
    the general theorems are instantiated.  The codec and the digest are
    small concrete functions. *)

From stdpp Require Import base gmap sets list strings sorting.
From S2P Require Import Prelude RustStr Json Ids Decimal Model Records Snapshot Reduction.

Local Open Scope N_scope.

#[local] Instance toy_miniserde : Miniserde := {|
  mini_to_string := fun v => match v with MiniNull => "null" | _ => "v" end;
  mini_from_str := fun s => if bool_decide (s = "null") then Some MiniNull else None;
|}.
#[local] Instance toy_blake3 : Blake3 := {|
  blake3_hash := fun l => mk_digest (take 32 (l ++ replicate 32 0));
|}.

Definition header : SessionHeader := header_new_at (mk_id "s") "w" [] 0.

(** The mutation [m] of commit [seq]. *)
Definition at_seq (seq : Sequence) (m : SessionMutation) : StoredMutation :=
  mk_stored_mutation seq 0 digest_zero digest_zero m.
Definition rec_at (seq : Sequence) (r : LaneRecord) : StoredMutation :=
  at_seq seq (MutRecord (mk_stored_record seq 0 r)).
Definition fact_at (seq : Sequence) (f : SessionFact) : StoredMutation :=
  at_seq seq (MutFact (mk_stored_fact seq 0 f)).
Definition entry_at (seq : Sequence) (lane : LaneId) (parent : option EntryId) (id : EntryId)
    (body : SessionEntry) : StoredMutation :=
  at_seq seq (MutEntry (mk_stored_entry lane (mk_entry_header id parent seq 0) body)).

Definition user_body : SessionEntry := UserMessage (mk_user_message "hi" []).
Definition user_input : ProvisionedEntry := mk_provisioned (mk_id "u") user_body.
Definition tool_call : AssistantToolCall := mk_tool_call "c" "bash" JsonNull.
Definition assistant_body : SessionEntry :=
  AssistantMessage (mk_assistant_message [] [tool_call] None None [] None []).
Definition tool_start : ToolStartedRecord :=
  mk_tool_started (mk_id "t") (mk_id "o") (mk_id "ep") (mk_id "a") 0 "c" "bash" JsonNull (mk_id "tr")
    ReplayNever digest_zero (mk_id "h") "k".
Definition tool_result_body : SessionEntry :=
  ToolResult (mk_tool_result "c" "bash" (PayloadInline JsonNull) JsonNull false false usage_default
    "p" (mk_id "pol")).
Definition usage_cost (cost : string) : Usage :=
  mk_usage (Some 10) None None None None None (Some cost).
Definition tool_declaration : ToolDeclarationRecord := mk_tool_declaration "bash" "d" JsonNull.

(** Up to the tool intent. *)
Definition turn_open : list StoredMutation :=
  [ entry_at 1 lane_main None (mk_id "cfg")
      (ConfigurationChanged (mk_configuration_changed [] [tool_declaration] []));
    rec_at 2 (InputAccepted (mk_input_accepted lane_main user_input));
    rec_at 3 (OperationStarted (with_input_ids
      (operation_started_new (mk_id "o") lane_main (Some (mk_id "cfg")) KindRun [user_input]
         (mk_id "h") (mk_id "p")) [mk_id "u"]));
    entry_at 3 lane_main (Some (mk_id "cfg")) (mk_id "u") user_body;
    rec_at 4 (EpochStarted (mk_epoch_started (mk_id "ep") (mk_id "o") 0 (Some (mk_id "u"))
      (mk_id "h") (mk_id "hs") (mk_id "p") (mk_id "run") ∅));
    rec_at 5 (StepAttempted (mk_step_attempted (mk_id "st") (mk_id "o") (mk_id "ep") StepAssistant 1
      (mk_id "a") None));
    rec_at 5 (ProviderRequestStarted (mk_provider_started (mk_id "req") (mk_id "o") (mk_id "ep")
      (mk_id "st") 1 (mk_id "p") digest_zero None));
    fact_at 5 (ProviderRequestMaterial (mk_provider_material (mk_id "o") (mk_id "ep") (mk_id "req")
      (PayloadInline JsonNull)));
    rec_at 6 (ProviderRequestSettled (mk_provider_settled (mk_id "req") (mk_id "o") JsonNull None None
      None SettlementCompleted));
    rec_at 6 (UsageFact (mk_usage_record (mk_id "o") None (usage_cost "0.2")));
    entry_at 6 lane_main (Some (mk_id "u")) (mk_id "a") assistant_body;
    rec_at 7 (ToolStarted tool_start) ].

(** From the tool result to the checkpoint. *)
Definition turn_close : list StoredMutation :=
  [ entry_at 8 lane_main (Some (mk_id "a")) (mk_id "tr") tool_result_body;
    rec_at 8 (UsageFact (mk_usage_record (mk_id "o") None (usage_cost "0.005")));
    rec_at 9 (EpochFinished (mk_epoch_finished (mk_id "ep") (mk_id "o") EpochSettled));
    rec_at 9 (OperationFinished (mk_operation_finished (mk_id "o") OutcomeCompleted));
    rec_at 9 (InputSettled (mk_input_settled (mk_id "o") (mk_id "u") OutcomeCompleted));
    fact_at 9 (TurnCheckpoint (mk_turn_checkpoint (mk_id "cp") lane_main (mk_id "o")
      (Some (mk_id "tr")) ∅)) ].

Definition fork_created : StoredMutation :=
  at_seq 10 (MutLane (mk_stored_lane 10 0 (LaneCreated (mk_id "lane2") (Some (mk_id "tr"))))).
Definition fork_body : ForkedLaneFact :=
  mk_forked_lane (mk_id "cp") (mk_id "lane2") (Some (mk_id "tr")).
Definition fork_fact : StoredMutation := fact_at 10 (ForkedLane fork_body).
(** A later write on the parent lane. *)
Definition parent_write : StoredMutation :=
  fact_at 11 (ExtensionStateValueSet (mk_extension_state_set lane_main "x" "1" JsonNull)).

Definition turn_settled : list StoredMutation := turn_open ++ turn_close.
Definition turn_forked : list StoredMutation :=
  (turn_settled ++ [fork_created]) ++ fork_fact :: [parent_write].

Definition outcome_or {E A} (m : Outcome E A) (d : A) : A := match m with Ok a => a | _ => d end.

Definition state_of (ms : list StoredMutation) : ReducerState :=
  outcome_or (reduce_all header ms) (initial_state header).

Lemma reduce_all_scenario ms : is_ok (reduce_all header ms) = true -> reduce_all header ms = Ok (state_of ms).
Proof. unfold state_of. by destruct (reduce_all header ms). Qed.

(** The reduction of the session's main lane. *)
Definition empty_reduction : LaneReduction :=
  mk_lane_reduction (mk_lane_state lane_main None LaneIdle None None) configuration_default None
    (mk_input_reduction [] ∅) [] ∅ [] None usage_default.
Definition reduction_of (last : Sequence) (ms : list StoredMutation) (lane : LaneId) : LaneReduction :=
  outcome_or (reduce_lane_prefix header last ms lane) empty_reduction.

Lemma reduce_lane_scenario last ms lane :
  is_ok (reduce_lane_prefix header last ms lane) = true ->
  reduce_lane_prefix header last ms lane = Ok (reduction_of last ms lane).
Proof. unfold reduction_of. by destruct (reduce_lane_prefix header last ms lane). Qed.

Example turn_open_reconciles :
  lr_recovery_plan (reduction_of 7 turn_open lane_main) = Some (ReconcileToolEffect (mk_id "tr")).
Proof. vm_compute. reflexivity. Qed.

Example turn_settled_totals :
  lr_usage_totals (reduction_of 9 turn_settled lane_main) = mk_usage (Some 20) None None None None None (Some "0.205").
Proof. vm_compute. reflexivity. Qed.

Example turn_forked_accepted : is_ok (reduce_lane_prefix header 11 turn_forked (mk_id "lane2")) = true.
Proof. vm_compute. reflexivity. Qed.
