(* ===== verification/Witnesses.v ===== *)
(** * The general theorems at the concrete session

    Each lemma applies one theorem to the session of [Scenario], with its
    hypotheses discharged by evaluation. *)

From stdpp Require Import base gmap sets list strings sorting.
From S2P Require Import Prelude RustStr Json Ids Decimal DecimalProofs Model Records Snapshot.
From S2P Require Import Reduction ReductionInv ReductionOps ReductionSafety ReductionHistory.
From S2P Require Import Effects Recovery Artifact Gc Scenario.

Local Open Scope N_scope.
#[local] Existing Instance toy_miniserde.
#[local] Existing Instance toy_blake3.

Lemma turn_open_Ok : reduce_all header turn_open = Ok (state_of turn_open).
Proof. apply reduce_all_scenario. vm_compute. reflexivity. Qed.

Lemma turn_settled_Ok : reduce_all header turn_settled = Ok (state_of turn_settled).
Proof. apply reduce_all_scenario. vm_compute. reflexivity. Qed.

Lemma turn_open_lane_Ok :
  reduce_lane_prefix header 7 turn_open lane_main = Ok (reduction_of 7 turn_open lane_main).
Proof. apply reduce_lane_scenario. vm_compute. reflexivity. Qed.

Lemma reduced_entries_forest_witness : state_forest (state_of turn_open).
Proof. apply (reduced_entries_forest header turn_open). exact turn_open_Ok. Defined.

Lemma reduced_operations_lifecycle_witness : state_lifecycle (state_of turn_open).
Proof. apply (reduced_operations_lifecycle header turn_open). exact turn_open_Ok. Defined.

Lemma reduced_effects_attributed_witness : effects_ok (state_of turn_open).
Proof. apply (reduced_effects_attributed header turn_open). exact turn_open_Ok. Defined.

Lemma reduced_inputs_justified_witness : inputs_ok (state_of turn_settled).
Proof. apply (reduced_inputs_justified header turn_settled). exact turn_settled_Ok. Defined.

Lemma reduce_prefix_extends_witness :
  exists s1, reduce_all header turn_open = Ok s1 /\ extends s1 (state_of turn_settled).
Proof. apply (reduce_prefix_extends header turn_open turn_close). exact turn_settled_Ok. Defined.

Lemma reduce_lane_prefix_returns_witness :
  reduce_lane_prefix header 9 turn_settled lane_main <> Panic "attempt to add with overflow".
Proof.
  apply (reduce_lane_prefix_returns header 9 turn_settled lane_main).
  repeat constructor; intros c [= <-].
  - exists (mk_text [48] [50] None). split; [|reflexivity]. split; simpl; try done.
    + by constructor.
    + by constructor.
  - exists (mk_text [48] [48; 48; 53] None). split; [|reflexivity]. split; simpl; try done.
    + by constructor.
    + by repeat constructor.
Defined.

Lemma pending_inputs_queue_witness :
  exists s, reduce_all header turn_open = Ok s /\
    let pending := ir_pending_inputs (lr_input_reduction (reduction_of 7 turn_open lane_main)) in
    let ids := map (fun a => pe_id (ai_entry a)) pending in
    NoDup ids /\ ids `sublist_of` input_order s /\
    forall a, a ∈ pending <-> exists i, input_states s !! pe_id (ai_entry a) = Some i /\
      in_accepted i = a /\ in_status i = InputPending /\ ai_lane_id a = lane_main.
Proof. apply (pending_inputs_queue header 7 turn_open lane_main). exact turn_open_lane_Ok. Defined.

Lemma recovery_plan_iff_running_witness :
  let r := reduction_of 7 turn_open lane_main in
  (ls_status (lr_lane_state r) = LaneIdle /\ ls_active_operation (lr_lane_state r) = None
     /\ lr_recovery_plan r = None) \/
  (ls_status (lr_lane_state r) = LaneRunning /\ is_Some (ls_active_operation (lr_lane_state r))
     /\ is_Some (lr_recovery_plan r)).
Proof. apply (recovery_plan_iff_running header 7 turn_open lane_main). exact turn_open_lane_Ok. Defined.

Lemma recovery_plan_sound_witness :
  exists s id op, reduce_all header turn_open = Ok s /\ active_operations s !! lane_main = Some id /\
    operations s !! id = Some op /\ op_lane_id op = lane_main /\ op_finished op = false /\
    plan_justified s id op (ReconcileToolEffect (mk_id "tr")).
Proof.
  apply (recovery_plan_sound header 7 turn_open lane_main (reduction_of 7 turn_open lane_main)).
  - exact turn_open_lane_Ok.
  - vm_compute. reflexivity.
Defined.

Lemma effective_configuration_from_branch_witness :
  let r := reduction_of 7 turn_open lane_main in
  exists s chain, reduce_all header turn_open = Ok s /\
    reverse_chain (size (entries s)) (entries s) (ls_leaf_id (lr_lane_state r)) = Ok chain /\
    lr_effective_configuration r = foldl apply_configuration configuration_default (reverse chain) /\
    ls_active_harness_revision (lr_lane_state r) = ec_harness_revision (lr_effective_configuration r) /\
    NoDup (ec_declared_tool_names (lr_effective_configuration r)).
Proof.
  apply (effective_configuration_from_branch header 7 turn_open lane_main). exact turn_open_lane_Ok.
Defined.

Lemma checkpoints_stay_settled_witness :
  tcf_checkpoint_id (mk_turn_checkpoint (mk_id "cp") lane_main (mk_id "o") (Some (mk_id "tr")) ∅)
    = mk_id "cp" /\
  checkpoint_settled (state_of turn_settled)
    (mk_turn_checkpoint (mk_id "cp") lane_main (mk_id "o") (Some (mk_id "tr")) ∅).
Proof.
  apply (checkpoints_stay_settled header turn_settled); [exact turn_settled_Ok|].
  vm_compute. reflexivity.
Defined.

Lemma forked_lane_isolated_witness :
  exists s1 checkpoint, reduce_all header (turn_settled ++ [fork_created]) = Ok s1 /\
    checkpoints s1 !! fl_checkpoint_id fork_body = Some checkpoint /\
    fl_base_leaf_id fork_body = tcf_leaf_id checkpoint /\
    extension_state (state_of turn_forked) !! fl_lane_id fork_body
      = Some (tcf_extension_state checkpoint).
Proof.
  apply (forked_lane_isolated header (turn_settled ++ [fork_created]) fork_fact
           (mk_stored_fact 10 0 (ForkedLane fork_body)) fork_body [parent_write]).
  - apply (reduce_all_scenario turn_forked). vm_compute. reflexivity.
  - reflexivity.
  - reflexivity.
  - repeat constructor.
Defined.

(** The turn as one sealed commit per sequence number. *)
Definition first_commit : StoredCommit :=
  mk_stored_commit 1 0 digest_zero digest_zero (take 1 turn_open).
Definition second_commit : StoredCommit :=
  mk_stored_commit 2 0 digest_zero digest_zero (take 1 (drop 1 turn_open)).

Lemma snapshot_replays_commits_witness :
  represents (replay header [first_commit; second_commit]) (take 2 turn_open).
Proof.
  apply (snapshot_replays_commits header [first_commit; second_commit]).
  repeat constructor.
Defined.

Lemma reduce_with_commit_agrees_witness :
  reduce_lane_ref_with_commit (snapshot_empty header) first_commit lane_main
  = reduce_lane_ref (push_commit (snapshot_empty header) first_commit) lane_main.
Proof.
  apply (reduce_with_commit_agrees (snapshot_empty header) [] first_commit lane_main).
  - apply represents_empty.
  - repeat constructor.
Defined.

(** ** Artifacts *)

Definition object_bytes : list N := [1; 2; 1; 2; 1].
Definition object_id : ArtifactId := artifact_id_from_bytes object_bytes.
Definition object_store : MemoryArtifactStore := mk_memory_store {[ object_id := object_bytes ]}.

Lemma read_page_exact_witness :
  [2; 1] = take 2 (drop 1 object_bytes) /\ (N.of_nat 2 <= 2 <= MAX_PAGE_BYTES) /\
  (false = true <-> N.of_nat 5 <= 1 + 2).
Proof.
  apply (read_page_exact object_store object_id 1 2 (mk_page 1 [2; 1] false) object_bytes);
    vm_compute; reflexivity.
Defined.

Lemma search_literal_leftmost_witness :
  exists matches offsets, search_literal object_store object_id [1; 2] 4 0 = Ok matches /\
    map ma_offset matches = map N.of_nat offsets /\
    leftmost_from object_bytes [1; 2] 0 4 offsets.
Proof.
  apply (search_literal_leftmost object_store object_id [1; 2] 4 0 object_bytes);
    vm_compute; reflexivity.
Defined.

Definition gc_plan : ArtifactGcPlan :=
  mk_gc_plan {[ object_id ]} [] (mk_quota_status 1 5 true true).
Definition no_quota : ArtifactQuota := mk_quota None None.


Lemma gc_leaves_exactly_reachable_witness :
  removed (mk_gc_report [] (mk_quota_status 1 5 true true)) = unreferenced gc_plan /\
  forall id, objects object_store !! id
    = if mem id (reachable gc_plan) then objects object_store !! id else None.
Proof.
  apply (gc_leaves_exactly_reachable object_store (snapshot_empty header) [object_id] no_quota gc_plan
           object_store (mk_gc_report [] (mk_quota_status 1 5 true true)));
    vm_compute; reflexivity.
Defined.

(** ** Identifiers and JSON *)

Lemma digest_hex_roundtrip_witness :
  digest_from_hex (digest_to_hex digest_zero) = Ok digest_zero.
Proof. apply (digest_hex_roundtrip digest_zero). split; [reflexivity|by repeat constructor]. Defined.

Lemma canonical_writer_injective_witness :
  "a" = "a" /\ 1 = 1 /\ 2 = 2 /\ [("f", [1])] = [("f", [1])].
Proof.
  apply (canonical_writer_injective "a" "a" 1 1 2 2 [("f", [1])] [("f", [1])]);
    repeat constructor.
Defined.

(** A digest function whose results have the documented shape. *)
Definition padded_blake3 : Blake3 := {|
  blake3_hash := fun l => mk_digest (take 32 (map (fun b => b mod 256) l ++ replicate 32 0));
|}.

Lemma padded_blake3_law : @Blake3Law padded_blake3.
Proof.
  intros bytes. split; cbn [blake3_hash digest_bytes padded_blake3].
  - rewrite length_take, length_app, length_replicate. lia.
  - apply Forall_take, Forall_app. split.
    + apply Forall_fmap, Forall_true. intros b. simpl. apply N.mod_lt. done.
    + apply Forall_replicate. lia.
Qed.

Lemma agent_lane_id_total_witness :
  exists agent, @agent_id_derive padded_blake3 unit (mk_id "s") lane_main (mk_id "o") "k" = Ok agent /\
    @agent_lane_id unit agent = Ok (mk_id (as_str agent)).
Proof.
  exact (@agent_lane_id_total padded_blake3 padded_blake3_law unit (mk_id "s") lane_main (mk_id "o") "k").
Defined.

Lemma json_conversion_roundtrip_witness :
  let v := JsonObject [("a", JsonBool true)] in
  (json_finite v = true -> exists m, to_miniserde v = Ok m /\ from_miniserde m = Ok v) /\
  (json_finite v = false -> exists e, to_miniserde v = Err e).
Proof.
  apply (json_conversion_roundtrip (JsonObject [("a", JsonBool true)])).
  simpl. split; [|by repeat constructor]. by repeat constructor.
Defined.
