(* ===== verification/Agents.v ===== *)
(** * tea-session: the durable subagent graph ([crates/tea-session/src/agents.rs])

    [reduce_agent_graph_prefix] scans the session timeline once into ordered
    maps ([GraphScan], the locals of the source function), and then runs one
    loop per fact kind over what the scan collected: spawns, child
    operations, workspace deltas, terminal reports and applied deltas.  Each
    loop is a fold whose body is a definition of its own; every rejection
    carries the source's diagnostic and every [expect] is a [Panic]. *)

From Stdlib Require Import Ascii.
From stdpp Require Import base gmap sets list strings sorting.
From S2P Require Import Prelude RustStr Json Ids Model Records Snapshot Reduction.

Definition SUBAGENT_POLICY_SCHEMA_VERSION : N := 1.
Definition MAX_MODEL_IDENTIFIER_BYTES : N := 512.
Definition MAX_DISPLAY_NAME_BYTES : N := 256.
Definition MAX_TASK_NAME_BYTES : N := 64.
Definition MAX_THINKING_BYTES : N := 32.
Definition MAX_COMMIT_BYTES : N := 200.
Definition MAX_CHANGED_PATH_BYTES : N := 4096.
Definition MAX_INLINE_REPORT_BYTES : N := 32768.

Definition str_len_n (s : string) : N := N.of_nat (str_len s).

(** [validate_bounded_nonempty]. *)
Definition validate_bounded_nonempty (name value : string) (maximum : N) :
    Outcome Corruption unit :=
  reject_if (str_is_empty value || (maximum <? str_len_n value)%N || has_control value)
    [name; " must be a nonempty bounded string without control characters"].

(** [SubagentModelRecord::validate]. *)
Definition validate_subagent_model (m : SubagentModelRecord) : Outcome Corruption unit :=
  check? validate_bounded_nonempty "subagent model provider" (sm_provider m)
           MAX_MODEL_IDENTIFIER_BYTES in
  check? validate_bounded_nonempty "subagent model identifier" (sm_model m)
           MAX_MODEL_IDENTIFIER_BYTES in
  check?
    match sm_revision m with
    | Some revision =>
        validate_bounded_nonempty "subagent model revision" revision MAX_MODEL_IDENTIFIER_BYTES
    | None => Ok ()
    end in
  check? validate_bounded_nonempty "subagent model display name" (sm_display_name m)
           MAX_DISPLAY_NAME_BYTES in
  reject_if (sm_context_window m ==? Some 0%N)
    ["subagent model context window must be nonzero when known"].

(** The loop state of [SubagentPolicyFact::validate]: [identities],
    [model_ids] and [provider]. *)
Definition PolicyScan : Type :=
  gset (string * string * option string) * gset string * option string.

Definition validate_policy_model (acc : PolicyScan) (m : SubagentModelRecord) :
    Outcome Corruption PolicyScan :=
  let '(identities, model_ids, provider) := acc in
  check? validate_subagent_model m in
  let identity := (sm_provider m, sm_model m, sm_revision m) in
  check? reject_if (mem identity identities)
    ["subagent policy repeats model "; sm_provider m; "/"; sm_model m] in
  check? reject_if (mem (sm_model m) model_ids)
    ["subagent policy repeats model identifier "; sm_model m] in
  let? provider :=
    match provider with
    | Some expected =>
        if expected !=? sm_provider m
        then corrupt ["subagent policy must retain exactly one provider family"]
        else Ok (Some expected)
    | None => Ok (Some (sm_provider m))
    end in
  Ok ({[identity]} ∪ identities, {[sm_model m]} ∪ model_ids, provider).

(** [SubagentPolicyFact::validate]. *)
Definition validate_policy (p : SubagentPolicyFact) : Outcome Corruption unit :=
  check? reject_if (sp_schema_version p !=? SUBAGENT_POLICY_SCHEMA_VERSION)
    ["unsupported subagent policy schema version "; show_n (sp_schema_version p)] in
  check? reject_if (match sp_models p with [] => true | _ => false end)
    ["subagent policy must retain a nonempty model catalog"] in
  check? ofold validate_policy_model (∅, ∅, None) (sp_models p) in
  check? reject_if (negb ((1 <=? sp_max_concurrent p) && (sp_max_concurrent p <=? 16))%N)
    ["subagent policy max_concurrent must be within 1..=16"] in
  check? reject_if ((sp_max_total_per_operation p <? sp_max_concurrent p)%N
                    || (64 <? sp_max_total_per_operation p)%N)
    ["subagent policy max_total_per_operation must be within max_concurrent..=64"] in
  reject_if (negb ((30000 <=? sp_timeout_ms p) && (sp_timeout_ms p <=? 7200000))%N)
    ["subagent policy timeout_ms must be within 30000..=7200000"].

(** ** Results *)

Inductive AgentState :=
| AgentIsSpawned
| AgentIsRunning
| AgentIsFinalizing (outcome : OperationOutcome)
| AgentIsCompleted (outcome : OperationOutcome)
| AgentIsInterrupted
| AgentIsFailed (code : string)
| AgentIsDeltaReady (outcome : OperationOutcome) (delta_id : WorkspaceDeltaId)
| AgentIsApplied (outcome : OperationOutcome) (delta_id : WorkspaceDeltaId).

Record AgentGraphNode := mk_graph_node {
  gn_spawned : AgentSpawnedFact;
  gn_operation_id : option OperationId;
  gn_terminal : option AgentTaskFinishedFact;
  gn_workspace_delta : option WorkspaceDeltaFact;
  gn_applied : option WorkspaceDeltaAppliedFact;
  gn_state : AgentState;
}.
#[export] Instance graph_node_eta : Eta AgentGraphNode := fun n =>
  mk_graph_node (gn_spawned n) (gn_operation_id n) (gn_terminal n) (gn_workspace_delta n)
    (gn_applied n) (gn_state n).

Record AgentGraphReduction := mk_graph_reduction {
  gr_policy : option SubagentPolicyFact;
  gr_agents : gmap AgentId AgentGraphNode;
}.

(** Commit sequence first, position inside the session second. *)
Record TimelinePosition := mk_position {
  tp_sequence : Sequence;
  tp_item_index : N;
}.
#[export] Instance position_eq_dec : EqDecision TimelinePosition.
Proof. solve_decision. Defined.
#[export] Instance position_countable : Countable TimelinePosition.
Proof.
  by refine (inj_countable' (fun p => (tp_sequence p, tp_item_index p))
               (fun p => mk_position p.1 p.2) _); intros [].
Defined.

(** The derived [Ord]. *)
Definition position_ltb (a b : TimelinePosition) : bool :=
  (tp_sequence a <? tp_sequence b)%N
  || (tp_sequence a =? tp_sequence b)%N && (tp_item_index a <? tp_item_index b)%N.
Infix "<?p" := position_ltb (at level 70, no associativity) : rust_scope.
Notation "a >=?p b" := (negb (position_ltb a b)) (at level 70, no associativity) : rust_scope.

Record OperationInfo := mk_operation_info {
  oi_lane_id : LaneId;
  oi_kind : OperationKind;
  oi_original_input : list ProvisionedEntry;
  oi_initial_harness_revision : HarnessRevisionId;
  oi_model_harness_profile : ModelHarnessProfileId;
  oi_started_at : TimelinePosition;
  oi_finished : option (TimelinePosition * OperationOutcome);
}.
#[export] Instance operation_info_eta : Eta OperationInfo := fun o =>
  mk_operation_info (oi_lane_id o) (oi_kind o) (oi_original_input o)
    (oi_initial_harness_revision o) (oi_model_harness_profile o) (oi_started_at o) (oi_finished o).

Record ToolInfo := mk_tool_info {
  ti_operation_id : OperationId;
  ti_epoch_id : EpochId;
  ti_tool_name : string;
  ti_effective_args : JsonValue;
  ti_idempotency_key : string;
  ti_position : TimelinePosition;
}.

(** ** The scan *)

Record GraphScan := mk_graph_scan {
  gs_lanes : gmap LaneId (option EntryId * TimelinePosition);
  gs_entries : gmap EntryId (LaneId * SessionEntry * TimelinePosition);
  gs_operations : gmap OperationId OperationInfo;
  gs_epochs : gmap EpochId (OperationId * option EntryId * TimelinePosition);
  gs_tools : gmap string (list ToolInfo);
  gs_policy : option SubagentPolicyFact;
  gs_policy_sequence : option TimelinePosition;
  gs_spawns : list (TimelinePosition * AgentSpawnedFact);
  gs_deltas : list (TimelinePosition * WorkspaceDeltaFact);
  gs_terminals : list (TimelinePosition * AgentTaskFinishedFact);
  gs_applied : list (TimelinePosition * WorkspaceDeltaAppliedFact);
  gs_item_index : N;
}.
#[export] Instance graph_scan_eta : Eta GraphScan := fun g =>
  mk_graph_scan (gs_lanes g) (gs_entries g) (gs_operations g) (gs_epochs g) (gs_tools g)
    (gs_policy g) (gs_policy_sequence g) (gs_spawns g) (gs_deltas g) (gs_terminals g)
    (gs_applied g) (gs_item_index g).

Definition graph_scan_initial (header : SessionHeader) : GraphScan := {|
  gs_lanes := {[ sh_initial_lane header := (None, mk_position 0%N 0%N) ]};
  gs_entries := ∅;
  gs_operations := ∅;
  gs_epochs := ∅;
  gs_tools := ∅;
  gs_policy := None;
  gs_policy_sequence := None;
  gs_spawns := [];
  gs_deltas := [];
  gs_terminals := [];
  gs_applied := [];
  gs_item_index := 0%N;
|}.

(** The [LaneRecord] arm of the scan. *)
Definition scan_record (g : GraphScan) (position : TimelinePosition) (record : LaneRecord) :
    Outcome Corruption GraphScan :=
  match record with
  | OperationStarted record =>
      Ok (g <| gs_operations ::= <[os_id record := {|
             oi_lane_id := os_lane_id record;
             oi_kind := os_kind record;
             oi_original_input := os_original_input record;
             oi_initial_harness_revision := os_initial_harness_revision record;
             oi_model_harness_profile := os_model_harness_profile record;
             oi_started_at := position;
             oi_finished := None;
           |}]> |>)
  | OperationFinished record =>
      let? operation := ok_or (gs_operations g !! of_operation_id record)
        (mk_corruption (fmt ["agent graph operation finish refers to unknown operation ";
           as_str (of_operation_id record)])) in
      Ok (g <| gs_operations ::= <[of_operation_id record :=
             operation <| oi_finished := Some (position, of_outcome record) |>]> |>)
  | EpochStarted record =>
      Ok (g <| gs_epochs ::= <[es_id record :=
             (es_operation_id record, es_source_leaf_id record, position)]> |>)
  | ToolStarted record =>
      let tool := {|
        ti_operation_id := ts_operation_id record;
        ti_epoch_id := ts_epoch_id record;
        ti_tool_name := ts_tool_name record;
        ti_effective_args := ts_effective_args record;
        ti_idempotency_key := ts_idempotency_key record;
        ti_position := position;
      |} in
      Ok (g <| gs_tools ::= fun tools => <[ts_tool_call_id record :=
             default [] (tools !! ts_tool_call_id record) ++ [tool]]> tools |>)
  | _ => Ok g
  end.

(** The [SessionFact] arm of the scan. *)
Definition scan_fact (g : GraphScan) (position : TimelinePosition) (fact : SessionFact) :
    Outcome Corruption GraphScan :=
  match fact with
  | SubagentPolicy value =>
      check? reject_if (match gs_policy g with Some _ => true | None => false end)
        ["session contains more than one subagent policy fact"] in
      check? validate_policy value in
      Ok (g <| gs_policy := Some value |> <| gs_policy_sequence := Some position |>)
  | AgentSpawned value => Ok (g <| gs_spawns ::= fun l => l ++ [(position, value)] |>)
  | WorkspaceDelta value => Ok (g <| gs_deltas ::= fun l => l ++ [(position, value)] |>)
  | AgentTaskFinished value => Ok (g <| gs_terminals ::= fun l => l ++ [(position, value)] |>)
  | WorkspaceDeltaApplied value => Ok (g <| gs_applied ::= fun l => l ++ [(position, value)] |>)
  | _ => Ok g
  end.

(** The body of the scanning loop. *)
Definition scan_step (g : GraphScan) (m : StoredMutation) : Outcome Corruption GraphScan :=
  let position := mk_position (smu_seq m) (gs_item_index g) in
  let g := g <| gs_item_index ::= fun n => u64_saturating_add n 1 |> in
  match smu_mutation m with
  | MutLane stored =>
      let '(LaneCreated lane_id base_leaf_id) := sl_mutation stored in
      Ok (g <| gs_lanes ::= <[lane_id := (base_leaf_id, position)]> |>)
  | MutEntry stored =>
      Ok (g <| gs_entries ::= <[eh_id (se_header stored) :=
             (se_lane_id stored, se_body stored, position)]> |>)
  | MutRecord stored => scan_record g position (sr_record stored)
  | MutFact stored => scan_fact g position (sf_fact stored)
  end.

Definition graph_scan (header : SessionHeader) (ms : list StoredMutation) :
    Outcome Corruption GraphScan :=
  ofold scan_step (graph_scan_initial header) ms.

(** ** Fact validation *)

Definition colon_byte : N := 58.

(** The body of [validate_changed_paths]. *)
Definition validate_changed_path (previous : option string) (path : string) :
    Outcome Corruption (option string) :=
  check? reject_if
    (str_is_empty path || (MAX_CHANGED_PATH_BYTES <? str_len_n path)%N || str_contains nul path
     || str_starts_with slash path || str_starts_with backslash path
     || (bytes_of path !! 1%nat ==? Some colon_byte) || str_contains backslash path)
    ["workspace delta path must be a bounded normalized repository-relative path"] in
  check? reject_if (existsb segment_is_traversal (str_split slash path))
    ["workspace delta path contains an empty, current, or parent component"] in
  check? reject_if
    (match previous with Some previous => String.leb path previous | None => false end)
    ["workspace delta paths must be unique and deterministically ordered"] in
  Ok (Some path).

(** [validate_changed_paths]. *)
Definition validate_changed_paths (paths : list string) : Outcome Corruption unit :=
  check? ofold validate_changed_path None paths in Ok ().

(** [validate_task_name]. *)
Definition task_name_byte (b : N) : bool :=
  is_ascii_lowercase b || is_ascii_digit b || (b =? 95)%N.

Definition validate_task_name (task_name : string) : Outcome Corruption unit :=
  check? reject_if (str_is_empty task_name || (MAX_TASK_NAME_BYTES <? str_len_n task_name)%N)
    ["agent task name must contain 1..=64 ASCII bytes"] in
  match bytes_of task_name with
  | [] => Panic "index out of bounds"
  | first :: rest =>
      reject_if (negb (is_ascii_lowercase first) || negb (forallb task_name_byte rest))
        ["agent task name must match ^[a-z][a-z0-9_]{0,63}$"]
  end.

(** [validate_terminal]. *)
Definition validate_terminal (terminal : AgentTaskFinishedFact) : Outcome Corruption unit :=
  match af_report terminal with
  | PayloadInline value =>
      match json_as_str value with
      | None => corrupt ["inline agent report must be a UTF-8 string"]
      | Some report =>
          reject_if (MAX_INLINE_REPORT_BYTES <? str_len_n report)%N
            ["inline agent report exceeds the 32768-byte retention limit"]
      end
  | PayloadArtifact _ _ media_type =>
      validate_bounded_nonempty "agent report media type" media_type MAX_DISPLAY_NAME_BYTES
  end.

(** [validate_child_operation_identity]. *)
Definition validate_child_operation_identity (operation : OperationInfo)
    (spawn : AgentSpawnedFact) : Outcome Corruption unit :=
  reject_if ((oi_lane_id operation !=? as_lane_id spawn)
             || (oi_initial_harness_revision operation !=? as_harness_revision_id spawn)
             || (oi_model_harness_profile operation !=? as_model_harness_profile_id spawn))
    ["child operation identity does not match its agent spawn"].

(** [validate_apply_tool_args]. *)
Definition validate_apply_tool_args (tool : ToolInfo) (delta_id : WorkspaceDeltaId) :
    Outcome Corruption unit :=
  let? fields := ok_or (json_as_object (ti_effective_args tool))
    (mk_corruption (fmt ["apply_agent_changes effective arguments are not an object"])) in
  reject_if (negb (length fields =? 1)%nat
             || (mbind json_as_str (btree_get "delta_id" fields) !=? Some (as_str delta_id)))
    ["apply_agent_changes intent does not authorize workspace delta "; as_str delta_id].

Definition spawn_argument_known (key : string) : bool :=
  existsb (String.eqb key) ["task_name"; "task"; "model"; "thinking"; "context"].

(** The [string_field] closure of [spawn_tool_assignment]. *)
Definition spawn_string_field (spawn : AgentSpawnedFact) (fields : list (string * JsonValue))
    (name : string) : Outcome Corruption string :=
  ok_or (mbind json_as_str (btree_get name fields))
    (mk_corruption (fmt ["agent "; as_str (as_agent_id spawn);
       " spawn_agent effective arguments require string field "; name])).

Definition spawn_context_mode (spawn : AgentSpawnedFact) (context : option JsonValue) :
    Outcome Corruption AgentContextMode :=
  let bad := corrupt ["agent "; as_str (as_agent_id spawn);
                      " spawn_agent context must be task or parent"] in
  match context with
  | None => Ok ContextTask
  | Some (JsonString value) =>
      if String.eqb value "task" then Ok ContextTask
      else if String.eqb value "parent" then Ok ContextParent
      else bad
  | Some _ => bad
  end.

(** [spawn_tool_assignment]. *)
Definition spawn_tool_assignment (tool : ToolInfo) (spawn : AgentSpawnedFact) :
    Outcome Corruption string :=
  let agent := as_str (as_agent_id spawn) in
  let? fields := ok_or (json_as_object (ti_effective_args tool))
    (mk_corruption (fmt ["agent "; agent; " spawn_agent effective arguments are not an object"])) in
  check? reject_if (existsb (fun key => negb (spawn_argument_known key)) (fields.*1))
    ["agent "; agent; " spawn_agent effective arguments contain an unknown field"] in
  let differs :=
    corrupt ["agent "; agent; " spawn fact differs from its durable effective arguments"] in
  let? task_name := spawn_string_field spawn fields "task_name" in
  check? (if task_name !=? as_task_name spawn then differs else
          let? model := spawn_string_field spawn fields "model" in
          if model !=? sm_model (as_model spawn) then differs else Ok ()) in
  let? task := spawn_string_field spawn fields "task" in
  check? reject_if (str_is_empty task || negb (str_is_trimmed task)
                    || (65536 <? str_len_n task)%N)
    ["agent "; agent; " spawn assignment must be trimmed nonempty UTF-8 within 65536 bytes"] in
  let? context_mode := spawn_context_mode spawn (btree_get "context" fields) in
  check? reject_if (context_mode !=? as_context_mode spawn)
    ["agent "; agent; " context differs from its durable effective arguments"] in
  check? reject_if
    (match btree_get "thinking" fields with
     | Some thinking => json_as_str thinking !=? Some (as_thinking spawn)
     | None => false
     end)
    ["agent "; agent; " thinking differs from its durable effective arguments"] in
  Ok task.

(** The three "latest before" accumulators of [validate_spawn]. *)
Definition SpawnConfiguration : Type :=
  option (TimelinePosition * ModelChangedEntry) * option (TimelinePosition * string)
  * option (TimelinePosition * HarnessRevisionChangedEntry).

Definition is_newer {A} (prior : option (TimelinePosition * A)) (position : TimelinePosition) :
    bool :=
  match prior with Some (prior, _) => prior <?p position | None => true end.

Definition observe_configuration (lane : LaneId) (before : TimelinePosition)
    (c : SpawnConfiguration) (entry : LaneId * SessionEntry * TimelinePosition) :
    SpawnConfiguration :=
  let '(model, thinking, harness) := c in
  let '(lane_id, entry, position) := entry in
  if (lane_id !=? lane) || (position >=?p before) then c
  else match entry with
       | ModelChanged value =>
           if is_newer model position then (Some (position, value), thinking, harness) else c
       | ThinkingChanged value =>
           if is_newer thinking position then (model, Some (position, th_level value), harness)
           else c
       | HarnessRevisionChanged value =>
           if is_newer harness position then (model, thinking, Some (position, value)) else c
       | _ => c
       end.

Definition configuration_matches (c : SpawnConfiguration) (spawn : AgentSpawnedFact) : bool :=
  let '(model, thinking, harness) := c in
  match model with
  | Some (_, m) => (mc_provider m ==? sm_provider (as_model spawn))
                   && (mc_model m ==? sm_model (as_model spawn))
                   && (mc_revision m ==? sm_revision (as_model spawn))
  | None => false
  end
  && match thinking with Some (_, value) => value ==? as_thinking spawn | None => false end
  && match harness with
     | Some (_, value) => (hr_revision_id value ==? as_harness_revision_id spawn)
                          && (hr_snapshot_id value ==? as_harness_snapshot_id spawn)
     | None => false
     end.

(** The tool intents of one operation under one name, before a position. *)
Definition tool_matches (operation_id : OperationId) (tool_name : string) (tool : ToolInfo) : bool :=
  (ti_operation_id tool ==? operation_id) && (ti_tool_name tool ==? tool_name).

Definition prior_tools (g : GraphScan) (call_id : string) (position : TimelinePosition)
    (operation_id : OperationId) (tool_name : string) : list ToolInfo :=
  List.filter (fun tool => (ti_position tool <?p position)
                           && tool_matches operation_id tool_name tool)
    (default [] (gs_tools g !! call_id)).

Definition thinking_level_known (value : string) : bool :=
  existsb (String.eqb value) ["off"; "minimal"; "low"; "medium"; "high"; "xhigh"; "max"].

Definition is_subagent_kind (kind : OperationKind) : bool :=
  match kind with KindSubagent _ _ => true | _ => false end.

Abbreviation AgentNodes := (gmap AgentId AgentGraphNode).

Section graph.
Context `{Blake3}.

(** [validate_delta]. *)
Definition validate_delta (delta : WorkspaceDeltaFact) : Outcome Corruption unit :=
  check? validate_bounded_nonempty "workspace delta base commit" (wf_base_commit delta)
           MAX_COMMIT_BYTES in
  check? validate_bounded_nonempty "workspace delta result commit" (wf_result_commit delta)
           MAX_COMMIT_BYTES in
  let? derived := workspace_delta_id_derive (wf_workspace_lease_id delta) (wf_base_commit delta)
                    (wf_result_commit delta) in
  check? reject_if (derived !=? wf_delta_id delta)
    ["workspace delta "; as_str (wf_delta_id delta); " does not match its deterministic identity"] in
  check? reject_if (match wf_changed_paths delta with [] => true | _ => false end)
    ["workspace delta must retain at least one changed path"] in
  check? validate_changed_paths (wf_changed_paths delta) in
  match wf_patch delta with
  | PayloadArtifact _ byte_len media_type =>
      if (0 <? byte_len)%N
      then validate_bounded_nonempty "workspace delta patch media type" media_type
             MAX_DISPLAY_NAME_BYTES
      else corrupt ["workspace delta patch artifact must have a nonzero byte length"]
  | PayloadInline _ => corrupt ["workspace delta patch must be retained as an immutable artifact"]
  end.

(** The parent-operation half of [validate_spawn]. *)
Definition validate_spawn_parent (g : GraphScan) (position : TimelinePosition)
    (spawn : AgentSpawnedFact) : Outcome Corruption unit :=
  let agent := as_str (as_agent_id spawn) in
  let? parent := ok_or (gs_operations g !! as_parent_operation_id spawn)
    (mk_corruption (fmt ["agent "; agent; " refers to unknown parent operation ";
       as_str (as_parent_operation_id spawn)])) in
  reject_if ((oi_lane_id parent !=? as_parent_lane_id spawn)
             || (oi_lane_id parent !=? lane_main)
             || is_subagent_kind (oi_kind parent)
             || match oi_finished parent with
                | Some (finished, _) => finished <?p position
                | None => false
                end)
    ["agent "; agent; " parent operation is not a root-lane operation"].

(** The child-lane half of [validate_spawn]. *)
Definition validate_spawn_lane (g : GraphScan) (position : TimelinePosition)
    (spawn : AgentSpawnedFact) (tool : ToolInfo) : Outcome Corruption unit :=
  let agent := as_str (as_agent_id spawn) in
  let? (base_leaf_id, lane_position) := ok_or (gs_lanes g !! as_lane_id spawn)
    (mk_corruption (fmt ["agent "; agent; " refers to a missing child lane ";
       as_str (as_lane_id spawn)])) in
  check? reject_if ((lane_position >=?p position) || (base_leaf_id !=? as_base_leaf_id spawn))
    ["agent "; agent; " child lane does not match its durable branch base"] in
  check?
    match as_context_mode spawn, as_base_leaf_id spawn with
    | ContextTask, None | ContextParent, Some _ => Ok ()
    | ContextTask, Some _ => corrupt ["task-context agent must not inherit a base leaf"]
    | ContextParent, None => corrupt ["parent-context agent requires a base leaf"]
    end in
  let? (epoch_operation, epoch_leaf, epoch_position) := ok_or (gs_epochs g !! ti_epoch_id tool)
    (mk_corruption (fmt ["agent "; agent; " spawn tool intent refers to an unknown epoch"])) in
  check? reject_if ((epoch_operation !=? as_parent_operation_id spawn)
                    || (epoch_position >=?p position))
    ["agent "; agent; " spawn tool epoch does not belong to its parent operation"] in
  check? reject_if ((as_context_mode spawn ==? ContextParent)
                    && (as_base_leaf_id spawn !=? epoch_leaf))
    ["parent-context agent must fork the exact parent epoch source leaf"] in
  let configuration := foldl (observe_configuration (as_lane_id spawn) position)
                         (None, None, None) (btree_values (gs_entries g)) in
  reject_if (negb (configuration_matches configuration spawn))
    ["agent "; agent; " child lane configuration does not match its spawn fact"].

(** [validate_spawn]. *)
Definition validate_spawn (session_id : SessionId) (g : GraphScan) (policy : SubagentPolicyFact)
    (position : TimelinePosition) (spawn : AgentSpawnedFact) : Outcome Corruption unit :=
  let agent := as_str (as_agent_id spawn) in
  check? validate_task_name (as_task_name spawn) in
  check? validate_bounded_nonempty "agent thinking" (as_thinking spawn) MAX_THINKING_BYTES in
  check? reject_if (negb (thinking_level_known (as_thinking spawn)))
    ["agent thinking must name a documented thinking level"] in
  check? validate_bounded_nonempty "agent spawn tool call ID" (as_spawn_tool_call_id spawn)
           MAX_MODEL_IDENTIFIER_BYTES in
  check? validate_subagent_model (as_model spawn) in
  check? reject_if (negb (existsb (fun model => model ==? as_model spawn) (sp_models policy)))
    ["agent "; agent; " selected a model outside the persisted subagent policy"] in
  check? validate_spawn_parent g position spawn in
  match prior_tools g (as_spawn_tool_call_id spawn) position (as_parent_operation_id spawn)
          "spawn_agent" with
  | [tool] =>
      check? spawn_tool_assignment tool spawn in
      let? derived := agent_id_derive session_id (as_parent_lane_id spawn)
                        (as_parent_operation_id spawn) (ti_idempotency_key tool) in
      check? reject_if (derived !=? as_agent_id spawn)
        ["agent "; agent; " does not match its deterministic spawn identity"] in
      let? lane := agent_lane_id (as_agent_id spawn) in
      check? reject_if (as_lane_id spawn !=? lane)
        ["agent "; agent; " does not own its deterministic child lane"] in
      let? lease := workspace_lease_id_derive (as_agent_id spawn) in
      check? reject_if (as_workspace_lease_id spawn !=? lease)
        ["agent "; agent; " does not own its deterministic workspace lease"] in
      validate_spawn_lane g position spawn tool
  | _ => corrupt ["agent "; agent;
                  " must correlate with exactly one parent spawn_agent tool intent"]
  end.

(** ** The graph loops *)

Definition spawn_node (spawn : AgentSpawnedFact) : AgentGraphNode := {|
  gn_spawned := spawn;
  gn_operation_id := None;
  gn_terminal := None;
  gn_workspace_delta := None;
  gn_applied := None;
  gn_state := AgentIsSpawned;
|}.

(** [{:?}] of a task name, which holds no character that needs escaping. *)
Definition quote : string := String (ascii_of_byte 34) EmptyString.

(** The loop state of the spawn loop: [nodes], [agent_by_lane], [task_names]. *)
Record SpawnLoop := mk_spawn_loop {
  sl_nodes : AgentNodes;
  sl_agent_by_lane : gmap LaneId AgentId;
  sl_task_names : gset (OperationId * string);
}.

Definition graph_spawn (session_id : SessionId) (g : GraphScan) (l : SpawnLoop)
    (item : TimelinePosition * AgentSpawnedFact) : Outcome Corruption SpawnLoop :=
  let '(position, spawn) := item in
  let? policy := ok_or (gs_policy g)
    (mk_corruption (fmt ["agent spawn requires a prior persisted subagent policy"])) in
  check? reject_if
    (match gs_policy_sequence g with
     | Some policy_sequence => policy_sequence >=?p position
     | None => true
     end)
    ["agent spawn must follow the persisted subagent policy"] in
  check? validate_spawn session_id g policy position spawn in
  check? reject_if (has (as_agent_id spawn) (sl_nodes l))
    ["agent "; as_str (as_agent_id spawn); " was spawned more than once"] in
  check? reject_if (has (as_lane_id spawn) (sl_agent_by_lane l))
    ["lane "; as_str (as_lane_id spawn); " is bound to more than one agent"] in
  let task := (as_parent_operation_id spawn, as_task_name spawn) in
  check? reject_if (mem task (sl_task_names l))
    ["root operation "; as_str (as_parent_operation_id spawn); " has duplicate child task name ";
     quote; as_task_name spawn; quote] in
  Ok {|
    sl_nodes := <[as_agent_id spawn := spawn_node spawn]> (sl_nodes l);
    sl_agent_by_lane := <[as_lane_id spawn := as_agent_id spawn]> (sl_agent_by_lane l);
    sl_task_names := {[task]} ∪ sl_task_names l;
  |}.

(** [spawn_positions]: a later spawn of the same agent replaces an earlier one. *)
Definition spawn_positions (g : GraphScan) : gmap AgentId TimelinePosition :=
  foldl (fun m '(position, spawn) => <[as_agent_id spawn := position]> m) ∅ (gs_spawns g).

(** The loop over [operations]. *)
Definition graph_operation (g : GraphScan) (agent_by_lane : gmap LaneId AgentId)
    (nodes : AgentNodes) (item : OperationId * OperationInfo) : Outcome Corruption AgentNodes :=
  let '(operation_id, operation) := item in
  let op := as_str operation_id in
  check? reject_if
    (match agent_by_lane !! oi_lane_id operation with
     | Some bound_agent =>
         negb match oi_kind operation with
              | KindSubagent agent_id _ => agent_id ==? bound_agent
              | _ => false
              end
     | None => false
     end)
    ["agent-bound lane "; as_str (oi_lane_id operation); " contains unrelated operation "; op] in
  match oi_kind operation with
  | KindSubagent agent_id parent_operation_id =>
      let? node := ok_or (nodes !! agent_id)
        (mk_corruption (fmt ["subagent operation "; op; " has no preceding agent spawn fact"])) in
      check? reject_if ((as_parent_operation_id (gn_spawned node) !=? parent_operation_id)
                        || (as_lane_id (gn_spawned node) !=? oi_lane_id operation))
        ["subagent operation "; op; " disagrees with agent "; as_str agent_id; " linkage"] in
      let? spawned_at := ok_or (spawn_positions g !! agent_id)
        (mk_corruption (fmt ["agent "; as_str agent_id; " has no spawn sequence"])) in
      check? reject_if (negb (spawned_at <?p oi_started_at operation))
        ["subagent operation "; op; " precedes its agent spawn fact"] in
      check? reject_if (match gn_operation_id node with Some _ => true | None => false end)
        ["agent "; as_str agent_id; " has more than one child operation"] in
      match oi_original_input operation with
      | [input] =>
          match pe_body input with
          | UserMessage assignment =>
              let? derived := derive_subagent_operation_id agent_id (um_content assignment) in
              check? reject_if (derived !=? operation_id)
                ["subagent operation "; op;
                 " does not match its deterministic assignment identity"] in
              let? spawn_tool := expect
                (List.find (tool_matches (as_parent_operation_id (gn_spawned node)) "spawn_agent")
                   (default [] (gs_tools g !! as_spawn_tool_call_id (gn_spawned node))))
                "agent spawn tool was validated" in
              let? task := spawn_tool_assignment spawn_tool (gn_spawned node) in
              check? reject_if (task !=? um_content assignment)
                ["subagent operation "; op; " assignment differs from its spawn_agent intent"] in
              check? validate_child_operation_identity operation (gn_spawned node) in
              Ok (<[agent_id := node <| gn_operation_id := Some operation_id |>]> nodes)
          | _ => corrupt ["subagent operation "; op; " assignment must be a user message"]
          end
      | _ => corrupt ["subagent operation "; op; " must accept exactly one assignment entry"]
      end
  | _ => Ok nodes
  end.

(** The loop state of the delta loop. *)
Record DeltaLoop := mk_delta_loop {
  dl_by_id : gmap WorkspaceDeltaId (TimelinePosition * WorkspaceDeltaFact);
  dl_by_agent : gmap AgentId WorkspaceDeltaId;
}.

(** The loop over [deltas]. *)
Definition graph_delta (g : GraphScan) (nodes : AgentNodes) (l : DeltaLoop)
    (item : TimelinePosition * WorkspaceDeltaFact) : Outcome Corruption DeltaLoop :=
  let '(position, delta) := item in
  let id := as_str (wf_delta_id delta) in
  let agent := as_str (wf_agent_id delta) in
  check? validate_delta delta in
  let? node := ok_or (nodes !! wf_agent_id delta)
    (mk_corruption (fmt ["workspace delta "; id; " refers to unknown agent "; agent])) in
  check? reject_if (as_workspace_lease_id (gn_spawned node) !=? wf_workspace_lease_id delta)
    ["workspace delta "; id; " does not use agent "; agent; " lease"] in
  let? operation_id := ok_or (gn_operation_id node)
    (mk_corruption (fmt ["workspace delta "; id; " exists before agent "; agent;
       " operation acceptance"])) in
  let? operation := expect (gs_operations g !! operation_id) "agent operation was indexed" in
  match oi_finished operation with
  | None => corrupt ["workspace delta "; id; " precedes child operation completion"]
  | Some (finished_sequence, _) =>
      check? reject_if (finished_sequence >=?p position)
        ["workspace delta "; id; " must follow child operation completion"] in
      check? reject_if (has (wf_agent_id delta) (dl_by_agent l)
                        || has (wf_delta_id delta) (dl_by_id l))
        ["agent "; agent; " has more than one workspace delta"] in
      Ok {|
        dl_by_id := <[wf_delta_id delta := (position, delta)]> (dl_by_id l);
        dl_by_agent := <[wf_agent_id delta := wf_delta_id delta]> (dl_by_agent l);
      |}
  end.

(** The loop that hands each node its delta. *)
Definition attach_delta (l : DeltaLoop) (node : AgentGraphNode) : AgentGraphNode :=
  match dl_by_agent l !! as_agent_id (gn_spawned node) with
  | Some delta_id =>
      match dl_by_id l !! delta_id with
      | Some (_, delta) => node <| gn_workspace_delta := Some delta |>
      | None => node
      end
  | None => node
  end.

Definition is_assistant_entry (entry : SessionEntry) : bool :=
  match entry with AssistantMessage _ => true | _ => false end.

(** [max_by_key]: of equal keys the last one wins. *)
Definition later_entry (best : option (TimelinePosition * EntryId))
    (candidate : TimelinePosition * EntryId) : option (TimelinePosition * EntryId) :=
  match best with
  | Some b => if candidate.1 <?p b.1 then Some b else Some candidate
  | None => Some candidate
  end.

(** [expected_final_entry_id]. *)
Definition expected_final_entry (g : GraphScan) (lane : LaneId)
    (started_at finished : TimelinePosition) : option EntryId :=
  snd <$> foldl later_entry None
    (omap (fun '(entry_id, (lane_id, entry, position)) =>
       if (lane_id ==? lane) && (started_at <?p position) && (position <?p finished)
          && is_assistant_entry entry
       then Some (position, entry_id) else None)
     (btree_iter (gs_entries g))).

Definition inline_report (report : PayloadRef) : option string :=
  match report with PayloadInline (JsonString report) => Some report | _ => None end.

(** The checks of a terminal result's final entry. *)
Definition validate_final_entry (g : GraphScan) (position : TimelinePosition) (lane : LaneId)
    (terminal : AgentTaskFinishedFact) : Outcome Corruption unit :=
  let agent := as_str (af_agent_id terminal) in
  match af_final_entry_id terminal with
  | None => Ok ()
  | Some entry_id =>
      let? (lane_id, entry, entry_position) := ok_or (gs_entries g !! entry_id)
        (mk_corruption (fmt ["agent terminal result "; agent; " refers to missing final entry ";
           as_str entry_id])) in
      check? reject_if ((entry_position >=?p position) || (lane_id !=? lane)
                        || negb (is_assistant_entry entry))
        ["agent terminal result "; agent; " final entry is not a child assistant entry"] in
      reject_if
        (match entry, inline_report (af_report terminal) with
         | AssistantMessage assistant, Some report => assistant_text assistant !=? report
         | _, _ => false
         end)
        ["agent terminal result "; agent; " inline report differs from its final assistant entry"]
  end.

(** The checks of a terminal result's workspace delta. *)
Definition validate_terminal_delta (l : DeltaLoop) (position : TimelinePosition)
    (node : AgentGraphNode) (terminal : AgentTaskFinishedFact) : Outcome Corruption unit :=
  let agent := as_str (af_agent_id terminal) in
  match af_workspace_delta_id terminal, gn_workspace_delta node with
  | Some delta_id, workspace_delta =>
      if match workspace_delta with Some delta => delta_id ==? wf_delta_id delta | None => false end
      then reject_if
             (match dl_by_id l !! delta_id with
              | Some (delta_position, _) => delta_position >=?p position
              | None => true
              end)
             ["agent terminal result "; agent; " must follow its workspace delta fact"]
      else corrupt ["agent terminal result "; agent; " refers to unknown workspace delta ";
                    as_str delta_id]
  | None, Some _ =>
      corrupt ["agent terminal result "; agent; " omits its durable workspace delta"]
  | None, None => Ok ()
  end.

(** The loop state of the terminal loop: [nodes] and [terminal_positions]. *)
Record TerminalLoop := mk_terminal_loop {
  tl_nodes : AgentNodes;
  tl_positions : gmap AgentId TimelinePosition;
}.

(** The loop over [terminals]. *)
Definition graph_terminal (g : GraphScan) (deltas : DeltaLoop) (l : TerminalLoop)
    (item : TimelinePosition * AgentTaskFinishedFact) : Outcome Corruption TerminalLoop :=
  let '(position, terminal) := item in
  let agent := as_str (af_agent_id terminal) in
  check? validate_terminal terminal in
  let? node := ok_or (tl_nodes l !! af_agent_id terminal)
    (mk_corruption (fmt ["agent terminal result refers to unknown agent "; agent])) in
  check? reject_if (gn_operation_id node !=? Some (af_operation_id terminal))
    ["agent terminal result "; agent; " does not name its child operation"] in
  let? operation := expect (gs_operations g !! af_operation_id terminal)
    "agent operation was indexed" in
  match oi_finished operation with
  | None => corrupt ["agent terminal result "; agent; " precedes child operation completion"]
  | Some (finished_sequence, outcome) =>
      check? reject_if ((finished_sequence >=?p position) || (outcome !=? af_outcome terminal))
        ["agent terminal result "; agent; " disagrees with child operation outcome"] in
      check? reject_if
        (af_final_entry_id terminal
           !=? expected_final_entry g (as_lane_id (gn_spawned node)) (oi_started_at operation)
                 finished_sequence)
        ["agent terminal result "; agent;
         " does not name its operation's final assistant entry"] in
      check? validate_final_entry g position (as_lane_id (gn_spawned node)) terminal in
      check? validate_terminal_delta deltas position node terminal in
      check? reject_if (match gn_terminal node with Some _ => true | None => false end)
        ["agent has more than one terminal result fact"] in
      check? reject_if (has (as_agent_id (gn_spawned node)) (tl_positions l))
        ["agent has more than one terminal result sequence"] in
      Ok {|
        tl_nodes := <[af_agent_id terminal :=
                        node <| gn_terminal := Some terminal |>]> (tl_nodes l);
        tl_positions := <[as_agent_id (gn_spawned node) := position]> (tl_positions l);
      |}
  end.

(** The loop state of the application loop: [nodes] and [used_apply_intents]. *)
Record ApplyLoop := mk_apply_loop {
  al_nodes : AgentNodes;
  al_used : gset (OperationId * string * TimelinePosition);
}.

(** The loop over [applied]. *)
Definition graph_applied (g : GraphScan) (deltas : DeltaLoop)
    (terminal_positions : gmap AgentId TimelinePosition) (l : ApplyLoop)
    (item : TimelinePosition * WorkspaceDeltaAppliedFact) : Outcome Corruption ApplyLoop :=
  let '(position, fact) := item in
  let id := as_str (wa_delta_id fact) in
  check? validate_changed_paths (wa_changed_paths fact) in
  check? validate_bounded_nonempty "applied delta tool call ID" (wa_tool_call_id fact)
           MAX_MODEL_IDENTIFIER_BYTES in
  let? (delta_position, delta) := ok_or (dl_by_id deltas !! wa_delta_id fact)
    (mk_corruption (fmt ["applied workspace delta "; id; " is unknown"])) in
  check? reject_if (delta_position >=?p position)
    ["applied workspace delta "; id; " precedes its delta fact"] in
  check? reject_if (wa_changed_paths fact !=? wf_changed_paths delta)
    ["applied workspace delta "; id; " has different changed paths"] in
  let? node := expect (al_nodes l !! wf_agent_id delta) "workspace delta agent was validated" in
  check? reject_if
    (match gn_terminal node with
     | Some terminal => af_workspace_delta_id terminal !=? Some (wf_delta_id delta)
     | None => true
     end)
    ["applied workspace delta "; id; " has no durable child terminal result"] in
  check? reject_if
    (match terminal_positions !! wf_agent_id delta with
     | Some terminal_position => terminal_position >=?p position
     | None => true
     end)
    ["applied workspace delta "; id; " must follow the child terminal result"] in
  check? reject_if (wa_target_lane_id fact !=? as_parent_lane_id (gn_spawned node))
    ["applied workspace delta "; id; " targets a lane other than its parent"] in
  match prior_tools g (wa_tool_call_id fact) position
          (as_parent_operation_id (gn_spawned node)) "apply_agent_changes" with
  | [apply_tool] =>
      check? validate_apply_tool_args apply_tool (wa_delta_id fact) in
      let intent := (ti_operation_id apply_tool, wa_tool_call_id fact, ti_position apply_tool) in
      check? reject_if (mem intent (al_used l))
        ["one apply_agent_changes intent cannot authorize more than one applied fact"] in
      check? reject_if (match gn_applied node with Some _ => true | None => false end)
        ["workspace delta was applied more than once"] in
      Ok {|
        al_nodes := <[wf_agent_id delta := node <| gn_applied := Some fact |>]> (al_nodes l);
        al_used := {[intent]} ∪ al_used l;
      |}
  | _ => corrupt ["applied workspace delta "; id;
           " must correlate with exactly one parent apply_agent_changes tool intent"]
  end.

(** The final loop: the derived state of one node. *)
Definition derive_agent_state (g : GraphScan) (node : AgentGraphNode) :
    Outcome Corruption AgentState :=
  match gn_operation_id node, gn_terminal node, gn_workspace_delta node, gn_applied node with
  | None, _, _, _ => Ok AgentIsSpawned
  | Some operation_id, None, _, _ =>
      let? operation := expect (gs_operations g !! operation_id) "agent operation was indexed" in
      Ok match oi_finished operation with
         | Some (_, outcome) => AgentIsFinalizing outcome
         | None => AgentIsRunning
         end
  | Some _, Some terminal, Some delta, Some _ =>
      Ok (AgentIsApplied (af_outcome terminal) (wf_delta_id delta))
  | Some _, Some terminal, Some delta, None =>
      Ok (AgentIsDeltaReady (af_outcome terminal) (wf_delta_id delta))
  | Some _, Some terminal, None, None =>
      Ok match af_outcome terminal with
         | OutcomeCompleted => AgentIsCompleted OutcomeCompleted
         | OutcomeAborted => AgentIsInterrupted
         | OutcomeFailed code => AgentIsFailed code
         end
  | Some _, Some _, None, Some _ => corrupt ["agent applied state has no durable workspace delta"]
  end.

Definition graph_state (g : GraphScan) (nodes : AgentNodes) (item : AgentId * AgentGraphNode) :
    Outcome Corruption AgentNodes :=
  let '(agent_id, node) := item in
  let? state := derive_agent_state g node in
  Ok (<[agent_id := node <| gn_state := state |>]> nodes).

(** The positions at which the root lane's harness revisions were recorded. *)
Definition root_revision_positions (header : SessionHeader) (g : GraphScan) :
    list TimelinePosition :=
  omap (fun '(lane_id, entry, position) =>
    if (lane_id ==? sh_initial_lane header)
       && match entry with HarnessRevisionChanged _ => true | _ => false end
    then Some position else None) (btree_values (gs_entries g)).

(** [Iterator::min]. *)
Definition position_min (l : list TimelinePosition) : option TimelinePosition :=
  foldl (fun best p => match best with
                       | Some b => if p <?p b then Some p else Some b
                       | None => Some p
                       end) None l.

(** The part of [reduce_agent_graph_prefix] after the scan. *)
Definition graph_finish (header : SessionHeader) (g : GraphScan) :
    Outcome Corruption AgentGraphReduction :=
  check? reject_if
    (match gs_policy_sequence g, position_min (root_revision_positions header g) with
     | Some policy_sequence, Some first_root_harness_revision =>
         policy_sequence >=?p first_root_harness_revision
     | _, _ => false
     end)
    ["subagent policy must be persisted before the initial root harness revision"] in
  let? spawned := ofold (graph_spawn (sh_session_id header) g) (mk_spawn_loop ∅ ∅ ∅) (gs_spawns g) in
  let? nodes := ofold (graph_operation g (sl_agent_by_lane spawned)) (sl_nodes spawned)
                  (btree_iter (gs_operations g)) in
  let? deltas := ofold (graph_delta g nodes) (mk_delta_loop ∅ ∅) (gs_deltas g) in
  let nodes := attach_delta deltas <$> nodes in
  let? terminals := ofold (graph_terminal g deltas) (mk_terminal_loop nodes ∅) (gs_terminals g) in
  let? applied := ofold (graph_applied g deltas (tl_positions terminals))
                    (mk_apply_loop (tl_nodes terminals) ∅) (gs_applied g) in
  let? nodes := ofold (graph_state g) (al_nodes applied) (btree_iter (al_nodes applied)) in
  Ok (mk_graph_reduction (gs_policy g) nodes).

(** [reduce_agent_graph_prefix]. *)
Definition reduce_agent_graph_prefix (header : SessionHeader) (ms : list StoredMutation) :
    Outcome Corruption AgentGraphReduction :=
  let? g := graph_scan header ms in graph_finish header g.

(** [reduce_agent_graph]. *)
Definition reduce_agent_graph (snapshot : SessionSnapshot) :
    Outcome Corruption AgentGraphReduction :=
  let? ms := mutations snapshot in reduce_agent_graph_prefix (ss_header snapshot) ms.

(** [reduce_agent_graph_ref_with_commit]. *)
Definition reduce_agent_graph_ref_with_commit (snapshot : SessionSnapshot)
    (appended : StoredCommit) : Outcome Corruption AgentGraphReduction :=
  let? ms := mutations snapshot in
  reduce_agent_graph_prefix (ss_header snapshot) (ms ++ sc_items appended).
End graph.
