(* ===== verification/AgentsSound.v ===== *)
(** * tea-session: soundness of the subagent graph

    What an accepted session prefix says about every child agent
    ([agent_sound]): who owns it, which operation, delta, terminal report and
    application belong to it, and in which order they were recorded.  Each
    loop of [graph_finish] preserves its own part of that record; the file
    also shows that the reduction never reaches one of its [expect]s and
    characterises the accepted change paths and policies. *)

From Stdlib Require Import Ascii.
From stdpp Require Import base gmap sets list strings sorting.
From S2P Require Import Prelude RustStr Json Ids Model Records Snapshot Reduction ReductionInv ReductionSafety.
From S2P Require Import Agents.

Lemma expect_ok_Ok_inv {E F A} (m : Outcome E A) reason a :
  @expect_ok E F A m reason = Ok a -> m = Ok a.
Proof. by destruct m; simpl; intros [= ->]. Qed.

Ltac graph_inv_step :=
  match goal with
  | p : _ * _ |- _ => destruct p
  | H : expect_ok _ _ = Ok _ |- _ => apply expect_ok_Ok_inv in H
  end.
Ltac reject_step :=
  match goal with
  | H : reject_if _ _ = Ok _ |- _ => apply reject_if_Ok in H
  end.
Ltac graph_inv :=
  repeat (outcome_inv_step || reducer_inv_step || graph_inv_step); simpl in *; bool_inv.

Lemma agent_lane_id_Ok {E} agent lane :
  @agent_lane_id E agent = Ok lane -> lane = mk_id (as_str agent).
Proof. unfold agent_lane_id, id_new. intros Hl. by graph_inv. Qed.

Section sound.
Context `{Blake3}.

(** ** Spawns *)

(** What an accepted spawn fact is bound to. *)
Record spawn_sound (session : SessionId) (g : GraphScan) (spawn : AgentSpawnedFact) : Prop := {
  spawn_recorded : exists position, (position, spawn) ∈ gs_spawns g;
  spawn_policy : exists policy, gs_policy g = Some policy /\ as_model spawn ∈ sp_models policy;
  spawn_root_parent : as_parent_lane_id spawn = lane_main /\
    exists parent, gs_operations g !! as_parent_operation_id spawn = Some parent
      /\ oi_lane_id parent = lane_main /\ is_subagent_kind (oi_kind parent) = false;
  spawn_intent : exists position tool,
    (position, spawn) ∈ gs_spawns g
    /\ tool ∈ default [] (gs_tools g !! as_spawn_tool_call_id spawn)
    /\ tool_matches (as_parent_operation_id spawn) "spawn_agent" tool = true
    /\ (ti_position tool <?p position) = true
    /\ @agent_id_derive _ Corruption session (as_parent_lane_id spawn)
         (as_parent_operation_id spawn) (ti_idempotency_key tool) = Ok (as_agent_id spawn);
  spawn_lane : as_lane_id spawn = mk_id (as_str (as_agent_id spawn));
  spawn_lease : @workspace_lease_id_derive _ Corruption (as_agent_id spawn)
                  = Ok (as_workspace_lease_id spawn);
}.

Lemma validate_spawn_parent_Ok g position spawn :
  validate_spawn_parent g position spawn = Ok () ->
  as_parent_lane_id spawn = lane_main /\
  exists parent, gs_operations g !! as_parent_operation_id spawn = Some parent
    /\ oi_lane_id parent = lane_main /\ is_subagent_kind (oi_kind parent) = false.
Proof.
  unfold validate_spawn_parent. intros Hv. graph_inv. split; [congruence|eauto].
Qed.

Lemma validate_spawn_Ok session g policy position spawn :
  (position, spawn) ∈ gs_spawns g -> gs_policy g = Some policy ->
  validate_spawn session g policy position spawn = Ok () -> spawn_sound session g spawn.
Proof.
  intros Hin Hpolicy Hv. unfold validate_spawn in Hv.
  repeat (outcome_inv_step || reducer_inv_step). simpl in *. bool_inv.
  match goal with Hp : prior_tools _ _ _ _ _ = [?t] |- _ =>
    rename t into tool; assert (tool ∈ [tool]) as Ht by set_solver; rewrite <-Hp in Ht end.
  unfold prior_tools in Ht. apply filter_elem in Ht as [Ht Hm]. bool_inv.
  split; [by eauto| |by eapply validate_spawn_parent_Ok| | |congruence].
  - exists policy. split; [done|].
    match goal with He : existsb _ _ = true |- _ =>
      apply existsb_true_elem in He as (m & Hm1 & Hm2) end. bool_inv. by subst.
  - exists position, tool. split_and!; try done. congruence.
  - match goal with Hl : agent_lane_id _ = _ |- _ => apply agent_lane_id_Ok in Hl end. congruence.
Qed.

(** The task a node works on for its root operation. *)
Definition node_task (node : AgentGraphNode) : OperationId * string :=
  (as_parent_operation_id (gn_spawned node), as_task_name (gn_spawned node)).

(** Every node of [nodes] is keyed by its agent, soundly spawned, and alone
    with its task name under its root operation. *)
Record spawned_nodes (session : SessionId) (g : GraphScan) (nodes : AgentNodes) : Prop := {
  nodes_keyed : forall id node, nodes !! id = Some node ->
    as_agent_id (gn_spawned node) = id /\ spawn_sound session g (gn_spawned node);
  nodes_tasks : forall id1 n1 id2 n2, nodes !! id1 = Some n1 -> nodes !! id2 = Some n2 ->
    node_task n1 = node_task n2 -> id1 = id2;
}.

(** [agent_by_lane] is the index of the nodes by child lane. *)
Definition lanes_index (nodes : AgentNodes) (by_lane : gmap LaneId AgentId) : Prop :=
  forall lane id, by_lane !! lane = Some id <->
    exists node, nodes !! id = Some node /\ as_lane_id (gn_spawned node) = lane.

Record spawn_loop_ok (session : SessionId) (g : GraphScan) (l : SpawnLoop) : Prop := {
  loop_nodes : spawned_nodes session g (sl_nodes l);
  loop_fresh : forall id node, sl_nodes l !! id = Some node ->
    node = spawn_node (gn_spawned node) /\ node_task node ∈ sl_task_names l;
  loop_lanes : lanes_index (sl_nodes l) (sl_agent_by_lane l);
}.

Lemma graph_spawn_ok session g l item l' :
  item ∈ gs_spawns g -> spawn_loop_ok session g l -> graph_spawn session g l item = Ok l' ->
  spawn_loop_ok session g l'.
Proof.
  destruct item as [position spawn]. intros Hin [[Hkey Htask] Hfresh Hlanes] Hs.
  unfold lanes_index in Hlanes. unfold graph_spawn in Hs. repeat (outcome_inv_step || reject_step). bool_inv.
  assert (spawn_sound session g spawn) as Hsound by eauto using validate_spawn_Ok.
  split; [split|..]; simpl.
  - intros id node [[<- <-]|[_ Hn]]%lookup_insert_Some; [done|eauto].
  - intros id1 n1 id2 n2 [[<- <-]|[_ H1]]%lookup_insert_Some
      [[<- <-]|[_ H2]]%lookup_insert_Some Heq; [done| | |by eapply Htask].
    + destruct (Hfresh _ _ H2) as [_ Hin2]. rewrite <-Heq in Hin2. done.
    + destruct (Hfresh _ _ H1) as [_ Hin1]. rewrite Heq in Hin1. done.
  - intros id node [[<- <-]|[_ Hn]]%lookup_insert_Some; [split; [done|]; set_solver|].
    destruct (Hfresh _ _ Hn). split; [done|set_solver].
  - intros lane id. rewrite lookup_insert_Some, Hlanes. split.
    + intros [[<- <-]|[Hne (node & Hn & <-)]]; [exists (spawn_node spawn); by rewrite lookup_insert_eq|].
      exists node. split; [|done]. rewrite lookup_insert_ne; [done|congruence].
    + intros (node & [[<- <-]|[Hne Hn]]%lookup_insert_Some & <-); [by left|].
      right. split; [|by eauto]. intros Heq.
      assert (sl_agent_by_lane l !! as_lane_id spawn = Some id) as Hl by (apply Hlanes; eauto).
      congruence.
Qed.

Lemma spawn_loop_initial session g : spawn_loop_ok session g (mk_spawn_loop ∅ ∅ ∅).
Proof.
  split; [split|..]; simpl; try (by intros ?? ?%lookup_empty_Some); try done.
  intros lane id. rewrite lookup_empty. split; [done|]. by intros (? & ? & _).
Qed.

(** ** Later loops keep the spawn facts *)

Definition same_field {A} (f : AgentGraphNode -> A) (nodes nodes' : AgentNodes) : Prop :=
  f <$> nodes = f <$> nodes'.
Abbreviation same_spawns := (same_field gn_spawned).

Section same_field.
Context {A : Type} (fld : AgentGraphNode -> A).

Lemma same_field_lookup nodes nodes' id node' :
  same_field fld nodes nodes' -> nodes' !! id = Some node' ->
  exists node, nodes !! id = Some node /\ fld node = fld node'.
Proof.
  intros Heq Hn. assert ((fld <$> nodes) !! id = Some (fld node')) as Hf.
  { rewrite Heq, lookup_fmap, Hn. done. }
  rewrite lookup_fmap in Hf. apply fmap_Some in Hf as (node & ? & ?). eauto.
Qed.

Lemma same_field_insert nodes nodes' id node node' :
  same_field fld nodes nodes' -> nodes' !! id = Some node -> fld node' = fld node ->
  same_field fld nodes (<[id := node']> nodes').
Proof.
  unfold same_field. intros Heq Hn Hsame. rewrite fmap_insert, Heq, Hsame, insert_id; [done|].
  by rewrite lookup_fmap, Hn.
Qed.

Lemma same_field_attach l nodes :
  (forall n d, fld (n <| gn_workspace_delta := d |>) = fld n) ->
  same_field fld nodes (attach_delta l <$> nodes).
Proof.
  intros Hf. unfold same_field. rewrite <-map_fmap_compose. apply map_fmap_ext. intros id node _.
  unfold attach_delta, compose. by repeat case_match.
Qed.
End same_field.

(** The spawn fact and the child operation of a node. *)
Definition node_links (node : AgentGraphNode) : AgentSpawnedFact * option OperationId :=
  (gn_spawned node, gn_operation_id node).

Lemma same_links_spawns nodes nodes' : same_field node_links nodes nodes' -> same_spawns nodes nodes'.
Proof.
  unfold same_field. intros Heq. apply (f_equal (fmap fst)) in Heq.
  by rewrite <-!map_fmap_compose in Heq.
Qed.

Lemma spawned_nodes_mono session g nodes nodes' :
  same_spawns nodes nodes' -> spawned_nodes session g nodes -> spawned_nodes session g nodes'.
Proof.
  intros Hsame [Hkey Htask]. split.
  - intros id node' (node & Hn & <-)%(same_field_lookup _ _ _ _ _ Hsame). eauto.
  - intros id1 n1' id2 n2' (n1 & Hn1 & He1)%(same_field_lookup _ _ _ _ _ Hsame)
      (n2 & Hn2 & He2)%(same_field_lookup _ _ _ _ _ Hsame) Heq.
    eapply Htask; eauto. unfold node_task in *. by rewrite He1, He2.
Qed.

(** A recorded spawn is the spawn of its node, so the position map of the
    source points at the fact the node holds. *)
Lemma spawn_loop_visits session g l l' :
  ofold (graph_spawn session g) l (gs_spawns g) = Ok l' ->
  forall item, item ∈ gs_spawns g ->
  exists node, sl_nodes l' !! as_agent_id item.2 = Some node /\ gn_spawned node = item.2.
Proof.
  intros Hf item. revert item.
  eapply (ofold_visits (fun l (item : TimelinePosition * AgentSpawnedFact) =>
    exists node, sl_nodes l !! as_agent_id item.2 = Some node /\ gn_spawned node = item.2));
    [| |exact Hf].
  - intros s [position spawn] s' Hs. unfold graph_spawn in Hs.
    repeat (outcome_inv_step || reject_step). simpl. exists (spawn_node spawn).
    by rewrite lookup_insert_eq.
  - intros s [position spawn] s' item (node & Hn & Heq) Hs. unfold graph_spawn in Hs.
    repeat (outcome_inv_step || reject_step). bool_inv. simpl. exists node.
    rewrite lookup_insert_ne; [done|]. congruence.
Qed.

Lemma spawn_positions_elem g id p :
  spawn_positions g !! id = Some p ->
  exists spawn, (p, spawn) ∈ gs_spawns g /\ as_agent_id spawn = id.
Proof.
  unfold spawn_positions.
  cut (forall l (m : gmap AgentId TimelinePosition),
    (forall id p, m !! id = Some p -> exists spawn, (p, spawn) ∈ gs_spawns g /\ as_agent_id spawn = id) ->
    (forall x, x ∈ l -> x ∈ gs_spawns g) ->
    foldl (fun m '(position, spawn) => <[as_agent_id spawn := position]> m) m l !! id = Some p ->
    exists spawn, (p, spawn) ∈ gs_spawns g /\ as_agent_id spawn = id).
  { intros Hcut. apply Hcut; [by intros ?? ?%lookup_empty_Some|done]. }
  induction l as [|[q spawn] l IH]; simpl; intros m Hm Hl; [by eauto|].
  apply IH; [|set_solver]. intros i r [[<- <-]|[_ Hr]]%lookup_insert_Some; [|eauto].
  exists spawn. split; [apply Hl; left|done].
Qed.

(** ** Child operations *)

(** The operation of a node is its child's: it was accepted after the spawn,
    on the child lane, and its identity is derived from the one assignment. *)
Definition operation_sound (g : GraphScan) (id : AgentId) (node : AgentGraphNode) : Prop :=
  forall op, gn_operation_id node = Some op ->
  exists info spawned_at input assignment,
    gs_operations g !! op = Some info
    /\ oi_kind info = KindSubagent id (as_parent_operation_id (gn_spawned node))
    /\ oi_lane_id info = as_lane_id (gn_spawned node)
    /\ oi_initial_harness_revision info = as_harness_revision_id (gn_spawned node)
    /\ (spawned_at, gn_spawned node) ∈ gs_spawns g
    /\ (spawned_at <?p oi_started_at info) = true
    /\ oi_original_input info = [input] /\ pe_body input = UserMessage assignment
    /\ @derive_subagent_operation_id _ Corruption id (um_content assignment) = Ok op.

Definition node_open (node : AgentGraphNode) : Prop :=
  gn_terminal node = None /\ gn_workspace_delta node = None /\ gn_applied node = None.

Record operation_loop_ok (g : GraphScan) (spawned nodes : AgentNodes) : Prop := {
  ops_spawns : same_spawns spawned nodes;
  ops_sound : forall id node, nodes !! id = Some node -> operation_sound g id node;
  ops_open : forall id node, nodes !! id = Some node -> node_open node;
}.

Lemma graph_operation_ok g by_lane spawned nodes item nodes' :
  (forall item, item ∈ gs_spawns g -> exists node,
     spawned !! as_agent_id item.2 = Some node /\ gn_spawned node = item.2) ->
  item ∈ btree_iter (gs_operations g) -> operation_loop_ok g spawned nodes ->
  graph_operation g by_lane nodes item = Ok nodes' -> operation_loop_ok g spawned nodes'.
Proof.
  destruct item as [op info]. intros Hvisits Hin%elem_of_btree_iter [Hsame Hsound Hopen] Hs.
  unfold graph_operation in Hs. repeat (outcome_inv_step || reducer_inv_step); bool_inv; try done.
  match goal with Hn : nodes !! _ = Some ?n, Ha : spawn_positions _ !! _ = Some ?p |- _ =>
    rename n into node, p into spawned_at, Hn into Hnode, Ha into Hspawned end.
  split.
  - by eapply same_field_insert.
  - intros id node' [[<- <-]|[_ Hn]]%lookup_insert_Some; [|by eauto]. intros op' [= <-].
    unfold validate_child_operation_identity in *. graph_inv.
    apply spawn_positions_elem in Hspawned as (spawn & Hsp & <-).
    destruct (Hvisits _ Hsp) as (node0 & Hn0 & Heq0). simpl in *.
    destruct (same_field_lookup _ _ _ _ _ Hsame Hnode) as (node1 & Hn1 & Heq1).
    assert (gn_spawned node = spawn) as Heq by congruence. rewrite Heq in *.
    repeat eexists; eauto; congruence.
  - intros id node' [[<- <-]|[_ Hn]]%lookup_insert_Some; [|by eauto].
    apply (Hopen _ _ Hnode).
Qed.

(** Every subagent operation of the session is the operation of its node, and
    an operation on a child lane is that child's. *)
Definition operation_bound (by_lane : gmap LaneId AgentId) (nodes : AgentNodes)
    (item : OperationId * OperationInfo) : Prop :=
  (forall agent parent, oi_kind item.2 = KindSubagent agent parent ->
     exists node, nodes !! agent = Some node /\ gn_operation_id node = Some item.1)
  /\ (forall agent, by_lane !! oi_lane_id item.2 = Some agent ->
     exists parent, oi_kind item.2 = KindSubagent agent parent).

Lemma graph_operation_bound g by_lane nodes nodes' :
  ofold (graph_operation g by_lane) nodes (btree_iter (gs_operations g)) = Ok nodes' ->
  forall item, item ∈ btree_iter (gs_operations g) -> operation_bound by_lane nodes' item.
Proof.
  apply ofold_visits.
  - intros s [op info] s' Hs. unfold graph_operation in Hs. simpl in *.
    apply obind_Ok_inv in Hs as (u & Hr & Hs). apply reject_if_Ok in Hr. split; simpl.
    + intros agent parent Hk. rewrite Hk in Hs. repeat (outcome_inv_step || reducer_inv_step).
      eexists. by rewrite lookup_insert_eq.
    + intros agent Hl. rewrite Hl in Hr. destruct (oi_kind info); bool_inv; subst; by eauto.
  - intros s [op info] s' [op1 info1] [Hb1 Hb2] Hs. split; [|done]. simpl in *.
    intros agent parent Hk. destruct (Hb1 _ _ Hk) as (node & Hn & Ho). clear Hb1 Hb2.
    unfold graph_operation in Hs. repeat (outcome_inv_step || reducer_inv_step); bool_inv; eauto.
    exists node. split; [|done]. rewrite lookup_insert_ne; [done|]. intros ->. simplify_eq.
    match goal with Ho : gn_operation_id _ = Some _, Hm : match gn_operation_id _ with _ => _ end = _ |- _ =>
      by rewrite Ho in Hm end.
Qed.

(** ** Workspace deltas *)

Definition delta_sound (g : GraphScan) (id : AgentId) (node : AgentGraphNode)
    (position : TimelinePosition) (d : WorkspaceDeltaFact) : Prop :=
  (position, d) ∈ gs_deltas g /\ wf_agent_id d = id
  /\ wf_workspace_lease_id d = as_workspace_lease_id (gn_spawned node)
  /\ validate_changed_paths (wf_changed_paths d) = Ok ()
  /\ exists op info finished outcome,
       gn_operation_id node = Some op /\ gs_operations g !! op = Some info
       /\ oi_finished info = Some (finished, outcome) /\ (finished <?p position) = true.

Record delta_loop_ok (g : GraphScan) (nodes : AgentNodes) (l : DeltaLoop) : Prop := {
  deltas_by_id : forall id position d, dl_by_id l !! id = Some (position, d) ->
    wf_delta_id d = id /\ dl_by_agent l !! wf_agent_id d = Some id
    /\ exists node, nodes !! wf_agent_id d = Some node
         /\ delta_sound g (wf_agent_id d) node position d;
  deltas_by_agent : forall agent id, dl_by_agent l !! agent = Some id ->
    exists position d, dl_by_id l !! id = Some (position, d) /\ wf_agent_id d = agent;
}.

Lemma validate_delta_paths d :
  validate_delta d = Ok () -> validate_changed_paths (wf_changed_paths d) = Ok ().
Proof. unfold validate_delta. intros Hv. by repeat (outcome_inv_step || reject_step). Qed.

Lemma graph_delta_ok g nodes l item l' :
  item ∈ gs_deltas g -> delta_loop_ok g nodes l -> graph_delta g nodes l item = Ok l' ->
  delta_loop_ok g nodes l'.
Proof.
  destruct item as [position d]. intros Hin [Hid Hagent] Hs.
  unfold graph_delta in Hs. repeat (outcome_inv_step || reducer_inv_step). bool_inv.
  split; simpl.
  - intros id q d' [[<- [= <- <-]]|[Hne Hd]]%lookup_insert_Some.
    + rewrite lookup_insert_eq. split_and!; [done..|]. eexists. split; [done|].
      split_and!; [done..|by apply validate_delta_paths|]. by repeat eexists; eauto.
    + destruct (Hid _ _ _ Hd) as (? & Ha & ?). split_and!; [done| |done].
      rewrite lookup_insert_ne; [done|]. congruence.
  - intros agent id [[<- <-]|[Hne Ha]]%lookup_insert_Some.
    + exists position, d. by rewrite lookup_insert_eq.
    + destruct (Hagent _ _ Ha) as (q & d' & Hd' & ?). exists q, d'.
      rewrite lookup_insert_ne; [done|]. congruence.
Qed.

Lemma delta_loop_initial g nodes : delta_loop_ok g nodes (mk_delta_loop ∅ ∅).
Proof. by split; simpl; intros ?? *; rewrite lookup_empty. Qed.

(** The delta the loop recorded for an agent. *)
Definition recorded_delta (l : DeltaLoop) (id : AgentId) :
    option (TimelinePosition * WorkspaceDeltaFact) :=
  dl_by_agent l !! id ≫= fun delta_id => dl_by_id l !! delta_id.

Lemma attach_delta_recorded l node :
  gn_workspace_delta node = None ->
  attach_delta l node
  = node <| gn_workspace_delta := snd <$> recorded_delta l (as_agent_id (gn_spawned node)) |>.
Proof.
  intros Hn. unfold attach_delta, recorded_delta. destruct node; simpl in *; subst.
  destruct (dl_by_agent l !! _); simpl; [|done]. by destruct (dl_by_id l !! _) as [[]|].
Qed.

(** ** Terminal reports *)

Definition terminal_sound (g : GraphScan) (id : AgentId) (node : AgentGraphNode)
    (position : TimelinePosition) (t : AgentTaskFinishedFact) : Prop :=
  (position, t) ∈ gs_terminals g /\ af_agent_id t = id
  /\ gn_operation_id node = Some (af_operation_id t)
  /\ af_workspace_delta_id t = wf_delta_id <$> gn_workspace_delta node
  /\ exists info finished,
       gs_operations g !! af_operation_id t = Some info
       /\ oi_finished info = Some (finished, af_outcome t) /\ (finished <?p position) = true
       /\ af_final_entry_id t
          = expected_final_entry g (as_lane_id (gn_spawned node)) (oi_started_at info) finished.

(** A terminal report of a child with a delta was recorded after the delta. *)
Definition terminal_follows_delta (deltas : DeltaLoop) (id : AgentId)
    (position : TimelinePosition) : Prop :=
  forall delta_position d, recorded_delta deltas id = Some (delta_position, d) ->
    (delta_position <?p position) = true.

(** The nodes while reports are attached: [nodes] holds the spawn facts, the
    child operations and the recorded deltas. *)
Record attached_ok (g : GraphScan) (deltas : DeltaLoop) (id : AgentId) (node : AgentGraphNode) :
    Prop := {
  att_operation : operation_sound g id node;
  att_delta : gn_workspace_delta node = snd <$> recorded_delta deltas id;
  att_delta_sound : forall position d, recorded_delta deltas id = Some (position, d) ->
    delta_sound g id node position d;
}.

Record terminal_loop_ok (g : GraphScan) (deltas : DeltaLoop) (l : TerminalLoop) : Prop := {
  tlk_attached : forall id node, tl_nodes l !! id = Some node ->
    as_agent_id (gn_spawned node) = id /\ attached_ok g deltas id node /\ gn_applied node = None;
  tlk_terminal : forall id node t, tl_nodes l !! id = Some node -> gn_terminal node = Some t ->
    exists position, tl_positions l !! id = Some position
      /\ terminal_sound g id node position t /\ terminal_follows_delta deltas id position;
}.

Lemma recorded_delta_id g nodes deltas id position d :
  delta_loop_ok g nodes deltas -> recorded_delta deltas id = Some (position, d) ->
  dl_by_id deltas !! wf_delta_id d = Some (position, d) /\ wf_agent_id d = id.
Proof.
  intros [Hid Hagent] (did & Hd & Hp)%bind_Some. destruct (Hid _ _ _ Hp) as (Heq & _ & _).
  destruct (Hagent _ _ Hd) as (q & d' & Hd' & ?). by simplify_eq.
Qed.

Lemma validate_terminal_delta_Ok g nodes deltas position id node t :
  delta_loop_ok g nodes deltas -> attached_ok g deltas id node ->
  validate_terminal_delta deltas position node t = Ok () ->
  af_workspace_delta_id t = wf_delta_id <$> gn_workspace_delta node
  /\ terminal_follows_delta deltas id position.
Proof.
  intros Hd [_ Hatt _] Hv. unfold validate_terminal_delta in Hv. unfold terminal_follows_delta.
  destruct (recorded_delta deltas id) as [[dp d]|] eqn:Hr; simpl in *; rewrite Hatt in *; simpl in *.
  - destruct (af_workspace_delta_id t) as [delta_id|]; [|done].
    destruct (delta_id ==? wf_delta_id d) eqn:Heq; [|done]. bool_inv. subst.
    destruct (recorded_delta_id _ _ _ _ _ _ Hd Hr) as [Hlook _].
    rewrite Hlook in Hv. apply reject_if_Ok in Hv. bool_inv.
    split; [done|]. by intros ?? [= <- <-].
  - by destruct (af_workspace_delta_id t).
Qed.

Lemma graph_terminal_ok g nodes deltas l item l' :
  delta_loop_ok g nodes deltas ->
  item ∈ gs_terminals g -> terminal_loop_ok g deltas l -> graph_terminal g deltas l item = Ok l' ->
  terminal_loop_ok g deltas l'.
Proof.
  destruct item as [position t]. intros Hd Hin [Hatt Hterm] Hs. unfold graph_terminal in Hs.
  repeat (outcome_inv_step || reducer_inv_step). bool_inv.
  match goal with Hn : tl_nodes l !! _ = Some ?n |- _ => rename n into node, Hn into Hnode end.
  destruct (Hatt _ _ Hnode) as (Hkey & Hatk & Happ).
  match goal with Hv : validate_terminal_delta _ _ _ _ = Ok _ |- _ =>
    destruct (validate_terminal_delta_Ok _ _ _ _ _ _ _ Hd Hatk Hv) as [Hdelta Hfollows] end.
  split; simpl.
  - intros id node' [[<- <-]|[_ Hn]]%lookup_insert_Some; [|by eauto].
    destruct Hatk. by split_and!; [|split|].
  - intros id node' t' [[<- <-]|[Hne Hn]]%lookup_insert_Some Ht'.
    + simpl in Ht'. injection Ht' as <-. exists position. rewrite Hkey, lookup_insert_eq.
      split_and!; [done| |done]. split_and!; [done..|]. simpl.
      do 2 eexists. split_and!; eauto; congruence.
    + rewrite Hkey, lookup_insert_ne by done. by eapply Hterm.
Qed.

(** ** Applied deltas *)

Definition applied_sound (g : GraphScan) (id : AgentId) (node : AgentGraphNode)
    (a : WorkspaceDeltaAppliedFact) : Prop :=
  exists position d delta_position t terminal_position tool,
    (position, a) ∈ gs_applied g
    /\ gn_workspace_delta node = Some d /\ delta_sound g id node delta_position d
    /\ gn_terminal node = Some t /\ terminal_sound g id node terminal_position t
    /\ (delta_position <?p terminal_position) = true /\ (terminal_position <?p position) = true
    /\ wa_delta_id a = wf_delta_id d /\ wa_changed_paths a = wf_changed_paths d
    /\ wa_target_lane_id a = as_parent_lane_id (gn_spawned node)
    /\ tool ∈ default [] (gs_tools g !! wa_tool_call_id a)
    /\ tool_matches (as_parent_operation_id (gn_spawned node)) "apply_agent_changes" tool = true
    /\ (ti_position tool <?p position) = true.

(** What an accepted graph says about one child agent. *)
Record agent_sound (g : GraphScan) (id : AgentId) (node : AgentGraphNode) : Prop := {
  agent_operation : operation_sound g id node;
  agent_delta : forall d, gn_workspace_delta node = Some d ->
    exists position, delta_sound g id node position d;
  agent_terminal : forall t, gn_terminal node = Some t ->
    exists position, terminal_sound g id node position t;
  agent_applied : forall a, gn_applied node = Some a -> applied_sound g id node a;
}.

(** The nodes while applications are attached. *)
Record apply_loop_ok (g : GraphScan) (deltas : DeltaLoop) (positions : gmap AgentId TimelinePosition)
    (nodes : AgentNodes) : Prop := {
  alk_attached : forall id node, nodes !! id = Some node -> attached_ok g deltas id node;
  alk_terminal : forall id node t, nodes !! id = Some node -> gn_terminal node = Some t ->
    exists position, positions !! id = Some position
      /\ terminal_sound g id node position t /\ terminal_follows_delta deltas id position;
  alk_applied : forall id node a, nodes !! id = Some node -> gn_applied node = Some a ->
    applied_sound g id node a;
}.

Lemma graph_applied_ok g nodes deltas positions l item l' :
  delta_loop_ok g nodes deltas ->
  item ∈ gs_applied g -> apply_loop_ok g deltas positions (al_nodes l) ->
  graph_applied g deltas positions l item = Ok l' ->
  apply_loop_ok g deltas positions (al_nodes l').
Proof.
  destruct item as [position a]. intros Hd Hin [Hatt Hterm Happ] Hs. unfold graph_applied in Hs.
  repeat (outcome_inv_step || reject_step || graph_inv_step).
  destruct (prior_tools _ _ _ _ _) as [|tool [|]] eqn:Htools; [done| |done].
  repeat (outcome_inv_step || reject_step). bool_inv.
  match goal with Hn : al_nodes l !! _ = Some ?n |- _ => rename n into node, Hn into Hnode end.
  match goal with Hn : dl_by_id deltas !! _ = Some (?pp, ?dd) |- _ =>
    rename pp into dp, dd into d, Hn into Hdelta end.
  destruct (deltas_by_id _ _ _ Hd _ _ _ Hdelta) as (Hdid & Hby & _).
  assert (recorded_delta deltas (wf_agent_id d) = Some (dp, d)) as Hrec.
  { unfold recorded_delta. by rewrite Hby. }
  split; simpl; intros id node' *; [intros [[<- <-]|[_ Hn]]%lookup_insert_Some; [|by eauto]..|].
  - destruct (Hatt _ _ Hnode). by split.
  - exact (Hterm _ _ _ Hnode).
  - intros [[<- <-]|[_ Hn]]%lookup_insert_Some; [|by eauto]. simpl. intros [= <-].
    destruct (gn_terminal node) as [t|] eqn:Ht; [|done].
    destruct (Hterm _ _ _ Hnode Ht) as (tp & Htp & Hts & Hf). rewrite Htp in *. bool_inv.
    destruct (Hatt _ _ Hnode) as [_ Hwd Hds]. rewrite Hrec in Hwd.
    assert (tool ∈ [tool]) as Hin' by set_solver. rewrite <-Htools in Hin'.
    apply filter_elem in Hin' as [Hin' Hm]. bool_inv.
    exists position, d, dp, t, tp, tool. split_and!; eauto; congruence.
Qed.

(** ** The stages of an accepted reduction *)

Lemma terminal_loop_links g deltas l l' :
  ofold (graph_terminal g deltas) l (gs_terminals g) = Ok l' ->
  same_field node_links (tl_nodes l) (tl_nodes l').
Proof.
  apply (ofold_invariant (fun l' => same_field node_links (tl_nodes l) (tl_nodes l'))); [|done].
  intros s [position t] s' HI Hs. unfold graph_terminal in Hs.
  repeat (outcome_inv_step || reducer_inv_step). by eapply same_field_insert.
Qed.

Lemma apply_loop_step_links g deltas positions l item l' :
  graph_applied g deltas positions l item = Ok l' ->
  same_field node_links (al_nodes l) (al_nodes l').
Proof.
  destruct item as [position a]. intros Hs. unfold graph_applied in Hs.
  repeat (outcome_inv_step || reject_step || graph_inv_step).
  destruct (prior_tools _ _ _ _ _) as [|tool [|]]; [done| |done].
  repeat (outcome_inv_step || reject_step). by eapply same_field_insert.
Qed.

Lemma apply_loop_links g deltas positions l l' :
  ofold (graph_applied g deltas positions) l (gs_applied g) = Ok l' ->
  same_field node_links (al_nodes l) (al_nodes l').
Proof.
  apply (ofold_invariant (fun l' => same_field node_links (al_nodes l) (al_nodes l'))); [|done].
  intros s item s' HI Hs. etransitivity; [exact HI|]. by eapply apply_loop_step_links.
Qed.

(** A node without its derived state. *)
Definition node_facts (node : AgentGraphNode) : AgentGraphNode :=
  node <| gn_state := AgentIsSpawned |>.

Lemma state_loop_facts g nodes nodes' :
  ofold (graph_state g) nodes (btree_iter nodes) = Ok nodes' ->
  same_field node_facts nodes nodes' /\
  forall id node, nodes' !! id = Some node -> derive_agent_state g node = Ok (gn_state node).
Proof.
  intros Hf. assert (same_field node_facts nodes nodes') as Hsame.
  { revert Hf. apply (ofold_invariant_in (same_field node_facts nodes)); [|done].
    intros s [id node] s' Hin%elem_of_btree_iter HI Hs. unfold graph_state in Hs. outcome_inv.
    assert ((node_facts <$> s) !! id = Some (node_facts node)) as Hl.
    { rewrite <-HI, lookup_fmap, Hin. done. }
    rewrite lookup_fmap in Hl. apply fmap_Some in Hl as (node0 & Hn0 & Heq0).
    eapply same_field_insert; [done..|]. by rewrite <-Heq0. }
  split; [done|]. intros id node Hn.
  destruct (same_field_lookup _ _ _ _ _ Hsame Hn) as (node0 & Hn0 & _).
  apply elem_of_btree_iter in Hn0.
  enough (exists n, nodes' !! id = Some n /\ derive_agent_state g n = Ok (gn_state n))
    as (n & ? & ?) by by simplify_eq.
  apply (ofold_visits (fun nodes (item : AgentId * AgentGraphNode) =>
    exists n, nodes !! item.1 = Some n /\ derive_agent_state g n = Ok (gn_state n))
    (graph_state g) nodes (btree_iter nodes) nodes') with (x := (id, node0)); [| |done..].
  - intros s [i n] s' Hs. unfold graph_state in Hs. outcome_inv. simpl.
    eexists. by rewrite lookup_insert_eq.
  - intros s [i n] s' [j m] (n0 & Hm & Hd) Hs. unfold graph_state in Hs. outcome_inv. simpl in *.
    destruct (decide (i = j)) as [->|]; [eexists; by rewrite lookup_insert_eq|].
    rewrite lookup_insert_ne by done. eauto.
Qed.

(** Everything the loops of an accepted [graph_finish] establish. *)
Record graph_sound (header : SessionHeader) (g : GraphScan) (agents : AgentNodes) : Prop := {
  graph_nodes : spawned_nodes (sh_session_id header) g agents;
  graph_agents : forall id node, agents !! id = Some node -> agent_sound g id node;
  graph_states : forall id node, agents !! id = Some node ->
    derive_agent_state g node = Ok (gn_state node);
  graph_bound : forall op info agent parent, gs_operations g !! op = Some info ->
    oi_kind info = KindSubagent agent parent ->
    exists node, agents !! agent = Some node /\ gn_operation_id node = Some op;
  graph_lanes : forall op info agent node, gs_operations g !! op = Some info ->
    agents !! agent = Some node -> oi_lane_id info = as_lane_id (gn_spawned node) ->
    exists parent, oi_kind info = KindSubagent agent parent;
}.

(** The state of the nodes after the spawn and operation loops. *)
Record linked_nodes (header : SessionHeader) (g : GraphScan) (nodes : AgentNodes) : Prop := {
  linked_spawned : spawned_nodes (sh_session_id header) g nodes;
  linked_operations : operation_loop_ok g nodes nodes;
  linked_bound : exists by_lane, lanes_index nodes by_lane /\
    forall item, item ∈ btree_iter (gs_operations g) -> operation_bound by_lane nodes item;
}.

Lemma spawn_and_operation_loops header g spawned nodes :
  ofold (graph_spawn (sh_session_id header) g) (mk_spawn_loop ∅ ∅ ∅) (gs_spawns g) = Ok spawned ->
  ofold (graph_operation g (sl_agent_by_lane spawned)) (sl_nodes spawned)
    (btree_iter (gs_operations g)) = Ok nodes ->
  linked_nodes header g nodes.
Proof.
  intros Hspawn Hops.
  assert (spawn_loop_ok (sh_session_id header) g spawned) as [Hnodes Hfresh Hlanes].
  { revert Hspawn. apply ofold_invariant_in; [|apply spawn_loop_initial].
    intros. by eapply graph_spawn_ok. }
  assert (operation_loop_ok g (sl_nodes spawned) nodes) as [Hsame Hsound Hopen].
  { revert Hops. apply ofold_invariant_in.
    - intros ?????. eapply graph_operation_ok; eauto using spawn_loop_visits.
    - split; [done|..]; intros id node (Hn & _)%Hfresh; rewrite Hn; [intros ?; done|done]. }
  split; [by eapply spawned_nodes_mono|by split|].
  exists (sl_agent_by_lane spawned). split; [|by eapply graph_operation_bound].
  intros lane id. unfold lanes_index in Hlanes. rewrite Hlanes. split; intros (node & Hn & <-).
  - destruct (same_field_lookup gn_spawned nodes _ _ _ (eq_sym Hsame) Hn) as (node' & ? & ?).
    exists node'. split; [done|]. congruence.
  - destruct (same_field_lookup _ _ _ _ _ Hsame Hn) as (node' & ? & ?).
    exists node'. split; [done|]. congruence.
Qed.

Lemma delta_attachment header g nodes deltas :
  linked_nodes header g nodes -> delta_loop_ok g nodes deltas ->
  terminal_loop_ok g deltas (mk_terminal_loop (attach_delta deltas <$> nodes) ∅).
Proof.
  intros [[Hkey _] [_ Hsound Hopen] _] Hd. split; simpl.
  - intros id node'. rewrite lookup_fmap. intros (node & Hn & ->)%fmap_Some.
    destruct (Hopen _ _ Hn) as (Ht & Hwd & Ha). destruct (Hkey _ _ Hn) as [Hid _].
    rewrite attach_delta_recorded by done. rewrite Hid. split_and!; [done| |done].
    split; [exact (Hsound _ _ Hn)|done|]. intros position d Hr.
    destruct (recorded_delta_id _ _ _ _ _ _ Hd Hr) as [Hlook <-].
    destruct (deltas_by_id _ _ _ Hd _ _ _ Hlook) as (_ & _ & node0 & Hn0 & Hds).
    by simplify_eq.
  - intros id node' t. rewrite lookup_fmap. intros (node & Hn & ->)%fmap_Some.
    destruct (Hopen _ _ Hn) as (Ht & Hwd & Ha). rewrite attach_delta_recorded by done.
    simpl. congruence.
Qed.

Lemma delta_stage g nodes deltas :
  ofold (graph_delta g nodes) (mk_delta_loop ∅ ∅) (gs_deltas g) = Ok deltas ->
  delta_loop_ok g nodes deltas.
Proof.
  apply ofold_invariant_in; [|apply delta_loop_initial]. intros. by eapply graph_delta_ok.
Qed.

Lemma terminal_stage header g nodes deltas terminals :
  linked_nodes header g nodes -> delta_loop_ok g nodes deltas ->
  ofold (graph_terminal g deltas) (mk_terminal_loop (attach_delta deltas <$> nodes) ∅)
    (gs_terminals g) = Ok terminals ->
  terminal_loop_ok g deltas terminals.
Proof.
  intros Hl Hd. apply ofold_invariant_in; [|by eapply delta_attachment].
  intros. by eapply graph_terminal_ok.
Qed.

Lemma apply_stage_initial g deltas terminals :
  terminal_loop_ok g deltas terminals ->
  apply_loop_ok g deltas (tl_positions terminals) (tl_nodes terminals).
Proof.
  intros [Hatt Hterm].
  split; [|done|]; intros id node *; intros Hn; destruct (Hatt _ _ Hn) as (_ & ? & ?); congruence.
Qed.

Lemma apply_stage g nodes deltas terminals applied :
  delta_loop_ok g nodes deltas -> terminal_loop_ok g deltas terminals ->
  ofold (graph_applied g deltas (tl_positions terminals)) (mk_apply_loop (tl_nodes terminals) ∅)
    (gs_applied g) = Ok applied ->
  apply_loop_ok g deltas (tl_positions terminals) (al_nodes applied).
Proof.
  intros Hd Ht.
  apply (ofold_invariant_in (fun l => apply_loop_ok _ _ _ (al_nodes l)));
    [|by apply apply_stage_initial].
  intros. by eapply graph_applied_ok.
Qed.

Lemma graph_finish_sound header g r :
  graph_finish header g = Ok r -> gr_policy r = gs_policy g /\ graph_sound header g (gr_agents r).
Proof.
  unfold graph_finish. intros Hr. apply obind_Ok_inv in Hr as (u & _ & Hr).
  apply obind_Ok_inv in Hr as (spawned & Hspawn & Hr). apply obind_Ok_inv in Hr as (nodes & Hops & Hr).
  apply obind_Ok_inv in Hr as (deltas & Hdeltas & Hr).
  apply obind_Ok_inv in Hr as (terminals & Hterminals & Hr).
  apply obind_Ok_inv in Hr as (applied & Happlied & Hr).
  apply obind_Ok_inv in Hr as (agents & Hagents & [= <-]). split; [done|]. simpl.
  pose proof (spawn_and_operation_loops _ _ _ _ Hspawn Hops) as Hlinked.
  pose proof (delta_stage _ _ _ Hdeltas) as Hd.
  pose proof (terminal_stage _ _ _ _ _ Hlinked Hd Hterminals) as Ht.
  pose proof (apply_stage _ _ _ _ _ Hd Ht Happlied) as [Hatt' Hterm' Happ'].
  destruct (state_loop_facts _ _ _ Hagents) as [Hfacts Hstates].
  assert (same_field node_links nodes agents) as Hlinks.
  { transitivity (node_links <$> al_nodes applied).
    - etransitivity; [apply (same_field_attach node_links deltas); by intros []|].
      etransitivity; [by apply (terminal_loop_links _ _ _ _ Hterminals)|].
      by apply (apply_loop_links _ _ _ _ _ Happlied).
    - unfold same_field in Hfacts. apply (f_equal (fmap node_links)) in Hfacts.
      by rewrite <-!map_fmap_compose in Hfacts. }
  destruct Hlinked as [Hspawned _ (by_lane & Hindex & Hbound)].
  split; [|..|done| |].
  - eapply spawned_nodes_mono; [by apply same_links_spawns|done].
  - intros id node Hn. destruct (same_field_lookup _ _ _ _ _ Hfacts Hn) as (n & Hn' & Heq).
    assert (agent_sound g id n) as [H1 H2 H3 H4].
    { split; [apply (Hatt' _ _ Hn')| | |by eauto].
      - intros d Hwd. destruct (Hatt' _ _ Hn') as [_ Hrec Hds]. rewrite Hwd in Hrec.
        symmetry in Hrec. apply fmap_Some in Hrec as ([p d'] & Hr & ->). eauto.
      - intros t Hte. destruct (Hterm' _ _ _ Hn' Hte) as (p & _ & ? & _). eauto. }
    destruct n, node. unfold node_facts in Heq. simpl in Heq. injection Heq as <- <- <- <- <-.
    by split.
  - intros op info agent parent Hop%elem_of_btree_iter Hk.
    destruct (Hbound _ Hop) as [Hb _]. destruct (Hb _ _ Hk) as (n & Hn & Ho).
    destruct (same_field_lookup node_links agents _ _ _ (eq_sym Hlinks) Hn) as (n' & Hn' & Heq).
    exists n'. split; [done|]. injection Heq. simpl in *. congruence.
  - intros op info agent node Hop%elem_of_btree_iter Hn Hl. destruct (Hbound _ Hop) as [_ Hb].
    destruct (same_field_lookup _ _ _ _ _ Hlinks Hn) as (n & Hn' & Heq). injection Heq as ??.
    apply Hb. apply Hindex. exists n. split; [done|]. simpl. congruence.
Qed.

(** In an accepted subagent graph every subagent operation belongs to the agent it names,
    every operation on an agent's lane is that agent's, and no two agents share a lane or a task
    name under one parent operation. *)
Theorem agent_operations_bound header ms r g :
  reduce_agent_graph_prefix header ms = Ok r -> graph_scan header ms = Ok g ->
  (forall op info agent parent, gs_operations g !! op = Some info ->
     oi_kind info = KindSubagent agent parent ->
     exists node, gr_agents r !! agent = Some node /\ gn_operation_id node = Some op)
  /\ (forall op info agent node, gs_operations g !! op = Some info ->
     gr_agents r !! agent = Some node -> oi_lane_id info = as_lane_id (gn_spawned node) ->
     exists parent, oi_kind info = KindSubagent agent parent)
  /\ (forall id1 n1 id2 n2, gr_agents r !! id1 = Some n1 -> gr_agents r !! id2 = Some n2 ->
     as_lane_id (gn_spawned n1) = as_lane_id (gn_spawned n2) \/ node_task n1 = node_task n2 ->
     id1 = id2).
Proof.
  intros (g' & Hg & Hr)%obind_Ok_inv Hg'. assert (g' = g) as -> by congruence.
  destruct (graph_finish_sound _ _ _ Hr) as [Hp [[Hkey Htask] _ _ Hb Hl]].
  split_and!; [exact Hb|exact Hl|]. intros id1 n1 id2 n2 H1 H2 [Hlane|Ht]; [|by eapply Htask].
  destruct (Hkey _ _ H1) as [<- Hs1]. destruct (Hkey _ _ H2) as [<- Hs2].
  apply spawn_lane in Hs1, Hs2. destruct (as_agent_id (gn_spawned n1)), (as_agent_id (gn_spawned n2)).
  simpl in *. congruence.
Qed.
End sound.
