(* ===== verification/AgentsSafe.v ===== *)
(** * tea-session: the subagent graph reduction always returns

    None of the [expect]s and index expressions of
    [crates/tea-session/src/agents.rs] can be reached, whatever the session
    prefix holds: the loops run in an order in which the earlier ones
    establish what the later ones assume.  The file also characterises the
    two validators other components rely on, change paths and the policy,
    and holds a session with one child agent as the input of the theorems. *)

From Stdlib Require Import Ascii.
From stdpp Require Import base gmap sets list strings sorting.
From S2P Require Import Prelude RustStr Json Ids Model Records Snapshot Reduction ReductionInv.
From S2P Require Import ReductionSafety Scenario Witnesses Agents AgentsSound.

Lemma validate_task_name_no_panic name r : validate_task_name name <> Panic r.
Proof.
  unfold validate_task_name. destruct name as [|a name]; simpl; [done|].
  intros Hp. by panic_inv.
Qed.

Lemma graph_validators_no_panic r :
  (forall label v m, validate_bounded_nonempty label v m <> Panic r) /\
  (forall m, validate_subagent_model m <> Panic r) /\
  (forall paths, validate_changed_paths paths <> Panic r) /\
  (forall t, validate_terminal t <> Panic r) /\
  (forall o s, validate_child_operation_identity o s <> Panic r) /\
  (forall t d, validate_apply_tool_args t d <> Panic r) /\
  (forall t s, spawn_tool_assignment t s <> Panic r).
Proof.
  split_and!; intros *; intros Hp;
    unfold validate_subagent_model, validate_changed_paths, validate_terminal,
      validate_child_operation_identity, validate_apply_tool_args, spawn_tool_assignment,
      spawn_string_field, spawn_context_mode, validate_bounded_nonempty in *; panic_inv; try done.
  revert Hp. apply (ofold_no_panic (fun _ => True)); [done| |done].
  intros ??? _ Hp. unfold validate_changed_path in Hp. by panic_inv.
Qed.

(** Discharge a panic of one of the validators above. *)
Ltac graph_panic_step :=
  match goal with
  | H : validate_task_name _ = Panic _ |- _ => by apply validate_task_name_no_panic in H
  | H : ?m = Panic ?r |- _ =>
      exfalso; revert H;
      pose proof (graph_validators_no_panic r) as (V1 & V2 & V3 & V4 & V5 & V6 & V7);
      first [apply V1 | apply V2 | apply V3 | apply V4 | apply V5 | apply V6 | apply V7]
  end.
Ltac graph_panic := repeat (panic_inv_step || graph_panic_step).

Lemma graph_scan_no_panic header ms r : graph_scan header ms <> Panic r.
Proof.
  unfold graph_scan. apply (ofold_no_panic (fun _ => True)); [done| |done].
  intros g m r' _ Hp. unfold scan_step, scan_record, scan_fact, validate_policy in Hp.
  destruct (smu_mutation m) as [|[? ? []]|[? ? []]|[? ? []]]; simpl in Hp; graph_panic.
  revert Hp. apply (ofold_no_panic (fun _ => True)); [done| |done].
  intros [[? ?] ?] ?? _ Hp. unfold validate_policy_model in Hp. graph_panic.
Qed.

Section safe.
Context `{Blake3Law}.

Lemma derived_lane_no_panic {E} session lane operation key agent r :
  @agent_id_derive _ E session lane operation key = Ok agent ->
  @agent_lane_id E agent <> Panic r.
Proof.
  destruct (@agent_id_derive_Ok _ _ E session lane operation key) as (d & Hd & ->).
  intros [= <-]. unfold agent_lane_id. cbn [as_str].
  by rewrite id_new_prefixed_digest; [|simpl; lia|repeat constructor|].
Qed.

Lemma validate_spawn_no_panic session g policy position spawn r :
  validate_spawn session g policy position spawn <> Panic r.
Proof.
  intros Hp. unfold validate_spawn, validate_spawn_parent, validate_spawn_lane in Hp. graph_panic.
  - match type of Hp with agent_id_derive ?a ?b ?c ?d = _ =>
      destruct (@agent_id_derive_Ok _ _ Corruption a b c d) as (? & _ & He) end. by rewrite He in Hp.
  - match goal with Hr : reject_if _ _ = Ok _ |- _ => apply reject_if_Ok in Hr end. bool_inv. subst.
    by eapply derived_lane_no_panic.
  - by apply workspace_lease_id_derive_no_panic in Hp.
Qed.

Lemma graph_spawn_no_panic session g l item r : graph_spawn session g l item <> Panic r.
Proof.
  destruct item. intros Hp. unfold graph_spawn in Hp. panic_inv; try done.
  by apply validate_spawn_no_panic in Hp.
Qed.

(** The spawn intent a node was validated against is still found. *)
Lemma spawn_intent_found session g spawn :
  spawn_sound session g spawn ->
  List.find (tool_matches (as_parent_operation_id spawn) "spawn_agent")
    (default [] (gs_tools g !! as_spawn_tool_call_id spawn)) <> None.
Proof.
  intros [_ _ _ (position & tool & _ & Hin & Hm & _) _ _] Hnone.
  apply list_elem_of_In in Hin. by rewrite (find_none _ _ Hnone _ Hin) in Hm.
Qed.

Lemma graph_operation_no_panic session g by_lane nodes item r :
  spawned_nodes session g nodes -> graph_operation g by_lane nodes item <> Panic r.
Proof.
  destruct item as [op info]. intros [Hkey _] Hp. unfold graph_operation in Hp. graph_panic.
  - by apply derive_subagent_operation_id_no_panic in Hp.
  - apply expect_Panic_inv in Hp. outcome_inv.
    match goal with Hn : nodes !! _ = Some ?n |- _ => destruct (Hkey _ _ Hn) as [_ Hs] end.
    by eapply spawn_intent_found.
Qed.

Lemma graph_delta_no_panic g nodes l item r :
  (forall id node, nodes !! id = Some node -> operation_sound g id node) ->
  graph_delta g nodes l item <> Panic r.
Proof.
  destruct item as [position d]. intros Hsound Hp. unfold graph_delta, validate_delta in Hp.
  graph_panic; [by apply workspace_delta_id_derive_no_panic in Hp|].
  apply expect_Panic_inv in Hp. outcome_inv.
  match goal with Hn : nodes !! _ = Some _, Ho : gn_operation_id _ = Some _ |- _ =>
    destruct (Hsound _ _ Hn _ Ho) as (info & ? & ? & ? & Hi & _) end. congruence.
Qed.

Lemma graph_terminal_no_panic g deltas l item r :
  terminal_loop_ok g deltas l -> graph_terminal g deltas l item <> Panic r.
Proof.
  destruct item as [position t]. intros [Hatt _] Hp. unfold graph_terminal in Hp.
  unfold validate_final_entry, validate_terminal_delta in Hp.
  graph_panic. apply expect_Panic_inv in Hp. outcome_inv. reject_step. bool_inv.
  match goal with Hn : tl_nodes _ !! _ = Some _, Ho : gn_operation_id _ = Some _ |- _ =>
    destruct (Hatt _ _ Hn) as (_ & [Hs _ _] & _);
    destruct (Hs _ Ho) as (info & ? & ? & ? & Hi & _) end. congruence.
Qed.

Lemma graph_applied_no_panic g nodes deltas positions l item r :
  delta_loop_ok g nodes deltas -> same_field gn_spawned nodes (al_nodes l) ->
  graph_applied g deltas positions l item <> Panic r.
Proof.
  destruct item as [position a]. intros Hd Hsame Hp. unfold graph_applied in Hp. graph_panic.
  apply expect_Panic_inv in Hp. outcome_inv.
  match goal with Hn : dl_by_id _ !! _ = Some _ |- _ =>
    destruct (deltas_by_id _ _ _ Hd _ _ _ Hn) as (_ & _ & node & Hnode & _) end.
  destruct (same_field_lookup gn_spawned (al_nodes l) _ _ _ (eq_sym Hsame) Hnode) as (n & ? & _).
  congruence.
Qed.

Lemma graph_state_no_panic g nodes item r :
  operation_sound g item.1 item.2 -> graph_state g nodes item <> Panic r.
Proof.
  destruct item as [id node]. intros Hsound Hp. unfold graph_state, derive_agent_state in Hp.
  graph_panic. apply expect_Panic_inv in Hp.
  match goal with Ho : gn_operation_id _ = Some _ |- _ =>
    destruct (Hsound _ Ho) as (info & ? & ? & ? & Hi & _) end. congruence.
Qed.

Lemma operation_loop_no_panic header g spawned r :
  spawn_loop_ok (sh_session_id header) g spawned ->
  ofold (graph_operation g (sl_agent_by_lane spawned)) (sl_nodes spawned)
    (btree_iter (gs_operations g)) <> Panic r.
Proof.
  intros [Hnodes _ _].
  apply (ofold_no_panic (fun nodes => same_field gn_spawned (sl_nodes spawned) nodes)); [|..|done].
  - intros s [op info] s' HI Hs. unfold graph_operation in Hs.
    repeat (outcome_inv_step || reducer_inv_step); [done| |done]. by eapply same_field_insert.
  - intros s x r' HI. eapply graph_operation_no_panic, spawned_nodes_mono; eauto.
Qed.

Lemma graph_finish_no_panic header g r : graph_finish header g <> Panic r.
Proof.
  unfold graph_finish. intros Hp. apply obind_Panic_inv in Hp as [Hp|(u & _ & Hp)];
    [by apply reject_if_no_panic in Hp|].
  apply obind_Panic_inv in Hp as [Hp|(spawned & Hspawn & Hp)].
  { revert Hp. apply (ofold_no_panic (fun _ => True)); [done| |done].
    intros. apply graph_spawn_no_panic. }
  apply obind_Panic_inv in Hp as [Hp|(nodes & Hops & Hp)].
  { eapply (operation_loop_no_panic header), Hp. revert Hspawn.
    apply ofold_invariant_in; [|apply spawn_loop_initial]. intros. by eapply graph_spawn_ok. }
  pose proof (spawn_and_operation_loops _ _ _ _ Hspawn Hops) as Hlinked.
  apply obind_Panic_inv in Hp as [Hp|(deltas & Hdeltas & Hp)].
  { revert Hp. apply (ofold_no_panic (fun _ => True)); [done| |done].
    intros. apply graph_delta_no_panic, Hlinked. }
  pose proof (delta_stage _ _ _ Hdeltas) as Hd.
  apply obind_Panic_inv in Hp as [Hp|(terminals & Hterminals & Hp)].
  { revert Hp. apply (ofold_no_panic_in (terminal_loop_ok g deltas)); [|..|by eapply delta_attachment].
    - intros. by eapply graph_terminal_ok.
    - intros. by apply graph_terminal_no_panic. }
  pose proof (terminal_stage _ _ _ _ _ Hlinked Hd Hterminals) as Ht.
  assert (same_field gn_spawned nodes (tl_nodes terminals)) as Hsame.
  { etransitivity; [apply (same_field_attach gn_spawned deltas); by intros []|].
    eapply same_links_spawns, (terminal_loop_links _ _ _ _ Hterminals). }
  apply obind_Panic_inv in Hp as [Hp|(applied & Happlied & Hp)].
  { revert Hp. apply (ofold_no_panic (fun l => same_field gn_spawned nodes (al_nodes l))); [|..|done].
    - intros l x l' HI Hs. etransitivity; [exact HI|]. apply same_links_spawns.
      eapply (apply_loop_step_links _ _ _ _ _ _ Hs).
    - intros. by eapply graph_applied_no_panic. }
  pose proof (apply_stage _ _ _ _ _ Hd Ht Happlied) as [Hatt _ _].
  apply obind_Panic_inv in Hp as [Hp|(agents & _ & Hp)]; [|done].
  revert Hp. apply (ofold_no_panic_in (fun _ => True)); [done| |done].
  intros s [id node] r' Hin%elem_of_btree_iter _. apply graph_state_no_panic, (Hatt _ _ Hin).
Qed.

Lemma reduce_agent_graph_no_panic header ms r : reduce_agent_graph_prefix header ms <> Panic r.
Proof.
  unfold reduce_agent_graph_prefix. apply obind_no_panic.
  - intros. apply graph_scan_no_panic.
  - intros. apply graph_finish_no_panic.
Qed.

(** The subagent graph reducer never panics: for a hash that yields 32-byte digests, every
    expect on an indexed operation or a derived identity holds, so it returns a graph or a
    reported corruption. *)
Theorem reduce_agent_graph_returns header ms r : reduce_agent_graph_prefix header ms <> Panic r.
Proof. apply reduce_agent_graph_no_panic. Qed.
End safe.

(** ** Change paths *)

(** A path that stays below the repository root on every platform. *)
Record repository_path (path : string) : Prop := {
  rp_bounded : (str_len_n path <= MAX_CHANGED_PATH_BYTES)%N;
  rp_no_nul : str_contains nul path = false;
  rp_no_backslash : str_contains backslash path = false;
  rp_no_drive : bytes_of path !! 1%nat <> Some colon_byte;
  rp_segments : Forall (fun seg => seg <> "" /\ seg <> "." /\ seg <> "..") (str_split slash path);
}.

Lemma segment_is_traversal_false seg :
  segment_is_traversal seg = false <-> seg <> "" /\ seg <> "." /\ seg <> "..".
Proof.
  unfold segment_is_traversal. rewrite !orb_false_iff, !String.eqb_neq.
  destruct seg; simpl; naive_solver.
Qed.

Lemma no_traversal_segments path :
  existsb segment_is_traversal (str_split slash path) = false <->
  Forall (fun seg => seg <> "" /\ seg <> "." /\ seg <> "..") (str_split slash path).
Proof.
  rewrite existsb_false_elem, Forall_forall. by setoid_rewrite segment_is_traversal_false.
Qed.

Lemma starts_with_contains c s : str_starts_with c s = true -> str_contains c s = true.
Proof. destruct s; simpl; [done|]. by intros ->. Qed.

Lemma rooted_has_empty_segment path :
  path = "" \/ str_starts_with slash path = true ->
  existsb segment_is_traversal (str_split slash path) = true.
Proof. intros [->|Hs]; [done|]. destruct path; simpl in *; [done|]. by rewrite Hs. Qed.

Lemma changed_path_Ok previous path next :
  validate_changed_path previous path = Ok next <->
  repository_path path /\ next = Some path
  /\ match previous with Some p => str_lt p path | None => True end.
Proof.
  unfold validate_changed_path. split.
  - intros Hv. graph_inv. split_and!; [|done|].
    + split; [done..|]. by apply no_traversal_segments.
    + destruct previous as [p|]; [|done]. unfold str_lt.
      match goal with Hl : String.leb _ _ = false |- _ => revert Hl end.
      unfold String.leb. rewrite String.compare_antisym. by destruct (String.compare p path).
  - intros ([Hb Hn Hbs Hd Hs] & -> & Hp). apply no_traversal_segments in Hs.
    assert (str_is_empty path = false) as He.
    { destruct path; [|done]. by rewrite rooted_has_empty_segment in Hs; [|left]. }
    assert (str_starts_with slash path = false) as Hsl.
    { apply not_true_is_false. intros Ht. by rewrite rooted_has_empty_segment in Hs; [|right]. }
    assert (str_starts_with backslash path = false) as Hsb.
    { apply not_true_is_false. intros Ht%starts_with_contains. congruence. }
    apply N.ltb_ge in Hb. apply eqb_false in Hd. rewrite He, Hb, Hn, Hsl, Hsb, Hd, Hbs, Hs. simpl.
    destruct previous as [p|]; [|done]. unfold String.leb. unfold str_lt in Hp.
    by rewrite String.compare_antisym, Hp.
Qed.

Lemma changed_paths_from previous paths :
  is_ok (ofold validate_changed_path previous paths) = true <->
  Forall repository_path paths /\ Sorted str_lt (option_list previous ++ paths).
Proof.
  revert previous. induction paths as [|path paths IH]; intros previous; simpl.
  - rewrite app_nil_r. split; [intros _|done]. split; [done|]. destruct previous; simpl; auto.
  - rewrite is_ok_obind, Forall_cons. split.
    + destruct (validate_changed_path previous path) as [next| |] eqn:Hv; [|done..].
      apply changed_path_Ok in Hv as (Hp & -> & Hlt). intros [Hps Hs]%IH. split; [done|].
      destruct previous; simpl in *; [|done]. by constructor; [|constructor].
    + intros [[Hp Hps] Hs].
      assert (validate_changed_path previous path = Ok (Some path)) as ->.
      { apply changed_path_Ok. split_and!; [done..|]. destruct previous; [|done].
        simpl in Hs. apply Sorted_inv in Hs as [_ Hh]. by apply HdRel_inv in Hh. }
      apply IH. split; [done|]. simpl. destruct previous; simpl in Hs; [|done].
      by apply Sorted_inv in Hs as [? _].
Qed.

(** The changed paths of a workspace delta are accepted exactly when each is a bounded
    repository-relative path without NUL, backslash, drive prefix or empty, dot or dot-dot
    segments, and the list is strictly increasing. *)
Theorem validate_changed_paths_iff paths :
  validate_changed_paths paths = Ok () <-> Forall repository_path paths /\ Sorted str_lt paths.
Proof.
  rewrite <-(changed_paths_from None paths). unfold validate_changed_paths.
  by destruct (ofold _ _ _).
Qed.

Local Open Scope N_scope.
#[local] Existing Instance padded_blake3.

Definition child_model : SubagentModelRecord := mk_subagent_model "prov" "m" None "M" None.
Definition child_policy : SubagentPolicyFact :=
  mk_subagent_policy 1 [child_model] 1 1 30000 digest_zero.
Definition child_id : AgentId :=
  outcome_or (@agent_id_derive _ unit (sh_session_id header) lane_main (mk_id "o") "k") (mk_id "").
Definition child_lane : LaneId := mk_id (as_str child_id).
Definition child_lease : WorkspaceLeaseId :=
  outcome_or (@workspace_lease_id_derive _ unit child_id) (mk_id "").
Definition child_operation : OperationId :=
  outcome_or (@derive_subagent_operation_id _ unit child_id "do") (mk_id "").
Definition child_delta : WorkspaceDeltaId :=
  outcome_or (@workspace_delta_id_derive _ unit child_lease "base" "result") (mk_id "").

Definition intent (call name : string) (args : JsonValue) (key : string) : LaneRecord :=
  ToolStarted (mk_tool_started (mk_id call) (mk_id "o") (mk_id "ep") (mk_id "a") 0 call name args
    (mk_id call) ReplayNever digest_zero (mk_id "h") key).

Definition child_spawn : AgentSpawnedFact :=
  mk_agent_spawned child_id lane_main (mk_id "o") child_lane "task" child_model "low" ContextTask None
    child_lease (mk_id "ch") (mk_id "chs") (mk_id "p") "c1".
Definition child_report : AgentTaskFinishedFact :=
  mk_agent_finished child_id child_operation OutcomeCompleted (Some (mk_id "ca"))
    (PayloadInline (JsonString "done")) (Some child_delta).
Definition child_workspace_delta : WorkspaceDeltaFact :=
  mk_workspace_delta child_delta child_id child_lease "base" "result" ["src/a.rs"; "src/b.rs"]
    (PayloadArtifact (mk_artifact_id digest_zero) 1 "text/x-diff").

Definition child_started : list StoredMutation :=
  [ fact_at 1 (SubagentPolicy child_policy);
    rec_at 2 (OperationStarted (operation_started_new (mk_id "o") lane_main None KindRun []
      (mk_id "h") (mk_id "p")));
    rec_at 3 (EpochStarted (mk_epoch_started (mk_id "ep") (mk_id "o") 0 None (mk_id "h") (mk_id "hs")
      (mk_id "p") (mk_id "run") ∅));
    rec_at 4 (intent "c1" "spawn_agent" (json_object [("task_name", JsonString "task");
      ("task", JsonString "do"); ("model", JsonString "m")]) "k");
    at_seq 5 (MutLane (mk_stored_lane 5 0 (LaneCreated child_lane None)));
    entry_at 5 child_lane None (mk_id "cm") (ModelChanged (mk_model_changed "prov" "m" None));
    entry_at 5 child_lane (Some (mk_id "cm")) (mk_id "ct") (ThinkingChanged (mk_thinking_changed "low"));
    entry_at 5 child_lane (Some (mk_id "ct")) (mk_id "chr")
      (HarnessRevisionChanged (mk_harness_revision_changed (mk_id "ch") (mk_id "chs") None));
    fact_at 5 (AgentSpawned child_spawn);
    rec_at 6 (OperationStarted (operation_started_new child_operation child_lane (Some (mk_id "chr"))
      (KindSubagent child_id (mk_id "o")) [provisioned_user (mk_id "cu") "do"]
      (mk_id "ch") (mk_id "p"))) ].

Definition child_settled : list StoredMutation :=
  [ entry_at 7 child_lane (Some (mk_id "chr")) (mk_id "ca")
      (AssistantMessage (mk_assistant_message (text_content "done") [] None None [] None []));
    rec_at 8 (OperationFinished (mk_operation_finished child_operation OutcomeCompleted));
    fact_at 9 (WorkspaceDelta child_workspace_delta);
    fact_at 9 (AgentTaskFinished child_report);
    rec_at 10 (intent "c2" "apply_agent_changes"
      (json_object [("delta_id", JsonString (as_str child_delta))]) "k2");
    fact_at 11 (WorkspaceDeltaApplied (mk_delta_applied child_delta lane_main "c2"
      ["src/a.rs"; "src/b.rs"])) ].

Definition child_session : list StoredMutation := child_started ++ child_settled.

Definition graph_of (ms : list StoredMutation) : AgentGraphReduction :=
  outcome_or (reduce_agent_graph_prefix header ms) (mk_graph_reduction None ∅).
Definition scan_of (ms : list StoredMutation) : GraphScan :=
  outcome_or (graph_scan header ms) (graph_scan_initial header).

Example child_started_running :
  gn_state <$> gr_agents (graph_of child_started) !! child_id = Some AgentIsRunning.
Proof. vm_compute. reflexivity. Qed.

Example child_session_applied :
  gn_state <$> gr_agents (graph_of child_session) !! child_id
  = Some (AgentIsApplied OutcomeCompleted child_delta).
Proof. vm_compute. reflexivity. Qed.

Lemma child_session_Ok : reduce_agent_graph_prefix header child_session = Ok (graph_of child_session).
Proof.
  assert (is_ok (reduce_agent_graph_prefix header child_session) = true) as Hok
    by (vm_compute; reflexivity).
  unfold graph_of. by destruct (reduce_agent_graph_prefix header child_session).
Qed.

Lemma child_scan_Ok : graph_scan header child_session = Ok (scan_of child_session).
Proof.
  assert (is_ok (graph_scan header child_session) = true) as Hok by (vm_compute; reflexivity).
  unfold scan_of. by destruct (graph_scan header child_session).
Qed.


Lemma agent_operations_bound_witness :
  (forall op info agent parent, gs_operations (scan_of child_session) !! op = Some info ->
     oi_kind info = KindSubagent agent parent ->
     exists node, gr_agents (graph_of child_session) !! agent = Some node
       /\ gn_operation_id node = Some op)
  /\ (forall op info agent node, gs_operations (scan_of child_session) !! op = Some info ->
     gr_agents (graph_of child_session) !! agent = Some node ->
     oi_lane_id info = as_lane_id (gn_spawned node) ->
     exists parent, oi_kind info = KindSubagent agent parent)
  /\ (forall id1 n1 id2 n2, gr_agents (graph_of child_session) !! id1 = Some n1 ->
     gr_agents (graph_of child_session) !! id2 = Some n2 ->
     as_lane_id (gn_spawned n1) = as_lane_id (gn_spawned n2) \/ node_task n1 = node_task n2 ->
     id1 = id2).
Proof.
  apply (agent_operations_bound header child_session).
  - exact child_session_Ok.
  - exact child_scan_Ok.
Defined.

Lemma reduce_agent_graph_returns_witness :
  reduce_agent_graph_prefix header child_session <> Panic "agent spawn tool was validated".
Proof.
  exact (@reduce_agent_graph_returns padded_blake3 padded_blake3_law header child_session
           "agent spawn tool was validated").
Defined.
