(* ===== verification/SessionErrors.v ===== *)
(** * tea-session: messages and boundary errors

    [SessionError] of [crates/tea-session/src/store.rs], and the diagnostic
    texts of the wire decoder.  A message is kept as the pieces of its
    [format!] call: literal text, a value printed with [{:?}], or the error
    value another layer displays. *)

From stdpp Require Import base list strings.
From S2P Require Import Prelude RustStr Json Ids Model Records Snapshot Reduction.

Inductive Piece :=
| Lit (text : string)
| Dbg (value : string)
| Num (value : N)
| OfId (error : IdError)
| OfDigest (error : DigestError)
| OfJson (error : JsonError)
| OfUtf8 (error : Utf8Error).

Definition Message : Type := list Piece.

Inductive SessionError :=
| UnsupportedFormat (path : string) (observed_version : option N)
| InvalidInput (message : Message)
| CorruptionError (corruption : Corruption)
| Faulted (message : Message)
| RecoveryRequired (path : string) (offset : N)
| IoError (path message : string)
| IndeterminateWrite (path message : string)
| WriterBusy (path : string)
| FormatError (path : string) (line : N) (offset : N) (sequence : option Sequence)
    (mutation_kind : option string) (message : Message).

(** [return Err(format!(...))] of the decoders. *)
Definition fail {A} (m : Message) : Outcome Message A := Err m.

(** [if condition { return Err(...) }]. *)
Definition fail_if (condition : bool) (m : Message) : Outcome Message unit :=
  if condition then Err m else Ok ().

Lemma fail_if_Ok c m u : fail_if c m = Ok u -> c = false.
Proof. by destruct c. Qed.

(** [Display] of [SessionError]. *)
Definition session_error_display (error : SessionError) : Message :=
  match error with
  | UnsupportedFormat path (Some version) =>
      [Lit "unsupported session format at "; Lit path; Lit ": observed version "; Num version;
       Lit "; current build supports only session format 1; no automatic migration is available"]
  | UnsupportedFormat path None =>
      [Lit "unsupported session format at "; Lit path;
       Lit ": current build supports only session format 1; no automatic migration is available"]
  | InvalidInput message => Lit "invalid session input: " :: message
  | CorruptionError corruption => [Lit "session corruption: "; Lit (corruption_message corruption)]
  | Faulted message => Lit "session store is faulted: " :: message
  | RecoveryRequired path offset =>
      [Lit "session recovery is required at "; Lit path; Lit ": uncommitted tail begins at byte ";
       Num offset; Lit "; run the explicit torn-tail repair operation"]
  | IoError path message => [Lit "session I/O failed at "; Lit path; Lit ": "; Lit message]
  | IndeterminateWrite path message =>
      [Lit "session append outcome is indeterminate at "; Lit path; Lit ": "; Lit message;
       Lit "; close and reopen before continuing"]
  | WriterBusy path => [Lit "session already has an active writer: "; Lit path]
  | FormatError path line offset sequence mutation_kind message =>
      [Lit "invalid session format at "; Lit path; Lit " line "; Num line; Lit " at byte "; Num offset]
      ++ match sequence with Some seq => [Lit " sequence "; Num seq] | None => [] end
      ++ match mutation_kind with Some kind => [Lit " mutation "; Lit kind] | None => [] end
      ++ Lit ": " :: message
  end.
