(* ===== verification/WireEncode.v ===== *)
(** * tea-session: the v1 wire encoding ([encode_*] of
    [crates/tea-session/src/jsonl.rs])

    Every durable value is written as one canonical JSON value: objects are
    built with [JsonValue::object], so their keys are sorted, and optional
    values are written as [null] except where the source leaves the key out.
    The seal of a commit hashes the canonical text of this encoding. *)

From stdpp Require Import base gmap list strings.
From S2P Require Import Prelude RustStr Json Ids Model Records.

(** ** Leaf encoders *)

(** [string_value] of an identifier, [digest_value], [artifact_value] and
    [JsonValue::from(u64)]. *)
Definition string_value {k} (value : Id k) : JsonValue := JsonString (as_str value).
Definition digest_value (value : Digest) : JsonValue := JsonString (digest_to_hex value).
Definition artifact_value (value : ArtifactId) : JsonValue := JsonString (artifact_id_to_hex value).
Definition u64_value (value : N) : JsonValue := JsonNum (Unsigned value).

(** [optional_value] and its instances. *)
Definition optional_value (value : option JsonValue) : JsonValue := default JsonNull value.
Definition optional_string (value : option string) : JsonValue :=
  optional_value (JsonString <$> value).
Definition optional_u64 (value : option N) : JsonValue := optional_value (u64_value <$> value).
Definition optional_bool (value : option bool) : JsonValue := optional_value (JsonBool <$> value).
Definition optional_id {k} (value : option (Id k)) : JsonValue :=
  optional_value (string_value <$> value).
Definition optional_artifact (value : option ArtifactId) : JsonValue :=
  optional_value (artifact_value <$> value).
Definition string_list (values : list string) : JsonValue := JsonArray (map JsonString values).

(** ** Names of closed enumerations *)

Definition memory_visibility_name (value : MemoryVisibility) : string :=
  match value with ModelVisible => "model_visible" | ExternalOnly => "external_only" end.
Definition memory_retention_name (value : MemoryRetention) : string :=
  match value with RetainSession => "session" | RetainCheckpoint => "checkpoint" end.
Definition step_kind_name (value : StepKind) : string :=
  match value with StepAssistant => "assistant" | StepCompaction => "compaction" end.
Definition epoch_finish_reason_name (value : EpochFinishReason) : string :=
  match value with
  | EpochSettled => "settled"
  | EpochActivationPending => "activation_pending"
  | EpochInterrupted => "interrupted"
  end.
Definition tool_replay_policy_name (value : ToolReplayPolicy) : string :=
  match value with ReplayNever => "never" | ReplaySafe => "safe" end.
Definition provider_classification_name (value : ProviderSettlementClassification) : string :=
  match value with
  | SettlementCompleted => "completed"
  | SettlementRetryable => "retryable"
  | SettlementDiscarded => "discarded"
  | SettlementInterrupted => "interrupted"
  end.
Definition agent_context_mode_name (value : AgentContextMode) : string :=
  match value with ContextTask => "task" | ContextParent => "parent" end.

(** ** Nested values *)

(** [encode_payload_ref]. *)
Definition encode_payload_ref (value : PayloadRef) : JsonValue :=
  match value with
  | PayloadInline value => json_object [("kind", JsonString "inline"); ("value", value)]
  | PayloadArtifact artifact_id byte_len media_type =>
      json_object [("kind", JsonString "artifact"); ("artifact_id", artifact_value artifact_id);
        ("byte_len", u64_value byte_len); ("media_type", JsonString media_type)]
  end.

(** [encode_usage]. *)
Definition encode_usage (usage : Usage) : JsonValue :=
  json_object [
    ("total_tokens", optional_u64 (us_total_tokens usage));
    ("input_tokens", optional_u64 (us_input_tokens usage));
    ("output_tokens", optional_u64 (us_output_tokens usage));
    ("reasoning_tokens", optional_u64 (us_reasoning_tokens usage));
    ("cache_read_tokens", optional_u64 (us_cache_read_tokens usage));
    ("cache_write_tokens", optional_u64 (us_cache_write_tokens usage));
    ("cost", optional_string (us_cost usage))].

(** The object of a model identity: [origin], [encode_optional_model]. *)
Definition encode_model (model : ModelChangedEntry) : JsonValue :=
  json_object [("provider", JsonString (mc_provider model)); ("model", JsonString (mc_model model));
    ("revision", optional_string (mc_revision model))].
Definition encode_optional_model (model : option ModelChangedEntry) : JsonValue :=
  optional_value (encode_model <$> model).

(** [encode_opaque_provider_context]. *)
Definition encode_opaque_provider_context (value : OpaqueProviderContextEntry) : JsonValue :=
  json_object [("provider", JsonString (oc_provider value)); ("kind", JsonString (oc_kind value));
    ("item_id", optional_string (oc_item_id value)); ("payload", JsonString (oc_payload value))].

(** [encode_assistant_block]. *)
Definition encode_assistant_block (block : AssistantContentEntry) : JsonValue :=
  match block with
  | ContentText text => json_object [("type", JsonString "text"); ("text", JsonString text)]
  | ContentThinking text signature =>
      json_object [("type", JsonString "thinking"); ("text", JsonString text);
        ("signature", optional_value (encode_opaque_provider_context <$> signature))]
  | ContentRedactedThinking data =>
      json_object [("type", JsonString "redacted_thinking");
        ("data", encode_opaque_provider_context data)]
  end.

(** [encode_assistant_tool_call]. *)
Definition encode_assistant_tool_call (call : AssistantToolCall) : JsonValue :=
  json_object [("id", JsonString (tc_id call)); ("name", JsonString (tc_name call));
    ("arguments", tc_arguments call)].

Definition is_text_block (block : AssistantContentEntry) : bool :=
  match block with ContentText _ => true | _ => false end.

(** The [text_only] condition of [encode_assistant_message]. *)
Definition text_only (content : list AssistantContentEntry) : bool :=
  (length content <=? 1)%nat && forallb is_text_block content.

(** [encode_assistant_message]. *)
Definition encode_assistant_message (entry : AssistantMessageEntry) : JsonValue :=
  json_object (
    [("type", JsonString "assistant_message"); ("content", JsonString (assistant_text entry))]
    ++ (if text_only (am_content entry) then []
        else [("content_blocks", JsonArray (map encode_assistant_block (am_content entry)))])
    ++ [("tool_calls", JsonArray (map encode_assistant_tool_call (am_tool_calls entry)));
        ("stop_reason", optional_string (am_stop_reason entry));
        ("error_message", optional_string (am_error_message entry));
        ("opaque_context", JsonArray (map encode_opaque_provider_context (am_opaque_context entry)));
        ("metadata", JsonObject (am_metadata entry))]
    ++ match am_origin entry with
       | Some origin => [("origin", encode_model origin)]
       | None => []
       end).

(** ** Entries *)

Definition encode_section_change (change : PromptSectionChange) : JsonValue :=
  json_object [("id", JsonString (psc_id change)); ("content", optional_string (psc_content change))].
Definition encode_tool_declaration (tool : ToolDeclarationRecord) : JsonValue :=
  json_object [("name", JsonString (td_name tool)); ("description", JsonString (td_description tool));
    ("schema", td_schema tool)].

(** [encode_entry]. *)
Definition encode_entry (entry : SessionEntry) : JsonValue :=
  match entry with
  | UserMessage entry =>
      json_object [("type", JsonString "user_message"); ("content", JsonString (um_content entry));
        ("metadata", JsonObject (um_metadata entry))]
  | AssistantMessage entry => encode_assistant_message entry
  | ToolResult entry =>
      json_object [("type", JsonString "tool_result");
        ("tool_call_id", JsonString (tr_tool_call_id entry));
        ("tool_name", JsonString (tr_tool_name entry));
        ("full_result", encode_payload_ref (tr_full_result entry));
        ("model_projection", tr_model_projection entry);
        ("is_error", JsonBool (tr_is_error entry));
        ("terminate", JsonBool (tr_terminate entry));
        ("usage", encode_usage (tr_usage entry));
        ("projection_strategy_id", JsonString (tr_projection_strategy_id entry));
        ("artifact_policy_id", string_value (tr_artifact_policy_id entry))]
  | Compaction entry =>
      json_object [("type", JsonString "compaction");
        ("covered_from", optional_id (ce_covered_from entry));
        ("covered_to", optional_id (ce_covered_to entry));
        ("retained_tail_boundary", optional_id (ce_retained_tail_boundary entry));
        ("summary", JsonString (ce_summary entry));
        ("strategy_id", JsonString (ce_strategy_id entry));
        ("recovery_index_artifact", optional_artifact (ce_recovery_index_artifact entry));
        ("harness_revision_id", optional_id (ce_harness_revision_id entry));
        ("replacement", encode_payload_ref (ce_replacement entry));
        ("replacement_digest", digest_value (ce_replacement_digest entry));
        ("provider_request_id", optional_id (ce_provider_request_id entry))]
  | BranchSummary entry =>
      json_object [("type", JsonString "branch_summary"); ("summary", JsonString (bs_summary entry));
        ("covered_to", optional_id (bs_covered_to entry))]
  | ModelChanged entry =>
      json_object [("type", JsonString "model_changed"); ("provider", JsonString (mc_provider entry));
        ("model", JsonString (mc_model entry)); ("revision", optional_string (mc_revision entry))]
  | ThinkingChanged entry =>
      json_object [("type", JsonString "thinking_changed"); ("level", JsonString (th_level entry))]
  | ConfigurationChanged entry =>
      json_object [("type", JsonString "configuration_changed");
        ("sections", JsonArray (map encode_section_change (cc_sections entry)));
        ("tools_added", JsonArray (map encode_tool_declaration (cc_tools_added entry)));
        ("tools_removed", string_list (cc_tools_removed entry))]
  | HarnessRevisionChanged entry =>
      json_object [("type", JsonString "harness_revision_changed");
        ("revision_id", string_value (hr_revision_id entry));
        ("snapshot_id", string_value (hr_snapshot_id entry));
        ("rollback_from", optional_id (hr_rollback_from entry))]
  | PluginMemory entry =>
      json_object [("type", JsonString "plugin_memory"); ("plugin_id", JsonString (pm_plugin_id entry));
        ("kind", JsonString (pm_kind entry)); ("content", encode_payload_ref (pm_content entry));
        ("provenance", string_list (pm_provenance entry));
        ("visibility", JsonString (memory_visibility_name (pm_visibility entry)));
        ("retention", JsonString (memory_retention_name (pm_retention entry)))]
  | CustomSemantic entry =>
      json_object [("type", JsonString "custom"); ("type_name", JsonString (cu_type_name entry));
        ("payload", encode_payload_ref (cu_payload entry));
        ("model_visible", JsonBool (cu_model_visible entry))]
  end.

(** ** Records *)

(** [encode_provisioned_entry]. *)
Definition encode_provisioned_entry (entry : ProvisionedEntry) : JsonValue :=
  json_object [("id", string_value (pe_id entry)); ("body", encode_entry (pe_body entry))].

(** [encode_hook_data]: the iterator is sorted by key text already. *)
Definition encode_hook_data (data : gmap StableHookId JsonValue) : JsonValue :=
  JsonObject (map (fun '(key, value) => (as_str key, value)) (btree_iter data)).

(** [encode_operation_kind]. *)
Definition encode_operation_kind (kind : OperationKind) : JsonValue :=
  match kind with
  | KindRun => json_object [("kind", JsonString "run")]
  | KindSubagent agent_id parent_operation_id =>
      json_object [("kind", JsonString "subagent"); ("agent_id", string_value agent_id);
        ("parent_operation_id", string_value parent_operation_id)]
  | KindOther name => json_object [("kind", JsonString "other"); ("name", JsonString name)]
  end.

(** [encode_operation_outcome]. *)
Definition encode_operation_outcome (outcome : OperationOutcome) : JsonValue :=
  match outcome with
  | OutcomeCompleted => json_object [("kind", JsonString "completed")]
  | OutcomeAborted => json_object [("kind", JsonString "aborted")]
  | OutcomeFailed code => json_object [("kind", JsonString "failed"); ("code", JsonString code)]
  end.

(** [encode_provider_error]. *)
Definition encode_provider_error (error : ProviderErrorRecord) : JsonValue :=
  json_object [("source", JsonString (per_source error));
    ("message", optional_string (per_message error));
    ("status_code", optional_u64 (per_status_code error));
    ("attempt", optional_u64 (per_attempt error));
    ("logical_request_id", optional_string (per_logical_request_id error));
    ("visible_stream_event", optional_bool (per_visible_stream_event error));
    ("auth_refresh_attempted", optional_bool (per_auth_refresh_attempted error));
    ("quota_reset_at_unix_seconds", optional_u64 (per_quota_reset_at_unix_seconds error));
    ("error_type", optional_string (per_error_type error));
    ("error_code", optional_string (per_error_code error));
    ("retryable", optional_bool (per_retryable error));
    ("response_bytes", optional_u64 (per_response_bytes error));
    ("request_bytes", optional_u64 (per_request_bytes error));
    ("response_body", optional_string (per_response_body error))].

(** The [(outcome, message)] pair of a cache-maintenance record. *)
Definition cache_outcome (outcome : CacheMaintenanceOutcome) : string * option string :=
  match outcome with
  | MaintenanceCompleted => ("completed", None)
  | MaintenanceFailed message => ("failed", Some message)
  | MaintenanceCancelled => ("cancelled", None)
  end.

(** [encode_record]. *)
Definition encode_record (record : LaneRecord) : JsonValue :=
  match record with
  | OperationStarted record =>
      json_object [("type", JsonString "operation_started"); ("id", string_value (os_id record));
        ("lane_id", string_value (os_lane_id record));
        ("source_leaf_id", optional_id (os_source_leaf_id record));
        ("operation_kind", encode_operation_kind (os_kind record));
        ("original_input", JsonArray (map encode_provisioned_entry (os_original_input record)));
        ("input_ids", JsonArray (map string_value (os_input_ids record)));
        ("initial_harness_revision", string_value (os_initial_harness_revision record));
        ("model_harness_profile", string_value (os_model_harness_profile record));
        ("operation_resume_data", encode_hook_data (os_operation_resume_data record))]
  | OperationFinished record =>
      json_object [("type", JsonString "operation_finished");
        ("operation_id", string_value (of_operation_id record));
        ("outcome", encode_operation_outcome (of_outcome record))]
  | AbortRequested record =>
      json_object [("type", JsonString "abort_requested");
        ("operation_id", string_value (ar_operation_id record));
        ("reason", optional_string (ar_reason record))]
  | EpochStarted record =>
      json_object [("type", JsonString "epoch_started"); ("id", string_value (es_id record));
        ("operation_id", string_value (es_operation_id record));
        ("epoch_index", u64_value (es_epoch_index record));
        ("source_leaf_id", optional_id (es_source_leaf_id record));
        ("harness_revision_id", string_value (es_harness_revision_id record));
        ("harness_snapshot_id", string_value (es_harness_snapshot_id record));
        ("model_harness_profile", string_value (es_model_harness_profile record));
        ("core_run_id", string_value (es_core_run_id record));
        ("epoch_resume_data", encode_hook_data (es_epoch_resume_data record))]
  | EpochFinished record =>
      json_object [("type", JsonString "epoch_finished"); ("epoch_id", string_value (ef_epoch_id record));
        ("operation_id", string_value (ef_operation_id record));
        ("reason", JsonString (epoch_finish_reason_name (ef_reason record)))]
  | StepAttempted record =>
      json_object [("type", JsonString "step_attempted"); ("id", string_value (sa_id record));
        ("operation_id", string_value (sa_operation_id record));
        ("epoch_id", string_value (sa_epoch_id record));
        ("step_kind", JsonString (step_kind_name (sa_kind record)));
        ("attempt", u64_value (sa_attempt record));
        ("result_entry_id", string_value (sa_result_entry_id record));
        ("reason", optional_string (sa_reason record))]
  | ProviderRequestStarted record =>
      json_object [("type", JsonString "provider_request_started");
        ("request_id", string_value (prs_request_id record));
        ("operation_id", string_value (prs_operation_id record));
        ("epoch_id", string_value (prs_epoch_id record));
        ("step_id", string_value (prs_step_id record));
        ("physical_attempt", u64_value (prs_physical_attempt record));
        ("model_harness_profile", string_value (prs_model_harness_profile record));
        ("request_surface_digest", digest_value (prs_request_surface_digest record));
        ("idempotency_key", optional_string (prs_idempotency_key record))]
  | ProviderRequestSettled record =>
      json_object ([("type", JsonString "provider_request_settled");
        ("request_id", string_value (pst_request_id record));
        ("operation_id", string_value (pst_operation_id record));
        ("outcome", pst_outcome record);
        ("usage", optional_value (encode_usage <$> pst_usage record));
        ("response_artifact", optional_artifact (pst_response_artifact record));
        ("classification", JsonString (provider_classification_name (pst_classification record)))]
        ++ match pst_provider_error record with
           | Some error => [("provider_error", encode_provider_error error)]
           | None => []
           end)
  | ToolStarted record =>
      json_object [("type", JsonString "tool_started"); ("record_id", string_value (ts_record_id record));
        ("operation_id", string_value (ts_operation_id record));
        ("epoch_id", string_value (ts_epoch_id record));
        ("assistant_entry_id", string_value (ts_assistant_entry_id record));
        ("tool_index", u64_value (ts_tool_index record));
        ("tool_call_id", JsonString (ts_tool_call_id record));
        ("tool_name", JsonString (ts_tool_name record));
        ("effective_args", ts_effective_args record);
        ("result_entry_id", string_value (ts_result_entry_id record));
        ("replay_policy_at_start",
           JsonString (tool_replay_policy_name (ts_replay_policy_at_start record)));
        ("tool_definition_digest", digest_value (ts_tool_definition_digest record));
        ("harness_revision_id", string_value (ts_harness_revision_id record));
        ("idempotency_key", JsonString (ts_idempotency_key record))]
  | InputAccepted record =>
      json_object [("type", JsonString "input_accepted"); ("lane_id", string_value (ia_lane_id record));
        ("entry", encode_provisioned_entry (ia_entry record))]
  | InputWithdrawn record =>
      json_object [("type", JsonString "input_withdrawn"); ("lane_id", string_value (iw_lane_id record));
        ("input_id", string_value (iw_input_id record))]
  | InputSettled record =>
      json_object [("type", JsonString "input_settled");
        ("operation_id", string_value (is_operation_id record));
        ("input_id", string_value (is_input_id record));
        ("outcome", encode_operation_outcome (is_outcome record))]
  | ExtensionControlEnqueued record =>
      json_object [("type", JsonString "extension_control_enqueued");
        ("operation_id", string_value (xe_operation_id record));
        ("control_id", JsonString (xe_control_id record));
        ("extension_id", JsonString (xe_extension_id record));
        ("harness_revision_id", string_value (xe_harness_revision_id record));
        ("command_name", JsonString (xe_command_name record));
        ("arguments", xe_arguments record)]
  | ExtensionControlApplied record =>
      json_object [("type", JsonString "extension_control_applied");
        ("control_id", JsonString (xa_control_id record))]
  | WriteDeferred record =>
      json_object [("type", JsonString "write_deferred");
        ("operation_id", string_value (wd_operation_id record));
        ("entry", encode_provisioned_entry (wd_entry record))]
  | HarnessActivationRequested record =>
      json_object [("type", JsonString "harness_activation_requested");
        ("operation_id", string_value (ha_operation_id record));
        ("candidate_id", string_value (ha_candidate_id record));
        ("parent_revision_id", string_value (ha_parent_revision_id record));
        ("proposed_snapshot_id", string_value (ha_proposed_snapshot_id record));
        ("revision_entry_id", string_value (ha_revision_entry_id record))]
  | UsageFact record =>
      json_object [("type", JsonString "usage"); ("operation_id", string_value (ur_operation_id record));
        ("request_id", optional_id (ur_request_id record));
        ("usage", encode_usage (ur_usage record))]
  | CacheMaintenance record =>
      let '(outcome, message) := cache_outcome (cm_outcome record) in
      json_object [("type", JsonString "cache_maintenance");
        ("operation_id", string_value (cm_operation_id record));
        ("model", encode_optional_model (cm_model record));
        ("selected_model", encode_optional_model (cm_selected_model record));
        ("outcome", JsonString outcome);
        ("message", optional_string message);
        ("usage", encode_usage (cm_usage record));
        ("estimated_cost", optional_string (cm_estimated_cost record))]
  end.

(** [encode_lane_mutation]. *)
Definition encode_lane_mutation (mutation : LaneMutation) : JsonValue :=
  match mutation with
  | LaneCreated lane_id base_leaf_id =>
      json_object [("type", JsonString "created"); ("lane_id", string_value lane_id);
        ("base_leaf_id", optional_id base_leaf_id)]
  end.

(** ** Facts *)

(** [encode_subagent_model]. *)
Definition encode_subagent_model (model : SubagentModelRecord) : JsonValue :=
  json_object [("provider", JsonString (sm_provider model)); ("model", JsonString (sm_model model));
    ("revision", optional_string (sm_revision model));
    ("display_name", JsonString (sm_display_name model));
    ("context_window", optional_u64 (sm_context_window model))].

(** [encode_extension_state]. *)
Definition encode_extension_value (value : ExtensionStateValue) : JsonValue :=
  json_object [("state_version", JsonString (xv_state_version value)); ("value", xv_value value)].
Definition encode_extension_state (state : gmap string ExtensionStateValue) : JsonValue :=
  JsonObject (map (fun '(extension_id, value) => (extension_id, encode_extension_value value))
    (btree_iter state)).

Definition encode_schema_mismatch (mismatch : SchemaFieldMismatch) : JsonValue :=
  json_object [("field", JsonString (sfm_field mismatch)); ("expected", JsonString (sfm_expected mismatch));
    ("actual", JsonString (sfm_actual mismatch))].

(** [encode_fact]. *)
Definition encode_fact (fact : SessionFact) : JsonValue :=
  match fact with
  | SubagentPolicy fact =>
      json_object [("type", JsonString "subagent_policy");
        ("schema_version", u64_value (sp_schema_version fact));
        ("models", JsonArray (map encode_subagent_model (sp_models fact)));
        ("max_concurrent", u64_value (sp_max_concurrent fact));
        ("max_total_per_operation", u64_value (sp_max_total_per_operation fact));
        ("timeout_ms", u64_value (sp_timeout_ms fact));
        ("tool_surface_digest", digest_value (sp_tool_surface_digest fact))]
  | AgentSpawned fact =>
      json_object [("type", JsonString "agent_spawned"); ("agent_id", string_value (as_agent_id fact));
        ("parent_lane_id", string_value (as_parent_lane_id fact));
        ("parent_operation_id", string_value (as_parent_operation_id fact));
        ("lane_id", string_value (as_lane_id fact));
        ("task_name", JsonString (as_task_name fact));
        ("model", encode_subagent_model (as_model fact));
        ("thinking", JsonString (as_thinking fact));
        ("context_mode", JsonString (agent_context_mode_name (as_context_mode fact)));
        ("base_leaf_id", optional_id (as_base_leaf_id fact));
        ("workspace_lease_id", string_value (as_workspace_lease_id fact));
        ("harness_revision_id", string_value (as_harness_revision_id fact));
        ("harness_snapshot_id", string_value (as_harness_snapshot_id fact));
        ("model_harness_profile_id", string_value (as_model_harness_profile_id fact));
        ("spawn_tool_call_id", JsonString (as_spawn_tool_call_id fact))]
  | WorkspaceDelta fact =>
      json_object [("type", JsonString "workspace_delta"); ("delta_id", string_value (wf_delta_id fact));
        ("agent_id", string_value (wf_agent_id fact));
        ("workspace_lease_id", string_value (wf_workspace_lease_id fact));
        ("base_commit", JsonString (wf_base_commit fact));
        ("result_commit", JsonString (wf_result_commit fact));
        ("changed_paths", string_list (wf_changed_paths fact));
        ("patch", encode_payload_ref (wf_patch fact))]
  | AgentTaskFinished fact =>
      json_object [("type", JsonString "agent_task_finished");
        ("agent_id", string_value (af_agent_id fact));
        ("operation_id", string_value (af_operation_id fact));
        ("outcome", encode_operation_outcome (af_outcome fact));
        ("final_entry_id", optional_id (af_final_entry_id fact));
        ("report", encode_payload_ref (af_report fact));
        ("workspace_delta_id", optional_id (af_workspace_delta_id fact))]
  | WorkspaceDeltaApplied fact =>
      json_object [("type", JsonString "workspace_delta_applied");
        ("delta_id", string_value (wa_delta_id fact));
        ("target_lane_id", string_value (wa_target_lane_id fact));
        ("tool_call_id", JsonString (wa_tool_call_id fact));
        ("changed_paths", string_list (wa_changed_paths fact))]
  | HarnessCatalog fact =>
      json_object [("type", JsonString "harness_catalog");
        ("schema_version", u64_value (hc_schema_version fact));
        ("artifact_id", artifact_value (hc_artifact_id fact));
        ("byte_len", u64_value (hc_byte_len fact))]
  | ToolSchemaDeviation fact =>
      json_object [("type", JsonString "tool_schema_deviation");
        ("operation_id", string_value (tsd_operation_id fact));
        ("epoch_id", string_value (tsd_epoch_id fact));
        ("assistant_entry_id", string_value (tsd_assistant_entry_id fact));
        ("tool_call_id", JsonString (tsd_tool_call_id fact));
        ("tool_name", JsonString (tsd_tool_name fact));
        ("model_harness_profile", string_value (tsd_model_harness_profile fact));
        ("arguments_valid_json", JsonBool (tsd_arguments_valid_json fact));
        ("unknown_fields", string_list (tsd_unknown_fields fact));
        ("missing_fields", string_list (tsd_missing_fields fact));
        ("type_mismatches", JsonArray (map encode_schema_mismatch (tsd_type_mismatches fact)));
        ("raw_arguments", encode_payload_ref (tsd_raw_arguments fact))]
  | TraceArtifact fact =>
      json_object [("type", JsonString "trace_artifact");
        ("schema_version", u64_value (ta_schema_version fact));
        ("operation_id", string_value (ta_operation_id fact));
        ("epoch_id", string_value (ta_epoch_id fact));
        ("core_run_id", string_value (ta_core_run_id fact));
        ("harness_revision_id", string_value (ta_harness_revision_id fact));
        ("harness_snapshot_id", string_value (ta_harness_snapshot_id fact));
        ("model_harness_profile", string_value (ta_model_harness_profile fact));
        ("artifact_id", artifact_value (ta_artifact_id fact));
        ("byte_len", u64_value (ta_byte_len fact));
        ("media_type", JsonString (ta_media_type fact))]
  | ProviderRequestMaterial fact =>
      json_object [("type", JsonString "provider_request_material");
        ("operation_id", string_value (pmf_operation_id fact));
        ("epoch_id", string_value (pmf_epoch_id fact));
        ("request_id", string_value (pmf_request_id fact));
        ("request", encode_payload_ref (pmf_request fact))]
  | ExtensionStateValueSet fact =>
      json_object [("type", JsonString "extension_state_value_set");
        ("lane_id", string_value (xs_lane_id fact));
        ("extension_id", JsonString (xs_extension_id fact));
        ("state_version", JsonString (xs_state_version fact));
        ("value", xs_value fact)]
  | TurnCheckpoint fact =>
      json_object [("type", JsonString "turn_checkpoint");
        ("checkpoint_id", string_value (tcf_checkpoint_id fact));
        ("lane_id", string_value (tcf_lane_id fact));
        ("operation_id", string_value (tcf_operation_id fact));
        ("leaf_id", optional_id (tcf_leaf_id fact));
        ("extension_state", encode_extension_state (tcf_extension_state fact))]
  | ForkedLane fact =>
      json_object [("type", JsonString "forked_lane");
        ("checkpoint_id", string_value (fl_checkpoint_id fact));
        ("lane_id", string_value (fl_lane_id fact));
        ("base_leaf_id", optional_id (fl_base_leaf_id fact))]
  | CustomFact type_name payload =>
      json_object [("type", JsonString "custom"); ("type_name", JsonString type_name);
        ("payload", payload)]
  end.

(** ** Commits and the header *)

(** [encode_mutation_payload]. *)
Definition encode_mutation_payload (mutation : SessionMutation) : JsonValue :=
  match mutation with
  | MutEntry entry =>
      json_object [("kind", JsonString "entry");
        ("payload", json_object [("lane_id", string_value (se_lane_id entry));
           ("id", string_value (eh_id (se_header entry)));
           ("parent_id", optional_id (eh_parent_id (se_header entry)));
           ("entry", encode_entry (se_body entry))])]
  | MutRecord record =>
      json_object [("kind", JsonString "record"); ("payload", encode_record (sr_record record))]
  | MutLane lane =>
      json_object [("kind", JsonString "lane"); ("payload", encode_lane_mutation (sl_mutation lane))]
  | MutFact fact => json_object [("kind", JsonString "fact"); ("payload", encode_fact (sf_fact fact))]
  end.

(** [encode_commit_payload]. *)
Definition encode_commit_payload (items : list StoredMutation) : JsonValue :=
  json_object [("kind", JsonString "commit");
    ("items", JsonArray (map (fun item => encode_mutation_payload (smu_mutation item)) items))].

(** [encode_commit]. *)
Definition encode_commit (commit : StoredCommit) : JsonValue :=
  json_object [("seq", u64_value (sc_seq commit)); ("timestamp_ms", u64_value (sc_timestamp_ms commit));
    ("prev_digest", digest_value (sc_prev_digest commit));
    ("mutation", encode_commit_payload (sc_items commit));
    ("digest", digest_value (sc_digest commit))].

(** [encode_unsigned_header]. *)
Definition encode_unsigned_header (header : SessionHeader) : JsonValue :=
  json_object [("kind", JsonString SESSION_HEADER_KIND); ("format", JsonString SESSION_FORMAT_IDENTITY);
    ("version", u64_value (sh_version header)); ("session_id", string_value (sh_session_id header));
    ("created_at_ms", u64_value (sh_created_at_ms header));
    ("workspace", JsonString (sh_workspace header)); ("metadata", JsonObject (sh_metadata header));
    ("initial_lane", string_value (sh_initial_lane header))].

(** [encode_header]. *)
Definition encode_header {E} (header : SessionHeader) : Outcome E JsonValue :=
  let? fields := expect (json_as_object (encode_unsigned_header header))
                   "unsigned session header is an object" in
  Ok (JsonObject (btree_insert "digest" (digest_value (sh_digest header)) fields)).
