(* ===== verification/WireDecode.v ===== *)
(** * tea-session: the v1 wire decoding ([decode_*], [parse_*] and the field
    helpers of [crates/tea-session/src/jsonl.rs])

    Decoding reads the fields of an object by name and fails with the
    source's diagnostic; no decoder looks at the order of fields or at keys
    it does not know. *)

From stdpp Require Import base gmap list strings.
From S2P Require Import Prelude RustStr Json Ids Model Records Snapshot Reduction SessionErrors.

Abbreviation Fields := (list (string * JsonValue)).
Abbreviation Decoded A := (Outcome Message A).

(** ** Field helpers *)

(** [object]. *)
Definition object (value : JsonValue) : Decoded Fields :=
  ok_or (json_as_object value) [Lit "value must be a JSON object"].

(** [required_value] and its typed forms. *)
Definition required_value (object : Fields) (field : string) : Decoded JsonValue :=
  ok_or (btree_get field object) [Lit "missing required field "; Dbg field].

Definition required_string (object : Fields) (field : string) : Decoded string :=
  let? value := required_value object field in
  ok_or (json_as_str value) [Lit "field "; Dbg field; Lit " must be a string"].

Definition required_u64 (object : Fields) (field : string) : Decoded N :=
  let? value := required_value object field in
  ok_or (json_as_u64 value) [Lit "field "; Dbg field; Lit " must be an unsigned integer"].

Definition required_bool (object : Fields) (field : string) : Decoded bool :=
  let? value := required_value object field in
  ok_or (json_as_bool value) [Lit "field "; Dbg field; Lit " must be a boolean"].

Definition required_array (object : Fields) (field : string) : Decoded (list JsonValue) :=
  let? value := required_value object field in
  ok_or (json_as_array value) [Lit "field "; Dbg field; Lit " must be an array"].

Definition required_metadata (object : Fields) (field : string) : Decoded Metadata :=
  let? value := required_value object field in
  ok_or (json_as_object value) [Lit "field "; Dbg field; Lit " must be an object"].

(** [require_exact_fields]. *)
Definition contains_key (object : Fields) (field : string) : bool :=
  match btree_get field object with Some _ => true | None => false end.

Definition require_exact_fields (object : Fields) (expected : list string) (context : string) :
    Decoded unit :=
  fail_if (negb (length object =? length expected)%nat
           || existsb (fun field => negb (contains_key object field)) expected)
    [Lit "unknown or missing "; Lit context; Lit " fields"].

(** [optional_value_of] and its typed forms: an absent key and [null] agree. *)
Definition optional_value_of (object : Fields) (field : string) : Decoded (option JsonValue) :=
  Ok match btree_get field object with
     | None | Some JsonNull => None
     | Some value => Some value
     end.

(** [Option::map] of a fallible function, followed by [transpose()?]. *)
Definition traverse {A B} (f : A -> Decoded B) (o : option A) : Decoded (option B) :=
  match o with
  | Some a => let? b := f a in Ok (Some b)
  | None => Ok None
  end.

Definition optional_bool_of (object : Fields) (field : string) : Decoded (option bool) :=
  match btree_get field object with
  | None | Some JsonNull => Ok None
  | Some value =>
      let? b := ok_or (json_as_bool value)
                  [Lit "field "; Dbg field; Lit " must be a boolean or null"] in
      Ok (Some b)
  end.

Definition optional_string_of (object : Fields) (field : string) : Decoded (option string) :=
  let? value := optional_value_of object field in
  traverse (fun value => ok_or (json_as_str value)
    [Lit "field "; Dbg field; Lit " must be a string or null"]) value.

Definition optional_u64_of (object : Fields) (field : string) : Decoded (option N) :=
  let? value := optional_value_of object field in
  traverse (fun value => ok_or (json_as_u64 value)
    [Lit "field "; Dbg field; Lit " must be an unsigned integer or null"]) value.

(** [ParseOpaqueId::parse_opaque] and [parse_id!]. *)
Definition parse_opaque {k} (value : string) : Decoded (Id k) :=
  map_err (fun error => [OfId error]) (id_new value).

Definition required_id {k} (object : Fields) (field : string) : Decoded (Id k) :=
  let? value := required_string object field in parse_opaque value.

Definition optional_id_of {k} (object : Fields) (field : string) : Decoded (option (Id k)) :=
  let? value := optional_string_of object field in traverse parse_opaque value.

(** [parse_digest], [parse_artifact], [optional_artifact_of]. *)
Definition parse_digest (value : string) : Decoded Digest :=
  map_err (fun error => [OfDigest error]) (digest_from_hex value).
Definition parse_artifact (value : string) : Decoded ArtifactId :=
  map_err (fun error => [OfDigest error]) (artifact_id_from_hex value).
Definition optional_artifact_of (object : Fields) (field : string) : Decoded (option ArtifactId) :=
  let? value := optional_string_of object field in traverse parse_artifact value.

Definition required_digest (object : Fields) (field : string) : Decoded Digest :=
  let? value := required_string object field in parse_digest value.
Definition required_artifact (object : Fields) (field : string) : Decoded ArtifactId :=
  let? value := required_string object field in parse_artifact value.

(** [string_array]. *)
Definition string_array (values : list JsonValue) : Decoded (list string) :=
  omap_list (fun value => ok_or (json_as_str value) [Lit "array item must be a string"]) values.

(** [u16::try_from] and [u32::try_from] of a [u64]. *)
Definition try_narrow (max : N) (text : string) (value : N) : Decoded N :=
  if (value <=? max)%N then Ok value else fail [Lit text].

(** ** Closed enumerations *)

Definition parse_memory_visibility (value : string) : Decoded MemoryVisibility :=
  if String.eqb value "model_visible" then Ok ModelVisible
  else if String.eqb value "external_only" then Ok ExternalOnly
  else fail [Lit "unknown memory visibility "; Dbg value].

Definition parse_memory_retention (value : string) : Decoded MemoryRetention :=
  if String.eqb value "session" then Ok RetainSession
  else if String.eqb value "checkpoint" then Ok RetainCheckpoint
  else fail [Lit "unknown memory retention "; Dbg value].

Definition parse_step_kind (value : string) : Decoded StepKind :=
  if String.eqb value "assistant" then Ok StepAssistant
  else if String.eqb value "compaction" then Ok StepCompaction
  else fail [Lit "unknown step kind "; Dbg value].

Definition parse_epoch_finish_reason (value : string) : Decoded EpochFinishReason :=
  if String.eqb value "settled" then Ok EpochSettled
  else if String.eqb value "activation_pending" then Ok EpochActivationPending
  else if String.eqb value "interrupted" then Ok EpochInterrupted
  else fail [Lit "unknown epoch finish reason "; Dbg value].

Definition parse_tool_replay_policy (value : string) : Decoded ToolReplayPolicy :=
  if String.eqb value "never" then Ok ReplayNever
  else if String.eqb value "safe" then Ok ReplaySafe
  else fail [Lit "unknown tool replay policy "; Dbg value].

Definition parse_provider_classification (value : string) :
    Decoded ProviderSettlementClassification :=
  if String.eqb value "completed" then Ok SettlementCompleted
  else if String.eqb value "retryable" then Ok SettlementRetryable
  else if String.eqb value "discarded" then Ok SettlementDiscarded
  else if String.eqb value "interrupted" then Ok SettlementInterrupted
  else fail [Lit "unknown provider settlement classification "; Dbg value].

Definition parse_agent_context_mode (value : string) : Decoded AgentContextMode :=
  if String.eqb value "task" then Ok ContextTask
  else if String.eqb value "parent" then Ok ContextParent
  else fail [Lit "unknown agent context mode "; Dbg value].

(** ** Nested values *)

(** [decode_payload_ref]. *)
Definition decode_payload_ref (value : JsonValue) : Decoded PayloadRef :=
  let? object := object value in
  let? kind := required_string object "kind" in
  if String.eqb kind "inline" then
    let? value := required_value object "value" in Ok (PayloadInline value)
  else if String.eqb kind "artifact" then
    let? artifact_id := required_artifact object "artifact_id" in
    let? byte_len := required_u64 object "byte_len" in
    let? media_type := required_string object "media_type" in
    Ok (PayloadArtifact artifact_id byte_len media_type)
  else fail [Lit "unknown payload reference kind "; Dbg kind].

(** [decode_usage]. *)
Definition decode_usage (value : JsonValue) : Decoded Usage :=
  let? object := object value in
  let? total_tokens := optional_u64_of object "total_tokens" in
  let? input_tokens := optional_u64_of object "input_tokens" in
  let? output_tokens := optional_u64_of object "output_tokens" in
  let? reasoning_tokens := optional_u64_of object "reasoning_tokens" in
  let? cache_read_tokens := optional_u64_of object "cache_read_tokens" in
  let? cache_write_tokens := optional_u64_of object "cache_write_tokens" in
  let? cost := optional_string_of object "cost" in
  Ok (mk_usage total_tokens input_tokens output_tokens reasoning_tokens cache_read_tokens
        cache_write_tokens cost).

(** The model identity of [origin] and [decode_optional_model]. *)
Definition decode_model (value : JsonValue) : Decoded ModelChangedEntry :=
  let? object := object value in
  let? provider := required_string object "provider" in
  let? model := required_string object "model" in
  let? revision := optional_string_of object "revision" in
  Ok (mk_model_changed provider model revision).
Definition decode_optional_model (object : Fields) (field : string) :
    Decoded (option ModelChangedEntry) :=
  let? value := optional_value_of object field in traverse decode_model value.

Definition MAX_OPAQUE_PROVIDER_CONTEXT_BYTES : N := 1048576.
Definition MAX_OPAQUE_PROVIDER_CONTEXT_PROVIDER_BYTES : N := 64.
Definition MAX_OPAQUE_PROVIDER_CONTEXT_KIND_BYTES : N := 64.
Definition MAX_OPAQUE_PROVIDER_CONTEXT_ITEM_ID_BYTES : N := 512.

(** [value.trim().is_empty()] and [value.len()]. *)
Definition trim_is_empty (s : string) : bool :=
  match trim_chars (chars s) with [] => true | _ => false end.
Definition byte_len (s : string) : N := N.of_nat (str_len s).

(** The checks of [decode_opaque_provider_context] on its item identity. *)
Definition check_item_id (item_id : option string) : Decoded unit :=
  match item_id with
  | None => Ok ()
  | Some item_id =>
      check? fail_if (str_is_empty item_id)
        [Lit "opaque provider context item_id must not be empty"] in
      check? fail_if (MAX_OPAQUE_PROVIDER_CONTEXT_ITEM_ID_BYTES <? byte_len item_id)%N
        [Lit "opaque provider context item_id exceeds ";
         Num MAX_OPAQUE_PROVIDER_CONTEXT_ITEM_ID_BYTES; Lit " bytes"] in
      fail_if (has_control item_id)
        [Lit "opaque provider context item_id must not contain control characters"]
  end.

Definition check_opaque_context (c : OpaqueProviderContextEntry) : Decoded unit :=
  check? fail_if (trim_is_empty (oc_provider c))
    [Lit "opaque provider context provider must not be empty"] in
  check? fail_if (MAX_OPAQUE_PROVIDER_CONTEXT_PROVIDER_BYTES <? byte_len (oc_provider c))%N
    [Lit "opaque provider context provider exceeds ";
     Num MAX_OPAQUE_PROVIDER_CONTEXT_PROVIDER_BYTES; Lit " bytes"] in
  check? fail_if (has_control (oc_provider c))
    [Lit "opaque provider context provider must not contain control characters"] in
  check? fail_if (trim_is_empty (oc_kind c))
    [Lit "opaque provider context kind must not be empty"] in
  check? fail_if (MAX_OPAQUE_PROVIDER_CONTEXT_KIND_BYTES <? byte_len (oc_kind c))%N
    [Lit "opaque provider context kind exceeds ";
     Num MAX_OPAQUE_PROVIDER_CONTEXT_KIND_BYTES; Lit " bytes"] in
  check? fail_if (has_control (oc_kind c))
    [Lit "opaque provider context kind must not contain control characters"] in
  check? check_item_id (oc_item_id c) in
  check? fail_if (str_is_empty (oc_payload c))
    [Lit "opaque provider context payload must not be empty"] in
  fail_if (MAX_OPAQUE_PROVIDER_CONTEXT_BYTES <? byte_len (oc_payload c))%N
    [Lit "opaque provider context payload exceeds "; Num MAX_OPAQUE_PROVIDER_CONTEXT_BYTES;
     Lit " bytes"].

(** [decode_opaque_provider_context]. *)
Definition decode_opaque_provider_context (value : JsonValue) :
    Decoded OpaqueProviderContextEntry :=
  let? object := object value in
  let? provider := required_string object "provider" in
  let? kind := required_string object "kind" in
  let? item_id := optional_string_of object "item_id" in
  let? payload := required_string object "payload" in
  let context := mk_opaque_context provider kind item_id payload in
  check? check_opaque_context context in
  Ok context.

(** [decode_assistant_block]. *)
Definition decode_assistant_block (value : JsonValue) : Decoded AssistantContentEntry :=
  let? block := object value in
  let? type := required_string block "type" in
  if String.eqb type "text" then
    let? text := required_string block "text" in Ok (ContentText text)
  else if String.eqb type "thinking" then
    let? text := required_string block "text" in
    let? signature := optional_value_of block "signature" in
    let? signature := traverse decode_opaque_provider_context signature in
    Ok (ContentThinking text signature)
  else if String.eqb type "redacted_thinking" then
    let? data := required_value block "data" in
    let? data := decode_opaque_provider_context data in
    Ok (ContentRedactedThinking data)
  else fail [Lit "unknown assistant content block type "; Dbg type].

(** [decode_assistant_tool_call]. *)
Definition decode_assistant_tool_call (value : JsonValue) : Decoded AssistantToolCall :=
  let? object := object value in
  let? id := required_string object "id" in
  let? name := required_string object "name" in
  let? arguments := required_value object "arguments" in
  Ok (mk_tool_call id name arguments).

(** The content of an assistant message: ordered blocks when present, else
    the text. *)
Definition decode_content (object : Fields) (text : string) :
    Decoded (list AssistantContentEntry) :=
  let? blocks := optional_value_of object "content_blocks" in
  match blocks with
  | Some blocks =>
      let? blocks := ok_or (json_as_array blocks)
        [Lit "field "; Dbg "content_blocks"; Lit " must be an array"] in
      let? blocks := omap_list decode_assistant_block blocks in
      check? fail_if (assistant_text (mk_assistant_message blocks [] None None [] None []) !=? text)
        [Lit "assistant content blocks disagree with content text"] in
      Ok blocks
  | None => Ok (text_content text)
  end.

Definition decode_opaque_list (value : JsonValue) : Decoded (list OpaqueProviderContextEntry) :=
  let? values := ok_or (json_as_array value)
    [Lit "field "; Dbg "opaque_context"; Lit " must be an array or null"] in
  omap_list decode_opaque_provider_context values.

(** [decode_assistant_message]. *)
Definition decode_assistant_message (object : Fields) : Decoded AssistantMessageEntry :=
  let? text := required_string object "content" in
  let? content := decode_content object text in
  let? origin := optional_value_of object "origin" in
  let? origin := traverse decode_model origin in
  let? tool_calls := required_array object "tool_calls" in
  let? tool_calls := omap_list decode_assistant_tool_call tool_calls in
  let? stop_reason := optional_string_of object "stop_reason" in
  let? error_message := optional_string_of object "error_message" in
  let? opaque_context := optional_value_of object "opaque_context" in
  let? opaque_context := traverse decode_opaque_list opaque_context in
  let? metadata := required_metadata object "metadata" in
  Ok (mk_assistant_message content tool_calls stop_reason error_message
        (default [] opaque_context) origin metadata).

(** ** Entries *)

Definition decode_section_change (value : JsonValue) : Decoded PromptSectionChange :=
  let? change := object value in
  let? id := required_string change "id" in
  let? content := optional_string_of change "content" in
  Ok (mk_section_change id content).

Definition decode_tool_declaration (value : JsonValue) : Decoded ToolDeclarationRecord :=
  let? tool := object value in
  let? name := required_string tool "name" in
  let? description := required_string tool "description" in
  let? schema := required_value tool "schema" in
  Ok (mk_tool_declaration name description schema).

Definition decode_tool_result (object : Fields) : Decoded ToolResultEntry :=
  let? tool_call_id := required_string object "tool_call_id" in
  let? tool_name := required_string object "tool_name" in
  let? full_result := required_value object "full_result" in
  let? full_result := decode_payload_ref full_result in
  let? model_projection := required_value object "model_projection" in
  let? is_error := required_bool object "is_error" in
  let? terminate := required_bool object "terminate" in
  let? usage := required_value object "usage" in
  let? usage := decode_usage usage in
  let? projection_strategy_id := required_string object "projection_strategy_id" in
  let? artifact_policy_id := required_id object "artifact_policy_id" in
  Ok (mk_tool_result tool_call_id tool_name full_result model_projection is_error terminate usage
        projection_strategy_id artifact_policy_id).

Definition decode_compaction (object : Fields) : Decoded CompactionEntry :=
  let? covered_from := optional_id_of object "covered_from" in
  let? covered_to := optional_id_of object "covered_to" in
  let? retained_tail_boundary := optional_id_of object "retained_tail_boundary" in
  let? summary := required_string object "summary" in
  let? strategy_id := required_string object "strategy_id" in
  let? recovery_index_artifact := optional_artifact_of object "recovery_index_artifact" in
  let? harness_revision_id := optional_id_of object "harness_revision_id" in
  let? replacement := required_value object "replacement" in
  let? replacement := decode_payload_ref replacement in
  let? replacement_digest := required_digest object "replacement_digest" in
  let? provider_request_id := optional_id_of object "provider_request_id" in
  Ok (mk_compaction covered_from covered_to retained_tail_boundary summary strategy_id
        recovery_index_artifact harness_revision_id replacement replacement_digest
        provider_request_id).

Definition decode_configuration (object : Fields) : Decoded ConfigurationChangedEntry :=
  let? sections := required_array object "sections" in
  let? sections := omap_list decode_section_change sections in
  let? tools_added := required_array object "tools_added" in
  let? tools_added := omap_list decode_tool_declaration tools_added in
  let? tools_removed := required_array object "tools_removed" in
  let? tools_removed := string_array tools_removed in
  Ok (mk_configuration_changed sections tools_added tools_removed).

Definition decode_plugin_memory (object : Fields) : Decoded PluginMemoryEntry :=
  let? plugin_id := required_string object "plugin_id" in
  let? kind := required_string object "kind" in
  let? content := required_value object "content" in
  let? content := decode_payload_ref content in
  let? provenance := required_array object "provenance" in
  let? provenance := string_array provenance in
  let? visibility := required_string object "visibility" in
  let? visibility := parse_memory_visibility visibility in
  let? retention := required_string object "retention" in
  let? retention := parse_memory_retention retention in
  Ok (mk_plugin_memory plugin_id kind content provenance visibility retention).

(** [decode_entry]. *)
Definition decode_entry (value : JsonValue) : Decoded SessionEntry :=
  let? object := object value in
  let? type := required_string object "type" in
  if String.eqb type "user_message" then
    let? content := required_string object "content" in
    let? metadata := required_metadata object "metadata" in
    Ok (UserMessage (mk_user_message content metadata))
  else if String.eqb type "assistant_message" then
    let? message := decode_assistant_message object in Ok (AssistantMessage message)
  else if String.eqb type "tool_result" then
    let? result := decode_tool_result object in Ok (ToolResult result)
  else if String.eqb type "compaction" then
    let? compaction := decode_compaction object in Ok (Compaction compaction)
  else if String.eqb type "branch_summary" then
    let? summary := required_string object "summary" in
    let? covered_to := optional_id_of object "covered_to" in
    Ok (BranchSummary (mk_branch_summary summary covered_to))
  else if String.eqb type "model_changed" then
    let? provider := required_string object "provider" in
    let? model := required_string object "model" in
    let? revision := optional_string_of object "revision" in
    Ok (ModelChanged (mk_model_changed provider model revision))
  else if String.eqb type "thinking_changed" then
    let? level := required_string object "level" in
    Ok (ThinkingChanged (mk_thinking_changed level))
  else if String.eqb type "configuration_changed" then
    let? change := decode_configuration object in Ok (ConfigurationChanged change)
  else if String.eqb type "harness_revision_changed" then
    let? revision_id := required_id object "revision_id" in
    let? snapshot_id := required_id object "snapshot_id" in
    let? rollback_from := optional_id_of object "rollback_from" in
    Ok (HarnessRevisionChanged (mk_harness_revision_changed revision_id snapshot_id rollback_from))
  else if String.eqb type "plugin_memory" then
    let? memory := decode_plugin_memory object in Ok (PluginMemory memory)
  else if String.eqb type "custom" then
    let? type_name := required_string object "type_name" in
    let? payload := required_value object "payload" in
    let? payload := decode_payload_ref payload in
    let? model_visible := required_bool object "model_visible" in
    Ok (CustomSemantic (mk_custom_entry type_name payload model_visible))
  else fail [Lit "unknown semantic entry type "; Dbg type].

(** ** Records *)

(** [decode_provisioned_entry]. *)
Definition decode_provisioned_entry (value : JsonValue) : Decoded ProvisionedEntry :=
  let? object := object value in
  let? id := required_id object "id" in
  let? body := required_value object "body" in
  let? body := decode_entry body in
  Ok (mk_provisioned id body).

(** [decode_hook_data]. *)
Definition decode_hook_data (value : JsonValue) : Decoded (gmap StableHookId JsonValue) :=
  let? fields := object value in
  let? items := omap_list (fun '(key, value) => let? key := parse_opaque key in Ok (key, value))
                  fields in
  Ok (foldl (fun m '(key, value) => <[key := value]> m) ∅ items).

(** [decode_operation_kind]. *)
Definition decode_operation_kind (value : JsonValue) : Decoded OperationKind :=
  let? object := object value in
  let? kind := required_string object "kind" in
  if String.eqb kind "run" then Ok KindRun
  else if String.eqb kind "subagent" then
    let? agent_id := required_id object "agent_id" in
    let? parent_operation_id := required_id object "parent_operation_id" in
    Ok (KindSubagent agent_id parent_operation_id)
  else if String.eqb kind "other" then
    let? name := required_string object "name" in Ok (KindOther name)
  else fail [Lit "unknown operation kind "; Dbg kind].

(** [decode_operation_outcome]. *)
Definition decode_operation_outcome (value : JsonValue) : Decoded OperationOutcome :=
  let? object := object value in
  let? kind := required_string object "kind" in
  if String.eqb kind "completed" then Ok OutcomeCompleted
  else if String.eqb kind "aborted" then Ok OutcomeAborted
  else if String.eqb kind "failed" then
    let? code := required_string object "code" in Ok (OutcomeFailed code)
  else fail [Lit "unknown operation outcome "; Dbg kind].

(** [decode_provider_error]. *)
Definition decode_provider_error (value : JsonValue) : Decoded ProviderErrorRecord :=
  let? object := ok_or (json_as_object value) [Lit "provider_error must be an object"] in
  let? status_code := optional_u64_of object "status_code" in
  let? status_code :=
    traverse (try_narrow u16_max "provider_error status_code exceeds u16") status_code in
  let? attempt := optional_u64_of object "attempt" in
  let? attempt := traverse (try_narrow u32_max "provider_error attempt exceeds u32") attempt in
  let? response_bytes := optional_u64_of object "response_bytes" in
  let? request_bytes := optional_u64_of object "request_bytes" in
  let? source := required_string object "source" in
  let? message := optional_string_of object "message" in
  let? logical_request_id := optional_string_of object "logical_request_id" in
  let? visible_stream_event := optional_bool_of object "visible_stream_event" in
  let? auth_refresh_attempted := optional_bool_of object "auth_refresh_attempted" in
  let? quota_reset := optional_u64_of object "quota_reset_at_unix_seconds" in
  let? error_type := optional_string_of object "error_type" in
  let? error_code := optional_string_of object "error_code" in
  let? retryable := optional_bool_of object "retryable" in
  let? response_body := optional_string_of object "response_body" in
  Ok (mk_provider_error source message status_code attempt logical_request_id visible_stream_event
        auth_refresh_attempted quota_reset error_type error_code retryable response_bytes
        request_bytes response_body).

Definition decode_operation_started (object : Fields) : Decoded OperationStartedRecord :=
  let? id := required_id object "id" in
  let? lane_id := required_id object "lane_id" in
  let? source_leaf_id := optional_id_of object "source_leaf_id" in
  let? kind := required_value object "operation_kind" in
  let? kind := decode_operation_kind kind in
  let? original_input := required_array object "original_input" in
  let? original_input := omap_list decode_provisioned_entry original_input in
  let? input_ids := required_array object "input_ids" in
  let? input_ids := omap_list (fun value =>
    let? text := ok_or (json_as_str value) [Lit "input ID must be a string"] in
    parse_opaque text) input_ids in
  let? initial_harness_revision := required_id object "initial_harness_revision" in
  let? model_harness_profile := required_id object "model_harness_profile" in
  let? resume := required_value object "operation_resume_data" in
  let? resume := decode_hook_data resume in
  Ok (mk_operation_started id lane_id source_leaf_id kind original_input input_ids
        initial_harness_revision model_harness_profile resume).

Definition decode_epoch_started (object : Fields) : Decoded EpochStartedRecord :=
  let? id := required_id object "id" in
  let? operation_id := required_id object "operation_id" in
  let? epoch_index := required_u64 object "epoch_index" in
  let? epoch_index := try_narrow u32_max "epoch index exceeds u32" epoch_index in
  let? source_leaf_id := optional_id_of object "source_leaf_id" in
  let? harness_revision_id := required_id object "harness_revision_id" in
  let? harness_snapshot_id := required_id object "harness_snapshot_id" in
  let? model_harness_profile := required_id object "model_harness_profile" in
  let? core_run_id := required_id object "core_run_id" in
  let? resume := required_value object "epoch_resume_data" in
  let? resume := decode_hook_data resume in
  Ok (mk_epoch_started id operation_id epoch_index source_leaf_id harness_revision_id
        harness_snapshot_id model_harness_profile core_run_id resume).

Definition decode_step_attempted (object : Fields) : Decoded StepAttemptedRecord :=
  let? id := required_id object "id" in
  let? operation_id := required_id object "operation_id" in
  let? epoch_id := required_id object "epoch_id" in
  let? kind := required_string object "step_kind" in
  let? kind := parse_step_kind kind in
  let? attempt := required_u64 object "attempt" in
  let? attempt := try_narrow u32_max "step attempt exceeds u32" attempt in
  let? result_entry_id := required_id object "result_entry_id" in
  let? reason := optional_string_of object "reason" in
  Ok (mk_step_attempted id operation_id epoch_id kind attempt result_entry_id reason).

Definition decode_provider_started (object : Fields) : Decoded ProviderRequestStartedRecord :=
  let? request_id := required_id object "request_id" in
  let? operation_id := required_id object "operation_id" in
  let? epoch_id := required_id object "epoch_id" in
  let? step_id := required_id object "step_id" in
  let? physical_attempt := required_u64 object "physical_attempt" in
  let? physical_attempt := try_narrow u32_max "physical attempt exceeds u32" physical_attempt in
  let? model_harness_profile := required_id object "model_harness_profile" in
  let? request_surface_digest := required_digest object "request_surface_digest" in
  let? idempotency_key := optional_string_of object "idempotency_key" in
  Ok (mk_provider_started request_id operation_id epoch_id step_id physical_attempt
        model_harness_profile request_surface_digest idempotency_key).

Definition decode_provider_settled (object : Fields) : Decoded ProviderRequestSettledRecord :=
  let? request_id := required_id object "request_id" in
  let? operation_id := required_id object "operation_id" in
  let? outcome := required_value object "outcome" in
  let? provider_error := optional_value_of object "provider_error" in
  let? provider_error := traverse decode_provider_error provider_error in
  let? usage := optional_value_of object "usage" in
  let? usage := traverse decode_usage usage in
  let? response_artifact := optional_artifact_of object "response_artifact" in
  let? classification := required_string object "classification" in
  let? classification := parse_provider_classification classification in
  Ok (mk_provider_settled request_id operation_id outcome provider_error usage response_artifact
        classification).

Definition decode_tool_started (object : Fields) : Decoded ToolStartedRecord :=
  let? record_id := required_id object "record_id" in
  let? operation_id := required_id object "operation_id" in
  let? epoch_id := required_id object "epoch_id" in
  let? assistant_entry_id := required_id object "assistant_entry_id" in
  let? tool_index := required_u64 object "tool_index" in
  let? tool_index := try_narrow u32_max "tool index exceeds u32" tool_index in
  let? tool_call_id := required_string object "tool_call_id" in
  let? tool_name := required_string object "tool_name" in
  let? effective_args := required_value object "effective_args" in
  let? result_entry_id := required_id object "result_entry_id" in
  let? policy := required_string object "replay_policy_at_start" in
  let? policy := parse_tool_replay_policy policy in
  let? tool_definition_digest := required_digest object "tool_definition_digest" in
  let? harness_revision_id := required_id object "harness_revision_id" in
  let? idempotency_key := required_string object "idempotency_key" in
  Ok (mk_tool_started record_id operation_id epoch_id assistant_entry_id tool_index tool_call_id
        tool_name effective_args result_entry_id policy tool_definition_digest harness_revision_id
        idempotency_key).

Definition decode_cache_maintenance (object : Fields) : Decoded CacheMaintenanceRecord :=
  let? name := required_string object "outcome" in
  let? outcome :=
    (if String.eqb name "completed" then Ok MaintenanceCompleted
     else if String.eqb name "failed" then
       let? message := optional_string_of object "message" in
       Ok (MaintenanceFailed (default EmptyString message))
     else if String.eqb name "cancelled" then Ok MaintenanceCancelled
     else fail [Lit "unknown cache maintenance outcome "; Dbg name]) in
  let? operation_id := required_id object "operation_id" in
  let? model := decode_optional_model object "model" in
  let? selected_model := decode_optional_model object "selected_model" in
  let? usage := required_value object "usage" in
  let? usage := decode_usage usage in
  let? estimated_cost := optional_string_of object "estimated_cost" in
  Ok (mk_cache_maintenance operation_id model selected_model outcome usage estimated_cost).

Definition decode_control_enqueued (object : Fields) : Decoded ExtensionControlEnqueuedRecord :=
  let? operation_id := required_id object "operation_id" in
  let? control_id := required_string object "control_id" in
  let? extension_id := required_string object "extension_id" in
  let? harness_revision_id := required_id object "harness_revision_id" in
  let? command_name := required_string object "command_name" in
  let? arguments := required_value object "arguments" in
  Ok (mk_control_enqueued operation_id control_id extension_id harness_revision_id command_name
        arguments).

Definition decode_activation (object : Fields) : Decoded HarnessActivationRequestedRecord :=
  let? operation_id := required_id object "operation_id" in
  let? candidate_id := required_id object "candidate_id" in
  let? parent_revision_id := required_id object "parent_revision_id" in
  let? proposed_snapshot_id := required_id object "proposed_snapshot_id" in
  let? revision_entry_id := required_id object "revision_entry_id" in
  Ok (mk_activation_requested operation_id candidate_id parent_revision_id proposed_snapshot_id
        revision_entry_id).

(** [decode_record]. *)
Definition decode_record (value : JsonValue) : Decoded LaneRecord :=
  let? object := object value in
  let? type := required_string object "type" in
  if String.eqb type "operation_started" then
    let? record := decode_operation_started object in Ok (OperationStarted record)
  else if String.eqb type "operation_finished" then
    let? operation_id := required_id object "operation_id" in
    let? outcome := required_value object "outcome" in
    let? outcome := decode_operation_outcome outcome in
    Ok (OperationFinished (mk_operation_finished operation_id outcome))
  else if String.eqb type "abort_requested" then
    let? operation_id := required_id object "operation_id" in
    let? reason := optional_string_of object "reason" in
    Ok (AbortRequested (mk_abort_requested operation_id reason))
  else if String.eqb type "epoch_started" then
    let? record := decode_epoch_started object in Ok (EpochStarted record)
  else if String.eqb type "epoch_finished" then
    let? epoch_id := required_id object "epoch_id" in
    let? operation_id := required_id object "operation_id" in
    let? reason := required_string object "reason" in
    let? reason := parse_epoch_finish_reason reason in
    Ok (EpochFinished (mk_epoch_finished epoch_id operation_id reason))
  else if String.eqb type "step_attempted" then
    let? record := decode_step_attempted object in Ok (StepAttempted record)
  else if String.eqb type "provider_request_started" then
    let? record := decode_provider_started object in Ok (ProviderRequestStarted record)
  else if String.eqb type "provider_request_settled" then
    let? record := decode_provider_settled object in Ok (ProviderRequestSettled record)
  else if String.eqb type "tool_started" then
    let? record := decode_tool_started object in Ok (ToolStarted record)
  else if String.eqb type "input_accepted" then
    let? lane_id := required_id object "lane_id" in
    let? entry := required_value object "entry" in
    let? entry := decode_provisioned_entry entry in
    Ok (InputAccepted (mk_input_accepted lane_id entry))
  else if String.eqb type "input_withdrawn" then
    let? lane_id := required_id object "lane_id" in
    let? input_id := required_id object "input_id" in
    Ok (InputWithdrawn (mk_input_withdrawn lane_id input_id))
  else if String.eqb type "input_settled" then
    let? operation_id := required_id object "operation_id" in
    let? input_id := required_id object "input_id" in
    let? outcome := required_value object "outcome" in
    let? outcome := decode_operation_outcome outcome in
    Ok (InputSettled (mk_input_settled operation_id input_id outcome))
  else if String.eqb type "extension_control_enqueued" then
    let? record := decode_control_enqueued object in Ok (ExtensionControlEnqueued record)
  else if String.eqb type "extension_control_applied" then
    let? control_id := required_string object "control_id" in
    Ok (ExtensionControlApplied (mk_control_applied control_id))
  else if String.eqb type "write_deferred" then
    let? operation_id := required_id object "operation_id" in
    let? entry := required_value object "entry" in
    let? entry := decode_provisioned_entry entry in
    Ok (WriteDeferred (mk_write_deferred operation_id entry))
  else if String.eqb type "harness_activation_requested" then
    let? record := decode_activation object in Ok (HarnessActivationRequested record)
  else if String.eqb type "usage" then
    let? operation_id := required_id object "operation_id" in
    let? request_id := optional_id_of object "request_id" in
    let? usage := required_value object "usage" in
    let? usage := decode_usage usage in
    Ok (UsageFact (mk_usage_record operation_id request_id usage))
  else if String.eqb type "cache_maintenance" then
    let? record := decode_cache_maintenance object in Ok (CacheMaintenance record)
  else fail [Lit "unknown operation record type "; Dbg type].

(** [decode_lane_mutation]. *)
Definition decode_lane_mutation (value : JsonValue) : Decoded LaneMutation :=
  let? object := object value in
  let? type := required_string object "type" in
  if String.eqb type "created" then
    let? lane_id := required_id object "lane_id" in
    let? base_leaf_id := optional_id_of object "base_leaf_id" in
    Ok (LaneCreated lane_id base_leaf_id)
  else fail [Lit "unknown lane mutation type "; Dbg type].

(** ** Facts *)

(** [decode_subagent_model]. *)
Definition decode_subagent_model (value : JsonValue) : Decoded SubagentModelRecord :=
  let? object := object value in
  let? provider := required_string object "provider" in
  let? model := required_string object "model" in
  let? revision := optional_string_of object "revision" in
  let? display_name := required_string object "display_name" in
  let? context_window := optional_u64_of object "context_window" in
  Ok (mk_subagent_model provider model revision display_name context_window).

(** [decode_extension_state]. *)
Definition decode_extension_value (value : JsonValue) : Decoded ExtensionStateValue :=
  let? object := object value in
  let? state_version := required_string object "state_version" in
  let? value := required_value object "value" in
  Ok (mk_extension_state_value state_version value).
Definition decode_extension_state (value : JsonValue) :
    Decoded (gmap string ExtensionStateValue) :=
  let? fields := object value in
  let? items := omap_list (fun '(extension_id, value) =>
    let? value := decode_extension_value value in Ok (extension_id, value)) fields in
  Ok (foldl (fun m '(extension_id, value) => <[extension_id := value]> m) ∅ items).

Definition decode_schema_mismatch (value : JsonValue) : Decoded SchemaFieldMismatch :=
  let? mismatch := object value in
  let? field := required_string mismatch "field" in
  let? expected := required_string mismatch "expected" in
  let? actual := required_string mismatch "actual" in
  Ok (mk_schema_mismatch field expected actual).

Definition decode_policy (fields : Fields) : Decoded SubagentPolicyFact :=
  let? schema_version := required_u64 fields "schema_version" in
  let? schema_version :=
    try_narrow u16_max "subagent policy schema version exceeds u16" schema_version in
  let? models := required_array fields "models" in
  let? models := omap_list decode_subagent_model models in
  let? max_concurrent := required_u64 fields "max_concurrent" in
  let? max_concurrent := try_narrow u32_max "subagent max_concurrent exceeds u32" max_concurrent in
  let? max_total := required_u64 fields "max_total_per_operation" in
  let? max_total := try_narrow u32_max "subagent max_total_per_operation exceeds u32" max_total in
  let? timeout_ms := required_u64 fields "timeout_ms" in
  let? tool_surface_digest := required_digest fields "tool_surface_digest" in
  Ok (mk_subagent_policy schema_version models max_concurrent max_total timeout_ms
        tool_surface_digest).

Definition decode_agent_spawned (fields : Fields) : Decoded AgentSpawnedFact :=
  let? agent_id := required_id fields "agent_id" in
  let? parent_lane_id := required_id fields "parent_lane_id" in
  let? parent_operation_id := required_id fields "parent_operation_id" in
  let? lane_id := required_id fields "lane_id" in
  let? task_name := required_string fields "task_name" in
  let? model := required_value fields "model" in
  let? model := decode_subagent_model model in
  let? thinking := required_string fields "thinking" in
  let? context_mode := required_string fields "context_mode" in
  let? context_mode := parse_agent_context_mode context_mode in
  let? base_leaf_id := optional_id_of fields "base_leaf_id" in
  let? workspace_lease_id := required_id fields "workspace_lease_id" in
  let? harness_revision_id := required_id fields "harness_revision_id" in
  let? harness_snapshot_id := required_id fields "harness_snapshot_id" in
  let? model_harness_profile_id := required_id fields "model_harness_profile_id" in
  let? spawn_tool_call_id := required_string fields "spawn_tool_call_id" in
  Ok (mk_agent_spawned agent_id parent_lane_id parent_operation_id lane_id task_name model thinking
        context_mode base_leaf_id workspace_lease_id harness_revision_id harness_snapshot_id
        model_harness_profile_id spawn_tool_call_id).

Definition decode_workspace_delta (fields : Fields) : Decoded WorkspaceDeltaFact :=
  let? delta_id := required_id fields "delta_id" in
  let? agent_id := required_id fields "agent_id" in
  let? workspace_lease_id := required_id fields "workspace_lease_id" in
  let? base_commit := required_string fields "base_commit" in
  let? result_commit := required_string fields "result_commit" in
  let? changed_paths := required_array fields "changed_paths" in
  let? changed_paths := string_array changed_paths in
  let? patch := required_value fields "patch" in
  let? patch := decode_payload_ref patch in
  Ok (mk_workspace_delta delta_id agent_id workspace_lease_id base_commit result_commit
        changed_paths patch).

Definition decode_agent_finished (fields : Fields) : Decoded AgentTaskFinishedFact :=
  let? agent_id := required_id fields "agent_id" in
  let? operation_id := required_id fields "operation_id" in
  let? outcome := required_value fields "outcome" in
  let? outcome := decode_operation_outcome outcome in
  let? final_entry_id := optional_id_of fields "final_entry_id" in
  let? report := required_value fields "report" in
  let? report := decode_payload_ref report in
  let? workspace_delta_id := optional_id_of fields "workspace_delta_id" in
  Ok (mk_agent_finished agent_id operation_id outcome final_entry_id report workspace_delta_id).

Definition decode_delta_applied (fields : Fields) : Decoded WorkspaceDeltaAppliedFact :=
  let? delta_id := required_id fields "delta_id" in
  let? target_lane_id := required_id fields "target_lane_id" in
  let? tool_call_id := required_string fields "tool_call_id" in
  let? changed_paths := required_array fields "changed_paths" in
  let? changed_paths := string_array changed_paths in
  Ok (mk_delta_applied delta_id target_lane_id tool_call_id changed_paths).

Definition decode_harness_catalog (fields : Fields) : Decoded HarnessCatalogFact :=
  let? schema_version := required_u64 fields "schema_version" in
  let? schema_version :=
    try_narrow u16_max "harness catalog schema version exceeds u16" schema_version in
  let? artifact_id := required_artifact fields "artifact_id" in
  let? byte_len := required_u64 fields "byte_len" in
  Ok (mk_harness_catalog schema_version artifact_id byte_len).

Definition decode_schema_deviation (fields : Fields) : Decoded ToolSchemaDeviationFact :=
  let? type_mismatches := required_array fields "type_mismatches" in
  let? type_mismatches := omap_list decode_schema_mismatch type_mismatches in
  let? operation_id := required_id fields "operation_id" in
  let? epoch_id := required_id fields "epoch_id" in
  let? assistant_entry_id := required_id fields "assistant_entry_id" in
  let? tool_call_id := required_string fields "tool_call_id" in
  let? tool_name := required_string fields "tool_name" in
  let? model_harness_profile := required_id fields "model_harness_profile" in
  let? arguments_valid_json := required_bool fields "arguments_valid_json" in
  let? unknown_fields := required_array fields "unknown_fields" in
  let? unknown_fields := string_array unknown_fields in
  let? missing_fields := required_array fields "missing_fields" in
  let? missing_fields := string_array missing_fields in
  let? raw_arguments := required_value fields "raw_arguments" in
  let? raw_arguments := decode_payload_ref raw_arguments in
  Ok (mk_schema_deviation operation_id epoch_id assistant_entry_id tool_call_id tool_name
        model_harness_profile arguments_valid_json unknown_fields missing_fields type_mismatches
        raw_arguments).

Definition decode_trace_artifact (fields : Fields) : Decoded TraceArtifactFact :=
  let? schema_version := required_u64 fields "schema_version" in
  let? schema_version :=
    try_narrow u16_max "trace artifact schema version exceeds u16" schema_version in
  let? operation_id := required_id fields "operation_id" in
  let? epoch_id := required_id fields "epoch_id" in
  let? core_run_id := required_id fields "core_run_id" in
  let? harness_revision_id := required_id fields "harness_revision_id" in
  let? harness_snapshot_id := required_id fields "harness_snapshot_id" in
  let? model_harness_profile := required_id fields "model_harness_profile" in
  let? artifact_id := required_artifact fields "artifact_id" in
  let? byte_len := required_u64 fields "byte_len" in
  let? media_type := required_string fields "media_type" in
  Ok (mk_trace_artifact schema_version operation_id epoch_id core_run_id harness_revision_id
        harness_snapshot_id model_harness_profile artifact_id byte_len media_type).

Definition decode_provider_material (fields : Fields) : Decoded ProviderRequestMaterialFact :=
  let? operation_id := required_id fields "operation_id" in
  let? epoch_id := required_id fields "epoch_id" in
  let? request_id := required_id fields "request_id" in
  let? request := required_value fields "request" in
  let? request := decode_payload_ref request in
  Ok (mk_provider_material operation_id epoch_id request_id request).

Definition decode_extension_state_set (fields : Fields) : Decoded ExtensionStateValueSetFact :=
  let? lane_id := required_id fields "lane_id" in
  let? extension_id := required_string fields "extension_id" in
  let? state_version := required_string fields "state_version" in
  let? value := required_value fields "value" in
  Ok (mk_extension_state_set lane_id extension_id state_version value).

Definition decode_turn_checkpoint (fields : Fields) : Decoded TurnCheckpointFact :=
  let? checkpoint_id := required_id fields "checkpoint_id" in
  let? lane_id := required_id fields "lane_id" in
  let? operation_id := required_id fields "operation_id" in
  let? leaf_id := optional_id_of fields "leaf_id" in
  let? extension_state := required_value fields "extension_state" in
  let? extension_state := decode_extension_state extension_state in
  Ok (mk_turn_checkpoint checkpoint_id lane_id operation_id leaf_id extension_state).

Definition decode_forked_lane (fields : Fields) : Decoded ForkedLaneFact :=
  let? checkpoint_id := required_id fields "checkpoint_id" in
  let? lane_id := required_id fields "lane_id" in
  let? base_leaf_id := optional_id_of fields "base_leaf_id" in
  Ok (mk_forked_lane checkpoint_id lane_id base_leaf_id).

(** [decode_fact]. *)
Definition decode_fact (value : JsonValue) : Decoded SessionFact :=
  let? fields := object value in
  let? type := required_string fields "type" in
  if String.eqb type "subagent_policy" then
    let? fact := decode_policy fields in Ok (SubagentPolicy fact)
  else if String.eqb type "agent_spawned" then
    let? fact := decode_agent_spawned fields in Ok (AgentSpawned fact)
  else if String.eqb type "workspace_delta" then
    let? fact := decode_workspace_delta fields in Ok (WorkspaceDelta fact)
  else if String.eqb type "agent_task_finished" then
    let? fact := decode_agent_finished fields in Ok (AgentTaskFinished fact)
  else if String.eqb type "workspace_delta_applied" then
    let? fact := decode_delta_applied fields in Ok (WorkspaceDeltaApplied fact)
  else if String.eqb type "harness_catalog" then
    let? fact := decode_harness_catalog fields in Ok (HarnessCatalog fact)
  else if String.eqb type "tool_schema_deviation" then
    let? fact := decode_schema_deviation fields in Ok (ToolSchemaDeviation fact)
  else if String.eqb type "trace_artifact" then
    let? fact := decode_trace_artifact fields in Ok (TraceArtifact fact)
  else if String.eqb type "provider_request_material" then
    let? fact := decode_provider_material fields in Ok (ProviderRequestMaterial fact)
  else if String.eqb type "extension_state_value_set" then
    let? fact := decode_extension_state_set fields in Ok (ExtensionStateValueSet fact)
  else if String.eqb type "turn_checkpoint" then
    let? fact := decode_turn_checkpoint fields in Ok (TurnCheckpoint fact)
  else if String.eqb type "forked_lane" then
    let? fact := decode_forked_lane fields in Ok (ForkedLane fact)
  else if String.eqb type "custom" then
    let? type_name := required_string fields "type_name" in
    let? payload := required_value fields "payload" in
    Ok (CustomFact type_name payload)
  else fail [Lit "unknown session fact type "; Dbg type].

(** ** Commit items *)

(** [decode_session_mutation]. *)
Definition decode_session_mutation (seq : Sequence) (timestamp_ms : N) (value : JsonValue) :
    Decoded SessionMutation :=
  let? fields := object value in
  check? require_exact_fields fields ["kind"; "payload"] "mutation" in
  let? kind := required_string fields "kind" in
  let? payload := required_value fields "payload" in
  if String.eqb kind "entry" then
    let? payload := object payload in
    let? lane_id := required_id payload "lane_id" in
    let? id := required_id payload "id" in
    let? parent_id := optional_id_of payload "parent_id" in
    let? body := required_value payload "entry" in
    let? body := decode_entry body in
    Ok (MutEntry (mk_stored_entry lane_id (mk_entry_header id parent_id seq timestamp_ms) body))
  else if String.eqb kind "record" then
    let? record := decode_record payload in
    Ok (MutRecord (mk_stored_record seq timestamp_ms record))
  else if String.eqb kind "lane" then
    let? mutation := decode_lane_mutation payload in
    Ok (MutLane (mk_stored_lane seq timestamp_ms mutation))
  else if String.eqb kind "fact" then
    let? fact := decode_fact payload in
    Ok (MutFact (mk_stored_fact seq timestamp_ms fact))
  else fail [Lit "unknown session line kind "; Dbg kind].

(** [decode_commit_payload]. *)
Definition decode_commit_payload (value : JsonValue) (seq : Sequence) (timestamp_ms : N) :
    Decoded (list SessionMutation) :=
  let? fields := object value in
  check? require_exact_fields fields ["kind"; "items"] "commit mutation" in
  let? kind := required_string fields "kind" in
  check? fail_if (negb (String.eqb kind "commit"))
    [Lit "session mutation kind must be `commit`"] in
  let? items := required_array fields "items" in
  check? fail_if (match items with [] => true | _ => false end)
    [Lit "semantic commit must contain at least one item"] in
  omap_list (decode_session_mutation seq timestamp_ms) items.
