(* ===== verification/WireSeal.v ===== *)
(** * tea-session: sealed headers and commits
    ([seal_*], [calculate_*_digest], [decode_header] and [decode_mutation] of
    [crates/tea-session/src/jsonl.rs])

    A header and every commit carry the digest of their canonical encoding;
    the digest of a commit also covers the digest of the commit before it.
    Decoding recomputes the digest and accepts only the exact encoding of the
    value it returns. *)

From stdpp Require Import base gmap list strings.
From S2P Require Import Prelude RustStr Json Ids Model Records Snapshot Reduction SessionErrors.
From S2P Require Import WireEncode WireDecode.

Section seal.
Context `{Miniserde} `{Blake3}.

(** [calculate_header_digest]. *)
Definition calculate_header_digest (header : SessionHeader) : Decoded Digest :=
  let? canonical := map_err (fun error =>
      [Lit "session header cannot encode canonically: "; OfJson error])
      (to_json_string (encode_unsigned_header header)) in
  let w := hash_new "tea-session-header-v1" 1 1 in
  let w := hash_bytes w "canonical_unsigned_header" (bytes_of canonical) in
  Ok (hash_finish w).

(** [seal_header]. *)
Definition seal_header (header : SessionHeader) : Outcome SessionError SessionHeader :=
  let? digest := map_err InvalidInput (calculate_header_digest header) in
  Ok (header <| sh_digest := digest |>).

(** [decode_header]. *)
Definition decode_header (value : JsonValue) : Decoded SessionHeader :=
  let? object := object value in
  check? require_exact_fields object
    ["kind"; "format"; "version"; "session_id"; "created_at_ms"; "workspace"; "metadata";
     "initial_lane"; "digest"] "header" in
  let? kind := required_string object "kind" in
  check? fail_if (negb (String.eqb kind SESSION_HEADER_KIND))
    [Lit "header kind must be `tea-session`"] in
  let? format := required_string object "format" in
  check? fail_if (negb (String.eqb format SESSION_FORMAT_IDENTITY))
    [Lit "header format must be `"; Lit SESSION_FORMAT_IDENTITY; Lit "`"] in
  let? version := required_u64 object "version" in
  check? fail_if (negb (version =? SESSION_FORMAT_VERSION)%N)
    [Lit "unsupported session version "; Num version] in
  let? digest := required_digest object "digest" in
  let? session_id := required_id object "session_id" in
  let? created_at_ms := required_u64 object "created_at_ms" in
  let? workspace := required_string object "workspace" in
  let? metadata := required_metadata object "metadata" in
  let? initial_lane := required_id object "initial_lane" in
  let header := mk_header SESSION_HEADER_KIND SESSION_FORMAT_IDENTITY SESSION_FORMAT_VERSION
                  session_id created_at_ms workspace metadata initial_lane digest in
  let? calculated := calculate_header_digest header in
  check? fail_if (calculated !=? digest) [Lit "header digest mismatch"] in
  Ok header.

(** The stored items of a commit: its payloads under one envelope. *)
Definition stamp (seq : Sequence) (timestamp_ms : N) (prev_digest digest : Digest)
    (mutation : SessionMutation) : StoredMutation :=
  mk_stored_mutation seq timestamp_ms prev_digest digest mutation.

(** [calculate_commit_digest]. *)
Definition calculate_commit_digest (session_id : SessionId) (seq : Sequence) (timestamp_ms : N)
    (prev_digest : Digest) (mutations : list SessionMutation) : Decoded Digest :=
  let items := map (stamp seq timestamp_ms prev_digest digest_zero) mutations in
  let? canonical_payload := map_err (fun error =>
      [Lit "session commit cannot encode canonically: "; OfJson error])
      (to_json_string (encode_commit_payload items)) in
  let w := hash_new "tea-session-commit-v1" 1 1 in
  let w := hash_string w "session_id" (as_str session_id) in
  let w := hash_u64 w "sequence" seq in
  let w := hash_u64 w "timestamp_ms" timestamp_ms in
  let w := hash_bytes w "previous_digest" (digest_bytes prev_digest) in
  let w := hash_bytes w "canonical_mutation_payload" (bytes_of canonical_payload) in
  Ok (hash_finish w).

(** [seal_commit]. *)
Definition seal_commit (snapshot : SessionSnapshot) (seq : Sequence) (timestamp_ms : N)
    (mutations : list SessionMutation) : Outcome SessionError StoredCommit :=
  match mutations with
  | [] => Err (InvalidInput [Lit "a semantic commit must contain at least one item"])
  | _ =>
      let prev_digest := ss_last_digest snapshot in
      let? digest := map_err InvalidInput
        (calculate_commit_digest (sh_session_id (ss_header snapshot)) seq timestamp_ms prev_digest
           mutations) in
      Ok (mk_stored_commit seq timestamp_ms prev_digest digest
            (map (stamp seq timestamp_ms prev_digest digest) mutations))
  end.

Record MutationDecodeError := mk_decode_error {
  mde_message : Message;
  mde_sequence : option Sequence;
  mde_mutation_kind : option string;
}.

(** [impl From<String> for MutationDecodeError]. *)
Definition plain_decode_error (message : Message) : MutationDecodeError :=
  mk_decode_error message None None.

(** [decode_mutation]. *)
Definition decode_mutation (value : JsonValue) (session_id : SessionId) :
    Outcome MutationDecodeError StoredCommit :=
  let? fields := map_err plain_decode_error (object value) in
  check? map_err plain_decode_error (require_exact_fields fields
    ["seq"; "timestamp_ms"; "prev_digest"; "mutation"; "digest"] "mutation envelope") in
  let? seq := map_err plain_decode_error (required_u64 fields "seq") in
  let? timestamp_ms := map_err plain_decode_error (required_u64 fields "timestamp_ms") in
  let? prev_digest := map_err plain_decode_error (required_digest fields "prev_digest") in
  let? digest := map_err plain_decode_error (required_digest fields "digest") in
  let? mutation := map_err plain_decode_error (required_value fields "mutation") in
  let? mutations := map_err plain_decode_error (decode_commit_payload mutation seq timestamp_ms) in
  let? calculated := map_err plain_decode_error
    (calculate_commit_digest session_id seq timestamp_ms prev_digest mutations) in
  if calculated !=? digest then
    Err (mk_decode_error [Lit "commit digest mismatch"] (Some seq) (Some "commit"))
  else
    let stored := mk_stored_commit seq timestamp_ms prev_digest digest
                    (map (stamp seq timestamp_ms prev_digest digest) mutations) in
    if encode_commit stored !=? value then
      Err (mk_decode_error [Lit "commit does not match the v1 schema"] (Some seq) (Some "commit"))
    else Ok stored.
End seal.
