(* ===== verification/WireFields.v ===== *)
(** * tea-session: reading back the fields of an encoded object

    The lemmas that connect [JsonValue::object] with the field helpers of the
    decoder, the well-formedness of identifiers and digests, and the tactic
    [wire] that runs a decoder over an encoded object field by field; with
    them, the round trips of entries and facts. *)

From stdpp Require Import base gmap list strings sorting.
From S2P Require Import Prelude RustStr Json Ids Model Records Snapshot Reduction SessionErrors.
From S2P Require Import WireEncode WireDecode.

#[global] Arguments btree_collect : simpl never.

(** The value the last binding of a key gives it. *)
Fixpoint assoc_last {V} (k : string) (l : list (string * V)) : option V :=
  match l with
  | [] => None
  | (k', v) :: l =>
      match assoc_last k l with
      | Some w => Some w
      | None => if String.eqb k k' then Some v else None
      end
  end.

Lemma btree_get_insert {V} k k' (v : V) l :
  btree_get k (btree_insert k' v l) = if String.eqb k k' then Some v else btree_get k l.
Proof.
  induction l as [|[k1 v1] l IH]; simpl; [by destruct (String.eqb k k')|].
  destruct (String.compare k' k1) eqn:Hc; simpl.
  - apply String.compare_eq_iff in Hc as ->. by destruct (String.eqb k k1).
  - done.
  - destruct (String.eqb_spec k k1) as [->|]; [|done].
    destruct (String.eqb_spec k1 k') as [->|]; [|done].
    pose proof (String.compare_antisym k' k') as Ha. by rewrite Hc in Ha.
Qed.

Lemma btree_get_collect {V} k (l : list (string * V)) :
  btree_get k (btree_collect l) = assoc_last k l.
Proof.
  unfold btree_collect.
  cut (forall m, btree_get k (foldl (fun m kv => btree_insert kv.1 kv.2 m) m l)
                 = match assoc_last k l with Some v => Some v | None => btree_get k m end).
  { intros Hcut. rewrite Hcut. by destruct (assoc_last k l). }
  induction l as [|[k' v] l IH]; intros m; simpl; [done|]. rewrite IH, btree_get_insert.
  destruct (assoc_last k l); [done|]. by destruct (String.eqb k k').
Qed.

(** ** Identifiers and digests *)

(** The text of an identifier is one [new] accepts; every identifier a program
    can hold satisfies it. *)
Definition id_ok {k} (i : Id k) : Prop := validate_id (as_str i) = Ok ().
Definition artifact_ok (a : ArtifactId) : Prop := digest_wf (artifact_digest a).

(** A property of the value of an option. *)
Definition opt_ok {A} (P : A -> Prop) (o : option A) : Prop := forall a, o = Some a -> P a.

Lemma parse_opaque_ok {k} (i : Id k) : id_ok i -> parse_opaque (as_str i) = Ok i.
Proof. unfold parse_opaque, id_new, id_ok. intros ->. by destruct i. Qed.

Lemma parse_digest_ok d : digest_wf d -> parse_digest (digest_to_hex d) = Ok d.
Proof. intros Hwf. unfold parse_digest. by rewrite digest_from_hex_ok. Qed.

Lemma parse_artifact_ok a : artifact_ok a -> parse_artifact (artifact_id_to_hex a) = Ok a.
Proof.
  intros Hwf. unfold parse_artifact, artifact_id_from_hex, artifact_id_to_hex.
  rewrite digest_from_hex_ok by done. by destruct a.
Qed.

(** ** Fields *)

Section fields.
Context (l : Fields) (k : string).
Implicit Types (s : string) (n : N) (b : bool) (v : JsonValue).

Lemma required_value_at v :
  assoc_last k l = Some v -> required_value (btree_collect l) k = Ok v.
Proof. intros Ha. unfold required_value. by rewrite btree_get_collect, Ha. Qed.

Lemma required_string_at s :
  assoc_last k l = Some (JsonString s) -> required_string (btree_collect l) k = Ok s.
Proof. intros Ha. unfold required_string. by rewrite (required_value_at _ Ha). Qed.

Lemma required_u64_at n :
  assoc_last k l = Some (u64_value n) -> required_u64 (btree_collect l) k = Ok n.
Proof. intros Ha. unfold required_u64. by rewrite (required_value_at _ Ha). Qed.

Lemma required_bool_at b :
  assoc_last k l = Some (JsonBool b) -> required_bool (btree_collect l) k = Ok b.
Proof. intros Ha. unfold required_bool. by rewrite (required_value_at _ Ha). Qed.

Lemma required_array_at vs :
  assoc_last k l = Some (JsonArray vs) -> required_array (btree_collect l) k = Ok vs.
Proof. intros Ha. unfold required_array. by rewrite (required_value_at _ Ha). Qed.

Lemma required_metadata_at m :
  assoc_last k l = Some (JsonObject m) -> required_metadata (btree_collect l) k = Ok m.
Proof. intros Ha. unfold required_metadata. by rewrite (required_value_at _ Ha). Qed.

Lemma required_id_at {kd} (i : Id kd) :
  assoc_last k l = Some (string_value i) -> id_ok i -> required_id (btree_collect l) k = Ok i.
Proof. intros Ha Hi. unfold required_id. rewrite (required_string_at _ Ha). by apply parse_opaque_ok. Qed.

Lemma required_digest_at d :
  assoc_last k l = Some (digest_value d) -> digest_wf d ->
  required_digest (btree_collect l) k = Ok d.
Proof. intros Ha Hd. unfold required_digest. rewrite (required_string_at _ Ha). by apply parse_digest_ok. Qed.

Lemma required_artifact_at a :
  assoc_last k l = Some (artifact_value a) -> artifact_ok a ->
  required_artifact (btree_collect l) k = Ok a.
Proof. intros Ha Hd. unfold required_artifact. rewrite (required_string_at _ Ha). by apply parse_artifact_ok. Qed.

Lemma optional_value_at {A} (f : A -> JsonValue) (o : option A) :
  assoc_last k l = Some (optional_value (f <$> o)) -> (forall a, f a <> JsonNull) ->
  optional_value_of (btree_collect l) k = Ok (f <$> o).
Proof.
  intros Ha Hf. unfold optional_value_of. rewrite btree_get_collect, Ha.
  destruct o as [a|]; simpl; [|done]. specialize (Hf a). by destruct (f a).
Qed.

Lemma optional_value_absent :
  assoc_last k l = None -> optional_value_of (btree_collect l) k = Ok None.
Proof. intros Ha. unfold optional_value_of. by rewrite btree_get_collect, Ha. Qed.

Lemma optional_string_at o :
  assoc_last k l = Some (optional_string o) -> optional_string_of (btree_collect l) k = Ok o.
Proof.
  intros Ha. unfold optional_string_of. rewrite (optional_value_at _ _ Ha) by done.
  by destruct o.
Qed.

Lemma optional_u64_at o :
  assoc_last k l = Some (optional_u64 o) -> optional_u64_of (btree_collect l) k = Ok o.
Proof.
  intros Ha. unfold optional_u64_of. rewrite (optional_value_at _ _ Ha) by done. by destruct o.
Qed.

Lemma optional_bool_at o :
  assoc_last k l = Some (optional_bool o) -> optional_bool_of (btree_collect l) k = Ok o.
Proof. intros Ha. unfold optional_bool_of. rewrite btree_get_collect, Ha. by destruct o. Qed.

Lemma optional_id_at {kd} (o : option (Id kd)) :
  assoc_last k l = Some (optional_id o) -> opt_ok id_ok o ->
  optional_id_of (btree_collect l) k = Ok o.
Proof.
  intros Ha Ho. unfold optional_id_of. rewrite (optional_string_at (as_str <$> o)).
  - destruct o as [i|]; simpl; [|done]. by rewrite parse_opaque_ok by by apply Ho.
  - rewrite Ha. by destruct o.
Qed.

Lemma optional_artifact_at o :
  assoc_last k l = Some (optional_artifact o) -> opt_ok artifact_ok o ->
  optional_artifact_of (btree_collect l) k = Ok o.
Proof.
  intros Ha Ho. unfold optional_artifact_of.
  rewrite (optional_string_at (artifact_id_to_hex <$> o)).
  - destruct o as [i|]; simpl; [|done]. by rewrite parse_artifact_ok by by apply Ho.
  - rewrite Ha. by destruct o.
Qed.
End fields.

Lemma string_array_at l : string_array (map JsonString l) = Ok l.
Proof. induction l as [|s l IH]; simpl; [done|]. unfold string_array in *. simpl. by rewrite IH. Qed.

Lemma omap_list_map {A B} (f : B -> Decoded A) (g : A -> B) (P : A -> Prop) l :
  (forall a, P a -> f (g a) = Ok a) -> Forall P l -> omap_list f (map g l) = Ok l.
Proof.
  intros Hfg. induction 1 as [|a l Ha _ IH]; simpl; [done|]. by rewrite Hfg, IH.
Qed.

Lemma try_narrow_ok max text n : (n <= max)%N -> try_narrow max text n = Ok n.
Proof. intros Hn. unfold try_narrow. by apply N.leb_le in Hn as ->. Qed.

Lemma traverse_fmap {A B} (f : B -> Decoded A) (g : A -> B) (o : option A) :
  opt_ok (fun a => f (g a) = Ok a) o -> traverse f (g <$> o) = Ok o.
Proof. intros Ho. destruct o as [a|]; simpl; [|done]. by rewrite (Ho a eq_refl). Qed.

(** ** Ordered maps *)

Section maps.
Context `{Countable K} `{!BTreeKey K} {V : Type}.

Lemma foldl_insert_list_to_map (l : list (K * V)) :
  foldl (fun m '(k, v) => <[k := v]> m) ∅ l = (list_to_map (reverse l) : gmap K V).
Proof.
  assert (forall (m : gmap K V), foldl (fun m '(k, v) => <[k := v]> m) m l
    = foldr (fun p => <[p.1 := p.2]>) m (reverse l)) as Hf; [|apply Hf].
  intros m. revert m. induction l as [|[k v] l IH]; intros m; simpl; [done|].
  rewrite reverse_cons, foldr_app, IH. done.
Qed.

(** Collecting the bindings of a map in key order gives the map back. *)
Lemma foldl_insert_iter (m : gmap K V) : foldl (fun m '(k, v) => <[k := v]> m) ∅ (btree_iter m) = m.
Proof.
  rewrite foldl_insert_list_to_map. transitivity (list_to_map (map_to_list m) : gmap K V).
  - apply list_to_map_proper.
    + rewrite fmap_reverse, reverse_Permutation. unfold btree_iter.
      rewrite (merge_sort_Permutation binding_le). apply NoDup_fst_map_to_list.
    + rewrite reverse_Permutation. apply merge_sort_Permutation.
  - apply list_to_map_to_list.
Qed.
End maps.

(** ** Running a decoder *)

Lemma obind_eval {E A B} (m : Outcome E A) (k : A -> Outcome E B) a r :
  m = Ok a -> k a = r -> obind m k = r.
Proof. by intros ->. Qed.

(** [wire] collects the round trips of nested values. *)
Create HintDb wire discriminated.
#[export] Hint Resolve string_array_at try_narrow_ok : wire.

(** One field of an encoded object; the side conditions are hypotheses. *)
Ltac wire_value :=
  lazymatch goal with
  | |- object _ = _ => reflexivity
  | |- required_string (btree_collect _) _ = _ => apply required_string_at; reflexivity
  | |- required_u64 (btree_collect _) _ = _ => apply required_u64_at; reflexivity
  | |- required_bool (btree_collect _) _ = _ => apply required_bool_at; reflexivity
  | |- required_metadata (btree_collect _) _ = _ => apply required_metadata_at; reflexivity
  | |- required_array (btree_collect _) _ = _ => apply required_array_at; reflexivity
  | |- required_value (btree_collect _) _ = _ => apply required_value_at; reflexivity
  | |- optional_string_of (btree_collect _) _ = _ => apply optional_string_at; reflexivity
  | |- optional_u64_of (btree_collect _) _ = _ => apply optional_u64_at; reflexivity
  | |- optional_bool_of (btree_collect _) _ = _ => apply optional_bool_at; reflexivity
  | |- required_id (btree_collect _) _ = _ => eapply required_id_at; [reflexivity|eassumption]
  | |- required_digest (btree_collect _) _ = _ =>
      eapply required_digest_at; [reflexivity|eassumption]
  | |- required_artifact (btree_collect _) _ = _ =>
      eapply required_artifact_at; [reflexivity|eassumption]
  | |- optional_id_of (btree_collect _) _ = _ => eapply optional_id_at; [reflexivity|eassumption]
  | |- optional_artifact_of (btree_collect _) _ = _ =>
      eapply optional_artifact_at; [reflexivity|eassumption]
  | |- optional_value_of _ _ = _ => fail
  | |- _ => solve [eauto with wire]
  end.
Ltac wire_step :=
  lazymatch goal with
  | |- obind (obind _ _) _ = _ => rewrite obind_assoc
  | |- obind _ _ = _ => eapply obind_eval; [wire_value|cbv beta]
  end.
Ltac wire := unfold json_object; repeat wire_step.

(** Decide the comparison of a type tag with a literal. *)
Ltac wire_tag := cbn [String.eqb Ascii.eqb Bool.eqb].

(** ** Well-formed values *)

Definition payload_ok (p : PayloadRef) : Prop :=
  match p with PayloadInline _ => True | PayloadArtifact a _ _ => artifact_ok a end.

Definition opaque_ok (c : OpaqueProviderContextEntry) : Prop := check_opaque_context c = Ok ().

Definition block_ok (b : AssistantContentEntry) : Prop :=
  match b with
  | ContentText _ => True
  | ContentThinking _ signature => opt_ok opaque_ok signature
  | ContentRedactedThinking data => opaque_ok data
  end.

Record assistant_ok (m : AssistantMessageEntry) : Prop := {
  aok_blocks : Forall block_ok (am_content m);
  aok_text : am_content m <> [ContentText EmptyString];
  aok_opaque : Forall opaque_ok (am_opaque_context m);
}.

Definition entry_ok (e : SessionEntry) : Prop :=
  match e with
  | UserMessage _ | ModelChanged _ | ThinkingChanged _ | ConfigurationChanged _ => True
  | AssistantMessage m => assistant_ok m
  | ToolResult r => payload_ok (tr_full_result r) /\ id_ok (tr_artifact_policy_id r)
  | Compaction c =>
      opt_ok id_ok (ce_covered_from c) /\ opt_ok id_ok (ce_covered_to c)
      /\ opt_ok id_ok (ce_retained_tail_boundary c)
      /\ opt_ok artifact_ok (ce_recovery_index_artifact c)
      /\ opt_ok id_ok (ce_harness_revision_id c) /\ payload_ok (ce_replacement c)
      /\ digest_wf (ce_replacement_digest c) /\ opt_ok id_ok (ce_provider_request_id c)
  | BranchSummary b => opt_ok id_ok (bs_covered_to b)
  | HarnessRevisionChanged r =>
      id_ok (hr_revision_id r) /\ id_ok (hr_snapshot_id r) /\ opt_ok id_ok (hr_rollback_from r)
  | PluginMemory m => payload_ok (pm_content m)
  | CustomSemantic c => payload_ok (cu_payload c)
  end.

(** ** Nested values *)

Lemma json_object_not_null l : json_object l <> JsonNull.
Proof. done. Qed.

Lemma payload_roundtrip p : payload_ok p -> decode_payload_ref (encode_payload_ref p) = Ok p.
Proof.
  destruct p as [v|a n m]; unfold decode_payload_ref, encode_payload_ref; intros Hp; wire; wire_tag;
    by wire.
Qed.

Lemma usage_roundtrip u : decode_usage (encode_usage u) = Ok u.
Proof. unfold decode_usage, encode_usage. wire. by destruct u. Qed.

Lemma model_roundtrip m : decode_model (encode_model m) = Ok m.
Proof. unfold decode_model, encode_model. wire. by destruct m. Qed.
#[export] Hint Resolve payload_roundtrip usage_roundtrip model_roundtrip : wire.

(** An optional nested object is read back by the decoder of its value. *)
Lemma optional_object_at {A} l k (enc : A -> JsonValue) (dec : JsonValue -> Decoded A) o :
  assoc_last k l = Some (optional_value (enc <$> o)) -> (forall a, enc a <> JsonNull) ->
  opt_ok (fun a => dec (enc a) = Ok a) o ->
  obind (optional_value_of (btree_collect l) k) (traverse dec) = Ok o.
Proof.
  intros Ha Hn Ho. rewrite (optional_value_at _ _ _ _ Ha Hn). by apply traverse_fmap.
Qed.

Lemma optional_model_at l k m :
  assoc_last k l = Some (encode_optional_model m) ->
  decode_optional_model (btree_collect l) k = Ok m.
Proof.
  intros Ha. apply (optional_object_at _ _ encode_model); [done..|].
  intros ? ->. apply model_roundtrip.
Qed.

Lemma opaque_roundtrip c :
  opaque_ok c -> decode_opaque_provider_context (encode_opaque_provider_context c) = Ok c.
Proof.
  intros Hc. unfold decode_opaque_provider_context, encode_opaque_provider_context.
  destruct c. by wire.
Qed.
#[export] Hint Resolve opaque_roundtrip : wire.

Lemma block_roundtrip b : block_ok b -> decode_assistant_block (encode_assistant_block b) = Ok b.
Proof.
  destruct b as [t|t s|d]; unfold decode_assistant_block, encode_assistant_block; intros Hb; wire;
    wire_tag.
  - by wire.
  - wire. eapply obind_eval; [by apply (optional_value_at _ _ encode_opaque_provider_context s)|].
    cbv beta. rewrite traverse_fmap; [done|]. intros c ->. by apply opaque_roundtrip, Hb.
  - by wire.
Qed.

Lemma tool_call_roundtrip c : decode_assistant_tool_call (encode_assistant_tool_call c) = Ok c.
Proof. unfold decode_assistant_tool_call, encode_assistant_tool_call. wire. by destruct c. Qed.

Lemma Forall_trivial {A} (l : list A) : Forall (fun _ => True) l.
Proof. by apply Forall_true. Qed.

(** The text of a text-only message decides its content. *)
Lemma text_only_content m :
  text_only (am_content m) = true -> am_content m <> [ContentText EmptyString] ->
  text_content (assistant_text m) = am_content m.
Proof.
  unfold text_only, assistant_text, text_content. intros [Hl Ht]%andb_true_iff Hne.
  destruct (am_content m) as [|[t|t s|d] [|b content]]; simpl in *; try done.
  destruct t; [done|]. done.
Qed.

(** The fields of an encoded assistant message that are always present. *)
Lemma assistant_tail_roundtrip m l :
  assistant_ok m ->
  assoc_last "tool_calls" l = Some (JsonArray (map encode_assistant_tool_call (am_tool_calls m))) ->
  assoc_last "stop_reason" l = Some (optional_string (am_stop_reason m)) ->
  assoc_last "error_message" l = Some (optional_string (am_error_message m)) ->
  assoc_last "opaque_context" l
    = Some (JsonArray (map encode_opaque_provider_context (am_opaque_context m))) ->
  assoc_last "metadata" l = Some (JsonObject (am_metadata m)) ->
  assoc_last "content" l = Some (JsonString (assistant_text m)) ->
  decode_content (btree_collect l) (assistant_text m) = Ok (am_content m) ->
  optional_value_of (btree_collect l) "origin" = Ok (encode_model <$> am_origin m) ->
  decode_assistant_message (btree_collect l) = Ok m.
Proof.
  intros [_ _ Ho] Ht Hs He Hop Hm Hc Hcontent Horigin. unfold decode_assistant_message.
  rewrite (required_string_at _ _ _ Hc). cbn [obind]. rewrite Hcontent. cbn [obind].
  rewrite Horigin. cbn [obind].
  rewrite (traverse_fmap _ encode_model) by (intros ? _; apply model_roundtrip). cbn [obind].
  rewrite (required_array_at _ _ _ Ht). cbn [obind].
  rewrite (omap_list_map _ _ (fun _ => True)) by (auto using tool_call_roundtrip, Forall_trivial).
  cbn [obind]. rewrite (optional_string_at _ _ _ Hs), (optional_string_at _ _ _ He). cbn [obind].
  unfold optional_value_of. rewrite btree_get_collect, Hop. cbn [obind traverse].
  unfold decode_opaque_list. cbn [json_as_array ok_or obind].
  rewrite (omap_list_map _ _ opaque_ok) by auto using opaque_roundtrip. cbn [obind].
  rewrite (required_metadata_at _ _ _ Hm). by destruct m.
Qed.

Lemma assistant_roundtrip m :
  assistant_ok m -> decode_entry (encode_assistant_message m) = Ok (AssistantMessage m).
Proof.
  intros Hok. unfold decode_entry, encode_assistant_message.
  cbn [object json_object json_as_object ok_or obind].
  assert (forall l, assoc_last "content_blocks" l
      = (if text_only (am_content m) then None
         else Some (JsonArray (map encode_assistant_block (am_content m)))) ->
    decode_content (btree_collect l) (assistant_text m) = Ok (am_content m)) as Hcontent.
  { intros l Hl. unfold decode_content, optional_value_of. rewrite btree_get_collect, Hl.
    destruct Hok as [Hb Hne _]. destruct (text_only (am_content m)) eqn:Ht; cbn [obind].
    - by rewrite text_only_content.
    - cbn [json_as_array ok_or obind].
      rewrite (omap_list_map _ _ block_ok) by auto using block_roundtrip. cbn [obind].
      unfold assistant_text at 1. cbn [am_content]. fold (assistant_text m).
      unfold fail_if. by rewrite (proj2 (eqb_true _ _) eq_refl). }
  destruct (text_only (am_content m)) eqn:Ht, (am_origin m) as [o|] eqn:Ho; cbn [app]; wire;
    wire_tag;
    erewrite (assistant_tail_roundtrip m); try done; try (by apply Hcontent);
    rewrite Ho; unfold optional_value_of; by rewrite btree_get_collect.
Qed.

(** ** Entries *)

Lemma section_change_roundtrip c : decode_section_change (encode_section_change c) = Ok c.
Proof. unfold decode_section_change, encode_section_change. wire. by destruct c. Qed.

Lemma tool_declaration_roundtrip t : decode_tool_declaration (encode_tool_declaration t) = Ok t.
Proof. unfold decode_tool_declaration, encode_tool_declaration. wire. by destruct t. Qed.

Lemma visibility_roundtrip v : parse_memory_visibility (memory_visibility_name v) = Ok v.
Proof. by destruct v. Qed.
Lemma retention_roundtrip v : parse_memory_retention (memory_retention_name v) = Ok v.
Proof. by destruct v. Qed.


Lemma sections_roundtrip l : omap_list decode_section_change (map encode_section_change l) = Ok l.
Proof.
  apply (omap_list_map _ _ (fun _ => True)); auto using section_change_roundtrip, Forall_trivial.
Qed.
Lemma tool_declarations_roundtrip l :
  omap_list decode_tool_declaration (map encode_tool_declaration l) = Ok l.
Proof.
  apply (omap_list_map _ _ (fun _ => True)); auto using tool_declaration_roundtrip, Forall_trivial.
Qed.
#[export] Hint Resolve visibility_roundtrip retention_roundtrip sections_roundtrip
  tool_declarations_roundtrip : wire.

Lemma entry_roundtrip e : entry_ok e -> decode_entry (encode_entry e) = Ok e.
Proof.
  destruct e as [m|m|r|c|b|m|t|c|r|m|c]; simpl encode_entry; [|apply assistant_roundtrip|..];
    intros He; cbn [entry_ok] in He; destruct_and?; unfold decode_entry; wire; wire_tag.
  - wire. by destruct m.
  - unfold decode_tool_result. wire. by destruct r.
  - unfold decode_compaction. wire. by destruct c.
  - wire. by destruct b.
  - wire. by destruct m.
  - wire. by destruct t.
  - unfold decode_configuration, string_list. wire. by destruct c.
  - wire. by destruct r.
  - unfold decode_plugin_memory. wire. by destruct m.
  - wire. by destruct c.
Qed.
