(* ===== verification/WireRecords.v ===== *)
(** * tea-session: decoding undoes encoding, for records, facts and commits

    The round trips of the operation records, the lane mutations and the
    session facts, put together for the items of a commit. *)

From stdpp Require Import base gmap list strings sorting.
From S2P Require Import Prelude RustStr Json Ids Model Records Snapshot Reduction SessionErrors.
From S2P Require Import WireEncode WireDecode WireFields.

(** ** Well-formed records *)

Definition provisioned_ok (p : ProvisionedEntry) : Prop := id_ok (pe_id p) /\ entry_ok (pe_body p).

Definition hook_data_ok (m : gmap StableHookId JsonValue) : Prop := map_Forall (fun k _ => id_ok k) m.

Definition kind_ok (k : OperationKind) : Prop :=
  match k with
  | KindSubagent agent parent => id_ok agent /\ id_ok parent
  | _ => True
  end.

Definition provider_error_ok (e : ProviderErrorRecord) : Prop :=
  opt_ok (fun n => n <= u16_max)%N (per_status_code e)
  /\ opt_ok (fun n => n <= u32_max)%N (per_attempt e).

Definition record_ok (r : LaneRecord) : Prop :=
  match r with
  | OperationStarted r =>
      id_ok (os_id r) /\ id_ok (os_lane_id r) /\ opt_ok id_ok (os_source_leaf_id r)
      /\ kind_ok (os_kind r) /\ Forall provisioned_ok (os_original_input r)
      /\ Forall id_ok (os_input_ids r) /\ id_ok (os_initial_harness_revision r)
      /\ id_ok (os_model_harness_profile r) /\ hook_data_ok (os_operation_resume_data r)
  | OperationFinished r => id_ok (of_operation_id r)
  | AbortRequested r => id_ok (ar_operation_id r)
  | EpochStarted r =>
      id_ok (es_id r) /\ id_ok (es_operation_id r) /\ (es_epoch_index r <= u32_max)%N
      /\ opt_ok id_ok (es_source_leaf_id r) /\ id_ok (es_harness_revision_id r)
      /\ id_ok (es_harness_snapshot_id r) /\ id_ok (es_model_harness_profile r)
      /\ id_ok (es_core_run_id r) /\ hook_data_ok (es_epoch_resume_data r)
  | EpochFinished r => id_ok (ef_epoch_id r) /\ id_ok (ef_operation_id r)
  | StepAttempted r =>
      id_ok (sa_id r) /\ id_ok (sa_operation_id r) /\ id_ok (sa_epoch_id r)
      /\ (sa_attempt r <= u32_max)%N /\ id_ok (sa_result_entry_id r)
  | ProviderRequestStarted r =>
      id_ok (prs_request_id r) /\ id_ok (prs_operation_id r) /\ id_ok (prs_epoch_id r)
      /\ id_ok (prs_step_id r) /\ (prs_physical_attempt r <= u32_max)%N
      /\ id_ok (prs_model_harness_profile r) /\ digest_wf (prs_request_surface_digest r)
  | ProviderRequestSettled r =>
      id_ok (pst_request_id r) /\ id_ok (pst_operation_id r)
      /\ opt_ok provider_error_ok (pst_provider_error r)
      /\ opt_ok artifact_ok (pst_response_artifact r)
  | ToolStarted r =>
      id_ok (ts_record_id r) /\ id_ok (ts_operation_id r) /\ id_ok (ts_epoch_id r)
      /\ id_ok (ts_assistant_entry_id r) /\ (ts_tool_index r <= u32_max)%N
      /\ id_ok (ts_result_entry_id r) /\ digest_wf (ts_tool_definition_digest r)
      /\ id_ok (ts_harness_revision_id r)
  | InputAccepted r => id_ok (ia_lane_id r) /\ provisioned_ok (ia_entry r)
  | InputWithdrawn r => id_ok (iw_lane_id r) /\ id_ok (iw_input_id r)
  | InputSettled r => id_ok (is_operation_id r) /\ id_ok (is_input_id r)
  | ExtensionControlEnqueued r => id_ok (xe_operation_id r) /\ id_ok (xe_harness_revision_id r)
  | ExtensionControlApplied _ => True
  | WriteDeferred r => id_ok (wd_operation_id r) /\ provisioned_ok (wd_entry r)
  | HarnessActivationRequested r =>
      id_ok (ha_operation_id r) /\ id_ok (ha_candidate_id r) /\ id_ok (ha_parent_revision_id r)
      /\ id_ok (ha_proposed_snapshot_id r) /\ id_ok (ha_revision_entry_id r)
  | UsageFact r => id_ok (ur_operation_id r) /\ opt_ok id_ok (ur_request_id r)
  | CacheMaintenance r => id_ok (cm_operation_id r)
  end.

(** ** Parts of records *)

Lemma provisioned_roundtrip p :
  provisioned_ok p -> decode_provisioned_entry (encode_provisioned_entry p) = Ok p.
Proof.
  intros [Hi Hb]. unfold decode_provisioned_entry, encode_provisioned_entry. wire.
  eapply obind_eval; [by apply entry_roundtrip|]. by destruct p.
Qed.
#[export] Hint Resolve provisioned_roundtrip : wire.

Lemma hook_data_roundtrip m : hook_data_ok m -> decode_hook_data (encode_hook_data m) = Ok m.
Proof.
  intros Hm. unfold decode_hook_data, encode_hook_data. cbn [object json_as_object ok_or obind].
  rewrite (omap_list_map _ _ (fun p => id_ok p.1)).
  - cbn [obind]. by rewrite foldl_insert_iter.
  - intros [k v] Hk. by rewrite parse_opaque_ok.
  - apply Forall_forall. intros [k v] Hin%elem_of_btree_iter. by apply (Hm _ _ Hin).
Qed.

Lemma operation_kind_roundtrip k :
  kind_ok k -> decode_operation_kind (encode_operation_kind k) = Ok k.
Proof.
  destruct k as [|a p|n]; intros Hk; cbn [kind_ok] in Hk; destruct_and?;
    unfold decode_operation_kind, encode_operation_kind; wire; wire_tag; by wire.
Qed.

Lemma operation_outcome_roundtrip o : decode_operation_outcome (encode_operation_outcome o) = Ok o.
Proof.
  destruct o; unfold decode_operation_outcome, encode_operation_outcome; wire; wire_tag; by wire.
Qed.

Lemma narrow_option max text o :
  opt_ok (fun n => n <= max)%N o -> traverse (try_narrow max text) o = Ok o.
Proof. destruct o as [n|]; intros Ho; simpl; [|done]. by rewrite try_narrow_ok by by apply Ho. Qed.

#[export] Hint Resolve narrow_option : wire.

Lemma provider_error_roundtrip e :
  provider_error_ok e -> decode_provider_error (encode_provider_error e) = Ok e.
Proof.
  intros [Hs Ha]. unfold decode_provider_error, encode_provider_error.
  eapply obind_eval; [reflexivity|cbv beta]. wire. by destruct e.
Qed.

Lemma step_kind_roundtrip k : parse_step_kind (step_kind_name k) = Ok k.
Proof. by destruct k. Qed.
Lemma epoch_reason_roundtrip r : parse_epoch_finish_reason (epoch_finish_reason_name r) = Ok r.
Proof. by destruct r. Qed.
Lemma replay_policy_roundtrip p : parse_tool_replay_policy (tool_replay_policy_name p) = Ok p.
Proof. by destruct p. Qed.
Lemma classification_roundtrip c :
  parse_provider_classification (provider_classification_name c) = Ok c.
Proof. by destruct c. Qed.
Lemma context_mode_roundtrip c : parse_agent_context_mode (agent_context_mode_name c) = Ok c.
Proof. by destruct c. Qed.

Lemma input_ids_roundtrip (ids : list EntryId) :
  Forall id_ok ids ->
  omap_list (fun value => let? text := ok_or (json_as_str value) [Lit "input ID must be a string"] in
                          parse_opaque text) (map string_value ids) = Ok ids.
Proof. apply omap_list_map. intros i Hi. simpl. by apply parse_opaque_ok. Qed.

Lemma inputs_roundtrip l :
  Forall provisioned_ok l -> omap_list decode_provisioned_entry (map encode_provisioned_entry l) = Ok l.
Proof. apply omap_list_map, provisioned_roundtrip. Qed.

#[export] Hint Resolve hook_data_roundtrip operation_kind_roundtrip operation_outcome_roundtrip
  step_kind_roundtrip epoch_reason_roundtrip replay_policy_roundtrip classification_roundtrip
  context_mode_roundtrip input_ids_roundtrip inputs_roundtrip optional_model_at : wire.

Lemma provider_settled_roundtrip r :
  record_ok (ProviderRequestSettled r) ->
  decode_record (encode_record (ProviderRequestSettled r)) = Ok (ProviderRequestSettled r).
Proof.
  destruct r as [q o out e u a c]. intros (Hq & Ho & He & Ha). cbn in Hq, Ho, He, Ha.
  unfold decode_record, encode_record.
  destruct e as [e|]; cbn [app pst_request_id pst_operation_id pst_outcome pst_usage
    pst_response_artifact pst_classification pst_provider_error];
    wire; wire_tag; unfold decode_provider_settled; wire.
  1: eapply obind_eval; [by apply (optional_value_at _ _ encode_provider_error (Some e))|].
  2: eapply obind_eval; [by apply optional_value_absent|].
  all: cbv beta; rewrite ?obind_assoc.
  1: eapply obind_eval;
    [apply traverse_fmap; intros ? [= <-]; by apply provider_error_roundtrip, He|].
  2: eapply obind_eval; [reflexivity|].
  all: cbv beta; rewrite ?obind_assoc; eapply obind_eval;
    [by apply (optional_value_at _ _ encode_usage u)|].
  all: cbv beta; rewrite ?obind_assoc; eapply obind_eval;
    [apply traverse_fmap; intros ? _; apply usage_roundtrip|].
  all: cbv beta; by wire.
Qed.

Lemma cache_maintenance_roundtrip r :
  record_ok (CacheMaintenance r) ->
  decode_record (encode_record (CacheMaintenance r)) = Ok (CacheMaintenance r).
Proof.
  destruct r as [i m sm out u c]. intros Hi. cbn in Hi. unfold decode_record, encode_record.
  destruct out as [|t|]; cbn [cache_outcome cm_outcome]; wire; wire_tag;
    unfold decode_cache_maintenance; wire; wire_tag; wire; done.
Qed.

Lemma record_roundtrip r : record_ok r -> decode_record (encode_record r) = Ok r.
Proof.
  intros Hr.
  destruct r; try (by apply provider_settled_roundtrip); try (by apply cache_maintenance_roundtrip);
    cbn [record_ok] in Hr; destruct_and?; unfold decode_record, encode_record; wire; wire_tag;
    unfold decode_operation_started, decode_epoch_started, decode_step_attempted,
      decode_provider_started, decode_tool_started, decode_control_enqueued, decode_activation;
    wire; destruct record; reflexivity.
Qed.

Lemma lane_mutation_roundtrip m :
  match m with LaneCreated lane base => id_ok lane /\ opt_ok id_ok base end ->
  decode_lane_mutation (encode_lane_mutation m) = Ok m.
Proof.
  destruct m as [lane base]. intros [Hl Hb]. unfold decode_lane_mutation, encode_lane_mutation.
  wire. wire_tag. by wire.
Qed.

(** ** Facts *)

Definition fact_ok (f : SessionFact) : Prop :=
  match f with
  | SubagentPolicy f =>
      (sp_schema_version f <= u16_max)%N /\ (sp_max_concurrent f <= u32_max)%N
      /\ (sp_max_total_per_operation f <= u32_max)%N /\ digest_wf (sp_tool_surface_digest f)
  | AgentSpawned f =>
      id_ok (as_agent_id f) /\ id_ok (as_parent_lane_id f) /\ id_ok (as_parent_operation_id f)
      /\ id_ok (as_lane_id f) /\ opt_ok id_ok (as_base_leaf_id f) /\ id_ok (as_workspace_lease_id f)
      /\ id_ok (as_harness_revision_id f) /\ id_ok (as_harness_snapshot_id f)
      /\ id_ok (as_model_harness_profile_id f)
  | WorkspaceDelta f =>
      id_ok (wf_delta_id f) /\ id_ok (wf_agent_id f) /\ id_ok (wf_workspace_lease_id f)
      /\ payload_ok (wf_patch f)
  | AgentTaskFinished f =>
      id_ok (af_agent_id f) /\ id_ok (af_operation_id f) /\ opt_ok id_ok (af_final_entry_id f)
      /\ payload_ok (af_report f) /\ opt_ok id_ok (af_workspace_delta_id f)
  | WorkspaceDeltaApplied f => id_ok (wa_delta_id f) /\ id_ok (wa_target_lane_id f)
  | HarnessCatalog f => (hc_schema_version f <= u16_max)%N /\ artifact_ok (hc_artifact_id f)
  | ToolSchemaDeviation f =>
      id_ok (tsd_operation_id f) /\ id_ok (tsd_epoch_id f) /\ id_ok (tsd_assistant_entry_id f)
      /\ id_ok (tsd_model_harness_profile f) /\ payload_ok (tsd_raw_arguments f)
  | TraceArtifact f =>
      (ta_schema_version f <= u16_max)%N /\ id_ok (ta_operation_id f) /\ id_ok (ta_epoch_id f)
      /\ id_ok (ta_core_run_id f) /\ id_ok (ta_harness_revision_id f)
      /\ id_ok (ta_harness_snapshot_id f) /\ id_ok (ta_model_harness_profile f)
      /\ artifact_ok (ta_artifact_id f)
  | ProviderRequestMaterial f =>
      id_ok (pmf_operation_id f) /\ id_ok (pmf_epoch_id f) /\ id_ok (pmf_request_id f)
      /\ payload_ok (pmf_request f)
  | ExtensionStateValueSet f => id_ok (xs_lane_id f)
  | TurnCheckpoint f =>
      id_ok (tcf_checkpoint_id f) /\ id_ok (tcf_lane_id f) /\ id_ok (tcf_operation_id f)
      /\ opt_ok id_ok (tcf_leaf_id f)
  | ForkedLane f => id_ok (fl_checkpoint_id f) /\ id_ok (fl_lane_id f) /\ opt_ok id_ok (fl_base_leaf_id f)
  | CustomFact _ _ => True
  end.

Lemma subagent_model_roundtrip m : decode_subagent_model (encode_subagent_model m) = Ok m.
Proof. unfold decode_subagent_model, encode_subagent_model. wire. by destruct m. Qed.

Lemma subagent_models_roundtrip l :
  omap_list decode_subagent_model (map encode_subagent_model l) = Ok l.
Proof.
  apply (omap_list_map _ _ (fun _ => True)); auto using subagent_model_roundtrip, Forall_trivial.
Qed.

Lemma extension_value_roundtrip v : decode_extension_value (encode_extension_value v) = Ok v.
Proof. unfold decode_extension_value, encode_extension_value. wire. by destruct v. Qed.

Lemma extension_state_roundtrip m : decode_extension_state (encode_extension_state m) = Ok m.
Proof.
  unfold decode_extension_state, encode_extension_state. cbn [object json_as_object ok_or obind].
  rewrite (omap_list_map _ _ (fun _ => True)).
  - cbn [obind]. by rewrite foldl_insert_iter.
  - intros [k v] _. by rewrite extension_value_roundtrip.
  - apply Forall_trivial.
Qed.

Lemma schema_mismatch_roundtrip m : decode_schema_mismatch (encode_schema_mismatch m) = Ok m.
Proof. unfold decode_schema_mismatch, encode_schema_mismatch. wire. by destruct m. Qed.

Lemma schema_mismatches_roundtrip l :
  omap_list decode_schema_mismatch (map encode_schema_mismatch l) = Ok l.
Proof.
  apply (omap_list_map _ _ (fun _ => True)); auto using schema_mismatch_roundtrip, Forall_trivial.
Qed.

#[export] Hint Resolve subagent_model_roundtrip subagent_models_roundtrip extension_state_roundtrip
  schema_mismatches_roundtrip : wire.

Lemma fact_roundtrip f : fact_ok f -> decode_fact (encode_fact f) = Ok f.
Proof.
  intros Hf. destruct f; cbn [fact_ok] in Hf; destruct_and?; unfold decode_fact, encode_fact, string_list;
    wire; wire_tag;
    unfold decode_policy, decode_agent_spawned, decode_workspace_delta, decode_agent_finished,
      decode_delta_applied, decode_harness_catalog, decode_schema_deviation, decode_trace_artifact,
      decode_provider_material, decode_extension_state_set, decode_turn_checkpoint,
      decode_forked_lane; wire; first [reflexivity | destruct fact; reflexivity].
Qed.

(** ** Commit items *)

(** The payload of a mutation, and its envelope fields, are those a commit at
    [seq] and [timestamp_ms] stores. *)
Definition mutation_ok (seq : Sequence) (timestamp_ms : N) (m : SessionMutation) : Prop :=
  match m with
  | MutEntry e =>
      id_ok (se_lane_id e) /\ id_ok (eh_id (se_header e)) /\ opt_ok id_ok (eh_parent_id (se_header e))
      /\ entry_ok (se_body e) /\ eh_seq (se_header e) = seq
      /\ eh_timestamp_ms (se_header e) = timestamp_ms
  | MutRecord r => record_ok (sr_record r) /\ sr_seq r = seq /\ sr_timestamp_ms r = timestamp_ms
  | MutLane l =>
      match sl_mutation l with LaneCreated lane base => id_ok lane /\ opt_ok id_ok base end
      /\ sl_seq l = seq /\ sl_timestamp_ms l = timestamp_ms
  | MutFact f => fact_ok (sf_fact f) /\ sf_seq f = seq /\ sf_timestamp_ms f = timestamp_ms
  end.

Lemma mutation_roundtrip seq timestamp_ms m :
  mutation_ok seq timestamp_ms m ->
  decode_session_mutation seq timestamp_ms (encode_mutation_payload m) = Ok m.
Proof.
  intros Hm. destruct m as [e|r|l|f]; cbn [mutation_ok] in Hm; destruct_and?;
    unfold decode_session_mutation, encode_mutation_payload; wire; wire_tag; wire.
  - eapply obind_eval; [by apply entry_roundtrip|]. destruct e as [? [] ?]; simpl in *; by subst.
  - eapply obind_eval; [by apply record_roundtrip|]. destruct r; simpl in *; by subst.
  - eapply obind_eval; [by apply lane_mutation_roundtrip|]. destruct l; simpl in *; by subst.
  - eapply obind_eval; [by apply fact_roundtrip|]. destruct f; simpl in *; by subst.
Qed.
