(* ===== verification/WireSealProofs.v ===== *)
(** * tea-session: sealed commits and headers survive the wire

    A sealed commit or header decodes to itself; what decodes carries a
    digest that was recomputed from its contents; and two commits with the
    same digest agree in everything the seal covers unless they exhibit a
    collision of the hash.  The last part applies the wire theorems to the
    first commit of a session. *)

From stdpp Require Import base gmap list strings sorting.
From S2P Require Import Prelude RustStr Json Ids Model Records Snapshot Reduction ReductionInv.
From S2P Require Import Scenario Witnesses SessionErrors WireEncode WireDecode WireSeal WireFields WireRecords.

Lemma map_err_Ok_inv {E F A} (f : E -> F) (m : Outcome E A) a : map_err f m = Ok a -> m = Ok a.
Proof. by destruct m; simpl; intros [= ->]. Qed.

Section seal_facts.
Context `{Miniserde} `{Blake3Law}.

Lemma to_json_string_finite v text : to_json_string v = Ok text -> json_finite v = true.
Proof.
  unfold to_json_string. rewrite <-to_miniserde_ok_finite. by destruct (to_miniserde v).
Qed.

(** ** Commits *)

Lemma calculate_commit_digest_Ok session seq ts prev ms d :
  calculate_commit_digest session seq ts prev ms = Ok d ->
  digest_wf d /\
  json_finite (encode_commit_payload (map (stamp seq ts prev digest_zero) ms)) = true.
Proof.
  unfold calculate_commit_digest. intros (text & Ht%map_err_Ok_inv & [= <-])%obind_Ok_inv.
  split; [apply blake3_wf|]. by apply (to_json_string_finite _ text).
Qed.

(** The payload does not depend on the envelope of its items. *)
Lemma encode_commit_payload_stamp seq ts prev d d' ms :
  encode_commit_payload (map (stamp seq ts prev d) ms)
  = encode_commit_payload (map (stamp seq ts prev d') ms).
Proof. unfold encode_commit_payload. by rewrite !map_map. Qed.

Lemma commit_payload_roundtrip seq ts prev d ms :
  ms <> [] -> Forall (mutation_ok seq ts) ms ->
  decode_commit_payload (encode_commit_payload (map (stamp seq ts prev d) ms)) seq ts = Ok ms.
Proof.
  intros Hne Hok. unfold decode_commit_payload, encode_commit_payload. wire. rewrite map_map.
  cbn [stamp smu_mutation]. change (fun x => encode_mutation_payload x) with encode_mutation_payload.
  destruct ms as [|m ms]; [done|]. cbn [map fail_if]. eapply obind_eval; [reflexivity|cbv beta].
  apply (omap_list_map _ encode_mutation_payload (mutation_ok seq ts) (m :: ms)); [|done].
  apply mutation_roundtrip.
Qed.

Lemma seal_commit_Ok snapshot seq ts ms c :
  seal_commit snapshot seq ts ms = Ok c ->
  ms <> [] /\ exists d,
    calculate_commit_digest (sh_session_id (ss_header snapshot)) seq ts (ss_last_digest snapshot) ms
      = Ok d
    /\ c = mk_stored_commit seq ts (ss_last_digest snapshot) d
             (map (stamp seq ts (ss_last_digest snapshot) d) ms).
Proof.
  unfold seal_commit. destruct ms as [|m ms]; [done|]. intros (d & Hd%map_err_Ok_inv & [= <-])%obind_Ok_inv.
  split; [done|]. by exists d.
Qed.

(** The fields of an encoded commit. *)
Definition commit_fields (c : StoredCommit) : Fields :=
  [("seq", u64_value (sc_seq c)); ("timestamp_ms", u64_value (sc_timestamp_ms c));
   ("prev_digest", digest_value (sc_prev_digest c)); ("mutation", encode_commit_payload (sc_items c));
   ("digest", digest_value (sc_digest c))].

Lemma encode_commit_fields c : object (encode_commit c) = Ok (btree_collect (commit_fields c)).
Proof. done. Qed.

Lemma encode_commit_eq_self c :
  json_finite (encode_commit_payload (sc_items c)) = true ->
  (encode_commit c ==? encode_commit c) = true.
Proof.
  intros Hf. apply json_eq_refl. unfold encode_commit. revert Hf.
  generalize (encode_commit_payload (sc_items c)). intros v Hv.
  change (json_finite v && true = true). by rewrite Hv.
Qed.

(** A sealed commit decodes to itself. *)
Lemma sealed_commit_decodes snapshot seq ts ms c :
  digest_wf (ss_last_digest snapshot) -> Forall (mutation_ok seq ts) ms ->
  seal_commit snapshot seq ts ms = Ok c ->
  decode_mutation (encode_commit c) (sh_session_id (ss_header snapshot)) = Ok c.
Proof.
  intros Hprev Hok (Hne & d & Hd & Hc)%seal_commit_Ok.
  destruct (calculate_commit_digest_Ok _ _ _ _ _ _ Hd) as [Hwf Hfin].
  assert ((encode_commit c ==? encode_commit c) = true) as Heq.
  { apply encode_commit_eq_self. rewrite Hc. cbn [sc_items].
    by rewrite (encode_commit_payload_stamp _ _ _ d digest_zero). }
  revert Heq. unfold decode_mutation. generalize (encode_commit_fields c).
  generalize (encode_commit c) at 1 3 4 5. intros v Hv Heq. subst c.
  eapply obind_eval; [by rewrite Hv|cbv beta]. eapply obind_eval; [reflexivity|cbv beta].
  eapply obind_eval; [by erewrite required_u64_at by reflexivity|cbv beta].
  eapply obind_eval; [by erewrite required_u64_at by reflexivity|cbv beta].
  eapply obind_eval; [by erewrite required_digest_at by (reflexivity || eassumption)|cbv beta].
  eapply obind_eval; [by erewrite required_digest_at by (reflexivity || eassumption)|cbv beta].
  eapply obind_eval; [by erewrite required_value_at by reflexivity|cbv beta].
  cbn [sc_seq sc_timestamp_ms sc_prev_digest sc_digest sc_items].
  eapply obind_eval; [by rewrite commit_payload_roundtrip|cbv beta].
  eapply obind_eval; [by rewrite Hd|cbv beta].
  rewrite (proj2 (eqb_true d d) eq_refl). cbn [negb]. cbv zeta. by rewrite Heq.
Qed.

(** C10: A commit that sealing produced from well-formed items decodes, from its wire value, to
    exactly that commit: every entry, record, lane mutation and fact kind survives encoding, the
    recomputed digest matches and the canonical re-encoding check passes. *)
Theorem sealed_commit_roundtrip snapshot seq ts ms c :
  digest_wf (ss_last_digest snapshot) -> Forall (mutation_ok seq ts) ms ->
  seal_commit snapshot seq ts ms = Ok c ->
  decode_mutation (encode_commit c) (sh_session_id (ss_header snapshot)) = Ok c.
Proof. apply sealed_commit_decodes. Qed.

(** The envelope a stored item carries inside its payload. *)
Definition payload_envelope (m : SessionMutation) : Sequence * N :=
  match m with
  | MutEntry e => (eh_seq (se_header e), eh_timestamp_ms (se_header e))
  | MutRecord r => (sr_seq r, sr_timestamp_ms r)
  | MutLane l => (sl_seq l, sl_timestamp_ms l)
  | MutFact f => (sf_seq f, sf_timestamp_ms f)
  end.

Lemma decode_session_mutation_envelope seq ts v m :
  decode_session_mutation seq ts v = Ok m -> payload_envelope m = (seq, ts).
Proof.
  unfold decode_session_mutation. intros Hd.
  repeat (outcome_inv_step || reducer_inv_step); done.
Qed.

Lemma decode_commit_payload_Ok v seq ts ms :
  decode_commit_payload v seq ts = Ok ms ->
  ms <> [] /\ Forall (fun m => payload_envelope m = (seq, ts)) ms.
Proof.
  unfold decode_commit_payload. intros Hd. repeat (outcome_inv_step).
  match goal with Hi : fail_if (match ?items with _ => _ end) _ = _ |- _ =>
    apply fail_if_Ok in Hi; destruct items as [|i items]; [done|] end.
  match goal with Ho : omap_list _ _ = _ |- _ => apply omap_list_Forall2 in Ho; rename Ho into Hall end.
  split; [by inversion Hall|].
  eapply Forall2_Forall_r; [exact Hall|]. apply Forall_forall. intros v' _ m.
  apply decode_session_mutation_envelope.
Qed.

(** A wire value is accepted as a commit only if it holds at least one item, every item
    carries the commit's own sequence and timestamp, the digest is the recomputed digest of the
    contents under the session's identity, and re-encoding the commit gives the same value. *)
Theorem decoded_commit_exact v session c :
  decode_mutation v session = Ok c ->
  sc_items c <> [] /\ commit_sealed c
  /\ Forall (fun m => payload_envelope (smu_mutation m) = (sc_seq c, sc_timestamp_ms c)) (sc_items c)
  /\ calculate_commit_digest session (sc_seq c) (sc_timestamp_ms c) (sc_prev_digest c)
       (map smu_mutation (sc_items c)) = Ok (sc_digest c)
  /\ (encode_commit c ==? v) = true.
Proof.
  unfold decode_mutation. intros Hd. repeat outcome_inv_step.
  match goal with Hi : (if _ then _ else _) = Ok _ |- _ => rename Hi into Hf end.
  match type of Hf with (if ?b then _ else _) = _ => destruct b eqn:Hdig; [done|] end.
  match type of Hf with (if negb ?b then _ else _) = _ => destruct b eqn:Heq; [|done] end.
  injection Hf as <-.
  repeat match goal with Hm : map_err _ _ = Ok _ |- _ => apply map_err_Ok_inv in Hm end.
  bool_inv. subst. cbn [sc_items sc_seq sc_timestamp_ms sc_prev_digest sc_digest].
  match goal with Hp : decode_commit_payload _ _ _ = Ok _ |- _ =>
    apply decode_commit_payload_Ok in Hp as [Hne Henv] end.
  match type of Hne with ?l <> [] => rename l into ms end.
  split_and!; [| | | |done].
  - by destruct ms.
  - apply Forall_map, Forall_true. by intros.
  - by apply Forall_map.
  - rewrite map_map. cbn [stamp smu_mutation]. by rewrite map_id.
Qed.

(** ** What a seal covers *)

(** The bytes the digest of a commit is computed from. *)
Definition commit_stream (session : SessionId) (seq : Sequence) (ts : N) (prev : Digest)
    (text : string) : list N :=
  hasher (canonical_writer "tea-session-commit-v1" 1 1
    [("session_id", bytes_of (as_str session)); ("sequence", be_bytes 8 seq);
     ("timestamp_ms", be_bytes 8 ts); ("previous_digest", digest_bytes prev);
     ("canonical_mutation_payload", bytes_of text)]).

Lemma be_bytes_inj v1 v2 :
  (v1 <= u64_max)%N -> (v2 <= u64_max)%N -> be_bytes 8 v1 = be_bytes 8 v2 -> v1 = v2.
Proof.
  intros Hv1 Hv2 Heq. apply (f_equal be_value) in Heq.
  rewrite !be_value_be_bytes in Heq; [done|..];
    unfold u64_max in *; change (256 ^ N.of_nat 8)%N with 18446744073709551616%N; lia.
Qed.

Lemma digest_wf_frame d : digest_wf d -> frame_ok (digest_bytes d).
Proof. intros [Hl _]. unfold frame_ok. rewrite Hl. done. Qed.

(** The envelope of a commit as the language represents it. *)
Definition envelope_ok (session : SessionId) (seq : Sequence) (ts : N) (prev : Digest) : Prop :=
  frame_ok (bytes_of (as_str session)) /\ (seq <= u64_max)%N /\ (ts <= u64_max)%N /\ digest_wf prev.

Lemma map_snd_cons_inj {A B} (k k' : A) (v v' : B) l l' :
  (k, v) :: l = (k', v') :: l' -> v = v' /\ l = l'.
Proof. by intros [= -> -> ->]. Qed.

Lemma commit_stream_inj session seq ts prev text session' seq' ts' prev' text' :
  envelope_ok session seq ts prev -> envelope_ok session' seq' ts' prev' ->
  frame_ok (bytes_of text) -> frame_ok (bytes_of text') ->
  commit_stream session seq ts prev text = commit_stream session' seq' ts' prev' text' ->
  session = session' /\ seq = seq' /\ ts = ts' /\ prev = prev' /\ text = text'.
Proof.
  intros (Hs & Hq & Ht & Hp) (Hs' & Hq' & Ht' & Hp') Hx Hx' Heq.
  apply canonical_writer_inj in Heq as (_ & _ & _ & Heq); try done;
    [|repeat constructor; simpl; try done; by apply digest_wf_frame..].
  apply map_snd_cons_inj in Heq as [E1 [E2 [E3 [E4 [E5 _]%map_snd_cons_inj]%map_snd_cons_inj
    ]%map_snd_cons_inj]%map_snd_cons_inj]. apply bytes_of_inj in E1, E5.
  apply be_bytes_inj in E2, E3; try done. destruct session, session', prev, prev'. simpl in *. by subst.
Qed.

Lemma calculate_commit_digest_stream session seq ts prev ms d :
  calculate_commit_digest session seq ts prev ms = Ok d ->
  exists text, to_json_string (encode_commit_payload (map (stamp seq ts prev d) ms)) = Ok text
    /\ d = blake3_hash (commit_stream session seq ts prev text).
Proof.
  unfold calculate_commit_digest. intros (text & Ht%map_err_Ok_inv & [= <-])%obind_Ok_inv.
  exists text. split; [by rewrite (encode_commit_payload_stamp _ _ _ _ digest_zero)|done].
Qed.

(** Two commits with the same digest agree in session, sequence, timestamp, previous digest
    and canonical payload text, or else the two hashed byte streams differ and collide under the
    hash. *)
Theorem commit_digest_covers session seq ts prev ms session' seq' ts' prev' ms' d :
  envelope_ok session seq ts prev -> envelope_ok session' seq' ts' prev' ->
  calculate_commit_digest session seq ts prev ms = Ok d ->
  calculate_commit_digest session' seq' ts' prev' ms' = Ok d ->
  exists text text',
    to_json_string (encode_commit_payload (map (stamp seq ts prev d) ms)) = Ok text
    /\ to_json_string (encode_commit_payload (map (stamp seq' ts' prev' d) ms')) = Ok text'
    /\ (frame_ok (bytes_of text) -> frame_ok (bytes_of text') ->
        (session = session' /\ seq = seq' /\ ts = ts' /\ prev = prev' /\ text = text')
        \/ (commit_stream session seq ts prev text <> commit_stream session' seq' ts' prev' text'
            /\ blake3_hash (commit_stream session seq ts prev text)
               = blake3_hash (commit_stream session' seq' ts' prev' text'))).
Proof.
  intros He He' (text & Ht & Hd)%calculate_commit_digest_stream
    (text' & Ht' & Hd')%calculate_commit_digest_stream.
  exists text, text'. split_and!; [done..|]. intros Hf Hf'.
  destruct (decide (commit_stream session seq ts prev text
                    = commit_stream session' seq' ts' prev' text')) as [Heq|Hne].
  - left. by apply commit_stream_inj.
  - right. split; [done|]. by rewrite <-Hd, <-Hd'.
Qed.

(** ** Headers *)

(** The identity a header of this format carries and the validity of its
    identifiers. *)
Definition header_ok (h : SessionHeader) : Prop :=
  sh_kind h = SESSION_HEADER_KIND /\ sh_format h = SESSION_FORMAT_IDENTITY
  /\ sh_version h = SESSION_FORMAT_VERSION /\ id_ok (sh_session_id h) /\ id_ok (sh_initial_lane h).

Definition header_fields (h : SessionHeader) : Fields :=
  [("kind", JsonString SESSION_HEADER_KIND); ("format", JsonString SESSION_FORMAT_IDENTITY);
   ("version", u64_value (sh_version h)); ("session_id", string_value (sh_session_id h));
   ("created_at_ms", u64_value (sh_created_at_ms h)); ("workspace", JsonString (sh_workspace h));
   ("metadata", JsonObject (sh_metadata h)); ("initial_lane", string_value (sh_initial_lane h));
   ("digest", digest_value (sh_digest h))].

Lemma encode_header_fields {E} h :
  encode_header (E := E) h = Ok (JsonObject (btree_collect (header_fields h))).
Proof. done. Qed.

Lemma calculate_header_digest_digest h d :
  calculate_header_digest (h <| sh_digest := d |>) = calculate_header_digest h.
Proof. by destruct h. Qed.

(** A sealed header encodes and decodes to itself. *)
Lemma sealed_header_decodes h h' :
  header_ok h -> seal_header h = Ok h' ->
  exists v, encode_header (E := Message) h' = Ok v /\ decode_header v = Ok h'.
Proof.
  unfold seal_header. intros Hok (d & Hd%map_err_Ok_inv & [= <-])%obind_Ok_inv.
  assert (digest_wf d) as Hwf.
  { revert Hd. unfold calculate_header_digest.
    intros (text & _ & [= <-])%obind_Ok_inv. apply blake3_wf. }
  rewrite <-(calculate_header_digest_digest h d) in Hd. destruct h.
  destruct Hok as (? & ? & ? & ? & ?). simpl in *. subst.
  eexists. split; [apply encode_header_fields|]. unfold decode_header, header_fields. simpl.
  wire. by rewrite (proj2 (eqb_true d d) eq_refl).
Qed.
End seal_facts.

Local Open Scope N_scope.
#[local] Existing Instance toy_miniserde.
#[local] Existing Instance padded_blake3.
#[local] Existing Instance padded_blake3_law.

Definition first_items : list SessionMutation :=
  [ MutRecord (mk_stored_record 1 7 (OperationStarted (operation_started_new (mk_id "o") lane_main None
      KindRun [user_input] (mk_id "h") (mk_id "p"))));
    MutEntry (mk_stored_entry lane_main (mk_entry_header (mk_id "u") None 1 7) user_body);
    MutLane (mk_stored_lane 1 7 (LaneCreated (mk_id "lane2") None)) ].

Definition sealed_header : SessionHeader := outcome_or (seal_header header) header.
Definition first_snapshot : SessionSnapshot := snapshot_empty sealed_header.
Definition first_commit : StoredCommit :=
  outcome_or (seal_commit first_snapshot 1 7 first_items) (mk_stored_commit 0 0 digest_zero digest_zero []).

Lemma seal_first_header : seal_header header = Ok sealed_header.
Proof. vm_compute. reflexivity. Qed.

Lemma sealed_header_digest_wf : digest_wf (sh_digest sealed_header).
Proof. split; [reflexivity|]. repeat constructor. Qed.

Lemma seal_first_commit : seal_commit first_snapshot 1 7 first_items = Ok first_commit.
Proof. vm_compute. reflexivity. Qed.

Lemma sealed_commit_roundtrip_witness :
  decode_mutation (encode_commit first_commit) (mk_id "s") = Ok first_commit.
Proof.
  apply (sealed_commit_roundtrip first_snapshot 1 7 first_items); [|repeat constructor; done|].
  - exact sealed_header_digest_wf.
  - exact seal_first_commit.
Defined.

Lemma decoded_first_commit : decode_mutation (encode_commit first_commit) (mk_id "s") = Ok first_commit.
Proof. vm_compute. reflexivity. Qed.

Lemma decoded_commit_exact_witness :
  commit_sealed first_commit /\
  calculate_commit_digest (mk_id "s") 1 7 (sh_digest sealed_header) first_items
    = Ok (sc_digest first_commit).
Proof.
  destruct (decoded_commit_exact (encode_commit first_commit) (mk_id "s") first_commit
    decoded_first_commit) as (_ & Hs & _ & Hd & _). by split.
Defined.

Lemma first_digest :
  calculate_commit_digest (mk_id "s") 1 7 (sh_digest sealed_header) first_items
    = Ok (sc_digest first_commit).
Proof. vm_compute. reflexivity. Qed.

(** Two calls of the digest at the first commit: the texts they cover agree. *)
Lemma commit_digest_covers_witness :
  exists text text', text = text' /\
    to_json_string (encode_commit_payload (map (stamp 1 7 (sh_digest sealed_header)
      (sc_digest first_commit)) first_items)) = Ok text.
Proof.
  destruct (commit_digest_covers (mk_id "s") 1 7 (sh_digest sealed_header) first_items
    (mk_id "s") 1 7 (sh_digest sealed_header) first_items (sc_digest first_commit))
    as (t & t' & Ht & Ht' & Hc).
  - split_and!; [done..|exact sealed_header_digest_wf].
  - split_and!; [done..|exact sealed_header_digest_wf].
  - exact first_digest.
  - exact first_digest.
  - exists t, t'. rewrite Ht in Ht'. injection Ht' as <-. split; [|done].
    assert (t = "v") as -> by (vm_compute in Ht; congruence).
    by destruct Hc as [(_ & _ & _ & _ & ?)|[? _]].
Defined.
