(* ===== verification/Store.v ===== *)
(** * tea-session: committing to a session
    ([crates/tea-session/src/store.rs])

    A commit is prepared against the current snapshot (parents, sequence and
    seal), validated, and only then appended.  Validation replays the whole
    prospective prefix through the reducers, except for the one-item commits
    a disposable append index can decide by itself.  [MemorySession] is the
    in-memory session; the clock is an argument of each commit. *)

From stdpp Require Import base gmap sets list strings.
From S2P Require Import Prelude RustStr Json Ids Model Records Snapshot Reduction Agents.
From S2P Require Import SessionErrors WireSeal.

(** ** The append index *)

Record IndexedOperation := mk_indexed_operation {
  io_lane_id : LaneId;
  io_finished : bool;
  io_epoch_ids : list EpochId;
  io_open_epochs : gset EpochId;
}.
#[export] Instance indexed_operation_eta : Eta IndexedOperation := fun o =>
  mk_indexed_operation (io_lane_id o) (io_finished o) (io_epoch_ids o) (io_open_epochs o).

Record SessionAppendIndex := mk_append_index {
  ix_entry_ids : gset EntryId;
  ix_lane_leaves : gmap LaneId (option EntryId);
  ix_provisioned_entries : gmap EntryId ProvisionedEntry;
  ix_operations : gmap OperationId IndexedOperation;
  ix_active_operations : gmap LaneId OperationId;
  ix_epochs : gmap EpochId OperationId;
  ix_step_attempts : gmap (OperationId * EpochId * StepKind) (StepId * N);
  ix_steps : gmap StepId (OperationId * EpochId * StepKind);
  ix_provider_starts : gmap ProviderRequestId OperationId;
  ix_provider_settled : gset ProviderRequestId;
  ix_agent_lanes : gset LaneId;
  ix_incremental_validation_ready : bool;
}.
#[export] Instance append_index_eta : Eta SessionAppendIndex := fun i =>
  mk_append_index (ix_entry_ids i) (ix_lane_leaves i) (ix_provisioned_entries i) (ix_operations i)
    (ix_active_operations i) (ix_epochs i) (ix_step_attempts i) (ix_steps i) (ix_provider_starts i)
    (ix_provider_settled i) (ix_agent_lanes i) (ix_incremental_validation_ready i).

(** [SessionAppendIndex::empty]. *)
Definition index_empty (header : SessionHeader) : SessionAppendIndex := {|
  ix_entry_ids := ∅;
  ix_lane_leaves := {[ sh_initial_lane header := None ]};
  ix_provisioned_entries := ∅;
  ix_operations := ∅;
  ix_active_operations := ∅;
  ix_epochs := ∅;
  ix_step_attempts := ∅;
  ix_steps := ∅;
  ix_provider_starts := ∅;
  ix_provider_settled := ∅;
  ix_agent_lanes := ∅;
  ix_incremental_validation_ready := true;
|}.

(** [SessionAppendIndex::contains_entry]. *)
Definition contains_entry (i : SessionAppendIndex) (entry_id : EntryId) : bool :=
  mem entry_id (ix_entry_ids i).

(** [SessionAppendIndex::lane_leaf]. *)
Definition lane_leaf (i : SessionAppendIndex) (lane_id : LaneId) :
    Outcome Corruption (option EntryId) :=
  ok_or (ix_lane_leaves i !! lane_id) (mk_corruption (fmt ["unknown lane "; as_str lane_id])).

(** [SessionAppendIndex::open_operation]. *)
Definition index_open_operation (i : SessionAppendIndex) (id : OperationId) :
    Outcome Corruption IndexedOperation :=
  match ix_operations i !! id with
  | None => corrupt ["record refers to unknown operation "; as_str id]
  | Some operation =>
      if io_finished operation then corrupt ["record follows terminal operation "; as_str id]
      else Ok operation
  end.

(** The input loop of [validate_lifecycle_record]. *)
Definition validate_input (i : SessionAppendIndex) (record : OperationStartedRecord)
    (seen_inputs : gset EntryId) (provisioned : ProvisionedEntry) :
    Outcome Corruption (gset EntryId) :=
  check? reject_if (mem (pe_id provisioned) (ix_entry_ids i))
    ["operation "; as_str (os_id record); " provisions an already materialized entry ";
     as_str (pe_id provisioned)] in
  check? reject_if (has (pe_id provisioned) (ix_provisioned_entries i)
                    || mem (pe_id provisioned) seen_inputs)
    ["provisioned entry "; as_str (pe_id provisioned); " was accepted more than once"] in
  Ok ({[pe_id provisioned]} ∪ seen_inputs).

(** The epoch named by a record is open for its operation. *)
Definition epoch_is_open (i : SessionAppendIndex) (operation : IndexedOperation)
    (operation_id : OperationId) (epoch_id : EpochId) : bool :=
  (ix_epochs i !! epoch_id ==? Some operation_id) && mem epoch_id (io_open_epochs operation).

(** [SessionAppendIndex::validate_lifecycle_record]. *)
Definition validate_lifecycle_record (i : SessionAppendIndex) (record : LaneRecord) :
    Outcome Corruption bool :=
  match record with
  | OperationStarted record =>
      check? reject_if (has (os_id record) (ix_operations i))
        ["duplicate operation ID "; as_str (os_id record)] in
      let? current_leaf := ok_or (ix_lane_leaves i !! os_lane_id record)
        (mk_corruption (fmt ["operation "; as_str (os_id record); " targets unknown lane ";
           as_str (os_lane_id record)])) in
      check? reject_if (os_source_leaf_id record !=? current_leaf)
        ["operation "; as_str (os_id record); " accepted against stale lane leaf"] in
      check? reject_if (has (os_lane_id record) (ix_active_operations i))
        ["lane "; as_str (os_lane_id record); " has more than one open operation"] in
      check? ofold (validate_input i record) ∅ (os_original_input record) in
      Ok true
  | OperationFinished record =>
      let? operation := index_open_operation i (of_operation_id record) in
      check? reject_if (io_open_epochs operation !=? ∅)
        ["operation "; as_str (of_operation_id record); " finished with an open epoch"] in
      check? reject_if
        (ix_active_operations i !! io_lane_id operation !=? Some (of_operation_id record))
        ["operation "; as_str (of_operation_id record); " was not active on its lane at finish"] in
      Ok true
  | EpochStarted record =>
      let? operation := index_open_operation i (es_operation_id record) in
      check? reject_if (io_open_epochs operation !=? ∅)
        ["operation "; as_str (es_operation_id record); " has more than one open epoch"] in
      check? reject_if (es_epoch_index record !=? as_u32 (length (io_epoch_ids operation)))
        ["epoch "; as_str (es_id record); " has non-consecutive index ";
         show_n (es_epoch_index record)] in
      check? reject_if (has (es_id record) (ix_epochs i))
        ["duplicate epoch ID "; as_str (es_id record)] in
      Ok true
  | EpochFinished record =>
      let? operation := index_open_operation i (ef_operation_id record) in
      check? reject_if (negb (epoch_is_open i operation (ef_operation_id record) (ef_epoch_id record)))
        ["epoch "; as_str (ef_epoch_id record); " is not open for operation ";
         as_str (ef_operation_id record)] in
      Ok true
  | StepAttempted record =>
      let? operation := index_open_operation i (sa_operation_id record) in
      check? reject_if (negb (epoch_is_open i operation (sa_operation_id record) (sa_epoch_id record)))
        ["step "; as_str (sa_id record); " was recorded after its epoch settled"] in
      check? reject_if (has (sa_id record) (ix_steps i))
        ["step ID "; as_str (sa_id record); " was attempted more than once"] in
      let key := (sa_operation_id record, sa_epoch_id record, sa_kind record) in
      let non_consecutive :=
        corrupt ["step "; as_str (sa_id record); " has non-consecutive attempt ";
                 show_n (sa_attempt record)] in
      match ix_step_attempts i !! key with
      | None => if (sa_attempt record =? 1)%N then Ok true else non_consecutive
      | Some (previous_id, previous_attempt) =>
          if (sa_attempt record =? u32_saturating_add previous_attempt 1)%N
             && (sa_id record !=? previous_id) then Ok true
          else if sa_id record ==? previous_id then
            corrupt ["step ID "; as_str (sa_id record); " was attempted more than once"]
          else non_consecutive
      end
  | ProviderRequestStarted record =>
      let? operation := index_open_operation i (prs_operation_id record) in
      check? reject_if
        (negb (epoch_is_open i operation (prs_operation_id record) (prs_epoch_id record)))
        ["provider request "; as_str (prs_request_id record);
         " refers to a closed or invalid epoch"] in
      let owns_step :=
        match ix_steps i !! prs_step_id record with
        | Some (operation_id, epoch_id, _) =>
            (operation_id ==? prs_operation_id record) && (epoch_id ==? prs_epoch_id record)
        | None => false
        end in
      check? reject_if (negb owns_step)
        ["provider request "; as_str (prs_request_id record); " does not name its owning step ";
         as_str (prs_step_id record)] in
      check? reject_if (has (prs_request_id record) (ix_provider_starts i))
        ["duplicate provider request ID "; as_str (prs_request_id record)] in
      Ok true
  | ProviderRequestSettled record =>
      check? index_open_operation i (pst_operation_id record) in
      check? reject_if
        ((ix_provider_starts i !! pst_request_id record !=? Some (pst_operation_id record))
         || mem (pst_request_id record) (ix_provider_settled i))
        ["invalid duplicate or cross-operation provider settlement ";
         as_str (pst_request_id record)] in
      Ok true
  | UsageFact record => check? index_open_operation i (ur_operation_id record) in Ok true
  | CacheMaintenance record => check? index_open_operation i (cm_operation_id record) in Ok true
  | AbortRequested _ | ToolStarted _ | InputAccepted _ | InputWithdrawn _ | InputSettled _
  | ExtensionControlEnqueued _ | ExtensionControlApplied _ | WriteDeferred _
  | HarnessActivationRequested _ => Ok false
  end.

(** The guards of the two [OperationStarted] arms that always replay. *)
Definition needs_graph_binding (i : SessionAppendIndex) (record : OperationStartedRecord) : bool :=
  is_subagent_kind (os_kind record) || mem (os_lane_id record) (ix_agent_lanes i).
Definition dispatches_inputs (record : OperationStartedRecord) : bool :=
  match os_input_ids record with [] => false | _ => true end.

(** [SessionAppendIndex::is_locally_validated_mutation]. *)
Definition is_locally_validated_mutation (i : SessionAppendIndex) (mutation : StoredMutation) :
    Outcome Corruption bool :=
  if negb (ix_incremental_validation_ready i) then Ok false
  else
    match smu_mutation mutation with
    | MutEntry entry =>
        match se_body entry with
        | UserMessage _ =>
            let id := eh_id (se_header entry) in
            check?
              match ix_provisioned_entries i !! id with
              | Some provisioned =>
                  reject_if (pe_body provisioned !=? se_body entry)
                    ["provisioned entry "; as_str id; " materialized with different content"]
              | None => Ok ()
              end in
            Ok true
        | _ => Ok false
        end
    | MutRecord stored =>
        match sr_record stored with
        | OperationStarted record =>
            if needs_graph_binding i record then Ok false
            else if dispatches_inputs record then Ok false
            else validate_lifecycle_record i (OperationStarted record)
        | record => validate_lifecycle_record i record
        end
    | MutLane _ | MutFact _ => Ok false
    end.

(** [SessionAppendIndex::advance_lifecycle_record]. *)
Definition advance_lifecycle_record {E} (i : SessionAppendIndex) (record : LaneRecord) :
    Outcome E SessionAppendIndex :=
  match record with
  | OperationStarted record =>
      Ok (i <| ix_provisioned_entries ::= fun m =>
                 foldl (fun m p => <[pe_id p := p]> m) m (os_original_input record) |>
            <| ix_active_operations ::= <[os_lane_id record := os_id record]> |>
            <| ix_operations ::= <[os_id record := {|
                 io_lane_id := os_lane_id record;
                 io_finished := false;
                 io_epoch_ids := [];
                 io_open_epochs := ∅;
               |}]> |>)
  | OperationFinished record =>
      let? operation := expect (ix_operations i !! of_operation_id record)
        "validated operation finish has a known operation" in
      Ok (i <| ix_operations ::= <[of_operation_id record := operation <| io_finished := true |>]> |>
            <| ix_active_operations ::= delete (io_lane_id operation) |>)
  | EpochStarted record =>
      let i := i <| ix_epochs ::= <[es_id record := es_operation_id record]> |> in
      let? operation := expect (ix_operations i !! es_operation_id record)
        "validated epoch start has a known operation" in
      Ok (i <| ix_operations ::= <[es_operation_id record :=
                 operation <| io_epoch_ids ::= fun l => l ++ [es_id record] |>
                           <| io_open_epochs ::= union {[es_id record]} |>]> |>)
  | EpochFinished record =>
      let? operation := expect (ix_operations i !! ef_operation_id record)
        "validated epoch finish has a known operation" in
      Ok (i <| ix_operations ::= <[ef_operation_id record :=
                 operation <| io_open_epochs ::= fun X => X ∖ {[ef_epoch_id record]} |>]> |>)
  | StepAttempted record =>
      let key := (sa_operation_id record, sa_epoch_id record, sa_kind record) in
      Ok (i <| ix_steps ::= <[sa_id record := key]> |>
            <| ix_step_attempts ::= <[key := (sa_id record, sa_attempt record)]> |>)
  | ProviderRequestStarted record =>
      Ok (i <| ix_provider_starts ::= <[prs_request_id record := prs_operation_id record]> |>)
  | ProviderRequestSettled record =>
      Ok (i <| ix_provider_settled ::= union {[pst_request_id record]} |>)
  | UsageFact _ | CacheMaintenance _ => Ok i
  | AbortRequested _ | ToolStarted _ | InputAccepted _ | InputWithdrawn _ | InputSettled _
  | ExtensionControlEnqueued _ | ExtensionControlApplied _ | WriteDeferred _
  | HarnessActivationRequested _ => Ok i
  end.

(** [SessionAppendIndex::advance]. *)
Definition advance {E} (i : SessionAppendIndex) (mutation : StoredMutation) :
    Outcome E SessionAppendIndex :=
  if negb (ix_incremental_validation_ready i) then Ok i
  else
    match is_locally_validated_mutation i mutation with
    | Err _ => Ok (i <| ix_incremental_validation_ready := false |>)
    | Panic r => Panic r
    | Ok _ =>
        match smu_mutation mutation with
        | MutEntry entry =>
            Ok (i <| ix_entry_ids ::= union {[eh_id (se_header entry)]} |>
                  <| ix_lane_leaves ::= <[se_lane_id entry := Some (eh_id (se_header entry))]> |>)
        | MutLane stored =>
            let '(LaneCreated lane_id base_leaf_id) := sl_mutation stored in
            Ok (i <| ix_lane_leaves ::= <[lane_id := base_leaf_id]> |>)
        | MutRecord stored => advance_lifecycle_record i (sr_record stored)
        | MutFact stored =>
            match sf_fact stored with
            | AgentSpawned spawn => Ok (i <| ix_agent_lanes ::= union {[as_lane_id spawn]} |>)
            | _ => Ok i
            end
        end
    end.

(** [SessionAppendIndex::from_snapshot]. *)
Definition index_from_snapshot {E} (snapshot : SessionSnapshot) : Outcome E SessionAppendIndex :=
  let? ms := mutations snapshot in
  ofold advance (index_empty (ss_header snapshot)) ms.

(** ** Preparing a commit *)

(** The locals of [prepare_commit]. *)
Record Batch := mk_batch {
  ba_lane_leaves : gmap LaneId (option EntryId);
  ba_entry_ids : gset EntryId;
  ba_items : list SessionMutation;
}.
#[export] Instance batch_eta : Eta Batch := fun b =>
  mk_batch (ba_lane_leaves b) (ba_entry_ids b) (ba_items b).

Section store.
Context `{Miniserde} `{Blake3}.

(** The loop body of [prepare_commit]. *)
Definition prepare_item (append_index : SessionAppendIndex) (sequence : Sequence) (timestamp_ms : N)
    (b : Batch) (item : SessionCommitItem) : Outcome SessionError Batch :=
  match item with
  | ItemEntry lane_id entry =>
      let id := pe_id entry in
      check?
        (if contains_entry append_index id || mem id (ba_entry_ids b)
         then Err (InvalidInput [Lit "entry ID "; Lit (as_str id); Lit " already materialized"])
         else Ok ()) in
      let? parent_id :=
        match ba_lane_leaves b !! lane_id with
        | Some leaf_id => Ok leaf_id
        | None => map_err CorruptionError (lane_leaf append_index lane_id)
        end in
      Ok (mk_batch (<[lane_id := Some id]> (ba_lane_leaves b)) ({[id]} ∪ ba_entry_ids b)
            (ba_items b ++ [MutEntry (mk_stored_entry lane_id
               (mk_entry_header id parent_id sequence timestamp_ms) (pe_body entry))]))
  | ItemRecord record =>
      Ok (b <| ba_items ::= fun l => l ++ [MutRecord (mk_stored_record sequence timestamp_ms record)] |>)
  | ItemLane mutation =>
      let '(LaneCreated lane_id base_leaf_id) := mutation in
      Ok (b <| ba_lane_leaves ::= <[lane_id := base_leaf_id]> |>
            <| ba_items ::= fun l => l ++ [MutLane (mk_stored_lane sequence timestamp_ms mutation)] |>)
  | ItemFact fact =>
      Ok (b <| ba_items ::= fun l => l ++ [MutFact (mk_stored_fact sequence timestamp_ms fact)] |>)
  end.

(** [prepare_commit]. *)
Definition prepare_commit (snapshot : SessionSnapshot) (append_index : SessionAppendIndex)
    (commit : SessionCommit) (timestamp_ms : N) : Outcome SessionError StoredCommit :=
  let sequence := next_sequence snapshot in
  let? b := ofold (prepare_item append_index sequence timestamp_ms) (mk_batch ∅ ∅ [])
              (commit_items commit) in
  seal_commit snapshot sequence timestamp_ms (ba_items b).

(** ** Validation *)

Definition push_lane (lanes : list LaneId) (lane_id : LaneId) : list LaneId :=
  if bool_decide (lane_id ∈ lanes) then lanes else lanes ++ [lane_id].

(** [snapshot_lanes]. *)
Definition snapshot_lanes (snapshot : SessionSnapshot) : list LaneId :=
  foldl (fun lanes stored => let '(LaneCreated lane_id _) := sl_mutation stored in
                             push_lane lanes lane_id)
    [sh_initial_lane (ss_header snapshot)] (ss_lane_mutations snapshot).

(** [validate_snapshot]. *)
Definition validate_snapshot (snapshot : SessionSnapshot) : Outcome Corruption unit :=
  check? ofold (fun _ lane => check? reduce_lane_ref snapshot lane in Ok ()) ()
    (snapshot_lanes snapshot) in
  check? reduce_agent_graph snapshot in
  Ok ().

(** [validate_snapshot_commit]. *)
Definition validate_snapshot_commit (snapshot : SessionSnapshot) (appended : StoredCommit) :
    Outcome Corruption unit :=
  let lanes := foldl (fun lanes item =>
      match smu_mutation item with
      | MutLane stored => let '(LaneCreated lane_id _) := sl_mutation stored in push_lane lanes lane_id
      | _ => lanes
      end) (snapshot_lanes snapshot) (sc_items appended) in
  check? ofold (fun _ lane => check? reduce_lane_ref_with_commit snapshot appended lane in Ok ()) ()
    lanes in
  check? reduce_agent_graph_ref_with_commit snapshot appended in
  Ok ().

(** [validate_prepared_commit]. *)
Definition validate_prepared_commit (snapshot : SessionSnapshot) (append_index : SessionAppendIndex)
    (appended : StoredCommit) : Outcome Corruption unit :=
  let? local :=
    match sc_items appended with
    | [item] => is_locally_validated_mutation append_index item
    | _ => Ok false
    end in
  if local then Ok () else validate_snapshot_commit snapshot appended.

(** [preview_session_commit]. *)
Definition preview_session_commit (snapshot : SessionSnapshot) (commit : SessionCommit)
    (lane : LaneId) (timestamp_ms : N) : Outcome SessionError LaneReduction :=
  let? append_index := index_from_snapshot snapshot in
  let? stored := prepare_commit snapshot append_index commit timestamp_ms in
  check? map_err CorruptionError (validate_snapshot_commit snapshot stored) in
  map_err CorruptionError (reduce_lane_ref_with_commit snapshot stored lane).

(** ** The in-memory session *)

Record MemorySession := mk_memory_session {
  mem_snapshot : SessionSnapshot;
  mem_append_index : SessionAppendIndex;
  mem_fault : option string;
}.
#[export] Instance memory_session_eta : Eta MemorySession := fun m =>
  mk_memory_session (mem_snapshot m) (mem_append_index m) (mem_fault m).

(** [MemorySession::create_with_clock]. *)
Definition memory_create (header : SessionHeader) : Outcome SessionError MemorySession :=
  check?
    (if negb (String.eqb (sh_kind header) SESSION_HEADER_KIND)
        || negb (String.eqb (sh_format header) SESSION_FORMAT_IDENTITY)
        || negb (sh_version header =? SESSION_FORMAT_VERSION)%N
     then Err (InvalidInput [Lit "new sessions require a v1 session header"]) else Ok ()) in
  check?
    (if str_contains nul (sh_workspace header)
     then Err (InvalidInput [Lit "workspace identity contains a NUL byte"]) else Ok ()) in
  let? header := seal_header header in
  Ok (mk_memory_session (snapshot_empty header) (index_empty header) None).

(** [MemorySession::fault_for_test]. *)
Definition fault_for_test (session : MemorySession) (message : string) : MemorySession :=
  session <| mem_fault := Some message |>.

(** [MemorySession::ensure_writable]. *)
Definition ensure_writable (session : MemorySession) : Outcome SessionError unit :=
  match mem_fault session with
  | Some message => Err (Faulted [Lit message])
  | None => Ok ()
  end.

(** [MemorySession::commit] up to the first change of the session: the stored
    commit and the advanced index. *)
Definition memory_accept (session : MemorySession) (commit : SessionCommit) (now_ms : N) :
    Outcome SessionError (StoredCommit * SessionAppendIndex) :=
  check? ensure_writable session in
  let? stored := prepare_commit (mem_snapshot session) (mem_append_index session) commit now_ms in
  check? map_err CorruptionError
    (validate_prepared_commit (mem_snapshot session) (mem_append_index session) stored) in
  let? append_index := ofold advance (mem_append_index session) (sc_items stored) in
  Ok (stored, append_index).

(** [MemorySession::commit]: the result and the session afterwards. *)
Definition memory_commit (session : MemorySession) (commit : SessionCommit) (now_ms : N) :
    Outcome SessionError StoredCommit * MemorySession :=
  match memory_accept session commit now_ms with
  | Ok (stored, append_index) =>
      (Ok stored, session <| mem_append_index := append_index |>
                          <| mem_snapshot ::= fun s => push_commit s stored |>)
  | Err e => (Err e, session)
  | Panic r => (Panic r, session)
  end.
End store.

(** [take_single_entry] and its siblings. *)
Definition take_single_entry (stored : StoredCommit) : Outcome SessionError StoredEntry :=
  match smu_mutation <$> head (sc_items stored) with
  | Some (MutEntry entry) => Ok entry
  | _ => Err (CorruptionError (mk_corruption
           "session writer returned a non-entry for a one-item entry commit"))
  end.
Definition take_single_record (stored : StoredCommit) : Outcome SessionError StoredRecord :=
  match smu_mutation <$> head (sc_items stored) with
  | Some (MutRecord record) => Ok record
  | _ => Err (CorruptionError (mk_corruption
           "session writer returned a non-record for a one-item record commit"))
  end.
Definition take_single_lane (stored : StoredCommit) : Outcome SessionError StoredLaneMutation :=
  match smu_mutation <$> head (sc_items stored) with
  | Some (MutLane lane) => Ok lane
  | _ => Err (CorruptionError (mk_corruption
           "session writer returned a non-lane for a one-item lane commit"))
  end.
Definition take_single_fact (stored : StoredCommit) : Outcome SessionError StoredFact :=
  match smu_mutation <$> head (sc_items stored) with
  | Some (MutFact fact) => Ok fact
  | _ => Err (CorruptionError (mk_corruption
           "session writer returned a non-fact for a one-item fact commit"))
  end.

(** ** The default methods of [SessionWriter] *)

Section writer.
Context `{Miniserde} `{Blake3}.

(** Commit one item and take the single stored value out of the result. *)
Definition append_one {A} (session : MemorySession) (item : SessionCommitItem)
    (take : StoredCommit -> Outcome SessionError A) (now_ms : N) :
    Outcome SessionError A * MemorySession :=
  let '(result, session) := memory_commit session (commit_one item) now_ms in
  (obind result take, session).

Definition append_entry (session : MemorySession) (lane_id : LaneId) (entry : ProvisionedEntry) :=
  append_one session (ItemEntry lane_id entry) take_single_entry.
Definition append_record (session : MemorySession) (record : LaneRecord) :=
  append_one session (ItemRecord record) take_single_record.
Definition append_lane_mutation (session : MemorySession) (mutation : LaneMutation) :=
  append_one session (ItemLane mutation) take_single_lane.
Definition append_fact (session : MemorySession) (fact : SessionFact) :=
  append_one session (ItemFact fact) take_single_fact.
End writer.
