(* ===== verification/StoreIndex.v ===== *)
(** * The append index is a projection of the reducer state

    On every log the reducer accepts, the disposable index of [Store] holds
    exactly the projection [index_of] of the reducer's state; on the records
    of its narrow lifecycle subset it accepts what the reducer accepts; and
    it never panics, whatever the log. *)

From stdpp Require Import base gmap sets list strings sorting.
From S2P Require Import Prelude RustStr Json Ids Decimal DecimalProofs Model Records Snapshot Reduction.
From S2P Require Import ReductionInv ReductionOps ReductionSafety Agents SessionErrors WireSeal Store.

(** ** The projection *)

Definition index_operation (op : OperationState) : IndexedOperation :=
  mk_indexed_operation (op_lane_id op) (op_finished op) (op_epoch_ids op) (op_open_epochs op).

Definition index_of (s : ReducerState) (agent_lanes : gset LaneId) : SessionAppendIndex := {|
  ix_entry_ids := dom (entries s);
  ix_lane_leaves := lane_leaves s;
  ix_provisioned_entries := provisioned_entries s;
  ix_operations := index_operation <$> operations s;
  ix_active_operations := active_operations s;
  ix_epochs := epochs s;
  ix_step_attempts := step_attempts s;
  ix_steps := steps s;
  ix_provider_starts := prs_operation_id <$> provider_starts s;
  ix_provider_settled := dom (provider_settled s);
  ix_agent_lanes := agent_lanes;
  ix_incremental_validation_ready := true;
|}.

(** The lanes the spawn facts of a log bind to agents. *)
Definition agent_lane (m : StoredMutation) : option LaneId :=
  match smu_mutation m with
  | MutFact stored =>
      match sf_fact stored with AgentSpawned spawn => Some (as_lane_id spawn) | _ => None end
  | _ => None
  end.
Definition add_agent_lane (X : gset LaneId) (m : StoredMutation) : gset LaneId :=
  match agent_lane m with Some lane => {[lane]} ∪ X | None => X end.
Definition agent_lanes_of (ms : list StoredMutation) : gset LaneId := foldl add_agent_lane ∅ ms.

(** ** Reading the projection *)

Lemma has_fmap `{Countable K} {A B} (h : A -> B) (m : gmap K A) k : has k (h <$> m) = has k m.
Proof. unfold has. rewrite lookup_fmap. by destruct (m !! k). Qed.

Lemma mem_dom `{Countable K} {A} (m : gmap K A) k : mem k (dom m) = has k m.
Proof.
  destruct (has k m) eqn:Hk; bool_inv.
  - by apply mem_true, elem_of_dom.
  - by apply mem_false, not_elem_of_dom.
Qed.

Lemma has_insert `{Countable K} {A} (m : gmap K A) k k' v :
  has k (<[k' := v]> m) = bool_decide (k = k') || has k m.
Proof.
  unfold has. case_bool_decide as Hk; [by rewrite Hk, lookup_insert_eq|].
  by rewrite lookup_insert_ne by done.
Qed.

Lemma mem_union `{Countable K} (X : gset K) k k' :
  mem k ({[k']} ∪ X) = bool_decide (k = k') || mem k X.
Proof.
  destruct (mem k X) eqn:Hk; [|case_bool_decide]; bool_inv; simpl; rewrite ?orb_true_r;
    (apply mem_true || apply mem_false); set_solver.
Qed.

Lemma is_ok_reject {A} c pieces (k : unit -> Outcome Corruption A) :
  is_ok (obind (reject_if c pieces) k) = negb c && is_ok (k ()).
Proof. by destruct c. Qed.

Lemma is_ok_ok_or {E A B} (o : option A) (e : E) (k : A -> Outcome E B) :
  is_ok (obind (ok_or o e) k) = match o with Some a => is_ok (k a) | None => false end.
Proof. by destruct o. Qed.

Lemma index_open_operation_of s X id :
  index_open_operation (index_of s X) id
  = obind (open_operation (operations s) id) (fun op => Ok (index_operation op)).
Proof.
  unfold index_open_operation, open_operation, corrupt. simpl. rewrite lookup_fmap.
  destruct (operations s !! id) as [op|]; simpl; [|done]. by destruct (op_finished op).
Qed.

Lemma is_ok_reject_if c pieces : is_ok (reject_if c pieces) = negb c.
Proof. by destruct c. Qed.

Lemma epoch_is_open_of s X op operation_id epoch_id :
  epoch_is_open (index_of s X) (index_operation op) operation_id epoch_id
  = (epochs s !! epoch_id ==? Some operation_id) && mem epoch_id (op_open_epochs op).
Proof. done. Qed.

Lemma eqb_Some `{EqDecision A} (a b : A) : (Some a ==? Some b) = (a ==? b).
Proof. apply bool_decide_ext. naive_solver. Qed.

Create Rewrite HintDb index.
#[export] Hint Rewrite @has_fmap @mem_dom @is_ok_reject @is_ok_ok_or @is_ok_obind_Ok
  index_open_operation_of @obind_assoc @lookup_fmap @negb_involutive is_ok_reject_if
  epoch_is_open_of @eqb_Some : index.

(** ** Provisioned inputs *)

Lemma provision_fold_exact record s l s' :
  ofold (provision_one record) s l = Ok s' ->
  s' = s <| provisioned_entries ::= fun m => foldl (fun m p => <[pe_id p := p]> m) m l |>.
Proof.
  revert s. induction l as [|p l IH]; intros s; simpl.
  - intros [= <-]. by destruct s.
  - intros (t & Ht & Hf)%obind_Ok_inv. unfold provision_one in Ht. reducer_inv.
    by rewrite (IH _ Hf).
Qed.

Lemma validate_inputs_agree record s X l t seen :
  entries t = entries s ->
  (forall id, has id (provisioned_entries t) = has id (provisioned_entries s) || mem id seen) ->
  is_ok (ofold (validate_input (index_of s X) record) seen l)
  = is_ok (ofold (provision_one record) t l).
Proof.
  revert t seen. induction l as [|p l IH]; intros t seen He Hp; simpl; [done|].
  unfold validate_input at 1, provision_one at 1. autorewrite with index. simpl.
  autorewrite with index. rewrite He. f_equal. rewrite <-Hp. unfold has at 1.
  destruct (provisioned_entries t !! pe_id p) as [q|] eqn:Hq; simpl; [by case_match|].
  apply IH; [done|]. intros id. simpl. rewrite has_insert, mem_union, Hp.
  by destruct (bool_decide _), (has _ _), (mem _ _).
Qed.

(** ** Acceptance *)

Section acceptance.
Context `{Miniserde} `{Blake3}.

(** The records the index decides by itself. *)
Definition lifecycle_record (record : LaneRecord) : bool :=
  match record with
  | OperationStarted record => negb (dispatches_inputs record)
  | OperationFinished _ | EpochStarted _ | EpochFinished _ | StepAttempted _
  | ProviderRequestStarted _ | ProviderRequestSettled _ | UsageFact _ | CacheMaintenance _ => true
  | _ => false
  end.

Lemma operation_started_agrees s X record :
  os_input_ids record = [] ->
  is_ok (validate_lifecycle_record (index_of s X) (OperationStarted record))
  = is_ok (on_operation_started s record).
Proof.
  intros Hids. unfold on_operation_started. rewrite Hids. cbn [validate_lifecycle_record].
  autorewrite with index. simpl. autorewrite with index. f_equal.
  destruct (lane_leaves s !! os_lane_id record); [|done]. autorewrite with index. simpl.
  f_equal. f_equal. apply validate_inputs_agree; [done|].
  intros id. simpl. by rewrite (proj2 (mem_false id ∅)), orb_false_r by set_solver.
Qed.

Lemma lifecycle_agrees s X k stored :
  lifecycle_record (sr_record stored) = true ->
  (forall record, sr_record stored = UsageFact record ->
     totals_ok s /\ cost_ok (ur_usage record)) ->
  is_ok (validate_lifecycle_record (index_of s X) (sr_record stored))
  = is_ok (on_record s k stored).
Proof.
  intros Hl Hc. unfold on_record. destruct (sr_record stored) as [r|r|r|r|r|r|r|r| | | | | | | | |r|r];
    try discriminate Hl; cbn [validate_lifecycle_record]; unfold_record_handlers.
  1: { apply operation_started_agrees. revert Hl. simpl. unfold dispatches_inputs. by destruct (os_input_ids r). }
  all: rewrite index_open_operation_of, obind_assoc.
  all: match goal with |- context [open_operation ?a ?b] => destruct (open_operation a b) as [op| |] end; simpl; try done.
  all: autorewrite with index; simpl; rewrite ?negb_orb, ?negb_involutive, <-?andb_assoc; try done.
  - do 2 f_equal. destruct (step_attempts s !! _) as [[??]|]; by repeat case_match.
  - rewrite lookup_fmap. destruct (provider_starts s !! _) as [start|]; simpl; [|done].
    rewrite eqb_Some, is_ok_reject, negb_orb, negb_involutive. simpl. by rewrite andb_true_r.
  - destruct (Hc r eq_refl) as [Ht Hu]. destruct (usage_add_total (E := Corruption)
      (default usage_default (usage_by_lane s !! op_lane_id op)) (ur_usage r)) as (total & -> & _);
      [|done|done].
    destruct (usage_by_lane s !! op_lane_id op) eqn:Hlane; [by eapply Ht|done].
Qed.

(** ** Advancing *)

Lemma fmap_index_update (ops : gmap OperationId OperationState) id op op' :
  ops !! id = Some op -> index_operation op' = index_operation op ->
  index_operation <$> <[id := op']> ops = index_operation <$> ops.
Proof.
  intros Hop Heq. rewrite fmap_insert, Heq. apply insert_id. by rewrite lookup_fmap, Hop.
Qed.

Lemma advance_record_of {E} s X k stored s' :
  on_record s k stored = Ok s' ->
  @advance_lifecycle_record E (index_of s X) (sr_record stored) = Ok (index_of s' X).
Proof.
  unfold on_record. destruct (sr_record stored) as [r|r|r|r|r|r|r|r|r|r|r|r|r|r|r|r|r|r].
  1: { unfold on_operation_started. intros Hok. reducer_inv;
       match goal with Hp : ofold (provision_one _) _ _ = Ok _ |- _ =>
         apply provision_fold_exact in Hp; subst end;
       try match goal with Hd : ofold (dispatch_one _) _ _ = Ok _ |- _ =>
         apply dispatch_fold in Hd as (m' & -> & _);
           [|intros [a b] Hin; simpl; match goal with Hids : os_input_ids r = ?l |- _ =>
               rewrite Hids; by apply (elem_of_zip_l a b l (os_original_input r)) end] end;
       unfold index_of; simpl; by rewrite fmap_insert. }
  all: unfold_record_handlers; intros; reducer_inv; unfold index_of; simpl;
    rewrite ?lookup_fmap, ?fmap_insert, ?dom_insert_L;
    repeat match goal with Hl : operations _ !! _ = Some _ |- _ => rewrite ?Hl; clear Hl end; simpl; try done.
Qed.

(** What the reducer accepts, the index does not reject. *)
Lemma lifecycle_accepts s X k stored s' :
  on_record s k stored = Ok s' ->
  match sr_record stored with OperationStarted r => dispatches_inputs r = false | _ => True end ->
  is_ok (validate_lifecycle_record (index_of s X) (sr_record stored)) = true.
Proof.
  intros Hok Hin. destruct (lifecycle_record (sr_record stored)) eqn:Hl.
  - destruct (sr_record stored) as [r|r|r|r|r|r|r|r| | | | | | | | |r|r] eqn:Hr; try discriminate Hl.
    all: try (rewrite <-Hr, (lifecycle_agrees s X k), Hok by (rewrite Hr; done); done).
    unfold on_record in Hok. rewrite Hr in Hok. revert Hok. unfold on_usage. simpl.
    rewrite index_open_operation_of. by destruct (open_operation _ _).
  - destruct (sr_record stored); try done. simpl in Hl. by rewrite Hin in Hl.
Qed.

Lemma accepted_not_rejected s X k m s' :
  apply_mutation s k (smu_mutation m) = Ok s' ->
  is_ok (is_locally_validated_mutation (index_of s X) m) = true.
Proof.
  unfold is_locally_validated_mutation. simpl.
  destruct (smu_mutation m) as [e|r|l|f'] eqn:Hm; simpl; intros Hok; [|..|done|done].
  - apply on_entry_Ok in Hok as (_ & _ & _ & Hp & _). destruct (se_body e) eqn:Hb; try done.
    destruct (provisioned_entries s !! eh_id (se_header e)) as [p|] eqn:Hpe; [|done].
    specialize (Hp p eq_refl). by rewrite Hp.
  - pose proof (lifecycle_accepts s X k r s' Hok) as Ha.
    destruct (sr_record r) as [o| | | | | | | | | | | | | | | | |]; try by apply Ha.
    destruct (needs_graph_binding _ o); [done|]. destruct (dispatches_inputs o); [done|]. by apply Ha.
Qed.

Lemma advance_of {E} s X k m s' :
  apply_mutation s k (smu_mutation m) = Ok s' ->
  @advance E (index_of s X) m
  = Ok (index_of s' (match agent_lane m with Some lane => {[lane]} ∪ X | None => X end)).
Proof.
  intros Hok. pose proof (accepted_not_rejected s X k m s' Hok) as Hv. unfold advance, agent_lane.
  destruct (is_locally_validated_mutation (index_of s X) m) as [b| |]; [|done..]. clear Hv. simpl.
  destruct (smu_mutation m) as [e|r|[seq ts [lane base]]|f'] eqn:Hm; simpl in Hok |- *.
  - apply on_entry_Ok in Hok as (_ & _ & _ & _ & requests & ops & -> & Ha). unfold index_of. simpl.
    rewrite dom_insert_L. destruct (active_operations s !! se_lane_id e); [|by rewrite Ha].
    destruct Ha as (op & Hop & ->). by rewrite (fmap_index_update _ _ op) by done.
  - by apply (advance_record_of s X k).
  - by apply on_lane_created_Ok in Hok as (_ & _ & ->).
  - destruct (sf_fact f') eqn:Hf; unfold on_fact in Hok; rewrite Hf in Hok; revert Hok;
      unfold_fact_handlers; intros; reducer_inv; done.
Qed.

Lemma advance_step_of {E} s X m s' :
  reduce_step s m = Ok s' ->
  @advance E (index_of s X) m
  = Ok (index_of s' (match agent_lane m with Some lane => {[lane]} ∪ X | None => X end)).
Proof.
  intros (_ & ready & _ & Hok)%reduce_step_Ok. by apply (advance_of (E := E) _ X) in Hok.
Qed.

Lemma advance_fold_of {E} s X ms s' :
  ofold reduce_step s ms = Ok s' ->
  @ofold E _ _ advance (index_of s X) ms = Ok (index_of s' (foldl add_agent_lane X ms)).
Proof.
  revert s X. induction ms as [|m ms IH]; intros s X; simpl; [by intros [= <-]|].
  intros (s1 & Hs1 & Hms)%obind_Ok_inv. rewrite (advance_step_of _ X _ _ Hs1). simpl. by apply IH.
Qed.

(** C9: On every log the lane reducer accepts, advancing the empty append index over the log
    yields the projection of the reducer's state, with incremental validation still enabled. *)
Theorem append_index_tracks_reducer E header ms s :
  reduce_all header ms = Ok s ->
  @ofold E _ _ advance (index_empty header) ms = Ok (index_of s (agent_lanes_of ms)).
Proof. apply (advance_fold_of (initial_state header) ∅). Qed.
End acceptance.

(** ** Arbitrary logs *)

Lemma index_open_operation_Ok i id op :
  index_open_operation i id = Ok op -> ix_operations i !! id = Some op /\ io_finished op = false.
Proof.
  unfold index_open_operation, corrupt. destruct (ix_operations i !! id) as [o|]; [|done].
  destruct (io_finished o) eqn:Hf; [done|]. by intros [= <-].
Qed.

Lemma index_open_operation_no_panic i id r : index_open_operation i id <> Panic r.
Proof. unfold index_open_operation, corrupt. by repeat case_match. Qed.

Lemma validate_inputs_no_panic i record seen l r :
  ofold (validate_input i record) seen l <> Panic r.
Proof.
  apply ofold_unit_no_panic. intros s x r' Hp. unfold validate_input in Hp. panic_inv.
Qed.

Lemma validate_lifecycle_no_panic i record r : validate_lifecycle_record i record <> Panic r.
Proof.
  destruct record; simpl; intros Hp; panic_inv;
    try (by apply validate_inputs_no_panic in Hp); try (by apply index_open_operation_no_panic in Hp).
Qed.

Lemma is_locally_validated_no_panic i m r : is_locally_validated_mutation i m <> Panic r.
Proof.
  unfold is_locally_validated_mutation. intros Hp. panic_inv; by apply validate_lifecycle_no_panic in Hp.
Qed.

Lemma advance_total {E} i m : exists i', @advance E i m = Ok i'.
Proof.
  unfold advance. destruct (ix_incremental_validation_ready i) eqn:Hready; simpl; [|eauto].
  destruct (is_locally_validated_mutation i m) as [b|e|r] eqn:Hv; [|eauto|].
  2: { by apply is_locally_validated_no_panic in Hv. }
  destruct (smu_mutation m) as [e|stored|[seq ts [lane base]]|stored] eqn:Hm; [eauto| |eauto|].
  2: { destruct (sf_fact stored); eauto. }
  unfold is_locally_validated_mutation in Hv. rewrite Hready, Hm in Hv. simpl in Hv.
  destruct (sr_record stored) as [o|o|o|o|o|o|o|o|o|o|o|o|o|o|o|o|o|o]; simpl in *; eauto.
  all: apply obind_Ok_inv in Hv as (op & [Hop _]%index_open_operation_Ok & _); rewrite Hop; simpl; eauto.
Qed.

(** The index can be rebuilt from any log without panicking. *)
Theorem append_index_returns E header ms :
  exists i, @ofold E _ _ advance (index_empty header) ms = Ok i.
Proof.
  destruct (ofold_total (fun _ => True) (@advance E) (index_empty header) ms) as (i & Hi & _); eauto.
  intros i m _ _. destruct (advance_total (E := E) i m) as [i' ->]. eauto.
Qed.
