(* ===== verification/StoreFast.v ===== *)
(** * The fast path of the append index, for lanes

    A one-item commit the index validates by itself is one the lane reducer
    accepts, and every lane that reduced before still reduces afterwards,
    provided the committed user message does not take an entry identity that
    a tool intent or a harness activation has reserved. *)

From stdpp Require Import base gmap sets list strings sorting.
From S2P Require Import Prelude RustStr Json Ids Decimal DecimalProofs Model Records Snapshot Reduction.
From S2P Require Import ReductionInv ReductionOps ReductionSafety ReductionHistory Agents SessionErrors WireSeal Store StoreIndex.

(** ** Loops of checks *)

Lemma ofold_checks {E A} (h : A -> Outcome E unit) l :
  ofold (fun _ x => h x) () l = Ok () <-> Forall (fun x => h x = Ok ()) l.
Proof.
  induction l as [|x l IH]; simpl; [by split|]. rewrite Forall_cons, <-IH.
  destruct (h x) as [[]| |]; simpl; naive_solver.
Qed.

Lemma ofold_ext_in {E A S} (h k : S -> A -> Outcome E S) l s :
  (forall s x, x ∈ l -> h s x = k s x) -> ofold h s l = ofold k s l.
Proof.
  revert s. induction l as [|x l IH]; intros s Hext; simpl; [done|]. rewrite Hext by set_solver.
  destruct (k s x); simpl; [|done..]. apply IH. set_solver.
Qed.

(** ** Validated items *)

(** An entry or record the index can decide. *)
Inductive fast_mutation : SessionMutation -> Prop :=
| fast_user entry message : se_body entry = UserMessage message -> fast_mutation (MutEntry entry)
| fast_record stored : lifecycle_record (sr_record stored) = true -> fast_mutation (MutRecord stored).

(** What preparing a commit guarantees of an entry. *)
Definition entry_prepared (s : ReducerState) (m : SessionMutation) : Prop :=
  match m with
  | MutEntry e => lane_leaves s !! se_lane_id e = Some (eh_parent_id (se_header e))
                  /\ entries s !! eh_id (se_header e) = None
  | _ => True
  end.

(** Entry identities that are promised to a later tool result or harness
    revision. *)
Definition reserved (s : ReducerState) (id : EntryId) : Prop :=
  id ∈ map (fun start => ts_result_entry_id start.2) (tool_starts s)
  \/ id ∈ map ha_revision_entry_id (activation_requests s).
Definition takes_reserved (s : ReducerState) (m : SessionMutation) : Prop :=
  match m with MutEntry e => reserved s (eh_id (se_header e)) | _ => False end.

Lemma locally_validated_fast i m :
  is_locally_validated_mutation i m = Ok true -> fast_mutation (smu_mutation m).
Proof.
  unfold is_locally_validated_mutation. intros Hv.
  destruct (ix_incremental_validation_ready i); [|done]. simpl in Hv.
  destruct (smu_mutation m) as [e|stored|l|f']; [| |done..].
  - destruct (se_body e) eqn:Hb; try done. by econstructor.
  - constructor. destruct (sr_record stored) as [o|o|o|o|o|o|o|o|o|o|o|o|o|o|o|o|o|o]; try done.
    simpl in *. destruct (needs_graph_binding i o); [done|]. by destruct (dispatches_inputs o).
Qed.

Section fast.
Context `{Miniserde} `{Blake3}.

Lemma fast_record_accepted s X k m stored :
  totals_ok s -> smu_mutation m = MutRecord stored -> costs_ok (MutRecord stored) ->
  is_locally_validated_mutation (index_of s X) m = Ok true ->
  is_ok (on_record s k stored) = true.
Proof.
  intros Ht Hm Hc Hv. pose proof (locally_validated_fast _ _ Hv) as Hl. rewrite Hm in Hl.
  inversion Hl as [|? Hlr]; subst. rewrite <-(lifecycle_agrees s X k); [|done|].
  - unfold is_locally_validated_mutation in Hv. rewrite Hm in Hv. cbn [index_of ix_incremental_validation_ready negb] in Hv.
    destruct (sr_record stored) as [o|o|o|o|o|o|o|o|o|o|o|o|o|o|o|o|o|o]; try by rewrite Hv.
    destruct (needs_graph_binding _ o), (dispatches_inputs o); try done. by rewrite Hv.
  - intros record Hr. split; [done|]. unfold costs_ok in Hc. by rewrite Hr in Hc.
Qed.

Lemma fast_entry_accepted s X m e :
  state_safe s -> smu_mutation m = MutEntry e -> entry_prepared s (MutEntry e) ->
  is_locally_validated_mutation (index_of s X) m = Ok true ->
  is_ok (on_entry s e) = true.
Proof.
  intros (Hl & Hf & _) Hm [Hleaf Hnone] Hv.
  unfold is_locally_validated_mutation in Hv. rewrite Hm in Hv. simpl in Hv.
  destruct (se_body e) eqn:Hb; try done. apply obind_Ok_inv in Hv as ([] & Hp & _).
  unfold on_entry. rewrite Hb. simpl. rewrite Hleaf. simpl.
  rewrite (proj2 (eqb_true _ _) eq_refl). simpl. rewrite (proj2 (has_false _ _) Hnone). simpl.
  rewrite Hp. simpl.
  assert (match eh_parent_id (se_header e) with
          | Some p => reject_if (negb (has p (entries s)))
              ["entry "; as_str (eh_id (se_header e)); " refers to missing parent "; as_str p]
          | None => Ok () end = Ok ()) as ->.
  { destruct (eh_parent_id (se_header e)) as [p|]; [|done].
    by rewrite (proj2 (has_true _ _) (forest_leaf _ _ Hf _ _ Hleaf)). }
  simpl. destruct (active_operations s !! se_lane_id e) as [o|] eqn:Ha; [|done].
  apply (lc_active _ _ _ _ _ Hl) in Ha as (op & -> & _). done.
Qed.

(** The lane reducer accepts what the index validates. *)
Lemma fast_step s X m :
  state_safe s -> costs_ok (smu_mutation m) -> entry_prepared s (smu_mutation m) ->
  smu_seq m = u64_saturating_add (observed_sequence s) 1 ->
  is_locally_validated_mutation (index_of s X) m = Ok true ->
  exists s', reduce_step s m = Ok s'.
Proof.
  intros Hs Hc Hp Hseq Hv. pose proof (locally_validated_fast _ _ Hv) as Hfast.
  enough (is_ok (reduce_step s m) = true) as Hok by (destruct (reduce_step s m); [eauto|done..]).
  unfold reduce_step. autorewrite with index. simpl. rewrite (proj2 (N.eqb_eq _ _) Hseq), andb_false_r. simpl.
  match goal with |- is_ok (apply_mutation ?t _ _) = _ => set (t' := t) end.
  assert (exists ready, t' = refreshed s (u64_saturating_add (observed_item_index s) 1) (smu_seq m) ready)
    as [ready ->].
  { subst t'. unfold refreshed.
    destruct (preserves_checkpoint_readiness _ _); [exists (checkpoint_ready_for s)|exists None]; by destruct s. }
  clear Hseq. inversion Hfast as [e msg Hb Hm|stored Hr Hm]; simpl.
  - rewrite <-Hm in Hp. eapply (fast_entry_accepted (refreshed s _ _ _) X m); try done.
  - rewrite <-Hm in Hc. eapply (fast_record_accepted (refreshed s _ _ _) X _ m); try done. by destruct Hs as (_ & _ & ?).
Qed.

(** ** Lanes keep reducing *)

(** Activation requests name operations that were opened. *)
Definition requests_known (s : ReducerState) : Prop :=
  Forall (fun r => is_Some (operations s !! ha_operation_id r)) (activation_requests s).

Lemma apply_mutation_requests s k m s' :
  apply_mutation s k m = Ok s' ->
  activation_requests s' = activation_requests s
  \/ exists r, activation_requests s' = activation_requests s ++ [r]
       /\ is_Some (operations s !! ha_operation_id r).
Proof.
  destruct m as [e|r|[seq ts [lane base]]|f']; simpl.
  - intros (_ & _ & _ & _ & requests & ops & -> & _)%on_entry_Ok. by left.
  - unfold on_record. destruct (sr_record r).
    1: { intros (_ & _ & _ & ? & ? & _ & ->)%on_operation_started_Ok. by left. }
    all: unfold_record_handlers; intros; reducer_inv; eauto.
  - intros (_ & _ & ->)%on_lane_created_Ok. by left.
  - unfold on_fact. destruct (sf_fact f'); unfold_fact_handlers; intros; reducer_inv; by left.
Qed.

Lemma apply_mutation_requests_known s k m s' :
  state_lifecycle s -> requests_known s -> apply_mutation s k m = Ok s' -> requests_known s'.
Proof.
  intros Hl Hk Hok. pose proof (apply_mutation_extends _ _ _ _ Hl Hok) as He.
  assert (forall id, is_Some (operations s !! id) -> is_Some (operations s' !! id)) as Hmono.
  { intros id [op Hop]. destruct (ex_operations _ _ He _ _ Hop) as (op' & -> & _). eauto. }
  unfold requests_known in *. destruct (apply_mutation_requests _ _ _ _ Hok) as [->|(r & -> & Hr)].
  - eapply Forall_impl; [exact Hk|]. simpl. auto.
  - apply Forall_app. split; [eapply Forall_impl; [exact Hk|]; simpl; auto|]. by repeat constructor; auto.
Qed.

Lemma apply_mutation_sequence s k m s' :
  apply_mutation s k m = Ok s' -> observed_sequence s' = observed_sequence s.
Proof.
  destruct m as [e|r|[seq ts [lane base]]|f']; simpl.
  - by intros (_ & _ & _ & _ & requests & ops & -> & _)%on_entry_Ok.
  - unfold on_record. destruct (sr_record r).
    1: { by intros (_ & _ & _ & ? & ? & _ & ->)%on_operation_started_Ok. }
    all: unfold_record_handlers; intros; reducer_inv; done.
  - by intros (_ & _ & ->)%on_lane_created_Ok.
  - unfold on_fact. destruct (sf_fact f'); unfold_fact_handlers; intros; reducer_inv; done.
Qed.

(** What the derivations after the fold can still reject. *)
Record reduces (s : ReducerState) (last : Sequence) (lane : LaneId) : Prop := {
  rd_sequence : last = observed_sequence s;
  rd_lane : is_Some (lane_leaves s !! lane);
  rd_tools : validate_tool_results (entries s) (tool_starts s) = Ok ();
  rd_activation : exists a,
    unresolved_activation (activation_requests s) (entries s) (active_operations s !! lane) = Ok a;
}.

Lemma finish_reduction_reduces s last lane :
  state_safe s -> (exists r, finish_reduction s last lane = Ok r) <-> reduces s last lane.
Proof.
  intros (Hl & Hf & _). unfold finish_reduction. split.
  - intros [r Hr]. outcome_inv. apply reject_if_Ok in Hok. bool_inv.
    by split; eauto.
  - intros [-> [leaf Hleaf] Ht [a Ha]]. rewrite N.eqb_refl. simpl. rewrite Hleaf. simpl.
    rewrite Ht. simpl.
    destruct (derive_configuration_total s lane leaf Hf Hleaf) as (chain & _ & ->). simpl.
    rewrite Ha. simpl. unfold derive_recovery_plan.
    destruct (active_operations s !! lane) as [o|] eqn:Hact; [|simpl; eauto].
    apply (lc_active _ _ _ _ _ Hl) in Hact as (op & -> & _). simpl. eauto.
Qed.

(** *** A user message *)

Lemma tool_results_insert es starts id e :
  es !! id = None -> (forall t, se_body e <> ToolResult t) ->
  id ∉ map (fun start : Sequence * ToolStartedRecord => ts_result_entry_id start.2) starts ->
  validate_tool_results es starts = Ok () -> validate_tool_results (<[id := e]> es) starts = Ok ().
Proof.
  intros Hnone He Hid. unfold validate_tool_results.
  intros ([] & Hs & Hes)%obind_Ok_inv. rewrite ofold_checks, Forall_forall in Hs.
  rewrite ofold_checks, Forall_forall in Hes.
  assert (forall call name, any_assistant_call_matches es call name = true ->
    any_assistant_call_matches (<[id := e]> es) call name = true) as Hcalls.
  { intros call name. unfold any_assistant_call_matches. rewrite !existsb_true_elem.
    intros (x & [k Hk]%elem_of_btree_values & Hx). exists x. split; [|done].
    apply elem_of_btree_values. exists k. rewrite lookup_insert_ne by congruence. done. }
  assert (ofold (fun _ '(_, start) => validate_start_result (<[id := e]> es) start) () starts = Ok ())
    as ->.
  { apply ofold_checks, Forall_forall. intros [q t] Ht. specialize (Hs _ Ht). simpl in *.
    unfold validate_start_result in *. rewrite lookup_insert_ne; [done|]. intros ->.
    apply Hid, list_elem_of_fmap. by exists (q, t). }
  simpl. apply ofold_checks, Forall_forall. intros [k x] Hk%elem_of_btree_iter.
  apply lookup_insert_Some in Hk as [[<- <-]|[Hne Hk]]; unfold validate_entry_result.
  - destruct (se_body e) eqn:Hb; try done. by edestruct He.
  - specialize (Hes (k, x) (proj2 (elem_of_btree_iter _ _ _) Hk)). simpl in Hes.
    unfold validate_entry_result in Hes. destruct (se_body x); try done.
    destruct (List.find _ starts) as [[??]|]; [done|]. apply reject_if_Ok in Hes. bool_inv.
    by rewrite Hcalls.
Qed.

Lemma unresolved_activation_insert requests es id e active a :
  id ∉ map ha_revision_entry_id requests ->
  unresolved_activation requests es active = Ok a ->
  unresolved_activation requests (<[id := e]> es) active = Ok a.
Proof.
  intros Hid. unfold unresolved_activation. destruct active as [o|]; [|done]. intros <-.
  apply ofold_ext_in. intros pending r [Hr _]%filter_elem. unfold resolve_activation.
  rewrite lookup_insert_ne; [done|]. intros ->. apply Hid, list_elem_of_fmap. by exists r.
Qed.

(** *** A lifecycle record *)

(** Lifecycle records touch neither entries, intents nor requests, and open
    at most a new operation. *)
Lemma lifecycle_record_frame s k stored s' :
  lifecycle_record (sr_record stored) = true -> on_record s k stored = Ok s' ->
  entries s' = entries s /\ tool_starts s' = tool_starts s
  /\ activation_requests s' = activation_requests s
  /\ forall lane o, active_operations s' !! lane = Some o ->
       active_operations s !! lane = Some o \/ operations s !! o = None.
Proof.
  intros Hl Hok. unfold on_record in Hok.
  destruct (sr_record stored) as [r|r|r|r|r|r|r|r| | | | | | | | |r|r]; try discriminate Hl.
  1: { apply on_operation_started_Ok in Hok as (Hnew & _ & _ & ? & ? & _ & ->). split_and!; try done.
       intros lane o. simpl. rewrite lookup_insert_Some. intros [[_ <-]|[_ ?]]; auto. }
  all: revert Hok; unfold_record_handlers; intros; reducer_inv; split_and!; try done; auto.
  intros lane o. rewrite lookup_delete_Some. intros [_ ?]. auto.
Qed.

(** Every lane that reduced still reduces. *)
Lemma fast_reduces s m s' last lane :
  state_safe s -> requests_known s -> state_safe s' ->
  fast_mutation (smu_mutation m) -> ~ takes_reserved s (smu_mutation m) ->
  reduce_step s m = Ok s' -> reduces s last lane -> reduces s' (smu_seq m) lane.
Proof.
  intros Hs Hk Hs' Hfast Hres Hstep [-> Hlane Ht [a Ha]].
  pose proof (reduce_step_extends _ _ _ (proj1 Hs) Hstep) as He.
  apply reduce_step_Ok in Hstep as (_ & ready & _ & Hok).
  pose proof (apply_mutation_sequence _ _ _ _ Hok) as Hseq. split; [done|by apply (ex_lanes _ _ He)|..].
  - inversion Hfast as [e msg Hb Hm|stored Hr Hm]; rewrite <-Hm in Hok, Hres; simpl in Hok.
    + apply on_entry_Ok in Hok as (_ & Hnone & _ & _ & requests & ops & -> & _). simpl in *.
      apply tool_results_insert; try done; [congruence|]. intros ?. by apply Hres; left.
    + by apply lifecycle_record_frame in Hok as (-> & -> & _).
  - inversion Hfast as [e msg Hb Hm|stored Hr Hm]; rewrite <-Hm in Hok, Hres; simpl in Hok.
    + apply on_entry_Ok in Hok as (_ & Hnone & _ & _ & requests & ops & -> & _). simpl in *.
      exists a. apply unresolved_activation_insert; try done. intros ?. by apply Hres; right.
    + apply lifecycle_record_frame in Hok as (-> & _ & -> & Hact); [|done]. simpl in *.
      destruct (active_operations s' !! lane) as [o|] eqn:Ho; [|by eexists].
      destruct (Hact _ _ Ho) as [Hold|Hnew]; [rewrite Hold in Ha; eauto|].
      exists None. unfold unresolved_activation.
      destruct (List.filter _ _) as [|r l] eqn:Hf; [done|].
      assert (r ∈ List.filter (fun r => ha_operation_id r ==? o) (activation_requests s)) as Hr'
        by (rewrite Hf; by left).
      apply filter_elem in Hr' as [Hin Heq]. bool_inv. subst o.
      apply (proj1 (Forall_forall _ _) Hk) in Hin as [??]. congruence.
Qed.
End fast.
