(* ===== verification/StoreGraph.v ===== *)
(** * The fast path of the append index, for the subagent graph

    The items the append index validates by itself add, at the end of the
    timeline, a user message, an operation outside the agents' lanes, the end
    of an operation or an epoch.  None of them can turn an accepted subagent
    graph into a rejected one. *)

From stdpp Require Import base gmap sets list strings sorting.
From S2P Require Import Prelude RustStr Json Ids BTree Decimal Model Records Snapshot Reduction.
From S2P Require Import ReductionInv ReductionOps ReductionHistory Agents AgentsSound AgentsSafe.
From S2P Require Import ReductionSafety SessionErrors WireSeal Store StoreIndex StoreFast.

Lemma ofold_mono_in {E A S} (h k : S -> A -> Outcome E S) l s s' :
  (forall s x s', x ∈ l -> h s x = Ok s' -> k s x = Ok s') ->
  ofold h s l = Ok s' -> ofold k s l = Ok s'.
Proof.
  revert s. induction l as [|x l IH]; intros s Hm; simpl; [done|].
  intros (t & Ht & Hl)%obind_Ok_inv. rewrite (Hm s x t) by (done || set_solver). simpl.
  apply IH; [|done]. intros. apply Hm; [set_solver|done].
Qed.

Lemma obind_mono {E A B} (m : Outcome E A) (h k : A -> Outcome E B) b :
  (forall a, m = Ok a -> h a = Ok b -> k a = Ok b) -> obind m h = Ok b -> obind m k = Ok b.
Proof. destruct m; simpl; [|done..]. auto. Qed.

(** Step over a computation both sides share. *)
Ltac same_step := apply obind_mono; intros ? ?.

Lemma position_ltb_asym p q : (p <?p q) = true -> (q <?p p) = false.
Proof.
  unfold position_ltb. rewrite orb_true_iff, orb_false_iff, andb_true_iff, andb_false_iff.
  rewrite !N.ltb_lt, !N.eqb_eq, !N.ltb_ge, !N.eqb_neq. lia.
Qed.

(** ** Growth at the end of the timeline *)

Inductive entries_grow (es es' : gmap EntryId (LaneId * SessionEntry * TimelinePosition)) : Prop :=
| entries_same : es' = es -> entries_grow es es'
| entries_user id lane message p : es !! id = None ->
    es' = <[id := (lane, UserMessage message, p)]> es -> entries_grow es es'.

Inductive operations_grow (pos : TimelinePosition) (lanes : list LaneId)
    (ops ops' : gmap OperationId OperationInfo) : Prop :=
| operations_same : ops' = ops -> operations_grow pos lanes ops ops'
| operations_opened id info : ops !! id = None -> is_subagent_kind (oi_kind info) = false ->
    oi_lane_id info ∉ lanes -> ops' = <[id := info]> ops -> operations_grow pos lanes ops ops'
| operations_finished id info outcome : ops !! id = Some info -> oi_finished info = None ->
    ops' = <[id := info <| oi_finished := Some (pos, outcome) |>]> ops ->
    operations_grow pos lanes ops ops'.

(** The lanes of the agents spawned so far. *)
Definition spawn_lanes (g : GraphScan) : list LaneId := map (fun s => as_lane_id s.2) (gs_spawns g).

Record graph_grows (pos : TimelinePosition) (g g' : GraphScan) : Prop := {
  gg_lanes : gs_lanes g' = gs_lanes g;
  gg_tools : gs_tools g' = gs_tools g;
  gg_policy : gs_policy g' = gs_policy g;
  gg_policy_sequence : gs_policy_sequence g' = gs_policy_sequence g;
  gg_spawns : gs_spawns g' = gs_spawns g;
  gg_deltas : gs_deltas g' = gs_deltas g;
  gg_terminals : gs_terminals g' = gs_terminals g;
  gg_applied : gs_applied g' = gs_applied g;
  gg_epochs : gs_epochs g ⊆ gs_epochs g';
  gg_entries : entries_grow (gs_entries g) (gs_entries g');
  gg_operations : operations_grow pos (spawn_lanes g) (gs_operations g) (gs_operations g');
  gg_later : forall p spawn, (p, spawn) ∈ gs_spawns g -> (p <?p pos) = true;
}.

Section grows.
Context `{Blake3} (pos : TimelinePosition) (g g' : GraphScan) (HG : graph_grows pos g g').

(** *** Entries *)

Lemma grown_entry id x : gs_entries g !! id = Some x -> gs_entries g' !! id = Some x.
Proof.
  destruct (gg_entries _ _ _ HG) as [->|k lane msg p Hk ->]; [done|]. intros Hid.
  by rewrite lookup_insert_ne by congruence.
Qed.

Lemma grown_revisions header : root_revision_positions header g' = root_revision_positions header g.
Proof.
  unfold root_revision_positions. destruct (gg_entries _ _ _ HG) as [->|k lane msg p Hk ->]; [done|].
  apply omap_btree_values_insert; [done|]. by rewrite andb_false_r.
Qed.

Lemma grown_configuration lane before c :
  foldl (observe_configuration lane before) c (btree_values (gs_entries g'))
  = foldl (observe_configuration lane before) c (btree_values (gs_entries g)).
Proof.
  destruct (gg_entries _ _ _ HG) as [->|k l msg p Hk ->]; [done|].
  apply foldl_btree_insert; [done|]. intros [[??]?]. simpl. by case_match.
Qed.

Lemma grown_final_entry lane a b : expected_final_entry g' lane a b = expected_final_entry g lane a b.
Proof.
  unfold expected_final_entry. destruct (gg_entries _ _ _ HG) as [->|k l msg p Hk ->]; [done|].
  do 2 f_equal. apply omap_btree_insert; [done|]. by rewrite !andb_false_r.
Qed.

(** *** Operations *)

Lemma grown_operation id info :
  gs_operations g !! id = Some info -> exists finished,
    gs_operations g' !! id = Some (info <| oi_finished := finished |>)
    /\ (finished = oi_finished info
        \/ oi_finished info = None /\ exists outcome, finished = Some (pos, outcome)).
Proof.
  intros Hid. destruct (gg_operations _ _ _ HG) as [->|k i Hk _ _ ->|k i o Hk Hf ->].
  - exists (oi_finished info). split; [by destruct info|by left].
  - exists (oi_finished info). rewrite lookup_insert_ne by congruence. split; [by destruct info|by left].
  - destruct (decide (id = k)) as [->|Hne].
    + assert (i = info) as -> by congruence. rewrite lookup_insert_eq.
      exists (Some (pos, o)). split; [done|right; eauto].
    + rewrite lookup_insert_ne by done. exists (oi_finished info). split; [by destruct info|by left].
Qed.

Lemma grown_finished id info f :
  gs_operations g !! id = Some info -> oi_finished info = Some f -> gs_operations g' !! id = Some info.
Proof.
  intros Hid Hf. destruct (grown_operation id info Hid) as (finished & -> & [->|[Hn _]]); [|congruence].
  by destruct info.
Qed.

(** *** Spawns *)

Lemma grown_spawn_parent p spawn :
  (p <?p pos) = true -> validate_spawn_parent g p spawn = Ok () -> validate_spawn_parent g' p spawn = Ok ().
Proof.
  intros Hp. unfold validate_spawn_parent. intros (info & Hid%ok_or_Ok_inv & Hr)%obind_Ok_inv.
  destruct (grown_operation _ _ Hid) as (finished & -> & Hf). simpl. apply reject_if_Ok in Hr.
  apply orb_false_iff in Hr as [Hr Hfin]. rewrite Hr.
  destruct Hf as [->|[_ [o ->]]]; [by rewrite Hfin|]. by rewrite position_ltb_asym.
Qed.

Lemma grown_spawn_lane p spawn tool :
  validate_spawn_lane g p spawn tool = Ok () -> validate_spawn_lane g' p spawn tool = Ok ().
Proof.
  unfold validate_spawn_lane. rewrite (gg_lanes _ _ _ HG), grown_configuration.
  same_step. case_match. do 2 same_step.
  destruct (gs_epochs g !! ti_epoch_id tool) as [e|] eqn:He; simpl; [|done].
  by rewrite (lookup_weaken _ _ _ _ He (gg_epochs _ _ _ HG)).
Qed.

Lemma grown_prior_tools call p o name : prior_tools g' call p o name = prior_tools g call p o name.
Proof. unfold prior_tools. by rewrite (gg_tools _ _ _ HG). Qed.

Lemma grown_graph_spawn session l item l' :
  item ∈ gs_spawns g -> graph_spawn session g l item = Ok l' -> graph_spawn session g' l item = Ok l'.
Proof.
  destruct item as [p spawn]. intros Hp%(gg_later _ _ _ HG). unfold graph_spawn.
  rewrite (gg_policy _ _ _ HG), (gg_policy_sequence _ _ _ HG).
  do 2 same_step. intros ([] & Hv & Hk)%obind_Ok_inv.
  rewrite <-Hk. clear Hk. assert (validate_spawn session g' a p spawn = Ok ()) as ->; [|done].
  revert Hv. unfold validate_spawn. do 6 same_step.
  intros ([] & Hpar & Hrest)%obind_Ok_inv. rewrite (grown_spawn_parent _ _ Hp Hpar). simpl. revert Hrest.
  rewrite grown_prior_tools. destruct (prior_tools g _ _ _ _) as [|tool [|]]; [done| |done].
  do 7 same_step. apply grown_spawn_lane.
Qed.

Lemma grown_spawn_loop session l :
  ofold (graph_spawn session g) (mk_spawn_loop ∅ ∅ ∅) (gs_spawns g) = Ok l ->
  ofold (graph_spawn session g') (mk_spawn_loop ∅ ∅ ∅) (gs_spawns g') = Ok l.
Proof.
  rewrite (gg_spawns _ _ _ HG). apply ofold_mono_in. intros. by apply grown_graph_spawn.
Qed.

(** The lanes bound by the spawn loop are those of the spawns. *)
Lemma spawn_loop_lanes session l lane agent :
  ofold (graph_spawn session g) (mk_spawn_loop ∅ ∅ ∅) (gs_spawns g) = Ok l ->
  sl_agent_by_lane l !! lane = Some agent -> lane ∈ spawn_lanes g.
Proof.
  intros Hl.
  refine (ofold_invariant_in (fun l => forall lane agent, sl_agent_by_lane l !! lane = Some agent ->
    lane ∈ spawn_lanes g) _ _ _ _ _ _ Hl lane agent).
  - intros l1 [p spawn] l2 Hin HI Hs. unfold graph_spawn in Hs. outcome_inv. simpl.
    intros lane' agent'. rewrite lookup_insert_Some. intros [[<- _]|[_ ?]]; [|eauto].
    apply list_elem_of_fmap. by exists (p, spawn).
  - intros lane' agent'. simpl. by rewrite lookup_empty.
Qed.

(** *** Operations of agents *)

Lemma grown_graph_operation lanes nodes item :
  graph_operation g' lanes nodes item = graph_operation g lanes nodes item.
Proof.
  destruct item as [id info]. unfold graph_operation, spawn_positions.
  by rewrite (gg_spawns _ _ _ HG), (gg_tools _ _ _ HG).
Qed.

Lemma grown_operation_loop session l nodes :
  ofold (graph_spawn session g) (mk_spawn_loop ∅ ∅ ∅) (gs_spawns g) = Ok l ->
  ofold (graph_operation g' (sl_agent_by_lane l)) nodes (btree_iter (gs_operations g'))
  = ofold (graph_operation g (sl_agent_by_lane l)) nodes (btree_iter (gs_operations g)).
Proof.
  intros Hl. rewrite (ofold_ext_in _ (graph_operation g (sl_agent_by_lane l)))
    by (intros; apply grown_graph_operation).
  destruct (gg_operations _ _ _ HG) as [->|k i Hk Hkind Hlane ->|k i o Hk Hf ->]; [done|..].
  - apply ofold_btree_insert; [done|]. intros ns. unfold graph_operation.
    destruct (sl_agent_by_lane l !! oi_lane_id i) eqn:Hb;
      [by destruct Hlane; eapply spawn_loop_lanes|]. simpl. by destruct (oi_kind i).
  - destruct (btree_iter_replace _ _ _ (i <| oi_finished := Some (pos, o) |>) Hk) as (l1 & l2 & -> & ->).
    rewrite !ofold_app. by destruct (ofold _ nodes l1).
Qed.

(** *** Deltas, reports and applications *)

Lemma grown_graph_delta nodes l item l' :
  graph_delta g nodes l item = Ok l' -> graph_delta g' nodes l item = Ok l'.
Proof.
  destruct item as [p delta]. unfold graph_delta. do 4 same_step.
  intros (info & Hid%expect_Ok_inv & Hk)%obind_Ok_inv.
  destruct (oi_finished info) as [[f o]|] eqn:Hf; [|done].
  rewrite (grown_finished _ _ _ Hid Hf). simpl. by rewrite Hf.
Qed.

Lemma grown_graph_terminal deltas l item l' :
  graph_terminal g deltas l item = Ok l' -> graph_terminal g' deltas l item = Ok l'.
Proof.
  destruct item as [p terminal]. unfold graph_terminal. do 3 same_step.
  intros (info & Hid%expect_Ok_inv & Hk)%obind_Ok_inv.
  destruct (oi_finished info) as [[f o]|] eqn:Hf; [|done].
  rewrite (grown_finished _ _ _ Hid Hf). simpl. rewrite Hf, grown_final_entry. revert Hk.
  do 2 same_step. intros ([] & Hv & Hk)%obind_Ok_inv. rewrite <-Hk. clear Hk.
  replace (validate_final_entry g' p (as_lane_id (gn_spawned a0)) terminal) with (Ok (E := Corruption) ());
    [done|].
  revert Hv. unfold validate_final_entry. destruct (af_final_entry_id terminal) as [id|]; [|done].
  destruct (gs_entries g !! id) as [x|] eqn:Hx; [|done]. by rewrite (grown_entry _ _ Hx).
Qed.

Lemma grown_graph_applied deltas positions l item :
  graph_applied g' deltas positions l item = graph_applied g deltas positions l item.
Proof.
  destruct item as [p fact]. unfold graph_applied, prior_tools. by rewrite (gg_tools _ _ _ HG).
Qed.

Lemma grown_state node s : derive_agent_state g node = Ok s -> exists s', derive_agent_state g' node = Ok s'.
Proof.
  unfold derive_agent_state.
  destruct (gn_operation_id node) as [o|], (gn_terminal node), (gn_workspace_delta node), (gn_applied node);
    eauto; intros (info & Hid%expect_Ok_inv & _)%obind_Ok_inv;
    destruct (grown_operation _ _ Hid) as (? & -> & _); simpl; eauto.
Qed.

(** An accepted graph stays accepted. *)
Lemma grown_graph_finish header r :
  graph_finish header g = Ok r -> exists r', graph_finish header g' = Ok r'.
Proof.
  unfold graph_finish.
  intros ([] & Hrev & (sp & Hsp & (ns & Hop & (de & Hde & (te & Hte & (ap & Hap & (st & Hst & _
    )%obind_Ok_inv)%obind_Ok_inv)%obind_Ok_inv)%obind_Ok_inv)%obind_Ok_inv)%obind_Ok_inv)%obind_Ok_inv.
  rewrite grown_revisions, (gg_policy_sequence _ _ _ HG), Hrev. simpl.
  rewrite (grown_spawn_loop _ _ Hsp). simpl. rewrite (grown_operation_loop _ _ _ Hsp), Hop. simpl.
  rewrite (gg_deltas _ _ _ HG), (gg_terminals _ _ _ HG), (gg_applied _ _ _ HG), (gg_policy _ _ _ HG).
  rewrite (ofold_mono_in _ (graph_delta g' ns) _ _ _ (fun s x s' _ => grown_graph_delta ns s x s') Hde). simpl.
  rewrite (ofold_mono_in _ (graph_terminal g' de) _ _ _ (fun s x s' _ => grown_graph_terminal de s x s') Hte).
  simpl. rewrite (ofold_ext_in _ (graph_applied g de (tl_positions te))) by (intros; apply grown_graph_applied).
  rewrite Hap. simpl.
  destruct (ofold_total (fun _ => True) (graph_state g') (al_nodes ap) (btree_iter (al_nodes ap)))
    as (st' & -> & _); [|done|simpl; eauto].
  intros ns' [id node] _ Hin. unfold graph_state.
  destruct (ofold_visits (fun _ x => exists s, derive_agent_state g x.2 = Ok s) (graph_state g) _ _ _
    (fun s x s' => ltac:(destruct x; unfold graph_state; intros (? & ? & _)%obind_Ok_inv; simpl; eauto))
    (fun s x s' y Hy _ => Hy) Hst _ Hin) as [s0 Hs0]. simpl in Hs0.
  destruct (grown_state _ _ Hs0) as [s1 ->]. simpl. eauto.
Qed.
End grows.

(** ** The scan follows the reducer *)

Definition info_finished (info : OperationInfo) : bool :=
  match oi_finished info with Some _ => true | None => false end.

Record scan_tracks (g : GraphScan) (s : ReducerState) (lanes : gset LaneId) : Prop := {
  st_entries : dom (gs_entries g) = dom (entries s);
  st_operations : info_finished <$> gs_operations g = op_finished <$> operations s;
  st_epochs : dom (gs_epochs g) = dom (epochs s);
  st_lanes : forall lane, lane ∈ spawn_lanes g -> lane ∈ lanes;
  st_before : forall p spawn, (p, spawn) ∈ gs_spawns g -> (tp_sequence p <= observed_sequence s)%N;
  st_bound : (observed_sequence s <= u64_max)%N;
}.

Section tracks.
Context `{Miniserde} `{Blake3}.

Lemma scan_tracks_initial header : scan_tracks (graph_scan_initial header) (initial_state header) ∅.
Proof. split; simpl; try set_solver; done. Qed.

(** The fields of the reducer the scan follows. *)
Lemma fmap_finished_update (ops : gmap OperationId OperationState) id op op' :
  ops !! id = Some op -> op_finished op' = op_finished op ->
  op_finished <$> <[id := op']> ops = op_finished <$> ops.
Proof. intros Hop Heq. rewrite fmap_insert, Heq. apply insert_id. by rewrite lookup_fmap, Hop. Qed.

Lemma scan_tracks_record g s lanes k stored s' p g' :
  scan_tracks g s lanes -> on_record s k stored = Ok s' -> scan_record g p (sr_record stored) = Ok g' ->
  scan_tracks g' s' lanes.
Proof.
  intros [He Ho Hep Hl Hb Hm] Hok Hg. unfold on_record in Hok.
  destruct (sr_record stored) as [r|r|r|r|r|r|r|r|r|r|r|r|r|r|r|r|r|r]; simpl in Hg.
  1: { apply on_operation_started_Ok in Hok as (_ & _ & _ & ? & ? & _ & ->). injection Hg as <-.
       split; simpl; try done. by rewrite !fmap_insert, Ho. }
  all: revert Hok; unfold_record_handlers; intros; reducer_inv; split; simpl; try done.
  - by rewrite !fmap_insert, Ho.
  - by erewrite fmap_finished_update.
  - by rewrite !dom_insert_L, Hep.
  - by erewrite fmap_finished_update.
Qed.

Lemma scan_tracks_fact g s lanes m stored s' p g' :
  scan_tracks g s lanes -> on_fact s stored = Ok s' -> smu_mutation m = MutFact stored ->
  tp_sequence p = observed_sequence s -> scan_fact g p (sf_fact stored) = Ok g' ->
  scan_tracks g' s' (match agent_lane m with Some lane => {[lane]} ∪ lanes | None => lanes end).
Proof.
  intros [He Ho Hep Hl Hb Hm] Hok Hmut Hseq Hg. unfold agent_lane. rewrite Hmut.
  unfold on_fact in Hok. destruct (sf_fact stored) eqn:Hf; simpl in Hg;
    revert Hok; unfold_fact_handlers; intros; reducer_inv; split; simpl; try done.
  - unfold spawn_lanes. simpl. intros lane. rewrite map_app, elem_of_app. simpl. set_solver.
  - intros q sp. rewrite elem_of_app, list_elem_of_singleton. intros [?|[= -> ->]]; [eauto|]. lia.
Qed.

Lemma scan_tracks_step g s lanes m g' s' :
  scan_tracks g s lanes -> reduce_step s m = Ok s' -> scan_step g m = Ok g' ->
  scan_tracks g' s' (match agent_lane m with Some lane => {[lane]} ∪ lanes | None => lanes end).
Proof.
  intros HT (Hseq & ready & _ & Hok)%reduce_step_Ok Hg.
  assert (scan_tracks (g <| gs_item_index ::= fun n => u64_saturating_add n 1 |>)
    (refreshed s (u64_saturating_add (observed_item_index s) 1) (smu_seq m) ready) lanes) as HT'.
  { destruct HT as [He Ho Hep Hl Hb Hm]. split; simpl; try done.
    - intros p sp Hp. apply Hb in Hp. unfold u64_saturating_add in *. lia.
    - unfold u64_saturating_add in *. lia. }
  clear HT. unfold scan_step in Hg.
  destruct (smu_mutation m) as [e|stored|[seq ts [lane base]]|stored] eqn:Hm; simpl in Hok, Hg.
  - injection Hg as <-. unfold agent_lane. rewrite Hm. destruct HT' as [He Ho Hep Hl Hb Hmx].
    apply on_entry_Ok in Hok as (_ & _ & _ & _ & requests & ops & -> & Ha). split; simpl in *; try done.
    + by rewrite !dom_insert_L, He.
    + destruct (active_operations s !! se_lane_id e); [|by rewrite Ha].
      destruct Ha as (op & Hop & ->). by erewrite fmap_finished_update.
  - unfold agent_lane. rewrite Hm. by eapply scan_tracks_record.
  - injection Hg as <-. unfold agent_lane. rewrite Hm.
    apply on_lane_created_Ok in Hok as (_ & _ & ->). by destruct HT'.
  - eapply scan_tracks_fact; [exact HT'|exact Hok|done| |exact Hg]. done.
Qed.

Lemma scan_tracks_all header ms g s :
  reduce_all header ms = Ok s -> graph_scan header ms = Ok g -> scan_tracks g s (agent_lanes_of ms).
Proof.
  unfold reduce_all, graph_scan, agent_lanes_of.
  generalize (scan_tracks_initial header).
  generalize (graph_scan_initial header) (initial_state header) (∅ : gset LaneId).
  induction ms as [|m ms IH]; intros g0 s0 X HT; simpl; [by intros [= <-] [= <-]|].
  intros (s1 & Hs1 & Hs)%obind_Ok_inv (g1 & Hg1 & Hg)%obind_Ok_inv.
  eapply IH; [|done|done]. by eapply scan_tracks_step.
Qed.

(** ** Fast items *)

(** A validated operation start binds no agent and sits on no agent's lane. *)
Definition outside_agents (lanes : gset LaneId) (m : SessionMutation) : Prop :=
  match m with
  | MutRecord stored =>
      match sr_record stored with
      | OperationStarted r => is_subagent_kind (os_kind r) = false /\ os_lane_id r ∉ lanes
      | _ => True
      end
  | _ => True
  end.

Lemma locally_validated_outside s lanes m :
  is_locally_validated_mutation (index_of s lanes) m = Ok true -> outside_agents lanes (smu_mutation m).
Proof.
  unfold is_locally_validated_mutation, outside_agents. simpl.
  destruct (smu_mutation m) as [|stored| |]; try done. destruct (sr_record stored); try done.
  unfold needs_graph_binding. simpl. destruct (is_subagent_kind _); simpl; [done|].
  destruct (mem _ lanes) eqn:Hl; [done|]. bool_inv. done.
Qed.

Lemma fast_grows g s lanes m s' :
  scan_tracks g s lanes -> reduce_step s m = Ok s' -> fast_mutation (smu_mutation m) ->
  outside_agents lanes (smu_mutation m) -> (observed_sequence s < smu_seq m)%N ->
  exists g', scan_step g m = Ok g' /\ graph_grows (mk_position (smu_seq m) (gs_item_index g)) g g'.
Proof.
  intros [He Ho Hep Hl Hb Hmx] (_ & ready & _ & Hok)%reduce_step_Ok Hfast Hout Hlt.
  assert (forall p spawn, (p, spawn) ∈ gs_spawns g ->
    (p <?p mk_position (smu_seq m) (gs_item_index g)) = true) as Hlater.
  { intros p sp Hp%Hb. unfold position_ltb. simpl. apply orb_true_iff. left. apply N.ltb_lt. lia. }
  unfold scan_step. inversion Hfast as [e msg Hbody Hm|stored Hr Hm]; rewrite <-Hm in Hok, Hout; simpl in *.
  - apply on_entry_Ok in Hok as (_ & Hnone & _). eexists. split; [done|]. split; simpl; try done.
    + rewrite Hbody. eapply entries_user; [|done].
      apply not_elem_of_dom. rewrite He. by apply not_elem_of_dom.
    + by constructor.
  - unfold on_record in Hok.
    destruct (sr_record stored) as [r|r|r|r|r|r|r|r| | | | | | | | |r|r] eqn:Hrec; try discriminate Hr; simpl.
    all: try (eexists; split; [done|]; split; simpl; try done; by constructor).
    + apply on_operation_started_Ok in Hok as (Hnew & _). eexists. split; [done|].
      destruct Hout as [Hk Hlane]. split; simpl; try done; [by constructor|].
      eapply operations_opened; [| | |reflexivity]; [|done|by intros ?%Hl].
      apply (f_equal (lookup (os_id r))) in Ho. rewrite !lookup_fmap in Ho. simpl in Hnew.
      rewrite Hnew in Ho. by destruct (gs_operations g !! os_id r).
    + revert Hok. unfold on_operation_finished. intros. reducer_inv.
      apply (f_equal (lookup (of_operation_id r))) in Ho. rewrite !lookup_fmap in Ho.
      match goal with Hx : operations s !! _ = Some _ |- _ => rewrite Hx in Ho end.
      destruct (gs_operations g !! of_operation_id r) as [info|] eqn:Hi; [|done]. simpl in *.
      eexists. split; [done|]. split; simpl; try done; [by constructor|].
      eapply operations_finished; [exact Hi| |done]. unfold info_finished in Ho.
      destruct (oi_finished info); [|done]. congruence.
    + revert Hok. unfold on_epoch_started. intros. reducer_inv.
      eexists. split; [done|]. split; simpl; try done; [|by constructor|by constructor].
      apply insert_subseteq. apply not_elem_of_dom. rewrite Hep. by apply not_elem_of_dom.
Qed.

(** The subagent graph survives a validated item. *)
Lemma fast_graph header ms s m s' r :
  reduce_all header ms = Ok s -> reduce_agent_graph_prefix header ms = Ok r ->
  reduce_step s m = Ok s' -> fast_mutation (smu_mutation m) ->
  outside_agents (agent_lanes_of ms) (smu_mutation m) -> (observed_sequence s < smu_seq m)%N ->
  exists r', reduce_agent_graph_prefix header (ms ++ [m]) = Ok r'.
Proof.
  intros Hs (g & Hg & Hr)%obind_Ok_inv Hstep Hfast Hout Hlt.
  destruct (fast_grows g s _ m s' (scan_tracks_all _ _ _ _ Hs Hg) Hstep Hfast Hout Hlt)
    as (g' & Hg' & HG).
  unfold reduce_agent_graph_prefix, graph_scan in *. rewrite ofold_snoc, Hg. simpl. rewrite Hg'. simpl.
  by eapply grown_graph_finish.
Qed.
End tracks.
