(* ===== verification/StoreSession.v ===== *)
(** * Sessions stay reopenable

    The states of [MemorySession] reachable by creating a session and
    committing to it.  Whatever path validated a commit, the session it
    leaves is one that the authoritative reducers accept from the start, and
    its index is the projection of their state.  A concrete writer follows, with
    a commit that its index validates alone although reopening reports corruption. *)

From stdpp Require Import base gmap sets list strings sorting.
From S2P Require Import Prelude RustStr Json Ids Model Decimal DecimalProofs Records Snapshot.
From S2P Require Import Reduction ReductionInv ReductionOps ReductionSafety ReductionHistory Scenario Witnesses Agents AgentsSafe.
From S2P Require Import SessionErrors WireSeal WireSealProofs Store StoreIndex StoreFast StoreGraph.

(** ** Prepared commits *)

Section prepared.
Context `{Miniserde} `{Blake3}.

Lemma prepare_items_length i seq ts b l b' :
  ofold (prepare_item i seq ts) b l = Ok b' -> length (ba_items b') = length (ba_items b) + length l.
Proof.
  revert b. induction l as [|x l IH]; intros b; simpl; [intros [= <-]; lia|].
  intros (b1 & Hb1 & Hl)%obind_Ok_inv. rewrite (IH _ Hl).
  destruct x as [lane e|r|[lane base]|f']; simpl in Hb1; outcome_inv; simpl; rewrite length_app; simpl; lia.
Qed.

Lemma prepare_commit_Ok snapshot i c ts stored :
  prepare_commit snapshot i c ts = Ok stored ->
  exists b d,
    ofold (prepare_item i (next_sequence snapshot) ts) (mk_batch ∅ ∅ []) (commit_items c) = Ok b
    /\ stored = mk_stored_commit (next_sequence snapshot) ts (ss_last_digest snapshot) d
                  (map (stamp (next_sequence snapshot) ts (ss_last_digest snapshot) d) (ba_items b)).
Proof.
  unfold prepare_commit. intros (b & Hb & (_ & d & _ & ->)%seal_commit_Ok)%obind_Ok_inv.
  by exists b, d.
Qed.

Lemma prepare_commit_sealed snapshot i c ts stored :
  prepare_commit snapshot i c ts = Ok stored -> commit_sealed stored.
Proof.
  intros (b & d & _ & ->)%prepare_commit_Ok. apply Forall_map, Forall_true. by intros.
Qed.

(** The parent and the freshness of a lone entry. *)
Lemma prepare_single_entry snapshot s X c ts stored m :
  prepare_commit snapshot (index_of s X) c ts = Ok stored -> sc_items stored = [m] ->
  entry_prepared s (smu_mutation m).
Proof.
  intros (b & d & Hb & ->)%prepare_commit_Ok Hm. cbn [sc_items] in Hm.
  pose proof (prepare_items_length _ _ _ _ _ _ Hb) as Hlen. simpl in Hlen.
  destruct (ba_items b) as [|x [|]] eqn:Hitems; try discriminate Hm. injection Hm as <-. simpl.
  destruct (commit_items c) as [|item [|]]; try discriminate Hlen. simpl in Hb.
  apply obind_Ok_inv in Hb as (b1 & Hb1 & [= ->]).
  destruct item as [lane e|r|[lane base]|f']; simpl in Hb1; try (injection Hb1 as <-; by injection Hitems as <-).
  unfold contains_entry in Hb1. simpl in Hb1. rewrite mem_dom, lookup_empty in Hb1.
  destruct (has (pe_id e) (entries s) || mem (pe_id e) ∅) eqn:Hh; [done|].
  apply orb_false_iff in Hh as [Hh _]. bool_inv. simpl in Hb1.
  unfold lane_leaf in Hb1. simpl in Hb1. destruct (lane_leaves s !! lane) as [leaf|] eqn:Hleaf; [|done].
  injection Hb1 as <-. injection Hitems as <-. done.
Qed.
End prepared.

(** ** Lanes of a log *)

Lemma foldl_omap {A B C} (h : C -> B -> C) (k : A -> option B) c l :
  foldl h c (omap k l) = foldl (fun c x => match k x with Some y => h c y | None => c end) c l.
Proof. revert c. induction l as [|x l IH]; intros c; simpl; [done|]. by destruct (k x); simpl. Qed.

(** The lanes a log knows, in order of creation. *)
Definition log_lanes (lanes : list LaneId) (ms : list StoredMutation) : list LaneId :=
  foldl (fun lanes m =>
    match smu_mutation m with
    | MutLane stored => let '(LaneCreated lane_id _) := sl_mutation stored in push_lane lanes lane_id
    | _ => lanes
    end) lanes ms.

Lemma snapshot_lanes_log snapshot ms :
  represents snapshot ms ->
  snapshot_lanes snapshot = log_lanes [sh_initial_lane (ss_header snapshot)] ms.
Proof.
  intros Hrep. unfold snapshot_lanes, log_lanes. rewrite (rep_lanes _ _ Hrep), foldl_omap.
  clear Hrep. generalize [sh_initial_lane (ss_header snapshot)].
  induction ms as [|m ms IH]; intros l; simpl; [done|]. rewrite IH. unfold view_lane.
  by destruct (smu_mutation m).
Qed.

Lemma log_lanes_mono lanes ms lane : lane ∈ lanes -> lane ∈ log_lanes lanes ms.
Proof.
  revert lanes. induction ms as [|m ms IH]; intros lanes Hl; simpl; [done|]. apply IH.
  destruct (smu_mutation m) as [| |[? ? [new base]]|]; [done..| |done]. simpl. unfold push_lane.
  case_bool_decide; set_solver.
Qed.

(** ** Validation *)

(** The authoritative reducers accept a log: every lane of it and its graph. *)
Record log_valid `{Miniserde} `{Blake3} (header : SessionHeader) (last : Sequence)
    (ms : list StoredMutation) : Prop := {
  lv_lanes : forall lane, lane ∈ log_lanes [sh_initial_lane header] ms ->
    exists r, reduce_lane_prefix header last ms lane = Ok r;
  lv_graph : exists r, reduce_agent_graph_prefix header ms = Ok r;
}.

Section validation.
Context `{Miniserde} `{Blake3}.

Lemma check_lanes {A} (h : LaneId -> Outcome Corruption A) lanes :
  ofold (fun _ lane => check? h lane in Ok ()) () lanes = Ok ()
  <-> forall lane, lane ∈ lanes -> exists r, h lane = Ok r.
Proof.
  rewrite ofold_checks, Forall_forall. split; intros Hl lane Hin; specialize (Hl lane Hin).
  - apply obind_Ok_inv in Hl as (r & Hr & _). eauto.
  - destruct Hl as [r ->]. done.
Qed.

Lemma check_both (a : Outcome Corruption unit) {B} (b : Outcome Corruption B) :
  (check? a in check? b in Ok ()) = Ok () <-> a = Ok () /\ exists x, b = Ok x.
Proof.
  destruct a as [[]| |], b; simpl; split; try done; try naive_solver.
Qed.

Lemma validate_snapshot_valid snapshot ms :
  represents snapshot ms ->
  validate_snapshot snapshot = Ok () <-> log_valid (ss_header snapshot) (ss_last_sequence snapshot) ms.
Proof.
  intros Hrep. unfold validate_snapshot. rewrite check_both, check_lanes, (snapshot_lanes_log _ _ Hrep).
  unfold reduce_lane_ref, reduce_agent_graph. rewrite (rep_timeline _ _ Hrep).
  split; [intros [??]|intros [??]]; by split.
Qed.

Lemma validate_snapshot_commit_valid snapshot ms c :
  represents snapshot ms ->
  validate_snapshot_commit snapshot c = Ok ()
  <-> log_valid (ss_header snapshot) (sc_seq c) (ms ++ sc_items c).
Proof.
  intros Hrep. unfold validate_snapshot_commit. cbv zeta.
  change (foldl _ (snapshot_lanes snapshot) (sc_items c))
    with (log_lanes (snapshot_lanes snapshot) (sc_items c)).
  rewrite check_both, check_lanes, (snapshot_lanes_log _ _ Hrep).
  unfold reduce_lane_ref_with_commit, reduce_agent_graph_ref_with_commit. rewrite (rep_timeline _ _ Hrep).
  unfold log_lanes at 1 2. rewrite <-foldl_app.
  split; [intros [??]|intros [??]]; by split.
Qed.

(** A valid log reduces, and each of its lanes passes the final checks. *)
Lemma log_valid_state header last ms :
  log_valid header last ms -> Forall (fun m => costs_ok (smu_mutation m)) ms ->
  exists s, reduce_all header ms = Ok s /\ state_safe s
    /\ forall lane, lane ∈ log_lanes [sh_initial_lane header] ms -> reduces s last lane.
Proof.
  intros [Hl _] Hc. destruct (Hl (sh_initial_lane header)) as [r Hr]; [by apply log_lanes_mono; left|].
  apply obind_Ok_inv in Hr as (s & Hs & _). exists s.
  assert (state_safe s) as Hsafe by by eapply (reduce_fold_safe _ ms (initial_safe header) Hc).
  split_and!; [done|done|]. intros lane [r' Hr']%Hl.
  unfold reduce_lane_prefix in Hr'. rewrite Hs in Hr'. simpl in Hr'.
  apply finish_reduction_reduces; eauto.
Qed.

Lemma log_valid_intro header last ms s r :
  reduce_all header ms = Ok s -> state_safe s ->
  (forall lane, lane ∈ log_lanes [sh_initial_lane header] ms -> reduces s last lane) ->
  reduce_agent_graph_prefix header ms = Ok r -> log_valid header last ms.
Proof.
  intros Hs Hsafe Hl Hr. split; [|eauto]. intros lane Hin%Hl%finish_reduction_reduces; [|done].
  destruct Hin as [x Hx]. exists x. unfold reduce_lane_prefix. by rewrite Hs.
Qed.

Lemma reduce_all_requests_known header ms s : reduce_all header ms = Ok s -> requests_known s.
Proof.
  intros Hs. enough (state_lifecycle s /\ requests_known s) by naive_solver. revert s Hs.
  apply reduce_all_invariant.
  - split; [apply initial_lifecycle|by constructor].
  - by intros s' ? ? ? [??].
  - intros s' k m s'' [??] Hok. split; [by eapply apply_mutation_lifecycle|].
    by eapply apply_mutation_requests_known.
Qed.
End validation.

(** ** Reserved identities *)

(** The entry a record promises to a later result or revision. *)
Definition reserves (id : EntryId) (record : LaneRecord) : bool :=
  match record with
  | ToolStarted tool => ts_result_entry_id tool ==? id
  | HarnessActivationRequested request => ha_revision_entry_id request ==? id
  | _ => false
  end.
Definition reserved_entry (snapshot : SessionSnapshot) (id : EntryId) : bool :=
  existsb (fun stored => reserves id (sr_record stored)) (ss_records snapshot).

Section reserved.
Context `{Miniserde} `{Blake3}.

Lemma apply_mutation_reserved s k m s' id :
  apply_mutation s k m = Ok s' -> reserved s' id ->
  reserved s id \/ exists stored, m = MutRecord stored /\ reserves id (sr_record stored) = true.
Proof.
  unfold reserved. destruct m as [e|r|[seq ts [lane base]]|f']; simpl.
  - intros (_ & _ & _ & _ & requests & ops & -> & _)%on_entry_Ok. by left.
  - unfold on_record. destruct (sr_record r) eqn:Hr.
    1: { intros (_ & _ & _ & ? & ? & _ & ->)%on_operation_started_Ok. by left. }
    all: unfold_record_handlers; intros; reducer_inv; try (by left).
    all: match goal with Hin : _ \/ _ |- _ => rewrite map_app, elem_of_app in Hin; simpl in Hin end.
    all: match goal with |- context [_ = MutRecord _] => idtac end.
    all: destruct (decide (reserves id (sr_record r) = true)) as [|Hne]; [right; by exists r|left].
    all: rewrite Hr in Hne; simpl in Hne; rewrite eqb_true in Hne; set_solver.
  - intros (_ & _ & ->)%on_lane_created_Ok. by left.
  - unfold on_fact. destruct (sf_fact f'); unfold_fact_handlers; intros; reducer_inv; by left.
Qed.

Lemma reduce_fold_reserved s ms s' id :
  ofold reduce_step s ms = Ok s' -> reserved s' id ->
  reserved s id \/ existsb (fun stored => reserves id (sr_record stored)) (omap view_record ms) = true.
Proof.
  revert s. induction ms as [|m ms IH]; intros s; [intros [= <-]; by left|].
  change (omap view_record (m :: ms))
    with (match view_record m with Some y => y :: omap view_record ms | None => omap view_record ms end).
  intros (t & (_ & ready & _ & Ht)%reduce_step_Ok & Hms)%obind_Ok_inv Hr. unfold view_record at 1.
  destruct (IH t Hms Hr) as [Hrt|Hex].
  - destruct (apply_mutation_reserved _ _ _ _ _ Ht Hrt) as [?|(stored & Hm & Hres)]; [by left|right].
    rewrite Hm. cbn [existsb]. by rewrite Hres.
  - right. destruct (smu_mutation m); cbn [existsb]; [done| |done|done]. by rewrite Hex, orb_true_r.
Qed.

Lemma reduce_all_reserved header snapshot ms s id :
  represents snapshot ms -> reduce_all header ms = Ok s -> reserved s id ->
  reserved_entry snapshot id = true.
Proof.
  intros Hrep Hs Hr. unfold reserved_entry. rewrite (rep_records _ _ Hrep).
  destruct (reduce_fold_reserved _ _ _ _ Hs Hr) as [Hi|]; [|done].
  unfold reserved in Hi. simpl in Hi. set_solver.
Qed.
End reserved.

(** ** Reachable sessions *)

(** What the writer asks of its client: decimal cost texts, an unexhausted
    sequence counter, and no lone user message under a reserved identity. *)
Record admissible (snapshot : SessionSnapshot) (stored : StoredCommit) : Prop := {
  ad_costs : Forall (fun m => costs_ok (smu_mutation m)) (sc_items stored);
  ad_sequence : (ss_last_sequence snapshot < u64_max)%N;
  ad_reserved : forall m e, sc_items stored = [m] -> smu_mutation m = MutEntry e ->
    reserved_entry snapshot (eh_id (se_header e)) = false;
}.

Section reachable.
Context `{Miniserde} `{Blake3}.

Inductive reachable : MemorySession -> Prop :=
| reachable_create header session : memory_create header = Ok session -> reachable session
| reachable_commit session c now stored session' :
    reachable session -> memory_commit session c now = (Ok stored, session') ->
    admissible (mem_snapshot session) stored -> reachable session'
| reachable_fault session message : reachable session -> reachable (fault_for_test session message).

Record session_ok (session : MemorySession) (ms : list StoredMutation) (s : ReducerState) : Prop := {
  so_log : represents (mem_snapshot session) ms;
  so_costs : Forall (fun m => costs_ok (smu_mutation m)) ms;
  so_state : reduce_all (ss_header (mem_snapshot session)) ms = Ok s;
  so_sequence : ss_last_sequence (mem_snapshot session) = observed_sequence s;
  so_index : mem_append_index session = index_of s (agent_lanes_of ms);
  so_valid : log_valid (ss_header (mem_snapshot session)) (ss_last_sequence (mem_snapshot session)) ms;
}.

Lemma session_ok_empty header fault :
  session_ok (mk_memory_session (snapshot_empty header) (index_empty header) fault) []
    (initial_state header).
Proof.
  split; try done. split.
  - intros lane Hl. simpl in Hl. apply list_elem_of_singleton in Hl as ->.
    unfold reduce_lane_prefix. simpl. unfold finish_reduction. simpl. rewrite lookup_singleton_eq. simpl. eauto.
  - eexists. done.
Qed.

Lemma session_ok_created header session :
  memory_create header = Ok session ->
  session_ok session [] (initial_state (ss_header (mem_snapshot session))).
Proof. unfold memory_create. intros Hc. outcome_inv. apply session_ok_empty. Qed.

(** The log and state a valid longer log gives. *)
Lemma session_ok_extend session ms s stored index :
  session_ok session ms s -> commit_sealed stored ->
  Forall (fun m => costs_ok (smu_mutation m)) (sc_items stored) ->
  log_valid (ss_header (mem_snapshot session)) (sc_seq stored) (ms ++ sc_items stored) ->
  @ofold SessionError _ _ advance (mem_append_index session) (sc_items stored) = Ok index ->
  exists s', session_ok (session <| mem_append_index := index |>
                                 <| mem_snapshot ::= fun snap => push_commit snap stored |>)
    (ms ++ sc_items stored) s'.
Proof.
  intros [Hrep Hc Hs Hseq Hi Hv] Hsealed Hc' Hv' Hix.
  destruct (log_valid_state _ _ _ Hv' (proj2 (Forall_app _ _ _) (conj Hc Hc'))) as (s' & Hs' & Hsafe & Hr).
  exists s'. pose proof (represents_push_commit _ _ stored Hrep) as Hrep'.
  rewrite (restamp_sealed _ Hsealed) in Hrep'.
  pose proof (proj1 (push_commit_last (mem_snapshot session) stored)) as Hlast.
  split; simpl; rewrite ?push_commit_header, ?Hlast; try done.
  - by apply Forall_app.
  - apply (rd_sequence _ _ (sh_initial_lane (ss_header (mem_snapshot session))) (Hr _ ltac:(apply log_lanes_mono; by left))).
  - unfold reduce_all in Hs'. rewrite ofold_app in Hs'. unfold reduce_all in Hs. rewrite Hs in Hs'. simpl in Hs'.
    rewrite Hi, (advance_fold_of _ _ _ _ Hs') in Hix. injection Hix as <-.
    unfold agent_lanes_of. by rewrite foldl_app.
Qed.

(** A commit the index validated alone leaves a valid log. *)
Lemma fast_log_valid session ms s m ts stored c :
  session_ok session ms s ->
  prepare_commit (mem_snapshot session) (mem_append_index session) c ts = Ok stored ->
  admissible (mem_snapshot session) stored -> sc_items stored = [m] ->
  is_locally_validated_mutation (mem_append_index session) m = Ok true ->
  log_valid (ss_header (mem_snapshot session)) (sc_seq stored) (ms ++ [m]).
Proof.
  intros [Hrep Hc Hs Hseq Hi Hv] Hp [Hac Has Har] Hm Hl. rewrite Hi in Hp, Hl.
  pose proof (prepare_single_entry _ _ _ _ _ _ _ Hp Hm) as Hprep.
  pose proof (prepare_commit_sealed _ _ _ _ _ Hp) as Hsealed.
  apply prepare_commit_Ok in Hp as (b & d & _ & Hst).
  assert (smu_seq m = sc_seq stored) as Hms.
  { unfold commit_sealed in Hsealed. rewrite Hm in Hsealed. by apply Forall_cons_1 in Hsealed as [[? _] _]. }
  assert (smu_seq m = u64_saturating_add (observed_sequence s) 1) as Hnext.
  { rewrite Hms, Hst, <-Hseq. done. }
  rewrite Hm in Hac. apply Forall_cons_1 in Hac as [Hcm _].
  destruct (log_valid_state _ _ _ Hv Hc) as (s0 & Hs0 & Hsafe & Hred).
  assert (s0 = s) as -> by congruence.
  destruct (fast_step s _ m Hsafe Hcm Hprep Hnext Hl) as [s' Hs'].
  assert (reduce_all (ss_header (mem_snapshot session)) (ms ++ [m]) = Ok s') as Hall.
  { unfold reduce_all in *. rewrite ofold_snoc, Hs. done. }
  pose proof (proj2 (reduce_step_safe s m Hsafe Hcm) _ Hs') as Hsafe'.
  pose proof (locally_validated_fast _ _ Hl) as Hfast.
  destruct (lv_graph _ _ _ Hv) as [g Hg].
  destruct (fast_graph _ _ _ _ _ _ Hs Hg Hs' Hfast (locally_validated_outside _ _ _ Hl)) as [g' Hg'].
  { rewrite Hnext, <-Hseq, u64_saturating_add_exact; lia. }
  eapply log_valid_intro; [exact Hall|done| |exact Hg']. intros lane Hin. rewrite <-Hms.
  eapply fast_reduces; [exact Hsafe|by eapply reduce_all_requests_known|done|done| |exact Hs'|].
  - intros Htake. inversion Hfast as [e msg Hb Hme|stored' Hr Hme]; rewrite <-Hme in Htake; [|done].
    simpl in Htake. apply (reduce_all_reserved _ _ _ _ _ Hrep Hs) in Htake.
    rewrite (Har m e Hm) in Htake; [done|]. by rewrite <-Hme.
  - apply Hred. revert Hin. unfold log_lanes. rewrite foldl_app. simpl.
    by inversion Hfast.
Qed.

Lemma session_ok_commit session ms s c now stored session' :
  session_ok session ms s -> memory_commit session c now = (Ok stored, session') ->
  admissible (mem_snapshot session) stored ->
  exists s', session_ok session' (ms ++ sc_items stored) s'.
Proof.
  intros Hok Hcommit Had. unfold memory_commit in Hcommit.
  destruct (memory_accept session c now) as [[st index]| |] eqn:Ha; [|done..].
  injection Hcommit as -> <-. unfold memory_accept in Ha.
  apply obind_Ok_inv in Ha as ([] & _ & Ha). apply obind_Ok_inv in Ha as (st & Hp & Ha).
  apply obind_Ok_inv in Ha as ([] & Hval%map_err_Ok_inv & Ha).
  apply obind_Ok_inv in Ha as (index' & Hix & [= -> ->]).
  apply (session_ok_extend _ _ s); [done|by eapply prepare_commit_sealed|by apply Had| |done].
  unfold validate_prepared_commit in Hval. apply obind_Ok_inv in Hval as (local & Hlocal & Hval).
  destruct local.
  - destruct (sc_items stored) as [|m [|]] eqn:Hm; [done| |done]. by eapply fast_log_valid.
  - by apply validate_snapshot_commit_valid; [apply Hok|].
Qed.

Lemma reachable_session_ok session : reachable session -> exists ms s, session_ok session ms s.
Proof.
  induction 1 as [header session Hc|session c now stored session' _ (ms & s & Hok) Hcommit Had
                 |session message _ (ms & s & Hok)].
  - eexists _, _. by apply (session_ok_created header).
  - destruct (session_ok_commit _ _ _ _ _ _ _ Hok Hcommit Had) as [s' Hok']. eauto.
  - exists ms, s. by destruct Hok.
Qed.

End reachable.

(** ** One commit *)

Section one_commit.
Context `{Miniserde} `{Blake3}.

Lemma memory_accept_Ok session c now stored index :
  memory_accept session c now = Ok (stored, index) ->
  mem_fault session = None
  /\ prepare_commit (mem_snapshot session) (mem_append_index session) c now = Ok stored.
Proof.
  unfold memory_accept. intros ([] & Hw & (st & Hp & Hk)%obind_Ok_inv)%obind_Ok_inv. outcome_inv.
  unfold ensure_writable in Hw. by destruct (mem_fault session).
Qed.

(** A commit either fails and leaves the session unchanged, or stores one sealed item per
    requested item under the next sequence and the given time, chained to the previous digest,
    and the session's log grows by exactly those items. *)
Theorem memory_commit_effect session c now r session' :
  memory_commit session c now = (r, session') ->
  match r with
  | Ok stored =>
      mem_fault session = None
      /\ sc_seq stored = next_sequence (mem_snapshot session) /\ sc_timestamp_ms stored = now
      /\ sc_prev_digest stored = ss_last_digest (mem_snapshot session)
      /\ length (sc_items stored) = length (commit_items c) /\ commit_sealed stored
      /\ calculate_commit_digest (sh_session_id (ss_header (mem_snapshot session))) (sc_seq stored) now
           (sc_prev_digest stored) (map smu_mutation (sc_items stored)) = Ok (sc_digest stored)
      /\ ss_header (mem_snapshot session') = ss_header (mem_snapshot session)
      /\ ss_last_digest (mem_snapshot session') = sc_digest stored
      /\ forall ms, represents (mem_snapshot session) ms ->
           represents (mem_snapshot session') (ms ++ sc_items stored)
  | _ => session' = session
  end.
Proof.
  unfold memory_commit. destruct (memory_accept session c now) as [[stored index]| |] eqn:Ha;
    intros [= <- <-]; [|done..].
  apply memory_accept_Ok in Ha as [Hf Hp]. pose proof (prepare_commit_sealed _ _ _ _ _ Hp) as Hsealed.
  simpl. rewrite push_commit_header, (proj2 (push_commit_last _ _)).
  split_and!; try done; revert Hp; unfold prepare_commit;
    [intros (b & Hb & (_ & d & Hd & ->)%seal_commit_Ok)%obind_Ok_inv; simpl; try done..|].
  - apply prepare_items_length in Hb. simpl in Hb. by rewrite length_map.
  - by rewrite map_map, map_id.
  - intros _ ms Hrep. pose proof (represents_push_commit _ _ stored Hrep) as Hrep'.
    by rewrite (restamp_sealed _ Hsealed) in Hrep'.
Qed.

(** Cost texts of what a client commits. *)
Definition item_costs_ok (item : SessionCommitItem) : Prop :=
  match item with ItemRecord (UsageFact r) => cost_ok (ur_usage r) | _ => True end.

Lemma prepare_items_costs i seq ts b l b' :
  Forall item_costs_ok l -> Forall costs_ok (ba_items b) ->
  ofold (prepare_item i seq ts) b l = Ok b' -> Forall costs_ok (ba_items b').
Proof.
  intros Hl. revert b. induction Hl as [|x l Hx _ IH]; intros b Hb; simpl; [by intros [= <-]|].
  intros (b1 & Hb1 & Hrest)%obind_Ok_inv. eapply IH; [|exact Hrest].
  destruct x as [lane e|r|[lane base]|f']; simpl in Hb1; outcome_inv; simpl; apply Forall_app;
    (split; [done|]); constructor; try constructor; done.
Qed.

Lemma prepare_commit_no_panic snapshot i c ts r : prepare_commit snapshot i c ts <> Panic r.
Proof.
  unfold prepare_commit. apply obind_no_panic.
  - intros r'. apply ofold_unit_no_panic. intros b x r'' Hp.
    destruct x as [lane e|?|[lane base]|?]; simpl in Hp; panic_inv. unfold lane_leaf in Hp. panic_inv.
  - intros b r' Hp. unfold seal_commit, calculate_commit_digest in Hp. panic_inv.
Qed.

Lemma validate_snapshot_commit_no_panic `{!Blake3Law} snapshot ms c r :
  represents snapshot ms -> Forall (fun m => costs_ok (smu_mutation m)) (ms ++ sc_items c) ->
  validate_snapshot_commit snapshot c <> Panic r.
Proof.
  intros Hrep Hc. unfold validate_snapshot_commit. apply obind_no_panic.
  - intros r'. apply ofold_unit_no_panic. intros [] lane r''. apply obind_no_panic; [|done].
    intros r3 Hp. unfold reduce_lane_ref_with_commit in Hp. rewrite (rep_timeline _ _ Hrep) in Hp. simpl in Hp.
    destruct (reduce_fold_safe _ _ (initial_safe (ss_header snapshot)) Hc) as [Hnp Hsafe].
    apply obind_Panic_inv in Hp as [Hp|(s & Hs & Hp)]; [by eapply Hnp|].
    by eapply finish_reduction_no_panic; [apply Hsafe|].
  - intros [] r'. apply obind_no_panic; [|done]. intros r''. unfold reduce_agent_graph_ref_with_commit.
    rewrite (rep_timeline _ _ Hrep). simpl. apply reduce_agent_graph_no_panic.
Qed.

(** Committing to a reachable session never panics, for a hash that yields 32-byte digests
    and commits with decimal cost texts. *)
Theorem memory_commit_returns `{!Blake3Law} session c now r :
  reachable session -> Forall item_costs_ok (commit_items c) ->
  (memory_commit session c now).1 <> Panic r.
Proof.
  intros (ms & s & Hok)%reachable_session_ok Hc. unfold memory_commit.
  destruct (memory_accept session c now) as [[stored index]| |r'] eqn:Ha; [done..|]. intros [= ->].
  unfold memory_accept in Ha. apply obind_Panic_inv in Ha as [Ha|([] & _ & Ha)].
  { unfold ensure_writable in Ha. by destruct (mem_fault session). }
  apply obind_Panic_inv in Ha as [Ha|(stored & Hp & Ha)]; [by apply prepare_commit_no_panic in Ha|].
  apply obind_Panic_inv in Ha as [Ha%map_err_Panic_inv|([] & _ & Ha)].
  - unfold validate_prepared_commit in Ha. apply obind_Panic_inv in Ha as [Ha|(local & _ & Ha)].
    { repeat case_match; try done. by apply is_locally_validated_no_panic in Ha. }
    destruct local; [done|]. revert Ha. apply (validate_snapshot_commit_no_panic _ ms); [apply Hok|].
    apply Forall_app. split; [apply Hok|].
    apply prepare_commit_Ok in Hp as (b & d & Hb & ->). apply Forall_map. simpl.
    by eapply prepare_items_costs in Hb.
  - apply obind_Panic_inv in Ha as [Ha|(? & _ & Ha)]; [|done].
    destruct (ofold_total (fun _ => True) (@advance SessionError) (mem_append_index session) (sc_items stored))
      as (i & Hi & _); [|done|congruence].
    intros i m _ _. destruct (advance_total (E := SessionError) i m) as [i' ->]. eauto.
Qed.
End one_commit.

Local Open Scope N_scope.
#[local] Existing Instance toy_miniserde.
#[local] Existing Instance padded_blake3.
#[local] Existing Instance padded_blake3_law.

(** A sufficient test of [admissible] for commits without usage records. *)
Definition no_usage (m : StoredMutation) : bool :=
  match smu_mutation m with
  | MutRecord stored => match sr_record stored with UsageFact _ => false | _ => true end
  | _ => true
  end.
Definition admissible_test (snapshot : SessionSnapshot) (stored : StoredCommit) : bool :=
  forallb no_usage (sc_items stored) && (ss_last_sequence snapshot <? u64_max)
  && match sc_items stored with
     | [m] => match smu_mutation m with
              | MutEntry e => negb (reserved_entry snapshot (eh_id (se_header e)))
              | _ => true
              end
     | _ => true
     end.

Lemma admissible_test_sound snapshot stored :
  admissible_test snapshot stored = true -> admissible snapshot stored.
Proof.
  unfold admissible_test. rewrite !andb_true_iff, N.ltb_lt, forallb_forall. intros [[Hu Hs] Hr].
  split; [|done|].
  - apply Forall_forall. intros m Hm. apply list_elem_of_In in Hm. specialize (Hu m Hm).
    unfold no_usage in Hu. unfold costs_ok. repeat case_match; done.
  - intros m e Hm He. rewrite Hm, He in Hr. by apply negb_true_iff.
Qed.

(** Commit groups in order; [None] when one is refused or not admissible. *)
Fixpoint run (session : MemorySession) (cs : list SessionCommit) : option MemorySession :=
  match cs with
  | [] => Some session
  | c :: cs =>
      match memory_commit session c 7 with
      | (Ok stored, session') =>
          if admissible_test (mem_snapshot session) stored then run session' cs else None
      | _ => None
      end
  end.

Lemma run_reachable cs session session' :
  reachable session -> run session cs = Some session' -> reachable session'.
Proof.
  revert session. induction cs as [|c cs IH]; intros session Hr; simpl; [by intros [= <-]|].
  destruct (memory_commit session c 7) as [[stored| |] s1] eqn:Hc; try done.
  destruct (admissible_test _ stored) eqn:Had; [|done]. apply IH.
  eapply reachable_commit; [exact Hr|exact Hc|]. by apply admissible_test_sound.
Qed.

Definition no_session : MemorySession :=
  mk_memory_session (snapshot_empty header) (index_empty header) None.
Definition created : MemorySession := outcome_or (memory_create header) no_session.
Definition after (cs : list SessionCommit) : MemorySession := default no_session (run created cs).

Definition start_commit : SessionCommit :=
  commit_one (ItemRecord (OperationStarted
    (operation_started_new (mk_id "o") lane_main None KindRun [user_input] (mk_id "h") (mk_id "p")))).
Definition input_commit : SessionCommit := commit_one (ItemEntry lane_main user_input).
Definition turn_commits : list SessionCommit :=
  [ start_commit; input_commit;
    commit_one (ItemRecord (EpochStarted (mk_epoch_started (mk_id "ep") (mk_id "o") 0 (Some (mk_id "u"))
      (mk_id "h") (mk_id "hs") (mk_id "p") (mk_id "run") ∅)));
    mk_commit [ItemEntry lane_main (mk_provisioned (mk_id "a") assistant_body);
               ItemRecord (ToolStarted tool_start)] ].
(** A user message under the identity the tool result was promised. *)
Definition stray_commit : SessionCommit :=
  commit_one (ItemEntry lane_main (mk_provisioned (mk_id "tr") user_body)).

Example turn_commits_accepted : is_ok (validate_snapshot (mem_snapshot (after turn_commits))) = true.
Proof. vm_compute. reflexivity. Qed.

(** ** The theorems at this session *)

Lemma created_reachable : reachable created.
Proof. apply (reachable_create header). vm_compute. reflexivity. Qed.

Lemma after_reachable cs :
  (match run created cs with Some _ => true | None => false end) = true -> reachable (after cs).
Proof.
  unfold after. destruct (run created cs) as [session|] eqn:Hr; [|done]. intros _.
  by eapply run_reachable; [apply created_reachable|].
Qed.

Lemma turn_reachable : reachable (after turn_commits).
Proof. apply after_reachable. vm_compute. reflexivity. Qed.

Lemma append_index_tracks_reducer_witness :
  @ofold Corruption _ _ advance (index_empty header) turn_settled
  = Ok (index_of (state_of turn_settled) (agent_lanes_of turn_settled)).
Proof.
  apply (@append_index_tracks_reducer toy_miniserde toy_blake3 Corruption header turn_settled).
  exact turn_settled_Ok.
Defined.


Definition stray_result : Outcome SessionError StoredCommit := (memory_commit (after turn_commits) stray_commit 7).1.
Definition after_stray : MemorySession := (memory_commit (after turn_commits) stray_commit 7).2.

Lemma stray_result_eq : memory_commit (after turn_commits) stray_commit 7 = (stray_result, after_stray).
Proof. unfold stray_result, after_stray. by destruct (memory_commit _ _ _). Qed.

Lemma memory_commit_effect_witness :
  match stray_result with
  | Ok stored => sc_seq stored = 5 /\ length (sc_items stored) = 1%nat
  | _ => after_stray = after turn_commits
  end.
Proof.
  pose proof (memory_commit_effect (after turn_commits) stray_commit 7 stray_result after_stray stray_result_eq)
    as He.
  destruct stray_result as [stored| |]; [|exact He..]. destruct He as (_ & Hs & _ & _ & Hl & _).
  split; [rewrite Hs; vm_compute; reflexivity|exact Hl].
Defined.

Lemma memory_commit_returns_witness :
  (memory_commit (after turn_commits) stray_commit 7).1 <> Panic "index out of bounds".
Proof.
  apply (memory_commit_returns (after turn_commits) stray_commit 7); [exact turn_reachable|].
  by repeat constructor.
Defined.

(** C40: A lone user message committed under the entry identity a tool intent reserved passes
    incremental validation, and the session it leaves is reported as corrupt when reopened. *)
Theorem stray_user_message_corrupts :
  reachable (after turn_commits)
  /\ reserved_entry (mem_snapshot (after turn_commits)) (mk_id "tr") = true
  /\ is_ok stray_result = true
  /\ validate_snapshot (mem_snapshot after_stray)
     = corrupt ["provisioned tool result entry "; "tr"; " materialized with a non-tool-result body"].
Proof. split; [exact turn_reachable|]. split_and!; vm_compute; reflexivity. Qed.
