(* ===== verification/Jsonl.v ===== *)
(** * tea-session: the JSONL session file ([crates/tea-session/src/jsonl.rs])

    The authoritative log is one file: the sealed header on its first line,
    then one line per commit.  This file models the bounded line reader, the
    replay of a file, the append of one line and the operations of
    [JsonlSession] on a session directory.

    What the operating system answers is an argument: a file is read as a
    sequence of buffer contents or failures, and each writing call comes with
    the failures it meets.  A file is its bytes together with how many of
    them are known to be on the device, which only a synchronization
    advances.  Locks, permissions and directory creation appear only through
    the failures they may report. *)

From stdpp Require Import base gmap sets list strings.
From S2P Require Import Prelude RustStr Json Ids Model Records Snapshot Reduction Agents.
From S2P Require Import SessionErrors WireEncode WireDecode WireSeal Store.

Local Open Scope N_scope.

Definition MAX_SESSION_LINE_BYTES : N := 2097152.
#[global] Arguments MAX_SESSION_LINE_BYTES : simpl never.

(** [b'\n']. *)
Definition NEWLINE : N := 10.

Inductive DurabilityMode := Strict | Development.
#[export] Instance durability_mode_eq_dec : EqDecision DurabilityMode.
Proof. solve_decision. Defined.

(** ** Reading lines *)

(** What filling the empty buffer of a [BufReader] gives; no further item
    means the end of the file. *)
Inductive Read := Data (bytes : list N) | ReadFailed (message : string).

Record CompleteLine := mk_complete_line {
  cl_line : N;
  cl_offset : N;
  cl_bytes : list N;
}.

Inductive ReadLine :=
| Complete (line : CompleteLine)
| LineEnd
| IncompleteTail (offset : N).

Record BoundedLineReader := mk_line_reader {
  blr_reads : list Read;
  blr_next_line : N;
  blr_next_offset : N;
}.

(** [BoundedLineReader::new]. *)
Definition line_reader_new (reads : list Read) : BoundedLineReader := mk_line_reader reads 1 0.

(** [buffer.iter().position(|byte| *byte == b'\n')]. *)
Fixpoint newline_position (buffer : list N) : option nat :=
  match buffer with
  | [] => None
  | b :: buffer => if b =? NEWLINE then Some 0%nat else S <$> newline_position buffer
  end.

(** [BufRead::consume]: what is left of the buffer is returned first by the
    next call of [fill_buf]. *)
Definition consume (n : nat) (buffer : list N) (reads : list Read) : list Read :=
  match drop n buffer with
  | [] => reads
  | rest => Data rest :: reads
  end.

Definition format_error (path : string) (line offset : N) (message : Message) : SessionError :=
  FormatError path line offset None None message.

Definition line_limit_message (what : string) : Message :=
  [Lit what; Lit " exceeds the "; Num MAX_SESSION_LINE_BYTES; Lit "-byte line limit"].

(** The loop of [BoundedLineReader::next_line], on the buffers still to come. *)
Fixpoint next_line_loop (path : string) (line offset : N) (reads : list Read) (next_offset : N)
    (bytes : list N) (oversized : bool) : Outcome SessionError (ReadLine * BoundedLineReader) :=
  let at_end :=
    Ok (match bytes, oversized with
        | [], false => LineEnd
        | _, _ => IncompleteTail offset
        end, mk_line_reader reads line next_offset) in
  match reads with
  | [] => at_end
  | ReadFailed message :: _ => Err (IoError path message)
  | Data [] :: _ => at_end
  | Data buffer :: reads =>
      let newline := newline_position buffer in
      let content_length := default (length buffer) newline in
      let '(bytes, oversized) :=
        if oversized then (bytes, oversized)
        else if MAX_SESSION_LINE_BYTES
                <? u64_saturating_add (N.of_nat (length bytes)) (N.of_nat content_length)
        then ([], true)
        else (bytes ++ take content_length buffer, false) in
      let consumed := match newline with None => length buffer | Some position => (position + 1)%nat end in
      let next_offset := u64_saturating_add next_offset (N.of_nat consumed) in
      match newline with
      | Some _ =>
          if oversized then Err (format_error path line offset (line_limit_message "session line"))
          else Ok (Complete (mk_complete_line line offset bytes),
                   mk_line_reader (consume consumed buffer reads) (u64_saturating_add line 1) next_offset)
      | None => next_line_loop path line offset reads next_offset bytes oversized
      end
  end.

(** [BoundedLineReader::next_line]. *)
Definition next_line (path : string) (reader : BoundedLineReader) :
    Outcome SessionError (ReadLine * BoundedLineReader) :=
  next_line_loop path (blr_next_line reader) (blr_next_offset reader) (blr_reads reader)
    (blr_next_offset reader) [] false.

Section jsonl.
Context `{Miniserde} `{Blake3}.

(** [parse_canonical_line]. *)
Definition parse_canonical_line (path : string) (line : CompleteLine) :
    Outcome SessionError JsonValue :=
  let format := format_error path (cl_line line) (cl_offset line) in
  let? source := map_err (fun error => format [Lit "session JSONL is not UTF-8: "; OfUtf8 error])
    (from_utf8 (cl_bytes line)) in
  let? value := map_err (fun error => format [OfJson error]) (json_parse source) in
  let? canonical := map_err
    (fun error => format [Lit "could not re-encode session JSON canonically: "; OfJson error])
    (to_json_string value) in
  if bool_decide (bytes_of canonical = cl_bytes line) then Ok value
  else Err (format [Lit "session line is not canonical JSON"]).

(** [format_mutation_error], [format_decoded_mutation_error]. *)
Definition format_mutation_error (path : string) (line offset : N) (error : MutationDecodeError) :
    SessionError :=
  FormatError path line offset (mde_sequence error) (mde_mutation_kind error) (mde_message error).
Definition format_decoded_mutation_error (path : string) (line offset : N) (commit : StoredCommit)
    (message : Message) : SessionError :=
  FormatError path line offset (Some (sc_seq commit)) (Some "commit") message.

(** ** Replaying a file *)

(** The body of the loop of [decode_snapshot_stream] for a complete line. *)
Definition decode_commit_line (path : string) (line : CompleteLine)
    (state : SessionSnapshot * SessionAppendIndex) :
    Outcome SessionError (SessionSnapshot * SessionAppendIndex) :=
  let '(snapshot, append_index) := state in
  let? value := parse_canonical_line path line in
  let? commit := map_err (format_mutation_error path (cl_line line) (cl_offset line))
    (decode_mutation value (sh_session_id (ss_header snapshot))) in
  let reject := format_decoded_mutation_error path (cl_line line) (cl_offset line) commit in
  if sc_seq commit !=? next_sequence snapshot then
    Err (reject [Lit "non-consecutive sequence "; Num (sc_seq commit); Lit "; expected ";
                 Num (next_sequence snapshot)])
  else if sc_prev_digest commit !=? ss_last_digest snapshot then
    Err (reject [Lit "previous digest mismatch"])
  else
    let? append_index := ofold advance append_index (sc_items commit) in
    Ok (push_commit snapshot commit, append_index).

Definition Decoded_stream : Type := SessionSnapshot * SessionAppendIndex * option N.

(** The loop of [decode_snapshot_stream]. *)
Fixpoint decode_commit_lines (fuel : nat) (path : string) (reader : BoundedLineReader)
    (state : SessionSnapshot * SessionAppendIndex) : Outcome SessionError Decoded_stream :=
  match fuel with
  | O => Panic "more lines than bytes"
  | S fuel =>
      let? (line, reader) := next_line path reader in
      match line with
      | Complete line =>
          let? state := decode_commit_line path line state in
          decode_commit_lines fuel path reader state
      | LineEnd => Ok (state, None)
      | IncompleteTail offset => Ok (state, Some offset)
      end
  end.

(** The bytes still to be read. *)
Definition read_length (read : Read) : nat :=
  match read with Data bytes => length bytes | ReadFailed _ => 0 end.
Definition reads_length (reads : list Read) : nat := sum_list_with read_length reads.

(** The header line of [decode_snapshot_stream]: the empty snapshot and index. *)
Definition decode_header_line (path : string) (line : CompleteLine) :
    Outcome SessionError (SessionSnapshot * SessionAppendIndex) :=
  let? header_json := parse_canonical_line path line in
  let? header := map_err (format_error path (cl_line line) (cl_offset line))
    (decode_header header_json) in
  let snapshot := snapshot_empty header in
  Ok (snapshot, index_empty (ss_header snapshot)).

Definition no_header_error (path : string) : SessionError :=
  format_error path 1 0 [Lit "session file has no complete header line"].

(** [decode_snapshot_stream], on what reading the file from its start gives. *)
Definition decode_snapshot_stream (path : string) (reads : list Read) :
    Outcome SessionError Decoded_stream :=
  let? (header_line, reader) := next_line path (line_reader_new reads) in
  match header_line with
  | LineEnd | IncompleteTail _ => Err (no_header_error path)
  | Complete header_line =>
      let? state := decode_header_line path header_line in
      decode_commit_lines (S (reads_length (blr_reads reader))) path reader state
  end.

(** One call of [read] on a one-byte buffer. *)
Inductive ByteRead := Byte (byte : N) | ByteFailed (message : string).

(** The loop of [read_first_complete_line]. *)
Fixpoint first_line_loop (path : string) (reads : list ByteRead) (bytes : list N) :
    Outcome SessionError (option (list N)) :=
  match reads with
  | [] => Ok None
  | ByteFailed message :: _ => Err (IoError path message)
  | Byte byte :: reads =>
      if byte =? NEWLINE then Ok (Some bytes)
      else if N.of_nat (length bytes) =? MAX_SESSION_LINE_BYTES then
        Err (format_error path 1 0 (line_limit_message "session header"))
      else first_line_loop path reads (bytes ++ [byte])
  end.

(** [read_first_complete_line]. *)
Definition read_first_complete_line (path : string) (reads : list ByteRead) :
    Outcome SessionError (option string) :=
  let? bytes := first_line_loop path reads [] in
  match bytes with
  | None => Ok None
  | Some bytes =>
      let? text := map_err
        (fun error => format_error path 1 0 [Lit "session header is not UTF-8: "; OfUtf8 error])
        (from_utf8 bytes) in
      Ok (Some text)
  end.

(** The test of [reject_unsupported_format] on the fields of an object that
    names a kind. *)
Definition format_unsupported (kind : string) (fields : list (string * JsonValue)) : bool :=
  negb (String.eqb kind SESSION_HEADER_KIND)
  || ((btree_get "format" fields ≫= json_as_str) !=? Some SESSION_FORMAT_IDENTITY)
  || match btree_get "version" fields ≫= json_as_u64 with
     | Some version => negb (version =? SESSION_FORMAT_VERSION)
     | None => false
     end.

(** [reject_unsupported_format]. *)
Definition reject_unsupported_format (path : string) (reads : list ByteRead) :
    Outcome SessionError unit :=
  let? header_line := read_first_complete_line path reads in
  match header_line with
  | None => Ok ()
  | Some header_line =>
      match json_parse header_line with
      | Panic r => Panic r
      | Err _ => Ok ()
      | Ok header =>
          match json_as_object header with
          | None => Ok ()
          | Some fields =>
              match btree_get "kind" fields ≫= json_as_str with
              | None => Ok ()
              | Some kind =>
                  if format_unsupported kind fields
                  then Err (UnsupportedFormat path (btree_get "version" fields ≫= json_as_u64))
                  else Ok ()
              end
          end
      end
  end.
End jsonl.
