(* ===== verification/JsonlSession.v ===== *)
(** * tea-session: writing a session directory
    ([JsonlSession] of [crates/tea-session/src/jsonl.rs])

    Appending one line, the disposable [HEAD] cache, and the operations that
    create, open, inspect, repair and extend a session directory.  A
    directory is its log file and its cache; an operation returns its result
    together with the directory it leaves. *)

From stdpp Require Import base gmap sets list strings.
From S2P Require Import Prelude RustStr Json Ids Model Records Snapshot Reduction Agents.
From S2P Require Import SessionErrors WireEncode WireDecode WireSeal Store Jsonl.

Local Open Scope N_scope.

(** ** The log file *)

(** The bytes of a file and the length of the prefix that has been
    synchronized to the device. *)
Record LogFile := mk_log_file {
  lf_bytes : list N;
  lf_synced : nat;
}.
#[export] Instance log_file_eta : Eta LogFile := fun f' => mk_log_file (lf_bytes f') (lf_synced f').

(** [write_all] on a file positioned at its end, [sync_data] and [set_len]. *)
Definition file_append (file : LogFile) (bytes : list N) : LogFile :=
  file <| lf_bytes ::= fun l => l ++ bytes |>.
Definition file_sync (file : LogFile) : LogFile :=
  file <| lf_synced := length (lf_bytes file) |>.
Definition file_truncate (file : LogFile) (len : N) : LogFile :=
  mk_log_file (take (N.to_nat len) (lf_bytes file)) (lf_synced file `min` N.to_nat len).

(** The failures one append meets: [write_all] of the text may stop after
    some of its bytes. *)
Record LineIo := mk_line_io {
  li_json : option (nat * string);
  li_newline : option string;
  li_flush : option string;
  li_sync : option string;
}.

(** [ensure_complete_line_size]. *)
Definition ensure_complete_line_size (json : string) : Outcome SessionError unit :=
  if MAX_SESSION_LINE_BYTES <? N.of_nat (str_len json)
  then Err (InvalidInput (line_limit_message "session line")) else Ok ().

(** [write_complete_line]. *)
Definition write_complete_line (file : LogFile) (json : string) (durability : DurabilityMode)
    (path : string) (io : LineIo) : Outcome SessionError unit * LogFile :=
  match ensure_complete_line_size json with
  | Panic r => (Panic r, file)
  | Err error => (Err error, file)
  | Ok _ =>
      match li_json io with
      | Some (written, message) =>
          (Err (IndeterminateWrite path message), file_append file (take written (bytes_of json)))
      | None =>
          let file := file_append file (bytes_of json) in
          match li_newline io with
          | Some message => (Err (IndeterminateWrite path message), file)
          | None =>
              let file := file_append file [NEWLINE] in
              match li_flush io, durability, li_sync io with
              | Some message, _, _ => (Err (IndeterminateWrite path message), file)
              | None, Strict, Some message => (Err (IndeterminateWrite path message), file)
              | None, Strict, None => (Ok (), file_sync file)
              | None, Development, _ => (Ok (), file)
              end
          end
      end
  end.

(** ** The [HEAD] cache *)

(** [HEAD] is [None] when it is not a regular file that can be read. *)
Record SessionDirectory := mk_directory {
  dir_log : LogFile;
  dir_head : option (list N);
}.
#[export] Instance directory_eta : Eta SessionDirectory := fun d =>
  mk_directory (dir_log d) (dir_head d).

(** The failures of one cache replacement, and the name of the temporary file. *)
Record HeadIo := mk_head_io {
  hi_temporary : string;
  hi_open : option string;
  hi_write : option string;
  hi_sync : option string;
  hi_rename : option string;
  hi_directory_sync : option string;
}.

(** [snapshot.active_main_harness_revision()]. *)
Definition active_main_harness_revision (snapshot : SessionSnapshot) : option HarnessRevisionId :=
  ss_main_harness_revision snapshot.

Definition path_join (directory name : string) : string := directory +:+ "/" +:+ name.

Section session.
Context `{Miniserde} `{Blake3}.

(** [head_cache_contents]. *)
Definition head_cache_contents (snapshot : SessionSnapshot) : Outcome SessionError string :=
  map_err (fun error => InvalidInput [Lit "HEAD cache cannot encode as JSON: "; OfJson error])
    (to_json_string (json_object
      [("active_harness_revision",
        match active_main_harness_revision snapshot with
        | Some revision => string_value revision
        | None => JsonNull
        end);
       ("header_digest", JsonString (digest_to_hex (sh_digest (ss_header snapshot))));
       ("session_id", string_value (sh_session_id (ss_header snapshot)));
       ("version", u64_value 1)])).

(** [write_head_cache]: the temporary file replaces [HEAD] by a rename. *)
Definition write_head_cache (directory : string) (head : option (list N)) (snapshot : SessionSnapshot)
    (durability : DurabilityMode) (io : HeadIo) : Outcome SessionError unit * option (list N) :=
  match hi_open io with
  | Some message => (Err (IoError (hi_temporary io) message), head)
  | None =>
      match head_cache_contents snapshot with
      | Panic r => (Panic r, head)
      | Err error => (Err error, head)
      | Ok contents =>
          match hi_write io, durability, hi_sync io with
          | Some message, _, _ | None, Strict, Some message =>
              (Err (IoError (hi_temporary io) message), head)
          | _, _, _ =>
              match hi_rename io with
              | Some message => (Err (IoError (path_join directory "HEAD") message), head)
              | None =>
                  let head := Some (bytes_of contents ++ [NEWLINE]) in
                  match durability, hi_directory_sync io with
                  | Strict, Some message => (Err (IoError directory message), head)
                  | _, _ => (Ok (), head)
                  end
              end
          end
      end
  end.

(** [head_cache_matches]. *)
Definition head_cache_matches (head : option (list N)) (snapshot : SessionSnapshot) : bool :=
  match head with
  | None => false
  | Some contents =>
      if 16 * 1024 <? N.of_nat (length contents) then false
      else
        match head_cache_contents snapshot with
        | Ok expected => bool_decide (contents = bytes_of expected ++ [NEWLINE])
        | _ => false
        end
  end.

(** [selects_main_harness_revision]. *)
Definition selects_main_harness_revision (mutation : StoredMutation) : bool :=
  match smu_mutation mutation with
  | MutEntry entry =>
      (se_lane_id entry ==? lane_main)
      && match se_body entry with HarnessRevisionChanged _ => true | _ => false end
  | _ => false
  end.

(** ** Sessions *)

Record JsonlSession := mk_jsonl_session {
  js_directory : string;
  js_session_path : string;
  js_snapshot : SessionSnapshot;
  js_append_index : SessionAppendIndex;
  js_durability : DurabilityMode;
  js_fault : option Message;
  js_cache_warning : option Message;
}.
#[export] Instance jsonl_session_eta : Eta JsonlSession := fun s =>
  mk_jsonl_session (js_directory s) (js_session_path s) (js_snapshot s) (js_append_index s)
    (js_durability s) (js_fault s) (js_cache_warning s).

(** [.err().map(|error| error.to_string())]. *)
Definition warning_of (result : Outcome SessionError unit) : option Message :=
  match result with Err error => Some (session_error_display error) | _ => None end.

(** [JsonlSession::writable]. *)
Definition writable (session : JsonlSession) : Outcome SessionError unit :=
  match js_fault session with
  | Some message => Err (Faulted message)
  | None => Ok ()
  end.

(** [JsonlSession::write_commit] up to the append: the stored commit and its
    text. *)
Definition prepare_line (session : JsonlSession) (commit : SessionCommit) (now_ms : N) :
    Outcome SessionError (StoredCommit * string) :=
  check? writable session in
  let? stored := prepare_commit (js_snapshot session) (js_append_index session) commit now_ms in
  check? map_err CorruptionError
    (validate_prepared_commit (js_snapshot session) (js_append_index session) stored) in
  let? encoded := map_err
    (fun error => InvalidInput [Lit "session commit cannot encode as JSON: "; OfJson error])
    (to_json_string (encode_commit stored)) in
  check? ensure_complete_line_size encoded in
  Ok (stored, encoded).

Definition is_indeterminate (error : SessionError) : bool :=
  match error with IndeterminateWrite _ _ => true | _ => false end.

(** [JsonlSession::write_commit] after the append: the reduced state advances
    and the cache follows a change of the main harness revision. *)
Definition absorb_commit (session : JsonlSession) (dir : SessionDirectory) (stored : StoredCommit)
    (head_io : HeadIo) : Outcome SessionError StoredCommit * JsonlSession * SessionDirectory :=
  match ofold advance (js_append_index session) (sc_items stored) with
  | Err error => (Err error, session, dir)
  | Panic r => (Panic r, session, dir)
  | Ok append_index =>
      let session := session <| js_append_index := append_index |>
                             <| js_snapshot ::= fun snapshot => push_commit snapshot stored |> in
      if existsb selects_main_harness_revision (sc_items stored) then
        let '(result, head) := write_head_cache (js_directory session) (dir_head dir)
                                 (js_snapshot session) (js_durability session) head_io in
        (Ok stored, session <| js_cache_warning := warning_of result |>, dir <| dir_head := head |>)
      else (Ok stored, session, dir)
  end.

(** [JsonlSession::write_commit]. *)
Definition write_commit (session : JsonlSession) (dir : SessionDirectory) (commit : SessionCommit)
    (now_ms : N) (line_io : LineIo) (head_io : HeadIo) :
    Outcome SessionError StoredCommit * JsonlSession * SessionDirectory :=
  match prepare_line session commit now_ms with
  | Panic r => (Panic r, session, dir)
  | Err error => (Err error, session, dir)
  | Ok (stored, encoded) =>
      let '(result, log) := write_complete_line (dir_log dir) encoded (js_durability session)
                              (js_session_path session) line_io in
      let dir := dir <| dir_log := log |> in
      match result with
      | Panic r => (Panic r, session, dir)
      | Err error =>
          let session :=
            if is_indeterminate error
            then session <| js_fault := Some (session_error_display error) |> else session in
          (Err error, session, dir)
      | Ok _ => absorb_commit session dir stored head_io
      end
  end.

(** The failures of one creation, and the paths it works on. *)
Record CreateIo := mk_create_io {
  ci_exists : bool;
  ci_parent : option SessionError;
  ci_temporary : string;
  ci_prepare : option SessionError;
  ci_line : LineIo;
  ci_head : HeadIo;
  ci_sync_temporary : option SessionError;
  ci_publish : option SessionError;
  ci_sync_parent : option SessionError;
}.

(** An effect that succeeds or reports the given failure. *)
Definition attempt (failure : option SessionError) : Outcome SessionError unit :=
  match failure with Some error => Err error | None => Ok () end.

(** An effect only strict durability performs. *)
Definition attempt_strict (durability : DurabilityMode) (failure : option SessionError) :
    Outcome SessionError unit :=
  match durability with Strict => attempt failure | Development => Ok () end.

(** [JsonlSession::create] before the temporary directory: the sealed header
    and its text. *)
Definition prepare_creation (directory : string) (header : SessionHeader) (io : CreateIo) :
    Outcome SessionError (SessionHeader * string) :=
  check?
    (if negb (String.eqb (sh_kind header) SESSION_HEADER_KIND)
        || negb (String.eqb (sh_format header) SESSION_FORMAT_IDENTITY)
        || negb (sh_version header =? SESSION_FORMAT_VERSION)
     then Err (InvalidInput [Lit "JSONL v1 creation requires a v1 session header"]) else Ok ()) in
  let? header := seal_header header in
  check?
    (if ci_exists io
     then Err (IoError directory "refusing to create a session over an existing directory")
     else Ok ()) in
  check? attempt (ci_parent io) in
  let? value := encode_header header in
  let? encoded := map_err
    (fun error => InvalidInput [Lit "session header cannot encode as JSON: "; OfJson error])
    (to_json_string value) in
  Ok (header, encoded).

(** [JsonlSession::create] in the temporary directory: what will be published. *)
Definition populate_directory (header : SessionHeader) (encoded : string)
    (durability : DurabilityMode) (io : CreateIo) : Outcome SessionError SessionDirectory :=
  check? attempt (ci_prepare io) in
  let '(written, log) := write_complete_line (mk_log_file [] 0) encoded durability
                           (path_join (ci_temporary io) "session.jsonl") (ci_line io) in
  check? written in
  let '(cached, head) := write_head_cache (ci_temporary io) None (snapshot_empty header) durability
                           (ci_head io) in
  check? cached in
  check? attempt_strict durability (ci_sync_temporary io) in
  Ok (mk_directory log head).

(** [JsonlSession::create]: the result and the published directory, if any. *)
Definition jsonl_create (directory : string) (header : SessionHeader) (durability : DurabilityMode)
    (io : CreateIo) : Outcome SessionError JsonlSession * option SessionDirectory :=
  match
    let? (header, encoded) := prepare_creation directory header io in
    let? dir := populate_directory header encoded durability io in
    check? attempt (ci_publish io) in
    Ok (header, dir)
  with
  | Panic r => (Panic r, None)
  | Err error => (Err error, None)
  | Ok (header, dir) =>
      let session := mk_jsonl_session directory (path_join directory "session.jsonl")
                       (snapshot_empty header) (index_empty header) durability None None in
      (check? attempt_strict durability (ci_sync_parent io) in Ok session, Some dir)
  end.

(** What opening a directory meets: a failure before the log can be read,
    and the two readings of the log. *)
Record OpenIo := mk_open_io {
  oi_acquire : option SessionError;
  oi_first : list ByteRead;
  oi_reads : list Read;
}.

(** The common start of [open], [inspect] and [repair_torn_tail]. *)
Definition read_log (path : string) (io : OpenIo) : Outcome SessionError Decoded_stream :=
  check? attempt (oi_acquire io) in
  check? reject_unsupported_format path (oi_first io) in
  decode_snapshot_stream path (oi_reads io).

Definition validate_replayed (snapshot : SessionSnapshot) : Outcome SessionError unit :=
  map_err CorruptionError (validate_snapshot snapshot).

(** [JsonlSession::open]: the session and the directory it leaves. *)
Definition jsonl_open (directory : string) (dir : SessionDirectory) (durability : DurabilityMode)
    (io : OpenIo) (head_io : HeadIo) : Outcome SessionError JsonlSession * SessionDirectory :=
  let path := path_join directory "session.jsonl" in
  match
    let? (snapshot, append_index, incomplete_tail_offset) := read_log path io in
    check? match incomplete_tail_offset with
           | Some offset => Err (RecoveryRequired path offset)
           | None => Ok ()
           end in
    check? validate_replayed snapshot in
    Ok (snapshot, append_index)
  with
  | Panic r => (Panic r, dir)
  | Err error => (Err error, dir)
  | Ok (snapshot, append_index) =>
      let '(cached, head) :=
        if head_cache_matches (dir_head dir) snapshot then (Ok (), dir_head dir)
        else write_head_cache directory (dir_head dir) snapshot durability head_io in
      (Ok (mk_jsonl_session directory path snapshot append_index durability None (warning_of cached)),
       dir <| dir_head := head |>)
  end.

(** [JsonlSession::inspect]. *)
Definition jsonl_inspect (directory : string) (io : OpenIo) :
    Outcome SessionError (SessionSnapshot * option N) :=
  let? (snapshot, _, torn_tail_offset) := read_log (path_join directory "session.jsonl") io in
  check? validate_replayed snapshot in
  Ok (snapshot, torn_tail_offset).

(** [SessionRepair]: the truncated offset and the cache warning. *)
Definition SessionRepair : Type := option N * option Message.

(** The truncation of [repair_torn_tail]: failures of [set_len] and
    [sync_data]. *)
Definition truncate_tail (path : string) (log : LogFile) (offset : N) (durability : DurabilityMode)
    (set_len sync : option string) : Outcome SessionError unit * LogFile :=
  match set_len with
  | Some message => (Err (IoError path message), log)
  | None =>
      let log := file_truncate log offset in
      match durability, sync with
      | Strict, Some message => (Err (IoError path message), log)
      | Strict, None => (Ok (), file_sync log)
      | Development, _ => (Ok (), log)
      end
  end.

(** [JsonlSession::repair_torn_tail]. *)
Definition repair_torn_tail (directory : string) (dir : SessionDirectory) (durability : DurabilityMode)
    (io : OpenIo) (set_len sync : option string) (head_io : HeadIo) :
    Outcome SessionError SessionRepair * SessionDirectory :=
  let path := path_join directory "session.jsonl" in
  match jsonl_inspect directory io with
  | Panic r => (Panic r, dir)
  | Err error => (Err error, dir)
  | Ok (snapshot, torn_tail_offset) =>
      let '(truncated, log) :=
        match torn_tail_offset with
        | Some offset => truncate_tail path (dir_log dir) offset durability set_len sync
        | None => (Ok (), dir_log dir)
        end in
      let dir := dir <| dir_log := log |> in
      match truncated with
      | Panic r => (Panic r, dir)
      | Err error => (Err error, dir)
      | Ok _ =>
          let '(cached, head) := write_head_cache directory (dir_head dir) snapshot durability head_io in
          (Ok (torn_tail_offset, warning_of cached), dir <| dir_head := head |>)
      end
  end.
End session.
