(* ===== verification/JsonlReader.v ===== *)
(** * tea-session: replaying a file does not depend on how it is read

    The line reader sees the file through buffers of any size.  The theorems
    compare it with a reference that splits the whole contents at newlines,
    and show that a failed read is never mistaken for the end of the log. *)

From stdpp Require Import base gmap sets list strings.
From S2P Require Import Prelude RustStr Json Ids Model Records Snapshot Reduction Agents.
From S2P Require Import SessionErrors WireEncode WireDecode WireSeal Store Jsonl.

Local Open Scope N_scope.

(** ** The reference *)

(** The complete lines of a text and the bytes after the last newline. *)
Fixpoint split_lines (bytes : list N) : list (list N) * list N :=
  match bytes with
  | [] => ([], [])
  | b :: bytes =>
      let '(lines, tail) := split_lines bytes in
      if b =? NEWLINE then ([] :: lines, tail)
      else match lines with
           | [] => ([], b :: tail)
           | line :: lines => ((b :: line) :: lines, tail)
           end
  end.

Section reference.
Context `{Miniserde} `{Blake3}.

Definition check_line_size (path : string) (line offset : N) (bytes : list N) :
    Outcome SessionError unit :=
  if MAX_SESSION_LINE_BYTES <? N.of_nat (length bytes)
  then Err (format_error path line offset (line_limit_message "session line")) else Ok ().

Definition line_end (offset : N) (bytes : list N) : N :=
  u64_saturating_add offset (N.of_nat (length bytes + 1)).

(** The commits of a log from line [line] at byte [offset] on. *)
Fixpoint decode_lines (path : string) (line offset : N) (lines : list (list N)) (tail : list N)
    (state : SessionSnapshot * SessionAppendIndex) : Outcome SessionError Decoded_stream :=
  match lines with
  | [] => Ok (state, match tail with [] => None | _ => Some offset end)
  | bytes :: lines =>
      check? check_line_size path line offset bytes in
      let? state := decode_commit_line path (mk_complete_line line offset bytes) state in
      decode_lines path (u64_saturating_add line 1) (line_end offset bytes) lines tail state
  end.

(** The replay of a file from its contents. *)
Definition decode_file (path : string) (bytes : list N) : Outcome SessionError Decoded_stream :=
  match split_lines bytes with
  | ([], _) => Err (no_header_error path)
  | (header :: lines, tail) =>
      check? check_line_size path 1 0 header in
      let? state := decode_header_line path (mk_complete_line 1 0 header) in
      decode_lines path 2 (line_end 0 header) lines tail state
  end.
End reference.

(** ** Reads that deliver a text *)

Inductive delivers : list Read -> list N -> Prop :=
| delivers_nil : delivers [] []
| delivers_data buffer reads rest :
    buffer <> [] -> delivers reads rest -> delivers (Data buffer :: reads) (buffer ++ rest).

(** Reads that stop with a failure before the end of the file. *)
Inductive interrupted : list Read -> Prop :=
| interrupted_now message reads : interrupted (ReadFailed message :: reads)
| interrupted_later buffer reads : buffer <> [] -> interrupted reads -> interrupted (Data buffer :: reads).

Lemma delivers_length reads bytes : delivers reads bytes -> reads_length reads = length bytes.
Proof.
  induction 1 as [|buffer reads rest _ _ IH]; [done|]. unfold reads_length in *. simpl.
  rewrite length_app, IH. done.
Qed.

Lemma newline_position_app l k :
  newline_position (l ++ k) =
  match newline_position l with
  | Some p => Some p
  | None => (fun p => (length l + p)%nat) <$> newline_position k
  end.
Proof.
  induction l as [|b l IH]; simpl; [by destruct (newline_position k)|].
  destruct (b =? NEWLINE); [done|]. rewrite IH.
  destruct (newline_position l); simpl; [done|]. by destruct (newline_position k).
Qed.

Lemma newline_position_bound l p : newline_position l = Some p -> (p < length l)%nat.
Proof.
  revert p; induction l as [|b l IH]; intros p; simpl; [done|].
  destruct (b =? NEWLINE); [intros [= <-]; lia|]. destruct (newline_position l) as [q|]; simpl; [|done].
  intros [= <-]. specialize (IH q eq_refl). lia.
Qed.

Lemma split_lines_none l : newline_position l = None -> split_lines l = ([], l).
Proof.
  induction l as [|b l IH]; simpl; [done|]. destruct (b =? NEWLINE); [done|].
  destruct (newline_position l); [done|]. intros _. by rewrite IH.
Qed.

Lemma split_lines_some l p :
  newline_position l = Some p ->
  split_lines l = (take p l :: (split_lines (drop (S p) l)).1, (split_lines (drop (S p) l)).2).
Proof.
  revert p; induction l as [|b l IH]; intros p; simpl; [done|].
  destruct (b =? NEWLINE) eqn:Hb.
  - intros [= <-]. simpl. destruct (split_lines l) as [ls t] eqn:Hl. by rewrite drop_0, Hl.
  - destruct (newline_position l) as [q|]; simpl; [|done]. intros [= <-]. by rewrite (IH q).
Qed.

(** What is left after the first line of a text. *)
Definition after_line (l : list N) : list N :=
  match newline_position l with Some p => drop (S p) l | None => [] end.

Lemma delivers_consume n buffer reads rest :
  delivers reads rest -> (n <= length buffer)%nat -> delivers (consume n buffer reads) (drop n buffer ++ rest).
Proof.
  intros Hd Hn. unfold consume. destruct (drop n buffer) as [|b l]; [done|]. by constructor.
Qed.

Lemma u64_saturating_add_assoc a b c :
  u64_saturating_add (u64_saturating_add a b) c = u64_saturating_add a (b + c).
Proof. unfold u64_saturating_add. lia. Qed.

Lemma over_limit a b :
  (MAX_SESSION_LINE_BYTES <? u64_saturating_add a b) = (MAX_SESSION_LINE_BYTES <? a + b).
Proof.
  unfold u64_saturating_add, MAX_SESSION_LINE_BYTES, u64_max.
  destruct (N.ltb_spec 2097152 (a + b)); [apply N.ltb_lt|apply N.ltb_ge]; lia.
Qed.

(** The line the loop returns, from the bytes collected so far and the text
    that is still to come. *)
Definition line_of (path : string) (line offset next_offset : N) (acc : list N) (oversized : bool)
    (rest : list N) (reads : list Read) : Outcome SessionError (ReadLine * BoundedLineReader) :=
  match newline_position rest with
  | Some p =>
      if oversized || (MAX_SESSION_LINE_BYTES <? N.of_nat (length acc + p))
      then Err (format_error path line offset (line_limit_message "session line"))
      else Ok (Complete (mk_complete_line line offset (acc ++ take p rest)),
               mk_line_reader reads (u64_saturating_add line 1)
                 (u64_saturating_add next_offset (N.of_nat (p + 1))))
  | None =>
      Ok (match acc ++ rest, oversized with [], false => LineEnd | _, _ => IncompleteTail offset end,
          mk_line_reader reads line (u64_saturating_add next_offset (N.of_nat (length rest))))
  end.

Lemma line_of_oversized path line offset next_offset acc acc' rest reads :
  line_of path line offset next_offset acc true rest reads
  = line_of path line offset next_offset acc' true rest reads.
Proof.
  unfold line_of. destruct (newline_position rest); [done|]. by destruct (acc ++ rest), (acc' ++ rest).
Qed.

(** A buffer without a newline moves into the collected bytes. *)
Lemma line_of_buffer path line offset next_offset acc buffer rest reads :
  newline_position buffer = None -> buffer <> [] ->
  line_of path line offset next_offset acc false (buffer ++ rest) reads
  = line_of path line offset (u64_saturating_add next_offset (N.of_nat (length buffer)))
      (if MAX_SESSION_LINE_BYTES <? N.of_nat (length acc + length buffer) then [] else acc ++ buffer)
      (MAX_SESSION_LINE_BYTES <? N.of_nat (length acc + length buffer)) rest reads.
Proof.
  intros Hnone Hne. unfold line_of. rewrite newline_position_app, Hnone.
  destruct (newline_position rest) as [p|]; simpl; rewrite u64_saturating_add_assoc.
  - replace (N.of_nat (length buffer) + N.of_nat (p + 1)) with (N.of_nat (length buffer + p + 1)) by lia.
    rewrite (take_app_add' buffer) by done.
    destruct (N.ltb_spec MAX_SESSION_LINE_BYTES (N.of_nat (length acc + length buffer))) as [Hover|Hfit]; simpl.
    + destruct (N.ltb_spec MAX_SESSION_LINE_BYTES (N.of_nat (length acc + (length buffer + p)))); [done|lia].
    + replace (length (acc ++ buffer) + p)%nat with (length acc + (length buffer + p))%nat
        by (rewrite length_app; lia). by rewrite (assoc_L app).
  - rewrite length_app, Nat2N.inj_add.
    destruct (_ <? _); simpl; [|by rewrite (assoc_L app)].
    destruct (acc ++ buffer ++ rest) as [|b l] eqn:Hall; [|by destruct rest].
    apply app_eq_nil in Hall as [_ [??]%app_eq_nil]. done.
Qed.

Lemma line_of_buffer_oversized path line offset next_offset acc buffer rest reads :
  newline_position buffer = None ->
  line_of path line offset next_offset acc true (buffer ++ rest) reads
  = line_of path line offset (u64_saturating_add next_offset (N.of_nat (length buffer))) acc true rest reads.
Proof.
  intros Hnone. unfold line_of. rewrite newline_position_app, Hnone.
  destruct (newline_position rest) as [p|]; simpl; [done|].
  rewrite u64_saturating_add_assoc, length_app, Nat2N.inj_add.
  by destruct (acc ++ buffer ++ rest), (acc ++ rest).
Qed.

Lemma after_line_app buffer rest :
  after_line (buffer ++ rest) =
  match newline_position buffer with Some p => drop (S p) buffer ++ rest | None => after_line rest end.
Proof.
  unfold after_line. rewrite newline_position_app.
  destruct (newline_position buffer) as [p|] eqn:Hp.
  - apply newline_position_bound in Hp. rewrite drop_app_le by lia. done.
  - destruct (newline_position rest) as [p|]; simpl; [|done].
    rewrite drop_app_ge by lia. f_equal. lia.
Qed.

(** The loop returns the line of the reference, whatever the buffers are. *)
Lemma next_line_loop_spec path line offset reads rest :
  delivers reads rest -> forall next_offset acc oversized, next_offset <= u64_max ->
  exists reads', next_line_loop path line offset reads next_offset acc oversized
                 = line_of path line offset next_offset acc oversized rest reads'
              /\ delivers reads' (after_line rest).
Proof.
  induction 1 as [|buffer reads rest Hne Hd IH]; intros next_offset acc oversized Hno.
  - exists []. split; [|constructor]. unfold line_of. simpl. rewrite app_nil_r.
    f_equal. f_equal. f_equal. unfold u64_saturating_add. simpl. lia.
  - destruct buffer as [|b l]; [done|]. cbn [next_line_loop].
    set (buffer := b :: l) in *. rewrite after_line_app.
    destruct (newline_position buffer) as [p|] eqn:Hp; cbn [default].
    + pose proof (newline_position_bound _ _ Hp) as Hlt.
      exists (consume (p + 1) buffer reads). split.
      * unfold line_of. rewrite newline_position_app, Hp. rewrite (take_app_le buffer) by lia.
        destruct oversized; [done|]. rewrite over_limit, <-Nat2N.inj_add. cbn [orb]. by destruct (_ <? _).
      * replace (S p) with (p + 1)%nat by lia. apply delivers_consume; [done|lia].
    + destruct oversized.
      * destruct (IH (u64_saturating_add next_offset (N.of_nat (length buffer))) acc true
          (u64_saturating_add_bound _ _)) as (reads' & Heq & Hd').
        exists reads'. split; [|done]. rewrite Heq. symmetry. by apply line_of_buffer_oversized.
      * rewrite over_limit, <-Nat2N.inj_add.
        destruct (IH (u64_saturating_add next_offset (N.of_nat (length buffer)))
          (if MAX_SESSION_LINE_BYTES <? N.of_nat (length acc + length buffer) then [] else acc ++ buffer)
          (MAX_SESSION_LINE_BYTES <? N.of_nat (length acc + length buffer))
          (u64_saturating_add_bound _ _)) as (reads' & Heq & Hd').
        exists reads'. split; [|done]. rewrite line_of_buffer, <-Heq by done.
        destruct (_ <? _); [done|]. by rewrite take_ge.
Qed.

(** An interrupted reading gives an error or a complete line, and is still
    interrupted after it. *)
Lemma next_line_loop_interrupted path line offset reads :
  interrupted reads -> forall next_offset acc oversized res,
  next_line_loop path line offset reads next_offset acc oversized = Ok res ->
  exists l reader, res = (Complete l, reader) /\ interrupted (blr_reads reader).
Proof.
  induction 1 as [m reads|buffer reads Hne Hi IH]; intros next_offset acc oversized res; [done|].
  destruct buffer as [|b l]; [done|]. cbn [next_line_loop].
  set (buffer := b :: l) in *. set (sized := if oversized then _ else _). destruct sized as [acc' over'].
  destruct (newline_position buffer) as [p|]; [|apply IH].
  destruct over'; [done|]. intros [= <-]. eexists _, _. split; [done|]. simpl.
  unfold consume. destruct (drop (p + 1) buffer); [done|]. by constructor.
Qed.

Lemma next_line_spec path reader rest :
  delivers (blr_reads reader) rest -> blr_next_offset reader <= u64_max ->
  exists reads', next_line path reader
                 = line_of path (blr_next_line reader) (blr_next_offset reader) (blr_next_offset reader)
                     [] false rest reads'
              /\ delivers reads' (after_line rest).
Proof. intros. by apply next_line_loop_spec. Qed.

(** The line a reading starts with, as the reference sees it. *)
Lemma line_of_split path line offset rest reads :
  offset <= u64_max ->
  line_of path line offset offset [] false rest reads =
  match split_lines rest with
  | ([], []) => Ok (LineEnd, mk_line_reader reads line offset)
  | ([], _) => Ok (IncompleteTail offset,
                   mk_line_reader reads line (u64_saturating_add offset (N.of_nat (length rest))))
  | (bytes :: _, _) =>
      check? check_line_size path line offset bytes in
      Ok (Complete (mk_complete_line line offset bytes),
          mk_line_reader reads (u64_saturating_add line 1) (line_end offset bytes))
  end.
Proof.
  intros Ho. unfold line_of. destruct (newline_position rest) as [p|] eqn:Hp.
  - rewrite (split_lines_some _ _ Hp). apply newline_position_bound in Hp.
    unfold check_line_size, line_end. rewrite length_take_le by lia. simpl.
    by destruct (_ <? _).
  - rewrite (split_lines_none _ Hp). destruct rest; simpl; [|done].
    rewrite u64_saturating_add_exact by lia. by rewrite N.add_0_r.
Qed.

Lemma split_lines_after rest bytes lines tail :
  split_lines rest = (bytes :: lines, tail) ->
  split_lines (after_line rest) = (lines, tail) /\ (length (after_line rest) < length rest)%nat.
Proof.
  unfold after_line. destruct (newline_position rest) as [p|] eqn:Hp.
  - rewrite (split_lines_some _ _ Hp). intros [= <- <- <-]. split; [by destruct (split_lines _)|].
    apply newline_position_bound in Hp. rewrite length_drop. lia.
  - by rewrite (split_lines_none _ Hp).
Qed.

Section replay_facts.
Context `{Miniserde} `{Blake3}.

Lemma decode_commit_lines_spec fuel path reader bytes state :
  delivers (blr_reads reader) bytes -> blr_next_offset reader <= u64_max -> (length bytes < fuel)%nat ->
  decode_commit_lines fuel path reader state
  = decode_lines path (blr_next_line reader) (blr_next_offset reader) (split_lines bytes).1
      (split_lines bytes).2 state.
Proof.
  revert reader bytes state. induction fuel as [|fuel IH]; intros reader bytes state Hd Ho Hf; [lia|].
  cbn [decode_commit_lines]. destruct (next_line_spec path _ _ Hd Ho) as (reads' & -> & Hd').
  rewrite line_of_split by done.
  destruct (split_lines bytes) as [[|line lines] tail] eqn:Hs; [by destruct tail|].
  apply split_lines_after in Hs as [Hs Hl]. cbn [decode_lines fst snd].
  destruct (check_line_size _ _ _ line) as [[]| |]; [|done..]. cbn [obind].
  destruct (decode_commit_line _ _ state) as [state'| |]; [|done..]. cbn [obind].
  rewrite (IH _ (after_line bytes)); cbn [blr_reads blr_next_offset]; [by rewrite Hs|done| |lia].
  apply u64_saturating_add_bound.
Qed.

(** The replay of any faithful reading is the replay of the contents. *)
Lemma decode_stream_file path reads bytes :
  delivers reads bytes -> decode_snapshot_stream path reads = decode_file path bytes.
Proof.
  intros Hd. unfold decode_snapshot_stream, decode_file.
  destruct (next_line_spec path (line_reader_new reads) bytes Hd) as (reads' & -> & Hd'); [done|].
  rewrite line_of_split by done.
  destruct (split_lines bytes) as [[|header lines] tail] eqn:Hs; [by destruct tail|].
  apply split_lines_after in Hs as [Hs Hl].
  destruct (check_line_size _ _ _ header) as [[]| |]; [|done..]. cbn [obind].
  destruct (decode_header_line _ _) as [state'| |]; [|done..]. cbn [obind].
  rewrite (decode_commit_lines_spec _ _ _ (after_line bytes)); cbn [blr_reads blr_next_offset];
    [by rewrite Hs|done| |].
  - apply u64_saturating_add_bound.
  - rewrite (delivers_length _ _ Hd'). lia.
Qed.

(** Replaying a file through the bounded line reader gives the same result, errors with
    their line and offset included, as splitting its whole contents at newlines and decoding
    line by line, however the contents are divided into buffers; the loop over lines terminates.
    *)
Theorem decode_stream_reference path reads bytes :
  delivers reads bytes -> decode_snapshot_stream path reads = decode_file path bytes.
Proof. apply decode_stream_file. Qed.

Lemma decode_commit_lines_interrupted fuel path reader state r :
  interrupted (blr_reads reader) -> decode_commit_lines fuel path reader state <> Ok r.
Proof.
  revert reader state. induction fuel as [|fuel IH]; intros reader state Hi; [done|].
  cbn [decode_commit_lines]. intros ([line reader'] & Hl & Hk)%obind_Ok_inv.
  apply next_line_loop_interrupted in Hl as (l & rd & [= -> ->] & Hi'); [|done].
  apply obind_Ok_inv in Hk as (state' & _ & Hk). by apply IH in Hk.
Qed.

(** A reading that fails before the end of the file never yields a session: a prefix of the
    log is not mistaken for the log. *)
Theorem read_failure_is_an_error path reads r :
  interrupted reads -> decode_snapshot_stream path reads <> Ok r.
Proof.
  intros Hi. unfold decode_snapshot_stream. intros ([line reader] & Hl & Hk)%obind_Ok_inv.
  apply next_line_loop_interrupted in Hl as (l & rd & [= -> ->] & Hi'); [|done].
  apply obind_Ok_inv in Hk as (state & _ & Hk). by apply decode_commit_lines_interrupted in Hk.
Qed.
End replay_facts.
