(* ===== verification/JsonlLog.v ===== *)
(** * tea-session: the text of a log and its replay

    A log is a sealed header and commits that were each accepted on top of
    the ones before.  Its text is one line per item; replaying the text, with
    any unterminated bytes after it, gives back the log.  What the JSON codec
    must do for this is the class [MiniserdeLaw]. *)

From stdpp Require Import base gmap sets list strings sorting.
From S2P Require Import Prelude RustStr Json Ids Model Records Snapshot Reduction ReductionInv Agents.
From S2P Require Import SessionErrors WireEncode WireDecode WireFields WireRecords WireSeal.
From S2P Require Import WireSealProofs Store StoreIndex StoreSession Jsonl JsonlSession JsonlReader.

Local Open Scope N_scope.

(** ** The text codec *)

Fixpoint keys_sorted (keys : list string) : bool :=
  match keys with
  | [] => true
  | k :: keys =>
      forallb (fun k' => match String.compare k k' with Lt => true | _ => false end) keys
      && keys_sorted keys
  end.

(** The values the codec's text represents exactly: integers within their
    width and not negative unless signed, no floating-point numbers, valid
    text and ordered keys. *)
Fixpoint mini_normal (m : MiniValue) : bool :=
  match m with
  | MiniNull | MiniBool _ => true
  | MiniNum (MiniU64 n) => n <=? u64_max
  | MiniNum (MiniI64 z) => ((-9223372036854775808 <=? z) && (z <? 0))%Z
  | MiniNum (MiniF64 _) => false
  | MiniString s => utf8_ok s
  | MiniArray l => forallb mini_normal l
  | MiniObject l =>
      keys_sorted (map fst l) && forallb (fun kv => utf8_ok kv.1) l
      && forallb (fun kv => mini_normal kv.2) l
  end.

(** The compact printer of the codec writes one line of UTF-8 text, and the
    parser reads it back. *)
Class MiniserdeLaw `{Miniserde} : Prop := {
  mini_text_roundtrip m : mini_normal m = true -> mini_from_str (mini_to_string m) = Some m;
  mini_text_utf8 m : mini_normal m = true -> utf8_ok (mini_to_string m) = true;
  mini_text_one_line m : mini_normal m = true -> NEWLINE ∉ bytes_of (mini_to_string m);
}.

(** A JSON value the codec represents exactly. *)
Definition text_exact (v : JsonValue) : bool :=
  match to_miniserde v with Ok m => mini_normal m | _ => false end.

Lemma keys_sorted_wf {V} (l : list (string * V)) : keys_sorted (map fst l) = true -> btree_wf l.
Proof.
  induction l as [|[k v] l IH]; simpl; [constructor|].
  intros [Hk Hl]%andb_true_iff. constructor; [by apply IH|].
  apply Forall_forall. intros [k' v'] Hin. rewrite forallb_forall in Hk.
  specialize (Hk k'). unfold str_lt. simpl. destruct (String.compare k k'); [|done|];
    by discriminate Hk; apply list_elem_of_In, list_elem_of_fmap; exists (k', v').
Qed.

(** A value with an exact text is a well-formed value. *)
Lemma text_exact_wf v m : to_miniserde v = Ok m -> mini_normal m = true -> json_wf v.
Proof.
  revert m. induction v as [|b|[z|n|x]|s|l IH|l IH] using json_ind'; intros m Hto Hn; try done.
  - apply to_miniserde_array in Hto as (ms & -> & Hall). simpl in Hn |- *.
    revert ms Hall Hn. induction IH as [|v l Hv _ IHl]; intros ms Hall Hn; [done|].
    inversion Hall as [|? w ? ws Hw Hws]; subst. simpl in Hn. apply andb_true_iff in Hn as [H1 H2].
    split; [by eapply Hv|by eapply IHl].
  - apply to_miniserde_object in Hto as (ms & -> & Hall). cbn [mini_normal] in Hn.
    apply andb_true_iff in Hn as [[Hk _]%andb_true_iff Hn]. cbn [json_wf]. split.
    + apply keys_sorted_wf. replace (map fst l) with (map fst ms); [done|].
      clear -Hall. induction Hall as [|? ? ? ? [Hf _] _ IHl]; simpl; [done|]. by rewrite IHl, Hf.
    + clear Hk. revert ms Hall Hn. induction IH as [|[k v] l Hv _ IHl]; intros ms Hall Hn; [done|].
      inversion Hall as [|? w ? ws [_ Hw] Hws]; subst. simpl in Hn. apply andb_true_iff in Hn as [H1 H2].
      split; [by eapply Hv|by eapply IHl].
Qed.

(** ** Lines *)

Section log.
Context `{MiniserdeLaw} `{Blake3Law}.

(** The line a value is written as. *)
Definition line_text (v : JsonValue) : list N :=
  match to_json_string v with Ok text => bytes_of text | _ => [] end.

Lemma parse_line_text path line offset v :
  text_exact v = true ->
  parse_canonical_line path (mk_complete_line line offset (line_text v)) = Ok v
  /\ NEWLINE ∉ line_text v.
Proof.
  unfold text_exact, line_text, to_json_string. destruct (to_miniserde v) as [m| |] eqn:Hm; [|done..].
  intros Hn. cbn [obind]. split; [|by apply mini_text_one_line].
  unfold parse_canonical_line. cbn [cl_bytes]. rewrite from_utf8_text by by apply mini_text_utf8.
  cbn [obind map_err]. unfold json_parse. rewrite mini_text_roundtrip by done. cbn [obind ok_or].
  rewrite (from_to_miniserde v m) by (done || by eapply text_exact_wf). cbn [obind map_err].
  unfold to_json_string. rewrite Hm. cbn [obind map_err]. by rewrite bool_decide_true.
Qed.

Definition commit_line (c : StoredCommit) : list N := line_text (encode_commit c) ++ [NEWLINE].
Definition header_value (h : SessionHeader) : JsonValue := JsonObject (btree_collect (header_fields h)).
Definition header_line (h : SessionHeader) : list N := line_text (header_value h) ++ [NEWLINE].

Arguments line_text : simpl never.
Arguments header_value : simpl never.
Arguments encode_commit : simpl never.

(** The contents of the file that holds a log. *)
Definition render (h : SessionHeader) (cs : list StoredCommit) : list N :=
  header_line h ++ concat (map commit_line cs).

Lemma render_snoc h cs c : render h (cs ++ [c]) = render h cs ++ commit_line c.
Proof. unfold render. rewrite map_app, concat_app. cbn [map concat]. by rewrite app_nil_r, (assoc_L app). Qed.

Lemma replay_snoc h cs c : replay h (cs ++ [c]) = push_commit (replay h cs) c.
Proof. unfold replay. by rewrite foldl_app. Qed.

Lemma replay_header h cs : ss_header (replay h cs) = h.
Proof.
  induction cs as [|c cs IH] using rev_ind; [done|]. by rewrite replay_snoc, push_commit_header.
Qed.

Definition line_fits (bytes : list N) : Prop := N.of_nat (length bytes) <= MAX_SESSION_LINE_BYTES.

(** The in-memory session with the same log and index. *)
Definition memory_view (snapshot : SessionSnapshot) (index : SessionAppendIndex) : MemorySession :=
  mk_memory_session snapshot index None.

(** The header of a log. *)
Record header_logged (h : SessionHeader) : Prop := {
  hl_decodes : decode_header (header_value h) = Ok h;
  hl_digest : digest_wf (sh_digest h);
  hl_exact : text_exact (header_value h) = true;
  hl_fits : line_fits (line_text (header_value h));
  hl_identity : sh_kind h = SESSION_HEADER_KIND /\ sh_format h = SESSION_FORMAT_IDENTITY
                /\ sh_version h = SESSION_FORMAT_VERSION;
}.

(** A commit that was accepted on top of a log. *)
Record commit_logged (h : SessionHeader) (cs : list StoredCommit) (c : StoredCommit) : Prop := {
  cl_decodes : decode_mutation (encode_commit c) (sh_session_id h) = Ok c;
  cl_sequence : sc_seq c = next_sequence (replay h cs);
  cl_previous : sc_prev_digest c = ss_last_digest (replay h cs);
  cl_digest : digest_wf (sc_digest c);
  cl_exact : text_exact (encode_commit c) = true;
  cl_fits : line_fits (line_text (encode_commit c));
}.

(** A log and the append index of its commits; every prefix of it is a
    session the reducers accept. *)
Inductive logged (h : SessionHeader) : list StoredCommit -> SessionAppendIndex -> Prop :=
| logged_header : header_logged h -> logged h [] (index_empty h)
| logged_commit cs index c index' ms s :
    logged h cs index -> commit_logged h cs c ->
    @ofold SessionError _ _ advance index (sc_items c) = Ok index' ->
    session_ok (memory_view (replay h (cs ++ [c])) index') ms s ->
    logged h (cs ++ [c]) index'.

Lemma logged_header_logged h cs index : logged h cs index -> header_logged h.
Proof. by induction 1. Qed.

Lemma logged_digest h cs index : logged h cs index -> digest_wf (ss_last_digest (replay h cs)).
Proof.
  intros Hl. destruct Hl as [Hh|? ? c ? ? ? ? Hc]; [apply Hh|].
  rewrite replay_snoc, (proj2 (push_commit_last _ _)). apply Hc.
Qed.

Lemma logged_session_ok h cs index :
  logged h cs index -> exists ms s, session_ok (memory_view (replay h cs) index) ms s.
Proof.
  intros Hl. destruct Hl; [|by eauto]. eexists _, _. apply session_ok_empty.
Qed.

Lemma logged_valid h cs index : logged h cs index -> validate_snapshot (replay h cs) = Ok ().
Proof. intros (ms & s & Hok)%logged_session_ok. by apply (validate_snapshot_valid _ ms); apply Hok. Qed.

(** ** Splitting a rendered log *)

Lemma newline_position_none l : NEWLINE ∉ l <-> newline_position l = None.
Proof.
  induction l as [|b l IH]; simpl; [set_solver|]. rewrite not_elem_of_cons, IH.
  destruct (N.eqb_spec b NEWLINE) as [->|Hne]; [naive_solver|].
  destruct (newline_position l); simpl; naive_solver.
Qed.

Lemma split_lines_line l rest :
  NEWLINE ∉ l ->
  split_lines (l ++ [NEWLINE] ++ rest) = (l :: (split_lines rest).1, (split_lines rest).2).
Proof.
  intros Hl%newline_position_none. rewrite (split_lines_some _ (length l)).
  - rewrite take_app_length, drop_app_ge by lia.
    replace (S (length l) - length l)%nat with 1%nat by lia. done.
  - rewrite newline_position_app, Hl. simpl. by rewrite Nat.add_0_r.
Qed.

Lemma commit_line_no_newline h cs c : commit_logged h cs c -> NEWLINE ∉ line_text (encode_commit c).
Proof. intros Hc. apply (parse_line_text "" 0 0). apply Hc. Qed.

Lemma logged_no_newline h cs index :
  logged h cs index ->
  (NEWLINE ∉ line_text (header_value h)) /\ Forall (fun c => NEWLINE ∉ line_text (encode_commit c)) cs.
Proof.
  induction 1 as [Hh|cs index c index' ms s _ [IHh IH] Hc _ _]; split.
  - apply (parse_line_text "" 0 0). apply Hh.
  - done.
  - done.
  - apply Forall_app. split; [done|]. constructor; [|done]. by eapply commit_line_no_newline.
Qed.

Lemma split_lines_commits cs tail :
  Forall (fun c => NEWLINE ∉ line_text (encode_commit c)) cs -> NEWLINE ∉ tail ->
  split_lines (concat (map commit_line cs) ++ tail) = (map (fun c => line_text (encode_commit c)) cs, tail).
Proof.
  intros Hcs Ht. induction Hcs as [|c cs Hc _ IH]; simpl.
  - by apply split_lines_none, newline_position_none.
  - unfold commit_line at 1. rewrite <-!(assoc_L app). by rewrite split_lines_line, IH.
Qed.

Lemma split_lines_render h cs index tail :
  logged h cs index -> NEWLINE ∉ tail ->
  split_lines (render h cs ++ tail)
  = (line_text (header_value h) :: map (fun c => line_text (encode_commit c)) cs, tail).
Proof.
  intros [Hh Hcs]%logged_no_newline Ht. unfold render, header_line. rewrite <-!(assoc_L app).
  by rewrite split_lines_line, split_lines_commits.
Qed.

(** ** Replaying a rendered log *)

Definition end_offset (offset : N) (lines : list (list N)) : N := foldl line_end offset lines.

Lemma decode_lines_snoc path line offset lines bytes tail st st1 st2 :
  (forall tail, decode_lines path line offset lines tail st
     = Ok (st1, match tail with [] => None | _ => Some (end_offset offset lines) end)) ->
  line_fits bytes ->
  (forall line offset, decode_commit_line path (mk_complete_line line offset bytes) st1 = Ok st2) ->
  decode_lines path line offset (lines ++ [bytes]) tail st
  = Ok (st2, match tail with [] => None | _ => Some (end_offset offset (lines ++ [bytes])) end).
Proof.
  intros Hall Hfit Hstep. revert line offset st Hall.
  assert (forall line offset, check_line_size path line offset bytes = Ok ()) as Hsize.
  { intros line offset. unfold check_line_size, line_fits in *. by destruct (N.ltb_spec
      MAX_SESSION_LINE_BYTES (N.of_nat (length bytes))); [lia|]. }
  induction lines as [|l lines IH]; intros line offset st Hall; simpl.
  - specialize (Hall []). injection Hall as ->. rewrite Hsize. cbn [obind]. rewrite Hstep. done.
  - pose proof (Hall []) as Hnil. simpl in Hnil.
    apply obind_Ok_inv in Hnil as ([] & Hc & (st' & Hst & _)%obind_Ok_inv). rewrite Hc. cbn [obind].
    rewrite Hst. cbn [obind]. apply IH. intros t. specialize (Hall t). simpl in Hall.
    rewrite Hc in Hall. cbn [obind] in Hall. by rewrite Hst in Hall.
Qed.

Lemma decode_logged_commit path line offset h cs c index index' :
  commit_logged h cs c -> @ofold SessionError _ _ advance index (sc_items c) = Ok index' ->
  decode_commit_line path (mk_complete_line line offset (line_text (encode_commit c))) (replay h cs, index)
  = Ok (replay h (cs ++ [c]), index').
Proof.
  intros Hc Hi. unfold decode_commit_line.
  rewrite (proj1 (parse_line_text path line offset _ (cl_exact _ _ _ Hc))). cbn [obind].
  rewrite replay_header, (cl_decodes _ _ _ Hc). cbn [obind map_err].
  rewrite (proj2 (eqb_true _ _) (cl_sequence _ _ _ Hc)), (proj2 (eqb_true _ _) (cl_previous _ _ _ Hc)).
  cbn [negb]. rewrite Hi. cbn [obind]. by rewrite replay_snoc.
Qed.

Lemma decode_logged_lines path line offset h cs index tail :
  logged h cs index ->
  decode_lines path line offset (map (fun c => line_text (encode_commit c)) cs) tail
    (snapshot_empty h, index_empty h)
  = Ok (replay h cs, index, match tail with
                            | [] => None
                            | _ => Some (end_offset offset (map (fun c => line_text (encode_commit c)) cs))
                            end).
Proof.
  intros Hl. revert tail. induction Hl as [Hh|cs index c index' ms s _ IH Hc Hi _]; intros tail; [done|].
  rewrite map_app. simpl. eapply decode_lines_snoc; [done|apply Hc|].
  intros. by apply decode_logged_commit.
Qed.

Lemma end_offset_total offset lines :
  end_offset offset lines
  = u64_saturating_add offset (N.of_nat (length (concat (map (fun l => l ++ [NEWLINE]) lines)))) \/ u64_max < offset.
Proof.
  revert offset. induction lines as [|l lines IH]; intros offset; simpl.
  - destruct (N.le_gt_cases offset u64_max); [left|by right].
    rewrite u64_saturating_add_exact by (simpl; lia). simpl. lia.
  - left. destruct (IH (line_end offset l)) as [->|Hgt].
    + unfold line_end. rewrite u64_saturating_add_assoc, !length_app. simpl. f_equal. lia.
    + pose proof (u64_saturating_add_bound offset (N.of_nat (length l + 1))). unfold line_end in Hgt. lia.
Qed.

Lemma end_offset_render h cs :
  N.of_nat (length (render h cs)) <= u64_max ->
  end_offset (line_end 0 (line_text (header_value h))) (map (fun c => line_text (encode_commit c)) cs)
  = N.of_nat (length (render h cs)).
Proof.
  intros Hb. destruct (end_offset_total (line_end 0 (line_text (header_value h)))
    (map (fun c => line_text (encode_commit c)) cs)) as [->|Hgt].
  - unfold line_end. rewrite u64_saturating_add_assoc, map_map. unfold render, header_line, commit_line in *.
    rewrite !length_app in *. cbn [length] in *. rewrite u64_saturating_add_exact; lia.
  - pose proof (u64_saturating_add_bound 0 (N.of_nat (length (line_text (header_value h)) + 1))).
    unfold line_end in Hgt. lia.
Qed.

(** The torn tail of a file, when there are bytes after its last newline. *)
Definition torn_offset (h : SessionHeader) (cs : list StoredCommit) (tail : list N) : option N :=
  match tail with [] => None | _ => Some (N.of_nat (length (render h cs))) end.

Lemma decode_logged_file path h cs index tail :
  logged h cs index -> NEWLINE ∉ tail -> N.of_nat (length (render h cs)) <= u64_max ->
  decode_file path (render h cs ++ tail) = Ok (replay h cs, index, torn_offset h cs tail).
Proof.
  intros Hl Ht Hb. pose proof (logged_header_logged _ _ _ Hl) as Hh.
  unfold decode_file. rewrite (split_lines_render _ _ _ _ Hl Ht).
  unfold check_line_size. destruct (N.ltb_spec MAX_SESSION_LINE_BYTES
    (N.of_nat (length (line_text (header_value h))))) as [Hgt|_];
    [pose proof (hl_fits _ Hh); unfold line_fits in *; lia|]. cbn [obind].
  unfold decode_header_line. rewrite (proj1 (parse_line_text path 1 0 _ (hl_exact _ Hh))). cbn [obind].
  rewrite (hl_decodes _ Hh). cbn [obind map_err]. cbv zeta. cbn [snapshot_empty ss_header].
  change (mk_snapshot h [] [] [] [] [] 0 (sh_digest h) None) with (snapshot_empty h).
  rewrite (decode_logged_lines _ _ _ _ _ _ tail Hl), end_offset_render by done. done.
Qed.
End log.
#[global] Arguments line_text : simpl never.
#[global] Arguments header_value : simpl never.
#[global] Arguments encode_commit : simpl never.
#[global] Arguments render : simpl never.
#[global] Arguments commit_line : simpl never.
#[global] Arguments header_line : simpl never.
