(* ===== verification/JsonlCommit.v ===== *)
(** * tea-session: one durable commit

    [JsonlSession::write_commit] refines the in-memory commit: it succeeds
    with the same result and state, and whatever failure the append meets,
    the file holds the old log followed by a prefix of the new line. *)

From stdpp Require Import base gmap sets list strings sorting.
From S2P Require Import Prelude RustStr Json Ids Model Records Snapshot Reduction ReductionInv ReductionSafety Agents AgentsSafe.
From S2P Require Import SessionErrors WireEncode WireDecode WireFields WireRecords WireSeal.
From S2P Require Import WireSealProofs Store StoreIndex StoreSession Jsonl JsonlSession JsonlReader JsonlLog.

Local Open Scope N_scope.

Section commit.
Context `{Miniserde} `{Blake3}.

(** The session with its file taken away. *)
Definition view_of (session : JsonlSession) : MemorySession :=
  memory_view (js_snapshot session) (js_append_index session).

Lemma ensure_complete_line_size_Ok text :
  ensure_complete_line_size text = Ok () <-> line_fits (bytes_of text).
Proof.
  unfold ensure_complete_line_size, line_fits, str_len. rewrite length_bytes_of.
  destruct (N.ltb_spec MAX_SESSION_LINE_BYTES (N.of_nat (String.length text))); split; (done || lia).
Qed.

Lemma line_text_Ok v text : to_json_string v = Ok text -> line_text v = bytes_of text.
Proof. unfold line_text. by intros ->. Qed.

Lemma advance_items_total (index : SessionAppendIndex) items :
  exists index', @ofold SessionError _ _ advance index items = Ok index'.
Proof.
  destruct (ofold_total (fun _ => True) (@advance SessionError) index items) as (i & Hi & _); [|done|eauto].
  intros i m _ _. destruct (advance_total (E := SessionError) i m) as [i' ->]. eauto.
Qed.

(** What the steps before the append establish. *)
Lemma prepare_line_Ok session c now stored text :
  prepare_line session c now = Ok (stored, text) ->
  js_fault session = None
  /\ prepare_commit (js_snapshot session) (js_append_index session) c now = Ok stored
  /\ validate_prepared_commit (js_snapshot session) (js_append_index session) stored = Ok ()
  /\ to_json_string (encode_commit stored) = Ok text /\ line_fits (bytes_of text).
Proof.
  unfold prepare_line. intros Hp.
  apply obind_Ok_inv in Hp as ([] & Hw & Hp). apply obind_Ok_inv in Hp as (st & Hst & Hp).
  apply obind_Ok_inv in Hp as ([] & Hv%map_err_Ok_inv & Hp).
  apply obind_Ok_inv in Hp as (tx & Ht%map_err_Ok_inv & Hp).
  apply obind_Ok_inv in Hp as ([] & Hs%ensure_complete_line_size_Ok & [= -> ->]).
  unfold writable in Hw. by destruct (js_fault session).
Qed.

Lemma prepare_line_accept session c now stored text index :
  prepare_line session c now = Ok (stored, text) ->
  @ofold SessionError _ _ advance (js_append_index session) (sc_items stored) = Ok index ->
  memory_accept (view_of session) c now = Ok (stored, index).
Proof.
  intros (Hf & Hp & Hv & _)%prepare_line_Ok Hi. unfold memory_accept, view_of, memory_view. simpl.
  rewrite Hp. cbn [obind]. rewrite Hv. cbn [obind map_err]. by rewrite Hi.
Qed.

(** ** The append *)

(** What an append leaves in the file. *)
Inductive appended (durability : DurabilityMode) (line : list N) (file : LogFile) :
    Outcome SessionError unit -> LogFile -> Prop :=
| appended_refused message :
    appended durability line file (Err (InvalidInput message)) file
| appended_partly path message written :
    written `prefix_of` line ->
    appended durability line file (Err (IndeterminateWrite path message)) (file_append file written)
| appended_whole synced :
    synced = lf_synced file \/ synced = length (lf_bytes file ++ line) ->
    (durability = Strict -> synced = length (lf_bytes file ++ line)) ->
    appended durability line file (Ok ()) (mk_log_file (lf_bytes file ++ line) synced).

Lemma file_append_app file l k : file_append (file_append file l) k = file_append file (l ++ k).
Proof. unfold file_append. destruct file. unfold set_field. simpl. by rewrite (assoc_L app). Qed.

Lemma write_complete_line_appends file text durability path io :
  let '(r, file') := write_complete_line file text durability path io in
  appended durability (bytes_of text ++ [NEWLINE]) file r file'.
Proof.
  unfold write_complete_line. destruct (ensure_complete_line_size text) as [[]|e|r] eqn:Hs.
  2: { unfold ensure_complete_line_size in Hs. case_match; [|done]. injection Hs as <-. constructor. }
  2: { unfold ensure_complete_line_size in Hs. by case_match. }
  destruct (li_json io) as [[n m]|].
  { constructor. trans (bytes_of text); [apply prefix_take|by apply prefix_app_r]. }
  destruct (li_newline io) as [m|]; [constructor; by apply prefix_app_r|].
  rewrite file_append_app.
  destruct (li_flush io) as [m|]; [by constructor|].
  destruct durability, (li_sync io) as [m|]; try (by constructor);
    apply (appended_whole _ _ _ _); auto; done.
Qed.
(** ** The whole commit *)

(** The state after an append that was reported as done. *)
Record absorbed (session : JsonlSession) (dir : SessionDirectory) (stored : StoredCommit)
    (session' : JsonlSession) (dir' : SessionDirectory) : Prop := {
  ab_snapshot : js_snapshot session' = push_commit (js_snapshot session) stored;
  ab_index : @ofold SessionError _ _ advance (js_append_index session) (sc_items stored)
             = Ok (js_append_index session');
  ab_fault : js_fault session' = js_fault session;
  ab_durability : js_durability session' = js_durability session;
  ab_paths : js_directory session' = js_directory session
             /\ js_session_path session' = js_session_path session;
  ab_log : dir_log dir' = dir_log dir;
}.

Lemma absorb_commit_absorbed session dir stored head_io r session' dir' :
  absorb_commit session dir stored head_io = (r, session', dir') ->
  r = Ok stored /\ absorbed session dir stored session' dir'.
Proof.
  unfold absorb_commit. destruct (advance_items_total (js_append_index session) (sc_items stored)) as [index Hi].
  rewrite Hi. destruct (existsb _ _).
  - destruct (write_head_cache _ _ _ _ _) as [cached head]. intros [= <- <- <-].
    split; [done|]. by split; simpl.
  - intros [= <- <- <-]. split; [done|]. by split; simpl.
Qed.

Lemma absorbed_view session dir stored session' dir' c now text :
  prepare_line session c now = Ok (stored, text) -> absorbed session dir stored session' dir' ->
  memory_commit (view_of session) c now = (Ok stored, view_of session').
Proof.
  intros Hp Hab. unfold memory_commit. rewrite (prepare_line_accept _ _ _ _ _ _ Hp (ab_index _ _ _ _ _ Hab)).
  unfold view_of, memory_view, set_field. simpl. by rewrite (ab_snapshot _ _ _ _ _ Hab).
Qed.

Lemma prepare_line_memory session c now stored text :
  prepare_line session c now = Ok (stored, text) -> (memory_commit (view_of session) c now).1 = Ok stored.
Proof.
  intros Hp. destruct (advance_items_total (js_append_index session) (sc_items stored)) as [index Hi].
  unfold memory_commit. by rewrite (prepare_line_accept _ _ _ _ _ _ Hp Hi).
Qed.

Lemma prepare_line_Panic session c now reason :
  prepare_line session c now = Panic reason -> (memory_commit (view_of session) c now).1 = Panic reason.
Proof.
  unfold prepare_line, memory_commit, memory_accept, view_of, memory_view. simpl.
  unfold writable. destruct (js_fault session); [done|]. cbn [obind].
  destruct (prepare_commit _ _ c now) as [stored| |]; [|done|by intros [= ->]]. cbn [obind].
  destruct (validate_prepared_commit _ _ stored) as [[]| |]; cbn [obind map_err]; [|done|by intros [= ->]].
  intros [Ht%map_err_Panic_inv|(text & _ & Hs)]%obind_Panic_inv; [by apply to_json_string_no_panic in Ht|].
  apply obind_Panic_inv in Hs as [Hs|([] & _ & Hs)]; [|done].
  unfold ensure_complete_line_size in Hs. by case_match.
Qed.

(** The four ways a commit to a session that is not faulted can end. *)
Inductive committed (session : JsonlSession) (dir : SessionDirectory) (c : SessionCommit) (now : N) :
    Outcome SessionError StoredCommit -> JsonlSession -> SessionDirectory -> Prop :=
| committed_refused error :
    is_indeterminate error = false -> committed session dir c now (Err error) session dir
| committed_panic reason :
    (memory_commit (view_of session) c now).1 = Panic reason ->
    committed session dir c now (Panic reason) session dir
| committed_partly stored text error written :
    prepare_line session c now = Ok (stored, text) -> is_indeterminate error = true ->
    written `prefix_of` commit_line stored ->
    committed session dir c now (Err error)
      (session <| js_fault := Some (session_error_display error) |>)
      (dir <| dir_log := file_append (dir_log dir) written |>)
| committed_whole stored text session' dir' :
    prepare_line session c now = Ok (stored, text) -> absorbed session (dir <| dir_log := dir_log dir' |>) stored session' dir' ->
    lf_bytes (dir_log dir') = lf_bytes (dir_log dir) ++ commit_line stored ->
    (lf_synced (dir_log dir') = lf_synced (dir_log dir)
     \/ lf_synced (dir_log dir') = length (lf_bytes (dir_log dir'))) ->
    (js_durability session = Strict -> lf_synced (dir_log dir') = length (lf_bytes (dir_log dir'))) ->
    committed session dir c now (Ok stored) session' dir'.

Lemma prepare_items_Err index seq ts b l error :
  ofold (prepare_item index seq ts) b l = Err error -> is_indeterminate error = false.
Proof.
  revert b. induction l as [|x l IH]; intros b; simpl; [done|].
  destruct (prepare_item index seq ts b x) as [b'|e|] eqn:Hx; cbn [obind]; [by apply IH| |done].
  intros [= ->]. revert Hx. destruct x as [lane e|?|[lane base]|?]; simpl; try done.
  case_match; cbn [obind]; [by intros [= <-]|].
  destruct (ba_lane_leaves b !! lane); cbn [obind]; [done|].
  destruct (lane_leaf index lane); cbn [obind map_err]; [done|by intros [= <-]|done].
Qed.

Lemma prepare_line_Err session c now error :
  prepare_line session c now = Err error -> is_indeterminate error = false.
Proof.
  unfold prepare_line, writable. destruct (js_fault session); [by intros [= <-]|]. cbn [obind].
  unfold prepare_commit.
  destruct (ofold _ _ (commit_items c)) as [b|e|] eqn:Hb; cbn [obind];
    [|intros [= <-]; by eapply prepare_items_Err|done].
  destruct (seal_commit _ _ _ _) as [stored|e|] eqn:Hc; cbn [obind]; [| |done].
  2: { intros [= <-]. revert Hc. unfold seal_commit. case_match; [by intros [= <-]|].
       destruct (calculate_commit_digest _ _ _ _ _); cbn [obind map_err]; [done|by intros [= <-]|done]. }
  destruct (validate_prepared_commit _ _ stored) as [[]| |]; cbn [obind map_err]; [|by intros [= <-]|done].
  destruct (to_json_string _) as [text| |]; cbn [obind map_err]; [|by intros [= <-]|done].
  unfold ensure_complete_line_size. case_match; cbn [obind]; [by intros [= <-]|done].
Qed.

Lemma write_commit_committed session dir c now line_io head_io r session' dir' :
  write_commit session dir c now line_io head_io = (r, session', dir') ->
  committed session dir c now r session' dir'.
Proof.
  unfold write_commit. destruct (prepare_line session c now) as [[stored text]|e|reason] eqn:Hp.
  2: { intros [= <- <- <-]. constructor. by eapply prepare_line_Err. }
  2: { intros [= <- <- <-]. constructor. by eapply prepare_line_Panic. }
  pose proof (write_complete_line_appends (dir_log dir) text (js_durability session)
    (js_session_path session) line_io) as Happ.
  pose proof (prepare_line_Ok _ _ _ _ _ Hp) as (_ & _ & _ & Ht & Hfit).
  destruct (write_complete_line _ _ _ _ _) as [res log].
  rewrite <-(line_text_Ok _ _ Ht) in Happ. change (line_text (encode_commit stored) ++ [NEWLINE])
    with (commit_line stored) in Happ.
  inversion Happ as [m|path m written Hw|synced Hsy Hst]; subst.
  - intros [= <- <- <-]. destruct dir. by constructor.
  - intros [= <- <- <-]. by eapply committed_partly.
  - intros [-> Hab]%absorb_commit_absorbed. pose proof (ab_log _ _ _ _ _ Hab) as Hlog. simpl in Hlog.
    eapply committed_whole; [exact Hp| |rewrite Hlog; simpl; auto..].
    by rewrite Hlog.
Qed.

(** C8: A commit to a session directory refines the in-memory commit: on success both return the
    same commit and reach the same state and the file grows by exactly its line, synchronized in
    strict mode; an indeterminate write leaves the state, appends only a prefix of that line and
    faults the session; any other error changes nothing; and a faulted session refuses every
    commit. *)
Theorem durable_commit_refines_memory session dir c now line_io head_io r session' dir' :
  write_commit session dir c now line_io head_io = (r, session', dir') ->
  match js_fault session, r with
  | Some message, _ => r = Err (Faulted message) /\ session' = session /\ dir' = dir
  | None, Ok stored =>
      memory_commit (view_of session) c now = (Ok stored, view_of session')
      /\ js_fault session' = None
      /\ lf_bytes (dir_log dir') = lf_bytes (dir_log dir) ++ commit_line stored
      /\ (js_durability session = Strict ->
          lf_synced (dir_log dir') = length (lf_bytes (dir_log dir')))
  | None, Err error =>
      view_of session' = view_of session
      /\ if is_indeterminate error
         then js_fault session' = Some (session_error_display error)
              /\ exists stored written,
                   (memory_commit (view_of session) c now).1 = Ok stored
                   /\ written `prefix_of` commit_line stored
                   /\ dir' = dir <| dir_log ::= fun log => file_append log written |>
         else session' = session /\ dir' = dir
  | None, Panic reason =>
      (memory_commit (view_of session) c now).1 = Panic reason /\ session' = session /\ dir' = dir
  end.
Proof.
  intros Hw. destruct (js_fault session) as [message|] eqn:Hf.
  { revert Hw. unfold write_commit, prepare_line, writable. rewrite Hf. by intros [= <- <- <-]. }
  apply write_commit_committed in Hw.
  destruct Hw as [error Hi|reason Hm|stored text error written Hp Hi Hpre|stored text s1 d1 Hp Hab Hb _ Hs].
  - by rewrite Hi.
  - done.
  - rewrite Hi. split_and!; [done..|]. exists stored, written. split_and!; [|done|by destruct dir].
    by eapply prepare_line_memory.
  - split_and!; [by eapply absorbed_view|by rewrite (ab_fault _ _ _ _ _ Hab)|done|done].
Qed.
End commit.

(** ** Extending a log *)

(** What the writer of a durable session asks of its client, beyond what an
    in-memory session does: identifiers and provider contexts the decoder
    accepts, and values the JSON text represents exactly. *)
Record durable_admissible `{Miniserde} (snapshot : SessionSnapshot) (stored : StoredCommit) : Prop := {
  da_memory : admissible snapshot stored;
  da_items : Forall (fun m => mutation_ok (sc_seq stored) (sc_timestamp_ms stored) (smu_mutation m))
               (sc_items stored);
  da_exact : text_exact (encode_commit stored) = true;
}.

Section extend.
Context `{MiniserdeLaw} `{Blake3Law}.

Lemma prepared_commit_logged h cs index c now stored text :
  logged h cs index ->
  prepare_commit (replay h cs) index c now = Ok stored ->
  durable_admissible (replay h cs) stored ->
  to_json_string (encode_commit stored) = Ok text -> line_fits (bytes_of text) ->
  commit_logged h cs stored.
Proof.
  intros Hl Hp [Hm Hi He] Ht Hf. pose proof Hp as Hp'. unfold prepare_commit in Hp'.
  apply obind_Ok_inv in Hp' as (b & Hb & Hseal). pose proof (seal_commit_Ok _ _ _ _ _ Hseal) as (_ & d & Hd & Hst).
  pose proof (calculate_commit_digest_Ok _ _ _ _ _ _ Hd) as [Hwf _].
  apply sealed_commit_decodes in Hseal; [|by eapply logged_digest|].
  - rewrite replay_header in Hseal.
    split; rewrite ?(line_text_Ok _ _ Ht); try done; subst stored; done.
  - rewrite Hst in Hi. cbn [sc_items sc_seq sc_timestamp_ms] in Hi. apply Forall_map in Hi.
    rewrite map_map in Hi. cbn [stamp smu_mutation] in Hi. by rewrite map_id in Hi.
Qed.

(** A prepared line extends the log it was prepared on. *)
Lemma prepare_line_logged h cs session c now stored text :
  logged h cs (js_append_index session) -> js_snapshot session = replay h cs ->
  prepare_line session c now = Ok (stored, text) -> durable_admissible (js_snapshot session) stored ->
  exists index, @ofold SessionError _ _ advance (js_append_index session) (sc_items stored) = Ok index
    /\ logged h (cs ++ [stored]) index.
Proof.
  intros Hl Hs Hp Had. destruct (advance_items_total (js_append_index session) (sc_items stored)) as [index Hi].
  exists index. split; [done|]. pose proof (prepare_line_Ok _ _ _ _ _ Hp) as (_ & Hc & _ & Ht & Hf).
  pose proof (prepare_line_accept _ _ _ _ _ _ Hp Hi) as Ha.
  destruct (logged_session_ok _ _ _ Hl) as (ms & s & Hok).
  assert (memory_commit (memory_view (replay h cs) (js_append_index session)) c now
          = (Ok stored, memory_view (replay h (cs ++ [stored])) index)) as Hcommit.
  { unfold memory_commit. rewrite <-Hs. unfold view_of in Ha. rewrite Ha.
    by rewrite replay_snoc, <-Hs. }
  rewrite Hs in *. destruct (session_ok_commit _ _ _ _ _ _ _ Hok Hcommit) as [s' Hok']; [apply Had|].
  eapply logged_commit; [done| |done|exact Hok']. by eapply prepared_commit_logged.
Qed.
End extend.
