(* ===== verification/JsonlCrash.v ===== *)
(** * tea-session: crashes, torn tails and recovery

    A session directory over its whole life: a writer commits to it under
    arbitrary write failures, stops or crashes, the machine loses whatever
    was not synchronized, and a later process inspects, repairs and reopens
    it.  In every state that can arise the file is a valid log followed by
    at most one unterminated line, and no commit that strict durability
    acknowledged is ever lost.  The [HEAD] cache beside it stays current or
    is ignored. *)

From stdpp Require Import base gmap sets list strings sorting.
From S2P Require Import Prelude RustStr Json Ids Model Records Snapshot Reduction ReductionInv.
From S2P Require Import ReductionSafety Agents SessionErrors WireEncode WireDecode WireSeal WireFields WireRecords WireSealProofs.
From S2P Require Import Store StoreIndex StoreSession Jsonl JsonlSession JsonlReader JsonlLog JsonlCommit.

Local Open Scope N_scope.

(** ** The directory over time *)

(** The directory, the session that is open on it, and the commits whose
    writer was told, in strict mode, that they are durable. *)
Record World := mk_world {
  w_dir : SessionDirectory;
  w_session : option JsonlSession;
  w_acknowledged : list StoredCommit;
}.

(** The readings of a file that return what it holds. *)
Definition faithful (io : OpenIo) (dir : SessionDirectory) : Prop :=
  oi_first io = map Byte (lf_bytes (dir_log dir)) /\ delivers (oi_reads io) (lf_bytes (dir_log dir)).

Definition opened (r : Outcome SessionError JsonlSession) : option JsonlSession :=
  match r with Ok session => Some session | _ => None end.

(** Acknowledged by the given result. *)
Definition acknowledge (durability : DurabilityMode) (r : Outcome SessionError StoredCommit)
    (acknowledged : list StoredCommit) : list StoredCommit :=
  match durability, r with Strict, Ok stored => acknowledged ++ [stored] | _, _ => acknowledged end.

(** Projections of the records of this file. *)
Tactic Notation "disk" := cbn [w_dir w_session w_acknowledged dir_log dir_head lf_bytes lf_synced fst snd
  set_field file_append file_sync acknowledge].
Tactic Notation "disk" "in" "*" :=
  cbn [w_dir w_session w_acknowledged dir_log dir_head lf_bytes lf_synced fst snd
  set_field file_append file_sync acknowledge] in *.
Tactic Notation "disk" "in" hyp(H) :=
  cbn [w_dir w_session w_acknowledged dir_log dir_head lf_bytes lf_synced fst snd
  set_field file_append file_sync acknowledge] in H.

Section world.
Context `{Miniserde} `{Blake3}.
Variable directory : string.

Inductive world_step : World -> World -> Prop :=
| step_commit dir session acknowledged c now line_io head_io r session' dir' :
    write_commit session dir c now line_io head_io = (r, session', dir') ->
    (forall stored text, prepare_line session c now = Ok (stored, text) ->
       durable_admissible (js_snapshot session) stored) ->
    N.of_nat (length (lf_bytes (dir_log dir'))) <= u64_max ->
    world_step (mk_world dir (Some session) acknowledged)
      (mk_world dir' (Some session') (acknowledge (js_durability session) r acknowledged))
| step_close dir session acknowledged :
    world_step (mk_world dir (Some session) acknowledged) (mk_world dir None acknowledged)
| step_crash dir session acknowledged kept head :
    (lf_synced (dir_log dir) <= kept <= length (lf_bytes (dir_log dir)))%nat ->
    world_step (mk_world dir session acknowledged)
      (mk_world (mk_directory (mk_log_file (take kept (lf_bytes (dir_log dir))) kept) head) None acknowledged)
| step_open dir acknowledged durability io head_io r dir' :
    faithful io dir -> jsonl_open directory dir durability io head_io = (r, dir') ->
    world_step (mk_world dir None acknowledged) (mk_world dir' (opened r) acknowledged)
| step_repair dir acknowledged durability io set_len sync head_io r dir' :
    faithful io dir -> repair_torn_tail directory dir durability io set_len sync head_io = (r, dir') ->
    world_step (mk_world dir None acknowledged) (mk_world dir' None acknowledged).

(** A directory created in strict mode, and everything that follows. *)
Inductive world_reachable (h : SessionHeader) : World -> Prop :=
| world_created header io r dir :
    header_ok header -> seal_header header = Ok h -> text_exact (header_value h) = true ->
    jsonl_create directory header Strict io = (r, Some dir) ->
    world_reachable h (mk_world dir (opened r) [])
| world_stepped w w' : world_reachable h w -> world_step w w' -> world_reachable h w'.
End world.

(** ** The invariant *)

Section invariant.
Context `{MiniserdeLaw} `{Blake3Law}.

(** The file holds the log [cs] and an unterminated [tail]; the acknowledged
    commits lie in a part of it that is on the device. *)
Record log_on_disk (h : SessionHeader) (file : LogFile) (acknowledged cs : list StoredCommit)
    (index : SessionAppendIndex) (tail : list N) : Prop := {
  ld_logged : logged h cs index;
  ld_bytes : lf_bytes file = render h cs ++ tail;
  ld_tail : NEWLINE ∉ tail;
  ld_bound : N.of_nat (length (lf_bytes file)) <= u64_max;
  ld_durable : exists durable, durable `prefix_of` cs /\ acknowledged `sublist_of` durable
                 /\ (length (render h durable) <= lf_synced file)%nat;
}.

(** A writer that is not faulted has replayed exactly what is in the file. *)
Definition session_follows (h : SessionHeader) (session : JsonlSession) (cs : list StoredCommit)
    (index : SessionAppendIndex) (tail : list N) : Prop :=
  js_fault session = None -> js_snapshot session = replay h cs /\ js_append_index session = index /\ tail = [].

Definition world_ok (h : SessionHeader) (w : World) : Prop :=
  exists cs index tail,
    log_on_disk h (dir_log (w_dir w)) (w_acknowledged w) cs index tail
    /\ forall session, w_session w = Some session -> session_follows h session cs index tail.

(** A prefix of one rendered line is the line or holds no newline. *)
Lemma line_prefix l written :
  NEWLINE ∉ l -> written `prefix_of` l ++ [NEWLINE] -> written = l ++ [NEWLINE] \/ (NEWLINE ∉ written).
Proof.
  intros Hl [k Hk]. destruct k as [|x k _] using rev_ind; [left; by rewrite app_nil_r in Hk|].
  right. rewrite (assoc_L app) in Hk. apply app_inj_tail in Hk as [-> _]. set_solver.
Qed.

Lemma render_length h cs cs' : cs `prefix_of` cs' -> (length (render h cs) <= length (render h cs'))%nat.
Proof. intros [k ->]. unfold render. rewrite map_app, concat_app, !length_app. lia. Qed.

(** Cutting a rendered log anywhere behind its header. *)
Lemma logged_cut h cs index kept :
  logged h cs index -> (length (header_line h) <= kept)%nat ->
  exists cs' index' tail, logged h cs' index' /\ cs' `prefix_of` cs
    /\ take kept (render h cs) = render h cs' ++ tail /\ (NEWLINE ∉ tail)
    /\ forall durable, durable `prefix_of` cs -> (length (render h durable) <= kept)%nat ->
         durable `prefix_of` cs'.
Proof.
  induction 1 as [Hh|cs index c index' ms s Hl IH Hc Hi Hok]; intros Hk.
  - exists [], (index_empty h), []. split_and!; [by constructor|done| |apply not_elem_of_nil|done].
    unfold render. cbn [map concat]. rewrite !app_nil_r. by rewrite take_ge.
  - destruct (decide (length (render h (cs ++ [c])) <= kept)%nat) as [Hall|Hless].
    { exists (cs ++ [c]), index', []. split_and!; [by eapply logged_commit|done| |apply not_elem_of_nil|done].
      by rewrite take_ge, app_nil_r. }
    destruct (IH Hk) as (cs' & i' & tail & Hl' & Hpre & Htake & Htail & Hdur).
    assert (forall durable, durable `prefix_of` cs ++ [c] -> (length (render h durable) <= kept)%nat ->
      durable `prefix_of` cs) as Hshort.
    { intros durable [k Hd] Hlen. destruct k as [|x k _] using rev_ind.
      - rewrite app_nil_r in Hd. rewrite <-Hd in Hlen. lia.
      - rewrite (assoc_L app) in Hd. apply app_inj_tail in Hd as [-> _]. by apply prefix_app_r. }
    destruct (decide (length (render h cs) <= kept)%nat) as [Hmid|Hlow].
    + exists cs, index, (take (kept - length (render h cs)) (commit_line c)).
      split_and!; [done|by apply prefix_app_r| | |done].
      * rewrite render_snoc, take_app. by rewrite take_ge by lia.
      * rewrite render_snoc, length_app in Hless. unfold commit_line in *.
        rewrite length_app in Hless. cbn [length] in Hless. rewrite take_app_le by lia.
        intros Hin. apply (commit_line_no_newline _ _ _ Hc). by eapply subseteq_take.
    + exists cs', i', tail. split_and!; [done|by apply prefix_app_r| |done|].
      * rewrite render_snoc, take_app_le by lia. done.
      * intros durable Hd Hlen. apply Hdur; [|done]. by apply Hshort.
Qed.
(** ** Reading the log back *)

Lemma first_line_loop_spec path l rest acc :
  NEWLINE ∉ l -> N.of_nat (length acc + length l) <= MAX_SESSION_LINE_BYTES ->
  first_line_loop path (map Byte (l ++ NEWLINE :: rest)) acc = Ok (Some (acc ++ l)).
Proof.
  revert acc. induction l as [|b l IH]; intros acc Hl Hlen.
  - simpl. by rewrite app_nil_r.
  - apply not_elem_of_cons in Hl as [Hb Hl]. cbn [app map first_line_loop].
    rewrite (proj2 (N.eqb_neq b NEWLINE)) by congruence. cbn [length] in Hlen.
    rewrite (proj2 (N.eqb_neq _ _)) by lia. rewrite IH; [|done|].
    + by rewrite <-(assoc_L app).
    + rewrite length_app. cbn [length]. lia.
Qed.

Lemma header_format_supported h :
  header_logged h -> forall path rest,
  reject_unsupported_format path (map Byte (header_line h ++ rest)) = Ok ().
Proof.
  intros Hh path rest. pose proof (parse_line_text path 1 0 _ (hl_exact _ Hh)) as [Hparse Hnl].
  pose proof (hl_fits _ Hh) as Hfit. unfold line_fits in Hfit.
  unfold reject_unsupported_format, read_first_complete_line, header_line.
  rewrite <-(assoc_L app). cbn [app]. rewrite first_line_loop_spec by (done || (cbn [length]; lia)).
  cbn [obind app]. unfold parse_canonical_line in Hparse. cbn [cl_bytes] in Hparse.
  apply obind_Ok_inv in Hparse as (source & Hsource%map_err_Ok_inv & Hparse). rewrite Hsource. cbn [obind map_err].
  apply obind_Ok_inv in Hparse as (value & Hvalue%map_err_Ok_inv & Hparse). rewrite Hvalue.
  apply obind_Ok_inv in Hparse as (canonical & _ & Hparse). case_bool_decide; [|done].
  injection Hparse as ->. destruct (hl_identity _ Hh) as (_ & _ & Hv).
  unfold header_value, header_fields. rewrite Hv. reflexivity.
Qed.

Lemma read_log_on_disk path h dir acknowledged cs index tail io :
  log_on_disk h (dir_log dir) acknowledged cs index tail -> faithful io dir ->
  read_log path io
  = match oi_acquire io with Some error => Err error | None => Ok (replay h cs, index, torn_offset h cs tail) end.
Proof.
  intros Hd [Hfirst Hreads]. unfold read_log, attempt. destruct (oi_acquire io); [done|]. cbn [obind].
  rewrite Hfirst, (ld_bytes _ _ _ _ _ _ Hd). unfold render at 1. rewrite <-(assoc_L app).
  rewrite header_format_supported by (eapply logged_header_logged, Hd). cbn [obind].
  rewrite (decode_stream_file _ _ _ Hreads), (ld_bytes _ _ _ _ _ _ Hd).
  apply decode_logged_file; [apply Hd..|].
  pose proof (ld_bound _ _ _ _ _ _ Hd) as Hb. rewrite (ld_bytes _ _ _ _ _ _ Hd), length_app in Hb. lia.
Qed.

Lemma validate_on_disk h file acknowledged cs index tail :
  log_on_disk h file acknowledged cs index tail -> validate_replayed (replay h cs) = Ok ().
Proof. intros Hd. unfold validate_replayed. erewrite logged_valid by apply Hd. done. Qed.

Lemma inspect_on_disk directory h dir acknowledged cs index tail io :
  log_on_disk h (dir_log dir) acknowledged cs index tail -> faithful io dir ->
  jsonl_inspect directory io
  = match oi_acquire io with Some error => Err error | None => Ok (replay h cs, torn_offset h cs tail) end.
Proof.
  intros Hd Hf. unfold jsonl_inspect. rewrite (read_log_on_disk _ _ _ _ _ _ _ _ Hd Hf).
  destruct (oi_acquire io); [done|]. cbn [obind]. by rewrite (validate_on_disk _ _ _ _ _ _ Hd).
Qed.

Lemma open_on_disk directory h dir acknowledged cs index tail durability io head_io r dir' :
  log_on_disk h (dir_log dir) acknowledged cs index tail -> faithful io dir ->
  jsonl_open directory dir durability io head_io = (r, dir') ->
  dir_log dir' = dir_log dir
  /\ match oi_acquire io, torn_offset h cs tail with
     | Some error, _ => r = Err error
     | None, Some offset => r = Err (RecoveryRequired (path_join directory "session.jsonl") offset)
     | None, None => exists session, r = Ok session /\ js_snapshot session = replay h cs
                       /\ js_append_index session = index /\ js_fault session = None
     end.
Proof.
  intros Hd Hf. unfold jsonl_open. rewrite (read_log_on_disk _ _ _ _ _ _ _ _ Hd Hf).
  destruct (oi_acquire io); [by intros [= <- <-]|]. cbn [obind].
  destruct (torn_offset h cs tail); [by intros [= <- <-]|]. cbn [obind].
  rewrite (validate_on_disk _ _ _ _ _ _ Hd). cbn [obind].
  destruct (if head_cache_matches _ _ then _ else _) as [cached head]. intros [= <- <-].
  split; [done|]. by eexists.
Qed.
(** ** Every step keeps the invariant *)

Lemma world_ok_commit h dir session acknowledged c now line_io head_io r session' dir' :
  world_ok h (mk_world dir (Some session) acknowledged) ->
  write_commit session dir c now line_io head_io = (r, session', dir') ->
  (forall stored text, prepare_line session c now = Ok (stored, text) ->
     durable_admissible (js_snapshot session) stored) ->
  N.of_nat (length (lf_bytes (dir_log dir'))) <= u64_max ->
  world_ok h (mk_world dir' (Some session') (acknowledge (js_durability session) r acknowledged)).
Proof.
  intros (cs & index & tail & Hd & Hs) Hw%write_commit_committed Had Hb. specialize (Hs session eq_refl).
  cbn [w_dir w_acknowledged] in Hd.
  destruct Hw as [error Hi|reason Hm|stored text error written Hp Hi Hpre|stored text s1 d1 Hp Hab Hby Hsy Hst].
  - exists cs, index, tail. split; [by destruct (js_durability session)|by intros ? [= <-]].
  - exists cs, index, tail. split; [by destruct (js_durability session)|by intros ? [= <-]].
  - pose proof (prepare_line_Ok _ _ _ _ _ Hp) as (Hf & _). destruct (Hs Hf) as (Hsn & Hix & ->).
    pose proof (Had _ _ Hp) as Hda. destruct Hd as [Hl Hby _ _ (durable & Hdp & Hack & Hlen)]. rewrite <-Hix in Hl.
    destruct (prepare_line_logged _ _ _ _ _ _ _ Hl Hsn Hp Hda) as (index' & Hadv & Hl').
    assert (NEWLINE ∉ line_text (encode_commit stored)) as Hnl.
    { pose proof (logged_no_newline _ _ _ Hl') as [_ Hall]. apply Forall_app in Hall as [_ Hall].
      by apply Forall_cons_1 in Hall as [? _]. }
    rewrite app_nil_r in Hby. replace (acknowledge _ _ _) with acknowledged by by destruct (js_durability session).
    destruct (line_prefix _ _ Hnl Hpre) as [->|Hno].
    + exists (cs ++ [stored]), index', []. split; [|by intros ? [= <-]]. split; [done| |apply not_elem_of_nil|done|].
      * rewrite app_nil_r, render_snoc. disk. by rewrite Hby.
      * exists durable. split_and!; [by apply prefix_app_r|done|done].
    + exists cs, (js_append_index session), written. split; [|by intros ? [= <-]]. split; [done| |done|done|].
      * disk. by rewrite Hby.
      * by exists durable.
  - pose proof (prepare_line_Ok _ _ _ _ _ Hp) as (Hf & _). destruct (Hs Hf) as (Hsn & Hix & ->).
    pose proof (Had _ _ Hp) as Hda. destruct Hd as [Hl Hby0 _ _ (durable & Hdp & Hack & Hlen)]. rewrite <-Hix in Hl.
    destruct (prepare_line_logged _ _ _ _ _ _ _ Hl Hsn Hp Hda) as (index' & Hadv & Hl').
    assert (lf_bytes (dir_log d1) = render h (cs ++ [stored])) as Hbytes.
    { by rewrite Hby, Hby0, app_nil_r, render_snoc. }
    exists (cs ++ [stored]), index', []. split.
    + split; [done|by rewrite app_nil_r|apply not_elem_of_nil|done|]. disk.
      destruct (js_durability session) eqn:Hdur; disk.
      * exists (cs ++ [stored]). split_and!; [done| |by rewrite Hst, Hbytes].
        apply sublist_app; [|done]. destruct Hdp as [k ->]. by apply sublist_inserts_r.
      * exists durable. split_and!; [by apply prefix_app_r|done|].
        destruct Hsy as [->| ->]; [done|]. rewrite Hbytes. by apply render_length, prefix_app_r.
    + intros ? [= <-] _. rewrite (ab_snapshot _ _ _ _ _ Hab), Hsn, replay_snoc. split_and!; [done| |done].
      pose proof (ab_index _ _ _ _ _ Hab). congruence.
Qed.

Lemma world_ok_crash h dir session acknowledged kept head :
  world_ok h (mk_world dir session acknowledged) ->
  (lf_synced (dir_log dir) <= kept <= length (lf_bytes (dir_log dir)))%nat ->
  world_ok h (mk_world (mk_directory (mk_log_file (take kept (lf_bytes (dir_log dir))) kept) head)
                None acknowledged).
Proof.
  intros (cs & index & tail & [Hl Hby Ht Hbd (durable & Hdp & Hack & Hlen)] & _) Hk. disk in *.
  assert (N.of_nat (length (take kept (lf_bytes (dir_log dir)))) <= u64_max) as Hbd'.
  { rewrite length_take. lia. }
  destruct (decide (length (render h cs) <= kept)%nat) as [Hall|Hless].
  - exists cs, index, (take (kept - length (render h cs)) tail). split; [|done]. split; disk; [done| | |done|].
    + by rewrite Hby, take_app, take_ge.
    + intros Hin. apply Ht. by eapply subseteq_take.
    + exists durable. split_and!; [done..|lia].
  - destruct (logged_cut _ _ _ kept Hl) as (cs' & i' & tail' & Hl' & Hpre & Htake & Ht' & Hdur).
    { unfold render in Hlen. rewrite length_app in Hlen. lia. }
    exists cs', i', tail'. split; [|done]. split; disk; [done| |done|done|].
    + by rewrite Hby, take_app_le by lia.
    + exists durable. split_and!; [apply Hdur; [done|lia]|done|lia].
Qed.

Lemma truncated_on_disk h path file acknowledged cs index tail durability set_len sync r file' offset :
  log_on_disk h file acknowledged cs index tail -> torn_offset h cs tail = Some offset ->
  truncate_tail path file offset durability set_len sync = (r, file') ->
  (exists tail', log_on_disk h file' acknowledged cs index tail')
  /\ (r = Ok () -> log_on_disk h file' acknowledged cs index []).
Proof.
  intros Hd Ho Ht. assert (offset = N.of_nat (length (render h cs))) as ->.
  { unfold torn_offset in Ho. destruct tail; congruence. }
  assert (forall synced, (lf_synced file `min` length (render h cs) <= synced)%nat ->
    log_on_disk h (mk_log_file (render h cs) synced) acknowledged cs index []) as Hcut.
  { destruct Hd as [Hl Hby _ Hbd (durable & Hdp & Hack & Hlen)]. intros synced Hsy.
    split; disk; [done|by rewrite app_nil_r|apply not_elem_of_nil| |].
    - rewrite Hby, length_app in Hbd. lia.
    - exists durable. split_and!; [done..|]. pose proof (render_length h _ _ Hdp).
      lia. }
  unfold truncate_tail in Ht. destruct set_len; [injection Ht as <- <-; split; [by exists tail|done]|].
  assert (file_truncate file (N.of_nat (length (render h cs)))
          = mk_log_file (render h cs) (lf_synced file `min` length (render h cs))) as Htr.
  { unfold file_truncate. rewrite Nat2N.id, (ld_bytes _ _ _ _ _ _ Hd). by rewrite take_app_length. }
  rewrite Htr in Ht. unfold file_sync in Ht.
  destruct durability, sync; apply pair_equal_spec in Ht as [<- <-]; (split; [exists []|]); try (by intros [=]);
    try (intros _); apply Hcut; disk; lia.
Qed.

Lemma world_ok_repair directory h dir acknowledged durability io set_len sync head_io r dir' :
  world_ok h (mk_world dir None acknowledged) -> faithful io dir ->
  repair_torn_tail directory dir durability io set_len sync head_io = (r, dir') ->
  world_ok h (mk_world dir' None acknowledged).
Proof.
  intros (cs & index & tail & Hd & _) Hf. disk in Hd. unfold repair_torn_tail.
  rewrite (inspect_on_disk _ _ _ _ _ _ _ _ Hd Hf).
  destruct (oi_acquire io); [intros [= <- <-]; by exists cs, index, tail|].
  set (cut := match torn_offset h cs tail with Some _ => _ | None => _ end).
  assert (exists tail', log_on_disk h cut.2 acknowledged cs index tail') as [tail' Hd'].
  { subst cut. destruct (torn_offset h cs tail) eqn:Ho; [|by exists tail].
    destruct (truncate_tail _ _ _ _ _ _) as [t log] eqn:Ht.
    by apply (truncated_on_disk _ _ _ _ _ _ _ _ _ _ _ _ _ Hd Ho Ht). }
  destruct cut as [[[]| |] log]; disk in *.
  - destruct (write_head_cache _ _ _ _ _) as [cached head]. intros [= <- <-]. exists cs, index, tail'. by split.
  - intros [= <- <-]. exists cs, index, tail'. by split.
  - intros [= <- <-]. exists cs, index, tail'. by split.
Qed.
(** ** Creation *)

Lemma seal_header_logged header h :
  header_ok header -> seal_header header = Ok h -> text_exact (header_value h) = true ->
  line_fits (line_text (header_value h)) -> header_logged h.
Proof.
  intros Hok Hseal He Hf. destruct (sealed_header_decodes _ _ Hok Hseal) as (v & Hv & Hdec).
  rewrite encode_header_fields in Hv. injection Hv as <-.
  revert Hseal. unfold seal_header. intros (d & Hd%map_err_Ok_inv & [= <-])%obind_Ok_inv.
  assert (digest_wf d) as Hwf.
  { revert Hd. unfold calculate_header_digest. intros (text & _ & [= <-])%obind_Ok_inv. apply blake3_wf. }
  destruct Hok as (Hk & Hfm & Hv & _). split; done.
Qed.

Lemma write_complete_line_fits file text durability path io file' :
  write_complete_line file text durability path io = (Ok (), file') -> line_fits (bytes_of text).
Proof.
  unfold write_complete_line. intros Hw. apply ensure_complete_line_size_Ok.
  by destruct (ensure_complete_line_size text) as [[]| |].
Qed.

Lemma populated_directory h encoded io dir :
  to_json_string (header_value h) = Ok encoded ->
  populate_directory h encoded Strict io = Ok dir ->
  line_fits (line_text (header_value h)) /\ lf_bytes (dir_log dir) = header_line h
  /\ lf_synced (dir_log dir) = length (header_line h).
Proof.
  intros Ht. unfold populate_directory. intros ([] & _ & Hp)%obind_Ok_inv.
  pose proof (write_complete_line_appends (mk_log_file [] 0) encoded Strict
    (path_join (ci_temporary io) "session.jsonl") (ci_line io)) as Happ.
  destruct (write_complete_line _ _ _ _ _) as [written log] eqn:Hw.
  apply obind_Ok_inv in Hp as ([] & -> & Hp). apply write_complete_line_fits in Hw.
  destruct (write_head_cache _ _ _ _ _) as [cached head].
  apply obind_Ok_inv in Hp as ([] & _ & Hp). apply obind_Ok_inv in Hp as ([] & _ & [= <-]).
  rewrite <-(line_text_Ok _ _ Ht) in Happ, Hw. inversion Happ as [| |synced _ Hst]; subst.
  split_and!; [done|done|]. by apply Hst.
Qed.

Lemma prepared_creation directory header h io h' encoded :
  seal_header header = Ok h -> prepare_creation directory header io = Ok (h', encoded) ->
  h' = h /\ to_json_string (header_value h) = Ok encoded.
Proof.
  intros Hseal. unfold prepare_creation. intros ([] & _ & Hp)%obind_Ok_inv. rewrite Hseal in Hp. cbn [obind] in Hp.
  apply obind_Ok_inv in Hp as ([] & _ & Hp). apply obind_Ok_inv in Hp as ([] & _ & Hp).
  apply obind_Ok_inv in Hp as (value & Hv & Hp). rewrite encode_header_fields in Hv. injection Hv as <-.
  apply obind_Ok_inv in Hp as (text & Ht%map_err_Ok_inv & [= <- <-]). done.
Qed.

Lemma world_ok_created directory header h io r dir :
  header_ok header -> seal_header header = Ok h -> text_exact (header_value h) = true ->
  jsonl_create directory header Strict io = (r, Some dir) ->
  world_ok h (mk_world dir (opened r) []).
Proof.
  intros Hok Hseal He. unfold jsonl_create.
  destruct (obind (prepare_creation directory header io) _) as [[h' dir']| |] eqn:Hc; [|done..].
  intros [= <- ->].
  apply obind_Ok_inv in Hc as ([h1 encoded] & Hp & Hc). apply obind_Ok_inv in Hc as (dir1 & Hpop & Hc).
  apply obind_Ok_inv in Hc as ([] & _ & [= -> ->]).
  destruct (prepared_creation _ _ _ _ _ _ Hseal Hp) as [-> Ht].
  destruct (populated_directory _ _ _ _ Ht Hpop) as (Hfit & Hby & Hsy).
  exists [], (index_empty h), []. assert (render h [] = header_line h) as Hr by apply app_nil_r.
  split.
  - split; disk.
    + constructor. by eapply seal_header_logged.
    + by rewrite Hby, app_nil_r.
    + apply not_elem_of_nil.
    + rewrite Hby. unfold header_line, line_fits, MAX_SESSION_LINE_BYTES, u64_max in *.
      rewrite length_app. cbn [length]. lia.
    + exists []. split_and!; [done..|]. by rewrite Hr, Hsy.
  - disk. intros session Ho _. cbn [attempt_strict] in Ho. destruct (attempt (ci_sync_parent io)) as [[]| |]; cbn [obind opened] in Ho; [|done..].
    by injection Ho as <-.
Qed.

Lemma world_ok_step directory h w w' : world_ok h w -> world_step directory w w' -> world_ok h w'.
Proof.
  intros Hw Hs. destruct Hs as [| | |dir ack durability io head_io r dir' Hf Ho|].
  - by eapply world_ok_commit.
  - destruct Hw as (cs & index & tail & Hd & _). by exists cs, index, tail.
  - by eapply world_ok_crash.
  - destruct Hw as (cs & index & tail & Hd & _). disk in Hd.
    destruct (open_on_disk _ _ _ _ _ _ _ _ _ _ _ _ Hd Hf Ho) as [Hlog Hr].
    exists cs, index, tail. disk. rewrite Hlog. split; [done|]. intros session Hopen _.
    destruct (oi_acquire io); [by subst r|]. destruct (torn_offset h cs tail) eqn:Ht; [by subst r|].
    destruct Hr as (s & -> & Hsn & Hix & _). injection Hopen as <-.
    split_and!; [done..|]. by destruct tail.
  - by eapply world_ok_repair.
Qed.

Lemma world_reachable_ok directory h w : world_reachable directory h w -> world_ok h w.
Proof.
  induction 1; [by eapply world_ok_created|by eapply world_ok_step].
Qed.

(** ** What survives *)


End invariant.

(** A commit that selects no main harness revision leaves it as it was. *)
Lemma push_item_revision c s item :
  selects_main_harness_revision item = false ->
  ss_main_harness_revision (push_item c s item) = ss_main_harness_revision s.
Proof.
  unfold selects_main_harness_revision, push_item.
  destruct (smu_mutation item) as [e|r|l|f']; simpl; try done.
  destruct (se_body e) eqn:Hb; simpl; try done. rewrite andb_true_r. by intros ->.
Qed.

Lemma push_commit_revision s c :
  existsb selects_main_harness_revision (sc_items c) = false ->
  ss_main_harness_revision (push_commit s c) = ss_main_harness_revision s.
Proof.
  unfold push_commit. intros Hn.
  cut (forall s', ss_main_harness_revision s' = ss_main_harness_revision s ->
    ss_main_harness_revision (foldl (push_item c) s' (sc_items c)) = ss_main_harness_revision s); [eauto|].
  revert Hn. induction (sc_items c) as [|i l IH]; cbn [existsb foldl]; intros Hn s' Hs'; [done|].
  apply orb_false_iff in Hn as [Hi Hl]. apply IH; [done|]. by rewrite push_item_revision.
Qed.

Section head.
Context `{Miniserde} `{Blake3}.

(** [HEAD] holds the contents a snapshot determines. *)
Definition head_current (head : option (list N)) (snapshot : SessionSnapshot) : Prop :=
  exists contents, head_cache_contents snapshot = Ok contents
                   /\ head = Some (bytes_of contents ++ [NEWLINE]).

Lemma head_cache_contents_same s s' :
  ss_header s' = ss_header s -> ss_main_harness_revision s' = ss_main_harness_revision s ->
  head_cache_contents s' = head_cache_contents s.
Proof. unfold head_cache_contents, active_main_harness_revision. by intros -> ->. Qed.

Lemma head_cache_contents_no_panic s r : head_cache_contents s <> Panic r.
Proof. unfold head_cache_contents. intros Hp%map_err_Panic_inv. by apply to_json_string_no_panic in Hp. Qed.

Lemma write_head_cache_current directory head snapshot durability io result head' :
  write_head_cache directory head snapshot durability io = (result, head') ->
  warning_of result = None -> head_current head' snapshot.
Proof.
  unfold write_head_cache. destruct (hi_open io); [by intros [= <- <-]|].
  destruct (head_cache_contents snapshot) as [contents| |] eqn:Hc;
    [|by intros [= <- <-]|by apply head_cache_contents_no_panic in Hc].
  assert (head_current (Some (bytes_of contents ++ [NEWLINE])) snapshot) by by exists contents.
  destruct (hi_write io), durability, (hi_sync io), (hi_rename io), (hi_directory_sync io);
    by intros [= <- <-].
Qed.

Lemma head_cache_matches_current head snapshot :
  head_cache_matches head snapshot = true -> head_current head snapshot.
Proof.
  unfold head_cache_matches. destruct head as [contents|]; [|done]. case_match; [done|].
  destruct (head_cache_contents snapshot) as [expected| |] eqn:Hc; [|done..].
  intros ->%bool_decide_eq_true. by exists expected.
Qed.

Definition head_follows (w : World) : Prop :=
  forall session, w_session w = Some session -> js_cache_warning session = None ->
    head_current (dir_head (w_dir w)) (js_snapshot session).

Lemma absorb_commit_head session dir stored head_io r session' dir' :
  (js_cache_warning session = None -> head_current (dir_head dir) (js_snapshot session)) ->
  absorb_commit session dir stored head_io = (r, session', dir') ->
  js_cache_warning session' = None -> head_current (dir_head dir') (js_snapshot session').
Proof.
  intros Hcur. unfold absorb_commit.
  destruct (ofold advance (js_append_index session) (sc_items stored)) as [index| |];
    [|by intros [= <- <- <-]..].
  destruct (existsb _ _) eqn:Hsel.
  - destruct (write_head_cache _ _ _ _ _) as [cached head] eqn:Hw. intros [= <- <- <-] Hwarn. simpl in *.
    by eapply write_head_cache_current.
  - intros [= <- <- <-] Hwarn. simpl in *. destruct (Hcur Hwarn) as (contents & Hc & Hh).
    exists contents. split; [|done]. rewrite <-Hc. apply head_cache_contents_same.
    + by rewrite push_commit_header.
    + by rewrite push_commit_revision.
Qed.

Lemma write_commit_head session dir c now line_io head_io r session' dir' :
  (js_cache_warning session = None -> head_current (dir_head dir) (js_snapshot session)) ->
  write_commit session dir c now line_io head_io = (r, session', dir') ->
  js_cache_warning session' = None -> head_current (dir_head dir') (js_snapshot session').
Proof.
  intros Hcur. unfold write_commit.
  destruct (prepare_line session c now) as [[stored text]| |]; [|by intros [= <- <- <-]..].
  destruct (write_complete_line _ _ _ _ _) as [[[]|error|] log].
  - by apply absorb_commit_head.
  - intros [= <- <- <-]. by destruct (is_indeterminate error).
  - by intros [= <- <- <-].
Qed.

Lemma created_head directory header durability io session dir :
  jsonl_create directory header durability io = (Ok session, Some dir) ->
  head_current (dir_head dir) (js_snapshot session).
Proof.
  unfold jsonl_create.
  destruct (obind (prepare_creation directory header io) _) as [[h' dir']| |] eqn:Hc; [|done..].
  intros [= Hs ->]. apply obind_Ok_inv in Hs as ([] & _ & [= <-]).
  apply obind_Ok_inv in Hc as ([h1 encoded] & _ & Hc). apply obind_Ok_inv in Hc as (dir1 & Hpop & Hc).
  apply obind_Ok_inv in Hc as ([] & _ & [= -> ->]). unfold populate_directory in Hpop.
  apply obind_Ok_inv in Hpop as ([] & _ & Hpop). destruct (write_complete_line _ _ _ _ _) as [written log].
  apply obind_Ok_inv in Hpop as ([] & _ & Hpop). destruct (write_head_cache _ _ _ _ _) as [cached head] eqn:Hw.
  apply obind_Ok_inv in Hpop as ([] & -> & Hpop). apply obind_Ok_inv in Hpop as ([] & _ & [= <-]).
  by apply write_head_cache_current in Hw.
Qed.

Lemma opened_head directory dir durability io head_io session dir' :
  jsonl_open directory dir durability io head_io = (Ok session, dir') ->
  js_cache_warning session = None -> head_current (dir_head dir') (js_snapshot session).
Proof.
  unfold jsonl_open. destruct (obind (read_log _ io) _) as [[snapshot index]| |]; [|done..].
  destruct (head_cache_matches (dir_head dir) snapshot) eqn:Hm.
  - intros [= <- <-] _. by apply head_cache_matches_current.
  - destruct (write_head_cache _ _ _ _ _) as [cached head] eqn:Hw. intros [= <- <-] Hwarn. simpl in *.
    by eapply write_head_cache_current.
Qed.

(** While an open session reports no cache warning, HEAD holds exactly the contents its
    snapshot determines, although only commits that select a main harness revision rewrite it.
    *)
Theorem head_cache_stays_current directory h w session :
  world_reachable directory h w -> w_session w = Some session -> js_cache_warning session = None ->
  head_current (dir_head (w_dir w)) (js_snapshot session).
Proof.
  intros Hr. revert session. change (head_follows w).
  induction Hr as [header io r dir _ _ _ Hc|w w' _ IH Hs].
  - intros session Ho _. destruct r as [s| |]; [|done..]. injection Ho as <-. by eapply created_head.
  - destruct Hs as [dir session ack c now line_io head_io r session' dir' Hw _ _| | |
      dir ack durability io head_io r dir' _ Ho|]; try done.
    + intros s [= <-]. eapply write_commit_head; [|exact Hw]. by apply IH.
    + intros s Hopen. destruct r as [s'| |]; [|done..]. injection Hopen as <-. by eapply opened_head.
Qed.
End head.
