(* ===== verification/JsonlCodec.v ===== *)
(** * A text codec

    The class [MiniserdeLaw] can be inhabited: a printer and a parser of
    values, one line of ASCII per value, for the concrete sessions below.
    Text is printed as pairs of letters, numbers in binary, and every item of
    an array or object is preceded by a comma.  A session that is created,
    committed to, torn by a full device and repaired follows. *)

From Stdlib Require Import Ascii.
From stdpp Require Import base list strings gmap sets sorting.
From S2P Require Import Prelude RustStr Json Ids Model Records Snapshot Reduction ReductionInv.
From S2P Require Import Scenario Witnesses Agents SessionErrors WireEncode WireDecode WireSeal WireFields WireRecords.
From S2P Require Import WireSealProofs Store StoreIndex StoreSession Jsonl JsonlSession JsonlReader JsonlLog JsonlCommit.
From S2P Require Import JsonlCrash.

Local Open Scope char_scope.

(** ** Printing *)

Definition high_letter (a : ascii) : ascii := ascii_of_byte (65 + N.shiftr (byte_of a) 4).
Definition low_letter (a : ascii) : ascii := ascii_of_byte (65 + N.land (byte_of a) 15).

Fixpoint text_out (s : string) (rest : string) : string :=
  match s with
  | EmptyString => String "." rest
  | String a s => String (high_letter a) (String (low_letter a) (text_out s rest))
  end.

Fixpoint positive_out (p : positive) (rest : string) : string :=
  match p with
  | xH => String "H" rest
  | xO p => String "O" (positive_out p rest)
  | xI p => String "I" (positive_out p rest)
  end.

Fixpoint value_out (m : MiniValue) (rest : string) : string :=
  match m with
  | MiniNull => String "n" rest
  | MiniBool true => String "t" rest
  | MiniBool false => String "f" rest
  | MiniNum (MiniU64 0) => String "z" rest
  | MiniNum (MiniU64 (Npos p)) => String "u" (positive_out p rest)
  | MiniNum (MiniI64 Z0) => String "0" rest
  | MiniNum (MiniI64 (Zpos p)) => String "p" (positive_out p rest)
  | MiniNum (MiniI64 (Zneg p)) => String "m" (positive_out p rest)
  | MiniNum (MiniF64 _) => String "d" rest
  | MiniString s => String "s" (text_out s rest)
  | MiniArray l =>
      String "[" ((fix go l :=
        match l with
        | [] => String "]" rest
        | x :: l => String "," (value_out x (go l))
        end) l)
  | MiniObject l =>
      String "{" ((fix go l :=
        match l with
        | [] => String "}" rest
        | (k, x) :: l => String "," (text_out k (value_out x (go l)))
        end) l)
  end.

Fixpoint items_out (l : list MiniValue) (rest : string) : string :=
  match l with
  | [] => String "]" rest
  | x :: l => String "," (value_out x (items_out l rest))
  end.
Fixpoint fields_out (l : list (string * MiniValue)) (rest : string) : string :=
  match l with
  | [] => String "}" rest
  | (k, x) :: l => String "," (text_out k (value_out x (fields_out l rest)))
  end.

Lemma value_out_array l rest : value_out (MiniArray l) rest = String "[" (items_out l rest).
Proof. cbn [value_out]. f_equal. induction l as [|x l IH]; simpl; [done|]. by rewrite IH. Qed.

Lemma value_out_object l rest : value_out (MiniObject l) rest = String "{" (fields_out l rest).
Proof. cbn [value_out]. f_equal. induction l as [|[k x] l IH]; simpl; [done|]. by rewrite IH. Qed.

(** ** Parsing *)

Fixpoint text_in (s : string) : option (string * string) :=
  match s with
  | String "." rest => Some (EmptyString, rest)
  | String h (String l s) =>
      match text_in s with
      | Some (t, rest) =>
          Some (String (ascii_of_byte (N.shiftl (byte_of h - 65) 4 + (byte_of l - 65))) t, rest)
      | None => None
      end
  | _ => None
  end.

Fixpoint positive_in (s : string) : option (positive * string) :=
  match s with
  | String "H" rest => Some (xH, rest)
  | String "O" s => match positive_in s with Some (p, rest) => Some (xO p, rest) | None => None end
  | String "I" s => match positive_in s with Some (p, rest) => Some (xI p, rest) | None => None end
  | _ => None
  end.

Definition with_rest {A B} (f : A -> B) (r : option (A * string)) : option (B * string) :=
  match r with Some (a, rest) => Some (f a, rest) | None => None end.

Fixpoint value_in (fuel : nat) (s : string) : option (MiniValue * string) :=
  match fuel, s with
  | S fuel, String c s =>
      match c with
      | "n" => Some (MiniNull, s)
      | "t" => Some (MiniBool true, s)
      | "f" => Some (MiniBool false, s)
      | "z" => Some (MiniNum (MiniU64 0), s)
      | "u" => with_rest (fun p => MiniNum (MiniU64 (Npos p))) (positive_in s)
      | "0" => Some (MiniNum (MiniI64 0), s)
      | "p" => with_rest (fun p => MiniNum (MiniI64 (Zpos p))) (positive_in s)
      | "m" => with_rest (fun p => MiniNum (MiniI64 (Zneg p))) (positive_in s)
      | "s" => with_rest MiniString (text_in s)
      | "[" => with_rest MiniArray (items_in fuel s)
      | "{" => with_rest MiniObject (fields_in fuel s)
      | _ => None
      end
  | _, _ => None
  end
with items_in (fuel : nat) (s : string) : option (list MiniValue * string) :=
  match fuel, s with
  | S fuel, String c s =>
      match c with
      | "]" => Some ([], s)
      | "," =>
          match value_in fuel s with
          | Some (x, rest) => with_rest (cons x) (items_in fuel rest)
          | None => None
          end
      | _ => None
      end
  | _, _ => None
  end
with fields_in (fuel : nat) (s : string) : option (list (string * MiniValue) * string) :=
  match fuel, s with
  | S fuel, String c s =>
      match c with
      | "}" => Some ([], s)
      | "," =>
          match text_in s with
          | Some (k, s) =>
              match value_in fuel s with
              | Some (x, rest) => with_rest (cons (k, x)) (fields_in fuel rest)
              | None => None
              end
          | None => None
          end
      | _ => None
      end
  | _, _ => None
  end.

#[local] Instance line_codec : Miniserde := {|
  mini_to_string := fun m => value_out m EmptyString;
  mini_from_str := fun s =>
    match value_in (S (String.length s)) s with
    | Some (m, EmptyString) => Some m
    | _ => None
    end;
|}.

(** ** The law *)

Lemma letters_in a :
  ascii_of_byte (N.shiftl (byte_of (high_letter a) - 65) 4 + (byte_of (low_letter a) - 65)) = a.
Proof. by destruct a as [[] [] [] [] [] [] [] []]. Qed.

Lemma high_letter_not_dot a : high_letter a <> ".".
Proof. by destruct a as [[] [] [] [] [] [] [] []]. Qed.

Lemma text_in_letter h l s :
  h <> "." ->
  text_in (String h (String l s)) =
  match text_in s with
  | Some (t, rest) => Some (String (ascii_of_byte (N.shiftl (byte_of h - 65) 4 + (byte_of l - 65))) t, rest)
  | None => None
  end.
Proof. by destruct h as [[] [] [] [] [] [] [] []]. Qed.

Lemma text_in_out s rest : text_in (text_out s rest) = Some (s, rest).
Proof.
  induction s as [|a s IH]; [done|]. cbn [text_out].
  rewrite text_in_letter by apply high_letter_not_dot. by rewrite IH, letters_in.
Qed.

Lemma positive_in_out p rest : positive_in (positive_out p rest) = Some (p, rest).
Proof. induction p as [p IH|p IH|]; simpl; rewrite ?IH; done. Qed.

Lemma text_out_length s rest : (String.length rest < String.length (text_out s rest))%nat.
Proof. induction s; simpl; lia. Qed.

Lemma positive_out_length p rest : (String.length rest < String.length (positive_out p rest))%nat.
Proof. induction p; simpl; lia. Qed.

Lemma value_out_length m rest : (String.length rest < String.length (value_out m rest))%nat.
Proof.
  revert rest. induction m as [|b|[[]|[]|]|s|l IH|l IH] using mini_ind'; intros rest;
    rewrite ?value_out_array, ?value_out_object; simpl; try lia.
  - destruct b; simpl; lia.
  - pose proof (positive_out_length p rest). lia.
  - pose proof (positive_out_length p rest). lia.
  - pose proof (positive_out_length p rest). lia.
  - pose proof (text_out_length s rest). lia.
  - induction IH as [|x l Hx _ IH]; simpl; [lia|]. pose proof (Hx (items_out l rest)). lia.
  - induction IH as [|[k x] l Hx _ IH]; simpl; [lia|]. simpl in Hx.
    pose proof (Hx (fields_out l rest)). pose proof (text_out_length k (value_out x (fields_out l rest))). lia.
Qed.

Lemma value_in_out m rest fuel :
  mini_normal m = true -> (String.length (value_out m rest) < fuel)%nat ->
  value_in fuel (value_out m rest) = Some (m, rest).
Proof.
  revert rest fuel. induction m as [|b|[[]|[]|]|s|l IH|l IH] using mini_ind'; intros rest fuel Hn Hf;
    (destruct fuel as [|fuel]; [lia|]); try done;
    rewrite ?value_out_array, ?value_out_object in *; cbn [value_out value_in]; rewrite ?positive_in_out, ?text_in_out; try done.
  - by destruct b.
  - cbn [String.length] in Hf. apply Nat.succ_lt_mono in Hf.
    assert (items_in fuel (items_out l rest) = Some (l, rest)) as ->; [|done]. cbn [mini_normal] in Hn.
    revert fuel Hf. induction IH as [|x l Hx _ IH]; intros [|fuel] Hf; simpl in Hf; try lia; [done|].
    simpl in Hn. apply andb_true_iff in Hn as [Hnx Hnl]. cbn [items_out items_in].
    pose proof (value_out_length x (items_out l rest)).
    rewrite Hx by (done || lia). rewrite IH by (done || lia). done.
  - cbn [String.length] in Hf. apply Nat.succ_lt_mono in Hf.
    assert (fields_in fuel (fields_out l rest) = Some (l, rest)) as ->; [|done]. cbn [mini_normal] in Hn.
    apply andb_true_iff in Hn as [_ Hn].
    revert fuel Hf. induction IH as [|[k x] l Hx _ IH]; intros [|fuel] Hf; simpl in Hf; try lia; [done|].
    simpl in Hn, Hx. apply andb_true_iff in Hn as [Hnx Hnl]. cbn [fields_out fields_in].
    pose proof (value_out_length x (fields_out l rest)).
    pose proof (text_out_length k (value_out x (fields_out l rest))).
    rewrite text_in_out, Hx by (done || lia). rewrite IH by (done || lia). done.
Qed.

(** The printed characters: ASCII, no newline. *)
Definition plain (s : string) : Prop := Forall (fun b => (b < 128)%N /\ b <> NEWLINE) (bytes_of s).

Lemma plain_cons c s : (byte_of c <? 128)%N && negb (byte_of c =? NEWLINE)%N = true -> plain s -> plain (String c s).
Proof.
  intros [Hb%N.ltb_lt Hn%negb_true_iff%N.eqb_neq]%andb_true_iff Hs. by constructor.
Qed.

Lemma text_out_plain s rest : plain rest -> plain (text_out s rest).
Proof.
  intros Hr. induction s as [|a s IH]; cbn [text_out]; [by apply plain_cons|].
  apply plain_cons; [by destruct a as [[] [] [] [] [] [] [] []]|].
  apply plain_cons; [by destruct a as [[] [] [] [] [] [] [] []]|done].
Qed.

Lemma positive_out_plain p rest : plain rest -> plain (positive_out p rest).
Proof. intros Hr. induction p as [p IH|p IH|]; simpl; by apply plain_cons. Qed.

Lemma value_out_plain m rest : plain rest -> plain (value_out m rest).
Proof.
  revert rest. induction m as [|b|[[]|[]|]|s|l IH|l IH] using mini_ind'; intros rest Hr;
    rewrite ?value_out_array, ?value_out_object; cbn [value_out]; try (by apply plain_cons);
    try (apply plain_cons; [done|]; by (apply positive_out_plain || apply text_out_plain)).
  - destruct b; by apply plain_cons.
  - apply plain_cons; [done|]. induction IH as [|x l Hx _ IH]; cbn [items_out]; apply plain_cons; try done.
    by apply Hx.
  - apply plain_cons; [done|]. induction IH as [|[k x] l Hx _ IH]; cbn [fields_out]; apply plain_cons; try done.
    by apply text_out_plain, Hx.
Qed.

Lemma line_codec_law : MiniserdeLaw.
Proof.
  split; intros m Hn; cbn [mini_to_string mini_from_str line_codec];
    assert (plain (value_out m EmptyString)) as Hp by (apply value_out_plain; constructor).
  - by rewrite value_in_out by (done || lia).
  - unfold utf8_ok. rewrite utf8_validation_ascii; [done|].
    eapply Forall_impl; [exact Hp|]. by intros b [? _].
  - intros Hin. unfold plain in Hp. rewrite Forall_forall in Hp. by destruct (Hp _ Hin).
Qed.

(** ** Concrete sessions *)

Local Close Scope char_scope.
Local Open Scope string_scope.
Local Open Scope N_scope.
#[local] Existing Instance line_codec.
#[local] Existing Instance line_codec_law.
#[local] Existing Instance padded_blake3.
#[local] Existing Instance padded_blake3_law.

Definition no_line_io : LineIo := mk_line_io None None None None.
Definition no_head_io : HeadIo := mk_head_io "/s/.HEAD.tmp" None None None None None.
Definition no_create_io : CreateIo :=
  mk_create_io false None "/.s.create" None no_line_io no_head_io None None None.
(** The device fills up after forty bytes of the line. *)
Definition full_device : LineIo := mk_line_io (Some (40%nat, "No space left on device")) None None None.

Definition header1 : SessionHeader := outcome_or (seal_header header) header.
Definition idle : JsonlSession :=
  mk_jsonl_session "/s" "" (snapshot_empty header1) (index_empty header1) Strict None None.
Definition no_dir : SessionDirectory := mk_directory (mk_log_file [] 0) None.

Definition made : Outcome SessionError JsonlSession * option SessionDirectory :=
  jsonl_create "/s" header Strict no_create_io.
Definition session0 : JsonlSession := outcome_or made.1 idle.
Definition dir0 : SessionDirectory := default no_dir made.2.

Definition first_write : Outcome SessionError StoredCommit * JsonlSession * SessionDirectory :=
  write_commit session0 dir0 start_commit 7 no_line_io no_head_io.
Definition no_commit : StoredCommit := mk_stored_commit 0 0 digest_zero digest_zero [].
Definition stored1 : StoredCommit := outcome_or first_write.1.1 no_commit.
Definition session1 : JsonlSession := first_write.1.2.
Definition dir1 : SessionDirectory := first_write.2.

Definition torn_write : Outcome SessionError StoredCommit * JsonlSession * SessionDirectory :=
  write_commit session1 dir1 input_commit 7 full_device no_head_io.
Definition torn_session : JsonlSession := torn_write.1.2.
Definition torn_dir : SessionDirectory := torn_write.2.
Definition input_line : Outcome SessionError (StoredCommit * string) := prepare_line session1 input_commit 7.
Definition stored2 : StoredCommit := (outcome_or input_line (no_commit, "")).1.

Lemma header1_sealed : seal_header header = Ok header1.
Proof. vm_compute. reflexivity. Qed.
Lemma made_eq : jsonl_create "/s" header Strict no_create_io = (Ok session0, Some dir0).
Proof. vm_compute. reflexivity. Qed.
Lemma first_write_eq :
  write_commit session0 dir0 start_commit 7 no_line_io no_head_io = (Ok stored1, session1, dir1).
Proof. vm_compute. reflexivity. Qed.

(** ** The commits are admissible *)

Lemma durable_admissible_intro snapshot stored ms :
  admissible_test snapshot stored = true -> map smu_mutation (sc_items stored) = ms ->
  Forall (mutation_ok (sc_seq stored) (sc_timestamp_ms stored)) ms ->
  text_exact (encode_commit stored) = true -> durable_admissible snapshot stored.
Proof.
  intros Ha <- Hm He. split; [by apply admissible_test_sound|exact (proj1 (Forall_fmap _ _ _) Hm)|done].
Qed.

Definition start_items : list SessionMutation :=
  [MutRecord (mk_stored_record 1 7 (OperationStarted (operation_started_new (mk_id "o") lane_main None
     KindRun [user_input] (mk_id "h") (mk_id "p"))))].
Definition input_items : list SessionMutation :=
  [MutEntry (mk_stored_entry lane_main (mk_entry_header (mk_id "u") None 2 7) user_body)].

Lemma stored1_admissible : durable_admissible (js_snapshot session0) stored1.
Proof.
  apply (durable_admissible_intro _ _ start_items); [vm_compute; reflexivity..| |vm_compute; reflexivity].
  change (sc_seq stored1) with 1. change (sc_timestamp_ms stored1) with 7. repeat constructor; done.
Qed.

Lemma stored2_admissible : durable_admissible (js_snapshot session1) stored2.
Proof.
  apply (durable_admissible_intro _ _ input_items); [vm_compute; reflexivity..| |vm_compute; reflexivity].
  change (sc_seq stored2) with 2. change (sc_timestamp_ms stored2) with 7. repeat constructor; done.
Qed.

Lemma first_prepared stored text :
  prepare_line session0 start_commit 7 = Ok (stored, text) -> durable_admissible (js_snapshot session0) stored.
Proof.
  intros Hp. assert (stored = stored1) as ->; [|exact stored1_admissible].
  assert (prepare_line session0 start_commit 7
    = Ok (stored1, (outcome_or (prepare_line session0 start_commit 7) (no_commit, "")).2)) as Heq
    by (vm_compute; reflexivity). congruence.
Qed.

Lemma second_prepared stored text :
  prepare_line session1 input_commit 7 = Ok (stored, text) -> durable_admissible (js_snapshot session1) stored.
Proof.
  intros Hp. assert (stored = stored2) as ->; [|exact stored2_admissible].
  assert (prepare_line session1 input_commit 7
    = Ok (stored2, (outcome_or (prepare_line session1 input_commit 7) (no_commit, "")).2)) as Heq
    by (vm_compute; reflexivity). congruence.
Qed.

(** ** The worlds *)

(** The power fails with the torn line only partly on the device. *)
Definition crashed_dir : SessionDirectory :=
  mk_directory (mk_log_file (take 1320 (lf_bytes (dir_log torn_dir))) 1320) (dir_head torn_dir).
Definition writing_world : World := mk_world dir1 (Some session1) [stored1].
Definition crashed_world : World := mk_world crashed_dir None [stored1].

Lemma torn_write_eq :
  write_commit session1 dir1 input_commit 7 full_device no_head_io
  = (Err (IndeterminateWrite "/s/session.jsonl" "No space left on device"), torn_session, torn_dir).
Proof. vm_compute. reflexivity. Qed.

Lemma within_u64 n : (N.of_nat n <=? u64_max) = true -> N.of_nat n <= u64_max.
Proof. apply N.leb_le. Qed.
Lemma first_bound : N.of_nat (length (lf_bytes (dir_log dir1))) <= u64_max.
Proof. apply within_u64. vm_compute. reflexivity. Qed.
Lemma torn_bound : N.of_nat (length (lf_bytes (dir_log torn_dir))) <= u64_max.
Proof. apply within_u64. vm_compute. reflexivity. Qed.

Lemma torn_synced : lf_synced (dir_log torn_dir) = 1296%nat.
Proof. vm_compute. reflexivity. Qed.
Lemma torn_length : length (lf_bytes (dir_log torn_dir)) = 1336%nat.
Proof. vm_compute. reflexivity. Qed.

Lemma acknowledge_Err durability error l : acknowledge durability (Err error) l = l.
Proof. by destruct durability. Qed.

Lemma writing_world_reachable : world_reachable "/s" header1 writing_world.
Proof.
  apply (world_stepped _ _ (mk_world dir0 (Some session0) [])).
  - change (Some session0) with (opened (Ok session0)).
    apply (world_created _ _ header no_create_io); [by split_and!|exact header1_sealed| |exact made_eq].
    vm_compute. reflexivity.
  - exact (step_commit _ dir0 session0 [] start_commit 7 no_line_io no_head_io (Ok stored1) session1 dir1
      first_write_eq first_prepared first_bound).
Qed.

Lemma crashed_world_reachable : world_reachable "/s" header1 crashed_world.
Proof.
  apply (world_stepped _ _ (mk_world torn_dir (Some torn_session) [stored1])).
  - apply (world_stepped _ _ _ _ writing_world_reachable).
    pose proof (step_commit "/s" dir1 session1 [stored1] input_commit 7 full_device no_head_io _ torn_session
      torn_dir torn_write_eq second_prepared torn_bound) as Hs.
    rewrite acknowledge_Err in Hs. exact Hs.
  - apply (step_crash _ _ _ _ 1320 (dir_head torn_dir)).
    rewrite torn_synced, torn_length. lia.
Qed.

(** Reading a file in two buffers. *)
Definition crashed_io : OpenIo :=
  let bytes := lf_bytes (dir_log crashed_dir) in
  mk_open_io None (map Byte bytes) [Data (take 700 bytes); Data (drop 700 bytes)].

Lemma two_buffers bytes n :
  (0 < n < length bytes)%nat -> delivers [Data (take n bytes); Data (drop n bytes)] bytes.
Proof.
  intros Hn. rewrite <-(take_drop n bytes) at 3. rewrite <-(app_nil_r (drop n bytes)) at 2.
  constructor; [|constructor; [|constructor]].
  - intros Ht%(f_equal length). rewrite length_take in Ht. simpl in Ht. lia.
  - intros Ht%(f_equal length). rewrite length_drop in Ht. simpl in Ht. lia.
Qed.

Lemma crashed_length : length (lf_bytes (dir_log crashed_dir)) = 1320%nat.
Proof. vm_compute. reflexivity. Qed.

Lemma crashed_faithful : faithful crashed_io crashed_dir.
Proof. split; [done|]. apply two_buffers. rewrite crashed_length. lia. Qed.

(** ** The theorems at this session *)

Lemma decode_stream_reference_witness :
  decode_snapshot_stream "p" (oi_reads crashed_io) = decode_file "p" (lf_bytes (dir_log crashed_dir)).
Proof. exact (decode_stream_reference "p" _ _ (proj2 crashed_faithful)). Defined.

Lemma read_failure_is_an_error_witness :
  decode_snapshot_stream "p" [Data (take 700 (lf_bytes (dir_log crashed_dir))); ReadFailed "EIO"]
  <> Ok (snapshot_empty header1, index_empty header1, None).
Proof. apply read_failure_is_an_error. constructor; [|constructor]. vm_compute. discriminate. Defined.

Lemma durable_commit_refines_memory_witness :
  memory_commit (view_of session0) start_commit 7 = (Ok stored1, view_of session1).
Proof.
  exact (proj1 (durable_commit_refines_memory session0 dir0 start_commit 7 no_line_io no_head_io
    (Ok stored1) session1 dir1 first_write_eq)).
Defined.


Definition recovered : SessionSnapshot := replay header1 [stored1].
Lemma crashed_inspect : jsonl_inspect "/s" crashed_io = Ok (recovered, Some 1296).
Proof. vm_compute. reflexivity. Qed.


Lemma head_cache_stays_current_witness : head_current (dir_head dir1) (js_snapshot session1).
Proof.
  apply (head_cache_stays_current "/s" header1 writing_world session1 writing_world_reachable); reflexivity.
Defined.
