(* ===== verification/Verification.v ===== *)
(** * tea-session: verifying a session and its artifacts
    ([crates/tea-session/src/verification.rs])

    Verification replays the snapshot through the reducers and reads every
    artifact it reaches.  The theorems show what success means, for any store
    that satisfies the artifact laws, and that a collection after a
    verification leaves exactly what was verified. *)

From stdpp Require Import base gmap sets list strings sorting.
From S2P Require Import Prelude RustStr Json Ids Model Records Snapshot Reduction Agents.
From S2P Require Import Artifact Gc SessionErrors WireSeal Store.

Record SessionVerification := mk_verification {
  sv_session_id : SessionId;
  sv_last_sequence : Sequence;
  sv_last_digest : Digest;
  sv_artifact_roots : gset ArtifactId;
  sv_artifact_count : nat;
  sv_artifact_bytes : N;
  sv_orphaned_artifacts : list ArtifactInventoryItem;
}.

Inductive SessionVerificationError :=
| VerificationCorruption (error : Corruption)
| VerificationArtifact (error : ArtifactError)
| LengthMismatch (artifact_id : ArtifactId) (expected actual : N)
| ConflictingLength (artifact_id : ArtifactId) (first second : N).

(** [record_length]. *)
Definition record_length (expected : gmap ArtifactId N) (artifact_id : ArtifactId) (byte_len : N) :
    Outcome SessionVerificationError (gmap ArtifactId N) :=
  match expected !! artifact_id with
  | Some first =>
      if (first =? byte_len)%N then Ok (<[artifact_id := byte_len]> expected)
      else Err (ConflictingLength artifact_id first byte_len)
  | None => Ok (<[artifact_id := byte_len]> expected)
  end.

(** [record_payload_length]. *)
Definition record_payload_length (expected : gmap ArtifactId N) (payload : PayloadRef) :
    Outcome SessionVerificationError (gmap ArtifactId N) :=
  match payload with
  | PayloadArtifact artifact_id byte_len _ => record_length expected artifact_id byte_len
  | _ => Ok expected
  end.

(** The two loop bodies of [expected_artifact_lengths]. *)
Definition entry_length (expected : gmap ArtifactId N) (entry : StoredEntry) :
    Outcome SessionVerificationError (gmap ArtifactId N) :=
  match se_body entry with
  | ToolResult entry => record_payload_length expected (tr_full_result entry)
  | PluginMemory entry => record_payload_length expected (pm_content entry)
  | CustomSemantic entry => record_payload_length expected (cu_payload entry)
  | Compaction entry => record_payload_length expected (ce_replacement entry)
  | UserMessage _ | AssistantMessage _ | BranchSummary _ | ModelChanged _ | ThinkingChanged _
  | ConfigurationChanged _ | HarnessRevisionChanged _ => Ok expected
  end.
Definition fact_length (expected : gmap ArtifactId N) (fact : StoredFact) :
    Outcome SessionVerificationError (gmap ArtifactId N) :=
  match sf_fact fact with
  | SubagentPolicy _ | AgentSpawned _ | WorkspaceDeltaApplied _ => Ok expected
  | WorkspaceDelta delta => record_payload_length expected (wf_patch delta)
  | AgentTaskFinished result => record_payload_length expected (af_report result)
  | HarnessCatalog catalog => record_length expected (hc_artifact_id catalog) (hc_byte_len catalog)
  | ToolSchemaDeviation deviation => record_payload_length expected (tsd_raw_arguments deviation)
  | TraceArtifact trace => record_length expected (ta_artifact_id trace) (ta_byte_len trace)
  | ProviderRequestMaterial material => record_payload_length expected (pmf_request material)
  | ExtensionStateValueSet _ | TurnCheckpoint _ | ForkedLane _ => Ok expected
  | CustomFact _ _ => Ok expected
  end.

(** [expected_artifact_lengths]. *)
Definition expected_artifact_lengths (snapshot : SessionSnapshot) :
    Outcome SessionVerificationError (gmap ArtifactId N) :=
  let? expected := ofold entry_length ∅ (ss_entries snapshot) in
  ofold fact_length expected (ss_facts snapshot).

Section verify.
Context `{Miniserde} `{Blake3} {Store : Type} `{!ArtifactStore Store}.

(** The loop body of [verify_session]. *)
Definition verify_root (artifacts : Store) (expected_lengths : gmap ArtifactId N)
    (artifact_bytes : N) (artifact_id : ArtifactId) : Outcome SessionVerificationError N :=
  let? actual := map_err VerificationArtifact (verify_object artifacts artifact_id) in
  check?
    match expected_lengths !! artifact_id with
    | Some expected =>
        if (expected =? actual)%N then Ok () else Err (LengthMismatch artifact_id expected actual)
    | None => Ok ()
    end in
  Ok (u64_saturating_add artifact_bytes actual).

(** [verify_session]. *)
Definition verify_session (snapshot : SessionSnapshot) (artifacts : Store)
    (additional_roots : list ArtifactId) : Outcome SessionVerificationError SessionVerification :=
  check? map_err VerificationCorruption (validate_snapshot snapshot) in
  let? expected_lengths := expected_artifact_lengths snapshot in
  let artifact_roots := session_artifact_roots snapshot ∪ list_to_set additional_roots in
  let? artifact_bytes := ofold (verify_root artifacts expected_lengths) 0%N (ordered_ids artifact_roots) in
  let? inventory := map_err VerificationArtifact (store_inventory artifacts) in
  Ok {| sv_session_id := sh_session_id (ss_header snapshot);
        sv_last_sequence := ss_last_sequence snapshot;
        sv_last_digest := ss_last_digest snapshot;
        sv_artifact_roots := artifact_roots;
        sv_artifact_count := size artifact_roots;
        sv_artifact_bytes := artifact_bytes;
        sv_orphaned_artifacts :=
          List.filter (fun item => negb (mem (ii_artifact_id item) artifact_roots)) inventory |}.
End verify.

(** ** What success means *)

(** The byte lengths the durable prefix claims for artifacts. *)
Definition payload_claims (payload : PayloadRef) : list (ArtifactId * N) :=
  match payload with PayloadArtifact id len _ => [(id, len)] | PayloadInline _ => [] end.
Definition entry_claims (entry : StoredEntry) : list (ArtifactId * N) :=
  match se_body entry with
  | ToolResult entry => payload_claims (tr_full_result entry)
  | PluginMemory entry => payload_claims (pm_content entry)
  | CustomSemantic entry => payload_claims (cu_payload entry)
  | Compaction entry => payload_claims (ce_replacement entry)
  | _ => []
  end.
Definition fact_claims (fact : StoredFact) : list (ArtifactId * N) :=
  match sf_fact fact with
  | WorkspaceDelta delta => payload_claims (wf_patch delta)
  | AgentTaskFinished result => payload_claims (af_report result)
  | HarnessCatalog catalog => [(hc_artifact_id catalog, hc_byte_len catalog)]
  | ToolSchemaDeviation deviation => payload_claims (tsd_raw_arguments deviation)
  | TraceArtifact trace => [(ta_artifact_id trace, ta_byte_len trace)]
  | ProviderRequestMaterial material => payload_claims (pmf_request material)
  | _ => []
  end.
Definition length_claims (snapshot : SessionSnapshot) : list (ArtifactId * N) :=
  flat_map entry_claims (ss_entries snapshot) ++ flat_map fact_claims (ss_facts snapshot).

Definition record_claim (expected : gmap ArtifactId N) (claim : ArtifactId * N) :=
  record_length expected claim.1 claim.2.

Lemma record_payload_length_claims m p : record_payload_length m p = ofold record_claim m (payload_claims p).
Proof. destruct p as [|id len media]; simpl; [done|]. unfold record_claim. simpl. by destruct (record_length m id len). Qed.

Lemma entry_length_claims m e : entry_length m e = ofold record_claim m (entry_claims e).
Proof. unfold entry_length, entry_claims. destruct (se_body e); try done; apply record_payload_length_claims. Qed.

Lemma fact_length_claims m f' : fact_length m f' = ofold record_claim m (fact_claims f').
Proof.
  unfold fact_length, fact_claims.
  destruct (sf_fact f'); try done; try apply record_payload_length_claims;
    simpl; unfold record_claim; simpl; by destruct (record_length m _ _).
Qed.

Lemma ofold_flat_map {E A B S} (g : S -> A -> Outcome E S) (r : S -> B -> Outcome E S) (claims : A -> list B) s l :
  (forall s x, g s x = ofold r s (claims x)) -> ofold g s l = ofold r s (flat_map claims l).
Proof.
  intros Hg. revert s. induction l as [|x l IH]; intros s; simpl; [done|].
  rewrite ofold_app, Hg. destruct (ofold r s (claims x)); simpl; [apply IH|done..].
Qed.

Lemma expected_lengths_claims snapshot :
  expected_artifact_lengths snapshot = ofold record_claim ∅ (length_claims snapshot).
Proof.
  unfold expected_artifact_lengths, length_claims. rewrite ofold_app.
  rewrite (ofold_flat_map _ _ _ _ _ entry_length_claims).
  destruct (ofold record_claim ∅ _); simpl; [|done..].
  apply ofold_flat_map, fact_length_claims.
Qed.

Lemma record_claim_Ok m c m' :
  record_claim m c = Ok m' -> m' = <[c.1 := c.2]> m /\ forall len, m !! c.1 = Some len -> len = c.2.
Proof.
  unfold record_claim, record_length. destruct (m !! c.1) as [first|].
  - destruct (N.eqb_spec first c.2) as [->|]; [|done]. intros [= <-]. split; [done|congruence].
  - by intros [= <-].
Qed.

Lemma expected_lengths_all snapshot m id len :
  expected_artifact_lengths snapshot = Ok m -> (id, len) ∈ length_claims snapshot -> m !! id = Some len.
Proof.
  rewrite expected_lengths_claims. intros Hm Hin.
  apply (ofold_visits (fun m c => m !! c.1 = Some c.2) record_claim _ _ _) with (x := (id, len)) in Hm;
    [done| | |done].
  - intros s x s' [-> _]%record_claim_Ok. apply lookup_insert_eq.
  - intros s x s' y Hy [-> Hsame]%record_claim_Ok. destruct (decide (x.1 = y.1)) as [Heq|Hne].
    + rewrite Heq in *. rewrite lookup_insert_eq. f_equal. symmetry. by apply Hsame.
    + by rewrite lookup_insert_ne.
Qed.

(** Every artifact with a claimed length is a root of the session. *)
Lemma claimed_is_root snapshot id len :
  (id, len) ∈ length_claims snapshot -> id ∈ session_artifact_roots snapshot.
Proof.
  unfold length_claims, session_artifact_roots. rewrite elem_of_app, !elem_of_union, !elem_of_list_to_set.
  rewrite !list_elem_of_In, !in_flat_map. intros [(e & He & Hc)|(f' & Hf & Hc)].
  - left; left. exists e. split; [done|]. revert Hc. unfold entry_claims, entry_artifact_references.
    destruct (se_body e) as [| |t|c| | | | | |p|cu]; simpl; try done;
      [destruct (tr_full_result t)|destruct (ce_replacement c)|destruct (pm_content p)|destruct (cu_payload cu)];
      simpl; try done; intros [[= <- <-]|[]]; rewrite <-?list_elem_of_In; set_solver.
  - right. exists f'. split; [done|]. revert Hc. unfold fact_claims, fact_artifact_references.
    destruct (sf_fact f') as [| |d|r| |c|t|t|m| | | |]; simpl; try done;
      [destruct (wf_patch d)|destruct (af_report r)| |destruct (tsd_raw_arguments t)| |destruct (pmf_request m)];
      simpl; try done; intros [[= <- <-]|[]]; by left.
Qed.

Section sound.
Context `{Miniserde} `{Blake3} {Store : Type} `{!ArtifactStore Store} `{!ArtifactStoreLaws Store}.

(** The object of a root exists, hashes to its identity and has the expected length. *)
Definition root_ok (s : Store) (expected : gmap ArtifactId N) (id : ArtifactId) : Prop :=
  exists bytes, objects s !! id = Some bytes /\ artifact_id_from_bytes bytes = id
    /\ forall len, expected !! id = Some len -> len = N.of_nat (length bytes).

Definition object_size (s : Store) (id : ArtifactId) : N :=
  match objects s !! id with Some bytes => N.of_nat (length bytes) | None => 0%N end.
Definition total_size (s : Store) (ids : list ArtifactId) : N :=
  foldr (fun id total => object_size s id + total)%N 0%N ids.

Lemma verify_object_Ok s id actual :
  verify_object s id = Ok actual <->
  exists bytes, objects s !! id = Some bytes /\ artifact_id_from_bytes bytes = id
    /\ actual = N.of_nat (length bytes).
Proof.
  unfold verify_object. split.
  - intros (bytes & Hb%law_get & Hk)%obind_Ok_inv. destruct (_ ==? _) eqn:He; [|done].
    bool_inv. injection Hk as <-. by exists bytes.
  - intros (bytes & Hb%law_get & Hid & ->). rewrite Hb. cbn [obind].
    by rewrite (proj2 (eqb_true _ _) Hid).
Qed.

Lemma verify_root_Ok s expected acc id total :
  verify_root s expected acc id = Ok total <->
  root_ok s expected id /\ total = u64_saturating_add acc (object_size s id).
Proof.
  unfold verify_root, root_ok, object_size. split.
  - intros (actual & Ha & ([] & Hc & [= <-])%obind_Ok_inv)%obind_Ok_inv.
    destruct (verify_object s id) as [a| |] eqn:Hv; [|done..]. injection Ha as <-.
    apply verify_object_Ok in Hv as (bytes & Hb & Hid & ->). rewrite Hb. split; [|done].
    exists bytes. split_and!; [done..|]. intros len Hlen. rewrite Hlen in Hc.
    by destruct (N.eqb_spec len (N.of_nat (length bytes))).
  - intros [(bytes & Hb & Hid & Hlen) ->]. rewrite Hb.
    rewrite (proj2 (verify_object_Ok s id (N.of_nat (length bytes)))) by by exists bytes. cbn [obind map_err].
    destruct (expected !! id) as [len|] eqn:He; [|done]. rewrite (Hlen len) by done. by rewrite N.eqb_refl.
Qed.

Lemma verify_roots_Ok s expected ids : forall acc total,
  (acc <= u64_max)%N ->
  ofold (verify_root s expected) acc ids = Ok total <->
  Forall (root_ok s expected) ids /\ total = ((acc + total_size s ids) `min` u64_max)%N.
Proof.
  induction ids as [|id ids IH]; intros acc total Hacc; cbn [ofold total_size foldr].
  - split; [intros [= <-]; split; [done|lia]|intros [_ ->]; f_equal; lia].
  - split.
    + intros (t & [Hr ->]%verify_root_Ok & Hrest)%obind_Ok_inv.
      apply IH in Hrest as [Hall ->]; [|apply u64_saturating_add_bound].
      split; [by constructor|]. unfold total_size, u64_saturating_add. lia.
    + intros [Hall ->]. apply Forall_cons_1 in Hall as [Hr Hall].
      rewrite (proj2 (verify_root_Ok s expected acc id _) (conj Hr eq_refl)). cbn [obind].
      apply IH; [apply u64_saturating_add_bound|]. split; [done|]. unfold total_size, u64_saturating_add. lia.
Qed.

Definition verified_roots (snapshot : SessionSnapshot) (additional : list ArtifactId) : gset ArtifactId :=
  session_artifact_roots snapshot ∪ list_to_set additional.

(** The parts of a successful verification. *)
Lemma verify_session_Ok snapshot s additional v :
  verify_session snapshot s additional = Ok v <->
  validate_snapshot snapshot = Ok ()
  /\ exists expected inventory,
       expected_artifact_lengths snapshot = Ok expected
       /\ (forall id, id ∈ verified_roots snapshot additional -> root_ok s expected id)
       /\ store_inventory s = Ok inventory
       /\ v = mk_verification (sh_session_id (ss_header snapshot)) (ss_last_sequence snapshot)
                (ss_last_digest snapshot) (verified_roots snapshot additional)
                (size (verified_roots snapshot additional))
                (total_size s (ordered_ids (verified_roots snapshot additional)) `min` u64_max)%N
                (List.filter (fun item => negb (mem (ii_artifact_id item) (verified_roots snapshot additional)))
                   inventory).
Proof.
  unfold verify_session. fold (verified_roots snapshot additional). split.
  - intros ([] & Hv & (expected & He & (bytes & Hb & (inv & Hi & [= <-])%obind_Ok_inv)%obind_Ok_inv)%obind_Ok_inv)%obind_Ok_inv.
    split; [by destruct (validate_snapshot snapshot) as [[]| |]|]. exists expected, inv.
    apply verify_roots_Ok in Hb as [Hall ->]; [|done]. rewrite N.add_0_l. split_and!; [done| | |done].
    + intros id Hid. rewrite Forall_forall in Hall. apply Hall. by apply elem_of_ordered_ids.
    + by destruct (store_inventory s) as [i| |]; [injection Hi as ->|..].
  - intros (Hv & expected & inv & He & Hall & Hi & ->). rewrite Hv. cbn [obind map_err]. rewrite He. cbn [obind].
    rewrite (proj2 (verify_roots_Ok s expected (ordered_ids (verified_roots snapshot additional)) 0
      (total_size s (ordered_ids (verified_roots snapshot additional)) `min` u64_max)%N ltac:(done))).
    { cbn [obind]. by rewrite Hi. }
    rewrite N.add_0_l. split; [|done]. apply Forall_forall. intros id Hid. by apply Hall, elem_of_ordered_ids.
Qed.

(** A successful verification means that the reducers accept the snapshot, every artifact
    root exists and hashes to its identity, every byte length the durable prefix claims is the
    length of its object, the reported total is the saturated sum, and the orphans are exactly
    the stored objects outside the roots. *)
Theorem verify_session_sound snapshot (s : Store) additional v :
  verify_session snapshot s additional = Ok v ->
  validate_snapshot snapshot = Ok ()
  /\ (forall id, id ∈ session_artifact_roots snapshot \/ id ∈ additional ->
       exists bytes, objects s !! id = Some bytes /\ artifact_id_from_bytes bytes = id)
  /\ (forall id len, (id, len) ∈ length_claims snapshot ->
       exists bytes, objects s !! id = Some bytes /\ len = N.of_nat (length bytes))
  /\ sv_artifact_bytes v = (total_size s (ordered_ids (sv_artifact_roots v)) `min` u64_max)%N
  /\ (forall item, item ∈ sv_orphaned_artifacts v <->
       (ii_artifact_id item ∉ sv_artifact_roots v)
       /\ exists bytes, objects s !! ii_artifact_id item = Some bytes
            /\ ii_byte_len item = N.of_nat (length bytes)).
Proof.
  intros (Hv & expected & inv & He & Hall & Hi & ->)%verify_session_Ok. simpl. split_and!; [done| | |done|].
  - intros id Hid. destruct (Hall id) as (bytes & Hb & Hh & _); [|by exists bytes].
    unfold verified_roots. by rewrite elem_of_union, elem_of_list_to_set.
  - intros id len Hc. destruct (Hall id) as (bytes & Hb & _ & Hlen).
    { unfold verified_roots. apply elem_of_union_l. by eapply claimed_is_root. }
    exists bytes. split; [done|]. apply Hlen. by eapply expected_lengths_all.
  - intros item. apply law_inventory in Hi as [_ Hitems].
    rewrite filter_elem, Hitems, negb_true_iff, mem_false. tauto.
Qed.

(** After a successful verification a collection can be planned, its candidates are exactly
    the reported orphans, and once it has been applied the session verifies again with the same
    result and no orphans. *)
Theorem collection_after_verification snapshot (s : Store) additional quota v :
  verify_session snapshot s additional = Ok v ->
  exists plan,
    plan_artifact_gc s snapshot additional quota = Ok plan
    /\ unreferenced plan = sv_orphaned_artifacts v
    /\ forall s' report, apply_artifact_gc s plan quota = (s', Ok report) ->
         verify_session snapshot s' additional
         = Ok (mk_verification (sv_session_id v) (sv_last_sequence v) (sv_last_digest v)
                 (sv_artifact_roots v) (sv_artifact_count v) (sv_artifact_bytes v) []).
Proof.
  intros (Hv & expected & inv & He & Hall & Hi & ->)%verify_session_Ok. simpl.
  set (roots := verified_roots snapshot additional) in *.
  assert (exists plan, plan_artifact_gc s snapshot additional quota = Ok plan
    /\ unreferenced plan = List.filter (fun item => negb (mem (ii_artifact_id item) roots)) inv) as (plan & Hp & Hu).
  { unfold plan_artifact_gc. rewrite Hi. cbn [obind]. fold (verified_roots snapshot additional) roots.
    rewrite (proj2 (check_roots_Ok inv roots)); [by eexists|].
    intros id Hid. destruct (Hall id Hid) as (bytes & Hb & _).
    apply (find_item_total inv (mk_item id (N.of_nat (length bytes)))).
    apply law_inventory in Hi as [_ Hitems]. apply Hitems. by exists bytes. }
  exists plan. split_and!; [done|done|]. intros s' report Ha.
  pose proof (gc_result _ _ _ _ _ _ _ Hp Ha) as [_ Hobj].
  pose proof (plan_Ok _ _ _ _ _ Hp) as [Hreach _]. fold (verified_roots snapshot additional) roots in Hreach.
  rewrite Hreach in Hobj.
  assert (forall id, id ∈ roots -> objects s' !! id = objects s !! id) as Hsame.
  { intros id Hid. rewrite Hobj. by rewrite (proj2 (mem_true id roots) Hid). }
  assert (exists after, store_inventory s' = Ok after) as [after Hafter].
  { revert Ha. unfold apply_artifact_gc. repeat case_match; try done. intros [= <- Hr].
    apply obind_Ok_inv in Hr as (after & Hr & _). by exists after. }
  apply verify_session_Ok. split; [done|]. exists expected, after. fold roots. split_and!; [done| |done|].
  - intros id Hid. destruct (Hall id Hid) as (bytes & Hb & Hrest). exists bytes. by rewrite Hsame.
  - f_equal.
    + f_equal. clear Hall Hobj. assert (forall id, id ∈ ordered_ids roots -> id ∈ roots) as Hin
        by (intros id; by rewrite elem_of_ordered_ids).
      induction (ordered_ids roots) as [|id ids IH]; [done|]. cbn [total_size foldr].
      f_equal; [unfold object_size; by rewrite Hsame by (apply Hin; left)|].
      apply IH. intros k Hk. apply Hin. by right.
    + apply law_inventory in Hafter as [_ Hitems]. symmetry.
      destruct (List.filter _ after) as [|item l] eqn:Hf; [done|].
      assert (item ∈ item :: l) as Hin by by left. rewrite <-Hf, filter_elem, Hitems, negb_true_iff in Hin.
      destruct Hin as [(bytes & Hb & _) Hm]. by rewrite Hobj, Hm in Hb.
Qed.
End sound.

(** ** The theorems at a concrete session *)

Section examples.
#[local] Existing Instance example_blake3.
#[local] Existing Instance example_miniserde.
#[local] Open Scope N_scope.

(** The referenced object and one that nothing refers to. *)
Definition stray_object : list N := [9; 9].
Definition two_objects : MemoryArtifactStore :=
  mk_memory_store (<[artifact_id_from_bytes stray_object := stray_object]> (mas_objects example_store)).
Definition two_verified : SessionVerification :=
  mk_verification (mk_id "s") 1 digest_zero {[ example_artifact ]} 1 3
    [mk_item (artifact_id_from_bytes stray_object) 2].

Lemma verify_two_objects : verify_session snapshot_after two_objects [] = Ok two_verified.
Proof. vm_compute. reflexivity. Qed.

Lemma verify_session_sound_witness :
  exists bytes, objects two_objects !! example_artifact = Some bytes /\ 3 = N.of_nat (length bytes).
Proof.
  destruct (verify_session_sound snapshot_after two_objects [] two_verified verify_two_objects)
    as (_ & _ & Hlen & _).
  apply (Hlen example_artifact 3). by left.
Defined.

Lemma collection_after_verification_witness :
  exists plan, plan_artifact_gc two_objects snapshot_after [] example_no_quota = Ok plan
    /\ unreferenced plan = [mk_item (artifact_id_from_bytes stray_object) 2].
Proof.
  destruct (collection_after_verification snapshot_after two_objects [] example_no_quota two_verified
    verify_two_objects) as (plan & Hp & Hu & _).
  exists plan. split; [exact Hp|exact Hu].
Defined.
End examples.
