(* ===== verification/Configuration.v ===== *)
(** * tea-core: model-visible configuration
    ([crates/tea-core/src/state/configuration.rs])

    Instructions and declared tools have a position in the conversation: the
    first system message is the initial configuration, later ones change it.
    The theorems show that replay keeps identities unique, that the update
    computed from two configurations really leads from one to the other and
    is a valid one, and that a configuration is recovered from its initial
    update. *)

From stdpp Require Import base gmap sets list strings.
From S2P Require Import Prelude RustStr Json.

Local Open Scope N_scope.

Definition MAX_PROMPT_SECTION_ID_BYTES : nat := 200.
Definition DEFAULT_PROMPT_SECTION_ID : string := "system".

Record PromptSection := mk_section {
  ps_id : string;
  ps_content : string;
}.
#[export] Instance prompt_section_eq_dec : EqDecision PromptSection.
Proof. solve_decision. Defined.

(** [SystemPrompt]: its ordered sections. *)
Record SystemPrompt := mk_system_prompt { sp_sections : list PromptSection }.

(** [ToolDeclaration] of [crates/tea-core/src/tool.rs]. *)
Record ToolDeclaration := mk_tool {
  td_name : string;
  td_description : string;
  td_schema : JsonValue;
}.
#[export] Instance tool_declaration_eq : PartialEq ToolDeclaration := fun a b =>
  (td_name a ==? td_name b) && (td_description a ==? td_description b) && (td_schema a ==? td_schema b).

Record SectionChange := mk_change {
  ch_id : string;
  ch_content : option string;
}.

Record ConfigurationUpdate := mk_update {
  cu_sections : list SectionChange;
  cu_tools_added : list ToolDeclaration;
  cu_tools_removed : list string;
}.

Record EffectiveConfiguration := mk_configuration {
  ec_sections : list PromptSection;
  ec_tools : list ToolDeclaration;
}.

Inductive ConfigurationError :=
| InvalidSectionId (id : string)
| DuplicateSection (id : string)
| EmptyToolName
| DuplicateTool (name : string).

(** [validate_section_id]. *)
Definition validate_section_id (id : string) : Outcome ConfigurationError unit :=
  if str_is_empty id || (MAX_PROMPT_SECTION_ID_BYTES <? str_len id)%nat || has_control id
  then Err (InvalidSectionId id) else Ok ().

(** One round of a loop that collects names in a [BTreeSet]. *)
Definition insert_section (seen : gset string) (id : string) : Outcome ConfigurationError (gset string) :=
  check? validate_section_id id in
  if mem id seen then Err (DuplicateSection id) else Ok ({[id]} ∪ seen).
Definition insert_tool (seen : gset string) (name : string) : Outcome ConfigurationError (gset string) :=
  if str_is_empty name then Err EmptyToolName
  else if mem name seen then Err (DuplicateTool name) else Ok ({[name]} ∪ seen).

(** [SystemPrompt::new], [single], [From<String>]. *)
Definition system_prompt_new (sections : list PromptSection) : Outcome ConfigurationError SystemPrompt :=
  check? ofold insert_section ∅ (map ps_id sections) in
  Ok (mk_system_prompt sections).
Definition system_prompt_single (text : string) : SystemPrompt :=
  if str_is_empty text then mk_system_prompt []
  else mk_system_prompt [mk_section DEFAULT_PROMPT_SECTION_ID text].

(** [Vec<&str>::join]. *)
Fixpoint join (separator : string) (l : list string) : string :=
  match l with
  | [] => EmptyString
  | [s] => s
  | s :: l => s +:+ separator +:+ join separator l
  end.
Definition blank_line : string := newline +:+ newline.

(** [render_sections]. *)
Definition render_sections (sections : list PromptSection) : string :=
  join blank_line (List.filter (fun content => negb (str_is_empty content)) (map ps_content sections)).

(** [SystemPrompt::render], [EffectiveConfiguration::system_prompt]. *)
Definition system_prompt_render (prompt : SystemPrompt) : string := render_sections (sp_sections prompt).
Definition configuration_prompt (c : EffectiveConfiguration) : string := render_sections (ec_sections c).

(** [ConfigurationUpdate::is_empty]. *)
Definition is_nil {A} (l : list A) : bool := match l with [] => true | _ => false end.
Definition update_is_empty (u : ConfigurationUpdate) : bool :=
  is_nil (cu_sections u) && is_nil (cu_tools_added u) && is_nil (cu_tools_removed u).

(** [ConfigurationUpdate::validate]. *)
Definition update_validate (u : ConfigurationUpdate) : Outcome ConfigurationError unit :=
  check? ofold insert_section ∅ (map ch_id (cu_sections u)) in
  check? ofold insert_tool ∅ (map td_name (cu_tools_added u)) in
  check? ofold insert_tool ∅ (cu_tools_removed u) in
  Ok ().

Definition quote_mark : string := String (ascii_of_byte 34) EmptyString.

(** [ConfigurationUpdate::render_update_text]. *)
Definition render_change (change : SectionChange) : string :=
  match ch_content change with
  | Some content =>
      "Updated system prompt section " +:+ quote_mark +:+ ch_id change +:+ quote_mark +:+ ":"
      +:+ blank_line +:+ content
  | None => "Removed system prompt section " +:+ quote_mark +:+ ch_id change +:+ quote_mark +:+ "."
  end.
Definition render_update_text (u : ConfigurationUpdate) : string :=
  join blank_line (map render_change (cu_sections u)).

(** [EffectiveConfiguration::new], [default]. *)
Definition configuration_new (prompt : SystemPrompt) (tools : list ToolDeclaration) :
    EffectiveConfiguration := mk_configuration (sp_sections prompt) tools.
Definition configuration_empty : EffectiveConfiguration := mk_configuration [] [].

(** [sections.iter().position(|section| section.id == id)] and the update,
    removal or append that follows it. *)
Fixpoint set_section (id content : string) (sections : list PromptSection) : list PromptSection :=
  match sections with
  | [] => [mk_section id content]
  | s :: l => if String.eqb (ps_id s) id then mk_section (ps_id s) content :: l else s :: set_section id content l
  end.
Fixpoint remove_section (id : string) (sections : list PromptSection) : list PromptSection :=
  match sections with
  | [] => []
  | s :: l => if String.eqb (ps_id s) id then l else s :: remove_section id l
  end.
Definition apply_section (sections : list PromptSection) (change : SectionChange) : list PromptSection :=
  match ch_content change with
  | Some content => set_section (ch_id change) content sections
  | None => remove_section (ch_id change) sections
  end.

(** [self.tools.retain(|tool| &tool.name != name)] and the push of an added tool. *)
Definition retain_tools (tools : list ToolDeclaration) (name : string) : list ToolDeclaration :=
  List.filter (fun tool => negb (String.eqb (td_name tool) name)) tools.
Definition push_tool (tools : list ToolDeclaration) (tool : ToolDeclaration) : list ToolDeclaration :=
  retain_tools tools (td_name tool) ++ [tool].

(** [EffectiveConfiguration::apply]. *)
Definition apply_update (c : EffectiveConfiguration) (u : ConfigurationUpdate) : EffectiveConfiguration :=
  mk_configuration (foldl apply_section (ec_sections c) (cu_sections u))
    (foldl push_tool (foldl retain_tools (ec_tools c) (cu_tools_removed u)) (cu_tools_added u)).

(** [EffectiveConfiguration::tool]. *)
Definition find_tool (tools : list ToolDeclaration) (name : string) : option ToolDeclaration :=
  List.find (fun tool => String.eqb (td_name tool) name) tools.

(** [EffectiveConfiguration::as_initial_update]. *)
Definition as_initial_update (c : EffectiveConfiguration) : ConfigurationUpdate :=
  mk_update (map (fun s => mk_change (ps_id s) (Some (ps_content s))) (ec_sections c)) (ec_tools c) [].

(** [EffectiveConfiguration::same_content]. *)
Definition same_content (a b : EffectiveConfiguration) : bool :=
  (length (ec_sections a) =? length (ec_sections b))%nat
  && (length (ec_tools a) =? length (ec_tools b))%nat
  && forallb (fun section => existsb (fun candidate => candidate ==? section) (ec_sections b)) (ec_sections a)
  && forallb (fun tool => find_tool (ec_tools b) (td_name tool) ==? Some tool) (ec_tools a).

(** The section changes of [EffectiveConfiguration::diff]. *)
Definition find_section (sections : list PromptSection) (id : string) : option PromptSection :=
  List.find (fun candidate => String.eqb (ps_id candidate) id) sections.
Definition changed_sections (current desired : list PromptSection) : list SectionChange :=
  map (fun s => mk_change (ps_id s) (Some (ps_content s)))
    (List.filter (fun s => (ps_content <$> find_section current (ps_id s)) !=? Some (ps_content s)) desired)
  ++ map (fun s => mk_change (ps_id s) None)
       (List.filter (fun s => negb (existsb (fun candidate => String.eqb (ps_id candidate) (ps_id s)) desired))
          current).

(** [EffectiveConfiguration::diff]. *)
Definition configuration_diff (c desired : EffectiveConfiguration) : option ConfigurationUpdate :=
  if same_content c desired then None
  else Some {|
    cu_sections := changed_sections (ec_sections c) (ec_sections desired);
    cu_tools_added := List.filter (fun tool => find_tool (ec_tools c) (td_name tool) !=? Some tool)
                        (ec_tools desired);
    cu_tools_removed := map td_name
      (List.filter (fun tool => find_tool (ec_tools desired) (td_name tool) !=? Some tool) (ec_tools c));
  |}.

(** * Updates are exact: replaying, comparing and diffing configurations *)

Local Close Scope N_scope.

(** ** Lookup by a key *)

Section lookup_by.
Context {A : Type} (key : A -> string).
Implicit Types (l : list A) (k : string).

Definition lookup_by (k : string) (l : list A) : option A := List.find (fun x => String.eqb (key x) k) l.

Lemma lookup_by_Some k l x : lookup_by k l = Some x -> x ∈ l /\ key x = k.
Proof. intros [Hin Hk]%find_elem. by apply String.eqb_eq in Hk. Qed.

Lemma lookup_by_None k l : lookup_by k l = None <-> k ∉ map key l.
Proof.
  unfold lookup_by. induction l as [|x l IH]; simpl; [split; [intros _; apply not_elem_of_nil|done]|].
  rewrite not_elem_of_cons. destruct (String.eqb_spec (key x) k) as [->|Hne]; [naive_solver|].
  rewrite IH. naive_solver.
Qed.

Lemma lookup_by_elem l x : NoDup (map key l) -> x ∈ l -> lookup_by (key x) l = Some x.
Proof.
  unfold lookup_by. induction l as [|y l IH]; simpl; [by intros _ ?%not_elem_of_nil|].
  intros [Hy Hl]%NoDup_cons [->|Hx]%elem_of_cons; [by rewrite String.eqb_refl|].
  destruct (String.eqb_spec (key y) (key x)) as [Heq|_]; [|by apply IH].
  exfalso. apply Hy. rewrite Heq. apply list_elem_of_fmap. by exists x.
Qed.

Lemma key_lookup k l : k ∈ map key l -> exists x, lookup_by k l = Some x.
Proof. destruct (lookup_by k l) eqn:Hk; [eauto|]. by apply lookup_by_None in Hk. Qed.

Lemma NoDup_filter_keys (p : A -> bool) l : NoDup (map key l) -> NoDup (map key (List.filter p l)).
Proof.
  induction l as [|x l IH]; simpl; [done|]. intros [Hx Hl]%NoDup_cons. destruct (p x); simpl; [|auto].
  constructor; [|auto]. intros (y & Heq & [Hy _]%filter_elem)%list_elem_of_fmap.
  apply Hx, list_elem_of_fmap. by exists y.
Qed.
End lookup_by.

(** Two duplicate-free lists with the same elements have the same length. *)
Lemma same_keys_length {A B} (f : A -> string) (g : B -> string) l k :
  NoDup (map f l) -> NoDup (map g k) -> (forall x, x ∈ map f l <-> x ∈ map g k) -> length l = length k.
Proof.
  intros Hl Hk Hiff. rewrite <-(length_map f l), <-(length_map g k).
  apply Permutation_length. by apply NoDup_Permutation.
Qed.

(** ** Equality of declarations *)

Lemma tool_eq_sym (a b : ToolDeclaration) : (a ==? b) = (b ==? a).
Proof.
  unfold partial_eq, tool_declaration_eq, partial_eq, json_value_partial_eq. rewrite json_eq_sym.
  f_equal. f_equal; apply bool_decide_ext; done.
Qed.

(** The numbers of the schema are finite, so the declaration equals itself. *)
Definition tool_finite (t : ToolDeclaration) : Prop := json_finite (td_schema t) = true.

Lemma tool_eq_refl (t : ToolDeclaration) : tool_finite t -> (t ==? t) = true.
Proof.
  intros Ht. unfold partial_eq, tool_declaration_eq, partial_eq, json_value_partial_eq, partial_eq_decide.
  by rewrite json_eq_refl, !bool_decide_true.
Qed.

(** ** Uniqueness *)

(** Section identities and tool names are unique. *)
Definition unique (c : EffectiveConfiguration) : Prop :=
  NoDup (map ps_id (ec_sections c)) /\ NoDup (map td_name (ec_tools c)).

Definition content_at (id : string) (sections : list PromptSection) : option string :=
  ps_content <$> lookup_by ps_id id sections.

Lemma set_section_ids id content l :
  map ps_id (set_section id content l) = if bool_decide (id ∈ map ps_id l) then map ps_id l else map ps_id l ++ [id].
Proof.
  induction l as [|s l IH]; simpl; [done|].
  destruct (String.eqb_spec (ps_id s) id) as [<-|Hne]; simpl.
  - rewrite bool_decide_true; [done|]. by left.
  - rewrite IH. case_bool_decide as Hin.
    + rewrite bool_decide_true; [done|]. by right.
    + rewrite bool_decide_false; [done|]. by intros [?|?]%elem_of_cons.
Qed.

Lemma set_section_at id content l k :
  content_at k (set_section id content l) = if String.eqb id k then Some content else content_at k l.
Proof.
  unfold content_at, lookup_by. induction l as [|s l IH]; simpl; [by destruct (String.eqb id k)|].
  destruct (String.eqb_spec (ps_id s) id) as [Hid|Hne]; simpl.
  - rewrite Hid. by destruct (String.eqb id k).
  - destruct (String.eqb_spec (ps_id s) k) as [<-|]; [|done].
    by destruct (String.eqb_spec id (ps_id s)) as [->|].
Qed.

Lemma remove_section_ids id l : map ps_id (remove_section id l) `sublist_of` map ps_id l.
Proof.
  induction l as [|s l IH]; simpl; [done|]. destruct (String.eqb (ps_id s) id); simpl; by constructor.
Qed.

Lemma remove_section_at id l k :
  NoDup (map ps_id l) ->
  content_at k (remove_section id l) = if String.eqb id k then None else content_at k l.
Proof.
  unfold content_at, lookup_by. induction l as [|s l IH]; cbn [map remove_section List.find].
  { by destruct (String.eqb id k). }
  intros [Hs Hl]%NoDup_cons. destruct (String.eqb_spec (ps_id s) id) as [<-|Hne]; cbn [List.find].
  - destruct (String.eqb_spec (ps_id s) k) as [Hk|Hk]; [|done].
    rewrite Hk in Hs. apply (lookup_by_None ps_id) in Hs. unfold lookup_by in Hs.
    rewrite Hs. by destruct (String.eqb (ps_id s) k) eqn:E; [|apply String.eqb_neq in E].
  - destruct (String.eqb_spec (ps_id s) k) as [Hk|Hk]; [|by apply IH].
    by rewrite (proj2 (String.eqb_neq id k)) by congruence.
Qed.

Lemma apply_section_unique l ch : NoDup (map ps_id l) -> NoDup (map ps_id (apply_section l ch)).
Proof.
  unfold apply_section. intros Hl. destruct (ch_content ch) as [content|].
  - rewrite set_section_ids. case_bool_decide as Hin; [done|]. apply NoDup_app. split_and!; [done| |apply NoDup_singleton].
    by intros x Hx ->%list_elem_of_singleton.
  - eapply sublist_NoDup; [exact Hl|apply remove_section_ids].
Qed.

Lemma apply_section_at l ch k :
  NoDup (map ps_id l) ->
  content_at k (apply_section l ch) = if String.eqb (ch_id ch) k then ch_content ch else content_at k l.
Proof.
  unfold apply_section. intros Hl. destruct (ch_content ch) as [content|].
  - apply set_section_at.
  - by apply remove_section_at.
Qed.

Lemma apply_sections_unique l chs : NoDup (map ps_id l) -> NoDup (map ps_id (foldl apply_section l chs)).
Proof.
  revert l. induction chs as [|ch chs IH]; intros l Hl; simpl; [done|]. by apply IH, apply_section_unique.
Qed.

Lemma push_tool_unique l t : NoDup (map td_name l) -> NoDup (map td_name (push_tool l t)).
Proof.
  intros Hl. unfold push_tool. rewrite map_app. apply NoDup_app. split_and!.
  - by apply NoDup_filter_keys.
  - intros x (y & -> & [_ Hy]%filter_elem)%list_elem_of_fmap Hx%list_elem_of_singleton.
    by rewrite Hx, String.eqb_refl in Hy.
  - apply NoDup_singleton.
Qed.

Lemma apply_update_unique c u : unique c -> unique (apply_update c u).
Proof.
  intros [Hs Ht]. split; simpl; [by apply apply_sections_unique|].
  assert (NoDup (map td_name (foldl retain_tools (ec_tools c) (cu_tools_removed u)))) as Hr.
  { revert Ht. generalize (ec_tools c). induction (cu_tools_removed u) as [|n ns IH]; intros l Hl; simpl; [done|].
    by apply IH, NoDup_filter_keys. }
  revert Hr. generalize (foldl retain_tools (ec_tools c) (cu_tools_removed u)).
  induction (cu_tools_added u) as [|t ts IH]; intros l Hl; simpl; [done|]. by apply IH, push_tool_unique.
Qed.

(** ** Section changes *)

Lemma lookup_by_cons {A} (key : A -> string) k x l :
  lookup_by key k (x :: l) = if String.eqb (key x) k then Some x else lookup_by key k l.
Proof. done. Qed.

(** The net effect of a list of changes on distinct sections. *)
Lemma apply_sections_at l chs k :
  NoDup (map ps_id l) -> NoDup (map ch_id chs) ->
  content_at k (foldl apply_section l chs) =
    match lookup_by ch_id k chs with Some ch => ch_content ch | None => content_at k l end.
Proof.
  revert l. induction chs as [|ch chs IH]; intros l Hl; [done|]. cbn [map foldl].
  intros [Hch Hchs]%NoDup_cons. rewrite IH by (done || by apply apply_section_unique).
  rewrite lookup_by_cons, apply_section_at by done. destruct (String.eqb_spec (ch_id ch) k) as [Hk|]; [|done].
  rewrite Hk in Hch. apply (lookup_by_None ch_id) in Hch. by rewrite Hch.
Qed.

Lemma content_at_Some l k x :
  NoDup (map ps_id l) -> content_at k l = Some x <-> mk_section k x ∈ l.
Proof.
  intros Hl. unfold content_at. rewrite fmap_Some. split.
  - intros ([i y] & [Hin Hk]%lookup_by_Some & ->). by rewrite <-Hk.
  - intros Hin. exists (mk_section k x). split; [|done]. by apply (lookup_by_elem ps_id l (mk_section k x)).
Qed.

Lemma content_at_None l k : content_at k l = None <-> k ∉ map ps_id l.
Proof. unfold content_at. by rewrite fmap_None, lookup_by_None. Qed.

Lemma has_section_spec l k :
  existsb (fun candidate => String.eqb (ps_id candidate) k) l = false <-> content_at k l = None.
Proof.
  rewrite content_at_None, existsb_false_elem. split.
  - intros Hl (y & -> & Hy)%list_elem_of_fmap. apply Hl in Hy. by rewrite String.eqb_refl in Hy.
  - intros Hk y Hy. apply String.eqb_neq. intros <-. apply Hk, list_elem_of_fmap. by exists y.
Qed.

Lemma differs_spec (a b : option string) : (a !=? b) = true <-> a <> b.
Proof. unfold partial_eq, partial_eq_decide. by rewrite negb_true_iff, bool_decide_eq_false. Qed.

(** The changes of a diff: exactly the sections whose text differs. *)
Lemma changed_section_spec cur des ch :
  NoDup (map ps_id cur) -> NoDup (map ps_id des) ->
  ch ∈ changed_sections cur des <->
    ch_content ch = content_at (ch_id ch) des /\ content_at (ch_id ch) cur <> content_at (ch_id ch) des.
Proof.
  intros Hc Hd. unfold changed_sections. rewrite elem_of_app, !list_elem_of_fmap.
  split; [intros [([i x] & -> & [Hin Hne]%filter_elem)|([i x] & -> & [Hin Hne]%filter_elem)]|]; cbn [ch_id ch_content ps_id ps_content] in *.
  - apply (content_at_Some des i x Hd) in Hin. rewrite Hin. split; [done|]. by apply differs_spec in Hne.
  - apply (content_at_Some cur i x Hc) in Hin. apply negb_true_iff, has_section_spec in Hne. by rewrite Hne, Hin.
  - destruct ch as [i o]; cbn [ch_id ch_content]. intros [-> Hne].
    destruct (content_at i des) as [x|] eqn:Hx; [left|right].
    + exists (mk_section i x). split; [done|]. apply filter_elem. split; [by apply content_at_Some|].
      by apply differs_spec.
    + destruct (content_at i cur) as [y|] eqn:Hy; [|done]. exists (mk_section i y). split; [done|].
      apply filter_elem. split; [by apply content_at_Some|]. by apply negb_true_iff, has_section_spec.
Qed.

Lemma changed_sections_unique cur des :
  NoDup (map ps_id cur) -> NoDup (map ps_id des) -> NoDup (map ch_id (changed_sections cur des)).
Proof.
  intros Hc Hd. unfold changed_sections. rewrite map_app, !map_map. apply NoDup_app. split_and!.
  - by apply (NoDup_filter_keys ps_id).
  - intros k ([i x] & -> & [Hin _]%filter_elem)%list_elem_of_fmap ([j y] & Hk & [_ Hne]%filter_elem)%list_elem_of_fmap.
    cbn in *. subst j. apply negb_true_iff, has_section_spec in Hne. apply (content_at_Some des i x Hd) in Hin. congruence.
  - by apply (NoDup_filter_keys ps_id).
Qed.

(** Replaying the changes gives every section its desired text. *)
Lemma apply_changed_sections cur des k :
  NoDup (map ps_id cur) -> NoDup (map ps_id des) ->
  content_at k (foldl apply_section cur (changed_sections cur des)) = content_at k des.
Proof.
  intros Hc Hd. rewrite apply_sections_at by (done || by apply changed_sections_unique).
  destruct (lookup_by ch_id k (changed_sections cur des)) as [ch|] eqn:Hk.
  - apply lookup_by_Some in Hk as [Hin <-]. by apply changed_section_spec in Hin as [].
  - destruct (decide (content_at k cur = content_at k des)) as [|Hne]; [done|]. exfalso.
    apply lookup_by_None in Hk. apply Hk, list_elem_of_fmap. exists (mk_change k (content_at k des)).
    split; [done|]. by apply changed_section_spec.
Qed.

(** ** Tool changes *)

Lemma filter_all {A} (p : A -> bool) l : (forall x, x ∈ l -> p x = true) -> List.filter p l = l.
Proof.
  induction l as [|x l IH]; simpl; [done|]. intros Hl. rewrite (Hl x) by (by left). f_equal. apply IH.
  intros y Hy. apply Hl. by right.
Qed.

Lemma filter_ext_elem {A} (p q : A -> bool) l :
  (forall x, x ∈ l -> p x = q x) -> List.filter p l = List.filter q l.
Proof. intros Hl. apply List.filter_ext_in. intros x Hx. apply Hl. by apply list_elem_of_In. Qed.

Lemma filter_filter_and {A} (p q : A -> bool) l :
  List.filter p (List.filter q l) = List.filter (fun x => q x && p x) l.
Proof.
  induction l as [|x l IH]; simpl; [done|]. destruct (q x); simpl; [|done]. destruct (p x); by rewrite IH.
Qed.

Lemma retain_all names l :
  foldl retain_tools l names = List.filter (fun t => bool_decide (td_name t ∉ names)) l.
Proof.
  revert l. induction names as [|n names IH]; intros l; cbn [foldl].
  { symmetry. apply filter_all. intros. apply bool_decide_true, not_elem_of_nil. }
  rewrite IH. unfold retain_tools. rewrite filter_filter_and. apply filter_ext_elem. intros t _.
  destruct (String.eqb_spec (td_name t) n) as [->|Hne]; cbn.
  - symmetry. apply bool_decide_false. intros Hn. apply Hn. by left.
  - apply bool_decide_ext. rewrite not_elem_of_cons. naive_solver.
Qed.

(** Additions with fresh, distinct names are appended in order. *)
Lemma add_all l added :
  NoDup (map td_name added) -> (forall t, t ∈ added -> td_name t ∉ map td_name l) ->
  foldl push_tool l added = l ++ added.
Proof.
  revert l. induction added as [|t ts IH]; intros l; cbn [foldl map]; [by rewrite app_nil_r|].
  intros [Ht Hts]%NoDup_cons Hfresh.
  assert (push_tool l t = l ++ [t]) as ->.
  { unfold push_tool, retain_tools. f_equal. apply filter_all. intros x Hx. apply negb_true_iff, String.eqb_neq.
    intros Heq. apply (Hfresh t); [by left|]. rewrite <-Heq. apply list_elem_of_fmap. by exists x. }
  rewrite IH; [by rewrite <-app_assoc|done|]. intros x Hx. rewrite map_app, not_elem_of_app. split.
  - apply Hfresh. by right.
  - intros Heq%list_elem_of_singleton. apply Ht. rewrite <-Heq. apply list_elem_of_fmap. by exists x.
Qed.

(** The tools of [c] that [d] declares in the same way. *)
Definition kept_tools (c d : list ToolDeclaration) : list ToolDeclaration :=
  List.filter (fun tool => find_tool d (td_name tool) ==? Some tool) c.
Definition added_tools (c d : list ToolDeclaration) : list ToolDeclaration :=
  List.filter (fun tool => find_tool c (td_name tool) !=? Some tool) d.
Definition removed_tools (c d : list ToolDeclaration) : list string :=
  map td_name (List.filter (fun tool => find_tool d (td_name tool) !=? Some tool) c).

Lemma find_tool_elem l t : NoDup (map td_name l) -> t ∈ l -> find_tool l (td_name t) = Some t.
Proof. apply (lookup_by_elem td_name). Qed.
Lemma find_tool_Some l n t : find_tool l n = Some t -> t ∈ l /\ td_name t = n.
Proof. apply (lookup_by_Some td_name). Qed.

Lemma same_declaration_spec l n t :
  (find_tool l n ==? Some t) = true <-> exists x, find_tool l n = Some x /\ (x ==? t) = true.
Proof. destruct (find_tool l n) as [x|]; cbn; naive_solver. Qed.

Lemma tool_eq_name (a b : ToolDeclaration) : (a ==? b) = true -> td_name a = td_name b.
Proof.
  unfold partial_eq, tool_declaration_eq. intros [[Hn _]%andb_true_iff _]%andb_true_iff.
  by apply bool_decide_eq_true in Hn.
Qed.

Lemma retain_removed c d :
  NoDup (map td_name c) -> foldl retain_tools c (removed_tools c d) = kept_tools c d.
Proof.
  intros Hc. rewrite retain_all. apply filter_ext_elem. intros t Ht.
  destruct (find_tool d (td_name t) ==? Some t) eqn:Hd.
  - apply bool_decide_true. intros (x & Hn & [Hx Hne]%filter_elem)%list_elem_of_fmap.
    assert (x = t) as -> by (apply (find_tool_elem c) in Hx, Ht; congruence).
    by rewrite Hd in Hne.
  - apply bool_decide_false. intros Hn. apply Hn, list_elem_of_fmap. exists t. split; [done|].
    apply filter_elem. by rewrite Hd.
Qed.

Lemma kept_tool_declared c d t :
  NoDup (map td_name c) -> NoDup (map td_name d) -> t ∈ d ->
  td_name t ∈ map td_name (kept_tools c d) <-> (find_tool c (td_name t) ==? Some t) = true.
Proof.
  intros Hc Hd Ht. rewrite same_declaration_spec. split.
  - intros (x & Hn & [Hx Hsame]%filter_elem)%list_elem_of_fmap. exists x.
    rewrite <-Hn, (find_tool_elem d t Hd Ht) in Hsame. rewrite Hn. split; [by apply find_tool_elem|].
    rewrite tool_eq_sym. exact Hsame.
  - intros (x & [Hx Hn]%find_tool_Some & Hsame). apply list_elem_of_fmap. exists x. split; [done|].
    apply filter_elem. split; [done|]. rewrite Hn, (find_tool_elem d t Hd Ht). cbn. by rewrite tool_eq_sym.
Qed.

(** Replaying the tool changes keeps the common declarations and appends the others. *)
Lemma apply_tool_changes c d :
  NoDup (map td_name c) -> NoDup (map td_name d) ->
  foldl push_tool (foldl retain_tools c (removed_tools c d)) (added_tools c d) = kept_tools c d ++ added_tools c d.
Proof.
  intros Hc Hd. rewrite retain_removed by done. apply add_all; [by apply NoDup_filter_keys|].
  intros t [Ht Hne]%filter_elem Hkept%kept_tool_declared; [|done..]. by rewrite Hkept in Hne.
Qed.

Lemma result_tool_names c d k :
  NoDup (map td_name c) -> NoDup (map td_name d) ->
  k ∈ map td_name (kept_tools c d ++ added_tools c d) <-> k ∈ map td_name d.
Proof.
  intros Hc Hd. rewrite map_app, elem_of_app. split.
  - intros [(x & -> & [_ Hx]%filter_elem)%list_elem_of_fmap|(x & -> & [Hx _]%filter_elem)%list_elem_of_fmap].
    + apply same_declaration_spec in Hx as (y & [Hy <-]%find_tool_Some & _). apply list_elem_of_fmap. by exists y.
    + apply list_elem_of_fmap. by exists x.
  - intros (x & -> & Hx)%list_elem_of_fmap. destruct (find_tool c (td_name x) ==? Some x) eqn:Hs.
    + left. by apply kept_tool_declared.
    + right. apply list_elem_of_fmap. exists x. split; [done|]. apply filter_elem. by rewrite Hs.
Qed.

(** ** Comparing and diffing *)

Lemma content_at_ids l k : NoDup (map ps_id l) -> k ∈ map ps_id l <-> is_Some (content_at k l).
Proof.
  intros Hl. rewrite <-not_eq_None_Some, content_at_None. destruct (decide (k ∈ map ps_id l)); naive_solver.
Qed.

Lemma same_sections a b :
  NoDup (map ps_id a) -> NoDup (map ps_id b) -> (forall k, content_at k a = content_at k b) ->
  length a = length b /\ forallb (fun section => existsb (fun candidate => candidate ==? section) b) a = true.
Proof.
  intros Ha Hb Heq. split.
  - apply (same_keys_length ps_id ps_id); [done..|]. intros k. by rewrite !content_at_ids, Heq.
  - apply forallb_elem. intros [k x] Hin. apply (content_at_Some a k x Ha) in Hin. rewrite Heq in Hin.
    apply existsb_true_elem. exists (mk_section k x). split; [by apply content_at_Some|].
    unfold partial_eq, partial_eq_decide. by apply bool_decide_eq_true.
Qed.

Lemma same_tools c d :
  NoDup (map td_name c) -> NoDup (map td_name d) -> Forall tool_finite d ->
  NoDup (map td_name (kept_tools c d ++ added_tools c d)) ->
  length (kept_tools c d ++ added_tools c d) = length d /\
  forallb (fun tool => find_tool d (td_name tool) ==? Some tool) (kept_tools c d ++ added_tools c d) = true.
Proof.
  intros Hc Hd Hfin Hr. split.
  - apply (same_keys_length td_name td_name); [done..|]. intros k. by apply result_tool_names.
  - apply forallb_elem. intros t [[_ Ht]%filter_elem|[Ht _]%filter_elem]%elem_of_app; [done|].
    rewrite (find_tool_elem d t Hd Ht). rewrite Forall_forall in Hfin. by apply tool_eq_refl, Hfin.
Qed.

Lemma configuration_diff_Some c d u :
  configuration_diff c d = Some u ->
  u = mk_update (changed_sections (ec_sections c) (ec_sections d))
        (added_tools (ec_tools c) (ec_tools d)) (removed_tools (ec_tools c) (ec_tools d)).
Proof. unfold configuration_diff. destruct (same_content c d); [done|]. by intros [= <-]. Qed.

Lemma diff_applied c d u :
  unique c -> unique d -> Forall tool_finite (ec_tools d) -> configuration_diff c d = Some u ->
  same_content (apply_update c u) d = true.
Proof.
  intros Hc Hd Hfin Hu. pose proof (apply_update_unique c u Hc) as [Hrs Hrt].
  apply configuration_diff_Some in Hu as ->. destruct Hc as [Hcs Hct], Hd as [Hds Hdt].
  unfold apply_update, same_content in *. cbn [ec_sections ec_tools cu_sections cu_tools_added cu_tools_removed] in *.
  rewrite apply_tool_changes in * by done.
  destruct (same_sections _ (ec_sections d) Hrs Hds) as [-> ->]; [intros k; by apply apply_changed_sections|].
  destruct (same_tools (ec_tools c) (ec_tools d)) as [-> ->]; [done..|]. by rewrite !Nat.eqb_refl.
Qed.

(** Section identities are valid and tools are named. *)
Definition admissible_names (c : EffectiveConfiguration) : Prop :=
  (forall s, s ∈ ec_sections c -> validate_section_id (ps_id s) = Ok tt) /\
  (forall t, t ∈ ec_tools c -> str_is_empty (td_name t) = false).

Lemma insert_sections_ok ids seen :
  NoDup ids -> (forall id, id ∈ ids -> validate_section_id id = Ok tt /\ id ∉ seen) ->
  exists seen', ofold insert_section seen ids = Ok seen'.
Proof.
  revert seen. induction ids as [|id ids IH]; intros seen; cbn [ofold]; [by eauto|].
  intros [Hid Hids]%NoDup_cons Hok. destruct (Hok id) as [Hv Hn]; [by left|].
  unfold insert_section at 1. rewrite Hv. cbn. unfold mem. rewrite bool_decide_false by done. apply IH; [done|].
  intros k Hk. split; [apply Hok; by right|]. apply not_elem_of_union. split; [|apply Hok; by right].
  apply not_elem_of_singleton. by intros ->.
Qed.

Lemma insert_tools_ok names seen :
  NoDup names -> (forall n, n ∈ names -> str_is_empty n = false /\ n ∉ seen) ->
  exists seen', ofold insert_tool seen names = Ok seen'.
Proof.
  revert seen. induction names as [|n names IH]; intros seen; cbn [ofold]; [by eauto|].
  intros [Hid Hids]%NoDup_cons Hok. destruct (Hok n) as [Hv Hn]; [by left|].
  unfold insert_tool at 1. rewrite Hv. unfold mem. rewrite bool_decide_false by done. cbn. apply IH; [done|].
  intros k Hk. split; [apply Hok; by right|]. apply not_elem_of_union. split; [|apply Hok; by right].
  apply not_elem_of_singleton. by intros ->.
Qed.

Lemma update_validate_ok u :
  NoDup (map ch_id (cu_sections u)) -> NoDup (map td_name (cu_tools_added u)) -> NoDup (cu_tools_removed u) ->
  (forall id, id ∈ map ch_id (cu_sections u) -> validate_section_id id = Ok tt) ->
  (forall n, n ∈ map td_name (cu_tools_added u) ++ cu_tools_removed u -> str_is_empty n = false) ->
  update_validate u = Ok tt.
Proof.
  intros Hs Ha Hr Hids Hn. unfold update_validate.
  destruct (insert_sections_ok _ ∅ Hs) as [? ->]; [intros id Hid; split; [by apply Hids|apply not_elem_of_empty]|].
  destruct (insert_tools_ok _ ∅ Ha) as [? ->].
  { intros n Hn'; split; [apply Hn, elem_of_app; by left|apply not_elem_of_empty]. }
  destruct (insert_tools_ok _ ∅ Hr) as [? ->]; [|done].
  intros n Hn'; split; [apply Hn, elem_of_app; by right|apply not_elem_of_empty].
Qed.

Lemma diff_valid c d u :
  unique c -> unique d -> admissible_names c -> admissible_names d -> configuration_diff c d = Some u ->
  update_validate u = Ok tt.
Proof.
  intros [Hcs Hct] [Hds Hdt] [Hci Hcn] [Hdi Hdn] ->%configuration_diff_Some.
  apply update_validate_ok; cbn [cu_sections cu_tools_added cu_tools_removed].
  - by apply changed_sections_unique.
  - by apply NoDup_filter_keys.
  - by apply NoDup_filter_keys.
  - intros id (ch & -> & [_ Hne]%changed_section_spec)%list_elem_of_fmap; [|done..].
    assert (ch_id ch ∈ map ps_id (ec_sections c) \/ ch_id ch ∈ map ps_id (ec_sections d))
      as [(s & -> & Hs)%list_elem_of_fmap|(s & -> & Hs)%list_elem_of_fmap]; [|by apply Hci|by apply Hdi].
    rewrite !content_at_ids by done. destruct (content_at (ch_id ch) (ec_sections c)) as [x|]; [left; by eexists|right].
    by apply not_eq_None_Some.
  - intros n [(t & -> & [Ht _]%filter_elem)%list_elem_of_fmap|(t & -> & [Ht _]%filter_elem)%list_elem_of_fmap]%elem_of_app; eauto.
Qed.

(** ** The initial update *)

Lemma set_section_fresh id content l : id ∉ map ps_id l -> set_section id content l = l ++ [mk_section id content].
Proof.
  induction l as [|s l IH]; cbn; [done|]. intros [Hs Hl]%not_elem_of_cons.
  rewrite (proj2 (String.eqb_neq _ _)) by congruence. by rewrite IH.
Qed.

Lemma initial_sections l k :
  NoDup (map ps_id (l ++ k)) ->
  foldl apply_section l (map (fun s => mk_change (ps_id s) (Some (ps_content s))) k) = l ++ k.
Proof.
  revert l. induction k as [|[i x] k IH]; intros l; [by rewrite app_nil_r|]. intros Hnd.
  cbn [map foldl apply_section ch_content ch_id ps_id ps_content].
  rewrite set_section_fresh, IH; rewrite <-?app_assoc; [done..|].
  rewrite map_app in Hnd. apply NoDup_app in Hnd as (_ & Hdisj & _). intros Hin. by apply (Hdisj i Hin); left.
Qed.

Lemma initial_update_applied c :
  unique c -> apply_update configuration_empty (as_initial_update c) = c.
Proof.
  destruct c as [sections tools]. intros [Hs Ht]. unfold apply_update. cbn [as_initial_update ec_sections
    ec_tools cu_sections cu_tools_added cu_tools_removed configuration_empty foldl] in *. f_equal.
  - by rewrite initial_sections.
  - rewrite add_all; [done..|]. intros t _. apply not_elem_of_nil.
Qed.
