(* ===== verification/Messages.v ===== *)
(** * tea-core: canonical conversation messages
    ([crates/tea-core/src/state/messages.rs], [state/identifiers.rs],
    [state/accounting.rs], [tool.rs])

    The messages of a conversation: user input, provider responses with their
    tool calls, tool results, and configuration updates at their position. *)

From stdpp Require Import base gmap sets list strings.
From S2P Require Import Prelude RustStr Json SessionErrors Configuration.

Local Open Scope N_scope.

Definition MAX_OPAQUE_BYTES : N := 1048576.
Definition MAX_OPAQUE_PROVIDER_BYTES : N := 64.
Definition MAX_OPAQUE_KIND_BYTES : N := 64.
Definition MAX_OPAQUE_ITEM_ID_BYTES : N := 512.

(** [OpaqueProviderContextItem]. *)
Record OpaqueItem := mk_opaque_item {
  oi_provider : string;
  oi_kind : string;
  oi_item_id : option string;
  oi_payload : string;
}.
#[export] Instance opaque_item_eq_dec : EqDecision OpaqueItem.
Proof. solve_decision. Defined.

Inductive OpaqueProviderContextError :=
| EmptyProvider
| UnsafeProvider
| ProviderTooLong (maximum actual : N)
| EmptyKind
| UnsafeKind
| KindTooLong (maximum actual : N)
| EmptyItemId
| UnsafeItemId
| ItemIdTooLong (maximum actual : N)
| EmptyPayload
| PayloadTooLarge (maximum actual : N).

(** [Display] of [OpaqueProviderContextError]. *)
Definition opaque_error_display (e : OpaqueProviderContextError) : list Piece :=
  let too_large what maximum actual :=
    [Lit ("opaque provider context " +:+ what +:+ " is too large: "); Num actual; Lit " bytes exceeds ";
     Num maximum; Lit " bytes"] in
  match e with
  | EmptyProvider => [Lit "opaque provider context requires a provider"]
  | UnsafeProvider => [Lit "opaque provider context provider is unsafe"]
  | ProviderTooLong maximum actual => too_large "provider" maximum actual
  | EmptyKind => [Lit "opaque provider context requires a kind"]
  | UnsafeKind => [Lit "opaque provider context kind is unsafe"]
  | KindTooLong maximum actual => too_large "kind" maximum actual
  | EmptyItemId => [Lit "opaque provider context item ID must not be empty"]
  | UnsafeItemId => [Lit "opaque provider context item ID is unsafe"]
  | ItemIdTooLong maximum actual => too_large "item ID" maximum actual
  | EmptyPayload => [Lit "opaque provider context payload must not be empty"]
  | PayloadTooLarge maximum actual => too_large "payload" maximum actual
  end.

(** [value.len()] and [value.trim().is_empty()]. *)
Definition utf8_len (s : string) : N := N.of_nat (str_len s).
Definition is_blank (s : string) : bool := is_nil (trim_chars (chars s)).

Definition refuse_if {E} (condition : bool) (e : E) : Outcome E unit := if condition then Err e else Ok ().

(** [OpaqueProviderContextItem::new]. *)
Definition opaque_item_new (provider kind : string) (item_id : option string) (payload : string) :
    Outcome OpaqueProviderContextError OpaqueItem :=
  check? refuse_if (is_blank provider) EmptyProvider in
  check? refuse_if (MAX_OPAQUE_PROVIDER_BYTES <? utf8_len provider)
           (ProviderTooLong MAX_OPAQUE_PROVIDER_BYTES (utf8_len provider)) in
  check? refuse_if (has_control provider) UnsafeProvider in
  check? refuse_if (is_blank kind) EmptyKind in
  check? refuse_if (MAX_OPAQUE_KIND_BYTES <? utf8_len kind)
           (KindTooLong MAX_OPAQUE_KIND_BYTES (utf8_len kind)) in
  check? refuse_if (has_control kind) UnsafeKind in
  check? match item_id with
         | None => Ok ()
         | Some item_id =>
             check? refuse_if (str_is_empty item_id) EmptyItemId in
             check? refuse_if (MAX_OPAQUE_ITEM_ID_BYTES <? utf8_len item_id)
                      (ItemIdTooLong MAX_OPAQUE_ITEM_ID_BYTES (utf8_len item_id)) in
             refuse_if (has_control item_id) UnsafeItemId
         end in
  check? refuse_if (str_is_empty payload) EmptyPayload in
  check? refuse_if (MAX_OPAQUE_BYTES <? utf8_len payload)
           (PayloadTooLarge MAX_OPAQUE_BYTES (utf8_len payload)) in
  Ok (mk_opaque_item provider kind item_id payload).

Inductive AssistantContent :=
| Text (text : string)
| Thinking (text : string) (signature : option OpaqueItem)
| RedactedThinking (data : OpaqueItem).
#[export] Instance content_block_eq_dec : EqDecision AssistantContent.
Proof. solve_decision. Defined.

(** [assistant_text], [assistant_thinking], [content_bytes], [text_content]. *)
Definition visible_text (content : list AssistantContent) : string :=
  foldl (fun text block => match block with Text block => text +:+ block | _ => text end) EmptyString content.
Definition assistant_thinking (content : list AssistantContent) : string :=
  foldl (fun text block =>
           match block with
           | Thinking block _ =>
               (if negb (str_is_empty text) && negb (str_is_empty block) then text +:+ blank_line else text)
               +:+ block
           | _ => text
           end) EmptyString content.
Definition content_bytes (content : list AssistantContent) : N :=
  foldl N.add 0 (map (fun block =>
    match block with Text text | Thinking text _ => utf8_len text | RedactedThinking _ => 0 end) content).
Definition visible_text_content (text : string) : list AssistantContent :=
  if str_is_empty text then [] else [Text text].

Record ModelDescriptor := mk_model {
  md_provider : string;
  md_model : string;
  md_revision : option string;
}.

Inductive StopReason := Stop | ToolUse | Length | Aborted | Cancelled | Error.

Record AgentToolCall := mk_call {
  tc_id : string;
  tc_name : string;
  tc_arguments : string;
}.

(** [Usage] of [state/accounting.rs]. *)
Record ModelUsage := mk_usage {
  u_total_tokens : option N;
  u_input_tokens : option N;
  u_output_tokens : option N;
  u_reasoning_tokens : option N;
  u_cache_read_tokens : option N;
  u_cache_write_tokens : option N;
  u_cost : option string;
}.

Inductive ToolFailureDisposition :=
| FailureCancelled | FailureInvalidArguments | FailureRecoverable | FailureRetryable | FailureFatal.
Record ToolFailure := mk_failure {
  tf_disposition : ToolFailureDisposition;
  tf_signature : option string;
  tf_recovery_guidance : option string;
}.

(** The fields of [AgentMessage::Assistant] and of [AgentMessage::ToolResult]. *)
Record AssistantMessage := mk_assistant {
  am_id : N;
  am_content : list AssistantContent;
  am_tool_calls : list AgentToolCall;
  am_stop_reason : option StopReason;
  am_error_message : option string;
  am_opaque_context : list OpaqueItem;
  am_origin : option ModelDescriptor;
}.
Record ToolResultMessage := mk_result {
  tr_id : N;
  tr_tool_call_id : string;
  tr_tool_name : string;
  tr_content : string;
  tr_details : option string;
  tr_usage : option ModelUsage;
  tr_added_tool_names : list string;
  tr_terminate : bool;
  tr_is_error : bool;
  tr_failure : option ToolFailure;
}.

Inductive AgentMessage :=
| User (id : N) (content : string)
| Assistant (message : AssistantMessage)
| ToolResult (result : ToolResultMessage)
| System (id : N) (update : ConfigurationUpdate).

(** [AgentMessage::id], [AgentMessage::assistant_text]. *)
Definition message_id (m : AgentMessage) : N :=
  match m with
  | User id _ | System id _ => id
  | Assistant a => am_id a
  | ToolResult r => tr_id r
  end.
Definition message_text (m : AgentMessage) : option string :=
  match m with Assistant a => Some (visible_text (am_content a)) | _ => None end.

(** The update of a system message. *)
Definition system_update (m : AgentMessage) : option ConfigurationUpdate :=
  match m with System _ update => Some update | _ => None end.
Definition is_system (m : AgentMessage) : bool := match m with System _ _ => true | _ => false end.

(** [EffectiveConfiguration::replay]. *)
Definition replay_step (configuration : option EffectiveConfiguration) (m : AgentMessage) :
    option EffectiveConfiguration :=
  match m with
  | System _ update => Some (apply_update (default configuration_empty configuration) update)
  | _ => configuration
  end.
Definition configuration_replay (messages : list AgentMessage) : option EffectiveConfiguration :=
  foldl replay_step None messages.
