(* ===== verification/Transcript.v ===== *)
(** * tea-core: the provider-facing transcript
    ([crates/tea-core/src/transcript.rs])

    A transcript is resolved for a transport, either with configuration
    updates in place or collapsed into the leading position, and prepared for
    replay to a model.  The private payloads of providers enter canonical JSON
    only through their digest. *)

From stdpp Require Import base gmap sets list strings.
From S2P Require Import Prelude RustStr Json Ids SessionErrors Configuration Messages.

Local Open Scope N_scope.

Record Transcript := mk_transcript {
  t_messages : list AgentMessage;
  t_host_notes : list string;
}.

Inductive ConfigurationProjection := InPlace | Collapsed.

Record ResolvedTranscript := mk_resolved {
  rt_leading : EffectiveConfiguration;
  rt_messages : list AgentMessage;
  rt_host_notes : list string;
}.

(** [ResolvedTranscript::current_configuration]. *)
Definition apply_message (c : EffectiveConfiguration) (m : AgentMessage) : EffectiveConfiguration :=
  match m with System _ update => apply_update c update | _ => c end.
Definition resolved_configuration (r : ResolvedTranscript) : EffectiveConfiguration :=
  foldl apply_message (rt_leading r) (rt_messages r).

(** [Transcript::new]. *)
Definition transcript_new (messages : list AgentMessage) : Transcript := mk_transcript messages [].

(** [with_message_id]. *)
Definition with_message_id (m : AgentMessage) (id : N) : AgentMessage :=
  match m with
  | User _ content => User id content
  | Assistant a => Assistant (mk_assistant id (am_content a) (am_tool_calls a) (am_stop_reason a)
      (am_error_message a) (am_opaque_context a) (am_origin a))
  | ToolResult r => ToolResult (mk_result id (tr_tool_call_id r) (tr_tool_name r) (tr_content r)
      (tr_details r) (tr_usage r) (tr_added_tool_names r) (tr_terminate r) (tr_is_error r) (tr_failure r))
  | System _ update => System id update
  end.

(** [user_message]. *)
Definition user_message (content : string) : AgentMessage := User 0 content.

(** [Transcript::standalone]. *)
Definition push_renumbered (messages : list AgentMessage) (m : AgentMessage) : list AgentMessage :=
  messages ++ [with_message_id m (N.of_nat (length messages) + 1)].
Definition standalone (prompt : SystemPrompt) (tools : list ToolDeclaration)
    (conversation : list AgentMessage) : Transcript :=
  let update := as_initial_update (configuration_new prompt tools) in
  let messages := if update_is_empty update then [] else [System 1 update] in
  mk_transcript (foldl push_renumbered messages conversation) [].

(** [Transcript::updates]. *)
Definition updates (messages : list AgentMessage) : list ConfigurationUpdate := omap system_update messages.

(** [Transcript::initial_configuration]. *)
Definition initial_configuration (t : Transcript) : EffectiveConfiguration :=
  match updates (t_messages t) with
  | update :: _ => apply_update configuration_empty update
  | [] => configuration_empty
  end.

(** [Transcript::current_configuration], [system_prompt], [tools]. *)
Definition current_configuration (t : Transcript) : EffectiveConfiguration :=
  default configuration_empty (configuration_replay (t_messages t)).
Definition transcript_prompt (t : Transcript) : string := configuration_prompt (current_configuration t).
Definition transcript_tools (t : Transcript) : list ToolDeclaration := ec_tools (current_configuration t).

(** [Transcript::declared_tools]. *)
Definition declare_tool (s : list string * gmap string ToolDeclaration) (tool : ToolDeclaration) :
    list string * gmap string ToolDeclaration :=
  (if has (td_name tool) s.2 then s.1 else s.1 ++ [td_name tool], <[td_name tool := tool]> s.2).
Definition take_definition (s : list ToolDeclaration * gmap string ToolDeclaration) (name : string) :
    list ToolDeclaration * gmap string ToolDeclaration :=
  match s.2 !! name with
  | Some tool => (s.1 ++ [tool], delete name s.2)
  | None => s
  end.
Definition declared_tools (t : Transcript) : list ToolDeclaration :=
  let s := foldl (fun s update => foldl declare_tool s (cu_tools_added update)) ([], ∅) (updates (t_messages t)) in
  (foldl take_definition ([], s.2) s.1).1.

(** [Transcript::has_tool_redefinitions]: [None] once a definition changed. *)
Definition redefine (declared : option (gmap string ToolDeclaration)) (tool : ToolDeclaration) :
    option (gmap string ToolDeclaration) :=
  match declared with
  | None => None
  | Some declared =>
      match declared !! td_name tool with
      | Some previous => if previous !=? tool then None else Some (<[td_name tool := tool]> declared)
      | None => Some (<[td_name tool := tool]> declared)
      end
  end.
Definition has_tool_redefinitions (t : Transcript) : bool :=
  match foldl (fun s update => foldl redefine s (cu_tools_added update)) (Some ∅) (updates (t_messages t)) with
  | Some _ => false
  | None => true
  end.

(** [Transcript::has_non_additive_tool_changes]: [None] once a change is not
    an addition. *)
Definition add_name (declared : option (gset string)) (tool : ToolDeclaration) : option (gset string) :=
  match declared with
  | None => None
  | Some declared => if mem (td_name tool) declared then None else Some ({[td_name tool]} ∪ declared)
  end.
Definition add_update (declared : option (gset string)) (update : ConfigurationUpdate) : option (gset string) :=
  if is_nil (cu_tools_removed update) then foldl add_name declared (cu_tools_added update) else None.
Definition has_non_additive_tool_changes (t : Transcript) : bool :=
  match foldl add_update (Some ∅) (updates (t_messages t)) with
  | Some _ => false
  | None => true
  end.

(** The messages other than the first system message. *)
Fixpoint without_first_system (messages : list AgentMessage) : list AgentMessage :=
  match messages with
  | [] => []
  | m :: l => if is_system m then l else m :: without_first_system l
  end.

(** [Transcript::resolve]. *)
Definition resolve (t : Transcript) (projection : ConfigurationProjection) : ResolvedTranscript :=
  match projection with
  | Collapsed => mk_resolved (current_configuration t)
      (List.filter (fun m => negb (is_system m)) (t_messages t)) (t_host_notes t)
  | InPlace => mk_resolved (initial_configuration t) (without_first_system (t_messages t)) (t_host_notes t)
  end.

(** [same_physical_model]. *)
Definition same_physical_model (origin target : option ModelDescriptor) : bool :=
  match origin, target with
  | Some origin, Some target =>
      String.eqb (md_provider origin) (md_provider target) && String.eqb (md_model origin) (md_model target)
  | _, _ => false
  end.

(** [replay_block]. *)
Definition replay_block (same_model : bool) (block : AssistantContent) : option AssistantContent :=
  match block with
  | Text text => if str_is_empty text then None else Some (Text text)
  | Thinking text signature =>
      if negb same_model then None
      else if is_blank text && match signature with None => true | Some _ => false end then None
      else Some (Thinking text signature)
  | RedactedThinking data => if same_model then Some (RedactedThinking data) else None
  end.

(** The locals of [Transcript::prepared_for]. *)
Record Preparation := mk_preparation {
  p_output : list AgentMessage;
  p_pending : list AgentToolCall;
  p_answered : gset string;
  p_held : list AgentMessage;
  p_synthetic : N;
}.

(** One unanswered call of [close_pending]. *)
Definition synthetic_result (id : N) (call : AgentToolCall) : AgentMessage :=
  ToolResult (mk_result id (tc_id call) (tc_name call) "No result provided" None None [] false true None).
Definition close_call (answered : gset string) (s : list AgentMessage * N) (call : AgentToolCall) :
    list AgentMessage * N :=
  if mem (tc_id call) answered then s
  else let id := u64_saturating_add s.2 1 in (s.1 ++ [synthetic_result id call], id).

(** The closure [close_pending]. *)
Definition close_pending (p : Preparation) : Preparation :=
  let s := foldl (close_call (p_answered p)) (p_output p, p_synthetic p) (p_pending p) in
  mk_preparation (s.1 ++ p_held p) [] ∅ [] s.2.

Definition push_output (m : AgentMessage) (p : Preparation) : Preparation :=
  mk_preparation (p_output p ++ [m]) (p_pending p) (p_answered p) (p_held p) (p_synthetic p).

Definition incomplete_turn (a : AssistantMessage) : bool :=
  match am_stop_reason a with Some Error | Some Aborted => true | _ => false end.

Definition replay_assistant (target : option ModelDescriptor) (a : AssistantMessage) : AssistantMessage :=
  mk_assistant (am_id a) (omap (replay_block (same_physical_model (am_origin a) target)) (am_content a))
    (am_tool_calls a) (am_stop_reason a) (am_error_message a) (am_opaque_context a) (am_origin a).

(** One round of the loop of [Transcript::prepared_for]. *)
Definition prepare_message (target : option ModelDescriptor) (p : Preparation) (m : AgentMessage) : Preparation :=
  match m with
  | Assistant a =>
      let p := close_pending p in
      if incomplete_turn a then p
      else mk_preparation (p_output p ++ [Assistant (replay_assistant target a)]) (am_tool_calls a)
             (p_answered p) (p_held p) (p_synthetic p)
  | ToolResult r =>
      mk_preparation (p_output p ++ [m]) (p_pending p) ({[tr_tool_call_id r]} ∪ p_answered p) (p_held p) (p_synthetic p)
  | System _ _ =>
      if is_nil (p_pending p) then push_output m p
      else mk_preparation (p_output p) (p_pending p) (p_answered p) (p_held p ++ [m]) (p_synthetic p)
  | User _ _ => push_output m (close_pending p)
  end.

Definition largest_id (messages : list AgentMessage) : N := foldl N.max 0 (map message_id messages).

(** [Transcript::prepared_for]. *)
Definition prepared_for (t : Transcript) (target : option ModelDescriptor) : Transcript :=
  let p := foldl (prepare_message target) (mk_preparation [] [] ∅ [] (largest_id (t_messages t))) (t_messages t) in
  mk_transcript (p_output (close_pending p)) (t_host_notes t).
