(* ===== verification/TranscriptProofs.v ===== *)
(** * tea-core: what a prepared and resolved transcript keeps

    Both projections carry the same configuration; an update in place leaves
    the earlier request unchanged; preparing a transcript answers every tool
    call, keeps the order of configuration updates and shows private reasoning
    only to the model that produced it. *)

From stdpp Require Import base gmap sets list strings.
From S2P Require Import Prelude RustStr Json Ids SessionErrors Configuration Messages Transcript.

(** ** Replaying configurations *)

Lemma replay_fold_Some c l : foldl replay_step (Some c) l = Some (foldl apply_message c l).
Proof. revert c. induction l as [|[| | |] l IH]; intros c; simpl; done. Qed.

Lemma replay_default l :
  default configuration_empty (configuration_replay l) = foldl apply_message configuration_empty l.
Proof.
  unfold configuration_replay. induction l as [|[| | |id u] l IH]; cbn [foldl replay_step apply_message]; try done.
  by rewrite replay_fold_Some.
Qed.

Lemma apply_messages_updates c l : foldl apply_message c l = foldl apply_update c (updates l).
Proof. revert c. induction l as [|[| | |] l IH]; intros c; simpl; done. Qed.

Lemma updates_app l k : updates (l ++ k) = updates l ++ updates k.
Proof. apply omap_app. Qed.

Lemma updates_filter l : updates (List.filter is_system l) = updates l.
Proof. induction l as [|[| | |] l IH]; simpl; [done..|]. by rewrite IH. Qed.

Lemma updates_without_systems l : updates (List.filter (fun m => negb (is_system m)) l) = [].
Proof. by induction l as [|[| | |] l IH]. Qed.

Lemma updates_without_first l : updates (without_first_system l) = tail (updates l).
Proof. by induction l as [|[| | |] l IH]. Qed.

Lemma current_configuration_updates t :
  current_configuration t = foldl apply_update configuration_empty (updates (t_messages t)).
Proof. unfold current_configuration. by rewrite replay_default, apply_messages_updates. Qed.

Lemma resolved_in_place t : resolved_configuration (resolve t InPlace) = current_configuration t.
Proof.
  unfold resolved_configuration. cbn [resolve rt_leading rt_messages]. unfold initial_configuration.
  rewrite apply_messages_updates, updates_without_first, current_configuration_updates.
  by destruct (updates (t_messages t)).
Qed.

Lemma resolved_collapsed t : resolved_configuration (resolve t Collapsed) = current_configuration t.
Proof.
  unfold resolved_configuration. cbn [resolve rt_leading rt_messages].
  by rewrite apply_messages_updates, updates_without_systems.
Qed.

Lemma conversation_without_first l :
  List.filter (fun m => negb (is_system m)) (without_first_system l) = List.filter (fun m => negb (is_system m)) l.
Proof. induction l as [|[| | |] l IH]; simpl; [done| | | |done]; by rewrite IH. Qed.

Lemma without_first_app l k : updates l <> [] -> without_first_system (l ++ k) = without_first_system l ++ k.
Proof. induction l as [|[| | |] l IH]; simpl; intros Hl; [done| | | |done]; by rewrite IH. Qed.

(** Replay never leaves two sections or tools with one name. *)
Lemma replay_unique t : unique (current_configuration t).
Proof.
  rewrite current_configuration_updates.
  assert (unique configuration_empty) as Hd by (split; constructor).
  revert Hd. generalize configuration_empty. induction (updates (t_messages t)) as [|u us IH]; intros c Hc; simpl; [done|].
  by apply IH, apply_update_unique.
Qed.

(** ** Additive histories *)

Lemma foldl_concat {A B C} (f : C -> B -> C) (g : A -> list B) c l :
  foldl (fun s x => foldl f s (g x)) c l = foldl f c (concat (map g l)).
Proof. revert c. induction l as [|x l IH]; intros c; simpl; [done|]. by rewrite IH, foldl_app. Qed.

Lemma add_name_None l : foldl add_name None l = None.
Proof. by induction l. Qed.

Lemma add_update_None l : foldl add_update None l = None.
Proof.
  induction l as [|u l IH]; simpl; [done|]. unfold add_update at 2.
  destruct (is_nil (cu_tools_removed u)); [|done]. by rewrite add_name_None.
Qed.

Lemma additive_updates s us s' :
  foldl add_update (Some s) us = Some s' ->
  Forall (fun u => cu_tools_removed u = []) us /\
  foldl add_name (Some s) (concat (map cu_tools_added us)) = Some s'.
Proof.
  revert s. induction us as [|u us IH]; intros s; simpl; [by intros [= ->]|].
  unfold add_update at 2. destruct (cu_tools_removed u) as [|n ns] eqn:Hr; simpl; [|by rewrite add_update_None].
  destruct (foldl add_name (Some s) (cu_tools_added u)) as [s1|] eqn:Hs; [|by rewrite add_update_None].
  intros [Hus Hc]%IH. split; [by constructor|]. by rewrite foldl_app, Hs.
Qed.

Lemma add_names_fresh s l s' :
  foldl add_name (Some s) l = Some s' -> NoDup (map td_name l) /\ forall t, t ∈ l -> td_name t ∉ s.
Proof.
  revert s. induction l as [|t l IH]; intros s; simpl.
  { intros _. split; [constructor|]. by intros t ?%not_elem_of_nil. }
  unfold mem. case_bool_decide as Ht; [by rewrite add_name_None|]. intros [Hnd Hfresh]%IH. split.
  - constructor; [|done]. intros (x & Hx & Hin)%list_elem_of_fmap. apply (Hfresh x Hin). rewrite <-Hx.
    apply elem_of_union. left. by apply elem_of_singleton.
  - intros x [->|Hin]%elem_of_cons; [done|]. intros Hx. apply (Hfresh x Hin), elem_of_union. by right.
Qed.

Lemma replayed_tools c us :
  Forall (fun u => cu_tools_removed u = []) us ->
  ec_tools (foldl apply_update c us) = foldl push_tool (ec_tools c) (concat (map cu_tools_added us)).
Proof.
  intros Hus. revert c. induction Hus as [|u us Hu _ IH]; intros c; simpl; [done|].
  rewrite IH, foldl_app. simpl. by rewrite Hu.
Qed.

Lemma declare_fresh (l : list ToolDeclaration) (order : list string) (m : gmap string ToolDeclaration) :
  NoDup (map td_name l) -> (forall t, t ∈ l -> m !! td_name t = None) ->
  foldl declare_tool (order, m) l = (order ++ map td_name l, list_to_map (reverse (map (fun t => (td_name t, t)) l)) ∪ m).
Proof.
  revert order m. induction l as [|t l IH]; intros order m; cbn [map foldl].
  { intros _ _. rewrite app_nil_r, reverse_nil. rewrite list_to_map_nil. by rewrite (left_id_L ∅ (∪)). }
  intros [Ht Hl]%NoDup_cons Hm. unfold declare_tool at 2. cbn [fst snd]. unfold has. rewrite (Hm t) by (by left).
  rewrite IH; [|done|].
  - f_equal; [by rewrite <-app_assoc|]. rewrite reverse_cons, list_to_map_app. 
    rewrite <-(assoc_L (∪)). f_equal. rewrite list_to_map_cons, list_to_map_nil. by rewrite <-insert_union_l, (left_id_L ∅ (∪)).
  - intros x Hx. rewrite lookup_insert_ne; [apply Hm; by right|]. intros Heq. apply Ht. rewrite Heq.
    apply list_elem_of_fmap. by exists x.
Qed.

Lemma take_all (l : list ToolDeclaration) (acc : list ToolDeclaration) (m : gmap string ToolDeclaration) :
  NoDup (map td_name l) -> (forall t, t ∈ l -> m !! td_name t = Some t) ->
  (foldl take_definition (acc, m) (map td_name l)).1 = acc ++ l.
Proof.
  revert acc m. induction l as [|t l IH]; intros acc m; cbn [map foldl]; [by rewrite app_nil_r|].
  intros [Ht Hl]%NoDup_cons Hm. unfold take_definition at 2. cbn [fst snd]. rewrite (Hm t) by (by left).
  rewrite IH; [by rewrite <-app_assoc|done|]. intros x Hx. rewrite lookup_delete_ne; [apply Hm; by right|].
  intros Heq. apply Ht. rewrite Heq. apply list_elem_of_fmap. by exists x.
Qed.

Lemma redefine_fresh (l : list ToolDeclaration) (m : gmap string ToolDeclaration) :
  NoDup (map td_name l) -> (forall t, t ∈ l -> m !! td_name t = None) ->
  is_Some (foldl redefine (Some m) l).
Proof.
  revert m. induction l as [|t l IH]; intros m; cbn [map foldl]; [by eauto|].
  intros [Ht Hl]%NoDup_cons Hm. unfold redefine at 2. rewrite (Hm t) by (by left). apply IH; [done|].
  intros x Hx. rewrite lookup_insert_ne; [apply Hm; by right|]. intros Heq. apply Ht. rewrite Heq.
  apply list_elem_of_fmap. by exists x.
Qed.

(** An additive history declares every tool once, in the order it was added. *)
Lemma additive_history t :
  has_non_additive_tool_changes t = false ->
  let added := concat (map cu_tools_added (updates (t_messages t))) in
  transcript_tools t = added /\ declared_tools t = added /\ has_tool_redefinitions t = false.
Proof.
  unfold has_non_additive_tool_changes.
  destruct (foldl add_update (Some ∅) (updates (t_messages t))) as [s|] eqn:Hs; [|done]. intros _.
  apply additive_updates in Hs as [Hus [Hnd _]%add_names_fresh].
  unfold transcript_tools, declared_tools, has_tool_redefinitions.
  rewrite current_configuration_updates, replayed_tools, !foldl_concat by done.
  set (added := concat (map cu_tools_added (updates (t_messages t)))) in *. cbn zeta.
  rewrite declare_fresh by done. cbn [fst snd app]. split_and!.
  - rewrite add_all; [done..|]. intros x _. apply not_elem_of_nil.
  - rewrite take_all; [done..|]. intros x Hx. rewrite (right_id_L ∅ (∪)). apply elem_of_list_to_map_1.
    + rewrite fmap_reverse, reverse_Permutation. by rewrite <-list_fmap_compose.
    + apply elem_of_reverse, list_elem_of_fmap. by exists x.
  - destruct (redefine_fresh added ∅ Hnd) as [m ->]; done.
Qed.

(** ** Preparing a transcript *)

(** The synthetic results [close_pending] adds. *)
Lemma close_calls_spec answered s calls :
  exists synthetic,
    (foldl (close_call answered) s calls).1 = s.1 ++ synthetic /\
    Forall (fun m => exists id call, m = synthetic_result id call /\ call ∈ calls) synthetic /\
    (forall call, call ∈ calls -> tc_id call ∉ answered -> exists id, synthetic_result id call ∈ synthetic).
Proof.
  revert s. induction calls as [|call calls IH]; intros s; cbn [foldl].
  { exists []. rewrite app_nil_r. split_and!; [done..|]. by intros call ?%not_elem_of_nil. }
  unfold close_call at 2. unfold mem. case_bool_decide as Hc.
  - destruct (IH s) as (syn & Heq & Hsyn & Hall). exists syn. split_and!; [done| |].
    + eapply Forall_impl; [exact Hsyn|]. intros m (id & c & -> & Hin). exists id, c. split; [done|]. by right.
    + intros c [->|Hin]%elem_of_cons Hn; [done|]. by apply Hall.
  - destruct (IH (s.1 ++ [synthetic_result (u64_saturating_add s.2 1) call], u64_saturating_add s.2 1))
      as (syn & Heq & Hsyn & Hall).
    exists (synthetic_result (u64_saturating_add s.2 1) call :: syn). split_and!.
    + rewrite Heq. cbn. by rewrite <-app_assoc.
    + constructor; [eexists _, call; split; [done|by left]|]. eapply Forall_impl; [exact Hsyn|].
      intros m (id & c & -> & Hin). exists id, c. split; [done|]. by right.
    + intros c [->|Hin]%elem_of_cons Hn; [eexists; by left|]. destruct (Hall c Hin Hn) as [id Hid]. exists id. by right.
Qed.

(** The output of [close_pending]. *)
Lemma close_pending_output p :
  exists synthetic,
    p_output (close_pending p) = p_output p ++ synthetic ++ p_held p /\
    Forall (fun m => exists id call, m = synthetic_result id call /\ call ∈ p_pending p) synthetic /\
    (forall call, call ∈ p_pending p -> tc_id call ∉ p_answered p -> exists id, synthetic_result id call ∈ synthetic).
Proof.
  destruct (close_calls_spec (p_answered p) (p_output p, p_synthetic p) (p_pending p)) as (syn & Heq & Hsyn & Hall).
  exists syn. unfold close_pending. cbn [p_output]. rewrite Heq. by rewrite <-app_assoc.
Qed.

Lemma filter_app_bool {A} (f : A -> bool) l k : List.filter f (l ++ k) = List.filter f l ++ List.filter f k.
Proof. apply List.filter_app. Qed.

Lemma filter_none {A} (f : A -> bool) l : Forall (fun x => f x = false) l -> List.filter f l = [].
Proof. induction 1 as [|x l Hx _ IH]; simpl; [done|]. by rewrite Hx. Qed.

Lemma synthetic_not_system calls l :
  Forall (fun m => exists id call, m = synthetic_result id call /\ call ∈ (calls : list AgentToolCall)) l ->
  Forall (fun m => is_system m = false) l.
Proof. intros Hl. eapply Forall_impl; [exact Hl|]. by intros m (id & call & -> & _). Qed.

(** *** The order of configuration updates *)

(** Updates already output precede the held ones, which wait only for results. *)
Definition updates_in_order (processed : list AgentMessage) (p : Preparation) : Prop :=
  List.filter is_system (p_output p ++ p_held p) = List.filter is_system processed /\
  Forall (fun m => is_system m = true) (p_held p) /\ (p_pending p = [] -> p_held p = []).

Lemma close_pending_updates processed p :
  updates_in_order processed p -> updates_in_order processed (close_pending p).
Proof.
  intros (Heq & _ & _). destruct (close_pending_output p) as (syn & Hout & Hsyn%synthetic_not_system & _).
  unfold updates_in_order. cbn [close_pending p_held p_pending]. split_and!; [|constructor|done].
  change (mk_preparation _ _ _ _ _) with (close_pending p). rewrite app_nil_r, Hout.
  rewrite <-Heq, !filter_app_bool, (filter_none is_system syn) by done. done.
Qed.

Lemma snoc_updates processed m p :
  is_system m = false -> updates_in_order processed p -> updates_in_order (processed ++ [m]) p.
Proof.
  intros Hm (Heq & Hrest). split; [|done]. rewrite (filter_app_bool _ processed). cbn. by rewrite Hm, app_nil_r.
Qed.

Lemma closed_updates processed p :
  updates_in_order processed (close_pending p) ->
  List.filter is_system (p_output (close_pending p)) = List.filter is_system processed.
Proof. intros (<- & _ & _). cbn [close_pending p_held]. by rewrite app_nil_r. Qed.

Lemma prepare_message_updates target processed p m :
  updates_in_order processed p -> updates_in_order (processed ++ [m]) (prepare_message target p m).
Proof.
  intros Hp. destruct m as [id content|a|r|id u]; cbn [prepare_message].
  - apply close_pending_updates, closed_updates in Hp. split_and!; [|constructor|done].
    cbn [push_output p_output p_held]. change (p_held (close_pending p)) with (@nil AgentMessage).
    by rewrite app_nil_r, !filter_app_bool, Hp.
  - apply close_pending_updates in Hp. destruct (incomplete_turn a); [by apply snoc_updates|].
    apply closed_updates in Hp. split_and!; [|constructor|done]. cbn [p_output p_held].
    change (p_held (close_pending p)) with (@nil AgentMessage). by rewrite app_nil_r, !filter_app_bool, Hp.
  - destruct Hp as (Heq & Hrest). split; [|done]. cbn [p_output p_held]. rewrite !filter_app_bool in *. cbn.
    by rewrite !app_nil_r.
  - destruct Hp as (Heq & Hheld & Hpend). destruct (p_pending p) as [|call calls] eqn:Hpc; cbn [is_nil].
    + specialize (Hpend eq_refl). split_and!; cbn [push_output p_output p_held p_pending]; [|by rewrite Hpend|done].
      rewrite Hpend in *. rewrite !app_nil_r in *. rewrite !filter_app_bool, Heq. done.
    + split_and!; cbn [p_output p_held p_pending]; [|apply Forall_app; split; [done|by repeat constructor]|done].
      by rewrite app_assoc, filter_app_bool, Heq, filter_app_bool.
Qed.

Lemma foldl_snoc_invariant {A B} (I : list A -> B -> Prop) (f' : B -> A -> B) done_ b l :
  (forall done_ b x, I done_ b -> I (done_ ++ [x]) (f' b x)) -> I done_ b -> I (done_ ++ l) (foldl f' b l).
Proof.
  intros Hstep. revert done_ b. induction l as [|x l IH]; intros done_ b Hb; simpl; [by rewrite app_nil_r|].
  rewrite cons_middle, app_assoc. by apply IH, Hstep.
Qed.

Lemma prepared_updates t target :
  List.filter is_system (t_messages (prepared_for t target)) = List.filter is_system (t_messages t).
Proof.
  unfold prepared_for. cbn [t_messages].
  set (p0 := mk_preparation [] [] ∅ [] (largest_id (t_messages t))).
  assert (updates_in_order [] p0) as H0 by (split_and!; done || constructor).
  pose proof (foldl_snoc_invariant _ _ [] p0 (t_messages t) (prepare_message_updates target) H0) as Hp.
  by apply close_pending_updates, closed_updates in Hp.
Qed.

(** *** Every call is answered *)

(** The calls still open after a message, or [None] when a user, assistant or
    system message comes before the result of an open call. *)
Definition walk (open : option (list string)) (m : AgentMessage) : option (list string) :=
  match open with
  | None => None
  | Some open =>
      match m with
      | ToolResult r => Some (List.filter (fun id => negb (String.eqb id (tr_tool_call_id r))) open)
      | User _ _ | System _ _ => if is_nil open then Some [] else None
      | Assistant a => if is_nil open then Some (map tc_id (am_tool_calls a)) else None
      end
  end.
Definition calls_answered (messages : list AgentMessage) : bool :=
  match foldl walk (Some []) messages with Some [] => true | _ => false end.

Definition open_calls (p : Preparation) : list string :=
  List.filter (fun id => negb (mem id (p_answered p))) (map tc_id (p_pending p)).

Definition walked (p : Preparation) : Prop :=
  foldl walk (Some []) (p_output p) = Some (open_calls p) /\ Forall (fun m => is_system m = true) (p_held p).

Lemma walk_systems l : Forall (fun m => is_system m = true) l -> foldl walk (Some []) l = Some [].
Proof. induction 1 as [|m l Hm _ IH]; [done|]. by destruct m. Qed.

(** Results close the calls they name. *)
Lemma walk_synthetic calls open l :
  Forall (fun m => exists id call, m = synthetic_result id call /\ call ∈ (calls : list AgentToolCall)) l ->
  exists rest, foldl walk (Some open) l = Some rest /\
    forall id, id ∈ rest -> id ∈ open /\ forall n call, synthetic_result n call ∈ l -> tc_id call <> id.
Proof.
  intros Hl. revert open. induction Hl as [|m l (n & call & -> & _) _ IH]; intros open; cbn [foldl].
  { exists open. split; [done|]. intros id Hid. split; [done|]. by intros ? ? ?%not_elem_of_nil. }
  destruct (IH (List.filter (fun id => negb (String.eqb id (tc_id call))) open)) as (rest & Heq & Hrest).
  exists rest. split; [exact Heq|]. intros id Hid. destruct (Hrest id Hid) as [[Hin Hne]%filter_elem Hl].
  split; [done|]. intros n' call' [Hm|Hm]%elem_of_cons; [|by eapply Hl].
  injection Hm as _ -> _. apply negb_true_iff, String.eqb_neq in Hne. congruence.
Qed.

Lemma walk_close p :
  walked p -> foldl walk (Some []) (p_output (close_pending p)) = Some [].
Proof.
  intros [Hw Hheld]. destruct (close_pending_output p) as (syn & -> & Hsyn & Hall).
  rewrite foldl_app, Hw, foldl_app. destruct (walk_synthetic _ (open_calls p) syn Hsyn) as (rest & -> & Hrest).
  destruct rest as [|id rest]; [by apply walk_systems|]. exfalso.
  destruct (Hrest id) as [[(call & -> & Hin)%list_elem_of_fmap Hn]%filter_elem Hno]; [by left|].
  apply negb_true_iff, bool_decide_eq_false in Hn. destruct (Hall call Hin Hn) as [n Hcall].
  by apply (Hno n call Hcall).
Qed.

Lemma walked_close p : walked p -> walked (close_pending p).
Proof. intros Hp. split; [by apply walk_close|constructor]. Qed.

Lemma open_all calls : List.filter (fun id => negb (mem id (∅ : gset string))) (map tc_id calls) = map tc_id calls.
Proof. apply filter_all. intros id _. unfold mem. by rewrite bool_decide_false by apply not_elem_of_empty. Qed.

Lemma prepare_message_walked target p m : walked p -> walked (prepare_message target p m).
Proof.
  intros Hp. destruct m as [id content|a|r|id u]; cbn [prepare_message].
  - split; [|constructor]. cbn [push_output p_output]. rewrite foldl_app, walk_close by done. done.
  - destruct (incomplete_turn a); [by apply walked_close|]. split; [|constructor].
    cbn [p_output]. rewrite foldl_app, walk_close by done. unfold open_calls. cbn [p_answered p_pending].
    change (p_answered (close_pending p)) with (∅ : gset string). by rewrite open_all.
  - destruct Hp as [Hw Hheld]. split; [|done]. cbn [p_output]. rewrite foldl_app, Hw. cbn [foldl walk].
    f_equal. unfold open_calls. cbn [p_answered p_pending]. rewrite filter_filter_and. apply filter_ext_elem.
    intros id _. unfold mem. destruct (String.eqb_spec id (tr_tool_call_id r)) as [->|Hne].
    + rewrite andb_false_r. rewrite bool_decide_true; [done|]. apply elem_of_union. left. by apply elem_of_singleton.
    + rewrite andb_true_r. f_equal. apply bool_decide_ext. rewrite elem_of_union, elem_of_singleton. naive_solver.
  - destruct Hp as [Hw Hheld]. destruct (p_pending p) as [|call calls] eqn:Hpc; cbn [is_nil].
    + split; [|done]. cbn [push_output p_output]. rewrite foldl_app, Hw. unfold open_calls. cbn [push_output p_pending].
      by rewrite Hpc.
    + split; cbn [p_held p_output]; [by rewrite Hw; unfold open_calls; rewrite Hpc|].
      apply Forall_app. split; [done|]. by repeat constructor.
Qed.

Lemma foldl_invariant {A B} (I : B -> Prop) (f' : B -> A -> B) b l :
  (forall b x, I b -> I (f' b x)) -> I b -> I (foldl f' b l).
Proof. intros Hstep. revert b. induction l as [|x l IH]; intros b Hb; simpl; [done|]. by apply IH, Hstep. Qed.

Lemma prepared_calls t target : calls_answered (t_messages (prepared_for t target)) = true.
Proof.
  unfold calls_answered, prepared_for. cbn [t_messages]. rewrite walk_close; [done|].
  apply foldl_invariant; [intros; by apply prepare_message_walked|]. by split; [|constructor].
Qed.

(** *** What is kept and what is shown *)

(** A message as the target model may see it; incomplete turns are dropped. *)
Definition shown (target : option ModelDescriptor) (m : AgentMessage) : option AgentMessage :=
  match m with
  | Assistant a => if incomplete_turn a then None else Some (Assistant (replay_assistant target a))
  | System _ _ => None
  | _ => Some m
  end.

(** A synthetic error result for a call of a shown assistant message. *)
Definition synthetic_for (l : list AgentMessage) (m : AgentMessage) : Prop :=
  exists id call a, m = synthetic_result id call /\ call ∈ am_tool_calls a /\ Assistant a ∈ l.

Definition conversation_kept target (processed : list AgentMessage) (p : Preparation) : Prop :=
  omap (shown target) processed `sublist_of` List.filter (fun m => negb (is_system m)) (p_output p) /\
  (forall m, m ∈ p_output p ->
     m ∈ omap (shown target) processed \/ is_system m = true \/ synthetic_for (omap (shown target) processed) m) /\
  (forall call, call ∈ p_pending p ->
     exists a, call ∈ am_tool_calls a /\ Assistant a ∈ omap (shown target) processed) /\
  Forall (fun m => is_system m = true) (p_held p).

Lemma synthetic_for_mono l k m : (forall x, x ∈ l -> x ∈ k) -> synthetic_for l m -> synthetic_for k m.
Proof. intros Hsub (id & call & a & -> & Hc & Ha). exists id, call, a. eauto. Qed.

Lemma close_kept target processed p :
  conversation_kept target processed p -> conversation_kept target processed (close_pending p).
Proof.
  intros (Hsub & Hin & Hpend & Hheld).
  destruct (close_pending_output p) as (syn & Hout & Hsyn & _). unfold conversation_kept. rewrite Hout.
  split_and!.
  - rewrite filter_app_bool. by apply sublist_inserts_r.
  - intros m [Hm|[Hm|Hm]%elem_of_app]%elem_of_app; [by apply Hin| |].
    + rewrite Forall_forall in Hsyn. destruct (Hsyn m Hm) as (id & call & -> & Hc).
      destruct (Hpend call Hc) as (a & Ha & Hal). right. right. by exists id, call, a.
    + right. left. rewrite Forall_forall in Hheld. by apply Hheld.
  - by intros call ?%not_elem_of_nil.
  - constructor.
Qed.

Lemma shown_not_system target m x : shown target m = Some x -> is_system x = false.
Proof. destruct m as [| a| |]; cbn; [by intros [= <-]| |by intros [= <-]|done]. destruct (incomplete_turn a); [done|]. by intros [= <-]. Qed.

(** The messages a step adds to the output: the shown form of what it
    processed, or an update. *)
Definition step_output target (m : AgentMessage) (added : list AgentMessage) : Prop :=
  added = option_list (shown target m) \/ (is_system m = true /\ added = [m]).

Lemma shown_system target m : is_system m = true -> shown target m = None.
Proof. by destruct m. Qed.

Lemma step_conversation target m added :
  step_output target m added ->
  List.filter (fun m => negb (is_system m)) added = option_list (shown target m) /\
  forall x, x ∈ added -> x ∈ option_list (shown target m) \/ is_system x = true.
Proof.
  intros [->|[Hm ->]].
  - split; [|by left]. destruct (shown target m) as [x|] eqn:Hx; cbn; [|done]. by rewrite (shown_not_system _ _ _ Hx).
  - rewrite (shown_system target m Hm). cbn. rewrite Hm. split; [done|]. intros x ->%list_elem_of_singleton. by right.
Qed.

(** A step that adds the shown form of its message. *)
Lemma kept_snoc target processed p p' m added :
  conversation_kept target processed p -> step_output target m added -> p_output p' = p_output p ++ added ->
  (forall call, call ∈ p_pending p' ->
     call ∈ p_pending p \/ exists a, call ∈ am_tool_calls a /\ shown target m = Some (Assistant a)) ->
  Forall (fun m => is_system m = true) (p_held p') ->
  conversation_kept target (processed ++ [m]) p'.
Proof.
  intros (Hsub & Hin & Hpend & _) [Hconv Hadded]%step_conversation Hout Hpend' Hheld.
  unfold conversation_kept. rewrite omap_app, Hout.
  assert (omap (shown target) [m] = option_list (shown target m)) as -> by (cbn; by destruct (shown target m)).
  assert (forall x, x ∈ omap (shown target) processed -> x ∈ omap (shown target) processed ++ option_list (shown target m)) as Hmono.
  { intros x Hx. apply elem_of_app. by left. }
  split_and!; [| |intros call [Hc|(a & Hc & Ha)]%Hpend'|done].
  - rewrite filter_app_bool, Hconv. by apply sublist_app.
  - intros x [Hx|Hx]%elem_of_app.
    + destruct (Hin x Hx) as [H1|[H1|H1]]; [left; by apply Hmono|by right; left|].
      right. right. by eapply synthetic_for_mono.
    + destruct (Hadded x Hx) as [H1|H1]; [left; apply elem_of_app; by right|by right; left].
  - destruct (Hpend call Hc) as (a & Ha & Hal). exists a. split; [done|]. by apply Hmono.
  - exists a. split; [done|]. apply elem_of_app. right. rewrite Ha. by left.
Qed.

Lemma prepare_message_kept target processed p m :
  conversation_kept target processed p -> conversation_kept target (processed ++ [m]) (prepare_message target p m).
Proof.
  intros Hp. pose proof (close_kept _ _ _ Hp) as Hc. pose proof Hp as (_ & _ & _ & Hheld).
  destruct m as [id content|a|r|id u]; cbn [prepare_message].
  - eapply kept_snoc; [exact Hc|by left|done|by left|constructor].
  - destruct (incomplete_turn a) eqn:Ha.
    + eapply (kept_snoc _ _ _ _ _ []); [exact Hc|left; cbn; by rewrite Ha|by rewrite app_nil_r|by left|constructor].
    + eapply kept_snoc; [exact Hc|left; cbn; by rewrite Ha|done| |constructor].
      intros call Hcall. right. exists (replay_assistant target a). cbn. by rewrite Ha.
  - eapply kept_snoc; [exact Hp|by left|done|by left|done].
  - destruct (is_nil (p_pending p)).
    + eapply kept_snoc; [exact Hp|by right|done|by left|done].
    + eapply (kept_snoc _ _ _ _ _ []); [exact Hp|by left|by rewrite app_nil_r|by left|].
      apply Forall_app. split; [done|]. by repeat constructor.
Qed.

Lemma prepared_kept t target :
  omap (shown target) (t_messages t)
    `sublist_of` List.filter (fun m => negb (is_system m)) (t_messages (prepared_for t target)) /\
  forall m, m ∈ t_messages (prepared_for t target) ->
    m ∈ omap (shown target) (t_messages t) \/ is_system m = true \/
    synthetic_for (omap (shown target) (t_messages t)) m.
Proof.
  unfold prepared_for. cbn [t_messages]. set (p0 := mk_preparation [] [] ∅ [] (largest_id (t_messages t))).
  assert (conversation_kept target [] p0) as H0.
  { split_and!; [done|by intros m ?%not_elem_of_nil|by intros c ?%not_elem_of_nil|constructor]. }
  pose proof (foldl_snoc_invariant _ _ [] p0 (t_messages t) (prepare_message_kept target) H0) as Hp.
  apply close_kept in Hp as (Hsub & Hin & _). by split.
Qed.

(** Blocks of a response another model produced are answer text only. *)
Lemma replay_foreign target a block :
  same_physical_model (am_origin a) target = false -> block ∈ am_content (replay_assistant target a) ->
  exists text, block = Text text.
Proof.
  cbn. intros -> (b & Hb & Hblock)%list_elem_of_omap. destruct b as [text|text signature|data]; cbn in Hblock; [|done..].
  destruct (str_is_empty text); [done|]. injection Hblock as <-. eauto.
Qed.

Lemma shown_assistant target (l : list AgentMessage) a :
  Assistant a ∈ omap (shown target) l ->
  exists b, Assistant b ∈ l /\ a = replay_assistant target b /\ incomplete_turn a = false.
Proof.
  intros ([| b| |] & Hb & Hs)%list_elem_of_omap; cbn in Hs; try done. destruct (incomplete_turn b) eqn:Hi; [done|].
  injection Hs as <-. by exists b.
Qed.
