(* ===== verification/TranscriptJson.v ===== *)
(** * tea-core: canonical JSON of transcripts
    ([canonical_json], [layout_context], [configuration_update_json] and its
    decoder in [crates/tea-core/src/transcript.rs])

    The theorems of transcripts are at the end. *)

From stdpp Require Import base gmap sets list strings.
From S2P Require Import Prelude RustStr Json Ids Model SessionErrors WireDecode Configuration.
From S2P Require Import Messages Transcript TranscriptProofs.

Local Open Scope N_scope.

(** [tool_declaration_json]. *)
Definition tool_declaration_json (tool : ToolDeclaration) : JsonValue :=
  json_object [("name", JsonString (td_name tool)); ("description", JsonString (td_description tool));
               ("schema", td_schema tool)].

(** [configuration_update_json]. *)
Definition section_change_json (change : SectionChange) : JsonValue :=
  json_object [("id", JsonString (ch_id change));
               ("content", match ch_content change with Some content => JsonString content | None => JsonNull end)].
Definition configuration_update_json (u : ConfigurationUpdate) : JsonValue :=
  json_object [("sections", JsonArray (map section_change_json (cu_sections u)));
               ("tools_added", JsonArray (map tool_declaration_json (cu_tools_added u)));
               ("tools_removed", JsonArray (map JsonString (cu_tools_removed u)))].

(** [Display] of [ConfigurationError]. *)
Definition configuration_error_display (e : ConfigurationError) : Message :=
  match e with
  | InvalidSectionId id => [Lit "invalid system prompt section identity "; Dbg id]
  | DuplicateSection id => [Lit "duplicate system prompt section "; Dbg id]
  | EmptyToolName => [Lit "configuration names an empty tool"]
  | DuplicateTool name => [Lit "configuration names tool "; Dbg name; Lit " twice"]
  end.

(** The closures [array] and [string] of [configuration_update_from_json]. *)
Definition update_array (object : list (string * JsonValue)) (field : string) : Outcome Message (list JsonValue) :=
  match btree_get field object ≫= json_as_array with
  | Some values => Ok values
  | None => Err [Lit "configuration update field "; Dbg field; Lit " must be an array"]
  end.
Definition update_string (value : JsonValue) (field : string) : Outcome Message string :=
  match json_get field value ≫= json_as_str with
  | Some text => Ok text
  | None => Err [Lit "configuration update field "; Dbg field; Lit " must be a string"]
  end.

Definition section_change_from_json (change : JsonValue) : Outcome Message SectionChange :=
  let? id := update_string change "id" in
  let? content := match json_get "content" change with
                  | None | Some JsonNull => Ok None
                  | Some _ => let? content := update_string change "content" in Ok (Some content)
                  end in
  Ok (mk_change id content).
Definition tool_declaration_from_json (tool : JsonValue) : Outcome Message ToolDeclaration :=
  let? name := update_string tool "name" in
  let? description := update_string tool "description" in
  let? schema := ok_or (json_get "schema" tool) [Lit "tool declaration has no schema"] in
  Ok (mk_tool name description schema).
Definition removed_name_from_json (name : JsonValue) : Outcome Message string :=
  ok_or (json_as_str name) [Lit "removed tool name must be a string"].

(** [configuration_update_from_json]. *)
Definition configuration_update_from_json (value : JsonValue) : Outcome Message ConfigurationUpdate :=
  let? object := ok_or (json_as_object value) [Lit "configuration update must be an object"] in
  let? sections := update_array object "sections" in
  let? sections := omap_list section_change_from_json sections in
  let? tools_added := update_array object "tools_added" in
  let? tools_added := omap_list tool_declaration_from_json tools_added in
  let? tools_removed := update_array object "tools_removed" in
  let? tools_removed := omap_list removed_name_from_json tools_removed in
  let update := mk_update sections tools_added tools_removed in
  check? map_err configuration_error_display (update_validate update) in
  Ok update.

(** [Debug] of [StopReason]. *)
Definition stop_reason_debug (r : StopReason) : string :=
  match r with
  | Stop => "Stop" | ToolUse => "ToolUse" | Length => "Length"
  | Aborted => "Aborted" | Cancelled => "Cancelled" | Error => "Error"
  end.

Section canonical.
Context `{Blake3} `{Miniserde}.

(** [opaque_digest]. *)
Definition opaque_digest (payload : string) : JsonValue :=
  JsonString (digest_to_hex (digest_from_bytes (bytes_of payload))).

(** [canonical_block]. *)
Definition canonical_block (block : AssistantContent) : JsonValue :=
  match block with
  | Text text => json_object [("type", JsonString "text"); ("text", JsonString text)]
  | Thinking text signature =>
      json_object [("type", JsonString "thinking"); ("text", JsonString text);
        ("signature_digest", match signature with Some s => opaque_digest (oi_payload s) | None => JsonNull end)]
  | RedactedThinking data =>
      json_object [("type", JsonString "redacted_thinking"); ("data_digest", opaque_digest (oi_payload data))]
  end.

(** [canonical_message]. *)
Definition canonical_call (call : AgentToolCall) : JsonValue :=
  json_object [("id", JsonString (tc_id call)); ("name", JsonString (tc_name call));
               ("arguments", JsonString (tc_arguments call))].
Definition canonical_opaque (item : OpaqueItem) : JsonValue :=
  json_object [("provider", JsonString (oi_provider item)); ("kind", JsonString (oi_kind item));
               ("payload_digest", opaque_digest (oi_payload item))].
Definition canonical_message (m : AgentMessage) : JsonValue :=
  match m with
  | User _ content => json_object [("role", JsonString "user"); ("content", JsonString content)]
  | Assistant a =>
      json_object [("role", JsonString "assistant");
        ("content", JsonArray (map canonical_block (am_content a)));
        ("tool_calls", JsonArray (map canonical_call (am_tool_calls a)));
        ("stop_reason", match am_stop_reason a with Some r => JsonString (stop_reason_debug r) | None => JsonNull end);
        ("opaque_context", JsonArray (map canonical_opaque (am_opaque_context a)))]
  | ToolResult r =>
      json_object [("role", JsonString "tool_result"); ("tool_call_id", JsonString (tr_tool_call_id r));
        ("tool_name", JsonString (tr_tool_name r)); ("content", JsonString (tr_content r));
        ("details", match tr_details r with Some details => JsonString details | None => JsonNull end);
        ("is_error", JsonBool (tr_is_error r))]
  | System _ update =>
      json_object [("role", JsonString "system"); ("update", configuration_update_json update)]
  end.

(** [Transcript::canonical_json]. *)
Definition canonical_json (t : Transcript) : JsonValue :=
  json_object [("messages", JsonArray (map canonical_message (t_messages t)));
               ("host_notes", JsonArray (map JsonString (t_host_notes t)))].

(** [Transcript::layout_context]; [expect] stops the program on an encoding error. *)
Definition expect_json {E} (value : JsonValue) : Outcome E string :=
  match to_json_string value with
  | Ok text => Ok text
  | _ => Panic "canonical transcript JSON is always encodable"
  end.
Definition push_line {E} (output : string) (value : JsonValue) : Outcome E string :=
  let? text := expect_json value in Ok (output +:+ text +:+ newline).
Definition layout_context {E} (t : Transcript) (projection : ConfigurationProjection) : Outcome E string :=
  let resolved := resolve t projection in
  let? output := ofold (fun output m => push_line output (canonical_message m)) EmptyString (rt_messages resolved) in
  ofold (fun output note => push_line output (json_object [("host_note", JsonString note)])) output
    (rt_host_notes resolved).

(** [ConfigurationUpdate::approximate_bytes]. *)
Definition approximate_bytes (u : ConfigurationUpdate) : N :=
  foldl N.add 0 (map (fun change => utf8_len (ch_id change)
                        + match ch_content change with Some content => utf8_len content | None => 0 end) (cu_sections u))
  + foldl N.add 0 (map (fun tool => utf8_len (td_name tool) + utf8_len (td_description tool)
                        + match to_json_string (td_schema tool) with Ok schema => utf8_len schema | _ => 0 end)
                     (cu_tools_added u))
  + foldl N.add 0 (map utf8_len (cu_tools_removed u)).
End canonical.

(** ** The update codec *)

Lemma decode_all_encoded {A B E} (f' : A -> B) (g : B -> Outcome E A) l :
  (forall x, g (f' x) = Ok x) -> omap_list g (map f' l) = Ok l.
Proof. intros Hg. induction l as [|x l IH]; simpl; [done|]. by rewrite Hg, IH. Qed.

Lemma section_change_decodes change : section_change_from_json (section_change_json change) = Ok change.
Proof. by destruct change as [id [content|]]. Qed.
Lemma tool_declaration_decodes tool : tool_declaration_from_json (tool_declaration_json tool) = Ok tool.
Proof. by destruct tool. Qed.

Lemma update_decodes u :
  update_validate u = Ok tt -> configuration_update_from_json (configuration_update_json u) = Ok u.
Proof.
  intros Hv. destruct u as [sections added removed].
  unfold configuration_update_from_json, configuration_update_json, json_object.
  cbn [cu_sections cu_tools_added cu_tools_removed json_as_object ok_or obind].
  set (object := btree_collect _).
  assert (update_array object "sections" = Ok (map section_change_json sections)) as -> by done.
  assert (update_array object "tools_added" = Ok (map tool_declaration_json added)) as -> by done.
  assert (update_array object "tools_removed" = Ok (map JsonString removed)) as -> by done.
  cbn [obind]. rewrite (decode_all_encoded section_change_json) by apply section_change_decodes.
  cbn [obind]. rewrite (decode_all_encoded tool_declaration_json) by apply tool_declaration_decodes.
  cbn [obind]. rewrite (decode_all_encoded JsonString) by done. cbn [obind]. by rewrite Hv.
Qed.

(** Decoding accepts only valid updates. *)
Lemma update_decoded_valid value u : configuration_update_from_json value = Ok u -> update_validate u = Ok tt.
Proof.
  unfold configuration_update_from_json. intros Hu. outcome_inv.
  by destruct (update_validate _) as [[]| |].
Qed.

(** ** Encodability *)

Lemma btree_insert_finite k v (l : list (string * JsonValue)) :
  json_finite v = true -> forallb (fun kv => json_finite kv.2) l = true ->
  forallb (fun kv => json_finite kv.2) (btree_insert k v l) = true.
Proof.
  intros Hv. induction l as [|[k' v'] l IH]; simpl; [by rewrite Hv|].
  intros [Hv' Hl]%andb_true_iff. destruct (String.compare k k'); simpl; rewrite ?Hv, ?Hv', ?Hl; simpl; auto.
Qed.

Lemma json_object_finite l :
  Forall (fun kv => json_finite kv.2 = true) l -> json_finite (json_object l) = true.
Proof.
  intros Hl. unfold json_object, btree_collect. cbn [json_finite].
  assert (forallb (fun kv : string * JsonValue => json_finite kv.2) [] = true) as Hacc by done.
  revert Hacc. generalize (@nil (string * JsonValue)). induction Hl as [|kv l Hkv _ IH]; intros acc Hacc; simpl; [done|].
  apply IH. by apply btree_insert_finite.
Qed.

Lemma json_array_finite {A} (f' : A -> JsonValue) l :
  Forall (fun x => json_finite (f' x) = true) l -> json_finite (JsonArray (map f' l)) = true.
Proof. cbn [json_finite]. induction 1 as [|x l Hx _ IH]; simpl; [done|]. by rewrite Hx. Qed.

Lemma update_json_finite u :
  Forall tool_finite (cu_tools_added u) -> json_finite (configuration_update_json u) = true.
Proof.
  intros Ht. unfold configuration_update_json. apply json_object_finite.
  repeat (constructor; cbn [snd]); apply json_array_finite.
  - apply Forall_forall. intros [id [content|]] _; done.
  - eapply Forall_impl; [exact Ht|]. intros t Hfin. apply json_object_finite. by repeat constructor.
  - by apply Forall_forall.
Qed.

Lemma append_nil_r s : s +:+ EmptyString = s.
Proof. induction s as [|a s IH]; [done|]. exact (f_equal (String a) IH). Qed.
Lemma append_assoc s t u : (s +:+ t) +:+ u = s +:+ (t +:+ u).
Proof. induction s as [|a s IH]; [done|]. exact (f_equal (String a) IH). Qed.

Section encodable.
Context `{Blake3} `{Miniserde}.

(** The schemas a message carries have finite numbers. *)
Definition message_finite (m : AgentMessage) : Prop :=
  match m with System _ u => Forall tool_finite (cu_tools_added u) | _ => True end.

Lemma canonical_message_finite m : message_finite m -> json_finite (canonical_message m) = true.
Proof.
  destruct m as [id content|a|r|id u]; cbn [message_finite canonical_message]; intros Hm; apply json_object_finite;
    repeat (constructor; cbn [snd]); try done.
  - apply json_array_finite, Forall_forall. by intros [text|text [s|]|data] _.
  - by apply json_array_finite, Forall_forall.
  - by destruct (am_stop_reason a).
  - by apply json_array_finite, Forall_forall.
  - by destruct (tr_details r).
  - by apply update_json_finite.
Qed.

Lemma expect_json_finite {E} v : json_finite v = true -> exists text, @expect_json _ E v = Ok text.
Proof.
  unfold expect_json, to_json_string. rewrite <-to_miniserde_ok_finite.
  destruct (to_miniserde v); simpl; [eauto|done..].
Qed.

Lemma push_lines_total {E A} (f' : A -> JsonValue) l output :
  Forall (fun x => json_finite (f' x) = true) l ->
  exists text, ofold (fun output x => @push_line _ E output (f' x)) output l = Ok (output +:+ text).
Proof.
  intros Hl. revert output. induction Hl as [|x l Hx _ IH]; intros output; cbn [ofold].
  { exists EmptyString. by rewrite append_nil_r. }
  destruct (@expect_json_finite E _ Hx) as [line Hline]. unfold push_line at 1. rewrite Hline. cbn [obind].
  destruct (IH (output +:+ line +:+ newline)) as [text ->]. exists (line +:+ newline +:+ text).
  by rewrite !append_assoc.
Qed.
End encodable.

(** The update computed from two configurations is valid and leads exactly from one to the
    other: every section gets its desired text, unchanged tools keep their place and the others
    are appended, and a second comparison asks for no further update. *)
Theorem configuration_diff_exact c d u :
  unique c -> unique d -> admissible_names c -> admissible_names d -> Forall tool_finite (ec_tools d) ->
  configuration_diff c d = Some u ->
  update_validate u = Ok tt /\
  unique (apply_update c u) /\
  (forall id, content_at id (ec_sections (apply_update c u)) = content_at id (ec_sections d)) /\
  ec_tools (apply_update c u) = kept_tools (ec_tools c) (ec_tools d) ++ added_tools (ec_tools c) (ec_tools d) /\
  same_content (apply_update c u) d = true /\ configuration_diff (apply_update c u) d = None.
Proof.
  intros Hc Hd Hcn Hdn Hfin Hu. pose proof (diff_applied c d u Hc Hd Hfin Hu) as Hsame.
  split_and!; [by eapply (diff_valid c d)|by apply apply_update_unique| | |done|by unfold configuration_diff; rewrite Hsame].
  - apply configuration_diff_Some in Hu as ->. intros id. destruct Hc, Hd. by apply apply_changed_sections.
  - apply configuration_diff_Some in Hu as ->. destruct Hc, Hd. by apply apply_tool_changes.
Qed.

Definition schema_of (name : string) : JsonValue := json_object [("type", JsonString "object"); ("title", JsonString name)].
Definition read_tool : ToolDeclaration := mk_tool "read" "Read a file" (schema_of "read").
Definition read_tool_v2 : ToolDeclaration := mk_tool "read" "Read a range" (schema_of "read").
Definition write_tool : ToolDeclaration := mk_tool "write" "Write a file" (schema_of "write").
Definition first_configuration : EffectiveConfiguration :=
  mk_configuration [mk_section "role" "You write code."; mk_section "mode" "plan"] [read_tool; write_tool].
Definition next_configuration : EffectiveConfiguration :=
  mk_configuration [mk_section "mode" "build"; mk_section "role" "You write code."; mk_section "extra" "x"]
    [read_tool_v2].

Definition change_update : ConfigurationUpdate :=
  mk_update [mk_change "mode" (Some "build"); mk_change "extra" (Some "x")] [read_tool_v2] ["read"; "write"].

Lemma configurations_unique : unique first_configuration /\ unique next_configuration.
Proof. split; split; apply (bool_decide_unpack _); vm_compute; exact I. Qed.

Definition names_test (c : EffectiveConfiguration) : bool :=
  forallb (fun s => is_ok (validate_section_id (ps_id s))) (ec_sections c) &&
  forallb (fun t => negb (str_is_empty (td_name t))) (ec_tools c).
Lemma names_test_sound c : names_test c = true -> admissible_names c.
Proof.
  unfold names_test. rewrite andb_true_iff, !forallb_elem. intros [Hs Ht]. split.
  - intros s Hin. specialize (Hs s Hin). by destruct (validate_section_id (ps_id s)) as [[]| |].
  - intros t Hin. apply negb_true_iff. by apply Ht.
Qed.

Lemma configuration_diff_exact_witness :
  configuration_diff first_configuration next_configuration = Some change_update /\
  same_content (apply_update first_configuration change_update) next_configuration = true.
Proof.
  assert (configuration_diff first_configuration next_configuration = Some change_update) as Hu
    by (vm_compute; reflexivity).
  split; [exact Hu|].
  apply (configuration_diff_exact first_configuration next_configuration change_update
    (proj1 configurations_unique) (proj2 configurations_unique)
    (names_test_sound first_configuration eq_refl) (names_test_sound next_configuration eq_refl)); [|exact Hu].
  repeat constructor.
Defined.

(** A configuration with unique, valid names is recovered from its initial system message:
    the update decodes from its canonical JSON unchanged, and replaying it gives the
    configuration back. *)
Theorem initial_update_roundtrip c :
  unique c -> admissible_names c ->
  configuration_update_from_json (configuration_update_json (as_initial_update c)) = Ok (as_initial_update c) /\
  apply_update configuration_empty (as_initial_update c) = c.
Proof.
  intros Hc [Hs Ht]. split; [|by apply initial_update_applied]. destruct Hc as [Hsu Htu].
  assert (map ch_id (cu_sections (as_initial_update c)) = map ps_id (ec_sections c)) as Hids by apply map_map.
  apply update_decodes, update_validate_ok; rewrite ?Hids; [done|done|constructor| |].
  - intros id (s & -> & Hin)%list_elem_of_fmap. by apply Hs.
  - cbn. rewrite app_nil_r. intros n (t & -> & Hin)%list_elem_of_fmap. by apply Ht.
Qed.

Lemma initial_update_roundtrip_witness :
  configuration_update_from_json (configuration_update_json (as_initial_update first_configuration))
    = Ok (as_initial_update first_configuration).
Proof.
  apply (initial_update_roundtrip first_configuration (proj1 configurations_unique)
    (names_test_sound first_configuration eq_refl)).
Defined.

(** Both ways of carrying configuration to a transport agree: updates in place and the
    collapsed form end in the same configuration and carry the same conversation, and section
    identities and tool names of that configuration are unique. *)
Theorem projections_agree t :
  resolved_configuration (resolve t InPlace) = current_configuration t /\
  resolved_configuration (resolve t Collapsed) = current_configuration t /\
  List.filter (fun m => negb (is_system m)) (rt_messages (resolve t InPlace)) = rt_messages (resolve t Collapsed) /\
  List.filter is_system (rt_messages (resolve t Collapsed)) = [] /\
  unique (current_configuration t).
Proof.
  split_and!; [apply resolved_in_place|apply resolved_collapsed|apply conversation_without_first| |apply replay_unique].
  cbn. apply filter_none, Forall_forall. intros m [_ Hm]%filter_elem. by apply negb_true_iff.
Qed.

Section layout.
Context `{Blake3} `{Miniserde}.

(** With updates in place, messages added to a configured transcript leave the leading
    configuration and the request text sent so far unchanged: the new text extends the old one,
    and encoding it never panics. *)
Theorem in_place_update_extends t more :
  updates (t_messages t) <> [] -> t_host_notes t = [] -> Forall message_finite (t_messages t ++ more) ->
  let t' := mk_transcript (t_messages t ++ more) [] in
  rt_leading (resolve t' InPlace) = rt_leading (resolve t InPlace) /\
  rt_messages (resolve t' InPlace) = rt_messages (resolve t InPlace) ++ more /\
  exists before after,
    @layout_context _ _ Empty_set t InPlace = Ok before /\
    @layout_context _ _ Empty_set t' InPlace = Ok (before +:+ after).
Proof.
  intros Hup Hnotes Hfin t'.
  assert (rt_messages (resolve t' InPlace) = rt_messages (resolve t InPlace) ++ more) as Hmsgs.
  { cbn. by apply without_first_app. }
  assert (Forall (fun m => json_finite (canonical_message m) = true) (rt_messages (resolve t InPlace) ++ more)) as Hall.
  { apply Forall_forall. intros m Hm. apply canonical_message_finite. rewrite Forall_forall in Hfin. apply Hfin.
    apply elem_of_app in Hm as [Hm|Hm]; apply elem_of_app; [left|by right]. cbn in Hm.
    revert Hm. clear. induction (t_messages t) as [|x l IH]; cbn; [done|].
    destruct (is_system x); [by right|]. intros [->|Hm]%elem_of_cons; [by left|right; by apply IH]. }
  split_and!; [|done|].
  - cbn. unfold initial_configuration. cbn. rewrite updates_app. by destruct (updates (t_messages t)).
  - apply Forall_app in Hall as [Hold Hnew].
    assert (rt_host_notes (resolve t InPlace) = []) as Hn by done.
    assert (rt_host_notes (resolve t' InPlace) = []) as Hn' by done.
    unfold layout_context. rewrite Hmsgs, Hn, Hn'.
    destruct (push_lines_total (E:=Empty_set) canonical_message _ EmptyString Hold) as [before Hb].
    destruct (push_lines_total (E:=Empty_set) canonical_message _ before Hnew) as [after Ha].
    change (EmptyString +:+ before) with before in Hb.
    exists before, after. rewrite ofold_app, Hb. cbn [obind]. by rewrite Ha.
Qed.
End layout.

Definition conversation : list AgentMessage :=
  [System 1 (as_initial_update first_configuration); User 2 "hello"].

Section concrete.
#[local] Instance zero_hash : Blake3 := {| blake3_hash _ := digest_zero |}.
#[local] Instance no_codec : Miniserde := {| mini_to_string _ := "json"; mini_from_str _ := None |}.

Lemma in_place_update_extends_witness :
  exists before after,
    @layout_context _ _ Empty_set (mk_transcript conversation []) InPlace = Ok before /\
    @layout_context _ _ Empty_set (mk_transcript (conversation ++ [System 3 change_update]) []) InPlace
      = Ok (before +:+ after).
Proof.
  apply (in_place_update_extends (mk_transcript conversation []) [System 3 change_update]).
  - done.
  - done.
  - repeat constructor.
Defined.
End concrete.

(** In a transcript prepared for replay every tool call is answered by a result before the
    next user, assistant or system message and before the end, whatever the original lacked;
    configuration updates keep their order, so the configuration in force is unchanged. *)
Theorem prepared_calls_answered t target :
  calls_answered (t_messages (prepared_for t target)) = true /\
  List.filter is_system (t_messages (prepared_for t target)) = List.filter is_system (t_messages t) /\
  current_configuration (prepared_for t target) = current_configuration t.
Proof.
  split_and!; [apply prepared_calls|apply prepared_updates|].
  rewrite !current_configuration_updates, <-(updates_filter (t_messages (prepared_for t target))).
  by rewrite prepared_updates, updates_filter.
Qed.

(** Preparing a transcript keeps every complete message in order and adds only
    configuration updates and error results for calls it kept; no errored or aborted turn
    survives, and a response of another physical model is shown as answer text only, without
    reasoning or private replay material. *)
Theorem prepared_conversation t target :
  omap (shown target) (t_messages t)
    `sublist_of` List.filter (fun m => negb (is_system m)) (t_messages (prepared_for t target)) /\
  (forall m, m ∈ t_messages (prepared_for t target) ->
     m ∈ omap (shown target) (t_messages t) \/ is_system m = true \/
     synthetic_for (omap (shown target) (t_messages t)) m) /\
  (forall a block, Assistant a ∈ t_messages (prepared_for t target) -> incomplete_turn a = false /\
     (same_physical_model (am_origin a) target = false -> block ∈ am_content a -> exists text, block = Text text)).
Proof.
  destruct (prepared_kept t target) as [Hsub Hin]. split_and!; [done|done|].
  intros a block [(b & _ & -> & Hi)%shown_assistant|[Hs|(? & ? & ? & Hs & _)]]%Hin; [|done..].
  split; [done|]. apply (replay_foreign target b).
Qed.

(** An additive history of tools is replayed exactly by a transport that can only add them. *)
Theorem additive_history_tools t :
  has_non_additive_tool_changes t = false ->
  transcript_tools t = declared_tools t /\ has_tool_redefinitions t = false.
Proof. intros (-> & -> & ->)%additive_history. done. Qed.

(** ** Opaque provider context *)

Lemma refuse_if_iff {E F A B} c (e : E) (e' : F) (k : Outcome E A) (k' : Outcome F B) a b :
  (k = Ok a <-> k' = Ok b) ->
  obind (refuse_if c e) (fun _ => k) = Ok a <-> obind (if c then Err e' else Ok tt) (fun _ => k') = Ok b.
Proof. by destruct c; cbn. Qed.

Lemma item_id_iff item_id :
  match item_id with
  | None => Ok tt
  | Some item_id =>
      check? refuse_if (str_is_empty item_id) EmptyItemId in
      check? refuse_if (MAX_OPAQUE_ITEM_ID_BYTES <? utf8_len item_id)%N
               (ItemIdTooLong MAX_OPAQUE_ITEM_ID_BYTES (utf8_len item_id)) in
      refuse_if (has_control item_id) UnsafeItemId
  end = Ok tt <-> check_item_id item_id = Ok tt.
Proof.
  destruct item_id as [item|]; [|done]. unfold check_item_id, fail_if.
  change (byte_len item) with (utf8_len item).
  change MAX_OPAQUE_PROVIDER_CONTEXT_ITEM_ID_BYTES with MAX_OPAQUE_ITEM_ID_BYTES.
  by destruct (str_is_empty item), (MAX_OPAQUE_ITEM_ID_BYTES <? utf8_len item)%N, (has_control item).
Qed.

Lemma obind_iff {E F A B} (m : Outcome E unit) (m' : Outcome F unit) (k : Outcome E A) (k' : Outcome F B) a b :
  (m = Ok tt <-> m' = Ok tt) -> (k = Ok a <-> k' = Ok b) ->
  obind m (fun _ => k) = Ok a <-> obind m' (fun _ => k') = Ok b.
Proof. destruct m as [[]| |], m' as [[]| |]; cbn; naive_solver. Qed.

(** The runtime's constructor for provider-private items and the session file decoder
    accept exactly the same items, so an item built by the runtime can always be read back. *)
Theorem opaque_item_boundary provider kind item_id payload :
  opaque_item_new provider kind item_id payload = Ok (mk_opaque_item provider kind item_id payload) <->
  check_opaque_context (mk_opaque_context provider kind item_id payload) = Ok tt.
Proof.
  unfold opaque_item_new, check_opaque_context. unfold fail_if.
  cbn [oc_provider oc_kind oc_item_id oc_payload]. do 6 apply refuse_if_iff.
  apply obind_iff; [apply item_id_iff|]. apply refuse_if_iff.
  change (byte_len payload) with (utf8_len payload). change MAX_OPAQUE_PROVIDER_CONTEXT_BYTES with MAX_OPAQUE_BYTES.
  by destruct (MAX_OPAQUE_BYTES <? utf8_len payload)%N.
Qed.

(** An item the constructor returns is the one it was given. *)
Theorem opaque_item_new_fields provider kind item_id payload item :
  opaque_item_new provider kind item_id payload = Ok item -> item = mk_opaque_item provider kind item_id payload.
Proof. unfold opaque_item_new. intros Hi. by outcome_inv. Qed.
