(* ===== verification/SchemaValidation.v ===== *)
(** * tea-core: JSON Schema validation of tool arguments
    ([crates/tea-core/src/schema_validation.rs])

    A schema is checked before it is used; checking a value collects every
    failure with its path.  The recursion descends into the schema, so the
    height of the schema bounds it; running out of it would be a panic, which
    the theorems exclude together with the [expect] of the source. *)

From Stdlib Require Import SpecFloat.
From stdpp Require Import base gmap sets list strings pretty.
From S2P Require Import Prelude RustStr Json.

Local Open Scope N_scope.

(** ** Numbers as [f64] *)

(** The value of a bit pattern. *)
Definition f64_value (x : F64) : spec_float :=
  let negative := 9223372036854775808 <=? f64_bits x in
  let e := f64_exponent x in
  let f := f64_fraction x in
  if e =? 2047 then (if f =? 0 then S754_infinity negative else S754_nan)
  else if e =? 0 then
    match f with 0 => S754_zero negative | Npos f => S754_finite negative f (-1074) end
  else match f + 4503599627370496 with
       | 0 => S754_nan
       | Npos m => S754_finite negative m (Z.of_N e - 1075)
       end.

(** [value as f64] of an integer: rounded to nearest. *)
Definition f64_of_integer (z : Z) : spec_float := binary_normalize 53 1024 z 0 false.

(** [JsonValue::as_f64]. *)
Definition json_as_f64 (v : JsonValue) : option spec_float :=
  match v with
  | JsonNum (Signed z) => Some (f64_of_integer z)
  | JsonNum (Unsigned n) => Some (f64_of_integer (Z.of_N n))
  | JsonNum (Float x) => Some (f64_value x)
  | _ => None
  end.

(** ** Failures *)

(** The parts of a message: text, a printed integer or a printed [f64]. *)
Inductive MessagePart :=
| Words (text : string)
| Quoted (text : string)
| Integer (value : N)
| Real (value : spec_float).

Record ValidationFailure := mk_failure_at {
  vf_path : string;
  vf_message : list MessagePart;
}.

Inductive ArgumentsMessage :=
| SchemaInvalid (message : list MessagePart)
| NotJson
| CannotRender (error : JsonError)
| ValidationFailed (failures : list ValidationFailure) (received : string).

(** [ToolError::InvalidArguments] of [error.rs], the only error of this file. *)
Inductive ArgumentsError := InvalidArguments (tool : string) (message : ArgumentsMessage).

Definition child_path (path child : string) : string :=
  if str_is_empty path then child else path +:+ "." +:+ child.
Definition display_path (path : string) : string := if str_is_empty path then "root" else path.

Definition failure_at (path : string) (message : list MessagePart) : list ValidationFailure :=
  [mk_failure_at (display_path path) message].
Definition fail_unless (valid : bool) (path : string) (message : list MessagePart) : list ValidationFailure :=
  if valid then [] else failure_at path message.

(** [type_matches], [supported_type]. *)
Definition type_matches (type_name : string) (value : JsonValue) : bool :=
  if String.eqb type_name "null" then json_is_null value
  else if String.eqb type_name "boolean" then match value with JsonBool _ => true | _ => false end
  else if String.eqb type_name "integer" then
    match value with JsonNum (Signed _) | JsonNum (Unsigned _) => true | _ => false end
  else if String.eqb type_name "number" then match value with JsonNum _ => true | _ => false end
  else if String.eqb type_name "string" then match value with JsonString _ => true | _ => false end
  else if String.eqb type_name "array" then match value with JsonArray _ => true | _ => false end
  else if String.eqb type_name "object" then match value with JsonObject _ => true | _ => false end
  else false.
Definition supported_type (type_name : string) : bool :=
  existsb (String.eqb type_name) ["null"; "boolean"; "integer"; "number"; "string"; "array"; "object"].

Definition Object : Type := list (string * JsonValue).

(** [object.get(k).and_then(JsonValue::as_array)] and the like. *)
Definition get_array (k : string) (object : Object) : option (list JsonValue) := btree_get k object ≫= json_as_array.
Definition get_object (k : string) (object : Object) : option Object := btree_get k object ≫= json_as_object.
Definition get_bool (k : string) (object : Object) : option bool := btree_get k object ≫= json_as_bool.
Definition get_u64 (k : string) (object : Object) : option N := btree_get k object ≫= json_as_u64.
Definition get_f64 (k : string) (object : Object) : option spec_float := btree_get k object ≫= json_as_f64.
Definition has_key {V} (k : string) (object : list (string * V)) : bool :=
  match btree_get k object with Some _ => true | None => false end.

(** [keyword.starts_with("min")]. *)
Definition starts_with_min (keyword : string) : bool := String.prefix "min" keyword.

(** [check_count]. *)
Definition check_count (schema : Object) (keyword : string) (actual : nat) (path noun : string) :
    list ValidationFailure :=
  match get_u64 keyword schema with
  | None => []
  | Some bound =>
      let minimum := starts_with_min keyword in
      fail_unless (if minimum then bound <=? N.of_nat actual else N.of_nat actual <=? bound) path
        [Words ("must contain " +:+ (if minimum then "at least" else "at most") +:+ " "); Integer bound;
         Words (" " +:+ noun)]
  end.

(** [validate_string], [validate_number]. *)
Definition validate_string (schema : Object) (value path : string) : list ValidationFailure :=
  check_count schema "minLength" (length (chars value)) path "characters"
  ++ check_count schema "maxLength" (length (chars value)) path "characters".
Definition check_bound (schema : Object) (value : spec_float) (path keyword message : string)
    (valid : spec_float -> spec_float -> bool) : list ValidationFailure :=
  match get_f64 keyword schema with
  | None => []
  | Some bound => fail_unless (valid value bound) path [Words (message +:+ " "); Real bound]
  end.
Definition validate_number (schema : Object) (value : option spec_float) (path : string) : list ValidationFailure :=
  match value with
  | None => []
  | Some value =>
      check_bound schema value path "minimum" "must be greater than or equal to" (fun v b => SFleb b v)
      ++ check_bound schema value path "maximum" "must be less than or equal to" (fun v b => SFleb v b)
      ++ check_bound schema value path "exclusiveMinimum" "must be greater than" (fun v b => SFltb b v)
      ++ check_bound schema value path "exclusiveMaximum" "must be less than" (fun v b => SFltb v b)
  end.

(** Whether an element occurs among the elements before it. *)
Fixpoint repeats (before values : list JsonValue) : bool :=
  match values with
  | [] => false
  | v :: values => existsb (fun item => item ==? v) before || repeats (before ++ [v]) values
  end.

(** What a validation appends to [errors]. *)
Definition Failures (E : Type) : Type := Outcome E (list ValidationFailure).

Section validate.
Context `{Miniserde} {E : Type}.

(** A loop that validates and appends what it finds. *)
Fixpoint collect {A} (f' : A -> Failures E) (l : list A) : Failures E :=
  match l with
  | [] => Ok []
  | x :: l => let? e := f' x in let? rest := collect f' l in Ok (e ++ rest)
  end.

Section step.
(** The recursive call, on a schema nested in the current one. *)
Variable validate : JsonValue -> JsonValue -> string -> Failures E.

(** [is_valid]. *)
Definition is_valid (schema value : JsonValue) : Outcome E bool :=
  let? errors := validate schema value EmptyString in
  Ok (match errors with [] => true | _ => false end).

(** [schemas.iter().any(..)], [schemas.iter().filter(..).count()]. *)
Fixpoint any_valid (schemas : list JsonValue) (value : JsonValue) : Outcome E bool :=
  match schemas with
  | [] => Ok false
  | schema :: schemas =>
      let? valid := is_valid schema value in
      if valid then Ok true else any_valid schemas value
  end.
Fixpoint count_valid (schemas : list JsonValue) (value : JsonValue) : Outcome E nat :=
  match schemas with
  | [] => Ok O
  | schema :: schemas =>
      let? valid := is_valid schema value in
      let? n := count_valid schemas value in
      Ok (if valid then S n else n)
  end.

(** [validate_object]. *)
Definition missing_properties (schema : Object) (value : Object) (path : string) : list ValidationFailure :=
  match get_array "required" schema with
  | None => []
  | Some required =>
      concat (map (fun property =>
        if has_key property value then []
        else [mk_failure_at (child_path path property) [Words ("must have required properties " +:+ property)]])
        (omap json_as_str required))
  end.
Definition validate_declared (value : Object) (path : string) (property : string * JsonValue) : Failures E :=
  match btree_get property.1 value with
  | Some property_value => validate property.2 property_value (child_path path property.1)
  | None => Ok []
  end.
Definition is_declared (schema : Object) (property : string) : bool :=
  match get_object "properties" schema with
  | Some properties => has_key property properties
  | None => false
  end.
Definition validate_additional (schema : Object) (path : string) (property : string * JsonValue) : Failures E :=
  if is_declared schema property.1 then Ok []
  else match btree_get "additionalProperties" schema with
       | Some (JsonBool false) =>
           Ok [mk_failure_at (child_path path property.1) [Words "must not have additional properties"]]
       | Some (JsonObject property_schema) =>
           validate (JsonObject property_schema) property.2 (child_path path property.1)
       | _ => Ok []
       end.
Definition validate_object (schema value : Object) (path : string) : Failures E :=
  let? declared := match get_object "properties" schema with
                   | Some properties => collect (validate_declared value path) properties
                   | None => Ok []
                   end in
  let? additional := collect (validate_additional schema path) value in
  Ok (missing_properties schema value path ++ declared ++ additional).

(** [validate_array]. *)
Fixpoint validate_items (item_schema : JsonValue) (path : string) (index : nat) (items : list JsonValue) : Failures E :=
  match items with
  | [] => Ok []
  | item :: items =>
      let? e := validate item_schema item (child_path path (pretty (N.of_nat index))) in
      let? rest := validate_items item_schema path (S index) items in
      Ok (e ++ rest)
  end.
Definition validate_array (schema : Object) (value : list JsonValue) (path : string) : Failures E :=
  let? items := match btree_get "items" schema with
                | Some item_schema => validate_items item_schema path 0 value
                | None => Ok []
                end in
  let unique := match get_bool "uniqueItems" schema with
                | Some true => fail_unless (negb (repeats [] value)) path [Words "must contain unique items"]
                | _ => []
                end in
  Ok (items ++ unique ++ check_count schema "minItems" (length value) path "items"
      ++ check_count schema "maxItems" (length value) path "items").

(** The [type] test of [validate_value]: [Some] failure ends the check. *)
Definition matches_type (type_value value : JsonValue) : bool :=
  match type_value with
  | JsonString type_name => type_matches type_name value
  | JsonArray types => existsb (fun type_name => type_matches type_name value) (omap json_as_str types)
  | _ => false
  end.
Definition type_failure (object : Object) (value : JsonValue) (path : string) : option (list ValidationFailure) :=
  match btree_get "type" object with
  | None => None
  | Some type_value =>
      if matches_type type_value value then None
      else Some (failure_at path [Words ("must be of type " +:+
             match to_json_string type_value with Ok expected => expected | _ => "valid JSON types" end)])
  end.

Definition enum_failures (object : Object) (value : JsonValue) (path : string) : list ValidationFailure :=
  match get_array "enum" object with
  | Some values => fail_unless (existsb (fun candidate => candidate ==? value) values) path
                     [Words "must be one of the enumerated values"]
  | None => []
  end.
Definition const_failures (object : Object) (value : JsonValue) (path : string) : list ValidationFailure :=
  match btree_get "const" object with
  | Some const_value => fail_unless (const_value ==? value) path [Words "must equal the schema constant"]
  | None => []
  end.

(** The combinators of [validate_value]. *)
Definition all_of (object : Object) (value : JsonValue) (path : string) : Failures E :=
  match get_array "allOf" object with
  | Some schemas => collect (fun schema => validate schema value path) schemas
  | None => Ok []
  end.
Definition any_of (object : Object) (value : JsonValue) (path : string) : Failures E :=
  match get_array "anyOf" object with
  | Some schemas =>
      let? valid := any_valid schemas value in
      Ok (fail_unless valid path [Words "must match at least one schema"])
  | None => Ok []
  end.
Definition one_of (object : Object) (value : JsonValue) (path : string) : Failures E :=
  match get_array "oneOf" object with
  | Some schemas =>
      let? matches := count_valid schemas value in
      Ok (fail_unless (matches =? 1)%nat path [Words "must match exactly one schema"])
  | None => Ok []
  end.
Definition not_schema (object : Object) (value : JsonValue) (path : string) : Failures E :=
  match btree_get "not" object with
  | Some schema =>
      let? valid := is_valid schema value in
      Ok (fail_unless (negb valid) path [Words "must not match the schema"])
  | None => Ok []
  end.

Definition validate_shape (object : Object) (value : JsonValue) (path : string) : Failures E :=
  match value with
  | JsonObject value => validate_object object value path
  | JsonArray value => validate_array object value path
  | JsonString value => Ok (validate_string object value path)
  | JsonNum _ => Ok (validate_number object (json_as_f64 value) path)
  | JsonNull | JsonBool _ => Ok []
  end.

(** The body of [validate_value]. *)
Definition validate_step (schema value : JsonValue) (path : string) : Failures E :=
  match schema with
  | JsonObject object =>
      match type_failure object value path with
      | Some failure => Ok failure
      | None =>
          let? all := all_of object value path in
          let? any := any_of object value path in
          let? one := one_of object value path in
          let? negated := not_schema object value path in
          let? shape := validate_shape object value path in
          Ok (enum_failures object value path ++ const_failures object value path
              ++ all ++ any ++ one ++ negated ++ shape)
      end
  | _ => Panic "validate_schema checked that every schema is an object"
  end.
End step.

(** [validate_value], to a depth of nested schemas. *)
Fixpoint validate_value (depth : nat) (schema value : JsonValue) (path : string) : Failures E :=
  match depth with
  | O => Panic "schema nesting exceeds its height"
  | S depth => validate_step (validate_value depth) schema value path
  end.
End validate.

(** ** Checking a schema *)

Definition SchemaMessage : Type := list MessagePart.

Definition allowed_keywords : list string :=
  ["$comment"; "$id"; "$schema"; "additionalProperties"; "allOf"; "anyOf"; "const"; "default"; "deprecated";
   "description"; "enum"; "examples"; "exclusiveMaximum"; "exclusiveMinimum"; "items"; "maxItems"; "maxLength";
   "maximum"; "minItems"; "minLength"; "minimum"; "not"; "oneOf"; "properties"; "required"; "title"; "type";
   "uniqueItems"].

(** A loop of checks. *)
Fixpoint check_each {A} (f' : A -> Outcome SchemaMessage unit) (l : list A) : Outcome SchemaMessage unit :=
  match l with
  | [] => Ok ()
  | x :: l => check? f' x in check_each f' l
  end.

Definition check_keyword (keyword : string) : Outcome SchemaMessage unit :=
  if existsb (String.eqb keyword) allowed_keywords then Ok ()
  else Err [Words "unsupported keyword "; Quoted keyword].
Definition check_type (object : Object) : Outcome SchemaMessage unit :=
  let message := [Words "type must name one or more supported JSON types"] in
  match btree_get "type" object with
  | None => Ok ()
  | Some (JsonString type_name) => if supported_type type_name then Ok () else Err message
  | Some (JsonArray types) =>
      if negb (match types with [] => true | _ => false end)
         && forallb (fun value => match json_as_str value with Some t => supported_type t | None => false end) types
      then Ok () else Err message
  | Some _ => Err message
  end.
Definition check_required (object : Object) : Outcome SchemaMessage unit :=
  let message := [Words "required must be an array of strings"] in
  match btree_get "required" object with
  | None => Ok ()
  | Some required =>
      let? required := ok_or (json_as_array required) message in
      check? ofold (fun names property =>
               let? property := ok_or (json_as_str property) message in
               if mem property names then Err [Words "required contains duplicate property "; Quoted property]
               else Ok ({[property]} ∪ names)) (∅ : gset string) required in
      Ok ()
  end.
Definition check_present (object : Object) (valid : JsonValue -> bool) (requirement keyword : string) :
    Outcome SchemaMessage unit :=
  match btree_get keyword object with
  | Some value => if valid value then Ok () else Err [Words (keyword +:+ " " +:+ requirement)]
  | None => Ok ()
  end.
Definition is_some {A} (o : option A) : bool := match o with Some _ => true | None => false end.

Section schema_step.
(** The recursive call. *)
Variable check : JsonValue -> Outcome SchemaMessage unit.

Definition check_properties (object : Object) : Outcome SchemaMessage unit :=
  match btree_get "properties" object with
  | None => Ok ()
  | Some properties =>
      let? properties := ok_or (json_as_object properties) [Words "properties must be an object"] in
      check_each (fun property =>
        map_err (fun error => [Words "property "; Quoted property.1; Words ": "] ++ error) (check property.2))
        properties
  end.
Definition check_additional (object : Object) : Outcome SchemaMessage unit :=
  match btree_get "additionalProperties" object with
  | None | Some (JsonBool _) => Ok ()
  | Some (JsonObject additional) => check (JsonObject additional)
  | Some _ => Err [Words "additionalProperties must be a boolean or schema"]
  end.
Definition check_items (object : Object) : Outcome SchemaMessage unit :=
  match btree_get "items" object with
  | None => Ok ()
  | Some (JsonObject items) => check (JsonObject items)
  | Some _ => Err [Words "items must be a schema object"]
  end.
Definition check_schemas (object : Object) (keyword : string) : Outcome SchemaMessage unit :=
  match btree_get keyword object with
  | None => Ok ()
  | Some value =>
      let? schemas := ok_or (json_as_array value) [Words (keyword +:+ " must be an array of schemas")] in
      check_each check schemas
  end.
Definition check_not (object : Object) : Outcome SchemaMessage unit :=
  match btree_get "not" object with Some schema => check schema | None => Ok () end.

(** The body of [validate_schema]. *)
Definition schema_step (schema : JsonValue) : Outcome SchemaMessage unit :=
  let? object := ok_or (json_as_object schema) [Words "schema must be a JSON object"] in
  check? check_each check_keyword (map fst object) in
  check? check_type object in
  check? check_properties object in
  check? check_required object in
  check? check_additional object in
  check? check_items object in
  check? check_each (check_schemas object) ["allOf"; "anyOf"; "oneOf"] in
  check? check_not object in
  check? check_present object (fun v => is_some (json_as_array v)) "must be an array" "enum" in
  check? check_each (check_present object (fun v => is_some (json_as_u64 v)) "must be a nonnegative integer")
           ["minItems"; "maxItems"; "minLength"; "maxLength"] in
  check? check_each (check_present object (fun v => is_some (json_as_f64 v)) "must be a number")
           ["minimum"; "maximum"; "exclusiveMinimum"; "exclusiveMaximum"] in
  check_present object (fun v => is_some (json_as_bool v)) "must be a boolean" "uniqueItems".
End schema_step.

(** [validate_schema], to a depth of nested schemas. *)
Fixpoint validate_schema (depth : nat) (schema : JsonValue) : Outcome SchemaMessage unit :=
  match depth with
  | O => Panic "schema nesting exceeds its height"
  | S depth => schema_step (validate_schema depth) schema
  end.

(** The nesting of a value: a bound on the depth of both recursions. *)
Fixpoint json_height (v : JsonValue) : nat :=
  match v with
  | JsonArray l => S ((fix go l := match l with [] => O | x :: l => (json_height x `max` go l)%nat end) l)
  | JsonObject l => S ((fix go l := match l with [] => O | (_, x) :: l => (json_height x `max` go l)%nat end) l)
  | _ => 1%nat
  end.

(** [validate_tool_arguments]. *)
Definition validate_tool_arguments `{Miniserde} (tool_name : string) (schema : JsonValue) (arguments : string) :
    Outcome ArgumentsError unit :=
  let depth := json_height schema in
  check? map_err (fun message => InvalidArguments tool_name (SchemaInvalid message)) (validate_schema depth schema) in
  let? arguments := map_err (fun _ => InvalidArguments tool_name NotJson) (json_parse arguments) in
  let? errors := validate_value depth schema arguments EmptyString in
  match errors with
  | [] => Ok ()
  | _ =>
      let? received := map_err (fun error => InvalidArguments tool_name (CannotRender error))
                         (to_json_string_pretty arguments) in
      Err (InvalidArguments tool_name (ValidationFailed errors received))
  end.
