(* ===== verification/SchemaProofs.v ===== *)
(** * tea-core: schema validation decides conformance

    [conforms] is the meaning of the supported JSON Schema vocabulary.  A
    schema that passes its own check is used without a panic, and a value has
    no failures exactly when it conforms. *)

From Stdlib Require Import SpecFloat.
From stdpp Require Import base gmap sets list strings pretty.
From S2P Require Import Prelude RustStr Json SchemaValidation.

(** ** The reference semantics *)

Section conforms.
(** Conformance to a nested schema. *)
Variable rec : JsonValue -> JsonValue -> Prop.

Definition conforms_object (schema value : Object) : Prop :=
  (forall required property, get_array "required" schema = Some required -> JsonString property ∈ required ->
     is_Some (btree_get property value)) /\
  (forall properties property s v, get_object "properties" schema = Some properties -> (property, s) ∈ properties ->
     btree_get property value = Some v -> rec s v) /\
  (forall property v, (property, v) ∈ value -> is_declared schema property = false ->
     match btree_get "additionalProperties" schema with
     | Some (JsonBool allowed) => allowed = true
     | Some (JsonObject s) => rec (JsonObject s) v
     | _ => True
     end).

Definition within (schema : Object) (minimum maximum : string) (actual : nat) : Prop :=
  (forall bound, get_u64 minimum schema = Some bound -> (bound <= N.of_nat actual)%N) /\
  (forall bound, get_u64 maximum schema = Some bound -> (N.of_nat actual <= bound)%N).

Definition conforms_array (schema : Object) (value : list JsonValue) : Prop :=
  (forall s item, btree_get "items" schema = Some s -> item ∈ value -> rec s item) /\
  (get_bool "uniqueItems" schema = Some true ->
     forall i j x y, (i < j)%nat -> value !! i = Some x -> value !! j = Some y -> (x ==? y) = false) /\
  within schema "minItems" "maxItems" (length value).

Definition conforms_number (schema : Object) (value : spec_float) : Prop :=
  (forall bound, get_f64 "minimum" schema = Some bound -> SFleb bound value = true) /\
  (forall bound, get_f64 "maximum" schema = Some bound -> SFleb value bound = true) /\
  (forall bound, get_f64 "exclusiveMinimum" schema = Some bound -> SFltb bound value = true) /\
  (forall bound, get_f64 "exclusiveMaximum" schema = Some bound -> SFltb value bound = true).

Definition conforms_shape (object : Object) (value : JsonValue) : Prop :=
  match value with
  | JsonObject value => conforms_object object value
  | JsonArray value => conforms_array object value
  | JsonString value => within object "minLength" "maxLength" (length (chars value))
  | JsonNum n => forall x, json_as_f64 (JsonNum n) = Some x -> conforms_number object x
  | _ => True
  end.

Definition exactly_one (schemas : list JsonValue) (value : JsonValue) : Prop :=
  exists i s, schemas !! i = Some s /\ rec s value /\
    forall j s', schemas !! j = Some s' -> rec s' value -> j = i.

Definition conforms_step (schema value : JsonValue) : Prop :=
  match schema with
  | JsonObject object =>
      (forall t, btree_get "type" object = Some t -> matches_type t value = true) /\
      (forall values, get_array "enum" object = Some values -> exists c, c ∈ values /\ (c ==? value) = true) /\
      (forall c, btree_get "const" object = Some c -> (c ==? value) = true) /\
      (forall schemas, get_array "allOf" object = Some schemas -> forall s, s ∈ schemas -> rec s value) /\
      (forall schemas, get_array "anyOf" object = Some schemas -> exists s, s ∈ schemas /\ rec s value) /\
      (forall schemas, get_array "oneOf" object = Some schemas -> exactly_one schemas value) /\
      (forall s, btree_get "not" object = Some s -> ~ rec s value) /\
      conforms_shape object value
  | _ => False
  end.
End conforms.

(** Conformance to a schema of at most the given nesting. *)
Fixpoint conforms (depth : nat) (schema value : JsonValue) : Prop :=
  match depth with
  | O => False
  | S depth => conforms_step (conforms depth) schema value
  end.

(** ** Failures and what they mean *)

Lemma fail_unless_nil b path message : fail_unless b path message = [] <-> b = true.
Proof. by destruct b. Qed.

Lemma app_nil_iff {A} (l k : list A) : l ++ k = [] <-> l = [] /\ k = [].
Proof. destruct l; naive_solver. Qed.

(** A validation that returns, with no failure exactly when [Q] holds. *)
Definition decides {E} (m : Failures E) (Q : Prop) : Prop := exists errors, m = Ok errors /\ (errors = [] <-> Q).

Lemma decides_iff {E} (m : Failures E) Q R : (Q <-> R) -> decides m Q -> decides m R.
Proof. intros HQR (e & Hm & He). exists e. split; [done|]. by rewrite He. Qed.

Lemma decides_pure {E} l Q : (l = [] <-> Q) -> decides (E:=E) (Ok l) Q.
Proof. intros HQ. by exists l. Qed.

Lemma decides_bind {E} (m : Failures E) (k : list ValidationFailure -> Failures E) Q R :
  decides m Q -> (forall e, (e = [] <-> Q) -> decides (k e) R) -> decides (obind m k) R.
Proof. intros (e & -> & He) Hk. by apply Hk. Qed.

Lemma decides_collect {E A} (f' : A -> Failures E) (Q : A -> Prop) l :
  (forall x, x ∈ l -> decides (f' x) (Q x)) -> decides (collect f' l) (forall x, x ∈ l -> Q x).
Proof.
  induction l as [|x l IH]; intros Hl; cbn [collect].
  { apply decides_pure. split; [|done]. intros _ x Hx. by apply not_elem_of_nil in Hx. }
  eapply decides_bind; [apply Hl; by left|]. intros e He.
  eapply decides_bind; [apply IH; intros y Hy; apply Hl; by right|]. intros rest Hrest. apply decides_pure.
  rewrite app_nil_iff, He, Hrest. setoid_rewrite elem_of_cons. naive_solver.
Qed.

Lemma check_count_nil schema keyword actual path noun :
  check_count schema keyword actual path noun = [] <->
  forall bound, get_u64 keyword schema = Some bound ->
    if starts_with_min keyword then (bound <= N.of_nat actual)%N else (N.of_nat actual <= bound)%N.
Proof.
  unfold check_count. destruct (get_u64 keyword schema) as [bound|]; [|done].
  rewrite fail_unless_nil. destruct (starts_with_min keyword); rewrite N.leb_le;
    (split; [by intros Hb b [= <-]|intros Hb; by apply Hb]).
Qed.

Lemma check_bound_nil schema value path keyword message valid :
  check_bound schema value path keyword message valid = [] <->
  forall bound, get_f64 keyword schema = Some bound -> valid value bound = true.
Proof.
  unfold check_bound. destruct (get_f64 keyword schema) as [bound|]; [|done].
  rewrite fail_unless_nil. split; [by intros Hb b [= <-]|intros Hb; by apply Hb].
Qed.

Lemma validate_number_nil schema value path :
  validate_number schema value path = [] <-> forall x, value = Some x -> conforms_number schema x.
Proof.
  destruct value as [x|]; cbn [validate_number]; [|done].
  rewrite !app_nil_iff, !check_bound_nil. split; [by intros H y [= <-]|]. intros H. by apply H.
Qed.

Lemma repeats_spec before values :
  repeats before values = false <->
  (forall x y, x ∈ before -> y ∈ values -> (x ==? y) = false) /\
  (forall i j x y, (i < j)%nat -> values !! i = Some x -> values !! j = Some y -> (x ==? y) = false).
Proof.
  revert before. induction values as [|v values IH]; intros before; cbn [repeats].
  { split; [|done]. intros _. split; [by intros x y _ ?%not_elem_of_nil|done]. }
  rewrite orb_false_iff, existsb_false_elem, IH. split.
  - intros (Hv & Hbefore & Hpairs). split.
    + intros x y Hx [->|Hy]%elem_of_cons; [by apply Hv|]. apply Hbefore; [apply elem_of_app; by left|done].
    + intros [|i] [|j] x y Hij; cbn; [lia| |lia|apply Hpairs; lia]. intros [= <-] Hy.
      apply Hbefore; [apply elem_of_app; right; by left|by eapply list_elem_of_lookup_2].
  - intros (Hbefore & Hpairs). split_and!.
    + intros x Hx. apply Hbefore; [done|by left].
    + intros x y [Hx| ->%list_elem_of_singleton]%elem_of_app Hy; [apply Hbefore; [done|by right]|].
      apply list_elem_of_lookup in Hy as [j Hj]. apply (Hpairs 0%nat (S j)); [lia|done|done].
    + intros i j x y Hij Hx Hy. apply (Hpairs (S i) (S j)); [lia|done|done].
Qed.

(** ** One level of validation *)

Section step.
Context `{Miniserde} {E : Type}.
Variable validate : JsonValue -> JsonValue -> string -> Failures E.
Variable rec : JsonValue -> JsonValue -> Prop.

(** The nested schemas the recursive call decides. *)
Definition decided (s : JsonValue) : Prop := forall v path, decides (validate s v path) (rec s v).

Lemma is_valid_spec s v : decided s -> exists b, is_valid validate s v = Ok b /\ (b = true <-> rec s v).
Proof.
  intros Hs. destruct (Hs v EmptyString) as (e & He & Hiff). unfold is_valid. rewrite He. cbn [obind].
  eexists. split; [done|]. rewrite <-Hiff. by destruct e.
Qed.

Lemma any_valid_spec schemas v :
  (forall s, s ∈ schemas -> decided s) ->
  exists b, any_valid validate schemas v = Ok b /\ (b = true <-> exists s, s ∈ schemas /\ rec s v).
Proof.
  induction schemas as [|s schemas IH]; intros Hall; cbn [any_valid].
  { exists false. split; [done|]. split; [done|]. by intros (s & Hs%not_elem_of_nil & _). }
  destruct (is_valid_spec s v) as (b & -> & Hb); [apply Hall; by left|]. cbn [obind]. destruct b.
  - exists true. split; [done|]. split; [|done]. intros _. exists s. split; [by left|by apply Hb].
  - destruct IH as (b & -> & Hiff); [intros s' Hs'; apply Hall; by right|]. exists b. split; [done|].
    rewrite Hiff. setoid_rewrite elem_of_cons. split; [naive_solver|].
    intros (s' & [->|Hs'] & Hr); [by apply Hb in Hr|]. by exists s'.
Qed.

(** The number of schemas a value conforms to, as far as it matters. *)
Lemma count_valid_spec schemas v :
  (forall s, s ∈ schemas -> decided s) ->
  exists n, count_valid validate schemas v = Ok n /\
    (n = 0%nat <-> forall s, s ∈ schemas -> ~ rec s v) /\ (n = 1%nat <-> exactly_one rec schemas v).
Proof.
  induction schemas as [|s schemas IH]; intros Hall; cbn [count_valid].
  { exists 0%nat. split; [done|]. split; [split; [intros _ s Hs; by apply not_elem_of_nil in Hs|done]|].
    split; [done|]. by intros (i & s & Hs & _). }
  destruct (is_valid_spec s v) as (b & -> & Hb); [apply Hall; by left|]. cbn [obind].
  destruct IH as (n & -> & Hzero & Hone); [intros s' Hs'; apply Hall; by right|]. cbn [obind].
  destruct b; eexists; (split; [done|]).
  - assert (rec s v) as Hs by (by apply Hb). split.
    + split; [done|]. intros Hno. exfalso. apply (Hno s); [by left|done].
    + split.
      * intros [= Hn]. rewrite Hzero in Hn. exists 0%nat, s. split_and!; [done|done|].
        intros [|j] s' Hj Hr; [done|]. exfalso. eapply Hn; [|exact Hr]. by eapply list_elem_of_lookup_2.
      * intros (i & s' & Hi & Hr & Huniq). f_equal. apply Hzero. intros s2 [j Hj]%list_elem_of_lookup Hr2.
        pose proof (Huniq 0%nat s eq_refl Hs) as H0. pose proof (Huniq (S j) s2 Hj Hr2). congruence.
  - assert (~ rec s v) as Hs by (intros Hr; by apply Hb in Hr). split.
    + rewrite Hzero. setoid_rewrite elem_of_cons. naive_solver.
    + rewrite Hone. split.
      * intros (i & s' & Hi & Hr & Huniq). exists (S i), s'. split_and!; [done|done|].
        intros [|j] s2 Hj Hr2; [cbn in Hj; by simplify_eq|]. f_equal. by eapply Huniq.
      * intros ([|i] & s' & Hi & Hr & Huniq); [cbn in Hi; by simplify_eq|]. exists i, s'. split_and!; [done|done|].
        intros j s2 Hj Hr2. specialize (Huniq (S j) s2 Hj Hr2). congruence.
Qed.

Lemma missing_properties_nil schema value path :
  missing_properties schema value path = [] <->
  forall required property, get_array "required" schema = Some required -> JsonString property ∈ required ->
    is_Some (btree_get property value).
Proof.
  unfold missing_properties. destruct (get_array "required" schema) as [required|]; [|done].
  transitivity (forall property, JsonString property ∈ required -> is_Some (btree_get property value)).
  2:{ split; [by intros Hr ? ? [= <-]; apply Hr|]. intros Hr p Hp. by eapply Hr. }
  induction required as [|r required IH]; cbn [omap list_omap map concat].
  { split; [|done]. intros _ p Hp. by apply not_elem_of_nil in Hp. }
  setoid_rewrite elem_of_cons.
  destruct r as [| | |p| |]; cbn [json_as_str map concat];
    try (rewrite IH; split; [intros Hr q [[=]|Hq]; by apply Hr|intros Hr q Hq; apply Hr; by right]).
  rewrite app_nil_iff, IH. unfold has_key.
  destruct (btree_get p value) as [v|] eqn:Hp; split.
  - intros [_ Hr] q [[= ->]|Hq]; [by rewrite Hp|by apply Hr].
  - intros Hr. split; [done|]. intros q Hq. apply Hr. by right.
  - by intros [].
  - intros Hr. destruct (Hr p) as [v Hv]; [by left|]. congruence.
Qed.

Lemma validate_object_spec schema value path :
  (forall properties property s, get_object "properties" schema = Some properties -> (property, s) ∈ properties -> decided s) ->
  (forall s, btree_get "additionalProperties" schema = Some (JsonObject s) -> decided (JsonObject s)) ->
  decides (validate_object validate schema value path) (conforms_object rec schema value).
Proof.
  intros Hprop Hadd. unfold validate_object.
  eapply (decides_bind _ _ (forall properties property s v, get_object "properties" schema = Some properties ->
    (property, s) ∈ properties -> btree_get property value = Some v -> rec s v)).
  { destruct (get_object "properties" schema) as [properties|] eqn:Hp; [|by apply decides_pure].
    eapply decides_iff; [|apply (decides_collect _ (fun x => forall v, btree_get x.1 value = Some v -> rec x.2 v))].
    - split; [by intros Hx ps p s v [= <-] Hin Hv; apply (Hx (p, s))|]. intros Hx [p s] Hin v Hv. by eapply Hx.
    - intros [p s] Hin. unfold validate_declared. cbn [fst snd]. destruct (btree_get p value) as [v|].
      + eapply decides_iff; [|by eapply Hprop]. split; [by intros Hr v' [= <-]|]. intros Hr. by apply Hr.
      + by apply decides_pure. }
  intros declared Hdeclared.
  eapply (decides_bind _ _ (forall property v, (property, v) ∈ value -> is_declared schema property = false ->
     match btree_get "additionalProperties" schema with
     | Some (JsonBool allowed) => allowed = true
     | Some (JsonObject s) => rec (JsonObject s) v
     | _ => True
     end)).
  { eapply decides_iff; [|apply (decides_collect _ (fun x : string * JsonValue =>
      is_declared schema x.1 = false -> match btree_get "additionalProperties" schema with
        | Some (JsonBool allowed) => allowed = true | Some (JsonObject s) => rec (JsonObject s) x.2 | _ => True end))].
    - split; [intros Hx p v Hin; apply (Hx (p, v) Hin)|intros Hx [p v] Hin; by apply Hx].
    - intros [p v] _. unfold validate_additional. cbn [fst snd]. destruct (is_declared schema p); [by apply decides_pure|].
      destruct (btree_get "additionalProperties" schema) as [[|[]| | | |s]|] eqn:Ha; try by apply decides_pure.
      + apply decides_pure. split; [done|]. intros Hf. by specialize (Hf eq_refl).
      + eapply decides_iff; [|by apply Hadd]. split; [done|]. intros Hf. by apply Hf. }
  intros additional Hadditional. apply decides_pure.
  rewrite !app_nil_iff, missing_properties_nil, Hdeclared, Hadditional. done.
Qed.

Lemma validate_items_spec s path index items :
  decided s -> decides (validate_items validate s path index items) (forall item, item ∈ items -> rec s item).
Proof.
  intros Hs. revert index. induction items as [|item items IH]; intros index; cbn [validate_items].
  { apply decides_pure. split; [|done]. intros _ x Hx. by apply not_elem_of_nil in Hx. }
  eapply decides_bind; [apply Hs|]. intros e He. eapply decides_bind; [apply IH|]. intros rest Hrest.
  apply decides_pure. rewrite app_nil_iff, He, Hrest. setoid_rewrite elem_of_cons. naive_solver.
Qed.

Lemma count_within schema minimum maximum actual path noun :
  starts_with_min minimum = true -> starts_with_min maximum = false ->
  check_count schema minimum actual path noun ++ check_count schema maximum actual path noun = [] <->
  within schema minimum maximum actual.
Proof. intros Hmin Hmax. by rewrite app_nil_iff, !check_count_nil, Hmin, Hmax. Qed.

Lemma validate_array_spec schema value path :
  (forall s, btree_get "items" schema = Some s -> decided s) ->
  decides (validate_array validate schema value path) (conforms_array rec schema value).
Proof.
  intros Hitems. unfold validate_array.
  eapply (decides_bind _ _ (forall s item, btree_get "items" schema = Some s -> item ∈ value -> rec s item)).
  { destruct (btree_get "items" schema) as [s|]; [|by apply decides_pure].
    eapply decides_iff; [|by apply validate_items_spec, Hitems].
    split; [by intros Hx s' item [= <-]; apply Hx|]. intros Hx item Hin. by eapply Hx. }
  intros items Hi. apply decides_pure. rewrite !app_nil_iff, Hi. unfold conforms_array.
  rewrite <-(count_within schema "minItems" "maxItems" (length value) path "items") by done. rewrite app_nil_iff.
  enough (match get_bool "uniqueItems" schema with
          | Some true => fail_unless (negb (repeats [] value)) path [Words "must contain unique items"]
          | _ => [] end = [] <->
          (get_bool "uniqueItems" schema = Some true ->
           forall i j x y, (i < j)%nat -> value !! i = Some x -> value !! j = Some y -> (x ==? y) = false)) as ->; [done|].
  destruct (get_bool "uniqueItems" schema) as [[]|]; [|done..].
  rewrite fail_unless_nil, negb_true_iff, repeats_spec. split; [by intros [_ Hp]|].
  intros Hp. split; [by intros x y ?%not_elem_of_nil|by apply Hp].
Qed.

Lemma validate_string_nil schema value path :
  validate_string schema value path = [] <-> within schema "minLength" "maxLength" (length (chars value)).
Proof. by apply count_within. Qed.

(** The nested schemas [validate_value] may visit. *)
Definition nested (object : Object) (s : JsonValue) : Prop :=
  (exists properties property, get_object "properties" object = Some properties /\ (property, s) ∈ properties) \/
  (exists o, s = JsonObject o /\ btree_get "additionalProperties" object = Some s) \/
  btree_get "items" object = Some s \/ btree_get "not" object = Some s \/
  (exists keyword schemas, keyword ∈ ["allOf"; "anyOf"; "oneOf"] /\ get_array keyword object = Some schemas /\ s ∈ schemas).

Lemma validate_shape_spec object value path :
  (forall s, nested object s -> decided s) ->
  decides (validate_shape validate object value path) (conforms_shape rec object value).
Proof.
  intros Hall. destruct value as [| |n|s|l|l]; cbn [validate_shape conforms_shape].
  - by apply decides_pure.
  - by apply decides_pure.
  - apply decides_pure. apply validate_number_nil.
  - apply decides_pure. apply validate_string_nil.
  - apply validate_array_spec. intros s Hs. apply Hall. right. right. by left.
  - apply validate_object_spec.
    + intros ps p s Hps Hin. apply Hall. left. by exists ps, p.
    + intros o Ho. apply Hall. right. left. by exists o.
Qed.

Lemma all_of_spec object value path :
  (forall s, nested object s -> decided s) ->
  decides (all_of validate object value path)
    (forall schemas, get_array "allOf" object = Some schemas -> forall s, s ∈ schemas -> rec s value).
Proof.
  intros Hall. unfold all_of. destruct (get_array "allOf" object) as [schemas|] eqn:Hs; [|by apply decides_pure].
  eapply decides_iff; [|apply (decides_collect _ (fun s => rec s value))].
  - split; [by intros Hx k [= <-]|]. intros Hx. by apply Hx.
  - intros s Hin. apply Hall. do 4 right. exists "allOf", schemas. split_and!; [by left|done|done].
Qed.

Lemma any_of_spec object value path :
  (forall s, nested object s -> decided s) ->
  decides (any_of validate object value path)
    (forall schemas, get_array "anyOf" object = Some schemas -> exists s, s ∈ schemas /\ rec s value).
Proof.
  intros Hall. unfold any_of. destruct (get_array "anyOf" object) as [schemas|] eqn:Hs; [|by apply decides_pure].
  destruct (any_valid_spec schemas value) as (b & -> & Hb).
  { intros s Hin. apply Hall. do 4 right. exists "anyOf", schemas. split_and!; [right; by left|done|done]. }
  apply decides_pure. rewrite fail_unless_nil, Hb. split; [by intros Hx k [= <-]|]. intros Hx. by apply Hx.
Qed.

Lemma one_of_spec object value path :
  (forall s, nested object s -> decided s) ->
  decides (one_of validate object value path)
    (forall schemas, get_array "oneOf" object = Some schemas -> exactly_one rec schemas value).
Proof.
  intros Hall. unfold one_of. destruct (get_array "oneOf" object) as [schemas|] eqn:Hs; [|by apply decides_pure].
  destruct (count_valid_spec schemas value) as (n & -> & _ & Hn).
  { intros s Hin. apply Hall. do 4 right. exists "oneOf", schemas. split_and!; [do 2 right; by left|done|done]. }
  apply decides_pure. rewrite fail_unless_nil, Nat.eqb_eq, Hn. split; [by intros Hx k [= <-]|]. intros Hx. by apply Hx.
Qed.

Lemma not_spec object value path :
  (forall s, nested object s -> decided s) ->
  decides (not_schema validate object value path) (forall s, btree_get "not" object = Some s -> ~ rec s value).
Proof.
  intros Hall. unfold not_schema. destruct (btree_get "not" object) as [s|] eqn:Hs; [|by apply decides_pure].
  destruct (is_valid_spec s value) as (b & -> & Hb); [apply Hall; do 3 right; by left|].
  apply decides_pure. rewrite fail_unless_nil, negb_true_iff. destruct b.
  - split; [done|]. intros Hx. exfalso. apply (Hx s eq_refl). by apply Hb.
  - split; [|done]. intros _ s' [= <-] Hr. by apply Hb in Hr.
Qed.

Lemma enum_const_nil object value path :
  (enum_failures object value path = [] <->
     forall values, get_array "enum" object = Some values -> exists c, c ∈ values /\ (c ==? value) = true) /\
  (const_failures object value path = [] <->
     forall c, btree_get "const" object = Some c -> (c ==? value) = true).
Proof.
  unfold enum_failures, const_failures. split.
  - destruct (get_array "enum" object) as [values|]; [|done]. rewrite fail_unless_nil, existsb_true_elem.
    split; [by intros Hx k [= <-]|]. intros Hx. by apply Hx.
  - destruct (btree_get "const" object) as [c|]; [|done]. rewrite fail_unless_nil.
    split; [by intros Hx k [= <-]|]. intros Hx. by apply Hx.
Qed.

Lemma validate_step_spec object value path :
  (forall s, nested object s -> decided s) ->
  decides (validate_step validate (JsonObject object) value path) (conforms_step rec (JsonObject object) value).
Proof.
  intros Hall. cbn [validate_step conforms_step].
  assert (type_failure object value path = None <->
    forall t, btree_get "type" object = Some t -> matches_type t value = true) as Htype.
  { unfold type_failure. destruct (btree_get "type" object) as [t|]; [|done].
    destruct (matches_type t value) eqn:Hm; split; try done; [by intros _ t' [= <-]|].
    intros Hx. specialize (Hx t eq_refl). congruence. }
  destruct (type_failure object value path) as [failure|] eqn:Hf.
  { apply decides_pure. split; [|by intros [Ht%Htype _]]. intros ->. unfold type_failure in Hf.
    destruct (btree_get "type" object) as [t|]; [|done]. by destruct (matches_type t value). }
  eapply decides_bind; [by apply all_of_spec|]. intros all Hall'.
  eapply decides_bind; [by apply any_of_spec|]. intros any Hany.
  eapply decides_bind; [by apply one_of_spec|]. intros one Hone.
  eapply decides_bind; [by apply not_spec|]. intros negated Hnot.
  eapply decides_bind; [by apply validate_shape_spec|]. intros shape Hshape.
  apply decides_pure. destruct (enum_const_nil object value path) as [Henum Hconst].
  rewrite !app_nil_iff, Henum, Hconst, Hall', Hany, Hone, Hnot, Hshape. split; [|by intros [_ Hx]].
  intros Hx. split; [|done]. by apply Htype.
Qed.
End step.

(** ** Checked schemas *)

Lemma check_each_Ok {A} (f' : A -> Outcome SchemaMessage unit) l :
  check_each f' l = Ok tt -> forall x, x ∈ l -> f' x = Ok tt.
Proof.
  induction l as [|y l IH]; cbn [check_each]; [by intros _ x ?%not_elem_of_nil|].
  intros ([] & Hy & Hl)%obind_Ok_inv x [->|Hx]%elem_of_cons; [done|by apply IH].
Qed.

Lemma check_each_no_panic {A} (f' : A -> Outcome SchemaMessage unit) l :
  (forall x, x ∈ l -> forall r, f' x <> Panic r) -> forall r, check_each f' l <> Panic r.
Proof.
  induction l as [|y l IH]; intros Hl r; cbn [check_each]; [done|].
  apply obind_no_panic; [apply Hl; by left|]. intros _. apply IH. intros x Hx. apply Hl. by right.
Qed.

Lemma map_err_Ok {E F A} (f' : E -> F) (m : Outcome E A) a : map_err f' m = Ok a -> m = Ok a.
Proof. destruct m; by intros [= ->]. Qed.

Lemma schema_step_object check schema :
  schema_step check schema = Ok tt -> exists object, schema = JsonObject object.
Proof. unfold schema_step. intros (o & Ho%ok_or_Ok_inv & _)%obind_Ok_inv. destruct schema; by eauto. Qed.

Lemma schema_step_nested check object s :
  schema_step check (JsonObject object) = Ok tt -> nested object s -> check s = Ok tt.
Proof.
  unfold schema_step. cbn [json_as_object ok_or obind].
  intros ([] & _ & H1)%obind_Ok_inv. apply obind_Ok_inv in H1 as ([] & _ & H1).
  apply obind_Ok_inv in H1 as ([] & Hprops & H1). apply obind_Ok_inv in H1 as ([] & _ & H1).
  apply obind_Ok_inv in H1 as ([] & Hadd & H1). apply obind_Ok_inv in H1 as ([] & Hitems & H1).
  apply obind_Ok_inv in H1 as ([] & Hlists & H1). apply obind_Ok_inv in H1 as ([] & Hnot & _).
  intros [(ps & p & Hps & Hin)|[(o & -> & Ho)|[Hi|[Hn|(k & ss & Hk & Hss & Hin)]]]].
  - unfold check_properties, get_object in *. destruct (btree_get "properties" object) as [v|]; [|done].
    cbn in Hps. rewrite Hps in Hprops. cbn [ok_or obind] in Hprops.
    by apply (check_each_Ok _ _ Hprops), map_err_Ok in Hin.
  - unfold check_additional in Hadd. by rewrite Ho in Hadd.
  - unfold check_items in Hitems. rewrite Hi in Hitems. by destruct s.
  - unfold check_not in Hnot. by rewrite Hn in Hnot.
  - pose proof (check_each_Ok _ _ Hlists k Hk) as Hc. unfold check_schemas, get_array in *.
    destruct (btree_get k object) as [v|]; [|done]. cbn in Hss. rewrite Hss in Hc. cbn [ok_or obind] in Hc.
    by apply (check_each_Ok _ _ Hc).
Qed.

(** A checked schema decides conformance, without a panic. *)
Lemma validated_decides `{Miniserde} {E} depth schema value path :
  validate_schema depth schema = Ok tt ->
  decides (E:=E) (validate_value depth schema value path) (conforms depth schema value).
Proof.
  revert schema value path. induction depth as [|depth IH]; intros schema value path; [done|].
  cbn [validate_schema validate_value conforms]. intros Hs.
  destruct (schema_step_object _ _ Hs) as [object ->]. apply validate_step_spec.
  intros s Hn v p. apply IH. by eapply schema_step_nested.
Qed.

(** ** The height of a schema bounds both recursions *)

Lemma height_array l v : v ∈ l -> (json_height v < json_height (JsonArray l))%nat.
Proof. induction 1; cbn in *; lia. Qed.

Lemma height_object (l : list (string * JsonValue)) k v : (k, v) ∈ l -> (json_height v < json_height (JsonObject l))%nat.
Proof.
  induction l as [|[k' v'] l IH]; [by intros ?%not_elem_of_nil|].
  intros [[= <- <-]|Hin]%elem_of_cons; [cbn; lia|]. specialize (IH Hin). cbn in *. lia.
Qed.

Lemma btree_get_elem {V} k (l : list (string * V)) v : btree_get k l = Some v -> (k, v) ∈ l.
Proof.
  induction l as [|[k' v'] l IH]; cbn; [done|]. destruct (String.eqb_spec k k') as [->|Hne].
  - intros [= ->]. by left.
  - intros Hg. right. by apply IH.
Qed.

Lemma height_get object k v : btree_get k object = Some v -> (json_height v < json_height (JsonObject object))%nat.
Proof. intros Hg%btree_get_elem. by eapply height_object. Qed.

Lemma get_array_Some k object l : get_array k object = Some l -> btree_get k object = Some (JsonArray l).
Proof. unfold get_array. destruct (btree_get k object) as [[]|]; cbn; try done. by intros [= ->]. Qed.
Lemma get_object_Some k object o : get_object k object = Some o -> btree_get k object = Some (JsonObject o).
Proof. unfold get_object. destruct (btree_get k object) as [[]|]; cbn; try done. by intros [= ->]. Qed.

Lemma nested_height object s : nested object s -> (json_height s < json_height (JsonObject object))%nat.
Proof.
  intros [(ps & p & Hps%get_object_Some & Hin)|[(o & -> & Ho)|[Hi|[Hn|(k & ss & Hk & Hss%get_array_Some & Hin)]]]];
    [| by eapply height_get..|].
  - apply height_get in Hps. apply height_object in Hin. lia.
  - apply height_get in Hss. apply height_array in Hin. lia.
Qed.

Lemma check_present_no_panic object valid requirement keyword r :
  check_present object valid requirement keyword <> Panic r.
Proof. unfold check_present. destruct (btree_get keyword object) as [v|]; [|done]. by destruct (valid v). Qed.

Lemma present_no_panic {E A} (o : option A) (e : E) r : ok_or o e <> Panic r.
Proof. by destruct o. Qed.
Lemma map_err_no_panic {E F A} (f' : E -> F) (m : Outcome E A) :
  (forall r, m <> Panic r) -> forall r, map_err f' m <> Panic r.
Proof. intros Hm r. destruct m; [done..|]. intros [= ->]. by eapply Hm. Qed.

Lemma check_required_no_panic object r : check_required object <> Panic r.
Proof.
  unfold check_required. destruct (btree_get "required" object) as [v|]; [|done].
  apply obind_no_panic; [intros; apply present_no_panic|]. intros l r'. apply obind_no_panic; [|done]. intros r''.
  apply (ofold_no_panic (fun _ => True)); [| |done]; [done|]. intros names property r3 _.
  apply obind_no_panic; [intros; apply present_no_panic|]. intros q r4. by destruct (mem q names).
Qed.

Lemma check_type_no_panic object r : check_type object <> Panic r.
Proof.
  unfold check_type. destruct (btree_get "type" object) as [[| | |t|ts|]|]; try done; [by destruct (supported_type t)|].
  by destruct (_ && _).
Qed.

(** Checking panics only where the recursive call does. *)
Lemma schema_step_no_panic check object :
  (forall s, nested object s -> forall r, check s <> Panic r) -> forall r, schema_step check (JsonObject object) <> Panic r.
Proof.
  intros Hall r. unfold schema_step. cbn [json_as_object ok_or obind].
  apply obind_no_panic; [apply check_each_no_panic; intros k _ r'; unfold check_keyword; by destruct (existsb _ _)|intros _].
  clear r. intros r. apply obind_no_panic; [intros; apply check_type_no_panic|]. clear r. intros _ r.
  apply obind_no_panic; [|clear r; intros _ r].
  { intros r'. unfold check_properties. destruct (btree_get "properties" object) as [v|] eqn:Hv; [|done].
    destruct v; cbn; try done. apply check_each_no_panic. intros [p s] Hin. apply map_err_no_panic, Hall. left.
    exists values, p. unfold get_object. by rewrite Hv. }
  apply obind_no_panic; [intros; apply check_required_no_panic|clear r; intros _ r].
  apply obind_no_panic; [|clear r; intros _ r].
  { intros r'. unfold check_additional. destruct (btree_get "additionalProperties" object) as [[]|] eqn:Hv; try done.
    apply Hall. right. left. eauto. }
  apply obind_no_panic; [|clear r; intros _ r].
  { intros r'. unfold check_items. destruct (btree_get "items" object) as [[]|] eqn:Hv; try done.
    apply Hall. right. right. by left. }
  apply obind_no_panic; [|clear r; intros _ r].
  { apply check_each_no_panic. intros k Hk r'. unfold check_schemas. destruct (btree_get k object) as [v|] eqn:Hv; [|done].
    destruct v; cbn; try done. apply check_each_no_panic. intros s Hin. apply Hall. do 4 right.
    exists k, values. unfold get_array. by rewrite Hv. }
  apply obind_no_panic; [|clear r; intros _ r].
  { intros r'. unfold check_not. destruct (btree_get "not" object) as [s|] eqn:Hv; [|done]. apply Hall. do 3 right. by left. }
  apply obind_no_panic; [intros; apply check_present_no_panic|clear r; intros _ r].
  do 2 (apply obind_no_panic;
    [apply check_each_no_panic; intros; apply check_present_no_panic|clear r; intros _ r]).
  apply check_present_no_panic.
Qed.

Lemma validate_schema_no_panic depth schema r :
  (json_height schema <= depth)%nat -> validate_schema depth schema <> Panic r.
Proof.
  revert schema r. induction depth as [|depth IH]; intros schema r Hd.
  { exfalso. destruct schema; cbn in Hd; lia. }
  cbn [validate_schema]. destruct schema as [| | | | |object]; try done. apply schema_step_no_panic.
  intros s Hs%nested_height r'. apply IH. lia.
Qed.

(** ** A greater depth changes nothing *)

Section depth.
Variables (rec rec' : JsonValue -> JsonValue -> Prop) (object : Object).
Hypothesis Hrec : forall s, nested object s -> forall v, rec s v <-> rec' s v.

Lemma conforms_object_ext value : conforms_object rec object value -> conforms_object rec' object value.
Proof.
  intros (Hreq & Hprops & Hadd). split_and!; [done| |].
  - intros ps p s v Hps Hin Hv. apply Hrec; [left; by exists ps, p|]. by eapply Hprops.
  - intros p v Hin Hd. specialize (Hadd p v Hin Hd).
    destruct (btree_get "additionalProperties" object) as [[]|] eqn:Ha; try done.
    apply Hrec; [right; left; by eexists|done].
Qed.

Lemma conforms_shape_ext value : conforms_shape rec object value -> conforms_shape rec' object value.
Proof.
  destruct value as [| | | |l|l]; try done; [|apply conforms_object_ext].
  intros (Hitems & Hrest). split; [|done]. intros s item Hs Hin.
  apply Hrec; [right; right; by left|]. by eapply Hitems.
Qed.

Lemma list_schema_nested k schemas s :
  k ∈ ["allOf"; "anyOf"; "oneOf"] -> get_array k object = Some schemas -> s ∈ schemas -> nested object s.
Proof. intros Hk Hs Hin. do 4 right. by exists k, schemas. Qed.

Lemma conforms_step_ext value :
  conforms_step rec (JsonObject object) value -> conforms_step rec' (JsonObject object) value.
Proof.
  intros (Htype & Henum & Hconst & Hall & Hany & Hone & Hnot & Hshape). split_and!; [done..| | | | |].
  - intros ss Hss s Hin. apply Hrec; [eapply list_schema_nested; [|done..]; by left|]. by eapply Hall.
  - intros ss Hss. destruct (Hany ss Hss) as (s & Hin & Hs). exists s. split; [done|].
    apply Hrec; [eapply list_schema_nested; [|done..]; right; by left|done].
  - intros ss Hss. destruct (Hone ss Hss) as (i & s & Hi & Hs & Huniq).
    assert (forall s, s ∈ ss -> nested object s) as Hn.
    { intros x Hx. eapply list_schema_nested; [|done..]. right. right. by left. }
    exists i, s. split_and!; [done|apply Hrec; [apply Hn; by eapply list_elem_of_lookup_2|done]|].
    intros j s' Hj Hs'. apply (Huniq j s' Hj), Hrec; [apply Hn; by eapply list_elem_of_lookup_2|done].
  - intros s Hs Hr. apply (Hnot s Hs), Hrec; [do 3 right; by left|done].
  - by apply conforms_shape_ext.
Qed.
End depth.

Lemma conforms_depth n m schema value :
  (json_height schema <= n)%nat -> (json_height schema <= m)%nat -> conforms n schema value <-> conforms m schema value.
Proof.
  revert m schema value. induction n as [|n IH]; intros m schema value Hn Hm.
  { exfalso. destruct schema; cbn in Hn; lia. }
  destruct m as [|m]; [exfalso; destruct schema; cbn in Hm; lia|]. cbn [conforms].
  destruct schema as [| | | | |object]; try done. split; apply conforms_step_ext; intros s Hs%nested_height v.
  - apply IH; lia.
  - symmetry. apply IH; lia.
Qed.

(** ** Parsed arguments *)

Lemma from_miniserde_no_panic m r : from_miniserde m <> Panic r.
Proof.
  revert r. induction m as [|b|[n|z|x]|s|l IH|l IH] using mini_ind'; intros r; try done; simpl.
  - by destruct (f64_is_finite x).
  - apply obind_no_panic; [|done]. intros r'. by apply omap_list_no_panic.
  - apply obind_no_panic; [|done]. intros r'. apply omap_list_no_panic.
    eapply Forall_impl; [exact IH|]. intros [k v] Hv r''. by apply obind_no_panic.
Qed.

Lemma insert_values_finite k v (l : Object) :
  json_finite v = true -> Forall (fun kv => json_finite kv.2 = true) l ->
  Forall (fun kv => json_finite kv.2 = true) (btree_insert k v l).
Proof.
  intros Hv. induction 1 as [|[k' v'] l Hx Hl IH]; cbn [btree_insert]; [by constructor|].
  destruct (String.compare k k'); by repeat constructor.
Qed.

Lemma collected_finite (l : Object) :
  Forall (fun kv => json_finite kv.2 = true) l -> json_finite (JsonObject (btree_collect l)) = true.
Proof.
  intros Hl. cbn [json_finite]. apply forallb_forall, List.Forall_forall.
  assert (Forall (fun kv : string * JsonValue => json_finite kv.2 = true) []) as Hacc by constructor.
  unfold btree_collect. revert Hacc. generalize (@nil (string * JsonValue)).
  induction Hl as [|kv l Hkv _ IH]; intros acc Hacc; cbn [foldl]; [done|]. apply IH. by apply insert_values_finite.
Qed.

Lemma from_miniserde_finite m v : from_miniserde m = Ok v -> json_finite v = true.
Proof.
  revert v. induction m as [|b|[n|z|x]|s|l IH|l IH] using mini_ind'; intros v; simpl; try by intros [= <-].
  - destruct (f64_is_finite x) eqn:Hx; [by intros [= <-]|done].
  - intros (k & Hk%omap_list_Forall2 & [= <-])%obind_Ok_inv. cbn [json_finite].
    apply forallb_forall, List.Forall_forall. revert IH. induction Hk as [|m v l k Hv _ IHk]; intros IH; [constructor|].
    inversion IH; subst. constructor; auto.
  - intros (k & Hk%omap_list_Forall2 & [= <-])%obind_Ok_inv. apply collected_finite.
    revert IH. induction Hk as [|[f' m] [g v] l k Hv _ IHk]; intros IH; [constructor|].
    inversion IH; subst. constructor; [|auto]. apply obind_Ok_inv in Hv as (y & Hy & [= -> ->]). auto.
Qed.

Section text.
Context `{Miniserde}.

Lemma to_json_string_finite_ok v : json_finite v = true -> exists text, to_json_string v = Ok text.
Proof.
  unfold to_json_string. rewrite <-to_miniserde_ok_finite. destruct (to_miniserde v); [|done..]. intros _. by eexists.
Qed.

Lemma write_pretty_finite v depth : json_finite v = true -> exists text, write_pretty v depth = Ok text.
Proof.
  revert depth. induction v as [|b|n|s|l IH|l IH] using json_ind'; intros depth Hf.
  - by eexists.
  - by eexists.
  - by apply to_json_string_finite_ok.
  - by apply to_json_string_finite_ok.
  - destruct l as [|x l]; [by eexists|]. simpl in Hf.
    cut (exists body, (fix go l :=
               match l with
               | [] => Ok EmptyString
               | x :: l =>
                   let? t := write_pretty x (S depth) in
                   let? rest := go l in
                   Ok (newline +:+ indent (S depth) +:+ t
                       +:+ (match l with [] => "" | _ => "," end) +:+ rest)
               end) (x :: l) = Ok body).
    { intros [body Hbody]. cbn [write_pretty]. rewrite Hbody. by eexists. }
    change (forallb json_finite (x :: l) = true) in Hf. revert Hf.
    induction IH as [|y k Hy _ IHk]; [by eexists|]. cbn [forallb]. intros [H1 H2]%andb_true_iff.
    destruct (Hy (S depth) H1) as [t ->]. destruct (IHk H2) as [rest ->]. by eexists.
  - destruct l as [|x l]; [by eexists|]. cbn [json_finite] in Hf.
    cut (exists body, (fix go l :=
               match l with
               | [] => Ok EmptyString
               | (f, x) :: l =>
                   let? k := to_json_string (JsonString f) in
                   let? t := write_pretty x (S depth) in
                   let? rest := go l in
                   Ok (newline +:+ indent (S depth) +:+ k +:+ ": " +:+ t
                       +:+ (match l with [] => "" | _ => "," end) +:+ rest)
               end) (x :: l) = Ok body).
    { intros [body Hbody]. cbn [write_pretty]. rewrite Hbody. by eexists. }
    revert Hf. induction IH as [|[k y] k' Hy _ IHk]; [by eexists|]. cbn [forallb]. intros [H1 H2]%andb_true_iff.
    cbn [snd] in Hy, H1. destruct (to_json_string_finite_ok (JsonString k) eq_refl) as [key ->].
    destruct (Hy (S depth) H1) as [t ->]. destruct (IHk H2) as [rest ->]. by eexists.
Qed.

Lemma json_parse_result text :
  (exists v, json_parse text = Ok v /\ json_finite v = true) \/ exists e, json_parse text = Err e.
Proof.
  unfold json_parse. destruct (mini_from_str text) as [m|]; cbn [ok_or obind]; [|by eauto].
  destruct (from_miniserde m) as [v|e|r] eqn:Hm; [left|by eauto|by apply from_miniserde_no_panic in Hm].
  exists v. split; [done|]. by eapply from_miniserde_finite.
Qed.

(** The value conforms to the schema. *)
Definition conforms_to (schema value : JsonValue) : Prop := conforms (json_height schema) schema value.

(** C35: Checking tool arguments never panics and decides exactly: arguments are accepted if and
    only if the schema is well formed and the parsed value conforms to it in the sense of the
    reference semantics; otherwise the error names the schema problem, the parse failure or at
    least one failure together with the received value. *)
Theorem tool_arguments_checked tool schema text :
  match validate_tool_arguments tool schema text with
  | Ok _ =>
      validate_schema (json_height schema) schema = Ok tt /\
      exists v, json_parse text = Ok v /\ conforms_to schema v
  | Err (InvalidArguments t (SchemaInvalid m)) =>
      t = tool /\ validate_schema (json_height schema) schema = Err m
  | Err (InvalidArguments t NotJson) =>
      t = tool /\ validate_schema (json_height schema) schema = Ok tt /\ exists e, json_parse text = Err e
  | Err (InvalidArguments t (ValidationFailed failures received)) =>
      t = tool /\ failures <> [] /\ validate_schema (json_height schema) schema = Ok tt /\
      exists v, json_parse text = Ok v /\ ~ conforms_to schema v /\ to_json_string_pretty v = Ok received
  | Err (InvalidArguments _ (CannotRender _)) | Panic _ => False
  end.
Proof.
  unfold validate_tool_arguments.
  destruct (validate_schema (json_height schema) schema) as [[]|m|r] eqn:Hs; cbn [map_err obind]; [|done|].
  2:{ by apply validate_schema_no_panic in Hs. }
  destruct (json_parse_result text) as [(v & -> & Hf)|[e He]]; [|rewrite He; cbn [map_err obind]; eauto].
  cbn [map_err obind].
  destruct (validated_decides (E:=ArgumentsError) _ schema v EmptyString Hs) as (errors & -> & Hiff). cbn [obind].
  destruct errors as [|e errors].
  { split; [done|]. exists v. split; [done|]. by apply Hiff. }
  destruct (write_pretty_finite v 0 Hf) as [received Hr]. unfold to_json_string_pretty. rewrite Hr. cbn [map_err obind].
  split_and!; [done..|]. exists v. split_and!; [done| |done]. intros Hc%Hiff. done.
Qed.
End text.

(** The nested failures of the source's own test, at their paths. *)
Definition nested_schema : JsonValue :=
  json_object [("type", JsonString "object"); ("additionalProperties", JsonBool false);
    ("properties", json_object [("items", json_object [("type", JsonString "array");
      ("items", json_object [("type", JsonString "object"); ("required", JsonArray [JsonString "name"]);
         ("additionalProperties", JsonBool false);
         ("properties", json_object [("name", json_object [("type", JsonString "string")])])])])])].
Definition nested_value : JsonValue :=
  json_object [("items", JsonArray [json_object [("name", JsonBool false); ("extra", JsonNum (Unsigned 1))]])].

Section sample.
#[local] Instance sample_codec : Miniserde := {| mini_to_string _ := "json"; mini_from_str _ := None |}.
Example nested_failures :
  validate_schema (json_height nested_schema) nested_schema = Ok tt /\
  match @validate_value _ unit (json_height nested_schema) nested_schema nested_value EmptyString with
  | Ok errors => map vf_path errors
  | _ => []
  end = ["items.0.name"; "items.0.extra"].
Proof. split; vm_compute; reflexivity. Qed.
Example bounds_as_f64 :
  match @validate_value _ unit 1 (json_object [("minimum", JsonNum (Unsigned 9007199254740993));
                                               ("exclusiveMaximum", JsonNum (Float (mk_f64 4845873199050653696)))])
          (JsonNum (Signed 9007199254740992)) EmptyString with
  | Ok errors => map vf_message errors
  | _ => []
  end = [[Words "must be less than "; Real (S754_finite false 4503599627370496 1)]].
Proof. vm_compute. reflexivity. Qed.
End sample.
