(* ===== verification/CoreState.v ===== *)
(** * tea-core: agent state, accounting, queues and routing
    ([crates/tea-core/src/state/lifecycle.rs], [state/accounting.rs],
    [queue.rs], [routing.rs])

    The state an agent owns: its messages with their identities and history
    generation, the bounded preview of a streaming response, provider-reported
    accounting, the two input queues, and the routing helpers. *)

From Stdlib Require Import Ascii.
From stdpp Require Import base gmap sets list strings.
From S2P Require Import Prelude RustStr Json Ids Decimal Configuration Messages.

Local Open Scope N_scope.

(** ** Accounting *)

Definition usage_none : ModelUsage := mk_usage None None None None None None None.

Definition reported {A} (o : option A) : bool := match o with Some _ => true | None => false end.

(** [Usage::is_reported]. *)
Definition is_reported (u : ModelUsage) : bool :=
  reported (u_total_tokens u) || reported (u_input_tokens u) || reported (u_output_tokens u)
  || reported (u_reasoning_tokens u) || reported (u_cache_read_tokens u) || reported (u_cache_write_tokens u)
  || reported (u_cost u).

(** [Usage::merge]. *)
Definition later {A} (self update : option A) : option A := match update with Some _ => update | None => self end.
Definition usage_merge (self update : ModelUsage) : ModelUsage :=
  mk_usage (later (u_total_tokens self) (u_total_tokens update)) (later (u_input_tokens self) (u_input_tokens update))
    (later (u_output_tokens self) (u_output_tokens update)) (later (u_reasoning_tokens self) (u_reasoning_tokens update))
    (later (u_cache_read_tokens self) (u_cache_read_tokens update))
    (later (u_cache_write_tokens self) (u_cache_write_tokens update)) (later (u_cost self) (u_cost update)).

(** [add_usage]. *)
Definition add_usage (total value : option N) : option N :=
  match value with
  | Some value => Some (u64_saturating_add (default 0 total) value)
  | None => total
  end.

(** The decimal cost of [Usage::accumulate] and of [ModelAccountingSnapshot::record]. *)
Definition add_cost {E} (self update : option string) : Outcome E (option string) :=
  match update with
  | Some cost =>
      match self with
      | Some previous => let? sum := decimal_add previous cost in Ok (Some sum)
      | None => Ok (Some cost)
      end
  | None => Ok self
  end.

(** [Usage::accumulate]. *)
Definition usage_accumulate {E} (self update : ModelUsage) : Outcome E ModelUsage :=
  let? cost := add_cost (u_cost self) (u_cost update) in
  Ok (mk_usage (add_usage (u_total_tokens self) (u_total_tokens update))
        (add_usage (u_input_tokens self) (u_input_tokens update))
        (add_usage (u_output_tokens self) (u_output_tokens update))
        (add_usage (u_reasoning_tokens self) (u_reasoning_tokens update))
        (add_usage (u_cache_read_tokens self) (u_cache_read_tokens update))
        (add_usage (u_cache_write_tokens self) (u_cache_write_tokens update)) cost).

Record ModelTurnAccounting := mk_turn_accounting {
  ta_run_id : N;
  ta_turn_id : N;
  ta_model : option ModelDescriptor;
  ta_usage : ModelUsage;
}.

Record ModelAccountingSnapshot := mk_accounting {
  ac_turns : list ModelTurnAccounting;
  ac_aggregate : ModelUsage;
}.
Definition accounting_default : ModelAccountingSnapshot := mk_accounting [] usage_none.

(** [ModelAccountingSnapshot::record]. *)
Definition accounting_record {E} (s : ModelAccountingSnapshot) (accounting : ModelTurnAccounting) :
    Outcome E ModelAccountingSnapshot :=
  let a := ac_aggregate s in
  let u := ta_usage accounting in
  let? cost := add_cost (u_cost a) (u_cost u) in
  Ok (mk_accounting (ac_turns s ++ [accounting])
        (mk_usage (add_usage (u_total_tokens a) (u_total_tokens u)) (add_usage (u_input_tokens a) (u_input_tokens u))
           (add_usage (u_output_tokens a) (u_output_tokens u)) (add_usage (u_reasoning_tokens a) (u_reasoning_tokens u))
           (add_usage (u_cache_read_tokens a) (u_cache_read_tokens u))
           (add_usage (u_cache_write_tokens a) (u_cache_write_tokens u)) cost)).

(** ** The streaming preview *)

Definition MAX_PARTIAL_RESPONSE_BYTES : nat := N.to_nat 8192.

(** [str::is_char_boundary] on the bytes of the text. *)
Definition is_char_boundary (bytes : list N) (index : nat) : bool :=
  if (index =? 0)%nat then true
  else match bytes !! index with
       | Some b => negb (is_continuation b)
       | None => (index =? length bytes)%nat
       end.

(** [utf8_boundary_at_or_after]; at most [rounds] steps remain. *)
Fixpoint boundary_from (rounds : nat) (bytes : list N) (offset : nat) : nat :=
  match rounds with
  | O => offset
  | S rounds =>
      if (offset <? length bytes)%nat && negb (is_char_boundary bytes offset)
      then boundary_from rounds bytes (S offset) else offset
  end.
Definition utf8_boundary_at_or_after (bytes : list N) (offset : nat) : nat :=
  boundary_from (length bytes) bytes offset.

(** [append_bounded_suffix], on bytes. *)
Definition append_bounded_suffix (value delta : list N) (limit : nat) : list N :=
  if (limit <=? length delta)%nat then drop (utf8_boundary_at_or_after delta (length delta - limit)) delta
  else
    let excess := (length value + length delta - limit)%nat in
    (if (0 <? excess)%nat then drop (utf8_boundary_at_or_after value excess) value else value) ++ delta.

(** ** Agent state *)

Inductive ThinkingLevel := Off | Minimal | Low | Medium | High | XHigh | Max.
Inductive AgentPhase := Idle | PhaseRunning (run : N) | PhaseCancelling (run : N).
Inductive RunPhase := RunCreated | RunRunning | RunSettling | RunSucceeded | RunFailed | RunCancelled.

(** [RunPhase::is_terminal]. *)
Definition is_terminal (p : RunPhase) : bool :=
  match p with RunSucceeded | RunFailed | RunCancelled => true | _ => false end.

Record CoreAgentState := mk_agent_state {
  as_system_prompt : string;
  as_model : option ModelDescriptor;
  as_thinking_level : ThinkingLevel;
  as_messages : list AgentMessage;
  as_host_messages : list string;
  as_phase : AgentPhase;
  as_partial_response : option string;
  as_is_streaming : bool;
  as_pending_tool_calls : gset string;
  as_last_error : option string;
  as_accounting : ModelAccountingSnapshot;
  as_history_revision : N;
  as_next_message_id : N;
}.

(** [AgentState::default]. *)
Definition agent_state_default : CoreAgentState :=
  mk_agent_state EmptyString None Off [] [] Idle None false ∅ None accounting_default 0 1.

Definition with_history (s : CoreAgentState) (messages : list AgentMessage) (revision next_id : N) : CoreAgentState :=
  mk_agent_state (as_system_prompt s) (as_model s) (as_thinking_level s) messages (as_host_messages s) (as_phase s)
    (as_partial_response s) (as_is_streaming s) (as_pending_tool_calls s) (as_last_error s) (as_accounting s)
    revision next_id.

Definition next_revision (s : CoreAgentState) : N := u64_saturating_add (as_history_revision s) 1.

(** [AgentState::allocate_message_id]. *)
Definition allocate_message_id (s : CoreAgentState) : N * CoreAgentState :=
  (as_next_message_id s,
   with_history s (as_messages s) (as_history_revision s) (u64_saturating_add (as_next_message_id s) 1)).

(** [ids.max().unwrap_or(1)]. *)
Definition max_or_one (ids : list N) : N := if is_nil ids then 1 else foldl N.max 0 ids.

(** [AgentState::replace_messages]. *)
Definition replace_messages (s : CoreAgentState) (messages : list AgentMessage) : CoreAgentState :=
  let next_id := max_or_one (map (fun m => u64_saturating_add (message_id m) 1) messages) in
  with_history s messages (next_revision s) (N.max (as_next_message_id s) next_id).

(** [AgentState::append_message], [replace_last_message], [truncate_messages]. *)
Definition append_message (s : CoreAgentState) (m : AgentMessage) : CoreAgentState :=
  with_history s (as_messages s ++ [m]) (next_revision s) (as_next_message_id s).
Definition replace_last_message (s : CoreAgentState) (m : AgentMessage) : CoreAgentState :=
  match as_messages s with
  | [] => s
  | _ => with_history s (take (length (as_messages s) - 1) (as_messages s) ++ [m]) (next_revision s) (as_next_message_id s)
  end.
Definition truncate_messages (s : CoreAgentState) (n : nat) : CoreAgentState :=
  if (n <? length (as_messages s))%nat
  then with_history s (take n (as_messages s)) (next_revision s) (as_next_message_id s) else s.

(** [AgentState::append_partial_response_delta]. *)
Definition append_partial_response_delta (s : CoreAgentState) (delta : string) : CoreAgentState :=
  let partial := default EmptyString (as_partial_response s) in
  mk_agent_state (as_system_prompt s) (as_model s) (as_thinking_level s) (as_messages s) (as_host_messages s)
    (as_phase s)
    (Some (string_of_bytes (append_bounded_suffix (bytes_of partial) (bytes_of delta) MAX_PARTIAL_RESPONSE_BYTES)))
    (as_is_streaming s) (as_pending_tool_calls s) (as_last_error s) (as_accounting s) (as_history_revision s)
    (as_next_message_id s).

(** ** Queues *)

Record QueuedMessage := mk_queued { qm_sequence : N; qm_content : string }.
Inductive QueueMode := OneAtATime | DrainAll.
Record MessageQueue := mk_queue { mq_next_sequence : N; mq_entries : list QueuedMessage }.
Definition queue_default : MessageQueue := mk_queue 0 [].

(** [MessageQueue::{push, pop, drain, clear}]. *)
Definition queue_push (q : MessageQueue) (content : string) : N * MessageQueue :=
  let sequence := u64_saturating_add (mq_next_sequence q) 1 in
  (sequence, mk_queue sequence (mq_entries q ++ [mk_queued sequence content])).
Definition queue_pop (q : MessageQueue) : option QueuedMessage * MessageQueue :=
  match mq_entries q with
  | [] => (None, q)
  | m :: entries => (Some m, mk_queue (mq_next_sequence q) entries)
  end.
Definition queue_drain (q : MessageQueue) (mode : QueueMode) : list QueuedMessage * MessageQueue :=
  match mode with
  | OneAtATime => let '(m, q) := queue_pop q in (match m with Some m => [m] | None => [] end, q)
  | DrainAll => (mq_entries q, mk_queue (mq_next_sequence q) [])
  end.
Definition queue_clear (q : MessageQueue) : MessageQueue := mk_queue (mq_next_sequence q) [].

(** [SteeringQueue], [FollowUpQueue] and [AgentQueues]. *)
Record AgentQueues := mk_queues { aq_steering : MessageQueue; aq_follow_up : MessageQueue }.
Definition queues_clear (q : AgentQueues) : AgentQueues :=
  mk_queues (queue_clear (aq_steering q)) (queue_clear (aq_follow_up q)).

(** ** Routing *)

(** [latest_physical]. *)
Definition successful_origin (m : AgentMessage) : option ModelDescriptor :=
  match m with
  | Assistant a =>
      match am_stop_reason a with
      | Some Error | Some Cancelled => None
      | _ => am_origin a
      end
  | _ => None
  end.
Definition latest_physical (messages : list AgentMessage) : option ModelDescriptor :=
  head (omap successful_origin (reverse messages)).

(** [parse_descriptor], [format_descriptor]. *)
Definition parse_descriptor (value : string) : option ModelDescriptor :=
  match split_once (Ascii.eqb slash) value with
  | Some (provider, model) =>
      if negb (str_is_empty provider) && negb (str_is_empty model) then Some (mk_model provider model None) else None
  | None => None
  end.
Definition format_descriptor (m : ModelDescriptor) : string := md_provider m +:+ "/" +:+ md_model m.
