(* ===== verification/CoreStateProofs.v ===== *)
(** * tea-core: facts about the agent's state

    Aggregates are the saturating sums of what the turns reported; the
    streaming preview is a bounded suffix cut at a character boundary; queues
    are first-in first-out; descriptors survive printing and parsing. *)

From Stdlib Require Import Ascii.
From stdpp Require Import base gmap sets list strings.
From S2P Require Import Prelude RustStr Json Ids Decimal Configuration Messages CoreState Transcript.

Local Open Scope N_scope.

(** ** Accounting *)

(** The reported values of a field, summed up to [u64::MAX]. *)
Definition reported_total (values : list (option N)) : option N :=
  match omap id values with
  | [] => None
  | reports => Some (N.min u64_max (foldr N.add 0 reports))
  end.

Lemma saturating_min a b : u64_saturating_add a b = N.min u64_max (a + b).
Proof. unfold u64_saturating_add. lia. Qed.

Lemma foldr_add_snoc l x : foldr N.add 0 (l ++ [x]) = foldr N.add 0 l + x.
Proof. induction l as [|y l IH]; cbn; [lia|]. rewrite IH. lia. Qed.

Lemma reported_total_snoc values v :
  (forall x, v = Some x -> x <= u64_max) ->
  reported_total (values ++ [v]) = add_usage (reported_total values) v.
Proof.
  intros Hv. unfold reported_total. rewrite omap_app. destruct v as [v|]; cbn [omap list_omap id add_usage].
  2:{ rewrite app_nil_r. by destruct (omap id values). }
  specialize (Hv v eq_refl). rewrite saturating_min. set (reports := omap id values).
  destruct reports as [|x l] eqn:Hr; [cbn; f_equal; lia|].
  change ((x :: l) ++ [v]) with (x :: (l ++ [v])). f_equal. cbn [foldr from_option id].
  rewrite foldr_add_snoc. lia.
Qed.

Definition token_fields : list (ModelUsage -> option N) :=
  [u_total_tokens; u_input_tokens; u_output_tokens; u_reasoning_tokens; u_cache_read_tokens; u_cache_write_tokens].

Definition usage_u64 (u : ModelUsage) : Prop :=
  forall field x, field ∈ token_fields -> field u = Some x -> x <= u64_max.

(** The aggregate is what the recorded turns reported. *)
Definition accounted (s : ModelAccountingSnapshot) : Prop :=
  forall field, field ∈ token_fields ->
    field (ac_aggregate s) = reported_total (map (fun t => field (ta_usage t)) (ac_turns s)).

Lemma record_accounted {E} s t s' :
  usage_u64 (ta_usage t) -> accounted s -> @accounting_record E s t = Ok s' ->
  accounted s' /\ ac_turns s' = ac_turns s ++ [t].
Proof.
  intros Hu Hs. unfold accounting_record. intros (cost & _ & [= <-])%obind_Ok_inv. split; [|done].
  intros field Hf. cbn [ac_turns ac_aggregate]. rewrite map_app. cbn [map].
  rewrite reported_total_snoc by (intros x Hx; by eapply Hu). rewrite <-Hs by done. unfold token_fields in Hf.
  repeat (apply elem_of_cons in Hf as [->|Hf]; [done|]). by apply not_elem_of_nil in Hf.
Qed.

(** ** The preview *)

Lemma boundary_from_spec rounds bytes offset :
  (length bytes <= rounds + offset)%nat ->
  let r := boundary_from rounds bytes offset in
  (offset <= r)%nat /\ (r <= offset `max` length bytes)%nat /\
  ((r < length bytes)%nat -> is_char_boundary bytes r = true) /\
  forall j, (offset <= j < r)%nat -> is_char_boundary bytes j = false.
Proof.
  revert offset. induction rounds as [|rounds IH]; intros offset Hr; cbn [boundary_from].
  { split_and!; intros; lia. }
  destruct (Nat.ltb_spec offset (length bytes)) as [Hlt|Hge]; cbn [andb]; [|split_and!; intros; lia].
  destruct (is_char_boundary bytes offset) eqn:Hb; cbn [negb]; [split_and!; [lia..|done|intros; lia]|].
  destruct (IH (S offset)) as (H1 & H2 & H3 & H4); [lia|]. split_and!; [lia..|done|].
  intros j Hj. destruct (decide (j = offset)) as [->|]; [done|]. apply H4. lia.
Qed.

(** The text starts with a character. *)
Definition starts_char (bytes : list N) : Prop := forall b, head bytes = Some b -> is_continuation b = false.

Lemma boundary_starts bytes k :
  starts_char bytes -> ((k < length bytes)%nat -> is_char_boundary bytes k = true) -> starts_char (drop k bytes).
Proof.
  intros Hs Hk b Hb. rewrite head_lookup, lookup_drop, Nat.add_0_r in Hb.
  assert (k < length bytes)%nat as Hlt by (by eapply lookup_lt_Some). specialize (Hk Hlt).
  unfold is_char_boundary in Hk. destruct (Nat.eqb_spec k 0) as [->|_]; [apply Hs; by rewrite head_lookup|].
  rewrite Hb in Hk. by apply negb_true_iff in Hk.
Qed.

Lemma not_boundary_continuation bytes j :
  (j < length bytes)%nat -> is_char_boundary bytes j = false ->
  exists b, bytes !! j = Some b /\ is_continuation b = true.
Proof.
  intros Hlt. unfold is_char_boundary. destruct (Nat.eqb_spec j 0); [done|].
  destruct (lookup_lt_is_Some_2 bytes j Hlt) as [b Hb]. rewrite Hb. intros Hc%negb_false_iff. eauto.
Qed.

Lemma starts_char_app l k : starts_char l -> starts_char k -> starts_char (l ++ k).
Proof. destruct l; cbn; done. Qed.

(** The preview: a suffix of what was streamed, no longer than the limit, cut
    at the first character boundary that makes it fit. *)
Lemma append_bounded_suffix_spec value delta limit :
  (0 < limit)%nat -> starts_char value -> starts_char delta ->
  let all := value ++ delta in
  exists k, append_bounded_suffix value delta limit = drop k all /\
    (length (append_bounded_suffix value delta limit) <= limit)%nat /\
    starts_char (append_bounded_suffix value delta limit) /\
    (length all <= limit -> k = 0)%nat /\
    forall j, (length all - limit <= j < k)%nat -> exists b, all !! j = Some b /\ is_continuation b = true.
Proof.
  intros Hlim Hv Hd all. subst all. rewrite length_app. unfold append_bounded_suffix.
  destruct (Nat.leb_spec limit (length delta)) as [Hle|Hgt].
  - destruct (boundary_from_spec (length delta) delta (length delta - limit)) as (H1 & H2 & H3 & H4); [lia|].
    fold (utf8_boundary_at_or_after delta (length delta - limit)) in *. set (r := utf8_boundary_at_or_after _ _) in *.
    exists (length value + r)%nat. rewrite drop_app_add', length_drop by done. split_and!; [done|lia|by apply boundary_starts| |].
    2:{ intros j Hj. rewrite lookup_app_r by lia. apply not_boundary_continuation; [lia|]. apply H4. lia. }
    intros Hall. assert (length value = 0%nat) by lia. assert (length delta - limit = 0)%nat as E by lia.
    enough (r = 0%nat) by lia. subst r. unfold utf8_boundary_at_or_after. rewrite E.
    destruct (length delta); cbn; [done|]. by rewrite andb_false_r.
  - destruct (Nat.ltb_spec 0 (length value + length delta - limit)) as [Hex|Hno].
    + destruct (boundary_from_spec (length value) value (length value + length delta - limit)) as (H1 & H2 & H3 & H4); [lia|].
      fold (utf8_boundary_at_or_after value (length value + length delta - limit)) in *.
      set (r := utf8_boundary_at_or_after _ _) in *. exists r.
      rewrite drop_app_le by lia. rewrite length_app, length_drop.
      split_and!; [done|lia|by apply starts_char_app; [apply boundary_starts|]|lia|].
      intros j Hj. rewrite lookup_app_l by lia. apply not_boundary_continuation; [lia|]. apply H4. lia.
    + exists 0%nat. rewrite drop_0, length_app. split_and!; [done|lia|by apply starts_char_app|done|lia].
Qed.

(** ** Message identities *)

(** Every message has an identity below the next one, which may have saturated. *)
Definition ids_fresh (s : CoreAgentState) : Prop :=
  as_next_message_id s <= u64_max /\
  forall m, m ∈ as_messages s -> message_id m < as_next_message_id s \/ as_next_message_id s = u64_max.

Lemma foldl_max_le l acc x : x ∈ l \/ x <= acc -> x <= foldl N.max acc l.
Proof.
  revert acc. induction l as [|y l IH]; intros acc; cbn; [by intros [?%not_elem_of_nil|]|].
  intros [[->|Hx]%elem_of_cons|Hx]; apply IH; [right; lia|by left|right; lia].
Qed.
Lemma foldl_max_bound l acc b : acc <= b -> Forall (fun x => x <= b) l -> foldl N.max acc l <= b.
Proof. intros Ha Hl. revert acc Ha. induction Hl as [|y l Hy _ IH]; intros acc Ha; cbn; [done|]. apply IH. lia. Qed.

Lemma replace_messages_fresh s messages :
  as_next_message_id s <= u64_max -> ids_fresh (replace_messages s messages).
Proof.
  intros Hs. unfold replace_messages, ids_fresh. cbn [as_next_message_id as_messages with_history].
  set (ids := map (fun m => u64_saturating_add (message_id m) 1) messages).
  assert (max_or_one ids <= u64_max) as Hb.
  { unfold max_or_one. destruct (is_nil ids); [done|]. apply foldl_max_bound; [done|].
    apply Forall_forall. intros x' (m & -> & _)%list_elem_of_fmap. apply u64_saturating_add_bound. }
  split; [lia|]. intros m Hm.
  assert (u64_saturating_add (message_id m) 1 ∈ ids) as Hin by (apply list_elem_of_fmap; eauto).
  assert (u64_saturating_add (message_id m) 1 <= max_or_one ids) as Hle.
  { unfold max_or_one. destruct ids as [|x l]; [by apply not_elem_of_nil in Hin|]. apply foldl_max_le. by left. }
  unfold u64_saturating_add in Hle. lia.
Qed.

(** Appending a message under the identity just allocated keeps identities fresh. *)
Lemma append_allocated_fresh s m :
  ids_fresh s -> message_id m = (allocate_message_id s).1 ->
  ids_fresh (append_message (allocate_message_id s).2 m).
Proof.
  intros [Hn Hs] Hm. unfold ids_fresh, append_message, allocate_message_id in *. cbn in *. unfold u64_saturating_add.
  split; [lia|]. intros x [Hx|Hx%list_elem_of_singleton]%elem_of_app; [|subst; lia].
  destruct (Hs x Hx); lia.
Qed.

Lemma truncate_messages_fresh s n : ids_fresh s -> ids_fresh (truncate_messages s n).
Proof.
  intros [Hn Hs]. unfold truncate_messages. destruct (n <? length (as_messages s))%nat; [|by split].
  split; [done|]. intros m Hm. apply Hs. rewrite <-(take_drop n (as_messages s)).
  apply elem_of_app. by left.
Qed.

(** ** Queues *)

(** Sequences are strictly increasing and none exceeds the last one given. *)
Definition queue_ordered (q : MessageQueue) : Prop :=
  (forall i j a b, (i < j)%nat -> mq_entries q !! i = Some a -> mq_entries q !! j = Some b -> qm_sequence a < qm_sequence b) /\
  forall a, a ∈ mq_entries q -> qm_sequence a <= mq_next_sequence q.

Lemma queue_push_ordered q content :
  mq_next_sequence q < u64_max -> queue_ordered q ->
  queue_ordered (queue_push q content).2 /\
  (queue_push q content).1 = mq_next_sequence q + 1 /\
  map qm_content (mq_entries (queue_push q content).2) = map qm_content (mq_entries q) ++ [content].
Proof.
  intros Hn [Hord Hmax]. unfold queue_push. rewrite u64_saturating_add_exact by lia. cbn [fst snd].
  cbn [mq_entries]. rewrite map_app. split_and!; [|done|done]. split; cbn [mq_entries mq_next_sequence].
  - intros i j a b Hij Ha [Hb|[Hjl [Hj <-]%list_lookup_singleton_Some]]%lookup_app_Some.
    + rewrite lookup_app_l in Ha by (eapply lookup_lt_Some in Hb; lia). by eapply Hord.
    + apply lookup_app_Some in Ha as [Ha|[Hl [Hi _]%list_lookup_singleton_Some]]; [|lia].
      apply list_elem_of_lookup_2, Hmax in Ha. cbn. lia.
  - intros a [Ha%Hmax| ->%list_elem_of_singleton]%elem_of_app; cbn; lia.
Qed.

(** Draining takes a prefix: everything, or the oldest message. *)
Lemma queue_drain_prefix q mode :
  let '(taken, rest) := queue_drain q mode in
  mq_entries q = taken ++ mq_entries rest /\ mq_next_sequence rest = mq_next_sequence q /\
  (mode = DrainAll -> mq_entries rest = []) /\ (mode = OneAtATime -> (length taken <= 1)%nat /\ (taken = [] -> mq_entries q = [])).
Proof.
  destruct mode; cbn; [unfold queue_pop; destruct q as [n [|m l]]; cbn; naive_solver|].
  rewrite app_nil_r. naive_solver.
Qed.

(** ** Descriptors *)

Lemma split_once_app p s t a :
  (forall c, c ∈ String.list_ascii_of_string s -> p c = false) -> p a = true ->
  split_once p (s +:+ String a t) = Some (s, t).
Proof.
  intros Hs Ha. induction s as [|c s IH].
  { change (split_once p (String a t) = Some (EmptyString, t)). cbn [split_once]. by rewrite Ha. }
  change (String c s +:+ String a t) with (String c (s +:+ String a t)). cbn [split_once].
  rewrite (Hs c) by (by left). rewrite IH; [done|]. intros d Hd. apply Hs. by right.
Qed.

Lemma split_once_Some p s before after :
  split_once p s = Some (before, after) -> exists a, p a = true /\ s = before +:+ String a after.
Proof.
  revert before. induction s as [|c s IH]; intros before; cbn; [done|]. destruct (p c) eqn:Hc.
  { intros [= <- <-]. by exists c. }
  destruct (split_once p s) as [[b a]|]; [|done]. intros [= <- <-].
  destruct (IH b eq_refl) as (x & Hx & ->). by exists x.
Qed.

(** Parsing inverts printing when the provider is a single segment, and
    whatever parses is printed back as it was. *)
Theorem descriptor_roundtrip :
  (forall provider model,
     str_is_empty provider = false -> str_is_empty model = false ->
     slash ∉ String.list_ascii_of_string provider ->
     parse_descriptor (format_descriptor (mk_model provider model None)) = Some (mk_model provider model None)) /\
  (forall value m, parse_descriptor value = Some m -> format_descriptor m = value).
Proof.
  split.
  - intros provider model Hp Hm Hno. unfold parse_descriptor, format_descriptor. cbn [md_provider md_model].
    change ("/" +:+ model) with (String slash model). rewrite split_once_app; [by rewrite Hp, Hm| |done].
    intros c Hc. destruct (Ascii.eqb_spec slash c) as [<-|]; done.
  - intros value m. unfold parse_descriptor. destruct (split_once (Ascii.eqb slash) value) as [[p q]|] eqn:Hs; [|done].
    destruct (negb (str_is_empty p) && negb (str_is_empty q)); [|done]. intros [= <-].
    apply split_once_Some in Hs as (a & Ha%Ascii.eqb_eq & ->). by subst a.
Qed.

(** ** Theorems *)

(** Recording settled turns keeps them in order, and every token field of the
    aggregate is the saturating sum of the values the turns reported, absent
    when no turn reported one. *)
Theorem accounting_sums_turns {E} turns s :
  Forall (fun t => usage_u64 (ta_usage t)) turns ->
  ofold (@accounting_record E) accounting_default turns = Ok s ->
  ac_turns s = turns /\ accounted s.
Proof.
  intros Hall. assert (accounted accounting_default) as H0.
  { intros field Hf. unfold token_fields in Hf.
    repeat (apply elem_of_cons in Hf as [->|Hf]; [done|]). by apply not_elem_of_nil in Hf. }
  change turns with (ac_turns accounting_default ++ turns) at 2. revert H0. generalize accounting_default.
  induction Hall as [|t turns Ht _ IH]; intros s0 H0; cbn [ofold].
  { intros [= ->]. by rewrite app_nil_r. }
  intros (s1 & H1 & Hs)%obind_Ok_inv. apply record_accounted in H1 as [Ha Hturns]; [|done..].
  destruct (IH s1 Ha Hs) as [-> ?]. split; [|done]. by rewrite Hturns, <-app_assoc.
Qed.

Definition preview (s : CoreAgentState) : list N := bytes_of (default EmptyString (as_partial_response s)).

Lemma preview_step s delta :
  preview (append_partial_response_delta s delta)
    = append_bounded_suffix (preview s) (bytes_of delta) MAX_PARTIAL_RESPONSE_BYTES.
Proof.
  unfold preview, append_partial_response_delta. cbn [as_partial_response from_option id].
  apply bytes_of_string_of_bytes.
  assert (forall l, Forall (fun b => b < 256) l -> forall k, Forall (fun b => b < 256) (drop k l)) as Hdrop.
  { intros l Hl k. by apply Forall_drop. }
  unfold append_bounded_suffix. destruct (_ <=? _)%nat; [apply Hdrop, bytes_of_bound|].
  apply Forall_app. split; [|apply bytes_of_bound]. destruct (_ <? _)%nat; [apply Hdrop|]; apply bytes_of_bound.
Qed.

(** However a response is streamed, its live preview stays within 8192 bytes, is a suffix
    of the streamed text that starts at a character boundary, and is the whole text while that
    fits. *)
Theorem streaming_preview_bounded s deltas :
  as_partial_response s = None -> Forall (fun d => starts_char (bytes_of d)) deltas ->
  let streamed := concat (map bytes_of deltas) in
  let final := preview (foldl append_partial_response_delta s deltas) in
  (length final <= MAX_PARTIAL_RESPONSE_BYTES)%nat /\ final `suffix_of` streamed /\ starts_char final /\
  ((length streamed <= MAX_PARTIAL_RESPONSE_BYTES)%nat -> final = streamed).
Proof.
  intros Hs Hall.
  assert (forall s before, starts_char (preview s) -> preview s `suffix_of` before ->
    (length (preview s) <= MAX_PARTIAL_RESPONSE_BYTES)%nat ->
    ((length before <= MAX_PARTIAL_RESPONSE_BYTES)%nat -> preview s = before) ->
    let streamed := before ++ concat (map bytes_of deltas) in
    let final := preview (foldl append_partial_response_delta s deltas) in
    (length final <= MAX_PARTIAL_RESPONSE_BYTES)%nat /\ final `suffix_of` streamed /\ starts_char final /\
    ((length streamed <= MAX_PARTIAL_RESPONSE_BYTES)%nat -> final = streamed)) as Hgen.
  { clear s Hs. induction Hall as [|d deltas Hd _ IH]; intros s before Hst Hsuf Hlen Hexact; cbn zeta.
    { cbn [map concat foldl]. rewrite app_nil_r. done. }
    cbn [map concat foldl]. rewrite app_assoc.
    destruct (append_bounded_suffix_spec (preview s) (bytes_of d) MAX_PARTIAL_RESPONSE_BYTES)
      as (k & Hk & Hkl & Hks & Hk0 & _); [unfold MAX_PARTIAL_RESPONSE_BYTES; lia|done|done|].
    rewrite <-preview_step in Hk, Hkl, Hks.
    apply IH; [done| |done|].
    - rewrite Hk. transitivity (preview s ++ bytes_of d).
      + exists (take k (preview s ++ bytes_of d)). by rewrite take_drop.
      + destruct Hsuf as [pre ->]. exists pre. by rewrite app_assoc.
    - rewrite length_app. intros Hle. assert (preview s = before) as Heq by (apply Hexact; lia).
      rewrite Hk, Hk0, Heq; [done|]. rewrite Heq, length_app. lia. }
  assert (preview s = []) as Hp by (unfold preview; by rewrite Hs).
  apply (Hgen s []); rewrite Hp; [done..|cbn; lia|done].
Qed.

Lemma streaming_preview_bounded_witness :
  preview (foldl append_partial_response_delta agent_state_default ["hello, "; "world"]) = bytes_of "hello, world".
Proof.
  assert (Forall (fun d => starts_char (bytes_of d)) ["hello, "; "world"]) as Hd.
  { repeat constructor; intros b Hb; vm_compute in Hb; injection Hb as <-; reflexivity. }
  destruct (streaming_preview_bounded agent_state_default ["hello, "; "world"] eq_refl Hd) as (_ & _ & _ & Hexact).
  rewrite Hexact; [vm_compute; reflexivity|]. apply Nat.leb_le. vm_compute. reflexivity.
Defined.

(** A response the provider aborted is not part of a prepared transcript, but
    its model is still reported as the latest one. *)
Theorem aborted_response_routes origin :
  let message := Assistant (mk_assistant 1 [Text "partial"] [] (Some Aborted) None [] (Some origin)) in
  latest_physical [message] = Some origin /\
  t_messages (prepared_for (transcript_new [message]) (Some origin)) = [].
Proof. split; vm_compute; reflexivity. Qed.
