(* ===== verification/Tools.v ===== *)
(** * tea-core: tool results, their projection for the model, and the registry
    ([crates/tea-core/src/tool.rs], [scheduler.rs], and the result helpers of
    [run/mod.rs] and [run/tool_execution.rs])

    A tool is a host capability, reduced here to what the runtime reads of it.
    Results are projected to bounded text at the model boundary; the registry
    keeps its tools in registration order. *)

From stdpp Require Import base gmap sets list strings.
From S2P Require Import Prelude RustStr Json SessionErrors Configuration Messages CoreState SchemaValidation.

Local Open Scope N_scope.

(** ** Failures *)

(** [FailureSignature::new]. *)
Definition failure_signature_new (value : string) : Outcome string string :=
  if is_blank value then Err "failure signature must not be empty" else Ok value.

(** The constructors of [ToolFailure]. *)
Definition failure_cancelled : ToolFailure := mk_failure FailureCancelled None None.
Definition failure_invalid_arguments : ToolFailure := mk_failure FailureInvalidArguments None None.
Definition failure_recoverable : ToolFailure := mk_failure FailureRecoverable None None.
Definition failure_retryable (signature : string) : ToolFailure := mk_failure FailureRetryable (Some signature) None.
Definition failure_fatal (signature : string) : ToolFailure := mk_failure FailureFatal (Some signature) None.
Definition with_recovery_guidance (f : ToolFailure) (guidance : string) : ToolFailure :=
  mk_failure (tf_disposition f) (tf_signature f) (Some guidance).

(** ** Text limits *)

(** [truncation_marker]: an ellipsis, the word, an ellipsis. *)
Definition ellipsis : string := string_of_bytes [226; 128; 166].
Definition truncation_marker : string := ellipsis +:+ " [truncated] " +:+ ellipsis.

(** [utf8_prefix_end], [utf8_suffix_start]. *)
Fixpoint boundary_before (bytes : list N) (end_ : nat) : nat :=
  match end_ with
  | O => O
  | S previous => if is_char_boundary bytes end_ then end_ else boundary_before bytes previous
  end.
Definition utf8_prefix_end (bytes : list N) (limit : nat) : nat := boundary_before bytes (limit `min` length bytes).
Definition utf8_suffix_start (bytes : list N) (limit : nat) : nat :=
  utf8_boundary_at_or_after bytes (length bytes - limit).

(** [truncate_middle]. *)
Definition truncate_middle (value : string) (limit : nat) : string :=
  let bytes := bytes_of value in
  let marker := bytes_of truncation_marker in
  if (length bytes <=? limit)%nat then value
  else if (limit <=? length marker)%nat then string_of_bytes (take (utf8_prefix_end marker limit) marker)
  else
    let remaining := (limit - length marker)%nat in
    let prefix_limit := (remaining / 2)%nat in
    let suffix_limit := (remaining - prefix_limit)%nat in
    string_of_bytes (take (utf8_prefix_end bytes prefix_limit) bytes ++ marker
                     ++ drop (utf8_suffix_start bytes suffix_limit) bytes).

(** ** Projection *)

Record ToolResultProjectionPolicy := mk_projection {
  pp_max_content_bytes : nat;
  pp_max_details_bytes : nat;
  pp_max_total_bytes : nat;
  pp_deduplicate_repeated_errors : bool;
}.

(** [ToolResultProjectionPolicy::default], [validate]. *)
Definition projection_default : ToolResultProjectionPolicy :=
  mk_projection (N.to_nat 65536) (N.to_nat 65536) (N.to_nat 131072) true.
Definition LONGEST_ERROR_STATUS : string := "[tool error status: invalid_arguments]".
Definition projection_validate (p : ToolResultProjectionPolicy) : Outcome string unit :=
  let marker := str_len truncation_marker in
  let minimum_error_total := (str_len LONGEST_ERROR_STATUS + 1 + marker)%nat in
  if (pp_max_content_bytes p <? marker)%nat || (pp_max_details_bytes p <? marker)%nat
     || (pp_max_total_bytes p <? minimum_error_total)%nat
  then Err "tool result projection limits must preserve an error status and truncation marker" else Ok ().

(** [append_projected_section]. *)
Definition append_projected_section (output section : string) (total_limit : nat) : string :=
  if str_is_empty section then output
  else
    let separator_bytes := if str_is_empty output then O else 1%nat in
    let available := (total_limit - str_len output)%nat in
    if (available <=? separator_bytes)%nat then output
    else (if (separator_bytes =? 0)%nat then output else output +:+ newline)
         +:+ truncate_middle section (available - separator_bytes).

(** [error_fingerprint]: FNV-1a with 64-bit wrap-around. *)
Definition FNV_OFFSET : N := 14695981039346656037.
Definition FNV_PRIME : N := 1099511628211.
Definition fnv_step (hash byte : N) : N := (N.lxor hash byte * FNV_PRIME) mod 2 ^ 64.
Definition fnv_bytes (hash : N) (value : string) : N := foldl fnv_step hash (bytes_of value).
Definition disposition_code (d : ToolFailureDisposition) : N :=
  match d with
  | FailureCancelled => 1
  | FailureInvalidArguments => 2
  | FailureRecoverable => 3
  | FailureRetryable => 4
  | FailureFatal => 5
  end.
Definition error_fingerprint (content : string) (details : option string) (failure : option ToolFailure) : N :=
  let hash := foldl fnv_bytes FNV_OFFSET
    [content; default EmptyString details; default EmptyString (failure ≫= tf_signature)] in
  match failure with
  | None => hash
  | Some failure =>
      let hash := fnv_step hash (disposition_code (tf_disposition failure)) in
      match tf_recovery_guidance failure with Some guidance => fnv_bytes hash guidance | None => hash end
  end.

Definition error_status (failure : option ToolFailure) : string :=
  match failure with
  | Some failure =>
      match tf_disposition failure with
      | FailureCancelled => "cancelled"
      | FailureInvalidArguments => "invalid_arguments"
      | FailureRecoverable => "recoverable"
      | FailureRetryable => "retryable"
      | FailureFatal => "fatal"
      end
  | None => "recoverable"
  end.
Definition REPEATED_ERROR : string := "[repeated tool error omitted; see the earlier matching result]".

(** [project_tool_result_as_text]: the text and the fingerprints seen. *)
Definition project_tool_result_as_text (content : string) (details : option string) (is_error : bool)
    (failure : option ToolFailure) (policy : ToolResultProjectionPolicy) (seen : gset N) : string * gset N :=
  let fingerprint := error_fingerprint content details failure in
  if is_error && pp_deduplicate_repeated_errors policy && mem fingerprint seen then (REPEATED_ERROR, seen)
  else
    let seen := if is_error then {[fingerprint]} ∪ seen else seen in
    let append output section := append_projected_section output section (pp_max_total_bytes policy) in
    let projected :=
      if is_error then
        let projected := append EmptyString ("[tool error status: " +:+ error_status failure +:+ "]") in
        match failure ≫= tf_recovery_guidance with
        | Some guidance =>
            append projected ("[recovery guidance: " +:+ truncate_middle guidance (pp_max_details_bytes policy) +:+ "]")
        | None => projected
        end
      else EmptyString in
    let projected := append projected (truncate_middle content (pp_max_content_bytes policy)) in
    let projected :=
      match details with
      | Some details =>
          append projected
            ("[tool details (serialized JSON): " +:+ truncate_middle details (pp_max_details_bytes policy) +:+ "]")
      | None => projected
      end in
    (projected, seen).

(** [project_model_context]: the loop over the messages. *)
Definition project_message (policy : ToolResultProjectionPolicy) (seen : gset N) (m : AgentMessage) :
    AgentMessage * gset N :=
  match m with
  | ToolResult r =>
      let '(content, seen) :=
        project_tool_result_as_text (tr_content r) (tr_details r) (tr_is_error r) (tr_failure r) policy seen in
      (ToolResult (mk_result (tr_id r) (tr_tool_call_id r) (tr_tool_name r) content None (tr_usage r)
                     (tr_added_tool_names r) (tr_terminate r) (tr_is_error r) (tr_failure r)), seen)
  | m => (m, seen)
  end.
Fixpoint project_messages (policy : ToolResultProjectionPolicy) (seen : gset N) (messages : list AgentMessage) :
    list AgentMessage :=
  match messages with
  | [] => []
  | m :: messages =>
      let '(m, seen) := project_message policy seen m in
      m :: project_messages policy seen messages
  end.

(** [ContextEnvelope] of [hooks.rs], and [project_model_context]. *)
Record ContextEnvelope := mk_envelope {
  ce_version : N;
  ce_messages : list AgentMessage;
  ce_host_messages : list string;
}.
Definition project_model_context (context : ContextEnvelope) (policy : ToolResultProjectionPolicy) : ContextEnvelope :=
  mk_envelope (ce_version context) (project_messages policy ∅ (ce_messages context)) (ce_host_messages context).

(** ** Calls and results *)

Record ToolCall := mk_tool_call {
  cl_id : string;
  cl_name : string;
  cl_arguments : string;
}.
Definition call_of (c : AgentToolCall) : ToolCall := mk_tool_call (tc_id c) (tc_name c) (tc_arguments c).

Record AgentToolResult := mk_tool_result {
  rt_tool_call_id : string;
  rt_content : string;
  rt_details : option string;
  rt_usage : option ModelUsage;
  rt_added_tool_names : list string;
  rt_terminate : bool;
  rt_is_error : bool;
  rt_failure : option ToolFailure;
}.

Record ToolUpdate := mk_tool_update {
  up_content : string;
  up_details : option string;
  up_activity : option string;
}.

(** [ToolError] of [error.rs]. *)
Inductive ToolError :=
| ToolInvalidArguments (tool message : string)
| ToolBlocked (tool reason : string)
| ToolExecution (tool message : string)
| ToolClassified (tool message : string) (failure : ToolFailure)
| ToolCancelled (tool : string).

(** [with_failure] stands for the assignment [result.failure = ...]. *)
Definition with_failure (r : AgentToolResult) (failure : option ToolFailure) : AgentToolResult :=
  mk_tool_result (rt_tool_call_id r) (rt_content r) (rt_details r) (rt_usage r) (rt_added_tool_names r)
    (rt_terminate r) (rt_is_error r) failure.

(** [error_tool_result]. *)
Definition error_tool_result (call : ToolCall) (content : string) : AgentToolResult :=
  mk_tool_result (cl_id call) content None None [] false true (Some failure_recoverable).

(** The result written for a call that cancellation stopped. *)
Definition OPERATION_ABORTED : string := "Operation aborted".
Definition aborted_tool_result (call : ToolCall) : AgentToolResult :=
  with_failure (error_tool_result call OPERATION_ABORTED) (Some failure_cancelled).

(** [tool_error_message], [error_tool_result_from_error]. *)
Definition tool_error_message (error : ToolError) : string :=
  match error with
  | ToolInvalidArguments _ message | ToolExecution _ message | ToolClassified _ message _ => message
  | ToolBlocked _ reason => reason
  | ToolCancelled _ => OPERATION_ABORTED
  end.
Definition error_tool_result_from_error (call : ToolCall) (error : ToolError) : AgentToolResult :=
  with_failure (error_tool_result call (tool_error_message error))
    (match error with
     | ToolInvalidArguments _ _ => Some failure_invalid_arguments
     | ToolClassified _ _ failure => Some failure
     | ToolCancelled _ => Some failure_cancelled
     | ToolBlocked _ _ | ToolExecution _ _ => Some failure_recoverable
     end).

(** [normalize_result_failure]. *)
Definition normalize_result_failure (r : AgentToolResult) : AgentToolResult :=
  let r := if rt_is_error r && negb (reported (rt_failure r)) then with_failure r (Some failure_recoverable) else r in
  if negb (rt_is_error r) then with_failure r None else r.

(** [Replacement], [AfterToolCall] of [hooks.rs]. *)
Inductive Replacement (A : Type) := Keep | Replace (value : A).
Arguments Keep {A}.
Arguments Replace {A} value.
Definition replaced {A} (r : Replacement A) (old : A) : A := match r with Keep => old | Replace value => value end.

Record AfterToolCall := mk_after {
  af_content : Replacement string;
  af_details : Replacement (option string);
  af_is_error : Replacement bool;
  af_failure : Replacement (option ToolFailure);
  af_usage : Replacement ModelUsage;
  af_added_tool_names : Replacement (list string);
  af_terminate : option bool;
}.
Definition after_default : AfterToolCall := mk_after Keep Keep Keep Keep Keep Keep None.

(** [apply_after_tool_call]. *)
Definition apply_after_tool_call (r : AgentToolResult) (after : AfterToolCall) : AgentToolResult :=
  mk_tool_result (rt_tool_call_id r) (replaced (af_content after) (rt_content r))
    (replaced (af_details after) (rt_details r))
    (match af_usage after with Replace usage => Some usage | Keep => rt_usage r end)
    (replaced (af_added_tool_names after) (rt_added_tool_names r)) (default (rt_terminate r) (af_terminate after))
    (replaced (af_is_error after) (rt_is_error r))
    (replaced (af_failure after)
       (match af_is_error after with Replace false => None | _ => rt_failure r end)).

(** ** Tools and their registry *)

Inductive ToolExecutionMode := Sequential | Parallel.
Inductive CancellationSettlementMode := DropFuture | AwaitFuture.
Inductive CompositionAccess := NoComposition | CatalogAccess | CallAccess.
Inductive ToolExposure := Direct | Deferred | Composition.
#[export] Instance tool_exposure_eq_dec : EqDecision ToolExposure.
Proof. solve_decision. Defined.
#[export] Instance tool_execution_mode_eq_dec : EqDecision ToolExecutionMode.
Proof. solve_decision. Defined.
#[export] Instance settlement_mode_eq_dec : EqDecision CancellationSettlementMode.
Proof. solve_decision. Defined.
#[export] Instance composition_access_eq_dec : EqDecision CompositionAccess.
Proof. solve_decision. Defined.

(** [AgentTool]: the answers of its methods; running it belongs to the host. *)
Record AgentTool := mk_agent_tool {
  at_name : string;
  at_description : string;
  at_schema : JsonValue;
  at_execution_mode : ToolExecutionMode;
  at_requires_exclusive_batch : bool;
  at_cancellation_settlement_mode : CancellationSettlementMode;
  at_exposure : ToolExposure;
  at_composition_access : CompositionAccess;
  at_script_callable : bool;
}.

(** [ToolDeclaration::from_tool]. *)
Definition declaration_of (tool : AgentTool) : ToolDeclaration :=
  mk_tool (at_name tool) (at_description tool) (at_schema tool).

Record ToolRegistry := mk_registry {
  rg_tools : gmap string AgentTool;
  rg_order : list string;
}.
Definition registry_default : ToolRegistry := mk_registry ∅ [].

(** [ToolRegistry::{insert, remove, get, iter, declarations}]. *)
Definition registry_insert (r : ToolRegistry) (tool : AgentTool) : ToolRegistry :=
  mk_registry (<[at_name tool := tool]> (rg_tools r))
    (if reported (rg_tools r !! at_name tool) then rg_order r else rg_order r ++ [at_name tool]).
Definition registry_remove (r : ToolRegistry) (name : string) : option AgentTool * ToolRegistry :=
  match rg_tools r !! name with
  | Some tool =>
      (Some tool, mk_registry (delete name (rg_tools r))
                    (List.filter (fun entry => negb (String.eqb entry name)) (rg_order r)))
  | None => (None, r)
  end.
Definition registry_get (r : ToolRegistry) (name : string) : option AgentTool := rg_tools r !! name.
Definition registry_iter (r : ToolRegistry) : list AgentTool := omap (registry_get r) (rg_order r).
Definition registry_declarations (r : ToolRegistry) (exposure : ToolExposure) : list ToolDeclaration :=
  map declaration_of (List.filter (fun tool => bool_decide (at_exposure tool = exposure)) (registry_iter r)).

(** ** Batches *)

(** [PlannedToolCall], [ToolBatch], [CompletionSet] of [scheduler.rs]. *)
Record PlannedToolCall := mk_planned {
  pc_source_index : nat;
  pc_call : ToolCall;
  pc_execution_mode : ToolExecutionMode;
}.
Definition plan_batch (calls : list (ToolCall * ToolExecutionMode)) : list PlannedToolCall :=
  imap (fun index cm => mk_planned index cm.1 cm.2) calls.

Inductive SchedulerError := UnknownToolCall (id : string) | DuplicateCompletion (id : string).

Definition record_completion (batch : list PlannedToolCall) (results : gmap string AgentToolResult)
    (result : AgentToolResult) : gmap string AgentToolResult * Outcome SchedulerError unit :=
  let id := rt_tool_call_id result in
  if existsb (fun c => String.eqb (cl_id (pc_call c)) id) batch
  then (<[id := result]> results,
        match results !! id with Some _ => Err (DuplicateCompletion id) | None => Ok () end)
  else (results, Err (UnknownToolCall id)).
Definition in_source_order (results : gmap string AgentToolResult) (batch : list PlannedToolCall) :
    list AgentToolResult := omap (fun c => results !! cl_id (pc_call c)) batch.
