(* ===== verification/ToolsProofs.v ===== *)
(** * tea-core: projected results are bounded text, the registry is an ordered map

    Cutting a text at character boundaries keeps it UTF-8, the projection of a
    result stays within its limits, and the registry behaves as a list of tools
    in which a name keeps its place. *)

From stdpp Require Import base gmap sets list strings.
From S2P Require Import Prelude RustStr Json Ids Configuration Messages CoreState CoreStateProofs Tools.

Local Open Scope N_scope.

(** ** Text as a sequence of characters *)

(** One encoded character: a lead byte and its continuation bytes. *)
Record is_char (c : list N) : Prop := {
  char_lead : exists b rest, c = b :: rest /\ is_continuation b = false /\ forallb is_continuation rest = true;
  char_reads : forall i k, utf8_validation i (c ++ k) = utf8_validation (i + N.of_nat (length c)) k;
}.

Ltac range_facts :=
  repeat match goal with
  | H : in_range _ _ _ = true |- _ => apply andb_true_iff in H as [?%N.leb_le ?%N.leb_le]
  | H : (_ <? _) = true |- _ => apply N.ltb_lt in H
  | H : (_ <? _) = false |- _ => apply N.ltb_ge in H
  end.

Lemma range_continuation b lo hi : in_range lo hi b = true -> 128 <= lo -> hi <= 191 -> is_continuation b = true.
Proof. intros H ??. range_facts. unfold is_continuation, in_range. apply andb_true_iff. rewrite !N.leb_le. lia. Qed.
Lemma not_continuation b : b < 128 \/ 191 < b -> is_continuation b = false.
Proof.
  intros H. unfold is_continuation, in_range. apply andb_false_iff. rewrite !N.leb_gt. lia.
Qed.
Lemma second_of_three_continuation f b : second_of_three f b = true -> is_continuation b = true.
Proof. unfold second_of_three. repeat case_match; try done; intros Hb; by eapply range_continuation. Qed.
Lemma second_of_four_continuation f b : second_of_four f b = true -> is_continuation b = true.
Proof. unfold second_of_four. repeat case_match; try done; intros Hb; by eapply range_continuation. Qed.

Lemma range_lead b lo hi : in_range lo hi b = true -> 191 < lo -> is_continuation b = false.
Proof. intros H ?. range_facts. apply not_continuation. lia. Qed.

(** Valid text is a sequence of characters. *)
Lemma utf8_valid_chars n i l :
  (length l <= n)%nat -> utf8_validation i l = None -> exists cs, l = concat cs /\ Forall is_char cs.
Proof.
  revert i l. induction n as [|n IH]; intros i l Hn Hv; [destruct l; [by exists []|cbn in Hn; lia]|].
  destruct l as [|b l]; [by exists []|]. cbn [utf8_validation] in Hv. cbn [length] in Hn.
  assert (forall c k j, b :: l = c ++ k -> (1 <= length c)%nat -> is_char c -> utf8_validation j k = None ->
            exists cs, b :: l = concat cs /\ Forall is_char cs) as Hcons.
  { intros c k j Heq Hc Hchar Hk. destruct (IH j k) as (cs & -> & Hcs).
    - apply (f_equal length) in Heq. rewrite length_app in Heq. cbn in Heq. lia.
    - done.
    - exists (c :: cs). by split; [|constructor]. }
  destruct (b <? 128) eqn:Hb1.
  { eapply (Hcons [b] l); [done|done| |done]. split.
    - exists b, []. split_and!; try done. range_facts. apply not_continuation. lia.
    - intros j k. cbn [app utf8_validation length]. by rewrite Hb1. }
  destruct (in_range 194 223 b) eqn:Hb2.
  { destruct l as [|b1 l]; [done|]. destruct (is_continuation b1) eqn:Hc1; [|done].
    eapply (Hcons [b; b1] l); [done|cbn; lia| |done]. split.
    - exists b, [b1]. split_and!; [done|by eapply range_lead|]. cbn. by rewrite Hc1.
    - intros j k. cbn [app utf8_validation length]. by rewrite Hb1, Hb2, Hc1. }
  destruct (in_range 224 239 b) eqn:Hb3.
  { destruct l as [|b1 l]; [done|]. destruct (second_of_three b b1) eqn:Hc1; [|done].
    destruct l as [|b2 l]; [done|]. destruct (is_continuation b2) eqn:Hc2; [|done].
    eapply (Hcons [b; b1; b2] l); [done|cbn; lia| |done]. split.
    - exists b, [b1; b2]. split_and!; [done|by eapply range_lead|]. cbn.
      by rewrite (second_of_three_continuation _ _ Hc1), Hc2.
    - intros j k. cbn [app utf8_validation length]. by rewrite Hb1, Hb2, Hb3, Hc1, Hc2. }
  destruct (in_range 240 244 b) eqn:Hb4; [|done].
  destruct l as [|b1 l]; [done|]. destruct (second_of_four b b1) eqn:Hc1; [|done].
  destruct l as [|b2 l]; [done|]. destruct (is_continuation b2) eqn:Hc2; [|done].
  destruct l as [|b3 l]; [done|]. destruct (is_continuation b3) eqn:Hc3; [|done].
  eapply (Hcons [b; b1; b2; b3] l); [done|cbn; lia| |done]. split.
  - exists b, [b1; b2; b3]. split_and!; [done|by eapply range_lead|]. cbn.
    by rewrite (second_of_four_continuation _ _ Hc1), Hc2, Hc3.
  - intros j k. cbn [app utf8_validation length]. by rewrite Hb1, Hb2, Hb3, Hb4, Hc1, Hc2, Hc3.
Qed.

Lemma utf8_chars_valid cs i : Forall is_char cs -> utf8_validation i (concat cs) = None.
Proof.
  intros Hcs. revert i. induction Hcs as [|c cs [_ Hr] _ IH]; intros i; [done|]. cbn [concat]. by rewrite Hr.
Qed.

(** [text l]: the bytes of a valid text. *)
Definition text (l : list N) : Prop := exists cs, l = concat cs /\ Forall is_char cs.

Lemma text_valid l : text l <-> utf8_validation 0 l = None.
Proof.
  split; [intros (cs & -> & Hcs); by apply utf8_chars_valid|]. by apply (utf8_valid_chars (length l)).
Qed.
Lemma text_app l k : text l -> text k -> text (l ++ k).
Proof. intros (cs & -> & Hc) (ds & -> & Hd). exists (cs ++ ds). rewrite concat_app. by split; [|apply Forall_app]. Qed.
Lemma text_nil : text [].
Proof. by exists []. Qed.

(** A boundary inside the bytes separates whole characters. *)
Lemma boundary_splits l k :
  text l -> (k <= length l)%nat -> is_char_boundary l k = true -> text (take k l) /\ text (drop k l).
Proof.
  intros (cs & -> & Hcs). revert k. induction Hcs as [|c cs Hc Hcs IH]; intros k Hk Hb.
  { cbn in *. rewrite take_nil, drop_nil. split; apply text_nil. }
  cbn [concat] in *. rewrite length_app in Hk. destruct (decide (length c <= k)%nat) as [Hle|Hlt].
  - assert (is_char_boundary (concat cs) (k - length c) = true) as Hb'.
    { unfold is_char_boundary in *. destruct (Nat.eqb_spec (k - length c) 0) as [|Hne]; [done|].
      destruct (Nat.eqb_spec k 0); [lia|]. rewrite lookup_app_r in Hb by lia.
      destruct (concat cs !! (k - length c)%nat); [done|]. apply Nat.eqb_eq in Hb. rewrite length_app in Hb.
      apply Nat.eqb_eq. lia. }
    destruct (IH (k - length c)%nat) as [Ht Hd]; [lia|done|].
    rewrite take_app_ge, drop_app_ge by lia. split; [|done].
    apply text_app; [|done]. exists [c]. split; [by rewrite <-app_nil_r at 1|by constructor].
  - destruct Hc as [(b & rest & -> & Hlead & Hrest) Hr].
    destruct k as [|k].
    { rewrite take_0, drop_0. split; [apply text_nil|]. exists ((b :: rest) :: cs). split; [done|].
      constructor; [|done]. split; [by exists b, rest|done]. }
    exfalso. cbn [length] in Hlt. unfold is_char_boundary in Hb. cbn [Nat.eqb] in Hb.
    destruct (lookup_lt_is_Some_2 rest k) as [x Hx]; [lia|].
    replace (((b :: rest) ++ concat cs) !! S k) with (Some x) in Hb
      by (rewrite <-app_comm_cons, lookup_cons; by rewrite lookup_app_l by lia).
    rewrite forallb_elem in Hrest. apply list_elem_of_lookup_2 in Hx. by rewrite Hrest in Hb.
Qed.

(** ** Truncation *)

Lemma boundary_before_spec bytes k :
  (boundary_before bytes k <= k)%nat /\ is_char_boundary bytes (boundary_before bytes k) = true.
Proof.
  induction k as [|k [IH1 IH2]]; cbn [boundary_before]; [done|].
  destruct (is_char_boundary bytes (S k)) eqn:Hb; [done|]. split; [lia|done].
Qed.

Lemma utf8_prefix_end_spec bytes limit :
  (utf8_prefix_end bytes limit <= limit)%nat /\ (utf8_prefix_end bytes limit <= length bytes)%nat
  /\ is_char_boundary bytes (utf8_prefix_end bytes limit) = true.
Proof.
  unfold utf8_prefix_end. destruct (boundary_before_spec bytes (limit `min` length bytes)) as [Hle Hb].
  split_and!; [lia..|done].
Qed.
Lemma utf8_suffix_start_spec bytes limit :
  (length bytes - limit <= utf8_suffix_start bytes limit)%nat /\ (utf8_suffix_start bytes limit <= length bytes)%nat
  /\ is_char_boundary bytes (utf8_suffix_start bytes limit) = true.
Proof.
  unfold utf8_suffix_start, utf8_boundary_at_or_after.
  destruct (boundary_from_spec (length bytes) bytes (length bytes - limit)) as (H1 & H2 & H3 & _); [lia|].
  split_and!; [lia..|]. destruct (decide (boundary_from (length bytes) bytes (length bytes - limit) < length bytes)%nat) as [|Hge];
    [by apply H3|].
  assert (boundary_from (length bytes) bytes (length bytes - limit) = length bytes) as -> by lia.
  unfold is_char_boundary. destruct (Nat.eqb_spec (length bytes) 0); [done|].
  rewrite lookup_ge_None_2 by lia. apply Nat.eqb_refl.
Qed.

Lemma truncate_middle_bytes value limit :
  (length (bytes_of value) <= limit)%nat \/ exists prefix suffix middle,
    bytes_of (truncate_middle value limit) = prefix ++ middle ++ suffix
    /\ (length (prefix ++ middle ++ suffix) <= limit)%nat
    /\ (text (bytes_of value) -> text (prefix ++ middle ++ suffix))
    /\ ((str_len truncation_marker < limit)%nat ->
        middle = bytes_of truncation_marker /\ prefix `prefix_of` bytes_of value /\ suffix `suffix_of` bytes_of value).
Proof.
  destruct (Nat.leb_spec (length (bytes_of value)) limit) as [Hle|Hgt]; [by left|]. right.
  assert (text (bytes_of truncation_marker)) as Hmarker by (apply text_valid; vm_compute; done).
  assert (forall l, Forall (fun b => b < 256) l -> bytes_of (string_of_bytes l) = l) as Hid by apply bytes_of_string_of_bytes.
  unfold truncate_middle. destruct (Nat.leb_spec (length (bytes_of value)) limit); [lia|].
  destruct (Nat.leb_spec limit (length (bytes_of truncation_marker))) as [Hsmall|Hlarge].
  - destruct (utf8_prefix_end_spec (bytes_of truncation_marker) limit) as (H1 & H2 & H3).
    exists [], [], (take (utf8_prefix_end (bytes_of truncation_marker) limit) (bytes_of truncation_marker)).
    rewrite app_nil_r. cbn [app]. rewrite length_take. split_and!.
    + apply Hid, Forall_take, bytes_of_bound.
    + lia.
    + intros _. by apply boundary_splits.
    + unfold str_len. rewrite <-length_bytes_of. lia.
  - destruct (utf8_prefix_end_spec (bytes_of value) ((limit - length (bytes_of truncation_marker)) / 2)) as (H1 & H2 & H3).
    destruct (utf8_suffix_start_spec (bytes_of value)
      (limit - length (bytes_of truncation_marker) - (limit - length (bytes_of truncation_marker)) / 2)) as (H4 & H5 & H6).
    set (p := utf8_prefix_end _ _) in *. set (q := utf8_suffix_start _ _) in *.
    exists (take p (bytes_of value)), (drop q (bytes_of value)), (bytes_of truncation_marker). split_and!.
    + apply Hid. rewrite !Forall_app. split_and!; [apply Forall_take|..|apply Forall_drop]; apply bytes_of_bound.
    + rewrite !length_app, length_take, length_drop.
      assert ((limit - length (bytes_of truncation_marker)) / 2 <= limit - length (bytes_of truncation_marker))%nat
        by (apply Nat.Div0.div_le_upper_bound; lia). lia.
    + intros Hv. apply text_app; [by apply boundary_splits|]. apply text_app; [done|by apply boundary_splits].
    + intros _. split_and!; [done|apply prefix_take|apply suffix_drop].
Qed.

Lemma truncate_middle_short value limit : (str_len value <= limit)%nat -> truncate_middle value limit = value.
Proof.
  unfold truncate_middle, str_len. rewrite <-length_bytes_of. intros Hle. by apply Nat.leb_le in Hle as ->.
Qed.
Lemma truncate_middle_bounded value limit : (str_len (truncate_middle value limit) <= limit)%nat.
Proof.
  destruct (truncate_middle_bytes value limit) as [Hle|(p & s & m & Heq & Hlen & _)].
  - rewrite truncate_middle_short; unfold str_len; by rewrite <-length_bytes_of.
  - unfold str_len. by rewrite <-length_bytes_of, Heq.
Qed.
Lemma truncate_middle_text value limit : text (bytes_of value) -> text (bytes_of (truncate_middle value limit)).
Proof.
  intros Hv. destruct (truncate_middle_bytes value limit) as [Hle|(p & s & m & -> & _ & Ht & _)]; [|by apply Ht].
  rewrite truncate_middle_short; [done|]. unfold str_len. by rewrite <-length_bytes_of.
Qed.

(** ** Projection *)

Lemma text_concat s t : text (bytes_of s) -> text (bytes_of t) -> text (bytes_of (s +:+ t)).
Proof. rewrite bytes_of_app. apply text_app. Qed.

Lemma str_len_empty s : str_is_empty s = true <-> str_len s = O.
Proof. by destruct s. Qed.

Lemma append_section_bounded output section limit :
  (str_len output <= limit)%nat -> (str_len (append_projected_section output section limit) <= limit)%nat.
Proof.
  intros Ho. unfold append_projected_section. destruct (str_is_empty section); [done|].
  pose proof (truncate_middle_bounded section (limit - str_len output - (if str_is_empty output then 0 else 1))) as Ht.
  destruct (Nat.leb_spec (limit - str_len output) (if str_is_empty output then 0 else 1)%nat) as [|Hlt]; [done|].
  destruct (str_is_empty output) eqn:Hempty; cbn [Nat.eqb]; rewrite !str_len_app; [lia|].
  assert (str_len newline = 1%nat) as -> by reflexivity. lia.
Qed.

(** What was written stays in front. *)
Lemma append_section_extends output section limit :
  exists rest, append_projected_section output section limit = output +:+ rest
    /\ (text (bytes_of section) -> text (bytes_of rest)).
Proof.
  unfold append_projected_section.
  assert (exists rest, output = output +:+ rest /\ (text (bytes_of section) -> text (bytes_of rest))) as Hsame.
  { exists EmptyString. split; [|intros _; apply text_nil]. apply bytes_of_inj. by rewrite bytes_of_app, app_nil_r. }
  destruct (str_is_empty section); [done|]. case_match; [done|].
  destruct (str_is_empty output); cbn [Nat.eqb].
  - eexists. split; [done|]. apply truncate_middle_text.
  - exists (newline +:+ truncate_middle section (limit - str_len output - 1)). split.
    + apply bytes_of_inj. by rewrite !bytes_of_app, <-app_assoc.
    + intros Hs. apply text_concat; [apply text_valid; vm_compute; done|by apply truncate_middle_text].
Qed.

Lemma append_section_text output section limit :
  text (bytes_of output) -> text (bytes_of section) -> text (bytes_of (append_projected_section output section limit)).
Proof.
  intros Ho Hs. destruct (append_section_extends output section limit) as (rest & -> & Hr).
  apply text_concat; [done|by apply Hr].
Qed.

Lemma append_section_first section limit :
  (str_len section <= limit)%nat -> append_projected_section EmptyString section limit = section.
Proof.
  intros Hs. unfold append_projected_section. destruct (str_is_empty section) eqn:He; [by destruct section|].
  assert (str_len section <> O) as Hne by (by rewrite <-str_len_empty, He).
  cbn [str_is_empty]. rewrite Nat.sub_0_r. destruct (Nat.leb_spec limit 0); [lia|]. cbn [Nat.eqb].
  by rewrite Nat.sub_0_r, truncate_middle_short.
Qed.

Definition status_line (failure : option ToolFailure) : string := "[tool error status: " +:+ error_status failure +:+ "]".

Lemma status_line_short failure : (str_len (status_line failure) <= str_len LONGEST_ERROR_STATUS)%nat.
Proof. unfold status_line, error_status. destruct failure as [[[] ? ?]|]; vm_compute; lia. Qed.
Lemma status_line_text failure : text (bytes_of (status_line failure)).
Proof. apply text_valid. unfold status_line, error_status. destruct failure as [[[] ? ?]|]; vm_compute; done. Qed.

(** A text starts with another. *)
Definition starts_with (prefix s : string) : Prop := exists rest, s = prefix +:+ rest.
Lemma starts_with_refl s : starts_with s s.
Proof. exists EmptyString. apply bytes_of_inj. by rewrite bytes_of_app, app_nil_r. Qed.
Lemma starts_with_append p output section limit :
  starts_with p output -> starts_with p (append_projected_section output section limit).
Proof.
  intros (r & ->). destruct (append_section_extends (p +:+ r) section limit) as (rest & -> & _).
  exists (r +:+ rest). apply bytes_of_inj. by rewrite !bytes_of_app, app_assoc.
Qed.

Lemma bracketed_text before inside :
  text (bytes_of before) -> text (bytes_of inside) -> text (bytes_of (before +:+ inside +:+ "]")).
Proof. intros Hb Hi. apply text_concat; [done|]. apply text_concat; [done|]. apply text_valid. vm_compute. done. Qed.

(** The texts of a result are valid. *)
Definition opt_text (o : option string) : Prop := match o with Some s => utf8_ok s = true | None => True end.

Lemma utf8_ok_text s : utf8_ok s = true <-> text (bytes_of s).
Proof. unfold utf8_ok. rewrite text_valid. by destruct (utf8_validation 0 (bytes_of s)). Qed.

(** The text of a result that is not a repetition. *)
Definition projected_text (content : string) (details : option string) (is_error : bool) (failure : option ToolFailure)
    (policy : ToolResultProjectionPolicy) : string :=
  foldl (fun output section => append_projected_section output section (pp_max_total_bytes policy)) EmptyString
    ((if is_error then
        status_line failure ::
        match failure ≫= tf_recovery_guidance with
        | Some guidance => ["[recovery guidance: " +:+ truncate_middle guidance (pp_max_details_bytes policy) +:+ "]"]
        | None => []
        end
      else [])
     ++ truncate_middle content (pp_max_content_bytes policy) ::
     match details with
     | Some details =>
         ["[tool details (serialized JSON): " +:+ truncate_middle details (pp_max_details_bytes policy) +:+ "]"]
     | None => []
     end).

Lemma project_tool_result_cases content details is_error failure policy seen :
  (project_tool_result_as_text content details is_error failure policy seen).1
    = if is_error && pp_deduplicate_repeated_errors policy && mem (error_fingerprint content details failure) seen
      then REPEATED_ERROR else projected_text content details is_error failure policy.
Proof.
  unfold project_tool_result_as_text, projected_text. case_match; [done|]. cbn [fst].
  destruct is_error, (failure ≫= tf_recovery_guidance), details; done.
Qed.

Lemma sections_bounded sections limit output :
  (str_len output <= limit)%nat ->
  (str_len (foldl (fun output section => append_projected_section output section limit) output sections) <= limit)%nat.
Proof.
  revert output. induction sections as [|s l IH]; intros output Ho; cbn [foldl]; [done|]. by apply IH, append_section_bounded.
Qed.
Lemma sections_text sections limit output :
  text (bytes_of output) -> Forall (fun s => text (bytes_of s)) sections ->
  text (bytes_of (foldl (fun output section => append_projected_section output section limit) output sections)).
Proof.
  intros Ho Hs. revert output Ho. induction Hs as [|s l Hs _ IH]; intros output Ho; cbn [foldl]; [done|].
  by apply IH, append_section_text.
Qed.
Lemma sections_start p sections limit output :
  starts_with p output ->
  starts_with p (foldl (fun output section => append_projected_section output section limit) output sections).
Proof.
  revert output. induction sections as [|s l IH]; intros output Ho; cbn [foldl]; [done|]. by apply IH, starts_with_append.
Qed.

Lemma projected_sections_text content details is_error failure policy :
  utf8_ok content = true -> opt_text details -> opt_text (failure ≫= tf_recovery_guidance) ->
  text (bytes_of (projected_text content details is_error failure policy)).
Proof.
  intros Hc Hd Hg. apply sections_text; [apply text_nil|]. rewrite utf8_ok_text in Hc.
  assert (forall before inside n, utf8_ok before = true -> utf8_ok inside = true ->
            text (bytes_of (before +:+ truncate_middle inside n +:+ "]"))) as Hbr.
  { intros before inside n Hb Hi. rewrite utf8_ok_text in Hb, Hi. by apply bracketed_text, truncate_middle_text. }
  apply Forall_app; split.
  - destruct is_error; [|constructor]. constructor; [apply status_line_text|].
    destruct (failure ≫= tf_recovery_guidance); constructor; [by apply Hbr|constructor].
  - constructor; [by apply truncate_middle_text|]. destruct details; constructor; [by apply Hbr|constructor].
Qed.

(** Under a valid policy the text of a tool result shown to the model is valid UTF-8 and
    either the fixed notice for a repeated error or at most the total limit in bytes, with the
    error status first when the result is an error. *)
Theorem projected_result_bounded content details is_error failure policy seen :
  projection_validate policy = Ok tt ->
  utf8_ok content = true -> opt_text details -> opt_text (failure ≫= tf_recovery_guidance) ->
  let shown := (project_tool_result_as_text content details is_error failure policy seen).1 in
  utf8_ok shown = true
  /\ (shown = REPEATED_ERROR /\ is_error = true
      \/ (str_len shown <= pp_max_total_bytes policy)%nat /\ (is_error = true -> starts_with (status_line failure) shown)).
Proof.
  intros Hp Hc Hd Hg shown. subst shown. rewrite project_tool_result_cases.
  destruct is_error; cbn [andb]; [destruct (pp_deduplicate_repeated_errors policy && mem _ seen)|].
  - split; [by vm_compute|]. by left.
  - split; [by apply utf8_ok_text, projected_sections_text|]. right. split; [by apply sections_bounded, Nat.le_0_l|].
    intros _. unfold projected_text. cbn [app foldl]. apply sections_start. rewrite append_section_first; [apply starts_with_refl|].
    unfold projection_validate in Hp.
    destruct (Nat.ltb_spec (pp_max_total_bytes policy) (str_len LONGEST_ERROR_STATUS + 1 + str_len truncation_marker)).
    + by rewrite orb_true_r in Hp.
    + pose proof (status_line_short failure). lia.
  - split; [by apply utf8_ok_text, projected_sections_text|]. right. split; [by apply sections_bounded, Nat.le_0_l|done].
Qed.

Lemma projected_result_bounded_witness :
  let policy := mk_projection 40 40 100 true in
  let shown := (project_tool_result_as_text "No such file: notes.txt" None true (Some failure_recoverable) policy ∅).1 in
  (str_len shown <= 100)%nat /\ starts_with (status_line (Some failure_recoverable)) shown.
Proof.
  destruct (projected_result_bounded "No such file: notes.txt" None true (Some failure_recoverable)
              (mk_projection 40 40 100 true) ∅) as [_ [[Heq _]|[Hlen Hstart]]]; [reflexivity|reflexivity|exact I|exact I| |].
  - vm_compute in Heq. discriminate Heq.
  - split; [exact Hlen|by apply Hstart].
Defined.

(** The notice for a repeated error is longer than limits the policy check accepts. *)
Theorem repeated_error_exceeds_limit :
  let policy := mk_projection 19 19 58 true in
  let seen := (project_tool_result_as_text "denied" None true None policy ∅).2 in
  projection_validate policy = Ok tt
  /\ (pp_max_total_bytes policy < str_len (project_tool_result_as_text "denied" None true None policy seen).1)%nat.
Proof. split; [reflexivity|]. vm_compute. lia. Qed.

(** ** The registry *)

(** The specification: a list of tools with distinct names. *)
Fixpoint upsert (tool : AgentTool) (tools : list AgentTool) : list AgentTool :=
  match tools with
  | [] => [tool]
  | t :: tools => if String.eqb (at_name t) (at_name tool) then tool :: tools else t :: upsert tool tools
  end.
Definition drop_tool (name : string) (tools : list AgentTool) : list AgentTool :=
  List.filter (fun t => negb (String.eqb (at_name t) name)) tools.
Definition tool_named (name : string) (tools : list AgentTool) : option AgentTool :=
  List.find (fun t => String.eqb (at_name t) name) tools.

(** The names in order are the names in the map, once each. *)
Record registry_wf (r : ToolRegistry) : Prop := {
  rw_order : NoDup (rg_order r);
  rw_names : forall name, name ∈ rg_order r <-> is_Some (rg_tools r !! name);
  rw_keys : forall name tool, rg_tools r !! name = Some tool -> at_name tool = name;
}.

Inductive registry_built : ToolRegistry -> Prop :=
| built_default : registry_built registry_default
| built_insert r tool : registry_built r -> registry_built (registry_insert r tool)
| built_remove r name : registry_built r -> registry_built (registry_remove r name).2.

Lemma reported_is_Some {A} (o : option A) : reported o = true <-> is_Some o.
Proof. destruct o; split; [eauto|done..|by intros []]. Qed.

Lemma registry_insert_wf r tool : registry_wf r -> registry_wf (registry_insert r tool).
Proof.
  intros [Ho Hn Hk]. split; cbn [registry_insert rg_tools rg_order].
  - destruct (reported _) eqn:Hr; [done|]. apply NoDup_app. split_and!; [done| |apply NoDup_singleton].
    intros x Hx ->%list_elem_of_singleton. apply Hn, reported_is_Some in Hx. congruence.
  - intros name. rewrite lookup_insert_is_Some. destruct (reported _) eqn:Hr.
    + rewrite Hn. apply reported_is_Some in Hr. destruct (decide (at_name tool = name)) as [<-|]; naive_solver.
    + rewrite elem_of_app, list_elem_of_singleton, Hn. destruct (decide (at_name tool = name)) as [<-|]; naive_solver.
  - intros name t [[<- <-]|[_ Ht]]%lookup_insert_Some; [done|]. by apply Hk.
Qed.

Lemma registry_remove_wf r name : registry_wf r -> registry_wf (registry_remove r name).2.
Proof.
  intros Hw. pose proof Hw as [Ho Hn Hk]. unfold registry_remove. destruct (rg_tools r !! name) as [tool|] eqn:Hl; [|done].
  split; cbn [snd rg_tools rg_order].
  - by apply NoDup_ListNoDup, List.NoDup_filter, NoDup_ListNoDup.
  - intros x. rewrite list_elem_of_In, filter_In, <-list_elem_of_In, Hn, lookup_delete_is_Some, negb_true_iff, String.eqb_neq.
    naive_solver.
  - intros x t [_ Ht]%lookup_delete_Some. by apply Hk.
Qed.

Lemma registry_built_wf r : registry_built r -> registry_wf r.
Proof.
  induction 1; [|by apply registry_insert_wf|by apply registry_remove_wf].
  split; cbn; [constructor|..].
  - intros name. rewrite lookup_empty. split; [by intros ?%not_elem_of_nil|by intros []].
  - intros name tool. by rewrite lookup_empty.
Qed.

(** Looking names up in order. *)
Lemma omap_lookup_names tools (order : list string) :
  (forall name, name ∈ order -> is_Some (tools !! name)) ->
  (forall name tool, tools !! name = Some tool -> at_name tool = name) ->
  map at_name (omap (fun name => (tools : gmap string AgentTool) !! name) order) = order.
Proof.
  intros Hn Hk. induction order as [|name order IH]; cbn [omap list_omap map]; [done|].
  destruct (Hn name) as [tool Ht]; [by left|]. rewrite Ht. cbn [map]. rewrite (Hk _ _ Ht), IH; [done|].
  intros x Hx. apply Hn. by right.
Qed.
Lemma registry_iter_names r : registry_wf r -> map at_name (registry_iter r) = rg_order r.
Proof. intros [Ho Hn Hk]. apply omap_lookup_names; [|done]. intros name. by rewrite Hn. Qed.

Lemma upsert_fresh tool tools : at_name tool ∉ map at_name tools -> upsert tool tools = tools ++ [tool].
Proof.
  induction tools as [|t tools IH]; cbn [upsert map]; [done|]. intros [Hne Ht]%not_elem_of_cons.
  destruct (String.eqb_spec (at_name t) (at_name tool)) as [Heq|]; [by rewrite Heq in Hne|]. by rewrite IH.
Qed.

(** Replacing the entry of one name. *)
Lemma omap_insert_other (tools : gmap string AgentTool) tool (order : list string) :
  at_name tool ∉ order -> omap (fun name => <[at_name tool := tool]> tools !! name) order = omap (fun name => tools !! name) order.
Proof.
  induction order as [|name order IH]; cbn [omap list_omap]; [done|]. intros [Hne Ho]%not_elem_of_cons.
  rewrite lookup_insert_ne by done. by rewrite IH.
Qed.
Lemma omap_insert_upsert (tools : gmap string AgentTool) tool (order : list string) :
  NoDup order -> at_name tool ∈ order -> (forall name, name ∈ order -> is_Some (tools !! name)) ->
  (forall name t, tools !! name = Some t -> at_name t = name) ->
  omap (fun name => <[at_name tool := tool]> tools !! name) order = upsert tool (omap (fun name => tools !! name) order).
Proof.
  intros Hd Hin Hn Hk. induction order as [|name order IH]; [by apply not_elem_of_nil in Hin|].
  apply NoDup_cons in Hd as [Hname Hd]. cbn [omap list_omap]. destruct (Hn name) as [t Ht]; [by left|]. rewrite Ht.
  destruct (decide (at_name tool = name)) as [<-|Hne].
  - rewrite lookup_insert_eq. cbn [upsert]. rewrite (Hk _ _ Ht), String.eqb_refl. by rewrite omap_insert_other.
  - rewrite lookup_insert_ne, Ht by done. cbn [upsert]. rewrite (Hk _ _ Ht).
    apply elem_of_cons in Hin as [|Hin]; [done|]. assert (name <> at_name tool) as ->%String.eqb_neq by done.
    rewrite IH; [done..|]. intros x Hx. apply Hn. by right.
Qed.
Lemma omap_delete_filter (tools : gmap string AgentTool) name (order : list string) :
  (forall name t, tools !! name = Some t -> at_name t = name) ->
  omap (fun x => delete name tools !! x) (List.filter (fun entry => negb (String.eqb entry name)) order)
    = drop_tool name (omap (fun x => tools !! x) order).
Proof.
  intros Hk. unfold drop_tool. induction order as [|x order IH]; [done|]. cbn [omap list_omap List.filter].
  destruct (String.eqb_spec x name) as [->|Hne]; cbn [negb].
  - rewrite IH. destruct (tools !! name) as [t|] eqn:Ht; [|done]. cbn [List.filter]. by rewrite (Hk _ _ Ht), String.eqb_refl.
  - cbn [omap list_omap]. rewrite lookup_delete_ne by done. rewrite IH. destruct (tools !! x) as [t|] eqn:Ht; [|done].
    cbn [List.filter]. rewrite (Hk _ _ Ht). by apply String.eqb_neq in Hne as ->.
Qed.

(** The registry implements a list of tools with distinct names: insertion replaces in place or
    appends, removal and lookup go by name. *)
Theorem registry_refines_list r :
  registry_built r ->
  NoDup (map at_name (registry_iter r))
  /\ (forall name, registry_get r name = tool_named name (registry_iter r))
  /\ (forall tool, registry_iter (registry_insert r tool) = upsert tool (registry_iter r))
  /\ (forall name, registry_iter (registry_remove r name).2 = drop_tool name (registry_iter r)
                   /\ (registry_remove r name).1 = tool_named name (registry_iter r)).
Proof.
  intros Hb%registry_built_wf. pose proof Hb as [Ho Hn Hk].
  assert (forall name, registry_get r name = tool_named name (registry_iter r)) as Hget.
  { intros name. unfold tool_named. destruct (List.find _ (registry_iter r)) as [t|] eqn:Hf.
    - apply find_some in Hf as [Hin%list_elem_of_In <-%String.eqb_eq]. unfold registry_iter in Hin.
      apply list_elem_of_omap in Hin as (x & _ & Hx). unfold registry_get in *. by rewrite (Hk _ _ Hx).
    - destruct (registry_get r name) as [t|] eqn:Hg; [|done]. exfalso.
      assert (name ∈ map at_name (registry_iter r)) as Hin by (rewrite registry_iter_names by done; apply Hn; eauto).
      apply list_elem_of_fmap in Hin as (u & Hu & Hin). apply find_none with (x := u) in Hf; [|by apply list_elem_of_In].
      by rewrite <-Hu, String.eqb_refl in Hf. }
  split_and!; [by rewrite registry_iter_names|done| |].
  - intros tool. unfold registry_iter at 1. cbn [registry_insert rg_order rg_tools]. unfold registry_get. cbn [rg_tools registry_insert].
    destruct (reported _) eqn:Hr.
    + apply omap_insert_upsert; [done|by apply Hn, reported_is_Some|intros name; by rewrite Hn|done].
    + assert (at_name tool ∉ rg_order r) as Hfresh by (rewrite Hn; intros ?%reported_is_Some; congruence).
      rewrite omap_app, omap_insert_other by done. cbn [omap list_omap]. rewrite lookup_insert_eq.
      rewrite upsert_fresh; [done|]. by rewrite registry_iter_names.
  - intros name. rewrite <-Hget. unfold registry_remove, registry_get. destruct (rg_tools r !! name) as [t|] eqn:Hl; cbn [fst snd].
    + split; [by apply omap_delete_filter|done].
    + split; [|done]. unfold drop_tool. symmetry. apply filter_all. intros t Ht.
      apply negb_true_iff, String.eqb_neq. intros Hname. unfold registry_iter in Ht.
      apply list_elem_of_omap in Ht as (x & _ & Hx). unfold registry_get in Hx. rewrite <-(Hk _ _ Hx), Hname in Hx. congruence.
Qed.

Definition sample_tool (name : string) : AgentTool :=
  mk_agent_tool name "" JsonNull Parallel false DropFuture Direct NoComposition true.

Lemma registry_refines_list_witness :
  registry_iter (registry_insert (registry_insert (registry_insert registry_default (sample_tool "a")) (sample_tool "b"))
                   (sample_tool "a")) = [sample_tool "a"; sample_tool "b"].
Proof.
  destruct (registry_refines_list (registry_insert (registry_insert registry_default (sample_tool "a")) (sample_tool "b")))
    as (_ & _ & Hinsert & _); [repeat constructor|]. rewrite Hinsert. reflexivity.
Defined.
