(* ===== verification/Compaction.v ===== *)
(** * tea-core: the data and pure steps of a compaction
    ([crates/tea-core/src/compaction.rs], and the automatic-compaction helpers
    of [run/mod.rs])

    A compactor proposes a replacement for the retained conversation.  Before
    it is adopted its structure is validated, the configuration in force is
    carried over, and an automatic replacement must keep the suffix that the
    split selected and really shrink the conversation. *)

From stdpp Require Import base gmap sets list strings.
From S2P Require Import Prelude RustStr Json Ids SessionErrors Configuration Messages Transcript TranscriptJson.
From S2P Require Import CoreState.

Local Open Scope N_scope.

(** ** Equality of messages: the derived [PartialEq] *)

#[export] Instance model_descriptor_eq_dec : EqDecision ModelDescriptor.
Proof. solve_decision. Defined.
#[export] Instance stop_reason_eq_dec : EqDecision StopReason.
Proof. solve_decision. Defined.
#[export] Instance agent_tool_call_eq_dec : EqDecision AgentToolCall.
Proof. solve_decision. Defined.
#[export] Instance model_usage_eq_dec : EqDecision ModelUsage.
Proof. solve_decision. Defined.
#[export] Instance failure_disposition_eq_dec : EqDecision ToolFailureDisposition.
Proof. solve_decision. Defined.
#[export] Instance tool_failure_eq_dec : EqDecision ToolFailure.
Proof. solve_decision. Defined.
#[export] Instance assistant_message_eq_dec : EqDecision AssistantMessage.
Proof. solve_decision. Defined.
#[export] Instance tool_result_message_eq_dec : EqDecision ToolResultMessage.
Proof. solve_decision. Defined.
#[export] Instance configuration_change_eq_dec : EqDecision SectionChange.
Proof. solve_decision. Defined.

#[export] Instance configuration_update_eq : PartialEq ConfigurationUpdate := fun a b =>
  (cu_sections a ==? cu_sections b) && (cu_tools_added a ==? cu_tools_added b)
  && (cu_tools_removed a ==? cu_tools_removed b).

#[export] Instance agent_message_eq : PartialEq AgentMessage := fun a b =>
  match a, b with
  | User i s, User j t => (i =? j) && (s ==? t)
  | Assistant a, Assistant b => a ==? b
  | ToolResult r, ToolResult s => r ==? s
  | System i u, System j v => (i =? j) && (u ==? v)
  | _, _ => false
  end.

(** ** Data *)

Definition COMPACTION_CONTEXT_VERSION : N := 1.
Definition CACHE_REPLAY_SUMMARY_V1 : string := "cache_replay_summary_v1".

Record CompactionId := mk_compaction_id { ci_run_id : N; ci_ordinal : N }.

Inductive CompactionTrigger := TriggerManual | TriggerAutomatic.
Inductive CompactionReason := UserRequest | ThresholdCrossed | ProviderOverflow.
Inductive CompactionPhase := StandalonePhase | BeforeModelRequest | BetweenModelCalls.
Inductive CompactionImplementation := CallerSupplied | DeterministicFixture | ProviderSummarization.
Inductive CompactionRequestLayout := ExactReplay | StandaloneFallback | Unobserved.

Record CompactionStrategy := mk_strategy {
  cs_id : string;
  cs_schema_version : N;
  cs_implementation : CompactionImplementation;
  cs_request_layout : CompactionRequestLayout;
  cs_prompt_fingerprint : option N;
}.

(** [CompactionStrategy::{caller_supplied, cache_replay_summary_v1}]. *)
Definition caller_supplied : CompactionStrategy := mk_strategy "caller_supplied_v1" 1 CallerSupplied Unobserved None.
Definition cache_replay_summary_v1 (prompt_fingerprint : N) : CompactionStrategy :=
  mk_strategy CACHE_REPLAY_SUMMARY_V1 1 ProviderSummarization ExactReplay (Some prompt_fingerprint).

Record CompactionOperation := mk_compaction_operation {
  co_id : CompactionId;
  co_trigger : CompactionTrigger;
  co_reason : CompactionReason;
  co_phase : CompactionPhase;
  co_strategy : CompactionStrategy;
  co_source_history_revision : N;
  co_attempt : N;
  co_automatic_ordinal : option N;
  co_overflow_retry_ordinal : option N;
  co_retry_provider_request : bool;
}.

Record CompactionReplacement := mk_replacement {
  cr_operation : CompactionOperation;
  cr_source_messages : list AgentMessage;
  cr_replacement_messages : list AgentMessage;
}.

Record CompactionSourceObservation := mk_source_observation {
  so_canonical_message_count : nat;
  so_canonical_message_bytes : N;
  so_source_message_ids : list N;
  so_retained_message_ids : list N;
  so_split_turn_prefix_ids : list N;
  so_retained_suffix_bytes : N;
  so_tool_result_bytes : N;
}.

Record CompactorRequestObservation := mk_request_observation {
  ro_layout : CompactionRequestLayout;
  ro_provider_context_bytes : option N;
  ro_tool_count : option nat;
  ro_tools_execution_prohibited : bool;
  ro_source_is_active_context_prefix : option bool;
}.

Record CompactionProposalObservation := mk_proposal_observation {
  po_replacement_message_count : nat;
  po_replacement_bytes : N;
  po_estimated_context_tokens_after : option N;
  po_headroom_tokens : option N;
  po_structural_validation_passed : bool;
  po_retained_suffix_exact : bool;
  po_source_generation_matches : bool;
}.

Inductive CompactionRejection :=
| StaleSourceGeneration | RetainedSuffixMismatch | InvalidStructure | EmptyCheckpoint | UnexpectedToolCall
| NonShrinkingReplacement | InsufficientHeadroom | PolicyCapReached | RejectedCancelled | RejectedTimedOut.

Inductive CompactionTerminalOutcome :=
| CompactionCommitted
| CompactionRejected (rejection : CompactionRejection)
| CompactionFailed
| CompactionCancelled
| CompactionTimedOut
| CompactionUnavailable.

(** [AdapterRequestObservation] belongs to the provider boundary. *)
Inductive CompactionLifecycleRecord (Observation : Type) :=
| CompactionStarted (operation : CompactionOperation)
| SourceSelected (id : CompactionId) (source : CompactionSourceObservation)
| RequestPrepared (id : CompactionId) (request : CompactorRequestObservation)
| ProviderUsageObserved (id : CompactionId) (usage : option ModelUsage) (request_observation : option Observation)
    (request : option CompactorRequestObservation)
| ReplacementProposed (id : CompactionId) (proposal : CompactionProposalObservation)
| CompactionTerminal (id : CompactionId) (outcome : CompactionTerminalOutcome).
Arguments CompactionStarted {Observation}.
Arguments SourceSelected {Observation}.
Arguments RequestPrepared {Observation}.
Arguments ProviderUsageObserved {Observation}.
Arguments ReplacementProposed {Observation}.
Arguments CompactionTerminal {Observation}.

Inductive AutomaticCompactionReason := AutomaticThreshold | AutomaticOverflow.
Inductive ContextBudgetSource := ContextWindow (tokens : N) | ContextBudget (tokens : N).

(** [ContextBudgetSource::tokens]; the number is a [NonZeroU64]. *)
Definition budget_tokens (b : ContextBudgetSource) : N :=
  match b with ContextWindow tokens | ContextBudget tokens => tokens end.

Inductive OverflowRecovery := RecoveryDisabled | CompactAndRetry.
#[export] Instance overflow_recovery_eq_dec : EqDecision OverflowRecovery.
Proof. solve_decision. Defined.

Record AutomaticCompactionPolicy := mk_automatic_policy {
  ap_enabled : bool;
  ap_context_budget : ContextBudgetSource;
  ap_reserved_tokens : N;
  ap_minimum_headroom_tokens : N;
  ap_recent_tokens : N;
  ap_overflow_recovery : OverflowRecovery;
  ap_max_compactions_per_run : N;
  ap_max_overflow_retries_per_run : N;
}.

(** [AutomaticCompactionPolicy::{disabled, validate, threshold_tokens}]. *)
Definition policy_disabled : AutomaticCompactionPolicy :=
  mk_automatic_policy false (ContextBudget 1) 0 0 0 RecoveryDisabled 0 0.
Definition policy_validate (p : AutomaticCompactionPolicy) : Outcome string unit :=
  if negb (ap_enabled p) then Ok ()
  else if budget_tokens (ap_context_budget p) <=? ap_reserved_tokens p
  then Err "automatic compaction reserve must be smaller than the context budget"
  else if budget_tokens (ap_context_budget p) <=? ap_minimum_headroom_tokens p
  then Err "automatic compaction minimum headroom must be smaller than the context budget"
  else if ap_max_compactions_per_run p =? 0
  then Err "enabled automatic compaction requires a non-zero per-run compaction limit"
  else if bool_decide (ap_overflow_recovery p = CompactAndRetry) && (ap_max_overflow_retries_per_run p =? 0)
  then Err "overflow retry recovery requires a non-zero retry limit"
  else Ok ().
Definition threshold_tokens (p : AutomaticCompactionPolicy) : N :=
  budget_tokens (ap_context_budget p) - ap_reserved_tokens p.

Record AutomaticCompactionRequest := mk_automatic_request {
  ar_reason : AutomaticCompactionReason;
  ar_estimated_tokens_before : option N;
  ar_context_budget_tokens : N;
  ar_reserved_tokens : N;
  ar_recent_tokens : N;
  ar_prefix_messages : list AgentMessage;
  ar_retained_messages : list AgentMessage;
  ar_split_turn_prefix : list AgentMessage;
  ar_retry_provider_request : bool;
}.

Record ProviderContext := mk_provider_context {
  pv_source : Transcript;
  pv_active : option Transcript;
  pv_model : option ModelDescriptor;
  pv_thinking_level : ThinkingLevel;
  pv_session_id : option string;
}.

(** [slice::slice_starts_with]. *)
Fixpoint slice_starts_with {A} `{PartialEq A} (l prefix : list A) : bool :=
  match prefix, l with
  | [], _ => true
  | x :: prefix, y :: l => (y ==? x) && slice_starts_with l prefix
  | _ :: _, [] => false
  end.

(** [ProviderContext::source_is_active_prefix]. *)
Definition source_is_active_prefix (c : ProviderContext) : bool :=
  match pv_active c with
  | Some active =>
      slice_starts_with (t_messages active) (t_messages (pv_source c)) && (t_host_notes active ==? t_host_notes (pv_source c))
  | None => false
  end.

Record CompactionContext := mk_compaction_context {
  cc_version : N;
  cc_system_prompt : string;
  cc_model : option ModelDescriptor;
  cc_session_id : option string;
  cc_messages : list AgentMessage;
  cc_source_history_revision : N;
  cc_host_messages : list string;
  cc_provider_context : option ProviderContext;
}.

Record CompactionResult (Observation : Type) := mk_compaction_result {
  cp_messages : list AgentMessage;
  cp_usage : option ModelUsage;
  cp_request_observation : option Observation;
  cp_request_layout : option CompactionRequestLayout;
  cp_source_is_active_context_prefix : option bool;
}.
Arguments mk_compaction_result {Observation}.
Arguments cp_messages {Observation}.
Arguments cp_usage {Observation}.
Arguments cp_request_observation {Observation}.
Arguments cp_request_layout {Observation}.
Arguments cp_source_is_active_context_prefix {Observation}.

(** [CompactionResult::new]. *)
Definition compaction_result_new {Observation} (messages : list AgentMessage) : CompactionResult Observation :=
  mk_compaction_result messages None None None None.

Inductive CompactionError :=
| CompactorFailed (message : Message)
| InvalidReplacement (message : Message)
| StaleSource (expected_revision actual_revision : N)
| CompactorTimedOut (message : Message).

(** [Display] of [CompactionError]. *)
Definition compaction_error_display (e : CompactionError) : Message :=
  match e with
  | CompactorFailed message => Lit "compactor failed: " :: message
  | InvalidReplacement message => Lit "invalid compacted conversation: " :: message
  | StaleSource expected actual =>
      [Lit "compaction source changed from generation "; Num expected; Lit " to "; Num actual]
  | CompactorTimedOut message => Lit "compactor timed out: " :: message
  end.

(** ** Structure of a replacement *)

(** The locals of [validate_messages]. *)
Record Validation := mk_validation {
  va_message_ids : gset N;
  va_tool_calls : gmap string string;
  va_tool_results : gset string;
}.
Definition validation_start : Validation := mk_validation ∅ ∅ ∅.

Definition invalid {A} (m : Message) : Outcome CompactionError A := Err (InvalidReplacement m).

(** The loop over the calls of an assistant message. *)
Definition insert_call (calls : gmap string string) (call : AgentToolCall) :
    Outcome CompactionError (gmap string string) :=
  match calls !! tc_id call with
  | Some previous_name =>
      invalid [Lit "tool call ID "; Lit (tc_id call); Lit " is reused by "; Dbg previous_name; Lit " and ";
               Dbg (tc_name call)]
  | None => Ok (<[tc_id call := tc_name call]> calls)
  end.

Definition accept_result (v : Validation) (r : ToolResultMessage) : Outcome CompactionError (gset string) :=
  match va_tool_calls v !! tr_tool_call_id r with
  | Some call_name =>
      if String.eqb call_name (tr_tool_name r) then
        if mem (tr_tool_call_id r) (va_tool_results v)
        then invalid [Lit "tool call "; Lit (tr_tool_call_id r); Lit " has more than one retained result"]
        else Ok ({[tr_tool_call_id r]} ∪ va_tool_results v)
      else invalid [Lit "tool result "; Lit (tr_tool_call_id r); Lit " names "; Dbg (tr_tool_name r);
                    Lit ", but its call names "; Dbg call_name]
  | None => invalid [Lit "tool result "; Lit (tr_tool_call_id r); Lit " has no preceding assistant call"]
  end.

(** One round of the loop of [validate_messages]. *)
Definition validate_message (v : Validation) (m : AgentMessage) : Outcome CompactionError Validation :=
  let id := message_id m in
  if (id =? 0) || (id =? u64_max) then invalid [Lit "message IDs zero and u64::MAX are reserved"]
  else if mem id (va_message_ids v) then invalid [Lit "message ID "; Num id; Lit " occurs more than once"]
  else
    let ids := {[id]} ∪ va_message_ids v in
    match m with
    | Assistant a =>
        let? calls := ofold insert_call (va_tool_calls v) (am_tool_calls a) in
        Ok (mk_validation ids calls (va_tool_results v))
    | ToolResult r =>
        let? results := accept_result v r in
        Ok (mk_validation ids (va_tool_calls v) results)
    | User _ _ => Ok (mk_validation ids (va_tool_calls v) (va_tool_results v))
    | System _ update =>
        match update_validate update with
        | Ok _ => Ok (mk_validation ids (va_tool_calls v) (va_tool_results v))
        | Err e => invalid (configuration_error_display e)
        | Panic reason => Panic reason
        end
    end.

(** [validate_messages]. *)
Definition missing_results (v : Validation) : list string :=
  List.filter (fun id => negb (mem id (va_tool_results v))) (btree_iter (va_tool_calls v)).*1.
Definition validate_messages (messages : list AgentMessage) : Outcome CompactionError unit :=
  let? v := ofold validate_message validation_start messages in
  if is_nil (missing_results v) then Ok ()
  else invalid [Lit "retained assistant tool calls have no result: "; Lit (join ", " (missing_results v))].

(** ** Keeping the configuration *)

(** The length of the common suffix: [rev().zip(..).take_while(==).count()]. *)
Fixpoint common_prefix (l k : list AgentMessage) : nat :=
  match l, k with
  | x :: l, y :: k => if x ==? y then S (common_prefix l k) else O
  | _, _ => O
  end.
Definition retained_suffix_length (source replacement : list AgentMessage) : nat :=
  common_prefix (reverse source) (reverse replacement).

(** [preserve_configuration]. *)
Definition preserve_configuration (source replacement : list AgentMessage) (id : N) : list AgentMessage :=
  let retained := retained_suffix_length source replacement in
  let prefix := take (length source - retained) source in
  match configuration_replay prefix with
  | None => replacement
  | Some prefix_configuration =>
      let checkpoint := take (length replacement - retained) replacement in
      let unchanged :=
        match configuration_replay checkpoint with
        | Some configuration => same_content configuration prefix_configuration
        | None => false
        end in
      if unchanged then replacement
      else System id (as_initial_update prefix_configuration)
           :: List.filter (fun m => negb (is_system m)
                                    || existsb (fun s => s ==? m) (drop (length source - retained) source)) replacement
  end.

(** The identity [commit_replacement_durably] gives the carried configuration. *)
Definition configuration_id (source replacement : list AgentMessage) : N :=
  u64_saturating_add (foldl N.max 0 (map message_id (source ++ replacement))) 1.

(** ** Sizes *)

Definition option_len (o : option string) : N := match o with Some s => utf8_len s | None => 0 end.
Definition call_bytes (call : AgentToolCall) : N :=
  u64_saturating_add (u64_saturating_add (utf8_len (tc_id call)) (utf8_len (tc_name call))) (utf8_len (tc_arguments call)).
Definition calls_bytes (calls : list AgentToolCall) : N := foldl N.add 0 (map call_bytes calls).

Section sizes.
Context `{Miniserde}.

(** [messages_bytes]. *)
Definition message_body_bytes (m : AgentMessage) : N :=
  match m with
  | User _ content => utf8_len content
  | Assistant a =>
      u64_saturating_add (u64_saturating_add (content_bytes (am_content a)) (option_len (am_error_message a)))
        (calls_bytes (am_tool_calls a))
  | ToolResult r =>
      u64_saturating_add
        (u64_saturating_add (u64_saturating_add (utf8_len (tr_tool_call_id r)) (utf8_len (tr_tool_name r)))
           (utf8_len (tr_content r))) (option_len (tr_details r))
  | System _ update => approximate_bytes update
  end.
Definition messages_bytes (messages : list AgentMessage) : N :=
  foldl (fun total m => u64_saturating_add (u64_saturating_add total (message_body_bytes m)) 16) 0 messages.

(** [tool_result_bytes]. *)
Definition tool_result_bytes (messages : list AgentMessage) : N :=
  foldl (fun total m =>
           match m with
           | ToolResult r =>
               u64_saturating_add (u64_saturating_add total (utf8_len (tr_content r))) (option_len (tr_details r))
           | _ => total
           end) 0 messages.

(** [observe_source]. *)
Definition observe_source (canonical source retained split_turn_prefix : list AgentMessage) :
    CompactionSourceObservation :=
  mk_source_observation (length canonical) (messages_bytes canonical) (map message_id source)
    (map message_id retained) (map message_id split_turn_prefix) (messages_bytes retained) (tool_result_bytes source).
End sizes.

(** [estimate_message_bytes], [estimate_message_tokens], [estimate_messages_tokens]. *)
Definition estimate_message_bytes (m : AgentMessage) : N :=
  match m with
  | User _ content => u64_saturating_add (utf8_len content) 16
  | Assistant a =>
      u64_saturating_add
        (u64_saturating_add (u64_saturating_add (content_bytes (am_content a)) (option_len (am_error_message a)))
           (calls_bytes (am_tool_calls a))) 32
  | ToolResult r =>
      u64_saturating_add
        (u64_saturating_add
           (u64_saturating_add
              (u64_saturating_add (u64_saturating_add (utf8_len (tr_tool_call_id r)) (utf8_len (tr_tool_name r)))
                 (utf8_len (tr_content r))) (option_len (tr_details r)))
           (option_len (tr_failure r ≫= tf_recovery_guidance))) 32
  | System _ _ => 0
  end.
Definition estimate_message_tokens (m : AgentMessage) : N := u64_saturating_add (estimate_message_bytes m) 3 / 4.
Definition estimate_messages_tokens (messages : list AgentMessage) : N :=
  foldl N.add 0 (map estimate_message_tokens messages).

(** [estimate_messages_bytes], [estimate_tool_result_bytes]. *)
Definition estimate_messages_bytes (messages : list AgentMessage) : N :=
  foldl N.add 0 (map estimate_message_bytes messages).
Definition estimate_tool_result_bytes (messages : list AgentMessage) : N :=
  foldl N.add 0 (omap (fun m =>
    match m with
    | ToolResult r => Some (u64_saturating_add (utf8_len (tr_content r)) (option_len (tr_details r)))
    | _ => None
    end) messages).

(** ** The automatic split *)

Definition is_tool_result (m : AgentMessage) : bool := match m with ToolResult _ => true | _ => false end.
Definition is_user (m : AgentMessage) : bool := match m with User _ _ => true | _ => false end.
Definition is_assistant (m : AgentMessage) : bool := match m with Assistant _ => true | _ => false end.

(** The two [while] loops, which move [start] towards the beginning. *)
Fixpoint recent_start (messages : list AgentMessage) (recent_tokens retained_tokens : N) (start : nat) : nat :=
  match start with
  | O => O
  | S before =>
      if retained_tokens <? recent_tokens
      then recent_start messages recent_tokens
             (u64_saturating_add retained_tokens
                (match messages !! before with Some m => estimate_message_tokens m | None => 0 end)) before
      else start
  end.
Fixpoint owner_start (messages : list AgentMessage) (start : nat) : nat :=
  match start with
  | O => O
  | S before =>
      match messages !! start with
      | Some m => if is_tool_result m then owner_start messages before else start
      | None => start
      end
  end.
Fixpoint last_user_before (messages : list AgentMessage) (start : nat) : option nat :=
  match start with
  | O => None
  | S index =>
      match messages !! index with
      | Some m => if is_user m then Some index else last_user_before messages index
      | None => last_user_before messages index
      end
  end.

(** [automatic_compaction_split]: the prefix, the retained suffix and the
    split turn.  [messages[start]] stops the program out of range. *)
Definition automatic_compaction_split {E} (messages : list AgentMessage) (recent_tokens : N) :
    Outcome E (list AgentMessage * list AgentMessage * list AgentMessage) :=
  if is_nil messages || (recent_tokens =? 0) then Ok (messages, [], [])
  else
    let start := owner_start messages (recent_start messages recent_tokens 0 (length messages)) in
    match messages !! start with
    | None => Panic "index out of bounds"
    | Some first =>
        match (if is_assistant first then last_user_before messages start else None) with
        | Some turn_start =>
            Ok (take turn_start messages, drop start messages, drop turn_start (take start messages))
        | None => Ok (take start messages, drop start messages, [])
        end
    end.

(** [automatic_operation]. *)
Definition automatic_operation (run_id automatic_ordinal : N) (reason : AutomaticCompactionReason)
    (retry_provider_request : bool) (overflow_retry_ordinal : option N) (source_history_revision : N)
    (strategy : CompactionStrategy) : CompactionOperation := {|
  co_id := mk_compaction_id run_id automatic_ordinal;
  co_trigger := TriggerAutomatic;
  co_reason := match reason with AutomaticThreshold => ThresholdCrossed | AutomaticOverflow => ProviderOverflow end;
  co_phase := if retry_provider_request then BetweenModelCalls else BeforeModelRequest;
  co_strategy := strategy;
  co_source_history_revision := source_history_revision;
  co_attempt := automatic_ordinal;
  co_automatic_ordinal := Some automatic_ordinal;
  co_overflow_retry_ordinal := overflow_retry_ordinal;
  co_retry_provider_request := retry_provider_request;
|}.

(** The number of bytes a character takes in UTF-8, and [text.trim().len()]. *)
Definition char_len (c : N) : N := if c <? 128 then 1 else if c <? 2048 then 2 else if c <? 65536 then 3 else 4.
Definition trimmed_len (text : string) : N := foldl N.add 0 (map char_len (trim_chars (chars text))).

(** [automatic_checkpoint_rejection]: the loop over the checkpoint. *)
Fixpoint checkpoint_text (text_bytes : N) (checkpoint : list AgentMessage) : Outcome CompactionRejection N :=
  match checkpoint with
  | [] => Ok text_bytes
  | m :: checkpoint =>
      match m with
      | User _ content => checkpoint_text (u64_saturating_add text_bytes (trimmed_len content)) checkpoint
      | Assistant a =>
          if is_nil (am_tool_calls a)
          then checkpoint_text (u64_saturating_add text_bytes (trimmed_len (visible_text (am_content a)))) checkpoint
          else Err UnexpectedToolCall
      | ToolResult _ => Err UnexpectedToolCall
      | System _ _ => checkpoint_text text_bytes checkpoint
      end
  end.
Definition automatic_checkpoint_rejection (replacement : list AgentMessage) (retained_suffix_len : nat) :
    option CompactionRejection :=
  let checkpoint := take (length replacement - retained_suffix_len) replacement in
  if is_nil checkpoint then Some EmptyCheckpoint
  else match checkpoint_text 0 checkpoint with
       | Err rejection => Some rejection
       | Ok text_bytes => if text_bytes =? 0 then Some EmptyCheckpoint else None
       | Panic _ => None
       end.
