(* ===== verification/CompactionProofs.v ===== *)
(** * tea-core: what a compaction keeps

    The structural check of a replacement decides the pairing discipline of a
    conversation; carrying the configuration over leaves the one in force
    unchanged; and the automatic split cuts a conversation only where both
    parts keep their calls and results together. *)

From stdpp Require Import base gmap sets list strings.
From S2P Require Import Prelude RustStr Json Ids BTree SessionErrors Configuration Messages.
From S2P Require Import Transcript TranscriptProofs TranscriptJson CoreState CoreStateProofs Compaction.

Local Open Scope N_scope.

(** ** The structure of a conversation *)

Definition calls_in (m : AgentMessage) : list AgentToolCall :=
  match m with Assistant a => am_tool_calls a | _ => [] end.
Definition calls_of (l : list AgentMessage) : list AgentToolCall := l ≫= calls_in.
Definition result_of (m : AgentMessage) : option ToolResultMessage :=
  match m with ToolResult r => Some r | _ => None end.
Definition results_of (l : list AgentMessage) : list ToolResultMessage := omap result_of l.

(** A result answers a call of an earlier message under its name. *)
Definition answers (before : list AgentMessage) (r : ToolResultMessage) : Prop :=
  exists call, call ∈ calls_of before /\ tc_id call = tr_tool_call_id r /\ tc_name call = tr_tool_name r.

(** Identities are unique and not reserved, updates are valid, every result
    answers an earlier call and no call is answered twice. *)
Record ordered (l : list AgentMessage) : Prop := {
  ordered_reserved : forall m, m ∈ l -> message_id m <> 0 /\ message_id m <> u64_max;
  ordered_ids : NoDup (map message_id l);
  ordered_calls : NoDup (map tc_id (calls_of l));
  ordered_results : NoDup (map tr_tool_call_id (results_of l));
  ordered_answers : forall before r after, l = before ++ ToolResult r :: after -> answers before r;
  ordered_updates : forall id u, System id u ∈ l -> update_validate u = Ok tt;
}.

(** Moreover every call has its result. *)
Definition structured (l : list AgentMessage) : Prop :=
  ordered l /\ forall call, call ∈ calls_of l -> tc_id call ∈ map tr_tool_call_id (results_of l).

Lemma calls_of_app l k : calls_of (l ++ k) = calls_of l ++ calls_of k.
Proof. apply bind_app. Qed.
Lemma results_of_app l k : results_of (l ++ k) = results_of l ++ results_of k.
Proof. apply omap_app. Qed.

(** The check of one more message. *)
Definition admits (l : list AgentMessage) (m : AgentMessage) : Prop :=
  (message_id m <> 0 /\ message_id m <> u64_max) /\ (message_id m ∉ map message_id l) /\
  match m with
  | Assistant a =>
      NoDup (map tc_id (am_tool_calls a)) /\ forall c, c ∈ am_tool_calls a -> tc_id c ∉ map tc_id (calls_of l)
  | ToolResult r => answers l r /\ tr_tool_call_id r ∉ map tr_tool_call_id (results_of l)
  | User _ _ => True
  | System _ u => update_validate u = Ok tt
  end.

Lemma NoDup_map_app {A B} (f' : A -> B) l k :
  NoDup (map f' (l ++ k)) <->
  NoDup (map f' l) /\ NoDup (map f' k) /\ forall y, y ∈ k -> f' y ∉ map f' l.
Proof.
  rewrite map_app, NoDup_app. split.
  - intros (Hl & Hd & Hk). split_and!; [done..|]. intros y Hy Hin. apply (Hd (f' y)); [done|]. by apply list_elem_of_fmap_2.
  - intros (Hl & Hk & Hd). split_and!; [done| |done]. intros x Hx (y & -> & Hy)%list_elem_of_fmap. by apply (Hd y).
Qed.

Lemma ordered_nil : ordered [].
Proof.
  split; try constructor; try (intros ? ?; by rewrite elem_of_nil).
  - by apply elem_of_nil in H.
  - by apply elem_of_nil in H.
  - intros [|] ? ? ?; discriminate.
Qed.

Lemma answers_snoc l m :
  (forall before r after, l ++ [m] = before ++ ToolResult r :: after -> answers before r) <->
  (forall before r after, l = before ++ ToolResult r :: after -> answers before r) /\
  (forall r, m = ToolResult r -> answers l r).
Proof.
  split.
  - intros H. split; [|intros r ->; by apply (H l r [])].
    intros before r after ->. apply (H before r (after ++ [m])). by rewrite <-app_assoc.
  - intros [H Hm] before r after E. destruct after as [|y after _] using rev_ind.
    + apply app_inj_tail in E as [-> Em]. by apply Hm.
    + rewrite app_comm_cons, app_assoc in E. apply app_inj_tail in E as [E _]. by eapply H.
Qed.

Lemma no_more {A B} (f' : A -> B) l :
  NoDup (map f' l) -> NoDup (map f' l) /\ NoDup ([] : list B) /\ forall y, y ∈ ([] : list A) -> f' y ∉ map f' l.
Proof. intros Hl. split_and!; [done|constructor|]. intros y Hy. by apply elem_of_nil in Hy. Qed.

Lemma ordered_snoc l m : ordered (l ++ [m]) <-> ordered l /\ admits l m.
Proof.
  split.
  - intros [Hr Hid Hc Hres Ha Hu]. apply answers_snoc in Ha as [Ha Hm].
    rewrite calls_of_app in Hc. rewrite results_of_app in Hres.
    apply NoDup_map_app in Hid as (Hid & _ & Hidm), Hc as (Hc & Hc' & Hcm), Hres as (Hres & _ & Hresm).
    assert (m ∈ l ++ [m]) as Hin by (apply elem_of_app; right; by apply list_elem_of_singleton).
    split.
    + split; try done; intros; [apply Hr|apply (Hu id)]; apply elem_of_app; by left.
    + split; [by apply Hr|]. split; [apply Hidm; by apply list_elem_of_singleton|].
      destruct m as [|a|r|id u]; [done| | |by apply (Hu id)].
      * cbn in Hc', Hcm. rewrite app_nil_r in Hc', Hcm. done.
      * split; [by apply Hm|]. apply Hresm. cbn. by apply list_elem_of_singleton.
  - intros [[Hr Hid Hc Hres Ha Hu] [Hrm [Hidm Hm]]]. split.
    + intros x [Hx| ->%list_elem_of_singleton]%elem_of_app; [by apply Hr|done].
    + apply NoDup_map_app. split_and!; [done|apply NoDup_singleton|]. by intros y ->%list_elem_of_singleton.
    + rewrite calls_of_app. apply NoDup_map_app. destruct m as [|a|r|id u]; cbn; rewrite ?app_nil_r;
        [by apply no_more| |by apply no_more..]. split; [done|apply Hm].
    + rewrite results_of_app. apply NoDup_map_app. destruct m as [|a|r|id u]; cbn; [by apply no_more..| |by apply no_more].
      split_and!; [done|apply NoDup_singleton|]. intros y ->%list_elem_of_singleton. apply Hm.
    + apply answers_snoc. split; [done|]. intros r ->. apply Hm.
    + intros id u [Hx| <-%list_elem_of_singleton]%elem_of_app; [by eapply Hu|done].
Qed.

(** ** What the structural check collects *)

Definition add_call (calls : gmap string string) (call : AgentToolCall) : gmap string string :=
  <[tc_id call := tc_name call]> calls.
Definition calls_map (l : list AgentMessage) : gmap string string := foldl add_call ∅ (calls_of l).
Definition collected (l : list AgentMessage) : Validation :=
  mk_validation (list_to_set (map message_id l)) (calls_map l) (list_to_set (map tr_tool_call_id (results_of l))).

Lemma add_calls_lookup calls m id name :
  NoDup (map tc_id calls) ->
  foldl add_call m calls !! id = Some name <->
  (exists call, call ∈ calls /\ tc_id call = id /\ tc_name call = name) \/
  ((id ∉ map tc_id calls) /\ m !! id = Some name).
Proof.
  revert m. induction calls as [|c calls IH]; intros m Hnd; cbn [foldl map].
  - split; [intros ?; right; split; [apply not_elem_of_nil|done]|].
    intros [(call & Hin & _)|[_ ?]]; [by apply elem_of_nil in Hin|done].
  - apply NoDup_cons in Hnd as [Hc Hnd]. rewrite IH by done. unfold add_call. rewrite not_elem_of_cons. split.
    + intros [(call & Hin & ?)|[Hid Hl]]; [left; exists call; split; [by right|done]|].
      apply lookup_insert_Some in Hl as [[<- <-]|[Hne Hl]]; [left; exists c; split; [by left|done]|right; naive_solver].
    + intros [(call & Hin & <- & <-)|[[Hne Hid] Hl]].
      * apply elem_of_cons in Hin as [->|Hin]; [|left; by exists call].
        right. split; [done|]. by rewrite lookup_insert_eq.
      * right. split; [done|]. by rewrite lookup_insert_ne.
Qed.

Lemma calls_map_lookup l id name :
  ordered l -> calls_map l !! id = Some name <-> exists call, call ∈ calls_of l /\ tc_id call = id /\ tc_name call = name.
Proof.
  intros Hl. unfold calls_map. rewrite add_calls_lookup by apply Hl. rewrite lookup_empty. naive_solver.
Qed.

Lemma calls_map_None l id : ordered l -> calls_map l !! id = None <-> id ∉ map tc_id (calls_of l).
Proof.
  intros Hl. rewrite eq_None_not_Some. split; intros H Hin; apply H.
  - apply list_elem_of_fmap in Hin as (call & -> & Hin). exists (tc_name call). apply calls_map_lookup; [done|].
    by exists call.
  - destruct Hin as [name (call & Hin & <- & _)%calls_map_lookup]; [|done]. by apply list_elem_of_fmap_2.
Qed.

Lemma insert_calls_ok calls m m' :
  ofold insert_call m calls = Ok m' <->
  (NoDup (map tc_id calls) /\ (forall c, c ∈ calls -> m !! tc_id c = None)) /\ m' = foldl add_call m calls.
Proof.
  revert m. induction calls as [|c calls IH]; intros m; cbn [ofold map foldl].
  - split; [intros [= <-]|intros [_ ->]; done]. split_and!; [constructor| |done]. intros c Hc. by apply elem_of_nil in Hc.
  - unfold insert_call at 1. rewrite NoDup_cons. destruct (m !! tc_id c) as [name|] eqn:Hc; cbn [obind].
    + split; [done|]. intros [[_ H] _]. rewrite (H c) in Hc; [done|by left].
    + rewrite IH. fold (add_call m c). unfold add_call at 1. split.
      * intros [[Hnd Hall] ->]. split; [|done]. split.
        { split; [|done]. intros (x & Hx & Hin)%list_elem_of_fmap. specialize (Hall x Hin).
          rewrite Hx, lookup_insert_eq in Hall. done. }
        intros x [->|Hin]%elem_of_cons; [done|]. specialize (Hall x Hin).
        apply lookup_insert_None in Hall as [? _]. done.
      * intros [[[Hnot Hnd] Hall] ->]. split; [|done]. split; [done|]. intros x Hin.
        rewrite lookup_insert_ne; [apply Hall; by right|]. intros E. apply Hnot. rewrite E. by apply list_elem_of_fmap_2.
Qed.

Lemma mem_list (A : Type) `{Countable A} (x : A) l : mem x (list_to_set l : gset A) = bool_decide (x ∈ l).
Proof. unfold mem. apply bool_decide_ext, elem_of_list_to_set. Qed.

Lemma accept_result_ok l r results :
  ordered l ->
  accept_result (collected l) r = Ok results <->
  (answers l r /\ (tr_tool_call_id r ∉ map tr_tool_call_id (results_of l))) /\
  results = {[tr_tool_call_id r]} ∪ list_to_set (map tr_tool_call_id (results_of l)).
Proof.
  intros Hl. unfold accept_result, answers. cbn [va_tool_calls va_tool_results collected]. rewrite mem_list.
  pose proof (calls_map_lookup l (tr_tool_call_id r) (tr_tool_name r) Hl) as Hlook.
  destruct (calls_map l !! tr_tool_call_id r) as [name|].
  - destruct (String.eqb_spec name (tr_tool_name r)) as [->|Hne].
    + case_bool_decide as Hin; split; [done|by intros [[_ ?] _]| |by intros [_ ->]].
      intros [= <-]. split; [|done]. split; [by apply Hlook|done].
    + split; [done|]. intros [[H _] _]. apply Hlook in H. congruence.
  - split; [done|]. intros [[H _] _]. by apply Hlook in H.
Qed.

(** One round of the check accepts exactly the admitted messages. *)
Lemma validate_message_ok l m v :
  ordered l -> validate_message (collected l) m = Ok v <-> admits l m /\ v = collected (l ++ [m]).
Proof.
  intros Hl. unfold validate_message, admits. cbn [va_message_ids collected]. rewrite mem_list.
  destruct (N.eqb_spec (message_id m) 0) as [H0|H0]; cbn [orb]; [split; [done|intros [[[? _] _] _]; done]|].
  destruct (N.eqb_spec (message_id m) u64_max) as [H1|H1]; [split; [done|intros [[[_ ?] _] _]; done]|].
  case_bool_decide as Hid; [split; [done|intros [[_ [? _]] _]; done]|].
  assert (collected (l ++ [m]) = mk_validation ({[message_id m]} ∪ list_to_set (map message_id l))
    (foldl add_call (calls_map l) (calls_in m))
    (list_to_set (map tr_tool_call_id (results_of [m])) ∪ list_to_set (map tr_tool_call_id (results_of l)))) as ->.
  { unfold collected, calls_map. rewrite calls_of_app, results_of_app, !map_app, !list_to_set_app_L, foldl_app.
    unfold calls_of at 2. cbn. rewrite app_nil_r. f_equal; set_solver. }
  destruct m as [i s|a|r|i u]; cbn [calls_in foldl results_of omap list_omap result_of map list_to_set].
  - rewrite (left_id_L ∅ (∪)). cbn. naive_solver.
  - cbn [va_tool_calls collected]. pose proof (insert_calls_ok (am_tool_calls a) (calls_map l)) as Hok.
    assert ((forall c, c ∈ am_tool_calls a -> calls_map l !! tc_id c = None) <->
            (forall c, c ∈ am_tool_calls a -> tc_id c ∉ map tc_id (calls_of l))) as Hnone.
    { split; intros H c Hc; apply calls_map_None; auto. }
    rewrite (left_id_L ∅ (∪)).
    destruct (ofold insert_call (calls_map l) (am_tool_calls a)) as [m'|e|e]; cbn [obind].
    + destruct (proj1 (Hok m') eq_refl) as [[? ?] ->]. naive_solver.
    + split; [done|]. intros [(_ & _ & H) ->]. discriminate (proj2 (Hok _) (conj (conj (proj1 H) (proj2 Hnone (proj2 H))) eq_refl)).
    + split; [done|]. intros [(_ & _ & H) ->]. discriminate (proj2 (Hok _) (conj (conj (proj1 H) (proj2 Hnone (proj2 H))) eq_refl)).
  - pose proof (accept_result_ok l r) as Hok. rewrite (right_id_L ∅ (∪)).
    destruct (accept_result (collected l) r) as [res|e|e]; cbn [obind].
    + destruct (proj1 (Hok res Hl) eq_refl) as [[? ?] ->]. naive_solver.
    + split; [done|]. intros [(_ & _ & H) ->]. discriminate (proj2 (Hok _ Hl) (conj H eq_refl)).
    + split; [done|]. intros [(_ & _ & H) ->]. discriminate (proj2 (Hok _ Hl) (conj H eq_refl)).
  - rewrite (left_id_L ∅ (∪)). destruct (update_validate u) as [[]|e|e]; naive_solver.
Qed.

Lemma validation_collects l v : ofold validate_message validation_start l = Ok v <-> ordered l /\ v = collected l.
Proof.
  revert v. induction l as [|m l IH] using rev_ind; intros v.
  - cbn. split; [intros [= <-]; split; [apply ordered_nil|done]|by intros [_ ->]].
  - rewrite ofold_snoc, ordered_snoc.
    destruct (ofold validate_message validation_start l) as [w|e|e]; cbn [obind].
    + destruct (proj1 (IH w) eq_refl) as [Hl ->]. rewrite validate_message_ok by done. naive_solver.
    + split; [done|]. intros [[Hl _] _]. discriminate (proj2 (IH _) (conj Hl eq_refl)).
    + split; [done|]. intros [[Hl _] _]. discriminate (proj2 (IH _) (conj Hl eq_refl)).
Qed.

Lemma missing_results_nil l :
  ordered l ->
  missing_results (collected l) = [] <->
  (forall call, call ∈ calls_of l -> tc_id call ∈ map tr_tool_call_id (results_of l)).
Proof.
  intros Hl. unfold missing_results. cbn [va_tool_calls va_tool_results collected]. split.
  - intros Hnil call Hin. destruct (decide (tc_id call ∈ map tr_tool_call_id (results_of l))) as [|Hno]; [done|].
    exfalso. apply (not_elem_of_nil (tc_id call)). rewrite <-Hnil. apply filter_elem. split.
    + apply list_elem_of_fmap. exists (tc_id call, tc_name call). split; [done|].
      apply elem_of_btree_iter, calls_map_lookup; [done|]. by exists call.
    + rewrite mem_list. by rewrite bool_decide_false.
  - intros Hall. apply filter_none, Forall_forall. intros id ([k name] & -> & Hin)%list_elem_of_fmap.
    apply elem_of_btree_iter, calls_map_lookup in Hin as (call & Hin & <- & _); [|done]. cbn.
    rewrite mem_list, bool_decide_true; [done|by apply Hall].
Qed.

Lemma validate_messages_ok l : validate_messages l = Ok tt <-> structured l.
Proof.
  unfold validate_messages, structured. pose proof (validation_collects l) as Hv.
  destruct (ofold validate_message validation_start l) as [v|e|e]; cbn [obind].
  - destruct (proj1 (Hv v) eq_refl) as [Hl ->]. rewrite <-missing_results_nil by done.
    destruct (missing_results (collected l)); cbn; naive_solver.
  - split; [done|]. intros [Hl _]. discriminate (proj2 (Hv _) (conj Hl eq_refl)).
  - split; [done|]. intros [Hl _]. discriminate (proj2 (Hv _) (conj Hl eq_refl)).
Qed.

(** ** Alike configurations *)

Definition alike (c d : EffectiveConfiguration) : Prop :=
  (forall id, content_at id (ec_sections c) = content_at id (ec_sections d)) /\
  (forall name, (find_tool (ec_tools c) name ==? find_tool (ec_tools d) name) = true).

Lemma find_retained l n k : find_tool (retain_tools l n) k = if String.eqb n k then None else find_tool l k.
Proof.
  unfold find_tool, retain_tools. induction l as [|t l IH]; cbn; [by destruct (String.eqb n k)|].
  destruct (String.eqb_spec (td_name t) n) as [<-|Hn]; cbn; [|destruct (String.eqb_spec (td_name t) k) as [<-|Hk]; [|done]].
  - rewrite IH. by destruct (String.eqb (td_name t) k).
  - destruct (String.eqb_spec n (td_name t)) as [E|]; [by destruct Hn|done].
Qed.

Lemma find_app l k n : find_tool (l ++ k) n = match find_tool l n with Some t => Some t | None => find_tool k n end.
Proof. unfold find_tool. induction l as [|t l IH]; cbn; [done|]. by destruct (String.eqb (td_name t) n). Qed.

Lemma find_pushed l t k : find_tool (push_tool l t) k = if String.eqb (td_name t) k then Some t else find_tool l k.
Proof.
  unfold push_tool. rewrite find_app, find_retained. unfold find_tool at 2. cbn.
  destruct (String.eqb (td_name t) k); [done|]. by destruct (find_tool l k).
Qed.

Lemma retained_alike names l k :
  (forall n, (find_tool l n ==? find_tool k n) = true) ->
  forall n, (find_tool (foldl retain_tools l names) n ==? find_tool (foldl retain_tools k names) n) = true.
Proof.
  revert l k. induction names as [|x names IH]; intros l k Hlk; cbn [foldl]; [done|]. apply IH. intros n.
  rewrite !find_retained. by destruct (String.eqb x n).
Qed.

Lemma pushed_alike ts us l k :
  (ts ==? us) = true -> (forall n, (find_tool l n ==? find_tool k n) = true) ->
  forall n, (find_tool (foldl push_tool l ts) n ==? find_tool (foldl push_tool k us) n) = true.
Proof.
  revert us l k. induction ts as [|t ts IH]; intros [|u us] l k Heq Hlk; try discriminate Heq; cbn [foldl]; [done|].
  change ((t ==? u) && (ts ==? us) = true) in Heq. apply andb_true_iff in Heq as [Htu Heq]. apply IH; [done|].
  intros n. rewrite !find_pushed, (tool_eq_name t u Htu). by destruct (String.eqb (td_name u) n).
Qed.

Lemma sections_alike chs l k :
  NoDup (map ps_id l) -> NoDup (map ps_id k) -> (forall id, content_at id l = content_at id k) ->
  forall id, content_at id (foldl apply_section l chs) = content_at id (foldl apply_section k chs).
Proof.
  revert l k. induction chs as [|ch chs IH]; intros l k Hl Hk Heq; cbn [foldl]; [done|].
  apply IH; [by apply apply_section_unique..|]. intros id. by rewrite !apply_section_at, Heq by done.
Qed.

Lemma update_eq_parts (u v : ConfigurationUpdate) :
  (u ==? v) = true ->
  cu_sections u = cu_sections v /\ (cu_tools_added u ==? cu_tools_added v) = true /\ cu_tools_removed u = cu_tools_removed v.
Proof.
  unfold partial_eq at 1, configuration_update_eq. rewrite !andb_true_iff. intros [[Hs Ha] Hr].
  by apply bool_decide_eq_true in Hs, Hr.
Qed.

(** Equal updates keep configurations alike. *)
Lemma apply_update_alike c d u v :
  unique c -> unique d -> alike c d -> (u ==? v) = true -> alike (apply_update c u) (apply_update d v).
Proof.
  intros [Hc _] [Hd _] [Hs Ht] (Hus & Hua & Hur)%update_eq_parts. split; cbn.
  - rewrite Hus. by apply sections_alike.
  - rewrite Hur. apply pushed_alike; [done|]. by apply retained_alike.
Qed.

Definition same_update (u v : ConfigurationUpdate) : Prop := (u ==? v) = true.

Lemma apply_updates_alike us vs c d :
  Forall2 same_update us vs -> unique c -> unique d -> alike c d ->
  alike (foldl apply_update c us) (foldl apply_update d vs).
Proof.
  intros H. revert c d. induction H as [|u v us vs Huv _ IH]; intros c d Hc Hd Hcd; cbn [foldl]; [done|].
  apply IH; [by apply apply_update_unique..|by apply apply_update_alike].
Qed.

Definition finite_tools (c : EffectiveConfiguration) : Prop := Forall tool_finite (ec_tools c).

Lemma alike_refl c : finite_tools c -> alike c c.
Proof.
  intros Hc. split; [done|]. intros n. destruct (find_tool (ec_tools c) n) as [t|] eqn:Ht; [|done].
  apply find_tool_Some in Ht as [Ht _]. cbn. apply tool_eq_refl. by apply (proj1 (Forall_forall _ _) Hc).
Qed.

(** ** The comparison of the code decides it *)

Lemma alike_same_content c d : unique c -> unique d -> alike d c -> same_content c d = true.
Proof.
  intros [Hcs Hct] [Hds Hdt] [Hs Ht]. unfold same_content.
  destruct (same_sections (ec_sections c) (ec_sections d) Hcs Hds) as [-> ->]; [done|].
  assert (length (ec_tools c) = length (ec_tools d)) as ->.
  { apply (same_keys_length td_name td_name); [done..|]. intros x. specialize (Ht x).
    pose proof (lookup_by_None td_name x (ec_tools c)). pose proof (lookup_by_None td_name x (ec_tools d)).
    unfold lookup_by, find_tool in *.
    destruct (List.find _ (ec_tools c)), (List.find _ (ec_tools d)); try discriminate Ht;
      destruct (decide (x ∈ map td_name (ec_tools c))), (decide (x ∈ map td_name (ec_tools d))); naive_solver. }
  rewrite !Nat.eqb_refl. cbn [andb]. apply forallb_elem. intros t Hin. rewrite <-(find_tool_elem _ t Hct Hin). apply Ht.
Qed.

Lemma names_covered {A B} (f' : A -> string) (g' : B -> string) l k :
  NoDup (map f' l) -> length l = length k -> (forall x, x ∈ map f' l -> x ∈ map g' k) ->
  forall x, x ∈ map g' k -> x ∈ map f' l.
Proof.
  intros Hl Hlen Hsub. assert (map f' l ⊆+ map g' k) as Hsubm by by apply NoDup_submseteq.
  apply submseteq_length_Permutation in Hsubm; [|rewrite !length_map; lia]. intros x. by rewrite Hsubm.
Qed.

Lemma same_content_alike c d : unique c -> unique d -> same_content c d = true -> alike d c.
Proof.
  intros [Hcs Hct] [Hds Hdt]. unfold same_content. rewrite !andb_true_iff, !Nat.eqb_eq, !forallb_elem.
  intros [[[Hls Hlt] Hs] Ht].
  assert (forall k x, content_at k (ec_sections c) = Some x -> content_at k (ec_sections d) = Some x) as Hsub.
  { intros k x Hk. apply (content_at_Some _ _ _ Hcs), Hs, existsb_true_elem in Hk as (s & Hin & Heq).
    apply bool_decide_eq_true in Heq as ->. by apply content_at_Some. }
  split.
  - intros k. destruct (content_at k (ec_sections c)) as [x|] eqn:Hk; [by apply Hsub|].
    apply content_at_None. intros Hin. apply content_at_None in Hk. apply Hk. revert Hin.
    apply (names_covered ps_id ps_id _ _ Hcs Hls). intros y Hy. apply content_at_ids in Hy as [x Hx]; [|done].
    apply content_at_ids; [done|]. eauto.
  - intros n. destruct (find_tool (ec_tools c) n) as [t|] eqn:Hn.
    + apply find_tool_Some in Hn as [Hin <-]. by apply Ht.
    + destruct (find_tool (ec_tools d) n) as [t|] eqn:Hd; [|done]. exfalso.
      apply (lookup_by_None td_name) in Hn. apply Hn. apply find_tool_Some in Hd as [Hin <-].
      eapply (names_covered td_name td_name _ _ Hct Hlt); [|by apply list_elem_of_fmap_2].
      intros y (x & -> & Hx)%list_elem_of_fmap. apply Ht, same_declaration_spec in Hx as (z & [Hz <-]%find_tool_Some & _).
      by apply list_elem_of_fmap_2.
Qed.

(** ** The retained suffix *)

Definition same_message (s r : AgentMessage) : Prop := (s ==? r) = true.

Lemma same_message_id s r : same_message s r -> message_id s = message_id r.
Proof.
  unfold same_message, partial_eq at 1, agent_message_eq. destruct s, r; try discriminate; cbn.
  - intros [->%N.eqb_eq _]%andb_true_iff. done.
  - by intros ->%bool_decide_eq_true.
  - by intros ->%bool_decide_eq_true.
  - intros [->%N.eqb_eq _]%andb_true_iff. done.
Qed.

Lemma same_message_updates l k : Forall2 same_message l k -> Forall2 same_update (updates l) (updates k).
Proof.
  induction 1 as [|s r l k Hsr _ IH]; [constructor|].
  destruct s, r; try discriminate Hsr; cbn; try done. constructor; [|done].
  unfold same_message, partial_eq at 1, agent_message_eq in Hsr. by apply andb_true_iff in Hsr as [_ ?].
Qed.

Lemma common_prefix_spec l k :
  (common_prefix l k <= length l)%nat /\ (common_prefix l k <= length k)%nat /\
  Forall2 same_message (take (common_prefix l k) l) (take (common_prefix l k) k).
Proof.
  revert k. induction l as [|x l IH]; intros [|y k]; cbn; try (split_and!; [lia..|constructor]).
  destruct (x ==? y) eqn:Hxy; cbn; [|split_and!; [lia..|constructor]].
  destruct (IH k) as (? & ? & ?). split_and!; [lia..|by constructor].
Qed.

(** What [preserve_configuration] cuts the source and the replacement into. *)
Definition summarised (source replacement : list AgentMessage) : list AgentMessage :=
  take (length source - retained_suffix_length source replacement) source.
Definition kept_suffix (source replacement : list AgentMessage) : list AgentMessage :=
  drop (length source - retained_suffix_length source replacement) source.
Definition checkpoint (source replacement : list AgentMessage) : list AgentMessage :=
  take (length replacement - retained_suffix_length source replacement) replacement.
Definition replacement_suffix (source replacement : list AgentMessage) : list AgentMessage :=
  drop (length replacement - retained_suffix_length source replacement) replacement.

Lemma suffixes_same source replacement :
  Forall2 same_message (kept_suffix source replacement) (replacement_suffix source replacement).
Proof.
  unfold kept_suffix, replacement_suffix, retained_suffix_length.
  destruct (common_prefix_spec (reverse source) (reverse replacement)) as (_ & _ & H).
  rewrite !take_reverse in H. apply Forall2_reverse in H. by rewrite !reverse_involutive in H.
Qed.

Lemma source_cut source replacement : source = summarised source replacement ++ kept_suffix source replacement.
Proof. symmetry. apply take_drop. Qed.
Lemma replacement_cut source replacement : replacement = checkpoint source replacement ++ replacement_suffix source replacement.
Proof. symmetry. apply take_drop. Qed.

Lemma Forall2_elem_r {A B} (P : A -> B -> Prop) l k y : Forall2 P l k -> y ∈ k -> exists x, x ∈ l /\ P x y.
Proof.
  induction 1 as [|x z l k Hxz _ IH]; [by intros ?%elem_of_nil|]. intros [->|Hy]%elem_of_cons.
  - exists x. split; [by left|done].
  - destruct (IH Hy) as (w & ? & ?). exists w. split; [by right|done].
Qed.
Lemma Forall2_elem_l {A B} (P : A -> B -> Prop) l k x : Forall2 P l k -> x ∈ l -> exists y, y ∈ k /\ P x y.
Proof.
  induction 1 as [|z y l k Hzy _ IH]; [by intros ?%elem_of_nil|]. intros [->|Hx]%elem_of_cons.
  - exists y. split; [by left|done].
  - destruct (IH Hx) as (w & ? & ?). exists w. split; [by right|done].
Qed.

(** The configuration messages kept beside the carried one are those of the suffix. *)
Definition kept_beside (source replacement : list AgentMessage) (m : AgentMessage) : bool :=
  negb (is_system m) || existsb (fun s => s ==? m) (kept_suffix source replacement).

Lemma checkpoint_systems_dropped source replacement m :
  NoDup (map message_id replacement) -> m ∈ checkpoint source replacement ->
  kept_beside source replacement m = negb (is_system m).
Proof.
  intros Hnd Hm. unfold kept_beside. destruct (is_system m); [|done]. cbn [negb orb].
  apply existsb_false_elem. intros s Hs. apply not_true_iff_false. intros Hsm.
  destruct (Forall2_elem_l _ _ _ s (suffixes_same source replacement) Hs) as (r & Hr & Hsr).
  rewrite (replacement_cut source replacement), NoDup_map_app in Hnd. destruct Hnd as (_ & _ & Hd).
  apply (Hd r Hr). rewrite <-(same_message_id s r Hsr), (same_message_id s m Hsm). by apply list_elem_of_fmap_2.
Qed.

Lemma suffix_kept source replacement m :
  m ∈ replacement_suffix source replacement -> kept_beside source replacement m = true.
Proof.
  intros Hm. unfold kept_beside. apply orb_true_iff. right. apply existsb_true_elem.
  destruct (Forall2_elem_r _ _ _ m (suffixes_same source replacement) Hm) as (s & Hs & Hsm). by exists s.
Qed.

Lemma kept_messages source replacement :
  NoDup (map message_id replacement) ->
  List.filter (kept_beside source replacement) replacement =
  List.filter (fun m => negb (is_system m)) (checkpoint source replacement) ++ replacement_suffix source replacement.
Proof.
  intros Hnd. rewrite (replacement_cut source replacement) at 2. rewrite List.filter_app. f_equal.
  - apply filter_ext_elem. intros m Hm. by apply checkpoint_systems_dropped.
  - apply filter_all. intros m Hm. by apply suffix_kept.
Qed.

(** ** Carrying the configuration *)

Lemma replay_Some l c : configuration_replay l = Some c -> c = foldl apply_update configuration_empty (updates l).
Proof. intros Hl. by rewrite <-apply_messages_updates, <-replay_default, Hl. Qed.

Lemma replay_app l k c : configuration_replay l = Some c -> configuration_replay (l ++ k) = Some (foldl apply_update c (updates k)).
Proof.
  unfold configuration_replay. intros Hl. by rewrite foldl_app, Hl, replay_fold_Some, apply_messages_updates.
Qed.

Lemma updates_unique us c : unique c -> unique (foldl apply_update c us).
Proof. revert c. induction us as [|u us IH]; intros c Hc; cbn; [done|]. by apply IH, apply_update_unique. Qed.

Lemma replay_is_unique l c : configuration_replay l = Some c -> unique c.
Proof. intros ->%replay_Some. apply updates_unique. split; constructor. Qed.

Lemma applied_tools c u t : t ∈ ec_tools (apply_update c u) -> t ∈ ec_tools c \/ t ∈ cu_tools_added u.
Proof.
  assert (forall ts l, (t ∈ foldl push_tool l ts -> t ∈ l \/ t ∈ ts)) as Hpush.
  { induction ts as [|x ts IH]; intros l; cbn; [by left|]. intros [Ht|Ht]%IH; [|right; by right].
    apply elem_of_app in Ht as [[Ht _]%filter_elem| ->%list_elem_of_singleton]; [by left|right; by left]. }
  assert (forall ns l, (t ∈ foldl retain_tools l ns -> t ∈ l)) as Hretain.
  { induction ns as [|x ns IH]; intros l; cbn; [done|]. intros Ht%IH. by apply filter_elem in Ht as [? _]. }
  cbn. intros [Ht|Ht]%Hpush; [left; by apply (Hretain (cu_tools_removed u))|by right].
Qed.

Lemma apply_update_finite c u : finite_tools c -> Forall tool_finite (cu_tools_added u) -> finite_tools (apply_update c u).
Proof.
  unfold finite_tools. rewrite !Forall_forall. intros Hc Hu t [?|?]%applied_tools; [by apply Hc|by apply Hu].
Qed.

Lemma replay_finite l c : Forall message_finite l -> configuration_replay l = Some c -> finite_tools c.
Proof.
  intros Hl ->%replay_Some. assert (Forall (fun u => Forall tool_finite (cu_tools_added u)) (updates l)) as Hu.
  { induction Hl as [|m l Hm _ IH]; [constructor|]. destruct m; cbn; try done. by constructor. }
  clear Hl. assert (finite_tools configuration_empty) as He by constructor. revert He. generalize configuration_empty.
  induction Hu as [|u us Hu _ IH]; intros c Hc; cbn; [done|]. by apply IH, apply_update_finite.
Qed.

Lemma replay_carried source replacement id c :
  NoDup (map message_id replacement) -> unique c ->
  configuration_replay (System id (as_initial_update c) :: List.filter (kept_beside source replacement) replacement)
  = Some (foldl apply_update c (updates (replacement_suffix source replacement))).
Proof.
  intros Hnd Hu. rewrite kept_messages by done. unfold configuration_replay. cbn [foldl replay_step default].
  by rewrite initial_update_applied, replay_fold_Some, apply_messages_updates, updates_app, updates_without_systems.
Qed.

Lemma carried_configuration source replacement id c :
  NoDup (map message_id replacement) -> Forall message_finite source ->
  configuration_replay (summarised source replacement) = Some c ->
  exists before after,
    configuration_replay source = Some before /\
    configuration_replay (preserve_configuration source replacement id) = Some after /\
    same_content after before = true.
Proof.
  intros Hnd Hfin Hc.
  pose proof (replay_is_unique _ _ Hc) as Hu.
  pose proof (same_message_updates _ _ (suffixes_same source replacement)) as Hsame.
  assert (configuration_replay source = Some (foldl apply_update c (updates (kept_suffix source replacement)))) as Hsrc.
  { rewrite (source_cut source replacement) at 1. by apply replay_app. }
  assert (finite_tools c) as Hf.
  { eapply replay_finite; [|exact Hc]. by apply Forall_take. }
  exists (foldl apply_update c (updates (kept_suffix source replacement))).
  unfold preserve_configuration. fold (summarised source replacement) (kept_suffix source replacement).
  fold (checkpoint source replacement). rewrite Hc.
  destruct (configuration_replay (checkpoint source replacement)) as [d|] eqn:Hd; [destruct (same_content d c) eqn:Hsc|].
  - exists (foldl apply_update d (updates (replacement_suffix source replacement))).
    split_and!; [done| |].
    + rewrite (replacement_cut source replacement) at 1. by apply replay_app.
    + pose proof (replay_is_unique _ _ Hd). apply alike_same_content; [by apply updates_unique..|].
      apply apply_updates_alike; [done..|]. by apply same_content_alike.
  - exists (foldl apply_update c (updates (replacement_suffix source replacement))).
    split_and!; [done|by apply replay_carried|]. by apply alike_same_content, apply_updates_alike, alike_refl; try apply updates_unique.
  - exists (foldl apply_update c (updates (replacement_suffix source replacement))).
    split_and!; [done|by apply replay_carried|]. by apply alike_same_content, apply_updates_alike, alike_refl; try apply updates_unique.
Qed.

(** ** The structure survives as well *)

Lemma validated_sections seen ids seen' :
  ofold insert_section seen ids = Ok seen' -> forall id, id ∈ ids -> validate_section_id id = Ok tt.
Proof.
  revert seen. induction ids as [|i ids IH]; intros seen; cbn [ofold]; [by intros _ id ?%elem_of_nil|].
  unfold insert_section at 1. destruct (validate_section_id i) as [[]| |] eqn:Hi; [|done..]. cbn [obind].
  destruct (mem i seen); [done|]. cbn [obind]. intros Hok id [->|Hid]%elem_of_cons; [done|]. by eapply IH.
Qed.

Lemma validated_tools seen names seen' :
  ofold insert_tool seen names = Ok seen' -> forall n, n ∈ names -> str_is_empty n = false.
Proof.
  revert seen. induction names as [|i names IH]; intros seen; cbn [ofold]; [by intros _ id ?%elem_of_nil|].
  unfold insert_tool at 1. destruct (str_is_empty i) eqn:Hi; [done|].
  destruct (mem i seen); [done|]. cbn [obind]. intros Hok id [->|Hid]%elem_of_cons; [done|]. by eapply IH.
Qed.

Lemma update_validated u :
  update_validate u = Ok tt ->
  (forall id, id ∈ map ch_id (cu_sections u) -> validate_section_id id = Ok tt) /\
  (forall n, n ∈ map td_name (cu_tools_added u) -> str_is_empty n = false).
Proof.
  unfold update_validate. destruct (ofold insert_section _ _) eqn:Hs; [|done..].
  destruct (ofold insert_tool _ (map _ _)) eqn:Ht; [|done..]. intros _.
  split; [by eapply validated_sections|by eapply validated_tools].
Qed.

Lemma changed_ids chs l id :
  id ∈ map ps_id (foldl apply_section l chs) -> id ∈ map ps_id l \/ id ∈ map ch_id chs.
Proof.
  revert l. induction chs as [|ch chs IH]; intros l; cbn [foldl map]; [by left|]. rewrite elem_of_cons.
  intros [Hid|Hid]%IH; [|by right; right]. unfold apply_section in Hid. destruct (ch_content ch) as [x|].
  - rewrite set_section_ids in Hid. case_bool_decide; [by left|].
    apply elem_of_app in Hid as [?| ->%list_elem_of_singleton]; [by left|right; by left].
  - left. eapply elem_of_submseteq; [exact Hid|]. apply sublist_submseteq, remove_section_ids.
Qed.

Lemma apply_update_admissible c u :
  admissible_names c -> update_validate u = Ok tt -> admissible_names (apply_update c u).
Proof.
  intros [Hs Ht] [Hus Hut]%update_validated. split.
  - intros s Hin. apply (list_elem_of_fmap_2 ps_id) in Hin.
    apply changed_ids in Hin as [(x & -> & Hx)%list_elem_of_fmap|Hin]; [by apply Hs|by apply Hus].
  - intros t Hin. destruct (applied_tools c u t Hin) as [Hc|Hu]; [by apply Ht|]. by apply Hut, list_elem_of_fmap_2.
Qed.

Lemma replay_admissible l c :
  (forall id u, System id u ∈ l -> update_validate u = Ok tt) -> configuration_replay l = Some c -> admissible_names c.
Proof.
  intros Hl ->%replay_Some.
  assert (Forall (fun u => update_validate u = Ok tt) (updates l)) as Hu.
  { apply Forall_forall. intros u (m & Hm & Heq)%list_elem_of_omap. destruct m as [| | |id v]; try discriminate Heq.
    injection Heq as ->. by apply (Hl id). }
  assert (admissible_names configuration_empty) as He by (split; by intros ? ?%elem_of_nil).
  revert He. generalize configuration_empty. clear Hl.
  induction Hu as [|u us Hu _ IH]; intros c Hc; cbn; [done|]. by apply IH, apply_update_admissible.
Qed.

Lemma initial_update_valid c : unique c -> admissible_names c -> update_validate (as_initial_update c) = Ok tt.
Proof.
  intros [Hsu Htu] [Hs Ht].
  assert (map ch_id (cu_sections (as_initial_update c)) = map ps_id (ec_sections c)) as Hids by apply map_map.
  apply update_validate_ok; rewrite ?Hids; [done|done|constructor| |].
  - intros id (s & -> & Hin)%list_elem_of_fmap. by apply Hs.
  - cbn. rewrite app_nil_r. intros n (t & -> & Hin)%list_elem_of_fmap. by apply Ht.
Qed.

Section dropping.
Context (p : AgentMessage -> bool) (Hp : forall m, is_system m = false -> p m = true).

Lemma calls_of_dropping l : calls_of (List.filter p l) = calls_of l.
Proof.
  induction l as [|m l IH]; [done|]. cbn [List.filter]. destruct (p m) eqn:Hm.
  - cbn. by f_equal.
  - destruct m; try (rewrite Hp in Hm; done). cbn. done.
Qed.
Lemma results_of_dropping l : results_of (List.filter p l) = results_of l.
Proof.
  induction l as [|m l IH]; [done|]. cbn [List.filter]. destruct (p m) eqn:Hm.
  - unfold results_of in *. cbn. destruct (result_of m); by rewrite IH.
  - destruct m; try (rewrite Hp in Hm; done). cbn. done.
Qed.

Lemma admits_dropping id u l m :
  message_id m <> id -> admits l m -> admits (System id u :: List.filter p l) m.
Proof.
  intros Hid (Hr & Hn & Hm). split; [done|]. split.
  - cbn. apply not_elem_of_cons. split; [done|]. intros (x & Hx & [Hin _]%filter_elem)%list_elem_of_fmap.
    apply Hn. rewrite Hx. by apply list_elem_of_fmap_2.
  - destruct m as [|a|r|]; try done; unfold answers in *; cbn; fold (calls_of (List.filter p l)) (results_of (List.filter p l)).
    + by rewrite calls_of_dropping.
    + by rewrite calls_of_dropping, results_of_dropping.
Qed.

Lemma ordered_with_configuration id u l :
  ordered l -> id <> 0 -> id <> u64_max -> id ∉ map message_id l -> update_validate u = Ok tt ->
  ordered (System id u :: List.filter p l).
Proof.
  intros Hl H0 H1 Hid Hu. induction l as [|m l IH] using rev_ind.
  - apply (ordered_snoc []). split; [apply ordered_nil|]. split; [done|]. split; [apply not_elem_of_nil|done].
  - apply ordered_snoc in Hl as [Hl Hm]. rewrite map_app, not_elem_of_app in Hid. destruct Hid as [Hid Hidm].
    rewrite List.filter_app. cbn. destruct (p m); [|rewrite app_nil_r; by apply IH].
    apply (ordered_snoc (System id u :: _)). split; [by apply IH|]. apply admits_dropping; [|done].
    intros E. apply Hidm. rewrite <-E. by left.
Qed.

Lemma structured_with_configuration id u l :
  structured l -> id <> 0 -> id <> u64_max -> id ∉ map message_id l -> update_validate u = Ok tt ->
  structured (System id u :: List.filter p l).
Proof.
  intros [Hl Hc] ? ? ? ?. split; [by apply ordered_with_configuration|].
  change (forall call, call ∈ calls_of (List.filter p l) -> tc_id call ∈ map tr_tool_call_id (results_of (List.filter p l))).
  by rewrite calls_of_dropping, results_of_dropping.
Qed.
End dropping.

Lemma fresh_configuration_id source replacement :
  (forall m, m ∈ source ++ replacement -> message_id m < u64_max - 1) ->
  configuration_id source replacement <> 0 /\ configuration_id source replacement <> u64_max /\
  configuration_id source replacement ∉ map message_id replacement.
Proof.
  intros Hids. unfold configuration_id.
  assert (foldl N.max 0 (map message_id (source ++ replacement)) < u64_max - 1) as Hmax.
  { assert (Forall (fun x => x <= u64_max - 2) (map message_id (source ++ replacement))) as Hall.
    { apply Forall_forall. intros x (m & -> & Hm)%list_elem_of_fmap. specialize (Hids m Hm).
      unfold u64_max in *. lia. }
    apply (foldl_max_bound _ 0) in Hall; [unfold u64_max in *; lia|unfold u64_max; lia]. }
  rewrite u64_saturating_add_exact by (unfold u64_max in *; lia).
  split_and!; [lia|unfold u64_max in *; lia|]. intros Hin.
  assert (forall x, x ∈ map message_id replacement -> x <= foldl N.max 0 (map message_id (source ++ replacement))) as Hle.
  { intros x Hx. apply foldl_max_le. left. rewrite map_app. apply elem_of_app. by right. }
  apply Hle in Hin. lia.
Qed.

(** The non-configuration messages of the replacement stay as they are. *)
Lemma preserved_conversation source replacement id :
  List.filter (fun m => negb (is_system m)) (preserve_configuration source replacement id)
  = List.filter (fun m => negb (is_system m)) replacement.
Proof.
  unfold preserve_configuration. destruct (configuration_replay _) as [c|]; [|done].
  destruct (match configuration_replay _ with Some d => same_content d c | None => false end); [done|].
  cbn [List.filter is_system negb]. rewrite filter_filter_and. apply filter_ext_elem. intros m _.
  destruct (is_system m); cbn; [by rewrite andb_false_r|done].
Qed.

Lemma preserved_structure source replacement :
  structured source -> structured replacement ->
  (forall m, m ∈ source ++ replacement -> message_id m < u64_max - 1) ->
  structured (preserve_configuration source replacement (configuration_id source replacement)).
Proof.
  intros Hs Hr Hids. destruct (fresh_configuration_id _ _ Hids) as (? & ? & ?).
  unfold preserve_configuration. fold (summarised source replacement).
  destruct (configuration_replay (summarised source replacement)) as [c|] eqn:Hc; [|done].
  destruct (match configuration_replay _ with Some d => same_content d c | None => false end); [done|].
  apply structured_with_configuration; [by intros m ->|done..|].
  apply initial_update_valid; [by eapply replay_is_unique|]. eapply replay_admissible; [|exact Hc].
  intros i u Hin. destruct Hs as [Hs _]. apply (ordered_updates _ Hs i). rewrite (source_cut source replacement).
  apply elem_of_app. by left.
Qed.

(** ** Theorems *)

(** C30: The structural check accepts exactly the histories in which identities are unique and
    not reserved, call identities are unique, every result answers an earlier call under its
    name, no call is answered twice, every call is answered and every configuration update is
    valid. *)
Theorem validation_decides_structure messages :
  validate_messages messages = Ok tt <-> structured messages.
Proof. apply validate_messages_ok. Qed.


(** A session that changed its configuration once is summarised up to its last message. *)
Definition long_conversation : list AgentMessage :=
  [System 1 (as_initial_update first_configuration); User 2 "hello"; System 3 change_update; User 4 "go on"].
Definition summary : list AgentMessage := [User 5 "The user said hello."; User 4 "go on"].


(** Results directly follow the assistant message that made their calls. *)
Definition made_call (r : ToolResultMessage) (call : AgentToolCall) : bool :=
  String.eqb (tc_id call) (tr_tool_call_id r) && String.eqb (tc_name call) (tr_tool_name r).
Definition open_next (calls : list AgentToolCall) (m : AgentMessage) : list AgentToolCall :=
  match m with Assistant a => am_tool_calls a | ToolResult _ => calls | _ => [] end.
Fixpoint contiguous (calls : list AgentToolCall) (l : list AgentMessage) : bool :=
  match l with
  | [] => true
  | m :: l =>
      match m with ToolResult r => existsb (made_call r) calls | _ => true end && contiguous (open_next calls m) l
  end.

Lemma contiguous_app calls l k : contiguous calls (l ++ k) = contiguous calls l && contiguous (foldl open_next calls l) k.
Proof. revert calls. induction l as [|m l IH]; intros calls; cbn; [done|]. by rewrite IH, andb_assoc. Qed.

Lemma contiguous_reset calls calls' l :
  (forall m, head l = Some m -> is_tool_result m = false) -> contiguous calls l = contiguous calls' l.
Proof. destruct l as [|[| | |] l]; cbn; intros Hl; try done. by specialize (Hl _ eq_refl). Qed.

Lemma open_calls_made calls l call : call ∈ foldl open_next calls l -> call ∈ calls \/ call ∈ calls_of l.
Proof.
  revert calls. induction l as [|m l IH]; intros calls; cbn; [by left|]. rewrite elem_of_app.
  intros [Hin|Hin]%IH; [|by right; right]. destruct m; cbn in *; [by apply elem_of_nil in Hin|right; by left|by left|].
  by apply elem_of_nil in Hin.
Qed.

Lemma contiguous_answers l before r after :
  contiguous [] l = true -> l = before ++ ToolResult r :: after -> answers before r.
Proof.
  intros Hl ->. rewrite contiguous_app in Hl. apply andb_true_iff in Hl as [_ [Hr _]%andb_true_iff].
  apply existsb_true_elem in Hr as (call & Hin & [Hid Hname]%andb_true_iff).
  apply open_calls_made in Hin as [Hin|Hin]; [by apply elem_of_nil in Hin|].
  exists call. split; [done|]. by apply String.eqb_eq in Hid, Hname.
Qed.

(** ** Cutting a conversation *)

Lemma ordered_app_l l k : ordered (l ++ k) -> ordered l.
Proof.
  induction k as [|m k IH] using rev_ind; [by rewrite app_nil_r|]. rewrite app_assoc, ordered_snoc. intros [H _]. auto.
Qed.

Lemma ordered_app_r l k :
  ordered (l ++ k) -> (forall before r after, k = before ++ ToolResult r :: after -> answers before r) -> ordered k.
Proof.
  intros [Hr Hid Hc Hres _ Hu] Ha. rewrite calls_of_app in Hc. rewrite results_of_app in Hres.
  apply NoDup_map_app in Hid as (_ & Hid & _), Hc as (_ & Hc & _), Hres as (_ & Hres & _).
  split; try done.
  - intros m Hm. apply Hr, elem_of_app. by right.
  - intros id u Hin. apply (Hu id), elem_of_app. by right.
Qed.

Lemma result_answers l r : ordered l -> r ∈ results_of l -> tr_tool_call_id r ∈ map tc_id (calls_of l).
Proof.
  intros Hl (m & Hm & Hr)%list_elem_of_omap. destruct m; try discriminate Hr. injection Hr as ->.
  apply list_elem_of_split in Hm as (before & after & ->).
  destruct (ordered_answers _ Hl before r after eq_refl) as (call & Hin & <- & _).
  apply list_elem_of_fmap_2. rewrite calls_of_app. apply elem_of_app. by left.
Qed.

Lemma structured_cut l k :
  structured (l ++ k) -> contiguous [] (l ++ k) = true ->
  (l = [] \/ forall m, head k = Some m -> is_tool_result m = false) -> structured l /\ structured k.
Proof.
  intros [Ho Hc] Hcont Hhead.
  assert (contiguous [] k = true) as Hk.
  { destruct Hhead as [->|Hhead]; [done|]. rewrite contiguous_app in Hcont. apply andb_true_iff in Hcont as [_ Hcont].
    by rewrite (contiguous_reset _ (foldl open_next [] l)). }
  pose proof (ordered_app_l l k Ho) as Hol.
  pose proof (ordered_app_r l k Ho (fun before r after => contiguous_answers k before r after Hk)) as Hok.
  pose proof (ordered_calls _ Ho) as Hnd. rewrite calls_of_app in Hnd. apply NoDup_map_app in Hnd as (_ & _ & Hd).
  split; (split; [done|]); intros call Hin.
  - assert (tc_id call ∈ map tr_tool_call_id (results_of (l ++ k))) as Hres.
    { apply Hc. rewrite calls_of_app. apply elem_of_app. by left. }
    rewrite results_of_app, map_app in Hres. apply elem_of_app in Hres as [Hres|Hres]; [done|exfalso].
    apply list_elem_of_fmap in Hres as (r & Hid & Hr). apply (result_answers k r Hok) in Hr.
    apply list_elem_of_fmap in Hr as (other & Hother & Hr). apply (Hd other Hr). rewrite <-Hother, <-Hid.
    by apply list_elem_of_fmap_2.
  - assert (tc_id call ∈ map tr_tool_call_id (results_of (l ++ k))) as Hres.
    { apply Hc. rewrite calls_of_app. apply elem_of_app. by right. }
    rewrite results_of_app, map_app in Hres. apply elem_of_app in Hres as [Hres|Hres]; [exfalso|done].
    apply list_elem_of_fmap in Hres as (r & Hid & Hr). apply (result_answers l r Hol) in Hr.
    apply (Hd call Hin). by rewrite Hid.
Qed.

(** ** The loops of the split *)

Lemma estimate_app l k : estimate_messages_tokens (l ++ k) = estimate_messages_tokens l + estimate_messages_tokens k.
Proof.
  unfold estimate_messages_tokens. rewrite map_app, foldl_app. generalize (foldl N.add 0 (map estimate_message_tokens l)).
  generalize (map estimate_message_tokens k). clear. intros k.
  assert (forall a b, foldl N.add (a + b) k = a + foldl N.add b k) as H.
  { induction k as [|x k IH]; intros a b; cbn; [done|]. by rewrite <-N.add_assoc, IH. }
  intros n. rewrite <-(H n 0). by rewrite N.add_0_r.
Qed.

Lemma recent_start_spec l n tokens start :
  n <= u64_max -> (start <= length l)%nat ->
  (recent_start l n tokens start <= start)%nat /\
  (recent_start l n tokens start = O \/
   n <= u64_saturating_add tokens (estimate_messages_tokens (drop (recent_start l n tokens start) (take start l)))).
Proof.
  intros Hmax. revert tokens. induction start as [|start IH]; intros tokens Hs; cbn [recent_start]; [by auto|].
  destruct (N.ltb_spec tokens n) as [Hlt|Hge].
  - destruct (lookup_lt_is_Some_2 l start) as [m Hm]; [lia|]. rewrite Hm.
    destruct (IH (u64_saturating_add tokens (estimate_message_tokens m))) as [Hle Hn]; [lia|]. split; [lia|].
    destruct Hn as [->|Hn]; [by left|right]. rewrite (take_S_r l start m Hm), drop_app_le by (rewrite length_take; lia).
    etrans; [exact Hn|]. rewrite estimate_app.
    change (estimate_messages_tokens [m]) with (0 + estimate_message_tokens m).
    unfold u64_saturating_add. lia.
  - split; [lia|]. right. rewrite drop_ge by (rewrite length_take; lia). cbn. unfold u64_saturating_add. lia.
Qed.

Lemma recent_start_lt l n : l <> [] -> n <> 0 -> (recent_start l n 0 (length l) < length l)%nat.
Proof.
  intros Hl Hn. destruct l as [|x l] using rev_ind; [done|]. clear IHl. rewrite length_app. cbn [length].
  rewrite Nat.add_1_r. cbn [recent_start]. destruct (N.ltb_spec 0 n) as [_|]; [|lia].
  assert (forall start tokens, (recent_start (l ++ [x]) n tokens start <= start)%nat) as Hle.
  { induction start as [|start IH]; intros tokens; cbn; [done|]. destruct (tokens <? n); [|done]. etrans; [apply IH|lia]. }
  apply Nat.lt_succ_r, Hle.
Qed.

Lemma owner_start_spec l start :
  (owner_start l start <= start)%nat /\
  (owner_start l start = O \/ forall m, l !! owner_start l start = Some m -> is_tool_result m = false).
Proof.
  induction start as [|start IH]; cbn [owner_start]; [by auto|].
  destruct (l !! S start) as [m|] eqn:Hm; [destruct (is_tool_result m) eqn:Hr|].
  - destruct IH. split; [lia|done].
  - split; [lia|]. right. intros ? ?. by simplify_eq.
  - split; [lia|]. right. intros ? ?. by simplify_eq.
Qed.

Lemma last_user_spec l start turn :
  last_user_before l start = Some turn -> (turn < start)%nat /\ exists id content, l !! turn = Some (User id content).
Proof.
  induction start as [|start IH]; cbn [last_user_before]; [done|].
  destruct (l !! start) as [m|] eqn:Hm; [destruct (is_user m) eqn:Hu|].
  - intros [= <-]. split; [lia|]. destruct m; try done. eauto.
  - intros [? ?]%IH. split; [lia|done].
  - intros [? ?]%IH. split; [lia|done].
Qed.

Lemma head_drop {A} (l : list A) n : head (drop n l) = l !! n.
Proof. rewrite head_lookup, lookup_drop. by rewrite Nat.add_0_r. Qed.

(** Where the split cuts a nonempty conversation. *)
Lemma split_cases {E} l n :
  l <> [] -> n <> 0 -> n <= u64_max ->
  exists start before turn,
    @automatic_compaction_split E l n = Ok (before, drop start l, turn) /\
    take start l = before ++ turn /\ (start < length l)%nat /\
    (start = O \/ n <= estimate_messages_tokens (drop start l)) /\
    (start = O \/ forall m, head (drop start l) = Some m -> is_tool_result m = false) /\
    (turn = [] \/ (exists id content, head turn = Some (User id content)) /\
                 exists a, head (drop start l) = Some (Assistant a)).
Proof.
  intros Hl Hn Hmax. unfold automatic_compaction_split.
  assert (is_nil l = false) as -> by by destruct l. rewrite (proj2 (N.eqb_neq n 0) Hn). cbn [orb].
  pose proof (recent_start_lt l n Hl Hn) as Hlt.
  destruct (recent_start_spec l n 0 (length l) Hmax) as [_ Hrec]; [done|].
  destruct (owner_start_spec l (recent_start l n 0 (length l))) as [Hle Hown].
  set (recent := recent_start l n 0 (length l)) in *. set (start := owner_start l recent) in *.
  destruct (lookup_lt_is_Some_2 l start) as [first Hfirst]; [lia|]. rewrite Hfirst.
  assert (start = O \/ n <= estimate_messages_tokens (drop start l)) as Htok.
  { destruct Hrec as [Hr|Hr]; [left; lia|right]. rewrite firstn_all in Hr. etrans; [exact Hr|].
    rewrite <-(take_drop (recent - start) (drop start l)), drop_drop.
    replace (start + (recent - start))%nat with recent by lia.
    rewrite estimate_app. unfold u64_saturating_add. lia. }
  assert (start = O \/ forall m, head (drop start l) = Some m -> is_tool_result m = false) as Hhead.
  { destruct Hown as [?|Hown]; [by left|right]. intros m. rewrite head_drop. apply Hown. }
  destruct (if is_assistant first then last_user_before l start else None) as [turn|] eqn:Hturn.
  - destruct first as [|a| |]; try discriminate Hturn. apply last_user_spec in Hturn as (Hts & i & x & Hx).
    exists start, (take turn l), (drop turn (take start l)). split_and!; [done| |lia|done|done|right].
    + rewrite <-(take_drop turn (take start l)) at 1. by rewrite take_take, Nat.min_l by lia.
    + split; [|exists a; by rewrite head_drop]. exists i, x. rewrite head_drop, lookup_take. case_decide; [done|lia].
  - exists start, (take start l), []. rewrite app_nil_r. split_and!; auto. lia.
Qed.

(** The automatic split cuts a valid history into parts that each pass the structural
    check, so no call is separated from its result; the retained part reaches the requested
    number of tokens or is the whole history, and a split turn begins with its user message. *)
Theorem split_keeps_calls_paired messages recent_tokens :
  validate_messages messages = Ok tt -> contiguous [] messages = true -> recent_tokens <= u64_max ->
  exists before retained turn,
    @automatic_compaction_split Empty_set messages recent_tokens = Ok (before, retained, turn) /\
    messages = before ++ turn ++ retained /\
    validate_messages (before ++ turn) = Ok tt /\ validate_messages retained = Ok tt /\
    (retained = messages \/ recent_tokens <= estimate_messages_tokens retained) /\
    (turn = [] \/ (exists id content, head turn = Some (User id content)) /\
                 exists a, head retained = Some (Assistant a)).
Proof.
  intros Hv Hc Hmax. destruct (decide (messages = [] \/ recent_tokens = 0)) as [Htriv|Hnon].
  - exists messages, [], []. split.
    { unfold automatic_compaction_split. destruct Htriv as [->| ->]; [done|]. by rewrite orb_true_r. }
    rewrite !app_nil_r. split_and!; [done|done|done| |by left]. destruct Htriv as [->| ->]; [by left|right; lia].
  - destruct (split_cases (E:=Empty_set) messages recent_tokens) as (start & before & turn & Hsplit & Htake & Hlt & Htok & Hhead & Hturn);
      [naive_solver..|].
    exists before, (drop start messages), turn. split; [exact Hsplit|].
    assert (messages = before ++ turn ++ drop start messages) as Heq.
    { by rewrite app_assoc, <-Htake, take_drop. }
    rewrite validate_messages_ok in Hv.
    destruct (structured_cut (before ++ turn) (drop start messages)) as [Hb Hr];
      [by rewrite <-app_assoc, <-Heq|by rewrite <-app_assoc, <-Heq| |].
    { destruct Hhead as [->|Hhead]; [left|by right]. by rewrite <-Htake. }
    split_and!; [done|by apply validate_messages_ok..| |done].
    destruct Htok as [->|]; [left; by rewrite drop_0|by right].
Qed.

(** A turn with two tool calls is cut before its second model response. *)
Definition call_read : AgentToolCall := mk_call "c1" "read" "{}".
Definition call_write : AgentToolCall := mk_call "c2" "write" "{}".
Definition asks (id : N) (text : string) (calls : list AgentToolCall) : AgentMessage :=
  Assistant (mk_assistant id [Text text] calls (Some ToolUse) None [] None).
Definition answer_to (id : N) (call : AgentToolCall) (content : string) : AgentMessage :=
  ToolResult (mk_result id (tc_id call) (tc_name call) content None None [] false false None).
Definition tool_conversation : list AgentMessage :=
  [User 1 "fix the bug"; asks 2 "reading" [call_read]; answer_to 3 call_read "contents";
   asks 4 "writing" [call_write]; answer_to 5 call_write "done"].

Lemma split_keeps_calls_paired_witness :
  @automatic_compaction_split Empty_set tool_conversation 5
    = Ok ([], drop 3 tool_conversation, take 3 tool_conversation) /\
  validate_messages (take 3 tool_conversation) = Ok tt /\ validate_messages (drop 3 tool_conversation) = Ok tt.
Proof.
  assert (@automatic_compaction_split Empty_set tool_conversation 5
    = Ok ([], drop 3 tool_conversation, take 3 tool_conversation)) as Hs by (vm_compute; reflexivity).
  split; [exact Hs|].
  destruct (split_keeps_calls_paired tool_conversation 5) as (before & retained & turn & Hok & _ & Hb & Hr & _);
    [vm_compute; reflexivity..|vm_compute; discriminate|].
  rewrite Hs in Hok. injection Hok as <- <- <-. exact (conj Hb Hr).
Defined.
