(* ===== verification/RequestContext.v ===== *)
(** * tea-core: what a model request declares
    ([crates/tea-core/src/run/mod.rs], [error.rs])

    Before each request the run brings the configuration of the transcript up
    to its own prompt and tools; after the context hook it restores the
    canonical configuration and refuses a declaration outside the registry.
    Also here: the errors of the core, the content builder of a streamed
    response and the estimate of the context size.  The theorems follow. *)

From stdpp Require Import base gmap sets list strings.
From S2P Require Import Prelude RustStr Json Ids SessionErrors Configuration Messages Transcript.
From S2P Require Import TranscriptProofs TranscriptJson SchemaValidation CoreState CoreStateProofs Tools ToolsProofs Compaction.
From S2P Require Import CompactionProofs.

Local Open Scope N_scope.

(** ** Errors *)

Record StateTransitionError := mk_transition_error {
  te_entity : string;
  te_from : string;
  te_operation : string;
}.
Record HookError := mk_hook_error { he_hook : string; he_message : string }.
Inductive PromptContinuity := FirstRequest | ExactExtension | DomainChanged | Rebased | Discontinuous.

Inductive CoreError :=
| ActiveRunError (run_id : N)
| InvalidTransition (error : StateTransitionError)
| RunFinished (run_id : N)
| CoreCancelled
| MissingModelProvider
| ModelProviderError (message : Message)
| ModelErrorResponse (message : Message)
| ModelAborted (message : Message)
| HookFailed (error : HookError)
| EffectGateFailed (message : string)
| UnsupportedModelStream (message : Message)
| CompactionFailure (error : CompactionError)
| MissingCompactor
| AutomaticCompactionUnavailable (reason : AutomaticCompactionReason)
| AutomaticCompactionError (reason : AutomaticCompactionReason) (message : Message)
| InvalidAutomaticCompactionPolicy (message : string)
| InvalidToolResultProjectionPolicy (message : string)
| ToolCircuitBreakerError (message : Message)
| PromptLayoutRejected (continuity : PromptContinuity)
| UnauthorizedToolDeclaration (name : string)
| InvalidConfiguration (message : Message)
| ModelRoutingError (message : Message).

Definition transition_error (entity from operation : string) : CoreError :=
  InvalidTransition (mk_transition_error entity from operation).

(** [Display] of [CoreError]; the derived [Debug] of an enum value is its name,
    of a run identifier its constructor around the number. *)
Definition reason_debug (r : AutomaticCompactionReason) : string :=
  match r with AutomaticThreshold => "Threshold" | AutomaticOverflow => "Overflow" end.
Definition continuity_debug (c : PromptContinuity) : string :=
  match c with
  | FirstRequest => "FirstRequest"
  | ExactExtension => "ExactExtension"
  | DomainChanged => "DomainChanged"
  | Rebased => "Rebased"
  | Discontinuous => "Discontinuous"
  end.
Definition run_id_debug (run_id : N) : Message := [Lit "RunId("; Num run_id; Lit ")"].
Definition core_error_display (e : CoreError) : Message :=
  match e with
  | ActiveRunError run_id => Lit "agent already has active run " :: run_id_debug run_id
  | InvalidTransition e =>
      [Lit (te_entity e); Lit " cannot perform "; Lit (te_operation e); Lit " from "; Lit (te_from e)]
  | RunFinished run_id => Lit "run " :: run_id_debug run_id ++ [Lit " is already finished"]
  | CoreCancelled => [Lit "operation was cancelled"]
  | MissingModelProvider => [Lit "agent has no model provider"]
  | ModelProviderError message => Lit "model provider failed: " :: message
  | ModelErrorResponse message => Lit "model response failed: " :: message
  | ModelAborted message => Lit "model response aborted: " :: message
  | HookFailed e => [Lit (he_hook e); Lit " hook failed: "; Lit (he_message e)]
  | EffectGateFailed message => [Lit "effect gate failed: "; Lit message]
  | UnsupportedModelStream message => Lit "unsupported model stream behavior: " :: message
  | CompactionFailure e => compaction_error_display e
  | MissingCompactor => [Lit "agent has no configured compactor"]
  | AutomaticCompactionUnavailable reason =>
      [Lit "automatic compaction is unavailable for "; Lit (reason_debug reason)]
  | AutomaticCompactionError reason message =>
      [Lit "automatic compaction failed for "; Lit (reason_debug reason); Lit ": "] ++ message
  | InvalidAutomaticCompactionPolicy message | InvalidToolResultProjectionPolicy message => [Lit message]
  | ToolCircuitBreakerError message => Lit "tool circuit breaker stopped the run: " :: message
  | PromptLayoutRejected continuity =>
      [Lit "prompt layout policy rejected "; Lit (continuity_debug continuity); Lit " continuity"]
  | UnauthorizedToolDeclaration name =>
      [Lit "request declares tool "; Dbg name; Lit " outside the run's authorized registry"]
  | InvalidConfiguration message => Lit "invalid model configuration update: " :: message
  | ModelRoutingError message => Lit "model routing failed: " :: message
  end.

(** ** The configuration a run wants *)

(** The closures [deferred] and [retain] of [desired_configuration]. *)
Definition deferred_tool (registry : ToolRegistry) (name : string) : option AgentTool :=
  match registry_get registry name with
  | Some tool => if bool_decide (at_exposure tool = Deferred) then Some tool else None
  | None => None
  end.
Definition retain_deferred (registry : ToolRegistry) (tools : list ToolDeclaration) (name : string) :
    list ToolDeclaration :=
  if existsb (fun tool => String.eqb (td_name tool) name) tools then tools
  else match deferred_tool registry name with
       | Some tool => tools ++ [declaration_of tool]
       | None => tools
       end.

(** [messages[last_system..]]: what follows the last system message. *)
Definition after_last_system (messages : list AgentMessage) : list AgentMessage :=
  foldl (fun tail m => if is_system m then [] else tail ++ [m]) [] messages.
Definition names_added (m : AgentMessage) : list string :=
  match m with ToolResult r => tr_added_tool_names r | _ => [] end.

(** [RunHandle::desired_configuration]. *)
Definition desired_tools (registry : ToolRegistry) (messages : list AgentMessage) : list ToolDeclaration :=
  let tools := registry_declarations registry Direct in
  let tools :=
    match configuration_replay messages with
    | Some current => foldl (retain_deferred registry) tools (map td_name (ec_tools current))
    | None => tools
    end in
  foldl (retain_deferred registry) tools (after_last_system messages ≫= names_added).
Definition desired_configuration (prompt : SystemPrompt) (registry : ToolRegistry) (messages : list AgentMessage) :
    option EffectiveConfiguration * EffectiveConfiguration :=
  (configuration_replay messages, configuration_new prompt (desired_tools registry messages)).

(** The update that [synchronize_configuration] computes under the state lock. *)
Definition needed_update (prompt : SystemPrompt) (registry : ToolRegistry) (messages : list AgentMessage) :
    option ConfigurationUpdate :=
  let '(current, desired) := desired_configuration prompt registry messages in
  match (match current with
         | Some current => configuration_diff current desired
         | None => Some (as_initial_update desired)
         end) with
  | Some update => if update_is_empty update then None else Some update
  | None => None
  end.

(** ** After the context hook *)

(** [restore_canonical_configuration]. *)
Fixpoint all_equal (l k : list AgentMessage) : bool :=
  match l, k with
  | x :: l, y :: k => (x ==? y) && all_equal l k
  | _, _ => true
  end.
Definition restore_canonical_configuration (t : Transcript) (canonical : list AgentMessage) : Transcript :=
  let present := List.filter is_system (t_messages t) in
  if (length present =? length canonical)%nat && all_equal present canonical then t
  else
    let conversation := List.filter (fun m => negb (is_system m)) (t_messages t) in
    match configuration_replay canonical with
    | None => mk_transcript conversation (t_host_notes t)
    | Some current =>
        let id := match canonical with m :: _ => message_id m | [] => u64_max - 1 end in
        mk_transcript (System id (as_initial_update current) :: conversation) (t_host_notes t)
    end.

(** [validate_declared_tools]. *)
Definition validate_declared_tool (registry : ToolRegistry) (declared : ToolDeclaration) : Outcome CoreError unit :=
  match registry_get registry (td_name declared) with
  | None => Err (UnauthorizedToolDeclaration (td_name declared))
  | Some tool =>
      if bool_decide (at_exposure tool = Composition) || (declaration_of tool !=? declared)
      then Err (UnauthorizedToolDeclaration (td_name declared)) else Ok ()
  end.
Fixpoint validate_declarations (registry : ToolRegistry) (tools : list ToolDeclaration) : Outcome CoreError unit :=
  match tools with
  | [] => Ok ()
  | declared :: tools =>
      check? validate_declared_tool registry declared in
      validate_declarations registry tools
  end.
Definition validate_declared_tools (t : Transcript) (registry : ToolRegistry) : Outcome CoreError unit :=
  validate_declarations registry (transcript_tools t).

(** The part of [build_transcript] that follows the context hook. *)
Definition request_transcript (transformed : ContextEnvelope) (agent_messages : list AgentMessage)
    (registry : ToolRegistry) : Outcome CoreError Transcript :=
  let t := mk_transcript (ce_messages transformed) (ce_host_messages transformed) in
  let t := restore_canonical_configuration t (List.filter is_system agent_messages) in
  check? validate_declared_tools t registry in
  Ok t.

(** ** Streamed content *)

(** [AssistantContentBuilder]. *)
Record ContentBuilder := mk_builder {
  cb_blocks : list AssistantContent;
  cb_thinking_open : bool;
}.
Definition builder_default : ContentBuilder := mk_builder [] false.
Definition replace_last {A} (l : list A) (x : A) : list A := take (length l - 1) l ++ [x].
Definition builder_text (b : ContentBuilder) (delta : string) : ContentBuilder :=
  match last (cb_blocks b) with
  | Some (Text text) => mk_builder (replace_last (cb_blocks b) (Text (text +:+ delta))) false
  | _ => mk_builder (cb_blocks b ++ [Text delta]) false
  end.
Definition builder_thinking (b : ContentBuilder) (delta : string) : ContentBuilder :=
  match cb_thinking_open b, last (cb_blocks b) with
  | true, Some (Thinking text signature) =>
      mk_builder (replace_last (cb_blocks b) (Thinking (text +:+ delta) signature)) true
  | _, _ => mk_builder (cb_blocks b ++ [Thinking delta None]) true
  end.
Definition builder_signature (b : ContentBuilder) (item : OpaqueItem) : ContentBuilder :=
  match cb_thinking_open b, last (cb_blocks b) with
  | true, Some (Thinking text _) => mk_builder (replace_last (cb_blocks b) (Thinking text (Some item))) false
  | _, _ => mk_builder (cb_blocks b ++ [Thinking EmptyString (Some item)]) false
  end.
Definition builder_redacted (b : ContentBuilder) (data : OpaqueItem) : ContentBuilder :=
  mk_builder (cb_blocks b ++ [RedactedThinking data]) false.
Definition builder_close (b : ContentBuilder) : ContentBuilder := mk_builder (cb_blocks b) false.

(** ** The size of the context *)

(** [ContextEstimator]. *)
Record ContextEstimator := mk_estimator { es_last_valid_input : option (N * nat) }.
Definition estimator_default : ContextEstimator := mk_estimator None.
Definition observe_valid_input (e : ContextEstimator) (input_tokens : option N) (request_message_count : nat) :
    ContextEstimator :=
  match input_tokens with
  | Some tokens => if tokens =? 0 then e else mk_estimator (Some (tokens, request_message_count))
  | None => e
  end.
Definition context_estimate (e : ContextEstimator) (messages : list AgentMessage) : N :=
  let raw := estimate_messages_tokens messages in
  match es_last_valid_input e with
  | Some (input_tokens, count) =>
      if (count <=? length messages)%nat
      then N.max (u64_saturating_add input_tokens (estimate_messages_tokens (drop count messages))) raw
      else raw
  | None => raw
  end.
Definition reset_after_compaction (e : ContextEstimator) : ContextEstimator := mk_estimator None.

(** ** The tools a run declares *)

(** The declaration of a name, given the deferred names already loaded. *)
Definition declared_as (registry : ToolRegistry) (loaded : list string) (name : string) : option ToolDeclaration :=
  match registry_get registry name with
  | Some tool =>
      match at_exposure tool with
      | Direct => Some (declaration_of tool)
      | Deferred => if bool_decide (name ∈ loaded) then Some (declaration_of tool) else None
      | Composition => None
      end
  | None => None
  end.

Section registry.
Context (registry : ToolRegistry) (Hwf : registry_wf registry).

Lemma get_name name tool : registry_get registry name = Some tool -> at_name tool = name.
Proof. apply Hwf. Qed.

Lemma find_direct name :
  find_tool (registry_declarations registry Direct) name =
    match registry_get registry name with
    | Some tool => if bool_decide (at_exposure tool = Direct) then Some (declaration_of tool) else None
    | None => None
    end.
Proof.
  unfold registry_declarations. pose proof (registry_iter_names registry Hwf) as Hnames.
  assert (NoDup (map td_name (map declaration_of
    (List.filter (fun tool => bool_decide (at_exposure tool = Direct)) (registry_iter registry))))) as Hnd.
  { rewrite map_map. apply (NoDup_filter_keys at_name). rewrite Hnames. apply Hwf. }
  destruct (registry_get registry name) as [tool|] eqn:Hget.
  - assert (tool ∈ registry_iter registry) as Hin.
    { unfold registry_iter. apply list_elem_of_omap. exists name. split; [apply Hwf; eauto|done]. }
    case_bool_decide as Hexp.
    + assert (declaration_of tool ∈ map declaration_of
        (List.filter (fun tool => bool_decide (at_exposure tool = Direct)) (registry_iter registry))) as Hd.
      { apply list_elem_of_fmap_2, filter_elem. split; [done|]. by apply bool_decide_eq_true. }
      apply (find_tool_elem _ _ Hnd) in Hd. cbn in Hd. by rewrite (get_name _ _ Hget) in Hd.
    + apply (lookup_by_None td_name). intros (d & -> & (t & -> & [Ht He]%filter_elem)%list_elem_of_fmap)%list_elem_of_fmap.
      apply list_elem_of_omap in Ht as (n & _ & Hn). pose proof (get_name _ _ Hn) as <-. cbn [td_name declaration_of] in Hget.
      apply bool_decide_eq_true in He. congruence.
  - apply (lookup_by_None td_name). intros (d & -> & (t & -> & [Ht He]%filter_elem)%list_elem_of_fmap)%list_elem_of_fmap.
    apply list_elem_of_omap in Ht as (n & _ & Hn). pose proof (get_name _ _ Hn) as <-. cbn [td_name declaration_of] in Hget. congruence.
Qed.

Lemma direct_unique : NoDup (map td_name (registry_declarations registry Direct)).
Proof.
  unfold registry_declarations. rewrite map_map. apply (NoDup_filter_keys at_name).
  rewrite (registry_iter_names registry Hwf). apply Hwf.
Qed.

Lemma deferred_name name tool : deferred_tool registry name = Some tool -> at_name tool = name.
Proof.
  unfold deferred_tool. destruct (registry_get registry name) as [t|] eqn:Hget; [|done].
  case_bool_decide; [|done]. intros [= <-]. by apply get_name.
Qed.

Lemma retained_unique names tools :
  NoDup (map td_name tools) -> NoDup (map td_name (foldl (retain_deferred registry) tools names)).
Proof.
  revert tools. induction names as [|n names IH]; intros tools Hnd; cbn; [done|]. apply IH. unfold retain_deferred.
  destruct (existsb _ tools) eqn:He; [done|]. destruct (deferred_tool registry n) as [tool|] eqn:Hd; [|done].
  rewrite NoDup_map_app. split_and!; [done|apply NoDup_singleton|]. intros y ->%list_elem_of_singleton.
  cbn. rewrite (deferred_name _ _ Hd). intros (x & Hx & Hin)%list_elem_of_fmap.
  rewrite existsb_false_elem in He. specialize (He x Hin). by rewrite <-Hx, String.eqb_refl in He.
Qed.

Lemma find_retained_deferred names tools k :
  find_tool (foldl (retain_deferred registry) tools names) k =
    match find_tool tools k with
    | Some t => Some t
    | None => if bool_decide (k ∈ names) then declaration_of <$> deferred_tool registry k else None
    end.
Proof.
  revert tools. induction names as [|n names IH]; intros tools; cbn [foldl].
  - rewrite bool_decide_false by apply not_elem_of_nil. by destruct (find_tool tools k).
  - rewrite IH. unfold retain_deferred.
    assert (existsb (fun tool => String.eqb (td_name tool) n) tools = bool_decide (is_Some (find_tool tools n))) as He.
    { destruct (existsb _ tools) eqn:He; symmetry.
      - apply bool_decide_eq_true. apply existsb_true_elem in He as (x & Hx & Hn%String.eqb_eq).
        destruct (find_tool tools n) eqn:Hf; [eauto|]. apply (lookup_by_None td_name) in Hf. destruct Hf. rewrite <-Hn.
        by apply list_elem_of_fmap_2.
      - apply bool_decide_eq_false. intros [t [Ht Hn]%find_tool_Some]. rewrite existsb_false_elem in He.
        specialize (He t Ht). by rewrite Hn, String.eqb_refl in He. }
    rewrite He. case_bool_decide as Hf.
    + destruct (find_tool tools k) eqn:Hk; [done|].
      assert (k <> n) by (intros ->; rewrite Hk in Hf; by destruct Hf).
      assert (k ∈ n :: names <-> k ∈ names) as Hiff by (rewrite elem_of_cons; naive_solver).
      by rewrite (bool_decide_ext _ _ Hiff).
    + destruct (deferred_tool registry n) as [tool|] eqn:Hd.
      * rewrite find_app. destruct (find_tool tools k) eqn:Hk; [done|]. unfold find_tool at 1. cbn [List.find declaration_of td_name].
        rewrite (deferred_name _ _ Hd). destruct (String.eqb_spec n k) as [->|Hne].
        { rewrite bool_decide_true by by left. by rewrite Hd. }
        assert (k ∈ n :: names <-> k ∈ names) as Hiff by (rewrite elem_of_cons; naive_solver).
        by rewrite (bool_decide_ext _ _ Hiff).
      * destruct (find_tool tools k) eqn:Hk; [done|]. destruct (decide (k = n)) as [->|Hne].
        { rewrite (bool_decide_true (n ∈ n :: names)) by by left. rewrite Hd. by case_bool_decide. }
        assert (k ∈ n :: names <-> k ∈ names) as Hiff by (rewrite elem_of_cons; naive_solver).
        by rewrite (bool_decide_ext _ _ Hiff).
Qed.

(** The names of the configuration in force and of the results since then. *)
Definition loaded_names (messages : list AgentMessage) : list string :=
  match configuration_replay messages with Some c => map td_name (ec_tools c) | None => [] end
  ++ (after_last_system messages ≫= names_added).

Lemma desired_tools_fold messages :
  desired_tools registry messages =
  foldl (retain_deferred registry) (registry_declarations registry Direct) (loaded_names messages).
Proof.
  unfold desired_tools, loaded_names. rewrite foldl_app. by destruct (configuration_replay messages).
Qed.

Lemma desired_tools_unique messages : NoDup (map td_name (desired_tools registry messages)).
Proof. rewrite desired_tools_fold. apply retained_unique, direct_unique. Qed.

Lemma find_desired messages name :
  find_tool (desired_tools registry messages) name = declared_as registry (loaded_names messages) name.
Proof.
  rewrite desired_tools_fold, find_retained_deferred, find_direct. unfold declared_as, deferred_tool.
  destruct (registry_get registry name) as [tool|]; [|by case_bool_decide].
  destruct (at_exposure tool); cbn; repeat case_bool_decide; done.
Qed.
End registry.

(** ** Synchronising *)

Lemma inserted_unique seen ids seen' :
  ofold insert_section seen ids = Ok seen' -> NoDup ids /\ forall id, id ∈ ids -> id ∉ seen.
Proof.
  revert seen. induction ids as [|i ids IH]; intros seen; cbn [ofold].
  { intros _. split; [constructor|]. by intros id ?%elem_of_nil. }
  unfold insert_section at 1. destruct (validate_section_id i) as [[]| |]; [|done..]. cbn [obind].
  unfold mem. case_bool_decide as Hi; [done|]. cbn [obind]. intros [Hnd Hno]%IH. split.
  - constructor; [|done]. intros Hin. apply (Hno i Hin). by apply elem_of_union_l, elem_of_singleton.
  - intros id [->|Hid]%elem_of_cons; [done|]. intros Hin. apply (Hno id Hid). by apply elem_of_union_r.
Qed.

Lemma prompt_unique sections prompt :
  system_prompt_new sections = Ok prompt ->
  NoDup (map ps_id (sp_sections prompt)) /\ forall s, s ∈ sp_sections prompt -> validate_section_id (ps_id s) = Ok tt.
Proof.
  unfold system_prompt_new. destruct (ofold insert_section _ _) eqn:Hs; [|done..]. intros [= <-]. cbn [sp_sections]. split.
  - by eapply inserted_unique.
  - intros s Hin. eapply validated_sections; [exact Hs|]. by apply list_elem_of_fmap_2.
Qed.

Lemma after_last_system_snoc messages id u : after_last_system (messages ++ [System id u]) = [].
Proof. unfold after_last_system. by rewrite foldl_app. Qed.

Lemma option_tool_eq_sym (a b : option ToolDeclaration) : (a ==? b) = (b ==? a).
Proof. destruct a, b; cbn; [apply tool_eq_sym|done..]. Qed.

(** Every registered tool has a name and a schema with finite numbers. *)
Definition registry_sound (registry : ToolRegistry) : Prop :=
  forall name tool, registry_get registry name = Some tool -> str_is_empty name = false /\ json_finite (at_schema tool) = true.

Section synchronise.
Context (sections : list PromptSection) (prompt : SystemPrompt) (Hprompt : system_prompt_new sections = Ok prompt).
Context (registry : ToolRegistry) (Hbuilt : registry_built registry) (Hsound : registry_sound registry).

Definition wanted (messages : list AgentMessage) : EffectiveConfiguration :=
  configuration_new prompt (desired_tools registry messages).

Lemma wanted_unique messages : unique (wanted messages).
Proof. split; [by eapply prompt_unique|]. by apply desired_tools_unique, registry_built_wf. Qed.

Lemma wanted_tool messages t :
  t ∈ desired_tools registry messages ->
  exists tool, registry_get registry (td_name t) = Some tool /\ at_exposure tool <> Composition /\ t = declaration_of tool.
Proof.
  pose proof (registry_built_wf _ Hbuilt) as Hwf. intros Hin.
  pose proof (find_tool_elem _ t (desired_tools_unique registry Hwf messages) Hin) as Hf.
  rewrite find_desired in Hf by done. unfold declared_as in Hf.
  destruct (registry_get registry (td_name t)) as [tool|]; [|done]. exists tool.
  destruct (at_exposure tool) eqn:He; try done; [|case_bool_decide; [|done]]; by injection Hf as <-.
Qed.

Lemma wanted_admissible messages : admissible_names (wanted messages).
Proof.
  split; [by eapply prompt_unique|]. intros t (tool & Hget & _ & _)%wanted_tool. by eapply Hsound.
Qed.

Lemma wanted_finite messages : finite_tools (wanted messages).
Proof.
  apply Forall_forall. intros t (tool & Hget & _ & ->)%wanted_tool. unfold tool_finite. cbn. by eapply Hsound.
Qed.

(** Once the wanted configuration is in force, nothing further is needed. *)
Lemma in_force_stable messages id u c :
  unique c -> alike (wanted messages) c -> configuration_replay (messages ++ [System id u]) = Some c ->
  alike (wanted (messages ++ [System id u])) c.
Proof.
  intros Hc [Hs Ht] Hreplay. pose proof (registry_built_wf _ Hbuilt) as Hwf. split; [done|]. intros name.
  assert (find_tool (desired_tools registry (messages ++ [System id u])) name
          = find_tool (desired_tools registry messages) name) as Heq; [|unfold wanted, configuration_new; cbn [ec_tools]; rewrite Heq; apply Ht].
  rewrite !find_desired by done. unfold declared_as. destruct (registry_get registry name) as [tool|] eqn:Hget; [|done].
  destruct (at_exposure tool) eqn:He; [done| |done].
  assert (name ∈ loaded_names (messages ++ [System id u]) <-> name ∈ loaded_names messages) as Hiff;
    [|by rewrite (bool_decide_ext _ _ Hiff)].
  unfold loaded_names at 1. rewrite Hreplay, after_last_system_snoc. cbn [mbind list_bind]. rewrite app_nil_r.
  specialize (Ht name). cbn [wanted configuration_new ec_tools] in Ht. rewrite find_desired in Ht by done.
  unfold declared_as in Ht. rewrite Hget, He in Ht.
  pose proof (lookup_by_None td_name name (ec_tools c)) as Hnone. unfold lookup_by in Hnone. unfold find_tool in Ht.
  destruct (List.find _ (ec_tools c)); case_bool_decide; try discriminate Ht;
    destruct (decide (name ∈ map td_name (ec_tools c))); naive_solver.
Qed.

Lemma declared_wanted messages t c :
  unique c -> alike (wanted messages) c -> t ∈ ec_tools c -> validate_declared_tool registry t = Ok tt.
Proof.
  intros [_ Hc] [_ Ht] Hin. specialize (Ht (td_name t)). rewrite (find_tool_elem _ t Hc Hin) in Ht.
  apply same_declaration_spec in Ht as (x & [Hx Hn]%find_tool_Some & Heq).
  apply wanted_tool in Hx as (tool & Hget & Hexp & ->). unfold validate_declared_tool.
  rewrite Hn in Hget. rewrite Hget, bool_decide_false by done. cbn [orb]. by rewrite Heq.
Qed.

Lemma validate_declarations_ok tools :
  (forall t, t ∈ tools -> validate_declared_tool registry t = Ok tt) -> validate_declarations registry tools = Ok tt.
Proof.
  induction tools as [|t tools IH]; intros H; cbn; [done|]. rewrite H by by left. cbn. apply IH. intros x Hx. apply H. by right.
Qed.

(** What holds of a transcript whose configuration is the wanted one. *)
Definition in_force (messages : list AgentMessage) (c : EffectiveConfiguration) : Prop :=
  default configuration_empty (configuration_replay messages) = c /\ unique c /\ alike (wanted messages) c.

Lemma in_force_validates messages c notes :
  in_force messages c -> validate_declared_tools (mk_transcript messages notes) registry = Ok tt.
Proof.
  intros (Hc & Hu & Ha). unfold validate_declared_tools, transcript_tools, current_configuration. cbn [t_messages].
  rewrite Hc. apply validate_declarations_ok. intros t Hin. by eapply declared_wanted.
Qed.

Lemma in_force_needs_nothing messages c :
  in_force messages c -> is_Some (configuration_replay messages) -> needed_update prompt registry messages = None.
Proof.
  intros (Hc & Hu & Ha) [d Hd]. rewrite Hd in Hc. cbn in Hc. subst d. unfold needed_update, desired_configuration.
  rewrite Hd. unfold configuration_diff. fold (wanted messages).
  by rewrite (alike_same_content c (wanted messages) Hu (wanted_unique messages) Ha).
Qed.

Lemma update_empty_applied c u : update_is_empty u = true -> apply_update c u = c.
Proof.
  unfold update_is_empty. destruct u as [[|] [|] [|]]; try done. intros _. by destruct c.
Qed.

Lemma initial_update_empty c : update_is_empty (as_initial_update c) = true -> c = configuration_empty.
Proof. destruct c as [[|] [|]]; done. Qed.

(** The cases of the update: nothing to do, or an update that puts the wanted configuration in force. *)
Lemma needed_update_cases messages :
  (forall id u, System id u ∈ messages -> update_validate u = Ok tt) ->
  match needed_update prompt registry messages with
  | Some u =>
      update_validate u = Ok tt /\
      forall id, exists c, in_force (messages ++ [System id u]) c /\ configuration_replay (messages ++ [System id u]) = Some c
  | None => exists c, in_force messages c
  end.
Proof.
  intros Hvalid. unfold needed_update, desired_configuration. fold (wanted messages).
  pose proof (wanted_unique messages) as Hwu. pose proof (wanted_finite messages) as Hwf.
  destruct (configuration_replay messages) as [c|] eqn:Hc.
  - pose proof (replay_is_unique _ _ Hc) as Hcu.
    destruct (configuration_diff c (wanted messages)) as [u|] eqn:Hd; [destruct (update_is_empty u) eqn:He|].
    + pose proof (diff_applied c _ u Hcu Hwu Hwf Hd) as Hsame. rewrite update_empty_applied in Hsame by done.
      unfold configuration_diff in Hd. by rewrite Hsame in Hd.
    + split; [apply (diff_valid c (wanted messages) u); [done..|by eapply replay_admissible|by apply wanted_admissible|done]|].
      intros id. assert (configuration_replay (messages ++ [System id u]) = Some (apply_update c u)) as Hr
        by by rewrite (replay_app _ _ c Hc).
      exists (apply_update c u). split; [|done]. split; [by rewrite Hr|]. split; [by apply apply_update_unique|].
      apply in_force_stable; [by apply apply_update_unique| |done].
      apply same_content_alike; [by apply apply_update_unique|done|]. by apply diff_applied.
    + exists c. split; [by rewrite Hc|]. split; [done|]. apply same_content_alike; [done..|].
      unfold configuration_diff in Hd. by destruct (same_content c (wanted messages)).
  - destruct (update_is_empty (as_initial_update (wanted messages))) eqn:He.
    + exists configuration_empty. split; [by rewrite Hc|]. apply initial_update_empty in He as Hw. rewrite Hw in *.
      split; [done|]. by apply alike_refl.
    + split; [by apply initial_update_valid, wanted_admissible|]. intros id.
      assert (configuration_replay (messages ++ [System id (as_initial_update (wanted messages))]) = Some (wanted messages)) as Hr.
      { unfold configuration_replay in *. rewrite foldl_app, Hc. cbn [foldl replay_step default].
        by rewrite initial_update_applied. }
      exists (wanted messages). split; [|done]. split; [by rewrite Hr|]. split; [done|].
      apply in_force_stable; [done|by apply alike_refl|done].
Qed.

(** After synchronisation the transcript's configuration is the desired one: the update it
    appends is valid, the current configuration then has the wanted prompt and tools, every
    declared tool is authorised, and a second synchronisation appends nothing. *)
Theorem configuration_synchronised messages id notes :
  (forall i u, System i u ∈ messages -> update_validate u = Ok tt) ->
  let messages' := match needed_update prompt registry messages with
                   | Some u => messages ++ [System id u]
                   | None => messages
                   end in
  (forall u, needed_update prompt registry messages = Some u -> update_validate u = Ok tt) /\
  same_content (current_configuration (mk_transcript messages' notes)) (wanted messages') = true /\
  validate_declared_tools (mk_transcript messages' notes) registry = Ok tt /\
  needed_update prompt registry messages' = None.
Proof.
  intros Hvalid. pose proof (needed_update_cases messages Hvalid) as Hcases. cbn zeta. unfold current_configuration.
  cbn [t_messages]. destruct (needed_update prompt registry messages) as [u|] eqn:Hu.
  - destruct Hcases as [Hok Hforce]. destruct (Hforce id) as (c & Hin & Hr). pose proof Hin as (Hc & Hcu & Ha).
    split_and!; [by intros ? [= <-]| | |].
    + rewrite Hc. apply alike_same_content; [done|apply wanted_unique|done].
    + by eapply in_force_validates.
    + eapply in_force_needs_nothing; [done|by rewrite Hr].
  - destruct Hcases as [c Hin]. pose proof Hin as (Hc & Hcu & Ha). split_and!; [done| | |done].
    + rewrite Hc. apply alike_same_content; [done|apply wanted_unique|done].
    + by eapply in_force_validates.
Qed.
End synchronise.

(** A registry with one direct and two deferred tools; the last turn loaded one of them. *)
Definition exposed_tool (name : string) (exposure : ToolExposure) : AgentTool :=
  mk_agent_tool name "" (schema_of name) Parallel false DropFuture exposure NoComposition true.
Definition small_registry : ToolRegistry :=
  registry_insert (registry_insert (registry_insert registry_default (exposed_tool "read" Direct))
    (exposed_tool "grep" Deferred)) (exposed_tool "fetch" Deferred).
Definition plain_prompt : SystemPrompt := mk_system_prompt [mk_section "role" "You write code."].
Definition found_grep : list AgentMessage :=
  [System 1 (as_initial_update (wanted plain_prompt small_registry [])); User 2 "look";
   ToolResult (mk_result 3 "c1" "search" "grep" None None ["grep"] false false None)].

Lemma small_registry_sound : registry_sound small_registry.
Proof.
  intros name tool. unfold registry_get, small_registry, registry_insert, registry_default. cbn [rg_tools].
  rewrite !lookup_insert_Some, lookup_empty. intros [[<- <-]|[_ [[<- <-]|[_ [[<- <-]|[_ H]]]]]]; done.
Qed.

Lemma configuration_synchronised_witness :
  exists u, needed_update plain_prompt small_registry found_grep = Some u /\
            map td_name (cu_tools_added u) = ["grep"] /\
            needed_update plain_prompt small_registry (found_grep ++ [System 4 u]) = None.
Proof.
  destruct (needed_update plain_prompt small_registry found_grep) as [u|] eqn:Hu;
    [|vm_compute in Hu; discriminate Hu].
  exists u. split; [reflexivity|]. split; [vm_compute in Hu; injection Hu as <-; reflexivity|].
  assert (registry_built small_registry) as Hb by repeat constructor.
  assert (system_prompt_new [mk_section "role" "You write code."] = Ok plain_prompt) as Hp by (vm_compute; reflexivity).
  destruct (configuration_synchronised _ plain_prompt Hp small_registry Hb small_registry_sound found_grep 4 [])
    as (_ & _ & _ & H).
  - intros i v Hin. apply elem_of_cons in Hin as [Hin|Hin].
    + injection Hin as -> ->. vm_compute. reflexivity.
    + repeat (apply elem_of_cons in Hin as [Hin|Hin]; [discriminate Hin|]). by apply elem_of_nil in Hin.
  - rewrite Hu in H. exact H.
Defined.

(** ** Behind the context hook *)

Lemma all_equal_same l k : length l = length k -> all_equal l k = true -> Forall2 same_message l k.
Proof.
  revert k. induction l as [|x l IH]; intros [|y k]; cbn; try done.
  intros [= Hlen] [Hxy Hrest]%andb_true_iff. constructor; [done|by apply IH].
Qed.

Lemma replayed l : default configuration_empty (configuration_replay l) = foldl apply_update configuration_empty (updates l).
Proof. by rewrite replay_default, apply_messages_updates. Qed.

Lemma empty_alike : alike configuration_empty configuration_empty.
Proof. by apply alike_refl; constructor. Qed.

Lemma empty_unique : unique configuration_empty.
Proof. split; constructor. Qed.

Lemma restored_alike t canonical :
  Forall message_finite canonical ->
  alike (current_configuration (restore_canonical_configuration t canonical))
        (default configuration_empty (configuration_replay canonical)).
Proof.
  intros Hfin. unfold restore_canonical_configuration, current_configuration.
  destruct ((_ =? _)%nat && all_equal _ _) eqn:Heq.
  - apply andb_true_iff in Heq as [Hlen%Nat.eqb_eq Heq]. apply all_equal_same in Heq; [|done].
    rewrite !replayed, <-(updates_filter (t_messages t)).
    apply apply_updates_alike; [by apply same_message_updates|apply empty_unique..|apply empty_alike].
  - destruct (configuration_replay canonical) as [c|] eqn:Hc; cbn [t_messages default].
    + unfold configuration_replay. cbn [foldl replay_step default].
      rewrite replay_fold_Some, apply_messages_updates, updates_without_systems. cbn [foldl].
      rewrite initial_update_applied by by eapply replay_is_unique. apply alike_refl. by eapply replay_finite.
    + rewrite replayed, updates_without_systems. apply empty_alike.
Qed.

Lemma restored_conversation t canonical :
  List.filter (fun m => negb (is_system m)) (t_messages (restore_canonical_configuration t canonical))
  = List.filter (fun m => negb (is_system m)) (t_messages t) /\
  t_host_notes (restore_canonical_configuration t canonical) = t_host_notes t.
Proof.
  unfold restore_canonical_configuration. destruct (_ && _); [done|].
  assert (forall l, List.filter (fun m => negb (is_system m)) (List.filter (fun m => negb (is_system m)) l)
                    = List.filter (fun m => negb (is_system m)) l) as Hidem.
  { intros l. apply filter_all. by intros m [_ Hm]%filter_elem. }
  destruct (configuration_replay canonical); cbn [t_messages t_host_notes List.filter is_system negb]; by rewrite Hidem.
Qed.

Lemma replay_systems l : configuration_replay (List.filter is_system l) = configuration_replay l.
Proof.
  unfold configuration_replay. generalize (None : option EffectiveConfiguration).
  induction l as [|[| | |] l IH]; intros o; cbn; auto.
Qed.

Lemma validated_declarations registry tools :
  validate_declarations registry tools = Ok tt ->
  forall t, t ∈ tools -> exists tool,
    registry_get registry (td_name t) = Some tool /\ at_exposure tool <> Composition /\ (declaration_of tool ==? t) = true.
Proof.
  induction tools as [|d tools IH]; cbn; [by intros _ t ?%elem_of_nil|].
  destruct (validate_declared_tool registry d) as [[]| |] eqn:Hd; [|done..]. cbn [obind].
  intros Hok t [->|Hin]%elem_of_cons; [|by apply IH].
  unfold validate_declared_tool in Hd. destruct (registry_get registry (td_name d)) as [tool|]; [|done].
  case_bool_decide; [done|]. cbn [orb] in Hd. exists tool. split_and!; [done..|].
  by destruct (declaration_of tool ==? d).
Qed.

(** C31: Whatever a context hook returns, the transcript that is sent carries the canonical
    configuration and declares only tools of the registry, as they are declared there and never
    composition-only ones; the other messages and the notes are the hook's. *)
Theorem hook_cannot_widen_request transformed messages registry t :
  Forall message_finite messages ->
  request_transcript transformed messages registry = Ok t ->
  same_content (default configuration_empty (configuration_replay messages)) (current_configuration t) = true /\
  (forall declared, declared ∈ transcript_tools t -> exists tool,
     registry_get registry (td_name declared) = Some tool /\ at_exposure tool <> Composition /\
     (declaration_of tool ==? declared) = true) /\
  List.filter (fun m => negb (is_system m)) (t_messages t)
    = List.filter (fun m => negb (is_system m)) (ce_messages transformed) /\
  t_host_notes t = ce_host_messages transformed.
Proof.
  intros Hfin. unfold request_transcript.
  set (r := restore_canonical_configuration _ _). destruct (validate_declared_tools r registry) as [[]| |] eqn:Hv; [|done..].
  intros [= <-]. split; [|split; [by apply validated_declarations|apply restored_conversation]].
  rewrite <-replay_systems. apply alike_same_content.
  - destruct (configuration_replay _) eqn:Hr; [by eapply replay_is_unique|apply empty_unique].
  - unfold current_configuration. destruct (configuration_replay _) eqn:Hr; [by eapply replay_is_unique|apply empty_unique].
  - apply restored_alike. apply Forall_forall. intros m [Hm _]%filter_elem. by apply (proj1 (Forall_forall _ _) Hfin).
Qed.

(** A hook that drops the configuration and adds its own. *)
Definition intruding : ContextEnvelope :=
  mk_envelope 1 [System 9 (mk_update [] [mk_tool "shell" "" (schema_of "shell")] []); User 2 "look"] [].

Lemma hook_cannot_widen_request_witness :
  exists t, request_transcript intruding found_grep small_registry = Ok t /\
            map td_name (transcript_tools t) = ["read"] /\
            same_content (default configuration_empty (configuration_replay found_grep)) (current_configuration t) = true.
Proof.
  destruct (request_transcript intruding found_grep small_registry) as [t|e|r] eqn:Ht;
    [|vm_compute in Ht; discriminate Ht..].
  exists t. split; [reflexivity|]. split; [vm_compute in Ht; injection Ht as <-; vm_compute; reflexivity|].
  destruct (hook_cannot_widen_request intruding found_grep small_registry t) as [H _]; [|exact Ht|exact H].
  repeat constructor.
Defined.
