(* ===== verification/AgentLifecycle.v ===== *)
(** * tea-core: agent ownership and run lifecycle
    ([crates/tea-core/src/agent/mod.rs], [run/mod.rs], [state/lifecycle.rs])

    An agent lets one run at a time own it.  The operations of the agent and of
    run handles are called from several threads; each is a sequence of sections
    under one lock, and sections of different calls interleave.  A pending call
    is the section it executes next. *)

From stdpp Require Import base gmap sets list strings relations.
From S2P Require Import Prelude RustStr Json Ids SessionErrors Configuration Messages Transcript TranscriptJson.
From S2P Require Import CoreState SchemaValidation Tools Compaction RequestContext.

Local Open Scope N_scope.

#[export] Instance run_phase_eq_dec : EqDecision RunPhase.
Proof. solve_decision. Defined.
#[export] Instance agent_phase_eq_dec : EqDecision AgentPhase.
Proof. solve_decision. Defined.

#[export] Instance agent_state_eta : Eta CoreAgentState := fun s =>
  mk_agent_state (as_system_prompt s) (as_model s) (as_thinking_level s) (as_messages s) (as_host_messages s)
    (as_phase s) (as_partial_response s) (as_is_streaming s) (as_pending_tool_calls s) (as_last_error s)
    (as_accounting s) (as_history_revision s) (as_next_message_id s).

(** ** The state of a run *)

Record AgentEvent (K : Type) := mk_event { ev_run_id : N; ev_sequence : N; ev_kind : K }.
Arguments mk_event {K}.
Arguments ev_run_id {K}.
Arguments ev_sequence {K}.
Arguments ev_kind {K}.

Record RunState (K : Type) := mk_run_state {
  rs_id : N;
  rs_phase : RunPhase;
  rs_turn_id : option N;
  rs_stop_reason : option StopReason;
  rs_error : option string;
  rs_event_count : N;
  rs_events : list (AgentEvent K);
  rs_omitted_event_count : N;
}.
Arguments mk_run_state {K}.
Arguments rs_id {K}.
Arguments rs_phase {K}.
Arguments rs_turn_id {K}.
Arguments rs_stop_reason {K}.
Arguments rs_error {K}.
Arguments rs_event_count {K}.
Arguments rs_events {K}.
Arguments rs_omitted_event_count {K}.
#[export] Instance run_state_eta K : Eta (RunState K) := fun s =>
  mk_run_state (rs_id s) (rs_phase s) (rs_turn_id s) (rs_stop_reason s) (rs_error s) (rs_event_count s)
    (rs_events s) (rs_omitted_event_count s).

(** [RunState::created]. *)
Definition run_created {K} (id : N) : RunState K := mk_run_state id RunCreated None None None 0 [] 0.

(** [phase_name]. *)
Definition phase_name (p : RunPhase) : string :=
  match p with
  | RunCreated => "created"
  | RunRunning => "running"
  | RunSettling => "settling"
  | RunSucceeded => "succeeded"
  | RunFailed => "failed"
  | RunCancelled => "cancelled"
  end.

(** The sections under the run lock: [start_turn], [advance_turn],
    [begin_settlement], [finish], [abort] and [record_event]. *)
Definition run_start_turn {K} (s : RunState K) (turn_id : N) : Outcome CoreError (RunState K) :=
  if bool_decide (rs_phase s = RunCreated)
  then Ok (s <| rs_phase := RunRunning |> <| rs_turn_id := Some turn_id |>)
  else Err (transition_error "run" (phase_name (rs_phase s)) "start_turn").
Definition run_advance_turn {K} (s : RunState K) (turn_id : N) : Outcome CoreError (RunState K) :=
  if bool_decide (rs_phase s = RunRunning) then Ok (s <| rs_turn_id := Some turn_id |>)
  else Err (transition_error "run" (phase_name (rs_phase s)) "advance_turn").
Definition run_begin_settlement {K} (s : RunState K) : Outcome CoreError (RunState K) :=
  if is_terminal (rs_phase s) then Err (RunFinished (rs_id s)) else Ok (s <| rs_phase := RunSettling |>).
Definition run_finish {K} (s : RunState K) (phase : RunPhase) (reason : StopReason) (error : option string) :
    Outcome CoreError (RunState K) :=
  if is_terminal (rs_phase s) then Err (RunFinished (rs_id s))
  else Ok (s <| rs_phase := phase |> <| rs_stop_reason := Some reason |> <| rs_error := error |>).

(** An undriven run is settled at once. *)
Definition run_cancel_created {K} (s : RunState K) : bool * RunState K :=
  if bool_decide (rs_phase s = RunCreated)
  then (true, s <| rs_phase := RunCancelled |> <| rs_stop_reason := Some Cancelled |>)
  else (false, s).

Definition RUN_EVENT_DIAGNOSTIC_LIMIT : nat := 256.
Definition run_record_event {K} (s : RunState K) (kind : K) : RunState K * AgentEvent K :=
  let s := s <| rs_event_count := u64_saturating_add (rs_event_count s) 1 |> in
  let event := mk_event (rs_id s) (rs_event_count s) kind in
  let s := if (length (rs_events s) =? RUN_EVENT_DIAGNOSTIC_LIMIT)%nat
           then s <| rs_events ::= tail |> <| rs_omitted_event_count := u64_saturating_add (rs_omitted_event_count s) 1 |>
           else s in
  (s <| rs_events ::= fun l => l ++ [event] |>, event).

(** ** The state of the agent *)

(** Clearing the transient fields. *)
Definition clear_transient (s : CoreAgentState) : CoreAgentState :=
  s <| as_partial_response := None |> <| as_is_streaming := false |> <| as_pending_tool_calls := ∅ |>.

(** [RunHandle::settle_agent]: the part under the agent lock. *)
Definition settle_agent_state (s : CoreAgentState) (phase : AgentPhase) (error : option string) : CoreAgentState :=
  clear_transient s <| as_last_error := error |> <| as_phase := phase |>.

(** The owner of a busy agent. *)
Definition active_owner (s : CoreAgentState) : option N :=
  match as_phase s with Idle => None | PhaseRunning run | PhaseCancelling run => Some run end.

(** The section of [start_run] under the agent lock: the new state, the prompt
    messages and the index of the first message of the invocation. *)
Definition append_prompt (acc : CoreAgentState * list AgentMessage) (content : string) :
    CoreAgentState * list AgentMessage :=
  let '(id, s) := allocate_message_id acc.1 in (s, acc.2 ++ [User id content]).
Definition claim_run (s : CoreAgentState) (run : N) (contents : list string) :
    Outcome CoreError (CoreAgentState * list AgentMessage * nat) :=
  match active_owner s with
  | Some active => Err (ActiveRunError active)
  | None =>
      let message_start_index := length (as_messages s) in
      let '(s, initial) := foldl append_prompt (s, []) contents in
      let s := foldl append_message s initial in
      Ok (clear_transient s <| as_phase := PhaseRunning run |> <| as_last_error := None |>, initial, message_start_index)
  end.

(** [Agent::reset], [restore_messages], [replace_thinking_level]: the sections under the agent lock. *)
Definition agent_reset (s : CoreAgentState) : Outcome CoreError CoreAgentState :=
  match active_owner s with
  | Some run => Err (ActiveRunError run)
  | None => Ok (clear_transient s <| as_messages := [] |> <| as_host_messages := [] |> <| as_last_error := None |>
                  <| as_accounting := accounting_default |>)
  end.
Definition agent_validate_messages (messages : list AgentMessage) : Outcome CoreError unit :=
  match validate_messages messages with
  | Ok _ => Ok ()
  | Err e => Err (CompactionFailure e)
  | Panic reason => Panic reason
  end.
Definition agent_restore_messages (s : CoreAgentState) (messages : list AgentMessage) : Outcome CoreError CoreAgentState :=
  match active_owner s with
  | Some run => Err (ActiveRunError run)
  | None =>
      check? agent_validate_messages messages in
      Ok (clear_transient (replace_messages s messages) <| as_last_error := None |> <| as_accounting := accounting_default |>)
  end.
Definition agent_replace_thinking_level (s : CoreAgentState) (level : ThinkingLevel) : Outcome CoreError CoreAgentState :=
  match active_owner s with
  | Some run => Err (ActiveRunError run)
  | None => Ok (s <| as_thinking_level := level |>)
  end.

(** The section of [Agent::abort] under the agent lock. *)
Definition agent_abort_state (s : CoreAgentState) (run : N) (settle_immediately : bool) : CoreAgentState :=
  let s := clear_transient s in
  if settle_immediately then s <| as_phase := Idle |>
  else if bool_decide (as_phase s = Idle) then s else s <| as_phase := PhaseCancelling run |>.

(** ** Interleaved calls *)

(** What the threads share.  A run's state and cancellation token are reached
    through its handle and through the active-run slot. *)
Record Shared := mk_shared {
  sh_agent : CoreAgentState;
  sh_active : option N;
  sh_runs : gmap N (RunState Empty_set);
  sh_cancelled : gset N;
  sh_queues : AgentQueues;
  sh_next_run_id : N;
}.
#[export] Instance shared_eta : Eta Shared := fun s =>
  mk_shared (sh_agent s) (sh_active s) (sh_runs s) (sh_cancelled s) (sh_queues s) (sh_next_run_id s).
Definition shared_default : Shared :=
  mk_shared agent_state_default None ∅ ∅ (mk_queues queue_default queue_default) 0.

Inductive Pending :=
| CallStartRun (contents : list string)
| StartClaim (run : N) (contents : list string)
| StartPublish (run : N)
| CallStartTurn (run turn : N)
| CallAdvanceTurn (run turn : N)
| CallBeginSettlement (run : N)
| CallFinish (run : N) (phase : RunPhase) (reason : StopReason) (error : option string)
| SettleAgent (run : N) (error : option string)
| CallHandleAbort (run : N)
| HandleAbortRun (run : N)
| HandleAbortAgent (run : N)
| CallAgentAbort
| AgentAbortCancel (run : N)
| AgentAbortRun (run : N)
| AgentAbortAgent (run : N) (settle_immediately : bool)
| AgentAbortQueues (run : N) (settle_immediately : bool)
| AgentAbortSlot (run : N)
| CallReset
| CallRestore (messages : list AgentMessage)
| CallThinkingLevel (level : ThinkingLevel)
| ClearQueues.

Inductive Next := Continue (p : Pending) | Return (result : Outcome CoreError unit).

(** A section under the lock of one run. *)
Definition with_run (s : Shared) (run : N) (section : RunState Empty_set -> Outcome CoreError (RunState Empty_set))
    (next : Next) : Shared * Next :=
  match sh_runs s !! run with
  | None => (s, Return (Ok ()))
  | Some state =>
      match section state with
      | Ok state => (s <| sh_runs ::= fun runs => <[run := state]> runs |>, next)
      | Err e => (s, Return (Err e))
      | Panic reason => (s, Return (Panic reason))
      end
  end.
(** A section under the agent lock. *)
Definition with_agent (s : Shared) (section : CoreAgentState -> Outcome CoreError CoreAgentState) (next : Next) :
    Shared * Next :=
  match section (sh_agent s) with
  | Ok agent => (s <| sh_agent := agent |>, next)
  | Err e => (s, Return (Err e))
  | Panic reason => (s, Return (Panic reason))
  end.

Definition exec (s : Shared) (p : Pending) : Shared * Next :=
  match p with
  | CallStartRun contents =>
      let run := u64_saturating_add (sh_next_run_id s) 1 in
      (s <| sh_next_run_id := (sh_next_run_id s + 1) mod 2 ^ 64 |>, Continue (StartClaim run contents))
  | StartClaim run contents =>
      with_agent s (fun agent => let? claimed := claim_run agent run contents in Ok claimed.1.1) (Continue (StartPublish run))
  | StartPublish run =>
      (s <| sh_runs ::= fun runs => <[run := run_created run]> runs |> <| sh_active := Some run |>, Return (Ok ()))
  | CallStartTurn run turn => with_run s run (fun state => run_start_turn state turn) (Return (Ok ()))
  | CallAdvanceTurn run turn => with_run s run (fun state => run_advance_turn state turn) (Return (Ok ()))
  | CallBeginSettlement run => with_run s run run_begin_settlement (Return (Ok ()))
  | CallFinish run phase reason error =>
      with_run s run (fun state => run_finish state phase reason error) (Continue (SettleAgent run error))
  | SettleAgent run error =>
      (s <| sh_agent ::= fun agent => settle_agent_state agent Idle error |> <| sh_active := None |>, Return (Ok ()))
  | CallHandleAbort run => (s <| sh_cancelled ::= fun c => {[run]} ∪ c |>, Continue (HandleAbortRun run))
  | HandleAbortRun run =>
      match sh_runs s !! run with
      | None => (s, Return (Ok ()))
      | Some state =>
          if is_terminal (rs_phase state) then (s, Return (Ok ()))
          else let '(settle_immediately, state) := run_cancel_created state in
               (s <| sh_runs ::= fun runs => <[run := state]> runs |>,
                Continue (if settle_immediately then SettleAgent run None else HandleAbortAgent run))
      end
  | HandleAbortAgent run => (s <| sh_agent ::= fun agent => agent <| as_phase := PhaseCancelling run |> |>, Return (Ok ()))
  | CallAgentAbort =>
      match sh_active s with
      | Some run => (s, Continue (AgentAbortCancel run))
      | None => (s, Return (Ok ()))
      end
  | AgentAbortCancel run => (s <| sh_cancelled ::= fun c => {[run]} ∪ c |>, Continue (AgentAbortRun run))
  | AgentAbortRun run =>
      match sh_runs s !! run with
      | None => (s, Return (Ok ()))
      | Some state =>
          let '(settle_immediately, state) := run_cancel_created state in
          (s <| sh_runs ::= fun runs => <[run := state]> runs |>, Continue (AgentAbortAgent run settle_immediately))
      end
  | AgentAbortAgent run settle_immediately =>
      (s <| sh_agent ::= fun agent => agent_abort_state agent run settle_immediately |>,
       Continue (AgentAbortQueues run settle_immediately))
  | AgentAbortQueues run settle_immediately =>
      (s <| sh_queues ::= queues_clear |>, if settle_immediately then Continue (AgentAbortSlot run) else Return (Ok ()))
  | AgentAbortSlot run =>
      (s <| sh_active ::= fun active => if bool_decide (active = Some run) then None else active |>, Return (Ok ()))
  | CallReset => with_agent s agent_reset (Continue ClearQueues)
  | CallRestore messages => with_agent s (fun agent => agent_restore_messages agent messages) (Continue ClearQueues)
  | CallThinkingLevel level => with_agent s (fun agent => agent_replace_thinking_level agent level) (Return (Ok ()))
  | ClearQueues => (s <| sh_queues ::= queues_clear |>, Return (Ok ()))
  end.

(** Calls that a thread may make: those on a handle need the handle, and the
    outcome of [finish] is a terminal phase. *)
Definition callable (s : Shared) (p : Pending) : bool :=
  match p with
  | CallStartTurn run _ | CallAdvanceTurn run _ | CallBeginSettlement run | CallHandleAbort run => has run (sh_runs s)
  | CallFinish run phase _ _ => has run (sh_runs s) && is_terminal phase
  | CallStartRun _ | CallAgentAbort | CallReset | CallRestore _ | CallThinkingLevel _ => true
  | _ => false
  end.

(** A process starts fewer than 2^64 runs. *)
Definition room (s : Shared) (p : Pending) : bool :=
  match p with CallStartRun _ => sh_next_run_id s <? u64_max | _ => true end.

Inductive step : Shared * list Pending -> Shared * list Pending -> Prop :=
| step_call s ps p : callable s p = true -> step (s, ps) (s, ps ++ [p])
| step_section s before p after s' p' :
    room s p = true -> exec s p = (s', Continue p') -> step (s, before ++ p :: after) (s', before ++ p' :: after)
| step_return s before p after s' result :
    room s p = true -> exec s p = (s', Return result) -> step (s, before ++ p :: after) (s', before ++ after).

Definition lifecycle_reachable (c : Shared * list Pending) : Prop := rtc step (shared_default, []) c.
