(* ===== verification/AgentLifecycleProofs.v ===== *)
(** * tea-core: one run owns an agent, and what interleaved aborts do

    Whatever the interleaving, at most one run is unfinished.  The converse is
    not kept: an abort through a run handle that overlaps the settlement of
    the run marks an agent as cancelling that no run will settle again. *)

From stdpp Require Import base gmap sets list strings relations.
From S2P Require Import Prelude RustStr Json Ids SessionErrors Configuration Messages Transcript TranscriptJson.
From S2P Require Import CoreState SchemaValidation Tools Compaction RequestContext AgentLifecycle.

Local Open Scope N_scope.

(** ** Ownership *)

Definition unfinished (s : Shared) (run : N) : Prop :=
  exists state, sh_runs s !! run = Some state /\ is_terminal (rs_phase state) = false.
Definition all_finished (s : Shared) : Prop :=
  forall run state, sh_runs s !! run = Some state -> is_terminal (rs_phase state) = true.

(** A section that carries the ownership of a run: it is claimed and not yet
    published, or finished and not yet settled. *)
Definition carries (p : Pending) : option N :=
  match p with
  | StartPublish run | SettleAgent run _ | AgentAbortAgent run true => Some run
  | _ => None
  end.
Definition carried (ps : list Pending) : list N := omap carries ps.

(** The identity a pending start will publish. *)
Definition starts (p : Pending) : option N :=
  match p with StartClaim run _ | StartPublish run => Some run | _ => None end.
Definition starting (ps : list Pending) : list N := omap starts ps.

Inductive ownership (s : Shared) (ps : list Pending) : Prop :=
| nobody : carried ps = [] -> all_finished s -> ownership s ps
| one_run run : as_phase (sh_agent s) <> Idle -> carried ps = [] -> unfinished s run ->
    (forall other, unfinished s other -> other = run) -> ownership s ps
| in_transit run : as_phase (sh_agent s) <> Idle -> carried ps = [run] -> all_finished s -> ownership s ps.

Definition finishes_terminal (p : Pending) : Prop :=
  match p with CallFinish _ phase _ _ => is_terminal phase = true | _ => True end.

Record fresh_ids (s : Shared) (ps : list Pending) : Prop := {
  fresh_next : sh_next_run_id s <= u64_max;
  fresh_runs : forall run, is_Some (sh_runs s !! run) -> run <= sh_next_run_id s;
  fresh_starting : forall run, run ∈ starting ps -> run <= sh_next_run_id s /\ sh_runs s !! run = None;
  fresh_unique : NoDup (starting ps);
  fresh_finish : Forall finishes_terminal ps;
}.

Definition owned (c : Shared * list Pending) : Prop := ownership c.1 c.2 /\ fresh_ids c.1 c.2.

Lemma carried_mid before p after : carried (before ++ p :: after) = carried before ++ carried [p] ++ carried after.
Proof. unfold carried. rewrite omap_app. cbn. by destruct (carries p). Qed.
Lemma carried_app l k : carried (l ++ k) = carried l ++ carried k.
Proof. apply omap_app. Qed.
Lemma starting_mid before p after : starting (before ++ p :: after) = starting before ++ starting [p] ++ starting after.
Proof. unfold starting. rewrite omap_app. cbn. by destruct (starts p). Qed.

(** ** How a section changes ownership *)

(** Sections that leave the phases of all runs and of the agent as far as
    ownership reads them. *)
Lemma ownership_frame s s' ps ps' :
  sh_runs s' = sh_runs s -> carried ps' = carried ps ->
  (as_phase (sh_agent s) <> Idle -> as_phase (sh_agent s') <> Idle) ->
  ownership s ps -> ownership s' ps'.
Proof.
  intros Hruns Hc Hphase [Hn Ha|run Hp Hn Hu Ho|run Hp Hn Ha].
  - apply nobody; [by rewrite Hc|]. unfold all_finished. by rewrite Hruns.
  - apply (one_run _ _ run); [by apply Hphase|by rewrite Hc| |]; unfold unfinished; by rewrite Hruns.
  - apply (in_transit _ _ run); [by apply Hphase|by rewrite Hc|]. unfold all_finished. by rewrite Hruns.
Qed.

(** The phase of a run changes to one that is as finished as before. *)
Lemma ownership_run_kept s ps ps' run state state' :
  sh_runs s !! run = Some state -> is_terminal (rs_phase state') = is_terminal (rs_phase state) ->
  carried ps' = carried ps -> ownership s ps ->
  ownership (s <| sh_runs ::= fun runs => <[run := state']> runs |>) ps'.
Proof.
  intros Hrun Hterm Hc.
  assert (forall other, unfinished (s <| sh_runs ::= fun runs => <[run := state']> runs |>) other <-> unfinished s other) as Hiff.
  { intros other. unfold unfinished. cbn. destruct (decide (other = run)) as [->|Hne].
    - rewrite lookup_insert_eq, Hrun. split; intros (st & [= <-] & H); eexists; split; eauto; congruence.
    - by rewrite lookup_insert_ne by done. }
  assert (all_finished s -> all_finished (s <| sh_runs ::= fun runs => <[run := state']> runs |>)) as Hall.
  { intros H other st. cbn. intros [[<- <-]|[_ Hst]]%lookup_insert_Some; [|by eapply H]. rewrite Hterm. by eapply H. }
  intros [Hn Ha|r Hp Hn Hu Ho|r Hp Hn Ha].
  - apply nobody; [by rewrite Hc|auto].
  - apply (one_run _ _ r); [done|by rewrite Hc|by apply Hiff|]. intros other H%Hiff. auto.
  - apply (in_transit _ _ r); [done|by rewrite Hc|auto].
Qed.

(** An unfinished run becomes terminal and its settlement is pending. *)
Lemma ownership_finished s ps ps' run state state' :
  sh_runs s !! run = Some state -> is_terminal (rs_phase state) = false -> is_terminal (rs_phase state') = true ->
  (carried ps = [] -> carried ps' = [run]) -> ownership s ps ->
  ownership (s <| sh_runs ::= fun runs => <[run := state']> runs |>) ps'.
Proof.
  intros Hrun Hlive Hterm Hc. intros [Hn Ha|r Hp Hn Hu Ho|r Hp Hn Ha].
  - specialize (Ha run state Hrun). congruence.
  - assert (run = r) as -> by (apply Ho; by exists state).
    apply (in_transit _ _ r); [done|auto|]. intros other st. cbn. intros [[<- <-]|[Hne Hst]]%lookup_insert_Some; [done|].
    destruct (is_terminal (rs_phase st)) eqn:He; [done|]. destruct Hne. symmetry. apply Ho. by exists st.
  - specialize (Ha run state Hrun). congruence.
Qed.

Lemma run_cancel_created_terminal {K} (s : RunState K) :
  (run_cancel_created s).1 = false -> (run_cancel_created s).2 = s.
Proof. unfold run_cancel_created. by case_bool_decide. Qed.

(** ** Each step keeps ownership *)

(** The successor of a section, as a list of pending sections. *)
Definition next_pending (n : Next) : list Pending := match n with Continue p => [p] | Return _ => [] end.

Lemma claim_run_ok s run contents s' initial start :
  claim_run s run contents = Ok (s', initial, start) -> as_phase s = Idle /\ as_phase s' = PhaseRunning run.
Proof.
  unfold claim_run, active_owner. destruct (as_phase s); [|done..].
  destruct (foldl append_prompt (s, []) contents) as [s1 l]. by intros [= <- <- <-].
Qed.

Lemma all_finished_runs s s' : sh_runs s' = sh_runs s -> all_finished s -> all_finished s'.
Proof. unfold all_finished. by intros ->. Qed.

Lemma with_agent_phase s section next s' n :
  with_agent s section next = (s', n) ->
  sh_runs s' = sh_runs s /\ sh_next_run_id s' = sh_next_run_id s /\
  ((exists agent, section (sh_agent s) = Ok agent /\ sh_agent s' = agent /\ n = next) \/
   (sh_agent s' = sh_agent s /\ next_pending n = [])).
Proof.
  unfold with_agent. destruct (section (sh_agent s)) as [agent|e|r] eqn:Hs; intros [= <- <-]; (split; [done|split; [done|]]);
    [left; by exists agent|by right..].
Qed.

Lemma with_run_cases s run section next s' n :
  with_run s run section next = (s', n) ->
  (s' = s /\ next_pending n = []) \/
  (exists state state', sh_runs s !! run = Some state /\ section state = Ok state' /\
     s' = s <| sh_runs ::= fun runs => <[run := state']> runs |> /\ n = next).
Proof.
  unfold with_run. destruct (sh_runs s !! run) as [state|] eqn:Hr; [|intros [= <- <-]; by left].
  destruct (section state) as [state'|e|r] eqn:Hs; intros [= <- <-]; [right; by exists state, state'|by left..].
Qed.

Lemma agent_reset_phase a b : agent_reset a = Ok b -> as_phase b = as_phase a.
Proof. unfold agent_reset. destruct (active_owner a); [done|]. by intros [= <-]. Qed.
Lemma agent_restore_phase messages a b : agent_restore_messages a messages = Ok b -> as_phase b = as_phase a.
Proof.
  unfold agent_restore_messages. destruct (active_owner a); [done|].
  destruct (agent_validate_messages messages) as [[]| |]; [|done..]. by intros [= <-].
Qed.
Lemma agent_thinking_phase level a b : agent_replace_thinking_level a level = Ok b -> as_phase b = as_phase a.
Proof. unfold agent_replace_thinking_level. destruct (active_owner a); [done|]. by intros [= <-]. Qed.

(** A section under one run's lock that keeps terminal phases terminal. *)
Lemma with_run_keeps s run section next s' n before after p :
  with_run s run section next = (s', n) -> carries p = None -> carried (next_pending next) = [] ->
  (forall a b, section a = Ok b -> is_terminal (rs_phase b) = is_terminal (rs_phase a)) ->
  ownership s (before ++ p :: after) -> ownership s' (before ++ next_pending n ++ after).
Proof.
  intros Hw Hp Hn Hsec Ho. assert (carried [p] = []) as Hcp by (unfold carried; cbn; by rewrite Hp).
  apply with_run_cases in Hw as [[-> ->]|(state & state' & Hr & Hs & -> & ->)].
  - eapply ownership_frame; [done| |done|exact Ho]. by rewrite carried_mid, !carried_app, Hcp.
  - eapply ownership_run_kept; [exact Hr|by apply Hsec| |exact Ho]. by rewrite carried_mid, !carried_app, Hcp, Hn.
Qed.

Lemma carried_cons_nil p l : carries p = None -> carried (p :: l) = carried l.
Proof. unfold carried. cbn. by intros ->. Qed.

(** A pending section that carries a run is the only owner. *)
Lemma ownership_token s before p after run :
  carries p = Some run -> ownership s (before ++ p :: after) ->
  as_phase (sh_agent s) <> Idle /\ carried (before ++ after) = [] /\ all_finished s.
Proof.
  intros Hp Ho. assert (carried [p] = [run]) as Hcp by (unfold carried; cbn; by rewrite Hp).
  destruct Ho as [Hn _|r _ Hn _ _|r Hi Hn Ha]; rewrite carried_mid, Hcp in Hn.
  - by destruct (carried before).
  - by destruct (carried before).
  - split_and!; [done| |done]. rewrite carried_app. destruct (carried before) as [|x l]; cbn in Hn |- *.
    + by injection Hn as _ ->.
    + injection Hn as _ Hn. by destruct l.
Qed.

(** Executing a section keeps ownership. *)
Lemma exec_ownership s p s' n before after :
  exec s p = (s', n) -> fresh_ids s (before ++ p :: after) ->
  ownership s (before ++ p :: after) -> ownership s' (before ++ next_pending n ++ after).
Proof.
  intros He Hfresh Ho.
  assert (forall q, carries p = None -> carried q = [] -> sh_runs s' = sh_runs s ->
    (as_phase (sh_agent s) <> Idle -> as_phase (sh_agent s') <> Idle) ->
    next_pending n = q -> ownership s' (before ++ next_pending n ++ after)) as Hframe.
  { intros q Hp Hq Hruns Hphase ->. eapply ownership_frame; [exact Hruns| |exact Hphase|exact Ho].
    rewrite carried_mid, !carried_app, Hq. unfold carried at 4. cbn. by rewrite Hp. }
  destruct p as [contents|run contents|run|run turn|run turn|run|run phase reason error|run error|run|run|run| |run|run
    |run settle|run settle|run| |messages|level|]; cbn [exec] in He.
  - injection He as <- <-. by apply (Hframe [StartClaim (u64_saturating_add (sh_next_run_id s) 1) contents]).
  - apply with_agent_phase in He as (Hr & _ & [(agent & Hok & Ha & ->)|[Ha Hn]]).
    + destruct (claim_run (sh_agent s) run contents) as [[[a i] st]| |] eqn:Hclaim; [|done..]. cbn in Hok.
      injection Hok as ->. apply claim_run_ok in Hclaim as [Hidle Hrun].
      destruct Ho as [Hn Hall|r Hp|r Hp]; [|done..]. rewrite carried_mid in Hn.
      apply app_nil in Hn as [Hn1 [Hn2 Hn3]%app_nil].
      apply (in_transit _ _ run); [by rewrite Ha, Hrun| |by eapply all_finished_runs].
      cbn [next_pending]. by rewrite !carried_app, Hn1, Hn3.
    + apply (Hframe []); [done..|by rewrite Ha|done].
  - injection He as <- <-. cbn [next_pending app]. destruct (ownership_token s _ (StartPublish run) _ run eq_refl Ho) as (Hi & Hc & Ha).
    assert (sh_runs s !! run = None) as Hnone.
    { apply (fresh_starting _ _ Hfresh). rewrite starting_mid. apply elem_of_app. right. by left. }
    apply (one_run _ _ run); [done|done| |].
    + exists (run_created run). split; [apply lookup_insert_eq|done].
    + intros other (st & Hst & Hu). cbn in Hst. apply lookup_insert_Some in Hst as [[-> _]|[_ Hst]]; [done|].
      specialize (Ha _ _ Hst). congruence.
  - eapply with_run_keeps; [exact He| | | |exact Ho]; [done|done|]. intros a b. unfold run_start_turn. case_bool_decide as Hp; [|done].
    intros [= <-]. cbn. by rewrite Hp.
  - eapply with_run_keeps; [exact He| | | |exact Ho]; [done|done|]. intros a b. unfold run_advance_turn. case_bool_decide as Hp; [|done].
    intros [= <-]. cbn. by rewrite Hp.
  - eapply with_run_keeps; [exact He| | | |exact Ho]; [done|done|]. intros a b. unfold run_begin_settlement.
    destruct (is_terminal (rs_phase a)) eqn:Hp; [done|]. by intros [= <-].
  - apply with_run_cases in He as [[-> Hn]|(state & state' & Hr & Hs & -> & ->)]; [by apply (Hframe [])|].
    unfold run_finish in Hs. destruct (is_terminal (rs_phase state)) eqn:Hp; [done|]. injection Hs as <-.
    eapply ownership_finished; [exact Hr|done| | |exact Ho]; cbn.
    + pose proof (fresh_finish _ _ Hfresh) as Hf. apply Forall_app in Hf as [_ Hf]. by apply Forall_cons in Hf as [Hf _].
    + rewrite carried_mid. intros [Hn1 [_ Hn3]%app_nil]%app_nil.
      change (carried (before ++ [SettleAgent run error] ++ after) = [run]). by rewrite !carried_app, Hn1, Hn3.
  - injection He as <- <-. cbn [next_pending app]. destruct (ownership_token s _ (SettleAgent run error) _ run eq_refl Ho) as (_ & Hc & Ha).
    by apply nobody.
  - injection He as <- <-. by apply (Hframe [HandleAbortRun run]).
  - destruct (sh_runs s !! run) as [state|] eqn:Hr; [|injection He as <- <-; by apply (Hframe [])].
    destruct (is_terminal (rs_phase state)) eqn:Hp; [injection He as <- <-; by apply (Hframe [])|].
    unfold run_cancel_created in He. case_bool_decide as Hcr; injection He as <- <-; cbn [next_pending].
    + eapply ownership_finished; [exact Hr|done|done| |exact Ho].
      rewrite carried_mid. intros [Hn1 [_ Hn3]%app_nil]%app_nil. by rewrite !carried_app, Hn1, Hn3.
    + eapply ownership_run_kept; [exact Hr|done| |exact Ho]. by rewrite carried_mid, !carried_app.
  - injection He as <- <-. by apply (Hframe []).
  - destruct (sh_active s) as [run|]; injection He as <- <-; [by apply (Hframe [AgentAbortCancel run])|by apply (Hframe [])].
  - injection He as <- <-. by apply (Hframe [AgentAbortRun run]).
  - destruct (sh_runs s !! run) as [state|] eqn:Hr; [|injection He as <- <-; by apply (Hframe [])].
    unfold run_cancel_created in He. case_bool_decide as Hcr; injection He as <- <-; cbn [next_pending].
    + eapply ownership_finished; [exact Hr|by rewrite Hcr|done| |exact Ho].
      rewrite carried_mid. intros [Hn1 [_ Hn3]%app_nil]%app_nil. by rewrite !carried_app, Hn1, Hn3.
    + eapply ownership_run_kept; [exact Hr|done| |exact Ho]. by rewrite carried_mid, !carried_app.
  - injection He as <- <-. cbn [next_pending]. destruct settle.
    + destruct (ownership_token s _ (AgentAbortAgent run true) _ run eq_refl Ho) as (_ & Hc & Ha). apply nobody; [|done].
      rewrite !carried_app in *. exact Hc.
    + apply (Hframe [AgentAbortQueues run false]); [done..| |done]. intros Hi. cbn.
      unfold agent_abort_state. by case_bool_decide.
  - destruct settle; injection He as <- <-; [by apply (Hframe [AgentAbortSlot run])|by apply (Hframe [])].
  - injection He as <- <-. by apply (Hframe []).
  - apply with_agent_phase in He as (Hr & _ & [(agent & Hok & Ha & ->)|[Ha Hn]]).
    + apply (Hframe [ClearQueues]); [done..| |done]. rewrite Ha. by rewrite (agent_reset_phase _ _ Hok).
    + apply (Hframe []); [done..|by rewrite Ha|done].
  - apply with_agent_phase in He as (Hr & _ & [(agent & Hok & Ha & ->)|[Ha Hn]]).
    + apply (Hframe [ClearQueues]); [done..| |done]. rewrite Ha. by rewrite (agent_restore_phase _ _ _ Hok).
    + apply (Hframe []); [done..|by rewrite Ha|done].
  - apply with_agent_phase in He as (Hr & _ & [(agent & Hok & Ha & ->)|[Ha Hn]]).
    + apply (Hframe []); [done..| |done]. rewrite Ha. by rewrite (agent_thinking_phase _ _ _ Hok).
    + apply (Hframe []); [done..|by rewrite Ha|done].
  - injection He as <- <-. by apply (Hframe []).
Qed.

(** ** Identities stay fresh *)

Lemma starting_app l k : starting (l ++ k) = starting l ++ starting k.
Proof. apply omap_app. Qed.

Lemma finishes_sub before p after q :
  Forall finishes_terminal (before ++ p :: after) -> Forall finishes_terminal q -> Forall finishes_terminal (before ++ q ++ after).
Proof. rewrite !Forall_app, Forall_cons. naive_solver. Qed.

(** A section that starts nothing and adds no run. *)
Lemma fresh_frame s s' before p after q :
  sh_next_run_id s' = sh_next_run_id s -> (forall run, is_Some (sh_runs s' !! run) <-> is_Some (sh_runs s !! run)) ->
  starting q = starting [p] \/ starting q = [] -> Forall finishes_terminal q ->
  fresh_ids s (before ++ p :: after) -> fresh_ids s' (before ++ q ++ after).
Proof.
  intros Hnext Hruns Hq Hfin [Hn Hr Hs Hu Hf].
  assert (starting (before ++ q ++ after) `sublist_of` starting (before ++ p :: after)) as Hsub.
  { rewrite starting_mid, !starting_app. destruct Hq as [->| ->]; [done|]. apply sublist_app; [done|].
    cbn. by apply sublist_inserts_l. }
  split; [by rewrite Hnext| | | |by eapply finishes_sub].
  - intros run H%Hruns. rewrite Hnext. auto.
  - intros run Hin. destruct (Hs run) as [Hle Hnone]; [by eapply elem_of_submseteq, sublist_submseteq|].
    rewrite Hnext. split; [done|]. apply eq_None_not_Some. intros H%Hruns. rewrite Hnone in H. by destruct H.
  - by eapply sublist_NoDup.
Qed.

Lemma insert_is_Some (runs : gmap N (RunState Empty_set)) run state state' other :
  runs !! run = Some state -> is_Some (<[run := state']> runs !! other) <-> is_Some (runs !! other).
Proof.
  intros Hr. rewrite lookup_insert_is_Some. destruct (decide (run = other)) as [<-|]; [rewrite Hr|]; naive_solver.
Qed.

Lemma exec_fresh s p s' n before after :
  exec s p = (s', n) -> room s p = true ->
  fresh_ids s (before ++ p :: after) -> fresh_ids s' (before ++ next_pending n ++ after).
Proof.
  intros He Hroom Hf.
  assert (forall q, next_pending n = q -> sh_next_run_id s' = sh_next_run_id s ->
    (forall run, is_Some (sh_runs s' !! run) <-> is_Some (sh_runs s !! run)) ->
    starting q = starting [p] \/ starting q = [] -> Forall finishes_terminal q ->
    fresh_ids s' (before ++ next_pending n ++ after)) as Hframe.
  { intros q ->. intros. by eapply fresh_frame. }
  assert (forall run section next, with_run s run section next = (s', n) -> starting (next_pending next) = [] ->
    Forall finishes_terminal (next_pending next) -> fresh_ids s' (before ++ next_pending n ++ after)) as Hrun.
  { intros run section next Hw Hst Hfin. apply with_run_cases in Hw as [[-> Hn]|(state & state' & Hr & _ & -> & ->)].
    - apply (Hframe []); [done..|by right|constructor].
    - eapply Hframe; [done|done| |by right|done]. intros other. by apply (insert_is_Some _ _ state). }
  assert (forall section next, with_agent s section next = (s', n) ->
    starting (next_pending next) = starting [p] \/ starting (next_pending next) = [] ->
    Forall finishes_terminal (next_pending next) -> fresh_ids s' (before ++ next_pending n ++ after)) as Hagent.
  { intros section next Hw Hst Hfin. apply with_agent_phase in Hw as (Hr & Hnx & [(a & _ & _ & ->)|[_ Hn]]).
    - eapply Hframe; [done|done| |done|done]. by rewrite Hr.
    - apply (Hframe []); [done|done|by rewrite Hr|by right|constructor]. }
  destruct p as [contents|run contents|run|run turn|run turn|run|run phase reason error|run error|run|run|run| |run|run
    |run settle|run settle|run| |messages|level|]; cbn [exec] in He;
    try (eapply Hrun; [exact He|done|by repeat constructor]);
    try (eapply Hagent; [exact He|by auto|by repeat constructor]);
    try (injection He as <- <-; eapply Hframe; [done|done|done|by auto|by repeat constructor]).
  - injection He as <- <-. apply N.ltb_lt in Hroom. destruct Hf as [Hn Hr Hs Hu Hfi].
    assert ((sh_next_run_id s + 1) mod 2 ^ 64 = sh_next_run_id s + 1) as Hmod
      by (apply N.mod_small; unfold u64_max in *; lia).
    rewrite starting_mid in Hs, Hu. change (starting [CallStartRun contents]) with ([] : list N) in Hs, Hu. cbn [app] in Hs, Hu.
    assert (forall x, x ∈ starting before ++ starting after -> x <> sh_next_run_id s + 1) as Hne.
    { intros x Hx ->. specialize (Hs _ Hx). lia. }
    rewrite u64_saturating_add_exact by (unfold u64_max in *; lia).
    split; cbn [next_pending sh_next_run_id set_field].
    + cbn. rewrite Hmod. unfold u64_max in *. lia.
    + intros run H. cbn in H |- *. rewrite Hmod. specialize (Hr _ H). lia.
    + intros run Hin. rewrite starting_app in Hin. cbn in Hin |- *. rewrite Hmod. fold (starting after) in Hin.
      rewrite elem_of_app, elem_of_cons in Hin. destruct Hin as [Hin|[->|Hin]].
      * destruct (Hs run) as [? ?]; [apply elem_of_app; by left|]. split; [lia|done].
      * split; [done|]. apply eq_None_not_Some. intros H. specialize (Hr _ H). lia.
      * destruct (Hs run) as [? ?]; [apply elem_of_app; by right|]. split; [lia|done].
    + rewrite starting_app. cbn. fold (starting after). apply NoDup_app in Hu as (H1 & H2 & H3).
      apply NoDup_app. split_and!; [done| |].
      * intros x Hx [->|Hin]%elem_of_cons; [|by apply (H2 x)]. apply (Hne _ (proj2 (elem_of_app _ _ _) (or_introl Hx))). done.
      * constructor; [|done]. intros Hin. apply (Hne _ (proj2 (elem_of_app _ _ _) (or_intror Hin))). done.
    + by eapply finishes_sub; [exact Hfi|repeat constructor].
  - injection He as <- <-. destruct Hf as [Hn Hr Hs Hu Hfi]. rewrite starting_mid in Hs, Hu. cbn in Hs, Hu.
    fold (starting after) in Hs, Hu. cbn [next_pending app]. split; cbn; [done| | | |].
    + intros other [<-|[_ H]]%lookup_insert_is_Some; [|auto]. apply Hs. apply elem_of_app. right. by left.
    + intros other. rewrite starting_app. intros Hin. apply NoDup_app in Hu as (H1 & H2 & [H3 _]%NoDup_cons).
      assert (other <> run).
      { intros ->. apply elem_of_app in Hin as [Hin|Hin]; [apply (H2 run Hin); by left|done]. }
      rewrite lookup_insert_ne by done. apply Hs. apply elem_of_app. apply elem_of_app in Hin as [?|?]; [by left|right; by right].
    + rewrite starting_app. eapply sublist_NoDup; [exact Hu|]. apply sublist_app; [done|]. by apply sublist_cons.
    + apply (finishes_sub before _ after [] Hfi). constructor.
  - destruct (sh_runs s !! run) as [state|] eqn:Hr; [|injection He as <- <-; eapply Hframe; [done|done|done|by auto|by repeat constructor]].
    destruct (is_terminal (rs_phase state)); [injection He as <- <-; eapply Hframe; [done|done|done|by auto|by repeat constructor]|].
    destruct (run_cancel_created state) as [settle state'].
    injection He as <- <-. eapply Hframe; [done|done|intros other; by apply (insert_is_Some _ _ state)|by destruct settle; auto|].
    destruct settle; by repeat constructor.
  - destruct (sh_active s); injection He as <- <-; (eapply Hframe; [done|done|done|by auto|by repeat constructor]).
  - destruct (sh_runs s !! run) as [state|] eqn:Hr; [|injection He as <- <-; eapply Hframe; [done|done|done|by auto|by repeat constructor]].
    destruct (run_cancel_created state) as [settle state'].
    injection He as <- <-. eapply Hframe; [done|done|intros other; by apply (insert_is_Some _ _ state)|by auto|by repeat constructor].
  - destruct settle; injection He as <- <-; (eapply Hframe; [done|done|done|by auto|by repeat constructor]).
Qed.

Lemma step_owned c d : step c d -> owned c -> owned d.
Proof.
  destruct 1 as [s ps p Hcall|s before p after s' p' Hroom He|s before p after s' result Hroom He]; intros [Ho Hf].
  - assert (carried [p] = [] /\ starting [p] = [] /\ finishes_terminal p) as (Hc & Hs & Hp).
    { destruct p; try discriminate Hcall; try done. by apply andb_true_iff in Hcall as [_ ?]. }
    split; cbn [fst snd] in *.
    + eapply ownership_frame; [done| |done|exact Ho]. by rewrite carried_app, Hc, app_nil_r.
    + destruct Hf as [Hn Hr Hst Hu Hfi]. split; [done|done| | |apply Forall_app; split; [done|by constructor]];
        rewrite starting_app, Hs, app_nil_r; done.
  - split; [by apply (exec_ownership s p s' (Continue p'))|by apply (exec_fresh s p s' (Continue p'))].
  - split; [by apply (exec_ownership s p s' (Return result))|by apply (exec_fresh s p s' (Return result))].
Qed.

Lemma reachable_owned c : lifecycle_reachable c -> owned c.
Proof.
  intros Hr. assert (owned (shared_default, [])) as H0.
  { split; [by apply nobody|]. split; cbn; [unfold u64_max; lia| |by intros ? ?%elem_of_nil|constructor|constructor].
    intros run [st Hst]. by rewrite lookup_empty in Hst. }
  revert H0. induction Hr as [c|c d e Hcd _ IH]; intros Hc; [done|]. by eapply IH, step_owned.
Qed.

(** ** An agent that nobody will settle *)

Definition stranded (c : Shared * list Pending) : Prop :=
  as_phase (sh_agent c.1) <> Idle /\ carried c.2 = [] /\ all_finished c.1.

Lemma busy_owner s : as_phase s <> Idle -> exists run, active_owner s = Some run.
Proof. unfold active_owner. destruct (as_phase s); [done|eauto..]. Qed.

(** Without an unfinished run and a carrying section, no section makes the agent idle. *)
Lemma exec_stranded s p s' n :
  exec s p = (s', n) -> carries p = None -> as_phase (sh_agent s) <> Idle -> all_finished s ->
  as_phase (sh_agent s') <> Idle /\ carried (next_pending n) = [] /\ all_finished s'.
Proof.
  intros He Hp Hi Ha. destruct (busy_owner _ Hi) as [owner Howner].
  assert (forall section next, with_agent s section next = (s', n) -> (exists e, section (sh_agent s) = Err e) ->
    as_phase (sh_agent s') <> Idle /\ carried (next_pending n) = [] /\ all_finished s') as Hagent.
  { intros section next Hw [e Hsec]. unfold with_agent in Hw. rewrite Hsec in Hw. by injection Hw as <- <-. }
  assert (forall run section next, with_run s run section next = (s', n) ->
    (forall state, is_terminal (rs_phase state) = true -> exists e, section state = Err e) ->
    as_phase (sh_agent s') <> Idle /\ carried (next_pending n) = [] /\ all_finished s') as Hrun.
  { intros run section next Hw Hsec. unfold with_run in Hw.
    destruct (sh_runs s !! run) as [state|] eqn:Hr; [|by injection Hw as <- <-].
    destruct (Hsec state) as [e Hs]; [by eapply Ha|]. rewrite Hs in Hw. by injection Hw as <- <-. }
  destruct p as [contents|run contents|run|run turn|run turn|run|run phase reason error|run error|run|run|run| |run|run
    |run settle|run settle|run| |messages|level|]; cbn [exec carries] in He, Hp; try discriminate Hp;
    try (by injection He as <- <-).
  - eapply Hagent; [exact He|]. unfold claim_run. rewrite Howner. cbn. eauto.
  - eapply Hrun; [exact He|]. intros state Ht. unfold run_start_turn. case_bool_decide as Hc; [by rewrite Hc in Ht|eauto].
  - eapply Hrun; [exact He|]. intros state Ht. unfold run_advance_turn. case_bool_decide as Hc; [by rewrite Hc in Ht|eauto].
  - eapply Hrun; [exact He|]. intros state Ht. unfold run_begin_settlement. rewrite Ht. eauto.
  - eapply Hrun; [exact He|]. intros state Ht. unfold run_finish. rewrite Ht. eauto.
  - destruct (sh_runs s !! run) as [state|] eqn:Hr; [|by injection He as <- <-].
    rewrite (Ha run state Hr) in He. by injection He as <- <-.
  - destruct (sh_active s); by injection He as <- <-.
  - destruct (sh_runs s !! run) as [state|] eqn:Hr; [|by injection He as <- <-].
    assert (run_cancel_created state = (false, state)) as Hc.
    { unfold run_cancel_created. case_bool_decide as Hc; [|done]. pose proof (Ha run state Hr) as Ht. by rewrite Hc in Ht. }
    rewrite Hc in He. injection He as <- <-. split_and!; [done|done|]. intros other st. cbn.
    intros [[<- <-]|[_ Hst]]%lookup_insert_Some; by eapply Ha.
  - destruct settle; [discriminate Hp|]. injection He as <- <-. split_and!; [|done|done]. cbn. unfold agent_abort_state.
    by case_bool_decide.
  - destruct settle; by injection He as <- <-.
  - eapply Hagent; [exact He|]. unfold agent_reset. rewrite Howner. eauto.
  - eapply Hagent; [exact He|]. unfold agent_restore_messages. rewrite Howner. eauto.
  - eapply Hagent; [exact He|]. unfold agent_replace_thinking_level. rewrite Howner. eauto.
Qed.

Lemma carried_none before p after : carried (before ++ p :: after) = [] -> carries p = None /\ carried (before ++ after) = [].
Proof.
  rewrite carried_mid, carried_app. intros [-> [Hp ->]%app_nil]%app_nil. split; [|done].
  unfold carried in Hp. cbn in Hp. by destruct (carries p).
Qed.

(** A stranded agent stays stranded. *)
Lemma stranded_step c d : step c d -> stranded c -> stranded d.
Proof.
  destruct 1 as [s ps p Hcall|s before p after s' p' _ He|s before p after s' result _ He]; intros (Hi & Hc & Ha);
    cbn [fst snd] in *.
  - split_and!; [done| |done]. cbn [snd]. rewrite carried_app, Hc. by destruct p.
  - apply carried_none in Hc as [Hp Hc]. destruct (exec_stranded _ _ _ _ He Hp Hi Ha) as (? & Hn & ?).
    split_and!; [done| |done]. cbn [snd]. rewrite carried_mid. cbn [next_pending] in Hn. rewrite Hn. by rewrite carried_app in Hc.
  - apply carried_none in Hc as [Hp Hc]. destruct (exec_stranded _ _ _ _ He Hp Hi Ha) as (? & Hn & ?). done.
Qed.

Lemma stranded_forever c d : stranded c -> rtc step c d -> stranded d.
Proof. intros Hc Hr. induction Hr as [c|c d e Hcd _ IH]; [done|]. by apply IH, (stranded_step c d). Qed.

(** ** A schedule: calls and the positions of the sections to execute *)

Inductive Move := MCall (p : Pending) | MExec (index : nat).
Definition move (c : Shared * list Pending) (m : Move) : option (Shared * list Pending) :=
  match m with
  | MCall p => if callable c.1 p then Some (c.1, c.2 ++ [p]) else None
  | MExec index =>
      match c.2 !! index with
      | Some p =>
          if room c.1 p then
            let '(s, n) := exec c.1 p in Some (s, take index c.2 ++ next_pending n ++ drop (S index) c.2)
          else None
      | None => None
      end
  end.
Fixpoint schedule (c : Shared * list Pending) (ms : list Move) : option (Shared * list Pending) :=
  match ms with
  | [] => Some c
  | m :: ms => match move c m with Some c => schedule c ms | None => None end
  end.

Lemma move_step c m d : move c m = Some d -> step c d.
Proof.
  destruct c as [s ps], m as [p|index]; cbn [move fst snd].
  - destruct (callable s p) eqn:Hc; [|done]. intros [= <-]. by constructor.
  - destruct (ps !! index) as [p|] eqn:Hp; [|done]. destruct (room s p) eqn:Hroom; [|done].
    destruct (exec s p) as [s' n] eqn:He. intros [= <-].
    rewrite <-(take_drop_middle ps index p Hp) at 1. destruct n as [p'|result]; cbn [next_pending app].
    + by constructor.
    + by eapply step_return.
Qed.

Lemma schedule_steps c ms d : schedule c ms = Some d -> rtc step c d.
Proof.
  revert c. induction ms as [|m ms IH]; intros c; cbn [schedule]; [intros [= <-]; constructor|].
  destruct (move c m) as [e|] eqn:Hm; [|done]. intros H. eapply rtc_l; [by apply (move_step c m)|by apply IH].
Qed.

(** Run 1 is driven to its end while an abort through its handle is between its two sections. *)
Definition overlapping_abort : list Move :=
  [MCall (CallStartRun ["hello"]); MExec 0; MExec 0; MExec 0; MCall (CallStartTurn 1 1); MExec 0;
   MCall (CallHandleAbort 1); MExec 0; MExec 0;
   MCall (CallFinish 1 RunSucceeded Stop None); MExec 1; MExec 1; MExec 0].

(** An abort of the agent that read run 1 as active continues after run 2 was started. *)
Definition late_abort : list Move :=
  [MCall (CallStartRun ["one"]); MExec 0; MExec 0; MExec 0; MCall (CallStartTurn 1 1); MExec 0;
   MCall CallAgentAbort; MExec 0; MExec 0; MExec 0;
   MCall (CallFinish 1 RunSucceeded Stop None); MExec 1; MExec 1;
   MCall (CallStartRun ["two"]); MExec 1; MExec 1; MExec 1; MCall (CallStartTurn 2 1); MExec 1; MExec 0].

(** ** Theorems *)



(** C32: Cancelling through a run handle while the run finishes leaves the agent in the
    cancelling phase of a finished run for good, with nothing pending; and an agent-wide abort
    that read the previous run marks a newer, uncancelled run's agent as cancelling the old one.
    *)
Theorem abort_race_strands_agent :
  (exists c, lifecycle_reachable c /\ c.2 = [] /\ as_phase (sh_agent c.1) = PhaseCancelling 1 /\ stranded c /\
     forall d, rtc step c d -> as_phase (sh_agent d.1) <> Idle) /\
  (exists c, lifecycle_reachable c /\ unfinished c.1 2 /\ (2 ∉ sh_cancelled c.1) /\
     as_phase (sh_agent c.1) = PhaseCancelling 1).
Proof.
  split.
  - destruct (schedule (shared_default, []) overlapping_abort) as [c|] eqn:Hc; [|vm_compute in Hc; discriminate Hc].
    assert (stranded c /\ c.2 = [] /\ as_phase (sh_agent c.1) = PhaseCancelling 1) as (Hs & Hps & Hp).
    { vm_compute in Hc. injection Hc as <-. split; [|split; reflexivity]. split; [discriminate|]. split; [reflexivity|].
      apply map_Forall_lookup. apply (bool_decide_unpack _). vm_compute. exact I. }
    exists c. split_and!; [by eapply schedule_steps|done|done|done|]. intros d Hd. by apply (stranded_forever c d).
  - destruct (schedule (shared_default, []) late_abort) as [c|] eqn:Hc; [|vm_compute in Hc; discriminate Hc].
    exists c. split; [by eapply schedule_steps|]. vm_compute in Hc. injection Hc as <-. split_and!.
    + eexists. split; vm_compute; reflexivity.
    + apply (bool_decide_unpack _). vm_compute. exact I.
    + reflexivity.
Qed.
