(* ===== verification/Measurement.v ===== *)
(** * tea-core: continuity of adjacent requests ([crates/tea-core/src/measurement.rs])

    What can be said about the reuse of a provider's prompt cache before a
    request is sent: the layout of a request, the bytes it shares with its
    predecessor, the classification of their continuity and the ledger that
    remembers the predecessor.  The classification is exact: a request extends
    its predecessor if and only if the canonical bytes do. *)

From stdpp Require Import base gmap sets list strings.
From S2P Require Import Prelude RustStr Json Ids BTree SessionErrors Configuration Messages Transcript TranscriptProofs.
From S2P Require Import TranscriptJson CoreState SchemaValidation SchemaProofs Tools Compaction.
From S2P Require Import CompactionProofs RequestContext.

Local Open Scope N_scope.

#[export] Instance thinking_level_eq_dec : EqDecision ThinkingLevel.
Proof. solve_decision. Defined.
#[export] Instance prompt_continuity_eq_dec : EqDecision PromptContinuity.
Proof. solve_decision. Defined.

Record RequestLayout := mk_layout {
  ly_system_prompt : string;
  ly_tools : list ToolDeclaration;
  ly_context : string;
  ly_model : option ModelDescriptor;
  ly_thinking_level : ThinkingLevel;
  ly_session_id : option string;
}.

Inductive ExpectedPromptLayoutTransition := ExpectDomainChanged | ExpectRebased | ExpectDiscontinuous.
Inductive PromptLayoutPolicy := Observe | RejectUnexpectedRebase | RequireExactExtension.
#[export] Instance layout_policy_eq_dec : EqDecision PromptLayoutPolicy.
Proof. solve_decision. Defined.

(** [AdapterRequestObservation], the fields that are compared. *)
Record AdapterRequestObservation := mk_adapter_observation {
  ad_serialized_request_bytes : option N;
  ad_cache_domain_fingerprint : option N;
  ad_cache_domain_components : gmap string N;
}.

Record PromptCacheMeasurement := mk_measurement {
  pm_cache_scope : N;
  pm_continuity : PromptContinuity;
  pm_common_request_prefix_bytes : option nat;
  pm_context_prefix_bytes : option nat;
  pm_cache_domain_fingerprint : N;
  pm_cache_domain_changed : bool;
  pm_system_prompt_bytes : nat;
  pm_tool_definition_bytes : nat;
  pm_context_bytes : nat;
  pm_prompt_bytes : N;
  pm_common_context_prefix_bytes : nat;
  pm_common_context_prefix_ratio_millionths : N;
  pm_context_fingerprint : N;
  pm_system_prompt_fingerprint : N;
  pm_tool_definition_fingerprint : N;
  pm_tool_order_fingerprint : N;
  pm_model_fingerprint : N;
  pm_thinking_fingerprint : N;
  pm_exact_context_extension : bool;
  pm_append_only_context : bool;
  pm_context_projection_changed : bool;
  pm_adapter_serialized_request_bytes : option N;
  pm_adapter_cache_domain_fingerprint : option N;
  pm_changed_cache_domain_components : list string;
}.
#[export] Instance measurement_eta : Eta PromptCacheMeasurement := fun m =>
  mk_measurement (pm_cache_scope m) (pm_continuity m) (pm_common_request_prefix_bytes m) (pm_context_prefix_bytes m)
    (pm_cache_domain_fingerprint m) (pm_cache_domain_changed m) (pm_system_prompt_bytes m) (pm_tool_definition_bytes m)
    (pm_context_bytes m) (pm_prompt_bytes m) (pm_common_context_prefix_bytes m)
    (pm_common_context_prefix_ratio_millionths m) (pm_context_fingerprint m) (pm_system_prompt_fingerprint m)
    (pm_tool_definition_fingerprint m) (pm_tool_order_fingerprint m) (pm_model_fingerprint m)
    (pm_thinking_fingerprint m) (pm_exact_context_extension m) (pm_append_only_context m)
    (pm_context_projection_changed m) (pm_adapter_serialized_request_bytes m)
    (pm_adapter_cache_domain_fingerprint m) (pm_changed_cache_domain_components m).

Record DeterministicPrefixEvidence := mk_evidence {
  ev_common_prefix_bytes : N;
  ev_common_prefix_tokens_estimate : N;
}.

(** ** Bytes *)

(** [common_prefix_len], [stable_fingerprint], [append_length_delimited]. *)
Fixpoint common_prefix_len (l k : list N) : nat :=
  match l, k with
  | x :: l, y :: k => if x =? y then S (common_prefix_len l k) else O
  | _, _ => O
  end.
Definition stable_fingerprint (bytes : list N) : N := foldl fnv_step FNV_OFFSET bytes.
Definition le_bytes (n : nat) (v : N) : list N := reverse (be_bytes n v).
Definition length_delimited (value : list N) : list N := le_bytes 8 (N.of_nat (length value)) ++ value.

(** [format!("{:?}", level)]. *)
Definition thinking_debug (level : ThinkingLevel) : string :=
  match level with
  | Off => "Off"
  | Minimal => "Minimal"
  | Low => "Low"
  | Medium => "Medium"
  | High => "High"
  | XHigh => "XHigh"
  | Max => "Max"
  end.

Section measure.
Context `{Miniserde}.

(** [tool_definition_bytes]; [expect] stops the program on an encoding error. *)
Definition tool_definition_bytes {E} (r : RequestLayout) : Outcome E (list N) :=
  match to_json_string (JsonArray (map tool_declaration_json (ly_tools r))) with
  | Ok text => Ok (bytes_of text)
  | _ => Panic "protocol JSON tool definitions are always encodable"
  end.

Definition model_bytes (model : option ModelDescriptor) : list N :=
  match model with
  | Some model =>
      bytes_of (md_provider model) ++ [0] ++ bytes_of (md_model model) ++ [0]
      ++ match md_revision model with Some revision => bytes_of revision | None => [] end
  | None => []
  end.
Definition cache_domain_fingerprint (r : RequestLayout) (tools : list N) : N :=
  stable_fingerprint
    (bytes_of (ly_system_prompt r) ++ [0] ++ tools ++ [0] ++ model_bytes (ly_model r) ++ [0]
     ++ bytes_of (thinking_debug (ly_thinking_level r)) ++ [0]
     ++ match ly_session_id r with Some session => bytes_of session | None => [] end).
Definition tool_order_fingerprint (r : RequestLayout) : N :=
  stable_fingerprint (concat (map (fun tool => bytes_of (td_name tool) ++ [0]) (ly_tools r))).
Definition model_fingerprint (r : RequestLayout) : N := stable_fingerprint (model_bytes (ly_model r)).
Definition thinking_fingerprint (r : RequestLayout) : N :=
  stable_fingerprint (bytes_of (thinking_debug (ly_thinking_level r))).

(** [canonical_request_surface_bytes]. *)
Definition surface_model (model : option ModelDescriptor) : list N :=
  match model with
  | Some model =>
      [1] ++ length_delimited (bytes_of (md_provider model)) ++ length_delimited (bytes_of (md_model model))
      ++ match md_revision model with Some revision => [1] ++ length_delimited (bytes_of revision) | None => [0] end
  | None => [0]
  end.
Definition surface_session (session : option string) : list N :=
  match session with Some session => [1] ++ length_delimited (bytes_of session) | None => [0] end.
Definition surface_bytes (r : RequestLayout) (tools : list N) : list N :=
  bytes_of "tea-core-request-surface-v2" ++ [0] ++ length_delimited (bytes_of (ly_system_prompt r))
  ++ length_delimited tools ++ surface_model (ly_model r)
  ++ length_delimited (bytes_of (thinking_debug (ly_thinking_level r))) ++ surface_session (ly_session_id r)
  ++ bytes_of "context" ++ [0] ++ bytes_of (ly_context r).
Definition canonical_request_surface_bytes {E} (r : RequestLayout) : Outcome E (list N) :=
  let? tools := tool_definition_bytes r in Ok (surface_bytes r tools).

(** ** Comparing two requests *)

Definition cache_domains_match {E} (previous current : RequestLayout) (current_tools : list N) : Outcome E bool :=
  if String.eqb (ly_system_prompt previous) (ly_system_prompt current) then
    let? previous_tools := tool_definition_bytes previous in
    Ok (bool_decide (previous_tools = current_tools) && bool_decide (ly_model previous = ly_model current)
        && bool_decide (ly_thinking_level previous = ly_thinking_level current)
        && bool_decide (ly_session_id previous = ly_session_id current))
  else Ok false.

(** [compare_adapter_components]. *)
Definition add_component (p c : AdapterRequestObservation) (changed : list string) (name : string) : list string :=
  if bool_decide (ad_cache_domain_components p !! name = ad_cache_domain_components c !! name) then changed
  else
    let label := "adapter." +:+ name in
    if bool_decide (label ∈ changed) then changed else changed ++ [label].
Definition compare_adapter_components (previous current : option AdapterRequestObservation) (changed : list string) :
    list string :=
  match previous, current with
  | Some p, Some c =>
      let changed := if bool_decide (ad_cache_domain_fingerprint p = ad_cache_domain_fingerprint c) then changed
                     else changed ++ ["adapter_cache_domain"] in
      foldl (add_component p c) changed
        ((btree_iter (ad_cache_domain_components p)).*1 ++ (btree_iter (ad_cache_domain_components c)).*1)
  | _, _ => changed
  end.

Definition changed_if (b : bool) (name : string) : list string := if b then [name] else [].
Definition changed_components {E} (previous current : RequestLayout) (current_tools : list N)
    (previous_adapter current_adapter : option AdapterRequestObservation) : Outcome E (list string) :=
  let? previous_tools := tool_definition_bytes previous in
  Ok (compare_adapter_components previous_adapter current_adapter
        (changed_if (negb (String.eqb (ly_system_prompt previous) (ly_system_prompt current))) "system_prompt"
         ++ changed_if (negb (bool_decide (previous_tools = current_tools))) "tool_definitions"
         ++ changed_if (negb (bool_decide (map td_name (ly_tools previous) = map td_name (ly_tools current)))) "tool_order"
         ++ changed_if (negb (bool_decide (ly_model previous = ly_model current))) "model"
         ++ changed_if (negb (bool_decide (ly_thinking_level previous = ly_thinking_level current))) "thinking"
         ++ changed_if (negb (bool_decide (ly_session_id previous = ly_session_id current))) "session_identity")).

Definition common_surface {E} (previous : option RequestLayout) (current : RequestLayout) : Outcome E (option nat) :=
  match previous with
  | None => Ok None
  | Some previous =>
      let? p := canonical_request_surface_bytes previous in
      let? c := canonical_request_surface_bytes current in
      Ok (Some (common_prefix_len p c))
  end.

Definition classify (previous : option RequestLayout) (domain_changed extension : bool) (common : nat) : PromptContinuity :=
  match previous with
  | None => FirstRequest
  | Some _ =>
      if domain_changed then DomainChanged
      else if extension then ExactExtension
      else if (common =? 0)%nat then Discontinuous else Rebased
  end.

(** [measure_request_layout]. *)
Definition measure_request_layout {E} (previous : option RequestLayout) (current : RequestLayout)
    (previous_adapter current_adapter : option AdapterRequestObservation) : Outcome E PromptCacheMeasurement :=
  let? current_tools := tool_definition_bytes current in
  let current_domain := cache_domain_fingerprint current current_tools in
  let? same_domain := match previous with
                      | Some p => cache_domains_match p current current_tools
                      | None => Ok false
                      end in
  let common := match previous with
                | Some p => if same_domain : bool
                            then common_prefix_len (bytes_of (ly_context p)) (bytes_of (ly_context current)) else O
                | None => O
                end in
  let previous_context_bytes := match previous with Some p => str_len (ly_context p) | None => O end in
  let ratio := if (previous_context_bytes =? 0)%nat then 0
               else (N.of_nat common * 1000000 / N.of_nat previous_context_bytes) `min` u32_max in
  let extension := match previous with
                   | Some p => same_domain && (common =? str_len (ly_context p))%nat
                   | None => false
                   end in
  let? changed := match previous with
                  | Some p => changed_components p current current_tools previous_adapter current_adapter
                  | None => Ok []
                  end in
  let? common_request := common_surface previous current in
  Ok (mk_measurement 0 (classify previous (negb same_domain) extension common) common_request
        (match previous with Some _ => Some common | None => None end) current_domain
        (match previous with Some _ => negb same_domain | None => false end)
        (str_len (ly_system_prompt current)) (length current_tools) (str_len (ly_context current))
        (u64_saturating_add (u64_saturating_add (N.of_nat (str_len (ly_system_prompt current)))
           (N.of_nat (length current_tools))) (N.of_nat (str_len (ly_context current))))
        common ratio (stable_fingerprint (bytes_of (ly_context current)))
        (stable_fingerprint (bytes_of (ly_system_prompt current))) (stable_fingerprint current_tools)
        (tool_order_fingerprint current) (model_fingerprint current) (thinking_fingerprint current)
        extension extension (match previous with Some _ => same_domain && negb extension | None => false end)
        (current_adapter ≫= ad_serialized_request_bytes) (current_adapter ≫= ad_cache_domain_fingerprint) changed).
Definition measure_prompt_cacheability {E} (previous : option RequestLayout) (current : RequestLayout) :
    Outcome E PromptCacheMeasurement := measure_request_layout previous current None None.

(** [deterministic_request_prefix_evidence]. *)
Definition deterministic_request_prefix_evidence {E} (previous : option RequestLayout) (current : RequestLayout) :
    Outcome E (option DeterministicPrefixEvidence) :=
  let? common := common_surface previous current in
  Ok (match common with
      | Some bytes => Some (mk_evidence (N.of_nat bytes) (u64_saturating_add (N.of_nat bytes) 3 / 4))
      | None => None
      end).

(** ** The ledger *)

Record PromptLayoutLedger := mk_ledger {
  lg_previous : option RequestLayout;
  lg_expected_transition : option PromptContinuity;
  lg_scope : N;
  lg_policy : PromptLayoutPolicy;
}.
#[export] Instance ledger_eta : Eta PromptLayoutLedger := fun l =>
  mk_ledger (lg_previous l) (lg_expected_transition l) (lg_scope l) (lg_policy l).

Definition ledger_new (scope : N) : PromptLayoutLedger := mk_ledger None None scope Observe.
Definition transition_continuity (t : ExpectedPromptLayoutTransition) : PromptContinuity :=
  match t with
  | ExpectDomainChanged => DomainChanged
  | ExpectRebased => Rebased
  | ExpectDiscontinuous => Discontinuous
  end.

(** [measure_against], [measure], [observe], [commit], [clear]. *)
Definition measure_against {E} (l : PromptLayoutLedger) (previous : option RequestLayout) (request : RequestLayout) :
    Outcome E PromptCacheMeasurement :=
  let? m := measure_request_layout previous request None None in
  let? common_request := common_surface previous request in
  Ok (m <| pm_cache_scope := lg_scope l |>
        <| pm_continuity := classify previous (pm_cache_domain_changed m) (pm_exact_context_extension m)
                              (pm_common_context_prefix_bytes m) |>
        <| pm_common_request_prefix_bytes := common_request |>
        <| pm_context_prefix_bytes := match previous with
                                      | Some _ => Some (pm_common_context_prefix_bytes m)
                                      | None => None
                                      end |>).
Definition ledger_measure {E} (l : PromptLayoutLedger) (request : RequestLayout) : Outcome E PromptCacheMeasurement :=
  measure_against l (lg_previous l) request.
Definition ledger_commit (l : PromptLayoutLedger) (request : RequestLayout) : PromptLayoutLedger :=
  l <| lg_previous := Some request |>.
Definition ledger_observe {E} (l : PromptLayoutLedger) (request : RequestLayout) :
    Outcome E (PromptCacheMeasurement * PromptLayoutLedger) :=
  let? m := ledger_measure l request in Ok (m, ledger_commit l request).
Definition ledger_clear (l : PromptLayoutLedger) : PromptLayoutLedger :=
  l <| lg_previous := None |> <| lg_expected_transition := None |>.
Definition expect_next_transition (l : PromptLayoutLedger) (t : ExpectedPromptLayoutTransition) : PromptLayoutLedger :=
  l <| lg_expected_transition := Some (transition_continuity t) |>.
Definition take_expected_transition (l : PromptLayoutLedger) : option PromptContinuity * PromptLayoutLedger :=
  (lg_expected_transition l, l <| lg_expected_transition := None |>).

(** The decision of [drive_inner] before a request is sent. *)
Definition rejected_by_policy (policy : PromptLayoutPolicy) (continuity : PromptContinuity) : bool :=
  match policy, continuity with
  | RejectUnexpectedRebase, (Rebased | Discontinuous) => true
  | RequireExactExtension, (DomainChanged | Rebased | Discontinuous) => true
  | _, _ => false
  end.
End measure.

(** [RequestLayout::new]. *)
Definition layout_of `{Blake3} `{Miniserde} {E} (t : Transcript) (model : option ModelDescriptor) (level : ThinkingLevel)
    (session : option string) (projection : ConfigurationProjection) : Outcome E RequestLayout :=
  let resolved := resolve t projection in
  let? context := layout_context t projection in
  Ok (mk_layout (configuration_prompt (rt_leading resolved)) (ec_tools (rt_leading resolved)) context model level
        session).

(** ** Prefixes *)

Lemma common_prefix_take l k : take (common_prefix_len l k) l = take (common_prefix_len l k) k.
Proof.
  revert k. induction l as [|x l IH]; intros [|y k]; cbn; try done. destruct (N.eqb_spec x y) as [->|]; [|done]. cbn. by f_equal.
Qed.
Lemma common_prefix_bound l k : (common_prefix_len l k <= length l)%nat.
Proof. revert k. induction l as [|x l IH]; intros [|y k]; cbn; try lia. destruct (x =? y); [|lia]. specialize (IH k). lia. Qed.
Lemma common_prefix_stops l k x y :
  l !! common_prefix_len l k = Some x -> k !! common_prefix_len l k = Some y -> x <> y.
Proof.
  revert k. induction l as [|a l IH]; intros [|b k]; cbn; try done. destruct (N.eqb_spec a b) as [->|Hne]; cbn; [apply IH|].
  by intros [= <-] [= <-].
Qed.
Lemma common_prefix_whole l k : common_prefix_len l k = length l <-> l `prefix_of` k.
Proof.
  revert k. induction l as [|x l IH]; intros [|y k]; cbn.
  - split; [intros _; by exists []|done].
  - split; [intros _; by exists (y :: k)|done].
  - split; [done|]. by intros [z ?].
  - destruct (N.eqb_spec x y) as [->|Hne].
    + split; [intros [= Hl%IH]; by apply prefix_cons|]. intros Hp%prefix_cons_inv_2. f_equal. by apply IH.
    + split; [done|]. intros Hp%prefix_cons_inv_1. done.
Qed.

(** ** Reading a surface back *)

Lemma le_bytes_inj n v v' : v < 256 ^ N.of_nat n -> v' < 256 ^ N.of_nat n -> le_bytes n v = le_bytes n v' -> v = v'.
Proof.
  intros Hv Hv' Heq. apply (f_equal reverse) in Heq. unfold le_bytes in Heq. rewrite !reverse_involutive in Heq.
  apply (f_equal be_value) in Heq. by rewrite !be_value_be_bytes in Heq.
Qed.

Lemma length_delimited_inj a b r s :
  frame_ok a -> frame_ok b -> length_delimited a ++ r = length_delimited b ++ s -> a = b /\ r = s.
Proof.
  unfold length_delimited, frame_ok. intros Ha Hb Heq. rewrite <- !(assoc_L app) in Heq.
  apply app_inj_1 in Heq as [Hlen Heq]; [|unfold le_bytes; by rewrite !length_reverse, !length_be_bytes].
  apply le_bytes_inj in Hlen; [|done..]. apply Nat2N.inj in Hlen. by apply app_inj_1 in Heq.
Qed.

Definition text_fits (s : string) : Prop := frame_ok (bytes_of s).
Definition model_fits (model : option ModelDescriptor) : Prop :=
  match model with
  | Some m => text_fits (md_provider m) /\ text_fits (md_model m) /\
              match md_revision m with Some revision => text_fits revision | None => True end
  | None => True
  end.


Lemma tagged_inj (x y : N) (l k : list N) : [x] ++ l = [y] ++ k -> x = y /\ l = k.
Proof. by intros [= -> ->]. Qed.

Lemma surface_model_inj a b r s :
  model_fits a -> model_fits b -> surface_model a ++ r = surface_model b ++ s -> a = b /\ r = s.
Proof.
  unfold surface_model. destruct a as [[p m v]|], b as [[p' m' v']|]; cbn [md_provider md_model md_revision model_fits];
    intros Ha Hb Heq; rewrite <- ?(assoc_L app) in Heq; apply tagged_inj in Heq as [Htag Heq]; try discriminate Htag.
  - destruct Ha as (Hp & Hm & Hv), Hb as (Hp' & Hm' & Hv').
    apply length_delimited_inj in Heq as [->%bytes_of_inj Heq]; [|done..].
    apply length_delimited_inj in Heq as [->%bytes_of_inj Heq]; [|done..].
    destruct v as [v|], v' as [v'|]; rewrite <- ?(assoc_L app) in Heq; apply tagged_inj in Heq as [Htag' Heq];
      try discriminate Htag'; [|by subst].
    apply length_delimited_inj in Heq as [->%bytes_of_inj ->]; done.
  - by subst.
Qed.

Definition session_fits (session : option string) : Prop :=
  match session with Some session => text_fits session | None => True end.
Lemma surface_session_inj a b r s :
  session_fits a -> session_fits b -> surface_session a ++ r = surface_session b ++ s -> a = b /\ r = s.
Proof.
  unfold surface_session. destruct a as [a|], b as [b|]; intros Ha Hb Heq; rewrite <- ?(assoc_L app) in Heq;
    apply tagged_inj in Heq as [Htag Heq]; try discriminate Htag.
  - apply length_delimited_inj in Heq as [->%bytes_of_inj ->]; done.
  - by subst.
Qed.

Lemma thinking_debug_inj a b : thinking_debug a = thinking_debug b -> a = b.
Proof. by destruct a, b. Qed.
Lemma thinking_fits a : text_fits (thinking_debug a).
Proof. by destruct a. Qed.

Definition same_domain (a b : RequestLayout) (tools tools' : list N) : Prop :=
  ly_system_prompt a = ly_system_prompt b /\ tools = tools' /\ ly_model a = ly_model b /\
  ly_thinking_level a = ly_thinking_level b /\ ly_session_id a = ly_session_id b.

Definition layout_fits (r : RequestLayout) : Prop :=
  text_fits (ly_system_prompt r) /\ model_fits (ly_model r) /\ session_fits (ly_session_id r).

Lemma surface_prefix a b tools tools' :
  layout_fits a -> layout_fits b -> frame_ok tools -> frame_ok tools' ->
  surface_bytes a tools `prefix_of` surface_bytes b tools' <->
  same_domain a b tools tools' /\ bytes_of (ly_context a) `prefix_of` bytes_of (ly_context b).
Proof.
  intros (Hs & Hm & Hi) (Hs' & Hm' & Hi') Ht Ht'. split.
  - intros [k Heq]. unfold surface_bytes in Heq. rewrite <- !(assoc_L app) in Heq.
    apply app_inv_head in Heq. apply app_inv_head in Heq.
    symmetry in Heq. apply length_delimited_inj in Heq as [Hsys%bytes_of_inj Heq]; [|done..].
    apply length_delimited_inj in Heq as [Htools Heq]; [|done..].
    apply surface_model_inj in Heq as [Hmodel Heq]; [|done..].
    apply length_delimited_inj in Heq as [Hlevel%bytes_of_inj%thinking_debug_inj Heq]; [|apply thinking_fits..].
    apply surface_session_inj in Heq as [Hsession Heq]; [|done..].
    apply app_inv_head in Heq. apply app_inv_head in Heq. split; [by split_and!|]. by exists k.
  - intros [(H1 & <- & H3 & H4 & H5) [k Hk]]. exists k. unfold surface_bytes. rewrite H1, H3, H4, H5, Hk.
    by rewrite <- !(assoc_L app).
Qed.

(** ** The measurement *)

Section theorems.
Context `{Miniserde}.

Lemma tool_definitions_encode {E} r : Forall tool_finite (ly_tools r) -> exists tools, @tool_definition_bytes _ E r = Ok tools.
Proof.
  intros Hf. unfold tool_definition_bytes.
  destruct (to_json_string_finite_ok (JsonArray (map tool_declaration_json (ly_tools r)))) as [text ->]; [|by eexists].
  cbn [json_finite]. induction Hf as [|t l Ht _ IH]; [done|]. cbn [map forallb]. rewrite IH, andb_true_r.
  apply json_object_finite. by repeat constructor.
Qed.

(** A layout whose texts have lengths a [u64] can hold and whose schemas are JSON. *)
Record layout_sound (r : RequestLayout) : Prop := {
  ls_fits : layout_fits r;
  ls_finite : Forall tool_finite (ly_tools r);
  ls_tools tools : @tool_definition_bytes _ Empty_set r = Ok tools -> frame_ok tools;
}.

Lemma str_len_bytes_of s : str_len s = length (bytes_of s).
Proof. unfold str_len. by rewrite length_bytes_of. Qed.

Lemma cache_domains_match_spec {E} previous current tools tools' :
  tool_definition_bytes (E:=E) previous = Ok tools ->
  exists b, cache_domains_match (E:=E) previous current tools' = Ok b /\ (b = true <-> same_domain previous current tools tools').
Proof.
  intros Hp. unfold cache_domains_match, same_domain. rewrite Hp. cbn [obind].
  destruct (String.eqb_spec (ly_system_prompt previous) (ly_system_prompt current)).
  - eexists. split; [done|]. rewrite !andb_true_iff, !bool_decide_eq_true. naive_solver.
  - exists false. split; [done|]. naive_solver.
Qed.

(** What [measure_against] returns for a request with a predecessor. *)
Lemma measured l previous request tools tools' :
  tool_definition_bytes (E:=Empty_set) previous = Ok tools -> tool_definition_bytes (E:=Empty_set) request = Ok tools' ->
  exists m, measure_against (E:=Empty_set) l (Some previous) request = Ok m /\
    pm_common_request_prefix_bytes m
      = Some (common_prefix_len (surface_bytes previous tools) (surface_bytes request tools')) /\
    (pm_continuity m = DomainChanged <-> ~ same_domain previous request tools tools') /\
    (pm_continuity m = ExactExtension <->
       same_domain previous request tools tools' /\
       bytes_of (ly_context previous) `prefix_of` bytes_of (ly_context request)) /\
    pm_continuity m <> FirstRequest.
Proof.
  intros Hp Hr. destruct (cache_domains_match_spec previous request tools tools' Hp) as (b & Hb & Hiff).
  unfold measure_against, measure_request_layout, common_surface, canonical_request_surface_bytes, changed_components.
  rewrite Hr. cbn [obind]. rewrite Hb, Hp. cbn [obind]. eexists. split; [reflexivity|].
  cbn [pm_common_request_prefix_bytes pm_continuity classify]. split; [done|].
  rewrite str_len_bytes_of, <- Hiff. rewrite <- common_prefix_whole.
  cbn. destruct b; cbn [negb andb].
  - destruct (Nat.eqb_spec (common_prefix_len (bytes_of (ly_context previous)) (bytes_of (ly_context request)))
                (length (bytes_of (ly_context previous)))).
    + split_and!; [by split|by split|done].
    + destruct (_ =? 0)%nat; split_and!; (done || by split; [done|intros []]).
  - by split_and!; [split|split; [|intros []]|].
Qed.

(** The continuity a prompt ledger reports is the relation of the bytes: a request counts
    as an exact extension if and only if the canonical surface of the previous request is a
    prefix of its own, and the reported common prefix is the longest one. *)
Theorem continuity_is_byte_extension l previous request :
  lg_previous l = Some previous -> layout_sound previous -> layout_sound request ->
  exists m p c,
    ledger_measure (E:=Empty_set) l request = Ok m /\
    canonical_request_surface_bytes (E:=Empty_set) previous = Ok p /\
    canonical_request_surface_bytes (E:=Empty_set) request = Ok c /\
    (pm_continuity m = ExactExtension <-> p `prefix_of` c) /\
    exists n, pm_common_request_prefix_bytes m = Some n /\ (n <= length p)%nat /\ take n p = take n c /\
      forall x y, p !! n = Some x -> c !! n = Some y -> x <> y.
Proof.
  intros Hl [Hf Hfin Ht] [Hf' Hfin' Ht'].
  destruct (tool_definitions_encode (E:=Empty_set) previous Hfin) as [tools Htools], (tool_definitions_encode (E:=Empty_set) request Hfin') as [tools' Htools'].
  destruct (measured l previous request tools tools' Htools Htools') as (m & Hm & Hcommon & _ & Hexact & _).
  exists m, (surface_bytes previous tools), (surface_bytes request tools'). unfold ledger_measure, canonical_request_surface_bytes.
  rewrite Hl, Htools, Htools'. split_and!; [done..| |].
  - rewrite Hexact. symmetry. apply surface_prefix; auto.
  - eexists. split_and!; [exact Hcommon|apply common_prefix_bound|apply common_prefix_take|apply common_prefix_stops].
Qed.
End theorems.

Section requests.
Context `{Blake3} `{Miniserde}.

Lemma leading_tools_finite t :
  Forall message_finite (t_messages t) -> Forall tool_finite (ec_tools (initial_configuration t)).
Proof.
  intros Hf. unfold initial_configuration.
  assert (Hu : Forall (fun u => Forall tool_finite (cu_tools_added u)) (updates (t_messages t))).
  { induction Hf as [|m l Hm _ IH]; [constructor|]. destruct m; cbn; try done. by constructor. }
  destruct Hu as [|u us Hu _]; [constructor|]. apply apply_update_finite; [constructor|done].
Qed.

(** A request that appends to the conversation of the previous one is an exact extension, which no
    layout policy rejects. *)
Theorem appended_request_accepted t more model level session l :
  updates (t_messages t) <> [] -> t_host_notes t = [] -> Forall message_finite (t_messages t ++ more) ->
  exists before after,
    layout_of (E:=Empty_set) t model level session InPlace = Ok before /\
    layout_of (E:=Empty_set) (mk_transcript (t_messages t ++ more) []) model level session InPlace = Ok after /\
    exists m, ledger_measure (E:=Empty_set) (ledger_commit l before) after = Ok m /\ pm_continuity m = ExactExtension /\
      forall policy, rejected_by_policy policy (pm_continuity m) = false.
Proof.
  intros Hup Hnotes Hfin.
  destruct (in_place_update_extends t more Hup Hnotes Hfin) as (Hlead & _ & before & more_text & Hb & Ha).
  unfold layout_of. rewrite Hb, Ha, Hlead. cbn [obind]. do 2 eexists. split; [reflexivity|]. split; [reflexivity|].
  set (previous := mk_layout _ _ before _ _ _). set (request := mk_layout _ _ (before +:+ more_text) _ _ _).
  assert (Htools : Forall tool_finite (ly_tools previous)).
  { apply leading_tools_finite. by apply Forall_app in Hfin as [? _]. }
  destruct (tool_definitions_encode (E:=Empty_set) previous Htools) as [tools Ht].
  destruct (measured (ledger_commit l previous) previous request tools tools Ht Ht) as (m & Hm & _ & _ & Hexact & _).
  exists m. unfold ledger_measure. cbn [lg_previous ledger_commit]. split; [done|].
  assert (pm_continuity m = ExactExtension) as ->.
  { apply Hexact. split; [done|]. exists (bytes_of more_text). apply bytes_of_app. }
  split; [done|]. by intros [].
Qed.
End requests.

Section concrete_requests.
#[local] Instance flat_hash : Blake3 := {| blake3_hash _ := digest_zero |}.
#[local] Instance flat_codec : Miniserde := {| mini_to_string _ := "json"; mini_from_str _ := None |}.

Lemma continuity_is_byte_extension_witness :
  exists m, ledger_measure (E:=Empty_set) (ledger_commit (ledger_new 7) (mk_layout "be brief" [] "one" None Low None))
              (mk_layout "be brief" [] "one two" None Low None) = Ok m /\
    pm_continuity m = ExactExtension /\ rejected_by_policy RequireExactExtension (pm_continuity m) = false.
Proof.
  edestruct (continuity_is_byte_extension (ledger_commit (ledger_new 7) (mk_layout "be brief" [] "one" None Low None))
    (mk_layout "be brief" [] "one" None Low None) (mk_layout "be brief" [] "one two" None Low None))
    as (m & p & c & Hm & Hp & Hc & Hiff & _).
  - reflexivity.
  - split; [by split_and!|constructor|]. intros tools Ht. vm_compute in Ht. injection Ht as <-. done.
  - split; [by split_and!|constructor|]. intros tools Ht. vm_compute in Ht. injection Ht as <-. done.
  - exists m. split; [exact Hm|]. assert (pm_continuity m = ExactExtension) as ->; [|done].
    apply Hiff. vm_compute in Hp, Hc. injection Hp as <-. injection Hc as <-. by eexists.
Defined.

Lemma appended_request_accepted_witness :
  exists before after m,
    layout_of (E:=Empty_set) (mk_transcript conversation []) None Low None InPlace = Ok before /\
    layout_of (E:=Empty_set) (mk_transcript (conversation ++ [System 3 change_update]) []) None Low None InPlace = Ok after /\
    ledger_measure (E:=Empty_set) (ledger_commit (ledger_new 7) before) after = Ok m /\ pm_continuity m = ExactExtension.
Proof.
  destruct (appended_request_accepted (mk_transcript conversation []) [System 3 change_update] None Low None (ledger_new 7))
    as (before & after & Hb & Ha & m & Hm & He & _).
  - done.
  - done.
  - repeat constructor.
  - exists before, after, m. split; [exact Hb|]. split; [exact Ha|]. split; [exact Hm|exact He].
Defined.
End concrete_requests.
