(* ===== verification/RunWorld.v ===== *)
(** * tea-core: the boundary between a run and its host
    ([crates/tea-core/src/run/mod.rs], [effect.rs], [event.rs], [hooks.rs])

    A run is a future that the host polls.  It touches shared state only under
    locks, and between two such sections other threads may cancel the run or
    report progress of a tool.  A computation of the run is a function of the
    world; [None] means that it still waits.  What the host answers depends on
    the number of boundaries crossed so far, so a host is any sequence of
    answers and interruptions. *)

From stdpp Require Import base gmap gmultiset sets list strings.
From S2P Require Import Records.
From S2P Require Import Prelude RustStr Json Ids SessionErrors Configuration Messages Transcript TranscriptJson.
From S2P Require Import CoreState SchemaValidation Tools Compaction RequestContext AgentLifecycle Measurement.

Local Open Scope N_scope.

(** ** Effects *)

Inductive HookInvocation :=
| BeforeTool (tool_call_id tool_name : string)
| AfterTool (tool_call_id tool_name : string)
| TransformContext
| PrepareNextTurn
| ShouldStopAfterTurn.

(** ** Requests and responses *)

Inductive RequestPurpose := PurposeTurn | PurposeCompaction | PurposeCacheMaintenance.

Record ModelRequest := mk_request {
  mr_purpose : RequestPurpose;
  mr_transcript : Transcript;
  mr_model : option ModelDescriptor;
  mr_selected_model : option ModelDescriptor;
  mr_thinking_level : ThinkingLevel;
  mr_session_id : option string;
  mr_max_output_tokens : option N;
}.

(** [ModelStreamEvent]. *)
Inductive ModelStreamEvent :=
| RequestObservation (observation : AdapterRequestObservation)
| TextDelta (delta : string)
| ThinkingDelta (delta : string)
| ThinkingSignature (item : OpaqueItem)
| RedactedThinking (item : OpaqueItem)
| StreamToolCall (call : AgentToolCall)
| StreamOpaqueContext (item : OpaqueItem)
| StreamUsage (usage : ModelUsage)
| StreamError (message : string)
| StreamProviderError (evidence : ProviderErrorRecord)
| ContextOverflow (message : string)
| StreamAborted (message : string)
| StreamEnd (reason : StopReason).

Record ProviderResponse := mk_response {
  rp_stop_reason : StopReason;
  rp_content : list AssistantContent;
  rp_origin : option ModelDescriptor;
  rp_tool_calls : list AgentToolCall;
  rp_opaque_context : list OpaqueItem;
  rp_error_message : option string;
  rp_usage : option ModelUsage;
  rp_context_overflow : bool;
  rp_provider_error : option ProviderErrorRecord;
}.

Record AgentLoopTurnUpdate := mk_turn_update {
  lu_context : option ContextEnvelope;
  lu_model : option ModelDescriptor;
  lu_thinking_level : option ThinkingLevel;
}.

(** ** Virtual models *)

Definition VIRTUAL_PROVIDER : string := "virtual".
Inductive RouteReason := RouteUser | RouteContinuation | RouteRetry.
Inductive ContinuationPolicy := Sticky | Routed.
#[export] Instance continuation_policy_eq_dec : EqDecision ContinuationPolicy.
Proof. solve_decision. Defined.
#[export] Instance route_reason_eq_dec : EqDecision RouteReason.
Proof. solve_decision. Defined.

Record RouteRequest := mk_route_request {
  rq_selected : ModelDescriptor;
  rq_thinking_level : ThinkingLevel;
  rq_reason : RouteReason;
  rq_previous : option ModelDescriptor;
  rq_targets : list ModelDescriptor;
  rq_state : option JsonValue;
  rq_messages : list AgentMessage;
}.
Record Route := mk_route {
  ro_target : ModelDescriptor;
  ro_thinking_level : option ThinkingLevel;
  ro_state : option JsonValue;
}.
(** [VirtualModel]; a router answers with a route or the message of its error. *)
Record VirtualModel := mk_virtual {
  vm_descriptor : ModelDescriptor;
  vm_targets : list ModelDescriptor;
  vm_continuations : ContinuationPolicy;
  vm_router : RouteRequest -> string + Route;
  vm_state_namespace : option string;
  vm_state : option JsonValue;
}.
Definition approves (v : VirtualModel) (model : ModelDescriptor) : bool := bool_decide (model ∈ vm_targets v).

(** [DurableWriteRequest], without the records of cache maintenance. *)
Inductive DurableWriteRequest :=
| WriteToolResult (call : ToolCall) (result : AgentToolResult)
| WriteReplacement (replacement : CompactionReplacement)
| WriteConfiguration (update : ConfigurationUpdate)
| WriteRouterState (namespace value : string).

Inductive EffectSubject :=
| DurableWriteEffect (write : DurableWriteRequest)
| ToolExecutionEffect (call : ToolCall)
| NestedToolExecutionEffect (parent_tool_call_id : string) (call : ToolCall)
| HookInvocationEffect (hook : HookInvocation)
| ProviderRequestEffect (request : ModelRequest)
| CompactionProviderRequestEffect (operation : CompactionOperation) (request : ModelRequest).

(** [EffectAction] without the provenance, which is the same for a whole run. *)
Record EffectAction := mk_action {
  ea_id : N;
  ea_run_id : N;
  ea_subject : EffectSubject;
}.

Inductive CompactionProviderEffectOutcome :=
| CompactionRequestSucceeded (usage : option ModelUsage) (request_observation : option AdapterRequestObservation)
| CompactionRequestCancelled
| CompactionRequestFailed (message : string).

Inductive EffectOutcome :=
| DurableWriteSucceeded
| ToolExecutionSettled (raw_result result : AgentToolResult)
| HookSucceeded
| HookFailedWith (message : string)
| ProviderFailed (message : Message)
| ProviderSettled (response : ProviderResponse)
| CompactionRequestSettled (outcome : CompactionProviderEffectOutcome).

(** ** Events *)

Definition PendingToolUpdate : Type := string * string * ToolUpdate.
Inductive MessageDelta := DeltaText (text : string) | DeltaThinking (text : string).

Inductive CompactionOutcome :=
| OutcomeSucceeded (retained_message_count : nat)
| OutcomeFailed (message : string)
| OutcomeCancelled.
Inductive AutomaticCompactionOutcome :=
| AutomaticSucceeded (estimated_tokens_after : option N)
| AutomaticFailed (message : string)
| AutomaticCancelled
| AutomaticLimitReached
| AutomaticStillAboveThreshold
| AutomaticUnavailable.
Inductive ProviderRequestSkipReason := SkippedForCompaction | SkippedByCircuitBreaker.

Inductive AgentEventKind :=
| EventToolExecutionStart (tool_call_id tool_name arguments : string)
| EventToolExecutionUpdate (tool_call_id tool_name : string) (update : ToolUpdate)
| EventToolExecutionEnd (tool_call_id tool_name : string) (result : AgentToolResult)
| EventToolFailureObserved (tool_call_id : string) (disposition : ToolFailureDisposition) (signature : option string)
    (consecutive_count : N) (terminal : bool) (message : string)
| EventMessageStart (message : AgentMessage)
| EventMessageEnd (message : AgentMessage)
| EventMessageUpdate (message_id : N) (delta : MessageDelta)
| EventAgentStart
| EventTurnStart (turn_id : N)
| EventTurnEnd (turn_id : N) (reason : StopReason)
| EventAgentEnd (messages : list AgentMessage)
| EventProviderRequestObserved (turn_id : N) (observation : AdapterRequestObservation)
| EventProviderRequestSkipped (reason : ProviderRequestSkipReason)
| EventCompactionLifecycle (record : CompactionLifecycleRecord AdapterRequestObservation)
| EventCompactionStart (source_message_count : nat)
| EventCompactionResult (retained_message_count : nat) (usage : option ModelUsage)
| EventCompactionEnd (outcome : CompactionOutcome)
| EventAutomaticCompactionStart (reason : AutomaticCompactionReason) (source_message_count : nat)
    (estimated_tokens_before : option N) (retry_provider_request : bool) (count : N)
| EventAutomaticCompactionEnd (reason : AutomaticCompactionReason) (retry_provider_request : bool)
    (outcome : AutomaticCompactionOutcome)
| EventContextEstimate (estimated_context_tokens : option N) (input_bytes : N) (message_count : nat)
    (message_bytes tool_result_bytes : N)
| EventPromptLayoutObserved (turn_id : N) (measurement : PromptCacheMeasurement)
| EventModelTurnUsage (accounting : ModelTurnAccounting).

(** ** The world of a run *)

(** [RunPolicyState]. *)
Record RunPolicyState := mk_policy_state {
  ps_failure_streak : option (string * N);
  ps_automatic_compactions : N;
  ps_overflow_retries : N;
  ps_overflow_retried_this_continuation : bool;
  ps_compaction_blocked_message_count : option nat;
  ps_compaction_cancelled : bool;
  ps_routed_physical : option ModelDescriptor;
}.
Definition policy_state_default : RunPolicyState := mk_policy_state None 0 0 false None false None.
#[export] Instance policy_state_eta : Eta RunPolicyState := fun s =>
  mk_policy_state (ps_failure_streak s) (ps_automatic_compactions s) (ps_overflow_retries s)
    (ps_overflow_retried_this_continuation s) (ps_compaction_blocked_message_count s) (ps_compaction_cancelled s)
    (ps_routed_physical s).

(** [w_updates] and [w_closed] are the queue of the current [PendingToolUpdates], [w_modes] the
    modes in which steering and follow-up messages are drained.
    [w_time] counts the boundaries crossed and [w_open] holds the effects that
    were begun and not settled; both are read by no code. *)
Record RunEnv := mk_run_env {
  w_agent : CoreAgentState;
  w_run : RunState AgentEventKind;
  w_policy : RunPolicyState;
  w_cancelled : bool;
  w_next_effect_id : N;
  w_updates : list PendingToolUpdate;
  w_closed : gset string;
  w_active : option N;
  w_queues : AgentQueues;
  w_modes : QueueMode * QueueMode;
  w_ledger : PromptLayoutLedger;
  w_router_state : gmap string JsonValue;
  w_time : nat;
  w_open : gmultiset N;
}.
#[export] Instance run_env_eta : Eta RunEnv := fun w =>
  mk_run_env (w_agent w) (w_run w) (w_policy w) (w_cancelled w) (w_next_effect_id w) (w_updates w) (w_closed w)
    (w_active w) (w_queues w) (w_modes w) (w_ledger w) (w_router_state w) (w_time w) (w_open w).

(** ** Hosts *)

Inductive BeforeToolCall :=
| Allow
| Normalize (arguments : string)
| Block (reason : string)
| Terminate (reason : string).

(** What a compactor does next at its port, and what the port answered so far. *)
Inductive CompactorStep :=
| BeginRequest (request : ModelRequest)
| SettleRequest (ticket : N) (outcome : CompactionProviderEffectOutcome)
| CompactorReturns (result : CompactionError + CompactionResult AdapterRequestObservation).
Inductive PortReply := BeginReply (reply : CompactionError + N) | SettleReply (reply : CompactionError + unit).

(** What a tool execution and a hook return. *)
Definition ToolExecution_ : Type := ToolError + AgentToolResult.

Record Host := mk_host {
  (** Another thread between two boundaries. *)
  h_interfere : nat -> RunEnv -> RunEnv;
  (** [EffectGate::before] and [after]: a refusal with its message. *)
  h_gate_before : nat -> EffectAction -> option string;
  h_gate_after : nat -> EffectAction -> EffectOutcome -> option string;
  h_before_tool : nat -> ToolCall -> HookError + BeforeToolCall;
  h_after_tool : nat -> ToolCall -> AgentToolResult -> HookError + AfterToolCall;
  (** One poll of the future of a call. *)
  h_poll : nat -> ToolCall -> RunEnv -> RunEnv * option ToolExecution_;
  h_transform : nat -> ContextEnvelope -> HookError + ContextEnvelope;
  h_prepare_next_turn : nat -> ContextEnvelope -> HookError + AgentLoopTurnUpdate;
  h_should_stop : nat -> ContextEnvelope -> HookError + bool;
  (** [ModelProvider::{capabilities, stream}], and [ModelEventStream::next_event] by the number of
      events the stream has given. *)
  h_projection : nat -> option ModelDescriptor -> ConfigurationProjection;
  h_stream : nat -> ModelRequest -> option CoreError;
  h_next_event : nat -> nat -> CoreError + option ModelStreamEvent;
  (** [Compactor::{compact_with_requests, compact_automatic_with_requests}], by the replies of its port. *)
  h_compact : nat -> CompactionContext -> option AutomaticCompactionRequest -> list PortReply -> CompactorStep;
}.

(** ** Computations *)

Definition M (A : Type) : Type := RunEnv -> option (RunEnv * Outcome CoreError A).

Definition mret {A} (a : A) : M A := fun w => Some (w, Ok a).
Definition mfail {A} (e : CoreError) : M A := fun w => Some (w, Err e).
Definition mbind_ {A B} (m : M A) (k : A -> M B) : M B := fun w =>
  match m w with
  | Some (w, Ok a) => k a w
  | Some (w, Err e) => Some (w, Err e)
  | Some (w, Panic reason) => Some (w, Panic reason)
  | None => None
  end.
Definition of_outcome {A} (o : Outcome CoreError A) : M A := fun w => Some (w, o).

Declare Scope run_scope.
Delimit Scope run_scope with run.
Notation "'let!' x ':=' m 'in' k" := (mbind_ m (fun x => k))
  (at level 10, x pattern, m at level 200, k at level 200) : run_scope.
Notation "'do!' m 'in' k" := (mbind_ m (fun _ => k)) (at level 10, m at level 200, k at level 200) : run_scope.
Local Open Scope run_scope.

Section host.
Context (host : Host).

(** Another thread gets its turn. *)
Definition boundary : M nat := fun w =>
  let t := w_time w in
  Some ((h_interfere host t w) <| w_time := S t |>, Ok t).

(** A section under the agent lock, under the policy lock. *)
Definition lock_agent {A} (section : CoreAgentState -> A * CoreAgentState) : M A :=
  do! boundary in
  fun w => let '(a, agent) := section (w_agent w) in Some (w <| w_agent := agent |>, Ok a).
Definition lock_policy {A} (section : RunPolicyState -> A * RunPolicyState) : M A := fun w =>
  let '(a, policy) := section (w_policy w) in Some (w <| w_policy := policy |>, Ok a).

(** [CancellationToken::is_cancelled]. *)
Definition is_cancelled : M bool :=
  do! boundary in
  fun w => Some (w, Ok (w_cancelled w)).

(** [RunHandle::emit]: it never fails; observers have no return channel. *)
Definition emit (kind : AgentEventKind) : M unit :=
  do! boundary in
  fun w => Some (w <| w_run := (run_record_event (w_run w) kind).1 |>, Ok ()).

(** [RunHandle::begin_effect], [settle_effect], [settle_hook]. *)
Definition begin_effect (subject : EffectSubject) : M EffectAction :=
  let! t := boundary in
  fun w =>
    let action := mk_action (u64_saturating_add (w_next_effect_id w) 1) (rs_id (w_run w)) subject in
    let w := w <| w_next_effect_id := (w_next_effect_id w + 1) mod 2 ^ 64 |> in
    match h_gate_before host t action with
    | Some message => Some (w, Err (EffectGateFailed message))
    | None => Some (w <| w_open ::= fun open => open ⊎ {[+ ea_id action +]} |>, Ok action)
    end.
Definition settle_effect (action : EffectAction) (outcome : EffectOutcome) : M unit :=
  let! t := boundary in
  fun w =>
    match h_gate_after host t action outcome with
    | Some message => Some (w, Err (EffectGateFailed message))
    | None => Some (w <| w_open ::= fun open => open ∖ {[+ ea_id action +]} |>, Ok ())
    end.
Definition settle_hook {A} (action : EffectAction) (outcome : HookError + A) : M unit :=
  settle_effect action (match outcome with inl e => HookFailedWith (he_message e) | inr _ => HookSucceeded end).

(** [RunHandle::current_context]. *)
Definition current_context : M ContextEnvelope :=
  let! context := lock_agent (fun s =>
    ((match as_phase s with
      | Idle => Err (transition_error "agent" "not-running" "current_context")
      | _ => Ok (mk_envelope 1 (as_messages s) (as_host_messages s))
      end : Outcome CoreError ContextEnvelope), s)) in
  of_outcome context.

(** [PendingToolUpdates::{default, take, has_updates, close}]. *)
Definition new_updates : M unit := fun w => Some (w <| w_updates := [] |> <| w_closed := ∅ |>, Ok ()).
Definition take_updates : M (option (list PendingToolUpdate)) :=
  do! boundary in
  fun w => Some (w <| w_updates := [] |>, Ok (if is_nil (w_updates w) then None else Some (w_updates w))).
Definition has_updates : M bool :=
  do! boundary in
  fun w => Some (w, Ok (negb (is_nil (w_updates w)))).
Definition close_updates (call_id : string) : M unit :=
  do! boundary in
  fun w => Some (w <| w_closed ::= fun closed => {[call_id]} ∪ closed |>, Ok ()).

(** One poll of a tool future. *)
Definition poll_future (call : ToolCall) : M (option ToolExecution_) :=
  let! t := boundary in
  fun w => let '(w, execution) := h_poll host t call w in Some (w, Ok execution).

(** The hooks around a call. *)
Definition before_tool_call (call : ToolCall) : M (HookError + BeforeToolCall) :=
  let! t := boundary in mret (h_before_tool host t call).
Definition after_tool_call (call : ToolCall) (result : AgentToolResult) : M (HookError + AfterToolCall) :=
  let! t := boundary in mret (h_after_tool host t call result).
End host.
