(* ===== verification/ToolRun.v ===== *)
(** * tea-core: executing a batch of tool calls
    ([crates/tea-core/src/run/tool_execution.rs], and the polling of
    [run/mod.rs])

    A batch is rejected as a whole, executed call by call, or executed in
    parallel.  Calls that never reach the capability still get a result.  The
    loops that poll carry fuel: a poll that finds nothing to do ends with
    [None] when it runs out. *)

From stdpp Require Import base gmap gmultiset sets list strings.
From S2P Require Import Prelude RustStr Json Ids SessionErrors Configuration Messages Transcript TranscriptJson.
From S2P Require Import CoreState SchemaValidation Tools Compaction RequestContext AgentLifecycle Measurement RunWorld.

Local Open Scope N_scope.
Local Open Scope run_scope.

Inductive PreparedToolCall :=
| Immediate (result : AgentToolResult) (terminate : bool)
| Execute (tool : AgentTool) (effect : EffectAction).

Record PreparedToolExecution := mk_prepared {
  pe_source_index : nat;
  pe_call : ToolCall;
  pe_preparation : PreparedToolCall;
}.

Record PendingToolExecution := mk_pending {
  pt_source_index : nat;
  pt_call : ToolCall;
  pt_effect : EffectAction;
  pt_mode : CancellationSettlementMode;
}.

(** [TerminalToolFailure] is its message. *)
Record ToolBatchOutcome := mk_batch_outcome {
  bo_all_terminate : bool;
  bo_terminal_failure : option string;
}.

Inductive ToolStep :=
| StepUpdates (updates : list PendingToolUpdate)
| StepCompleted (execution : ToolExecution_) (updates : list PendingToolUpdate).

Inductive ParallelToolStep :=
| ParallelCancelled (updates : list PendingToolUpdate)
| ParallelUpdates (updates : list PendingToolUpdate)
| ParallelCompleted (completed : PendingToolExecution) (execution : ToolExecution_) (updates : list PendingToolUpdate).

Definition is_drop (mode : CancellationSettlementMode) : bool := bool_decide (mode = DropFuture).

Section run.
Context `{Miniserde} (host : Host).
(** The configuration the run captured, the circuit breaker of the agent, and
    the [Display] of an argument error and of a JSON error. *)
Context (registry : ToolRegistry) (max_consecutive_retryable_failures : option N).
Context (show_arguments : ArgumentsMessage -> string) (show_json : JsonError -> string).

(** ** Updates and results *)

(** [emit_tool_updates]. *)
Fixpoint emit_tool_updates (updates : list PendingToolUpdate) : M unit :=
  match updates with
  | [] => mret ()
  | (tool_call_id, tool_name, update) :: updates =>
      do! emit host (EventToolExecutionUpdate tool_call_id tool_name update) in
      emit_tool_updates updates
  end.

(** [flush_tool_updates]. *)
Fixpoint flush_tool_updates (fuel : nat) : M unit :=
  match fuel with
  | O => fun _ => None
  | S fuel =>
      let! updates := take_updates host in
      match updates with
      | Some updates => do! emit_tool_updates updates in flush_tool_updates fuel
      | None => mret ()
      end
  end.

(** [emit_tool_execution_end]. *)
Definition emit_tool_execution_end (call : ToolCall) (result : AgentToolResult) : M unit :=
  do! lock_agent host (fun s => ((), s <| as_pending_tool_calls ::= fun calls => calls ∖ {[cl_id call]} |>)) in
  emit host (EventToolExecutionEnd (cl_id call) (cl_name call) result).

(** [append_tool_result_message]. *)
Definition result_message (id : N) (call : ToolCall) (result : AgentToolResult) : AgentMessage :=
  ToolResult (mk_result id (cl_id call) (cl_name call) (rt_content result) (rt_details result) (rt_usage result)
    (rt_added_tool_names result) (rt_terminate result) (rt_is_error result) (rt_failure result)).
Definition append_tool_result_message (call : ToolCall) (result : AgentToolResult) : M unit :=
  let! durable_write := begin_effect host (DurableWriteEffect (WriteToolResult call result)) in
  do! settle_effect host durable_write DurableWriteSucceeded in
  let! message := lock_agent host (fun s =>
    let '(id, s) := allocate_message_id s in
    let message := result_message id call result in
    (message, append_message s message)) in
  do! emit host (EventMessageStart message) in
  emit host (EventMessageEnd message).

(** Announcing a call. *)
Definition announce (call : ToolCall) : M unit :=
  do! lock_agent host (fun s => ((), s <| as_pending_tool_calls ::= fun calls => {[cl_id call]} ∪ calls |>)) in
  emit host (EventToolExecutionStart (cl_id call) (cl_name call) (cl_arguments call)).

(** ** Preparing a call *)

(** [undeclared_tool_message]. *)
Definition declares_tool (messages : list AgentMessage) (name : string) : bool :=
  match configuration_replay messages with
  | Some configuration => reported (find_tool (ec_tools configuration) name)
  | None => false
  end.
Definition undeclared_tool_message (tool : AgentTool) : M (option string) :=
  match at_exposure tool with
  | Direct => mret None
  | exposure =>
      let! declared := lock_agent host (fun s => (declares_tool (as_messages s) (at_name tool), s)) in
      mret (match exposure with
            | Deferred =>
                if declared then None
                else Some ("Tool " +:+ at_name tool
                           +:+ " is available but not loaded. Load it with tool discovery before calling it directly.")
            | Composition =>
                Some ("Tool " +:+ at_name tool
                      +:+ " is not callable directly; it is available only inside a composition script.")
            | Direct => None
            end)
  end.

Definition refused (call : ToolCall) (message : string) : PreparedToolCall :=
  Immediate (error_tool_result call message) false.

(** [prepare_tool_call_for]: the call, whose arguments a hook may replace, and its preparation. *)
Definition exposure_message (tool : AgentTool) (call : ToolCall) (nested_parent : option string) : M (option string) :=
  match nested_parent with
  | None => undeclared_tool_message tool
  | Some _ =>
      mret (if negb (at_script_callable tool) || negb (bool_decide (at_composition_access tool = NoComposition))
            then Some ("Tool " +:+ cl_name call +:+ " cannot be called from a script") else None)
  end.
Definition execute_prepared (tool : AgentTool) (call : ToolCall) (nested_parent : option string) :
    M (ToolCall * PreparedToolCall) :=
  match validate_tool_arguments (cl_name call) (at_schema tool) (cl_arguments call) with
  | Err (InvalidArguments tool_name message) =>
      mret (call, Immediate (error_tool_result_from_error call (ToolInvalidArguments tool_name (show_arguments message)))
                    false)
  | Panic reason => of_outcome (Panic reason)
  | Ok _ =>
      let! cancelled := is_cancelled host in
      if cancelled then mret (call, Immediate (aborted_tool_result call) false)
      else
        let! effect := begin_effect host
          (match nested_parent with
           | None => ToolExecutionEffect call
           | Some parent => NestedToolExecutionEffect parent call
           end) in
        mret (call, Execute tool effect)
  end.
Definition prepare_tool_call_for (call : ToolCall) (nested_parent : option string) : M (ToolCall * PreparedToolCall) :=
  match registry_get registry (cl_name call) with
  | None => mret (call, refused call ("Tool " +:+ cl_name call +:+ " not found"))
  | Some tool =>
      let! exposure := exposure_message tool call nested_parent in
      match exposure with
      | Some message => mret (call, refused call message)
      | None =>
          match json_parse (cl_arguments call) with
          | Err error =>
              mret (call, refused call ("Tool " +:+ cl_name call +:+ " received invalid JSON arguments: " +:+ show_json error))
          | Panic reason => of_outcome (Panic reason)
          | Ok _ =>
              do! current_context host in
              let! before_tool_effect :=
                begin_effect host (HookInvocationEffect (BeforeTool (cl_id call) (cl_name call))) in
              let! before := before_tool_call host call in
              do! settle_hook host before_tool_effect before in
              match before with
              | inr Allow => execute_prepared tool call nested_parent
              | inr (Normalize arguments) =>
                  execute_prepared tool (mk_tool_call (cl_id call) (cl_name call) arguments) nested_parent
              | inr (Block reason) => mret (call, Immediate (error_tool_result call reason) false)
              | inr (Terminate reason) => mret (call, Immediate (error_tool_result call reason) true)
              | inl error => mret (call, Immediate (error_tool_result call (he_message error)) false)
              end
          end
      end
  end.

(** ** Polling *)

Definition cancelled_operation : ToolExecution_ := inl (ToolCancelled "cancelled operation").

(** [next_tool_step]; a poll without a result is repeated. *)
Definition cancelled_step (call : ToolCall) (updates : M (list PendingToolUpdate)) : M ToolStep :=
  do! close_updates host (cl_id call) in
  let! updates := updates in
  mret (StepCompleted cancelled_operation updates).
Definition taken : M (list PendingToolUpdate) :=
  let! updates := take_updates host in mret (default [] updates).
Fixpoint next_tool_step (fuel : nat) (call : ToolCall) (allow_one_poll : bool) (mode : CancellationSettlementMode) :
    M ToolStep :=
  match fuel with
  | O => fun _ => None
  | S fuel =>
      let! cancelled := is_cancelled host in
      if cancelled && negb allow_one_poll && is_drop mode then cancelled_step call taken
      else
        let! updates := take_updates host in
        match updates with
        | Some updates => mret (StepUpdates updates)
        | None =>
            let! updates := take_updates host in
            match updates with
            | Some updates => mret (StepUpdates updates)
            | None =>
                let! cancelled := is_cancelled host in
                if cancelled && negb allow_one_poll && is_drop mode then cancelled_step call taken
                else
                  let! execution := poll_future host call in
                  match execution with
                  | Some execution =>
                      do! close_updates host (cl_id call) in
                      let! updates := taken in
                      mret (StepCompleted execution updates)
                  | None =>
                      let! updates := take_updates host in
                      match updates with
                      | Some updates => mret (StepUpdates updates)
                      | None =>
                          let! cancelled := is_cancelled host in
                          if cancelled && is_drop mode then cancelled_step call (mret [])
                          else next_tool_step fuel call allow_one_poll mode
                      end
                  end
            end
        end
  end.

(** The loop of [execute_one_tool_call]. *)
Fixpoint drive_tool (fuel : nat) (call : ToolCall) (allow_one_poll : bool) (mode : CancellationSettlementMode) :
    M ToolExecution_ :=
  match fuel with
  | O => fun _ => None
  | S rounds =>
      let! next := next_tool_step fuel call allow_one_poll mode in
      match next with
      | StepUpdates updates =>
          do! emit_tool_updates updates in
          let! cancelled := is_cancelled host in
          drive_tool rounds call cancelled mode
      | StepCompleted execution updates =>
          do! emit_tool_updates updates in
          mret execution
      end
  end.

(** [finalize_executed_tool]. *)
Definition raw_result (call : ToolCall) (execution : ToolExecution_) : AgentToolResult :=
  match execution with
  | inr result =>
      if String.eqb (rt_tool_call_id result) (cl_id call) then result
      else error_tool_result call
             ("Tool " +:+ cl_name call +:+ " returned mismatched tool-call ID " +:+ rt_tool_call_id result)
  | inl error => error_tool_result_from_error call error
  end.
Definition finalize_executed_tool (call : ToolCall) (effect : EffectAction) (execution : ToolExecution_) :
    M (AgentToolResult * bool) :=
  let raw := raw_result call execution in
  do! current_context host in
  let! after_tool_effect := begin_effect host (HookInvocationEffect (AfterTool (cl_id call) (cl_name call))) in
  let! after := after_tool_call host call raw in
  do! settle_hook host after_tool_effect after in
  let '(result, terminate) :=
    match after with
    | inr after => let result := apply_after_tool_call raw after in (result, rt_terminate result)
    | inl error => (error_tool_result call (he_message error), false)
    end in
  do! settle_effect host effect (ToolExecutionSettled raw result) in
  mret (result, terminate).

(** [execute_one_tool_call]; [start_tool_future] makes no step of the run. *)
Definition execute_one_tool_call (fuel : nat) (call : ToolCall) : M (ToolCall * (AgentToolResult * bool)) :=
  let! (call, prepared) := prepare_tool_call_for call None in
  match prepared with
  | Immediate result terminate => mret (call, (result, terminate))
  | Execute tool effect =>
      do! new_updates in
      let! cancelled := is_cancelled host in
      let! updated := (if cancelled then has_updates host else mret false) in
      let! execution := drive_tool fuel call (cancelled && updated) (at_cancellation_settlement_mode tool) in
      do! flush_tool_updates fuel in
      let! finished := finalize_executed_tool call effect execution in
      mret (call, finished)
  end.

(** ** The circuit breaker *)

(** [observe_tool_failure]: the count of the streak, whether it ends the run, and the streak. *)
Definition next_streak (failure : ToolFailure) (streak : option (string * N)) : (N * bool) * option (string * N) :=
  match tf_disposition failure, tf_signature failure with
  | FailureRetryable, Some signature =>
      let count := match streak with
                   | Some (previous, count) =>
                       if String.eqb previous signature then u32_saturating_add count 1 else 1
                   | None => 1
                   end in
      ((count, match max_consecutive_retryable_failures with Some limit => limit <=? count | None => false end),
       Some (signature, count))
  | FailureFatal, Some signature => ((1, true), Some (signature, 1))
  | _, _ => ((0, false), None)
  end.
Definition observes (failure : ToolFailure) : bool :=
  match tf_disposition failure with
  | FailureRetryable | FailureFatal => true
  | _ => reported max_consecutive_retryable_failures
  end.
Definition observe_tool_failure (call : ToolCall) (result : AgentToolResult) : M (option string) :=
  let! cancelled := is_cancelled host in
  if cancelled then mret None
  else if negb (rt_is_error result) then
    do! lock_policy (fun p => ((), p <| ps_failure_streak := None |>)) in
    mret None
  else
    let failure := default failure_recoverable (rt_failure result) in
    let! (consecutive_count, terminal) := lock_policy (fun p =>
      let '(observed, streak) := next_streak failure (ps_failure_streak p) in
      (observed, p <| ps_failure_streak := streak |>)) in
    let message := truncate_middle (default (rt_content result) (tf_recovery_guidance failure)) 1024 in
    if negb (observes failure) then mret (if terminal : bool then Some message else None)
    else
      do! emit host (EventToolFailureObserved (cl_id call) (tf_disposition failure) (tf_signature failure)
                       consecutive_count terminal message) in
      mret (if terminal : bool then Some message else None).

(** ** Sequential batches *)

(** [append_skipped_sequential_calls]. *)
Fixpoint append_skipped_sequential_calls (calls : list AgentToolCall) (bounded : string) : M unit :=
  match calls with
  | [] => mret ()
  | assistant_call :: calls =>
      let call := call_of assistant_call in
      do! append_tool_result_message call
            (with_failure
               (error_tool_result call
                  ("Tool call was not executed after terminal capability failure: " +:+ bounded))
               (Some failure_recoverable)) in
      append_skipped_sequential_calls calls bounded
  end.

(** [execute_tool_calls_sequential]. *)
Fixpoint execute_sequential (fuel : nat) (calls : list AgentToolCall) (all_terminate : bool) : M ToolBatchOutcome :=
  match calls with
  | [] => mret (mk_batch_outcome all_terminate None)
  | assistant_call :: calls =>
      let call := call_of assistant_call in
      do! announce call in
      let! (call, (result, terminate)) := execute_one_tool_call fuel call in
      let result := normalize_result_failure result in
      do! emit_tool_execution_end call result in
      do! append_tool_result_message call result in
      let! terminal_failure := observe_tool_failure call result in
      match terminal_failure with
      | Some message =>
          do! append_skipped_sequential_calls calls (truncate_middle message 512) in
          mret (mk_batch_outcome false (Some message))
      | None => execute_sequential fuel calls (all_terminate && terminate)
      end
  end.

(** ** Rejected batches *)

(** [reject_exclusive_tool_batch]. *)
Fixpoint append_rejections (calls : list AgentToolCall) (message : string) : M unit :=
  match calls with
  | [] => mret ()
  | assistant_call :: calls =>
      let call := call_of assistant_call in
      do! append_tool_result_message call (error_tool_result call message) in
      append_rejections calls message
  end.
Definition reject_exclusive_tool_batch (calls : list AgentToolCall) (exclusive : list string) : M ToolBatchOutcome :=
  do! append_rejections calls
        (join ", " exclusive +:+ " must be the only tool call in an assistant batch. No calls in this batch were executed; retry the transactional request alone.") in
  mret (mk_batch_outcome false None).

(** ** Parallel batches *)

Definition Completion : Type := AgentToolResult * bool.

(** [completions[index] = Some(completion)]. *)
Definition complete (completions : list (option Completion)) (index : nat) (completion : Completion) :
    M (list (option Completion)) :=
  if (index <? length completions)%nat then mret (<[index := Some completion]> completions)
  else of_outcome (Panic "index out of bounds").

(** The loop that announces and prepares the calls in source order. *)
Fixpoint prepare_batch (index : nat) (calls : list AgentToolCall) (completions : list (option Completion)) :
    M (list PreparedToolExecution * list (option Completion)) :=
  match calls with
  | [] => mret ([], completions)
  | assistant_call :: calls =>
      let call := call_of assistant_call in
      do! announce call in
      let! (call, preparation) := prepare_tool_call_for call None in
      match preparation with
      | Immediate result terminate =>
          let result := normalize_result_failure result in
          do! emit_tool_execution_end call result in
          let! completions := complete completions index (result, terminate) in
          let! (prepared, completions) := prepare_batch (S index) calls completions in
          mret (mk_prepared index call (Immediate result terminate) :: prepared, completions)
      | Execute tool effect =>
          let! (prepared, completions) := prepare_batch (S index) calls completions in
          mret (mk_prepared index call (Execute tool effect) :: prepared, completions)
      end
  end.

(** The futures of the calls that are executed. *)
Definition pending_of (prepared : PreparedToolExecution) : option PendingToolExecution :=
  match pe_preparation prepared with
  | Execute tool effect =>
      Some (mk_pending (pe_source_index prepared) (pe_call prepared) effect (at_cancellation_settlement_mode tool))
  | Immediate _ _ => None
  end.

(** [Vec::swap_remove]: the last element takes the place of the removed one. *)
Definition swap_remove {A} (index : nat) (l : list A) : list A :=
  match last l with
  | Some final => take (length l - 1) (<[index := final]> l)
  | None => l
  end.

Definition awaits (pending : list PendingToolExecution) : bool :=
  existsb (fun p => negb (is_drop (pt_mode p))) pending.

(** The inner loop of [next_parallel_step]: a step, what is pending and what may still be polled once. *)
Definition Polled : Type := option ParallelToolStep * (list PendingToolExecution * gset string).
Fixpoint poll_each (rounds index : nat) (pending : list PendingToolExecution) (allowed : gset string) : M Polled :=
  match rounds with
  | O => mret (None, (pending, allowed))
  | S rounds =>
      match pending !! index with
      | None => mret (None, (pending, allowed))
      | Some p =>
          let! cancelled := is_cancelled host in
          if cancelled && is_drop (pt_mode p) && negb (mem (cl_id (pt_call p)) allowed)
          then poll_each rounds (S index) pending allowed
          else
            let allowed := if cancelled && is_drop (pt_mode p) then allowed ∖ {[cl_id (pt_call p)]} else allowed in
            let! execution := poll_future host (pt_call p) in
            match execution with
            | Some execution =>
                do! close_updates host (cl_id (pt_call p)) in
                let! updates := taken in
                mret (Some (ParallelCompleted p execution updates), (swap_remove index pending, allowed))
            | None =>
                let! updates := take_updates host in
                match updates with
                | Some updates => mret (Some (ParallelUpdates updates), (pending, allowed))
                | None => poll_each rounds (S index) pending allowed
                end
            end
      end
  end.

(** [next_parallel_step]; a poll without a step is repeated. *)
Fixpoint next_parallel_step (fuel : nat) (pending : list PendingToolExecution) (allowed : gset string) :
    M (ParallelToolStep * (list PendingToolExecution * gset string)) :=
  match fuel with
  | O => fun _ => None
  | S fuel =>
      let! updates := take_updates host in
      match updates with
      | Some updates => mret (ParallelUpdates updates, (pending, allowed))
      | None =>
          let! cancelled := is_cancelled host in
          if cancelled && bool_decide (allowed = ∅) && negb (awaits pending)
          then mret (ParallelCancelled [], (pending, allowed))
          else
            let! updates := take_updates host in
            match updates with
            | Some updates => mret (ParallelUpdates updates, (pending, allowed))
            | None =>
                let! cancelled := is_cancelled host in
                if cancelled && bool_decide (allowed = ∅) && negb (awaits pending)
                then let! updates := taken in mret (ParallelCancelled updates, (pending, allowed))
                else
                  let! (step, (pending, allowed)) := poll_each (length pending) 0 pending allowed in
                  match step with
                  | Some step => mret (step, (pending, allowed))
                  | None =>
                      let! cancelled := is_cancelled host in
                      if cancelled && negb (awaits pending)
                      then let! updates := taken in mret (ParallelCancelled updates, (pending, allowed))
                      else
                        let! updates := take_updates host in
                        match updates with
                        | Some updates => mret (ParallelUpdates updates, (pending, allowed))
                        | None => next_parallel_step fuel pending allowed
                        end
                  end
            end
      end
  end.

(** The result of a call that cancellation dropped. *)
Definition settle_aborted (p : PendingToolExecution) : M AgentToolResult :=
  let result := aborted_tool_result (pt_call p) in
  do! settle_effect host (pt_effect p) (ToolExecutionSettled result result) in
  mret result.

(** The branch [ParallelToolStep::Cancelled]. *)
Fixpoint drop_pending (pending : list PendingToolExecution) (completions : list (option Completion)) :
    M (list (option Completion)) :=
  match pending with
  | [] => mret completions
  | p :: pending =>
      do! close_updates host (cl_id (pt_call p)) in
      let! result := settle_aborted p in
      do! emit_tool_execution_end (pt_call p) result in
      let! completions := complete completions (pt_source_index p) (result, false) in
      drop_pending pending completions
  end.

(** The siblings of the calls whose update came with a cancellation: polled once, then settled. *)
Fixpoint settle_siblings (fuel : nat) (pending : list PendingToolExecution) (update_call_ids : gset string)
    (completions : list (option Completion)) : M (list PendingToolExecution * list (option Completion)) :=
  match pending with
  | [] => mret ([], completions)
  | p :: pending =>
      if negb (is_drop (pt_mode p)) || mem (cl_id (pt_call p)) update_call_ids then
        let! (still_running, completions) := settle_siblings fuel pending update_call_ids completions in
        mret (p :: still_running, completions)
      else
        let! execution := poll_future host (pt_call p) in
        do! close_updates host (cl_id (pt_call p)) in
        do! flush_tool_updates fuel in
        let! (result, terminate) :=
          (match execution with
           | Some execution => finalize_executed_tool (pt_call p) (pt_effect p) execution
           | None => let! result := settle_aborted p in mret (result, false)
           end) in
        do! emit_tool_execution_end (pt_call p) result in
        let! completions := complete completions (pt_source_index p) (result, terminate) in
        settle_siblings fuel pending update_call_ids completions
  end.

(** The [while] loop of [execute_tool_calls_parallel]. *)
Definition update_ids (updates : list PendingToolUpdate) : gset string := list_to_set (map (fun u => u.1.1) updates).
Fixpoint drive_parallel (fuel rounds : nat) (pending : list PendingToolExecution) (allowed : gset string)
    (completions : list (option Completion)) : M (list (option Completion)) :=
  match pending with
  | [] => mret completions
  | _ =>
      match rounds with
      | O => fun _ => None
      | S rounds =>
          let! (step, (pending, allowed)) := next_parallel_step fuel pending allowed in
          match step with
          | ParallelCancelled updates =>
              do! emit_tool_updates updates in
              let! completions := drop_pending pending completions in
              drive_parallel fuel rounds [] allowed completions
          | ParallelUpdates updates =>
              do! emit_tool_updates updates in
              let! cancelled := is_cancelled host in
              if cancelled then
                let! (pending, completions) := settle_siblings fuel pending (update_ids updates) completions in
                let kept := List.filter (fun p => mem (cl_id (pt_call p)) (update_ids updates)) pending in
                drive_parallel fuel rounds pending (allowed ∪ list_to_set (map (fun p => cl_id (pt_call p)) kept)) completions
              else drive_parallel fuel rounds pending allowed completions
          | ParallelCompleted completed execution updates =>
              do! emit_tool_updates updates in
              let! (result, terminate) := finalize_executed_tool (pt_call completed) (pt_effect completed) execution in
              do! flush_tool_updates fuel in
              do! emit_tool_execution_end (pt_call completed) result in
              let! completions := complete completions (pt_source_index completed) (result, terminate) in
              drive_parallel fuel rounds pending allowed completions
          end
      end
  end.

(** The loop that appends the results in source order. *)
Fixpoint record_results (prepared : list PreparedToolExecution) (completions : list (option Completion))
    (all_terminate : bool) (terminal_failure : option string) : M ToolBatchOutcome :=
  match prepared with
  | [] => mret (mk_batch_outcome all_terminate terminal_failure)
  | p :: prepared =>
      match completions !! pe_source_index p with
      | Some (Some (result, terminate)) =>
          let result := normalize_result_failure result in
          do! append_tool_result_message (pe_call p) result in
          let! observed := observe_tool_failure (pe_call p) result in
          record_results prepared (<[pe_source_index p := None]> completions) (all_terminate && terminate)
            (match terminal_failure with Some _ => terminal_failure | None => observed end)
      | Some None => of_outcome (Panic "each prepared tool call must have exactly one completion")
      | None => of_outcome (Panic "index out of bounds")
      end
  end.

(** [execute_tool_calls_parallel]. *)
Definition execute_parallel (fuel : nat) (calls : list AgentToolCall) : M ToolBatchOutcome :=
  do! new_updates in
  let! (prepared, completions) := prepare_batch 0 calls (replicate (length calls) None) in
  let! completions := drive_parallel fuel fuel (omap pending_of prepared) ∅ completions in
  record_results prepared completions true None.

(** ** The batch *)

(** [execute_tool_calls]. *)
Definition exclusive_names (calls : list AgentToolCall) : list string :=
  omap (fun call =>
    match registry_get registry (tc_name call) with
    | Some tool => if at_requires_exclusive_batch tool then Some (at_name tool) else None
    | None => None
    end) calls.
Definition has_sequential_tool (calls : list AgentToolCall) : bool :=
  existsb (fun call =>
    match registry_get registry (tc_name call) with
    | Some tool => bool_decide (at_execution_mode tool = Sequential)
    | None => false
    end) calls.
Definition execute_tool_calls (fuel : nat) (calls : list AgentToolCall) : M ToolBatchOutcome :=
  if (1 <? length calls)%nat && negb (is_nil (exclusive_names calls))
  then reject_exclusive_tool_batch calls (exclusive_names calls)
  else if has_sequential_tool calls then execute_sequential fuel calls true
  else execute_parallel fuel calls.
End run.
