(* ===== verification/ToolRunProofs.v ===== *)
(** * tea-core: a batch of tool calls always ends, with one result per call

    Total correctness of [execute_tool_calls]: against every host that stops
    interfering and finishes its tools eventually, the batch returns without a
    panic, whatever the interleaving of progress reports and cancellation.  The
    conversation is then complete in the sense of the structural check; a nested
    call that a cancelled composition tool had started is the exception. *)

From stdpp Require Import base gmap gmultiset sets list strings.
From S2P Require Import Prelude RustStr Json Ids SessionErrors Configuration Messages Transcript TranscriptJson.
From S2P Require Import SchemaValidation SchemaProofs CoreState Tools Compaction CompactionProofs RequestContext AgentLifecycle Measurement.
From S2P Require Import RunWorld ToolRun.

Local Open Scope run_scope.

(** ** Weakest preconditions *)

(** The computation returns; [Q] holds of its value, [E] of the world after an error. *)
Definition wp {A} (m : M A) (Q : A -> RunEnv -> Prop) (E : RunEnv -> Prop) (w : RunEnv) : Prop :=
  match m w with
  | Some (w', Ok a) => Q a w'
  | Some (w', Err _) => E w'
  | Some (_, Panic _) | None => False
  end.

Lemma wp_ret {A} (a : A) (Q : A -> RunEnv -> Prop) E w : Q a w -> wp (mret a) Q E w.
Proof. done. Qed.

Lemma wp_ret_bind {A B} (a : A) (k : A -> M B) Q E w : wp (k a) Q E w -> wp (mbind_ (mret a) k) Q E w.
Proof. done. Qed.

Lemma wp_mono {A} (m : M A) (Q Q' : A -> RunEnv -> Prop) (E E' : RunEnv -> Prop) w :
  wp m Q' E' w -> (forall w', E' w' -> E w') -> (forall a w', Q' a w' -> Q a w') -> wp m Q E w.
Proof. unfold wp. destruct (m w) as [[w' [a|e|r]]|]; auto. Qed.

Lemma wp_bind {A B} (m : M A) (k : A -> M B) Q (Q' : A -> RunEnv -> Prop) E E' w :
  wp m Q' E' w -> (forall w', E' w' -> E w') -> (forall a w', Q' a w' -> wp (k a) Q E w') -> wp (mbind_ m k) Q E w.
Proof. unfold wp, mbind_. intros Hm HE HQ. destruct (m w) as [[w' [a|e|r]]|]; [by apply HQ|by apply HE|done..]. Qed.

(** ** Hosts that settle down *)

(** The messages of the agent and the identity of its next one; who owns the agent and where the
    run stands. *)
Definition agent_talk (s : CoreAgentState) : list AgentMessage * N := (as_messages s, as_next_message_id s).
Definition talk (w : RunEnv) : list AgentMessage * N := agent_talk (w_agent w).
Definition life (w : RunEnv) : option N * (N * RunPhase * option N) :=
  (active_owner (w_agent w), (rs_id (w_run w), rs_phase (w_run w), rs_turn_id (w_run w))).
Definition scene (w : RunEnv) := (talk w, life w).

(** Other threads leave the conversation, the ownership and the effects of the run alone and
    never take a cancellation back; from boundary [D] on, progress is reported only by tools that are polled,
    and a polled tool is finished.  Tools that are polled make no nested calls. *)
Record settles_down (host : Host) (D : nat) : Prop := {
  sd_scene t w : scene (h_interfere host t w) = scene w;
  sd_open t w : w_open (h_interfere host t w) = w_open w;
  sd_cancelled t w : w_cancelled w = true -> w_cancelled (h_interfere host t w) = true;
  sd_updates t w : (D <= t)%nat -> w_updates (h_interfere host t w) = w_updates w;
  sd_poll_scene t call w : scene (h_poll host t call w).1 = scene w;
  sd_poll_open t call w : w_open (h_poll host t call w).1 = w_open w;
  sd_poll_cancelled t call w : w_cancelled w = true -> w_cancelled (h_poll host t call w).1 = true;
  sd_poll_time t call w : w_time (h_poll host t call w).1 = w_time w;
  sd_poll_ready t call w : (D <= t)%nat -> is_Some (h_poll host t call w).2;
}.

(** ** The answers of a batch *)

(** The message is the result of the call; the messages are the results of the calls, numbered from [id]. *)
Definition answers_call (id : N) (call : AgentToolCall) (message : AgentMessage) : Prop :=
  exists result, rt_tool_call_id result = tc_id call /\ message = result_message id (call_of call) result.
Fixpoint answered (id : N) (calls : list AgentToolCall) (added : list AgentMessage) (next : N) : Prop :=
  match calls, added with
  | [], [] => next = id
  | call :: calls, message :: added => answers_call id call message /\ answered (u64_saturating_add id 1) calls added next
  | _, _ => False
  end.

Lemma answered_app id calls added mid calls' added' next :
  answered id calls added mid -> answered mid calls' added' next -> answered id (calls ++ calls') (added ++ added') next.
Proof.
  revert id added. induction calls as [|c calls IH]; intros id [|m added]; cbn; [by intros ->|done..|].
  intros [Hm Ha] Hb. split; [done|by apply IH].
Qed.

(** A call as hooks leave it: its arguments may differ. *)
Definition same_call (call : ToolCall) (source : AgentToolCall) : Prop :=
  cl_id call = tc_id source /\ cl_name call = tc_name source.

Lemma same_call_of c : same_call (call_of c) c.
Proof. done. Qed.

Lemma answers_same c call id r : same_call call c -> rt_tool_call_id r = tc_id c -> answers_call id c (result_message id call r).
Proof. intros [Hi Hn] Hr. exists r. split; [done|]. unfold result_message. by rewrite Hi, Hn. Qed.

Lemma normalize_id r : rt_tool_call_id (normalize_result_failure r) = rt_tool_call_id r.
Proof. unfold normalize_result_failure, with_failure. by repeat case_match. Qed.

Lemma error_from_error_id call e : rt_tool_call_id (error_tool_result_from_error call e) = cl_id call.
Proof. done. Qed.

Lemma raw_result_id call execution : rt_tool_call_id (raw_result call execution) = cl_id call.
Proof. unfold raw_result. destruct execution as [e|r]; [done|]. by destruct (String.eqb_spec (rt_tool_call_id r) (cl_id call)). Qed.

(** Recording an event does not move the run. *)
Lemma record_event_life {K} (r : RunState K) kind :
  (rs_id (run_record_event r kind).1, rs_phase (run_record_event r kind).1, rs_turn_id (run_record_event r kind).1)
  = (rs_id r, rs_phase r, rs_turn_id r).
Proof. unfold run_record_event. cbn. by destruct (_ =? _)%nat. Qed.

Lemma validate_tool_arguments_no_panic `{Miniserde} tool schema text r :
  validate_tool_arguments tool schema text <> Panic r.
Proof.
  unfold validate_tool_arguments.
  destruct (validate_schema (json_height schema) schema) as [[]|m|p] eqn:Hs; cbn [map_err obind]; [|done|].
  2:{ by apply validate_schema_no_panic in Hs. }
  destruct (json_parse_result text) as [(v & -> & Hf)|[e He]]; [|by rewrite He]. cbn [map_err obind].
  destruct (validated_decides (E:=ArgumentsError) _ schema v EmptyString Hs) as (errors & -> & _). cbn [obind].
  destruct errors as [|e errors]; [done|].
  destruct (write_pretty_finite v 0 Hf) as [received Hr]. unfold to_json_string_pretty. by rewrite Hr.
Qed.

(** ** Bookkeeping of a parallel batch *)

Lemma swap_remove_Permutation {A} (l : list A) i x : l !! i = Some x -> x :: swap_remove i l ≡ₚ l.
Proof.
  intros Hi. unfold swap_remove. destruct l as [|z l _] using rev_ind; [done|]. rewrite last_snoc, length_app. cbn [length].
  replace (length l + 1 - 1)%nat with (length l) by lia.
  destruct (decide (i < length l)%nat) as [Hl|Hl].
  - rewrite lookup_app_l in Hi by done. rewrite insert_app_l, take_app_length' by (rewrite ?length_insert; done).
    rewrite (insert_take_drop l i z) by done. rewrite <- (take_drop_middle l i x Hi) at 3. solve_Permutation.
  - pose proof (lookup_lt_Some _ _ _ Hi) as Hlt. rewrite length_app in Hlt. cbn in Hlt.
    assert (i = length l) as -> by lia. rewrite list_lookup_middle in Hi by done. simplify_eq.
    rewrite insert_app_r_alt by lia. replace (length l - length l)%nat with O by lia. cbn.
    rewrite take_app_length. apply Permutation_cons_append.
Qed.

Definition effect_ids (pending : list PendingToolExecution) : gmultiset N :=
  list_to_set_disj (map (fun p => ea_id (pt_effect p)) pending).

Lemma effect_ids_perm l k : l ≡ₚ k -> effect_ids l = effect_ids k.
Proof. intros Hp. unfold effect_ids. by rewrite Hp. Qed.

Lemma effect_ids_settle o p pending :
  (o ⊎ effect_ids (p :: pending)) ∖ {[+ ea_id (pt_effect p) +]} = o ⊎ effect_ids pending.
Proof.
  unfold effect_ids. rewrite map_cons, list_to_set_disj_cons. generalize (list_to_set_disj (C:=gmultiset N) (map (fun p => ea_id (pt_effect p)) pending)).
  intros ids. multiset_solver.
Qed.

(** The call an execution belongs to; a completion that belongs to the call. *)
Definition serves (calls : list AgentToolCall) (p : PendingToolExecution) : Prop :=
  exists c, calls !! pt_source_index p = Some c /\ same_call (pt_call p) c.
Definition filled (completions : list (option Completion)) (i : nat) (c : AgentToolCall) : Prop :=
  exists r t, completions !! i = Some (Some (r, t)) /\ rt_tool_call_id r = tc_id c.

(** Every call has its completion or is still pending. *)
Record covers (calls : list AgentToolCall) (pending : list PendingToolExecution) (completions : list (option Completion)) :
    Prop := {
  cv_length : length completions = length calls;
  cv_serves : Forall (serves calls) pending;
  cv_calls i c : calls !! i = Some c -> filled completions i c \/ i ∈ map pt_source_index pending;
}.

Lemma covers_perm calls l k completions : l ≡ₚ k -> covers calls l completions -> covers calls k completions.
Proof.
  intros Hp [Hl Hs Hc]. constructor; [done|by rewrite <- Hp|]. intros i c Hi.
  destruct (Hc i c Hi) as [Hf|He]; [by left|right]. by rewrite <- Hp.
Qed.

Lemma wp_complete calls p pending completions r t w E :
  covers calls (p :: pending) completions -> rt_tool_call_id r = cl_id (pt_call p) ->
  wp (complete completions (pt_source_index p) (r, t)) (fun completions' w' => w' = w /\ covers calls pending completions') E w.
Proof.
  intros [Hl Hs Hc] Hr. apply Forall_cons in Hs as [(c & Hp & [Hid _]) Hs]. unfold complete.
  pose proof (lookup_lt_Some _ _ _ Hp) as Hlt. destruct (Nat.ltb_spec (pt_source_index p) (length completions)); [|lia].
  apply wp_ret. split; [done|]. constructor; [by rewrite length_insert|done|]. intros i c' Hi.
  destruct (decide (i = pt_source_index p)) as [->|Hne].
  - left. exists r, t. rewrite list_lookup_insert_eq by done. split; [done|]. by simplify_eq; rewrite Hr.
  - destruct (Hc i c' Hi) as [(r' & t' & Hf & Hr')|He].
    + left. exists r', t'. by rewrite list_lookup_insert_ne.
    + right. cbn in He. set_solver.
Qed.

(** The prepared calls are the calls from [index] on. *)
Fixpoint prepared_in_order (index : nat) (rest : list AgentToolCall) (prepared : list PreparedToolExecution) : Prop :=
  match rest, prepared with
  | [], [] => True
  | c :: rest, p :: prepared => pe_source_index p = index /\ same_call (pe_call p) c /\ prepared_in_order (S index) rest prepared
  | _, _ => False
  end.

Lemma prepared_serves before rest prepared :
  prepared_in_order (length before) rest prepared -> Forall (serves (before ++ rest)) (omap pending_of prepared).
Proof.
  revert before prepared. induction rest as [|c rest IH]; intros before [|p prepared] Hp; [by apply Forall_nil_2|done..|].
  destruct Hp as (Hi & Hc & Hp). rewrite (cons_middle c), app_assoc.
  assert (Hrest : Forall (serves ((before ++ [c]) ++ rest)) (omap pending_of prepared)).
  { apply IH. rewrite length_app, Nat.add_1_r. done. }
  cbn [omap list_omap]. unfold pending_of at 1. destruct (pe_preparation p); [done|]. constructor; [|done].
  exists c. split; [|done]. cbn. rewrite Hi, <- app_assoc. by apply list_lookup_middle.
Qed.

Section proofs.
Context `{Miniserde} (host : Host) (D fuel : nat).
Context (Hhost : settles_down host D) (Hfuel : (2 * D + 1 < fuel)%nat).
Context (registry : ToolRegistry) (max_consecutive_retryable_failures : option N).
Context (show_arguments : ArgumentsMessage -> string) (show_json : JsonError -> string).

(** What the host may still do before the next step that ends a wait. *)
Definition unrest (w : RunEnv) : nat := 2 * (D - w_time w) + (if is_nil (w_updates w) then 0 else 1).

Lemma unrest_bounds w : (2 * (D - w_time w) <= unrest w <= 2 * (D - w_time w) + 1)%nat.
Proof. unfold unrest. case_match; lia. Qed.
Lemma unrest_drained w : w_updates w = [] -> unrest w = (2 * (D - w_time w))%nat.
Proof. unfold unrest. intros ->. cbn [is_nil]. lia. Qed.
Lemma unrest_same w w' : w_time w' = w_time w -> w_updates w' = w_updates w -> unrest w' = unrest w.
Proof. unfold unrest. by intros -> ->. Qed.

Lemma unrest_fuel w : (unrest w < fuel)%nat.
Proof. pose proof (unrest_bounds w). lia. Qed.

(** From [w] to [w'] no message is added and the open effects become [open]. *)
Record moved (calm : bool) (w : RunEnv) (open : gmultiset N) (w' : RunEnv) : Prop := {
  mv_scene : scene w' = scene w;
  mv_open : w_open w' = open;
  mv_cancelled : w_cancelled w = true -> w_cancelled w' = true;
  mv_time : (w_time w <= w_time w')%nat;
  mv_unrest : calm = true -> (unrest w' <= unrest w)%nat;
}.

Lemma moved_refl w : moved true w (w_open w) w.
Proof. by constructor. Qed.

Lemma moved_trans a b w1 w2 w3 o2 o3 : moved a w1 o2 w2 -> moved b w2 o3 w3 -> moved (a && b) w1 o3 w3.
Proof.
  intros [] []. constructor; [congruence|done|auto|lia|]. intros [-> ->]%andb_true_iff.
  etrans; [|by auto]. auto.
Qed.

Lemma moved_calm w1 w2 w3 o2 o3 : moved true w1 o2 w2 -> moved true w2 o3 w3 -> moved true w1 o3 w3.
Proof. apply (moved_trans true true). Qed.

(** With the queue empty the unrest is only the time left. *)
Lemma moved_drained b w o w' : moved b w o w' -> w_updates w' = [] -> moved true w o w'.
Proof. intros [] Hu. constructor; [done..|]. intros _. rewrite (unrest_drained _ Hu).
  pose proof (unrest_bounds w). lia. Qed.

(** The error case of every step that adds no message. *)
Definition unchanged (w w' : RunEnv) : Prop := scene w' = scene w.

Lemma unchanged_moved b w o w1 w2 : moved b w o w1 -> unchanged w1 w2 -> unchanged w w2.
Proof. unfold unchanged. intros [] ->. done. Qed.

(** A step that adds no message. *)
Definition quiet {A} (w : RunEnv) (open : A -> gmultiset N) (Q : A -> RunEnv -> Prop) (m : M A) : Prop :=
  wp m (fun a w' => moved true w (open a) w' /\ Q a w') (unchanged w) w.

(** The rule for a sequence: [w0] is the world at its start. *)
Lemma quiet_bind {A B} b (m : M A) (k : A -> M B) w0 o0 w open Q Q' E :
  moved b w0 o0 w -> quiet w open Q' m -> (forall w', unchanged w0 w' -> E w') ->
  (forall a w', moved b w0 (open a) w' -> (w_cancelled w = true -> w_cancelled w' = true) /\ (unrest w' <= unrest w)%nat -> Q' a w' ->
     wp (k a) Q E w') ->
  wp (mbind_ m k) Q E w.
Proof.
  intros Hw Hm HE HQ. eapply wp_bind; [exact Hm| |].
  - intros w' Hu. apply HE. by eapply unchanged_moved.
  - intros a w' [Hw' Ha]. apply HQ; [|by split; apply Hw'|done]. rewrite <- (andb_true_r b). by eapply moved_trans.
Qed.
Lemma quiet_last {A} b (m : M A) w0 o0 w open Q Q' E :
  moved b w0 o0 w -> quiet w open Q' m -> (forall w', unchanged w0 w' -> E w') ->
  (forall a w', moved b w0 (open a) w' -> (w_cancelled w = true -> w_cancelled w' = true) /\ (unrest w' <= unrest w)%nat ->
     Q' a w' -> Q a w') ->
  wp m Q E w.
Proof.
  intros Hw Hm HE HQ. eapply wp_mono; [exact Hm| |].
  - intros w' Hu. apply HE. by eapply unchanged_moved.
  - intros a w' [Hw' Ha]. apply HQ; [|by split; apply Hw'|done]. rewrite <- (andb_true_r b). by eapply moved_trans.
Qed.

(** ** The boundary *)

Lemma boundary_moved w w' :
  w' = (h_interfere host (w_time w) w) <| w_time := S (w_time w) |> ->
  moved true w (w_open w) w' /\ (w_time w < w_time w')%nat /\
  ((w_time w < D)%nat -> (unrest w' < unrest w)%nat) /\ ((D <= w_time w)%nat -> w_updates w' = w_updates w).
Proof.
  destruct Hhost as [Hm Ho Hc Hu _ _ _ _ _]. intros ->. set (w' := (h_interfere host (w_time w) w) <| w_time := S (w_time w) |>).
  assert (Ht : w_time w' = S (w_time w)) by done.
  assert (Hsame : (D <= w_time w)%nat -> w_updates w' = w_updates w) by apply Hu.
  pose proof (unrest_bounds w). pose proof (unrest_bounds w').
  split_and!; [|lia|lia|done].
  constructor; [apply Hm|apply Ho|apply Hc|lia|]. intros _.
  destruct (decide (w_time w < D)%nat) as [Hl|Hl]; [lia|]. specialize (Hsame ltac:(lia)).
  unfold unrest. rewrite Hsame. lia.
Qed.

(** A boundary followed by a section that changes neither messages, effects, cancellation nor updates. *)
Lemma quiet_boundary {A} (section : nat -> RunEnv -> A * RunEnv) w open (Q : A -> RunEnv -> Prop) m :
  (forall w1, m w1 = Some (let '(a, w2) := section (w_time w1) ((h_interfere host (w_time w1) w1) <| w_time := S (w_time w1) |>)
                           in (w2, Ok a))) ->
  (forall t w1, let '(a, w2) := section t w1 in
     w_open w1 = w_open w ->
     scene w2 = scene w1 /\ w_open w2 = open a /\ w_cancelled w2 = w_cancelled w1 /\
     w_updates w2 = w_updates w1 /\ w_time w2 = w_time w1 /\ Q a w2) ->
  quiet w open Q m.
Proof.
  intros Hm Hs. unfold quiet, wp. rewrite Hm.
  edestruct (boundary_moved w) as (Hw & Ht & _ & _); [reflexivity|].
  specialize (Hs (w_time w) ((h_interfere host (w_time w) w) <| w_time := S (w_time w) |>)).
  destruct (section _ _) as [a w2]. destruct Hs as (Hmsg & Ho & Hc & Hu & Htime & HQ); [apply Hw|].
  split; [|done]. destruct Hw as [Hw1 Hw2 Hw3 Hw4 Hw5].
  constructor; [congruence|done|rewrite Hc; done|lia|].
  intros Hb. etrans; [|by apply Hw5]. by rewrite (unrest_same _ _ Htime Hu).
Qed.

Lemma quiet_lock_agent {A} (section : CoreAgentState -> A * CoreAgentState) w :
  (forall s, agent_talk (section s).2 = agent_talk s /\ active_owner (section s).2 = active_owner s) ->
  quiet w (fun _ => w_open w) (fun a _ => exists s, a = (section s).1) (lock_agent host section).
Proof.
  intros Hs. apply (quiet_boundary (fun _ w => let '(a, s) := section (w_agent w) in (a, w <| w_agent := s |>))).
  - intros w1. unfold lock_agent, mbind_, boundary. cbn. by destruct (section _).
  - intros t w1. specialize (Hs (w_agent w1)). destruct (section _) as [a s] eqn:Hsec. destruct Hs as [Ht Ho]. cbn [snd] in Ht, Ho. intros Hopen.
    assert (Hscene : scene (w1 <| w_agent := s |>) = scene w1) by (unfold scene, talk, life; cbn; by rewrite Ht, Ho).
    split_and!; [exact Hscene|exact Hopen|done..|]. exists (w_agent w1). by rewrite Hsec.
Qed.

Lemma quiet_is_cancelled w :
  quiet w (fun _ => w_open w) (fun b w' => b = w_cancelled w') (is_cancelled host).
Proof.
  apply (quiet_boundary (fun _ w => (w_cancelled w, w))); [done|]. intros t w1. cbn. by intros.
Qed.

Lemma quiet_emit kind w : quiet w (fun _ => w_open w) (fun _ _ => True) (emit host kind).
Proof.
  apply (quiet_boundary (fun _ w => ((), w <| w_run := (run_record_event (w_run w) kind).1 |>))); [done|].
  intros t w1 Ho. split_and!; [|done..]. unfold scene, life, talk. cbn [w_run w_agent].
  pose proof (record_event_life (w_run w1) kind) as Hlife. cbn in Hlife |- *. by rewrite Hlife.
Qed.

Lemma quiet_has_updates w : quiet w (fun _ => w_open w) (fun _ _ => True) (has_updates host).
Proof.
  apply (quiet_boundary (fun _ w => (negb (is_nil (w_updates w)), w))); [done|]. intros t w1. cbn. by intros.
Qed.

Lemma quiet_close_updates call_id w : quiet w (fun _ => w_open w) (fun _ _ => True) (close_updates host call_id).
Proof.
  apply (quiet_boundary (fun _ w => ((), w <| w_closed ::= fun closed => {[call_id]} ∪ closed |>))); [done|].
  intros t w1. cbn. by intros.
Qed.

Lemma quiet_before_tool_call call w : quiet w (fun _ => w_open w) (fun _ _ => True) (before_tool_call host call).
Proof.
  apply (quiet_boundary (fun t w => (h_before_tool host t call, w))); [done|]. intros t w1. cbn. by intros.
Qed.

Lemma quiet_after_tool_call call r w : quiet w (fun _ => w_open w) (fun _ _ => True) (after_tool_call host call r).
Proof.
  apply (quiet_boundary (fun t w => (h_after_tool host t call r, w))); [done|]. intros t w1. cbn. by intros.
Qed.

Lemma quiet_begin_effect subject w :
  quiet w (fun action => w_open w ⊎ {[+ ea_id action +]}) (fun _ _ => True) (begin_effect host subject).
Proof.
  unfold quiet, wp, begin_effect, mbind_, boundary. cbn.
  edestruct (boundary_moved w) as ([] & _); [reflexivity|]. destruct (h_gate_before _ _ _); [done|].
  split; [|done]. constructor; [done|cbn in *; by f_equal|done..].
Qed.

Lemma quiet_settle_effect action outcome w :
  quiet w (fun _ => w_open w ∖ {[+ ea_id action +]}) (fun _ _ => True) (settle_effect host action outcome).
Proof.
  unfold quiet, wp, settle_effect, mbind_, boundary. cbn.
  edestruct (boundary_moved w) as ([] & _); [reflexivity|]. destruct (h_gate_after _ _ _ _); [done|].
  split; [|done]. constructor; [done|cbn in *; by f_equal|done..].
Qed.

(** Taking progress ends a bit of the host's unrest. *)
Lemma quiet_take_updates w :
  quiet w (fun _ => w_open w)
    (fun updates w' => w_updates w' = [] /\ (w_time w < w_time w')%nat /\
       (updates <> None -> (unrest w' < unrest w)%nat) /\ ((w_time w < D)%nat -> (unrest w' < unrest w)%nat))
    (take_updates host).
Proof.
  unfold quiet, wp, take_updates, mbind_, boundary. cbn -[unrest].
  edestruct (boundary_moved w) as ([Hm Ho Hc Ht Hu] & Hlt & Hstrict & Hsame); [reflexivity|].
  set (w1 := (h_interfere host (w_time w) w) <| w_time := S (w_time w) |>) in *.
  change ((h_interfere host (w_time w) w) <| w_time := S (w_time w) |> <| w_updates := [] |>) with (w1 <| w_updates := [] |>).
  pose proof (unrest_bounds w). pose proof (unrest_drained (w1 <| w_updates := [] |>) eq_refl) as He.
  change (w_time (w1 <| w_updates := [] |>)) with (S (w_time w)) in He.
  split.
  - constructor; [done..|]. intros _. lia.
  - split_and!; [done|done| |lia]. intros Hsome.
    destruct (decide (w_time w < D)%nat) as [Hl|Hl]; [lia|].
    change (w_updates (h_interfere host (w_time w) w)) with (w_updates w1) in Hsome. rewrite Hsame in Hsome by lia.
    unfold unrest at 2. destruct (is_nil (w_updates w)); [done|]. lia.
Qed.

(** A poll; one without a result came before the deadline. *)
Lemma wp_poll_future call w E :
  wp (poll_future host call)
    (fun execution w' => moved (negb (reported execution)) w (w_open w) w' /\
       (execution = None -> (unrest w' < unrest w)%nat)) E w.
Proof.
  unfold wp, poll_future, mbind_, boundary. cbn.
  edestruct (boundary_moved w) as ([Hm Ho Hc Ht Hu] & Hlt & Hstrict & Hsame); [reflexivity|].
  set (w1 := (h_interfere host (w_time w) w) <| w_time := S (w_time w) |>) in *.
  destruct Hhost as [_ _ _ _ Hpm Hpo Hpc Hpt Hpr].
  specialize (Hpm (w_time w) call w1); specialize (Hpo (w_time w) call w1); specialize (Hpc (w_time w) call w1).
  specialize (Hpt (w_time w) call w1); specialize (Hpr (w_time w) call w1).
  destruct (h_poll host (w_time w) call w1) as [w2 execution]. cbn in *.
  assert (Hnone : execution = None -> (unrest w2 < unrest w)%nat).
  { intros ->. destruct (decide (w_time w < D)%nat) as [Hl|Hl]; [|destruct Hpr as [? ?]; [lia|done]].
    pose proof (unrest_bounds w). pose proof (unrest_bounds w2). lia. }
  split; [|done]. constructor; [congruence|congruence|auto|lia|].
  destruct execution; [done|]. intros _. specialize (Hnone eq_refl). lia.
Qed.

(** One step of a computation, by its specification; the accumulated motion is kept. *)
Ltac advance rule lem :=
  lazymatch goal with
  | Hw : moved ?b ?w0 ?o ?w |- wp _ _ _ ?w =>
      rule; [exact Hw|eapply lem|try done|
        let a := fresh "a" in let w' := fresh "w" in let Hw' := fresh "Hw" in let Hc := fresh "Hc" in
        let Hr := fresh "Hr" in let HQ := fresh "HQ" in
        intros a w' Hw' [Hc Hr] HQ; try rewrite (mv_open _ _ _ _ Hw) in Hw'; cbn beta in HQ]
  end.
Tactic Notation "step" uconstr(lem) := advance ltac:(eapply quiet_bind) lem.
Tactic Notation "last_step" uconstr(lem) := advance ltac:(eapply quiet_last) lem.
Tactic Notation "begin_quiet" constr(w) := unfold quiet; pose proof (moved_refl w).

(** Arithmetic on what is known of the worlds, without the implications. *)
Ltac less := repeat match goal with H : _ -> _ |- _ => clear H | H : moved _ _ _ _ |- _ => clear H end; lia.

(** ** Steps of a batch that add no message *)

Lemma quiet_emit_tool_updates updates w :
  quiet w (fun _ => w_open w) (fun _ _ => True) (emit_tool_updates host updates).
Proof.
  revert w. induction updates as [|[[id name] update] updates IH]; intros w; cbn [emit_tool_updates]; begin_quiet w.
  - by apply wp_ret.
  - step quiet_emit. by last_step IH.
Qed.

Lemma quiet_flush_tool_updates rounds w :
  (unrest w < rounds)%nat ->
  quiet w (fun _ => w_open w) (fun _ w' => w_updates w' = []) (flush_tool_updates host rounds).
Proof.
  revert w. induction rounds as [|rounds IH]; intros w Hr; [lia|]. cbn [flush_tool_updates]. begin_quiet w.
  step quiet_take_updates. destruct HQ as (Hu & _ & Hless & _). destruct a as [updates|]; [|by apply wp_ret].
  step quiet_emit_tool_updates. last_step IH; [|done]. specialize (Hless ltac:(done)). lia.
Qed.

Lemma settled_open (o : gmultiset N) x : (o ⊎ {[+ x +]}) ∖ {[+ x +]} = o.
Proof. multiset_solver. Qed.

Lemma quiet_emit_tool_execution_end call r w :
  quiet w (fun _ => w_open w) (fun _ _ => True) (emit_tool_execution_end host call r).
Proof. unfold emit_tool_execution_end. begin_quiet w. step quiet_lock_agent; [done|]. by last_step quiet_emit. Qed.

Lemma quiet_announce call w : quiet w (fun _ => w_open w) (fun _ _ => True) (announce host call).
Proof. unfold announce. begin_quiet w. step quiet_lock_agent; [done|]. by last_step quiet_emit. Qed.

Lemma quiet_current_context w : quiet w (fun _ => w_open w) (fun _ _ => True) (current_context host).
Proof.
  unfold current_context. begin_quiet w. step quiet_lock_agent; [done|]. destruct HQ as [s ->].
  unfold of_outcome, wp. cbn. destruct (as_phase s); try done. by apply Hw.
Qed.

Lemma quiet_undeclared_tool_message tool w :
  quiet w (fun _ => w_open w) (fun _ _ => True) (undeclared_tool_message host tool).
Proof.
  unfold undeclared_tool_message. begin_quiet w.
  destruct (at_exposure tool); [by apply wp_ret|..]; (step quiet_lock_agent; [done|]); by apply wp_ret.
Qed.

Lemma quiet_settle_hook {A} action (outcome : HookError + A) w :
  quiet w (fun _ => w_open w ∖ {[+ ea_id action +]}) (fun _ _ => True) (settle_hook host action outcome).
Proof. apply quiet_settle_effect. Qed.

(** ** Preparing a call *)

Definition opened_by (o : gmultiset N) (prepared : ToolCall * PreparedToolCall) : gmultiset N :=
  match prepared.2 with
  | Immediate _ _ => o
  | Execute _ effect => o ⊎ {[+ ea_id effect +]}
  end.
Definition prepares (c : AgentToolCall) (prepared : ToolCall * PreparedToolCall) : Prop :=
  same_call prepared.1 c /\
  match prepared.2 with
  | Immediate result _ => rt_tool_call_id result = tc_id c
  | Execute _ _ => True
  end.

Lemma quiet_execute_prepared tool call parent c w :
  same_call call c ->
  quiet w (opened_by (w_open w)) (fun prepared _ => prepares c prepared)
    (execute_prepared host show_arguments tool call parent).
Proof.
  intros Hc. unfold execute_prepared. begin_quiet w.
  destruct (validate_tool_arguments _ _ _) as [[]|[t m]|r] eqn:Hv.
  - step quiet_is_cancelled. destruct a; [apply wp_ret; by destruct Hc|].
    step quiet_begin_effect. by apply wp_ret.
  - apply wp_ret. by destruct Hc.
  - by apply validate_tool_arguments_no_panic in Hv.
Qed.

Lemma quiet_prepare_tool_call_for call parent c w :
  same_call call c ->
  quiet w (opened_by (w_open w)) (fun prepared _ => prepares c prepared)
    (prepare_tool_call_for host registry show_arguments show_json call parent).
Proof.
  intros Hc. unfold prepare_tool_call_for. begin_quiet w.
  destruct (registry_get _ _) as [tool|]; [|apply wp_ret; by destruct Hc].
  assert (He : quiet w (fun _ => w_open w) (fun _ _ => True) (exposure_message host tool call parent)).
  { unfold exposure_message. destruct parent; [|apply quiet_undeclared_tool_message]. by apply wp_ret. }
  step He. destruct a as [message|]; [apply wp_ret; by destruct Hc|].
  destruct (json_parse_result (cl_arguments call)) as [(v & -> & _)|[e ->]]; [|apply wp_ret; by destruct Hc].
  step quiet_current_context. step quiet_begin_effect. step quiet_before_tool_call. step quiet_settle_hook.
  rewrite settled_open in Hw3. destruct a1 as [error|[|arguments|reason|reason]]; [apply wp_ret; by destruct Hc|..].
  - last_step quiet_execute_prepared; [done|]. done.
  - last_step quiet_execute_prepared; [done|]. done.
  - apply wp_ret. by destruct Hc.
  - apply wp_ret. by destruct Hc.
Qed.

(** ** Polling one call *)

Lemma poll_bind {B} call (k : option ToolExecution_ -> M B) w0 o w Q E :
  moved true w0 o w ->
  (forall execution w', moved (negb (reported execution)) w0 o w' -> (w_cancelled w = true -> w_cancelled w' = true) ->
     (execution = None -> (unrest w' < unrest w)%nat) -> wp (k execution) Q E w') ->
  wp (mbind_ (poll_future host call) k) Q E w.
Proof.
  intros Hw HQ. eapply wp_bind; [apply (wp_poll_future call w E)|done|]. intros execution w' [Hw' Hless].
  apply HQ; [|by apply Hw'|done]. rewrite <- (mv_open _ _ _ _ Hw). by apply (moved_trans true _ _ _ _ _ _ Hw).
Qed.

Lemma quiet_taken w : quiet w (fun _ => w_open w) (fun _ w' => w_updates w' = []) (taken host).
Proof. unfold taken. begin_quiet w. step quiet_take_updates. apply wp_ret. by destruct HQ. Qed.

Lemma quiet_cancelled_step call m w :
  (forall w, quiet w (fun _ => w_open w) (fun _ _ => True) m) ->
  quiet w (fun _ => w_open w) (fun next _ => exists updates, next = StepCompleted cancelled_operation updates)
    (cancelled_step host call m).
Proof.
  intros Hm. unfold cancelled_step. begin_quiet w. step quiet_close_updates. step Hm. apply wp_ret. eauto.
Qed.

Lemma quiet_taken_any w : quiet w (fun _ => w_open w) (fun _ _ => True) (taken host).
Proof. begin_quiet w. by last_step quiet_taken. Qed.

(** A step is the end of the call or takes progress. *)
Definition steps_on (w : RunEnv) (next : ToolStep) (w' : RunEnv) : Prop :=
  match next with
  | StepUpdates _ => (unrest w' < unrest w)%nat
  | StepCompleted _ _ => True
  end.

Lemma quiet_next_tool_step rounds call allow_one_poll mode w :
  (unrest w < rounds)%nat ->
  quiet w (fun _ => w_open w) (steps_on w) (next_tool_step host rounds call allow_one_poll mode).
Proof.
  revert w. induction rounds as [|rounds IH]; intros w Hlt; [lia|]. cbn [next_tool_step]. begin_quiet w.
  step quiet_is_cancelled. destruct (_ && is_drop mode).
  { last_step quiet_cancelled_step; [apply quiet_taken_any|]. by destruct HQ0 as [? ->]. }
  step quiet_take_updates. destruct HQ0 as (_ & _ & Hu & _).
  destruct a0 as [updates|]; [apply wp_ret; split; [done|]; specialize (Hu ltac:(done)); unfold steps_on; less|].
  step quiet_take_updates. destruct HQ0 as (_ & _ & Hu0 & _).
  destruct a0 as [updates|]; [apply wp_ret; split; [done|]; specialize (Hu0 ltac:(done)); unfold steps_on; less|].
  step quiet_is_cancelled. destruct (_ && is_drop mode).
  { last_step quiet_cancelled_step; [apply quiet_taken_any|]. by destruct HQ1 as [? ->]. }
  eapply poll_bind; [done|]. intros execution w' Hp Hpc Hnone. destruct execution as [execution|]; cbn in Hp.
  - step quiet_close_updates. step quiet_taken. apply wp_ret. split; [|done]. by eapply moved_drained.
  - step quiet_take_updates. destruct HQ1 as (_ & _ & Hu1 & _). specialize (Hnone eq_refl).
    destruct a1 as [updates|]; [apply wp_ret; split; [done|]; unfold steps_on; less|].
    step quiet_is_cancelled. destruct (a1 && is_drop mode).
    { last_step quiet_cancelled_step; [intros w''; begin_quiet w''; by apply wp_ret|]. by destruct HQ2 as [? ->]. }
    last_step IH; [less|]. split; [done|]. destruct a2; [|done]. unfold steps_on in *. less.
Qed.

Lemma quiet_drive_tool rounds call allow_one_poll mode w :
  (unrest w < rounds)%nat ->
  quiet w (fun _ => w_open w) (fun _ _ => True) (drive_tool host rounds call allow_one_poll mode).
Proof.
  revert w allow_one_poll. induction rounds as [|rounds IH]; intros w allow_one_poll Hlt; [lia|].
  cbn [drive_tool]. begin_quiet w. step quiet_next_tool_step; [done|]. destruct a as [updates|execution updates].
  - step quiet_emit_tool_updates. step quiet_is_cancelled. unfold steps_on in HQ. last_step IH; [less|]. done.
  - step quiet_emit_tool_updates. by apply wp_ret.
Qed.

Lemma quiet_finalize_executed_tool call effect execution w :
  quiet w (fun _ => w_open w ∖ {[+ ea_id effect +]}) (fun finished _ => rt_tool_call_id finished.1 = cl_id call)
    (finalize_executed_tool host call effect execution).
Proof.
  unfold finalize_executed_tool. begin_quiet w. step quiet_current_context. step quiet_begin_effect.
  step quiet_after_tool_call. step quiet_settle_hook. rewrite settled_open in Hw2.
  destruct a1 as [error|after]; step quiet_settle_effect; apply wp_ret; split; try done.
  apply raw_result_id.
Qed.

Lemma quiet_new_updates w : quiet w (fun _ => w_open w) (fun _ _ => True) new_updates.
Proof.
  unfold quiet, wp, new_updates. split; [|done]. by apply (moved_drained false); [|done].
Qed.

Lemma quiet_execute_one_tool_call call c w :
  same_call call c ->
  quiet w (fun _ => w_open w) (fun r _ => same_call r.1 c /\ rt_tool_call_id r.2.1 = tc_id c)
    (execute_one_tool_call host registry show_arguments show_json fuel call).
Proof.
  intros Hc. unfold execute_one_tool_call. begin_quiet w. step quiet_prepare_tool_call_for; [done|].
  destruct a as [call' prepared]. destruct HQ as [Hs Hp]. cbn in Hs, Hp.
  destruct prepared as [result terminate|tool effect]; [by apply wp_ret|]. cbn [opened_by snd] in Hw.
  step quiet_new_updates. step quiet_is_cancelled.
  assert (Hu : forall w, quiet w (fun _ => w_open w) (fun _ _ => True) (if a0 then has_updates host else mret false)).
  { intros w'. destruct a0; [apply quiet_has_updates|]. begin_quiet w'. by apply wp_ret. }
  step Hu. step quiet_drive_tool; [apply unrest_fuel|]. step quiet_flush_tool_updates; [apply unrest_fuel|].
  step quiet_finalize_executed_tool. rewrite settled_open in Hw5. apply wp_ret. split; [done|]. split; [done|].
  destruct a4. cbn in *. by destruct Hs as [<- _].
Qed.

(** ** Results in the conversation *)

(** The messages added since [w] answer the calls. *)
Definition adds (w : RunEnv) (calls : list AgentToolCall) (w' : RunEnv) : Prop :=
  exists added, answered (talk w).2 calls added (talk w').2 /\ (talk w').1 = (talk w).1 ++ added.
Definition told (w : RunEnv) (calls : list AgentToolCall) (open : gmultiset N) (w' : RunEnv) : Prop :=
  adds w calls w' /\ w_open w' = open /\ life w' = life w /\ (w_time w <= w_time w')%nat.
(** A batch that ended early answered a prefix. *)
Definition broke (w : RunEnv) (calls : list AgentToolCall) (w' : RunEnv) : Prop :=
  exists done rest, calls = done ++ rest /\ adds w done w' /\ life w' = life w.

Lemma told_refl w : told w [] (w_open w) w.
Proof. split; [|done]. exists []. by rewrite app_nil_r. Qed.

Lemma scene_parts w w' : scene w' = scene w -> talk w' = talk w /\ life w' = life w.
Proof. intros Hs. split; [exact (f_equal fst Hs)|exact (f_equal snd Hs)]. Qed.

Lemma told_moved w calls o w1 b o' w2 : told w calls o w1 -> moved b w1 o' w2 -> told w calls o' w2.
Proof.
  intros [(added & Ha & Hm) (_ & Hl & Htime)] [[Ht Hl']%scene_parts ? ? ? ?].
  split; [|split_and!; [done|by rewrite Hl', Hl|lia]]. exists added. by rewrite Ht.
Qed.

Lemma told_app w calls o w1 more o' w2 : told w calls o w1 -> told w1 more o' w2 -> told w (calls ++ more) o' w2.
Proof.
  intros [(added & Ha & Hm) (_ & Hl & Ht)] [(added' & Ha' & Hm') (Ho & Hl' & Ht')]. split; [|split_and!; [done|congruence|lia]].
  exists (added ++ added'). split; [by eapply answered_app|]. by rewrite Hm', Hm, app_assoc.
Qed.

Lemma broke_unchanged w done rest o w1 w2 : told w done o w1 -> unchanged w1 w2 -> broke w (done ++ rest) w2.
Proof.
  intros [(added & Ha & Hm) (_ & Hl & _)] [Ht Hl']%scene_parts. exists done, rest. split; [done|]. split; [|congruence].
  exists added. by rewrite Ht.
Qed.

Lemma told_bind {A B} (m : M A) (k : A -> M B) w0 done rest o w open Q Q' :
  told w0 done o w -> quiet w open Q' m ->
  (forall a w', told w0 done (open a) w' -> moved true w (open a) w' -> Q' a w' ->
     wp (k a) Q (broke w0 (done ++ rest)) w') ->
  wp (mbind_ m k) Q (broke w0 (done ++ rest)) w.
Proof.
  intros Hw Hm HQ. eapply wp_bind; [exact Hm| |].
  - intros w' Hu. by eapply broke_unchanged.
  - intros a w' [Hw' Ha]. apply HQ; [by eapply told_moved|done..].
Qed.

Lemma wp_emit kind w E : wp (emit host kind) (fun _ w' => moved true w (w_open w) w') E w.
Proof.
  pose proof (quiet_emit kind w) as He. revert He. unfold quiet, wp, emit, mbind_, boundary. cbn. by intros [? _].
Qed.

Lemma wp_append_section call r w E :
  wp (lock_agent host (fun s =>
        let '(id, s) := allocate_message_id s in
        let message := result_message id call r in
        (message, append_message s message)))
     (fun m w' => talk w' = ((talk w).1 ++ [m], u64_saturating_add (talk w).2 1) /\ w_open w' = w_open w /\
        life w' = life w /\ (w_time w <= w_time w')%nat /\ m = result_message (talk w).2 call r) E w.
Proof.
  unfold wp, lock_agent, mbind_, boundary. cbn.
  edestruct (boundary_moved w) as ([Hm Ho _ _ _] & _); [reflexivity|].
  apply scene_parts in Hm as [Hm Hl]. unfold talk, agent_talk, life in *. cbn in *. injection Hm as Hm Hn.
  injection Hl as Howner Hid Hphase Hturn. unfold active_owner in *. cbn in *. rewrite Hm, Hn, Howner, Hid, Hphase, Hturn.
  split_and!; [done..|lia|done].
Qed.

Lemma wp_append_tool_result_message call r c w :
  same_call call c -> rt_tool_call_id r = tc_id c ->
  wp (append_tool_result_message host call r) (fun _ w' => told w [c] (w_open w) w') (unchanged w) w.
Proof.
  intros Hc Hr. unfold append_tool_result_message. pose proof (moved_refl w).
  step quiet_begin_effect. step quiet_settle_effect. rewrite settled_open in Hw0.
  eapply wp_bind; [apply (wp_append_section call r w1 (fun _ => False))|done|]. intros m w2 (Hm & Ho & Hl & Htime & Hid).
  destruct (scene_parts _ _ (mv_scene _ _ _ _ Hw0)) as [Ht1 Hl1].
  assert (Htold : told w [c] (w_open w) w2).
  { pose proof (mv_time _ _ _ _ Hw0). split; [|split_and!; [rewrite Ho; apply Hw0|congruence|lia]]. exists [m]. rewrite Hm, Ht1. rewrite Ht1 in Hid.
    split; [|done]. split; [|done]. subst m. by apply answers_same. }
  eapply wp_bind; [apply (wp_emit _ w2 (fun _ => False))|done|]. intros [] w3 H3.
  eapply wp_mono; [apply (wp_emit _ w3 (fun _ => False))|done|]. intros [] w4 H4.
  rewrite (mv_open _ _ _ _ H3) in H4. destruct (Htold) as (_ & Ho2 & _). rewrite Ho2 in H3, H4.
  eapply told_moved; [|done]. by eapply told_moved.
Qed.

(** Recording one more result. *)
Lemma append_bind {B} call r c (k : unit -> M B) w0 done rest o w Q :
  told w0 done o w -> same_call call c -> rt_tool_call_id r = tc_id c ->
  (forall w', told w0 (done ++ [c]) o w' -> wp (k ()) Q (broke w0 ((done ++ [c]) ++ rest)) w') ->
  wp (mbind_ (append_tool_result_message host call r) k) Q (broke w0 (done ++ c :: rest)) w.
Proof.
  intros Hw Hc Hr HQ. eapply wp_bind; [by apply wp_append_tool_result_message| |].
  - intros w' Hu. by eapply broke_unchanged.
  - intros [] w' Hw'. rewrite (cons_middle c), app_assoc. apply HQ. eapply told_app; [done|]. by destruct Hw as (_ & <- & _).
Qed.

(** ** Batches without concurrency *)

Definition batch_done (w0 : RunEnv) (calls : list AgentToolCall) (o : gmultiset N) {A} (_ : A) (w' : RunEnv) : Prop :=
  told w0 calls o w'.

Lemma wp_append_rejections rest message w0 done o w :
  told w0 done o w ->
  wp (append_rejections host rest message) (batch_done w0 (done ++ rest) o) (broke w0 (done ++ rest)) w.
Proof.
  revert done w. induction rest as [|c rest IH]; intros done w Hw; cbn [append_rejections].
  - apply wp_ret. unfold batch_done. by rewrite app_nil_r.
  - eapply append_bind; [done|apply same_call_of|done|]. intros w' Hw'.
    rewrite (cons_middle c), app_assoc. by apply IH.
Qed.

Lemma wp_append_skipped rest bounded w0 done o w :
  told w0 done o w ->
  wp (append_skipped_sequential_calls host rest bounded) (batch_done w0 (done ++ rest) o) (broke w0 (done ++ rest)) w.
Proof.
  revert done w. induction rest as [|c rest IH]; intros done w Hw; cbn [append_skipped_sequential_calls].
  - apply wp_ret. unfold batch_done. by rewrite app_nil_r.
  - eapply append_bind; [done|apply same_call_of|done|]. intros w' Hw'.
    rewrite (cons_middle c), app_assoc. by apply IH.
Qed.

Lemma quiet_observe_tool_failure call r w :
  quiet w (fun _ => w_open w) (fun _ _ => True)
    (observe_tool_failure host max_consecutive_retryable_failures call r).
Proof.
  unfold observe_tool_failure. begin_quiet w. step quiet_is_cancelled. destruct a; [by apply wp_ret|].
  assert (Hp : forall {A} (f : RunPolicyState -> A * RunPolicyState) w,
            quiet w (fun _ => w_open w) (fun _ _ => True) (lock_policy f)).
  { intros A f w'. unfold quiet, wp, lock_policy. destruct (f _). split; [|done]. by constructor. }
  destruct (negb _); [step Hp; by apply wp_ret|].
  step Hp. destruct a as [count terminal]. destruct (negb _); [by apply wp_ret|]. step quiet_emit. by apply wp_ret.
Qed.

Lemma wp_execute_sequential rest all_terminate w0 done o w :
  told w0 done o w ->
  wp (execute_sequential host registry max_consecutive_retryable_failures show_arguments show_json fuel rest all_terminate)
    (batch_done w0 (done ++ rest) o) (broke w0 (done ++ rest)) w.
Proof.
  revert done w all_terminate. induction rest as [|c rest IH]; intros done w all_terminate Hw; cbn [execute_sequential].
  - apply wp_ret. unfold batch_done. by rewrite app_nil_r.
  - eapply told_bind; [done|apply quiet_announce|]. intros [] w1 H1 _ _. rewrite (proj1 (proj2 Hw)) in H1.
    eapply told_bind; [done|apply quiet_execute_one_tool_call, same_call_of|].
    intros [call' [r t]] w2 H2 _ [Hc Hr]. rewrite (proj1 (proj2 H1)) in H2. cbn in Hc, Hr.
    eapply told_bind; [done|apply quiet_emit_tool_execution_end|]. intros [] w3 H3 _ _. rewrite (proj1 (proj2 H2)) in H3.
    eapply append_bind; [done|done|by rewrite normalize_id|]. intros w4 H4.
    eapply told_bind; [done|apply quiet_observe_tool_failure|]. intros failure w5 H5 _ _. rewrite (proj1 (proj2 H4)) in H5.
    rewrite (cons_middle c), (app_assoc done).
    destruct failure as [message|]; [|by apply IH].
    eapply wp_bind; [by apply wp_append_skipped|done|]. intros [] w6 H6. by apply wp_ret.
Qed.

(** ** Polling a parallel batch *)

Definition steps_parallel (w : RunEnv) (pending : list PendingToolExecution)
    (r : ParallelToolStep * (list PendingToolExecution * gset string)) (w' : RunEnv) : Prop :=
  match r.1 with
  | ParallelCancelled _ => r.2.1 = pending
  | ParallelUpdates _ => r.2.1 = pending /\ (unrest w' < unrest w)%nat
  | ParallelCompleted p _ _ => p :: r.2.1 ≡ₚ pending
  end.
(** A round without a step polled before the deadline, or cancellation kept it from polling. *)
Definition polls_on (w : RunEnv) (index : nat) (pending : list PendingToolExecution) (r : Polled) (w' : RunEnv) : Prop :=
  match r.1 with
  | Some next => steps_parallel w pending (next, r.2) w'
  | None => r.2.1 = pending /\
      ((unrest w' < unrest w)%nat \/
       Forall (fun p => is_drop (pt_mode p) = true /\ w_cancelled w' = true) (drop index pending))
  end.

Lemma polls_on_less w w1 index index' pending r w' :
  (unrest w1 < unrest w)%nat -> (unrest w' <= unrest w1)%nat ->
  polls_on w1 index pending r w' -> polls_on w index' pending r w'.
Proof.
  intros H1 H2. unfold polls_on, steps_parallel. destruct r as [[[| |]|] [l a]]; cbn [fst snd]; try done.
  - intros [-> ?]. split; [done|lia].
  - intros [-> _]. split; [done|left; lia].
Qed.

Lemma polls_on_skip w w1 index pending p r w' :
  pending !! index = Some p -> is_drop (pt_mode p) = true -> w_cancelled w' = true -> (unrest w1 <= unrest w)%nat ->
  polls_on w1 (S index) pending r w' -> polls_on w index pending r w'.
Proof.
  intros Hp Hd Hc Hle. unfold polls_on, steps_parallel. destruct r as [[[| |]|] [l a]]; cbn [fst snd]; try done.
  - intros [-> ?]. split; [done|lia].
  - intros [-> [Hless|Hall]]; (split; [done|]); [left; lia|right].
    rewrite (drop_S _ _ _ Hp). by constructor.
Qed.

Lemma quiet_poll_each rounds index pending allowed w :
  (index + rounds = length pending)%nat ->
  quiet w (fun _ => w_open w) (polls_on w index pending) (poll_each host rounds index pending allowed).
Proof.
  revert index allowed w. induction rounds as [|rounds IH]; intros index allowed w Hlen; cbn [poll_each]; begin_quiet w.
  { apply wp_ret. split; [done|]. split; [done|]. right. by rewrite drop_ge by lia. }
  destruct (pending !! index) as [p|] eqn:Hp; [|apply lookup_ge_None in Hp; lia].
  step quiet_is_cancelled. destruct (a && is_drop (pt_mode p) && _) eqn:Hskip.
  { apply andb_true_iff in Hskip as [[-> Hd]%andb_true_iff _]. last_step IH; [lia|]. split; [done|].
    eapply polls_on_skip; [done|done|by apply Hc0|done|done]. }
  eapply poll_bind; [done|]. intros execution w' Hw' Hc' Hnone. destruct execution as [execution|]; cbn [negb reported] in Hw'.
  - step quiet_close_updates. step quiet_taken. apply wp_ret. split; [by eapply moved_drained|].
    by apply swap_remove_Permutation.
  - specialize (Hnone eq_refl). step quiet_take_updates. destruct a0 as [updates|].
    { apply wp_ret. split; [done|]. split; [done|less]. }
    clear HQ HQ0. last_step IH; [lia|]. split; [done|]. eapply polls_on_less; [|done|done]. less.
Qed.

Lemma awaits_none pending :
  Forall (fun p => is_drop (pt_mode p) = true) pending -> awaits pending = false.
Proof. unfold awaits. induction 1 as [|p pending Hp _ IH]; [done|]. cbn [existsb]. by rewrite Hp, IH. Qed.

Lemma quiet_next_parallel_step rounds pending allowed w :
  pending <> [] -> (unrest w < rounds)%nat ->
  quiet w (fun _ => w_open w) (steps_parallel w pending) (next_parallel_step host rounds pending allowed).
Proof.
  intros Hne. revert allowed w. induction rounds as [|rounds IH]; intros allowed w Hlt; [lia|].
  cbn [next_parallel_step]. begin_quiet w.
  step quiet_take_updates. destruct a as [updates|].
  { destruct HQ as (_ & _ & Hu & _). apply wp_ret. split; [done|]. split; [done|by apply Hu]. } clear HQ.
  step quiet_is_cancelled. destruct (_ && negb _); [by apply wp_ret|].
  step quiet_take_updates. destruct a0 as [updates|].
  { destruct HQ0 as (_ & _ & Hu & _). specialize (Hu ltac:(done)). apply wp_ret. split; [done|]. split; [done|less]. } clear HQ0.
  step quiet_is_cancelled. destruct (_ && negb _); [step quiet_taken; by apply wp_ret|].
  step quiet_poll_each; [done|]. destruct a1 as [[next|] [pending' allowed']]; unfold polls_on in HQ1; cbn [fst snd] in HQ1.
  { apply wp_ret. split; [done|]. revert HQ1. unfold steps_parallel. destruct next; cbn [fst snd]; [done| |done].
    intros [-> ?]. split; [done|less]. }
  destruct HQ1 as [-> Hround]. step quiet_is_cancelled.
  destruct (a1 && negb (awaits pending)) eqn:Hstop; [step quiet_taken; by apply wp_ret|].
  destruct Hround as [Hless|Hall].
  - step quiet_take_updates. destruct a2 as [updates|].
    { apply wp_ret. split; [done|]. split; [done|less]. } clear HQ2.
    last_step IH; [less|]. split; [done|]. revert HQ2. unfold steps_parallel. destruct a2 as [[| |] [l al]]; cbn [fst snd]; [done| |done].
    intros [-> ?]. split; [done|less].
  - exfalso. rewrite drop_0 in Hall.
    assert (Hcancel : w_cancelled w4 = true) by (destruct Hall as [|p l [_ Hp] _]; done).
    rewrite (awaits_none pending) in Hstop by (eapply Forall_impl; [done|by intros ? []]).
    rewrite HQ1, Hc4 in Hstop by done. done.
Qed.

(** ** Completing a parallel batch *)

Section batch.
Context (calls : list AgentToolCall).

(** Storing a completion moves nothing. *)
Lemma complete_bind {B} p pending completions r t (k : list (option Completion) -> M B) w Q E :
  covers calls (p :: pending) completions -> rt_tool_call_id r = cl_id (pt_call p) ->
  (forall completions', covers calls pending completions' -> wp (k completions') Q E w) ->
  wp (mbind_ (complete completions (pt_source_index p) (r, t)) k) Q E w.
Proof.
  intros Hc Hr HQ. eapply wp_bind; [by apply (wp_complete calls p pending completions r t w E)|done|].
  intros completions' w' [-> Hc']. by apply HQ.
Qed.

Lemma quiet_settle_aborted p w :
  quiet w (fun _ => w_open w ∖ {[+ ea_id (pt_effect p) +]}) (fun r _ => rt_tool_call_id r = cl_id (pt_call p))
    (settle_aborted host p).
Proof. unfold settle_aborted. begin_quiet w. step quiet_settle_effect. by apply wp_ret. Qed.

Lemma quiet_drop_pending pending completions o w :
  covers calls pending completions -> w_open w = o ⊎ effect_ids pending ->
  quiet w (fun _ => o) (fun completions' _ => covers calls [] completions') (drop_pending host pending completions).
Proof.
  revert completions w. induction pending as [|p pending IH]; intros completions w Hc Ho; cbn [drop_pending]; begin_quiet w.
  - apply wp_ret. split; [|done]. replace o with (w_open w) by (rewrite Ho; unfold effect_ids; cbn; multiset_solver). done.
  - step quiet_close_updates. step quiet_settle_aborted. rewrite Ho, effect_ids_settle in Hw0.
    step quiet_emit_tool_execution_end. eapply complete_bind; [done|done|]. intros completions' Hc'.
    last_step IH; [done|apply Hw1|]. done.
Qed.

(** The settlement of a sibling. *)
Definition settle_sibling (p : PendingToolExecution) (execution : option ToolExecution_) : M (AgentToolResult * bool) :=
  match execution with
  | Some execution => finalize_executed_tool host (pt_call p) (pt_effect p) execution
  | None => let! result := settle_aborted host p in mret (result, false)
  end.
Lemma quiet_settle_sibling p execution w :
  quiet w (fun _ => w_open w ∖ {[+ ea_id (pt_effect p) +]}) (fun r _ => rt_tool_call_id r.1 = cl_id (pt_call p))
    (settle_sibling p execution).
Proof.
  unfold settle_sibling. destruct execution; [apply quiet_finalize_executed_tool|].
  begin_quiet w. step quiet_settle_aborted. by apply wp_ret.
Qed.

Lemma quiet_settle_siblings pending ids kept completions o w :
  covers calls (pending ++ kept) completions -> w_open w = o ⊎ effect_ids (pending ++ kept) ->
  quiet w (fun r => o ⊎ effect_ids (r.1 ++ kept))
    (fun r _ => covers calls (r.1 ++ kept) r.2 /\ (length r.1 <= length pending)%nat)
    (settle_siblings host fuel pending ids completions).
Proof.
  revert kept completions w. induction pending as [|p pending IH]; intros kept completions w Hc Ho; cbn [settle_siblings].
  { apply wp_ret. split; [|done]. change (moved true w (o ⊎ effect_ids ([] ++ kept)) w). rewrite <- Ho. apply moved_refl. }
  begin_quiet w. assert (Hmid : forall l, (p :: l) ++ kept ≡ₚ l ++ p :: kept) by (intros; apply Permutation_middle).
  destruct (negb _ || _).
  - eapply quiet_bind; [done|apply (IH (p :: kept) completions)|done|].
    + eapply covers_perm; [apply Hmid|done].
    + by rewrite Ho, (effect_ids_perm _ _ (Hmid pending)).
    + intros [still completions'] w' Hw' _ [Hc' Hl]. cbn [fst snd] in *. apply wp_ret. cbn [fst snd length].
      split; [by rewrite (effect_ids_perm _ _ (Hmid still))|]. split; [|lia]. eapply covers_perm; [symmetry; apply Hmid|done].
  - eapply poll_bind; [done|]. intros execution w1 Hw1 _ _. step quiet_close_updates.
    step quiet_flush_tool_updates; [apply unrest_fuel|]. apply moved_drained in Hw0; [|done].
    clear Hw Hw1. fold (settle_sibling p execution). step quiet_settle_sibling.
    rewrite Ho in Hw. cbn [app] in Hw. rewrite effect_ids_settle in Hw. destruct a1 as [r t].
    step quiet_emit_tool_execution_end. eapply (complete_bind p (pending ++ kept)); [done|done|]. intros completions' Hc'.
    last_step IH; [done|apply Hw1|]. cbn [length]. destruct HQ3. split_and!; [done|done|lia].
Qed.

Lemma quiet_drive_parallel rounds pending allowed completions o w :
  covers calls pending completions -> w_open w = o ⊎ effect_ids pending ->
  (unrest w + length pending < rounds)%nat ->
  quiet w (fun _ => o) (fun completions' _ => covers calls [] completions')
    (drive_parallel host fuel rounds pending allowed completions).
Proof.
  revert pending allowed completions w.
  induction rounds as [|rounds IH]; intros pending allowed completions w Hc Ho Hlt; [lia|].
  destruct (decide (pending = [])) as [->|Hne].
  { cbn [drive_parallel]. apply wp_ret. split; [|done].
    replace o with (w_open w) by (rewrite Ho; unfold effect_ids; cbn; multiset_solver). apply moved_refl. }
  destruct pending as [|p0 pending0] eqn:Hpending; [done|]. cbn [drive_parallel]. rewrite <- Hpending in *.
  clear Hpending p0 pending0. begin_quiet w. step quiet_next_parallel_step; [done|apply unrest_fuel|].
  destruct a as [next [pending' allowed']]. unfold steps_parallel in HQ. cbn [fst snd] in HQ.
  destruct next as [updates|updates|p execution updates]; step quiet_emit_tool_updates.
  - subst pending'. step quiet_drop_pending; [done|by rewrite (mv_open _ _ _ _ Hw0)|].
    destruct rounds; cbn [drive_parallel]; by apply wp_ret.
  - destruct HQ as [-> Hless]. step quiet_is_cancelled. destruct a0.
    + step (quiet_settle_siblings pending (update_ids updates) [] completions o).
      { by rewrite app_nil_r. }
      { by rewrite app_nil_r, (mv_open _ _ _ _ Hw1). }
      destruct a0 as [still completions']. cbn [fst snd] in Hw2, HQ1. rewrite app_nil_r in Hw2, HQ1. destruct HQ1 as [Hc' Hl].
      last_step IH; [done|apply Hw2|less|]. done.
    + last_step IH; [done|by rewrite (mv_open _ _ _ _ Hw1)|less|]. done.
  - rewrite Ho, <- (effect_ids_perm _ _ HQ) in Hw0. apply (covers_perm _ _ (p :: pending')) in Hc; [|done].
    apply Permutation_length in HQ. cbn [length] in HQ. step quiet_finalize_executed_tool.
    rewrite effect_ids_settle in Hw1. destruct a0 as [r t]. cbn [fst] in HQ1.
    step quiet_flush_tool_updates; [apply unrest_fuel|]. step quiet_emit_tool_execution_end.
    eapply complete_bind; [done|done|]. intros completions' Hc'. last_step IH; [done|apply Hw3|less|]. done.
Qed.
End batch.

(** ** A parallel batch *)

Definition prepared_batch (before rest : list AgentToolCall) (completions : list (option Completion))
    (r : list PreparedToolExecution * list (option Completion)) : Prop :=
  prepared_in_order (length before) rest r.1 /\
  length r.2 = length completions /\
  (forall i, (i < length before)%nat -> r.2 !! i = completions !! i) /\
  (forall k c, rest !! k = Some c ->
     filled r.2 (length before + k) c \/ (length before + k)%nat ∈ map pt_source_index (omap pending_of r.1)).

(** One more call in front of a prepared batch: with a completion already, or pending. *)
Lemma prepared_batch_cons before c rest completions completions1 p r :
  same_call (pe_call p) c -> pe_source_index p = length before ->
  length completions1 = length completions ->
  (forall i, (i < length before)%nat -> completions1 !! i = completions !! i) ->
  filled completions1 (length before) c \/ is_Some (pending_of p) ->
  prepared_batch (before ++ [c]) rest completions1 r ->
  prepared_batch before (c :: rest) completions (p :: r.1, r.2).
Proof.
  intros Hc Hp Hl Hsame Hnow (Hfor & Hlen & Hkeep & Hrest). rewrite length_app, Nat.add_1_r in *.
  split_and!; cbn [fst snd]; [done|lia|intros i Hi; rewrite Hkeep by lia; by apply Hsame|].
  assert (Htail : forall i, i ∈ map pt_source_index (omap pending_of r.1) ->
            i ∈ map pt_source_index (omap pending_of (p :: r.1))).
  { intros i Hi. cbn [omap list_omap]. destruct (pending_of p); [|done]. cbn. set_solver. }
  intros [|k] c' Hk.
  - cbn in Hk. simplify_eq. rewrite Nat.add_0_r. destruct Hnow as [(r' & t & Hf & Hr)|[q Hq]].
    + left. exists r', t. rewrite Hkeep by lia. done.
    + right. cbn [omap list_omap]. rewrite Hq. cbn. revert Hq. unfold pending_of. destruct (pe_preparation p); [done|].
      intros [= <-]. cbn. rewrite Hp. set_solver.
  - cbn in Hk. replace (length before + S k)%nat with (S (length before) + k)%nat by lia.
    destruct (Hrest k c' Hk) as [Hf|He]; [by left|right; by apply Htail].
Qed.

Lemma quiet_prepare_batch rest before completions w :
  (length before + length rest <= length completions)%nat ->
  quiet w (fun r => w_open w ⊎ effect_ids (omap pending_of r.1)) (fun r _ => prepared_batch before rest completions r)
    (prepare_batch host registry show_arguments show_json (length before) rest completions).
Proof.
  revert before completions w. induction rest as [|c rest IH]; intros before completions w Hlen; cbn [prepare_batch length] in *.
  { apply wp_ret. split; [|done].
    replace (w_open w ⊎ _) with (w_open w) by (unfold effect_ids; cbn; multiset_solver). apply moved_refl. }
  assert (Hnext : S (length before) = length (before ++ [c])) by (rewrite length_app; cbn; lia).
  rewrite Hnext in *. begin_quiet w. step quiet_announce. step quiet_prepare_tool_call_for; [apply same_call_of|].
  destruct a0 as [call prepared]. destruct HQ0 as [Hcall Hp]. cbn [fst snd] in Hcall, Hp.
  destruct prepared as [r t|tool effect]; cbn [opened_by snd] in Hw0.
  - step quiet_emit_tool_execution_end. unfold complete. destruct (Nat.ltb_spec (length before) (length completions)); [|lia].
    apply wp_ret_bind. step IH; [rewrite length_insert; lia|]. destruct a1 as [prepared completions2].
    apply wp_ret. split; [done|].
    eapply (prepared_batch_cons before c rest completions _ (mk_prepared _ _ _) (prepared, completions2)); [done|done| | |left|done].
    + by rewrite length_insert.
    + intros i Hi. by rewrite list_lookup_insert_ne by lia.
    + eexists _, t. rewrite list_lookup_insert_eq by done. split; [done|]. by rewrite normalize_id.
  - step IH; [lia|]. destruct a0 as [prepared completions2]. apply wp_ret. split.
    + cbn [fst omap list_omap pending_of pe_preparation]. unfold effect_ids in *. rewrite map_cons, list_to_set_disj_cons. cbn [pt_effect].
      rewrite (assoc_L (⊎)). done.
    + eapply (prepared_batch_cons before c rest completions completions (mk_prepared _ _ _) (prepared, completions2)); [done..| |done].
      right. by eexists.
Qed.

Lemma wp_record_results prepared completions all_terminate terminal_failure rest before w0 o w :
  prepared_in_order (length before) rest prepared ->
  (forall k c, rest !! k = Some c -> filled completions (length before + k) c) ->
  told w0 before o w ->
  wp (record_results host max_consecutive_retryable_failures prepared completions all_terminate terminal_failure)
    (batch_done w0 (before ++ rest) o) (broke w0 (before ++ rest)) w.
Proof.
  revert prepared completions all_terminate terminal_failure before w.
  induction rest as [|c rest IH]; intros [|p prepared] completions all_terminate terminal_failure before w Hfor Hall Hw;
    try done; cbn [record_results].
  { apply wp_ret. unfold batch_done. by rewrite app_nil_r. }
  destruct Hfor as (Hp & Hc & Hfor). destruct (Hall O c eq_refl) as (r & t & Hf & Hr). rewrite Nat.add_0_r in Hf.
  rewrite Hp, Hf. eapply append_bind; [done|done|by rewrite normalize_id|]. intros w1 H1.
  eapply told_bind; [done|apply quiet_observe_tool_failure|]. intros failure w2 H2 _ _. rewrite (proj1 (proj2 H1)) in H2.
  rewrite (cons_middle c), (app_assoc before). apply IH; [|intros k c' Hk|done].
  - by rewrite length_app, Nat.add_1_r.
  - destruct (Hall (S k) c' Hk) as (r' & t' & Hf' & Hr'). exists r', t'. rewrite length_app. cbn [length].
    rewrite list_lookup_insert_ne by lia. split; [|done]. rewrite <- Hf'. f_equal. lia.
Qed.

Lemma wp_execute_parallel calls w :
  (2 * D + 1 + length calls < fuel)%nat ->
  wp (execute_parallel host registry max_consecutive_retryable_failures show_arguments show_json fuel calls)
    (batch_done w calls (w_open w)) (broke w calls) w.
Proof.
  intros Hlong. unfold execute_parallel. pose proof (told_refl w) as Hw.
  eapply (told_bind _ _ w [] calls); [done|apply quiet_new_updates|]. intros [] w1 H1 _ _.
  eapply told_bind; [done|apply (quiet_prepare_batch calls []); rewrite length_replicate; cbn; lia|].
  intros [prepared completions] w2 H2 _ (Hfor & Hlen & _ & Hcalls). cbn [fst snd] in *. rewrite (proj1 (proj2 H1)) in H2.
  rewrite length_replicate in Hlen.
  assert (Hpend : (length (omap pending_of prepared) <= length calls)%nat).
  { clear -Hfor. revert Hfor. generalize (length (@nil AgentToolCall)). revert prepared.
    induction calls as [|c rest IH]; intros [|p prepared] n; try done; cbn.
    intros (_ & _ & Hfor). specialize (IH _ _ Hfor). destruct (pending_of p); cbn; lia. }
  eapply told_bind; [done|apply (quiet_drive_parallel calls _ _ _ _ (w_open w))| ].
  - constructor; [done|by apply (prepared_serves [])|]. intros i c Hi. by apply Hcalls.
  - apply H2.
  - pose proof (unrest_bounds w2). lia.
  - intros completions' w3 H3 _ [_ _ Hdone]. apply (wp_record_results prepared completions' true None calls []); [done| |done].
    intros k c Hk. destruct (Hdone k c Hk) as [Hf|He]; [done|]. by apply elem_of_nil in He.
Qed.
End proofs.

Local Open Scope N_scope.

(** ** The whole batch *)

Lemma wp_execute_tool_calls `{Miniserde} host D fuel registry limit show_arguments show_json calls w :
  settles_down host D -> (2 * D + 1 + length calls < fuel)%nat ->
  wp (execute_tool_calls host registry limit show_arguments show_json fuel calls)
    (batch_done w calls (w_open w)) (broke w calls) w.
Proof.
  intros Hhost Hfuel. pose proof (told_refl w) as Hw. unfold execute_tool_calls.
  destruct (_ && _); [|destruct (has_sequential_tool _ _)].
  - unfold reject_exclusive_tool_batch.
    eapply wp_bind; [by eapply (wp_append_rejections host D fuel Hhost ltac:(lia) calls _ w [])|done|]. intros [] w' Hw'. by apply wp_ret.
  - apply (wp_execute_sequential host D fuel Hhost ltac:(lia) _ _ _ _ calls true w []). done.
  - by apply (wp_execute_parallel host D fuel Hhost ltac:(lia)).
Qed.

(** ** Composition with the structural check *)

(** Answers to calls of the conversation that have none yet keep it ordered. *)
Lemma answered_ordered before calls added id next :
  ordered before -> (forall m, m ∈ before -> message_id m < id) -> 0 < id -> id + N.of_nat (length calls) <= u64_max ->
  (forall c, c ∈ calls -> c ∈ calls_of before) -> NoDup (map tc_id calls) ->
  (forall c, c ∈ calls -> tc_id c ∉ map tr_tool_call_id (results_of before)) ->
  answered id calls added next ->
  ordered (before ++ added) /\ calls_of (before ++ added) = calls_of before /\
  map tr_tool_call_id (results_of (before ++ added)) = map tr_tool_call_id (results_of before) ++ map tc_id calls.
Proof.
  revert before added id. induction calls as [|c calls IH]; intros before [|m added] id Ho Hlt Hpos Hmax Hin Hnd Hnew Ha; try done.
  { by rewrite !app_nil_r. }
  destruct Ha as [(r & Hr & ->) Ha]. cbn [length] in Hmax. apply NoDup_cons in Hnd as [Hc Hnd].
  rewrite (cons_middle _ before added), app_assoc. set (m := result_message id (call_of c) r) in *.
  assert (Hcalls : calls_of (before ++ [m]) = calls_of before) by (rewrite calls_of_app; cbn; by rewrite app_nil_r).
  assert (Hresults : map tr_tool_call_id (results_of (before ++ [m])) = map tr_tool_call_id (results_of before) ++ [tc_id c]).
  { rewrite results_of_app, map_app. done. }
  unfold u64_saturating_add in Ha. rewrite N.min_l in Ha by lia.
  destruct (IH (before ++ [m]) added (id + 1)) as (H1 & H2 & H3); [..|done|].
  - apply ordered_snoc. split; [done|]. split; [cbn; unfold u64_max in *; lia|]. split.
    + intros (x & Hx & Hxin)%list_elem_of_fmap. specialize (Hlt x Hxin). cbn in Hx. lia.
    + split; [|apply Hnew; by left]. exists c. split; [apply Hin; by left|done].
  - intros x [Hx| ->%list_elem_of_singleton]%elem_of_app; [specialize (Hlt x Hx); lia|]. cbn. lia.
  - lia.
  - lia.
  - intros x Hx. rewrite Hcalls. apply Hin. by right.
  - done.
  - intros x Hx. rewrite Hresults, not_elem_of_app. split; [apply Hnew; by right|]. intros Heq%list_elem_of_singleton.
    apply Hc. rewrite <- Heq. by apply list_elem_of_fmap_2.
  - split_and!; [done|by rewrite H2|]. by rewrite H3, Hresults, <- app_assoc.
Qed.

(** ** A host for the examples *)

(** Two calls of one assistant message to a tool that runs in parallel. *)
#[local] Instance lenient_codec : Miniserde := {| mini_to_string _ := "{}"; mini_from_str _ := Some (MiniObject []) |}.
Definition leaf_tool (name : string) (access : CompositionAccess) : AgentTool :=
  mk_agent_tool name "" (json_object [("type", JsonString "object")]) Parallel false DropFuture Direct access true.
Definition two_tools : ToolRegistry :=
  registry_insert (registry_insert registry_default (leaf_tool "read" NoComposition)) (leaf_tool "script" CallAccess).
Definition asks_for (names : list string) : AssistantMessage :=
  mk_assistant 2 [] (zip_with (fun id name => mk_call id name "{}") ["c0"; "c1"] names) None None [] None.
Definition world_of (a : AssistantMessage) : RunEnv :=
  mk_run_env (agent_state_default <| as_messages := [User 1 "go"; Assistant a] |> <| as_next_message_id := 3 |>
                <| as_phase := PhaseRunning 1 |>)
    (run_created 1) policy_state_default false 0 [] ∅ (Some 1) (mk_queues queue_default queue_default) (DrainAll, DrainAll)
    (ledger_new 0) ∅ 0 ∅.

(** The first call reports progress at boundary 20 and is polled to its end, the second never
    ends by itself before boundary 200; the run is cancelled at boundary 40. *)
Definition reading (t : nat) (call : ToolCall) (w : RunEnv) : RunEnv * option ToolExecution_ :=
  (w, if (200 <=? t)%nat || ((30 <=? t)%nat && String.eqb (cl_id call) "c0")
      then Some (inr (mk_tool_result (cl_id call) "text" None None [] false false None)) else None).
Definition cancelling_host : Host :=
  {| h_interfere t w :=
       let w := if (40 <=? t)%nat then w <| w_cancelled := true |> else w in
       if (t =? 20)%nat then w <| w_updates ::= fun l => l ++ [("c0", "read", mk_tool_update "half" None None)] |> else w;
     h_gate_before _ _ := None;
     h_gate_after _ _ _ := None;
     h_before_tool _ _ := inr Allow;
     h_after_tool _ _ _ := inr after_default;
     h_poll := reading;
     h_transform _ context := inr context;
     h_prepare_next_turn _ _ := inr (mk_turn_update None None None);
     h_should_stop _ _ := inr true;
     h_projection _ _ := InPlace;
     h_stream _ _ := None;
     h_next_event _ _ := inr None;
     h_compact _ _ _ _ := CompactorReturns (inl (CompactorFailed [])) |}.

Lemma cancelling_host_settles : settles_down cancelling_host 200.
Proof.
  constructor; intros; cbn [h_interfere h_poll cancelling_host]; try done.
  - by repeat case_match.
  - by repeat case_match.
  - by repeat case_match.
  - destruct (Nat.eqb_spec t 20); [lia|]. by case_match.
  - unfold reading. cbn [snd]. destruct (Nat.leb_spec 200 t); [by eexists|lia].
Qed.

Section example.
Definition run_batch (names : list string) : option (RunEnv * Outcome CoreError ToolBatchOutcome) :=
  execute_tool_calls cancelling_host two_tools None (fun _ => "") (fun _ => "") 405 (am_tool_calls (asks_for names))
    (world_of (asks_for names)).
Example batch_answers :
  match run_batch ["read"; "read"] with
  | Some (w, Ok _) =>
      map (fun m => match m with ToolResult r => (tr_id r, tr_tool_call_id r, tr_content r) | _ => (0, "", "") end)
        (drop 2 (as_messages (w_agent w)))
  | _ => []
  end = [(3, "c0", "text"); (4, "c1", "Operation aborted")].
Proof. vm_compute. reflexivity. Qed.
End example.

(** ** A cancelled composition *)

(** The script starts a nested call when it is first polled, through the same preparation as the
    run, and waits for it. *)
Definition nested_call : ToolCall := mk_tool_call "c0.1" "read" "{}".
Definition composing (t : nat) (call : ToolCall) (w : RunEnv) : RunEnv * option ToolExecution_ :=
  if negb (w_next_effect_id w =? 2) then (w, None) else
  match prepare_tool_call_for cancelling_host two_tools (fun _ => "") (fun _ => "") nested_call (Some (cl_id call)) w with
  | Some (w', Ok (_, Execute _ _)) => (w', None)
  | _ => (w, None)
  end.
Definition composing_host : Host :=
  {| h_interfere := h_interfere cancelling_host;
     h_gate_before := h_gate_before cancelling_host;
     h_gate_after := h_gate_after cancelling_host;
     h_before_tool := h_before_tool cancelling_host;
     h_after_tool := h_after_tool cancelling_host;
     h_poll := composing;
     h_transform := h_transform cancelling_host;
     h_prepare_next_turn := h_prepare_next_turn cancelling_host;
     h_should_stop := h_should_stop cancelling_host;
     h_projection := h_projection cancelling_host;
     h_stream := h_stream cancelling_host;
     h_next_event := h_next_event cancelling_host;
     h_compact := h_compact cancelling_host |}.

(** ** Theorems *)



(** C13: A successful batch completes the conversation: if the history before the assistant
    message passed the structural check and the message itself is admissible, then the history
    after the batch passes the check, so no call is left without a result and none has two. *)
Theorem completed_batch_validates `{Miniserde} host D fuel registry limit show_arguments show_json before a w w' outcome :
  settles_down host D -> (2 * D + 1 + length (am_tool_calls a) < fuel)%nat ->
  validate_messages before = Ok tt ->
  as_messages (w_agent w) = before ++ [Assistant a] -> ordered (before ++ [Assistant a]) ->
  (forall m, m ∈ as_messages (w_agent w) -> message_id m < as_next_message_id (w_agent w)) ->
  as_next_message_id (w_agent w) + N.of_nat (length (am_tool_calls a)) <= u64_max ->
  execute_tool_calls host registry limit show_arguments show_json fuel (am_tool_calls a) w = Some (w', Ok outcome) ->
  validate_messages (as_messages (w_agent w')) = Ok tt.
Proof.
  intros Hhost Hfuel Hbefore Hm Ho Hids Hmax Hrun. rewrite validate_messages_ok in Hbefore |- *.
  pose proof (wp_execute_tool_calls host D fuel registry limit show_arguments show_json (am_tool_calls a) w Hhost Hfuel) as Hwp.
  revert Hwp. unfold wp. rewrite Hrun. intros [(added & Ha & Hadd) _].
  change (talk w').1 with (as_messages (w_agent w')) in Hadd. change (talk w).1 with (as_messages (w_agent w)) in Hadd.
  rewrite Hadd, Hm. rewrite Hm in Hids. destruct Hbefore as [Hob Hall].
  apply ordered_snoc in Ho as Hsnoc. destruct Hsnoc as [_ (_ & _ & Hnd & Hfresh)].
  assert (Hcalls : calls_of (before ++ [Assistant a]) = calls_of before ++ am_tool_calls a).
  { rewrite calls_of_app. cbn. by rewrite app_nil_r. }
  assert (Hresults : results_of (before ++ [Assistant a]) = results_of before).
  { rewrite results_of_app. cbn. by rewrite app_nil_r. }
  destruct (answered_ordered (before ++ [Assistant a]) (am_tool_calls a) added (talk w).2 (talk w').2 Ho Hids) as (H1 & H2 & H3).
  - change (0 < as_next_message_id (w_agent w)). specialize (Hids (Assistant a)). lapply Hids; [lia|]. apply elem_of_app. right. by apply list_elem_of_singleton.
  - done.
  - intros c Hc. rewrite Hcalls. apply elem_of_app. by right.
  - done.
  - intros c Hc. rewrite Hresults. intros (r & Heq & Hr)%list_elem_of_fmap.
    apply list_elem_of_omap in Hr as (m & Hmin & Hres). apply list_elem_of_split in Hmin as (l1 & l2 & Hl).
    destruct m as [| |r'|]; try done. injection Hres as ->.
    destruct (ordered_answers _ Hob l1 r l2 Hl) as (call & Hcall & Hid & _). apply (Hfresh c Hc).
    rewrite Heq, <- Hid, Hl, calls_of_app, map_app. apply elem_of_app. left. by apply list_elem_of_fmap_2.
  - exact Ha.
  - split; [done|]. intros call Hcall. rewrite H2, Hcalls in Hcall. rewrite H3, Hresults. apply elem_of_app.
    apply elem_of_app in Hcall as [Hc|Hc]; [left; by apply Hall|right; by apply list_elem_of_fmap_2].
Qed.

Lemma completed_batch_validates_witness :
  exists w o, run_batch ["read"; "read"] = Some (w, Ok o) /\ validate_messages (as_messages (w_agent w)) = Ok tt.
Proof.
  assert (exists w o, run_batch ["read"; "read"] = Some (w, Ok o)) as (w & o & Hr).
  { do 2 eexists. vm_compute. reflexivity. }
  exists w, o. split; [exact Hr|].
  eapply (completed_batch_validates cancelling_host 200 405 two_tools None (fun _ => "") (fun _ => "") [User 1 "go"]
            (asks_for ["read"; "read"]) (world_of (asks_for ["read"; "read"]))); [exact cancelling_host_settles|cbn; lia|vm_compute; reflexivity|reflexivity| | | |exact Hr].
  - apply (proj1 (validation_collects _ (collected [User 1 "go"; Assistant (asks_for ["read"; "read"])]))).
    vm_compute. reflexivity.
  - apply (Forall_forall (fun m => message_id m < 3)). apply Forall_cons. split; [reflexivity|]. by apply Forall_singleton.
  - vm_compute. discriminate.
Defined.

