(* ===== verification/RunRequest.v ===== *)
(** * tea-core: the steps of a drive around its requests
    ([crates/tea-core/src/run/mod.rs])

    What a drive does outside its stream and its tools: finishing a run and
    settling a failed one, draining the queues, bringing the configuration up
    to date, building a transcript behind the context hook, and routing a
    selection to a model.  Display texts of errors are a parameter. *)

From stdpp Require Import base gmap gmultiset sets list strings.
From S2P Require Import Prelude RustStr Json Ids SessionErrors Configuration Messages Transcript TranscriptJson.
From S2P Require Import CoreState SchemaValidation Tools Compaction RequestContext AgentLifecycle Measurement RunWorld ToolRun.

Local Open Scope N_scope.
Local Open Scope run_scope.

(** [let _ = computation], an error that is handled and passed on, and a result that is inspected. *)
Definition ignore {A} (m : M A) : M unit := fun w =>
  match m w with
  | Some (w, Ok _) | Some (w, Err _) => Some (w, Ok ())
  | Some (w, Panic reason) => Some (w, Panic reason)
  | None => None
  end.
Definition on_error {A} (m : M A) (handler : CoreError -> M unit) : M A := fun w =>
  match m w with
  | Some (w, Err e) => mbind_ (handler e) (fun _ => mfail e) w
  | r => r
  end.

Definition try_run {A} (m : M A) : M (CoreError + A) := fun w =>
  match m w with
  | Some (w, Ok a) => Some (w, Ok (inr a))
  | Some (w, Err e) => Some (w, Ok (inl e))
  | Some (w, Panic reason) => Some (w, Panic reason)
  | None => None
  end.

(** What a run captured, and what of its agent cannot be replaced while a run is active: the
    provider, the routers, the compaction policy and the strategy of the compactor. *)
Record RunSetup := mk_setup {
  su_prompt : SystemPrompt;
  su_registry : ToolRegistry;
  su_projection : ToolResultProjectionPolicy;
  su_circuit_breaker : option N;
  su_virtual_models : list VirtualModel;
  su_has_provider : bool;
  su_session_id : option string;
  su_initial_messages : list AgentMessage;
  su_message_start_index : nat;
  su_skip_initial_steering : bool;
  su_recovery_tool_calls : option (list AgentToolCall);
  su_recovery_prior_all_terminate : option bool;
  su_automatic_compaction : AutomaticCompactionPolicy;
  su_compactor : option CompactionStrategy;
}.

(** [AssistantTurnContinuation] and [NextTurn]: what a turn hands to the next. *)
Record NextTurn := mk_next_turn {
  nt_turn_id : N;
  nt_context : option ContextEnvelope;
  nt_model_override : option ModelDescriptor;
  nt_thinking_override : option ThinkingLevel;
}.

Section drive.
Context `{Blake3} `{Miniserde} (host : Host) (setup : RunSetup).
Context (show_arguments : ArgumentsMessage -> string) (show_json : JsonError -> string) (show_error : CoreError -> string).
Abbreviation registry := (su_registry setup).

(** ** Sections under locks *)

Definition lock_run (section : RunState AgentEventKind -> Outcome CoreError (RunState AgentEventKind)) : M unit :=
  do! boundary host in
  fun w =>
    match section (w_run w) with
    | Ok run => Some (w <| w_run := run |>, Ok ())
    | Err e => Some (w, Err e)
    | Panic reason => Some (w, Panic reason)
    end.
Definition read_run {A} (f : RunState AgentEventKind -> A) : M A :=
  do! boundary host in
  fun w => Some (w, Ok (f (w_run w))).
Definition with_queues {A} (section : AgentQueues -> QueueMode * QueueMode -> A * AgentQueues) : M A :=
  do! boundary host in
  fun w => let '(a, queues) := section (w_queues w) (w_modes w) in Some (w <| w_queues := queues |>, Ok a).
Definition with_ledger {A} (section : PromptLayoutLedger -> Outcome CoreError (A * PromptLayoutLedger)) : M A := fun w =>
  match section (w_ledger w) with
  | Ok (a, ledger) => Some (w <| w_ledger := ledger |>, Ok a)
  | Err e => Some (w, Err e)
  | Panic reason => Some (w, Panic reason)
  end.

(** ** Settling *)

(** [RunHandle::finish] with [settle_agent]. *)
Definition settle_agent (error : option string) : M unit :=
  do! boundary host in
  fun w => Some (w <| w_agent := settle_agent_state (w_agent w) Idle error |> <| w_active := None |>, Ok ()).
Definition finish (phase : RunPhase) (reason : StopReason) (error : option string) : M unit :=
  do! lock_run (fun run => run_finish run phase reason error) in
  settle_agent error.

(** [new_messages], [emit_agent_end], [emit_agent_end_and_succeed]. *)
Definition new_messages : M (list AgentMessage) :=
  lock_agent host (fun s => (drop (su_message_start_index setup) (as_messages s), s)).
Definition emit_agent_end : M unit :=
  let! messages := new_messages in
  emit host (EventAgentEnd messages).
Definition emit_agent_end_and_succeed (reason : StopReason) : M unit :=
  do! emit_agent_end in
  finish RunSucceeded reason None.

Definition emit_message (message : AgentMessage) : M unit :=
  do! emit host (EventMessageStart message) in
  emit host (EventMessageEnd message).

Definition current_turn : M N :=
  let! turn_id := read_run rs_turn_id in mret (default 1 turn_id).

(** [settle_failure]. *)
Definition empty_assistant (id : N) (stop_reason : option StopReason) (error_message : option string)
    (origin : option ModelDescriptor) : AgentMessage :=
  Assistant (mk_assistant id [] [] stop_reason error_message [] origin).
Definition settle_failure (error : CoreError) : M unit :=
  let! failure := lock_agent host (fun s =>
    let '(id, s) := allocate_message_id s in
    let message := empty_assistant id (Some Error) (Some (show_error error)) None in
    (message, append_message (s <| as_partial_response := None |> <| as_pending_tool_calls := ∅ |>) message)) in
  let! turn_id := current_turn in
  do! ignore (emit host (EventMessageStart failure)) in
  do! ignore (emit host (EventMessageEnd failure)) in
  do! ignore (emit host (EventTurnEnd turn_id Error)) in
  do! ignore emit_agent_end in
  ignore (finish RunFailed Error (Some (show_error error))).

(** [settle_compaction_boundary_failure], [settle_compaction_boundary_cancellation]. *)
Definition clear_section : M unit := lock_agent host (fun s => ((), clear_transient s)).
Definition settle_compaction_boundary_failure (error : CoreError) : M unit :=
  do! clear_section in
  let! turn_id := current_turn in
  do! ignore (emit host (EventTurnEnd turn_id Error)) in
  do! ignore emit_agent_end in
  ignore (finish RunFailed Error (Some (show_error error))).
Definition settle_compaction_boundary_cancellation : M unit :=
  do! clear_section in
  let! turn_id := current_turn in
  do! ignore (emit host (EventTurnEnd turn_id Cancelled)) in
  do! ignore emit_agent_end in
  ignore (finish RunCancelled Cancelled None).

(** [settle_cancellation]. *)
Definition aborted_last (messages : list AgentMessage) : bool :=
  match last messages with
  | Some (Assistant a) => bool_decide (am_stop_reason a = Some Aborted)
  | _ => false
  end.
Definition settle_cancellation : M unit :=
  let! turn_id := current_turn in
  let! failure := lock_agent host (fun s =>
    let s := clear_transient s in
    if aborted_last (as_messages s) then (None, s)
    else
      let '(id, s) := allocate_message_id s in
      let message := empty_assistant id (Some Aborted) (Some OPERATION_ABORTED) None in
      (Some message, append_message s message)) in
  do! match failure with
      | Some message =>
          do! ignore (emit host (EventMessageStart message)) in
          ignore (emit host (EventMessageEnd message))
      | None => mret ()
      end in
  do! ignore (emit host (EventTurnEnd turn_id Aborted)) in
  do! ignore emit_agent_end in
  ignore (finish RunCancelled Aborted None).

(** ** Queues *)

(** [drain_steering], [drain_follow_up], [inject_queued_messages]. *)
Definition drain_steering : M (list QueuedMessage) :=
  with_queues (fun queues modes =>
    let '(drained, steering) := queue_drain (aq_steering queues) modes.1 in (drained, mk_queues steering (aq_follow_up queues))).
Definition drain_follow_up : M (list QueuedMessage) :=
  with_queues (fun queues modes =>
    let '(drained, follow_up) := queue_drain (aq_follow_up queues) modes.2 in (drained, mk_queues (aq_steering queues) follow_up)).
Fixpoint inject_queued_messages (context : ContextEnvelope) (queued : list QueuedMessage) : M ContextEnvelope :=
  match queued with
  | [] => mret context
  | q :: queued =>
      let! message := lock_agent host (fun s =>
        let '(id, s) := allocate_message_id s in
        let message := User id (qm_content q) in
        (message, append_message s message)) in
      let context := mk_envelope (ce_version context) (ce_messages context ++ [message]) (ce_host_messages context) in
      do! emit_message message in
      inject_queued_messages context queued
  end.

(** ** A request *)

(** [synchronize_configuration]. *)
Definition synchronize_configuration (context : option ContextEnvelope) : M (option ContextEnvelope) :=
  let! update := lock_agent host (fun s => (needed_update (su_prompt setup) registry (as_messages s), s)) in
  match update with
  | None => mret context
  | Some update =>
      do! match update_validate update with
          | Ok _ => mret ()
          | Err e => mfail (InvalidConfiguration (configuration_error_display e))
          | Panic reason => of_outcome (Panic reason)
          end in
      let! durable_write := begin_effect host (DurableWriteEffect (WriteConfiguration update)) in
      do! settle_effect host durable_write DurableWriteSucceeded in
      let! message := lock_agent host (fun s =>
        let '(id, s) := allocate_message_id s in
        let message := System id update in
        (message, append_message s message)) in
      do! emit_message message in
      mret (match context with
            | Some context =>
                Some (mk_envelope (ce_version context) (ce_messages context ++ [message]) (ce_host_messages context))
            | None => None
            end)
  end.

(** [build_transcript]. *)
Definition build_transcript (context : ContextEnvelope) : M Transcript :=
  let projected := project_model_context context (su_projection setup) in
  let! transform_effect := begin_effect host (HookInvocationEffect TransformContext) in
  let! transformed := (let! t := boundary host in mret (h_transform host t projected)) in
  do! settle_hook host transform_effect transformed in
  match transformed with
  | inl error => mfail (HookFailed error)
  | inr transformed =>
      let! transcript := lock_agent host (fun s => (request_transcript transformed (as_messages s) registry, s)) in
      of_outcome transcript
  end.

(** [route_model]. *)
Definition routing_error {A} (message : Message) : M A := mfail (ModelRoutingError message).
Definition after_user (messages : list AgentMessage) : bool :=
  match List.find (fun m => negb (is_system m)) (reverse messages) with Some (User _ _) => true | _ => false end.
Definition find_virtual (selected : ModelDescriptor) : option VirtualModel :=
  List.find (fun v => bool_decide (vm_descriptor v = selected)) (su_virtual_models setup).
Definition store_router_state (v : VirtualModel) (selected : ModelDescriptor) (state : option JsonValue) (route : Route) : M unit :=
  match ro_state route with
  | Some value =>
      if match state with Some state => value ==? state | None => false end then mret ()
      else
        match vm_state_namespace v with
        | None => routing_error [Lit "router for "; Lit (format_descriptor selected);
                                 Lit " returned state but has no state namespace"]
        | Some namespace =>
            match to_json_string value with
            | Ok text =>
                let! durable_write := begin_effect host (DurableWriteEffect (WriteRouterState namespace text)) in
                do! settle_effect host durable_write DurableWriteSucceeded in
                fun w => Some (w <| w_router_state ::= fun m => <[namespace := value]> m |>, Ok ())
            | Err e => routing_error [Lit "router state is not JSON: "; OfJson e]
            | Panic reason => of_outcome (Panic reason)
            end
        end
  | None => mret ()
  end.
Definition set_routed (model : ModelDescriptor) : M unit :=
  lock_policy (fun p => ((), p <| ps_routed_physical := Some model |>)).
Definition Dispatch : Type := option ModelDescriptor * option ModelDescriptor * ThinkingLevel.
Definition ask_router (v : VirtualModel) (selected : ModelDescriptor) (thinking_level : ThinkingLevel) (reason : RouteReason)
    (state : option JsonValue) (messages : list AgentMessage) : M Dispatch :=
  match vm_router v (mk_route_request selected thinking_level reason (latest_physical messages) (vm_targets v) state messages) with
  | inl message => routing_error [Lit "router for "; Lit (format_descriptor selected); Lit " failed: "; Lit message]
  | inr route =>
      if negb (approves v (ro_target route)) then
        routing_error [Lit "router for "; Lit (format_descriptor selected); Lit " chose ";
                       Lit (format_descriptor (ro_target route)); Lit ", which is not a host-approved target"]
      else
        do! store_router_state v selected state route in
        do! set_routed (ro_target route) in
        mret (Some (ro_target route), Some selected, default thinking_level (ro_thinking_level route))
  end.
Definition sticky_target (v : VirtualModel) (reason : RouteReason) (sticky : option ModelDescriptor)
    (messages : list AgentMessage) : option ModelDescriptor :=
  if bool_decide (reason = RouteUser) || bool_decide (vm_continuations v = Routed) then None
  else match (match sticky with Some model => Some model | None => latest_physical messages end) with
       | Some model => if approves v model then Some model else None
       | None => None
       end.
Definition route_virtual (v : VirtualModel) (selected : ModelDescriptor) (thinking_level : ThinkingLevel) : M Dispatch :=
  if is_nil (vm_targets v)
  then routing_error [Lit "virtual model "; Lit (format_descriptor selected); Lit " has no host-approved targets"]
  else
    let! messages := lock_agent host (fun s => (as_messages s, s)) in
    let! (reason, sticky) := lock_policy (fun p =>
      ((if ps_overflow_retried_this_continuation p then RouteRetry
        else if after_user messages then RouteUser else RouteContinuation, ps_routed_physical p), p)) in
    let! state := (fun w => Some (w, Ok (match vm_state_namespace v with
                                         | Some namespace =>
                                             match w_router_state w !! namespace with
                                             | Some value => Some value
                                             | None => vm_state v
                                             end
                                         | None => None
                                         end))) in
    match sticky_target v reason sticky messages with
    | Some physical => do! set_routed physical in mret (Some physical, Some selected, thinking_level)
    | None => ask_router v selected thinking_level reason state messages
    end.
Definition route_model (selected : option ModelDescriptor) (thinking_level : ThinkingLevel) : M Dispatch :=
  match selected with
  | None => mret (None, None, thinking_level)
  | Some selected =>
      if negb (String.eqb (md_provider selected) VIRTUAL_PROVIDER) then mret (Some selected, None, thinking_level)
      else
        match find_virtual selected with
        | None => routing_error [Lit "virtual model "; Lit (format_descriptor selected); Lit " has no router in this session"]
        | Some v => route_virtual v selected thinking_level
        end
  end.

(** [model_request]. *)
Definition owns (run_id : N) (s : CoreAgentState) : bool := bool_decide (active_owner s = Some run_id).
Definition check_owner (run_id : N) (operation : string) : M unit :=
  let! owned := lock_agent host (fun s => (owns run_id s, s)) in
  if owned : bool then mret () else mfail (transition_error "agent" "not-running" operation).
Definition model_request (run_id : N) (turn : NextTurn) : M ModelRequest :=
  do! check_owner run_id "model_request" in
  let! context := synchronize_configuration (nt_context turn) in
  let! (context, selected, thinking_level) := lock_agent host (fun s =>
    ((match context with
      | Some context => context
      | None => mk_envelope 1 (as_messages s) (as_host_messages s)
      end,
      match nt_model_override turn with Some model => Some model | None => as_model s end,
      default (as_thinking_level s) (nt_thinking_override turn)),
     s <| as_is_streaming := true |>)) in
  let! (model, selected_model, thinking_level) := route_model selected thinking_level in
  let! transcript := build_transcript context in
  mret (mk_request PurposeTurn transcript model selected_model thinking_level (su_session_id setup) None).
End drive.
