(* ===== verification/CompactionRun.v ===== *)
(** * tea-core: driving a compaction
    ([crates/tea-core/src/compaction.rs], [maybe_automatic_compaction] of
    [run/mod.rs])

    A compactor proposes a replacement of the conversation.  It reaches its
    provider only through a port that admits one request and announces it to
    the effect gate.  A proposal is checked, written durably and only then
    published, against the generation of the history it was made for.  The
    compactor is any sequence of port operations that ends in a result. *)

From stdpp Require Import base gmap gmultiset sets list strings.
From S2P Require Import Prelude RustStr Json Ids SessionErrors Configuration Messages Transcript TranscriptJson.
From S2P Require Import CoreState SchemaValidation Tools Compaction RequestContext AgentLifecycle Measurement RunWorld ToolRun.
From S2P Require Import RunRequest.

Local Open Scope N_scope.
Local Open Scope run_scope.

(** [CoreCompactionRequestPort]; tickets are handed out in increasing order. *)
Record RequestPort := mk_port {
  pq_next_ticket : N;
  pq_admitted : bool;
  pq_pending : list (N * EffectAction);
}.
Definition port_new : RequestPort := mk_port 0 false [].

Definition compactor_failed {A} (text : string) : CompactionError + A := inl (CompactorFailed [Lit text]).
Definition compaction_effect_error (error : CoreError) : CompactionError :=
  CompactorFailed (Lit "compaction effect gate rejected the operation: " :: core_error_display error).

(** [slice::ends_with]. *)
Definition slice_ends_with {A} `{PartialEq A} (l suffix : list A) : bool := slice_starts_with (reverse l) (reverse suffix).

(** [context.provider_context = Some(..)]. *)
Definition with_provider_context (c : CompactionContext) (provided : ProviderContext) : CompactionContext :=
  mk_compaction_context (cc_version c) (cc_system_prompt c) (cc_model c) (cc_session_id c) (cc_messages c)
    (cc_source_history_revision c) (cc_host_messages c) (Some provided).

Section compaction.
Context `{Blake3} `{Miniserde} (host : Host) (setup : RunSetup) (show_error : CoreError -> string).
Abbreviation Proposal := (CompactionResult AdapterRequestObservation).

(** ** The request port *)

(** [begin_provider_request], [settle_provider_request]. *)
Definition port_begin (operation : CompactionOperation) (port : RequestPort) (request : ModelRequest) :
    M (RequestPort * (CompactionError + N)) :=
  if pq_admitted port
  then mret (port, compactor_failed "a compaction operation may admit only one provider request")
  else
    let! effect := try_run (begin_effect host (CompactionProviderRequestEffect operation request)) in
    match effect with
    | inl error => mret (port, inl (compaction_effect_error error))
    | inr effect =>
        let ticket := u64_saturating_add (pq_next_ticket port) 1 in
        mret (mk_port ((pq_next_ticket port + 1) mod 2 ^ 64) true (pq_pending port ++ [(ticket, effect)]), inr ticket)
    end.
Definition port_settle (port : RequestPort) (ticket : N) (outcome : CompactionProviderEffectOutcome) :
    M (RequestPort * (CompactionError + unit)) :=
  match List.find (fun p => p.1 =? ticket) (pq_pending port) with
  | None => mret (port, compactor_failed "compactor settled a provider request that was not admitted")
  | Some (_, effect) =>
      let port := mk_port (pq_next_ticket port) (pq_admitted port) (List.filter (fun p => negb (p.1 =? ticket)) (pq_pending port)) in
      let! settled := try_run (settle_effect host effect (CompactionRequestSettled outcome)) in
      mret (port, match settled with inl error => inl (compaction_effect_error error) | inr _ => inr () end)
  end.

(** The compactor, step by step. *)
Fixpoint run_compactor (fuel : nat) (operation : CompactionOperation) (context : CompactionContext)
    (request : option AutomaticCompactionRequest) (replies : list PortReply) (port : RequestPort) :
    M (RequestPort * (CompactionError + Proposal)) :=
  match fuel with
  | O => fun _ => None
  | S fuel =>
      let! t := boundary host in
      match h_compact host t context request replies with
      | BeginRequest provider_request =>
          let! (port, reply) := port_begin operation port provider_request in
          run_compactor fuel operation context request (replies ++ [BeginReply reply]) port
      | SettleRequest ticket outcome =>
          let! (port, reply) := port_settle port ticket outcome in
          run_compactor fuel operation context request (replies ++ [SettleReply reply]) port
      | CompactorReturns result => mret (port, result)
      end
  end.

(** [settle_unfinished]. *)
Definition unsettled_text : string := "compactor returned without settling an admitted provider request".
Fixpoint settle_pending (pending : list (N * EffectAction)) (outcome : CompactionProviderEffectOutcome) : M (CompactionError + unit) :=
  match pending with
  | [] => mret (compactor_failed unsettled_text)
  | (_, effect) :: pending =>
      let! settled := try_run (settle_effect host effect (CompactionRequestSettled outcome)) in
      match settled with
      | inl error => mret (inl (compaction_effect_error error))
      | inr _ => settle_pending pending outcome
      end
  end.
Definition settle_unfinished (port : RequestPort) (cancelled : bool) : M (CompactionError + unit) :=
  if is_nil (pq_pending port) then mret (inr ())
  else settle_pending (pq_pending port)
         (if cancelled then CompactionRequestCancelled else CompactionRequestFailed unsettled_text).

(** A compactor with its port, from admission to settlement. *)
Definition propose (fuel : nat) (operation : CompactionOperation) (context : CompactionContext)
    (request : option AutomaticCompactionRequest) : M ((CompactionError + Proposal) * (CompactionError + unit)) :=
  let! (port, result) := run_compactor fuel operation context request [] port_new in
  let! cancelled := is_cancelled host in
  let! port_result := settle_unfinished port cancelled in
  mret (result, port_result).

(** ** Publication *)

(** [snapshot_context]. *)
Definition snapshot_context : M CompactionContext :=
  lock_agent host (fun s =>
    (mk_compaction_context COMPACTION_CONTEXT_VERSION (as_system_prompt s) (as_model s) (su_session_id setup) (as_messages s)
       (as_history_revision s) (as_host_messages s) None, s)).

(** [validate_replacement_precondition], under the agent lock. *)
Definition stale_source (expected : N) (s : CoreAgentState) : CoreError :=
  CompactionFailure (StaleSource expected (as_history_revision s)).
Definition validate_replacement_precondition (s : CoreAgentState) (run_id : N) (cancelled : bool) (expected : N) :
    Outcome CoreError unit :=
  if cancelled then Err CoreCancelled
  else if negb (bool_decide (as_phase s = PhaseRunning run_id)) then Err CoreCancelled
  else if negb (as_history_revision s =? expected) then Err (stale_source expected s)
  else Ok ().
(** [reserve_durable_replacement_commit], [publish_durable_replacement]. *)
Definition reserve_durable_replacement_commit (expected : N) : M unit :=
  do! boundary host in
  fun w => Some (w, validate_replacement_precondition (w_agent w) (rs_id (w_run w)) (w_cancelled w) expected).
Definition publish_durable_replacement (run_id expected : N) (replacement : list AgentMessage) : M unit :=
  let! published := lock_agent host (fun s =>
    if negb (owns run_id s) then (Err CoreCancelled, s)
    else if negb (as_history_revision s =? expected) then (Err (stale_source expected s), s)
    else (Ok (), replace_messages s replacement)) in
  of_outcome published.

(** [commit_replacement_durably]. *)
Definition commit_replacement_durably (operation : CompactionOperation) (source replacement : list AgentMessage) : M unit :=
  do! reserve_durable_replacement_commit (co_source_history_revision operation) in
  let replacement := preserve_configuration source replacement (configuration_id source replacement) in
  let! write := begin_effect host (DurableWriteEffect (WriteReplacement (mk_replacement operation source replacement))) in
  do! settle_effect host write DurableWriteSucceeded in
  let! run_id := read_run host rs_id in
  publish_durable_replacement run_id (co_source_history_revision operation) replacement.

(** ** Records of a compaction *)

(** [emit_compaction_lifecycle], [emit_lifecycle_terminal]. *)
Definition emit_compaction_lifecycle (record : CompactionLifecycleRecord AdapterRequestObservation) : M unit :=
  emit host (EventCompactionLifecycle record).
Definition emit_terminal (operation : CompactionOperation) (outcome : CompactionTerminalOutcome) : M unit :=
  emit_compaction_lifecycle (CompactionTerminal (co_id operation) outcome).
(** [automatic_source_generation_matches], [context_generation_matches]. *)
Definition source_generation_matches (expected : N) : M bool :=
  lock_agent host (fun s => (as_history_revision s =? expected, s)).
Definition usage_observed (operation : CompactionOperation) (proposal : Proposal) : M unit :=
  emit_compaction_lifecycle (ProviderUsageObserved (co_id operation) (cp_usage proposal) (cp_request_observation proposal)
    (match cp_request_layout proposal with
     | Some layout => Some (mk_request_observation layout None None true (cp_source_is_active_context_prefix proposal))
     | None => None
     end)).
Definition propose_replacement (operation : CompactionOperation) (messages : list AgentMessage)
    (tokens headroom : option N) (structure suffix : bool) : M unit :=
  let! matches_ := source_generation_matches (co_source_history_revision operation) in
  emit_compaction_lifecycle (ReplacementProposed (co_id operation)
    (mk_proposal_observation (length messages) (messages_bytes messages) tokens headroom structure suffix matches_)).

(** [build_provider_context]. *)
Definition build_provider_context (source active : ContextEnvelope) : M ProviderContext :=
  let! source := build_transcript host setup source in
  let! active := build_transcript host setup active in
  let! (model, thinking_level) := lock_agent host (fun s => ((as_model s, as_thinking_level s), s)) in
  mret (mk_provider_context source (Some active) model thinking_level (su_session_id setup)).

(** [ContextEstimator::estimate]. *)
Definition estimate_context (estimator : ContextEstimator) : M N :=
  lock_agent host (fun s => (context_estimate estimator (as_messages s), s)).

(** ** Automatic compaction *)

Section automatic.
Context (reason : AutomaticCompactionReason) (retry_provider_request : bool).
Abbreviation policy := (su_automatic_compaction setup).

Definition automatic_end (outcome : AutomaticCompactionOutcome) : M unit :=
  emit host (EventAutomaticCompactionEnd reason retry_provider_request outcome).
Definition bounded (error : CoreError) : string := truncate_middle (show_error error) (N.to_nat 1024).
Definition automatic_error {A} (message : string) : M A := mfail (AutomaticCompactionError reason [Lit message]).

(** Cancellation that won, and the failures before there is a proposal. *)
Definition automatic_cancelled {A} (operation : CompactionOperation) : M A :=
  do! lock_policy (fun p => ((), p <| ps_compaction_cancelled := true |>)) in
  do! automatic_end AutomaticCancelled in
  do! emit_terminal operation CompactionCancelled in
  mfail CoreCancelled.
Definition automatic_failed {A} (operation : CompactionOperation) (outcome : CompactionTerminalOutcome) (message : string) : M A :=
  do! automatic_end (AutomaticFailed message) in
  do! emit_terminal operation outcome in
  automatic_error message.
Definition port_failed {A} (operation : CompactionOperation) (error : CompactionError) : M A :=
  do! emit_terminal operation CompactionFailed in
  automatic_error (bounded (CompactionFailure error)).

(** A proposal that is refused. *)
Definition reject_proposal {A} (operation : CompactionOperation) (messages : list AgentMessage) (rejection : CompactionRejection)
    (message : string) (tokens headroom : option N) (structure suffix : bool) : M A :=
  do! automatic_end (AutomaticFailed message) in
  do! propose_replacement operation messages tokens headroom structure suffix in
  do! emit_terminal operation (CompactionRejected rejection) in
  automatic_error message.

(** The number of this compaction, or the limit. *)
Definition admit_compaction : M (N * bool) :=
  lock_policy (fun p =>
    if ap_max_compactions_per_run policy <=? ps_automatic_compactions p then ((ps_automatic_compactions p, true), p)
    else
      let count := u32_saturating_add (ps_automatic_compactions p) 1 in
      ((count, false), p <| ps_automatic_compactions := count |>)).

Definition begin_operation (operation : CompactionOperation) (canonical source retained split : list AgentMessage) : M unit :=
  do! emit_compaction_lifecycle (CompactionStarted operation) in
  emit_compaction_lifecycle (SourceSelected (co_id operation) (observe_source canonical source retained split)).

(** The context of the request the compactor may send. *)
Definition provider_context (operation : CompactionOperation) (context : CompactionContext) (source : list AgentMessage) :
    M ProviderContext := fun w =>
  match build_provider_context (mk_envelope (cc_version context) source (cc_host_messages context))
          (mk_envelope (cc_version context) (cc_messages context) (cc_host_messages context)) w with
  | Some (w, Err error) =>
      (let! cancelled := is_cancelled host in
       if cancelled : bool then automatic_cancelled operation
       else automatic_failed operation CompactionFailed (bounded error)) w
  | r => r
  end.
Definition request_prepared (operation : CompactionOperation) (provided : ProviderContext) : M unit :=
  let! text := of_outcome (layout_context (pv_source provided) InPlace) in
  emit_compaction_lifecycle (RequestPrepared (co_id operation)
    (mk_request_observation
       (match cs_request_layout (co_strategy operation) with ExactReplay => ExactReplay | _ => Unobserved end)
       (Some (utf8_len text)) (Some (length (transcript_tools (pv_source provided)))) true
       (Some (source_is_active_prefix provided)))).

(** The proposal of the compactor, or how it failed. *)
Definition await_proposal (fuel : nat) (operation : CompactionOperation) (context : CompactionContext)
    (request : AutomaticCompactionRequest) : M Proposal :=
  let! (result, port_result) := propose fuel operation context (Some request) in
  match result with
  | inl error =>
      match port_result with
      | inl port_error => port_failed operation port_error
      | inr _ =>
          let! cancelled := is_cancelled host in
          if cancelled : bool then automatic_cancelled operation
          else automatic_failed operation
                 (match error with CompactorTimedOut _ => CompactionTimedOut | _ => CompactionFailed end)
                 (bounded (CompactionFailure error))
      end
  | inr proposal =>
      match port_result with
      | inl port_error => port_failed operation port_error
      | inr _ =>
          let! cancelled := is_cancelled host in
          if cancelled : bool then automatic_cancelled operation else mret proposal
      end
  end.

(** The checks a proposal must pass: its size in tokens and the headroom it leaves. *)
Definition checkpoint_message (rejection : CompactionRejection) : option string :=
  match rejection with
  | EmptyCheckpoint => Some "automatic compactor returned an empty checkpoint"
  | UnexpectedToolCall => Some "automatic compactor checkpoint contained a tool call or result"
  | _ => None
  end.
Definition accept_proposal (operation : CompactionOperation) (source_bytes : N) (retained messages : list AgentMessage) : M unit :=
  match validate_messages messages with
  | Err error =>
      reject_proposal operation messages InvalidStructure (bounded (CompactionFailure error)) None None false false
  | Panic panic => of_outcome (Panic panic)
  | Ok _ =>
      if negb (is_nil retained) && negb (slice_ends_with messages retained) then
        reject_proposal operation messages RetainedSuffixMismatch
          "automatic compactor did not preserve the requested intact recent suffix" None None true false
      else
        match automatic_checkpoint_rejection messages (length retained) with
        | Some rejection =>
            match checkpoint_message rejection with
            | Some message => reject_proposal operation messages rejection message None None true true
            | None => of_outcome (Panic "checkpoint validation returns only checkpoint rejections")
            end
        | None =>
            if source_bytes <=? messages_bytes messages then
              reject_proposal operation messages NonShrinkingReplacement
                "automatic compactor replacement did not strictly reduce canonical history" None None true true
            else
              let tokens := estimate_messages_tokens messages in
              let headroom := budget_tokens (ap_context_budget policy) - tokens in
              if headroom <? ap_minimum_headroom_tokens policy then
                reject_proposal operation messages InsufficientHeadroom
                  "automatic compactor replacement left insufficient working headroom" (Some tokens) (Some headroom) true true
              else propose_replacement operation messages (Some tokens) (Some headroom) true true
        end
  end.

(** The durable commit with the records of how it failed. *)
Definition commit_failed (operation : CompactionOperation) (error : CoreError) : M unit :=
  match error with
  | CoreCancelled =>
      do! lock_policy (fun p => ((), p <| ps_compaction_cancelled := true |>)) in
      do! automatic_end AutomaticCancelled in
      emit_terminal operation CompactionCancelled
  | CompactionFailure (StaleSource _ _) => emit_terminal operation (CompactionRejected StaleSourceGeneration)
  | _ => mret ()
  end.
Definition commit_proposal (operation : CompactionOperation) (source messages : list AgentMessage) : M unit :=
  do! on_error (commit_replacement_durably operation source messages) (commit_failed operation) in
  do! emit_terminal operation CompactionCommitted in
  let! cancelled := is_cancelled host in
  if cancelled : bool then
    do! lock_policy (fun p => ((), p <| ps_compaction_cancelled := true |>)) in
    do! automatic_end AutomaticCancelled in
    mfail CoreCancelled
  else mret ().

(** What follows a committed compaction. *)
Definition after_compaction (estimator : ContextEstimator) : M (bool * ContextEstimator) :=
  do! with_ledger (fun l => Ok ((), expect_next_transition l ExpectRebased)) in
  let estimator := reset_after_compaction estimator in
  let! estimated_tokens_after := estimate_context estimator in
  let still_above := threshold_tokens policy <=? estimated_tokens_after in
  do! (if still_above then
         let! message_count := lock_agent host (fun s => (length (as_messages s), s)) in
         lock_policy (fun p => ((), p <| ps_compaction_blocked_message_count := Some message_count |>))
       else mret ()) in
  do! automatic_end (if still_above then AutomaticStillAboveThreshold else AutomaticSucceeded (Some estimated_tokens_after)) in
  mret (true, estimator).

(** The transaction, once the split has found something to summarise. *)
Definition compact_automatically (fuel : nat) (estimator : ContextEstimator) (estimated_tokens_before : N)
    (source_message_count : nat) (context : CompactionContext) (prefix retained split : list AgentMessage) :
    M (bool * ContextEstimator) :=
  let source := prefix ++ split in
  let! (count, limit_reached) := admit_compaction in
  if limit_reached : bool then
    do! automatic_end AutomaticLimitReached in
    automatic_error "automatic compaction limit reached"
  else
    do! emit host (EventAutomaticCompactionStart reason source_message_count (Some estimated_tokens_before)
                     retry_provider_request count) in
    do! emit host (EventProviderRequestSkipped SkippedForCompaction) in
    let! ordinal := (if retry_provider_request then lock_policy (fun p => (Some (ps_overflow_retries p), p)) else mret None) in
    let! run_id := (fun w => Some (w, Ok (rs_id (w_run w)))) in
    let operation := automatic_operation run_id count reason retry_provider_request ordinal (cc_source_history_revision context) in
    match su_compactor setup with
    | None =>
        let operation := operation caller_supplied in
        do! begin_operation operation (cc_messages context) source retained split in
        do! emit_terminal operation CompactionUnavailable in
        do! automatic_end AutomaticUnavailable in
        mfail (AutomaticCompactionUnavailable reason)
    | Some strategy =>
        let operation := operation strategy in
        do! begin_operation operation (cc_messages context) source retained split in
        let! provided := provider_context operation context source in
        do! request_prepared operation provided in
        let request := mk_automatic_request reason (Some estimated_tokens_before) (budget_tokens (ap_context_budget policy))
                         (ap_reserved_tokens policy) (ap_recent_tokens policy) prefix retained split retry_provider_request in
        let! proposal := await_proposal fuel operation (with_provider_context context provided) request in
        do! usage_observed operation proposal in
        do! accept_proposal operation (messages_bytes (cc_messages context)) retained (cp_messages proposal) in
        do! commit_proposal operation (cc_messages context) (cp_messages proposal) in
        after_compaction estimator
    end.

(** [maybe_automatic_compaction]: whether it compacted, and the estimator. *)
Definition maybe_automatic_compaction (fuel : nat) (estimator : ContextEstimator) : M (bool * ContextEstimator) :=
  if negb (ap_enabled policy) then mret (false, estimator)
  else
    let! estimated_tokens_before := estimate_context estimator in
    let threshold := match reason with AutomaticThreshold => true | AutomaticOverflow => false end in
    if threshold && (estimated_tokens_before <? threshold_tokens policy) then mret (false, estimator)
    else
      let! source_message_count := lock_agent host (fun s => (length (as_messages s), s)) in
      let! blocked := lock_policy (fun p =>
        (threshold && bool_decide (ps_compaction_blocked_message_count p = Some source_message_count), p)) in
      if blocked : bool then mret (false, estimator)
      else
        let! context := snapshot_context in
        let! (prefix, retained, split) := of_outcome (automatic_compaction_split (cc_messages context) (ap_recent_tokens policy)) in
        if is_nil (prefix ++ split) then mret (false, estimator)
        else compact_automatically fuel estimator estimated_tokens_before source_message_count context prefix retained split.
End automatic.

(** [emit_context_estimate]. *)
Definition emit_context_estimate (request : ModelRequest) (estimated_context_tokens : N) : M unit :=
  let! (count, message_bytes, result_bytes) := lock_agent host (fun s =>
    ((length (as_messages s), estimate_messages_bytes (as_messages s), estimate_tool_result_bytes (as_messages s)), s)) in
  let! text := of_outcome (layout_context (mr_transcript request) InPlace) in
  emit host (EventContextEstimate (Some estimated_context_tokens)
    (u64_saturating_add (utf8_len (transcript_prompt (mr_transcript request))) (utf8_len text))
    count message_bytes result_bytes).

(** ** Manual compaction *)

(** [CompactionHandle::{settle_failure, settle_cancelled, settle_emit_failure}]. *)
Definition compaction_settle_failure {A} (error : CompactionError) : M A :=
  do! emit host (EventCompactionEnd (OutcomeFailed (show_error (CompactionFailure error)))) in
  do! ignore (finish host RunFailed Error (Some (show_error (CompactionFailure error)))) in
  mfail (CompactionFailure error).
Definition compaction_settle_cancelled {A} : M A :=
  do! emit host (EventCompactionEnd OutcomeCancelled) in
  do! finish host RunCancelled Cancelled None in
  mfail CoreCancelled.
Definition settle_emit_failure {A} (error : CoreError) : M A :=
  do! ignore (finish host RunFailed Error (Some (show_error error))) in
  mfail error.

(** The end of a manual compaction whose commit failed. *)
Definition manual_commit_failed {A} (operation : CompactionOperation) (error : CoreError) : M A :=
  match error with
  | CoreCancelled =>
      do! emit_terminal operation CompactionCancelled in
      compaction_settle_cancelled
  | CompactionFailure (StaleSource expected actual) =>
      do! emit_terminal operation (CompactionRejected StaleSourceGeneration) in
      compaction_settle_failure (StaleSource expected actual)
  | error => settle_emit_failure error
  end.
Definition commit_manual (operation : CompactionOperation) (source : list AgentMessage) (proposal : Proposal) : M unit :=
  do! usage_observed operation proposal in
  do! propose_replacement operation (cp_messages proposal) None None true true in
  let! committed := try_run (commit_replacement_durably operation source (cp_messages proposal)) in
  match committed with
  | inl error => manual_commit_failed operation error
  | inr _ =>
      do! emit_terminal operation CompactionCommitted in
      let! cancelled := is_cancelled host in
      if cancelled : bool then compaction_settle_cancelled
      else
        do! emit host (EventCompactionResult (length (cp_messages proposal)) (cp_usage proposal)) in
        do! emit host (EventCompactionEnd (OutcomeSucceeded (length (cp_messages proposal)))) in
        finish host RunSucceeded Stop None
  end.

(** [CompactionHandle::drive]. *)
Definition manual_operation (run_id revision : N) (strategy : CompactionStrategy) : CompactionOperation :=
  mk_compaction_operation (mk_compaction_id run_id 0) TriggerManual UserRequest StandalonePhase strategy revision 1 None None false.
Definition manual_outcome (error : CompactionError) : CompactionTerminalOutcome :=
  match error with CompactorTimedOut _ => CompactionTimedOut | _ => CompactionFailed end.
Definition compaction_drive (fuel : nat) (strategy : CompactionStrategy) : M unit :=
  let! context := snapshot_context in
  let! run_id := read_run host rs_id in
  let operation := manual_operation run_id (cc_source_history_revision context) strategy in
  do! emit host (EventCompactionStart (length (cc_messages context))) in
  do! begin_operation operation (cc_messages context) (cc_messages context) [] [] in
  do! emit_compaction_lifecycle (RequestPrepared (co_id operation)
        (mk_request_observation (cs_request_layout strategy) None None true None)) in
  let! cancelled := is_cancelled host in
  if cancelled : bool then
    do! emit_terminal operation CompactionCancelled in
    compaction_settle_cancelled
  else
    let! (result, port_result) := propose fuel operation context None in
    match result, port_result with
    | inl _, inl port_error | inr _, inl port_error =>
        do! emit_terminal operation CompactionFailed in
        compaction_settle_failure port_error
    | inl error, inr _ =>
        do! emit_terminal operation (manual_outcome error) in
        compaction_settle_failure error
    | inr proposal, inr _ =>
        let! cancelled := is_cancelled host in
        if cancelled : bool then
          do! emit_terminal operation CompactionCancelled in
          compaction_settle_cancelled
        else
          match validate_messages (cp_messages proposal) with
          | Err error =>
              do! emit_terminal operation (CompactionRejected InvalidStructure) in
              compaction_settle_failure error
          | Panic panic => of_outcome (Panic panic)
          | Ok _ => commit_manual operation (cc_messages context) proposal
          end
    end.
End compaction.
