(* ===== verification/RunLoop.v ===== *)
(** * tea-core: driving a run ([crates/tea-core/src/run/mod.rs])

    The drive of a run from its first turn to its terminal phase: the provider
    stream, the tool batch, the hooks and queues after a turn, automatic
    compaction between turns, and the settlement.  The agent outlives the run,
    and the run does no cache warming. *)

From stdpp Require Import base gmap gmultiset sets list strings.
From S2P Require Import Records.
From S2P Require Import Prelude RustStr Json Ids SessionErrors Configuration Messages Transcript TranscriptJson.
From S2P Require Import CoreState SchemaValidation Tools Compaction RequestContext AgentLifecycle Measurement RunWorld ToolRun.
From S2P Require Import RunRequest CompactionRun.

Local Open Scope N_scope.
Local Open Scope run_scope.

(** ** Recovered batches ([crates/tea-core/src/agent/mod.rs]) *)

Definition recovery_transition {A} (from operation : string) : Outcome CoreError A := Err (transition_error "agent" from operation).

(** The last assistant message, what precedes it and what follows. *)
Fixpoint split_last_assistant (messages : list AgentMessage) : option (list AgentMessage * AssistantMessage * list AgentMessage) :=
  match messages with
  | [] => None
  | m :: messages =>
      match split_last_assistant messages with
      | Some (before, a, after) => Some (m :: before, a, after)
      | None => match m with Assistant a => Some ([], a, messages) | _ => None end
      end
  end.

(** The loop over the results that were already committed: their calls, and whether all ask to terminate. *)
Fixpoint committed_results (calls : list AgentToolCall) (operation : string) (settled : gset string) (all_terminate : bool)
    (results : list AgentMessage) : Outcome CoreError (gset string * bool) :=
  match results with
  | [] => Ok (settled, all_terminate)
  | ToolResult r :: results =>
      if negb (existsb (fun c => String.eqb (tc_id c) (tr_tool_call_id r) && String.eqb (tc_name c) (tr_tool_name r)) calls)
         || mem (tr_tool_call_id r) settled
      then recovery_transition "committed-result-mismatch" operation
      else committed_results calls operation ({[tr_tool_call_id r]} ∪ settled) (all_terminate && tr_terminate r) results
  | _ => recovery_transition "non-result-after-assistant" operation
  end.

(** [validate_recovery_tool_batch]. *)
Definition with_calls (a : AssistantMessage) (calls : list AgentToolCall) : AssistantMessage :=
  mk_assistant (am_id a) (am_content a) calls (am_stop_reason a) (am_error_message a) (am_opaque_context a) (am_origin a).
Definition validate_recovery_tool_batch (messages : list AgentMessage) (recovery_calls : list AgentToolCall) (operation : string) :
    Outcome CoreError bool :=
  match split_last_assistant messages with
  | None => recovery_transition "missing-assistant" operation
  | Some (before, a, results) =>
      if negb (bool_decide (am_stop_reason a = Some ToolUse)) then recovery_transition "assistant-not-tool-use" operation
      else if (length (am_tool_calls a) <=? length results)%nat then recovery_transition "assistant-tool-mismatch" operation
      else
        let? (settled, prior_all_terminate) := committed_results (am_tool_calls a) operation ∅ true results in
        if negb (bool_decide (List.filter (fun c => negb (mem (tc_id c) settled)) (am_tool_calls a) = recovery_calls))
        then recovery_transition "assistant-tool-mismatch" operation
        else
          check? agent_validate_messages
                   (before ++ Assistant (with_calls a (List.filter (fun c => mem (tc_id c) settled) (am_tool_calls a))) :: results) in
          Ok prior_all_terminate
  end.

(** [order_recovered_tool_results]; [sort_by_key] is stable. *)
Definition call_positions (calls : list AgentToolCall) : gmap string N :=
  foldl (fun positions ic => <[tc_id ic.2 := ic.1]> positions) ∅ (imap (fun i c => (N.of_nat i, c)) calls).
Definition result_position (positions : gmap string N) (m : AgentMessage) : N :=
  match m with ToolResult r => default u64_max (positions !! tr_tool_call_id r) | _ => u64_max end.
Definition order_recovered_tool_results (s : CoreAgentState) : CoreAgentState :=
  match split_last_assistant (as_messages s) with
  | None => s
  | Some (before, a, results) =>
      with_history s (before ++ Assistant a :: sort_by_key (result_position (call_positions (am_tool_calls a))) results)
        (next_revision s) (as_next_message_id s)
  end.

Section drive.
Context `{Blake3} `{Miniserde} (host : Host) (setup : RunSetup).
Context (show_arguments : ArgumentsMessage -> string) (show_json : JsonError -> string) (show_error : CoreError -> string).
Abbreviation registry := (su_registry setup).
Abbreviation policy := (su_automatic_compaction setup).

(** ** The provider stream *)

(** [emit_assistant_delta]: the identity of the placeholder message. *)
Definition emit_assistant_delta (assistant_id : option N) (model : option ModelDescriptor) (delta : MessageDelta) : M N :=
  let! id := lock_agent host (fun s =>
    let '(id, s) := match assistant_id with
                    | Some id => (id, s)
                    | None => let '(id, s) := allocate_message_id s in (id, append_message s (empty_assistant id None None model))
                    end in
    (id, match delta with DeltaText text => append_partial_response_delta s text | DeltaThinking _ => s end)) in
  do! match assistant_id with
      | None => emit host (EventMessageStart (empty_assistant id None None model))
      | Some _ => mret ()
      end in
  do! emit host (EventMessageUpdate id delta) in
  mret id.

(** The locals of the loop of [consume_assistant_stream]. *)
Record StreamState := mk_stream_state {
  ss_assistant_id : option N;
  ss_content : ContentBuilder;
  ss_tool_calls : list AgentToolCall;
  ss_opaque_context : list OpaqueItem;
  ss_reason : option StopReason;
  ss_error_message : option string;
  ss_usage : option ModelUsage;
  ss_context_overflow : bool;
  ss_provider_error : option ProviderErrorRecord;
}.
#[export] Instance stream_state_eta : Eta StreamState := fun s =>
  mk_stream_state (ss_assistant_id s) (ss_content s) (ss_tool_calls s) (ss_opaque_context s) (ss_reason s)
    (ss_error_message s) (ss_usage s) (ss_context_overflow s) (ss_provider_error s).
Definition stream_start : StreamState := mk_stream_state None builder_default [] [] None None None false None.

(** What an event does to the locals, the placeholder aside. *)
Definition stream_reduce (s : StreamState) (event : ModelStreamEvent) : StreamState :=
  match event with
  | RequestObservation _ => s
  | TextDelta delta => s <| ss_content ::= fun b => builder_text b delta |>
  | ThinkingDelta delta => s <| ss_content ::= fun b => builder_thinking b delta |>
  | ThinkingSignature item => s <| ss_content ::= fun b => builder_signature b item |>
  | RedactedThinking item => s <| ss_content ::= fun b => builder_redacted b item |>
  | StreamToolCall call => s <| ss_content ::= builder_close |> <| ss_tool_calls ::= fun l => l ++ [call] |>
  | StreamOpaqueContext item => s <| ss_opaque_context ::= fun l => l ++ [item] |>
  | StreamUsage update =>
      s <| ss_usage ::= fun usage => Some (match usage with Some current => usage_merge current update | None => update end) |>
  | StreamError message => s <| ss_reason := Some Error |> <| ss_error_message := Some message |>
  | StreamProviderError evidence => s <| ss_provider_error := Some evidence |>
  | ContextOverflow message =>
      s <| ss_reason := Some Error |> <| ss_error_message := Some message |> <| ss_context_overflow := true |>
  | StreamAborted message => s <| ss_reason := Some Aborted |> <| ss_error_message := Some message |>
  | StreamEnd reason => s <| ss_reason := Some reason |>
  end.
Definition stream_step (turn_id : N) (model : option ModelDescriptor) (s : StreamState) (event : ModelStreamEvent) : M StreamState :=
  let reduced := stream_reduce s event in
  let publish := fun delta =>
    let! id := emit_assistant_delta (ss_assistant_id s) model delta in
    mret (reduced <| ss_assistant_id := Some id |>) in
  match event with
  | RequestObservation observation =>
      do! emit host (EventProviderRequestObserved turn_id observation) in
      mret reduced
  | TextDelta delta => publish (DeltaText delta)
  | ThinkingDelta delta => publish (DeltaThinking delta)
  | _ => mret reduced
  end.

(** The loop, [index] events into the stream. *)
Definition next_event (index : nat) : M (option ModelStreamEvent) :=
  let! t := boundary host in
  match h_next_event host t index with
  | inl error => mfail (ModelProviderError (core_error_display error))
  | inr event => mret event
  end.
Fixpoint stream_loop (fuel index : nat) (turn_id : N) (model : option ModelDescriptor) (s : StreamState) : M StreamState :=
  match fuel with
  | O => fun _ => None
  | S fuel =>
      let! event := next_event index in
      match event with
      | None => mret s
      | Some event =>
          if reported (ss_reason s)
          then mfail (UnsupportedModelStream [Lit "model stream contained events after its terminal event"])
          else
            let! s := stream_step turn_id model s event in
            stream_loop fuel (S index) turn_id model s
      end
  end.

(** The message that replaces the placeholder, or is appended. *)
Definition response_of (s : StreamState) (reason : StopReason) (model : option ModelDescriptor) : ProviderResponse :=
  mk_response reason (cb_blocks (ss_content s)) model (ss_tool_calls s) (ss_opaque_context s) (ss_error_message s)
    (ss_usage s) (ss_context_overflow s) (ss_provider_error s).
Definition streamed_message (id : N) (response : ProviderResponse) : AgentMessage :=
  Assistant (mk_assistant id (rp_content response) (rp_tool_calls response) (Some (rp_stop_reason response))
    (rp_error_message response) (rp_opaque_context response) (rp_origin response)).
Definition commit_response (assistant_id : option N) (response : ProviderResponse) (s : CoreAgentState) :
    AgentMessage * CoreAgentState :=
  let '(id, s) := match assistant_id with Some id => (id, s) | None => allocate_message_id s end in
  let assistant := streamed_message id response in
  let s := s <| as_partial_response := None |> <| as_is_streaming := false |> in
  (assistant, match assistant_id with
              | Some _ => replace_last_message s assistant
              | None => append_message s assistant
              end).
Definition record_usage (turn_id : N) (model : option ModelDescriptor) (usage : ModelUsage) : M unit :=
  let! run_id := (fun w => Some (w, Ok (rs_id (w_run w)))) in
  let accounting := mk_turn_accounting run_id turn_id model usage in
  let! recorded := lock_agent host (fun s =>
    match accounting_record (E := Empty_set) (as_accounting s) accounting with
    | Ok snapshot => (Ok (), s <| as_accounting := snapshot |>)
    | Err e => match e with end
    | Panic reason => (Panic reason, s)
    end) in
  do! of_outcome recorded in
  emit host (EventModelTurnUsage accounting).

(** [consume_assistant_stream]. *)
Definition failed_reason (reason : StopReason) : bool := match reason with Error | Aborted => true | _ => false end.
Definition valid_input_tokens (reason : StopReason) (usage : option ModelUsage) : option N :=
  if failed_reason reason then None
  else match usage ≫= u_input_tokens with
       | Some tokens => if tokens =? 0 then None else Some tokens
       | None => None
       end.
Definition settle_stream (turn_id : N) (model : option ModelDescriptor) (s : StreamState) (reason : StopReason) :
    M (ProviderResponse * option N) :=
  let response := response_of s reason model in
  let! assistant := lock_agent host (commit_response (ss_assistant_id s) response) in
  do! match ss_assistant_id s with
      | None => emit host (EventMessageStart assistant)
      | Some _ => mret ()
      end in
  do! emit host (EventMessageEnd assistant) in
  do! match ss_usage s with
      | Some usage => record_usage turn_id model usage
      | None => mret ()
      end in
  mret (response, valid_input_tokens reason (ss_usage s)).
Definition consume_assistant_stream (fuel : nat) (turn_id : N) (model : option ModelDescriptor) :
    M (ProviderResponse * option N) :=
  let! s := stream_loop fuel 0 turn_id model stream_start in
  match ss_reason s with
  | None => mfail (UnsupportedModelStream [Lit "model stream ended without a terminal event"])
  | Some reason => settle_stream turn_id model s reason
  end.

(** ** After the response *)

(** [fail_truncated_tool_calls]. *)
Definition truncated_text (name : string) : string :=
  "Tool call " +:+ quote_mark +:+ name +:+ quote_mark +:+ " was not executed: the response hit the output token limit, so its arguments may be truncated. Re-issue the tool call with complete arguments.".
Fixpoint fail_truncated_tool_calls (calls : list AgentToolCall) : M bool :=
  match calls with
  | [] => mret false
  | c :: calls =>
      let call := call_of c in
      do! announce host call in
      let result := error_tool_result call (truncated_text (cl_name call)) in
      do! emit_tool_execution_end host call result in
      do! append_tool_result_message host call result in
      fail_truncated_tool_calls calls
  end.

(** [advance_after_assistant_turn]; [None] ends the run. *)
Definition prepare_next_turn (context : ContextEnvelope) : M AgentLoopTurnUpdate :=
  let! effect := begin_effect host (HookInvocationEffect PrepareNextTurn) in
  let! prepared := (let! t := boundary host in mret (h_prepare_next_turn host t context)) in
  do! settle_hook host effect prepared in
  match prepared with inl e => mfail (HookFailed e) | inr update => mret update end.
Definition should_stop_after_turn (context : ContextEnvelope) : M bool :=
  let! effect := begin_effect host (HookInvocationEffect ShouldStopAfterTurn) in
  let! should_stop := (let! t := boundary host in mret (h_should_stop host t context)) in
  do! settle_hook host effect should_stop in
  match should_stop with inl e => mfail (HookFailed e) | inr stop => mret stop end.
Definition break_circuit {A} (turn_id : N) (message : string) : M A :=
  do! emit host (EventProviderRequestSkipped SkippedByCircuitBreaker) in
  do! emit host (EventTurnEnd turn_id Error) in
  do! emit_agent_end host setup in
  let error := ToolCircuitBreakerError [Lit message] in
  do! finish host RunFailed Error (Some (show_error error)) in
  mfail error.
Definition either {A} (later earlier : option A) : option A := match later with Some _ => later | None => earlier end.
Definition continue_or_succeed (turn : NextTurn) (reason : StopReason) (prepared : ContextEnvelope) (more : bool) :
    M (option NextTurn) :=
  let! queued := drain_steering host in
  let truncated := bool_decide (reason = Length) in
  let! queued := (if negb more && negb truncated && is_nil queued then drain_follow_up host else mret queued) in
  if more || truncated || negb (is_nil queued) then
    let next_turn_id := u64_saturating_add (nt_turn_id turn) 1 in
    do! lock_run host (fun run => run_advance_turn run next_turn_id) in
    do! emit host (EventTurnStart next_turn_id) in
    let! context := inject_queued_messages host prepared queued in
    mret (Some (mk_next_turn next_turn_id (Some context) (nt_model_override turn) (nt_thinking_override turn)))
  else
    do! emit_agent_end_and_succeed host setup reason in
    mret None.
Definition advance_after_assistant_turn (turn : NextTurn) (reason : StopReason) (calls : list AgentToolCall)
    (batch : ToolBatchOutcome) : M (option NextTurn) :=
  match bo_terminal_failure batch with
  | Some message => break_circuit (nt_turn_id turn) message
  | None =>
      do! emit host (EventTurnEnd (nt_turn_id turn) reason) in
      let! context := current_context host in
      let! update := prepare_next_turn context in
      let prepared := default context (lu_context update) in
      let turn := mk_next_turn (nt_turn_id turn) None (either (lu_model update) (nt_model_override turn))
                    (either (lu_thinking_level update) (nt_thinking_override turn)) in
      let! stop := should_stop_after_turn prepared in
      if stop : bool then do! emit_agent_end_and_succeed host setup reason in mret None
      else continue_or_succeed turn reason prepared (negb (is_nil calls) && negb (bo_all_terminate batch))
  end.

(** ** A turn *)

(** The request, checked against the layout policy and sent. *)
Definition observe_layout (turn_id : N) (request : ModelRequest) : M RequestLayout :=
  let! t := boundary host in
  let! layout := of_outcome (layout_of (mr_transcript request) (mr_model request) (mr_thinking_level request)
                               (mr_session_id request) (h_projection host t (mr_model request))) in
  let! measurement := with_ledger (fun l => let? m := ledger_measure l layout in Ok (m, l)) in
  let! expected := with_ledger (fun l => Ok (take_expected_transition l)) in
  do! emit host (EventPromptLayoutObserved turn_id measurement) in
  let! policy := with_ledger (fun l => Ok (lg_policy l, l)) in
  if rejected_by_policy policy (pm_continuity measurement) && bool_decide (expected <> Some (pm_continuity measurement))
  then mfail (PromptLayoutRejected (pm_continuity measurement)) else mret layout.
Definition open_stream (effect : EffectAction) (request : ModelRequest) : M unit :=
  let! t := boundary host in
  match h_stream host t request with
  | Some error =>
      do! settle_effect host effect (ProviderFailed (core_error_display error)) in
      mfail (ModelProviderError (core_error_display error))
  | None => mret ()
  end.
Definition dispatch_request (fuel : nat) (turn_id : N) (request : ModelRequest) : M (ProviderResponse * option N) :=
  if negb (su_has_provider setup) then mfail MissingModelProvider
  else
    let! layout := observe_layout turn_id request in
    let! effect := begin_effect host (ProviderRequestEffect request) in
    do! with_ledger (fun l => Ok ((), ledger_commit l layout)) in
    do! open_stream effect request in
    let! (response, tokens) := on_error (consume_assistant_stream fuel turn_id (mr_model request))
                                 (fun e => settle_effect host effect (ProviderFailed (core_error_display e))) in
    do! settle_effect host effect (ProviderSettled response) in
    mret (response, tokens).

(** The response of a failed or cancelled turn. *)
Definition fail_turn {A} (turn_id : N) (response : ProviderResponse) : M A :=
  let aborted := bool_decide (rp_stop_reason response = Aborted) in
  do! emit host (EventTurnEnd turn_id (rp_stop_reason response)) in
  do! emit_agent_end host setup in
  let message := default (if aborted then "model response was aborted" else "model response failed") (rp_error_message response) in
  let! cancelled := (if aborted then is_cancelled host else mret false) in
  if cancelled : bool then
    do! finish host RunCancelled Aborted None in
    mfail CoreCancelled
  else
    do! finish host RunFailed Error (Some message) in
    mfail (if aborted then ModelAborted [Lit message] else ModelErrorResponse [Lit message]).
Definition cancel_turn {A} (turn_id : N) : M A :=
  do! emit host (EventTurnEnd turn_id Cancelled) in
  do! emit_agent_end host setup in
  do! finish host RunCancelled Cancelled None in
  mfail CoreCancelled.

(** The batch of a response. *)
Definition run_tool_batch (fuel : nat) (reason : StopReason) (calls : list AgentToolCall) : M ToolBatchOutcome :=
  if is_nil calls then mret (mk_batch_outcome false None)
  else if bool_decide (reason = Length) then
    let! all_terminate := fail_truncated_tool_calls calls in
    mret (mk_batch_outcome all_terminate None)
  else if negb (bool_decide (reason = ToolUse)) then
    mfail (UnsupportedModelStream [Lit "assistant emitted tool calls with terminal reason "; Lit (stop_reason_debug reason);
                                   Lit ", expected ToolUse"])
  else execute_tool_calls host registry (su_circuit_breaker setup) show_arguments show_json fuel calls.

(** A response that reports a context overflow: the request may be tried again on a compacted conversation. *)
Definition admit_retry : M bool :=
  lock_policy (fun p =>
    if ps_overflow_retried_this_continuation p || (ap_max_overflow_retries_per_run policy <=? ps_overflow_retries p)
    then (false, p)
    else (true, p <| ps_overflow_retries := u32_saturating_add (ps_overflow_retries p) 1 |>
                  <| ps_overflow_retried_this_continuation := true |>)).
Definition recover_overflow (fuel request_message_count : nat) (estimator : ContextEstimator) : M (option ContextEstimator) :=
  let! retry_allowed := admit_retry in
  if retry_allowed : bool then
    do! lock_agent host (fun s =>
          ((), (truncate_messages s request_message_count) <| as_partial_response := None |> <| as_is_streaming := false |>)) in
    let! (_, estimator) := maybe_automatic_compaction host setup show_error AutomaticOverflow true fuel estimator in
    mret (Some estimator)
  else
    do! automatic_end host AutomaticOverflow true AutomaticLimitReached in
    mret None.

(** The response of a turn that was not retried. *)
Definition settle_turn (fuel : nat) (turn : NextTurn) (response : ProviderResponse) : M (option NextTurn) :=
  let reason := rp_stop_reason response in
  if failed_reason reason then fail_turn (nt_turn_id turn) response
  else
    let! cancelled := (if bool_decide (reason = Cancelled) then is_cancelled host else mret false) in
    if cancelled : bool then cancel_turn (nt_turn_id turn)
    else
      let! batch := run_tool_batch fuel reason (rp_tool_calls response) in
      advance_after_assistant_turn turn reason (rp_tool_calls response) batch.

(** One round of the loop of [drive_inner]: the next turn, the estimator and
    whether an assistant turn was completed. *)
Definition Round : Type := NextTurn * ContextEstimator * bool.
Definition without_context (turn : NextTurn) : NextTurn :=
  mk_next_turn (nt_turn_id turn) None (nt_model_override turn) (nt_thinking_override turn).
Definition prepare_round (fuel : nat) (round : Round) : M (NextTurn * ContextEstimator) :=
  let '(turn, estimator, completed) := round in
  if completed : bool then
    let! (compacted, estimator) := maybe_automatic_compaction host setup show_error AutomaticThreshold false fuel estimator in
    mret (if compacted : bool then without_context turn else turn, estimator)
  else mret (turn, estimator).
Definition drive_round (fuel : nat) (run_id : N) (round : Round) : M (option Round) :=
  let! (turn, estimator) := prepare_round fuel round in
  let! request_message_count := lock_agent host (fun s => (length (as_messages s), s)) in
  let! request := model_request host setup run_id turn in
  do! (if ap_enabled policy then
         let! estimated := estimate_context host estimator in
         emit_context_estimate host request estimated
       else mret ()) in
  let! (response, tokens) := dispatch_request fuel (nt_turn_id turn) request in
  let estimator := observe_valid_input estimator tokens request_message_count in
  do! (if rp_context_overflow response then mret ()
       else lock_policy (fun p => ((), p <| ps_overflow_retried_this_continuation := false |>))) in
  let! retried := (if rp_context_overflow response && ap_enabled policy
                      && bool_decide (ap_overflow_recovery policy = CompactAndRetry)
                   then recover_overflow fuel request_message_count estimator else mret None) in
  match retried with
  | Some estimator => mret (Some (without_context turn, estimator, false))
  | None =>
      let! next := settle_turn fuel turn response in
      mret (match next with Some next => Some (next, estimator, true) | None => None end)
  end.
Fixpoint drive_rounds (fuel rounds : nat) (run_id : N) (round : Round) : M unit :=
  match rounds with
  | O => fun _ => None
  | S rounds =>
      let! next := drive_round fuel run_id round in
      match next with
      | Some round => drive_rounds fuel rounds run_id round
      | None => mret ()
      end
  end.

(** ** The run *)

Fixpoint emit_messages (messages : list AgentMessage) : M unit :=
  match messages with
  | [] => mret ()
  | message :: messages => do! emit_message host message in emit_messages messages
  end.

(** The batch of a recovered run. *)
Definition recover_batch (fuel : nat) (calls : list AgentToolCall) : M ToolBatchOutcome :=
  let! batch := execute_tool_calls host registry (su_circuit_breaker setup) show_arguments show_json fuel calls in
  do! lock_agent host (fun s => ((), order_recovered_tool_results s)) in
  mret (match su_recovery_prior_all_terminate setup with
        | Some prior => mk_batch_outcome (bo_all_terminate batch && prior) (bo_terminal_failure batch)
        | None => batch
        end).

(** [drive_inner]. *)
Definition drive_inner (fuel rounds : nat) : M unit :=
  let! run_id := read_run host rs_id in
  do! lock_run host (fun run => run_start_turn run 1) in
  do! check_owner host run_id "drive" in
  do! emit host EventAgentStart in
  do! emit host (EventTurnStart 1) in
  do! emit_messages (su_initial_messages setup) in
  let! context := (if su_skip_initial_steering setup then mret None
                   else
                     let! context := current_context host in
                     let! queued := drain_steering host in
                     let! context := inject_queued_messages host context queued in
                     mret (Some context)) in
  let turn := mk_next_turn 1 context None None in
  match su_recovery_tool_calls setup with
  | None => drive_rounds fuel rounds run_id (turn, estimator_default, false)
  | Some calls =>
      let! batch := recover_batch fuel calls in
      let! next := advance_after_assistant_turn turn ToolUse calls batch in
      match next with
      | Some turn => drive_rounds fuel rounds run_id (turn, estimator_default, true)
      | None => mret ()
      end
  end.

(** [drive_settled], which is [drive] without cache warming. *)
Definition settle_error (error : CoreError) : M unit :=
  let! phase := read_run host rs_phase in
  if is_terminal phase then mret ()
  else
    let! cancelled := is_cancelled host in
    if cancelled : bool then
      let! compaction_cancelled := lock_policy (fun p => (ps_compaction_cancelled p, p)) in
      if compaction_cancelled : bool then settle_compaction_boundary_cancellation host setup else settle_cancellation host setup
    else
      match error with
      | AutomaticCompactionError _ _ | AutomaticCompactionUnavailable _ => settle_compaction_boundary_failure host setup show_error error
      | _ => settle_failure host setup show_error error
      end.
Definition drive_settled (fuel rounds : nat) : M unit := on_error (drive_inner fuel rounds) settle_error.
End drive.
