(* ===== verification/RunLoopProofs.v ===== *)
(** * tea-core: a driven run is always settled

    Total correctness of [drive_settled]: against every host that settles down,
    whatever it answers before, the drive returns, the run is terminal and the
    agent is idle and free for the next run. *)

From stdpp Require Import base gmap gmultiset sets list sorting strings.
From S2P Require Import Prelude RustStr Json Ids SessionErrors Configuration Messages Transcript TranscriptJson.
From S2P Require Import CoreState SchemaValidation Tools Compaction RequestContext AgentLifecycle Measurement RunWorld.
From S2P Require Import Decimal Scenario ToolRun ToolRunProofs RunRequest CompactionRun RunLoop CompactionProofs.

Local Open Scope N_scope.
Local Open Scope run_scope.

(** The panics a drive can end in: [expect]s on JSON encodings and the checked digits of costs. *)
Definition drive_panics : list string :=
  ["protocol JSON tool definitions are always encodable"; "canonical transcript JSON is always encodable";
   "attempt to add with overflow"; "attempt to subtract with overflow"].

(** Besides settling down, other threads leave the transient state of the agent and the policy
    state of the run alone; every stream and every compactor ends within [B] steps, and from
    boundary [D] on no turn is asked to continue. *)
Definition transient (w : RunEnv) :=
  (w_active w, as_partial_response (w_agent w), as_is_streaming (w_agent w), as_pending_tool_calls (w_agent w)).
Record cooperates (host : Host) (D B : nat) : Prop := {
  co_settles : settles_down host D;
  co_transient t w : transient (h_interfere host t w) = transient w;
  co_policy t w : ps_overflow_retried_this_continuation (w_policy (h_interfere host t w))
                  = ps_overflow_retried_this_continuation (w_policy w);
  co_compactor t context request replies :
    (B <= length replies)%nat -> exists result, h_compact host t context request replies = CompactorReturns result;
  co_stream t index event : (B <= index)%nat -> h_next_event host t index <> inr (Some event);
  co_stop t context : (D <= t)%nat -> h_should_stop host t context <> inr false;
}.

(** The run [id] is being driven and owns the agent; [c] says whether it is known to be
    cancelled, and whether its last request is known to be the retry of an overflow. *)
Definition alive (id : N) (c : bool * bool) (w : RunEnv) : Prop :=
  active_owner (w_agent w) = Some id /\ rs_id (w_run w) = id /\ rs_phase (w_run w) = RunRunning /\
  (c.1 = true -> w_cancelled w = true) /\ (c.2 = true -> ps_overflow_retried_this_continuation (w_policy w) = true).
Definition nothing : bool * bool := (false, false).

(** The run ended in [phase]: the agent is idle, without transient state and without an active run. *)
Definition settled (phase : RunPhase) (w : RunEnv) : Prop :=
  rs_phase (w_run w) = phase /\ is_terminal phase = true /\ as_phase (w_agent w) = Idle /\
  transient w = (None, None, false, ∅) /\ (phase = RunCancelled -> w_cancelled w = true).

(** ** Specifications *)

Definition runs {A} (m : M A) (Q : A -> RunEnv -> Prop) (E : CoreError -> RunEnv -> Prop) (w : RunEnv) : Prop :=
  match m w with
  | Some (w', Ok a) => Q a w'
  | Some (w', Err e) => E e w'
  | Some (_, Panic reason) => reason ∈ drive_panics
  | None => False
  end.

Lemma runs_bind {A B} (m : M A) (k : A -> M B) Q Q' E w :
  runs m Q' E w -> (forall a w', Q' a w' -> runs (k a) Q E w') -> runs (mbind_ m k) Q E w.
Proof. unfold runs, mbind_. intros Hm HQ. destruct (m w) as [[w' [a|e|r]]|]; [by apply HQ|done..]. Qed.

Lemma runs_mono {A} (m : M A) (Q Q' : A -> RunEnv -> Prop) (E E' : CoreError -> RunEnv -> Prop) w :
  runs m Q' E' w -> (forall a w', Q' a w' -> Q a w') -> (forall e w', E' e w' -> E e w') -> runs m Q E w.
Proof. unfold runs. destruct (m w) as [[w' [a|e|r]]|]; auto. Qed.

Lemma runs_wp {A} (m : M A) (Q : A -> RunEnv -> Prop) (E : RunEnv -> Prop) w : wp m Q E w -> runs m Q (fun _ => E) w.
Proof. unfold runs, wp. by destruct (m w) as [[w' [a|e|r]]|]. Qed.

Lemma runs_on_error {A} (m : M A) handler Q E E' w :
  runs m Q E' w -> (forall e w', E' e w' -> runs (handler e) (fun _ => E e) E w') -> runs (on_error m handler) Q E w.
Proof.
  unfold runs, on_error, mbind_. intros Hm HE. destruct (m w) as [[w' [a|e|r]]|]; try done.
  specialize (HE e w' Hm). destruct (handler e w') as [[w2 [[]|e2|r]]|]; done.
Qed.

(** A step of the drive: the run stays alive, whether the step fails or not. *)
Definition keeps {A} (c : bool * bool) (P : A -> Prop) (m : M A) : Prop :=
  forall id w, alive id c w ->
    runs m (fun a w' => P a /\ alive id c w' /\ (w_time w <= w_time w')%nat) (fun _ w' => alive id c w') w.

Lemma keeps_mono {A} c (P P' : A -> Prop) m : keeps c P' m -> (forall a, P' a -> P a) -> keeps c P m.
Proof. intros Hm HP id w Hw. eapply runs_mono; [by apply Hm| |done]. intros a w' (? & ? & ?). auto. Qed.

Lemma keeps_ret {A} c (P : A -> Prop) a : P a -> keeps c P (mret a).
Proof. intros HP id w Hw. by cbn. Qed.

Lemma keeps_fail {A} c (P : A -> Prop) e : keeps c P (mfail e).
Proof. by intros id w Hw. Qed.

Lemma keeps_outcome {A} c (P : A -> Prop) o :
  match o with Ok a => P a | Err _ => True | Panic reason => reason ∈ drive_panics end -> keeps c P (of_outcome o).
Proof. intros Ho id w Hw. unfold runs, of_outcome. by destruct o. Qed.

Lemma keeps_bind {A B} c (m : M A) (k : A -> M B) P P' :
  keeps c P' m -> (forall a, P' a -> keeps c P (k a)) -> keeps c P (mbind_ m k).
Proof.
  intros Hm Hk id w Hw. eapply runs_bind; [by apply Hm|]. intros a w' (Ha & Hw' & Ht).
  eapply runs_mono; [by apply Hk| |done]. intros b w2 (? & ? & ?). split_and!; [done|done|lia].
Qed.

Lemma keeps_on_error {A} c (P : A -> Prop) m handler :
  keeps c P m -> (forall e, keeps c (fun _ => True) (handler e)) -> keeps c P (on_error m handler).
Proof.
  intros Hm Hh id w Hw. eapply runs_on_error; [by apply Hm|]. intros e w' Hw'.
  eapply runs_mono; [by apply (Hh e id)|intros [] w2 (_ & Ha & _); exact Ha|done].
Qed.

(** Sequencing in a proof about one world. *)
Lemma runs_step {A B} c (m : M A) (k : A -> M B) P Q E id w :
  keeps c P m -> alive id c w -> (forall e w', alive id c w' -> E e w') ->
  (forall a w', P a -> alive id c w' -> (w_time w <= w_time w')%nat -> runs (k a) Q E w') -> runs (mbind_ m k) Q E w.
Proof.
  intros Hm Hw HE HQ. eapply runs_bind.
  - eapply runs_mono; [by apply Hm|intros a w' Ha; exact Ha|done].
  - intros a w' (? & ? & ?). by apply HQ.
Qed.

Lemma runs_ignore {A} (m : M A) (R : RunEnv -> Prop) E w : runs m (fun _ => R) (fun _ => R) w -> runs (ignore m) (fun _ => R) E w.
Proof. unfold runs, ignore. by destruct (m w) as [[w' [a|e|r]]|]. Qed.
Lemma ignore_step {A B} c (m : M A) (k : unit -> M B) P Q E id w :
  keeps c P m -> alive id c w -> (forall w', alive id c w' -> runs (k ()) Q E w') -> runs (mbind_ (ignore m) k) Q E w.
Proof.
  intros Hm Hw HQ. eapply runs_bind.
  - apply (runs_ignore _ (alive id c)). eapply runs_mono; [by apply Hm| |done]. by intros a w' (_ & ? & _).
  - intros [] w' Hw'. by apply HQ.
Qed.

(** ** The panics of a drive *)

Definition tame {E A} (o : Outcome E A) : Prop := forall reason, o = Panic reason -> reason ∈ drive_panics.

Lemma tame_Ok {E A} (a : A) : tame (E := E) (Ok a).
Proof. done. Qed.
Lemma tame_Err {E A} (e : E) : tame (A := A) (Err e).
Proof. done. Qed.
Lemma tame_bind {E A B} (m : Outcome E A) (k : A -> Outcome E B) : tame m -> (forall a, tame (k a)) -> tame (obind m k).
Proof. intros Hm Hk reason. destruct m as [a|e|r]; cbn; [apply Hk|done|]. intros [= ->]. by apply Hm. Qed.
Lemma tame_ofold {E A S} (f : S -> A -> Outcome E S) s l : (forall s a, tame (f s a)) -> tame (ofold f s l).
Proof. intros Hf. revert s. induction l as [|a l IH]; intros s; cbn; [done|]. apply tame_bind; [apply Hf|done]. Qed.
Lemma tame_match {E A} (o : Outcome E A) :
  tame o -> match o with Ok _ | Err _ => True | Panic reason => reason ∈ drive_panics end.
Proof. intros Ho. destruct o as [a|e|r]; [done..|]. by apply Ho. Qed.

Create HintDb tame.
Create HintDb keep.
#[local] Hint Resolve tame_Ok tame_Err : tame.
Ltac tame :=
  intros; cbn beta zeta;
  lazymatch goal with
  | |- tame (obind _ _) => apply tame_bind; tame
  | |- tame (ofold _ _ _) => apply tame_ofold; tame
  | |- tame (match ?x with _ => _ end) => destruct x; tame
  | |- tame (Panic _) => let r := fresh in intros r [= <-]; unfold drive_panics; set_solver
  | |- tame (?f) => by eauto with tame
  end.

Lemma tame_decimal_parts {E} s : tame (E := E) (decimal_parts s).
Proof. unfold decimal_parts. tame. Qed.
Lemma tame_u8_sub {E} a b : tame (E := E) (u8_sub a b).
Proof. unfold u8_sub. tame. Qed.
Lemma tame_u8_add {E} a b : tame (E := E) (u8_add a b).
Proof. unfold u8_add. tame. Qed.
#[local] Hint Resolve tame_decimal_parts tame_u8_sub tame_u8_add : tame.
Lemma tame_digit_sum {E} l r c : tame (E := E) (digit_sum l r c).
Proof. unfold digit_sum. tame. Qed.
#[local] Hint Resolve tame_digit_sum : tame.
Lemma tame_add_digits {E} l r c : tame (E := E) (add_digits l r c).
Proof.
  revert r c. induction l as [|x l IH]; intros r c; [|cbn [add_digits]; tame].
  revert c. induction r as [|y r IH]; intros c; cbn -[digit_sum N.div N.modulo]; [tame|]. apply tame_bind; [tame|]. intros sum.
  apply tame_bind; [apply IH|tame].
Qed.
#[local] Hint Resolve tame_add_digits : tame.
Lemma tame_decimal_normalize {E} s : tame (E := E) (decimal_normalize s).
Proof. unfold decimal_normalize. tame. Qed.
#[local] Hint Resolve tame_decimal_normalize : tame.
Lemma tame_decimal_add {E} a b : tame (E := E) (decimal_add a b).
Proof. unfold decimal_add. tame. Qed.
#[local] Hint Resolve tame_decimal_add : tame.
Lemma tame_accounting {E} s a : tame (E := E) (accounting_record s a).
Proof. unfold accounting_record, add_cost. tame. Qed.

Section encodings.
Context `{Blake3} `{Miniserde}.
Lemma tame_push_line {E} output value : tame (E := E) (push_line output value).
Proof. unfold push_line, expect_json. tame. Qed.
#[local] Hint Resolve tame_push_line : tame.
Lemma tame_layout_context {E} t projection : tame (E := E) (layout_context t projection).
Proof. unfold layout_context. tame. Qed.
#[local] Hint Resolve tame_layout_context : tame.
Lemma tame_layout_of {E} t model level session projection : tame (E := E) (layout_of t model level session projection).
Proof. unfold layout_of. tame. Qed.
Lemma tame_tool_bytes {E} r : tame (E := E) (tool_definition_bytes r).
Proof. unfold tool_definition_bytes. tame. Qed.
#[local] Hint Resolve tame_tool_bytes : tame.
Lemma tame_common_surface {E} p r : tame (E := E) (common_surface p r).
Proof. unfold common_surface, canonical_request_surface_bytes. tame. Qed.
#[local] Hint Resolve tame_common_surface : tame.
Lemma tame_measure {E} l r : tame (E := E) (ledger_measure l r).
Proof. unfold ledger_measure, measure_against, measure_request_layout, cache_domains_match, changed_components. tame. Qed.
End encodings.
Lemma tame_update_validate u : tame (update_validate u).
Proof. unfold update_validate, insert_section, insert_tool, validate_section_id. tame. Qed.
Lemma tame_request_transcript t messages registry : tame (request_transcript t messages registry).
Proof.
  unfold request_transcript, validate_declared_tools. apply tame_bind; [|tame].
  generalize (transcript_tools (restore_canonical_configuration (mk_transcript (ce_messages t) (ce_host_messages t))
                (List.filter is_system messages))).
  intros tools. induction tools as [|d tools IH]; cbn; [tame|]. unfold validate_declared_tool. tame.
Qed.

#[local] Hint Resolve tame_update_validate : tame.
Lemma tame_validate_messages messages : tame (validate_messages messages).
Proof.
  unfold validate_messages, validate_message, accept_result, insert_call, invalid. apply tame_bind; [|tame].
  apply tame_ofold. intros v m. cbv zeta. repeat (destruct (_ : bool); [tame|]). destruct m as [| | |id u]; [tame..|].
  pose proof (tame_update_validate u) as Hu. destruct (update_validate u) as [| |r]; [tame..|]. intros r' [= <-]. by apply Hu.
Qed.
Lemma tame_split {E} messages recent : tame (E := E) (automatic_compaction_split messages recent).
Proof.
  unfold automatic_compaction_split. destruct (is_nil messages) eqn:Hn; [done|]. destruct (N.eqb_spec recent 0) as [|Hr]; [done|].
  cbn [orb]. destruct (lookup_lt_is_Some_2 messages (owner_start messages (recent_start messages recent 0 (length messages)))) as [first ->].
  - pose proof (recent_start_lt messages recent ltac:(by intros ->) Hr) as Hlt.
    destruct (owner_start_spec messages (recent_start messages recent 0 (length messages))) as [Hle _]. lia.
  - tame.
Qed.
Lemma checkpoint_rejections messages retained rejection :
  automatic_checkpoint_rejection messages retained = Some rejection -> rejection = EmptyCheckpoint \/ rejection = UnexpectedToolCall.
Proof.
  assert (Hl : forall l n r, checkpoint_text n l = Err r -> r = UnexpectedToolCall).
  { induction l as [|m l IH]; intros n r; cbn [checkpoint_text]; [done|].
    destruct m as [id content|a|result|id u]; [apply IH| |by intros [= <-]|apply IH]. destruct (is_nil _); [apply IH|by intros [= <-]]. }
  unfold automatic_checkpoint_rejection. destruct (is_nil _); [intros [= <-]; by left|].
  destruct (checkpoint_text _ _) as [n|r|] eqn:Hc; [|intros [= <-]; right; by eapply Hl|done].
  destruct (n =? 0); [intros [= <-]; by left|done].
Qed.

Section settle.
Context `{Blake3} `{Miniserde} (host : Host) (D B fuel : nat).
Context (Hhost : cooperates host D B) (Hfuel : (2 * D + 1 + B < fuel)%nat).
Context (setup : RunSetup).
Context (Hrecover : forall calls, su_recovery_tool_calls setup = Some calls -> (length calls <= B)%nat).
Context (show_arguments : ArgumentsMessage -> string) (show_json : JsonError -> string) (show_error : CoreError -> string).

(** ** Boundaries *)

Lemma alive_boundary id c w t : alive id c w -> alive id c ((h_interfere host t w) <| w_time := S t |>).
Proof.
  destruct Hhost as [[Hs _ Hc _ _ _ _ _ _] _ Hpol _ _ _]. intros (Ho & Hi & Hp & Hw & Hf).
  specialize (Hs t w). apply scene_parts in Hs as [_ Hl]. unfold life in Hl. injection Hl as Hl1 Hl2 Hl3 Hl4.
  unfold alive. cbn. rewrite Hl1, Hl2, Hl3, Hpol. split_and!; [done..| |]; auto.
Qed.

Lemma settled_boundary phase w t : settled phase w -> settled phase ((h_interfere host t w) <| w_time := S t |>).
Proof.
  destruct Hhost as [[Hs _ Hc _ _ _ _ _ _] Hr _ _ _ _]. intros (Hp & Ht & Hi & Htr & Hw).
  specialize (Hs t w). apply scene_parts in Hs as [_ Hl]. unfold life in Hl. injection Hl as Hl1 Hl2 Hl3 Hl4.
  unfold settled. cbn. split_and!; [by rewrite Hl3|done| |by rewrite <- Htr, <- (Hr t w)|auto].
  unfold active_owner in Hl1. rewrite Hi in Hl1. by destruct (as_phase _).
Qed.

(** A boundary followed by a section that keeps the run alive. *)
Lemma keeps_boundary {A} c (P : A -> Prop) (f : nat -> RunEnv -> RunEnv * Outcome CoreError A) m :
  (forall w, m w = Some (f (w_time w) ((h_interfere host (w_time w) w) <| w_time := S (w_time w) |>))) ->
  (forall id t w, alive id c w ->
     alive id c (f t w).1 /\ w_time (f t w).1 = w_time w /\
     match (f t w).2 with Ok a => P a | Err _ => True | Panic reason => reason ∈ drive_panics end) ->
  keeps c P m.
Proof.
  intros Hm Hf id w Hw. unfold runs. rewrite Hm.
  destruct (Hf id (w_time w) _ (alive_boundary id c w (w_time w) Hw)) as (Ha & Ht & Ho). cbn in Ht.
  destruct (f _ _) as [w' [a|e|r]]; cbn in *; [|done..]. split_and!; [done|done|lia].
Qed.

Lemma keeps_time c : keeps c (fun _ => True) (boundary host).
Proof. apply (keeps_boundary c _ (fun t w => (w, Ok t))); [done|]. by intros. Qed.

Lemma keeps_lock_agent {A} c (P : A -> Prop) (section : CoreAgentState -> A * CoreAgentState) :
  (forall s, active_owner (section s).2 = active_owner s /\ P (section s).1) -> keeps c P (lock_agent host section).
Proof.
  intros Hs. apply (keeps_boundary c _ (fun _ w => let '(a, s) := section (w_agent w) in (w <| w_agent := s |>, Ok a))).
  - intros w. unfold lock_agent, mbind_, boundary. cbn. by destruct (section _).
  - intros id t w Hw. destruct (Hs (w_agent w)) as [Ho HP]. destruct (section (w_agent w)) as [a s]. cbn in *.
    split_and!; [|done|done]. destruct Hw as (? & ? & ? & ? & ?). unfold alive. cbn. by rewrite Ho.
Qed.

Lemma keeps_lock_policy {A} c (P : A -> Prop) (section : RunPolicyState -> A * RunPolicyState) :
  (forall p, P (section p).1 /\ ps_overflow_retried_this_continuation (section p).2 = ps_overflow_retried_this_continuation p) ->
  keeps c P (lock_policy section).
Proof.
  intros Hs id w Hw. unfold runs, lock_policy. destruct (Hs (w_policy w)) as [HP Hf]. destruct (section _) as [a p]. cbn in *.
  destruct Hw as (? & ? & ? & ? & ?). split_and!; [done| |cbn; lia]. unfold alive. cbn. by rewrite Hf.
Qed.

Lemma keeps_emit c kind : keeps c (fun _ => True) (emit host kind).
Proof.
  apply (keeps_boundary c _ (fun _ w => (w <| w_run := (run_record_event (w_run w) kind).1 |>, Ok ()))); [done|].
  intros id t w (Ho & Hi & Hp & Hc & Hf). split_and!; [|done..]. unfold alive. cbn [w_run w_agent w_cancelled w_policy fst].
  pose proof (record_event_life (w_run w) kind) as Hl. injection Hl as Hl1 Hl2 _. cbn in *. rewrite Hl1, Hl2. done.
Qed.

Lemma keeps_begin_effect c subject : keeps c (fun _ => True) (begin_effect host subject).
Proof.
  intros id w Hw%(alive_boundary id c w (w_time w)). unfold runs, begin_effect, mbind_, boundary. cbn.
  destruct (h_gate_before _ _ _); [exact Hw|]. split_and!; [done|exact Hw|cbn; lia].
Qed.
Lemma keeps_settle_effect c action outcome : keeps c (fun _ => True) (settle_effect host action outcome).
Proof.
  intros id w Hw%(alive_boundary id c w (w_time w)). unfold runs, settle_effect, mbind_, boundary. cbn.
  destruct (h_gate_after _ _ _ _); [exact Hw|]. split_and!; [done|exact Hw|cbn; lia].
Qed.

Lemma keeps_read_run {A} c (f : RunState AgentEventKind -> A) : keeps c (fun _ => True) (read_run host f).
Proof. apply (keeps_boundary c _ (fun _ w => (w, Ok (f (w_run w))))); [done|]. by intros. Qed.

Lemma keeps_with_queues {A} c (section : AgentQueues -> QueueMode * QueueMode -> A * AgentQueues) :
  keeps c (fun _ => True) (with_queues host section).
Proof.
  apply (keeps_boundary c _ (fun _ w => let '(a, q) := section (w_queues w) (w_modes w) in (w <| w_queues := q |>, Ok a))).
  - intros w. unfold with_queues, mbind_, boundary. cbn. by destruct (section _ _).
  - intros id t w Hw. by destruct (section _ _).
Qed.

Lemma keeps_with_ledger {A} c (section : PromptLayoutLedger -> Outcome CoreError (A * PromptLayoutLedger)) :
  (forall l reason, section l = Panic reason -> reason ∈ drive_panics) -> keeps c (fun _ => True) (with_ledger section).
Proof.
  intros Hs id w Hw. unfold runs, with_ledger. specialize (Hs (w_ledger w)). destruct (section _) as [[a l]|e|r]; [|done|by apply Hs].
  split_and!; [done|exact Hw|cbn; lia].
Qed.

(** ** Finishing *)

Lemma runs_finish phase reason error id c w E :
  alive id c w -> is_terminal phase = true -> (phase = RunCancelled -> c.1 = true) ->
  runs (finish host phase reason error) (fun _ => settled phase) E w.
Proof.
  intros Hw Ht Hc. apply (alive_boundary id c w (w_time w)) in Hw. unfold runs, finish, lock_run, settle_agent, mbind_, boundary.
  set (w1 := (h_interfere host (w_time w) w) <| w_time := S (w_time w) |>) in *.
  cbn -[w1]. unfold run_finish. destruct Hw as (Ho & Hi & Hp & Hcan & _). rewrite Hp. cbn [is_terminal].
  set (w2 := w1 <| w_run := _ |>). destruct Hhost as [[Hs _ Hcanc _ _ _ _ _ _] _ _ _ _ _].
  specialize (Hs (w_time w1) w2). apply scene_parts in Hs as [_ Hl]. unfold life in Hl. injection Hl as Hl1 Hl2 Hl3 Hl4.
  unfold settled. split_and!; [exact Hl3|done|done|done|]. intros Hph. apply Hcanc, Hcan, Hc, Hph.
Qed.

(** ** The operations of a drive *)

#[local] Hint Resolve keeps_time keeps_lock_agent keeps_lock_policy keeps_emit keeps_begin_effect keeps_settle_effect
  keeps_read_run keeps_with_queues keeps_with_ledger keeps_fail : keep.

(** Follows the structure of a computation; a section under the agent lock never changes the owner. *)
Ltac keep :=
  intros; cbn beta zeta;
  lazymatch goal with
  | |- keeps _ _ (mbind_ _ _) => eapply (keeps_bind _ _ _ _ (fun _ => True)); [keep|intros ? _; keep]
  | |- keeps _ _ (mret _) => by apply keeps_ret
  | |- keeps _ _ (match ?x with _ => _ end) => destruct x; keep
  | |- keeps _ _ (lock_agent _ _) => apply keeps_lock_agent; intros; split; [repeat (cbn; case_match); simplify_eq; done|done]
  | |- keeps _ _ (lock_policy _) => apply keeps_lock_policy; intros; split; [done|by repeat case_match]
  | |- keeps _ _ (settle_hook _ _ _) => apply keeps_settle_effect
  | |- keeps _ _ (with_ledger _) => apply keeps_with_ledger; intros; simplify_eq
  | |- keeps _ _ _ => by eauto with keep
  end.

Lemma keeps_of_tame {A} c (o : Outcome CoreError A) : tame o -> keeps c (fun _ => True) (of_outcome o).
Proof. intros Ho. apply keeps_outcome. by apply tame_match in Ho; destruct o. Qed.

Lemma keeps_is_cancelled c : keeps c (fun _ => True) (is_cancelled host).
Proof. apply (keeps_boundary c _ (fun _ w => (w, Ok (w_cancelled w)))); [done|]. by intros. Qed.
Lemma keeps_new_messages c : keeps c (fun _ => True) (new_messages host setup).
Proof. unfold new_messages. keep. Qed.
#[local] Hint Resolve keeps_of_tame keeps_is_cancelled keeps_new_messages : keep.
Lemma keeps_emit_agent_end c : keeps c (fun _ => True) (emit_agent_end host setup).
Proof. unfold emit_agent_end. keep. Qed.
Lemma keeps_emit_message c m : keeps c (fun _ => True) (emit_message host m).
Proof. unfold emit_message. keep. Qed.
Lemma keeps_current_turn c : keeps c (fun _ => True) (current_turn host).
Proof. unfold current_turn. keep. Qed.
Lemma keeps_clear_section c : keeps c (fun _ => True) (clear_section host).
Proof. unfold clear_section. keep. Qed.
Lemma keeps_drain_steering c : keeps c (fun _ => True) (drain_steering host).
Proof. unfold drain_steering. keep. Qed.
Lemma keeps_drain_follow_up c : keeps c (fun _ => True) (drain_follow_up host).
Proof. unfold drain_follow_up. keep. Qed.
#[local] Hint Resolve keeps_emit_agent_end keeps_emit_message keeps_current_turn keeps_clear_section keeps_drain_steering
  keeps_drain_follow_up : keep.
Lemma keeps_emit_messages c messages : keeps c (fun _ => True) (emit_messages host messages).
Proof. induction messages as [|m messages IH]; cbn [emit_messages]; keep. Qed.
Lemma keeps_inject c context queued : keeps c (fun _ => True) (inject_queued_messages host context queued).
Proof. revert context. induction queued as [|q queued IH]; cbn [inject_queued_messages]; keep. Qed.
Lemma keeps_current_context c : keeps c (fun _ => True) (current_context host).
Proof.
  unfold current_context. eapply (keeps_bind _ _ _ _ (fun o => tame o)); [|intros; by apply keeps_of_tame].
  apply keeps_lock_agent. intros s. split; [done|]. cbn. tame.
Qed.
Lemma keeps_synchronize c context : keeps c (fun _ => True) (synchronize_configuration host setup context).
Proof.
  unfold synchronize_configuration. eapply (keeps_bind _ _ _ _ (fun _ => True)); [keep|]. intros [update|] _; [|keep].
  eapply (keeps_bind _ _ _ _ (fun _ => True)); [|keep].
  pose proof (tame_update_validate update) as Hu. destruct (update_validate update); [keep..|].
  apply keeps_of_tame. intros r [= <-]. by apply Hu.
Qed.
Lemma keeps_build_transcript c context : keeps c (fun _ => True) (build_transcript host setup context).
Proof.
  unfold build_transcript. do 3 (eapply (keeps_bind _ _ _ _ (fun _ => True)); [keep|intros ? _]).
  destruct a0 as [e|transformed]; [keep|]. eapply (keeps_bind _ _ _ _ (fun o => tame o)); [|intros; by apply keeps_of_tame].
  apply keeps_lock_agent. intros s. split; [done|]. apply tame_request_transcript.
Qed.
#[local] Hint Resolve keeps_emit_messages keeps_inject keeps_current_context keeps_synchronize keeps_build_transcript : keep.

Lemma keeps_world {A} c (f : RunEnv -> RunEnv * A) m :
  (forall w, m w = Some ((f w).1, Ok (f w).2)) ->
  (forall id w, alive id c w -> alive id c (f w).1 /\ w_time (f w).1 = w_time w) -> keeps c (fun _ => True) m.
Proof. intros Hm Hf id w Hw. destruct (Hf id w Hw) as [? Ht]. unfold runs. rewrite Hm. split_and!; [done|done|lia]. Qed.

Lemma keeps_store_router_state c v selected state route : keeps c (fun _ => True) (store_router_state host v selected state route).
Proof.
  unfold store_router_state, routing_error. destruct (ro_state route) as [value|]; [|keep]. destruct (match state with Some _ => _ | None => _ end); [keep|].
  destruct (vm_state_namespace v) as [namespace|]; [|keep].
  destruct (to_json_string value) as [text|e|r] eqn:Hj; [|keep|by apply to_json_string_no_panic in Hj].
  do 2 (eapply (keeps_bind _ _ _ _ (fun _ => True)); [keep|intros ? _]).
  apply (keeps_world c (fun w => (w <| w_router_state ::= fun m => <[namespace := value]> m |>, ()))); done.
Qed.
#[local] Hint Resolve keeps_store_router_state : keep.
Lemma keeps_route_virtual c v selected level : keeps c (fun _ => True) (route_virtual host v selected level).
Proof.
  unfold route_virtual, routing_error. destruct (is_nil _); [keep|]. do 2 (eapply (keeps_bind _ _ _ _ (fun _ => True)); [keep|intros ? _]).
  destruct a0 as [reason sticky]. eapply (keeps_bind _ _ _ _ (fun _ => True)).
  { eapply (keeps_world c (fun w => (w, _))); done. }
  intros state _. unfold ask_router, routing_error, set_routed. keep.
Qed.
#[local] Hint Resolve keeps_route_virtual : keep.
Lemma keeps_model_request c run_id turn : keeps c (fun _ => True) (model_request host setup run_id turn).
Proof. unfold model_request, check_owner, route_model, routing_error. keep. Qed.

(** ** Compaction *)

(** A handler that always fails. *)
Lemma keeps_catch {A} c (P : A -> Prop) m (handler : CoreError -> M A) :
  keeps c P m -> (forall e, keeps c (fun _ => False) (handler e)) ->
  keeps c P (fun w => match m w with Some (w', Err e) => handler e w' | r => r end).
Proof.
  intros Hm Hh id w Hw. specialize (Hm id w Hw). unfold runs in *. destruct (m w) as [[w' [a|e|r]]|]; try done.
  specialize (Hh e id w' Hm). unfold runs in Hh. destruct (handler e w') as [[w2 [a|e2|r]]|]; naive_solver.
Qed.
Lemma keeps_attempt_begin c subject : keeps c (fun _ => True) (try_run (begin_effect host subject)).
Proof.
  intros id w Hw%(alive_boundary id c w (w_time w)). unfold runs, try_run, begin_effect, mbind_, boundary. cbn.
  destruct (h_gate_before _ _ _); (split_and!; [done|exact Hw|cbn; lia]).
Qed.
Lemma keeps_attempt_settle c action outcome : keeps c (fun _ => True) (try_run (settle_effect host action outcome)).
Proof.
  intros id w Hw%(alive_boundary id c w (w_time w)). unfold runs, try_run, settle_effect, mbind_, boundary. cbn.
  destruct (h_gate_after _ _ _ _); (split_and!; [done|exact Hw|cbn; lia]).
Qed.
#[local] Hint Resolve keeps_attempt_begin keeps_attempt_settle : keep.
Lemma keeps_run_compactor c rounds operation context request replies port :
  (length replies <= B < rounds + length replies)%nat ->
  keeps c (fun _ => True) (run_compactor host rounds operation context request replies port).
Proof.
  revert replies port. induction rounds as [|rounds IH]; intros replies port Hr; [lia|]. cbn [run_compactor].
  eapply (keeps_bind _ _ _ _ (fun _ => True)); [keep|]. intros t _.
  assert (Hmore : (B <= length replies)%nat -> exists result, h_compact host t context request replies = CompactorReturns result)
    by apply (co_compactor _ _ _ Hhost).
  destruct (h_compact host t context request replies) as [provider_request|ticket outcome|result]; [..|keep];
    (destruct (decide (B <= length replies)%nat) as [Hb|Hb]; [by destruct (Hmore Hb)|]).
  - eapply (keeps_bind _ _ _ _ (fun _ => True)); [unfold port_begin; keep|]. intros [port' reply] _. apply IH.
    rewrite length_app. cbn. lia.
  - eapply (keeps_bind _ _ _ _ (fun _ => True)); [unfold port_settle; keep|]. intros [port' reply] _. apply IH.
    rewrite length_app. cbn. lia.
Qed.
Lemma keeps_settle_pending c pending outcome : keeps c (fun _ => True) (settle_pending host pending outcome).
Proof. induction pending as [|[ticket effect] pending IH]; cbn [settle_pending]; keep. Qed.
#[local] Hint Resolve keeps_settle_pending : keep.
Lemma keeps_propose c operation context request : keeps c (fun _ => True) (propose host fuel operation context request).
Proof.
  unfold propose, settle_unfinished. eapply (keeps_bind _ _ _ _ (fun _ => True)); [apply keeps_run_compactor; cbn; lia|].
  intros [port result] _. keep.
Qed.
Lemma keeps_snapshot_context c : keeps c (fun _ => True) (snapshot_context host setup).
Proof. unfold snapshot_context. keep. Qed.
#[local] Hint Resolve keeps_propose keeps_snapshot_context : keep.

Lemma keeps_reserve c expected : keeps c (fun _ => True) (reserve_durable_replacement_commit host expected).
Proof.
  apply (keeps_boundary c _ (fun _ w =>
    (w, validate_replacement_precondition (w_agent w) (rs_id (w_run w)) (w_cancelled w) expected))); [done|].
  intros id t w Hw. split_and!; [done..|]. unfold validate_replacement_precondition. by repeat case_match.
Qed.
Lemma keeps_publish c run_id expected replacement : keeps c (fun _ => True) (publish_durable_replacement host run_id expected replacement).
Proof.
  unfold publish_durable_replacement. eapply (keeps_bind _ _ _ _ (fun o => tame o)); [|intros; by apply keeps_of_tame].
  apply keeps_lock_agent. intros s. by repeat case_match.
Qed.
#[local] Hint Resolve keeps_reserve keeps_publish : keep.
Lemma keeps_commit_replacement c operation source replacement :
  keeps c (fun _ => True) (commit_replacement_durably host operation source replacement).
Proof. unfold commit_replacement_durably. keep. Qed.
Lemma keeps_lifecycle c record : keeps c (fun _ => True) (emit_compaction_lifecycle host record).
Proof. apply keeps_emit. Qed.
Lemma keeps_terminal c operation outcome : keeps c (fun _ => True) (emit_terminal host operation outcome).
Proof. apply keeps_emit. Qed.
Lemma keeps_automatic_end c reason retry outcome : keeps c (fun _ => True) (automatic_end host reason retry outcome).
Proof. apply keeps_emit. Qed.
#[local] Hint Resolve keeps_commit_replacement keeps_lifecycle keeps_terminal keeps_automatic_end : keep.
Lemma keeps_propose_replacement c operation messages tokens headroom structure suffix :
  keeps c (fun _ => True) (propose_replacement host operation messages tokens headroom structure suffix).
Proof. unfold propose_replacement, source_generation_matches. keep. Qed.
Lemma keeps_estimate c estimator : keeps c (fun _ => True) (estimate_context host estimator).
Proof. unfold estimate_context. keep. Qed.
Lemma keeps_begin_operation c operation canonical source retained split :
  keeps c (fun _ => True) (begin_operation host operation canonical source retained split).
Proof. unfold begin_operation. keep. Qed.
#[local] Hint Resolve keeps_propose_replacement keeps_estimate keeps_begin_operation : keep.

(** The ends that report a failure. *)
Lemma keeps_automatic_cancelled {A} c (P : A -> Prop) reason retry operation :
  keeps c P (automatic_cancelled host reason retry operation).
Proof. unfold automatic_cancelled. keep. Qed.
Lemma keeps_automatic_failed {A} c (P : A -> Prop) reason retry operation outcome message :
  keeps c P (automatic_failed host reason retry operation outcome message).
Proof. unfold automatic_failed, automatic_error. keep. Qed.
Lemma keeps_port_failed {A} c (P : A -> Prop) reason operation error :
  keeps c P (port_failed host show_error reason operation error).
Proof. unfold port_failed, automatic_error. keep. Qed.
Lemma keeps_reject {A} c (P : A -> Prop) reason retry operation messages rejection message tokens headroom structure suffix :
  keeps c P (reject_proposal host reason retry operation messages rejection message tokens headroom structure suffix).
Proof. unfold reject_proposal, automatic_error. keep. Qed.
#[local] Hint Resolve keeps_automatic_cancelled keeps_automatic_failed keeps_port_failed keeps_reject : keep.

Lemma keeps_provider_context c reason retry operation context source :
  keeps c (fun _ => True) (provider_context host setup show_error reason retry operation context source).
Proof.
  apply keeps_catch; [unfold build_provider_context; keep|]. intros e.
  eapply (keeps_bind _ _ _ _ (fun _ => True)); [keep|intros cancelled _; keep].
Qed.
Lemma keeps_request_prepared c operation provided : keeps c (fun _ => True) (request_prepared host operation provided).
Proof.
  unfold request_prepared. eapply (keeps_bind _ _ _ _ (fun _ => True)); [apply keeps_of_tame, tame_layout_context|keep].
Qed.
Lemma keeps_await c reason retry operation context request :
  keeps c (fun _ => True) (await_proposal host show_error reason retry fuel operation context request).
Proof. unfold await_proposal. keep. Qed.
Lemma keeps_accept c reason retry operation bytes retained messages :
  keeps c (fun _ => True) (accept_proposal host setup show_error reason retry operation bytes retained messages).
Proof.
  unfold accept_proposal. pose proof (tame_validate_messages messages) as Hv.
  destruct (validate_messages messages) as [[]|e|r]; [|keep|apply keeps_of_tame; intros r' [= <-]; by apply Hv].
  destruct (_ && _); [keep|]. destruct (automatic_checkpoint_rejection _ _) as [rejection|] eqn:Hc; [|keep].
  destruct (checkpoint_rejections _ _ _ Hc) as [->| ->]; cbn [checkpoint_message]; keep.
Qed.
Lemma keeps_commit_proposal c reason retry operation source messages :
  keeps c (fun _ => True) (commit_proposal host reason retry operation source messages).
Proof.
  unfold commit_proposal. eapply (keeps_bind _ _ _ _ (fun _ => True)); [|keep].
  apply keeps_on_error; [keep|]. intros e. unfold commit_failed. keep.
Qed.
Lemma keeps_after_compaction c reason retry estimator : keeps c (fun _ => True) (after_compaction host setup reason retry estimator).
Proof. unfold after_compaction. keep. Qed.
#[local] Hint Resolve keeps_provider_context keeps_request_prepared keeps_await keeps_accept keeps_commit_proposal
  keeps_after_compaction : keep.
Lemma keeps_compaction c reason retry estimator :
  keeps c (fun _ => True) (maybe_automatic_compaction host setup show_error reason retry fuel estimator).
Proof.
  unfold maybe_automatic_compaction. destruct (negb _); [keep|]. eapply (keeps_bind _ _ _ _ (fun _ => True)); [keep|]. intros before _.
  cbv zeta. destruct (_ && _); [keep|]. do 2 (eapply (keeps_bind _ _ _ _ (fun _ => True)); [keep|intros ? _]). destruct a0; [keep|].
  eapply (keeps_bind _ _ _ _ (fun _ => True)); [keep|]. intros context _.
  eapply (keeps_bind _ _ _ _ (fun _ => True)); [apply keeps_of_tame, tame_split|]. intros [[prefix retained] split] _.
  destruct (is_nil _); [keep|]. unfold compact_automatically, admit_compaction, automatic_error, usage_observed.
  eapply (keeps_bind _ _ _ _ (fun _ => True)); [keep|]. intros [count limit] _. destruct limit; [keep|].
  do 3 (eapply (keeps_bind _ _ _ _ (fun _ => True)); [keep|intros ? _]).
  eapply (keeps_bind _ _ _ _ (fun _ => True)); [by eapply (keeps_world c (fun w => (w, _)))|]. intros run_id _. keep.
Qed.
Lemma keeps_context_estimate c request estimated : keeps c (fun _ => True) (emit_context_estimate host request estimated).
Proof.
  unfold emit_context_estimate. eapply (keeps_bind _ _ _ _ (fun _ => True)); [keep|]. intros [[count bytes] results] _.
  eapply (keeps_bind _ _ _ _ (fun _ => True)); [apply keeps_of_tame, tame_layout_context|keep].
Qed.
#[local] Hint Resolve keeps_compaction keeps_context_estimate : keep.
Lemma keeps_prepare_round c round : keeps c (fun _ => True) (prepare_round host setup show_error fuel round).
Proof. unfold prepare_round. keep. Qed.

(** ** The stream *)

Lemma keeps_next_event c index : keeps c (fun event => is_Some event -> (index < B)%nat) (next_event host index).
Proof.
  unfold next_event. eapply (keeps_bind _ _ _ _ (fun _ => True)); [keep|]. intros t _.
  destruct (h_next_event host t index) as [e|event] eqn:He; [keep|]. apply keeps_ret. intros [event' ->].
  destruct (decide (B <= index)%nat); [|lia]. by apply (co_stream _ _ _ Hhost) in He.
Qed.

Lemma keeps_emit_assistant_delta c assistant_id model delta :
  keeps c (fun _ => True) (emit_assistant_delta host assistant_id model delta).
Proof. unfold emit_assistant_delta. keep. Qed.
#[local] Hint Resolve keeps_emit_assistant_delta : keep.

Lemma stream_reduce_calls s event :
  (length (ss_tool_calls (stream_reduce s event)) <= S (length (ss_tool_calls s)))%nat.
Proof. destruct event; cbn; rewrite ?length_app; cbn; lia. Qed.
Lemma keeps_stream_step c turn_id model s event :
  keeps c (fun s' => (length (ss_tool_calls s') <= S (length (ss_tool_calls s)))%nat) (stream_step host turn_id model s event).
Proof.
  pose proof (stream_reduce_calls s event) as Hs. unfold stream_step.
  destruct event; try (by apply keeps_ret); (eapply (keeps_bind _ _ _ _ (fun _ => True)); [keep|]; intros ? _; by apply keeps_ret).
Qed.

Lemma keeps_stream_loop c rounds index turn_id model s :
  (length (ss_tool_calls s) <= index <= B)%nat -> (B < rounds + index)%nat ->
  keeps c (fun s' => (length (ss_tool_calls s') <= B)%nat) (stream_loop host rounds index turn_id model s).
Proof.
  revert index s. induction rounds as [|rounds IH]; intros index s Hs Hr; [lia|]. cbn [stream_loop].
  eapply keeps_bind; [apply keeps_next_event|]. intros [event|] He; [|apply keeps_ret; lia].
  specialize (He ltac:(by eexists)). destruct (reported _); [keep|].
  eapply keeps_bind; [apply keeps_stream_step|]. intros s' Hs'. cbn beta in Hs'. apply IH; lia.
Qed.

Lemma keeps_record_usage c turn_id model usage : keeps c (fun _ => True) (record_usage host turn_id model usage).
Proof.
  unfold record_usage. eapply (keeps_bind _ _ _ _ (fun _ => True)).
  { by eapply (keeps_world c (fun w => (w, rs_id (w_run w)))). }
  intros run_id _. eapply (keeps_bind _ _ _ _ (fun o => tame o)).
  - apply keeps_lock_agent. intros s. pose proof (tame_accounting (E:=Empty_set) (as_accounting s) (mk_turn_accounting run_id turn_id model usage)) as Ht.
    destruct (accounting_record _ _) as [|[]|]; [done|]. split; [done|]. intros r [= <-]. by apply Ht.
  - intros o Ho. keep.
Qed.
#[local] Hint Resolve keeps_record_usage : keep.

Lemma keeps_commit c assistant_id response : keeps c (fun _ => True) (lock_agent host (commit_response assistant_id response)).
Proof.
  apply keeps_lock_agent. intros s. split; [|done]. unfold commit_response. destruct assistant_id; cbn; [|done].
  unfold replace_last_message. by case_match.
Qed.

Lemma keeps_consume c turn_id model :
  keeps c (fun r => (length (rp_tool_calls r.1) <= B)%nat) (consume_assistant_stream host fuel turn_id model).
Proof.
  unfold consume_assistant_stream. eapply keeps_bind; [apply keeps_stream_loop; cbn; lia|]. intros s Hs.
  destruct (ss_reason s) as [reason|]; [|keep]. unfold settle_stream. eapply (keeps_bind _ _ _ _ (fun _ => True)); [apply keeps_commit|intros ? _].
  do 3 (eapply (keeps_bind _ _ _ _ (fun _ => True)); [keep|intros ? _]). apply keeps_ret. done.
Qed.

Lemma keeps_observe_layout c turn_id request : keeps c (fun _ => True) (observe_layout host turn_id request).
Proof.
  unfold observe_layout. do 2 (eapply (keeps_bind _ _ _ _ (fun _ => True)); [first [keep|apply keeps_of_tame, tame_layout_of]|intros ? _]).
  eapply (keeps_bind _ _ _ _ (fun _ => True)); [|keep].
  apply keeps_with_ledger. intros l reason Hl. pose proof (tame_measure (E:=CoreError) l a0) as Hm.
  destruct (ledger_measure l a0); [done..|]. injection Hl as ->. by apply Hm.
Qed.
#[local] Hint Resolve keeps_observe_layout : keep.

Lemma keeps_dispatch c turn_id request :
  keeps c (fun r => (length (rp_tool_calls r.1) <= B)%nat) (dispatch_request host setup fuel turn_id request).
Proof.
  unfold dispatch_request, open_stream. destruct (negb _); [keep|].
  do 4 (eapply (keeps_bind _ _ _ _ (fun _ => True)); [keep|intros ? _]).
  eapply keeps_bind; [apply keeps_on_error; [apply keeps_consume|keep]|]. intros [response tokens] Hr.
  eapply (keeps_bind _ _ _ _ (fun _ => True)); [keep|intros ? _]. by apply keeps_ret.
Qed.

Lemma alive_weaken id c w : alive id c w -> alive id nothing w.
Proof. intros (? & ? & ? & _). by split_and!. Qed.

(** ** The batch *)

Lemma life_alive w w' id : life w' = life w -> alive id nothing w -> alive id nothing w'.
Proof. unfold life. intros [= H1 H2 H3 H4] (Ho & Hi & Hp & _). unfold alive. rewrite H1, H2, H3. done. Qed.

Lemma keeps_execute_tool_calls calls :
  (length calls <= B)%nat ->
  keeps nothing (fun _ => True)
    (execute_tool_calls host (su_registry setup) (su_circuit_breaker setup) show_arguments show_json fuel calls).
Proof.
  intros Hl id w Hw. pose proof (co_settles _ _ _ Hhost) as Hs.
  pose proof (wp_execute_tool_calls host D fuel (su_registry setup) (su_circuit_breaker setup) show_arguments show_json calls w
                Hs ltac:(lia)) as Hwp.
  eapply runs_mono; [by apply runs_wp| |].
  - intros a w' (_ & _ & Hlife & Ht). split_and!; [done|by eapply life_alive|done].
  - intros e w' (done & rest & _ & _ & Hlife). by eapply life_alive.
Qed.

Lemma keeps_fail_truncated c calls : keeps c (fun _ => True) (fail_truncated_tool_calls host calls).
Proof.
  induction calls as [|call calls IH]; cbn [fail_truncated_tool_calls]; [keep|].
  unfold announce, emit_tool_execution_end, append_tool_result_message. keep.
Qed.
#[local] Hint Resolve keeps_fail_truncated : keep.

Lemma keeps_run_tool_batch reason calls :
  (length calls <= B)%nat ->
  keeps nothing (fun _ => True) (run_tool_batch host setup show_arguments show_json fuel reason calls).
Proof.
  intros Hl. unfold run_tool_batch. destruct (is_nil calls); [keep|]. destruct (bool_decide _); [keep|].
  destruct (negb _); [keep|]. by apply keeps_execute_tool_calls.
Qed.

Lemma keeps_recover_batch calls :
  (length calls <= B)%nat ->
  keeps nothing (fun _ => True) (recover_batch host setup show_arguments show_json fuel calls).
Proof.
  intros Hl. unfold recover_batch. eapply (keeps_bind _ _ _ _ (fun _ => True)); [by apply keeps_execute_tool_calls|]. intros batch _.
  eapply (keeps_bind _ _ _ _ (fun _ => True)); [|keep]. apply keeps_lock_agent. intros s. split; [|done].
  cbn. unfold order_recovered_tool_results. by repeat case_match.
Qed.

(** ** A turn *)

Lemma keeps_advance_turn c turn_id : keeps c (fun _ => True) (lock_run host (fun run => run_advance_turn run turn_id)).
Proof.
  intros id w Hw%(alive_boundary id c w (w_time w)). unfold runs, lock_run, mbind_, boundary.
  set (w1 := (h_interfere host (w_time w) w) <| w_time := S (w_time w) |>) in *. cbn -[w1]. unfold run_advance_turn.
  destruct Hw as (Ho & Hi & Hp & Hc & Hf). rewrite Hp, bool_decide_true by done. split_and!; [done|done|cbn; lia].
Qed.
Lemma keeps_prepare_next_turn c context : keeps c (fun _ => True) (prepare_next_turn host context).
Proof. unfold prepare_next_turn. keep. Qed.
#[local] Hint Resolve keeps_advance_turn keeps_prepare_next_turn : keep.

(** The run goes on only before the deadline. *)
Lemma runs_should_stop context id c w :
  alive id c w ->
  runs (should_stop_after_turn host context)
    (fun stop w' => alive id c w' /\ (w_time w < w_time w')%nat /\ (stop = false -> (w_time w < D)%nat)) (fun _ => alive id c) w.
Proof.
  intros Hw. unfold should_stop_after_turn. eapply runs_step; [apply keeps_begin_effect|done|done|]. intros effect w1 _ H1 T1.
  assert (Hask : runs (let! t := boundary host in mret (h_should_stop host t context))
                   (fun answer w' => alive id c w' /\ (w_time w < w_time w')%nat /\ (answer = inr false -> (w_time w < D)%nat))
                   (fun _ => alive id c) w1).
  { unfold runs, mbind_, boundary, mret. split_and!; [by apply alive_boundary|cbn; lia|]. intros Ha.
    destruct (decide (D <= w_time w1)%nat); [|lia]. by apply (co_stop _ _ _ Hhost) in Ha. }
  eapply runs_bind; [exact Hask|]. intros answer w2 (H2 & T2 & Hstop).
  eapply runs_step; [apply keeps_settle_effect|done|done|]. intros _ w3 _ H3 T3.
  destruct answer as [e|stop]; cbn; [done|]. split_and!; [done|lia|]. intros ->. by apply Hstop.
Qed.

Definition advanced (id : N) (w : RunEnv) (more : bool) (w' : RunEnv) : Prop :=
  if more then alive id nothing w' /\ (w_time w < w_time w')%nat /\ (w_time w < D)%nat else settled RunSucceeded w'.
Definition ended (id : N) (e : CoreError) (w' : RunEnv) : Prop :=
  alive id nothing w' \/ settled RunFailed w' \/ settled RunCancelled w'.

Lemma alive_ended id c e w : alive id c w -> ended id e w.
Proof. intros (? & ? & ? & _). left. by split_and!. Qed.
#[local] Hint Resolve alive_ended : core.

Lemma runs_succeed reason id c w E :
  alive id c w -> (forall e w', alive id c w' -> E e w') ->
  runs (emit_agent_end_and_succeed host setup reason) (fun _ => settled RunSucceeded) E w.
Proof.
  intros Hw HE. unfold emit_agent_end_and_succeed. eapply runs_step; [apply keeps_emit_agent_end|done|done|].
  intros [] w1 _ H1 _. by eapply runs_finish.
Qed.

Lemma runs_continue turn reason prepared more id w0 w :
  alive id nothing w -> (w_time w0 < w_time w)%nat -> (w_time w0 < D)%nat ->
  runs (continue_or_succeed host setup turn reason prepared more)
    (fun next => advanced id w0 (reported next)) (ended id) w.
Proof.
  intros Hw Ht HD. unfold continue_or_succeed. eapply runs_step; [apply keeps_drain_steering|done|eauto|]. intros queued w1 _ H1 T1.
  eapply runs_step; [instantiate (1 := fun _ => True); keep|done|eauto|]. intros queued' w2 _ H2 T2.
  destruct (_ || _).
  - eapply runs_step; [apply keeps_advance_turn|done|eauto|]. intros [] w3 _ H3 T3.
    eapply runs_step; [apply keeps_emit|done|eauto|]. intros [] w4 _ H4 T4.
    eapply runs_step; [apply keeps_inject|done|eauto|]. intros context w5 _ H5 T5. cbn. split_and!; [done|lia|done].
  - eapply runs_bind; [eapply runs_succeed; [done|eauto]|]. by intros [] w3 H3.
Qed.

Lemma runs_break_circuit {A} turn_id message id w Q :
  alive id nothing w -> runs (break_circuit (A := A) host setup show_error turn_id message) Q (ended id) w.
Proof.
  intros Hw. unfold break_circuit. eapply runs_step; [apply keeps_emit|done|eauto|]. intros [] w1 _ H1 _.
  eapply runs_step; [apply keeps_emit|done|eauto|]. intros [] w2 _ H2 _.
  eapply runs_step; [apply keeps_emit_agent_end|done|eauto|]. intros [] w3 _ H3 _.
  eapply runs_bind; [by eapply runs_finish|]. intros [] w4 H4. right. by left.
Qed.

Lemma runs_advance turn reason calls batch id w :
  alive id nothing w ->
  runs (advance_after_assistant_turn host setup show_error turn reason calls batch)
    (fun next => advanced id w (reported next)) (ended id) w.
Proof.
  intros Hw. unfold advance_after_assistant_turn. destruct (bo_terminal_failure batch); [by apply runs_break_circuit|].
  eapply runs_step; [apply keeps_emit|done|eauto|]. intros [] w1 _ H1 T1.
  eapply runs_step; [apply keeps_current_context|done|eauto|]. intros context w2 _ H2 T2.
  eapply runs_step; [apply keeps_prepare_next_turn|done|eauto|]. intros update w3 _ H3 T3. cbv zeta.
  eapply runs_bind; [eapply runs_mono; [by apply runs_should_stop|intros ? ? Ha; exact Ha|intros ? ? Ha; exact (alive_ended id nothing _ _ Ha)]|].
  intros stop w4 (H4 & T4 & Hs). destruct stop.
  - eapply runs_bind; [eapply runs_succeed; [done|eauto]|]. by intros [] w5 H5.
  - specialize (Hs eq_refl). apply runs_continue; [done|lia|lia].
Qed.

(** A section that reads the cancellation flag. *)
Lemma runs_is_cancelled id w E : alive id nothing w -> runs (is_cancelled host) (fun b => alive id (b, false)) E w.
Proof.
  intros Hw%(alive_boundary id nothing w (w_time w)). unfold runs, is_cancelled, mbind_, boundary. cbn -[alive].
  destruct Hw as (? & ? & ? & _). by split_and!.
Qed.
Lemma runs_cancelled_if (b : bool) id w E :
  alive id nothing w -> runs (if b then is_cancelled host else mret false) (fun b => alive id (b, false)) E w.
Proof. intros Hw. destruct b; [by apply runs_is_cancelled|done]. Qed.

Lemma runs_fail_turn {A} turn_id response id w Q : alive id nothing w -> runs (fail_turn (A := A) host setup turn_id response) Q (ended id) w.
Proof.
  intros Hw. unfold fail_turn. eapply runs_step; [apply keeps_emit|done|eauto|]. intros [] w1 _ H1 _.
  eapply runs_step; [apply keeps_emit_agent_end|done|eauto|]. intros [] w2 _ H2 _. cbv zeta.
  eapply runs_bind; [by apply runs_cancelled_if|]. intros [] w3 H3;
    (eapply runs_bind; [by eapply runs_finish|]; intros [] w4 H4; cbn; unfold ended; auto).
Qed.
Lemma runs_cancel_turn {A} turn_id id w Q : alive id (true, false) w -> runs (cancel_turn (A := A) host setup turn_id) Q (ended id) w.
Proof.
  intros Hw. unfold cancel_turn. eapply runs_step; [apply keeps_emit|done|eauto|]. intros [] w1 _ H1 _.
  eapply runs_step; [apply keeps_emit_agent_end|done|eauto|]. intros [] w2 _ H2 _.
  eapply runs_bind; [by eapply runs_finish|]. intros [] w3 H3. cbn. unfold ended. auto.
Qed.

Lemma runs_settle_turn turn response id w :
  alive id nothing w -> (length (rp_tool_calls response) <= B)%nat ->
  runs (settle_turn host setup show_arguments show_json show_error fuel turn response)
    (fun next => advanced id w (reported next)) (ended id) w.
Proof.
  intros Hw Hcalls. unfold settle_turn. destruct (failed_reason _); [by apply runs_fail_turn|].
  assert (Hcan : runs (if bool_decide (rp_stop_reason response = Cancelled) then is_cancelled host else mret false)
                   (fun b w' => alive id (b, false) w' /\ (w_time w <= w_time w')%nat) (ended id) w).
  { destruct (bool_decide _); [|done]. pose proof (runs_is_cancelled id w (ended id) Hw) as Hr. revert Hr.
    unfold runs, is_cancelled, mbind_, boundary. cbn -[alive]. intros ?. split; [done|lia]. }
  eapply runs_bind; [exact Hcan|]. intros [] w1 [H1 T1]; [by apply runs_cancel_turn|].
  eapply runs_step; [apply keeps_run_tool_batch, Hcalls|done|eauto|]. intros batch w2 _ H2 T2.
  eapply runs_mono; [by apply runs_advance| |done]. intros [next|] w3; cbn; [|done]. intros (? & ? & ?). split_and!; [done|lia|lia].
Qed.

(** A retry is admitted only to a request that is not known to be one. *)
Lemma runs_recover_overflow count estimator r id w :
  alive id (false, r) w ->
  runs (recover_overflow host setup show_error fuel count estimator)
    (fun retried w' => (if reported retried then r = false /\ alive id (false, true) w' else alive id nothing w') /\
                       (w_time w <= w_time w')%nat) (ended id) w.
Proof.
  intros Hw. unfold recover_overflow.
  eapply (runs_bind _ _ _ (fun b w' => (if b : bool then r = false /\ alive id (false, true) w' else alive id nothing w') /\
                                       w_time w' = w_time w)).
  { unfold runs, admit_retry, lock_policy. destruct Hw as (Ho & Hi & Hp & _ & Hf). cbn in Hf.
    destruct (ps_overflow_retried_this_continuation (w_policy w)); cbn [orb]; [by split_and!|].
    destruct (_ <=? _); [by split_and!|]. split; [|done]. split; [destruct r; [by discriminate Hf|done]|by split_and!]. }
  intros [] w1 [H1 T1].
  - destruct H1 as [-> H1]. eapply runs_step; [|exact H1|eauto|].
    { apply (keeps_lock_agent _ (fun _ => True)). intros s. split; [|done]. cbn. unfold truncate_messages. by case_match. }
    intros [] w2 _ H2 T2.
    eapply runs_step; [apply keeps_compaction|done|eauto|]. intros [compacted estimator'] w3 _ H3 T3. cbn. split; [done|lia].
  - eapply runs_step; [instantiate (1 := fun _ => True); keep|done|eauto|]. intros [] w2 _ H2 T2. cbn. split; [done|lia].
Qed.

(** What is left before the deadline, a retry counting half. *)
Definition remaining (r : bool) (w : RunEnv) : nat := 2 * (D - w_time w) + (if r then 0 else 1).
Lemma runs_drive_round run_id round r id w :
  alive id (false, r) w ->
  runs (drive_round host setup show_arguments show_json show_error fuel run_id round)
    (fun next w' => if reported next
                    then exists r', alive id (false, r') w' /\ (remaining r' w' < remaining r w)%nat
                    else settled RunSucceeded w') (ended id) w.
Proof.
  intros Hw. unfold drive_round. eapply runs_step; [apply keeps_prepare_round|done|eauto|]. intros [turn estimator] w1 _ H1 T1.
  eapply runs_step; [instantiate (1 := fun _ => True); keep|done|eauto|]. intros count w2 _ H2 T2.
  eapply runs_step; [apply keeps_model_request|done|eauto|]. intros request w3 _ H3 T3.
  eapply runs_step; [instantiate (1 := fun _ => True); keep|done|eauto|]. intros [] w4 _ H4 T4.
  eapply runs_step; [apply keeps_dispatch|done|eauto|]. intros [response tokens] w5 Hcalls H5 T5. cbv zeta. cbn [fst] in Hcalls.
  assert (Hsettle : forall estimator w6, alive id nothing w6 -> (w_time w <= w_time w6)%nat ->
    runs (let! next := settle_turn host setup show_arguments show_json show_error fuel turn response in
          mret (match next with Some next => Some (next, estimator, true) | None => None end))
      (fun next w' => if reported (A := Round) next
                      then exists r', alive id (false, r') w' /\ (remaining r' w' < remaining r w)%nat
                      else settled RunSucceeded w') (ended id) w6).
  { intros e w6 H6 T6. eapply runs_bind; [by apply runs_settle_turn|]. intros [next|] w7; cbn; [|done].
    intros (? & ? & ?). exists false. split; [done|]. unfold remaining. destruct r; lia. }
  destruct (rp_context_overflow response); cbn [andb].
  - eapply (runs_bind _ _ _ (fun _ w' => w' = w5)); [done|]. intros [] w6 ->. destruct (_ && _).
    + eapply runs_bind; [by apply runs_recover_overflow|]. intros [estimator'|] w7 [H7 T7]; cbn [reported] in H7.
      * destruct H7 as [-> H7]. exists true. split; [done|]. unfold remaining. lia.
      * apply Hsettle; [done|lia].
    + eapply (runs_bind _ _ _ (fun o w' => o = None /\ w' = w5)); [done|]. intros o w7 [-> ->].
      apply Hsettle; [by eapply alive_weaken|lia].
  - apply alive_weaken in H5. eapply runs_bind; [|intros [] w6 H6; eapply (runs_bind _ _ _ (fun o w' => o = None /\ w' = w6))].
    + instantiate (1 := fun _ w' => alive id nothing w' /\ w_time w' = w_time w5). split; [|done]. destruct H5 as (? & ? & ? & _). by split_and!.
    + done.
    + destruct H6 as [H6 T6]. intros o w7 [-> ->]. apply Hsettle; [done|lia].
Qed.

Lemma runs_drive_rounds rounds run_id round r id w :
  (remaining r w < rounds)%nat -> alive id (false, r) w ->
  runs (drive_rounds host setup show_arguments show_json show_error fuel rounds run_id round)
    (fun _ => settled RunSucceeded) (ended id) w.
Proof.
  revert round r w. induction rounds as [|rounds IH]; intros round r w Hr Hw; [lia|]. cbn [drive_rounds].
  eapply runs_bind; [by apply runs_drive_round|]. intros [round'|] w'; cbn [reported]; [|done].
  intros (r' & H1 & Hlt). eapply (IH round' r'); [lia|done].
Qed.

(** ** The run *)

(** A run that was created and not driven yet. *)
Definition undriven (id : N) (w : RunEnv) : Prop :=
  active_owner (w_agent w) = Some id /\ rs_id (w_run w) = id /\ rs_phase (w_run w) = RunCreated.

Lemma undriven_boundary id w t : undriven id w -> undriven id ((h_interfere host t w) <| w_time := S t |>).
Proof.
  destruct Hhost as [[Hs _ _ _ _ _ _ _ _] _ _ _ _ _]. intros (Ho & Hi & Hp). specialize (Hs t w).
  apply scene_parts in Hs as [_ Hl]. unfold life in Hl. injection Hl as Hl1 Hl2 Hl3 Hl4. unfold undriven. cbn. by rewrite Hl1, Hl2, Hl3.
Qed.

Lemma runs_start id w E : undriven id w -> runs (lock_run host (fun run => run_start_turn run 1)) (fun _ => alive id nothing) E w.
Proof.
  intros Hw%(undriven_boundary id w (w_time w)). unfold runs, lock_run, mbind_, boundary.
  set (w1 := (h_interfere host (w_time w) w) <| w_time := S (w_time w) |>) in *. cbn -[w1]. unfold run_start_turn.
  destruct Hw as (Ho & Hi & Hp). rewrite Hp, bool_decide_true by done. done.
Qed.

Lemma runs_drive_inner rounds id w :
  (2 * D + 1 < rounds)%nat -> undriven id w ->
  runs (drive_inner host setup show_arguments show_json show_error fuel rounds) (fun _ => settled RunSucceeded) (ended id) w.
Proof.
  intros Hr Hw. unfold drive_inner. eapply (runs_bind _ _ _ (fun _ => undriven id)).
  { apply (undriven_boundary id w (w_time w)) in Hw. exact Hw. }
  intros run_id w1 H1. eapply runs_bind; [by apply runs_start|]. intros [] w2 H2.
  eapply runs_step; [instantiate (1 := fun _ => True); unfold check_owner; keep|done|eauto|]. intros [] w3 _ H3 T3.
  eapply runs_step; [apply keeps_emit|done|eauto|]. intros [] w4 _ H4 T4.
  eapply runs_step; [apply keeps_emit|done|eauto|]. intros [] w5 _ H5 T5.
  eapply runs_step; [apply keeps_emit_messages|done|eauto|]. intros [] w6 _ H6 T6.
  eapply runs_step; [instantiate (1 := fun _ => True); keep|done|eauto|]. intros context w7 _ H7 T7.
  cbv zeta. destruct (su_recovery_tool_calls setup) as [calls|] eqn:Hcalls.
  - eapply runs_step; [by apply keeps_recover_batch, Hrecover|done|eauto|]. intros batch w8 _ H8 T8.
    eapply runs_bind; [by apply runs_advance|]. intros [turn|] w9; cbn [reported advanced]; [|done].
    intros (H9 & _). apply (runs_drive_rounds _ _ _ false); [unfold remaining; lia|done].
  - apply (runs_drive_rounds _ _ _ false); [unfold remaining; lia|done].
Qed.

(** ** Settling *)

(** Sections that cannot fail. *)
Lemma runs_lock_agent {A T} c (section : CoreAgentState -> A * CoreAgentState) (k : A -> M T) Q E id w :
  (forall s, active_owner (section s).2 = active_owner s) -> alive id c w ->
  (forall a w', alive id c w' -> runs (k a) Q E w') -> runs (mbind_ (lock_agent host section) k) Q E w.
Proof.
  intros Hs Hw Hk. eapply (runs_bind _ _ _ (fun _ => alive id c)); [|auto].
  pose proof (keeps_lock_agent c (fun _ => True) section ltac:(by intros; split) id w Hw) as Hr. revert Hr.
  unfold runs, lock_agent, mbind_, boundary. destruct (section _). by intros (_ & ? & _).
Qed.
Lemma runs_current_turn {T} c (k : N -> M T) Q E id w :
  alive id c w -> (forall a w', alive id c w' -> runs (k a) Q E w') -> runs (mbind_ (current_turn host) k) Q E w.
Proof.
  intros Hw Hk. eapply (runs_bind _ _ _ (fun _ => alive id c)); [|auto].
  apply (alive_boundary id c w (w_time w)) in Hw. exact Hw.
Qed.

(** The common end of the four ways a run that failed is settled. *)
Definition over (w : RunEnv) : Prop := settled RunFailed w \/ settled RunCancelled w.
Lemma runs_settle_end turn_id reason phase stop error id c w E :
  alive id c w -> phase = RunFailed \/ phase = RunCancelled /\ c.1 = true ->
  runs (do! ignore (emit host (EventTurnEnd turn_id reason)) in
        do! ignore (emit_agent_end host setup) in
        ignore (finish host phase stop error)) (fun _ => over) E w.
Proof.
  intros Hw Hp. eapply ignore_step; [apply keeps_emit|done|]. intros w1 H1.
  eapply ignore_step; [apply keeps_emit_agent_end|done|]. intros w2 H2. apply runs_ignore.
  eapply (runs_mono _ _ (fun _ => settled phase)).
  - eapply (runs_finish phase stop error id c); [done|by destruct Hp as [->|[-> _]]|]. by destruct Hp as [->|[-> ?]].
  - intros _ w3 Hw3. destruct Hp as [->|[-> _]]; [by left|by right].
  - intros e w3 Hf. exact Hf.
Qed.

Lemma runs_settle_failure error id c w E : alive id c w -> runs (settle_failure host setup show_error error) (fun _ => over) E w.
Proof.
  intros Hw. unfold settle_failure. eapply runs_lock_agent; [done|done|]. intros failure w1 H1.
  eapply runs_current_turn; [done|]. intros turn_id w2 H2. eapply ignore_step; [apply keeps_emit|done|]. intros w3 H3.
  eapply ignore_step; [apply keeps_emit|done|]. intros w4 H4. eapply runs_settle_end; [done|by left].
Qed.
Lemma runs_settle_boundary_failure error id c w E :
  alive id c w -> runs (settle_compaction_boundary_failure host setup show_error error) (fun _ => over) E w.
Proof.
  intros Hw. unfold settle_compaction_boundary_failure. eapply runs_lock_agent; [done|done|]. intros [] w1 H1.
  eapply runs_current_turn; [done|]. intros turn_id w2 H2. eapply runs_settle_end; [done|by left].
Qed.
Lemma runs_settle_boundary_cancellation id w E :
  alive id (true, false) w -> runs (settle_compaction_boundary_cancellation host setup) (fun _ => over) E w.
Proof.
  intros Hw. unfold settle_compaction_boundary_cancellation. eapply runs_lock_agent; [done|done|]. intros [] w1 H1.
  eapply runs_current_turn; [done|]. intros turn_id w2 H2. eapply runs_settle_end; [done|by right].
Qed.
Lemma runs_settle_cancellation id w E : alive id (true, false) w -> runs (settle_cancellation host setup) (fun _ => over) E w.
Proof.
  intros Hw. unfold settle_cancellation. eapply runs_current_turn; [done|]. intros turn_id w1 H1.
  eapply runs_lock_agent; [|done|]. { intros s. by destruct (aborted_last _). }
  intros failure w2 H2. eapply (runs_bind _ _ _ (fun _ => alive id (true, false))).
  { destruct failure as [message|]; [|done]. eapply ignore_step; [apply keeps_emit|done|]. intros w3 H3. apply runs_ignore.
    eapply runs_mono; [by apply keeps_emit| |intros ? ? Ha; exact Ha]. by intros [] w4 (_ & ? & _). }
  intros [] w3 H3. eapply runs_settle_end; [done|by right].
Qed.

Lemma over_boundary w t : over w -> over ((h_interfere host t w) <| w_time := S t |>).
Proof. intros [Hw|Hw]; [left|right]; by apply settled_boundary. Qed.

Lemma runs_settle_error error id w E : ended id error w -> runs (settle_error host setup show_error error) (fun _ => over) E w.
Proof.
  intros [Hw|Hw]; unfold settle_error.
  - eapply (runs_bind _ _ _ (fun phase w' => phase = RunRunning /\ alive id nothing w')).
    { apply (alive_boundary id nothing w (w_time w)) in Hw. split; [apply Hw|exact Hw]. }
    intros phase w1 [-> H1]. cbn [is_terminal]. eapply runs_bind; [by apply runs_is_cancelled|]. intros [] w2 H2.
    + eapply (runs_bind _ _ _ (fun _ => alive id (true, false))); [exact H2|].
      intros [] w3 H3; [by eapply runs_settle_boundary_cancellation|by eapply runs_settle_cancellation].
    + destruct error; lazymatch goal with
                      | |- runs (settle_failure _ _ _ _) _ _ _ => exact (runs_settle_failure _ id nothing w2 E H2)
                      | |- _ => exact (runs_settle_boundary_failure _ id nothing w2 E H2)
                      end.
  - eapply (runs_bind _ _ _ (fun phase w' => is_terminal phase = true /\ over w')).
    { apply (over_boundary w (w_time w)) in Hw. split; [|exact Hw]. by destruct Hw as [(Hp & Ht & _)|(Hp & Ht & _)]; rewrite Hp. }
    intros phase w1 [-> H1]. exact H1.
Qed.

Lemma runs_drive_settled rounds id w :
  (2 * D + 1 < rounds)%nat -> undriven id w ->
  runs (drive_settled host setup show_arguments show_json show_error fuel rounds) (fun _ => settled RunSucceeded) (fun _ => over) w.
Proof.
  intros Hr Hw. unfold drive_settled. eapply runs_on_error; [by apply runs_drive_inner|]. intros e w' He.
  by eapply runs_settle_error.
Qed.
End settle.

(** ** Routing *)

(** The dispatched model is the physical selection, or an approved target of the virtual selection. *)
Definition dispatch_ok (setup : RunSetup) (selected : option ModelDescriptor) (d : Dispatch) : Prop :=
  match d.1.2 with
  | None => d.1.1 = selected /\ forall model, selected = Some model -> md_provider model <> VIRTUAL_PROVIDER
  | Some virtual =>
      selected = Some virtual /\ md_provider virtual = VIRTUAL_PROVIDER /\
      exists v target, v ∈ su_virtual_models setup /\ vm_descriptor v = virtual /\ d.1.1 = Some target /\ target ∈ vm_targets v
  end.

(** Partial correctness together with the absence of panics and of waiting. *)
Definition yields {A} (P : A -> Prop) (m : M A) : Prop :=
  forall w, match m w with Some (_, Ok a) => P a | Some (_, Err _) => True | _ => False end.

Lemma yields_bind {A B} (m : M A) (k : A -> M B) P P' : yields P' m -> (forall a, P' a -> yields P (k a)) -> yields P (mbind_ m k).
Proof. intros Hm Hk w. specialize (Hm w). unfold mbind_. destruct (m w) as [[w' [a|e|r]]|]; [by apply Hk|done..]. Qed.
Lemma yields_ret {A} (P : A -> Prop) a : P a -> yields P (mret a).
Proof. by intros Ha w. Qed.
Lemma yields_fail {A} (P : A -> Prop) e : yields P (mfail e).
Proof. by intros w. Qed.
Lemma yields_lock_agent {A} host (P : A -> Prop) section : (forall s, P (section s).1) -> yields P (lock_agent host section).
Proof. intros Hs w. unfold lock_agent, mbind_, boundary. pose proof (Hs (w_agent (h_interfere host (w_time w) w))). cbn. by destruct (section _). Qed.
Lemma yields_lock_policy {A} (P : A -> Prop) section : (forall s, P (section s).1) -> yields P (lock_policy section).
Proof. intros Hs w. unfold lock_policy. specialize (Hs (w_policy w)). by destruct (section _). Qed.
Lemma yields_begin host subject : yields (fun _ => True) (begin_effect host subject).
Proof. intros w. unfold begin_effect, mbind_, boundary. cbn. by destruct (h_gate_before _ _ _). Qed.
Lemma yields_settle host action outcome : yields (fun _ => True) (settle_effect host action outcome).
Proof. intros w. unfold settle_effect, mbind_, boundary. cbn. by destruct (h_gate_after _ _ _ _). Qed.

Section routing.
Context `{Miniserde} (host : Host) (setup : RunSetup).

Lemma yields_store_router_state v selected state route : yields (fun _ => True) (store_router_state host v selected state route).
Proof.
  unfold store_router_state. destruct (ro_state route) as [value|]; [|by apply yields_ret].
  destruct (match state with Some _ => _ | None => _ end); [by apply yields_ret|].
  destruct (vm_state_namespace v) as [namespace|]; [|apply yields_fail].
  destruct (to_json_string value) as [text|e|r] eqn:Hj; [|apply yields_fail|by apply to_json_string_no_panic in Hj].
  eapply yields_bind; [apply yields_begin|]. intros effect _. eapply yields_bind; [apply yields_settle|]. by intros [] _ w.
Qed.

Lemma approves_target v model : approves v model = true -> model ∈ vm_targets v.
Proof. unfold approves. by intros ?%bool_decide_eq_true. Qed.

Lemma yields_route_virtual v virtual level :
  v ∈ su_virtual_models setup -> vm_descriptor v = virtual -> md_provider virtual = VIRTUAL_PROVIDER ->
  yields (dispatch_ok setup (Some virtual)) (route_virtual host v virtual level).
Proof.
  intros Hv Hd Hp. unfold route_virtual. destruct (is_nil _); [apply yields_fail|].
  assert (Hok : forall target level', approves v target = true -> dispatch_ok setup (Some virtual) (Some target, Some virtual, level')).
  { intros target level' Ht%approves_target. split_and!; [done|done|]. by exists v, target. }
  eapply (yields_bind _ _ _ (fun _ => True)); [by apply yields_lock_agent|]. intros messages _.
  eapply (yields_bind _ _ _ (fun _ => True)); [by apply yields_lock_policy|]. intros [reason sticky] _.
  eapply (yields_bind _ _ _ (fun _ => True)); [by intros w|]. intros state _.
  destruct (sticky_target v reason sticky messages) as [physical|] eqn:Hs.
  - eapply (yields_bind _ _ _ (fun _ => True)); [by apply yields_lock_policy|]. intros [] _. apply yields_ret, Hok.
    revert Hs. unfold sticky_target. destruct (_ || _); [done|].
    destruct (match sticky with Some _ => _ | None => _ end) as [model|]; [|done]. destruct (approves v model) eqn:Ha; [|done]. by intros [= <-].
  - unfold ask_router. destruct (vm_router v _) as [message|route]; [apply yields_fail|].
    destruct (approves v (ro_target route)) eqn:Ha; cbn [negb]; [|apply yields_fail].
    eapply yields_bind; [apply yields_store_router_state|]. intros [] _.
    eapply (yields_bind _ _ _ (fun _ => True)); [by apply yields_lock_policy|]. intros [] _. by apply yields_ret, Hok.
Qed.
End routing.

(** ** The streamed message *)

(** The reference: the response that the events of a stream make, if it is well formed. *)
Fixpoint reduce_stream (s : StreamState) (events : list ModelStreamEvent) : option StreamState :=
  match events with
  | [] => Some s
  | event :: events => if reported (ss_reason s) then None else reduce_stream (stream_reduce s event) events
  end.
Definition stream_response (model : option ModelDescriptor) (events : list ModelStreamEvent) : option ProviderResponse :=
  match reduce_stream stream_start events with
  | Some s => match ss_reason s with Some reason => Some (response_of s reason model) | None => None end
  | None => None
  end.

Section stream.
Context `{Miniserde} (host : Host) (D : nat) (Hhost : settles_down host D) (model : option ModelDescriptor).

Lemma talk_boundary w t : talk ((h_interfere host t w) <| w_time := S t |>) = talk w.
Proof. destruct Hhost as [Hs _ _ _ _ _ _ _ _]. exact (f_equal fst (Hs t w)). Qed.

Lemma runs_emit_talk kind w E : runs (emit host kind) (fun _ w' => talk w' = talk w) E w.
Proof. exact (talk_boundary w (w_time w)). Qed.

(** The placeholder, once a delta was published. *)
Definition placeholder (base : list AgentMessage * N) (assistant_id : option N) (w : RunEnv) : Prop :=
  match assistant_id with
  | None => talk w = base
  | Some id => id = base.2 /\ talk w = (base.1 ++ [empty_assistant id None None model], u64_saturating_add id 1)
  end.

Lemma runs_delta base assistant_id delta w E :
  placeholder base assistant_id w ->
  runs (emit_assistant_delta host assistant_id model delta) (fun id w' => placeholder base (Some id) w') E w.
Proof.
  intros Hw. unfold emit_assistant_delta. eapply (runs_bind _ _ _ (fun id => placeholder base (Some id))).
  - pose proof (talk_boundary w (w_time w)) as Ht. unfold runs, lock_agent, mbind_, boundary.
    set (w1 := (h_interfere host (w_time w) w) <| w_time := S (w_time w) |>) in *. clearbody w1.
    unfold talk, agent_talk in Ht. injection Ht as Hm Hn.
    destruct assistant_id as [id|]; cbn -[append_partial_response_delta] in *.
    + destruct Hw as [-> Hw]. unfold talk, agent_talk in Hw. injection Hw as Hw1 Hw2. split; [done|].
      unfold talk, agent_talk. destruct delta; cbn; by rewrite Hm, Hn, Hw1, Hw2.
    + subst base. split; [done|]. unfold talk, agent_talk. destruct delta; cbn; by rewrite Hm, Hn.
  - intros id w1 H1. eapply (runs_bind _ _ _ (fun _ => placeholder base (Some id))).
    + destruct assistant_id; [done|]. eapply runs_mono; [apply runs_emit_talk|intros [] w2 H2|intros ? ? Ha; exact Ha].
      destruct H1 as [? ?]. by split; [|rewrite H2].
    + intros [] w2 H2. eapply runs_bind; [apply runs_emit_talk|]. intros [] w3 H3. destruct H2 as [? ?]. by split; [|rewrite H3].
Qed.

Lemma reduce_id s event assistant_id :
  stream_reduce (s <| ss_assistant_id := assistant_id |>) event = (stream_reduce s event) <| ss_assistant_id := assistant_id |>.
Proof. by destruct event. Qed.

Lemma runs_stream_step base turn_id s assistant_id event w E :
  placeholder base assistant_id w ->
  runs (stream_step host turn_id model (s <| ss_assistant_id := assistant_id |>) event)
    (fun s' w' => exists assistant_id', s' = (stream_reduce s event) <| ss_assistant_id := assistant_id' |> /\ placeholder base assistant_id' w') E w.
Proof.
  intros Hw. unfold stream_step. rewrite reduce_id.
  assert (Hdelta : forall delta, runs (let! id := emit_assistant_delta host assistant_id model delta in
                    mret ((stream_reduce s event) <| ss_assistant_id := assistant_id |> <| ss_assistant_id := Some id |>))
    (fun s' w' => exists assistant_id', s' = (stream_reduce s event) <| ss_assistant_id := assistant_id' |> /\ placeholder base assistant_id' w') E w).
  { intros delta. eapply runs_bind; [by apply runs_delta|]. intros id w1 H1. by exists (Some id). }
  destruct event; try (by exists assistant_id); [|apply Hdelta..].
  eapply runs_bind; [apply runs_emit_talk|]. intros [] w1 H1. exists assistant_id. split; [done|].
  unfold placeholder in *. by destruct assistant_id; rewrite H1.
Qed.

Lemma runs_next_event index event w (P : RunEnv -> Prop) E :
  (forall t, h_next_event host t index = inr event) -> (forall w', talk w' = talk w -> P w') ->
  runs (next_event host index) (fun e w' => e = event /\ P w') E w.
Proof.
  intros He HP. unfold runs, next_event, mbind_, boundary. rewrite He. split; [done|]. apply HP, talk_boundary.
Qed.

Lemma placeholder_talk base assistant_id w w' : talk w' = talk w -> placeholder base assistant_id w -> placeholder base assistant_id w'.
Proof. unfold placeholder. by intros ->. Qed.

Lemma runs_stream_loop base turn_id events rounds index s assistant_id w :
  (forall t i, h_next_event host t (index + i)%nat = inr (events !! i)) -> (length events < rounds)%nat ->
  placeholder base assistant_id w ->
  runs (stream_loop host rounds index turn_id model (s <| ss_assistant_id := assistant_id |>))
    (fun s' w' => exists s2 assistant_id', reduce_stream s events = Some s2 /\ s' = s2 <| ss_assistant_id := assistant_id' |> /\
                    placeholder base assistant_id' w')
    (fun e w' => reduce_stream s events = None /\ (exists message, e = UnsupportedModelStream message) /\
                 exists assistant_id', placeholder base assistant_id' w') w.
Proof.
  revert events index s assistant_id w. induction rounds as [|rounds IH]; intros events index s assistant_id w He Hr Hw; [lia|].
  cbn [stream_loop]. eapply runs_bind.
  { apply (runs_next_event index (events !! O) w (placeholder base assistant_id)); [|intros w' Ht; by eapply placeholder_talk].
    intros t. by rewrite <- (He t O), Nat.add_0_r. }
  intros e w1 [-> H1]. destruct events as [|event events]; cbn [lookup list_lookup reduce_stream]; [by exists s, assistant_id|].
  change (ss_reason (s <| ss_assistant_id := assistant_id |>)) with (ss_reason s).
  destruct (reported (ss_reason s)); [split_and!; [done|by eexists|by eexists]|].
  eapply runs_bind; [by apply runs_stream_step|]. intros s' w2 (assistant_id' & -> & H2). apply IH; [|cbn in Hr; lia|done].
  intros t i. specialize (He t (S i)). by rewrite Nat.add_succ_r in He.
Qed.

(** The conversation after the message is in place of the placeholder. *)
Lemma commit_placeholder base assistant_id response w :
  placeholder base assistant_id w ->
  agent_talk (commit_response assistant_id response (w_agent w)).2 =
    (base.1 ++ [streamed_message base.2 response], u64_saturating_add base.2 1) /\
  (commit_response assistant_id response (w_agent w)).1 = streamed_message base.2 response.
Proof.
  unfold commit_response, talk, agent_talk. destruct assistant_id as [id|]; cbn.
  - intros [-> Hw]. unfold talk, agent_talk in Hw. injection Hw as Hm Hn. unfold replace_last_message. cbn. rewrite Hm.
    destruct (base.1 ++ _) as [|x l] eqn:Hl; [by destruct base.1|]. rewrite <- Hl. cbn -[take app length Nat.sub]. rewrite Hn.
    by rewrite Hl, <- Hl, length_app, Nat.add_sub, take_app_length.
  - intros <-. done.
Qed.

Lemma runs_commit base assistant_id response w E :
  placeholder base assistant_id w ->
  runs (lock_agent host (commit_response assistant_id response))
    (fun m w' => talk w' = (base.1 ++ [streamed_message base.2 response], u64_saturating_add base.2 1)) E w.
Proof.
  intros Hw. pose proof (placeholder_talk base assistant_id _ _ (talk_boundary w (w_time w)) Hw) as H1.
  destruct (commit_placeholder base assistant_id response _ H1) as [Ht _]. revert Ht.
  unfold runs, lock_agent, mbind_, boundary. by destruct (commit_response _ _ _).
Qed.

Lemma runs_record_usage turn_id usage w E :
  runs (record_usage host turn_id model usage) (fun _ w' => talk w' = talk w) E w.
Proof.
  unfold record_usage. eapply (runs_bind _ _ _ (fun _ w' => w' = w)); [done|]. intros run_id w1 ->.
  eapply (runs_bind _ _ _ (fun o w' => tame o /\ (forall e, o <> Err e) /\ talk w' = talk w)).
  - unfold runs, lock_agent, mbind_, boundary. set (a := mk_turn_accounting _ _ _ _). rewrite <- (talk_boundary w (w_time w)).
    set (w1 := (h_interfere host (w_time w) w) <| w_time := S (w_time w) |>). clearbody w1.
    pose proof (tame_accounting (E:=Empty_set) (as_accounting (w_agent w1)) a) as Ht.
    destruct (accounting_record _ _) as [snapshot|[]|r]; [by split_and!|].
    split_and!; [|done|done]. intros r' [= <-]. by apply Ht.
  - intros o w2 (Ht & Hne & Hw2). eapply (runs_bind _ _ _ (fun _ w' => talk w' = talk w)).
    { unfold runs, of_outcome. destruct o as [[]|e|r]; [done|by specialize (Hne e)|by apply Ht]. }
    intros [] w3 H3. rewrite <- H3. apply runs_emit_talk.
Qed.

Definition streamed (base : list AgentMessage * N) (response : ProviderResponse) (w : RunEnv) : Prop :=
  talk w = (base.1 ++ [streamed_message base.2 response], u64_saturating_add base.2 1).
Lemma runs_settle_stream base turn_id s assistant_id reason w E :
  placeholder base assistant_id w ->
  runs (settle_stream host turn_id model (s <| ss_assistant_id := assistant_id |>) reason)
    (fun r w' => r.1 = response_of s reason model /\ streamed base r.1 w') E w.
Proof.
  intros Hw. unfold settle_stream. eapply runs_bind; [by eapply runs_commit|]. intros m w1 H1.
  eapply (runs_bind _ _ _ (fun _ w' => talk w' = talk w1)).
  { destruct (ss_assistant_id _); [done|]. apply runs_emit_talk. }
  intros [] w2 H2. eapply runs_bind; [apply runs_emit_talk|]. intros [] w3 H3. rewrite H2 in H3.
  eapply (runs_bind _ _ _ (fun _ w' => talk w' = talk w3)).
  { destruct (ss_usage _); [apply runs_record_usage|done]. }
  intros [] w4 H4. split; [done|]. unfold streamed. by rewrite H4, H3, H1.
Qed.

(** Only the accounting of usage can panic. *)
Definition never_panics {A} (m : M A) : Prop := forall w w' reason, m w <> Some (w', Panic reason).
Lemma never_bind {A T} (m : M A) (k : A -> M T) : never_panics m -> (forall a, never_panics (k a)) -> never_panics (mbind_ m k).
Proof.
  intros Hm Hk w w' reason. unfold mbind_. specialize (Hm w). destruct (m w) as [[w1 [a|e|r]]|]; [apply Hk|done| |done].
  by destruct (Hm w1 r).
Qed.
Lemma never_lock_agent {A} (section : CoreAgentState -> A * CoreAgentState) : never_panics (lock_agent host section).
Proof. intros w w' reason. unfold lock_agent, mbind_, boundary. by destruct (section _). Qed.
Lemma never_emit kind : never_panics (emit host kind).
Proof. done. Qed.
Lemma never_emit_delta assistant_id delta : never_panics (emit_assistant_delta host assistant_id model delta).
Proof.
  apply never_bind; [apply never_lock_agent|]. intros id. apply never_bind; [by destruct assistant_id|]. intros [].
  by apply never_bind.
Qed.
Lemma never_stream_step turn_id s event : never_panics (stream_step host turn_id model s event).
Proof. unfold stream_step. destruct event; try done; (apply never_bind; [first [apply never_emit_delta|done]|done]). Qed.
Lemma never_stream_loop rounds index turn_id s : never_panics (stream_loop host rounds index turn_id model s).
Proof.
  revert index s. induction rounds as [|rounds IH]; intros index s; [done|]. cbn [stream_loop]. apply never_bind.
  - apply never_bind; [done|]. intros t. by destruct (h_next_event host t index).
  - intros [event|]; [|done]. destruct (reported _); [done|]. apply never_bind; [apply never_stream_step|done].
Qed.
Lemma never_settle_stream turn_id s reason : ss_usage s = None -> never_panics (settle_stream host turn_id model s reason).
Proof.
  intros Hu. unfold settle_stream. rewrite Hu. apply never_bind; [apply never_lock_agent|]. intros m.
  apply never_bind; [by destruct (ss_assistant_id s)|]. intros []. by apply never_bind.
Qed.
End stream.

(** ** Recovered batches *)

Definition is_result_of (call : AgentToolCall) (m : AgentMessage) : Prop :=
  exists r, m = ToolResult r /\ tr_tool_call_id r = tc_id call /\ tr_tool_name r = tc_name call.
Definition result_id (m : AgentMessage) : string := match m with ToolResult r => tr_tool_call_id r | _ => EmptyString end.

Lemma split_last_none l : Forall (fun m => is_assistant m = false) l -> split_last_assistant l = None.
Proof. induction 1 as [|m l Hm _ IH]; cbn; [done|]. rewrite IH. by destruct m. Qed.
Lemma split_last_some l before a after :
  split_last_assistant l = Some (before, a, after) ->
  l = before ++ Assistant a :: after /\ Forall (fun m => is_assistant m = false) after.
Proof.
  revert before. induction l as [|m l IH]; intros before; cbn; [done|].
  destruct (split_last_assistant l) as [[[b a'] r]|] eqn:Hl.
  - intros [= <- <- <-]. destruct (IH b eq_refl) as [-> Hf]. done.
  - assert (Hf : Forall (fun m => is_assistant m = false) l).
    { clear IH. induction l as [|x l IH]; [done|]. cbn in Hl. destruct (split_last_assistant l) as [[[]]|]; [done|].
      constructor; [by destruct x|by apply IH]. }
    destruct m; try done. by intros [= <- <- <-].
Qed.
Lemma split_last_app before a after :
  Forall (fun m => is_assistant m = false) after -> split_last_assistant (before ++ Assistant a :: after) = Some (before, a, after).
Proof.
  intros Hf. induction before as [|m before IH]; cbn; [by rewrite split_last_none|]. by rewrite IH.
Qed.

(** What the loop over the committed results accepts. *)
Lemma committed_results_spec calls operation settled all results settled' all' :
  committed_results calls operation settled all results = Ok (settled', all') ->
  Forall (fun m => exists call, call ∈ calls /\ is_result_of call m) results /\
  NoDup (map result_id results) /\ (forall m, m ∈ results -> result_id m ∉ settled) /\
  (forall id, id ∈ settled' <-> id ∈ settled \/ id ∈ map result_id results).
Proof.
  revert settled all. induction results as [|m results IH]; intros settled all; cbn [committed_results].
  - intros [= <- <-]. split_and!; [done|constructor|set_solver|set_solver].
  - destruct m as [| |r|]; try done. destruct (negb _ || _) eqn:Hc; [done|]. intros Hrec.
    apply orb_false_iff in Hc as [Hcall Hfresh]. apply negb_false_iff, existsb_exists in Hcall as (call & Hin & Hcall).
    apply andb_true_iff in Hcall as [Hid%String.eqb_eq Hname%String.eqb_eq]. apply bool_decide_eq_false in Hfresh.
    destruct (IH _ _ Hrec) as (Hall & Hnd & Hnew & Hset). cbn [map result_id]. split_and!.
    + constructor; [|done]. exists call. split; [by apply list_elem_of_In|]. by exists r.
    + constructor; [|done]. intros (m & Hm & Hin')%list_elem_of_fmap. apply (Hnew m Hin'). rewrite <- Hm. set_solver.
    + intros m [->|Hm]%elem_of_cons; [done|]. specialize (Hnew m Hm). set_solver.
    + intros id. rewrite Hset, elem_of_cons. set_solver.
Qed.

(** The position of a call. *)
Lemma call_positions_from calls n (positions : gmap string N) :
  NoDup (map tc_id calls) ->
  let result := foldl (fun positions ic => <[tc_id ic.2 := ic.1]> positions) positions
                  (imap (fun i c => (N.of_nat (n + i), c)) calls) in
  (forall i call, calls !! i = Some call -> result !! tc_id call = Some (N.of_nat (n + i))) /\
  (forall id, id ∉ map tc_id calls -> result !! id = positions !! id).
Proof.
  revert n positions. induction calls as [|c calls IH]; intros n positions Hnd; [done|]. cbn in Hnd. apply NoDup_cons in Hnd as [Hc Hnd].
  cbn zeta. rewrite imap_cons. cbn [foldl fst snd].
  rewrite (imap_ext _ (fun i x => (N.of_nat (S n + i), x))) by (intros; cbn; do 2 f_equal; lia).
  destruct (IH (S n) (<[tc_id c := N.of_nat (n + 0)]> positions) Hnd) as [Hin Hout]. split.
  - intros [|i] call Hi; cbn in Hi; [injection Hi as <-; rewrite Hout by done; by rewrite lookup_insert_eq|].
    rewrite (Hin i call Hi). do 2 f_equal. lia.
  - intros id Hid. cbn in Hid. apply not_elem_of_cons in Hid as [? ?]. rewrite Hout by done. by rewrite lookup_insert_ne.
Qed.
Lemma call_positions_at calls i call :
  NoDup (map tc_id calls) -> calls !! i = Some call -> call_positions calls !! tc_id call = Some (N.of_nat i).
Proof. intros Hnd Hi. destruct (call_positions_from calls 0 ∅ Hnd) as [Hin _]. exact (Hin i call Hi). Qed.

Lemma sorted_indices {A} (l : list A) (f : A -> N) n :
  (forall i x, l !! i = Some x -> f x = N.of_nat (n + i)) -> StronglySorted N.le (map f l).
Proof.
  revert n. induction l as [|x l IH]; intros n Hf; cbn; [constructor|]. constructor.
  - apply (IH (S n)). intros i y Hy. rewrite (Hf (S i) y Hy). f_equal. lia.
  - apply Forall_forall. intros k (y & -> & Hy)%list_elem_of_fmap. apply list_elem_of_lookup in Hy as [i Hi].
    rewrite (Hf O x eq_refl), (Hf (S i) y Hi). lia.
Qed.

(** Results of all calls, in any order, sort into the order of the calls. *)
Lemma sorted_results calls results :
  NoDup (map tc_id calls) -> Forall (fun m => exists call, call ∈ calls /\ is_result_of call m) results ->
  map result_id results ≡ₚ map tc_id calls ->
  Forall2 is_result_of calls (sort_by_key (result_position (call_positions calls)) results).
Proof.
  intros Hnd Hall Hperm. set (key := result_position (call_positions calls)).
  set (position := fun id => default u64_max (call_positions calls !! id)).
  assert (Hkey : Forall (fun m => key m = position (result_id m)) results).
  { eapply Forall_impl; [exact Hall|]. by intros m (call & _ & r & -> & _). }
  pose proof (sort_by_key_perm key results) as Hsort.
  assert (Hsorted : map key (sort_by_key key results) = map (position ∘ tc_id) calls).
  { apply (StronglySorted_unique N.le); [apply sort_by_key_sorted| |].
    - apply (sorted_indices _ _ 0). intros i c Hi. cbn. unfold position. by rewrite (call_positions_at calls i c Hnd Hi).
    - rewrite Hsort. transitivity (map position (map result_id results)); [|by rewrite Hperm, map_map].
      rewrite map_map. apply reflexive_eq, map_ext_in. intros m Hm%list_elem_of_In. by apply (proj1 (Forall_forall _ _) Hkey). }
  rewrite <- Hsort in Hall. revert Hall Hsorted. generalize (sort_by_key key results). intros sorted Hall Hsorted.
  apply Forall2_same_length_lookup. split; [by symmetry; apply (f_equal length) in Hsorted; rewrite !length_map in Hsorted|].
  intros i call m Hc Hm. destruct (Forall_lookup_1 _ _ _ _ Hall Hm) as (call' & Hin & Hres).
  apply (f_equal (fun l => l !! i)) in Hsorted. rewrite !list_lookup_fmap, Hm, Hc in Hsorted. cbn in Hsorted. injection Hsorted as Hsame.
  apply list_elem_of_lookup in Hin as [j Hj]. destruct Hres as (r & -> & Hid & Hname). cbn in Hsame. unfold position in Hsame.
  rewrite Hid, (call_positions_at calls j call' Hnd Hj), (call_positions_at calls i call Hnd Hc) in Hsame. cbn in Hsame.
  apply Nat2N.inj in Hsame as ->. rewrite Hc in Hj. injection Hj as <-. by exists r.
Qed.

Lemma answered_results id calls added next :
  answered id calls added next -> Forall2 is_result_of calls added.
Proof.
  revert id added. induction calls as [|c calls IH]; intros id [|m added]; cbn; try done.
  intros [(result & Hid & ->) Hrest]. constructor; [|by eapply IH]. eexists. split; [done|]. by destruct c.
Qed.

(** ** A run of two turns *)

#[local] Existing Instance lenient_codec.
#[local] Existing Instance toy_blake3.
(** The first turn calls a tool, the second overflows the context, is compacted and answers. *)
Definition first_events : list ModelStreamEvent := [StreamToolCall (mk_call "c0" "read" "{}"); StreamEnd ToolUse].
Definition overflow_events : list ModelStreamEvent := [ContextOverflow "too long"].
Definition second_events : list ModelStreamEvent := [TextDelta "do"; TextDelta "ne"; StreamEnd Stop].
Definition short_summary : list AgentMessage := [User 50 "s"].
Definition summarise (replies : list PortReply) : CompactorStep :=
  match replies with
  | [] => BeginRequest (mk_request PurposeCompaction (mk_transcript [] []) None None Off None None)
  | [BeginReply (inr ticket)] => SettleRequest ticket (CompactionRequestSucceeded None None)
  | _ => CompactorReturns (inr (compaction_result_new short_summary))
  end.
Definition two_turn_host : Host :=
  {| h_interfere _ w := w;
     h_gate_before _ _ := None;
     h_gate_after _ _ _ := None;
     h_before_tool _ _ := inr Allow;
     h_after_tool _ _ _ := inr after_default;
     h_poll _ call w := (w, Some (inr (mk_tool_result (cl_id call) "text" None None [] false false None)));
     h_transform _ context := inr context;
     h_prepare_next_turn _ _ := inr (mk_turn_update None None None);
     h_should_stop t _ := inr (400 <=? t)%nat;
     h_projection _ _ := InPlace;
     h_stream _ _ := None;
     h_next_event t i := inr ((if (t <? 40)%nat then first_events
                               else if (t <? 95)%nat then overflow_events else second_events) !! i);
     h_compact _ _ _ replies := summarise replies |}.

Lemma two_turn_host_cooperates : cooperates two_turn_host 400 3.
Proof.
  constructor; [constructor; intros; first [done|by eexists]|done|done|..].
  - intros t context request replies Hr. cbn [two_turn_host h_compact].
    destruct replies as [|[[e|ticket]|reply] [|x l]]; cbn in *; try lia; by eexists.
  - intros t index event Hi. cbn [two_turn_host h_next_event]. repeat case_match; (rewrite lookup_ge_None_2; [done|cbn; lia]).
  - intros t context Ht. cbn [two_turn_host h_should_stop]. destruct (Nat.leb_spec 400 t); [done|lia].
Qed.

Definition plain_setup (virtual_models : list VirtualModel) : RunSetup :=
  mk_setup (mk_system_prompt []) two_tools projection_default None virtual_models true None [User 1 "go"] 0 false
    None None (mk_automatic_policy true (ContextBudget 100000) 10 10 0 CompactAndRetry 2 1) (Some caller_supplied).
Definition fresh_world : RunEnv :=
  mk_run_env (agent_state_default <| as_messages := [User 1 "go"] |> <| as_next_message_id := 2 |> <| as_phase := PhaseRunning 1 |>)
    (run_created 1) policy_state_default false 0 [] ∅ (Some 1) (mk_queues queue_default queue_default) (DrainAll, DrainAll)
    (ledger_new 0) ∅ 0 ∅.
Abbreviation two_turn_run :=
  (drive_settled two_turn_host (plain_setup []) (fun _ => "") (fun _ => "") (fun _ => "") 805 802 fresh_world).

(** ** Theorems *)

(** C14: Driving a run always settles it. Against every host that settles down (arbitrary hook
    answers, gate refusals, stream contents, compactor proposals, steering, progress and
    cancellation before that), the drive of a created run that owns its agent returns; unless an
    encoding or a cost panics, the run is then terminal, succeeded exactly when the drive
    returned without an error and cancelled only if cancellation was requested, and the agent is
    idle, without transient state and without an active run. *)
Theorem drive_settles_run `{Blake3} `{Miniserde} host D B fuel rounds setup show_arguments show_json show_error w :
  cooperates host D B -> (2 * D + 1 + B < fuel)%nat -> (2 * D + 1 < rounds)%nat ->
  (forall calls, su_recovery_tool_calls setup = Some calls -> (length calls <= B)%nat) ->
  undriven (rs_id (w_run w)) w ->
  match drive_settled host setup show_arguments show_json show_error fuel rounds w with
  | Some (w', Ok _) => settled RunSucceeded w'
  | Some (w', Err _) => settled RunFailed w' \/ settled RunCancelled w'
  | Some (_, Panic reason) => reason ∈ drive_panics
  | None => False
  end.
Proof.
  intros Hhost Hfuel Hr Hcalls Hw.
  exact (runs_drive_settled host D B fuel Hhost Hfuel setup Hcalls show_arguments show_json show_error rounds _ w Hr Hw).
Qed.

Lemma drive_settles_run_witness :
  exists w, two_turn_run = Some (w, Ok ()) /\ settled RunSucceeded w /\
    List.existsb is_tool_result (as_messages (w_agent w)) = false /\ length (as_messages (w_agent w)) = 3%nat.
Proof.
  pose proof (drive_settles_run two_turn_host 400 3 805 802 (plain_setup []) (fun _ => "") (fun _ => "") (fun _ => "") fresh_world
                two_turn_host_cooperates) as Hd.
  assert (exists w, two_turn_run = Some (w, Ok ()) /\ List.existsb is_tool_result (as_messages (w_agent w)) = false /\
            length (as_messages (w_agent w)) = 3%nat) as (w & Hr & Ht & Hl).
  { eexists. split_and!; vm_compute; reflexivity. }
  rewrite Hr in Hd. exists w. split_and!; [exact Hr| |exact Ht|exact Hl]. apply Hd; [lia|lia|done|split_and!; reflexivity].
Defined.

(** Recovery completes an interrupted batch in source order: when the missing calls of a
    validated batch were answered, the results of the last assistant message are exactly the
    committed and the recovered ones, one for each call under its identity and name, in the
    order of the calls, whatever order they were committed in. *)
Theorem recovered_results_in_source_order messages calls operation prior added id next s :
  validate_recovery_tool_batch messages calls operation = Ok prior ->
  as_messages s = messages ++ added -> answered id calls added next ->
  (forall a, Assistant a ∈ messages -> NoDup (map tc_id (am_tool_calls a))) ->
  exists before a committed results,
    messages = before ++ Assistant a :: committed /\
    as_messages (order_recovered_tool_results s) = before ++ Assistant a :: results /\
    results ≡ₚ committed ++ added /\ Forall2 is_result_of (am_tool_calls a) results.
Proof.
  unfold validate_recovery_tool_batch. destruct (split_last_assistant messages) as [[[before a] committed]|] eqn:Hsplit; [|done].
  apply split_last_some in Hsplit as [-> Hno]. destruct (negb _); [done|]. destruct (_ <=? _)%nat; [done|].
  destruct (committed_results _ _ _ _ _) as [[settled all]|e|r] eqn:Hc; [|done|done]. cbn [obind].
  destruct (negb _) eqn:Hcalls; [done|]. apply negb_false_iff, bool_decide_eq_true in Hcalls as <-. intros _ Hs Hanswered Hids.
  specialize (Hids a ltac:(apply elem_of_app; right; by left)). apply committed_results_spec in Hc as (Hall & Hnd & _ & Hset).
  apply answered_results in Hanswered. set (missing := List.filter _ _) in *.
  assert (Hmissing : forall call, call ∈ missing <-> call ∈ am_tool_calls a /\ tc_id call ∉ map result_id committed).
  { intros call. unfold missing. rewrite list_elem_of_In, filter_In, <- list_elem_of_In, negb_true_iff. unfold mem.
    rewrite bool_decide_eq_false, Hset. set_solver. }
  assert (Hadded : map result_id added = map tc_id missing).
  { clear -Hanswered. induction Hanswered as [|c m l k (r & -> & Hid & _) _ IH]; cbn; [done|]. by rewrite Hid, IH. }
  exists before, a, committed, (sort_by_key (result_position (call_positions (am_tool_calls a))) (committed ++ added)).
  split_and!; [done| |apply sort_by_key_perm|].
  - unfold order_recovered_tool_results. rewrite Hs, <- app_assoc. cbn [app]. rewrite split_last_app; [done|].
    apply Forall_app. split; [done|]. clear -Hanswered. induction Hanswered as [|c m l k (r & -> & _) _ IH]; by constructor.
  - apply sorted_results; [done| |].
    + apply Forall_app. split; [done|]. apply Forall_forall. intros m Hm. apply list_elem_of_lookup in Hm as [i Hi].
      destruct (Forall2_lookup_r _ _ _ _ _ Hanswered Hi) as (call & Hcall & Hres). exists call. split; [|done].
      apply list_elem_of_lookup_2, Hmissing in Hcall. apply Hcall.
    + rewrite map_app, Hadded. apply NoDup_Permutation; [|done|].
      * apply NoDup_app. split_and!; [done| |].
        -- intros x Hx (call & -> & Hcall)%list_elem_of_fmap. by apply Hmissing in Hcall as [_ ?].
        -- unfold missing. clear -Hids. induction (am_tool_calls a) as [|c l IH]; cbn in *; [constructor|].
           apply NoDup_cons in Hids as [Hc Hl]. destruct (negb _); cbn; [|by apply IH]. constructor; [|by apply IH].
           intros (call & Hid & Hin)%list_elem_of_fmap. apply Hc. rewrite Hid. apply list_elem_of_fmap_2.
           apply list_elem_of_In, filter_In in Hin as [Hin _]. by apply list_elem_of_In.
      * intros x. rewrite elem_of_app. split.
        -- intros [(m & -> & Hm)%list_elem_of_fmap|(call & -> & Hcall)%list_elem_of_fmap].
           ++ destruct (proj1 (Forall_forall _ _) Hall m Hm) as (call & Hin & r & -> & Hid & _). cbn. rewrite Hid. by apply list_elem_of_fmap_2.
           ++ apply Hmissing in Hcall as [Hcall _]. by apply list_elem_of_fmap_2.
        -- intros (call & -> & Hcall)%list_elem_of_fmap. destruct (decide (tc_id call ∈ map result_id committed)); [by left|right].
           apply list_elem_of_fmap_2. by apply Hmissing.
Qed.

(** The second of two calls was answered before the interruption. *)
Definition interrupted_turn : list AgentMessage :=
  [User 1 "go"; Assistant (mk_assistant 2 [] [mk_call "a" "read" "{}"; mk_call "b" "read" "{}"] (Some ToolUse) None [] None);
   ToolResult (mk_result 3 "b" "read" "second" None None [] false false None)].
Definition late_result : AgentMessage := ToolResult (mk_result 4 "a" "read" "first" None None [] false false None).
Lemma recovered_results_in_source_order_witness :
  map result_id (drop 2 (as_messages (order_recovered_tool_results
    (agent_state_default <| as_messages := interrupted_turn ++ [late_result] |>)))) = ["a"; "b"].
Proof.
  destruct (recovered_results_in_source_order interrupted_turn [mk_call "a" "read" "{}"] "recover" false [late_result] 4 5
              (agent_state_default <| as_messages := interrupted_turn ++ [late_result] |>)) as (before & a & committed & results & Hm & Ho & _ & Hf).
  - vm_compute. reflexivity.
  - reflexivity.
  - split; [|reflexivity]. exists (mk_tool_result "a" "first" None None [] false false None). split; reflexivity.
  - intros a Ha. repeat (apply elem_of_cons in Ha as [Ha|Ha]; [try discriminate Ha; injection Ha as ->|]); [|by apply not_elem_of_nil in Ha].
    cbn. repeat constructor; set_solver.
  - vm_compute. reflexivity.
Defined.

(** C16: Consuming a provider stream refines the pure reduction of its events: a well-formed
    stream, however its deltas are chunked, adds exactly one assistant message, the reduction of
    the events, in place of the placeholder that was shown while streaming; a stream without a
    terminal event, or with events after it, is refused and leaves at most the empty
    placeholder. *)
Theorem streamed_turn_appends_one_message `{Miniserde} host D events fuel turn_id model w :
  settles_down host D -> (forall t i, h_next_event host t i = inr (events !! i)) -> (length events < fuel)%nat ->
  match stream_response model events, consume_assistant_stream host fuel turn_id model w with
  | Some expected, Some (w', Ok (response, _)) =>
      response = expected /\
      talk w' = ((talk w).1 ++ [streamed_message (talk w).2 response], u64_saturating_add (talk w).2 1)
  | Some expected, Some (_, Panic reason) => is_Some (rp_usage expected) /\ reason ∈ drive_panics
  | None, Some (w', Err (UnsupportedModelStream _)) =>
      talk w' = talk w \/
      talk w' = ((talk w).1 ++ [empty_assistant (talk w).2 None None model], u64_saturating_add (talk w).2 1)
  | _, _ => False
  end.
Proof.
  intros Hhost He Hfuel. destruct (talk w) as [messages next] eqn:Hw. unfold stream_response, consume_assistant_stream.
  pose proof (runs_stream_loop host D Hhost model (messages, next) turn_id events fuel 0 stream_start None w He Hfuel Hw) as Hloop.
  pose proof (never_stream_loop host model fuel 0 turn_id stream_start w) as Hnever.
  revert Hloop Hnever. unfold runs, mbind_. change (stream_start <| ss_assistant_id := None |>) with stream_start.
  destruct (stream_loop _ _ _ _ _ _ w) as [[w1 [s|e|r]]|]; [| |intros _ Hn; by destruct (Hn w1 r)|done].
  - intros (s2 & assistant_id & -> & -> & H1) _. change (ss_reason (s2 <| ss_assistant_id := assistant_id |>)) with (ss_reason s2).
    destruct (ss_reason s2) as [reason|]; [|].
    + pose proof (runs_settle_stream host D Hhost model _ turn_id s2 assistant_id reason w1 (fun _ _ => False) H1) as Hs.
      pose proof (never_settle_stream host model turn_id (s2 <| ss_assistant_id := assistant_id |>) reason) as Hp.
      revert Hs. unfold runs. destruct (settle_stream _ _ _ _ _ w1) as [[w2 [[response tokens]|e|p]]|] eqn:Hrun; [|done| |done].
      * intros [Hr Ht]. split; [exact Hr|exact Ht].
      * intros Hr. split; [|done]. destruct (ss_usage s2) as [usage|] eqn:Hu; [cbn; rewrite Hu; by eexists|]. by apply Hp in Hrun.
    + cbn. unfold placeholder in H1. destruct assistant_id as [id|]; [right; by destruct H1 as [-> ?]|by left].
  - intros (-> & [message ->] & assistant_id & H1) _. unfold placeholder in H1.
    destruct assistant_id as [id|]; [right; by destruct H1 as [-> ?]|by left].
Qed.

(** The second stream of the run, alone. *)
Definition streaming_host : Host :=
  {| h_interfere _ w := w;
     h_gate_before _ _ := None;
     h_gate_after _ _ _ := None;
     h_before_tool _ _ := inr Allow;
     h_after_tool _ _ _ := inr after_default;
     h_poll _ call w := (w, Some (inr (mk_tool_result (cl_id call) "text" None None [] false false None)));
     h_transform _ context := inr context;
     h_prepare_next_turn _ _ := inr (mk_turn_update None None None);
     h_should_stop t _ := inr true;
     h_projection _ _ := InPlace;
     h_stream _ _ := None;
     h_next_event _ i := inr (second_events !! i);
     h_compact _ _ _ _ := CompactorReturns (inl (CompactorFailed [])) |}.

Lemma streamed_turn_appends_one_message_witness :
  exists w response tokens, consume_assistant_stream streaming_host 4 1 None fresh_world = Some (w, Ok (response, tokens)) /\
    rp_content response = [Text "done"] /\ as_messages (w_agent w) = [User 1 "go"; streamed_message 2 response].
Proof.
  pose proof (streamed_turn_appends_one_message streaming_host 0 second_events 4 1 None fresh_world) as Hs.
  assert (exists w response tokens, consume_assistant_stream streaming_host 4 1 None fresh_world = Some (w, Ok (response, tokens)) /\
            rp_content response = [Text "done"]) as (w & response & tokens & Hr & Hc).
  { do 3 eexists. split; [vm_compute; reflexivity|vm_compute; reflexivity]. }
  exists w, response, tokens. split_and!; [exact Hr|exact Hc|]. rewrite Hr in Hs. destruct (stream_response None second_events) as [expected|].
  2:{ vm_compute in Hs. destruct Hs; [constructor; intros; first [done|by eexists]|done|lia]. }
  destruct Hs as [_ Ht]; [constructor; intros; first [done|by eexists]|done|cbn; lia|]. exact (f_equal fst Ht).
Defined.

(** Routing never widens the host's choice: the model of a request is the physical
    selection itself, or, for a virtual selection, one of the targets the host approved for that
    virtual model, whatever the router answers, whatever was routed before and whatever the
    conversation says; routing neither panics nor waits. *)
Theorem routed_model_approved `{Miniserde} host setup selected level w :
  match route_model host setup selected level w with
  | Some (_, Ok dispatch) => dispatch_ok setup selected dispatch
  | Some (_, Err _) => True
  | Some (_, Panic _) | None => False
  end.
Proof.
  cut (yields (dispatch_ok setup selected) (route_model host setup selected level)).
  { intros Hy. specialize (Hy w). by destruct (route_model _ _ _ _ _) as [[w' [d|e|r]]|]. }
  unfold route_model. destruct selected as [selected|]; [|by apply yields_ret].
  destruct (String.eqb_spec (md_provider selected) VIRTUAL_PROVIDER) as [Hv|Hv]; cbn [negb].
  - unfold find_virtual. destruct (List.find _ _) as [v|] eqn:Hf; [|apply yields_fail].
    apply List.find_some in Hf as [Hin Hd%bool_decide_eq_true]. apply yields_route_virtual; [|done|done].
    by apply list_elem_of_In.
  - apply yields_ret. split; [done|]. by intros model [= <-].
Qed.

(** A router that is asked to continue on an unapproved model. *)
Definition virtual_selection : ModelDescriptor := mk_model VIRTUAL_PROVIDER "auto" None.
Definition stubborn (target : ModelDescriptor) : VirtualModel :=
  mk_virtual virtual_selection [mk_model "p" "a" None] Routed (fun _ => inr (mk_route target None None)) None None.
Example unapproved_route_refused :
  match route_model two_turn_host (plain_setup [stubborn (mk_model "p" "b" None)]) (Some virtual_selection) Off fresh_world,
        route_model two_turn_host (plain_setup [stubborn (mk_model "p" "a" None)]) (Some virtual_selection) Off fresh_world with
  | Some (_, Err (ModelRoutingError _)), Some (_, Ok (Some target, Some _, _)) => md_model target = "a"
  | _, _ => False
  end.
Proof. vm_compute. reflexivity. Qed.

