(* ===== verification/CompactionRunProofs.v ===== *)
(** * tea-core: a compaction is atomic

    Whatever the compactor, the hooks and the gate do, a compaction leaves the
    conversation as it was, or replaces it by a proposal that passed every
    check and was written durably first.  A manual compaction always settles. *)

From stdpp Require Import base gmap gmultiset sets list strings.
From S2P Require Import Prelude RustStr Json Ids SessionErrors Configuration Messages Transcript TranscriptJson.
From S2P Require Import CoreState SchemaValidation Tools Compaction RequestContext AgentLifecycle Measurement RunWorld.
From S2P Require Import CompactionProofs Scenario ToolRun ToolRunProofs RunRequest CompactionRun RunLoop RunLoopProofs.

Local Open Scope N_scope.
Local Open Scope run_scope.

(** ** Computations that leave the conversation alone *)

Definition every {A} (m : M A) (R : Outcome CoreError A -> RunEnv -> Prop) (w : RunEnv) : Prop :=
  match m w with Some (w', o) => R o w' | None => True end.
Definition silent {A} (m : M A) : Prop := forall w, every m (fun _ w' => talk w' = talk w) w.

Lemma every_mono {A} (m : M A) (R R' : Outcome CoreError A -> RunEnv -> Prop) w :
  every m R' w -> (forall o w', R' o w' -> R o w') -> every m R w.
Proof. unfold every. destruct (m w) as [[w' o]|]; auto. Qed.
Lemma every_bind {A B} (m : M A) (k : A -> M B) (R : Outcome CoreError B -> RunEnv -> Prop) R' w :
  every m R' w -> (forall e w', R' (Err e) w' -> R (Err e) w') -> (forall r w', R' (Panic r) w' -> R (Panic r) w') ->
  (forall a w', R' (Ok a) w' -> every (k a) R w') -> every (mbind_ m k) R w.
Proof. unfold every, mbind_. intros Hm He Hp Hk. destruct (m w) as [[w' [a|e|r]]|]; auto. by apply Hk. Qed.

Lemma silent_bind {A B} (m : M A) (k : A -> M B) : silent m -> (forall a, silent (k a)) -> silent (mbind_ m k).
Proof.
  intros Hm Hk w. eapply every_bind; [apply Hm|done|done|]. cbn. intros a w' <-. apply Hk.
Qed.
Lemma silent_ret {A} (a : A) : silent (mret a).
Proof. done. Qed.
Lemma silent_fail {A} e : silent (mfail (A := A) e).
Proof. done. Qed.
Lemma silent_outcome {A} (o : Outcome CoreError A) : silent (of_outcome o).
Proof. done. Qed.
Lemma silent_try {A} (m : M A) : silent m -> silent (try_run m).
Proof. intros Hm w. specialize (Hm w). unfold every, try_run in *. by destruct (m w) as [[w' [a|e|r]]|]. Qed.
Lemma silent_ignore {A} (m : M A) : silent m -> silent (ignore m).
Proof. intros Hm w. specialize (Hm w). unfold every, ignore in *. by destruct (m w) as [[w' [a|e|r]]|]. Qed.
Lemma silent_catch {A} (m : M A) handler :
  silent m -> (forall e, silent (handler e)) -> silent (fun w => match m w with Some (w', Err e) => handler e w' | r => r end).
Proof.
  intros Hm Hh w. specialize (Hm w). unfold every in *. destruct (m w) as [[w' [a|e|r]]|]; try done.
  rewrite <- Hm. apply Hh.
Qed.
Lemma silent_policy {A} (section : RunPolicyState -> A * RunPolicyState) : silent (lock_policy section).
Proof. intros w. unfold every, lock_policy. by destruct (section _). Qed.
Lemma silent_ledger {A} (section : PromptLayoutLedger -> Outcome CoreError (A * PromptLayoutLedger)) : silent (with_ledger section).
Proof. intros w. unfold every, with_ledger. by destruct (section _) as [[a l]|e|r]. Qed.

Create HintDb silent.
#[export] Hint Resolve silent_fail silent_outcome silent_policy silent_ledger : silent.

Section silent.
Context `{Blake3} `{Miniserde} (host : Host) (D : nat) (Hhost : settles_down host D) (setup : RunSetup) (show_error : CoreError -> string).

Lemma silent_boundary : silent (boundary host).
Proof. intros w. exact (talk_boundary host D Hhost w (w_time w)). Qed.
Lemma silent_lock_agent {A} (section : CoreAgentState -> A * CoreAgentState) :
  (forall s, agent_talk (section s).2 = agent_talk s) -> silent (lock_agent host section).
Proof.
  intros Hs w. eapply every_bind; [apply silent_boundary|done|done|]. cbn. intros t w' <-. unfold every.
  specialize (Hs (w_agent w')). by destruct (section (w_agent w')).
Qed.
Lemma silent_emit kind : silent (emit host kind).
Proof. apply silent_bind; [apply silent_boundary|]. by intros ? w. Qed.
Lemma silent_is_cancelled : silent (is_cancelled host).
Proof. apply silent_bind; [apply silent_boundary|]. by intros ? w. Qed.
Lemma silent_begin_effect subject : silent (begin_effect host subject).
Proof. apply silent_bind; [apply silent_boundary|]. intros t w. unfold every. by case_match; simplify_eq; case_match; simplify_eq. Qed.
Lemma silent_settle_effect action outcome : silent (settle_effect host action outcome).
Proof. apply silent_bind; [apply silent_boundary|]. intros t w. unfold every. by case_match; simplify_eq; case_match; simplify_eq. Qed.
Lemma silent_read_run {A} (f : RunState AgentEventKind -> A) : silent (read_run host f).
Proof. apply silent_bind; [apply silent_boundary|]. by intros ? w. Qed.
Lemma silent_lock_run section : silent (lock_run host section).
Proof. apply silent_bind; [apply silent_boundary|]. intros t w. unfold every. by destruct (section _). Qed.
Lemma silent_settle_agent error : silent (settle_agent host error).
Proof. apply silent_bind; [apply silent_boundary|]. by intros t w. Qed.
#[local] Hint Resolve silent_boundary silent_emit silent_is_cancelled silent_begin_effect silent_settle_effect silent_read_run
  silent_lock_run silent_settle_agent silent_try silent_ignore : silent.

Ltac silent :=
  intros; cbn beta zeta;
  lazymatch goal with
  | |- silent (mbind_ _ _) => apply silent_bind; [silent|intros ?; silent]
  | |- silent (mret _) => apply silent_ret
  | |- silent (match ?x with _ => _ end) => destruct x; silent
  | |- silent (lock_agent _ _) => apply silent_lock_agent; intros; by repeat case_match
  | |- silent (settle_hook _ _ _) => apply silent_settle_effect
  | |- silent _ => by eauto with silent
  end.

Lemma silent_finish phase reason error : silent (finish host phase reason error).
Proof. unfold finish. silent. Qed.
#[local] Hint Resolve silent_finish : silent.
Lemma silent_build_transcript context : silent (build_transcript host setup context).
Proof. unfold build_transcript. silent. Qed.
#[local] Hint Resolve silent_build_transcript : silent.
Lemma silent_run_compactor rounds operation context request replies port :
  silent (run_compactor host rounds operation context request replies port).
Proof.
  revert replies port. induction rounds as [|rounds IH]; intros replies port; [done|]. cbn [run_compactor].
  unfold port_begin, port_settle. silent.
Qed.
Lemma silent_settle_pending pending outcome : silent (settle_pending host pending outcome).
Proof. induction pending as [|[ticket effect] pending IH]; cbn [settle_pending]; silent. Qed.
#[local] Hint Resolve silent_run_compactor silent_settle_pending : silent.
Lemma silent_propose rounds operation context request : silent (propose host rounds operation context request).
Proof. unfold propose, settle_unfinished. silent. Qed.
Lemma silent_lifecycle record : silent (emit_compaction_lifecycle host record).
Proof. apply silent_emit. Qed.
Lemma silent_terminal operation outcome : silent (emit_terminal host operation outcome).
Proof. apply silent_emit. Qed.
Lemma silent_automatic_end reason retry outcome : silent (automatic_end host reason retry outcome).
Proof. apply silent_emit. Qed.
#[local] Hint Resolve silent_propose silent_lifecycle silent_terminal silent_automatic_end : silent.
Lemma silent_propose_replacement operation messages tokens headroom structure suffix :
  silent (propose_replacement host operation messages tokens headroom structure suffix).
Proof. unfold propose_replacement, source_generation_matches. silent. Qed.
#[local] Hint Resolve silent_propose_replacement : silent.
Lemma silent_reject {A} reason retry operation messages rejection message tokens headroom structure suffix :
  silent (reject_proposal (A := A) host reason retry operation messages rejection message tokens headroom structure suffix).
Proof. unfold reject_proposal, automatic_error. silent. Qed.
Lemma silent_provider_context reason retry operation context source :
  silent (provider_context host setup show_error reason retry operation context source).
Proof.
  apply silent_catch; [unfold build_provider_context; silent|]. intros e.
  apply silent_bind; [silent|]. intros cancelled. unfold automatic_cancelled, automatic_failed, automatic_error. silent.
Qed.
Lemma silent_await reason retry rounds operation context request :
  silent (await_proposal host show_error reason retry rounds operation context request).
Proof. unfold await_proposal, port_failed, automatic_cancelled, automatic_failed, automatic_error. silent. Qed.
#[local] Hint Resolve silent_reject silent_provider_context silent_await : silent.
Lemma silent_estimate estimator : silent (estimate_context host estimator).
Proof. unfold estimate_context. silent. Qed.
#[local] Hint Resolve silent_estimate : silent.
Lemma silent_after_compaction reason retry estimator : silent (after_compaction host setup reason retry estimator).
Proof. unfold after_compaction. silent. Qed.
End silent.

(** ** What a compaction may publish *)

(** The replacement of a proposal: the configuration is carried across it. *)
Definition carried_over (source proposal : list AgentMessage) : list AgentMessage :=
  preserve_configuration source proposal (configuration_id source proposal).

(** The gate admitted the durable write of a replacement and accepted its success. *)
Definition durably_written (host : Host) (replacement : CompactionReplacement) : Prop :=
  exists t action, ea_subject action = DurableWriteEffect (WriteReplacement replacement) /\
    h_gate_before host t action = None /\ h_gate_after host (S t) action DurableWriteSucceeded = None.

(** The conversation was replaced by a durably written proposal. *)
Definition published_as (host : Host) (operation : CompactionOperation) (source proposal : list AgentMessage) (w' : RunEnv) : Prop :=
  as_messages (w_agent w') = carried_over source proposal /\
  durably_written host (mk_replacement operation source (carried_over source proposal)).

(** The checks of an automatic proposal. *)
Record accepted `{Miniserde} (policy : AutomaticCompactionPolicy) (source retained proposal : list AgentMessage) : Prop := {
  ac_structure : validate_messages proposal = Ok tt;
  ac_suffix : retained = [] \/ slice_ends_with proposal retained = true;
  ac_checkpoint : automatic_checkpoint_rejection proposal (length retained) = None;
  ac_shrinks : messages_bytes proposal < messages_bytes source;
  ac_headroom : ap_minimum_headroom_tokens policy <= budget_tokens (ap_context_budget policy) - estimate_messages_tokens proposal;
}.

Lemma replaced_talk host operation source proposal w w' :
  talk w' = talk w -> published_as host operation source proposal w -> published_as host operation source proposal w'.
Proof. unfold talk, agent_talk. intros [= Ht _] [Hm Hd]. split; [by rewrite Ht|done]. Qed.

Lemma split_partition {E} messages recent before retained turn :
  automatic_compaction_split (E := E) messages recent = Ok (before, retained, turn) -> messages = before ++ turn ++ retained.
Proof.
  unfold automatic_compaction_split. destruct (_ || _); [intros [= <- <- <-]; by rewrite app_nil_r|].
  set (start := owner_start _ _). destruct (messages !! start) as [first|]; [|done].
  destruct (if is_assistant first then last_user_before messages start else None) as [turn_start|] eqn:Ht; intros [= <- <- <-].
  - destruct (is_assistant first); [|done]. apply last_user_spec in Ht as [Hlt _].
    rewrite <- (take_drop start messages) at 1. rewrite app_assoc. f_equal.
    rewrite <- (take_drop turn_start (take start messages)) at 1. by rewrite take_take, Nat.min_l by lia.
  - cbn. by rewrite take_drop.
Qed.

Section atomic.
Context `{Blake3} `{Miniserde} (host : Host) (D : nat) (Hhost : settles_down host D) (setup : RunSetup) (show_error : CoreError -> string).

(** After a silent computation. *)
Lemma every_after {A B} (m : M A) (k : A -> M B) (R : Outcome CoreError B -> RunEnv -> Prop) w :
  silent m -> (forall e w', talk w' = talk w -> R (Err e) w') -> (forall r w', talk w' = talk w -> R (Panic r) w') ->
  (forall a w', talk w' = talk w -> every (k a) R w') -> every (mbind_ m k) R w.
Proof. intros Hm He Hp Hk. eapply every_bind; [apply Hm|exact He|exact Hp|exact Hk]. Qed.

Lemma every_durable_write replacement w :
  every (let! write := begin_effect host (DurableWriteEffect (WriteReplacement replacement)) in
         settle_effect host write DurableWriteSucceeded)
    (fun o w' => talk w' = talk w /\ (o = Ok () -> durably_written host replacement)) w.
Proof.
  pose proof (talk_boundary host D Hhost) as Ht.
  unfold every, mbind_, begin_effect, settle_effect, mbind_, boundary. cbn -[talk].
  destruct (h_gate_before _ _ _) eqn:Hb; [split; [apply Ht|done]|]. cbn -[talk].
  destruct (h_gate_after _ _ _ _) eqn:Ha; (split; [etrans; [exact (Ht _ _)|exact (Ht w (w_time w))]|]); [done|].
  intros _. do 2 eexists. split_and!; [|exact Hb|exact Ha]; done.
Qed.

Lemma every_commit operation source proposal w :
  every (commit_replacement_durably host operation source proposal)
    (fun o w' => match o with Ok _ => published_as host operation source proposal w' | _ => talk w' = talk w end) w.
Proof.
  unfold commit_replacement_durably. apply every_after; [|done|done|].
  { apply silent_bind; [by eapply silent_boundary|]. by intros t w1. }
  intros [] w1 H1. cbv zeta. fold (carried_over source proposal).
  pose proof (every_durable_write (mk_replacement operation source (carried_over source proposal)) w1) as Hwrite.
  revert Hwrite. unfold every at 1 2. unfold mbind_ at 1 2 3.
  destruct (begin_effect _ _ w1) as [[w2 [write|e|r]]|]; [|intros [-> _]; done|intros [-> _]; done|done].
  destruct (settle_effect _ _ _ w2) as [[w3 [[]|e|r]]|]; [|intros [-> _]; done|intros [-> _]; done|done].
  intros [H3 Hd]. specialize (Hd eq_refl). rewrite H1 in H3.
  change (every (let! run_id := read_run host rs_id in
                 publish_durable_replacement host run_id (co_source_history_revision operation) (carried_over source proposal))
            (fun o w' => match o with Ok _ => published_as host operation source proposal w' | _ => talk w' = talk w end) w3).
  apply every_after; [by eapply silent_read_run|by intros ? ? ->|by intros ? ? ->|]. intros run_id w4 H4. rewrite H3 in H4.
  unfold publish_durable_replacement. unfold every, mbind_, lock_agent, mbind_, boundary.
  pose proof (talk_boundary host D Hhost w4 (w_time w4)) as H5. cbn -[talk] in *. rewrite H4 in H5.
  destruct (negb (owns _ _)); [exact H5|]. destruct (negb (_ =? _)); [exact H5|]. cbn. split; [done|exact Hd].
Qed.

Lemma every_accept reason retry operation source retained proposal w :
  every (accept_proposal host setup show_error reason retry operation (messages_bytes source) retained proposal)
    (fun o w' => talk w' = talk w /\ (o = Ok () -> accepted (su_automatic_compaction setup) source retained proposal)) w.
Proof.
  assert (Hreject : forall rejection message tokens headroom structure suffix,
    every (reject_proposal (A := unit) host reason retry operation proposal rejection message tokens headroom structure suffix)
      (fun o w' => talk w' = talk w /\ (o = Ok () -> accepted (su_automatic_compaction setup) source retained proposal)) w).
  { intros. unfold reject_proposal.
    apply every_after; [by eapply silent_automatic_end|done|done|]. intros [] w1 H1.
    apply every_after; [by eapply silent_propose_replacement|intros ? ? ->; done|intros ? ? ->; done|]. intros [] w2 H2.
    apply every_after; [by eapply silent_terminal|intros ? ? ->; by rewrite H2, H1|intros ? ? ->; by rewrite H2, H1|]. intros [] w3 H3.
    split; [by rewrite H3, H2, H1|done]. }
  unfold accept_proposal. destruct (validate_messages proposal) as [[]|e|r] eqn:Hv; [|done|done].
  destruct (negb (is_nil retained)) eqn:Hn, (slice_ends_with proposal retained) eqn:He; cbn [andb negb]; try apply Hreject;
    (destruct (automatic_checkpoint_rejection _ _) as [rejection|] eqn:Hc;
       [destruct (checkpoint_message rejection); [apply Hreject|done]|];
     destruct (N.leb_spec (messages_bytes source) (messages_bytes proposal)) as [Hle|Hlt]; [apply Hreject|];
     destruct (N.ltb_spec (budget_tokens (ap_context_budget (su_automatic_compaction setup)) - estimate_messages_tokens proposal)
                 (ap_minimum_headroom_tokens (su_automatic_compaction setup))) as [Hh|Hh]; [apply Hreject|];
     eapply every_mono; [by eapply silent_propose_replacement|]; intros o w' Ho; split; [exact Ho|]; intros _;
     constructor; [exact Hv| |exact Hc|exact Hlt|exact Hh]).
  - by right.
  - left. by destruct retained.
  - left. by destruct retained.
Qed.

Definition published (operation : CompactionOperation) (source proposal : list AgentMessage) (w : RunEnv)
    (o : Outcome CoreError unit) (w' : RunEnv) : Prop :=
  published_as host operation source proposal w' \/ (talk w' = talk w /\ o <> Ok ()).

(** Silence after the publication. *)
Lemma every_published {A} (m : M A) operation source proposal w :
  silent m -> published_as host operation source proposal w ->
  every m (fun _ w' => published_as host operation source proposal w') w.
Proof. intros Hm Hw. eapply every_mono; [apply Hm|]. cbn. intros _ w' Ht. by eapply replaced_talk. Qed.

Lemma every_commit_proposal reason retry operation source proposal w :
  every (commit_proposal host reason retry operation source proposal) (published operation source proposal w) w.
Proof.
  unfold commit_proposal. eapply (every_bind _ _ _ (published operation source proposal w)).
  - pose proof (every_commit operation source proposal w) as Hc. revert Hc. unfold every, on_error.
    destruct (commit_replacement_durably _ _ _ _ w) as [[w1 [[]|e|r]]|]; [by left| |by right|done]. intros H1.
    assert (Hf : silent (let! _ := commit_failed host reason retry operation e in mfail (A := unit) e)).
    { apply silent_bind; [|done]. intros. unfold commit_failed. destruct e; try apply silent_ret.
      - apply silent_bind; [apply silent_policy|intros _]. apply silent_bind; [by eapply silent_automatic_end|intros _].
        by eapply silent_terminal.
      - destruct error; try apply silent_ret. by eapply silent_terminal. }
    specialize (Hf w1). revert Hf. unfold every, mbind_.
    destruct (commit_failed _ _ _ _ _ w1) as [[w2 [[]|e2|r]]|]; intros H2; try done; right; by rewrite H2.
  - by intros e w1 [?|[? _]]; [left|right].
  - by intros r w1 [?|[? _]]; [left|right].
  - intros [] w1 [Hr|[_ []]]; [|done]. eapply every_mono; [apply every_published; [|exact Hr]|intros o w2 H2; by left].
    apply silent_bind; [by eapply silent_terminal|intros _]. apply silent_bind; [by eapply silent_is_cancelled|].
    intros []; [|apply silent_ret]. apply silent_bind; [apply silent_policy|intros _].
    apply silent_bind; [by eapply silent_automatic_end|intros _]. apply silent_fail.
Qed.

Lemma after_compaction_true reason retry estimator w w' compacted e :
  after_compaction host setup reason retry estimator w = Some (w', Ok (compacted, e)) -> compacted = true.
Proof.
  unfold after_compaction, mbind_. repeat case_match; try done; by intros [= _ <- _].
Qed.

(** An automatic compaction replaced the conversation. *)
Definition compacted (source : list AgentMessage) (w' : RunEnv) : Prop :=
  exists operation before turn retained proposal,
    source = before ++ turn ++ retained /\
    accepted (su_automatic_compaction setup) source retained proposal /\ published_as host operation source proposal w'.
Definition atomic (w : RunEnv) (o : Outcome CoreError (bool * ContextEstimator)) (w' : RunEnv) : Prop :=
  (talk w' = talk w /\ forall estimator, o <> Ok (true, estimator)) \/
  (compacted (as_messages (w_agent w)) w' /\ forall estimator, o <> Ok (false, estimator)).

Lemma atomic_unchanged {A} (m : M A) (k : A -> M (bool * ContextEstimator)) w0 w :
  silent m -> talk w = talk w0 -> (forall a w', talk w' = talk w0 -> every (k a) (atomic w0) w') ->
  every (mbind_ m k) (atomic w0) w.
Proof. intros Hm Hw Hk. apply every_after; [done|..]; intros ? w' H1; rewrite Hw in H1; [by left|by left|by apply Hk]. Qed.

Lemma every_snapshot w :
  every (snapshot_context host setup) (fun o w' => talk w' = talk w /\ exists context, o = Ok context /\
           cc_messages context = as_messages (w_agent w)) w.
Proof.
  pose proof (talk_boundary host D Hhost w (w_time w)) as Ht. split; [exact Ht|]. eexists. split; [done|].
  unfold talk, agent_talk in Ht. injection Ht as Ht _. exact Ht.
Qed.

Lemma every_compact_automatically reason retry rounds estimator before count context prefix retained split w0 w :
  talk w = talk w0 -> cc_messages context = as_messages (w_agent w0) -> cc_messages context = prefix ++ split ++ retained ->
  every (compact_automatically host setup show_error reason retry rounds estimator before count context prefix retained split)
    (atomic w0) w.
Proof.
  intros Hw Hc Hs. unfold compact_automatically. cbv zeta.
  apply atomic_unchanged; [apply silent_policy|done|]. intros [ordinal limit] w1 H1. destruct limit.
  { apply atomic_unchanged; [by eapply silent_automatic_end|done|]. intros [] w2 H2. by left. }
  apply atomic_unchanged; [by eapply silent_emit|done|]. intros [] w2 H2.
  apply atomic_unchanged; [by eapply silent_emit|done|]. intros [] w3 H3.
  apply atomic_unchanged; [destruct retry; [apply silent_policy|apply silent_ret]|done|]. intros retry_ordinal w4 H4.
  apply atomic_unchanged; [done|done|]. intros run_id w5 H5.
  assert (Hbegin : forall operation, silent (begin_operation host operation (cc_messages context) (prefix ++ split) retained split)).
  { intros operation. apply silent_bind; [by eapply silent_lifecycle|intros _; by eapply silent_lifecycle]. }
  destruct (su_compactor setup) as [strategy|].
  - set (operation := automatic_operation _ _ _ _ _ _ _). clearbody operation.
    apply atomic_unchanged; [apply Hbegin|done|]. intros [] w6 H6.
    apply atomic_unchanged; [by eapply silent_provider_context|done|]. intros provided w7 H7.
    apply atomic_unchanged; [|done|].
    { apply silent_bind; [apply silent_outcome|intros text; by eapply silent_lifecycle]. }
    intros [] w8 H8. apply atomic_unchanged; [by eapply silent_await|done|]. intros proposal w9 H9.
    apply atomic_unchanged; [by eapply silent_lifecycle|done|]. intros [] w10 H10.
    eapply every_bind; [apply every_accept|..].
    1,2: intros x w' [Hx _]; left; split; [by rewrite Hx|done].
    intros [] w11 [H11 Hacc]. rewrite H10 in H11. specialize (Hacc eq_refl).
    assert (Hdone : forall w', published_as host operation (cc_messages context) (cp_messages proposal) w' ->
              compacted (as_messages (w_agent w0)) w').
    { intros w' Hr. exists operation, prefix, split, retained, (cp_messages proposal). by rewrite <- Hc. }
    eapply every_bind; [apply every_commit_proposal|..].
    + intros e w12 [Hr|[H12 _]]; [right; split; [by apply Hdone|done]|left; split; [by rewrite H12|done]].
    + intros r w12 [Hr|[H12 _]]; [right; split; [by apply Hdone|done]|left; split; [by rewrite H12|done]].
    + intros [] w12 [Hr|[_ []]]; [|done].
      pose proof (every_published _ operation _ _ w12 (silent_after_compaction host D Hhost setup reason retry estimator) Hr) as Hafter.
      revert Hafter. unfold every. pose proof (after_compaction_true reason retry estimator w12) as Htrue.
      destruct (after_compaction _ _ _ _ _ w12) as [[w13 o]|] eqn:Ha; [|done]. intros H13. right. split; [by apply Hdone|].
      intros e ->. by specialize (Htrue _ _ _ eq_refl).
  - apply atomic_unchanged; [apply Hbegin|done|]. intros [] w6 H6.
    apply atomic_unchanged; [by eapply silent_terminal|done|]. intros [] w7 H7.
    apply atomic_unchanged; [by eapply silent_automatic_end|done|]. intros [] w8 H8. by left.
Qed.

Lemma every_maybe_compaction reason retry rounds estimator w :
  every (maybe_automatic_compaction host setup show_error reason retry rounds estimator) (atomic w) w.
Proof.
  assert (Hsame : forall e w', talk w' = talk w -> every (mret (false, e)) (atomic w) w') by (intros; by left).
  unfold maybe_automatic_compaction. destruct (negb _); [by apply Hsame|].
  apply atomic_unchanged; [by eapply silent_estimate|done|]. intros before w1 H1. cbv zeta.
  destruct (_ && _); [by apply Hsame|]. apply atomic_unchanged; [by eapply silent_lock_agent|done|]. intros count w2 H2.
  apply atomic_unchanged; [apply silent_policy|done|]. intros [] w3 H3; [by apply Hsame|].
  eapply every_bind; [apply every_snapshot|by intros ? ? [_ (? & ? & _)]|by intros ? ? [_ (? & ? & _)]|].
  intros context w4 (H4 & context' & [= <-] & Hc). rewrite H3 in H4.
  assert (Hc' : cc_messages context = as_messages (w_agent w)).
  { rewrite Hc. unfold talk, agent_talk in H3. by injection H3. }
  destruct (automatic_compaction_split _ _) as [[[prefix retained] split]|e|r] eqn:Hs; [|by left|by left].
  change (every (if is_nil (prefix ++ split) then mret (false, estimator)
                 else compact_automatically host setup show_error reason retry rounds estimator before count context prefix
                        retained split) (atomic w) w4).
  destruct (is_nil _); [by apply Hsame|]. by apply every_compact_automatically; [|done|apply split_partition in Hs].
Qed.
End atomic.

(** ** Manual compaction *)

(** The run ended in [phase] and the agent is idle, without transient state and without an active run. *)
Definition released (phase : RunPhase) (w : RunEnv) : Prop :=
  rs_phase (w_run w) = phase /\ as_phase (w_agent w) = Idle /\ transient w = (None, None, false, ∅).
Definition given_up (w : RunEnv) : Prop := released RunFailed w \/ released RunCancelled w.

(** Computations that never fail. *)
Definition unfailing {A} (m : M A) : Prop := forall w w' e, m w <> Some (w', Err e).
Lemma unfailing_bind {A B} (m : M A) (k : A -> M B) : unfailing m -> (forall a, unfailing (k a)) -> unfailing (mbind_ m k).
Proof.
  intros Hm Hk w w' e. unfold mbind_. specialize (Hm w). destruct (m w) as [[w1 [a|e1|r]]|]; [apply Hk| |done|done].
  by destruct (Hm w1 e1).
Qed.
Lemma unfailing_try {A} (m : M A) : unfailing (try_run m).
Proof. intros w w' e. unfold try_run. by destruct (m w) as [[w1 [a|e1|r]]|]. Qed.
Lemma unfailing_lock_agent {A} host (section : CoreAgentState -> A * CoreAgentState) : unfailing (lock_agent host section).
Proof. intros w w' e. unfold lock_agent, mbind_, boundary. by destruct (section _). Qed.
Ltac unfailing :=
  intros; cbn beta zeta;
  lazymatch goal with
  | |- unfailing (mbind_ _ _) => apply unfailing_bind; [unfailing|intros ?; unfailing]
  | |- unfailing (match ?x with _ => _ end) => destruct x; unfailing
  | |- unfailing (lock_agent _ _) => apply unfailing_lock_agent
  | |- unfailing (try_run _) => apply unfailing_try
  | |- unfailing _ => by eauto
  end.

Section manual.
Context `{Blake3} `{Miniserde} (host : Host) (D B fuel : nat).
Context (Hhost : cooperates host D B) (Hfuel : (2 * D + 1 + B < fuel)%nat) (setup : RunSetup) (show_error : CoreError -> string).

Lemma unfailing_run_compactor rounds operation context request replies port :
  unfailing (run_compactor host rounds operation context request replies port).
Proof.
  revert replies port. induction rounds as [|rounds IH]; intros replies port; [done|]. cbn [run_compactor].
  unfold port_begin, port_settle. unfailing.
Qed.
Lemma unfailing_propose operation context request : unfailing (propose host fuel operation context request).
Proof.
  unfold propose, settle_unfinished. apply unfailing_bind; [apply unfailing_run_compactor|]. intros [port result].
  apply unfailing_bind; [done|]. intros cancelled. apply unfailing_bind; [|done]. destruct (is_nil _); [done|].
  induction (pq_pending port) as [|[ticket effect] pending IH]; cbn [settle_pending]; unfailing.
Qed.

Lemma runs_sure {A T} c (m : M A) (k : A -> M T) P Q E id w :
  keeps c P m -> unfailing m -> alive id c w -> (forall a w', alive id c w' -> runs (k a) Q E w') -> runs (mbind_ m k) Q E w.
Proof.
  intros Hm Hn Hw Hk. eapply (runs_bind _ _ _ (fun _ => alive id c)); [|auto].
  specialize (Hm id w Hw). specialize (Hn w). unfold runs in *. destruct (m w) as [[w' [a|e|r]]|]; [apply Hm|by destruct (Hn w' e)|done..].
Qed.
Lemma runs_try {A} c (m : M A) P id w E : keeps c P m -> alive id c w -> runs (try_run m) (fun _ => alive id c) E w.
Proof. intros Hm Hw. specialize (Hm id w Hw). unfold runs, try_run in *. destruct (m w) as [[w' [a|e|r]]|]; [apply Hm|done..]. Qed.

Lemma runs_release phase reason error id c w E :
  alive id c w -> runs (finish host phase reason error) (fun _ => released phase) E w.
Proof.
  intros Hw. apply (alive_boundary host D B Hhost id c w (w_time w)) in Hw. unfold runs, finish, lock_run, settle_agent, mbind_, boundary.
  set (w1 := (h_interfere host (w_time w) w) <| w_time := S (w_time w) |>) in *.
  cbn -[w1]. unfold run_finish. destruct Hw as (_ & _ & Hp & _). rewrite Hp. cbn [is_terminal].
  set (w2 := w1 <| w_run := _ |>). pose proof (sd_scene _ _ (co_settles _ _ _ Hhost) (w_time w1) w2) as Hs.
  apply scene_parts in Hs as [_ Hl]. unfold life in Hl. injection Hl as Hl1 Hl2 Hl3 Hl4. by split_and!.
Qed.
Lemma runs_end {A} phase reason error event e id c w Q :
  alive id c w -> phase = RunFailed \/ phase = RunCancelled ->
  runs (do! emit host event in do! ignore (finish host phase reason error) in mfail (A := A) e) Q (fun _ => given_up) w.
Proof.
  intros Hw Hp. eapply runs_sure; [by eapply keeps_emit|done|done|]. intros [] w1 H1.
  eapply (runs_bind _ _ _ (fun _ => released phase)).
  - apply runs_ignore. eapply runs_mono; [by eapply (runs_release phase reason error id c w1 (fun _ => released phase))|done|done].
  - intros [] w2 H2. destruct Hp as [-> | ->]; [by left|by right].
Qed.
Lemma runs_settle_cancelled {A} id c w Q :
  alive id c w -> runs (compaction_settle_cancelled (A := A) host) Q (fun _ => given_up) w.
Proof.
  intros Hw. eapply runs_sure; [by eapply keeps_emit|done|done|]. intros [] w1 H1.
  eapply runs_bind; [by eapply runs_release|]. intros [] w2 H2. by right.
Qed.
Lemma runs_settle_emit_failure {A} e id c w Q :
  alive id c w -> runs (settle_emit_failure (A := A) host show_error e) Q (fun _ => given_up) w.
Proof.
  intros Hw. unfold settle_emit_failure. eapply (runs_bind _ _ _ (fun _ => released RunFailed)).
  - apply runs_ignore. by eapply (runs_release RunFailed).
  - intros [] w2 H2. by left.
Qed.
Lemma runs_terminal {A} operation outcome (k : M A) id c w Q E :
  alive id c w -> (forall w', alive id c w' -> runs k Q E w') -> runs (do! emit_terminal host operation outcome in k) Q E w.
Proof. intros Hw Hk. eapply runs_sure; [by eapply keeps_terminal|done|done|]. intros [] w' H'. by apply Hk. Qed.

Lemma runs_commit_manual operation source proposal id w :
  alive id nothing w ->
  runs (commit_manual host show_error operation source proposal) (fun _ => released RunSucceeded) (fun _ => given_up) w.
Proof.
  intros Hw. unfold commit_manual. eapply runs_sure; [by eapply keeps_lifecycle|done|done|]. intros [] w1 H1.
  eapply runs_sure; [by eapply keeps_propose_replacement|unfold propose_replacement, source_generation_matches; unfailing|done|].
  intros [] w2 H2. eapply runs_bind; [by eapply runs_try; [eapply keeps_commit_replacement|]|]. intros [e|[]] w3 H3.
  - unfold manual_commit_failed.
    assert (Hother : runs (settle_emit_failure (A := unit) host show_error e) (fun _ => released RunSucceeded) (fun _ => given_up) w3)
      by by eapply runs_settle_emit_failure.
    destruct e; try exact Hother; [|destruct error; try exact Hother].
    + eapply runs_terminal; [done|]. intros w4 H4. by eapply runs_settle_cancelled.
    + eapply runs_terminal; [done|]. intros w4 H4. eapply runs_end; [done|by left].
  - eapply runs_terminal; [done|]. intros w4 H4. eapply runs_sure; [by eapply keeps_is_cancelled|done|done|].
    intros [] w5 H5; [by eapply runs_settle_cancelled|]. eapply runs_sure; [by eapply keeps_emit|done|done|]. intros [] w6 H6.
    eapply runs_sure; [by eapply keeps_emit|done|done|]. intros [] w7 H7. by eapply runs_release.
Qed.

Lemma runs_manual strategy id w :
  alive id nothing w ->
  runs (compaction_drive host setup show_error fuel strategy) (fun _ => released RunSucceeded) (fun _ => given_up) w.
Proof.
  intros Hw. unfold compaction_drive. eapply runs_sure; [by eapply keeps_snapshot_context|apply unfailing_lock_agent|done|].
  intros context w1 H1. eapply runs_sure; [by eapply keeps_read_run|done|done|]. intros run_id w2 H2. cbv zeta.
  eapply runs_sure; [by eapply keeps_emit|done|done|]. intros [] w3 H3.
  eapply runs_sure; [by eapply keeps_begin_operation|by apply unfailing_bind|done|]. intros [] w4 H4.
  eapply runs_sure; [by eapply keeps_lifecycle|done|done|]. intros [] w5 H5.
  eapply runs_sure; [by eapply keeps_is_cancelled|done|done|]. intros [] w6 H6.
  { eapply runs_terminal; [done|]. intros w7 H7. by eapply runs_settle_cancelled. }
  eapply runs_sure; [by eapply keeps_propose|apply unfailing_propose|done|]. intros [[e|proposal] [port_error|[]]] w7 H7.
  1-3: eapply runs_terminal; [done|]; intros w8 H8; eapply runs_end; [done|by left].
  eapply runs_sure; [by eapply keeps_is_cancelled|done|done|]. intros [] w8 H8.
  { eapply runs_terminal; [done|]. intros w9 H9. by eapply runs_settle_cancelled. }
  pose proof (tame_validate_messages (cp_messages proposal)) as Hv. destruct (validate_messages _) as [[]|e|r].
  - by apply (runs_commit_manual _ _ _ id).
  - eapply runs_terminal; [done|]. intros w9 H9. eapply runs_end; [done|by left].
  - by apply Hv.
Qed.
End manual.

(** A manual compaction replaced the conversation. *)
Definition replaced_manually (host : Host) (source : list AgentMessage) (w' : RunEnv) : Prop :=
  exists operation proposal, validate_messages proposal = Ok tt /\ published_as host operation source proposal w'.
Definition manual_result (host : Host) (w : RunEnv) (o : Outcome CoreError unit) (w' : RunEnv) : Prop :=
  replaced_manually host (as_messages (w_agent w)) w' \/ (talk w' = talk w /\ o <> Ok ()).

Section manual_atomic.
Context `{Blake3} `{Miniserde} (host : Host) (D : nat) (Hhost : settles_down host D) (setup : RunSetup) (show_error : CoreError -> string).

Lemma silent_settle_cancelled {A} : silent (compaction_settle_cancelled (A := A) host).
Proof.
  apply silent_bind; [by eapply silent_emit|intros _]. apply silent_bind; [by eapply silent_finish|intros _]. apply silent_fail.
Qed.
Lemma silent_settle_failure {A} e : silent (compaction_settle_failure (A := A) host show_error e).
Proof.
  apply silent_bind; [by eapply silent_emit|intros _]. apply silent_bind; [by eapply silent_ignore, silent_finish|intros _].
  apply silent_fail.
Qed.
Lemma silent_manual_failed {A} operation e : silent (manual_commit_failed (A := A) host show_error operation e).
Proof.
  assert (Hother : silent (settle_emit_failure (A := A) host show_error e)).
  { apply silent_bind; [by eapply silent_ignore, silent_finish|intros _]. apply silent_fail. }
  unfold manual_commit_failed. destruct e; try exact Hother; [|destruct error; try exact Hother];
    (apply silent_bind; [by eapply silent_terminal|intros _]); [apply silent_settle_cancelled|apply silent_settle_failure].
Qed.

(** Steps that fail, or end in failure, without touching the conversation. *)
Lemma manual_unchanged {A} (m : M A) (k : A -> M unit) w0 w :
  silent m -> talk w = talk w0 -> (forall a w', talk w' = talk w0 -> every (k a) (manual_result host w0) w') ->
  every (mbind_ m k) (manual_result host w0) w.
Proof. intros Hm Hw Hk. apply every_after; [done|..]; intros ? w' H1; rewrite Hw in H1; [by right|by right|by apply Hk]. Qed.
Lemma manual_gives_up (m : M unit) w0 w :
  silent m -> (forall w1 w2, m w1 <> Some (w2, Ok ())) -> talk w = talk w0 -> every m (manual_result host w0) w.
Proof.
  intros Hm Hn Hw. specialize (Hm w). specialize (Hn w). unfold every in *. destruct (m w) as [[w' o]|]; [|done]. right.
  split; [by rewrite Hm|]. intros ->. by destruct (Hn w').
Qed.
Lemma fails_bind {A} (m : M A) (k : A -> M unit) :
  (forall a w1 w2, k a w1 <> Some (w2, Ok ())) -> forall w1 w2, mbind_ m k w1 <> Some (w2, Ok ()).
Proof. intros Hk w1 w2. unfold mbind_. destruct (m w1) as [[w' [a|e|r]]|]; [apply Hk|done..]. Qed.
Lemma fails_failure e w1 w2 : compaction_settle_failure (A := unit) host show_error e w1 <> Some (w2, Ok ()).
Proof. revert w1 w2. apply fails_bind. intros _. by apply fails_bind. Qed.
Lemma fails_cancelled w1 w2 : compaction_settle_cancelled (A := unit) host w1 <> Some (w2, Ok ()).
Proof. revert w1 w2. apply fails_bind. intros _. by apply fails_bind. Qed.
Lemma fails_manual operation e w1 w2 : manual_commit_failed (A := unit) host show_error operation e w1 <> Some (w2, Ok ()).
Proof.
  assert (Hother : settle_emit_failure (A := unit) host show_error e w1 <> Some (w2, Ok ())) by (revert w1 w2; by apply fails_bind).
  unfold manual_commit_failed. destruct e; try exact Hother; [|destruct error; try exact Hother]; apply fails_bind; intros _ w3 w4;
    [apply fails_cancelled|apply fails_failure].
Qed.

(** An end after a terminal record. *)
Lemma manual_end operation outcome (m : M unit) w0 w :
  silent m -> (forall w1 w2, m w1 <> Some (w2, Ok ())) -> talk w = talk w0 ->
  every (do! emit_terminal host operation outcome in m) (manual_result host w0) w.
Proof. intros Hm Hn Hw. apply manual_unchanged; [by eapply silent_terminal|done|]. intros [] w1 H1. by apply manual_gives_up. Qed.

Lemma every_commit_manual operation proposal w0 w :
  talk w = talk w0 -> validate_messages (cp_messages proposal) = Ok tt ->
  every (commit_manual host show_error operation (as_messages (w_agent w0)) proposal) (manual_result host w0) w.
Proof.
  intros Hw Hv. unfold commit_manual. apply manual_unchanged; [by eapply silent_lifecycle|done|]. intros [] w1 H1.
  apply manual_unchanged; [by eapply silent_propose_replacement|done|]. intros [] w2 H2.
  pose proof (every_commit host D Hhost operation (as_messages (w_agent w0)) (cp_messages proposal) w2) as Hc.
  revert Hc. unfold every at 1 2. unfold mbind_ at 1, try_run.
  destruct (commit_replacement_durably _ _ _ _ w2) as [[w3 [[]|e|r]]|]; [| |intros H3; right; split; [by rewrite H3|done]|done].
  - intros Hr. change (every (do! emit_terminal host operation CompactionCommitted in
                              let! cancelled := is_cancelled host in
                              if cancelled : bool then compaction_settle_cancelled host
                              else
                                do! emit host (EventCompactionResult (length (cp_messages proposal)) (cp_usage proposal)) in
                                do! emit host (EventCompactionEnd (OutcomeSucceeded (length (cp_messages proposal)))) in
                                finish host RunSucceeded Stop None) (manual_result host w0) w3).
    eapply every_mono; [eapply (every_published host); [|exact Hr]|].
    + apply silent_bind; [by eapply silent_terminal|intros _]. apply silent_bind; [by eapply silent_is_cancelled|].
      intros []; [apply silent_settle_cancelled|]. do 2 (apply silent_bind; [by eapply silent_emit|intros _]). by eapply silent_finish.
    + intros o w4 H4. left. by exists operation, (cp_messages proposal).
  - intros H3. apply (manual_gives_up (manual_commit_failed host show_error operation e) w0 w3);
      [apply silent_manual_failed|apply fails_manual|by rewrite H3].
Qed.

Lemma every_manual rounds strategy w :
  every (compaction_drive host setup show_error rounds strategy) (manual_result host w) w.
Proof.
  unfold compaction_drive. eapply every_bind; [by eapply every_snapshot|by intros ? ? [_ (? & ? & _)]|by intros ? ? [_ (? & ? & _)]|].
  intros context w1 (H1 & context' & [= <-] & Hc). apply manual_unchanged; [by eapply silent_read_run|done|]. intros run_id w2 H2. cbv zeta.
  apply manual_unchanged; [by eapply silent_emit|done|]. intros [] w3 H3.
  apply manual_unchanged; [apply silent_bind; [by eapply silent_lifecycle|intros _; by eapply silent_lifecycle]|done|]. intros [] w4 H4.
  apply manual_unchanged; [by eapply silent_lifecycle|done|]. intros [] w5 H5.
  apply manual_unchanged; [by eapply silent_is_cancelled|done|]. intros [] w6 H6.
  { apply manual_end; [apply silent_settle_cancelled|apply fails_cancelled|done]. }
  apply manual_unchanged; [by eapply silent_propose|done|]. intros [[e|proposal] [port_error|[]]] w7 H7.
  1-3: apply manual_end; [apply silent_settle_failure|apply fails_failure|done].
  apply manual_unchanged; [by eapply silent_is_cancelled|done|]. intros [] w8 H8.
  { apply manual_end; [apply silent_settle_cancelled|apply fails_cancelled|done]. }
  destruct (validate_messages _) as [[]|e|r] eqn:Hv; [|apply manual_end; [apply silent_settle_failure|apply fails_failure|done]|by right].
  rewrite Hc. by apply every_commit_manual.
Qed.
End manual_atomic.

(** ** Theorems *)

(** C15: An automatic compaction is atomic. Whatever the compactor proposes, the hooks answer
    and the gate refuses, it returns with the run still in charge of the agent; the conversation
    is as it was, or it is a proposal that passed every check of the policy, with the
    configuration of the source carried across, and that replacement was written durably before
    it was published. It reports a compaction only in the second case, and none only in the
    first. *)
Theorem automatic_compaction_atomic `{Blake3} `{Miniserde} host D B fuel setup show_error reason retry estimator id c w :
  cooperates host D B -> (2 * D + 1 + B < fuel)%nat -> alive id c w ->
  match maybe_automatic_compaction host setup show_error reason retry fuel estimator w with
  | Some (w', o) =>
      atomic host setup w o w' /\
      match o with Panic reason => reason ∈ drive_panics | _ => alive id c w' end
  | None => False
  end.
Proof.
  intros Hhost Hfuel Hw. pose proof (every_maybe_compaction host D (co_settles _ _ _ Hhost) setup show_error reason retry fuel estimator w) as Ha.
  pose proof (keeps_compaction host D B fuel Hhost Hfuel setup show_error c reason retry estimator id w Hw) as Hk.
  revert Ha Hk. unfold every, runs. destruct (maybe_automatic_compaction _ _ _ _ _ _ _ w) as [[w' [a|e|r]]|]; [|done..].
  by intros ? (_ & ? & _).
Qed.

(** The conversation of a run whose context overflowed, compacted. *)
#[local] Existing Instance lenient_codec.
#[local] Existing Instance toy_blake3.
Definition overflowing_world : RunEnv :=
  fresh_world <| w_agent ::= fun s => s <| as_messages := [User 1 "please read the file"; User 2 "and explain it"] |>
                                        <| as_next_message_id := 3 |> |>
              <| w_run ::= fun r => mk_run_state (rs_id r) RunRunning (rs_turn_id r) (rs_stop_reason r) (rs_error r)
                                      (rs_event_count r) (rs_events r) (rs_omitted_event_count r) |>.
Abbreviation one_compaction :=
  (maybe_automatic_compaction two_turn_host (plain_setup []) (fun _ => "") AutomaticOverflow true 805 estimator_default overflowing_world).

Lemma automatic_compaction_atomic_witness :
  exists w estimator, one_compaction = Some (w, Ok (true, estimator)) /\
    atomic two_turn_host (plain_setup []) overflowing_world (Ok (true, estimator)) w /\ as_messages (w_agent w) = short_summary.
Proof.
  pose proof (automatic_compaction_atomic two_turn_host 400 3 805 (plain_setup []) (fun _ => "") AutomaticOverflow true estimator_default
                1 nothing overflowing_world two_turn_host_cooperates) as Ha.
  assert (exists w estimator, one_compaction = Some (w, Ok (true, estimator)) /\ as_messages (w_agent w) = short_summary)
    as (w & estimator & Hr & Hm).
  { do 2 eexists. split; vm_compute; reflexivity. }
  rewrite Hr in Ha. exists w, estimator. split_and!; [exact Hr| |exact Hm]. apply Ha; [lia|split_and!; done].
Defined.


Abbreviation manual_run := (compaction_drive two_turn_host (plain_setup []) (fun _ => "") 805 caller_supplied overflowing_world).
