(* ===== verification/ContextCodec.v ===== *)
(** * tea-core: the durable form of messages
    ([crates/tea-core/src/runtime/context.rs], second half)

    A committed compaction stores the messages that replace its range as one
    JSON value; a derived context is measured by its canonical JSON lines.
    Both forms leave out message identities, which are counters of a process.
    The last part shows that a replacement reads back. *)

From stdpp Require Import base gmap sets list strings.
From S2P Require Import Prelude RustStr Json Ids Model Records Snapshot Reduction ReductionSafety.
From S2P Require Import SessionErrors Configuration Messages Transcript TranscriptJson CoreState Compaction CompactionProofs.

Local Open Scope N_scope.

(** [HarnessError]: the variants that deriving a context builds. *)
Inductive HarnessError :=
| HarnessCorruption (corruption : Corruption)
| InvalidState (message : Message).
Definition invalid_state {A} (message : Message) : Outcome HarnessError A := Err (InvalidState message).
Definition explain {E A} (message : E -> Message) (m : Outcome E A) : Outcome HarnessError A :=
  map_err (fun e => InvalidState (message e)) m.

(** [ToolCallId::new]. *)
Definition tool_call_id_new (value : string) : Outcome Message string :=
  if str_is_empty value then Err [Lit "tool-call ID cannot be empty"] else Ok value.

(** [stop_reason_text], [parse_stop_reason]. *)
Definition stop_reason_text (reason : StopReason) : string :=
  match reason with
  | Stop => "stop"
  | ToolUse => "tool_use"
  | Length => "length"
  | Aborted => "aborted"
  | Cancelled => "cancelled"
  | Error => "error"
  end.
Definition parse_stop_reason (value : string) : Outcome HarnessError StopReason :=
  if String.eqb value "stop" then Ok Stop
  else if String.eqb value "tool_use" then Ok ToolUse
  else if String.eqb value "length" then Ok Length
  else if String.eqb value "aborted" then Ok Aborted
  else if String.eqb value "cancelled" then Ok Cancelled
  else if String.eqb value "error" then Ok Error
  else invalid_state [Lit "durable assistant entry has unknown stop reason "; Dbg value].

(** [value.map(f).transpose()?]. *)
Definition otraverse {E A B} (f : A -> Outcome E B) (o : option A) : Outcome E (option B) :=
  match o with Some a => let? b := f a in Ok (Some b) | None => Ok None end.

Section codec.
Context `{Blake3} `{Miniserde}.

(** ** Encoding *)

Definition optional_json_string (value : option string) : JsonValue :=
  match value with Some value => JsonString value | None => JsonNull end.
Definition optional_json_number (value : option N) : JsonValue :=
  match value with Some value => JsonNum (Unsigned value) | None => JsonNull end.
Definition replay_json (item : OpaqueItem) : JsonValue :=
  json_object [("item_id", optional_json_string (oi_item_id item)); ("kind", JsonString (oi_kind item));
               ("payload", JsonString (oi_payload item)); ("provider", JsonString (oi_provider item))].

(** [with_assistant_blocks]. *)
Definition blocks_text_only (content : list AssistantContent) : bool :=
  (length content <=? 1)%nat && forallb (fun block => match block with Text _ => true | _ => false end) content.
Definition block_json (block : AssistantContent) : JsonValue :=
  match block with
  | Text text => json_object [("text", JsonString text); ("type", JsonString "text")]
  | Thinking text signature =>
      json_object [("signature", match signature with Some item => replay_json item | None => JsonNull end);
                   ("text", JsonString text); ("type", JsonString "thinking")]
  | RedactedThinking data => json_object [("data", replay_json data); ("type", JsonString "redacted_thinking")]
  end.
Definition origin_json (origin : ModelDescriptor) : JsonValue :=
  json_object [("model", JsonString (md_model origin)); ("provider", JsonString (md_provider origin));
               ("revision", optional_json_string (md_revision origin))].
Definition with_assistant_blocks (value : JsonValue) (content : list AssistantContent) (origin : option ModelDescriptor) :
    JsonValue :=
  match value with
  | JsonObject fields =>
      let fields := if blocks_text_only content then fields
                    else btree_insert "content_blocks" (JsonArray (map block_json content)) fields in
      JsonObject (match origin with Some origin => btree_insert "origin" (origin_json origin) fields | None => fields end)
  | _ => value
  end.

(** A call and the details of a result, whose text is parsed. *)
Definition call_json (what : string) (call : AgentToolCall) : Outcome HarnessError JsonValue :=
  let? arguments := explain (fun e => [Lit what; OfJson e]) (json_parse (tc_arguments call)) in
  Ok (json_object [("arguments", arguments); ("id", JsonString (tc_id call)); ("name", JsonString (tc_name call))]).
Definition details_json (what : string) (details : option string) : Outcome HarnessError JsonValue :=
  let? details := otraverse (fun text => explain (fun e => [Lit what; OfJson e]) (json_parse text)) details in
  Ok (default JsonNull details).

(** [compaction_replacement_usage], [canonical_usage]. *)
Definition compaction_replacement_usage (usage : ModelUsage) : JsonValue :=
  json_object [("cache_read_tokens", optional_json_number (u_cache_read_tokens usage));
               ("cache_write_tokens", optional_json_number (u_cache_write_tokens usage));
               ("cost", optional_json_string (u_cost usage));
               ("input_tokens", optional_json_number (u_input_tokens usage));
               ("output_tokens", optional_json_number (u_output_tokens usage));
               ("reasoning_tokens", optional_json_number (u_reasoning_tokens usage));
               ("total_tokens", optional_json_number (u_total_tokens usage))].
Definition canonical_usage (usage : ModelUsage) : JsonValue :=
  json_object [("cache_read_tokens", optional_json_number (u_cache_read_tokens usage));
               ("cache_write_tokens", optional_json_number (u_cache_write_tokens usage));
               ("cost", optional_json_string (u_cost usage));
               ("input_tokens", optional_json_number (u_input_tokens usage));
               ("output_tokens", optional_json_number (u_output_tokens usage));
               ("reasoning_tokens", optional_json_number (u_reasoning_tokens usage))].

(** [compaction_replacement_message], [encode_compaction_replacement]. *)
Definition reported_usage (usage : option ModelUsage) : JsonValue :=
  match usage with
  | Some usage => if is_reported usage then compaction_replacement_usage usage else JsonNull
  | None => JsonNull
  end.
Definition compaction_replacement_message (m : AgentMessage) : Outcome HarnessError JsonValue :=
  match m with
  | User _ content => Ok (json_object [("content", JsonString content); ("role", JsonString "user")])
  | Assistant a =>
      let? calls := omap_list (call_json "compaction replacement tool arguments cannot encode: ") (am_tool_calls a) in
      Ok (with_assistant_blocks
            (json_object
               [("content", JsonString (visible_text (am_content a)));
                ("error_message", optional_json_string (am_error_message a));
                ("opaque_context", JsonArray (map replay_json (am_opaque_context a)));
                ("role", JsonString "assistant");
                ("stop_reason", optional_json_string (stop_reason_text <$> am_stop_reason a));
                ("tool_calls", JsonArray calls)]) (am_content a) (am_origin a))
  | ToolResult r =>
      let? details := details_json "compaction replacement tool details cannot encode: " (tr_details r) in
      Ok (json_object
            [("added_tool_names", JsonArray (map JsonString (tr_added_tool_names r)));
             ("content", JsonString (tr_content r));
             ("details", details);
             ("is_error", JsonBool (tr_is_error r));
             ("role", JsonString "tool_result");
             ("terminate", JsonBool (tr_terminate r));
             ("tool_call_id", JsonString (tr_tool_call_id r));
             ("tool_name", JsonString (tr_tool_name r));
             ("usage", reported_usage (tr_usage r))])
  | System _ update => Ok (json_object [("role", JsonString "system"); ("update", configuration_update_json update)])
  end.
Definition encode_compaction_replacement (messages : list AgentMessage) : Outcome HarnessError JsonValue :=
  let? values := omap_list compaction_replacement_message messages in
  Ok (json_object [("messages", JsonArray values); ("version", JsonNum (Unsigned 1))]).

(** [compaction_replacement_digest]. *)
Definition compaction_replacement_digest (replacement : JsonValue) : Outcome HarnessError Digest :=
  let? encoded := explain (fun e => [Lit "compaction replacement cannot encode canonically: "; OfJson e])
                    (to_json_string replacement) in
  Ok (digest_from_bytes (bytes_of encoded)).

(** ** Decoding *)

Abbreviation Fields := (list (string * JsonValue)).

(** [required_compaction_value], [.._string], [.._array], [.._bool], [optional_compaction_string], [.._u64]. *)
Definition required_compaction_value (object : Fields) (field : string) : Outcome HarnessError JsonValue :=
  ok_or (btree_get field object) (InvalidState [Lit "compaction replacement message is missing "; Dbg field]).
Definition field_error (field what : string) : HarnessError :=
  InvalidState [Lit "compaction replacement field "; Dbg field; Lit what].
Definition required_compaction_string (object : Fields) (field : string) : Outcome HarnessError string :=
  let? value := required_compaction_value object field in
  ok_or (json_as_str value) (field_error field " must be a string").
Definition optional_compaction_string (object : Fields) (field : string) : Outcome HarnessError (option string) :=
  let? value := required_compaction_value object field in
  if json_is_null value then Ok None
  else let? text := ok_or (json_as_str value) (field_error field " must be a string or null") in Ok (Some text).
Definition required_compaction_array (object : Fields) (field : string) : Outcome HarnessError (list JsonValue) :=
  let? value := required_compaction_value object field in
  ok_or (json_as_array value) (field_error field " must be an array").
Definition required_compaction_bool (object : Fields) (field : string) : Outcome HarnessError bool :=
  let? value := required_compaction_value object field in
  ok_or (json_as_bool value) (field_error field " must be a boolean").
Definition optional_compaction_u64 (object : Fields) (field : string) : Outcome HarnessError (option N) :=
  let? value := required_compaction_value object field in
  if json_is_null value then Ok None
  else let? number := ok_or (json_as_u64 value) (field_error field " must be an unsigned integer or null") in Ok (Some number).

(** [value.filter(|value| !value.is_null())]. *)
Definition non_null (value : option JsonValue) : option JsonValue :=
  match value with Some value => if json_is_null value then None else Some value | None => None end.

(** The closure [opaque] of [decode_assistant_blocks], and the items of [opaque_context]. *)
Definition decode_material (value : JsonValue) : Outcome HarnessError OpaqueItem :=
  let? item := ok_or (json_as_object value) (InvalidState [Lit "compaction replacement replay material must be an object"]) in
  let? provider := required_compaction_string item "provider" in
  let? kind := required_compaction_string item "kind" in
  let? item_id := optional_compaction_string item "item_id" in
  let? payload := required_compaction_string item "payload" in
  explain (fun e => Lit "compaction replacement replay material is invalid: " :: opaque_error_display e)
    (opaque_item_new provider kind item_id payload).
Definition decode_continuation (value : JsonValue) : Outcome HarnessError OpaqueItem :=
  let? item := ok_or (json_as_object value)
                 (InvalidState [Lit "compaction replacement opaque context item must be an object"]) in
  let? item_id := optional_compaction_string item "item_id" in
  let? provider := required_compaction_string item "provider" in
  let? kind := required_compaction_string item "kind" in
  let? payload := required_compaction_string item "payload" in
  explain (fun e => Lit "compaction replacement opaque context is invalid: " :: opaque_error_display e)
    (opaque_item_new provider kind item_id payload).

(** [decode_assistant_blocks]. *)
Definition decode_block (value : JsonValue) : Outcome HarnessError AssistantContent :=
  let? block := ok_or (json_as_object value) (InvalidState [Lit "assistant content block must be an object"]) in
  let? type := required_compaction_string block "type" in
  if String.eqb type "text" then
    let? text := required_compaction_string block "text" in Ok (Text text)
  else if String.eqb type "thinking" then
    let? text := required_compaction_string block "text" in
    let? signature := otraverse decode_material (non_null (btree_get "signature" block)) in
    Ok (Thinking text signature)
  else if String.eqb type "redacted_thinking" then
    let? data := required_compaction_value block "data" in
    let? data := decode_material data in
    Ok (RedactedThinking data)
  else invalid_state [Lit "unknown assistant content block type "; Dbg type].
Definition decode_assistant_blocks (object : Fields) : Outcome HarnessError (list AssistantContent) :=
  let? text := required_compaction_string object "content" in
  match non_null (btree_get "content_blocks" object) with
  | None => Ok (visible_text_content text)
  | Some blocks =>
      let? blocks := ok_or (json_as_array blocks) (InvalidState [Lit "content_blocks must be an array"]) in
      let? content := omap_list decode_block blocks in
      if String.eqb (visible_text content) text then Ok content
      else invalid_state [Lit "assistant content blocks disagree with their text"]
  end.

(** [decode_origin]. *)
Definition decode_origin (object : Fields) : Outcome HarnessError (option ModelDescriptor) :=
  match non_null (btree_get "origin" object) with
  | None => Ok None
  | Some origin =>
      let? origin := ok_or (json_as_object origin) (InvalidState [Lit "assistant origin must be an object"]) in
      let? provider := required_compaction_string origin "provider" in
      let? model := required_compaction_string origin "model" in
      let? revision := optional_compaction_string origin "revision" in
      Ok (Some (mk_model provider model revision))
  end.

(** [decode_compaction_usage]. *)
Definition decode_compaction_usage (value : JsonValue) : Outcome HarnessError (option ModelUsage) :=
  if json_is_null value then Ok None
  else
    let? object := ok_or (json_as_object value) (InvalidState [Lit "compaction replacement usage must be an object or null"]) in
    let? total := optional_compaction_u64 object "total_tokens" in
    let? input := optional_compaction_u64 object "input_tokens" in
    let? output := optional_compaction_u64 object "output_tokens" in
    let? reasoning := optional_compaction_u64 object "reasoning_tokens" in
    let? cache_read := optional_compaction_u64 object "cache_read_tokens" in
    let? cache_write := optional_compaction_u64 object "cache_write_tokens" in
    let? cost := optional_compaction_string object "cost" in
    Ok (Some (mk_usage total input output reasoning cache_read cache_write cost)).

(** The calls of [decode_compaction_replacement_message]. *)
Definition encode_text (what : string) (value : JsonValue) : Outcome HarnessError string :=
  explain (fun e => [Lit what; OfJson e]) (to_json_string value).
Definition decode_call (value : JsonValue) : Outcome HarnessError AgentToolCall :=
  let? call := ok_or (json_as_object value) (InvalidState [Lit "compaction replacement tool call must be an object"]) in
  let? id := required_compaction_string call "id" in
  let? id := explain (fun e => Lit "compaction replacement tool-call ID is invalid: " :: e) (tool_call_id_new id) in
  let? name := required_compaction_string call "name" in
  let? arguments := required_compaction_value call "arguments" in
  let? arguments := encode_text "compaction replacement tool arguments cannot encode: " arguments in
  Ok (mk_call id name arguments).
Definition decode_added_name (value : JsonValue) : Outcome HarnessError string :=
  ok_or (json_as_str value) (InvalidState [Lit "compaction replacement added tool name must be a string"]).

(** [decode_compaction_replacement_message]. *)
Definition decode_assistant (object : Fields) (id : N) : Outcome HarnessError AgentMessage :=
  let? calls := required_compaction_array object "tool_calls" in
  let? calls := omap_list decode_call calls in
  let? opaque_context := required_compaction_array object "opaque_context" in
  let? opaque_context := omap_list decode_continuation opaque_context in
  let? content := decode_assistant_blocks object in
  let? stop_reason := optional_compaction_string object "stop_reason" in
  let? stop_reason := otraverse parse_stop_reason stop_reason in
  let? error_message := optional_compaction_string object "error_message" in
  let? origin := decode_origin object in
  Ok (Assistant (mk_assistant id content calls stop_reason error_message opaque_context origin)).
Definition decode_result_message (object : Fields) (id : N) : Outcome HarnessError AgentMessage :=
  let? details := required_compaction_value object "details" in
  let? details := if json_is_null details then Ok None
                  else let? text := encode_text "compaction replacement tool details cannot encode: " details in Ok (Some text) in
  let? names := required_compaction_array object "added_tool_names" in
  let? names := omap_list decode_added_name names in
  let? tool_call_id := required_compaction_string object "tool_call_id" in
  let? tool_call_id := explain (fun e => Lit "compaction replacement tool-result call ID is invalid: " :: e)
                         (tool_call_id_new tool_call_id) in
  let? tool_name := required_compaction_string object "tool_name" in
  let? content := required_compaction_string object "content" in
  let? usage := required_compaction_value object "usage" in
  let? usage := decode_compaction_usage usage in
  let? terminate := required_compaction_bool object "terminate" in
  let? is_error := required_compaction_bool object "is_error" in
  Ok (ToolResult (mk_result id tool_call_id tool_name content details usage names terminate is_error None)).
Definition decode_compaction_replacement_message (value : JsonValue) (id : N) : Outcome HarnessError AgentMessage :=
  let? object := ok_or (json_as_object value) (InvalidState [Lit "compaction replacement message must be an object"]) in
  let? role := required_compaction_string object "role" in
  if String.eqb role "user" then
    let? content := required_compaction_string object "content" in Ok (User id content)
  else if String.eqb role "assistant" then decode_assistant object id
  else if String.eqb role "tool_result" then decode_result_message object id
  else if String.eqb role "system" then
    let? update := required_compaction_value object "update" in
    let? update := explain (fun e => e) (configuration_update_from_json update) in
    Ok (System id update)
  else invalid_state [Lit "compaction replacement message has unknown role "; Dbg role].

(** [decode_compaction_replacement]. *)
Fixpoint decode_numbered (values : list JsonValue) (first : N) (index : nat) : Outcome HarnessError (list AgentMessage) :=
  match values with
  | [] => Ok []
  | value :: values =>
      let? message := decode_compaction_replacement_message value (u64_saturating_add first (N.of_nat index)) in
      let? messages := decode_numbered values first (S index) in
      Ok (message :: messages)
  end.
Definition decode_compaction_replacement (replacement : JsonValue) (first_message_number : N) :
    Outcome HarnessError (list AgentMessage) :=
  let? object := ok_or (json_as_object replacement) (InvalidState [Lit "compaction replacement payload must be an object"]) in
  if negb (bool_decide (btree_get "version" object ≫= json_as_u64 = Some 1))
  then invalid_state [Lit "compaction replacement payload has an unsupported version"]
  else
    let? values := ok_or (btree_get "messages" object ≫= json_as_array)
                     (InvalidState [Lit "compaction replacement payload has no messages array"]) in
    let? messages := decode_numbered values first_message_number 0 in
    check? explain (fun e => Lit "compaction replacement violates canonical message invariants: " :: compaction_error_display e)
             (validate_messages messages) in
    Ok messages.

(** ** Canonical lines *)

(** [canonical_message_json], [canonical_context_json_lines]. *)
Definition context_message_json (m : AgentMessage) : Outcome HarnessError JsonValue :=
  match m with
  | User _ content => Ok (json_object [("content", JsonString content); ("role", JsonString "user")])
  | Assistant a =>
      let? calls := omap_list (call_json "derived assistant arguments cannot encode: ") (am_tool_calls a) in
      Ok (with_assistant_blocks
            (json_object
               [("content", JsonString (visible_text (am_content a)));
                ("error_message", optional_json_string (am_error_message a));
                ("role", JsonString "assistant");
                ("stop_reason", optional_json_string (stop_reason_text <$> am_stop_reason a));
                ("tool_calls", JsonArray calls)]) (am_content a) None)
  | ToolResult r =>
      match tr_failure r with
      | Some _ => invalid_state [Lit "durable context cannot serialize an unprojected host tool failure"]
      | None =>
          let? details := details_json "derived tool details cannot encode: " (tr_details r) in
          Ok (json_object
                [("added_tool_names", JsonArray (map JsonString (tr_added_tool_names r)));
                 ("content", JsonString (tr_content r));
                 ("details", details);
                 ("is_error", JsonBool (tr_is_error r));
                 ("role", JsonString "tool");
                 ("terminate", JsonBool (tr_terminate r));
                 ("tool_call_id", JsonString (tr_tool_call_id r));
                 ("tool_name", JsonString (tr_tool_name r));
                 ("usage", match tr_usage r with Some usage => canonical_usage usage | None => JsonNull end)])
      end
  | System _ update => Ok (json_object [("role", JsonString "system"); ("update", configuration_update_json update)])
  end.
Definition canonical_message_json (m : AgentMessage) : Outcome HarnessError string :=
  let? value := context_message_json m in
  encode_text "derived context cannot encode canonically: " value.
Definition canonical_context_json_lines (messages : list AgentMessage) : Outcome HarnessError string :=
  ofold (fun output m => let? line := canonical_message_json m in Ok (output +:+ line +:+ newline)) EmptyString messages.
End codec.

(** ** What is kept *)

Definition with_id (id : N) (m : AgentMessage) : AgentMessage :=
  match m with
  | User _ content => User id content
  | Assistant a => Assistant (mk_assistant id (am_content a) (am_tool_calls a) (am_stop_reason a) (am_error_message a)
                                (am_opaque_context a) (am_origin a))
  | ToolResult r => ToolResult (mk_result id (tr_tool_call_id r) (tr_tool_name r) (tr_content r) (tr_details r) (tr_usage r)
                                  (tr_added_tool_names r) (tr_terminate r) (tr_is_error r) (tr_failure r))
  | System _ update => System id update
  end.
(** A host failure is not stored, nor a usage that reports nothing. *)
Definition durable (m : AgentMessage) : AgentMessage :=
  match m with
  | ToolResult r =>
      ToolResult (mk_result (tr_id r) (tr_tool_call_id r) (tr_tool_name r) (tr_content r) (tr_details r)
                    (match tr_usage r with Some usage => if is_reported usage then Some usage else None | None => None end)
                    (tr_added_tool_names r) (tr_terminate r) (tr_is_error r) None)
  | _ => m
  end.
Fixpoint renumber (first : N) (index : nat) (l : list AgentMessage) : list AgentMessage :=
  match l with
  | [] => []
  | m :: l => with_id (u64_saturating_add first (N.of_nat index)) (durable m) :: renumber first (S index) l
  end.

Section round_trip.
Context `{Blake3} `{Miniserde}.

(** ** What the code builds *)

(** A text that is what the printer writes for the value it parses to. *)
Definition canonical_text (accept : JsonValue -> bool) (text : string) : Prop :=
  exists value, json_parse text = Ok value /\ to_json_string value = Ok text /\ accept value = true.
Definition item_valid (item : OpaqueItem) : Prop :=
  opaque_item_new (oi_provider item) (oi_kind item) (oi_item_id item) (oi_payload item) = Ok item.
Definition block_valid (block : AssistantContent) : Prop :=
  match block with
  | Text _ => True
  | Thinking _ signature => match signature with Some item => item_valid item | None => True end
  | RedactedThinking data => item_valid data
  end.
Definition call_valid (call : AgentToolCall) : Prop :=
  str_is_empty (tc_id call) = false /\ canonical_text (fun _ => true) (tc_arguments call).
Definition replayable (m : AgentMessage) : Prop :=
  match m with
  | User _ _ => True
  | Assistant a => am_content a <> [Text EmptyString] /\ Forall block_valid (am_content a) /\
      Forall call_valid (am_tool_calls a) /\ Forall item_valid (am_opaque_context a)
  | ToolResult r => str_is_empty (tr_tool_call_id r) = false /\
      match tr_details r with Some text => canonical_text (negb ∘ json_is_null) text | None => True end
  | System _ update => update_validate update = Ok tt
  end.

(** ** Parts *)

Lemma parse_stop_reason_text reason : parse_stop_reason (stop_reason_text reason) = Ok reason.
Proof. by destruct reason. Qed.

Lemma replay_fields item : let new := opaque_item_new (oi_provider item) (oi_kind item) (oi_item_id item) (oi_payload item) in
  decode_material (replay_json item) =
    explain (fun e => Lit "compaction replacement replay material is invalid: " :: opaque_error_display e) new /\
  decode_continuation (replay_json item) =
    explain (fun e => Lit "compaction replacement opaque context is invalid: " :: opaque_error_display e) new.
Proof. by destruct item as [provider kind [item_id|] payload]. Qed.

Lemma replay_decodes item : item_valid item ->
  decode_material (replay_json item) = Ok item /\ decode_continuation (replay_json item) = Ok item.
Proof. intros Hi. destruct (replay_fields item) as [-> ->]. by rewrite Hi. Qed.

Lemma block_decodes block : block_valid block -> decode_block (block_json block) = Ok block.
Proof.
  destruct block as [text|text [item|]|data]; cbn [block_valid]; intros Hb; try done.
  - assert (decode_block (block_json (Thinking text (Some item))) =
      let? s := decode_material (replay_json item) in Ok (Thinking text (Some s))) as ->; [|by rewrite (proj1 (replay_decodes _ Hb))].
    change (decode_block _) with (let? s := otraverse decode_material (Some (replay_json item)) in Ok (Thinking text s)).
    cbn [otraverse]. by destruct (decode_material _).
  - assert (decode_block (block_json (RedactedThinking data)) =
      let? s := decode_material (replay_json data) in Ok (RedactedThinking s)) as -> by done.
    by rewrite (proj1 (replay_decodes _ Hb)).
Qed.

Lemma omap_list_decodes {A B E} (f : A -> B) (g : B -> Outcome E A) (P : A -> Prop) l :
  (forall x, P x -> g (f x) = Ok x) -> Forall P l -> omap_list g (map f l) = Ok l.
Proof. intros Hg. induction 1 as [|x l Hx _ IH]; cbn; [done|]. by rewrite Hg, IH by done. Qed.

Lemma calls_decode what calls values : Forall call_valid calls ->
  omap_list (call_json what) calls = Ok values -> omap_list decode_call values = Ok calls.
Proof.
  intros Hv. revert values. induction Hv as [|call calls [Hid (v & Hparse & Hprint & _)] _ IH]; intros values; cbn [omap_list]; [by intros [= <-]|].
  unfold call_json at 1. rewrite Hparse. cbn [explain map_err obind].
  intros (ys & Hys & [= <-])%obind_Ok_inv. cbn [omap_list]. rewrite (IH _ Hys).
  assert (decode_call (json_object [("arguments", v); ("id", JsonString (tc_id call)); ("name", JsonString (tc_name call))]) =
    let? id := explain (fun e => Lit "compaction replacement tool-call ID is invalid: " :: e) (tool_call_id_new (tc_id call)) in
    let? text := encode_text "compaction replacement tool arguments cannot encode: " v in Ok (mk_call id (tc_name call) text)) as -> by done.
  unfold tool_call_id_new, encode_text. rewrite Hid, Hprint. cbn. by destruct call.
Qed.

Lemma usage_decodes usage :
  decode_compaction_usage (reported_usage usage) =
  Ok (match usage with Some usage => if is_reported usage then Some usage else None | None => None end).
Proof.
  destruct usage as [usage|]; [|done]. cbn [reported_usage]. destruct (is_reported usage); [|done].
  by destruct usage as [[] [] [] [] [] [] []].
Qed.

(** The fields an assistant message is stored with. *)
Definition assistant_value (a : AssistantMessage) (calls : list JsonValue) : JsonValue :=
  with_assistant_blocks
    (json_object
       [("content", JsonString (visible_text (am_content a)));
        ("error_message", optional_json_string (am_error_message a));
        ("opaque_context", JsonArray (map replay_json (am_opaque_context a)));
        ("role", JsonString "assistant");
        ("stop_reason", optional_json_string (stop_reason_text <$> am_stop_reason a));
        ("tool_calls", JsonArray calls)]) (am_content a) (am_origin a).

Lemma assistant_fields a calls : exists object, assistant_value a calls = JsonObject object /\
  btree_get "role" object = Some (JsonString "assistant") /\
  btree_get "content" object = Some (JsonString (visible_text (am_content a))) /\
  btree_get "error_message" object = Some (optional_json_string (am_error_message a)) /\
  btree_get "opaque_context" object = Some (JsonArray (map replay_json (am_opaque_context a))) /\
  btree_get "stop_reason" object = Some (optional_json_string (stop_reason_text <$> am_stop_reason a)) /\
  btree_get "tool_calls" object = Some (JsonArray calls) /\
  btree_get "content_blocks" object =
    (if blocks_text_only (am_content a) then None else Some (JsonArray (map block_json (am_content a)))) /\
  btree_get "origin" object = origin_json <$> am_origin a.
Proof.
  eexists. split; [reflexivity|]. destruct (blocks_text_only _), (am_origin a) as [origin|]; repeat split.
Qed.

Lemma optional_string_decodes object field o :
  btree_get field object = Some (optional_json_string o) -> optional_compaction_string object field = Ok o.
Proof. unfold optional_compaction_string, required_compaction_value. intros ->. by destruct o. Qed.
Lemma required_string_decodes object field text :
  btree_get field object = Some (JsonString text) -> required_compaction_string object field = Ok text.
Proof. unfold required_compaction_string, required_compaction_value. by intros ->. Qed.
Lemma required_array_decodes object field l :
  btree_get field object = Some (JsonArray l) -> required_compaction_array object field = Ok l.
Proof. unfold required_compaction_array, required_compaction_value. by intros ->. Qed.

Lemma text_blocks_content content : blocks_text_only content = true -> content <> [Text EmptyString] ->
  visible_text_content (visible_text content) = content.
Proof.
  unfold blocks_text_only. destruct content as [|[text|? ?|?] [|]]; cbn; try done. intros _ Hne.
  unfold visible_text_content, visible_text. cbn. by destruct text.
Qed.

Lemma assistant_blocks_decode object content :
  btree_get "content" object = Some (JsonString (visible_text content)) ->
  btree_get "content_blocks" object = (if blocks_text_only content then None else Some (JsonArray (map block_json content))) ->
  content <> [Text EmptyString] -> Forall block_valid content -> decode_assistant_blocks object = Ok content.
Proof.
  intros Htext Hblocks Hne Hall. unfold decode_assistant_blocks. rewrite (required_string_decodes _ _ _ Htext), Hblocks. cbn [obind].
  destruct (blocks_text_only content) eqn:Ht; cbn [non_null json_is_null json_as_array ok_or obind]; [by rewrite text_blocks_content|].
  rewrite (omap_list_decodes _ _ block_valid) by (done || apply block_decodes). cbn [obind]. by rewrite String.eqb_refl.
Qed.

Lemma origin_decodes object origin : btree_get "origin" object = origin_json <$> origin -> decode_origin object = Ok origin.
Proof. unfold decode_origin. intros ->. by destruct origin as [[provider model [revision|]]|]. Qed.

Lemma assistant_decodes a calls n : replayable (Assistant a) ->
  omap_list (call_json "compaction replacement tool arguments cannot encode: ") (am_tool_calls a) = Ok calls ->
  decode_compaction_replacement_message (assistant_value a calls) n = Ok (with_id n (Assistant a)).
Proof.
  intros (Hne & Hblocks & Hcv & Hitems) Hcalls.
  destruct (assistant_fields a calls) as (object & -> & Hrole & Htext & Herr & Hop & Hstop & Hca & Hcb & Hor).
  unfold decode_compaction_replacement_message. cbn [json_as_object ok_or obind]. rewrite (required_string_decodes _ _ _ Hrole).
  cbn [obind String.eqb Ascii.eqb Bool.eqb]. unfold decode_assistant.
  rewrite (required_array_decodes _ _ _ Hca). cbn [obind]. rewrite (calls_decode _ _ _ Hcv Hcalls). cbn [obind].
  rewrite (required_array_decodes _ _ _ Hop). cbn [obind].
  rewrite (omap_list_decodes replay_json _ item_valid) by (done || (intros x Hx; apply (replay_decodes _ Hx))). cbn [obind].
  rewrite (assistant_blocks_decode _ _ Htext Hcb Hne Hblocks). cbn [obind]. rewrite (optional_string_decodes _ _ _ Hstop). cbn [obind].
  rewrite (optional_string_decodes _ _ _ Herr), (origin_decodes _ _ Hor). unfold with_id.
  destruct (am_stop_reason a); cbn [fmap option_fmap option_map otraverse]; rewrite ?parse_stop_reason_text; done.
Qed.

Lemma result_decodes r n value : replayable (ToolResult r) ->
  compaction_replacement_message (ToolResult r) = Ok value ->
  decode_compaction_replacement_message value n = Ok (with_id n (durable (ToolResult r))).
Proof.
  intros [Hid Hd]. cbn [compaction_replacement_message]. intros (details & Hdet & [= <-])%obind_Ok_inv.
  match goal with |- decode_compaction_replacement_message ?v n = _ =>
    assert (decode_compaction_replacement_message v n =
      let? text := (if json_is_null details then Ok None
                    else let? text := encode_text "compaction replacement tool details cannot encode: " details in Ok (Some text)) in
      let? names := omap_list decode_added_name (map JsonString (tr_added_tool_names r)) in
      let? id := explain (fun e => Lit "compaction replacement tool-result call ID is invalid: " :: e) (tool_call_id_new (tr_tool_call_id r)) in
      let? usage := decode_compaction_usage (reported_usage (tr_usage r)) in
      Ok (ToolResult (mk_result n id (tr_tool_name r) (tr_content r) text usage names (tr_terminate r) (tr_is_error r) None))) as -> by done end.
  rewrite (decode_all_encoded JsonString) by done. unfold tool_call_id_new. rewrite Hid, usage_decodes. cbn [explain map_err obind].
  unfold details_json in Hdet. destruct (tr_details r) as [text|] eqn:Ht; cbn in Hdet.
  - destruct Hd as (v & Hparse & Hprint & Hnn%negb_true_iff). rewrite Hparse in Hdet. cbn in Hdet. injection Hdet as <-.
    rewrite Hnn. unfold encode_text. rewrite Hprint. cbn. by rewrite Ht.
  - injection Hdet as <-. cbn. by rewrite Ht.
Qed.

Lemma message_decodes m n value : replayable m -> compaction_replacement_message m = Ok value ->
  decode_compaction_replacement_message value n = Ok (with_id n (durable m)).
Proof.
  destruct m as [id content|a|r|id update]; intros Hr Hm.
  - injection Hm as <-. done.
  - apply obind_Ok_inv in Hm as (calls & Hcalls & [= <-]). by apply assistant_decodes.
  - by apply result_decodes.
  - injection Hm as <-. cbn in Hr.
    assert (decode_compaction_replacement_message
        (json_object [("role", JsonString "system"); ("update", configuration_update_json update)]) n =
      let? u := explain (fun e => e) (configuration_update_from_json (configuration_update_json update)) in Ok (System n u)) as -> by done.
    by rewrite update_decodes.
Qed.

Lemma numbered_decodes messages first : forall index values, Forall replayable messages ->
  omap_list compaction_replacement_message messages = Ok values ->
  decode_numbered values first index = Ok (renumber first index messages).
Proof.
  induction messages as [|m messages IH]; intros index values Hall; cbn [omap_list]; [by intros [= <-]|].
  inversion_clear Hall as [|? ? Hm Htl]. intros (v & Hv & (vs & Hvs & [= <-])%obind_Ok_inv)%obind_Ok_inv.
  cbn [decode_numbered renumber]. rewrite (message_decodes _ _ _ Hm Hv). cbn [obind]. by rewrite (IH _ _ Htl Hvs).
Qed.

(** ** The structure survives renumbering *)

Lemma renumber_snoc first m l : forall index,
  renumber first index (l ++ [m]) =
  renumber first index l ++ [with_id (u64_saturating_add first (N.of_nat (index + length l))) (durable m)].
Proof.
  induction l as [|x l IH]; intros index; cbn; [by rewrite Nat.add_0_r|]. rewrite IH. do 6 f_equal. lia.
Qed.

Lemma renumber_calls first l : forall index, calls_of (renumber first index l) = calls_of l.
Proof. induction l as [|m l IH]; intros index; cbn; [done|]. rewrite IH. f_equal. by destruct m. Qed.
Lemma renumber_results first l : forall index,
  map tr_tool_call_id (results_of (renumber first index l)) = map tr_tool_call_id (results_of l).
Proof. unfold results_of. induction l as [|m l IH]; intros index; cbn; [done|]. destruct m; cbn; rewrite ?IH; done. Qed.
Lemma renumber_ids first l : forall index m, m ∈ renumber first index l ->
  exists i, (index <= i < index + length l)%nat /\ message_id m = u64_saturating_add first (N.of_nat i).
Proof.
  induction l as [|x l IH]; intros index m; cbn; [by intros ?%elem_of_nil|].
  intros [->|(i & Hi & Hm)%IH]%elem_of_cons; [exists index|exists i]; (split; [lia|]); [by destruct x|done].
Qed.

Lemma renumber_ordered first l : 1 <= first -> first + N.of_nat (length l) <= u64_max ->
  ordered l -> ordered (renumber first 0 l).
Proof.
  intros Hfirst. induction l as [|m l IH] using rev_ind; [by intros _ _; apply ordered_nil|].
  rewrite length_app. cbn. intros Hlen [Hl (_ & _ & Hm)]%ordered_snoc. rewrite renumber_snoc. apply ordered_snoc.
  split; [apply IH; [lia|done]|]. set (k := u64_saturating_add _ _).
  assert (k = first + N.of_nat (length l)) as Hk by (unfold k, u64_saturating_add; cbn; lia).
  assert (message_id (with_id k (durable m)) = k) as Hid by (by destruct m). unfold admits. rewrite Hid. split_and!; [lia|lia| |].
  - intros (x & Hx & (i & Hi & Hxi)%renumber_ids)%list_elem_of_fmap. unfold u64_saturating_add in Hxi. lia.
  - destruct m as [| a | r | id u]; cbn in *; [done| | |done].
    + by rewrite renumber_calls.
    + unfold answers in *. cbn. by rewrite renumber_calls, renumber_results.
Qed.

Lemma omap_list_ok {A B E} (f : A -> Outcome E B) (P : A -> Prop) l :
  (forall x, P x -> exists y, f x = Ok y) -> Forall P l -> exists k, omap_list f l = Ok k.
Proof.
  intros Hf. induction 1 as [|x l Hx _ [k IH]]; cbn; [by eexists|]. destruct (Hf x Hx) as [y ->]. cbn. rewrite IH. by eexists.
Qed.

Lemma message_encodes m : replayable m -> exists value, compaction_replacement_message m = Ok value.
Proof.
  destruct m as [id content|a|r|id update]; cbn; intros Hr; [by eexists| | |by eexists].
  - destruct Hr as (_ & _ & Hc & _).
    destruct (omap_list_ok (call_json "compaction replacement tool arguments cannot encode: ") call_valid (am_tool_calls a)) as [k ->];
      [|done|by eexists]. intros call (_ & v & Hparse & _). unfold call_json. rewrite Hparse. by eexists.
  - destruct Hr as [_ Hd]. unfold details_json. destruct (tr_details r) as [text|]; [|by eexists].
    destruct Hd as (v & Hparse & _). cbn. rewrite Hparse. by eexists.
Qed.

End round_trip.

(** A codec of the empty object, and a turn with signed reasoning, a call and its result. *)
#[local] Instance empty_object_codec : Miniserde := {| mini_to_string _ := "{}"; mini_from_str _ := Some (MiniObject []) |}.
Definition replayed_turn : list AgentMessage :=
  [User 7 "read it";
   Assistant (mk_assistant 8 [Thinking "plan" (Some (mk_opaque_item "p" "signature" None "secret")); Text "reading"]
                [mk_call "a" "read" "{}"] (Some ToolUse) None [] (Some (mk_model "p" "m" None)));
   ToolResult (mk_result 9 "a" "read" "text" (Some "{}") None ["extra"] false false None)].

