(* ===== verification/ContextProjection.v ===== *)
(** * tea-core: the model context of a branch
    ([crates/tea-core/src/runtime/context.rs], first half)

    A context is a read-only projection of the branch that ends in the leaf of
    a lane: the reducer gives the leaf, the parents of the entries the branch,
    committed compactions and policies select among its entries, and the
    selected entries become messages in the order of their turns. *)

From stdpp Require Import base gmap sets list strings sorting.
From S2P Require Import Prelude RustStr Json Ids Model Records Snapshot Reduction SessionErrors Configuration.
From S2P Require Import Messages Transcript TranscriptJson CoreState Compaction ContextCodec.

Local Open Scope N_scope.

(** ** Data *)

Record ProviderLimits := mk_limits { pl_maximum_context_bytes : N }.
Definition limits_new (maximum_context_bytes : N) : Outcome HarnessError ProviderLimits :=
  if maximum_context_bytes =? 0 then invalid_state [Lit "provider context byte limit must be greater than zero"]
  else Ok (mk_limits maximum_context_bytes).

Record ContextAnnotation := mk_annotation { an_id : string; an_content : string }.
Record ContextProjectionPatch := mk_patch {
  cx_retain_entries : list EntryId;
  cx_omit_eligible_entries : list EntryId;
  cx_annotations : list ContextAnnotation;
  cx_selected_memory : list EntryId;
  cx_requested_compaction_strategy : option string;
}.
Definition patch_default : ContextProjectionPatch := mk_patch [] [] [] [] None.

Record DerivedContext := mk_derived {
  dc_messages : list AgentMessage;
  dc_included_entries : list EntryId;
  dc_omitted_entries : list EntryId;
  dc_annotations : list ContextAnnotation;
  dc_serialized_bytes : N;
  dc_serialized_context : string;
}.

Definition MAX_CONTEXT_POLICY_ENTRIES : nat := 512.
Definition MAX_COMPOSED_CONTEXT_ANNOTATIONS : nat := 64.

(** What a policy sees and proposes ([harness/extension.rs]); it answers with a patch or an error text. *)
Record ExtensionContextEntry := mk_context_entry {
  xe_id : string;
  xe_kind : string;
  xe_model_visible : bool;
  xe_protected : bool;
}.
Definition ExtensionContextInput : Type := list ExtensionContextEntry.
Record ExtensionContextPatch := mk_extension_patch {
  xp_retain_entries : list string;
  xp_omit_eligible_entries : list string;
  xp_annotations : list ContextAnnotation;
  xp_selected_memory : list string;
  xp_requested_compaction_strategy : option string;
}.
Record ContextPolicyBinding := mk_policy_binding {
  pb_plugin_id : string;
  pb_policy : ExtensionContextInput -> string + ExtensionContextPatch;
}.

Abbreviation entry_id := (fun entry => eh_id (se_header entry)).
Definition enumerate {A} (l : list A) : list (nat * A) := imap pair l.
(** [iter().position(|entry| &entry.header.id == id)]. *)
Definition position_of (id : EntryId) (branch : list StoredEntry) : option nat :=
  fst <$> list_find (fun entry => entry_id entry = id) branch.
Definition is_user_entry (entry : StoredEntry) : bool := match se_body entry with UserMessage _ => true | _ => false end.
Definition first_user (branch : list StoredEntry) : option StoredEntry := List.find is_user_entry branch.

(** [BTreeSet::into_iter]. *)
Definition set_iter {K} `{Countable K} `{!BTreeKey K} (X : gset K) : list K :=
  (btree_iter (set_to_map (fun k => (k, tt)) X : gmap K unit)).*1.

(** [portable_label]. *)
Definition label_byte (b : N) : bool :=
  ((48 <=? b) && (b <=? 57)) || ((65 <=? b) && (b <=? 90)) || ((97 <=? b) && (b <=? 122))
  || (b =? 46) || (b =? 95) || (b =? 45).
Definition portable_label (value : string) : bool :=
  negb (str_is_empty value) && (utf8_len value <=? 120) && forallb label_byte (bytes_of value).

(** [context_entry_kind]. *)
Definition context_entry_kind (entry : SessionEntry) : string :=
  match entry with
  | UserMessage _ => "user"
  | Model.AssistantMessage _ => "assistant"
  | Model.ToolResult _ => "tool_result"
  | Model.Compaction _ => "compaction"
  | BranchSummary _ => "branch_summary"
  | ModelChanged _ => "model_changed"
  | ThinkingChanged _ => "thinking_changed"
  | ConfigurationChanged _ => "configuration_changed"
  | HarnessRevisionChanged _ => "harness_revision_changed"
  | PluginMemory _ => "plugin_memory"
  | CustomSemantic _ => "custom"
  end.

(** [source_turn_boundary]. *)
Definition source_turn_boundary (entry : SessionEntry) : bool :=
  match entry with
  | UserMessage _ | Model.AssistantMessage _ | Model.Compaction _ | BranchSummary _ => true
  | PluginMemory memory => bool_decide (pm_visibility memory = ModelVisible)
  | CustomSemantic custom => cu_model_visible custom
  | Model.ToolResult _ | ModelChanged _ | ThinkingChanged _ | ConfigurationChanged _ | HarnessRevisionChanged _ => false
  end.

Section context.
Context `{Blake3} `{Miniserde}.

(** ** Policies *)

(** [policy_context_entry], [policy_context_input]. *)
Definition policy_context_entry (original_user : option EntryId) (entry : StoredEntry) : ExtensionContextEntry :=
  mk_context_entry (as_str (entry_id entry)) (context_entry_kind (se_body entry)) (is_model_visible (se_body entry))
    (match original_user with Some id => bool_decide (id = entry_id entry) | None => false end).
Definition root_outside_tail (branch : list StoredEntry) (original_user : option EntryId) : bool :=
  match original_user with
  | Some root_id =>
      match position_of root_id branch with
      | Some index => (index <? length branch - MAX_CONTEXT_POLICY_ENTRIES)%nat
      | None => false
      end
  | None => false
  end.
Definition policy_context_input (branch : list StoredEntry) : Outcome HarnessError ExtensionContextInput :=
  let original_user := eh_id ∘ se_header <$> first_user branch in
  let tail_capacity := if root_outside_tail branch original_user then (MAX_CONTEXT_POLICY_ENTRIES - 1)%nat
                       else MAX_CONTEXT_POLICY_ENTRIES in
  let entries := map (policy_context_entry original_user) (drop (length branch - tail_capacity) branch) in
  match original_user with
  | Some root_id =>
      if existsb (fun entry => String.eqb (xe_id entry) (as_str root_id)) entries then Ok entries
      else
        match List.find (fun entry => bool_decide (entry_id entry = root_id)) branch with
        | Some root => Ok (policy_context_entry (Some root_id) root :: entries)
        | None => Panic "original user entry remains on its branch"
        end
  | None => Ok entries
  end.

(** [parse_context_entry_id]. *)
Definition parse_context_entry_id (value : string) : Outcome HarnessError EntryId :=
  explain (fun e => [Lit "context policy returned an invalid entry ID: "; OfId e]) (id_new value).

(** The locals of the loop of [derive_patch], and its rounds. *)
Record PatchState := mk_patch_state {
  px_retain : option (gset EntryId);
  px_omit : gset EntryId;
  px_selected_memory : gset EntryId;
  px_annotations : list ContextAnnotation;
  px_strategy : option string;
}.
Definition patch_start : PatchState := mk_patch_state None ∅ ∅ [] None.
Definition narrow_retain (retain : option (gset EntryId)) (proposed : list string) : Outcome HarnessError (option (gset EntryId)) :=
  if is_nil proposed then Ok retain
  else
    let? ids := omap_list parse_context_entry_id proposed in
    match retain with
    | Some existing =>
        let intersection := existing ∩ list_to_set ids in
        if bool_decide (intersection = ∅) then invalid_state [Lit "context policies have incompatible explicit retain sets"]
        else Ok (Some intersection)
    | None => Ok (Some (list_to_set ids))
    end.
Definition add_annotation (plugin_id : string) (annotations : list ContextAnnotation) (annotation : ContextAnnotation) :
    Outcome HarnessError (list ContextAnnotation) :=
  if (length annotations =? MAX_COMPOSED_CONTEXT_ANNOTATIONS)%nat
  then invalid_state [Lit "composed context annotations exceed "; Num (N.of_nat MAX_COMPOSED_CONTEXT_ANNOTATIONS)]
  else Ok (annotations ++ [mk_annotation (plugin_id +:+ "." +:+ an_id annotation) (an_content annotation)]).
Definition agree_strategy (current proposed : option string) : Outcome HarnessError (option string) :=
  match proposed, current with
  | None, _ => Ok current
  | Some strategy, Some existing =>
      if String.eqb existing strategy then Ok (Some strategy)
      else invalid_state [Lit "context policies request conflicting compaction strategies "; Dbg existing; Lit " and "; Dbg strategy]
  | Some strategy, None => Ok (Some strategy)
  end.
Definition apply_policy (input : ExtensionContextInput) (s : PatchState) (binding : ContextPolicyBinding) :
    Outcome HarnessError PatchState :=
  match pb_policy binding input with
  | inl error =>
      invalid_state [Lit "context policy "; Lit (pb_plugin_id binding); Lit " rejected its bounded proposal: "; Lit error]
  | inr proposal =>
      let? retain := narrow_retain (px_retain s) (xp_retain_entries proposal) in
      let? omit := omap_list parse_context_entry_id (xp_omit_eligible_entries proposal) in
      let? memory := omap_list parse_context_entry_id (xp_selected_memory proposal) in
      let? annotations := ofold (add_annotation (pb_plugin_id binding)) (px_annotations s) (xp_annotations proposal) in
      let? strategy := agree_strategy (px_strategy s) (xp_requested_compaction_strategy proposal) in
      Ok (mk_patch_state retain (px_omit s ∪ list_to_set omit) (px_selected_memory s ∪ list_to_set memory) annotations strategy)
  end.
Definition derive_patch (policies : list ContextPolicyBinding) (branch : list StoredEntry) :
    Outcome HarnessError ContextProjectionPatch :=
  if is_nil policies then Ok patch_default
  else
    let? input := policy_context_input branch in
    let? s := ofold (apply_policy input) patch_start policies in
    Ok (mk_patch (match px_retain s with Some values => set_iter values | None => [] end) (set_iter (px_omit s))
          (px_annotations s) (set_iter (px_selected_memory s)) (px_strategy s)).

(** ** The branch *)

(** [branch_entries]; every round adds an identity of the index to [seen]. *)
Fixpoint branch_walk (fuel : nat) (entries : gmap EntryId StoredEntry) (cursor : option EntryId) (seen : gset EntryId)
    (chain : list StoredEntry) : Outcome HarnessError (list StoredEntry) :=
  match fuel, cursor with
  | _, None => Ok chain
  | O, Some _ => Panic "out of fuel"
  | S fuel, Some id =>
      if mem id seen then invalid_state [Lit "semantic branch contains a parent cycle at entry "; Lit (as_str id)]
      else
        match entries !! id with
        | None => invalid_state [Lit "branch leaf refers to missing entry "; Lit (as_str id)]
        | Some entry => branch_walk fuel entries (eh_parent_id (se_header entry)) ({[id]} ∪ seen) (entry :: chain)
        end
  end.
Definition index_entries (entries : list StoredEntry) : gmap EntryId StoredEntry :=
  foldl (fun index entry => <[entry_id entry := entry]> index) ∅ entries.
Definition branch_entries (snapshot : SessionSnapshot) (lane : LaneId) : Outcome HarnessError (list StoredEntry) :=
  let? reduction := map_err HarnessCorruption (reduce_lane_ref snapshot lane) in
  branch_walk (S (length (ss_entries snapshot))) (index_entries (ss_entries snapshot))
    (ls_leaf_id (lr_lane_state reduction)) ∅ [].

(** ** Selection *)

(** [validate_patch_shape]. *)
Definition check_patch_id (known : gset EntryId) (surface : string) (unique : gset EntryId) (id : EntryId) :
    Outcome HarnessError (gset EntryId) :=
  if negb (mem id known)
  then invalid_state [Lit "context patch "; Lit surface; Lit " refers to entry "; Lit (as_str id); Lit " outside the current branch"]
  else if mem id unique
  then invalid_state [Lit "context patch "; Lit surface; Lit " repeats entry "; Lit (as_str id)]
  else Ok ({[id]} ∪ unique).
Definition check_annotation (ids : gset string) (annotation : ContextAnnotation) : Outcome HarnessError (gset string) :=
  if negb (portable_label (an_id annotation)) || str_is_empty (an_content annotation) || (4096 <? utf8_len (an_content annotation))
  then invalid_state [Lit "context patch annotation must use a bounded portable ID and non-empty <=4096 byte content"]
  else if mem (an_id annotation) ids
  then invalid_state [Lit "context patch repeats annotation "; Lit (an_id annotation)]
  else Ok ({[an_id annotation]} ∪ ids).
Definition validate_patch_shape (branch : list StoredEntry) (patch : ContextProjectionPatch) : Outcome HarnessError unit :=
  let known : gset EntryId := list_to_set (map entry_id branch) in
  check? ofold (check_patch_id known "retain_entries") ∅ (cx_retain_entries patch) in
  check? ofold (check_patch_id known "omit_eligible_entries") ∅ (cx_omit_eligible_entries patch) in
  check? ofold (check_patch_id known "selected_memory") ∅ (cx_selected_memory patch) in
  check? ofold check_annotation ∅ (cx_annotations patch) in
  if match cx_requested_compaction_strategy patch with Some id => negb (portable_label id) | None => false end
  then invalid_state [Lit "context patch compaction strategy ID must use a portable bounded label"] else Ok ().

(** [validate_compaction_range]. *)
Definition validate_replacement (compaction : CompactionEntry) : Outcome HarnessError unit :=
  if str_is_empty (ce_summary compaction)
  then invalid_state [Lit "compaction summary must be non-empty when it replaces model context"]
  else
    match ce_replacement compaction with
    | PayloadArtifact _ _ _ => invalid_state [Lit "compaction replacement requires an inline canonical context payload"]
    | PayloadInline replacement =>
        let? digest := compaction_replacement_digest replacement in
        if negb (bool_decide (digest = ce_replacement_digest compaction))
        then invalid_state [Lit "compaction replacement digest does not match its exact context payload"]
        else
          let? messages := decode_compaction_replacement replacement 1 in
          if is_nil messages
          then invalid_state [Lit "compaction replacement must retain at least one canonical message"] else Ok ()
    end.
Definition validate_compaction_range (branch : list StoredEntry) (compaction_index : nat) (compaction : CompactionEntry) :
    Outcome HarnessError unit :=
  check? validate_replacement compaction in
  match ce_covered_from compaction, ce_covered_to compaction with
  | None, None => Ok ()
  | Some start, Some finish =>
      let? start_index := ok_or (position_of start branch)
        (InvalidState [Lit "compaction refers to covered start "; Lit (as_str start); Lit " outside its branch"]) in
      let? end_index := ok_or (position_of finish branch)
        (InvalidState [Lit "compaction refers to covered end "; Lit (as_str finish); Lit " outside its branch"]) in
      if (end_index <? start_index)%nat || (compaction_index <=? end_index)%nat
      then invalid_state [Lit "compaction coverage must be a nonempty earlier branch range"] else Ok ()
  | _, _ => invalid_state [Lit "compaction context range must provide both covered endpoints or neither"]
  end.

(** The validated range of a compaction. *)
Definition compaction_range (branch : list StoredEntry) (compaction_index : nat) (compaction : CompactionEntry) :
    Outcome HarnessError (option (nat * nat)) :=
  check? validate_compaction_range branch compaction_index compaction in
  match ce_covered_from compaction with
  | None => Ok None
  | Some start =>
      let? finish := expect (ce_covered_to compaction) "validated compaction range has matching endpoint" in
      let? start_index := expect (position_of start branch) "validated compaction start exists" in
      let? end_index := expect (position_of finish branch) "validated compaction end exists" in
      Ok (Some (start_index, end_index))
  end.

(** [default_visible_entries]. *)
Definition hide_covered (branch : list StoredEntry) (selected : gset EntryId) (ie : nat * StoredEntry) :
    Outcome HarnessError (gset EntryId) :=
  match se_body ie.2 with
  | Model.Compaction compaction =>
      let? range := compaction_range branch ie.1 compaction in
      match range with
      | None => Ok selected
      | Some (start_index, end_index) =>
          Ok (foldl (fun selected covered => selected ∖ {[entry_id covered]}) selected (drop start_index (take (S end_index) branch)))
      end
  | _ => Ok selected
  end.
Definition is_memory (entry : SessionEntry) : bool := match entry with PluginMemory _ => true | _ => false end.
Definition visible_by_default (entry : StoredEntry) : bool := is_model_visible (se_body entry) && negb (is_memory (se_body entry)).
Definition default_visible_entries (branch : list StoredEntry) : Outcome HarnessError (gset EntryId) :=
  ofold (hide_covered branch) (list_to_set (map entry_id (List.filter visible_by_default branch))) (enumerate branch).

(** [select_entries]. *)
Definition visible_memory (entry : StoredEntry) : bool :=
  match se_body entry with PluginMemory memory => bool_decide (pm_visibility memory = ModelVisible) | _ => false end.
Definition retain_entry (by_id : gmap EntryId StoredEntry) (retained : gset EntryId) (id : EntryId) :
    Outcome HarnessError (gset EntryId) :=
  let? entry := expect (by_id !! id) "shape validation checked entry ID" in
  if visible_memory entry
  then invalid_state [Lit "context patch must select model-visible plugin memory "; Lit (as_str id); Lit " through selected_memory"]
  else Ok ({[id]} ∪ retained).
Definition omit_entry (by_id : gmap EntryId StoredEntry) (selected : gset EntryId) (id : EntryId) :
    Outcome HarnessError (gset EntryId) :=
  let? entry := expect (by_id !! id) "shape validation checked entry ID" in
  if negb (is_model_visible (se_body entry))
  then invalid_state [Lit "context patch may omit only model-eligible entry "; Lit (as_str id)]
  else Ok (selected ∖ {[id]}).
Definition select_memory (by_id : gmap EntryId StoredEntry) (selected : gset EntryId) (id : EntryId) :
    Outcome HarnessError (gset EntryId) :=
  let? entry := expect (by_id !! id) "shape validation checked entry ID" in
  if negb (visible_memory entry)
  then invalid_state [Lit "context patch selected_memory entry "; Lit (as_str id); Lit " is not model-visible plugin memory"]
  else Ok ({[id]} ∪ selected).
Definition select_entries (branch : list StoredEntry) (patch : ContextProjectionPatch) : Outcome HarnessError (gset EntryId) :=
  let by_id := index_entries branch in
  let? selected := (if is_nil (cx_retain_entries patch) then default_visible_entries branch
                    else ofold (retain_entry by_id) ∅ (cx_retain_entries patch)) in
  let? selected := ofold (omit_entry by_id) selected (cx_omit_eligible_entries patch) in
  ofold (select_memory by_id) selected (cx_selected_memory patch).

(** ** Order *)

(** [source_ordered_selected_entries]: the entries up to the next boundary belong to the assistant's turn. *)
Fixpoint turn_window (rest : list StoredEntry) : list StoredEntry :=
  match rest with
  | [] => []
  | entry :: rest => if source_turn_boundary (se_body entry) then [] else entry :: turn_window rest
  end.
Definition selects (selected : gset EntryId) (entry : StoredEntry) : bool := mem (entry_id entry) selected.
Definition is_configuration (entry : StoredEntry) : bool := match se_body entry with ConfigurationChanged _ => true | _ => false end.
Definition result_entry (entry : StoredEntry) : option ToolResultEntry :=
  match se_body entry with Model.ToolResult result => Some result | _ => None end.
Definition call_matches (result : ToolResultEntry) (call : AssistantToolCall) : bool :=
  String.eqb (Model.tc_id call) (Model.tr_tool_call_id result) && String.eqb (Model.tc_name call) (Model.tr_tool_name result).
Definition source_index (calls : list AssistantToolCall) (entry : StoredEntry) : N :=
  match result_entry entry with
  | Some result =>
      match list_find (fun call => call_matches result call = true) calls with
      | Some (index, _) => N.of_nat index
      | None => u64_max
      end
  | None => u64_max
  end.
Definition turn_entries (calls : list AssistantToolCall) (selected : gset EntryId) (window : list StoredEntry) : list StoredEntry :=
  sort_by_key (source_index calls)
    (List.filter (fun entry => match result_entry entry with Some _ => selects selected entry | None => false end) window)
  ++ List.filter (fun entry => is_configuration entry && selects selected entry) window.
Fixpoint ordered_from (fuel : nat) (branch : list StoredEntry) (selected : gset EntryId) : list StoredEntry :=
  match fuel, branch with
  | S fuel, entry :: rest =>
      let this := if selects selected entry then [entry] else [] in
      match se_body entry with
      | Model.AssistantMessage assistant =>
          if is_nil (Model.am_tool_calls assistant) then this ++ ordered_from fuel rest selected
          else
            let window := turn_window rest in
            this ++ turn_entries (Model.am_tool_calls assistant) selected window
            ++ ordered_from fuel (drop (length window) rest) selected
      | _ => this ++ ordered_from fuel rest selected
      end
  | _, _ => []
  end.
Definition source_ordered_selected_entries (branch : list StoredEntry) (selected : gset EntryId) : list StoredEntry :=
  ordered_from (length branch) branch selected.

(** ** Protection *)

(** [source_results_for_tool_call], [source_assistant_for_tool_result]. *)
Definition source_results_for_tool_call (branch : list StoredEntry) (assistant_index : nat) (call : AssistantToolCall) : list StoredEntry :=
  List.filter (fun entry => match result_entry entry with Some result => call_matches result call | None => false end)
    (turn_window (drop (S assistant_index) branch)).
Fixpoint nearest_assistant (before : list StoredEntry) : option (StoredEntry * AssistantMessageEntry) :=
  match before with
  | [] => None
  | entry :: before =>
      match se_body entry with
      | Model.AssistantMessage assistant => Some (entry, assistant)
      | body => if source_turn_boundary body then None else nearest_assistant before
      end
  end.
Definition source_assistant_for_tool_result (branch : list StoredEntry) (result_index : nat) :
    option (StoredEntry * AssistantMessageEntry) := nearest_assistant (reverse (take result_index branch)).

(** [first_user_is_replaced_by_compaction]. *)
Fixpoint replaced_by (branch : list StoredEntry) (selected : gset EntryId) (index : nat) (candidates : list (nat * StoredEntry)) :
    Outcome HarnessError bool :=
  match candidates with
  | [] => Ok false
  | (compaction_index, entry) :: candidates =>
      match se_body entry with
      | Model.Compaction compaction =>
          if selects selected entry then
            let? range := compaction_range branch compaction_index compaction in
            match range with
            | Some (start_index, end_index) =>
                if (start_index <=? index)%nat && (index <=? end_index)%nat then Ok true
                else replaced_by branch selected index candidates
            | None => replaced_by branch selected index candidates
            end
          else replaced_by branch selected index candidates
      | _ => replaced_by branch selected index candidates
      end
  end.
Definition first_user_is_replaced_by_compaction (branch : list StoredEntry) (selected : gset EntryId) (first_user : EntryId) :
    Outcome HarnessError bool :=
  let? index := expect (position_of first_user branch) "protected first user is on its branch" in
  replaced_by branch selected index (enumerate branch).

(** The loops of [validate_protected_context]. *)
Definition check_call (branch : list StoredEntry) (selected : gset EntryId) (pending : gmap EntryId (gset string))
    (assistant_index : nat) (entry : StoredEntry) (seen : gset string) (call : AssistantToolCall) :
    Outcome HarnessError (gset string) :=
  if mem (Model.tc_id call) seen
  then invalid_state [Lit "selected assistant entry "; Lit (as_str (entry_id entry)); Lit " repeats tool call "; Lit (Model.tc_id call)]
  else
    let seen := {[Model.tc_id call]} ∪ seen in
    match source_results_for_tool_call branch assistant_index call with
    | [result] =>
        if selects selected result then Ok seen
        else invalid_state [Lit "context patch separates tool call "; Lit (Model.tc_id call); Lit " from its durable result ";
                            Lit (as_str (entry_id result))]
    | paired =>
        if is_nil paired && match pending !! entry_id entry with Some ids => mem (Model.tc_id call) ids | None => false end
        then Ok seen
        else invalid_state [Lit "selected assistant entry "; Lit (as_str (entry_id entry)); Lit " has ";
                            Num (N.of_nat (length paired)); Lit " durable results for tool call "; Lit (Model.tc_id call)]
    end.
Definition check_assistant (branch : list StoredEntry) (selected : gset EntryId) (pending : gmap EntryId (gset string))
    (ie : nat * StoredEntry) : Outcome HarnessError unit :=
  match se_body ie.2 with
  | Model.AssistantMessage assistant =>
      if selects selected ie.2 then
        check? ofold (check_call branch selected pending ie.1 ie.2) ∅ (Model.am_tool_calls assistant) in Ok ()
      else Ok ()
  | _ => Ok ()
  end.
Definition check_result (branch : list StoredEntry) (selected : gset EntryId) (ie : nat * StoredEntry) : Outcome HarnessError unit :=
  match result_entry ie.2 with
  | Some result =>
      if selects selected ie.2 then
        match source_assistant_for_tool_result branch ie.1 with
        | None => invalid_state [Lit "selected tool result "; Lit (as_str (entry_id ie.2)); Lit " has no source-turn assistant"]
        | Some (assistant_entry, assistant) =>
            if negb (length (List.filter (call_matches result) (Model.am_tool_calls assistant)) =? 1)%nat
            then invalid_state [Lit "selected tool result "; Lit (as_str (entry_id ie.2)); Lit " has no unique source assistant call ";
                                Lit (Model.tr_tool_call_id result)]
            else if negb (selects selected assistant_entry)
            then invalid_state [Lit "context patch separates durable tool result "; Lit (as_str (entry_id ie.2));
                                Lit " from its assistant call "; Lit (Model.tr_tool_call_id result)]
            else Ok ()
        end
      else Ok ()
  | None => Ok ()
  end.
Definition check_all {A} (f : A -> Outcome HarnessError unit) (l : list A) : Outcome HarnessError unit :=
  ofold (fun _ a => f a) () l.
Definition validate_protected_context (branch : list StoredEntry) (selected : gset EntryId) (pending : gmap EntryId (gset string)) :
    Outcome HarnessError unit :=
  check? match first_user branch with
         | Some user =>
             if selects selected user then Ok ()
             else
               let? replaced := first_user_is_replaced_by_compaction branch selected (entry_id user) in
               if replaced : bool then Ok () else invalid_state [Lit "context patch may not remove the original user task"]
         | None => Ok ()
         end in
  check? check_all (check_assistant branch selected pending) (enumerate branch) in
  check_all (check_result branch selected) (enumerate branch).

(** ** Messages *)

Definition opaque_of_entry (what : string) (item : OpaqueProviderContextEntry) : Outcome HarnessError OpaqueItem :=
  explain (fun e => Lit what :: opaque_error_display e)
    (opaque_item_new (oc_provider item) (oc_kind item) (oc_item_id item) (oc_payload item)).

(** [assistant_content_from_entry], [assistant_content_entry]. *)
Definition block_of_entry (retain_opaque_context : bool) (block : AssistantContentEntry) : Outcome HarnessError (list AssistantContent) :=
  let opaque := opaque_of_entry "durable assistant thinking replay material is invalid: " in
  match block with
  | ContentText text => Ok [Text text]
  | ContentThinking text signature =>
      let? signature := (if retain_opaque_context then otraverse opaque signature else Ok None) in
      Ok [Thinking text signature]
  | ContentRedactedThinking data =>
      if retain_opaque_context then let? data := opaque data in Ok [RedactedThinking data] else Ok []
  end.
Definition assistant_content_from_entry (content : list AssistantContentEntry) (retain_opaque_context : bool) :
    Outcome HarnessError (list AssistantContent) :=
  let? blocks := omap_list (block_of_entry retain_opaque_context) content in
  Ok (concat blocks).
Definition entry_of_opaque (item : OpaqueItem) : OpaqueProviderContextEntry :=
  mk_opaque_context (oi_provider item) (oi_kind item) (oi_item_id item) (oi_payload item).
Definition assistant_content_entry (content : list AssistantContent) : list AssistantContentEntry :=
  map (fun block =>
         match block with
         | Text text => ContentText text
         | Thinking text signature => ContentThinking text (entry_of_opaque <$> signature)
         | RedactedThinking data => ContentRedactedThinking (entry_of_opaque data)
         end) content.

(** [configuration_update_from_entry], [configuration_entry_from_update]. *)
Definition configuration_update_from_entry (change : ConfigurationChangedEntry) : ConfigurationUpdate :=
  mk_update (map (fun section => mk_change (psc_id section) (psc_content section)) (Model.cc_sections change))
    (map (fun tool => mk_tool (Model.td_name tool) (Model.td_description tool) (Model.td_schema tool)) (cc_tools_added change))
    (cc_tools_removed change).
Definition configuration_entry_from_update (update : ConfigurationUpdate) : ConfigurationChangedEntry :=
  mk_configuration_changed (map (fun section => mk_section_change (ch_id section) (ch_content section)) (cu_sections update))
    (map (fun tool => mk_tool_declaration (td_name tool) (td_description tool) (td_schema tool)) (cu_tools_added update))
    (cu_tools_removed update).

(** [projection_added_tool_names], [validate_recovery_locator], [tool_projection_content]. *)
Definition projection_added_tool_names (projection : JsonValue) : Outcome HarnessError (list string) :=
  match json_get "added_tool_names" projection with
  | None => Ok []
  | Some names =>
      let? names := ok_or (json_as_array names) (InvalidState [Lit "tool-result added_tool_names must be an array"]) in
      omap_list (fun name => ok_or (json_as_str name) (InvalidState [Lit "tool-result added_tool_names must contain strings"])) names
  end.
Definition validate_recovery_locator (result : ToolResultEntry) : Outcome HarnessError unit :=
  match json_get "recovery_locator" (tr_model_projection result) ≫= json_as_str with
  | None => Ok ()
  | Some locator =>
      match tr_full_result result with
      | PayloadInline _ =>
          invalid_state [Lit "tool-result projection names a recovery locator without retained artifact evidence"]
      | PayloadArtifact artifact_id _ _ =>
          if String.eqb locator ("tea-artifact://blake3/" +:+ artifact_id_to_hex artifact_id) then Ok ()
          else invalid_state [Lit "tool-result recovery locator does not name its retained artifact"]
      end
  end.
Definition tool_projection_content (projection : JsonValue) : Outcome HarnessError (string * option string) :=
  let? content := ok_or (json_get "content" projection ≫= json_as_str)
                    (InvalidState [Lit "tool-result model projection has no string content"]) in
  let? details := otraverse (encode_text "tool-result projection details cannot encode: ") (non_null (json_get "details" projection)) in
  Ok (content, details).

(** [message_for_entry]. *)
Definition call_of_entry (call : AssistantToolCall) : Outcome HarnessError AgentToolCall :=
  let? id := explain (fun e => Lit "durable assistant tool-call ID is invalid: " :: e) (tool_call_id_new (Model.tc_id call)) in
  let? arguments := encode_text "durable assistant arguments cannot encode: " (Model.tc_arguments call) in
  Ok (mk_call id (Model.tc_name call) arguments).
Definition origin_of_entry (origin : ModelChangedEntry) : ModelDescriptor :=
  mk_model (mc_provider origin) (mc_model origin) (mc_revision origin).
Definition usage_of_entry (usage : Usage) : ModelUsage :=
  mk_usage (us_total_tokens usage) (us_input_tokens usage) (us_output_tokens usage) (us_reasoning_tokens usage)
    (us_cache_read_tokens usage) (us_cache_write_tokens usage) (us_cost usage).
Definition assistant_message (id : N) (retain_opaque_context : bool) (a : AssistantMessageEntry) : Outcome HarnessError AgentMessage :=
  let? calls := omap_list call_of_entry (Model.am_tool_calls a) in
  let? opaque_context := (if retain_opaque_context
                          then omap_list (opaque_of_entry "durable assistant opaque provider context is invalid: ")
                                 (Model.am_opaque_context a)
                          else Ok []) in
  let? content := assistant_content_from_entry (Model.am_content a) retain_opaque_context in
  let? stop_reason := otraverse parse_stop_reason (Model.am_stop_reason a) in
  Ok (Assistant (mk_assistant id content calls stop_reason (Model.am_error_message a) opaque_context
                   (origin_of_entry <$> Model.am_origin a))).
Definition tool_result_message (id : N) (r : ToolResultEntry) : Outcome HarnessError AgentMessage :=
  let? (content, details) := tool_projection_content (tr_model_projection r) in
  check? validate_recovery_locator r in
  let? tool_call_id := explain (fun e => Lit "durable tool-result call ID is invalid: " :: e)
                         (tool_call_id_new (Model.tr_tool_call_id r)) in
  let? names := projection_added_tool_names (tr_model_projection r) in
  Ok (ToolResult (mk_result id tool_call_id (Model.tr_tool_name r) content details (Some (usage_of_entry (Model.tr_usage r)))
                    names (Model.tr_terminate r) (Model.tr_is_error r) None)).
Definition clear_opaque (m : AgentMessage) : AgentMessage :=
  match m with
  | Assistant a => Assistant (mk_assistant (am_id a) (am_content a) (am_tool_calls a) (am_stop_reason a) (am_error_message a) [] (am_origin a))
  | _ => m
  end.
Definition compaction_messages (message_number : N) (retain_opaque_context : bool) (compaction : CompactionEntry) :
    Outcome HarnessError (list AgentMessage) :=
  match ce_replacement compaction with
  | PayloadArtifact _ _ _ => invalid_state [Lit "compaction replacement requires an inline canonical context payload"]
  | PayloadInline replacement =>
      let? digest := compaction_replacement_digest replacement in
      if negb (bool_decide (digest = ce_replacement_digest compaction))
      then invalid_state [Lit "compaction replacement digest does not match its exact context payload"]
      else
        let? messages := decode_compaction_replacement replacement message_number in
        Ok (if retain_opaque_context then messages else map clear_opaque messages)
  end.
Definition message_for_entry (entry : StoredEntry) (message_number : N) (retain_opaque_context : bool) :
    Outcome HarnessError (list AgentMessage) :=
  match se_body entry with
  | UserMessage user => Ok [User message_number (um_content user)]
  | Model.AssistantMessage a => let? m := assistant_message message_number retain_opaque_context a in Ok [m]
  | Model.ToolResult r => let? m := tool_result_message message_number r in Ok [m]
  | ConfigurationChanged change => Ok [System message_number (configuration_update_from_entry change)]
  | Model.Compaction compaction => compaction_messages message_number retain_opaque_context compaction
  | BranchSummary summary => Ok [User message_number ("[Branch summary]" +:+ newline +:+ bs_summary summary)]
  | PluginMemory memory =>
      if bool_decide (pm_visibility memory = ModelVisible) then
        match pm_content memory with
        | PayloadArtifact _ _ _ =>
            invalid_state [Lit "model-visible plugin memory "; Lit (pm_plugin_id memory); Lit ":"; Lit (pm_kind memory);
                           Lit " is artifact-backed and needs an explicit artifact reader projection"]
        | PayloadInline content =>
            let? text := encode_text "model-visible plugin memory cannot encode: " content in
            Ok [User message_number ("[Plugin memory " +:+ pm_plugin_id memory +:+ ":" +:+ pm_kind memory +:+ "]" +:+ newline +:+ text)]
        end
      else Ok []
  | CustomSemantic custom =>
      if cu_model_visible custom
      then invalid_state [Lit "model-visible custom semantic entry needs a trusted host context projection"] else Ok []
  | ModelChanged _ | ThinkingChanged _ | HarnessRevisionChanged _ => Ok []
  end.

(** [project_selected_entries]. *)
Definition next_number (messages : list AgentMessage) : N := N.of_nat (length messages) + 1.
Definition project_entry (lane : LaneId) (acc : list AgentMessage * list EntryId) (entry : StoredEntry) :
    Outcome HarnessError (list AgentMessage * list EntryId) :=
  let '(messages, included) := acc in
  let? added := message_for_entry entry (next_number messages) (bool_decide (se_lane_id entry = lane)) in
  Ok (if is_nil added then (messages, included) else (messages ++ added, included ++ [entry_id entry])).
Definition project_selected_entries (branch : list StoredEntry) (selected : gset EntryId) (lane : LaneId) :
    Outcome HarnessError (list AgentMessage * list EntryId) :=
  ofold (project_entry lane) ([], []) (source_ordered_selected_entries branch selected).

(** ** Derivation *)

Definition annotate (messages : list AgentMessage) (annotation : ContextAnnotation) : list AgentMessage :=
  messages ++ [User (next_number messages)
                 ("[Context annotation " +:+ an_id annotation +:+ "]" +:+ newline +:+ an_content annotation)].
Definition omitted (branch : list StoredEntry) (selected : gset EntryId) : list EntryId :=
  map entry_id (List.filter (fun entry => is_model_visible (se_body entry) && negb (selects selected entry)) branch).

(** [derive_default_snapshot_context]. *)
Definition derive_default_snapshot_context (snapshot : SessionSnapshot) (lane : LaneId) : Outcome HarnessError DerivedContext :=
  let? branch := branch_entries snapshot lane in
  let? selected := default_visible_entries branch in
  check? validate_protected_context branch selected ∅ in
  let? (messages, included) := project_selected_entries branch selected lane in
  let? serialized := canonical_context_json_lines messages in
  Ok (mk_derived messages included (omitted branch selected) [] (utf8_len serialized) serialized).

(** [derive_snapshot_context_with_patch_allowing_pending_tool_calls]. *)
Definition pending_index (pending : option (EntryId * list AgentToolCall)) : gmap EntryId (gset string) :=
  match pending with Some (id, calls) => {[id := list_to_set (map tc_id calls)]} | None => ∅ end.
Definition derive_branch_context (branch : list StoredEntry) (lane : LaneId) (limits : ProviderLimits)
    (patch : ContextProjectionPatch) (pending : option (EntryId * list AgentToolCall)) : Outcome HarnessError DerivedContext :=
  check? validate_patch_shape branch patch in
  let? selected := select_entries branch patch in
  check? validate_protected_context branch selected (pending_index pending) in
  let? (messages, included) := project_selected_entries branch selected lane in
  let messages := foldl annotate messages (cx_annotations patch) in
  let? serialized := canonical_context_json_lines messages in
  if pl_maximum_context_bytes limits <? utf8_len serialized
  then invalid_state [Lit "derived context is "; Num (utf8_len serialized); Lit " bytes, exceeding provider limit ";
                      Num (pl_maximum_context_bytes limits)]
  else Ok (mk_derived messages included (omitted branch selected) (cx_annotations patch) (utf8_len serialized) serialized).
Definition derive_snapshot_context_with_patch (snapshot : SessionSnapshot) (lane : LaneId) (limits : ProviderLimits)
    (patch : ContextProjectionPatch) (pending : option (EntryId * list AgentToolCall)) : Outcome HarnessError DerivedContext :=
  let? branch := branch_entries snapshot lane in
  derive_branch_context branch lane limits patch pending.

(** [derive_snapshot_context_with_policies]. *)
Definition derive_snapshot_context_with_policies (snapshot : SessionSnapshot) (lane : LaneId) (limits : ProviderLimits)
    (policies : list ContextPolicyBinding) (pending : option (EntryId * list AgentToolCall)) : Outcome HarnessError DerivedContext :=
  let? branch := branch_entries snapshot lane in
  let? patch := derive_patch policies branch in
  derive_snapshot_context_with_patch snapshot lane limits patch pending.
End context.
