(* ===== verification/ContextProofs.v ===== *)
(** * tea-core: what a derived context shows

    The branch of a lane is the chain of parents of its leaf; the projection
    keeps every selected entry, each assistant with the results of its calls in
    the order of the calls; a context fits its limit and its messages are
    numbered from one; and what a foreign lane keeps private stays out, except
    through the replacement of a compaction. *)

From stdpp Require Import base gmap sets list strings sorting.
From S2P Require Import Prelude RustStr Json Ids Model Records Snapshot Reduction ReductionInv ReductionSafety ReductionHistory.
From S2P Require Import SessionErrors Configuration SchemaProofs Messages Transcript TranscriptJson CoreState Compaction.
From S2P Require Import Scenario ContextCodec ContextProjection.

Local Open Scope nat_scope.

(** ** The branch *)

(** From the root to the entry of a cursor. *)
Inductive parent_chain (index : gmap EntryId StoredEntry) : option EntryId -> list StoredEntry -> Prop :=
| chain_root : parent_chain index None []
| chain_step id entry branch :
    index !! id = Some entry -> parent_chain index (eh_parent_id (se_header entry)) branch ->
    parent_chain index (Some id) (branch ++ [entry]).

Section branch.
Context `{Blake3} `{Miniserde}.

(** The reducer keeps the index of the entries of its log. *)
Lemma reduced_entries header ms s :
  reduce_all header ms = Ok s -> entries s = index_entries (omap view_entry ms).
Proof.
  revert s. induction ms as [|m ms IH] using rev_ind; intros s; [by intros [= <-]|].
  unfold reduce_all. rewrite ofold_snoc. intros (t & Ht & Hok)%obind_Ok_inv. apply IH in Ht.
  apply reduce_step_Ok in Hok as (_ & ready & _ & Hok). unfold index_entries in *.
  rewrite omap_app, foldl_app. cbn [omap list_omap]. unfold view_entry at 2.
  destruct (smu_mutation m) as [e|r|[seq ts [lane base]]|f] eqn:Hm; cbn in Hok |- *.
  - apply on_entry_Ok in Hok as (_ & _ & _ & _ & requests & ops & -> & _). cbn. by rewrite Ht.
  - apply on_record_frame in Hok as [_ ->]. done.
  - apply on_lane_created_Ok in Hok as (_ & _ & ->). done.
  - apply on_fact_frame in Hok as [_ ->]. done.
Qed.

Lemma branch_walk_chain leaves index (rank : EntryId -> nat) :
  forest leaves index ->
  (forall id e, index !! id = Some e -> forall p, eh_parent_id (se_header e) = Some p -> is_Some (index !! p) /\ rank p < rank id) ->
  forall fuel cursor seen chain,
  (forall id, cursor = Some id -> is_Some (index !! id) /\ rank id < fuel /\ forall x, x ∈ seen -> rank id < rank x) ->
  exists branch, branch_walk fuel index cursor seen chain = Ok (branch ++ chain) /\ parent_chain index cursor branch
    /\ (forall e, e ∈ branch -> exists id, cursor = Some id /\ rank (eh_id (se_header e)) <= rank id)
    /\ NoDup (map entry_id branch).
Proof.
  intros Hf Hrank. induction fuel as [|fuel IH]; intros [id|] seen chain Hcur; cbn.
  - destruct (Hcur id eq_refl) as (_ & Hlt & _). lia.
  - exists []. split_and!; [done|constructor|by intros ? ?%elem_of_nil|constructor].
  - destruct (Hcur id eq_refl) as ([e He] & Hlt & Hseen).
    replace (mem id seen) with false; [|symmetry; apply mem_false; intros Hin; specialize (Hseen _ Hin); lia].
    rewrite He. pose proof (forest_id _ _ Hf _ _ He) as Hid.
    destruct (IH (eh_parent_id (se_header e)) ({[id]} ∪ seen) (e :: chain)) as (branch & Hw & Hc & Hle & Hnd).
    { intros p Hp. destruct (Hrank _ _ He _ Hp) as [Hex Hr]. split_and!; [done|lia|].
      intros x [->%elem_of_singleton|Hx]%elem_of_union; [done|]. specialize (Hseen _ Hx). lia. }
    exists (branch ++ [e]). split_and!.
    + by rewrite Hw, <-app_assoc.
    + by apply (chain_step index id).
    + intros x [Hx| ->%list_elem_of_singleton]%elem_of_app; exists id; split; [done| |done|by rewrite Hid].
      destruct (Hle _ Hx) as (p & Hp & Hxp). destruct (Hrank _ _ He _ Hp). lia.
    + rewrite map_app. apply NoDup_app. split_and!; [done| |repeat constructor; set_solver].
      intros k (x & -> & Hx)%list_elem_of_fmap. cbn. rewrite list_elem_of_singleton. intros Heq.
      destruct (Hle _ Hx) as (p & Hp & Hxp). destruct (Hrank _ _ He _ Hp) as [_ Hr]. rewrite Heq, Hid in Hxp. lia.
  - exists []. split_and!; [done|constructor|by intros ? ?%elem_of_nil|constructor].
Qed.

Lemma size_index_entries l : size (index_entries l) <= length l.
Proof.
  unfold index_entries. induction l as [|e l IH] using rev_ind; [done|].
  rewrite foldl_app, length_app. cbn.
  rewrite map_size_insert. destruct (_ !! _); cbn; lia.
Qed.

Lemma finish_reduction_leaf s last lane r :
  finish_reduction s last lane = Ok r -> lane_leaves s !! lane = Some (ls_leaf_id (lr_lane_state r)).
Proof. unfold finish_reduction. intros Hok. outcome_inv. cbn. done. Qed.

Lemma reduced_branch snapshot ms lane r :
  represents snapshot ms -> reduce_lane_ref snapshot lane = Ok r ->
  exists branch, branch_entries snapshot lane = Ok branch /\
    parent_chain (index_entries (ss_entries snapshot)) (ls_leaf_id (lr_lane_state r)) branch /\
    NoDup (map entry_id branch).
Proof.
  intros Hrep Hr. unfold branch_entries. rewrite Hr. cbn [map_err obind].
  unfold reduce_lane_ref in Hr. rewrite (rep_timeline _ _ Hrep) in Hr. cbn in Hr.
  apply reduce_lane_prefix_state in Hr as (s & Hs & Hfin).
  pose proof (reduce_all_forest _ _ _ Hs) as Hf. pose proof (finish_reduction_leaf _ _ _ _ Hfin) as Hleaf.
  rewrite (rep_entries _ _ Hrep). pose proof (reduced_entries _ _ _ Hs) as He. unfold state_forest in Hf. rewrite He in Hf.
  pose proof (size_index_entries (omap view_entry ms)) as Hsize.
  destruct (forest_rank _ _ Hf) as [rank Hrank].
  destruct (branch_walk_chain _ _ rank Hf (fun i x Hx => proj2 (Hrank i x Hx)) (S (length (omap view_entry ms)))
              (ls_leaf_id (lr_lane_state r)) ∅ []) as (branch & Hw & Hc & _ & Hnd).
  { intros id Hid. rewrite Hid in Hleaf. pose proof (forest_leaf _ _ Hf _ _ Hleaf) as [e Hx].
    split_and!; [by eexists| |by intros ? ?%elem_of_empty]. destruct (Hrank _ _ Hx). lia. }
  exists branch. by rewrite Hw, app_nil_r.
Qed.

(** The branch of a lane the reducer accepts is found: the walk over the parents of its leaf
    ends at a root, it visits each entry once, and neither the cycle nor the missing entry that
    it tests for can occur. *)
Theorem branch_of_reduced_lane snapshot ms lane r :
  represents snapshot ms -> reduce_lane_ref snapshot lane = Ok r ->
  exists branch, branch_entries snapshot lane = Ok branch /\
    parent_chain (index_entries (ss_entries snapshot)) (ls_leaf_id (lr_lane_state r)) branch /\
    NoDup (map entry_id branch).
Proof. apply reduced_branch. Qed.
End branch.

(** ** Order *)

(** A stable sort lists the elements key by key. *)
Definition bucket {A} (key : A -> N) (l : list A) (j : nat) : list A := List.filter (fun x => (key x =? N.of_nat j)%N) l.

Lemma elem_of_buckets {A} (key : A -> N) l a n y :
  y ∈ concat (map (bucket key l) (seq a n)) -> (N.of_nat a <= key y)%N.
Proof.
  rewrite list_elem_of_In, in_concat. intros (b & (j & <- & Hj%in_seq)%in_map_iff & [_ Hy%N.eqb_eq]%filter_In). lia.
Qed.

Lemma insert_by_key_first {A} (key : A -> N) x l :
  (forall y, y ∈ l -> (key x <= key y)%N) -> insert_by_key key x l = x :: l.
Proof. destruct l as [|y l]; cbn; [done|]. intros Hle. rewrite (proj2 (N.leb_le _ _)); [done|]. apply Hle. left. Qed.

Lemma insert_by_key_past {A} (key : A -> N) x l k :
  (forall y, y ∈ l -> (key y < key x)%N) -> insert_by_key key x (l ++ k) = l ++ insert_by_key key x k.
Proof.
  induction l as [|y l IH]; cbn; [done|]. intros Hlt. rewrite (proj2 (N.leb_gt _ _)) by (apply Hlt; left).
  f_equal. apply IH. intros z Hz. apply Hlt. by right.
Qed.

Lemma bucket_cons {A} (key : A -> N) x l j :
  bucket key (x :: l) j = if (key x =? N.of_nat j)%N then x :: bucket key l j else bucket key l j.
Proof. done. Qed.

Lemma buckets_above {A} (key : A -> N) x l a n :
  (key x < N.of_nat a)%N -> map (bucket key (x :: l)) (seq a n) = map (bucket key l) (seq a n).
Proof.
  intros Hlt. apply map_ext_in. intros j Hj%in_seq. rewrite bucket_cons. by rewrite (proj2 (N.eqb_neq _ _)) by lia.
Qed.

Lemma insert_by_key_buckets {A} (key : A -> N) x l n : forall a,
  (N.of_nat a <= key x)%N -> (key x < N.of_nat (a + n))%N ->
  insert_by_key key x (concat (map (bucket key l) (seq a n))) = concat (map (bucket key (x :: l)) (seq a n)).
Proof.
  induction n as [|n IH]; intros a Hle Hlt; [lia|]. cbn [seq map concat]. rewrite bucket_cons.
  destruct (N.eqb_spec (key x) (N.of_nat a)) as [Heq|Hne].
  - rewrite buckets_above by lia. rewrite insert_by_key_first; [done|]. intros y [Hy|Hy]%elem_of_app.
    + apply filter_elem in Hy as [_ Hy%N.eqb_eq]. lia.
    + apply elem_of_buckets in Hy. lia.
  - rewrite insert_by_key_past, IH; [done|lia..|]. intros y [_ Hy%N.eqb_eq]%filter_elem. lia.
Qed.

Lemma sort_by_key_buckets {A} (key : A -> N) l n :
  (forall x, x ∈ l -> (key x < N.of_nat n)%N) ->
  sort_by_key key l = concat (map (bucket key l) (seq 0 n)).
Proof.
  induction l as [|x l IH]; intros Hlt; cbn.
  - clear. induction (seq 0 n); cbn; done.
  - fold (sort_by_key key l). rewrite IH by (intros y Hy; apply Hlt; by right).
    apply insert_by_key_buckets; [lia|]. apply Hlt. left.
Qed.

(** The window of a turn is the longest prefix without a boundary. *)
Abbreviation interior := (fun entry => source_turn_boundary (se_body entry) = false).

Lemma turn_window_prefix rest : rest = turn_window rest ++ drop (length (turn_window rest)) rest.
Proof. induction rest as [|e rest IH]; cbn; [done|]. destruct (source_turn_boundary _); cbn; [done|]. by f_equal. Qed.
Lemma turn_window_interior rest : Forall interior (turn_window rest).
Proof. induction rest as [|e rest IH]; cbn; [constructor|]. destruct (source_turn_boundary _) eqn:Hb; by constructor. Qed.
Lemma turn_window_app rest entry after :
  source_turn_boundary (se_body entry) = true -> turn_window (rest ++ entry :: after) = turn_window rest.
Proof. intros Hb. induction rest as [|e rest IH]; cbn; [by rewrite Hb|]. by rewrite IH. Qed.
Lemma turn_window_length rest : length (turn_window rest) <= length rest.
Proof. rewrite (turn_window_prefix rest) at 2. rewrite length_app. lia. Qed.

Section order.
Implicit Types (branch pre rest window : list StoredEntry) (selected : gset EntryId).

Lemma ordered_from_fuel branch selected : forall f1 f2,
  length branch <= f1 -> length branch <= f2 -> ordered_from f1 branch selected = ordered_from f2 branch selected.
Proof.
  induction branch as [branch IH] using (induction_ltof1 _ (@length _)). unfold ltof in IH.
  destruct branch as [|entry rest]; intros [|f1] [|f2]; cbn; intros H1 H2; try lia; try done.
  assert (ordered_from f1 rest selected = ordered_from f2 rest selected) as Hr by (apply IH; cbn; lia).
  destruct (se_body entry); try (by rewrite Hr). destruct (is_nil _); [by rewrite Hr|].
  do 2 f_equal. apply IH; rewrite ?length_drop; cbn; lia.
Qed.

(** The loop, one round at a time. *)
Lemma source_ordered_cons entry rest selected :
  source_ordered_selected_entries (entry :: rest) selected =
  (if selects selected entry then [entry] else []) ++
  match se_body entry with
  | Model.AssistantMessage assistant =>
      if is_nil (Model.am_tool_calls assistant) then source_ordered_selected_entries rest selected
      else turn_entries (Model.am_tool_calls assistant) selected (turn_window rest)
           ++ source_ordered_selected_entries (drop (length (turn_window rest)) rest) selected
  | _ => source_ordered_selected_entries rest selected
  end.
Proof.
  unfold source_ordered_selected_entries. cbn [length ordered_from].
  destruct (se_body entry); try done. destruct (is_nil _); [done|]. do 2 f_equal. apply ordered_from_fuel; rewrite ?length_drop; lia.
Qed.

Lemma source_ordered_app pre entry rest selected :
  source_turn_boundary (se_body entry) = true ->
  source_ordered_selected_entries (pre ++ entry :: rest) selected =
  source_ordered_selected_entries pre selected ++ source_ordered_selected_entries (entry :: rest) selected.
Proof.
  intros Hb. induction pre as [pre IH] using (induction_ltof1 _ (@length _)). unfold ltof in IH.
  destruct pre as [|e pre]; [done|]. cbn [app]. rewrite !(source_ordered_cons e), turn_window_app by done.
  assert (source_ordered_selected_entries (pre ++ entry :: rest) selected =
          source_ordered_selected_entries pre selected ++ source_ordered_selected_entries (entry :: rest) selected) as Hp
    by (apply IH; cbn; lia).
  destruct (se_body e); try (by rewrite Hp, app_assoc). destruct (is_nil _); [by rewrite Hp, app_assoc|].
  rewrite drop_app_le by apply turn_window_length. rewrite IH by (rewrite length_drop; cbn; lia).
  by rewrite !app_assoc.
Qed.
End order.

(** ** Turns *)

Section turns.
Context `{Blake3} `{Miniserde}.
Implicit Types (branch pre rest window : list StoredEntry) (selected : gset EntryId) (pending : gmap EntryId (gset string)).

Lemma check_all_Ok {A} (f : A -> Outcome HarnessError unit) l : check_all f l = Ok () <-> forall x, x ∈ l -> f x = Ok ().
Proof.
  unfold check_all. induction l as [|x l IH]; cbn; [split; [by intros _ ? ?%elem_of_nil|done]|].
  setoid_rewrite elem_of_cons. destruct (f x) as [[]| |] eqn:Hf; cbn.
  - rewrite IH. naive_solver.
  - split; [done|]. intros Hall. rewrite <-Hf. auto.
  - split; [done|]. intros Hall. rewrite <-Hf. auto.
Qed.

Lemma elem_of_enumerate {A} (l : list A) i x : (i, x) ∈ enumerate l <-> l !! i = Some x.
Proof.
  unfold enumerate. rewrite list_elem_of_lookup. setoid_rewrite list_lookup_imap_Some. split; [by intros (j & y & Hy & [= -> ->])|].
  intros Hx. by exists i, x.
Qed.

(** The results of a call in the window of its turn. *)
Definition call_results window (call : AssistantToolCall) : list StoredEntry :=
  List.filter (fun entry => match result_entry entry with Some result => call_matches result call | None => false end) window.
(** A call has one result, which is selected, or none and its caller is about to answer it. *)
Definition call_paired window selected (pending : gset string) (call : AssistantToolCall) : Prop :=
  (exists result, call_results window call = [result] /\ selects selected result = true) \/
  (call_results window call = [] /\ Model.tc_id call ∈ pending).

Lemma check_calls_Ok branch selected pending i entry calls : forall seen seen',
  ofold (check_call branch selected pending i entry) seen calls = Ok seen' ->
  NoDup (map Model.tc_id calls) /\ (forall call, call ∈ calls -> Model.tc_id call ∉ seen) /\
  Forall (call_paired (turn_window (drop (S i) branch)) selected (default ∅ (pending !! entry_id entry))) calls.
Proof.
  induction calls as [|call calls IH]; intros seen seen'; cbn; [intros _; repeat split; [constructor|by intros ? ?%elem_of_nil|constructor]|].
  intros (seen1 & Hc & (Hnd & Hfresh & Hall)%IH)%obind_Ok_inv. unfold check_call, source_results_for_tool_call in Hc.
  fold (call_results (turn_window (drop (S i) branch)) call) in Hc. destruct (mem _ _) eqn:Hm; [done|]. bool_inv.
  assert (seen1 = {[Model.tc_id call]} ∪ seen /\
    call_paired (turn_window (drop (S i) branch)) selected (default ∅ (pending !! entry_id entry)) call) as [-> Hs].
  { unfold call_paired. destruct (call_results _ _) as [|result [|? ?]]; cbn in Hc.
    - destruct (pending !! entry_id entry) as [ids|]; [|done]. destruct (mem _ ids) eqn:Hp; [|done]. bool_inv.
      injection Hc as <-. eauto.
    - destruct (selects _ _) eqn:Hsel; [|done]. injection Hc as <-. eauto.
    - done. }
  split_and!.
  - constructor; [|done]. intros (c & Hc' & Hin)%list_elem_of_fmap. apply (Hfresh c Hin). rewrite <-Hc'. set_solver.
  - intros c [->|Hin]%elem_of_cons; [done|]. specialize (Hfresh c Hin). set_solver.
  - by constructor.
Qed.

Lemma nearest_assistant_interior window entry a before :
  se_body entry = Model.AssistantMessage a -> Forall interior window ->
  nearest_assistant (window ++ entry :: before) = Some (entry, a).
Proof.
  intros He. induction 1 as [|e window Hb _ IH]; cbn; [by rewrite He|].
  by destruct (se_body e); cbn in Hb |- *; rewrite ?Hb; try done.
Qed.

(** The owner of an entry in the window of an assistant. *)
Lemma source_assistant_in_window pre entry a rest j e :
  se_body entry = Model.AssistantMessage a -> turn_window rest !! j = Some e ->
  source_assistant_for_tool_result (pre ++ entry :: rest) (S (length pre) + j) = Some (entry, a).
Proof.
  intros He Hj. unfold source_assistant_for_tool_result.
  rewrite take_app_ge by lia. replace (S (length pre) + j - length pre) with (S j) by lia. cbn [take].
  rewrite reverse_app, reverse_cons, <-app_assoc. apply nearest_assistant_interior; [done|].
  apply Forall_reverse. rewrite (turn_window_prefix rest), take_app_le.
  - apply Forall_take, turn_window_interior.
  - apply lookup_lt_Some in Hj. lia.
Qed.

Lemma source_index_of calls entry result j call :
  result_entry entry = Some result -> NoDup (map Model.tc_id calls) ->
  calls !! j = Some call -> call_matches result call = true -> source_index calls entry = N.of_nat j.
Proof.
  intros He Hnd Hj Hm. unfold source_index. rewrite He.
  destruct (list_find _ calls) as [[k c]|] eqn:Hf.
  - apply list_find_Some in Hf as (Hk & Hkm & _). f_equal. unfold call_matches in Hm, Hkm. apply andb_true_iff in Hm as [Hm _], Hkm as [Hkm _].
    apply String.eqb_eq in Hm, Hkm. eapply (NoDup_lookup (map Model.tc_id calls)); [done| |].
    + change (map Model.tc_id calls) with (Model.tc_id <$> calls). by rewrite list_lookup_fmap, Hk.
    + change (map Model.tc_id calls) with (Model.tc_id <$> calls). rewrite list_lookup_fmap, Hj. cbn. congruence.
  - apply list_find_None in Hf. rewrite Forall_lookup in Hf. by apply Hf in Hj.
Qed.

Lemma protected_turn pre entry a rest selected pending :
  validate_protected_context (pre ++ entry :: rest) selected pending = Ok () ->
  se_body entry = Model.AssistantMessage a -> selects selected entry = true ->
  NoDup (map Model.tc_id (Model.am_tool_calls a)) /\
  Forall (call_paired (turn_window rest) selected (default ∅ (pending !! entry_id entry))) (Model.am_tool_calls a) /\
  (forall e result, e ∈ turn_window rest -> result_entry e = Some result -> selects selected e = true ->
     exists call, call ∈ Model.am_tool_calls a /\ call_matches result call = true).
Proof.
  unfold validate_protected_context. intros ([] & _ & ([] & Hassistants & Hresults)%obind_Ok_inv)%obind_Ok_inv He Hsel.
  rewrite check_all_Ok in Hresults, Hassistants.
  assert ((pre ++ entry :: rest) !! length pre = Some entry) as Hlook by (by rewrite list_lookup_middle).
  specialize (Hassistants (length pre, entry) (proj2 (elem_of_enumerate _ _ _) Hlook)).
  unfold check_assistant in Hassistants. cbn in Hassistants. rewrite He, Hsel in Hassistants.
  apply obind_Ok_inv in Hassistants as (seen & Hcalls & _). apply check_calls_Ok in Hcalls as (Hnd & _ & Hall).
  rewrite drop_app_ge in Hall by lia. replace (S (length pre) - length pre) with 1 in Hall by lia. cbn [drop] in Hall.
  split_and!; [done..|]. intros e result (j & Hj)%list_elem_of_lookup Hr Hse.
  assert ((pre ++ entry :: rest) !! (S (length pre) + j) = Some e) as Hlk.
  { rewrite lookup_app_r by lia. replace (S (length pre) + j - length pre) with (S j) by lia. cbn.
    rewrite (turn_window_prefix rest). by apply lookup_app_l_Some. }
  specialize (Hresults _ (proj2 (elem_of_enumerate _ _ _) Hlk)). unfold check_result in Hresults. cbn in Hresults.
  rewrite Hr, Hse in Hresults.
  pose proof (source_assistant_in_window pre entry a rest j e He Hj) as Hown. cbn in Hown. rewrite Hown in Hresults.
  destruct (_ =? 1) eqn:Hone in Hresults; [|done]. apply Nat.eqb_eq in Hone.
  destruct (List.filter _ _) as [|call l] eqn:Hf in Hone; [done|]. exists call.
  apply filter_elem. rewrite Hf. left.
Qed.

Definition selected_result selected (entry : StoredEntry) : bool :=
  match result_entry entry with Some _ => selects selected entry | None => false end.

Section turn.
Context (window : list StoredEntry) (selected : gset EntryId) (answerable : gset string) (calls : list AssistantToolCall).
Context (Hnd : NoDup (map Model.tc_id calls)) (Hall : Forall (call_paired window selected answerable) calls).
Context (Howned : forall e result, e ∈ window -> result_entry e = Some result -> selects selected e = true ->
  exists call, call ∈ calls /\ call_matches result call = true).

Lemma result_of_call e result : e ∈ List.filter (selected_result selected) window -> result_entry e = Some result ->
  exists j call, calls !! j = Some call /\ call_matches result call = true /\ source_index calls e = N.of_nat j.
Proof.
  intros [He Hs]%filter_elem Hr. unfold selected_result in Hs. rewrite Hr in Hs.
  destruct (Howned e result) as (call & (j & Hj)%list_elem_of_lookup & Hm); [done..|].
  exists j, call. split_and!; [done..|]. by eapply source_index_of.
Qed.

Lemma bucket_of_call j call : calls !! j = Some call ->
  bucket (source_index calls) (List.filter (selected_result selected) window) j = call_results window call.
Proof.
  intros Hj. unfold bucket, call_results. rewrite filter_filter_and. apply filter_ext_in. intros e He%list_elem_of_In.
  destruct (selected_result selected e) eqn:Hs; unfold selected_result in Hs; destruct (result_entry e) as [result|] eqn:Hr; try done; cbn.
  - destruct (result_of_call e result) as (k & c & Hk & Hm & ->); [apply filter_elem; unfold selected_result; by rewrite Hr|done|].
    destruct (N.eqb_spec (N.of_nat k) (N.of_nat j)) as [->%Nat2N.inj|Hne]; [congruence|].
    destruct (call_matches result call) eqn:Hm'; [|done]. destruct Hne.
    rewrite <-(source_index_of calls e result k c), <-(source_index_of calls e result j call) by done. done.
  - destruct (call_matches result call) eqn:Hm; [|done].
    rewrite Forall_lookup in Hall. assert (e ∈ call_results window call) as Hin by (apply filter_elem; rewrite Hr; done).
    destruct (Hall _ _ Hj) as [(r & Hres & Hsel)|[Hres _]]; rewrite Hres in Hin.
    + apply list_elem_of_singleton in Hin as ->. congruence.
    + by apply elem_of_nil in Hin.
Qed.

Lemma turn_results :
  sort_by_key (source_index calls) (List.filter (selected_result selected) window) = concat (map (call_results window) calls).
Proof.
  rewrite (sort_by_key_buckets _ _ (length calls)).
  - f_equal. apply list_eq. intros j. change (map ?f ?l) with (f <$> l). rewrite !list_lookup_fmap.
    destruct (calls !! j) as [call|] eqn:Hj; cbn.
    + rewrite lookup_seq_lt by (by eapply lookup_lt_Some). cbn. f_equal. by apply bucket_of_call.
    + rewrite lookup_seq_ge by (by apply lookup_ge_None). done.
  - intros e He. pose proof He as [_ Hs]%filter_elem. unfold selected_result in Hs.
    destruct (result_entry e) as [result|] eqn:Hr; [|done].
    destruct (result_of_call e result He Hr) as (j & call & Hj & _ & ->). apply lookup_lt_Some in Hj. lia.
Qed.
End turn.

(** The projection of a protected turn: its assistant, the result of each call in the order of the
    calls, the configuration recorded meanwhile, and then the next turn. *)
Lemma source_ordered_turn pre entry a rest selected pending :
  validate_protected_context (pre ++ entry :: rest) selected pending = Ok () ->
  se_body entry = Model.AssistantMessage a -> selects selected entry = true -> Model.am_tool_calls a <> [] ->
  source_ordered_selected_entries (pre ++ entry :: rest) selected =
  source_ordered_selected_entries pre selected
  ++ entry :: concat (map (call_results (turn_window rest)) (Model.am_tool_calls a))
  ++ List.filter (fun e => is_configuration e && selects selected e) (turn_window rest)
  ++ source_ordered_selected_entries (drop (length (turn_window rest)) rest) selected.
Proof.
  intros Hv He Hsel Hne. destruct (protected_turn _ _ _ _ _ _ Hv He Hsel) as (Hnd & Hall & Hown).
  rewrite source_ordered_app by (by rewrite He). f_equal. rewrite source_ordered_cons, He, Hsel. cbn.
  destruct (Model.am_tool_calls a) as [|c cs] eqn:Hc; [done|]. cbn [is_nil]. f_equal. unfold turn_entries.
  fold (selected_result selected). rewrite (turn_results _ _ _ _ Hnd Hall Hown). by rewrite <-app_assoc.
Qed.
End turns.

(** ** Messages *)

Section derivation.
Context `{Blake3} `{Miniserde}.

(** What a derivation that succeeds has computed. *)
Lemma derive_branch_context_Ok branch lane limits patch pending d :
  derive_branch_context branch lane limits patch pending = Ok d ->
  exists selected messages,
    validate_patch_shape branch patch = Ok () /\ select_entries branch patch = Ok selected /\
    validate_protected_context branch selected (pending_index pending) = Ok () /\
    project_selected_entries branch selected lane = Ok (messages, dc_included_entries d) /\
    dc_messages d = foldl annotate messages (cx_annotations patch) /\
    canonical_context_json_lines (dc_messages d) = Ok (dc_serialized_context d) /\
    dc_serialized_bytes d = utf8_len (dc_serialized_context d) /\
    (dc_serialized_bytes d <= pl_maximum_context_bytes limits)%N /\
    dc_omitted_entries d = omitted branch selected /\ dc_annotations d = cx_annotations patch.
Proof.
  unfold derive_branch_context. intros ([] & Hshape & Hd)%obind_Ok_inv.
  apply obind_Ok_inv in Hd as (selected & Hsel & ([] & Hv & ([messages included] & Hp & (text & Ht & Hd)%obind_Ok_inv)%obind_Ok_inv)%obind_Ok_inv).
  destruct (_ <? _)%N eqn:Hlt; [done|]. apply N.ltb_ge in Hlt. injection Hd as <-. cbn.
  exists selected, messages. done.
Qed.

Lemma annotate_extends annotations : forall messages, exists added, foldl annotate messages annotations = messages ++ added.
Proof.
  induction annotations as [|n l IH]; intros messages; cbn; [exists []; by rewrite app_nil_r|].
  destruct (IH (annotate messages n)) as [added ->]. unfold annotate. eexists. by rewrite <-app_assoc.
Qed.

Lemma project_entry_Ok lane acc entry acc' :
  project_entry lane acc entry = Ok acc' ->
  exists added, message_for_entry entry (next_number acc.1) (bool_decide (se_lane_id entry = lane)) = Ok added /\ acc'.1 = acc.1 ++ added.
Proof.
  destruct acc as [messages included]. cbn. intros (added & Hm & [= <-])%obind_Ok_inv. exists added. split; [done|].
  destruct added; cbn; [by rewrite app_nil_r|done].
Qed.

Lemma project_extends lane l acc acc' : ofold (project_entry lane) acc l = Ok acc' -> exists added, acc'.1 = acc.1 ++ added.
Proof.
  apply (ofold_invariant (fun s => exists added, s.1 = acc.1 ++ added)); [|exists []; by rewrite app_nil_r].
  intros s e s' [a1 H1] (a2 & _ & H2)%project_entry_Ok. exists (a1 ++ a2). by rewrite H2, H1, app_assoc.
Qed.

(** The calls and results of messages and of entries, as the pairs that link them. *)
Abbreviation message_call := (fun call => (tc_id call, tc_name call)).
Abbreviation entry_call := (fun call => (Model.tc_id call, Model.tc_name call)).
Abbreviation result_call := (fun result => (tr_tool_call_id result, tr_tool_name result)).

Lemma call_of_entry_link call c : call_of_entry call = Ok c -> message_call c = entry_call call.
Proof.
  unfold call_of_entry, explain, tool_call_id_new. intros Hok. outcome_inv. cbn.
  destruct (str_is_empty _); [done|]. cbn in *. by simplify_eq.
Qed.

Lemma assistant_message_link id retain a m : assistant_message id retain a = Ok m ->
  exists am, m = Assistant am /\ map message_call (am_tool_calls am) = map entry_call (Model.am_tool_calls a).
Proof.
  unfold assistant_message. intros (calls & Hcalls & Hok)%obind_Ok_inv. outcome_inv. eexists. split; [done|]. cbn.
  apply omap_list_Forall2 in Hcalls. induction Hcalls as [|c k cs ks Hc _ IH]; cbn; [done|].
  rewrite IH. f_equal. by apply call_of_entry_link.
Qed.

Lemma tool_result_message_link id r m : tool_result_message id r = Ok m ->
  exists result, m = ToolResult result /\ result_call result = (Model.tr_tool_call_id r, Model.tr_tool_name r).
Proof.
  unfold tool_result_message, explain, tool_call_id_new. intros Hok. apply obind_Ok_inv in Hok as ([content details] & _ & Hok).
  outcome_inv. eexists. split; [done|]. cbn. destruct (str_is_empty _); [done|]. cbn in *. by simplify_eq.
Qed.

Lemma project_results lane window calls : forall acc acc',
  Forall (fun call => call_results window call = [] \/ exists r, call_results window call = [r]) calls ->
  ofold (project_entry lane) acc (concat (map (call_results window) calls)) = Ok acc' ->
  exists results, acc'.1 = acc.1 ++ map ToolResult results /\
    map result_call results = map entry_call (List.filter (fun call => negb (is_nil (call_results window call))) calls).
Proof.
  induction calls as [|call calls IH]; intros acc acc' Hall; cbn.
  - intros [= <-]. exists []. by rewrite app_nil_r.
  - inversion_clear Hall as [|? ? [Hc|[e Hc]] Htl]; rewrite Hc; cbn.
    + intros (results & ? & ?)%IH; [|done]. by exists results.
    + intros (acc1 & (added & Hm & H1)%project_entry_Ok & (results & H2 & Hr)%IH)%obind_Ok_inv; [|done].
      assert (e ∈ call_results window call) as [_ He]%filter_elem by (rewrite Hc; left).
      unfold message_for_entry in Hm. destruct (result_entry e) as [r|] eqn:Hre; [|done].
      unfold result_entry in Hre. destruct (se_body e); try done. injection Hre as ->.
      apply obind_Ok_inv in Hm as (m & (result & -> & Hl)%tool_result_message_link & [= <-]).
      exists (result :: results). split; [by rewrite H2, H1, <-app_assoc|]. cbn. rewrite Hr. f_equal.
      rewrite Hl. unfold call_matches in He. apply andb_true_iff in He as [He1%String.eqb_eq He2%String.eqb_eq]. congruence.
Qed.

Abbreviation answered := (fun window call => negb (is_nil (call_results window call))).

(** C18: In a derived context the message of a selected assistant is followed at once by the
    results of its calls, one for each call in the order of the calls whatever the order in
    which they settled; a call without a result is one the caller named as pending. *)
Theorem derived_turns_complete pre entry a rest lane limits patch pending selected d :
  derive_branch_context (pre ++ entry :: rest) lane limits patch pending = Ok d ->
  select_entries (pre ++ entry :: rest) patch = Ok selected ->
  se_body entry = Model.AssistantMessage a -> selects selected entry = true -> Model.am_tool_calls a <> [] ->
  exists before assistant results after,
    dc_messages d = before ++ Assistant assistant :: map ToolResult results ++ after /\
    map message_call (am_tool_calls assistant) = map entry_call (Model.am_tool_calls a) /\
    map result_call results = map entry_call (List.filter (answered (turn_window rest)) (Model.am_tool_calls a)) /\
    (forall call, call ∈ Model.am_tool_calls a -> answered (turn_window rest) call = false ->
       Model.tc_id call ∈ default ∅ (pending_index pending !! entry_id entry)).
Proof.
  intros (selected' & messages & _ & Hs & Hv & Hp & Hd & _)%derive_branch_context_Ok Hs' He Hsel Hne. rewrite Hs' in Hs. injection Hs as <-.
  unfold project_selected_entries in Hp. rewrite (source_ordered_turn _ _ _ _ _ _ Hv He Hsel Hne), ofold_app in Hp.
  destruct (protected_turn _ _ _ _ _ _ Hv He Hsel) as (_ & Hall & _).
  apply obind_Ok_inv in Hp as (acc & Hpre & Hp). cbn [ofold] in Hp.
  apply obind_Ok_inv in Hp as (acc1 & (added & Hm & H1)%project_entry_Ok & Hp).
  unfold message_for_entry in Hm. rewrite He in Hm.
  apply obind_Ok_inv in Hm as (m & (assistant & -> & Hcalls)%assistant_message_link & [= <-]).
  rewrite ofold_app in Hp. apply obind_Ok_inv in Hp as (acc2 & Hr & Hp).
  apply project_results in Hr as (results & H2 & Hresults); cycle 1.
  { eapply Forall_impl; [exact Hall|]. intros call [(r & Hr' & _)|[Hr' _]]; eauto. }
  apply project_extends in Hp as [added H3]. destruct (annotate_extends (cx_annotations patch) messages) as [notes Hn].
  exists acc.1, assistant, results, (added ++ notes). split_and!; [|done..|].
  - rewrite Hd, Hn. cbn in H3. rewrite H3, H2, H1. by rewrite <-!app_assoc.
  - intros call Hin Hans. rewrite Forall_forall in Hall.
    destruct (Hall _ Hin) as [(r & Hr' & _)|[_ Hpend]]; [by rewrite Hr' in Hans|done].
Qed.

(** ** No entry is lost *)

Abbreviation visible := (fun entry => is_model_visible (se_body entry)).
Abbreviation shown selected := (fun entry => is_model_visible (se_body entry) && selects selected entry).

Lemma filter_perm {A} (p : A -> bool) l k : l ≡ₚ k -> List.filter p l ≡ₚ List.filter p k.
Proof.
  induction 1 as [|x l k _ IH|x y l|l k m _ IH1 _ IH2]; cbn; [done| | |by etrans].
  - destruct (p x); [by constructor|done].
  - destruct (p x), (p y); try done. constructor.
Qed.

Lemma turn_entries_perm calls selected window : Forall interior window ->
  List.filter visible (turn_entries calls selected window) ≡ₚ List.filter (shown selected) window.
Proof.
  intros Hw. unfold turn_entries. rewrite List.filter_app, (filter_perm _ _ _ (sort_by_key_perm _ _)), !filter_filter_and.
  induction Hw as [|e window Hb _ IH]; cbn; [done|]. unfold result_entry, is_configuration in *.
  destruct (se_body e) eqn:He; cbn in *; try (rewrite IH, ?Hb; done); rewrite ?andb_true_r; destruct (selects selected e);
    try (cbn; rewrite ?Hb; by rewrite IH).
  cbn. rewrite <-Permutation_middle. by constructor.
Qed.

Lemma source_ordered_perm selected branch :
  List.filter visible (source_ordered_selected_entries branch selected) ≡ₚ List.filter (shown selected) branch.
Proof.
  induction branch as [branch IH] using (induction_ltof1 _ (@length _)). unfold ltof in IH.
  destruct branch as [|entry rest]; [done|]. rewrite source_ordered_cons, List.filter_app.
  assert (List.filter (shown selected) (entry :: rest) =
    List.filter visible (if selects selected entry then [entry] else []) ++ List.filter (shown selected) rest) as ->.
  { cbn. destruct (selects selected entry); cbn; rewrite ?andb_true_r, ?andb_false_r; [|done].
    by destruct (is_model_visible _). }
  f_equiv. assert (List.filter visible (source_ordered_selected_entries rest selected) ≡ₚ List.filter (shown selected) rest) as Hr
    by (apply IH; cbn; lia).
  destruct (se_body entry); try done. destruct (is_nil _); [done|].
  rewrite List.filter_app, turn_entries_perm by apply turn_window_interior.
  rewrite IH by (rewrite length_drop; cbn; lia). rewrite <-List.filter_app. by rewrite <-turn_window_prefix.
Qed.

Lemma decode_numbered_length values first : forall index messages,
  decode_numbered values first index = Ok messages -> length messages = length values.
Proof.
  induction values as [|v values IH]; intros index messages; cbn; [by intros [= <-]|].
  intros (m & _ & (ms & Hms & [= <-])%obind_Ok_inv)%obind_Ok_inv. cbn. f_equal. eauto.
Qed.

(** The number of the first message does not change how many there are. *)
Lemma decode_replacement_length replacement n k ms ks :
  decode_compaction_replacement replacement n = Ok ms -> decode_compaction_replacement replacement k = Ok ks ->
  length ms = length ks.
Proof.
  unfold decode_compaction_replacement. intros (o1 & Ho1 & H1)%obind_Ok_inv (o2 & Ho2 & H2)%obind_Ok_inv.
  rewrite Ho1 in Ho2. injection Ho2 as <-. destruct (negb _); [done|].
  apply obind_Ok_inv in H1 as (v1 & Hv1 & (m1 & Hm1 & ([] & _ & [= <-])%obind_Ok_inv)%obind_Ok_inv).
  apply obind_Ok_inv in H2 as (v2 & Hv2 & (m2 & Hm2 & ([] & _ & [= <-])%obind_Ok_inv)%obind_Ok_inv).
  rewrite Hv1 in Hv2. injection Hv2 as <-. apply decode_numbered_length in Hm1, Hm2. congruence.
Qed.

Lemma compaction_messages_nonempty n retain c ms :
  validate_replacement c = Ok () -> compaction_messages n retain c = Ok ms -> is_nil ms = false.
Proof.
  unfold validate_replacement, compaction_messages. destruct (str_is_empty _); [done|]. destruct (ce_replacement c) as [v|]; [|done].
  intros (digest & Hd & Hv)%obind_Ok_inv. rewrite Hd. cbn. destruct (negb _); [done|].
  apply obind_Ok_inv in Hv as (m1 & Hm1 & Hv). intros (m2 & Hm2 & [= <-])%obind_Ok_inv.
  pose proof (decode_replacement_length _ _ _ _ _ Hm1 Hm2) as Hlen. destruct m1; [done|]. destruct m2; [done|]. by destruct retain.
Qed.

(** An entry has messages exactly when it is model-visible. *)
Lemma message_for_entry_visible e n retain added :
  (forall c, se_body e = Model.Compaction c -> validate_replacement c = Ok ()) ->
  message_for_entry e n retain = Ok added -> is_nil added = negb (is_model_visible (se_body e)).
Proof.
  unfold message_for_entry. destruct (se_body e) as [u|a|r|c|b|m|t|cc|hr|pm|cu]; cbn; intros Hc Hm; try (by injection Hm as <-).
  1,2: by apply obind_Ok_inv in Hm as (? & _ & [= <-]).
  - by eapply compaction_messages_nonempty; [by apply Hc|].
  - destruct (bool_decide _); [|by injection Hm as <-]. destruct (pm_content pm); [|done].
    by apply obind_Ok_inv in Hm as (? & _ & [= <-]).
  - destruct (cu_model_visible cu); [done|]. by injection Hm as <-.
Qed.

Lemma project_included lane l : forall acc acc',
  (forall e c, e ∈ l -> se_body e = Model.Compaction c -> validate_replacement c = Ok ()) ->
  ofold (project_entry lane) acc l = Ok acc' -> acc'.2 = acc.2 ++ map entry_id (List.filter visible l).
Proof.
  induction l as [|e l IH]; intros acc acc' Hc; cbn; [intros [= <-]; by rewrite app_nil_r|].
  intros (acc1 & Hp & Hl)%obind_Ok_inv. rewrite (IH acc1 acc') by (done || (intros ???; apply Hc; by right)).
  destruct acc as [ms inc]. cbn in Hp. apply obind_Ok_inv in Hp as (added & Hm & [= <-]).
  apply message_for_entry_visible in Hm; [|intros c; apply Hc; left]. rewrite Hm.
  destruct (is_model_visible (se_body e)); cbn; [by rewrite <-app_assoc|done].
Qed.

Lemma compaction_range_replacement branch i c range :
  compaction_range branch i c = Ok range -> validate_replacement c = Ok ().
Proof. unfold compaction_range, validate_compaction_range. intros ([] & ([] & Hv & _)%obind_Ok_inv & _)%obind_Ok_inv. done. Qed.

Lemma default_visible_validates branch selected :
  default_visible_entries branch = Ok selected ->
  forall e c, e ∈ branch -> se_body e = Model.Compaction c -> validate_replacement c = Ok ().
Proof.
  intros Hd e c (i & Hi)%list_elem_of_lookup Hc.
  eapply (ofold_visits (fun _ ie => forall c, se_body ie.2 = Model.Compaction c -> validate_replacement c = Ok ()) (hide_covered branch))
    with (x := (i, e)); [|done|exact Hd|by apply elem_of_enumerate|exact Hc].
  intros s [k x] s' Hh c' Hx. unfold hide_covered in Hh. cbn in Hh, Hx. rewrite Hx in Hh.
  apply obind_Ok_inv in Hh as (range & Hr & _). by eapply compaction_range_replacement.
Qed.

Lemma ordered_elem selected branch e : e ∈ source_ordered_selected_entries branch selected -> e ∈ branch.
Proof.
  induction branch as [branch IH] using (induction_ltof1 _ (@length _)). unfold ltof in IH.
  destruct branch as [|entry rest]; [done|]. rewrite source_ordered_cons, elem_of_app, elem_of_cons.
  assert (e ∈ source_ordered_selected_entries rest selected -> e ∈ rest) as Hr by (apply IH; cbn; lia).
  intros [Hin|Hin]; [destruct (selects selected entry); set_solver|right]. destruct (se_body entry); auto.
  destruct (is_nil _); [auto|]. apply elem_of_app in Hin as [Hin|Hin].
  - rewrite (turn_window_prefix rest). apply elem_of_app. left. unfold turn_entries in Hin.
    rewrite sort_by_key_perm, elem_of_app, !filter_elem in Hin. tauto.
  - apply IH in Hin; [|rewrite length_drop; cbn; lia]. rewrite (turn_window_prefix rest). apply elem_of_app. by right.
Qed.

(** C19: A derived context accounts for its branch: every model-visible entry is either shown in
    it or reported as omitted, each once, when the patch only omits entries and adds memory. *)
Theorem derived_context_accounts branch lane limits patch pending d :
  derive_branch_context branch lane limits patch pending = Ok d -> cx_retain_entries patch = [] ->
  dc_included_entries d ++ dc_omitted_entries d ≡ₚ map entry_id (List.filter visible branch).
Proof.
  intros (selected & messages & _ & Hs & Hv & Hp & _ & _ & _ & _ & -> & _)%derive_branch_context_Ok Hret.
  unfold select_entries in Hs. rewrite Hret in Hs. cbn in Hs. apply obind_Ok_inv in Hs as (selected0 & Hd & _).
  apply project_included in Hp; [|intros e c He; eapply default_visible_validates; [done|by eapply ordered_elem]].
  cbn in Hp. rewrite Hp. unfold omitted. rewrite <-map_app. apply Permutation_map. rewrite source_ordered_perm. clear.
  induction branch as [|e branch IH]; cbn; [done|]. destruct (is_model_visible (se_body e)); cbn; [|done].
  destruct (selects selected e); cbn; [by constructor|]. rewrite <-Permutation_middle. by constructor.
Qed.

(** ** Compaction and the original task *)

(** A compaction on the branch whose range contains a position. *)
Definition range_covers (branch : list StoredEntry) (ie : nat * StoredEntry) (k : nat) : Prop :=
  exists c start finish, se_body ie.2 = Model.Compaction c /\ compaction_range branch ie.1 c = Ok (Some (start, finish)) /\
    start <= k <= finish.

Lemma elem_of_hidden l : forall (selected : gset EntryId) id,
  id ∈ foldl (fun selected covered => selected ∖ {[entry_id covered]}) selected l <-> id ∈ selected /\ id ∉ map entry_id l.
Proof. induction l as [|e l IH]; intros selected id; cbn; [set_solver|]. rewrite IH. set_solver. Qed.

Lemma elem_of_slice branch start finish k e : NoDup (map entry_id branch) -> branch !! k = Some e ->
  entry_id e ∈ map entry_id (drop start (take (S finish) branch)) <-> start <= k <= finish.
Proof.
  intros Hnd Hk. split.
  - intros (x & Hid & (j & Hj)%list_elem_of_lookup)%list_elem_of_fmap. rewrite lookup_drop in Hj.
    apply lookup_take_Some in Hj as [Hj Hlt].
    assert (k = start + j) as ->; [|lia]. eapply (NoDup_lookup (map entry_id branch)); [done| |];
      change (map entry_id branch) with (entry_id <$> branch); rewrite list_lookup_fmap.
    + by rewrite Hk.
    + rewrite Hj. cbn. by rewrite Hid.
  - intros [Hs Hf]. apply list_elem_of_fmap. exists e. split; [done|]. apply list_elem_of_lookup. exists (k - start).
    rewrite lookup_drop. replace (start + (k - start)) with k by lia. apply lookup_take_Some. split; [done|lia].
Qed.

Lemma hide_covered_exact branch l k e : NoDup (map entry_id branch) -> branch !! k = Some e -> forall selected selected',
  ofold (hide_covered branch) selected l = Ok selected' ->
  entry_id e ∈ selected' <-> entry_id e ∈ selected /\ forall ie, ie ∈ l -> ~ range_covers branch ie k.
Proof.
  intros Hnd Hk. induction l as [|ie l IH]; intros selected selected'; cbn.
  - intros [= <-]. split; [|tauto]. intros He. split; [done|]. by intros ? ?%elem_of_nil.
  - intros (selected1 & Hh & ->%IH)%obind_Ok_inv. setoid_rewrite elem_of_cons.
    assert (entry_id e ∈ selected1 <-> entry_id e ∈ selected /\ ~ range_covers branch ie k) as ->.
    { unfold hide_covered in Hh. unfold range_covers. destruct (se_body ie.2) eqn:Hb; try (injection Hh as <-; naive_solver).
      apply obind_Ok_inv in Hh as ([[start finish]|] & Hr & [= <-]).
      - rewrite elem_of_hidden, elem_of_slice by done. split.
        + intros [Hs Hn]. split; [done|]. intros (c & st & fi & [= <-] & Hr' & Hle). rewrite Hr in Hr'. by simplify_eq.
        + intros [Hs Hn]. split; [done|]. intros Hle. apply Hn. eauto 10.
      - split; [|tauto]. intros Hs. split; [done|]. intros (c & st & fi & [= <-] & Hr' & _). by rewrite Hr in Hr'. }
    naive_solver.
Qed.

(** The default selection is exactly the model-visible entries, memory apart, that no committed compaction
    of the branch covers: a replaced range is hidden and nothing else is. *)
Theorem default_selection_exact branch selected k e :
  default_visible_entries branch = Ok selected -> NoDup (map entry_id branch) -> branch !! k = Some e ->
  selects selected e = true <->
  visible_by_default e = true /\ forall i x, branch !! i = Some x -> ~ range_covers branch (i, x) k.
Proof.
  intros Hd Hnd Hk. unfold selects. rewrite mem_true, (hide_covered_exact _ _ _ _ Hnd Hk _ _ Hd).
  assert (entry_id e ∈ (list_to_set (map entry_id (List.filter visible_by_default branch)) : gset EntryId) <-> visible_by_default e = true) as ->.
  { rewrite elem_of_list_to_set. split.
    - intros (x & Hid & [(j & Hj)%list_elem_of_lookup Hx]%filter_elem)%list_elem_of_fmap.
      assert (k = j) as ->; [|congruence]. eapply (NoDup_lookup (map entry_id branch)); [done| |];
        change (map entry_id branch) with (entry_id <$> branch); rewrite list_lookup_fmap, ?Hk, ?Hj; cbn; by rewrite ?Hid.
    - intros Hv. apply list_elem_of_fmap. exists e. split; [done|]. apply filter_elem. split; [|done]. by eapply list_elem_of_lookup_2. }
  split; intros [Hv Hn]; (split; [done|]).
  - intros i x Hi. apply Hn. by apply elem_of_enumerate.
  - intros [i x] Hi%elem_of_enumerate. by apply Hn.
Qed.

Lemma project_includes lane l acc acc' e :
  (forall c, se_body e = Model.Compaction c -> validate_replacement c = Ok ()) -> is_model_visible (se_body e) = true ->
  ofold (project_entry lane) acc l = Ok acc' -> e ∈ l -> entry_id e ∈ acc'.2.
Proof.
  intros Hc Hv Hp He.
  eapply (ofold_visits (fun s x => x = e -> entry_id e ∈ s.2) (project_entry lane)); [| |exact Hp|exact He|done].
  - intros [ms inc] x s' (added & Hm & [= <-])%obind_Ok_inv ->. apply message_for_entry_visible in Hm; [|done].
    rewrite Hm, Hv. cbn. set_solver.
  - intros [ms inc] x s' y Hin (added & Hm & [= <-])%obind_Ok_inv Hy. specialize (Hin Hy). cbn in Hin.
    destruct (is_nil added); cbn; set_solver.
Qed.

Lemma selected_included branch selected lane messages included e :
  project_selected_entries branch selected lane = Ok (messages, included) -> e ∈ branch -> selects selected e = true ->
  is_model_visible (se_body e) = true -> (forall c, se_body e = Model.Compaction c -> validate_replacement c = Ok ()) ->
  entry_id e ∈ included.
Proof.
  intros Hp He Hsel Hv Hc. eapply (project_includes _ _ _ _ e Hc Hv Hp).
  assert (e ∈ List.filter (shown selected) branch) as Hin by (apply filter_elem; split; [done|]; by rewrite Hv, Hsel).
  rewrite <-source_ordered_perm in Hin. by apply filter_elem in Hin as [? _].
Qed.

Lemma replaced_by_Ok branch selected index : forall l,
  replaced_by branch selected index l = Ok true ->
  exists ie, ie ∈ l /\ selects selected ie.2 = true /\ range_covers branch ie index.
Proof.
  induction l as [|[i e] l IH]; cbn; [done|]. setoid_rewrite elem_of_cons.
  assert (replaced_by branch selected index l = Ok true ->
    exists ie, (ie = (i, e) \/ ie ∈ l) /\ selects selected ie.2 = true /\ range_covers branch ie index) as Hl by naive_solver.
  destruct (se_body e) eqn:Hb; try done. destruct (selects selected e) eqn:Hs; [|done].
  intros ([[start finish]|] & Hr & Hok)%obind_Ok_inv; [|by apply Hl]. destruct (_ && _) eqn:Hle; [|by apply Hl].
  apply andb_true_iff in Hle as [?%Nat.leb_le ?%Nat.leb_le]. exists (i, e). split_and!; [by left|done|].
  exists entry, start, finish. done.
Qed.

(** The original task stays in view: a derived context shows the first user message of its branch, or it shows a
    compaction of the branch whose range contains that message. *)
Theorem derived_context_keeps_task branch lane limits patch pending d user :
  derive_branch_context branch lane limits patch pending = Ok d -> first_user branch = Some user ->
  entry_id user ∈ dc_included_entries d \/
  exists i x k, branch !! i = Some x /\ entry_id x ∈ dc_included_entries d /\ position_of (entry_id user) branch = Some k
    /\ range_covers branch (i, x) k.
Proof.
  intros (selected & messages & _ & Hs & Hv & Hp & _)%derive_branch_context_Ok Hu.
  unfold validate_protected_context in Hv. apply obind_Ok_inv in Hv as ([] & Hv & _). rewrite Hu in Hv.
  pose proof Hu as [Hin Huser]%find_elem. unfold is_user_entry in Huser. destruct (se_body user) eqn:Hb; try done.
  destruct (selects selected user) eqn:Hsel.
  - left. eapply selected_included; [exact Hp|done..|by rewrite Hb|]. intros c Hc. by rewrite Hb in Hc.
  - right. apply obind_Ok_inv in Hv as ([] & Hr & Hv); [|done]. unfold first_user_is_replaced_by_compaction in Hr.
    apply obind_Ok_inv in Hr as (k & Hk%expect_Ok_inv & ([i x] & Hix%elem_of_enumerate & Hx & Hcov)%replaced_by_Ok).
    exists i, x, k. split_and!; [done| |done..]. destruct Hcov as (c & start & finish & Hc & Hrange & _). cbn in Hc, Hx.
    eapply selected_included; [done|by eapply list_elem_of_lookup_2|done|by rewrite Hc|].
    intros c' Hc'. rewrite Hc in Hc'. injection Hc' as <-. by eapply compaction_range_replacement.
Qed.

(** ** Numbers and size *)

(** The messages of an entry are numbered from the given one on. *)
Definition numbered_from (first : N) (l : list AgentMessage) : Prop :=
  forall i m, l !! i = Some m -> message_id m = u64_saturating_add first (N.of_nat i).

Lemma decode_message_number v n m : decode_compaction_replacement_message v n = Ok m -> message_id m = n.
Proof.
  unfold decode_compaction_replacement_message. intros (object & _ & (role & _ & Hok)%obind_Ok_inv)%obind_Ok_inv.
  destruct (String.eqb role "user"); [by outcome_inv|]. destruct (String.eqb role "assistant"); [unfold decode_assistant in Hok; by outcome_inv|].
  destruct (String.eqb role "tool_result"); [unfold decode_result_message in Hok; by outcome_inv|].
  destruct (String.eqb role "system"); by outcome_inv.
Qed.

Lemma decode_numbered_ids values first : forall index messages,
  decode_numbered values first index = Ok messages ->
  forall i m, messages !! i = Some m -> message_id m = u64_saturating_add first (N.of_nat (index + i)).
Proof.
  induction values as [|v values IH]; intros index messages; cbn; [by intros [= <-]|].
  intros (m & Hm%decode_message_number & (ms & Hms & [= <-])%obind_Ok_inv)%obind_Ok_inv [|i] x; cbn.
  - intros [= <-]. by rewrite Nat.add_0_r.
  - intros Hx. rewrite (IH _ _ Hms _ _ Hx). do 2 f_equal. lia.
Qed.

Lemma message_for_entry_numbered e n retain added : (n <= u64_max)%N ->
  message_for_entry e n retain = Ok added -> numbered_from n added.
Proof.
  intros Hn Hm i m Hi.
  assert (forall x, added = [x] -> message_id x = n -> message_id m = u64_saturating_add n (N.of_nat i)) as Hone.
  { intros x -> Hx. apply list_lookup_singleton_Some in Hi as [-> ->]. rewrite Hx. unfold u64_saturating_add. lia. }
  unfold message_for_entry in Hm. destruct (se_body e) as [u|a|r|c|b|mc|t|cc|hr|pm|cu]; try (injection Hm as <-; by apply (Hone _ eq_refl));
    try (by injection Hm as <-).
  - apply obind_Ok_inv in Hm as (x & Hx & [= <-]). apply (Hone _ eq_refl).
    unfold assistant_message in Hx. by outcome_inv.
  - apply obind_Ok_inv in Hm as (x & Hx & [= <-]). apply (Hone _ eq_refl).
    unfold tool_result_message in Hx. apply obind_Ok_inv in Hx as ([? ?] & _ & Hx). by outcome_inv.
  - unfold compaction_messages in Hm. destruct (ce_replacement c); [|done]. apply obind_Ok_inv in Hm as (digest & _ & Hm).
    destruct (negb _); [done|]. apply obind_Ok_inv in Hm as (ms & Hms & [= <-]).
    unfold decode_compaction_replacement in Hms. apply obind_Ok_inv in Hms as (o & _ & Hms). destruct (negb _); [done|].
    apply obind_Ok_inv in Hms as (vs & _ & (l & Hl & ([] & _ & [= <-])%obind_Ok_inv)%obind_Ok_inv).
    assert (exists x, l !! i = Some x /\ message_id m = message_id x) as (x & Hx & ->).
    { destruct retain; [by exists m|]. change (map clear_opaque l) with (clear_opaque <$> l) in Hi.
      rewrite list_lookup_fmap in Hi. destruct (l !! i) as [x|]; [|done]. injection Hi as <-. exists x. by destruct x. }
    by apply (decode_numbered_ids _ _ _ _ Hl).
  - destruct (bool_decide _); [|by injection Hm as <-]. destruct (pm_content pm); [|done].
    apply obind_Ok_inv in Hm as (x & _ & [= <-]). by apply (Hone _ eq_refl).
  - destruct (cu_model_visible cu); [done|]. by injection Hm as <-.
Qed.

Lemma numbered_app l added : numbered_from 1 l -> numbered_from (next_number l) added ->
  (N.of_nat (length l) < u64_max)%N -> numbered_from 1 (l ++ added).
Proof.
  intros Hl Ha Hlen i m [Hi|[Hge Hi]]%lookup_app_Some; [by apply Hl|]. rewrite (Ha _ _ Hi).
  unfold next_number, u64_saturating_add. lia.
Qed.

Abbreviation numbered := (fun l => (N.of_nat (length l) <= u64_max)%N -> numbered_from 1 l).

Lemma numbered_extend l added : numbered l ->
  ((next_number l <= u64_max)%N -> numbered_from (next_number l) added) -> numbered (l ++ added).
Proof.
  intros Hl Ha Hlen. rewrite length_app in Hlen. destruct added as [|m added]; [rewrite app_nil_r; apply Hl; lia|].
  cbn in Hlen. apply numbered_app; [apply Hl; lia|apply Ha; unfold next_number; lia|lia].
Qed.

Lemma project_numbered lane l acc acc' : numbered acc.1 -> ofold (project_entry lane) acc l = Ok acc' -> numbered acc'.1.
Proof.
  intros H1 Hp. refine (ofold_invariant (fun s => numbered s.1) _ _ _ _ _ H1 Hp). intros s e s' Hs (added & Hm & Hs')%project_entry_Ok.
  rewrite Hs'. apply numbered_extend; [done|]. intros Hn. by eapply message_for_entry_numbered.
Qed.

Lemma annotate_numbered annotations : forall l, numbered l -> numbered (foldl annotate l annotations).
Proof.
  induction annotations as [|n annotations IH]; intros l Hl; cbn; [done|]. apply IH. apply numbered_extend; [done|].
  intros Hn i m [-> <-]%list_lookup_singleton_Some. cbn. unfold u64_saturating_add. lia.
Qed.

(** The messages of a derived context are numbered from one without a gap, and its canonical lines, which the
    context carries, are no longer than the limit of the provider. *)
Theorem derived_context_bounded branch lane limits patch pending d :
  derive_branch_context branch lane limits patch pending = Ok d -> (N.of_nat (length (dc_messages d)) <= u64_max)%N ->
  (forall i m, dc_messages d !! i = Some m -> message_id m = (N.of_nat i + 1)%N) /\
  canonical_context_json_lines (dc_messages d) = Ok (dc_serialized_context d) /\
  (utf8_len (dc_serialized_context d) <= pl_maximum_context_bytes limits)%N.
Proof.
  intros (selected & messages & _ & _ & _ & Hp & Hd & Hlines & Hbytes & Hle & _)%derive_branch_context_Ok Hlen.
  split_and!; [|done|by rewrite <-Hbytes]. intros i m Hi. rewrite Hd in *.
  assert (numbered messages) as Hn by exact (project_numbered _ _ ([], []) _ ltac:(by intros _ j x) Hp).
  rewrite (annotate_numbered (cx_annotations patch) messages Hn Hlen i m Hi).
  apply lookup_lt_Some in Hi. unfold u64_saturating_add. lia.
Qed.

(** ** Private material *)

(** The continuation and reasoning bytes a provider keeps for itself. *)
Definition block_material (block : AssistantContent) : list OpaqueItem :=
  match block with Text _ => [] | Thinking _ signature => option_list signature | RedactedThinking data => [data] end.
Definition private_material (m : AgentMessage) : list OpaqueItem :=
  match m with Assistant a => am_opaque_context a ++ (am_content a ≫= block_material) | _ => [] end.

Lemma content_without_material content blocks :
  assistant_content_from_entry content false = Ok blocks -> blocks ≫= block_material = [].
Proof.
  unfold assistant_content_from_entry. intros (groups & Hg & [= <-])%obind_Ok_inv. apply omap_list_Forall2 in Hg.
  induction Hg as [|block group content groups Hb _ IH]; cbn; [done|]. rewrite bind_app, IH, app_nil_r.
  destruct block; cbn in Hb; injection Hb as <-; done.
Qed.

Lemma entry_without_material e n added :
  message_for_entry e n false = Ok added -> (forall c, se_body e <> Model.Compaction c) ->
  Forall (fun m => private_material m = []) added.
Proof.
  intros Hm Hc. unfold message_for_entry in Hm.
  destruct (se_body e) as [u|a|r|c|b|mc|t|cc|hr|pm|cu]; try (injection Hm as <-; by repeat constructor).
  - apply obind_Ok_inv in Hm as (x & Hx & [= <-]). constructor; [|constructor].
    unfold assistant_message in Hx. outcome_inv. cbn. by eapply content_without_material.
  - apply obind_Ok_inv in Hm as (x & Hx & [= <-]). constructor; [|constructor].
    apply tool_result_message_link in Hx as (result & -> & _). done.
  - by destruct (Hc c).
  - destruct (bool_decide _); [|injection Hm as <-; constructor]. destruct (pm_content pm); [|done].
    apply obind_Ok_inv in Hm as (x & _ & [= <-]). by repeat constructor.
  - destruct (cu_model_visible cu); [done|]. injection Hm as <-. constructor.
Qed.

Lemma annotate_private annotations : forall l,
  Forall (fun m => private_material m = []) l -> Forall (fun m => private_material m = []) (foldl annotate l annotations).
Proof.
  induction annotations as [|n annotations IH]; intros l Hl; cbn; [done|]. apply IH, Forall_app. split; [done|]. by repeat constructor.
Qed.

(** Entries of other lanes give a lane none of their private material: neither continuation items nor the
    signatures and redacted blocks of their reasoning, as long as no compaction is among them. *)
Theorem foreign_entries_private branch lane limits patch pending d :
  derive_branch_context branch lane limits patch pending = Ok d ->
  Forall (fun e => se_lane_id e <> lane /\ forall c, se_body e <> Model.Compaction c) branch ->
  Forall (fun m => private_material m = []) (dc_messages d).
Proof.
  intros (selected & messages & _ & _ & _ & Hp & -> & _)%derive_branch_context_Ok Hall. apply annotate_private.
  unfold project_selected_entries in Hp. change messages with (messages, dc_included_entries d).1.
  eapply (ofold_invariant_in (fun s => Forall (fun m => private_material m = []) s.1) (project_entry lane)); [| |exact Hp]; [|constructor].
  intros s e s' He%ordered_elem Hs (added & Hm & ->)%project_entry_Ok. apply Forall_app. split; [done|].
  rewrite Forall_forall in Hall. destruct (Hall _ He) as [Hlane Hc]. rewrite bool_decide_false in Hm by done.
  by eapply entry_without_material.
Qed.

(** A compaction of the main lane whose replacement keeps one signed reasoning block. *)
Definition signed_reasoning : AgentMessage :=
  Assistant (mk_assistant 1 [Thinking "plan" (Some (mk_opaque_item "p" "signature" None "secret"))] [] (Some Stop) None [] None).
Definition signed_replacement : JsonValue :=
  match encode_compaction_replacement [signed_reasoning] with Ok v => v | _ => JsonNull end.
Definition signed_body : CompactionEntry :=
  mk_compaction None None None "summary" "s" None None (PayloadInline signed_replacement)
    (match compaction_replacement_digest signed_replacement with Ok d => d | _ => digest_zero end) None.
Definition signed_compaction : StoredEntry :=
  mk_stored_entry lane_main (mk_entry_header (mk_id "c") None 1%N 0%N) (Model.Compaction signed_body).

Lemma signed_digest : compaction_replacement_digest signed_replacement = Ok (ce_replacement_digest signed_body).
Proof. reflexivity. Qed.

Lemma signed_body_valid : validate_replacement signed_body = Ok ().
Proof.
  unfold validate_replacement. cbn [ce_summary ce_replacement signed_body]. rewrite signed_digest. cbn [obind str_is_empty].
  rewrite bool_decide_true by done. reflexivity.
Qed.

Lemma signed_compaction_message : message_for_entry signed_compaction 1%N false = Ok [signed_reasoning].
Proof.
  unfold message_for_entry, compaction_messages. cbn [se_body signed_compaction signed_body ce_replacement].
  fold signed_body. rewrite signed_digest. cbn [obind]. rewrite bool_decide_true by done. reflexivity.
Qed.

Lemma signed_compaction_selected : default_visible_entries [signed_compaction] = Ok {[entry_id signed_compaction]}.
Proof.
  unfold default_visible_entries. cbn [enumerate imap ofold]. unfold hide_covered, compaction_range, validate_compaction_range.
  cbn [se_body signed_compaction fst snd]. rewrite signed_body_valid. reflexivity.
Qed.

End derivation.

(** ** Panic freedom *)

Definition panic_free {E A} (m : Outcome E A) : Prop := forall r, m <> Panic r.

Section quiet_facts.
Context {E A B : Type}.
Lemma quiet_Ok (a : A) : panic_free (@Ok E A a).
Proof. by intros r. Qed.
Lemma quiet_Err (e : E) : panic_free (@Err E A e).
Proof. by intros r. Qed.
Lemma quiet_ok_or (o : option A) (e : E) : panic_free (ok_or o e).
Proof. intros r. apply ok_or_no_panic. Qed.
Lemma quiet_obind (m : Outcome E A) (k : A -> Outcome E B) : panic_free m -> (forall a, m = Ok a -> panic_free (k a)) -> panic_free (obind m k).
Proof. intros Hm Hk r. destruct m as [a|e|r']; cbn; [by apply Hk|done|by destruct (Hm r')]. Qed.
Lemma quiet_map_err {F} (f : E -> F) (m : Outcome E A) : panic_free m -> panic_free (map_err f m).
Proof. intros Hm r Hp%map_err_Panic_inv. by apply (Hm r). Qed.
Lemma quiet_omap_list (f : A -> Outcome E B) l : (forall x, panic_free (f x)) -> panic_free (omap_list f l).
Proof. intros Hf r. apply omap_list_no_panic, Forall_forall. intros x _. apply Hf. Qed.
Lemma quiet_ofold {S} (f : S -> A -> Outcome E S) s l : (forall s x, panic_free (f s x)) -> panic_free (ofold f s l).
Proof. intros Hf r. apply ofold_unit_no_panic. intros s' x. apply Hf. Qed.
End quiet_facts.

Lemma quiet_otraverse {E A B} (f : A -> Outcome E B) o : (forall x, panic_free (f x)) -> panic_free (otraverse f o).
Proof. intros Hf. destruct o; cbn; [|apply quiet_Ok]. apply quiet_obind; [done|]. intros. apply quiet_Ok. Qed.

Create HintDb panic_free discriminated.
#[local] Hint Resolve quiet_Ok quiet_Err quiet_ok_or : panic_free.
#[local] Hint Constants Opaque : panic_free.

(** A computation without [expect] has nothing to panic with. *)
Ltac quiet_step :=
  match goal with
  | |- panic_free (obind _ _) => apply quiet_obind; [|intros ? ?]
  | |- panic_free (map_err _ _) => apply quiet_map_err
  | |- panic_free (explain _ _) => apply quiet_map_err
  | |- panic_free (invalid_state _) => apply quiet_Err
  | |- panic_free (omap_list _ _) => apply quiet_omap_list; intros ?
  | |- panic_free (ofold _ _ _) => apply quiet_ofold; intros ? ?
  | |- panic_free (otraverse _ _) => apply quiet_otraverse; intros ?
  | |- panic_free (if ?b then _ else _) => destruct b
  | |- panic_free (match ?x with _ => _ end) => destruct x eqn:?
  | |- panic_free (_ _) => solve [auto with panic_free nocore]
  end.
Ltac quiet_auto := cbn zeta; repeat quiet_step.

Section panic.
Context `{Blake3} `{Miniserde}.

Lemma quiet_to_json_string v : panic_free (to_json_string v).
Proof. intros r. apply to_json_string_no_panic. Qed.
Lemma quiet_json_parse text : panic_free (json_parse text).
Proof. unfold json_parse. quiet_auto. intros r. apply from_miniserde_no_panic. Qed.
#[local] Hint Resolve quiet_to_json_string quiet_json_parse : panic_free.

Lemma quiet_opaque_item_new provider kind item_id payload : panic_free (opaque_item_new provider kind item_id payload).
Proof. unfold opaque_item_new, refuse_if. quiet_auto. Qed.
Lemma quiet_update_validate u : panic_free (update_validate u).
Proof. unfold update_validate. quiet_auto; unfold insert_section, insert_tool, validate_section_id; quiet_auto. Qed.
#[local] Hint Resolve quiet_opaque_item_new quiet_update_validate : panic_free.
Lemma quiet_configuration_update v : panic_free (configuration_update_from_json v).
Proof.
  unfold configuration_update_from_json, update_array, section_change_from_json, tool_declaration_from_json, removed_name_from_json, update_string.
  quiet_auto.
Qed.
Lemma quiet_validate_messages l : panic_free (validate_messages l).
Proof.
  unfold validate_messages, validate_message, insert_call, accept_result, invalid. quiet_auto.
  exfalso. by eapply quiet_update_validate.
Qed.
#[local] Hint Resolve quiet_configuration_update quiet_validate_messages : panic_free.

Lemma quiet_fields object field :
  panic_free (required_compaction_value object field) /\ panic_free (required_compaction_string object field) /\
  panic_free (optional_compaction_string object field) /\ panic_free (required_compaction_array object field) /\
  panic_free (required_compaction_bool object field) /\ panic_free (optional_compaction_u64 object field).
Proof.
  split_and!; unfold required_compaction_string, optional_compaction_string, required_compaction_array, required_compaction_bool,
    optional_compaction_u64, required_compaction_value; quiet_auto.
Qed.
Lemma quiet_parse_stop_reason text : panic_free (parse_stop_reason text).
Proof. unfold parse_stop_reason. quiet_auto. Qed.
#[local] Hint Resolve quiet_parse_stop_reason : panic_free.
#[local] Hint Extern 1 (panic_free (required_compaction_value _ _)) => apply quiet_fields : panic_free.
#[local] Hint Extern 1 (panic_free (required_compaction_string _ _)) => apply quiet_fields : panic_free.
#[local] Hint Extern 1 (panic_free (optional_compaction_string _ _)) => apply quiet_fields : panic_free.
#[local] Hint Extern 1 (panic_free (required_compaction_array _ _)) => apply quiet_fields : panic_free.
#[local] Hint Extern 1 (panic_free (required_compaction_bool _ _)) => apply quiet_fields : panic_free.
#[local] Hint Extern 1 (panic_free (optional_compaction_u64 _ _)) => apply quiet_fields : panic_free.

Lemma quiet_decode_message value n : panic_free (decode_compaction_replacement_message value n).
Proof.
  unfold decode_compaction_replacement_message, decode_assistant, decode_result_message, decode_call, decode_continuation,
    decode_assistant_blocks, decode_block, decode_material, decode_origin, decode_compaction_usage, decode_added_name, tool_call_id_new, encode_text.
  quiet_auto.
Qed.
Lemma quiet_decode_numbered values first : forall index, panic_free (decode_numbered values first index).
Proof. induction values as [|v values IH]; intros index; cbn; quiet_auto. apply quiet_decode_message. Qed.
Lemma quiet_decode_replacement v n : panic_free (decode_compaction_replacement v n).
Proof. unfold decode_compaction_replacement. quiet_auto. apply quiet_decode_numbered. Qed.
Lemma quiet_replacement_digest v : panic_free (compaction_replacement_digest v).
Proof. unfold compaction_replacement_digest. quiet_auto. Qed.
#[local] Hint Resolve quiet_decode_replacement quiet_replacement_digest : panic_free.
Lemma quiet_context_lines l : panic_free (canonical_context_json_lines l).
Proof.
  unfold canonical_context_json_lines, canonical_message_json, context_message_json, call_json, details_json, encode_text. quiet_auto.
Qed.
#[local] Hint Resolve quiet_context_lines : panic_free.

(** The [expect]s of a compaction range follow its validation. *)
Lemma quiet_compaction_range branch i c : panic_free (compaction_range branch i c).
Proof.
  unfold compaction_range. apply quiet_obind.
  - unfold validate_compaction_range, validate_replacement. quiet_auto.
  - intros [] Hv. unfold validate_compaction_range in Hv. apply obind_Ok_inv in Hv as ([] & _ & Hv).
    destruct (ce_covered_from c) as [start|], (ce_covered_to c) as [finish|]; try done; cbn.
    outcome_inv. rewrite Hok, Hok1. cbn. apply quiet_Ok.
Qed.
#[local] Hint Resolve quiet_compaction_range : panic_free.

Lemma quiet_default_visible branch : panic_free (default_visible_entries branch).
Proof. unfold default_visible_entries, hide_covered. quiet_auto. Qed.
#[local] Hint Resolve quiet_default_visible : panic_free.

Lemma quiet_project branch selected lane : panic_free (project_selected_entries branch selected lane).
Proof.
  unfold project_selected_entries. apply quiet_ofold. intros [messages included] e. unfold project_entry, message_for_entry, compaction_messages,
    assistant_message, tool_result_message, tool_projection_content, validate_recovery_locator, projection_added_tool_names, call_of_entry,
    assistant_content_from_entry, block_of_entry, opaque_of_entry, tool_call_id_new, encode_text. quiet_auto.
Qed.
#[local] Hint Resolve quiet_project : panic_free.

Lemma position_of_elem branch e : e ∈ branch -> exists k, position_of (entry_id e) branch = Some k.
Proof.
  intros He. unfold position_of. destruct (list_find_elem_of (fun x => entry_id x = entry_id e) branch e He eq_refl) as [[k x] ->]. by exists k.
Qed.

Lemma quiet_replaced_by branch selected index l : panic_free (replaced_by branch selected index l).
Proof. induction l as [|[i e] l IH]; cbn; quiet_auto. Qed.
Lemma quiet_protected branch selected pending : panic_free (validate_protected_context branch selected pending).
Proof.
  unfold validate_protected_context. apply quiet_obind.
  - destruct (first_user branch) as [user|] eqn:Hu; [|apply quiet_Ok]. destruct (selects selected user); [apply quiet_Ok|].
    apply find_elem in Hu as [[k Hk]%position_of_elem _].
    unfold first_user_is_replaced_by_compaction. rewrite Hk. cbn [expect obind]. quiet_auto. apply quiet_replaced_by.
  - intros [] _. unfold check_all, check_assistant, check_call, check_result. quiet_auto.
Qed.

Lemma checked_known known surface ids : forall unique unique',
  ofold (check_patch_id known surface) unique ids = Ok unique' -> forall id, id ∈ ids -> id ∈ known.
Proof.
  intros unique unique' Hok id Hid. revert unique Hok. induction Hid as [id ids|id x ids _ IH]; intros unique; cbn;
    intros (u & Hc & Hok)%obind_Ok_inv; [|by eapply IH]. unfold check_patch_id in Hc.
  destruct (mem id known) eqn:Hm; [by bool_inv|done].
Qed.

Lemma index_entries_elem id branch : id ∈ map entry_id branch -> exists e, index_entries branch !! id = Some e.
Proof.
  unfold index_entries. induction branch as [|x branch IH] using rev_ind; [by intros ?%elem_of_nil|].
  rewrite map_app, foldl_app, elem_of_app. cbn. rewrite list_elem_of_singleton, lookup_insert.
  case_decide; [by eexists|]. intros [Hid|Hid]; [by apply IH|by destruct H1].
Qed.

Lemma quiet_over branch {S} (f : S -> EntryId -> Outcome HarnessError S) s ids :
  (forall s id, (exists e, index_entries branch !! id = Some e) -> panic_free (f s id)) ->
  (forall id, id ∈ ids -> id ∈ (list_to_set (map entry_id branch) : gset EntryId)) -> panic_free (ofold f s ids).
Proof.
  intros Hf Hids r. apply (ofold_no_panic_in (fun _ => True)); [done| |done]. intros s' id r' Hid _. apply Hf.
  apply index_entries_elem. specialize (Hids _ Hid). by apply elem_of_list_to_set in Hids.
Qed.

Lemma quiet_select branch patch : validate_patch_shape branch patch = Ok () -> panic_free (select_entries branch patch).
Proof.
  unfold validate_patch_shape. intros (u1 & Hr & (u2 & Ho & (u3 & Hm & _)%obind_Ok_inv)%obind_Ok_inv)%obind_Ok_inv.
  unfold select_entries. apply quiet_obind; [destruct (is_nil _); [apply quiet_default_visible|]|intros selected _; apply quiet_obind; [|intros selected' _]];
    (eapply (quiet_over branch); [|by eapply checked_known]); intros s' id [e He];
    unfold retain_entry, omit_entry, select_memory; rewrite He; cbn [expect obind]; quiet_auto.
Qed.

Lemma quiet_derive_branch branch lane limits patch pending : panic_free (derive_branch_context branch lane limits patch pending).
Proof.
  unfold derive_branch_context. apply quiet_obind.
  - unfold validate_patch_shape, check_patch_id, check_annotation. quiet_auto.
  - intros [] Hshape. apply quiet_obind; [by apply quiet_select|]. intros selected _. apply quiet_obind; [apply quiet_protected|].
    intros [] _. quiet_auto.
Qed.

Lemma quiet_policy_input branch : panic_free (policy_context_input branch).
Proof.
  unfold policy_context_input. destruct (first_user branch) as [user|] eqn:Hu; cbn; [|apply quiet_Ok].
  quiet_auto. apply find_elem in Hu as [Hin _]. apply find_none with (x := user) in Heqo; [|by apply list_elem_of_In].
  by rewrite bool_decide_true in Heqo.
Qed.
Lemma quiet_derive_patch policies branch : panic_free (derive_patch policies branch).
Proof.
  unfold derive_patch. destruct (is_nil policies); [apply quiet_Ok|]. apply quiet_obind; [apply quiet_policy_input|]. intros input _.
  unfold apply_policy, narrow_retain, add_annotation, agree_strategy, parse_context_entry_id, id_new, validate_id. quiet_auto.
Qed.

Lemma quiet_branch_entries snapshot ms lane :
  represents snapshot ms -> Forall (fun m => costs_ok (smu_mutation m)) ms -> panic_free (branch_entries snapshot lane).
Proof.
  intros Hrep Hc. destruct (reduce_lane_ref snapshot lane) as [reduction|e|reason] eqn:Hr.
  - destruct (reduced_branch _ _ _ _ Hrep Hr) as (branch & -> & _). apply quiet_Ok.
  - unfold branch_entries. rewrite Hr. by intros r.
  - exfalso. unfold reduce_lane_ref in Hr. rewrite (rep_timeline _ _ Hrep) in Hr. cbn in Hr.
    destruct (reduce_fold_safe _ _ (initial_safe (ss_header snapshot)) Hc) as [Hnp Hsafe].
    apply obind_Panic_inv in Hr as [Hr|(s & Hs & Hr)]; [by eapply Hnp|].
    by eapply finish_reduction_no_panic; [apply Hsafe|].
Qed.

(** C20: Deriving a context always returns a context or an error: from a session whose cost
    texts are decimal, under any policies and pending calls, no expect of the projection fails
    and the walk over the parents ends. *)
Theorem derive_context_returns snapshot ms lane limits policies pending r :
  represents snapshot ms -> Forall (fun m => costs_ok (smu_mutation m)) ms ->
  derive_snapshot_context_with_policies snapshot lane limits policies pending <> Panic r.
Proof.
  intros Hrep Hc. revert r. change (panic_free (derive_snapshot_context_with_policies snapshot lane limits policies pending)).
  pose proof (quiet_branch_entries _ _ lane Hrep Hc) as Hb. unfold derive_snapshot_context_with_policies, derive_snapshot_context_with_patch.
  apply quiet_obind; [done|]. intros branch _. apply quiet_obind; [apply quiet_derive_patch|]. intros patch _.
  apply quiet_obind; [done|]. intros branch' _. apply quiet_derive_branch.
Qed.
End panic.

(** ** A branch with a parallel batch

    Two calls whose results were appended in the order they settled. *)

#[local] Existing Instance toy_blake3.
#[local] Instance braces_codec : Miniserde := {| mini_to_string _ := "{}"; mini_from_str _ := Some (MiniObject []) |}.

Definition branch_entry (seq : N) (id : string) (parent : option EntryId) (body : SessionEntry) : StoredEntry :=
  mk_stored_entry lane_main (mk_entry_header (mk_id id) parent seq 0%N) body.
Definition settled_result (call : string) : SessionEntry :=
  Model.ToolResult
    (mk_tool_result call "read" (PayloadInline JsonNull) (json_object [("content", JsonString call)]) false false usage_default "p" (mk_id "keep")).
Definition batch_turn : AssistantMessageEntry :=
  mk_assistant_message [ContentText "reading"] [mk_tool_call "a" "read" (json_object []); mk_tool_call "b" "read" (json_object [])]
    (Some "tool_use") None [] None [].
Definition before_batch : list StoredEntry := [branch_entry 1 "u" None (UserMessage (mk_user_message "task" []))].
Definition batch_entry : StoredEntry := branch_entry 2 "t" (Some (mk_id "u")) (Model.AssistantMessage batch_turn).
Definition after_batch : list StoredEntry :=
  [branch_entry 3 "rb" (Some (mk_id "t")) (settled_result "b"); branch_entry 4 "ra" (Some (mk_id "rb")) (settled_result "a")].
Definition batch_branch : list StoredEntry := before_batch ++ batch_entry :: after_batch.
Definition batch_limits : ProviderLimits := mk_limits 1000.
Definition batch_context : DerivedContext :=
  match derive_branch_context batch_branch lane_main batch_limits patch_default None with
  | Ok d => d
  | _ => mk_derived [] [] [] [] 0 EmptyString
  end.
Definition batch_selected : gset EntryId :=
  match select_entries batch_branch patch_default with Ok selected => selected | _ => ∅ end.
Lemma batch_derived : derive_branch_context batch_branch lane_main batch_limits patch_default None = Ok batch_context.
Proof. vm_compute. reflexivity. Qed.

Lemma derived_turns_complete_witness :
  exists before assistant results after,
    dc_messages batch_context = before ++ Assistant assistant :: map ToolResult results ++ after /\
    map (fun call => (tc_id call, tc_name call)) (am_tool_calls assistant) = [("a", "read"); ("b", "read")] /\
    map (fun result => (tr_tool_call_id result, tr_tool_name result)) results = [("a", "read"); ("b", "read")].
Proof.
  destruct (derived_turns_complete before_batch batch_entry batch_turn after_batch lane_main batch_limits patch_default None batch_selected
              batch_context) as (before & assistant & results & after & Hm & Hc & Hr & _);
    [exact batch_derived|vm_compute; reflexivity|reflexivity|vm_compute; reflexivity|discriminate|].
  exists before, assistant, results, after. split; [exact Hm|]. split; [rewrite Hc|rewrite Hr]; vm_compute; reflexivity.
Defined.

Lemma derived_context_accounts_witness :
  dc_included_entries batch_context ++ dc_omitted_entries batch_context
  ≡ₚ map (fun entry => eh_id (se_header entry)) (List.filter (fun entry => is_model_visible (se_body entry)) batch_branch).
Proof. apply (derived_context_accounts batch_branch lane_main batch_limits patch_default None); [exact batch_derived|reflexivity]. Defined.

Definition opening_commit : StoredCommit := mk_stored_commit 1%N 0%N digest_zero digest_zero (take 1 turn_open).
Lemma derive_context_returns_witness :
  derive_snapshot_context_with_policies (push_commit (snapshot_empty header) opening_commit) lane_main batch_limits [] None
  <> Panic "shape validation checked entry ID".
Proof.
  apply (derive_context_returns _ ([] ++ map (restamp opening_commit) (sc_items opening_commit))).
  - apply represents_push_commit, represents_empty.
  - repeat constructor.
Defined.
