(* ===== verification/AnthropicSse.v ===== *)
(** * tea-providers: the event text of the Anthropic adapter
    ([crates/tea-providers/src/anthropic/sse.rs])

    Bytes arrive in chunks of any shape; the decoder cuts them into lines and
    the lines into events.  Decoding does not depend on the chunks, and every
    event written with one of the three line endings is read back.  Malformed
    string literals of the payloads are repaired once. *)

From Stdlib Require Import Ascii.
From stdpp Require Import base sets list strings.
From S2P Require Import Prelude RustStr Json Ids SessionErrors Configuration Messages CoreState.

Local Open Scope N_scope.

(** ** [String::from_utf8_lossy]

    Every maximal invalid prefix becomes one U+FFFD. *)
Definition replacement_character : list N := [239; 191; 189].
Fixpoint utf8_lossy (bytes : list N) : list N :=
  match bytes with
  | [] => []
  | first :: l =>
      if first <? 128 then first :: utf8_lossy l
      else if in_range 194 223 first then
        match l with
        | [] => replacement_character
        | b1 :: l1 => if is_continuation b1 then first :: b1 :: utf8_lossy l1 else replacement_character ++ utf8_lossy l
        end
      else if in_range 224 239 first then
        match l with
        | [] => replacement_character
        | b1 :: l1 =>
            if second_of_three first b1 then
              match l1 with
              | [] => replacement_character
              | b2 :: l2 =>
                  if is_continuation b2 then first :: b1 :: b2 :: utf8_lossy l2 else replacement_character ++ utf8_lossy l1
              end
            else replacement_character ++ utf8_lossy l
        end
      else if in_range 240 244 first then
        match l with
        | [] => replacement_character
        | b1 :: l1 =>
            if second_of_four first b1 then
              match l1 with
              | [] => replacement_character
              | b2 :: l2 =>
                  if is_continuation b2 then
                    match l2 with
                    | [] => replacement_character
                    | b3 :: l3 =>
                        if is_continuation b3 then first :: b1 :: b2 :: b3 :: utf8_lossy l3
                        else replacement_character ++ utf8_lossy l2
                    end
                  else replacement_character ++ utf8_lossy l1
              end
            else replacement_character ++ utf8_lossy l
        end
      else replacement_character ++ utf8_lossy l
  end.
Definition from_utf8_lossy (bytes : list N) : string := string_of_bytes (utf8_lossy bytes).

(** ** The decoder *)

Record ServerSentEvent := mk_sse { sse_event : option string; sse_data : string }.
Record SseDecoder := mk_decoder {
  sd_buffer : list N;
  sd_event : option string;
  sd_data : list string;
  sd_has_fields : bool;
}.
Definition decoder_new : SseDecoder := mk_decoder [] None [] false.

Definition CARRIAGE_RETURN : N := 13.
Definition LINE_FEED : N := 10.
Definition colon : ascii := ascii_of_byte 58.
Definition space : ascii := ascii_of_byte 32.

(** [SseDecoder::flush]. *)
Definition sse_flush (d : SseDecoder) : SseDecoder * option ServerSentEvent :=
  if negb (sd_has_fields d) || (negb (reported (sd_event d)) && is_nil (sd_data d))
  then (mk_decoder (sd_buffer d) (sd_event d) (sd_data d) false, None)
  else (mk_decoder (sd_buffer d) None [] false, Some (mk_sse (sd_event d) (join newline (sd_data d)))).

(** [SseDecoder::line]. *)
Definition sse_line (d : SseDecoder) (line : string) : SseDecoder * option ServerSentEvent :=
  if str_is_empty line then sse_flush d
  else if str_starts_with colon line then (d, None)
  else
    let '(field, value) := default (line, EmptyString) (split_once (Ascii.eqb colon) line) in
    let value := match value with String a rest => if Ascii.eqb a space then rest else value | EmptyString => value end in
    if String.eqb field "event" then (mk_decoder (sd_buffer d) (Some value) (sd_data d) true, None)
    else if String.eqb field "data" then (mk_decoder (sd_buffer d) (sd_event d) (sd_data d ++ [value]) true, None)
    else (d, None).

(** The next complete line of the buffer and what follows it; a CR at the very end may be half of a CRLF. *)
Definition is_line_end (b : N) : bool := (b =? CARRIAGE_RETURN) || (b =? LINE_FEED).
Definition next_sse_line (buffer : list N) : option (list N * list N) :=
  match list_find (fun b => is_line_end b = true) buffer with
  | None => None
  | Some (index, b) =>
      if (b =? CARRIAGE_RETURN) && (S index =? length buffer)%nat then None
      else
        let next := if (b =? CARRIAGE_RETURN) && bool_decide (buffer !! S index = Some LINE_FEED) then S (S index) else S index in
        Some (take index buffer, drop next buffer)
  end.

(** [SseDecoder::push]; every round removes a byte of the buffer. *)
Definition with_buffer (d : SseDecoder) (buffer : list N) : SseDecoder :=
  mk_decoder buffer (sd_event d) (sd_data d) (sd_has_fields d).
Fixpoint push_loop (fuel : nat) (d : SseDecoder) (events : list ServerSentEvent) : SseDecoder * list ServerSentEvent :=
  match fuel with
  | O => (d, events)
  | S fuel =>
      match next_sse_line (sd_buffer d) with
      | None => (d, events)
      | Some (line, rest) =>
          let '(d, event) := sse_line (with_buffer d rest) (from_utf8_lossy line) in
          push_loop fuel d (events ++ option_list event)
      end
  end.
Definition sse_push (d : SseDecoder) (bytes : list N) : SseDecoder * list ServerSentEvent :=
  let d := with_buffer d (sd_buffer d ++ bytes) in
  push_loop (length (sd_buffer d)) d [].

(** [SseDecoder::finish]. *)
Definition sse_finish (d : SseDecoder) : SseDecoder * list ServerSentEvent :=
  let '(d, events) :=
    if is_nil (sd_buffer d) then (d, [])
    else
      let line := sd_buffer d in
      let line := if bool_decide (last line = Some CARRIAGE_RETURN) then take (length line - 1) line else line in
      let '(d, event) := sse_line (with_buffer d []) (from_utf8_lossy line) in
      (d, option_list event) in
  let '(d, event) := sse_flush d in
  (d, events ++ option_list event).

(** ** Repair

    The characters the loop distinguishes are ASCII, and no byte of another
    character is; so the loop over characters is one over bytes. *)
Definition double_quote : ascii := ascii_of_byte 34.
Definition BACKSLASH : ascii := ascii_of_byte 92.
Definition VALID_ESCAPES : list N := [34; 92; 47; 98; 102; 110; 114; 116; 117].
Definition is_ascii_hexdigit (a : ascii) : bool :=
  let b := byte_of a in
  ((48 <=? b) && (b <=? 57)) || ((65 <=? b) && (b <=? 70)) || ((97 <=? b) && (b <=? 102)).
Definition escape_control (a : ascii) : string :=
  let b := byte_of a in
  if b =? 8 then "\b" else if b =? 12 then "\f" else if b =? 10 then "\n" else if b =? 13 then "\r" else if b =? 9 then "\t"
  else "\u00" +:+ string_of_bytes (hex_byte b).
Fixpoint repair (in_string : bool) (json : string) : string :=
  match json with
  | EmptyString => EmptyString
  | String c rest =>
      if negb in_string then String c (repair (Ascii.eqb c double_quote) rest)
      else if Ascii.eqb c double_quote then String c (repair false rest)
      else if Ascii.eqb c BACKSLASH then
        match rest with
        | EmptyString => String BACKSLASH (String BACKSLASH (repair true rest))
        | String next tail =>
            match (byte_of next =? 117)%N, tail with
            | true, String h1 (String h2 (String h3 (String h4 after))) =>
                if is_ascii_hexdigit h1 && is_ascii_hexdigit h2 && is_ascii_hexdigit h3 && is_ascii_hexdigit h4
                then String c (String next (String h1 (String h2 (String h3 (String h4 (repair true after))))))
                else String c (String next (repair true tail))
            | _, _ =>
                if bool_decide (byte_of next ∈ VALID_ESCAPES) then String c (String next (repair true tail))
                else String BACKSLASH (String BACKSLASH (repair true rest))
            end
        end
      else if (byte_of c <=? 31)%N then escape_control c +:+ repair true rest
      else String c (repair true rest)
  end.
Definition repair_json (json : string) : string := repair false json.

(** [parse_json_with_repair]. *)
Definition parse_json_with_repair `{Miniserde} (json : string) : option JsonValue :=
  match json_parse json with
  | Ok value => Some value
  | _ =>
      let repaired := repair_json json in
      if String.eqb repaired json then None
      else match json_parse repaired with Ok value => Some value | _ => None end
  end.

(** ** Lines *)

Lemma next_line_cons b rest :
  next_sse_line (b :: rest) =
  if b =? LINE_FEED then Some ([], rest)
  else if b =? CARRIAGE_RETURN then match rest with [] => None | c :: tail => Some ([], if c =? LINE_FEED then tail else rest) end
  else match next_sse_line rest with Some (line, after) => Some (b :: line, after) | None => None end.
Proof.
  unfold next_sse_line. cbn [list_find]. destruct (N.eqb_spec b LINE_FEED) as [->|Hlf]; [done|].
  destruct (N.eqb_spec b CARRIAGE_RETURN) as [->|Hcr].
  - rewrite decide_True by done. destruct rest as [|c rest]; [done|]. cbn [length Nat.eqb andb N.eqb CARRIAGE_RETURN lookup list_lookup take drop].
    destruct (N.eqb_spec c LINE_FEED) as [->|Hc]; [done|]. rewrite bool_decide_false by congruence. reflexivity.
  - rewrite decide_False by (unfold is_line_end; by rewrite (proj2 (N.eqb_neq _ _) Hlf), (proj2 (N.eqb_neq _ _) Hcr)).
    destruct (list_find (fun b => is_line_end b = true) rest) as [[index x]|]; cbn; [|done].
    destruct (x =? CARRIAGE_RETURN); cbn; [|done]. case_match; [done|]. by destruct (bool_decide _).
Qed.

Lemma next_line_shorter buffer line rest : next_sse_line buffer = Some (line, rest) -> (length rest < length buffer)%nat.
Proof.
  revert line. induction buffer as [|b buffer IH]; intros line; [done|]. rewrite next_line_cons.
  destruct (b =? LINE_FEED); [intros [= <- <-]; cbn; lia|]. destruct (b =? CARRIAGE_RETURN).
  - destruct buffer as [|c tail]; [done|]. intros [= <- <-]. destruct (c =? LINE_FEED); cbn; lia.
  - destruct (next_sse_line buffer) as [[l r]|]; [|done]. intros [= <- <-]. specialize (IH _ eq_refl). cbn. lia.
Qed.

(** What follows does not change a line that is complete. *)
Lemma next_line_app buffer more line rest :
  next_sse_line buffer = Some (line, rest) -> next_sse_line (buffer ++ more) = Some (line, rest ++ more).
Proof.
  revert line. induction buffer as [|b buffer IH]; intros line; [done|]. cbn [app]. rewrite !next_line_cons.
  destruct (b =? LINE_FEED); [by intros [= <- <-]|]. destruct (b =? CARRIAGE_RETURN).
  - destruct buffer as [|c tail]; [done|]. intros [= <- <-]. cbn. by destruct (c =? LINE_FEED).
  - destruct (next_sse_line buffer) as [[l r]|]; [|done]. intros [= <- <-]. by rewrite (IH _ eq_refl).
Qed.

Fixpoint drain (fuel : nat) (buffer : list N) : list (list N) * list N :=
  match fuel, next_sse_line buffer with
  | S fuel, Some (line, rest) => let '(lines, rest) := drain fuel rest in (line :: lines, rest)
  | _, _ => ([], buffer)
  end.

Lemma drain_fuel f1 : forall f2 buffer, (length buffer <= f1)%nat -> (length buffer <= f2)%nat -> drain f1 buffer = drain f2 buffer.
Proof.
  induction f1 as [|f1 IH]; intros [|f2] buffer H1 H2; cbn.
  1-3: destruct buffer; [done|cbn in H1, H2; lia].
  destruct (next_sse_line buffer) as [[line rest]|] eqn:Hn; [|done]. apply next_line_shorter in Hn.
  by rewrite (IH f2) by lia.
Qed.

Abbreviation drained := (fun buffer => drain (length buffer) buffer).

Lemma drained_line buffer line rest : next_sse_line buffer = Some (line, rest) ->
  drained buffer = (line :: (drained rest).1, (drained rest).2).
Proof.
  intros Hn. pose proof (next_line_shorter _ _ _ Hn) as Hlt. destruct buffer as [|b buffer]; [done|]. cbn [length drain]. rewrite Hn.
  rewrite (drain_fuel _ (length rest)) by (cbn in Hlt; lia). by destruct (drain _ rest).
Qed.
Lemma drained_none buffer : next_sse_line buffer = None -> drained buffer = ([], buffer).
Proof. intros Hn. destruct buffer; [done|]. cbn [length drain]. by rewrite Hn. Qed.

Lemma drained_app buffer more :
  drained (buffer ++ more) =
  ((drained buffer).1 ++ (drained ((drained buffer).2 ++ more)).1, (drained ((drained buffer).2 ++ more)).2).
Proof.
  induction buffer as [buffer IH] using (induction_ltof1 _ (@length _)). unfold ltof in IH.
  destruct (next_sse_line buffer) as [[line rest]|] eqn:Hn.
  - rewrite (drained_line _ _ _ Hn), (drained_line _ _ _ (next_line_app _ more _ _ Hn)).
    rewrite (IH rest) by (by apply next_line_shorter in Hn). done.
  - rewrite (drained_none _ Hn). cbn [fst snd app]. apply surjective_pairing.
Qed.

(** ** Events *)

Fixpoint run_lines (d : SseDecoder) (lines : list (list N)) : SseDecoder * list ServerSentEvent :=
  match lines with
  | [] => (d, [])
  | line :: lines =>
      let '(d, event) := sse_line d (from_utf8_lossy line) in
      let '(d, events) := run_lines d lines in (d, option_list event ++ events)
  end.

Lemma sse_line_buffer d buffer line :
  sse_line (with_buffer d buffer) line = (with_buffer (sse_line d line).1 buffer, (sse_line d line).2).
Proof.
  unfold sse_line, sse_flush. destruct (str_is_empty line); [by cbn; destruct (_ || _)|]. destruct (str_starts_with _ _); [done|].
  destruct (default _ _) as [field value]. destruct (String.eqb field "event"); [done|]. by destruct (String.eqb field "data").
Qed.

Lemma run_lines_buffer ls : forall d b, run_lines (with_buffer d b) ls = (with_buffer (run_lines d ls).1 b, (run_lines d ls).2).
Proof.
  induction ls as [|l ls IH]; intros d b; [done|]. cbn [run_lines]. rewrite sse_line_buffer.
  destruct (sse_line d (from_utf8_lossy l)) as [d1 e]. cbn. rewrite IH. by destruct (run_lines d1 ls).
Qed.

Lemma run_lines_app ls ks : forall d,
  run_lines d (ls ++ ks) = ((run_lines (run_lines d ls).1 ks).1, (run_lines d ls).2 ++ (run_lines (run_lines d ls).1 ks).2).
Proof.
  induction ls as [|l ls IH]; intros d; cbn [app run_lines]; [apply surjective_pairing|].
  destruct (sse_line d (from_utf8_lossy l)) as [d1 e]. rewrite IH. destruct (run_lines d1 ls) as [d2 es]. cbn.
  destruct (run_lines d2 ks). cbn. by rewrite app_assoc.
Qed.

Lemma push_loop_lines fuel : forall d events,
  push_loop fuel d events =
  (with_buffer (run_lines d (drain fuel (sd_buffer d)).1).1 (drain fuel (sd_buffer d)).2,
   events ++ (run_lines d (drain fuel (sd_buffer d)).1).2).
Proof.
  induction fuel as [|fuel IH]; intros d events; cbn [push_loop drain].
  - cbn. rewrite app_nil_r. by destruct d.
  - destruct (next_sse_line (sd_buffer d)) as [[line rest]|]; [|cbn; rewrite app_nil_r; by destruct d].
    rewrite sse_line_buffer. rewrite IH. cbn [with_buffer sd_buffer].
    destruct (drain fuel rest) as [lines rest'] eqn:Hd. cbn [fst snd run_lines].
    destruct (sse_line d (from_utf8_lossy line)) as [d1 event]. cbn [fst snd].
    rewrite run_lines_buffer. destruct (run_lines d1 lines) as [d2 es]. cbn. by rewrite <-app_assoc.
Qed.

Lemma sse_push_lines d bytes :
  sse_push d bytes =
  (with_buffer (run_lines d (drained (sd_buffer d ++ bytes)).1).1 (drained (sd_buffer d ++ bytes)).2,
   (run_lines d (drained (sd_buffer d ++ bytes)).1).2).
Proof. unfold sse_push. rewrite push_loop_lines. cbn [with_buffer sd_buffer app]. by rewrite run_lines_buffer. Qed.

Lemma sse_push_app d a b :
  sse_push d (a ++ b) = ((sse_push (sse_push d a).1 b).1, (sse_push d a).2 ++ (sse_push (sse_push d a).1 b).2).
Proof.
  rewrite !sse_push_lines. cbn [fst snd sd_buffer with_buffer]. rewrite app_assoc, (drained_app (sd_buffer d ++ a) b). cbn [fst snd]. by rewrite run_lines_app, run_lines_buffer.
Qed.

(** ** Whole texts *)

(** The chunks of a response, and the events they and the end of input complete. *)
Fixpoint sse_feed (d : SseDecoder) (chunks : list (list N)) : SseDecoder * list ServerSentEvent :=
  match chunks with
  | [] => (d, [])
  | chunk :: chunks => let '(d, events) := sse_push d chunk in let '(d, more) := sse_feed d chunks in (d, events ++ more)
  end.
Definition sse_decode (chunks : list (list N)) : list ServerSentEvent :=
  let '(d, events) := sse_feed decoder_new chunks in events ++ (sse_finish d).2.

Lemma sse_push_nil d : next_sse_line (sd_buffer d) = None -> sse_push d [] = (d, []).
Proof. intros Hn. rewrite sse_push_lines, app_nil_r, (drained_none _ Hn). by destruct d. Qed.

Lemma drained_rest buffer : next_sse_line (drained buffer).2 = None.
Proof.
  induction buffer as [buffer IH] using (induction_ltof1 _ (@length _)). unfold ltof in IH.
  destruct (next_sse_line buffer) as [[line rest]|] eqn:Hn; [|by rewrite (drained_none _ Hn)].
  rewrite (drained_line _ _ _ Hn). apply IH. by apply next_line_shorter in Hn.
Qed.

Lemma sse_feed_concat chunks : forall d, next_sse_line (sd_buffer d) = None -> sse_feed d chunks = sse_push d (concat chunks).
Proof.
  induction chunks as [|chunk chunks IH]; intros d Hd; cbn [sse_feed concat]; [by rewrite sse_push_nil|].
  rewrite sse_push_app. destruct (sse_push d chunk) as [d1 es] eqn:Hp. cbn [fst snd]. rewrite IH; [by destruct (sse_push d1 _)|].
  rewrite sse_push_lines in Hp. injection Hp as <- <-. apply drained_rest.
Qed.

(** The lines of a whole text. *)
Definition sse_lines (bytes : list N) : list (list N) :=
  let '(lines, rest) := drained bytes in
  lines ++ (if is_nil rest then []
            else [if bool_decide (last rest = Some CARRIAGE_RETURN) then take (length rest - 1) rest else rest]).

Lemma sse_decode_lines chunks :
  sse_decode chunks =
  let '(d, events) := run_lines decoder_new (sse_lines (concat chunks)) in events ++ option_list (sse_flush d).2.
Proof.
  unfold sse_decode, sse_lines. rewrite sse_feed_concat by done. rewrite sse_push_lines. cbn [sd_buffer decoder_new app].
  destruct (drain _ (concat chunks)) as [lines rest]. cbn [fst snd]. rewrite run_lines_app.
  destruct (run_lines decoder_new lines) as [d events]. cbn [fst snd]. unfold sse_finish. cbn [sd_buffer with_buffer].
  destruct rest as [|b rest]; cbn [is_nil].
  - cbn. destruct (sse_flush _) as [d1 e] eqn:Hf. cbn. unfold sse_flush in *. cbn in Hf |- *. rewrite app_nil_r.
    destruct (_ || _); by injection Hf as <- <-.
  - change (with_buffer (with_buffer d (b :: rest)) []) with (with_buffer d []). rewrite sse_line_buffer. cbn [run_lines].
    destruct (sse_line d _) as [d1 e]. cbn [fst snd]. unfold sse_flush. cbn.
    destruct (_ || _); cbn; by rewrite ?app_nil_r, ?app_assoc.
Qed.

(** What a response decodes to depends on its bytes alone, not on the chunks they arrive in. *)
Theorem sse_chunks_irrelevant chunks chunks' : concat chunks = concat chunks' -> sse_decode chunks = sse_decode chunks'.
Proof. intros Hc. by rewrite !sse_decode_lines, Hc. Qed.

(** ** Written events *)

(** The three endings of a line. *)
Inductive LineEnding := EndLf | EndCrLf | EndCr.
Definition ending_bytes (e : LineEnding) : list N :=
  match e with EndLf => [LINE_FEED] | EndCrLf => [CARRIAGE_RETURN; LINE_FEED] | EndCr => [CARRIAGE_RETURN] end.
Definition event_lines (e : ServerSentEvent) : list string :=
  option_list ((fun name => "event: " +:+ name) <$> sse_event e)
  ++ map (fun line => "data: " +:+ line) (str_split (ascii_of_byte 10) (sse_data e)) ++ [EmptyString].
Definition event_text (ending : LineEnding) (e : ServerSentEvent) : list N :=
  concat (map (fun line => bytes_of line ++ ending_bytes ending) (event_lines e)).

(** A line is UTF-8 without a line end; the data of an event is made of such lines. *)
Definition line_ok (line : string) : Prop := utf8_ok line = true /\ Forall (fun b => is_line_end b = false) (bytes_of line).
Definition event_ok (e : ServerSentEvent) : Prop :=
  (forall name, sse_event e = Some name -> line_ok name) /\ Forall line_ok (str_split (ascii_of_byte 10) (sse_data e)).

Lemma utf8_lossy_valid bytes : forall index, utf8_validation index bytes = None -> utf8_lossy bytes = bytes.
Proof.
  induction bytes as [bytes IH] using (induction_ltof1 _ (@length _)). unfold ltof in IH. intros index.
  destruct bytes as [|first l]; [done|]. cbn [utf8_validation utf8_lossy].
  destruct (first <? 128); [intros Hv; f_equal; eapply IH; [cbn; lia|exact Hv]|].
  destruct (in_range 194 223 first).
  { destruct l as [|b1 l1]; [done|]. destruct (is_continuation b1); [|done]. intros Hv. do 2 f_equal. eapply IH; [cbn; lia|exact Hv]. }
  destruct (in_range 224 239 first).
  { destruct l as [|b1 l1]; [done|]. destruct (second_of_three first b1); [|done]. destruct l1 as [|b2 l2]; [done|].
    destruct (is_continuation b2); [|done]. intros Hv. do 3 f_equal. eapply IH; [cbn; lia|exact Hv]. }
  destruct (in_range 240 244 first); [|done].
  destruct l as [|b1 l1]; [done|]. destruct (second_of_four first b1); [|done]. destruct l1 as [|b2 l2]; [done|].
  destruct (is_continuation b2); [|done]. destruct l2 as [|b3 l3]; [done|]. destruct (is_continuation b3); [|done].
  intros Hv. do 4 f_equal. eapply IH; [cbn; lia|exact Hv].
Qed.

Lemma utf8_lossy_ascii prefix rest : Forall (fun b => b < 128) prefix -> utf8_lossy (prefix ++ rest) = prefix ++ utf8_lossy rest.
Proof. induction 1 as [|b l Hb _ IH]; [done|]. cbn [app utf8_lossy]. apply N.ltb_lt in Hb. rewrite Hb. by f_equal. Qed.

Lemma lossy_line prefix line : Forall (fun b => b < 128) (bytes_of prefix) -> utf8_ok line = true ->
  from_utf8_lossy (bytes_of (prefix +:+ line)) = prefix +:+ line.
Proof.
  intros Hp Hl. unfold from_utf8_lossy. rewrite bytes_of_app, utf8_lossy_ascii by done.
  unfold utf8_ok in Hl. destruct (utf8_validation 0 (bytes_of line)) eqn:Hv; [done|].
  rewrite (utf8_lossy_valid _ _ Hv), <-bytes_of_app. apply string_of_bytes_of.
Qed.

(** ** Lines of a written text *)

Lemma sse_lines_cons bytes line rest : next_sse_line bytes = Some (line, rest) -> sse_lines bytes = line :: sse_lines rest.
Proof. intros Hn. unfold sse_lines. rewrite (drained_line _ _ _ Hn). by destruct (drain (length rest) rest). Qed.

Lemma next_line_written line e rest : Forall (fun b => is_line_end b = false) line ->
  (e = EndCr -> exists b tail, rest = b :: tail /\ b <> LINE_FEED) ->
  next_sse_line (line ++ ending_bytes e ++ rest) = Some (line, rest).
Proof.
  intros Hl Hr. induction Hl as [|b line Hb _ IH]; cbn [app].
  - destruct e; cbn [ending_bytes app]; rewrite next_line_cons; cbn; [done..|].
    destruct Hr as (b & tail & -> & Hb); [done|]. by rewrite (proj2 (N.eqb_neq _ _) Hb).
  - rewrite next_line_cons. unfold is_line_end in Hb. apply orb_false_iff in Hb as [-> ->]. by rewrite IH.
Qed.

Lemma last_line_written line : Forall (fun b => is_line_end b = false) line -> sse_lines (line ++ ending_bytes EndCr) = [line].
Proof.
  intros Hl. assert (next_sse_line (line ++ [CARRIAGE_RETURN]) = None) as Hn.
  { induction Hl as [|b line Hb _ IH]; [done|]. cbn [app]. rewrite next_line_cons. unfold is_line_end in Hb.
    apply orb_false_iff in Hb as [-> ->]. by rewrite IH. }
  unfold sse_lines. cbn [ending_bytes]. rewrite (drained_none _ Hn). cbn [app].
  destruct (is_nil (line ++ [CARRIAGE_RETURN])) eqn:Hnil; [by destruct line|]. rewrite last_snoc, bool_decide_true by done.
  rewrite length_app. cbn. replace (length line + 1 - 1)%nat with (length line) by lia. by rewrite take_app_length.
Qed.

Lemma sse_lines_written e lines : Forall (Forall (fun b => is_line_end b = false)) lines ->
  sse_lines (concat (map (fun line => line ++ ending_bytes e) lines)) = lines.
Proof.
  induction 1 as [|line lines Hl Hall IH]; [done|]. cbn [map concat]. rewrite <-app_assoc.
  assert (e = EndCr /\ lines = [] \/ (e = EndCr -> lines <> [])) as [[-> ->]|Hn] by (destruct e, lines; naive_solver).
  { cbn [map concat]. by rewrite app_nil_r, last_line_written. }
  rewrite (sse_lines_cons _ line (concat (map (fun line => line ++ ending_bytes e) lines))); [by rewrite IH|].
  apply next_line_written; [done|]. intros ->. destruct lines as [|next lines]; [by destruct Hn|]. cbn.
  inversion_clear Hall as [|? ? Hnext _]. destruct next as [|b next]; cbn; [by eexists _, _|].
  eexists _, _. split; [done|]. inversion_clear Hnext as [|? ? Hb _]. intros ->. discriminate Hb.
Qed.

(** ** Reading back *)

(** A line with a field, as the decoder takes it apart. *)
Lemma sse_line_event d name : sse_line d ("event: " +:+ name) = (mk_decoder (sd_buffer d) (Some name) (sd_data d) true, None).
Proof. reflexivity. Qed.
Lemma sse_line_data d line : sse_line d ("data: " +:+ line) = (mk_decoder (sd_buffer d) (sd_event d) (sd_data d ++ [line]) true, None).
Proof. reflexivity. Qed.

Lemma prefix_ascii : Forall (fun b => b < 128) (bytes_of "event: ") /\ Forall (fun b => b < 128) (bytes_of "data: ").
Proof. split; repeat constructor. Qed.

Lemma run_data_lines lines : forall d, Forall line_ok lines -> lines <> [] ->
  run_lines d (map (fun line => bytes_of ("data: " +:+ line)) lines) =
  (mk_decoder (sd_buffer d) (sd_event d) (sd_data d ++ lines) true, []).
Proof.
  induction lines as [|line lines IH]; intros d Hall Hne; [done|]. inversion_clear Hall as [|? ? [Hu _] Htl].
  cbn [map run_lines]. rewrite (lossy_line _ _ (proj2 prefix_ascii) Hu), sse_line_data.
  destruct lines as [|l2 lines]; [done|]. rewrite IH by done. cbn [sd_buffer sd_event sd_data]. by rewrite <-app_assoc.
Qed.

Lemma join_split data : join newline (str_split (ascii_of_byte 10) data) = data.
Proof.
  rewrite <-(str_join_split (ascii_of_byte 10) data) at 2. generalize (str_split (ascii_of_byte 10) data). intros l.
  induction l as [|x [|y l] IH]; [done..|]. cbn [join str_join] in *. rewrite IH. done.
Qed.

Lemma run_event_lines e : event_ok e -> run_lines decoder_new (map bytes_of (event_lines e)) = (decoder_new, [e]).
Proof.
  intros [Hname Hdata]. unfold event_lines. rewrite !map_app, !run_lines_app.
  assert (run_lines decoder_new (map bytes_of (option_list ((fun name => "event: " +:+ name) <$> sse_event e))) =
    (mk_decoder [] (sse_event e) [] (reported (sse_event e)), [])) as ->.
  { destruct (sse_event e) as [name|]; [|done]. destruct (Hname name eq_refl) as [Hu _].
    change (map _ _) with [bytes_of ("event: " +:+ name)]. cbn [run_lines]. by rewrite (lossy_line _ _ (proj1 prefix_ascii) Hu), sse_line_event. }
  cbn [fst snd app]. rewrite map_map, run_data_lines by (done || apply str_split_non_nil). cbn [fst snd app map sd_event sd_data sd_buffer].
  cbn [run_lines]. change (from_utf8_lossy (bytes_of EmptyString)) with EmptyString. unfold sse_line, sse_flush.
  cbn [str_is_empty sd_has_fields sd_event sd_data sd_buffer negb orb].
  assert (is_nil (str_split (ascii_of_byte 10) (sse_data e)) = false) as ->.
  { destruct (str_split _ _) eqn:Hs; [by apply str_split_non_nil in Hs|done]. }
  rewrite andb_false_r, join_split. by destruct e.
Qed.

Lemma run_events events : Forall event_ok events ->
  run_lines decoder_new (map bytes_of (concat (map event_lines events))) = (decoder_new, events).
Proof.
  induction 1 as [|e events He _ IH]; [done|]. cbn [map concat]. rewrite map_app, run_lines_app, run_event_lines by done. cbn [fst snd]. by rewrite IH.
Qed.

Lemma event_text_lines ending events :
  concat (map (event_text ending) events) =
  concat (map (fun line => line ++ ending_bytes ending) (map bytes_of (concat (map event_lines events)))).
Proof.
  induction events as [|e events IH]; [done|]. cbn [map concat]. rewrite IH, !map_app, concat_app. f_equal.
  unfold event_text. by rewrite map_map.
Qed.

Lemma prefixed_line_ok prefix line : Forall (fun b => is_line_end b = false) (bytes_of prefix) -> line_ok line ->
  Forall (fun b => is_line_end b = false) (bytes_of (prefix +:+ line)).
Proof. intros Hp [_ Hl]. rewrite bytes_of_app. by apply Forall_app. Qed.

Lemma event_lines_ok e : event_ok e -> Forall (fun line => Forall (fun b => is_line_end b = false) (bytes_of line)) (event_lines e).
Proof.
  intros [Hname Hdata]. unfold event_lines. rewrite !Forall_app. split_and!.
  - destruct (sse_event e) as [name|]; constructor; [|constructor]. apply prefixed_line_ok; [repeat constructor|by apply Hname].
  - apply Forall_map. eapply Forall_impl; [exact Hdata|]. intros line Hl. apply prefixed_line_ok; [repeat constructor|done].
  - repeat constructor.
Qed.

(** Every event that is written is read back, whichever line ending the server uses and however the
    bytes of the response are cut into chunks, inside a character or between CR and LF included. *)
Theorem sse_events_read_back ending events chunks :
  Forall event_ok events -> concat chunks = concat (map (event_text ending) events) -> sse_decode chunks = events.
Proof.
  intros Hall Hc. rewrite sse_decode_lines, Hc, event_text_lines, sse_lines_written.
  - rewrite run_events by done. apply app_nil_r.
  - apply Forall_map. clear Hc. induction Hall as [|e events He _ IH]; [constructor|]. cbn [map concat]. apply Forall_app.
    split; [by apply event_lines_ok|done].
Qed.

(** ** Repaired texts *)

Definition plain_char (a : ascii) : bool := negb (Ascii.eqb a double_quote) && negb (Ascii.eqb a BACKSLASH) && (31 <? byte_of a).
Lemma repair_plain a rest : plain_char a = true -> repair true (String a rest) = String a (repair true rest).
Proof.
  unfold plain_char. intros [[Hq%negb_true_iff Hb%negb_true_iff]%andb_true_iff Hc%N.ltb_lt]%andb_true_iff. cbn [repair negb].
  rewrite Hq, Hb. by rewrite (proj2 (N.leb_gt _ _)) by lia.
Qed.
Lemma hexdigit_plain a : is_ascii_hexdigit a = true -> plain_char a = true.
Proof.
  intros Hh. unfold plain_char. assert (48 <= byte_of a <= 57 \/ 65 <= byte_of a <= 70 \/ 97 <= byte_of a <= 102) as Hr.
  { unfold is_ascii_hexdigit in Hh. cbn in Hh. rewrite !orb_true_iff, !andb_true_iff, !N.leb_le in Hh. tauto. }
  apply andb_true_iff. split; [|apply N.ltb_lt; lia].
  apply andb_true_iff. split; apply negb_true_iff, Ascii.eqb_neq; intros ->; vm_compute in Hr; destruct Hr as [[Hr Hr']|[[Hr Hr']|[Hr Hr']]]; done.
Qed.

(** The case of four digits after [\u] agrees with the general one. *)
Lemma repair_escape next tail : byte_of next ∈ VALID_ESCAPES ->
  repair true (String BACKSLASH (String next tail)) = String BACKSLASH (String next (repair true tail)).
Proof.
  intros Hv. cbn [repair negb]. change (Ascii.eqb BACKSLASH double_quote) with false. rewrite Ascii.eqb_refl.
  rewrite bool_decide_true by done. destruct (byte_of next =? 117); [|done].
  destruct tail as [|h1 [|h2 [|h3 [|h4 after]]]]; try done.
  destruct (is_ascii_hexdigit h1 && _ && _ && _) eqn:Hh; [|done].
  apply andb_true_iff in Hh as [[[H1 H2]%andb_true_iff H3]%andb_true_iff H4].
  by rewrite !repair_plain by (by apply hexdigit_plain).
Qed.
Lemma repair_other next tail : byte_of next ∉ VALID_ESCAPES ->
  repair true (String BACKSLASH (String next tail)) = String BACKSLASH (String BACKSLASH (repair true (String next tail))).
Proof.
  intros Hv. assert ((byte_of next =? 117) = false) as Hu by (apply N.eqb_neq; intros Hn; apply Hv; rewrite Hn; set_solver).
  cbn [repair negb]. change (Ascii.eqb BACKSLASH double_quote) with false. rewrite Ascii.eqb_refl, Hu, bool_decide_false by done. done.
Qed.

(** The escape of a control character is a valid escape followed by plain characters. *)
Fixpoint all_plain (s : string) : bool := match s with EmptyString => true | String a s => plain_char a && all_plain s end.
Definition is_escape (s : string) : bool :=
  match s with
  | String b (String c t) => Ascii.eqb b BACKSLASH && bool_decide (byte_of c ∈ VALID_ESCAPES) && all_plain t
  | _ => false
  end.
Lemma escape_control_shape a : byte_of a <= 31 -> is_escape (escape_control a) = true.
Proof. destruct a as [[] [] [] [] [] [] [] []]; intros Ha; vm_compute in Ha |- *; try done; by destruct Ha. Qed.

Lemma repair_all_plain t rest : all_plain t = true -> repair true (t +:+ rest) = t +:+ repair true rest.
Proof.
  induction t as [|a t IH]; [done|]. cbn [all_plain]. intros [Ha Ht]%andb_true_iff.
  change (String a t +:+ rest) with (String a (t +:+ rest)). rewrite repair_plain, IH by done. done.
Qed.

Lemma repair_control a rest : byte_of a <= 31 -> repair true (escape_control a +:+ rest) = escape_control a +:+ repair true rest.
Proof.
  intros Hs%escape_control_shape. destruct (escape_control a) as [|b [|c t]]; [done..|]. cbn [is_escape] in Hs.
  apply andb_true_iff in Hs as [[->%Ascii.eqb_eq Hc%bool_decide_eq_true]%andb_true_iff Ht].
  change (String BACKSLASH (String c t) +:+ rest) with (String BACKSLASH (String c (t +:+ rest))).
  rewrite repair_escape, repair_all_plain by done. done.
Qed.

Lemma repair_quote rest : repair true (String double_quote rest) = String double_quote (repair false rest).
Proof. reflexivity. Qed.
Lemma backslash_valid : byte_of BACKSLASH ∈ VALID_ESCAPES.
Proof. apply (bool_decide_unpack _). vm_compute. exact I. Qed.

Lemma repair_idempotent s : forall in_string, repair in_string (repair in_string s) = repair in_string s.
Proof.
  induction s as [s IH] using (induction_ltof1 _ String.length). unfold ltof in IH. intros in_string.
  destruct s as [|c rest]; [done|].
  assert (forall b, repair b (repair b rest) = repair b rest) as Hrest by (intros b; apply IH; cbn; lia).
  destruct in_string; [|cbn [repair negb]; by rewrite Hrest].
  destruct (Ascii.eqb_spec c double_quote) as [->|Hq]; [by rewrite !repair_quote, Hrest|].
  destruct (Ascii.eqb_spec c BACKSLASH) as [->|Hb].
  - destruct rest as [|next tail]; [reflexivity|]. destruct (decide (byte_of next ∈ VALID_ESCAPES)) as [Hv|Hv].
    + rewrite !repair_escape by done. by rewrite IH by (cbn; lia).
    + rewrite repair_other by done. rewrite repair_escape by apply backslash_valid. by rewrite Hrest.
  - apply Ascii.eqb_neq in Hq, Hb. destruct (N.leb_spec (byte_of c) 31) as [Hc|Hc].
    + assert (repair true (String c rest) = escape_control c +:+ repair true rest) as ->.
      { cbn [repair negb]. rewrite Hq, Hb. by rewrite (proj2 (N.leb_le _ _) Hc). }
      by rewrite repair_control, Hrest.
    + assert (plain_char c = true) as Hp by (unfold plain_char; rewrite Hq, Hb; cbn; by apply N.ltb_lt).
      by rewrite !repair_plain, Hrest by done.
Qed.

(** Repairing twice is repairing once: the result holds no raw control character inside a string and no
    backslash that does not start an escape. *)
Theorem repair_json_idempotent json : repair_json (repair_json json) = repair_json json.
Proof. apply repair_idempotent. Qed.
