(* ===== verification/AnthropicEvents.v ===== *)
(** * tea-providers: the reduction of Anthropic events
    ([crates/tea-providers/src/anthropic/events.rs], [anthropic/mod.rs], [retry.rs])

    Server-sent events are reduced to the model events of the core.  The
    helpers of the response stream are here too: the retry policy, the delay a
    server asks for, the text of failures and the estimated cost. *)

From Stdlib Require Import Ascii SpecFloat.
From stdpp Require Import base gmap sets list strings pretty.
From S2P Require Import Records.
From S2P Require Import Prelude RustStr Json Ids SessionErrors Decimal Configuration Messages Transcript CoreState SchemaValidation.
From S2P Require Import Compaction RequestContext AgentLifecycle Measurement RunWorld ContextCodec AnthropicSse.

Local Open Scope N_scope.

(** ** Retry policy

    A [Duration] is its number of nanoseconds. *)
Definition DURATION_MAX : N := u64_max * 1000000000 + 999999999.
Record RetryPolicy := mk_retry_policy { rp_max_retries : N; rp_initial_delay : N; rp_max_delay : N }.
Definition retry_policy_new (max_retries initial_delay max_delay : N) : RetryPolicy :=
  mk_retry_policy max_retries initial_delay (if max_delay <? initial_delay then initial_delay else max_delay).
Definition retry_policy_standard : RetryPolicy := mk_retry_policy 3 250000000 8000000000.

(** [Duration::checked_mul(2)]; [RetryPolicy::delay_before_retry]. *)
Definition double_delay (delay : N) : option N := if DURATION_MAX <? 2 * delay then None else Some (2 * delay).
Fixpoint delay_loop (rounds : nat) (max_delay delay : N) : N :=
  match rounds with
  | O => delay `min` max_delay
  | S rounds =>
      let delay := default max_delay (double_delay delay) in
      if max_delay <=? delay then max_delay else delay_loop rounds max_delay delay
  end.
Definition delay_before_retry (policy : RetryPolicy) (retry_index : N) : N :=
  delay_loop (N.to_nat retry_index) (rp_max_delay policy) (rp_initial_delay policy).

(** ** Usage *)

Record AnthropicUsage := mk_anthropic_usage {
  nu_input : N;
  nu_output : N;
  nu_cache_read : N;
  nu_cache_write : N;
  nu_cache_write_1h : N;
  nu_reasoning : option N;
}.
#[export] Instance anthropic_usage_eta : Eta AnthropicUsage := fun u =>
  mk_anthropic_usage (nu_input u) (nu_output u) (nu_cache_read u) (nu_cache_write u) (nu_cache_write_1h u) (nu_reasoning u).
Definition anthropic_usage_default : AnthropicUsage := mk_anthropic_usage 0 0 0 0 0 None.

(** [+] on [u64], checked. *)
Definition u64_add {E} (a b : N) : Outcome E N := if u64_max <? a + b then Panic "attempt to add with overflow" else Ok (a + b).
Definition to_usage {E} (u : AnthropicUsage) : Outcome E ModelUsage :=
  let? input := u64_add (nu_input u) (nu_cache_read u) in
  let? input := u64_add input (nu_cache_write u) in
  let? total := u64_add input (nu_output u) in
  Ok (mk_usage (Some total) (Some input) (Some (nu_output u)) (nu_reasoning u) (Some (nu_cache_read u)) (Some (nu_cache_write u)) None).

(** ** Reduction *)

Definition PROVIDER_ID : string := "anthropic".
Definition EFFORT_CONTEXT_KIND : string := "effort".
Definition SIGNATURE_CONTEXT_KIND : string := "thinking_signature".
Definition REDACTED_THINKING_CONTEXT_KIND : string := "redacted_thinking".
Definition MESSAGE_EVENTS : list string :=
  ["message_start"; "message_delta"; "message_stop"; "content_block_start"; "content_block_delta"; "content_block_stop"].

Record StreamFailure := mk_failure { sf_message : string; sf_error_type : option string }.
Definition failure {A} (message : string) : StreamFailure + A := inl (mk_failure message None).

Inductive Block :=
| BlockText
| BlockThinking (signature : string)
| BlockRedacted
| BlockToolUse (id name : string) (initial : JsonValue) (partial : string).
Inductive StreamOutcome :=
| OutcomeStop (reason : StopReason)
| OutcomeFailed (message : string).

Record StreamReducer := mk_reducer {
  sr_blocks : gmap N Block;
  sr_emitted_content : bool;
  sr_usage : AnthropicUsage;
  sr_outcome : option StreamOutcome;
  sr_raw_stop_reason : option string;
  sr_started : bool;
  sr_stopped : bool;
  sr_response_model : option string;
  sr_response_id : option string;
  sr_input_transformations : list JsonValue;
  sr_managed_effort : option string;
}.
#[export] Instance stream_reducer_eta : Eta StreamReducer := fun r =>
  mk_reducer (sr_blocks r) (sr_emitted_content r) (sr_usage r) (sr_outcome r) (sr_raw_stop_reason r) (sr_started r) (sr_stopped r)
    (sr_response_model r) (sr_response_id r) (sr_input_transformations r) (sr_managed_effort r).
Definition reducer_new (managed_effort : option string) : StreamReducer :=
  mk_reducer ∅ false anthropic_usage_default None None false false None None [] managed_effort.

(** [count], [string]. *)
Definition count_field (value : JsonValue) (field : string) : option N := json_get field value ≫= json_as_u64.
Definition string_field (value : JsonValue) (field : string) : string := default EmptyString (json_get field value ≫= json_as_str).

(** [bounded]: cut at the last character boundary within the limit. *)
Definition at_char_boundary (bytes : list N) (index : nat) : bool :=
  match bytes !! index with Some b => negb (is_continuation b) | None => (index =? length bytes)%nat end.
Fixpoint boundary_below (bytes : list N) (end_ : nat) : nat :=
  if at_char_boundary bytes end_ then end_ else match end_ with O => O | S end_ => boundary_below bytes end_ end.
Definition ELLIPSIS : list N := [226; 128; 166].
Definition bounded_text (text : string) (limit : nat) : string :=
  if (str_len text <=? limit)%nat then text
  else string_of_bytes (take (boundary_below (bytes_of text) limit) (bytes_of text) ++ ELLIPSIS).

(** The display of an [OpaqueProviderContextError], which has literal and numeric pieces. *)
Definition piece_text (piece : Piece) : string :=
  match piece with Lit text => text | Num value => pretty value | _ => EmptyString end.
Definition opaque_replay (kind payload : string) : StreamFailure + OpaqueItem :=
  match opaque_item_new PROVIDER_ID kind None payload with
  | Ok item => inr item
  | Err e => failure ("Anthropic replay material is invalid: " +:+ str_concat (map piece_text (opaque_error_display e)))
  | Panic reason => failure reason
  end.

(** [map_stop_reason]. *)
Definition map_stop_reason (reason : string) (details : option JsonValue) : StreamOutcome :=
  if bool_decide (reason ∈ ["end_turn"; "pause_turn"; "stop_sequence"]) then OutcomeStop Stop
  else if String.eqb reason "max_tokens" then OutcomeStop Length
  else if String.eqb reason "tool_use" then OutcomeStop ToolUse
  else if String.eqb reason "refusal" then
    OutcomeFailed (match (details ≫= json_get "explanation") ≫= json_as_str with
                   | Some explanation => if str_is_empty explanation then "The model refused to complete the request" else explanation
                   | None => "The model refused to complete the request"
                   end)
  else if String.eqb reason "sensitive" then OutcomeFailed "Provider stopped with: sensitive"
  else OutcomeFailed ("Unhandled stop reason: " +:+ reason).

Section reduction.
Context `{Miniserde}.

(** [tool_arguments]. *)
Definition tool_arguments (initial : JsonValue) (partial : string) : string :=
  if is_blank partial then match to_json_string initial with Ok text => text | _ => "{}" end
  else match parse_json_with_repair partial with
       | Some value => match to_json_string value with Ok text => text | _ => partial end
       | None => partial
       end.

(** [stream_error]. *)
Definition stream_error (data : string) : StreamFailure :=
  let error := match json_parse data with Ok value => json_get "error" value | _ => None end in
  let error_type := (error ≫= json_get "type") ≫= json_as_str in
  let message := default (bounded_text data 512) ((error ≫= json_get "message") ≫= json_as_str) in
  mk_failure (match error_type with
              | Some error_type => "Anthropic stream error (" +:+ error_type +:+ "): " +:+ message
              | None => "Anthropic stream error: " +:+ message
              end) error_type.

(** [StreamReducer::record_transformations]. *)
Definition record_transformations (value : option JsonValue) (r : StreamReducer) : StreamReducer :=
  match value ≫= json_as_array with
  | Some transformations => r <| sr_input_transformations := transformations |>
  | None => r
  end.

(** The arms of [StreamReducer::push].  A failure leaves the state as far as it got. *)
Definition Reduced : Type := StreamReducer * (StreamFailure + list ModelStreamEvent).
Definition text_field (r : StreamReducer) (text : string) (event : string -> ModelStreamEvent) : Reduced :=
  if str_is_empty text then (r, inr []) else (r <| sr_emitted_content := true |>, inr [event text]).
Definition replay_event (r : StreamReducer) (kind payload : string) (event : OpaqueItem -> ModelStreamEvent) : Reduced :=
  (r <| sr_emitted_content := true |>,
   match opaque_replay kind payload with inr item => inr [event item] | inl failure => inl failure end).

Definition message_start (event : JsonValue) (r : StreamReducer) : StreamReducer :=
  let message := json_get "message" event in
  let r := r <| sr_started := true |>
             <| sr_response_id := (message ≫= json_get "id") ≫= json_as_str |>
             <| sr_response_model := (message ≫= json_get "model") ≫= json_as_str |> in
  let r := record_transformations (message ≫= json_get "input_transformations") r in
  match message ≫= json_get "usage" with
  | Some usage =>
      let n := fun field => default 0 (count_field usage field) in
      r <| sr_usage ::= fun u =>
             mk_anthropic_usage (n "input_tokens") (n "output_tokens") (n "cache_read_input_tokens") (n "cache_creation_input_tokens")
               (default 0 (json_get "cache_creation" usage ≫= fun creation => count_field creation "ephemeral_1h_input_tokens"))
               (nu_reasoning u) |>
  | None => r
  end.

Definition block_index (event : JsonValue) : N := default 0 (count_field event "index").
Definition content_block_start (event : JsonValue) (r : StreamReducer) : Reduced :=
  let open := fun block => r <| sr_blocks ::= <[block_index event := block]> |> in
  match json_get "content_block" event with
  | None => (r, inr [])
  | Some block =>
      match json_get "type" block ≫= json_as_str with
      | Some type =>
          if String.eqb type "fallback" then
            (r, if sr_emitted_content r then failure "Anthropic performed an unsupported mid-output model fallback" else inr [])
          else if String.eqb type "text" then text_field (open BlockText) (string_field block "text") TextDelta
          else if String.eqb type "thinking" then
            text_field (open (BlockThinking (string_field block "signature"))) (string_field block "thinking") ThinkingDelta
          else if String.eqb type "redacted_thinking" then
            let data := string_field block "data" in
            if str_is_empty data then (open BlockRedacted, inr [])
            else replay_event (open BlockRedacted) REDACTED_THINKING_CONTEXT_KIND data RedactedThinking
          else if String.eqb type "tool_use" then
            (open (BlockToolUse (string_field block "id") (string_field block "name")
                     (default (JsonObject []) (json_get "input" block)) EmptyString), inr [])
          else (r, inr [])
      | None => (r, inr [])
      end
  end.

Definition content_block_delta (event : JsonValue) (r : StreamReducer) : Reduced :=
  let index := block_index event in
  match json_get "delta" event with
  | None => (r, inr [])
  | Some delta =>
      let update := fun block => (r <| sr_blocks ::= <[index := block]> |>, inr []) in
      match json_get "type" delta ≫= json_as_str, sr_blocks r !! index with
      | Some type, Some BlockText =>
          if String.eqb type "text_delta" then text_field r (string_field delta "text") TextDelta else (r, inr [])
      | Some type, Some (BlockThinking signature) =>
          if String.eqb type "thinking_delta" then text_field r (string_field delta "thinking") ThinkingDelta
          else if String.eqb type "signature_delta" then update (BlockThinking (signature +:+ string_field delta "signature"))
          else (r, inr [])
      | Some type, Some (BlockToolUse id name initial partial) =>
          if String.eqb type "input_json_delta" then update (BlockToolUse id name initial (partial +:+ string_field delta "partial_json"))
          else (r, inr [])
      | _, _ => (r, inr [])
      end
  end.

Definition content_block_stop (event : JsonValue) (r : StreamReducer) : Reduced :=
  let index := block_index event in
  let block := sr_blocks r !! index in
  let r := r <| sr_blocks ::= delete index |> in
  match block with
  | Some (BlockThinking signature) =>
      if str_is_empty signature then (r, inr []) else replay_event r SIGNATURE_CONTEXT_KIND signature ThinkingSignature
  | Some (BlockToolUse id name initial partial) =>
      let arguments := tool_arguments initial partial in
      match tool_call_id_new id with
      | Ok id => (r <| sr_emitted_content := true |>, inr [StreamToolCall (mk_call id name arguments)])
      | _ => (r, failure "Anthropic tool use has no identifier")
      end
  | _ => (r, inr [])
  end.

(** [if let Some(value) = … { self.usage.… = value; }]. *)
Definition merge_usage (usage : JsonValue) (u : AnthropicUsage) : AnthropicUsage :=
  let n := fun field old => default old (count_field usage field) in
  mk_anthropic_usage (n "input_tokens" (nu_input u)) (n "output_tokens" (nu_output u)) (n "cache_read_input_tokens" (nu_cache_read u))
    (n "cache_creation_input_tokens" (nu_cache_write u))
    (default (nu_cache_write_1h u) (json_get "cache_creation" usage ≫= fun creation => count_field creation "ephemeral_1h_input_tokens"))
    (match json_get "output_tokens_details" usage ≫= fun details => count_field details "thinking_tokens" with
     | Some value => Some value
     | None => nu_reasoning u
     end).
Definition message_delta (event : JsonValue) (r : StreamReducer) : StreamReducer :=
  let r := record_transformations (json_get "input_transformations" event) r in
  let r := match json_get "delta" event with
           | Some delta =>
               match json_get "stop_reason" delta ≫= json_as_str with
               | Some reason =>
                   r <| sr_raw_stop_reason := Some reason |>
                     <| sr_outcome := Some (map_stop_reason reason (json_get "stop_details" delta)) |>
               | None => r
               end
           | None => r
           end in
  match json_get "usage" event with
  | Some usage => r <| sr_usage ::= merge_usage usage |>
  | None => r
  end.

(** [StreamReducer::push]. *)
Definition reducer_push (r : StreamReducer) (sse : ServerSentEvent) : Reduced :=
  let event_name := default EmptyString (sse_event sse) in
  if String.eqb event_name "error" then (r, inl (stream_error (sse_data sse)))
  else if sr_stopped r || negb (bool_decide (event_name ∈ MESSAGE_EVENTS)) then (r, inr [])
  else match parse_json_with_repair (sse_data sse) with
       | None => (r, failure ("Could not parse Anthropic SSE event " +:+ event_name +:+ ": invalid JSON data"))
       | Some event =>
           let type := default event_name (json_get "type" event ≫= json_as_str) in
           if String.eqb type "message_start" then (message_start event r, inr [])
           else if String.eqb type "content_block_start" then content_block_start event r
           else if String.eqb type "content_block_delta" then content_block_delta event r
           else if String.eqb type "content_block_stop" then content_block_stop event r
           else if String.eqb type "message_delta" then (message_delta event r, inr [])
           else if String.eqb type "message_stop" then (r <| sr_stopped := true |>, inr [])
           else (r, inr [])
       end.

(** [StreamReducer::finish]. *)
Definition outcome_event (outcome : StreamOutcome) : ModelStreamEvent :=
  match outcome with OutcomeStop reason => StreamEnd reason | OutcomeFailed message => StreamError message end.
Definition reducer_finish (r : StreamReducer) : Outcome StreamFailure (list ModelStreamEvent) :=
  if sr_started r && negb (sr_stopped r) then Err (mk_failure "Anthropic stream ended before message_stop" None)
  else match sr_outcome r with
       | None => Err (mk_failure "Anthropic stream ended without a stop reason" None)
       | Some outcome =>
           let? usage := to_usage (sr_usage r) in
           match sr_managed_effort r with
           | None => Ok [StreamUsage usage; outcome_event outcome]
           | Some effort =>
               match opaque_replay EFFORT_CONTEXT_KIND effort with
               | inr item => Ok [StreamUsage usage; StreamOpaqueContext item; outcome_event outcome]
               | inl failure => Err failure
               end
           end
       end.
End reduction.

(** ** Text *)

(** [str::trim], with the characters encoded back. *)
Definition encode_char (c : N) : list N :=
  if c <? 128 then [c]
  else if c <? 2048 then [192 + N.shiftr c 6; 128 + N.land c 63]
  else if c <? 65536 then [224 + N.shiftr c 12; 128 + N.land (N.shiftr c 6) 63; 128 + N.land c 63]
  else [240 + N.shiftr c 18; 128 + N.land (N.shiftr c 12) 63; 128 + N.land (N.shiftr c 6) 63; 128 + N.land c 63].
Definition str_trim (s : string) : string := string_of_bytes (concat (map encode_char (trim_chars (chars s)))).

(** [str::to_ascii_lowercase], [str::eq_ignore_ascii_case], [str::contains] and [str::replace]. *)
Definition ascii_lowercase (b : N) : N := if is_ascii_uppercase b then b + 32 else b.
Definition lowercase_bytes (s : string) : list N := map ascii_lowercase (bytes_of s).
Definition eq_ignore_ascii_case (a b : string) : bool := bool_decide (lowercase_bytes a = lowercase_bytes b).
Definition bytes_prefix (pattern bytes : list N) : bool := bool_decide (take (length pattern) bytes = pattern).
Fixpoint bytes_contain (pattern bytes : list N) : bool :=
  bytes_prefix pattern bytes || match bytes with [] => false | _ :: bytes => bytes_contain pattern bytes end.
(** [skip] bytes of an occurrence are still to be dropped. *)
Fixpoint replace_bytes (pattern replacement : list N) (skip : nat) (bytes : list N) : list N :=
  match bytes, skip with
  | [], _ => []
  | _ :: bytes, S skip => replace_bytes pattern replacement skip bytes
  | b :: rest, O =>
      if bytes_prefix pattern bytes then replacement ++ replace_bytes pattern replacement (length pattern - 1) rest
      else b :: replace_bytes pattern replacement 0 rest
  end.

(** [is_context_overflow], [is_context_overflow_type], [redact]. *)
Definition OVERFLOW_PATTERNS : list string :=
  ["prompt is too long"; "prompt too long"; "request_too_large"; "input length and `max_tokens` exceed context limit"].
Definition is_context_overflow (message : string) : bool :=
  existsb (fun pattern => bytes_contain (bytes_of pattern) (lowercase_bytes message)) OVERFLOW_PATTERNS.
Definition is_context_overflow_type (error_type : option string) : bool := bool_decide (error_type = Some "request_too_large").
Definition redact (text api_key : string) : string :=
  if str_is_empty api_key then text
  else string_of_bytes (replace_bytes (bytes_of api_key) (bytes_of "[redacted]") 0 (bytes_of text)).

(** ** Headers *)

Definition Headers : Type := list (string * string).
Definition response_header (headers : Headers) (name : string) : option string :=
  str_trim ∘ snd <$> List.find (fun entry => eq_ignore_ascii_case entry.1 name) headers.
Definition status_retryable (status : N) (headers : Headers) : bool :=
  let classified := bool_decide (status ∈ [408; 409; 429]) || (500 <=? status) in
  match response_header headers "x-should-retry" with
  | Some value => if String.eqb value "true" then true else if String.eqb value "false" then false else classified
  | None => classified
  end.

(** [f64]: the 64-bit binary format, with [str::parse]: the decimal literal to the nearest even. *)
Definition f64_prec : Z := 53.
Definition f64_emax : Z := 1024.
Definition decimal_digits_value (digits : list N) : N := foldl (fun value b => 10 * value + (b - 48)) 0 digits.
Definition f64_of_decimal (sign : bool) (digits : list N) (exponent : Z) : spec_float :=
  match decimal_digits_value digits with
  | N0 => S754_zero sign
  | Npos value =>
      if (400 <? exponent)%Z then S754_infinity sign
      else if (Z.of_nat (length digits) + exponent <? -400)%Z then S754_zero sign
      else if (0 <=? exponent)%Z then binary_normalize f64_prec f64_emax (if sign then - (Zpos value * 10 ^ exponent) else Zpos value * 10 ^ exponent) 0 sign
      else SFdiv f64_prec f64_emax (S754_finite sign value 0) (S754_finite false (Z.to_pos (10 ^ (- exponent))) 0)
  end.
Fixpoint split_digits (bytes : list N) : list N * list N :=
  match bytes with
  | b :: rest => if is_ascii_digit b then let '(digits, rest) := split_digits rest in (b :: digits, rest) else ([], bytes)
  | [] => ([], [])
  end.
Definition split_sign (bytes : list N) : bool * list N :=
  match bytes with b :: rest => if b =? 45 then (true, rest) else if b =? 43 then (false, rest) else (false, bytes) | [] => (false, []) end.
Definition parse_exponent (bytes : list N) : option Z :=
  match bytes with
  | [] => Some 0%Z
  | mark :: bytes =>
      if (mark =? 101) || (mark =? 69) then
        let '(sign, bytes) := split_sign bytes in
        match split_digits bytes with
        | ([], _) => None
        | (digits, []) => Some (if sign then - Z.of_N (decimal_digits_value digits) else Z.of_N (decimal_digits_value digits))%Z
        | _ => None
        end
      else None
  end.
Definition parse_f64 (text : string) : option spec_float :=
  let '(sign, bytes) := split_sign (bytes_of text) in
  let '(whole, rest) := split_digits bytes in
  let '(fraction, rest) :=
    match rest with b :: rest' => if b =? 46 then split_digits rest' else ([], rest) | [] => ([], []) end in
  match whole ++ fraction with
  | [] =>
      if bool_decide (map ascii_lowercase bytes ∈ [bytes_of "inf"; bytes_of "infinity"]) then Some (S754_infinity sign)
      else if bool_decide (map ascii_lowercase bytes = bytes_of "nan") then Some S754_nan else None
  | digits => (fun exponent => f64_of_decimal sign digits (exponent - Z.of_nat (length fraction))) <$> parse_exponent rest
  end.

(** [is_finite() && value >= 0.0]. *)
Definition finite_non_negative (value : spec_float) : bool :=
  match value with S754_zero _ | S754_finite false _ _ => true | _ => false end.

(** [Duration::from_secs_f64]: to the nearest nanosecond, ties to even; [Duration::as_secs_f64]. *)
Definition round_half_even (numerator denominator : N) : N :=
  let quotient := numerator / denominator in
  let twice := 2 * (numerator mod denominator) in
  if denominator <? twice then quotient + 1
  else if (twice =? denominator) && N.odd quotient then quotient + 1 else quotient.
Definition NANOS_PER_SEC : N := 1000000000.
Definition nanoseconds (mantissa : positive) (exponent : Z) : N :=
  let scaled := Npos mantissa * NANOS_PER_SEC in
  if (0 <=? exponent)%Z then scaled * 2 ^ Z.to_N exponent else round_half_even scaled (2 ^ Z.to_N (- exponent)).
Definition duration_from_secs_f64 {E} (value : spec_float) : Outcome E N :=
  match value with
  | S754_zero _ => Ok 0
  | S754_finite false mantissa exponent =>
      let delay := nanoseconds mantissa exponent in
      if DURATION_MAX <? delay then Panic "cannot convert float seconds to Duration: value is either too big or NaN" else Ok delay
  | S754_finite true _ _ => Panic "cannot convert float seconds to Duration: value is negative"
  | _ => Panic "cannot convert float seconds to Duration: value is either too big or NaN"
  end.
Definition f64_of_N (value : N) : spec_float := binary_normalize f64_prec f64_emax (Z.of_N value) 0 false.
Definition as_secs_f64 (delay : N) : spec_float :=
  SFadd f64_prec f64_emax (f64_of_N (delay / NANOS_PER_SEC))
    (SFdiv f64_prec f64_emax (f64_of_N (delay mod NANOS_PER_SEC)) (f64_of_N NANOS_PER_SEC)).
(** [value.ceil() as u64]. *)
Definition ceil_u64 (value : spec_float) : N :=
  match value with
  | S754_finite false mantissa exponent =>
      u64_max `min` (if (0 <=? exponent)%Z then Npos mantissa * 2 ^ Z.to_N exponent
                     else (Npos mantissa + (2 ^ Z.to_N (- exponent) - 1)) / 2 ^ Z.to_N (- exponent))
  | S754_infinity false => u64_max
  | _ => 0
  end.

(** [retry_delay]. *)
Definition parsed_delay (headers : Headers) (name : string) : option spec_float :=
  match response_header headers name ≫= parse_f64 with
  | Some value => if finite_non_negative value then Some value else None
  | None => None
  end.
Definition retry_delay {E} (headers : Headers) : Outcome E (option N) :=
  match parsed_delay headers "retry-after-ms" with
  | Some milliseconds => let? delay := duration_from_secs_f64 (SFdiv f64_prec f64_emax milliseconds (f64_of_N 1000)) in Ok (Some delay)
  | None =>
      match parsed_delay headers "retry-after" with
      | Some seconds => let? delay := duration_from_secs_f64 seconds in Ok (Some delay)
      | None => Ok None
      end
  end.

(** ** Failed statuses *)

Record ParsedError := mk_parsed_error { pe_error_type : option string; pe_message : option string }.
Definition parse_error_body `{Miniserde} (body : list N) : ParsedError :=
  let error := match json_parse (from_utf8_lossy body) with Ok value => json_get "error" value | _ => None end in
  mk_parsed_error ((error ≫= json_get "type") ≫= json_as_str)
    ((fun message => bounded_text message 1024) <$> ((error ≫= json_get "message") ≫= json_as_str)).
Definition describe_status (status : N) (parsed : ParsedError) : string :=
  let prefix := "Anthropic API error " +:+ pretty status in
  match pe_error_type parsed, pe_message parsed with
  | Some error_type, Some message => prefix +:+ " (" +:+ error_type +:+ "): " +:+ message
  | None, Some message => prefix +:+ ": " +:+ message
  | Some error_type, None => prefix +:+ " (" +:+ error_type +:+ ")"
  | None, None => prefix
  end.

(** ** Estimated cost *)

Definition u128_max : N := 2 ^ 128 - 1.
Record CostDecimal := mk_cost { cd_digits : N; cd_scale : N }.
Definition cost_zero : CostDecimal := mk_cost 0 0.
Definition all_digits (s : string) : bool := forallb is_ascii_digit (bytes_of s).
(** [Decimal::parse]; [str::parse::<u128>] refuses what does not fit. *)
Definition cost_parse (value : string) : option CostDecimal :=
  let value := str_trim value in
  let '(whole, fraction) := default (value, EmptyString) (split_once (Ascii.eqb char_dot) value) in
  if (str_is_empty whole && str_is_empty fraction) || negb (all_digits whole) || negb (all_digits fraction)
     || (12 <? str_len fraction)%nat then None
  else
    let digits := decimal_digits_value (bytes_of (whole +:+ fraction)) in
    if u128_max <? digits then None else Some (mk_cost digits (N.of_nat (str_len fraction))).

(** Arithmetic on [u128], checked. *)
Definition u128_checked {E} (operation : string) (value : N) : Outcome E N :=
  if u128_max <? value then Panic ("attempt to " +:+ operation +:+ " with overflow") else Ok value.
Definition cost_rescale {E} (d : CostDecimal) (scale : N) : Outcome E N :=
  u128_checked "multiply" (cd_digits d * 10 ^ (scale - cd_scale d)).
Definition cost_add {E} (a b : CostDecimal) : Outcome E CostDecimal :=
  let scale := cd_scale a `max` cd_scale b in
  let? augend := cost_rescale a scale in
  let? addend := cost_rescale b scale in
  let? digits := u128_checked "add" (augend + addend) in
  Ok (mk_cost digits scale).
Definition mul_tokens {E} (d : CostDecimal) (tokens : N) : Outcome E CostDecimal :=
  let? digits := u128_checked "multiply" (cd_digits d * tokens) in
  Ok (mk_cost digits (cd_scale d)).
Definition per_million (d : CostDecimal) : CostDecimal := mk_cost (cd_digits d) (cd_scale d + 6).
(** [Display for Decimal]. *)
Definition cost_display (d : CostDecimal) : string :=
  let text := bytes_of (pretty (cd_digits d)) in
  let scale := N.to_nat (cd_scale d) in
  let '(whole, fraction) :=
    if (scale <? length text)%nat then (take (length text - scale) text, drop (length text - scale) text)
    else (bytes_of "0", repeat 48 (scale - length text) ++ text) in
  match trim_end_byte 48 fraction with
  | [] => string_of_bytes whole
  | fraction => string_of_bytes (whole ++ 46 :: fraction)
  end.

Record ModelPricing := mk_pricing { pr_input : string; pr_output : string; pr_cache_read : string; pr_cache_write : string }.
(** One line of [estimate_cost]: the [?] of [Decimal::parse], then the sum. *)
Definition add_priced {E} (total : CostDecimal) (price : string) (tokens factor : N) (rest : CostDecimal -> Outcome E (option string)) :
    Outcome E (option string) :=
  match cost_parse price with
  | None => Ok None
  | Some price =>
      let? cost := mul_tokens price tokens in
      let? cost := mul_tokens cost factor in
      let? total := cost_add total cost in
      rest total
  end.
Definition estimate_cost {E} (usage : AnthropicUsage) (pricing : ModelPricing) : Outcome E (option string) :=
  let short_write := nu_cache_write usage - nu_cache_write_1h usage in
  add_priced cost_zero (pr_input pricing) (nu_input usage) 1 (fun total =>
  add_priced total (pr_output pricing) (nu_output usage) 1 (fun total =>
  add_priced total (pr_cache_read pricing) (nu_cache_read usage) 1 (fun total =>
  add_priced total (pr_cache_write pricing) short_write 1 (fun total =>
  add_priced total (pr_input pricing) (nu_cache_write_1h usage) 2 (fun total =>
  Ok (Some (cost_display (per_million total)))))))).
