(* ===== verification/AnthropicPayload.v ===== *)
(** * tea-providers: the Anthropic request
    ([crates/tea-providers/src/anthropic/payload.rs], [config.rs], [catalog.rs])

    A request is built from the transcript prepared for the target model: its
    messages on the wire, the tools it declares, where its prompt is cached,
    how much it may think and answer, and the features it asks for.  The
    theorems show that every tool use on the wire is answered by the next
    message under a well-formed identity, and that the limits hold. *)

From stdpp Require Import base gmap sets list strings.
From S2P Require Import Prelude RustStr Json Ids SessionErrors Configuration Messages Transcript TranscriptProofs TranscriptJson.
From S2P Require Import CoreState SchemaValidation Tools Compaction RequestContext AgentLifecycle Measurement RunWorld AnthropicSse AnthropicEvents.

Local Open Scope N_scope.

(** ** Catalogue and configuration *)

Record AnthropicCompat := mk_compat {
  ac_reasoning : bool;
  ac_force_adaptive_thinking : bool;
  ac_mid_conversation_effort : bool;
  ac_mid_conversation_system_messages : bool;
  ac_mid_conversation_tool_changes : bool;
  ac_thinking_can_be_disabled : bool;
  ac_native_xhigh : bool;
  ac_native_max : bool;
  ac_supports_temperature : bool;
  ac_supports_long_cache_retention : bool;
  ac_eager_tool_input_streaming : bool;
  ac_cache_control_on_tools : bool;
  ac_allow_empty_signature : bool;
}.
Definition conservative : AnthropicCompat :=
  mk_compat false false false false false false false false true true true true false.
Definition managed_claude_5 : AnthropicCompat :=
  mk_compat true true true true true false true true false true true true false.
Definition budget_thinking : AnthropicCompat :=
  mk_compat true false false false false true false false true true true true false.

Record AnthropicModel := mk_anthropic_model {
  nm_id : string;
  nm_display_name : string;
  nm_context_window : N;
  nm_max_output_tokens : N;
  nm_compat : AnthropicCompat;
  nm_pricing : option ModelPricing;
}.
Definition ANTHROPIC_MODELS : list AnthropicModel :=
  [mk_anthropic_model "claude-opus-5-5" "Claude Opus 5.5" 200000 32000 managed_claude_5 None;
   mk_anthropic_model "claude-sonnet-5-5" "Claude Sonnet 5.5" 200000 32000 managed_claude_5 None;
   mk_anthropic_model "claude-fable-5-1" "Claude Fable 5.1" 200000 32000
     (mk_compat true true true true true false true true true true true true false) None;
   mk_anthropic_model "claude-haiku-4-5" "Claude Haiku 4.5" 200000 64000 budget_thinking
     (Some (mk_pricing "1" "5" "0.1" "1.25"))].
Definition listed_model (id : string) : option AnthropicModel := List.find (fun model => String.eqb (nm_id model) id) ANTHROPIC_MODELS.

Inductive CacheRetention := RetentionNone | RetentionShort | RetentionLong.
Definition retention_debug (r : CacheRetention) : string :=
  match r with RetentionNone => "None" | RetentionShort => "Short" | RetentionLong => "Long" end.
Inductive ThinkingDisplay := DisplaySummarized | DisplayOmitted.
Definition display_as_wire (d : ThinkingDisplay) : string := match d with DisplaySummarized => "summarized" | DisplayOmitted => "omitted" end.

(** [AnthropicConfig]; a duration is its number of nanoseconds.  The capture of requests is left out. *)
Record AnthropicConfig := mk_anthropic_config {
  nc_api_key : string;
  nc_model : string;
  nc_compat : AnthropicCompat;
  nc_context_window : option N;
  nc_max_output_tokens : N;
  nc_pricing : option ModelPricing;
  nc_cache_retention : CacheRetention;
  nc_thinking_display : ThinkingDisplay;
  nc_temperature : option F64;
  nc_request_timeout : N;
  nc_stall_timeout : N;
  nc_retry_policy : RetryPolicy;
  nc_maximum_retry_delay : N;
  nc_user_agent : string;
  nc_test_origin : option string;
}.
#[export] Instance anthropic_config_eta : Eta AnthropicConfig := fun c =>
  mk_anthropic_config (nc_api_key c) (nc_model c) (nc_compat c) (nc_context_window c) (nc_max_output_tokens c) (nc_pricing c)
    (nc_cache_retention c) (nc_thinking_display c) (nc_temperature c) (nc_request_timeout c) (nc_stall_timeout c) (nc_retry_policy c)
    (nc_maximum_retry_delay c) (nc_user_agent c) (nc_test_origin c).
Definition API_ORIGIN : string := "https://api.anthropic.com".
Definition API_VERSION : string := "2023-06-01".
Definition messages_url (config : AnthropicConfig) : string := default API_ORIGIN (nc_test_origin config) +:+ "/v1/messages".

Inductive AnthropicConfigError := EmptyField (field : string) | UnsafeApiKey | ZeroMaxTokens | ZeroTimeout | InvalidTemperature.
(** [AnthropicConfig::try_new]; the user agent carries the version of the package. *)
Definition config_try_new (api_key model user_agent : string) : Outcome AnthropicConfigError AnthropicConfig :=
  check? refuse_if (is_blank api_key) (EmptyField "API key") in
  check? refuse_if (existsb is_line_end (bytes_of api_key)) UnsafeApiKey in
  check? refuse_if (is_blank model) (EmptyField "model") in
  let listed := listed_model model in
  Ok (mk_anthropic_config api_key model (match listed with Some m => nm_compat m | None => conservative end)
        (nm_context_window <$> listed) (match listed with Some m => nm_max_output_tokens m | None => 4096 end)
        (listed ≫= nm_pricing) RetentionShort DisplaySummarized None (600 * NANOS_PER_SEC) (120 * NANOS_PER_SEC)
        retry_policy_standard (60 * NANOS_PER_SEC) user_agent None).
(** [with_max_output_tokens], [with_timeouts]. *)
Definition with_max_output_tokens (config : AnthropicConfig) (tokens : N) : Outcome AnthropicConfigError AnthropicConfig :=
  check? refuse_if (tokens =? 0) ZeroMaxTokens in
  Ok (config <| nc_max_output_tokens := tokens |>).
Definition with_timeouts (config : AnthropicConfig) (request stall : N) : Outcome AnthropicConfigError AnthropicConfig :=
  check? refuse_if ((request =? 0) || (stall =? 0)) ZeroTimeout in
  Ok (config <| nc_request_timeout := request |> <| nc_stall_timeout := stall |>).

(** ** Capabilities *)

Inductive MinimalOutputReplay := ReplaySafe | ReplaySafeWithoutThinking | ReplayUnsafe.
Record PromptCacheCapability := mk_cache_capability { pc_ttl_seconds : N; pc_minimal_output_replay : MinimalOutputReplay }.
Record ConfigurationUpdateSupport := mk_update_support { us_system_messages : bool; us_tool_changes : bool }.
Record ModelCapabilities := mk_capabilities {
  mc_configuration_updates : ConfigurationUpdateSupport;
  mc_exposes_thinking : bool;
  mc_prompt_cache : option PromptCacheCapability;
  mc_pricing : option ModelPricing;
  mc_context_window : option N;
}.
Definition SHORT_CACHE_TTL_SECONDS : N := 300.
Definition LONG_CACHE_TTL_SECONDS : N := 3600.
Definition minimal_output_replay (compat : AnthropicCompat) : MinimalOutputReplay :=
  if negb (ac_reasoning compat) || ac_force_adaptive_thinking compat then ReplaySafe else ReplaySafeWithoutThinking.
(** [AnthropicProvider::capabilities]. *)
Definition provider_capabilities (config : AnthropicConfig) : ModelCapabilities :=
  let compat := nc_compat config in
  let ttl_seconds := match nc_cache_retention config with
                     | RetentionNone => None
                     | RetentionShort => Some SHORT_CACHE_TTL_SECONDS
                     | RetentionLong => if ac_supports_long_cache_retention compat then Some LONG_CACHE_TTL_SECONDS else Some SHORT_CACHE_TTL_SECONDS
                     end in
  mk_capabilities (mk_update_support (ac_mid_conversation_system_messages compat) (ac_mid_conversation_tool_changes compat))
    (ac_reasoning compat) ((fun ttl => mk_cache_capability ttl (minimal_output_replay compat)) <$> ttl_seconds)
    (nc_pricing config) (nc_context_window config).

(** ** Pieces of a request *)

Definition FINE_GRAINED_TOOL_STREAMING_BETA : string := "fine-grained-tool-streaming-2025-05-14".
Definition INTERLEAVED_THINKING_BETA : string := "interleaved-thinking-2025-05-14".
Definition MID_CONVERSATION_OUTPUT_CONFIG_BETA : string := "mid-conversation-output-config-2026-07-01".
Definition THINKING_BINDING_CONTROLS_BETA : string := "thinking-binding-controls-2026-08-01".
Definition MID_CONVERSATION_TOOL_CHANGES_BETA : string := "mid-conversation-tool-changes-2026-07-01".
Definition DEFERRED_TOOL_PLACEHOLDER_NAME : string := "__tea_deferred_placeholder__".
Definition CONTEXT_SAFETY_TOKENS : N := 4096.
Definition MIN_ANSWER_TOKENS : N := 1024.

Record BuiltRequest := mk_built { bt_body : JsonValue; bt_betas : list string; bt_managed_effort : option string }.

Definition effort_for (level : ThinkingLevel) (compat : AnthropicCompat) : string :=
  match level with
  | Off | Minimal | Low => "low"
  | Medium => "medium"
  | High => "high"
  | XHigh => if ac_native_xhigh compat then "xhigh" else "high"
  | Max => if ac_native_max compat then "max" else "high"
  end.
Definition thinking_budget (level : ThinkingLevel) : N :=
  match level with
  | Off | Minimal => 1024
  | Low => 2048
  | Medium => 8192
  | High | XHigh | Max => 16384
  end.

(** [normalize_tool_call_id]. *)
Definition is_id_char (c : N) : bool := is_ascii_alphanumeric c || (c =? 95) || (c =? 45).
Definition normalize_tool_call_id (id : string) : string :=
  match take 64 (map (fun c => if is_id_char c then c else 95) (chars id)) with
  | [] => "_"
  | normalized => string_of_bytes normalized
  end.

Definition cache_control (config : AnthropicConfig) : option JsonValue :=
  let short := json_object [("type", JsonString "ephemeral")] in
  match nc_cache_retention config with
  | RetentionNone => None
  | RetentionShort => Some short
  | RetentionLong =>
      if ac_supports_long_cache_retention (nc_compat config)
      then Some (json_object [("type", JsonString "ephemeral"); ("ttl", JsonString "1h")]) else Some short
  end.

Definition text_block (text : string) : JsonValue := json_object [("type", JsonString "text"); ("text", JsonString text)].
Definition tool_reference_block (kind name : string) : JsonValue :=
  json_object [("type", JsonString kind);
               ("tool", json_object [("type", JsonString "tool_reference"); ("name", JsonString name)])].
(** [{role, content}]. *)
Definition wire_message (role : string) (content : JsonValue) : JsonValue :=
  json_object [("role", JsonString role); ("content", content)].
(** [as_object_mut] and [insert]. *)
Definition object_insert (key : string) (value : JsonValue) (object : JsonValue) : JsonValue :=
  match object with JsonObject fields => JsonObject (btree_insert key value fields) | _ => object end.

(** [convert_tools]. *)
Definition convert_tool (compat : AnthropicCompat) (control : option JsonValue) (tool : ToolDeclaration) : JsonValue :=
  json_object
    ([("name", JsonString (td_name tool)); ("description", JsonString (td_description tool))]
     ++ (if ac_eager_tool_input_streaming compat then [("eager_input_streaming", JsonBool true)] else [])
     ++ [("input_schema",
          json_object [("type", JsonString "object");
                       ("properties", default (json_object []) (json_get "properties" (td_schema tool)));
                       ("required", default (JsonArray []) (json_get "required" (td_schema tool)))])]
     ++ match control with Some control => [("cache_control", control)] | None => [] end).
Fixpoint convert_tools (compat : AnthropicCompat) (control : option JsonValue) (tools : list ToolDeclaration) : list JsonValue :=
  match tools with
  | [] => []
  | [tool] => [convert_tool compat control tool]
  | tool :: tools => convert_tool compat None tool :: convert_tools compat control tools
  end.

(** ** Messages *)

Section messages.
Context `{Miniserde}.

(** The locals of [convert_messages]. *)
Record Converting := mk_converting {
  cv_params : list JsonValue;
  cv_assistant_efforts : gmap nat string;
  cv_pending_system : list JsonValue;
  cv_tool_ids : gmap string string;
}.
Definition converting_start : Converting := mk_converting [] ∅ [] ∅.
Definition push_param (s : Converting) (message : JsonValue) : Converting :=
  mk_converting (cv_params s ++ [message]) (cv_assistant_efforts s) (cv_pending_system s) (cv_tool_ids s).
Definition flush_system (s : Converting) : Converting :=
  mk_converting (cv_params s ++ cv_pending_system s) (cv_assistant_efforts s) [] (cv_tool_ids s).

(** [AgentMessage::System]. *)
Definition system_blocks (native_tool_changes : bool) (update : ConfigurationUpdate) : list JsonValue :=
  let text := render_update_text update in
  (if str_is_empty text then [] else [text_block text])
  ++ (if native_tool_changes
      then map (tool_reference_block "tool_removal") (cu_tools_removed update)
           ++ map (fun tool => tool_reference_block "tool_addition" (td_name tool)) (cu_tools_added update)
      else []).
Definition convert_system (native_tool_changes : bool) (update : ConfigurationUpdate) (s : Converting) : Converting :=
  match system_blocks native_tool_changes update with
  | [] => s
  | blocks => mk_converting (cv_params s) (cv_assistant_efforts s)
                (cv_pending_system s ++ [wire_message "system" (JsonArray blocks)]) (cv_tool_ids s)
  end.

(** [AgentMessage::Assistant]. *)
Definition is_own (kind : string) (item : OpaqueItem) : bool := String.eqb (oi_provider item) PROVIDER_ID && String.eqb (oi_kind item) kind.
Definition thinking_block (text signature : string) : JsonValue :=
  json_object [("type", JsonString "thinking"); ("thinking", JsonString text); ("signature", JsonString signature)].
Definition content_block (compat : AnthropicCompat) (block : AssistantContent) : option JsonValue :=
  match block with
  | Text text => if is_blank text then None else Some (text_block text)
  | Thinking text signature =>
      match signature with
      | Some item =>
          if is_own SIGNATURE_CONTEXT_KIND item && negb (is_blank (oi_payload item)) then Some (thinking_block text (oi_payload item))
          else if ac_allow_empty_signature compat && negb (is_blank text) then Some (thinking_block text EmptyString) else None
      | None => if ac_allow_empty_signature compat && negb (is_blank text) then Some (thinking_block text EmptyString) else None
      end
  | Messages.RedactedThinking data =>
      if is_own REDACTED_THINKING_CONTEXT_KIND data
      then Some (json_object [("type", JsonString "redacted_thinking"); ("data", JsonString (oi_payload data))]) else None
  end.
Definition call_input (call : AgentToolCall) : JsonValue :=
  match json_parse (tc_arguments call) with
  | Ok (JsonObject fields) => JsonObject fields
  | _ => json_object []
  end.
Definition call_block (call : AgentToolCall) : JsonValue :=
  json_object [("type", JsonString "tool_use"); ("id", JsonString (normalize_tool_call_id (tc_id call)));
               ("name", JsonString (tc_name call)); ("input", call_input call)].
Definition convert_assistant (compat : AnthropicCompat) (a : AssistantMessage) (s : Converting) : Converting :=
  let s := flush_system s in
  let blocks := omap (content_block compat) (am_content a) ++ map call_block (am_tool_calls a) in
  let tool_ids := foldl (fun ids call => <[tc_id call := normalize_tool_call_id (tc_id call)]> ids) (cv_tool_ids s) (am_tool_calls a) in
  match blocks with
  | [] => mk_converting (cv_params s) (cv_assistant_efforts s) (cv_pending_system s) tool_ids
  | _ =>
      let efforts := match List.find (is_own EFFORT_CONTEXT_KIND) (am_opaque_context a) with
                     | Some effort => if ac_mid_conversation_effort compat
                                      then <[length (cv_params s) := oi_payload effort]> (cv_assistant_efforts s) else cv_assistant_efforts s
                     | None => cv_assistant_efforts s
                     end in
      push_param (mk_converting (cv_params s) efforts (cv_pending_system s) tool_ids) (wire_message "assistant" (JsonArray blocks))
  end.

(** [AgentMessage::ToolResult]: consecutive results form one message. *)
Definition result_text (r : ToolResultMessage) : string :=
  match tr_details r with
  | Some details =>
      tr_content r +:+ newline +:+ "[tool details (serialized JSON): "
      +:+ truncate_middle details (pp_max_details_bytes projection_default) +:+ "]"
  | None => tr_content r
  end.
Definition result_block (tool_ids : gmap string string) (r : ToolResultMessage) : JsonValue :=
  json_object [("type", JsonString "tool_result");
               ("tool_use_id", JsonString (default (normalize_tool_call_id (tr_tool_call_id r)) (tool_ids !! tr_tool_call_id r)));
               ("content", JsonString (result_text r)); ("is_error", JsonBool (tr_is_error r))].
Fixpoint split_results (messages : list AgentMessage) : list ToolResultMessage * list AgentMessage :=
  match messages with
  | ToolResult r :: messages => let '(results, rest) := split_results messages in (r :: results, rest)
  | _ => ([], messages)
  end.

(** The loop of [convert_messages]; each round consumes a message. *)
Fixpoint convert_loop (fuel : nat) (compat : AnthropicCompat) (native_tool_changes : bool) (messages : list AgentMessage) (s : Converting) :
    Converting :=
  match fuel, messages with
  | S fuel, System _ update :: rest => convert_loop fuel compat native_tool_changes rest (convert_system native_tool_changes update s)
  | S fuel, User _ content :: rest =>
      convert_loop fuel compat native_tool_changes rest
        (if is_blank content then s else push_param s (wire_message "user" (JsonString content)))
  | S fuel, Assistant a :: rest => convert_loop fuel compat native_tool_changes rest (convert_assistant compat a s)
  | S fuel, ToolResult _ :: _ =>
      let '(results, rest) := split_results messages in
      convert_loop fuel compat native_tool_changes rest
        (push_param s (wire_message "user" (JsonArray (map (result_block (cv_tool_ids s)) results))))
  | _, _ => s
  end.

(** The cache breakpoint on the last message. *)
Definition is_role (roles : list string) (message : JsonValue) : bool :=
  match json_get "role" message ≫= json_as_str with Some role => bool_decide (role ∈ roles) | None => false end.
Definition is_type (types : list string) (block : JsonValue) : bool :=
  match json_get "type" block ≫= json_as_str with Some type => bool_decide (type ∈ types) | None => false end.
Definition mark_block (control block : JsonValue) : JsonValue :=
  if is_type ["text"; "tool_result"; "tool_addition"; "tool_removal"] block then object_insert "cache_control" control block else block.
Fixpoint update_last {A} (f : A -> A) (l : list A) : list A :=
  match l with [] => [] | [x] => [f x] | x :: l => x :: update_last f l end.
Definition mark_message (control message : JsonValue) : JsonValue :=
  if is_role ["user"; "system"] message then
    match json_get "content" message with
    | Some (JsonString text) =>
        object_insert "content" (JsonArray [json_object [("type", JsonString "text"); ("text", JsonString text); ("cache_control", control)]]) message
    | Some (JsonArray blocks) => object_insert "content" (JsonArray (update_last (mark_block control) blocks)) message
    | _ => message
    end
  else message.

(** [convert_messages]; it never fails. *)
Definition note_message (in_place : bool) (note : string) : JsonValue :=
  wire_message (if in_place then "system" else "user") (JsonArray [text_block note]).
Definition convert_messages (messages : list AgentMessage) (host_notes : list string) (control : option JsonValue)
    (compat : AnthropicCompat) (native_tool_changes in_place : bool) : list JsonValue * gmap nat string :=
  let s := flush_system (convert_loop (length messages) compat native_tool_changes messages converting_start) in
  let params := cv_params s ++ map (note_message in_place) host_notes in
  (match control with Some control => update_last (mark_message control) params | None => params end, cv_assistant_efforts s).

(** [insert_effort_markers]. *)
Definition effort_marker (effort : string) : JsonValue :=
  json_object [("role", JsonString "system"); ("content", JsonArray []);
               ("output_config", json_object [("effort", JsonString effort)])].
Fixpoint marked_from (index : nat) (efforts : gmap nat string) (messages : list JsonValue) : list JsonValue :=
  match messages with
  | [] => []
  | message :: messages =>
      match efforts !! index with Some effort => [effort_marker effort] | None => [] end
      ++ message :: marked_from (S index) efforts messages
  end.
Definition insert_effort_markers (converted : list JsonValue * gmap nat string) (active : string) : list JsonValue :=
  marked_from 0 converted.2 converted.1 ++ [effort_marker active].

(** ** Limits *)

(** [clamp_to_context]; [layout_context] may stop the program. *)
Definition tool_bytes (tool : ToolDeclaration) : N :=
  utf8_len (td_name tool) + utf8_len (td_description tool) + match to_json_string (td_schema tool) with Ok schema => utf8_len schema | _ => 0 end.
Definition char_count (s : string) : N := N.of_nat (length (chars s)).
Definition available_tokens (window characters : N) : N := (window - (characters + 3) / 4 - CONTEXT_SAFETY_TOKENS) `max` 1.
Definition clamp_to_context `{Blake3} {E} (config : AnthropicConfig) (t : Transcript) (max_tokens : N) : Outcome E N :=
  match nc_context_window config with
  | None => Ok (max_tokens `max` 1)
  | Some window =>
      let resolved := resolve t Collapsed in
      let? layout := layout_context t Collapsed in
      let characters := char_count (configuration_prompt (rt_leading resolved)) + char_count layout
                        + foldl N.add 0 (map tool_bytes (ec_tools (rt_leading resolved))) in
      Ok ((max_tokens `min` available_tokens window characters) `max` 1)
  end.

(** The limits before and after the clamp. *)
Definition thinking_is_on (config : AnthropicConfig) (request : ModelRequest) : bool :=
  ac_reasoning (nc_compat config) && match mr_thinking_level request with Off => false | _ => true end.
Definition has_budget (config : AnthropicConfig) (request : ModelRequest) : bool :=
  ac_reasoning (nc_compat config) && negb (ac_force_adaptive_thinking (nc_compat config)) && thinking_is_on config request.
Definition wanted_tokens (config : AnthropicConfig) (request : ModelRequest) : N :=
  if has_budget config request then
    match mr_max_output_tokens request with
    | Some cap => u32_saturating_add cap (thinking_budget (mr_thinking_level request)) `min` nc_max_output_tokens config
    | None => nc_max_output_tokens config
    end
  else default (nc_max_output_tokens config) (mr_max_output_tokens request).
Definition wanted_budget (config : AnthropicConfig) (request : ModelRequest) : option N :=
  if has_budget config request then
    let wanted := thinking_budget (mr_thinking_level request) in
    let max_tokens := wanted_tokens config request in
    Some (if max_tokens <=? wanted then wanted `min` (max_tokens - MIN_ANSWER_TOKENS) else wanted)
  else None.
Definition clamped_budget (max_tokens : N) (budget : option N) : option N := (fun thinking => thinking `min` (max_tokens - MIN_ANSWER_TOKENS)) <$> budget.

(** ** The request *)

Definition placeholder_tool : JsonValue :=
  json_object [("name", JsonString DEFERRED_TOOL_PLACEHOLDER_NAME);
               ("description", JsonString "Reserved placeholder. Never available. Never call this.");
               ("input_schema", json_object [("type", JsonString "object"); ("properties", json_object []); ("required", JsonArray [])]);
               ("defer_loading", JsonBool true)].
Definition request_tools (compat : AnthropicCompat) (control : option JsonValue) (native_tool_changes : bool) (t : Transcript)
    (initial_tools : list ToolDeclaration) : list (string * JsonValue) :=
  let control := if ac_cache_control_on_tools compat then control else None in
  let current_tools := transcript_tools t in
  if native_tool_changes then
    let later := List.filter (fun tool => negb (bool_decide (td_name tool ∈ map td_name initial_tools))) (declared_tools t) in
    [("tools", JsonArray (convert_tools compat control initial_tools ++ [placeholder_tool]
                          ++ map (object_insert "defer_loading" (JsonBool true)) (convert_tools compat None later)))]
  else if is_nil current_tools then [] else [("tools", JsonArray (convert_tools compat control current_tools))].

Definition request_thinking (config : AnthropicConfig) (request : ModelRequest) (budget : option N) : list (string * JsonValue) :=
  let compat := nc_compat config in
  let display := ("display", JsonString (display_as_wire (nc_thinking_display config))) in
  if ac_mid_conversation_effort compat then
    [("thinking", json_object [("type", JsonString "adaptive"); display;
        ("block_binding", json_object [("prefix_mismatch_behavior", JsonString "drop_block")])]);
     ("output_config", json_object [("effort", JsonString "high")])]
  else if ac_reasoning compat then
    if thinking_is_on config request then
      if ac_force_adaptive_thinking compat then
        [("thinking", json_object [("type", JsonString "adaptive"); display]);
         ("output_config", json_object [("effort", JsonString (effort_for (mr_thinking_level request) compat))])]
      else [("thinking", json_object [("type", JsonString "enabled"); ("budget_tokens", JsonNum (Unsigned (default 1024 budget))); display])]
    else if ac_thinking_can_be_disabled compat then [("thinking", json_object [("type", JsonString "disabled")])] else []
  else [].

Definition request_betas (config : AnthropicConfig) (request : ModelRequest) (native_tool_changes has_tools : bool) : list string :=
  let compat := nc_compat config in
  (if has_tools && negb (ac_eager_tool_input_streaming compat) then [FINE_GRAINED_TOOL_STREAMING_BETA] else [])
  ++ (if ac_reasoning compat && thinking_is_on config request && negb (ac_force_adaptive_thinking compat) then [INTERLEAVED_THINKING_BETA] else [])
  ++ (if ac_mid_conversation_effort compat then [MID_CONVERSATION_OUTPUT_CONFIG_BETA; THINKING_BINDING_CONTROLS_BETA] else [])
  ++ (if native_tool_changes then [MID_CONVERSATION_TOOL_CHANGES_BETA] else []).

Definition request_temperature (config : AnthropicConfig) (request : ModelRequest) : Outcome JsonError (list (string * JsonValue)) :=
  match nc_temperature config with
  | Some temperature =>
      if negb (thinking_is_on config request) && negb (ac_mid_conversation_effort (nc_compat config)) && ac_supports_temperature (nc_compat config)
      then let? value := json_number (Float temperature) in Ok [("temperature", value)] else Ok []
  | None => Ok []
  end.

Definition request_system (control : option JsonValue) (prompt : string) : list (string * JsonValue) :=
  if str_is_empty prompt then []
  else [("system", JsonArray [json_object ([("type", JsonString "text"); ("text", JsonString prompt)]
                              ++ match control with Some control => [("cache_control", control)] | None => [] end)])].

(** Whether tool changes are sent in place, and the messages on the wire. *)
Definition native_changes (compat : AnthropicCompat) (t : Transcript) (initial_tools : list ToolDeclaration) : bool :=
  ac_mid_conversation_system_messages compat && ac_mid_conversation_tool_changes compat && negb (is_nil initial_tools)
  && negb (has_tool_redefinitions t).
Definition request_projection (compat : AnthropicCompat) : ConfigurationProjection :=
  if ac_mid_conversation_system_messages compat then InPlace else Collapsed.
Definition active_effort (config : AnthropicConfig) (request : ModelRequest) : option string :=
  if ac_mid_conversation_effort (nc_compat config) then Some (effort_for (mr_thinking_level request) (nc_compat config)) else None.
Definition request_messages (config : AnthropicConfig) (request : ModelRequest) (t : Transcript) : list JsonValue :=
  let compat := nc_compat config in
  let resolved := resolve t (request_projection compat) in
  let converted := convert_messages (rt_messages resolved) (rt_host_notes resolved) (cache_control config) compat
    (native_changes compat t (ec_tools (rt_leading resolved))) (ac_mid_conversation_system_messages compat) in
  match active_effort config request with Some effort => insert_effort_markers converted effort | None => converted.1 end.

(** [build_request]. *)
Definition build_request `{Blake3} (config : AnthropicConfig) (request : ModelRequest) : Outcome JsonError BuiltRequest :=
  let compat := nc_compat config in
  let t := prepared_for (mr_transcript request) (mr_model request) in
  let resolved := resolve t (request_projection compat) in
  let initial_tools := ec_tools (rt_leading resolved) in
  let native_tool_changes := native_changes compat t initial_tools in
  let control := cache_control config in
  let? max_tokens := clamp_to_context config (mr_transcript request) (wanted_tokens config request) in
  let budget := clamped_budget max_tokens (wanted_budget config request) in
  let? temperature := request_temperature config request in
  Ok (mk_built
        (json_object
           ([("model", JsonString (nc_model config)); ("messages", JsonArray (request_messages config request t));
             ("max_tokens", JsonNum (Unsigned max_tokens)); ("stream", JsonBool true)]
            ++ request_system control (configuration_prompt (rt_leading resolved)) ++ temperature
            ++ request_tools compat control native_tool_changes t initial_tools ++ request_thinking config request budget))
        (request_betas config request native_tool_changes (negb (is_nil (transcript_tools t))))
        (active_effort config request)).
End messages.

(** ** Tool uses on the wire are answered *)

Definition wire_blocks (message : JsonValue) : list JsonValue :=
  match json_get "content" message with Some (JsonArray blocks) => blocks | _ => [] end.
Definition block_field (type key : string) (block : JsonValue) : option string :=
  if is_type [type] block then json_get key block ≫= json_as_str else None.
Definition tool_use_ids (message : JsonValue) : list string :=
  if is_role ["assistant"] message then omap (block_field "tool_use" "id") (wire_blocks message) else [].
Definition tool_result_ids (message : JsonValue) : list string :=
  if is_role ["user"] message then omap (block_field "tool_result" "tool_use_id") (wire_blocks message) else [].
(** The uses of a message are answered by the next one. *)
Definition answered_by (uses : list string) (rest : list JsonValue) : bool :=
  match uses, rest with
  | [], _ => true
  | _, next :: _ => forallb (fun id => bool_decide (id ∈ tool_result_ids next)) uses
  | _, [] => false
  end.
Fixpoint wire_paired (messages : list JsonValue) : bool :=
  match messages with
  | [] => true
  | message :: rest => answered_by (tool_use_ids message) rest && wire_paired rest
  end.

(** The identities Anthropic accepts. *)
Definition wire_id (id : string) : bool := (1 <=? str_len id)%nat && (str_len id <=? 64)%nat && forallb is_id_char (bytes_of id).
Definition uses_valid (messages : list JsonValue) : Prop := Forall (fun m => Forall (fun id => wire_id id = true) (tool_use_ids m)) messages.

Lemma uses_valid_plain l : Forall (fun m => tool_use_ids m = []) l -> uses_valid l.
Proof. intros Hl. eapply Forall_impl; [exact Hl|]. cbn. intros m ->. constructor. Qed.
Lemma normalized_valid id : wire_id (normalize_tool_call_id id) = true.
Proof.
  unfold normalize_tool_call_id. destruct (take 64 _) as [|c l] eqn:Ht; [done|].
  assert (Hc : forallb is_id_char (c :: l) = true).
  { rewrite <-Ht. apply forallb_forall. intros x Hx%list_elem_of_In%elem_of_take. destruct Hx as (i & Hi & _).
    apply list_elem_of_lookup_2, list_elem_of_In, in_map_iff in Hi as (y & <- & _). by destruct (is_id_char y) eqn:Hy. }
  assert (Hlen : (length (c :: l) <= 64)%nat) by (rewrite <-Ht, length_take; lia).
  assert (Hb : bytes_of (string_of_bytes (c :: l)) = c :: l).
  { apply bytes_of_string_of_bytes. rewrite forallb_forall in Hc. apply Forall_forall. intros x Hx%list_elem_of_In%Hc.
    unfold is_id_char, is_ascii_alphanumeric, is_ascii_digit, is_ascii_lowercase, is_ascii_uppercase in Hx. lia. }
  unfold wire_id, str_len. rewrite <-length_bytes_of, Hb, Hc, andb_true_r. apply andb_true_iff. split; apply Nat.leb_le; cbn in *; lia.
Qed.

Lemma wire_paired_app l k : wire_paired l = true -> wire_paired k = true -> wire_paired (l ++ k) = true.
Proof.
  intros Hl Hk. induction l as [|m l IH]; [done|]. cbn in *. apply andb_true_iff in Hl as [Hm Hl]. rewrite (IH Hl), andb_true_r.
  destruct (tool_use_ids m); [done|]. by destruct l.
Qed.
Lemma wire_paired_plain l : Forall (fun m => tool_use_ids m = []) l -> wire_paired l = true.
Proof. induction 1 as [|m l Hm _ IH]; [done|]. cbn. by rewrite Hm, IH. Qed.

(** A message in front of one that answers nothing. *)
Lemma wire_paired_insert l m k : tool_result_ids m = [] -> wire_paired (l ++ m :: k) = true ->
  wire_paired l = true /\ wire_paired (m :: k) = true.
Proof.
  intros Hm. induction l as [|x l IH]; [done|]. cbn [app wire_paired]. intros [Hx Hrest]%andb_true_iff.
  destruct (IH Hrest) as [Hl Hk]. split; [|done]. rewrite Hl, andb_true_r. destruct (tool_use_ids x) as [|id ids]; [done|].
  destruct l; [|done]. cbn in Hx. by rewrite Hm in Hx.
Qed.
(** Replacing the last message by one that answers no less. *)
Lemma wire_paired_last l m m' : tool_use_ids m' = tool_use_ids m -> (forall id, id ∈ tool_result_ids m -> id ∈ tool_result_ids m') ->
  wire_paired (l ++ [m]) = true -> wire_paired (l ++ [m']) = true.
Proof.
  intros Hu Hr. induction l as [|x l IH]; cbn [app wire_paired]; [by rewrite Hu|]. intros [Hx Hrest]%andb_true_iff.
  rewrite (IH Hrest), andb_true_r. destruct (tool_use_ids x) as [|id ids]; [done|]. destruct l as [|y l]; [|done].
  cbn [app answered_by] in *. rewrite forallb_forall in *. intros i Hi. apply bool_decide_eq_true, Hr. by apply Hx in Hi as ?%bool_decide_eq_true.
Qed.

Section pairing.
Context `{Miniserde}.

Lemma wire_message_fields role content :
  json_get "role" (wire_message role content) = Some (JsonString role) /\ json_get "content" (wire_message role content) = Some content.
Proof. done. Qed.
Lemma call_block_use call : block_field "tool_use" "id" (call_block call) = Some (normalize_tool_call_id (tc_id call)).
Proof. reflexivity. Qed.
Lemma content_block_use compat block b : content_block compat block = Some b -> block_field "tool_use" "id" b = None.
Proof. destruct block; cbn; intros Hb; repeat case_match; simplify_eq; reflexivity. Qed.

Lemma assistant_message_uses blocks : tool_use_ids (wire_message "assistant" (JsonArray blocks)) = omap (block_field "tool_use" "id") blocks.
Proof. reflexivity. Qed.
Lemma other_message_uses role content : role <> "assistant" -> tool_use_ids (wire_message role content) = [].
Proof.
  intros Hr. unfold tool_use_ids, is_role. rewrite (proj1 (wire_message_fields role content)). cbn [mbind option_bind json_as_str].
  rewrite bool_decide_eq_false_2; [done|]. set_solver.
Qed.
Lemma assistant_uses compat content calls :
  tool_use_ids (wire_message "assistant" (JsonArray (omap (content_block compat) content ++ map call_block calls)))
  = map (fun call => normalize_tool_call_id (tc_id call)) calls.
Proof.
  rewrite assistant_message_uses, omap_app.
  assert (Hc : omap (block_field "tool_use" "id") (omap (content_block compat) content) = []).
  { induction content as [|block content IH]; [done|]. cbn [omap list_omap]. destruct (content_block compat block) eqn:Hb; [|done].
    apply content_block_use in Hb. cbn [omap list_omap]. by rewrite Hb. }
  rewrite Hc. cbn [app]. induction calls as [|call calls IH]; [done|]. cbn [map omap list_omap]. by rewrite call_block_use, <-IH.
Qed.
Lemma results_message_ids tool_ids results :
  tool_result_ids (wire_message "user" (JsonArray (map (result_block tool_ids) results)))
  = map (fun r => default (normalize_tool_call_id (tr_tool_call_id r)) (tool_ids !! tr_tool_call_id r)) results.
Proof.
  change (tool_result_ids _) with (omap (block_field "tool_result" "tool_use_id") (map (result_block tool_ids) results)).
  induction results as [|r results IH]; [done|]. cbn [map omap list_omap]. rewrite <-IH. reflexivity.
Qed.

(** What the loop keeps, with the calls still open. *)
Record converted_ok (open : list string) (s : Converting) : Prop := mk_converted_ok {
  co_ids : forall id wire, cv_tool_ids s !! id = Some wire -> wire = normalize_tool_call_id id;
  co_pending : Forall (fun m => tool_use_ids m = []) (cv_pending_system s);
  co_efforts : forall i effort, cv_assistant_efforts s !! i = Some effort -> exists m, cv_params s !! i = Some m /\ tool_result_ids m = [];
  co_valid : uses_valid (cv_params s);
  co_params : open = [] /\ wire_paired (cv_params s) = true \/
    open <> [] /\ exists l m, cv_params s = l ++ [m] /\ wire_paired l = true /\ tool_use_ids m = map normalize_tool_call_id open;
}.

Lemma walk_None l : foldl walk None l = None.
Proof. by induction l. Qed.
Lemma efforts_kept (efforts : gmap nat string) params more :
  (forall i effort, efforts !! i = Some effort -> exists m, params !! i = Some m /\ tool_result_ids m = []) ->
  forall i effort, efforts !! i = Some effort -> exists m, (params ++ more) !! i = Some m /\ tool_result_ids m = [].
Proof. intros He i effort Hi. apply He in Hi as (m & Hm & Ht). exists m. split; [|done]. by apply lookup_app_l_Some. Qed.

Lemma push_plain_ok s m : tool_use_ids m = [] -> converted_ok [] s -> converted_ok [] (push_param s m).
Proof.
  intros Hm [Hi Hp He Hv [[_ Hw]|[? _]]]; [|done].
  constructor; cbn; [done|done|by apply efforts_kept|apply Forall_app; split; [done|by apply uses_valid_plain; constructor]|].
  left. split; [done|]. apply wire_paired_app; [done|]. by apply wire_paired_plain; constructor.
Qed.
Lemma flush_ok s : converted_ok [] s -> converted_ok [] (flush_system s).
Proof.
  intros [Hi Hp He Hv [[_ Hw]|[? _]]]; [|done].
  constructor; cbn; [done|constructor|by apply efforts_kept|apply Forall_app; split; [done|by apply uses_valid_plain]|].
  left. split; [done|]. apply wire_paired_app; [done|]. by apply wire_paired_plain.
Qed.
Lemma convert_system_ok native update s : converted_ok [] s -> converted_ok [] (convert_system native update s).
Proof.
  intros Hs. unfold convert_system. destruct (system_blocks native update) as [|b blocks]; [done|]. destruct Hs as [Hi Hp He Hv Hw].
  constructor; cbn; try done. apply Forall_app. split; [done|]. constructor; [|constructor]. by apply other_message_uses.
Qed.

Lemma record_ids calls : forall ids : gmap string string, (forall id wire, ids !! id = Some wire -> wire = normalize_tool_call_id id) ->
  forall id wire, foldl (fun ids call => <[tc_id call := normalize_tool_call_id (tc_id call)]> ids) ids calls !! id = Some wire ->
  wire = normalize_tool_call_id id.
Proof.
  induction calls as [|call calls IH]; intros ids Hids; [done|]. cbn. apply IH. intros id wire.
  rewrite lookup_insert_Some. intros [[<- <-]|[_ Hw]]; [done|by apply Hids].
Qed.
Lemma convert_assistant_ok compat a s : converted_ok [] s -> converted_ok (map tc_id (am_tool_calls a)) (convert_assistant compat a s).
Proof.
  intros Hs%flush_ok. unfold convert_assistant. set (t := flush_system s) in *. destruct Hs as [Hi Hp He Hv [[_ Hw]|[? _]]]; [|done].
  set (blocks := omap (content_block compat) (am_content a) ++ map call_block (am_tool_calls a)).
  pose proof (record_ids (am_tool_calls a) (cv_tool_ids t) Hi) as Hids.
  destruct blocks as [|b rest] eqn:Hb.
  - apply app_nil in Hb as [_ Hc%map_eq_nil]. rewrite Hc in *. constructor; cbn; auto.
  - set (m := wire_message "assistant" (JsonArray (b :: rest))).
    assert (Huses : tool_use_ids m = map normalize_tool_call_id (map tc_id (am_tool_calls a))).
    { unfold m. rewrite <-Hb. unfold blocks. rewrite assistant_uses, map_map. done. }
    constructor; cbn -[m]; [done|done| | |].
    + assert (Hlast : (cv_params t ++ [m]) !! length (cv_params t) = Some m /\ tool_result_ids m = []).
      { split; [|done]. by apply list_lookup_middle. }
      intros i effort. destruct (List.find _ _) as [item|]; [destruct (ac_mid_conversation_effort compat)|]; try by apply efforts_kept.
      rewrite lookup_insert_Some. intros [[<- _]|[_ Hi']]; [by exists m|]. by eapply efforts_kept.
    + apply Forall_app. split; [done|]. constructor; [|constructor]. rewrite Huses. apply Forall_forall. intros id Hid.
      apply list_elem_of_In, in_map_iff in Hid as (x & <- & _). apply normalized_valid.
    + destruct (am_tool_calls a) as [|call calls]; [left|right].
      * split; [done|]. apply wire_paired_app; [done|]. apply wire_paired_plain. by constructor.
      * split; [done|]. by exists (cv_params t), m.
Qed.

(** A group of results. *)
Lemma split_results_spec messages results rest : split_results messages = (results, rest) ->
  messages = map ToolResult results ++ rest /\ match rest with ToolResult _ :: _ => False | _ => True end.
Proof.
  revert results rest. induction messages as [|m messages IH]; intros results rest; cbn; [by intros [= <- <-]|].
  destruct m; try (by intros [= <- <-]). destruct (split_results messages) as [results' rest'].
  intros [= <- <-]. destruct (IH _ _ eq_refl) as [-> ?]. done.
Qed.
Lemma walk_results results : forall open, exists open', foldl walk (Some open) (map ToolResult results) = Some open' /\
  forall id, id ∈ open -> id ∈ map tr_tool_call_id results \/ id ∈ open'.
Proof.
  induction results as [|r results IH]; intros open; cbn [map foldl walk]; [eauto|].
  destruct (IH (List.filter (fun id => negb (String.eqb id (tr_tool_call_id r))) open)) as (open' & -> & Hopen). exists open'. split; [done|].
  intros id Hid. destruct (String.eqb_spec id (tr_tool_call_id r)) as [->|Hne]; [left; by left|].
  destruct (Hopen id) as [Hin|Hin]; [|left; by right|by right]. apply list_elem_of_In, filter_In. rewrite <-list_elem_of_In.
  split; [done|]. by apply negb_true_iff, String.eqb_neq.
Qed.
Lemma walk_closed open rest : match rest with ToolResult _ :: _ => False | _ => True end -> foldl walk (Some open) rest = Some [] -> open = [].
Proof. destruct rest as [|[]]; cbn; intros Hr; [by intros [= ->]|..]; try done; destruct open; try done; by rewrite walk_None. Qed.

Lemma results_ok open results rest s : converted_ok open s -> match rest with ToolResult _ :: _ => False | _ => True end ->
  foldl walk (Some open) (map ToolResult results ++ rest) = Some [] ->
  converted_ok [] (push_param s (wire_message "user" (JsonArray (map (result_block (cv_tool_ids s)) results)))) /\
  foldl walk (Some []) rest = Some [].
Proof.
  intros [Hi Hp He Hv Hw] Hrest. rewrite foldl_app. destruct (walk_results results open) as (open' & -> & Hopen).
  intros Hwalk. pose proof (walk_closed _ _ Hrest Hwalk) as ->. split; [|done].
  set (group := wire_message "user" _). assert (Hg : tool_use_ids group = []) by by apply other_message_uses.
  constructor; cbn -[group]; [done|done|by apply efforts_kept|apply Forall_app; split; [done|by apply uses_valid_plain; constructor]|].
  left. split; [done|]. destruct Hw as [[-> Hw]|(Hne & l & m & -> & Hl & Hm)].
  - apply wire_paired_app; [done|]. by apply wire_paired_plain; constructor.
  - rewrite <-app_assoc. apply wire_paired_app; [done|]. cbn -[group]. rewrite Hg, andb_true_r. rewrite Hm.
    destruct (map normalize_tool_call_id open) as [|x xs] eqn:Hx; [done|]. cbn [answered_by]. rewrite <-Hx.
    apply forallb_forall. intros wire Hin. apply in_map_iff in Hin as (id & <- & Hid%list_elem_of_In).
    destruct (Hopen id Hid) as [Hr|Hr%not_elem_of_nil]; [|done]. apply bool_decide_eq_true. unfold group. rewrite results_message_ids.
    apply list_elem_of_In, in_map_iff. apply list_elem_of_In, in_map_iff in Hr as (r & <- & Hr). exists r. split; [|done].
    destruct (cv_tool_ids s !! tr_tool_call_id r) as [wire|] eqn:Hlook; [by apply Hi in Hlook as ->|done].
Qed.

Lemma convert_loop_ok compat native fuel : forall messages open s, (length messages <= fuel)%nat -> converted_ok open s ->
  foldl walk (Some open) messages = Some [] -> converted_ok [] (convert_loop fuel compat native messages s).
Proof.
  induction fuel as [|fuel IH]; intros messages open s Hlen Hs Hwalk.
  - destruct messages; [|cbn in Hlen; lia]. injection Hwalk as ->. done.
  - destruct messages as [|m messages]; [injection Hwalk as ->; done|]. destruct m as [id content|a|r|id update].
    + cbn [foldl walk] in Hwalk. destruct open; cbn [is_nil] in Hwalk; [|by rewrite walk_None in Hwalk]. cbn [convert_loop].
      eapply IH; [cbn in Hlen; lia| |exact Hwalk]. destruct (is_blank content); [done|]. apply push_plain_ok; [|done].
      by apply other_message_uses.
    + cbn [foldl walk] in Hwalk. destruct open; cbn [is_nil] in Hwalk; [|by rewrite walk_None in Hwalk]. cbn [convert_loop].
      eapply IH; [cbn in Hlen; lia| |exact Hwalk]. by apply convert_assistant_ok.
    + cbn [convert_loop]. destruct (split_results (ToolResult r :: messages)) as [results rest] eqn:Hsplit.
      pose proof (split_results_spec _ _ _ Hsplit) as [Heq Hrest]. rewrite Heq in Hwalk.
      destruct (results_ok open results rest s Hs Hrest Hwalk) as [Hs' Hwalk']. eapply IH; [|exact Hs'|exact Hwalk'].
      apply (f_equal length) in Heq. rewrite length_app, length_map in Heq. destruct results; [|cbn in *; lia].
      cbn in Hsplit. by destruct (split_results messages).
    + cbn [foldl walk] in Hwalk. destruct open; cbn [is_nil] in Hwalk; [|by rewrite walk_None in Hwalk]. cbn [convert_loop].
      eapply IH; [cbn in Hlen; lia| |exact Hwalk]. by apply convert_system_ok.
Qed.

(** The cache breakpoint changes no identity. *)
Lemma btree_get_insert_ne {V} k k' (v : V) l : k <> k' -> btree_get k (btree_insert k' v l) = btree_get k l.
Proof.
  intros Hne. induction l as [|[x y] l IH]; cbn; [by rewrite (proj2 (String.eqb_neq k k') Hne)|].
  destruct (String.compare k' x) eqn:Hc; cbn.
  - apply String.compare_eq_iff in Hc as ->. by rewrite (proj2 (String.eqb_neq k x) Hne).
  - by rewrite (proj2 (String.eqb_neq k k') Hne).
  - by rewrite IH.
Qed.
Lemma btree_get_same {V} k (v : V) l : btree_get k (btree_insert k v l) = Some v.
Proof.
  induction l as [|[x y] l IH]; cbn; [by rewrite String.eqb_refl|]. destruct (String.compare k x) eqn:Hc; cbn.
  - by rewrite String.eqb_refl.
  - by rewrite String.eqb_refl.
  - destruct (String.eqb_spec k x) as [->|]; [|done]. pose proof (String.compare_antisym x x) as Ha. by rewrite Hc in Ha.
Qed.
Lemma object_insert_ne k k' v object : k <> k' -> json_get k (object_insert k' v object) = json_get k object.
Proof. destruct object; try done. apply btree_get_insert_ne. Qed.
Lemma mark_block_field control type key block : key <> "cache_control" -> block_field type key (mark_block control block) = block_field type key block.
Proof.
  intros Hk. unfold mark_block. destruct (is_type _ block); [|done]. unfold block_field, is_type.
  by rewrite !object_insert_ne.
Qed.
Lemma update_last_snoc {A} (f : A -> A) l x : update_last f (l ++ [x]) = l ++ [f x].
Proof. induction l as [|y l IH]; [done|]. cbn. rewrite IH. by destruct l. Qed.
Lemma omap_update_last {A B} (g : A -> option B) (f : A -> A) l : (forall x, g (f x) = g x) -> omap g (update_last f l) = omap g l.
Proof.
  intros Hg. destruct l as [|x l _] using rev_ind; [done|]. rewrite update_last_snoc, !omap_app. cbn. by rewrite Hg.
Qed.
Lemma mark_message_ids control m : tool_use_ids (mark_message control m) = tool_use_ids m /\ tool_result_ids (mark_message control m) = tool_result_ids m.
Proof.
  unfold mark_message. destruct (is_role ["user"; "system"] m) eqn:Hr; [|done].
  destruct (json_get "content" m) as [content|] eqn:Hc; [|done].
  assert (Hsame : forall blocks, omap (block_field "tool_result" "tool_use_id") blocks = omap (block_field "tool_result" "tool_use_id") (wire_blocks m) ->
    tool_use_ids (object_insert "content" (JsonArray blocks) m) = tool_use_ids m /\
    tool_result_ids (object_insert "content" (JsonArray blocks) m) = tool_result_ids m).
  { intros blocks Hb. assert (Hw : wire_blocks (object_insert "content" (JsonArray blocks) m) = blocks).
    { unfold wire_blocks. destruct m; try done. cbn. by rewrite btree_get_same. }
    unfold tool_use_ids, tool_result_ids. rewrite Hw, Hb. unfold is_role in *. rewrite object_insert_ne by done.
    destruct (json_get "role" m ≫= json_as_str) as [role|]; [|done]. split; [|done].
    rewrite bool_decide_eq_false_2; [done|]. apply bool_decide_eq_true in Hr. set_solver. }
  destruct content; try done; apply Hsame; unfold wire_blocks; rewrite Hc; [done|].
  apply omap_update_last. intros x. by apply mark_block_field.
Qed.
Lemma wire_paired_update_last f l : (forall m, tool_use_ids (f m) = tool_use_ids m /\ tool_result_ids (f m) = tool_result_ids m) ->
  wire_paired l = true -> wire_paired (update_last f l) = true.
Proof.
  intros Hf. destruct l as [|m l _] using rev_ind; [done|]. rewrite update_last_snoc. destruct (Hf m) as [Hu Hr].
  apply wire_paired_last; [done|]. by rewrite Hr.
Qed.

(** Effort markers stand in front of messages that answer nothing. *)
Lemma marked_paired efforts messages : forall index,
  (forall i effort, efforts !! (index + i)%nat = Some effort -> exists m, messages !! i = Some m /\ tool_result_ids m = []) ->
  wire_paired messages = true ->
  wire_paired (marked_from index efforts messages) = true /\
  forall uses, answered_by uses messages = true -> answered_by uses (marked_from index efforts messages) = true.
Proof.
  induction messages as [|m messages IH]; intros index He Hw; [done|]. cbn [wire_paired] in Hw. apply andb_true_iff in Hw as [Hm Hw].
  destruct (IH (S index)) as [Hrest Hans]; [|done|].
  { intros i effort Hi. apply (He (S i) effort). by replace (index + S i)%nat with (S index + i)%nat by lia. }
  cbn [marked_from]. assert (Hhead : wire_paired (m :: marked_from (S index) efforts messages) = true).
  { cbn [wire_paired]. by rewrite (Hans _ Hm). }
  destruct (efforts !! index) as [effort|] eqn:Hi; cbn [app]; [|done]. split; [exact Hhead|].
  intros uses Hu. destruct uses as [|id uses]; [done|]. exfalso.
  destruct (He 0%nat effort) as (m' & [= <-] & Hr); [by rewrite Nat.add_0_r|]. cbn in Hu. by rewrite Hr in Hu.
Qed.

Lemma uses_valid_marked efforts messages : forall index, uses_valid messages -> uses_valid (marked_from index efforts messages).
Proof.
  induction messages as [|m messages IH]; intros index Hv; [done|]. apply Forall_cons in Hv as [Hm Hv]. cbn [marked_from].
  apply Forall_app. split; [destruct (efforts !! index); [apply uses_valid_plain; by constructor|constructor]|]. constructor; [done|by apply IH].
Qed.
Lemma uses_valid_update_last f l : (forall m, tool_use_ids (f m) = tool_use_ids m /\ tool_result_ids (f m) = tool_result_ids m) ->
  uses_valid l -> uses_valid (update_last f l).
Proof.
  intros Hf. destruct l as [|m l _] using rev_ind; [done|]. rewrite update_last_snoc. intros [Hl Hm]%Forall_app. apply Forall_app. split; [done|].
  apply Forall_cons in Hm as [Hm _]. constructor; [by rewrite (proj1 (Hf m))|constructor].
Qed.

(** The converted messages, and where their efforts stand. *)
Lemma convert_messages_ok messages notes control compat native in_place : calls_answered messages = true ->
  let converted := convert_messages messages notes control compat native in_place in
  wire_paired converted.1 = true /\ uses_valid converted.1 /\
  forall i effort, converted.2 !! i = Some effort -> exists m, converted.1 !! i = Some m /\ tool_result_ids m = [].
Proof.
  intros Hcalls. unfold convert_messages.
  assert (Hwalk : foldl walk (Some []) messages = Some []).
  { unfold calls_answered in Hcalls. by destruct (foldl walk (Some []) messages) as [[]|]. }
  assert (Hstart : converted_ok [] converting_start) by (constructor; cbn; [done|constructor|done|constructor|by left]).
  pose proof (flush_ok _ (convert_loop_ok compat native (length messages) messages [] converting_start ltac:(lia) Hstart Hwalk)) as Hs.
  set (s := flush_system _) in *. clearbody s. destruct Hs as [_ _ He Hv [[_ Hw]|[? _]]]; [|done]. cbn [fst snd].
  assert (Hnotes : Forall (fun m => tool_use_ids m = []) (map (note_message in_place) notes)).
  { apply Forall_map, Forall_forall. intros note _. apply other_message_uses. by destruct in_place. }
  set (params := cv_params s ++ map (note_message in_place) notes).
  assert (Hp : wire_paired params = true) by (apply wire_paired_app; [done|by apply wire_paired_plain]).
  assert (Hpv : uses_valid params) by (apply Forall_app; split; [done|by apply uses_valid_plain]).
  pose proof (efforts_kept _ _ (map (note_message in_place) notes) He) as He'. fold params in He'.
  destruct control as [control|]; [|done]. split_and!.
  - apply wire_paired_update_last; [|done]. intros m. apply mark_message_ids.
  - apply uses_valid_update_last; [|done]. intros m. apply mark_message_ids.
  - intros i effort Hi. destruct (He' i effort Hi) as (m & Hm & Ht). clearbody params. clear -Hm Ht.
    destruct params as [|x params _] using rev_ind; [done|]. rewrite update_last_snoc.
    destruct (decide (i < length params)%nat) as [Hlt|Hge].
    + exists m. split; [|done]. rewrite lookup_app_l in Hm by done. by rewrite lookup_app_l.
    + rewrite lookup_app_r in Hm by lia. rewrite lookup_app_r by lia. destruct (i - length params)%nat; [|done].
      injection Hm as ->. exists (mark_message control m). split; [done|]. by rewrite (proj2 (mark_message_ids control m)).
Qed.

(** Both projections of a transcript keep its calls answered. *)
Lemma walk_without_systems l : forall open, foldl walk (Some open) l = Some [] ->
  foldl walk (Some open) (List.filter (fun m => negb (is_system m)) l) = Some [].
Proof.
  induction l as [|m l IH]; intros open; [done|]. cbn [List.filter foldl]. destruct m as [| |r|]; cbn [is_system negb foldl walk].
  - destruct (is_nil open); [apply IH|by rewrite walk_None].
  - destruct (is_nil open); [apply IH|by rewrite walk_None].
  - apply IH.
  - destruct open; cbn [is_nil]; [apply IH|by rewrite walk_None].
Qed.
Lemma walk_without_first l : forall open, foldl walk (Some open) l = Some [] -> foldl walk (Some open) (without_first_system l) = Some [].
Proof.
  induction l as [|m l IH]; intros open; [done|]. cbn [without_first_system]. destruct m as [| |r|]; cbn [is_system foldl walk].
  - destruct (is_nil open); [apply IH|by rewrite walk_None].
  - destruct (is_nil open); [apply IH|by rewrite walk_None].
  - apply IH.
  - destruct open; cbn [is_nil]; [done|by rewrite walk_None].
Qed.
Lemma resolved_calls_answered t projection : calls_answered (t_messages t) = true -> calls_answered (rt_messages (resolve t projection)) = true.
Proof.
  unfold calls_answered. destruct (foldl walk (Some []) (t_messages t)) as [[]|] eqn:Hw; try done. intros _.
  destruct projection; cbn [resolve rt_messages]; [by rewrite (walk_without_first _ _ Hw)|by rewrite (walk_without_systems _ _ Hw)].
Qed.

Lemma request_messages_ok config request t : calls_answered (t_messages t) = true ->
  wire_paired (request_messages config request t) = true /\ uses_valid (request_messages config request t).
Proof.
  intros Hc. unfold request_messages. set (resolved := resolve t _).
  destruct (convert_messages_ok (rt_messages resolved) (rt_host_notes resolved) (cache_control config) (nc_compat config)
    (native_changes (nc_compat config) t (ec_tools (rt_leading resolved))) (ac_mid_conversation_system_messages (nc_compat config)))
    as (Hp & Hv & He); [by apply resolved_calls_answered|].
  set (converted := convert_messages _ _ _ _ _ _) in *. clearbody converted. destruct (active_effort config request); [|done].
  unfold insert_effort_markers. split.
  - apply wire_paired_app; [|done]. by apply marked_paired.
  - apply Forall_app. split; [by apply uses_valid_marked|]. by apply uses_valid_plain; constructor.
Qed.
End pairing.

(** ** The body of a request *)

Lemma collect_get {V} k (v : V) a b : Forall (fun kv => kv.1 <> k) b -> btree_get k (btree_collect (a ++ (k, v) :: b)) = Some v.
Proof.
  intros Hb. unfold btree_collect. rewrite foldl_app. cbn [foldl fst snd]. generalize (foldl (fun m kv => btree_insert kv.1 kv.2 m) [] a) as m.
  intros m. assert (Hm : btree_get k (btree_insert k v m) = Some v) by apply btree_get_same. revert Hm.
  generalize (btree_insert k v m) as n. induction Hb as [|[k' v'] b Hne _ IH]; [done|]. cbn [foldl fst snd]. intros n Hn. apply IH.
  by rewrite btree_get_insert_ne.
Qed.

Lemma object_get_last k v a : json_get k (json_object (a ++ [(k, v)])) = Some v.
Proof. apply (collect_get k v a []). constructor. Qed.

Definition body_keys : list string := ["system"; "temperature"; "tools"; "thinking"; "output_config"].
Section body.
Context `{Miniserde} `{Blake3}.

Ltac keys := repeat match goal with
  | |- Forall _ [] => constructor
  | |- Forall _ (_ :: _) => constructor; [cbn; set_solver|]
  | |- Forall _ (match ?x with _ => _ end) => destruct x
  end.
Lemma system_keys control prompt : Forall (fun kv => kv.1 ∈ body_keys) (request_system control prompt).
Proof. unfold request_system. keys. Qed.
Lemma tools_keys compat control native t initial : Forall (fun kv => kv.1 ∈ body_keys) (request_tools compat control native t initial).
Proof. unfold request_tools. keys. Qed.
Lemma thinking_keys config request budget : Forall (fun kv => kv.1 ∈ body_keys) (request_thinking config request budget).
Proof. unfold request_thinking. keys. Qed.
Lemma temperature_keys config request fields : request_temperature config request = Ok fields -> Forall (fun kv => kv.1 ∈ body_keys) fields.
Proof.
  unfold request_temperature. destruct (nc_temperature config) as [temperature|]; [|intros [= <-]; constructor].
  destruct (_ && _ && _); [|intros [= <-]; constructor]. destruct (json_number _); [|done..]. cbn [obind]. intros [= <-]. keys.
Qed.

(** A built request has the messages of its prepared transcript, and its limits. *)
Lemma built_fields config request built : build_request config request = Ok built ->
  exists max_tokens, clamp_to_context config (mr_transcript request) (wanted_tokens config request) = @Ok JsonError N max_tokens /\
    json_get "messages" (bt_body built)
      = Some (JsonArray (request_messages config request (prepared_for (mr_transcript request) (mr_model request)))) /\
    json_get "max_tokens" (bt_body built) = Some (JsonNum (Unsigned max_tokens)).
Proof.
  unfold build_request. destruct (clamp_to_context config _ _) as [max_tokens| |]; [|done..]. cbn [obind].
  destruct (request_temperature config request) as [temperature| |] eqn:Ht; [|done..]. cbn [obind]. intros [= <-].
  exists max_tokens. cbn [bt_body]. split; [done|]. apply temperature_keys in Ht.
  match goal with |- context [_ :: ("stream", _) :: ?fields] => set (rest := fields) end.
  assert (Hrest : Forall (fun kv => kv.1 ∈ body_keys) rest).
  { repeat (apply Forall_app; split); [apply system_keys|done|apply tools_keys|apply thinking_keys]. }
  split.
  - apply (collect_get "messages" _ [_]). do 2 (constructor; [done|]). eapply Forall_impl; [exact Hrest|]. cbn. intros kv Hk Heq. rewrite Heq in Hk. unfold body_keys in Hk. set_solver.
  - apply (collect_get "max_tokens" _ [_; _]). constructor; [done|]. eapply Forall_impl; [exact Hrest|]. cbn. intros kv Hk Heq. rewrite Heq in Hk. unfold body_keys in Hk. set_solver.
Qed.

Lemma clamp_bounds {E} config t max_tokens n : @clamp_to_context _ _ E config t max_tokens = Ok n ->
  1 <= n /\ n <= max_tokens `max` 1 /\ forall window, nc_context_window config = Some window -> n <= (window - CONTEXT_SAFETY_TOKENS) `max` 1.
Proof.
  unfold clamp_to_context. destruct (nc_context_window config) as [window|]; [|intros [= <-]; split_and!; [lia|lia|done]].
  destruct (layout_context t Collapsed) as [layout| |]; [|done..]. cbn [obind]. intros [= <-]. unfold available_tokens.
  split_and!; [lia|lia|]. intros w [= ->]. lia.
Qed.
Lemma thinking_budget_small level : thinking_budget level <= 16384.
Proof. by destruct level. Qed.

(** The limits of a request: it may answer at least one token, at most what was configured or asked
    for and what the context leaves; a thinking budget is at most that of the level and leaves 1,024
    tokens for the answer, or is nothing. *)
Theorem request_limits config request built : build_request config request = Ok built ->
  exists max_tokens, json_get "max_tokens" (bt_body built) = Some (JsonNum (Unsigned max_tokens)) /\
    (1 <= max_tokens) /\ (max_tokens <= wanted_tokens config request `max` 1) /\
    (forall window, nc_context_window config = Some window -> max_tokens <= (window - CONTEXT_SAFETY_TOKENS) `max` 1) /\
    (has_budget config request = true -> ac_mid_conversation_effort (nc_compat config) = false ->
     exists budget, json_get "thinking" (bt_body built) ≫= json_get "budget_tokens" = Some (JsonNum (Unsigned budget)) /\
       (budget <= thinking_budget (mr_thinking_level request)) /\ (budget = 0 \/ budget + MIN_ANSWER_TOKENS <= max_tokens)).
Proof.
  intros Hbuild. destruct (built_fields _ _ _ Hbuild) as (max_tokens & Hclamp & _ & Hmax). exists max_tokens.
  pose proof (clamp_bounds _ _ _ _ Hclamp) as (H1 & H2 & H3). split_and!; [done|done|done|done|]. intros Hb Hm.
  unfold build_request in Hbuild. rewrite Hclamp in Hbuild. cbn [obind] in Hbuild.
  destruct (request_temperature config request) as [temperature| |]; [|done..]. cbn [obind] in Hbuild. injection Hbuild as <-. cbn [bt_body].
  assert (Hwanted : exists wanted, wanted_budget config request = Some wanted /\ wanted <= thinking_budget (mr_thinking_level request)).
  { unfold wanted_budget. rewrite Hb. eexists. split; [done|]. destruct (_ <=? _); lia. }
  destruct Hwanted as (wanted & -> & Hw). unfold clamped_budget. cbn [fmap option_fmap option_map].
  set (budget := wanted `min` (max_tokens - MIN_ANSWER_TOKENS)). exists budget.
  pose proof Hb as Hb'. unfold has_budget in Hb'. apply andb_true_iff in Hb' as [Hb' Hon]. apply andb_true_iff in Hb' as [Hreason Hforce%negb_true_iff].
  split_and!; [|subst budget; lia|subst budget; lia].
  unfold request_thinking. rewrite Hm, Hreason, Hon, Hforce. cbn [default from_option id].
  rewrite !app_assoc, !app_comm_cons, object_get_last. reflexivity.
Qed.

(** Building a request never panics: a collapsed layout has no schema in it. *)
Lemma collapsed_layout {E} t : exists text, @layout_context _ _ E t Collapsed = Ok text.
Proof.
  unfold layout_context. cbn [resolve rt_messages rt_host_notes].
  destruct (push_lines_total (E := E) canonical_message (List.filter (fun m => negb (is_system m)) (t_messages t)) EmptyString) as [text ->].
  { apply Forall_forall. intros m [_ Hm]%list_elem_of_In%filter_In. apply canonical_message_finite. by destruct m. }
  cbn [obind]. destruct (push_lines_total (E := E) (fun note => json_object [("host_note", JsonString note)]) (t_host_notes t) (EmptyString +:+ text))
    as [more ->]; [by apply Forall_forall|eauto].
Qed.
Lemma build_request_returns config request reason : build_request config request <> Panic reason.
Proof.
  unfold build_request, clamp_to_context.
  assert (Ht : forall r, request_temperature config request <> Panic r).
  { unfold request_temperature. intros r. destruct (nc_temperature config) as [x|]; [|done]. destruct (_ && _ && _); [|done].
    unfold json_number. by destruct (f64_is_finite x). }
  destruct (nc_context_window config) as [window|]; [destruct (@collapsed_layout JsonError (mr_transcript request)) as [layout ->]|];
    cbn [obind]; destruct (request_temperature config request) as [| |r] eqn:Hr; try done; by destruct (Ht r).
Qed.

(** ** A one-token replay *)

Definition with_cap (request : ModelRequest) (cap : option N) : ModelRequest :=
  mk_request (mr_purpose request) (mr_transcript request) (mr_model request) (mr_selected_model request) (mr_thinking_level request)
    (mr_session_id request) cap.
(** What a capability declares of a request. *)
Definition replay_declared (replay : MinimalOutputReplay) (request : ModelRequest) : Prop :=
  match replay with ReplaySafe => True | ReplaySafeWithoutThinking => mr_thinking_level request = Off | ReplayUnsafe => False end.

Lemma collect_other {V} k (v v' : V) a b key : key <> k -> btree_get key (btree_collect (a ++ (k, v) :: b)) = btree_get key (btree_collect (a ++ (k, v') :: b)).
Proof.
  intros Hne. unfold btree_collect. rewrite !foldl_app. cbn [foldl fst snd]. generalize (foldl (fun m kv => btree_insert kv.1 kv.2 m) [] a) as m. intros m.
  assert (Hsame : forall x, x <> k -> btree_get x (btree_insert k v m) = btree_get x (btree_insert k v' m)) by (intros; by rewrite !btree_get_insert_ne).
  revert Hsame. generalize (btree_insert k v m) as n, (btree_insert k v' m) as n'. induction b as [|[x y] b IH]; intros n n' Hn; cbn [foldl fst snd]; [by apply Hn|].
  apply IH. intros z Hz. destruct (decide (z = x)) as [->|Hzx]; [by rewrite !btree_get_same|]. rewrite !btree_get_insert_ne by done. by apply Hn.
Qed.
Lemma replay_no_budget config request : replay_declared (minimal_output_replay (nc_compat config)) request -> has_budget config request = false.
Proof.
  unfold minimal_output_replay, has_budget, thinking_is_on. destruct (ac_reasoning (nc_compat config)); [|done].
  destruct (ac_force_adaptive_thinking (nc_compat config)); [done|]. cbn. by intros ->.
Qed.

(** C27: Where the Anthropic adapter declares that replaying a request with another output limit
    reuses its cache entry, the two requests differ in nothing but that limit: the same
    messages, prompt, tools, thinking, temperature and features. *)
Theorem declared_replay_changes_only_limit config request built capability cap :
  mc_prompt_cache (provider_capabilities config) = Some capability ->
  replay_declared (pc_minimal_output_replay capability) request -> build_request config request = Ok built ->
  exists built', build_request config (with_cap request cap) = Ok built' /\
    bt_betas built' = bt_betas built /\ bt_managed_effort built' = bt_managed_effort built /\
    forall key, key <> "max_tokens" -> json_get key (bt_body built') = json_get key (bt_body built).
Proof.
  intros Hcap Hdeclared. assert (Hno : has_budget config request = false).
  { apply replay_no_budget. unfold provider_capabilities in Hcap. cbn [mc_prompt_cache] in Hcap.
    destruct (nc_cache_retention config); [done| |destruct (ac_supports_long_cache_retention _)]; injection Hcap as <-; exact Hdeclared. }
  unfold build_request. unfold wanted_budget. change (has_budget config (with_cap request cap)) with (has_budget config request). rewrite Hno.
  assert (Hclamp : forall n, exists m, @clamp_to_context _ _ JsonError config (mr_transcript request) n = Ok m).
  { intros n. unfold clamp_to_context. destruct (nc_context_window config); [|eauto].
    destruct (@collapsed_layout JsonError (mr_transcript request)) as [layout ->]. eauto. }
  destruct (Hclamp (wanted_tokens config request)) as [n Hn]. destruct (Hclamp (wanted_tokens config (with_cap request cap))) as [n' Hn'].
  cbn [with_cap mr_transcript mr_model] in *. rewrite Hn, Hn'. cbn [obind].
  change (request_temperature config (with_cap request cap)) with (request_temperature config request).
  destruct (request_temperature config request) as [temperature| |]; [|done..]. cbn [obind]. intros [= <-].
  eexists. split; [reflexivity|]. split_and!; [done|done|]. cbn [bt_body]. intros key Hkey.
  apply (collect_other "max_tokens" _ _ [_; _]). done.
Qed.
End body.

#[local] Instance limit_codec : Miniserde := {| mini_to_string _ := "{}"; mini_from_str _ := None |}.
#[local] Instance limit_hash : Blake3 := {| blake3_hash _ := digest_zero |}.
Definition limit_config : AnthropicConfig :=
  mk_anthropic_config "key" "claude-haiku-4-5" budget_thinking (Some 200000) 64000 None RetentionShort DisplaySummarized None 0 0
    retry_policy_standard 0 "tea" None.
Definition limit_request : ModelRequest := mk_request PurposeTurn (transcript_new [User 1 "hi"]) None None Off None None.
Definition limit_built : BuiltRequest :=
  match build_request limit_config limit_request with Ok built => built | _ => mk_built JsonNull [] None end.
Lemma declared_replay_changes_only_limit_witness :
  exists built', build_request limit_config (with_cap limit_request (Some 1)) = Ok built' /\
    json_get "max_tokens" (bt_body limit_built) = Some (JsonNum (Unsigned 64000)) /\
    json_get "max_tokens" (bt_body built') = Some (JsonNum (Unsigned 1)) /\
    json_get "messages" (bt_body built') = json_get "messages" (bt_body limit_built).
Proof.
  destruct (declared_replay_changes_only_limit limit_config limit_request limit_built (mk_cache_capability 300 ReplaySafeWithoutThinking)
    (Some 1) eq_refl eq_refl eq_refl) as (built' & Hb & _ & _ & Hkeys).
  exists built'. split_and!; [exact Hb|vm_compute; reflexivity| |apply Hkeys; discriminate].
  vm_compute in Hb. injection Hb as <-. vm_compute. reflexivity.
Defined.
