(* ===== verification/AnthropicStream.v ===== *)
(** * tea-providers: the Anthropic response stream
    ([crates/tea-providers/src/anthropic/mod.rs])

    The stream of a request opens attempts, retries them as long as nothing
    visible was reduced, and hands out the events of one attempt up to a
    terminal event.  The model is driven by polls: in each round of the loop of
    [poll_next_event] the host decides whether the token was cancelled before
    each of its checks and whether the timer and the response are ready; the
    server decides what each attempt answers. *)

From stdpp Require Import base gmap sets list strings pretty.
From S2P Require Import Records.
From S2P Require Import Prelude RustStr Json Ids SessionErrors Configuration Messages Transcript CoreState SchemaValidation Tools.
From S2P Require Import Compaction RequestContext AgentLifecycle Measurement RunWorld ToolRun RunRequest CompactionRun RunLoop RunLoopProofs.
From S2P Require Import AnthropicSse AnthropicEvents AnthropicPayload.

Local Open Scope N_scope.

(** ** Data *)

Record AnthropicErrorReport := mk_report {
  er_source : string;
  er_message : string;
  er_status_code : option N;
  er_error_type : option string;
  er_request_id : option string;
  er_retryable : bool;
  er_attempt : N;
  er_visible_stream_event : bool;
  er_request_bytes : option N;
  er_response_prefix : option string;
}.
Definition as_session_error (r : AnthropicErrorReport) : ProviderErrorRecord :=
  mk_provider_error (er_source r) (Some (er_message r)) (er_status_code r) (Some (er_attempt r)) (er_request_id r)
    (Some (er_visible_stream_event r)) None None (er_error_type r) None (Some (er_retryable r))
    ((fun prefix => N.of_nat (str_len prefix)) <$> er_response_prefix r) (er_request_bytes r) (er_response_prefix r).

Record AnthropicTurn := mk_turn { at_usage : AnthropicUsage; at_response_model : option string; at_estimated_cost : option string }.
Record AnthropicShared := mk_shared {
  sh_turns : list AnthropicTurn;
  sh_last_error : option AnthropicErrorReport;
  sh_last_input_transformations : list JsonValue;
}.
#[export] Instance anthropic_shared_eta : Eta AnthropicShared := fun s =>
  mk_shared (sh_turns s) (sh_last_error s) (sh_last_input_transformations s).
Definition anthropic_shared_default : AnthropicShared := mk_shared [] None [].

(** [TransportRequest], [TransportStreamEvent]; of a [TransportError] what the stream reads. *)
Record TransportRequest := mk_transport_request {
  tq_url : string;
  tq_query : list (string * string);
  tq_headers : Headers;
  tq_body : list N;
  tq_timeout : N;
  tq_stall_timeout : option N;
}.
Record TransportError := mk_transport_error { te_message : string; te_status_code : option N; te_body : list N }.
Inductive TransportStreamEvent :=
| TransportResponse (status_code : N) (headers : Headers)
| TransportChunk (bytes : list N)
| TransportEnd
| TransportFailure (error : TransportError).

(** [AnthropicEventStream].  The live response is what the server has still to deliver;
    [es_sent] is the log of the requests handed to the transport. *)
Record EventStream := mk_event_stream {
  es_shared : AnthropicShared;
  es_body : list N;
  es_beta_header : option string;
  es_managed_effort : option string;
  es_response : option (list TransportStreamEvent);
  es_status_code : option N;
  es_headers : Headers;
  es_headers_received : bool;
  es_error_body : list N;
  es_decoder : SseDecoder;
  es_reducer : StreamReducer;
  es_pending : list ModelStreamEvent;
  es_attempt : N;
  es_retries_allowed : bool;
  es_visible : bool;
  es_terminal : bool;
  es_retry_timer : option N;
  es_retry_cancellation : bool;
  es_sent : list TransportRequest;
}.
#[export] Instance event_stream_eta : Eta EventStream := fun s =>
  mk_event_stream (es_shared s) (es_body s) (es_beta_header s) (es_managed_effort s) (es_response s) (es_status_code s) (es_headers s)
    (es_headers_received s) (es_error_body s) (es_decoder s) (es_reducer s) (es_pending s) (es_attempt s) (es_retries_allowed s)
    (es_visible s) (es_terminal s) (es_retry_timer s) (es_retry_cancellation s) (es_sent s).

Definition ends_stream (event : ModelStreamEvent) : bool :=
  match event with StreamEnd _ | StreamError _ | ContextOverflow _ | StreamAborted _ => true | _ => false end.
Definition is_visible (event : ModelStreamEvent) : bool :=
  match event with RequestObservation _ | StreamProviderError _ => false | _ => true end.

Definition push_pending (s : EventStream) (event : ModelStreamEvent) : EventStream := s <| es_pending ::= fun l => l ++ [event] |>.

(** [validate_model]. *)
Definition validate_model (config : AnthropicConfig) (request : ModelRequest) : string + unit :=
  match mr_model request with
  | Some model =>
      if String.eqb (md_provider model) PROVIDER_ID && String.eqb (md_model model) (nc_model config) then inr ()
      else inl ("Anthropic adapter configured for " +:+ nc_model config +:+ " cannot serve " +:+ md_provider model +:+ "/" +:+ md_model model)
  | None => inl "Anthropic request has no model descriptor"
  end.

Section anthropic.
Context `{Miniserde} (config : AnthropicConfig).

(** [request_observation]; the components in the order of their names. *)
Definition body_component (built : BuiltRequest) (field : string) : list (string * N) :=
  match json_get field (bt_body built) with
  | Some value =>
      [(field, stable_fingerprint (bytes_of (match to_json_string value with Ok text => text | _ => EmptyString end)))]
  | None => []
  end.
Definition request_observation (built : BuiltRequest) (serialized_request_bytes : N) : AdapterRequestObservation :=
  let components :=
    [("adapter", stable_fingerprint (bytes_of "anthropic-messages/v1"));
     ("beta_features", stable_fingerprint (bytes_of (join "," (bt_betas built))));
     ("cache_retention", stable_fingerprint (bytes_of (retention_debug (nc_cache_retention config))))]
    ++ body_component built "output_config" ++ body_component built "system"
    ++ body_component built "thinking" ++ body_component built "tools" in
  let domain := concat (map (fun component => bytes_of component.1 ++ 0 :: le_bytes 8 component.2) components) in
  mk_adapter_observation (Some serialized_request_bytes) (Some (stable_fingerprint domain)) (list_to_map components).

(** ** Operations *)

(** [AnthropicEventStream::fail]. *)
Definition fail_overflows (message : string) (error_type : option string) : bool :=
  is_context_overflow message || is_context_overflow_type error_type.
Definition fail_report (s : EventStream) (source message : string) (error_type : option string) (retryable : bool) : AnthropicErrorReport :=
  mk_report source message (es_status_code s) error_type (response_header (es_headers s) "request-id") retryable (es_attempt s) (es_visible s)
    (if is_nil (es_body s) then None else Some (N.of_nat (length (es_body s))))
    (if is_nil (es_error_body s) then None
     else Some (redact (bounded_text (from_utf8_lossy (es_error_body s)) 2048) (nc_api_key config))).
Definition stream_fail (s : EventStream) (source message : string) (error_type : option string) (retryable : bool) : EventStream :=
  let s := s <| es_response := None |> in
  let report := fail_report s source message error_type retryable in
  let s := s <| es_shared ::= fun shared => shared <| sh_last_error := Some report |> |> in
  let s := push_pending s (StreamProviderError (as_session_error report)) in
  push_pending s (if fail_overflows message error_type then ContextOverflow message else StreamError message).

(** [start_attempt]; [cancelled] is its check of the token, [answer] what the server answers. *)
Definition attempt_request (s : EventStream) : TransportRequest :=
  mk_transport_request (messages_url config) [("beta", "true")]
    ([("x-api-key", nc_api_key config); ("anthropic-version", API_VERSION); ("content-type", "application/json");
      ("accept", "text/event-stream"); ("user-agent", nc_user_agent config)]
     ++ match es_beta_header s with Some beta => [("anthropic-beta", beta)] | None => [] end)
    (es_body s) (nc_request_timeout config) (Some (nc_stall_timeout config)).
Definition start_attempt (cancelled : bool) (server : N -> list TransportStreamEvent) (s : EventStream) : EventStream :=
  if cancelled then push_pending s (StreamEnd Cancelled)
  else
    let s := s <| es_attempt ::= N.succ |> <| es_status_code := None |> <| es_headers := [] |> <| es_headers_received := false |>
               <| es_error_body := [] |> <| es_decoder := decoder_new |> <| es_reducer := reducer_new (es_managed_effort s) |> in
    s <| es_response := Some (server (es_attempt s)) |> <| es_sent ::= fun l => l ++ [attempt_request s] |>.

(** [AnthropicEventStream::start], with the result of [payload::build_request] for the request. *)
Definition empty_stream (shared : AnthropicShared) (purpose : RequestPurpose) : EventStream :=
  mk_event_stream shared [] None None None None [] false [] decoder_new (reducer_new None) [] 0
    (match purpose with PurposeCacheMaintenance => false | _ => true end) false false None false [].
(** The display of a [JsonError]; a field name is quoted as it is, and the encoder reports none. *)
Definition kind_debug (kind : JsonKind) : string :=
  match kind with
  | KindNull => "Null" | KindBoolean => "Boolean" | KindNumber => "Number"
  | KindString => "String" | KindArray => "Array" | KindObject => "Object"
  end.
Definition json_error_text (e : JsonError) : string :=
  match e with
  | TypeMismatch expected actual => "expected JSON " +:+ kind_debug expected +:+ ", got " +:+ kind_debug actual
  | MissingField field => "missing JSON field " +:+ String double_quote (field +:+ String double_quote EmptyString)
  | InvalidNumber message => "invalid JSON number: " +:+ message
  | Unsupported message => "unsupported JSON operation: " +:+ message
  | JsonMessage message => message
  end.
Definition anthropic_start (shared : AnthropicShared) (request : ModelRequest) (build : string + BuiltRequest) (cancelled attempt_cancelled : bool)
    (server : N -> list TransportStreamEvent) : EventStream :=
  let s := empty_stream shared (mr_purpose request) in
  if cancelled then push_pending s (StreamEnd Cancelled)
  else match validate_model config request with
       | inl message => stream_fail s "adapter" message None false
       | inr _ =>
           match build with
           | inl message => stream_fail s "adapter" message None false
           | inr built =>
               match to_json_string (bt_body built) with
               | Ok body =>
                   let body := bytes_of body in
                   let s := s <| es_beta_header := if is_nil (bt_betas built) then None else Some (join "," (bt_betas built)) |>
                              <| es_managed_effort := bt_managed_effort built |> in
                   let s := push_pending s (RequestObservation (request_observation built (N.of_nat (length body)))) in
                   start_attempt attempt_cancelled server (s <| es_body := body |>)
               | Err error => stream_fail s "adapter" ("cannot encode Anthropic request: " +:+ json_error_text error) None false
               | Panic reason => stream_fail s "adapter" reason None false
               end
           end
       end.

(** [AnthropicProvider::stream]; [build_request] never panics ([build_request_returns]). *)
Definition provider_stream `{Blake3} (shared : AnthropicShared) (request : ModelRequest) (cancelled attempt_cancelled : bool)
    (server : N -> list TransportStreamEvent) : EventStream :=
  let build := match build_request config request with
               | Ok built => inr built
               | Err error => inl (json_error_text error)
               | Panic reason => inl reason
               end in
  anthropic_start shared request build cancelled attempt_cancelled server.

(** [queue_retry]. *)
Definition queue_retry (s : EventStream) (server_delay : option N) : EventStream * (string + bool) :=
  if negb (es_retries_allowed s) || es_visible s || (rp_max_retries (nc_retry_policy config) <? es_attempt s) then (s, inr false)
  else
    let maximum := nc_maximum_retry_delay config in
    let wait := fun delay =>
      (s <| es_response := None |> <| es_retry_timer := Some delay |> <| es_retry_cancellation := false |>, inr true) in
    match server_delay with
    | Some delay =>
        if negb (maximum =? 0) && (maximum <? delay)
        then (s, inl ("Server requested " +:+ pretty (ceil_u64 (as_secs_f64 delay)) +:+ "s retry delay (max: "
                      +:+ pretty (ceil_u64 (as_secs_f64 maximum)) +:+ "s)"))
        else wait delay
    | None => wait (delay_before_retry (nc_retry_policy config) (es_attempt s - 1))
    end.

(** [handle_status_failure], [handle_transport_failure]. *)
Definition Stepped : Type := Outcome Empty_set EventStream.
Definition handle_status_failure (s : EventStream) : Stepped :=
  let parsed := parse_error_body (es_error_body s) in
  let status := default 0 (es_status_code s) in
  let retryable := status_retryable status (es_headers s) in
  let fail_now := fun s => Ok (stream_fail s "response" (describe_status status parsed) (pe_error_type parsed) retryable) in
  if retryable then
    let? delay := retry_delay (es_headers s) in
    match queue_retry s delay with
    | (s, inr true) => Ok s
    | (s, inr false) => fail_now s
    | (s, inl message) => Ok (stream_fail s "response" (message +:+ ". " +:+ describe_status status parsed) (pe_error_type parsed) true)
    end
  else fail_now s.
Definition handle_transport_failure (s : EventStream) (error : TransportError) : EventStream :=
  let s := s <| es_status_code ::= fun status => match status with Some _ => status | None => te_status_code error end |>
             <| es_error_body ::= fun body => body ++ te_body error |> in
  let fail_now := fun s =>
    stream_fail s "transport" ("Anthropic HTTP transport failed: " +:+ te_message error) None (negb (es_headers_received s)) in
  if negb (es_visible s) && negb (es_headers_received s) then
    match queue_retry s None with
    | (s, inr true) => s
    | (s, _) => fail_now s
    end
  else fail_now s.

(** [settle_accounting], [reduce]. *)
Definition settle_accounting (s : EventStream) : Stepped :=
  let usage := sr_usage (es_reducer s) in
  let? estimated_cost := match nc_pricing config with Some pricing => estimate_cost usage pricing | None => Ok None end in
  let response_model := match sr_response_model (es_reducer s) with
                        | Some model => if String.eqb model (nc_model config) then None else Some model
                        | None => None
                        end in
  Ok (s <| es_shared ::= fun shared =>
             shared <| sh_turns ::= fun turns => turns ++ [mk_turn usage response_model estimated_cost] |>
                    <| sh_last_input_transformations := sr_input_transformations (es_reducer s) |> |>).
Fixpoint stream_deliver (events : list ModelStreamEvent) (s : EventStream) : Stepped :=
  match events with
  | [] => Ok s
  | event :: events =>
      let s := if is_visible event then s <| es_visible := true |> else s in
      let? s := match event with StreamUsage _ => settle_accounting s | _ => Ok s end in
      stream_deliver events (push_pending s event)
  end.
Definition stream_reduced (s : EventStream) (result : StreamFailure + list ModelStreamEvent) : Stepped :=
  match result with
  | inr events => stream_deliver events s
  | inl failure => Ok (stream_fail s "response" (sf_message failure) (sf_error_type failure) false)
  end.

(** The two loops over decoded events; the one over a chunk stops when the stream has failed. *)
Definition reduce_event (s : EventStream) (event : ServerSentEvent) : Stepped :=
  let '(reducer, result) := reducer_push (es_reducer s) event in
  stream_reduced (s <| es_reducer := reducer |>) result.
Fixpoint reduce_chunk (events : list ServerSentEvent) (s : EventStream) : Stepped :=
  match events with
  | [] => Ok s
  | event :: events =>
      let? s := reduce_event s event in
      match es_response s with None => Ok s | Some _ => reduce_chunk events s end
  end.
Fixpoint reduce_rest (events : list ServerSentEvent) (s : EventStream) : Stepped :=
  match events with
  | [] => Ok s
  | event :: events => let? s := reduce_event s event in reduce_rest events s
  end.

(** ** Polling *)

Definition is_failed_status (s : EventStream) : bool :=
  match es_status_code s with Some status => negb ((200 <=? status) && (status <? 300)) | None => false end.
Definition is_stream_error (event : ModelStreamEvent) : bool := match event with StreamError _ => true | _ => false end.
Definition HTTP_CANCELLED : string := "HTTP request cancelled".

(** The arms for an event of the response. *)
Definition response_event (cancelled : bool) (event : TransportStreamEvent) (s : EventStream) : Stepped :=
  match event with
  | TransportResponse status_code headers =>
      Ok (s <| es_headers_received := true |> <| es_status_code := Some status_code |> <| es_headers := headers |>)
  | TransportChunk bytes =>
      if is_failed_status s then Ok (s <| es_error_body ::= fun body => body ++ bytes |>)
      else let '(decoder, events) := sse_push (es_decoder s) bytes in
           reduce_chunk events (s <| es_decoder := decoder |>)
  | TransportEnd =>
      if is_failed_status s then handle_status_failure s
      else
        let '(decoder, events) := sse_finish (es_decoder s) in
        let? s := reduce_rest events (s <| es_response := None |> <| es_decoder := decoder |>) in
        if existsb is_stream_error (es_pending s) then Ok s
        else match reducer_finish (es_reducer s) with
             | Ok events => stream_reduced s (inr events)
             | Err failure => stream_reduced s (inl failure)
             | Panic reason => Panic reason
             end
  | TransportFailure error =>
      if cancelled || String.eqb (te_message error) HTTP_CANCELLED
      then Ok (push_pending (s <| es_response := None |>) (StreamEnd Cancelled))
      else Ok (handle_transport_failure s error)
  end.

(** A round of the loop of [poll_next_event].  [c] says whether the token is cancelled; a
    cancelled token stays so. *)
Record PollRound := mk_round {
  rd_cancel : bool;
  rd_wait_cancel : bool;
  rd_timer_ready : bool;
  rd_attempt_cancel : bool;
  rd_response_ready : bool;
  rd_failure_cancel : bool;
}.
Inductive PollResult := Ready (event : option ModelStreamEvent) | Pending | Panicked (reason : string).
Definition continue_with (c : bool) (m : Stepped) (s : EventStream) : EventStream * bool * option PollResult :=
  match m with Ok s => (s, c, None) | Err e => match e with end | Panic reason => (s, c, Some (Panicked reason)) end.
Definition poll_response (c : bool) (rd : PollRound) (s : EventStream) : EventStream * bool * option PollResult :=
  match es_response s with
  | None => (s, c, Some (Ready None))
  | Some [] => (s, c, Some Pending)
  | Some (event :: rest) =>
      if rd_response_ready rd then
        let c := c || (match event with TransportFailure _ => rd_failure_cancel rd | _ => false end) in
        continue_with c (response_event c event (s <| es_response := Some rest |>)) s
      else (s, c, Some Pending)
  end.
Definition poll_round (server : N -> list TransportStreamEvent) (c : bool) (rd : PollRound) (s : EventStream) :
    EventStream * bool * option PollResult :=
  if es_terminal s then (s, c, Some (Ready None))
  else match es_pending s with
  | event :: pending =>
      let s := s <| es_pending := pending |> in
      let s := if ends_stream event
               then s <| es_terminal := true |> <| es_response := None |> <| es_retry_timer := None |> <| es_retry_cancellation := false |>
               else s in
      (s, c, Some (Ready (Some event)))
  | [] =>
      let c := c || rd_cancel rd in
      if c then (s <| es_terminal := true |> <| es_response := None |> <| es_retry_timer := None |>, c, Some (Ready (Some (StreamEnd Cancelled))))
      else match es_retry_timer s with
      | Some _ =>
          let s := s <| es_retry_cancellation := true |> in
          let c := c || rd_wait_cancel rd in
          let settled := s <| es_retry_timer := None |> <| es_retry_cancellation := false |> in
          if c then (settled, c, None)
          else if rd_timer_ready rd
               then let c := c || rd_attempt_cancel rd in (start_attempt c server settled, c, None)
               else (s, c, Some Pending)
      | None => poll_response c rd s
      end
  end.

(** [poll_next_event]: rounds until one answers. *)
Fixpoint poll_next_event (server : N -> list TransportStreamEvent) (c : bool) (rounds : list PollRound) (s : EventStream) :
    EventStream * bool * list PollRound * option PollResult :=
  match rounds with
  | [] => (s, c, [], None)
  | rd :: rounds =>
      match poll_round server c rd s with
      | (s, c, None) => poll_next_event server c rounds s
      | (s, c, Some result) => (s, c, rounds, Some result)
      end
  end.
End anthropic.
