(* ===== verification/AnthropicProofs.v ===== *)
(** * tea-providers: what the Anthropic stream promises the run

    Whatever the server sends, however it is cut into chunks and whenever the
    run is polled or cancelled, the run is given one well-formed stream of
    events; a request is repeated a bounded number of times and never after
    output; the events are those of the decoded response. *)

From Stdlib Require Import SpecFloat Relation_Operators Lexicographic_Product.
From stdpp Require Import base gmap sets list strings pretty.
From S2P Require Import Records.
From S2P Require Import Prelude RustStr Json Ids SessionErrors Configuration Messages Transcript CoreState SchemaValidation Tools.
From S2P Require Import Compaction RequestContext AgentLifecycle Measurement RunWorld ToolRun RunRequest CompactionRun RunLoop RunLoopProofs.
From S2P Require Import ContextCodec TranscriptProofs TranscriptJson AnthropicSse AnthropicEvents AnthropicPayload AnthropicStream.

Local Open Scope N_scope.

(** ** Consuming the stream *)

(** A consumer polls until the stream is over.  What it was given, and how far it got. *)
Inductive DriveEnd := Waiting | Closed | Crashed (reason : string).
Section drive.
Context `{Miniserde} (config : AnthropicConfig) (server : N -> list TransportStreamEvent).

Fixpoint drive (c : bool) (rounds : list PollRound) (s : EventStream) : list ModelStreamEvent * EventStream * bool * DriveEnd :=
  match rounds with
  | [] => ([], s, c, Waiting)
  | rd :: rounds =>
      match poll_round config server c rd s with
      | (s, c, Some (Ready (Some event))) =>
          let '(events, s, c, ending) := drive c rounds s in (event :: events, s, c, ending)
      | (s, c, Some (Ready None)) => ([], s, c, Closed)
      | (s, c, Some (Panicked reason)) => ([], s, c, Crashed reason)
      | (s, c, _) => drive c rounds s
      end
  end.

(** The consumer's calls of [poll_next_event] are the rounds. *)
Lemma drive_polls rounds : forall c s,
  drive c rounds s =
  match poll_next_event config server c rounds s with
  | (s, c, rounds, Some (Ready (Some event))) =>
      let '(events, s, c, ending) := drive c rounds s in (event :: events, s, c, ending)
  | (s, c, _, Some (Ready None)) => ([], s, c, Closed)
  | (s, c, _, Some (Panicked reason)) => ([], s, c, Crashed reason)
  | (s, c, rounds, Some Pending) => drive c rounds s
  | (s, c, _, None) => ([], s, c, Waiting)
  end.
Proof.
  induction rounds as [|rd rounds IH]; intros c s; [done|]. cbn [drive poll_next_event].
  destruct (poll_round config server c rd s) as [[s' c'] [result|]] eqn:Hr; [by destruct result as [[]| |]|]. apply IH.
Qed.

Lemma drive_app rounds : forall more c s,
  drive c (rounds ++ more) s =
  match drive c rounds s with
  | (events, s, c, Waiting) => let '(more_events, s, c, ending) := drive c more s in (events ++ more_events, s, c, ending)
  | result => result
  end.
Proof.
  induction rounds as [|rd rounds IH]; intros more c s; [cbn; by destruct (drive c more s) as [[[] ?] ?]|]. cbn [drive app].
  destruct (poll_round config server c rd s) as [[s' c'] [[[event|]| |]|]]; try done; [|apply IH..].
  rewrite IH. destruct (drive c' rounds s') as [[[events t] c2] []]; [|done..].
  by destruct (drive c2 more t) as [[[] ?] ?].
Qed.

(** An invariant of rounds, with what is given to the consumer. *)
Lemma drive_invariant_on (Q : PollRound -> Prop) (P : list ModelStreamEvent -> EventStream -> bool -> Prop) rounds : forall given c s,
  Forall Q rounds -> P given s c ->
  (forall given c rd s, Q rd -> P given s c ->
    match poll_round config server c rd s with
    | (s', c', Some (Ready (Some event))) => P (given ++ [event]) s' c'
    | (s', c', _) => P given s' c'
    end) ->
  let '(events, s', c', _) := drive c rounds s in P (given ++ events) s' c'.
Proof.
  induction rounds as [|rd rounds IH]; intros given c s HQ Hs Hstep; cbn [drive]; [by rewrite app_nil_r|]. apply Forall_cons in HQ as [Hrd HQ].
  pose proof (Hstep _ _ rd _ Hrd Hs) as Hr.
  destruct (poll_round config server c rd s) as [[s' c'] [[[event|]| |]|]]; [| |by apply IH| |by apply IH].
  - pose proof (IH (given ++ [event]) c' s' HQ Hr Hstep) as Hrest. destruct (drive c' rounds s') as [[[events t] c2] ending].
    by rewrite <-app_assoc in Hrest.
  - by rewrite app_nil_r.
  - by rewrite app_nil_r.
Qed.
Lemma drive_invariant (P : list ModelStreamEvent -> EventStream -> bool -> Prop) rounds given c s :
  P given s c ->
  (forall given c rd s, P given s c ->
    match poll_round config server c rd s with
    | (s', c', Some (Ready (Some event))) => P (given ++ [event]) s' c'
    | (s', c', _) => P given s' c'
    end) ->
  let '(events, s', c', _) := drive c rounds s in P (given ++ events) s' c'.
Proof. intros Hs Hstep. apply (drive_invariant_on (fun _ => True)); [by apply Forall_true|done|]. intros given' c' rd s' _. apply Hstep. Qed.
End drive.

(** ** Reduction only outputs content *)

Definition is_content (event : ModelStreamEvent) : bool :=
  match event with
  | TextDelta _ | ThinkingDelta _ | ThinkingSignature _ | RedactedThinking _ | StreamToolCall _ => true
  | _ => false
  end.
Definition contents (result : StreamFailure + list ModelStreamEvent) : Prop :=
  match result with inr events => Forall (fun event => is_content event = true) events | inl _ => True end.

Lemma text_field_content r text event : (forall t, is_content (event t) = true) -> contents (text_field r text event).2.
Proof. intros He. unfold text_field. destruct (str_is_empty text); cbn; auto. Qed.
Lemma replay_event_content r kind payload event : (forall i, is_content (event i) = true) -> contents (replay_event r kind payload event).2.
Proof. intros He. unfold replay_event. cbn. destruct (opaque_replay kind payload); cbn; auto. Qed.

Ltac content_tac :=
  repeat match goal with
  | |- contents (_, _).2 => cbn [snd]
  | |- contents (text_field _ _ _).2 => apply text_field_content; done
  | |- contents (replay_event _ _ _ _).2 => apply replay_event_content; done
  | |- contents (failure _) => exact I
  | |- contents (inl _) => exact I
  | |- contents (inr []) => constructor
  | |- contents (inr [_]) => repeat constructor
  | |- context [match ?x with _ => _ end] => destruct x
  end.

Section reduction_content.
Context `{Miniserde}.
Lemma block_start_content event r : contents (content_block_start event r).2.
Proof. unfold content_block_start. content_tac. Qed.
Lemma block_delta_content event r : contents (content_block_delta event r).2.
Proof. unfold content_block_delta. content_tac. Qed.
Lemma block_stop_content event r : contents (content_block_stop event r).2.
Proof. unfold content_block_stop. content_tac. Qed.
Lemma push_content r sse : contents (reducer_push r sse).2.
Proof.
  unfold reducer_push.
  repeat case_match; try exact I; try constructor; auto using block_start_content, block_delta_content, block_stop_content.
Qed.

(** A settled response ends in its terminal event, after its accounting. *)
Lemma finish_shape r events : reducer_finish r = Ok events ->
  exists before terminal, events = before ++ [terminal] /\ ends_stream terminal = true /\
    Forall (fun e => ends_stream e = false /\ is_visible e = true) before.
Proof.
  unfold reducer_finish. destruct (_ && _); [done|]. destruct (sr_outcome r) as [outcome|]; [|done].
  destruct (to_usage _) as [usage| |]; [|done..]. cbn [obind].
  assert (Ht : ends_stream (outcome_event outcome) = true) by by destruct outcome.
  destruct (sr_managed_effort r) as [effort|].
  - destruct (opaque_replay _ effort); [done|]. intros [= <-]. eexists [_; _], _. split_and!; [done|done|by repeat constructor].
  - intros [= <-]. eexists [_], _. split_and!; [done|done|by repeat constructor].
Qed.
End reduction_content.

(** ** How a stream advances *)

Definition is_observation (event : ModelStreamEvent) : bool := match event with RequestObservation _ => true | _ => false end.
(** New events: no second observation, and output is on record as visible. *)
Definition fresh (visible : bool) (event : ModelStreamEvent) : Prop :=
  is_observation event = false /\ (is_visible event = true -> visible = true \/ ends_stream event = true).

Lemma fresh_mono v v' event : (v = true -> v' = true) -> fresh v event -> fresh v' event.
Proof. unfold fresh. naive_solver. Qed.

(** What identifies the request of a stream. *)
Definition request_of (s : EventStream) :=
  (es_body s, es_beta_header s, es_managed_effort s, es_retries_allowed s, es_attempt s, es_terminal s, es_sent s).

Record advances (s s' : EventStream) : Prop := mk_advances {
  adv_request : request_of s' = request_of s;
  adv_timer : es_retry_timer s' = es_retry_timer s;
  adv_visible : es_visible s = true -> es_visible s' = true;
  adv_pending : exists new, es_pending s' = es_pending s ++ new /\ Forall (fresh (es_visible s')) new;
  adv_response : es_response s' = es_response s \/ es_response s' = None /\ existsb ends_stream (es_pending s') = true;
}.

#[export] Instance advances_preorder : PreOrder advances.
Proof.
  split.
  - intros s. constructor; [done|done|done| |by left]. exists []. by rewrite app_nil_r.
  - intros s1 s2 s3 [R1 T1 V1 (n1 & P1 & F1) A1] [R2 T2 V2 (n2 & P2 & F2) A2].
    constructor; [congruence|congruence|auto| |].
    + exists (n1 ++ n2). rewrite P2, P1, app_assoc. split; [done|]. apply Forall_app. split; [|done].
      eapply Forall_impl; [exact F1|]. intros e. by apply fresh_mono.
    + destruct A2 as [->|[-> ->]]; [|by right]. destruct A1 as [->|[-> Ht]]; [by left|]. right. split; [done|].
      by rewrite P2, existsb_app, Ht.
Qed.

Section advance.
Context `{Miniserde} (config : AnthropicConfig).

Lemma fail_advances s source message error_type retryable : advances s (stream_fail config s source message error_type retryable).
Proof.
  constructor; [done|done|done| |].
  - eexists [_; _]. split; [cbn; by rewrite <-app_assoc|]. destruct (fail_overflows _ _); repeat constructor; cbn; auto; discriminate.
  - right. split; [done|]. cbn. rewrite !existsb_app. cbn. destruct (fail_overflows _ _); cbn; by rewrite !orb_true_r.
Qed.

Lemma settle_frame s s' : settle_accounting config s = Ok s' -> exists shared, s' = s <| es_shared := shared |>.
Proof.
  unfold settle_accounting. destruct (nc_pricing config) as [pricing|]; [destruct (estimate_cost _ pricing) as [cost| |]; [|done..]|];
    cbn [obind]; intros [= <-]; eexists; reflexivity.
Qed.

Lemma deliver_frame events : forall s s', stream_deliver config events s = Ok s' ->
  exists shared, s' = s <| es_shared := shared |> <| es_visible := es_visible s || existsb is_visible events |>
                        <| es_pending := es_pending s ++ events |>.
Proof.
  induction events as [|e events IH]; intros s s'; cbn [stream_deliver].
  - intros [= <-]. exists (es_shared s). cbn. rewrite app_nil_r, orb_false_r. by destruct s.
  - assert (Hset : forall t t', match e with StreamUsage _ => settle_accounting config t | _ => Ok t end = Ok t' ->
              exists shared, t' = t <| es_shared := shared |>).
    { intros t t' He. assert ((Ok t : Stepped) = Ok t' -> exists shared, t' = t <| es_shared := shared |>) as Hok.
      { intros [= <-]. exists (es_shared t). by destruct t. }
      destruct e; auto using settle_frame. }
    match goal with |- context [obind ?m _] => destruct m as [t| |] eqn:He; [|done..] end. apply Hset in He as [shared ->].
    cbn [obind]. intros (shared' & ->)%IH. exists shared'. cbn.
    destruct (is_visible e); cbn; rewrite ?orb_true_r, <-?app_assoc; done.
Qed.

Lemma deliver_advances events s s' : Forall (fun e => is_observation e = false) events ->
  stream_deliver config events s = Ok s' -> advances s s'.
Proof.
  intros Hn (shared & ->)%deliver_frame. constructor; [done|done|cbn; by intros ->| |by left].
  exists events. cbn. split; [done|]. apply Forall_forall. intros e Hin. rewrite Forall_forall in Hn. split; [by apply Hn|].
  intros Hv. left. apply orb_true_intro. right. apply existsb_exists. exists e. by rewrite <-list_elem_of_In.
Qed.

Lemma reduced_advances s result s' : contents result -> stream_reduced config s result = Ok s' -> advances s s'.
Proof.
  intros Hc. destruct result as [f|events]; cbn; [intros [= <-]; apply fail_advances|]. apply deliver_advances.
  eapply Forall_impl; [exact Hc|]. by intros [].
Qed.

(** Fields the relation does not speak of. *)
Lemma advances_reducer s r s' : advances (s <| es_reducer := r |>) s' -> advances s s'.
Proof. by intros [? ? ? ? ?]. Qed.
Lemma advances_decoder s d s' : advances (s <| es_decoder := d |>) s' -> advances s s'.
Proof. by intros [? ? ? ? ?]. Qed.

Lemma reduce_event_advances s event s' : reduce_event config s event = Ok s' -> advances s s'.
Proof.
  unfold reduce_event. pose proof (push_content (es_reducer s) event) as Hc. destruct (reducer_push _ _) as [r result].
  intros Hs. eapply advances_reducer. by eapply reduced_advances.
Qed.
Lemma reduce_chunk_advances events : forall s s', reduce_chunk config events s = Ok s' -> advances s s'.
Proof.
  induction events as [|e events IH]; intros s s'; cbn [reduce_chunk]; [by intros [= <-]|].
  destruct (reduce_event config s e) as [t| |] eqn:He; [|done..]. apply reduce_event_advances in He. cbn [obind].
  destruct (es_response t); [|by intros [= <-]]. intros Ht%IH. by transitivity t.
Qed.
Lemma reduce_rest_advances events : forall s s', reduce_rest config events s = Ok s' -> advances s s'.
Proof.
  induction events as [|e events IH]; intros s s'; cbn [reduce_rest]; [by intros [= <-]|].
  destruct (reduce_event config s e) as [t| |] eqn:He; [|done..]. apply reduce_event_advances in He. cbn [obind].
  intros Ht%IH. by transitivity t.
Qed.
End advance.

Section events.
Context `{Miniserde} (config : AnthropicConfig).

(** A retry is queued. *)
Record retries (s s' : EventStream) : Prop := mk_retries {
  rt_request : request_of s' = request_of s;
  rt_pending : es_pending s' = es_pending s;
  rt_response : es_response s' = None;
  rt_timer : is_Some (es_retry_timer s');
  rt_visible : es_visible s = false /\ es_visible s' = false;
  rt_allowed : es_retries_allowed s' = true;
  rt_attempt : es_attempt s' <= rp_max_retries (nc_retry_policy config);
}.

Lemma queue_retry_cases s delay :
  match queue_retry config s delay with
  | (s', inr true) => retries s s'
  | (s', _) => s' = s
  end.
Proof.
  unfold queue_retry. destruct (es_retries_allowed s) eqn:Ha; [|done]. destruct (es_visible s) eqn:Hv; [done|].
  destruct (N.ltb_spec (rp_max_retries (nc_retry_policy config)) (es_attempt s)); [done|]. cbn [negb orb].
  destruct delay as [delay|]; [destruct (_ && _); [done|]|]; by constructor.
Qed.

Lemma closed_advances s s' : advances (s <| es_response := None |>) s' -> existsb ends_stream (es_pending s') = true -> advances s s'.
Proof. intros [? ? ? ? [Hr|?]] Ht; constructor; auto. Qed.

Lemma end_advances s s' : is_failed_status s = false -> response_event config false TransportEnd s = Ok s' -> advances s s'.
Proof.
  intros Hs. cbn [response_event]. rewrite Hs. destruct (sse_finish (es_decoder s)) as [d events].
  destruct (reduce_rest config events _) as [t| |] eqn:Ht; [|done..]. apply reduce_rest_advances in Ht.
  assert (Hbase : advances (s <| es_response := None |>) t) by by destruct Ht. cbn [obind].
  destruct (existsb is_stream_error (es_pending t)) eqn:He.
  - intros [= <-]. apply closed_advances; [done|]. apply existsb_exists in He as (e & Hin & He). apply existsb_exists. exists e.
    split; [done|]. by destruct e.
  - destruct (reducer_finish (es_reducer t)) as [out|f|] eqn:Hf; [| |done].
    + apply finish_shape in Hf as (before & terminal & -> & Hterm & Hb). cbn [stream_reduced]. intros Hd.
      apply closed_advances.
      * etransitivity; [exact Hbase|]. eapply deliver_advances; [|exact Hd]. apply Forall_app. split.
        { eapply Forall_impl; [exact Hb|]. intros [] [? Hv]; done. }
        { repeat constructor. by destruct terminal. }
      * apply deliver_frame in Hd as (shared & ->). cbn. rewrite !existsb_app. cbn. rewrite Hterm. by rewrite !orb_true_r.
    + cbn [stream_reduced]. intros [= <-]. pose proof (fail_advances config t "response" (sf_message f) (sf_error_type f) false) as Hfail.
      apply closed_advances; [by etransitivity|]. cbn. rewrite !existsb_app. cbn. destruct (fail_overflows _ _); cbn; by rewrite !orb_true_r.
Qed.

Lemma status_failure_advances s s' : handle_status_failure config s = Ok s' -> advances s s' \/ retries s s'.
Proof.
  unfold handle_status_failure. destruct (status_retryable _ _); [|intros [= <-]; left; apply fail_advances].
  destruct (retry_delay _) as [delay| |]; [|done..]. cbn [obind].
  pose proof (queue_retry_cases s delay) as Hq. destruct (queue_retry config s delay) as [t [message|[]]].
  - subst t. intros [= <-]. left. apply fail_advances.
  - intros [= <-]. by right.
  - subst t. intros [= <-]. left. apply fail_advances.
Qed.

Lemma transport_failure_advances s error : advances s (handle_transport_failure config s error) \/ retries s (handle_transport_failure config s error).
Proof.
  unfold handle_transport_failure. set (t := s <| es_status_code ::= _ |> <| es_error_body ::= _ |>).
  assert (Ha : forall t', advances t t' -> advances s t') by by intros t' [].
  assert (Hr : forall t', retries t t' -> retries s t') by by intros t' [].
  destruct (negb (es_visible t) && _); [|left; apply Ha, fail_advances].
  pose proof (queue_retry_cases t None) as Hq. destruct (queue_retry config t None) as [t' [message|[]]].
  - subst t'. left. apply Ha, fail_advances.
  - right. by apply Hr.
  - subst t'. left. apply Ha, fail_advances.
Qed.

Lemma response_event_advances c event s s' : response_event config c event s = Ok s' -> advances s s' \/ retries s s'.
Proof.
  destruct event as [status headers|bytes| |error].
  - intros [= <-]. left. by assert (advances s s) as [] by reflexivity.
  - cbn [response_event]. destruct (is_failed_status s); [intros [= <-]; left; by assert (advances s s) as [] by reflexivity|].
    destruct (sse_push (es_decoder s) bytes) as [d events]. intros Hs%reduce_chunk_advances. left. by eapply advances_decoder.
  - destruct (is_failed_status s) eqn:Hf; [cbn; rewrite Hf; apply status_failure_advances|].
    intros Hs. left. by apply end_advances.
  - cbn. destruct (_ || _); intros [= <-]; [|apply transport_failure_advances]. left.
    constructor; [done|done|done| |]; cbn.
    + eexists [_]. split; [done|]. constructor; [split; [done|by right]|constructor].
    + right. split; [done|]. by rewrite existsb_app, orb_true_r.
Qed.
End events.

(** ** The invariant *)

Section invariant.
Context `{Miniserde} (config : AnthropicConfig) (server : N -> list TransportStreamEvent).

Definition attempts_allowed (s : EventStream) : N :=
  if es_retries_allowed s then rp_max_retries (nc_retry_policy config) + 1 else 1.
Definition no_terminal (events : list ModelStreamEvent) : Prop := Forall (fun e => ends_stream e = false) events.
Definition ends_terminally (events : list ModelStreamEvent) : Prop :=
  exists before terminal, events = before ++ [terminal] /\ no_terminal before /\ ends_stream terminal = true.

Record stream_ok (given : list ModelStreamEvent) (s : EventStream) (c : bool) : Prop := mk_stream_ok {
  so_open : es_terminal s = false -> no_terminal given /\
    (existsb ends_stream (es_pending s) = true \/ is_Some (es_response s) \/ is_Some (es_retry_timer s) \/ c = true);
  so_done : es_terminal s = true -> ends_terminally given;
  so_timer : is_Some (es_retry_timer s) ->
    es_visible s = false /\ es_retries_allowed s = true /\ es_attempt s <= rp_max_retries (nc_retry_policy config);
  so_sent : es_sent s = repeat (attempt_request config s) (N.to_nat (es_attempt s));
  so_attempts : es_attempt s <= attempts_allowed s;
  so_observed : Forall (fun e => is_observation e = false) (tail (given ++ es_pending s));
  so_shown : Forall (fun e => is_visible e = true -> es_visible s = true \/ ends_stream e = true) (given ++ es_pending s);
}.

Lemma tail_app_fresh {A} (P : A -> Prop) (l k : list A) : Forall P (tail l) -> Forall P k -> Forall P (tail (l ++ k)).
Proof. destruct l as [|x l]; cbn; [intros _ Hk; by apply Forall_tail|intros; by apply Forall_app]. Qed.

(** What [advances] and [retries] leave of the invariant. *)
Lemma request_of_fields s s' : request_of s' = request_of s ->
  es_terminal s' = es_terminal s /\ es_sent s' = es_sent s /\ es_attempt s' = es_attempt s /\
  es_retries_allowed s' = es_retries_allowed s /\ attempt_request config s' = attempt_request config s.
Proof. unfold request_of, attempt_request. intros [= -> -> _ -> -> -> ->]. done. Qed.

Lemma advances_ok given s s' c c' : stream_ok given s c -> es_terminal s = false -> is_Some (es_response s) -> es_retry_timer s = None ->
  advances s s' -> stream_ok given s' c'.
Proof.
  intros [Ho _ _ Hs Ha Hb Hv] Hterm Hresp Htimer [Hr Ht Hvis (new & Hp & Hf) Hx].
  destruct (request_of_fields _ _ Hr) as (Et & Es & Ea & Er & Eq). destruct (Ho Hterm) as [Hq _].
  constructor; rewrite ?Et, ?Ht, ?Htimer, ?Hp, ?Es, ?Ea, ?Eq.
  - intros _. split; [done|]. destruct Hx as [->|[_ Hx]]; [by right; left|]. left. by rewrite <-Hp.
  - congruence.
  - by intros [].
  - done.
  - unfold attempts_allowed. by rewrite Er.
  - rewrite app_assoc. apply tail_app_fresh; [done|]. eapply Forall_impl; [exact Hf|]. by intros e [].
  - rewrite app_assoc. apply Forall_app. split; [|eapply Forall_impl; [exact Hf|]; by intros e []].
    eapply Forall_impl; [exact Hv|]. naive_solver.
Qed.

Lemma retries_ok given s s' c c' : stream_ok given s c -> es_terminal s = false -> retries config s s' -> stream_ok given s' c'.
Proof.
  intros [Ho _ _ Hs Ha Hb Hv] Hterm [Hr Hp _ Ht [Hwas Hvis] Hallowed Hattempt].
  destruct (request_of_fields _ _ Hr) as (Et & Es & Ea & Er & Eq). destruct (Ho Hterm) as [Hq _].
  constructor; rewrite ?Et, ?Hp, ?Es, ?Ea, ?Eq; [auto|congruence|by rewrite <-Ea|done|unfold attempts_allowed; by rewrite Er|done|].
  eapply Forall_impl; [exact Hv|]. rewrite Hwas. naive_solver.
Qed.

Definition timer_cleared (s : EventStream) : EventStream := s <| es_retry_timer := None |> <| es_retry_cancellation := false |>.
Lemma start_attempt_ok given s c waits : stream_ok given s c -> es_terminal s = false -> is_Some (es_retry_timer s) ->
  forall cancelled, stream_ok given (start_attempt config cancelled server (timer_cleared (s <| es_retry_cancellation := waits |>))) cancelled.
Proof.
  intros [Ho _ Ht Hs Ha Hb Hv] Hterm (_ & Hallowed & Hattempt)%Ht cancelled. destruct (Ho Hterm) as [Hq _].
  unfold start_attempt. destruct cancelled.
  - constructor; cbn; rewrite ?Hterm; auto; [congruence|by intros []| |].
    + rewrite app_assoc. apply tail_app_fresh; [done|]. by repeat constructor.
    + rewrite app_assoc. apply Forall_app. split; [done|]. constructor; [intros _; by right|constructor].
  - constructor; cbn; rewrite ?Hterm; [eauto 6|congruence|by intros []| |unfold attempts_allowed; cbn; rewrite Hallowed; lia|done..].
    rewrite Hs, N2Nat.inj_succ. apply (eq_sym (repeat_cons _ _)).
Qed.

Lemma pop_ok given c s event pending : stream_ok given s c -> es_terminal s = false -> es_pending s = event :: pending ->
  stream_ok (given ++ [event])
    (if ends_stream event
     then s <| es_pending := pending |> <| es_terminal := true |> <| es_response := None |> <| es_retry_timer := None |> <| es_retry_cancellation := false |>
     else s <| es_pending := pending |>) c.
Proof.
  intros [Ho _ Ht Hs Ha Hb Hv] Hterm Hp. destruct (Ho Hterm) as [Hq Hl]. rewrite Hp in Hl, Hb, Hv.
  rewrite (cons_middle event given pending), app_assoc in Hb, Hv.
  destruct (ends_stream event) eqn:He; constructor; cbn; try done.
  - intros _. exists given, event. done.
  - intros _. split; [apply Forall_app; by repeat constructor|]. cbn in Hl. by rewrite He in Hl.
  - by rewrite Hterm.
Qed.

Lemma cancel_ok given c s : stream_ok given s c -> es_terminal s = false -> es_pending s = [] ->
  stream_ok (given ++ [StreamEnd Cancelled]) (s <| es_terminal := true |> <| es_response := None |> <| es_retry_timer := None |>) true.
Proof.
  intros [Ho _ Ht Hs Ha Hb Hv] Hterm Hp. destruct (Ho Hterm) as [Hq _]. rewrite Hp, app_nil_r in Hb, Hv.
  constructor; cbn; rewrite ?Hp, ?app_nil_r; try done.
  - intros _. exists given, (StreamEnd Cancelled). done.
  - apply tail_app_fresh; [done|]. by repeat constructor.
  - apply Forall_app. split; [done|]. constructor; [intros _; by right|constructor].
Qed.

Lemma wait_cancelled_ok given c s waits : stream_ok given s c -> es_terminal s = false ->
  stream_ok given (timer_cleared (s <| es_retry_cancellation := waits |>)) true.
Proof.
  intros [Ho Hd Ht Hs Ha Hb Hv] Hterm. destruct (Ho Hterm) as [Hq _]. constructor; cbn; auto. by intros [].
Qed.

Lemma waits_ok given c s waits : stream_ok given s c -> stream_ok given (s <| es_retry_cancellation := waits |>) c.
Proof. by intros [? ? ? ? ? ? ?]. Qed.

Lemma poll_response_ok given c rd s : stream_ok given s c -> es_terminal s = false -> es_pending s = [] -> es_retry_timer s = None -> c = false ->
  match poll_response config c rd s with
  | (s', c', Some (Ready (Some event))) => stream_ok (given ++ [event]) s' c'
  | (s', c', _) => stream_ok given s' c'
  end.
Proof.
  intros Hok Hterm Hp Ht ->. unfold poll_response. destruct (es_response s) as [[|event rest]|] eqn:Hr; [done| |done].
  destruct (rd_response_ready rd); [|done].
  set (c' := _ || _). destruct (response_event config c' event _) as [s'|[]|] eqn:He; cbn [continue_with]; [|destruct Hok as [Ho ? ? ? ? ? ?]; constructor; try done; intros _; destruct (Ho Hterm); eauto].
  assert (Hs : stream_ok given (s <| es_response := Some rest |>) false).
  { destruct Hok as [Ho ? ? ? ? ? ?]. constructor; cbn; try done. intros _. destruct (Ho Hterm). eauto. }
  apply response_event_advances in He as [Ha|Ha]; [|by eapply retries_ok]. by eapply advances_ok.
Qed.

Lemma poll_round_ok given c rd s : stream_ok given s c ->
  match poll_round config server c rd s with
  | (s', c', Some (Ready (Some event))) => stream_ok (given ++ [event]) s' c'
  | (s', c', _) => stream_ok given s' c'
  end.
Proof.
  intros Hok. unfold poll_round. destruct (es_terminal s) eqn:Hterm; [done|].
  destruct (es_pending s) as [|event pending] eqn:Hp; [|by apply pop_ok].
  destruct (c || rd_cancel rd) eqn:Hc; [by eapply cancel_ok|]. apply orb_false_iff in Hc as [-> _].
  destruct (es_retry_timer s) as [delay|] eqn:Ht; [|by apply poll_response_ok].
  cbn [orb]. destruct (rd_wait_cancel rd); [by eapply wait_cancelled_ok|].
  destruct (rd_timer_ready rd); [|by apply waits_ok]. by eapply start_attempt_ok.
Qed.
End invariant.

(** ** A stream is started *)

Section start.
Context `{Miniserde} (config : AnthropicConfig) (server : N -> list TransportStreamEvent).

Lemma initial_ok s c : es_terminal s = false -> es_retry_timer s = None -> es_attempt s = 0 -> es_sent s = [] ->
  Forall (fun e => is_observation e = false) (tail (es_pending s)) ->
  Forall (fun e => is_visible e = true -> ends_stream e = true) (es_pending s) -> existsb ends_stream (es_pending s) = true ->
  stream_ok config [] s c.
Proof.
  intros Hterm Htimer Ha Hs Ho Hv Ht. constructor; rewrite ?Hterm, ?Htimer, ?Ha, ?Hs; try done; try by intros [].
  - intros _. split; [by apply List.Forall_nil|by left].
  - lia.
  - eapply Forall_impl; [exact Hv|]. auto.
Qed.

Lemma start_fail_ok shared purpose source message retryable c :
  stream_ok config [] (stream_fail config (empty_stream shared purpose) source message None retryable) c.
Proof. apply initial_ok; try done; cbn; destruct (fail_overflows _ _); by repeat constructor. Qed.

Lemma start_ok shared request build c1 c2 :
  stream_ok config [] (anthropic_start config shared request build c1 (c1 || c2) server) (c1 || c2).
Proof.
  unfold anthropic_start. destruct c1; [by apply initial_ok; repeat constructor|].
  destruct (validate_model config request); [apply start_fail_ok|]. destruct build as [|built]; [apply start_fail_ok|].
  destruct (to_json_string (bt_body built)) as [body|error|reason]; [|apply start_fail_ok..].
  unfold start_attempt. destruct (false || c2) eqn:Hc; [apply initial_ok; by repeat constructor|].
  constructor; cbn; try done; try by intros [].
  - intros _. split; [by apply List.Forall_nil|eauto].
  - unfold attempts_allowed. cbn. destruct (mr_purpose request); lia.
  - by repeat constructor.
Qed.

(** The requests and the events of any use of a started stream. *)
Lemma drive_ok shared request build c1 c2 rounds :
  let '(events, s, c, _) := drive config server (c1 || c2) rounds (anthropic_start config shared request build c1 (c1 || c2) server) in
  stream_ok config events s c.
Proof. apply (drive_invariant config server (stream_ok config) rounds []); [apply start_ok|]. intros. by apply poll_round_ok. Qed.

Lemma ready_none_terminal given c rd s s' c' : stream_ok config given s c ->
  poll_round config server c rd s = (s', c', Some (Ready None)) -> es_terminal s' = true.
Proof.
  intros Hok. unfold poll_round. destruct (es_terminal s) eqn:Hterm; [by intros [= <- _]|].
  destruct (so_open _ _ _ _ Hok Hterm) as [_ Hl].
  destruct (es_pending s) as [|event pending]; [|done]. destruct (c || rd_cancel rd) eqn:Hc; [done|]. apply orb_false_iff in Hc as [-> _].
  destruct (es_retry_timer s); [by repeat case_match|]. unfold poll_response. destruct (es_response s) as [[|event rest]|]; [done| |].
  - destruct (rd_response_ready rd); [|done]. destruct (response_event config _ event _) as [|[]|]; done.
  - destruct Hl as [|[[]|[[]|]]]; done.
Qed.

Lemma closed_terminal rounds : forall c s given, stream_ok config given s c ->
  let '(_, s', _, ending) := drive config server c rounds s in ending = Closed -> es_terminal s' = true.
Proof.
  induction rounds as [|rd rounds IH]; intros c s given Hok; cbn [drive]; [done|].
  pose proof (poll_round_ok config server given c rd s Hok) as Hr.
  destruct (poll_round config server c rd s) as [[s' c'] [[[event|]| |]|]] eqn:Hp; [| |by eapply IH|done|by eapply IH].
  - apply IH in Hr. by destruct (drive config server c' rounds s') as [[[? ?] ?] ?].
  - intros _. exact (ready_none_terminal given c rd s s' c' Hok Hp).
Qed.
End start.

(** ** What the run makes of the events *)

Lemma reduce_quiet events : forall s, no_terminal events -> ss_reason s = None ->
  exists s', reduce_stream s events = Some s' /\ ss_reason s' = None.
Proof.
  induction events as [|e events IH]; intros s Hq Hs; cbn [reduce_stream]; [eauto|]. apply Forall_cons in Hq as [He Hq].
  rewrite Hs. cbn [reported]. apply IH; [done|]. by destruct e.
Qed.
Lemma reduce_stream_app events more : forall s,
  reduce_stream s (events ++ more) = match reduce_stream s events with Some s' => reduce_stream s' more | None => None end.
Proof. induction events as [|e events IH]; intros s; cbn [reduce_stream app]; [done|]. by destruct (reported (ss_reason s)). Qed.
Lemma settled_response model events : ends_terminally events -> is_Some (stream_response model events).
Proof.
  intros (before & terminal & -> & Hq & Ht). unfold stream_response. rewrite reduce_stream_app.
  destruct (reduce_quiet before stream_start Hq eq_refl) as (s & -> & Hs). cbn [reduce_stream]. rewrite Hs. cbn [reported].
  destruct terminal; try done; cbn; by eexists.
Qed.

(** ** How a poll can panic *)

Definition stream_panics : list string :=
  ["attempt to add with overflow"; "attempt to multiply with overflow";
   "cannot convert float seconds to Duration: value is either too big or NaN"].
Definition panics_within {E A} (m : Outcome E A) : Prop := forall reason, m = Panic reason -> reason ∈ stream_panics.

Lemma panics_Ok {E A} (x : A) : panics_within (@Ok E A x).
Proof. by intros r. Qed.
Lemma panics_bind {E A B} (m : Outcome E A) (f : A -> Outcome E B) :
  panics_within m -> (forall x, panics_within (f x)) -> panics_within (obind m f).
Proof. intros Hm Hf. destruct m as [x|e|r]; cbn; [apply Hf|done|]. intros r' [= <-]. by apply Hm. Qed.
Lemma panics_reason {E A} (reason : string) : reason ∈ stream_panics -> panics_within (@Panic E A reason).
Proof. by intros Hr r [= <-]. Qed.

Lemma u64_add_panics {E} a b : panics_within (@u64_add E a b).
Proof. unfold u64_add. destruct (_ <? _); [apply panics_reason; set_solver|apply panics_Ok]. Qed.
Lemma u128_panics {E} operation value : operation ∈ ["add"; "multiply"] -> panics_within (@u128_checked E operation value).
Proof.
  intros Ho. unfold u128_checked. destruct (_ <? _); [|apply panics_Ok]. apply panics_reason.
  apply elem_of_cons in Ho as [->|[->|[]%not_elem_of_nil]%elem_of_cons]; cbn; set_solver.
Qed.
Lemma finish_panics r : panics_within (reducer_finish r).
Proof.
  unfold reducer_finish. destruct (_ && _); [done|]. destruct (sr_outcome r); [|done]. apply panics_bind.
  - unfold to_usage. apply panics_bind; [apply u64_add_panics|intros ?]. apply panics_bind; [apply u64_add_panics|intros ?].
    apply panics_bind; [apply u64_add_panics|intros ?; apply panics_Ok].
  - intros usage. destruct (sr_managed_effort r); [destruct (opaque_replay _ _)|]; [done|apply panics_Ok..].
Qed.

Lemma mul_tokens_panics {E} d tokens : panics_within (@mul_tokens E d tokens).
Proof. unfold mul_tokens. apply panics_bind; [apply u128_panics; set_solver|intros ?; apply panics_Ok]. Qed.
Lemma cost_add_panics {E} a b : panics_within (@cost_add E a b).
Proof.
  unfold cost_add, cost_rescale. do 3 (apply panics_bind; [apply u128_panics; set_solver|intros ?]). apply panics_Ok.
Qed.
Lemma add_priced_panics {E} total price tokens factor (rest : CostDecimal -> Outcome E (option string)) :
  (forall t, panics_within (rest t)) -> panics_within (add_priced total price tokens factor rest).
Proof.
  intros Hr. unfold add_priced. destruct (cost_parse price); [|apply panics_Ok].
  do 2 (apply panics_bind; [apply mul_tokens_panics|intros ?]). apply panics_bind; [apply cost_add_panics|done].
Qed.
Lemma estimate_panics {E} usage pricing : panics_within (@estimate_cost E usage pricing).
Proof. unfold estimate_cost. do 5 (apply add_priced_panics; intros ?). apply panics_Ok. Qed.

(** A quotient of non-negative numbers is not negative. *)
Definition not_negative (value : spec_float) : bool := match value with S754_finite true _ _ => false | _ => true end.
Lemma duration_panics {E} value : not_negative value = true -> panics_within (@duration_from_secs_f64 E value).
Proof.
  unfold duration_from_secs_f64. destruct value as [| | |[] mantissa exponent]; try done; intros _;
    try apply panics_Ok; try (apply panics_reason; set_solver). destruct (_ <? _); [apply panics_reason; set_solver|apply panics_Ok].
Qed.
Lemma round_not_negative m e l : not_negative (binary_round_aux f64_prec f64_emax false m e l) = true.
Proof.
  unfold binary_round_aux. destruct (shr_fexp _ _ m e l) as [mrs e1]. destruct (shr_fexp _ _ _ e1 _) as [mrs2 e2].
  destruct (shr_m mrs2); try done. by destruct (_ <=? _)%Z.
Qed.
Lemma division_not_negative x y : finite_non_negative x = true -> finite_non_negative y = true ->
  not_negative (SFdiv f64_prec f64_emax x y) = true.
Proof.
  destruct x as [| | |[] mx ex], y as [| | |[] my ey]; try done; intros _ _. cbn [SFdiv].
  destruct (SFdiv_core_binary _ _ _ _ _ _) as [[mz ez] lz]. apply round_not_negative.
Qed.
Lemma parsed_delay_finite headers name value : parsed_delay headers name = Some value -> finite_non_negative value = true.
Proof.
  unfold parsed_delay. destruct (response_header headers name ≫= parse_f64) as [v|]; [|done]. destruct (finite_non_negative v) eqn:Hv; [|done].
  by intros [= <-].
Qed.
Lemma retry_delay_panics {E} headers : panics_within (@retry_delay E headers).
Proof.
  unfold retry_delay. destruct (parsed_delay headers "retry-after-ms") as [ms|] eqn:Hms.
  - apply panics_bind; [|intros; apply panics_Ok]. apply duration_panics, division_not_negative; [by eapply parsed_delay_finite|done].
  - destruct (parsed_delay headers "retry-after") as [seconds|] eqn:Hs; [|apply panics_Ok].
    apply panics_bind; [|intros; apply panics_Ok]. apply duration_panics. apply parsed_delay_finite in Hs.
    by destruct seconds as [| | |[] ? ?].
Qed.

Section panics.
Context `{Miniserde} (config : AnthropicConfig) (server : N -> list TransportStreamEvent).

Lemma deliver_panics events : forall s, panics_within (stream_deliver config events s).
Proof.
  induction events as [|e events IH]; intros s; cbn [stream_deliver]; [apply panics_Ok|]. apply panics_bind; [|intros; apply IH].
  destruct e; try apply panics_Ok. unfold settle_accounting. apply panics_bind; [|intros; apply panics_Ok].
  destruct (nc_pricing config); [apply estimate_panics|apply panics_Ok].
Qed.
Lemma reduced_panics s result : panics_within (stream_reduced config s result).
Proof. destruct result; [apply panics_Ok|apply deliver_panics]. Qed.
Lemma reduce_event_panics s event : panics_within (reduce_event config s event).
Proof. unfold reduce_event. destruct (reducer_push _ _). apply reduced_panics. Qed.
Lemma reduce_chunk_panics events : forall s, panics_within (reduce_chunk config events s).
Proof.
  induction events as [|e events IH]; intros s; cbn [reduce_chunk]; [apply panics_Ok|].
  apply panics_bind; [apply reduce_event_panics|]. intros t. destruct (es_response t); [apply IH|apply panics_Ok].
Qed.
Lemma reduce_rest_panics events : forall s, panics_within (reduce_rest config events s).
Proof.
  induction events as [|e events IH]; intros s; cbn [reduce_rest]; [apply panics_Ok|].
  apply panics_bind; [apply reduce_event_panics|]. intros t. apply IH.
Qed.
Lemma response_event_panics c event s : panics_within (response_event config c event s).
Proof.
  destruct event as [status headers|bytes| |error]; cbn [response_event].
  - apply panics_Ok.
  - destruct (is_failed_status s); [apply panics_Ok|]. destruct (sse_push _ bytes). apply reduce_chunk_panics.
  - destruct (is_failed_status s).
    + unfold handle_status_failure. destruct (status_retryable _ _); [|apply panics_Ok].
      apply panics_bind; [apply retry_delay_panics|]. intros delay. destruct (queue_retry config s delay) as [? [|[]]]; apply panics_Ok.
    + destruct (sse_finish _) as [d events]. apply panics_bind; [apply reduce_rest_panics|]. intros t. destruct (existsb _ _); [apply panics_Ok|].
      pose proof (finish_panics (es_reducer t)) as Hf. destruct (reducer_finish _); [apply reduced_panics..|].
      apply panics_reason. by apply Hf.
  - destruct (_ || _); apply panics_Ok.
Qed.

Lemma crash_reasons rounds : forall c s events s' c' reason,
  drive config server c rounds s = (events, s', c', Crashed reason) -> es_terminal s' = false /\ reason ∈ stream_panics.
Proof.
  induction rounds as [|rd rounds IH]; intros c s events s' c' reason; cbn [drive]; [done|].
  destruct (poll_round config server c rd s) as [[t d] [[[event|]| |r]|]] eqn:Hp; [|done|apply IH| |apply IH].
  - destruct (drive config server d rounds t) as [[[rest u] e] ending] eqn:Hd. intros [= <- <- <- ->]. by eapply IH.
  - intros [= <- <- <- ->]. unfold poll_round in Hp. destruct (es_terminal s) eqn:Hterm; [done|]. destruct (es_pending s); [|done].
    destruct (c || rd_cancel rd); [done|]. destruct (es_retry_timer s); [by repeat case_match|].
    unfold poll_response in Hp. destruct (es_response s) as [[|event rest]|]; [done| |done]. destruct (rd_response_ready rd); [|done].
    destruct (response_event config _ event _) as [|[]|] eqn:He; simplify_eq/=. split; [done|]. by eapply response_event_panics.
Qed.
End panics.

(** ** The stream is well formed *)

(** C23: Whatever the server answers and whenever the run polls or cancels, the stream that an
    Anthropic request hands out is one the run accepts: when it is over, its last event, and no
    other, is terminal; until then no terminal event was handed out; the observation of the
    request comes first if at all, and once. A poll panics only on the arithmetic of accounting
    or of a requested delay. *)
Theorem anthropic_stream_accepted `{Miniserde} config shared request build server c1 c2 rounds model :
  let started := anthropic_start config shared request build c1 (c1 || c2) server in
  let '(events, s, _, ending) := drive config server (c1 || c2) rounds started in
  Forall (fun e => is_observation e = false) (tail events) /\
  match ending with
  | Closed => ends_terminally events /\ is_Some (stream_response model events)
  | Waiting => if es_terminal s then ends_terminally events else no_terminal events
  | Crashed reason => no_terminal events /\ reason ∈ stream_panics
  end.
Proof.
  intros started. pose proof (drive_ok config server shared request build c1 c2 rounds) as Hok.
  pose proof (closed_terminal config server rounds _ _ _ (start_ok config server shared request build c1 c2)) as Hclosed.
  pose proof (crash_reasons config server rounds (c1 || c2) started) as Hcrash. fold started in Hok, Hclosed.
  destruct (drive config server (c1 || c2) rounds started) as [[[events s] c] ending].
  destruct Hok as [Ho Hd _ _ _ Hb _]. split.
  { destruct events as [|e events]; [constructor|]. cbn in *. by apply Forall_app in Hb as [Hb _]. }
  destruct ending as [| |reason].
  - destruct (es_terminal s); [by apply Hd|by destruct (Ho eq_refl)].
  - specialize (Hd (Hclosed eq_refl)). split; [done|by apply settled_response].
  - destruct (Hcrash _ _ _ _ eq_refl) as [Ht Hr]. split; [by destruct (Ho Ht)|done].
Qed.

(** ** Requests *)

Section requests.
Context `{Miniserde} (config : AnthropicConfig) (server : N -> list TransportStreamEvent).

(** What every attempt sends, and whether attempts may be repeated. *)
Definition constants (s : EventStream) := (attempt_request config s, es_retries_allowed s).
Lemma request_of_constants s s' : request_of s' = request_of s -> constants s' = constants s.
Proof. intros (_ & _ & _ & Hr & Hq)%(request_of_fields config). unfold constants. by rewrite Hr, Hq. Qed.

Lemma poll_response_request c rd s : match poll_response config c rd s with (s', _, _) => request_of s' = request_of s end.
Proof.
  unfold poll_response. destruct (es_response s) as [[|event rest]|]; [done| |done]. destruct (rd_response_ready rd); [|done].
  destruct (response_event config _ event _) as [s'|[]|] eqn:He; cbn [continue_with]; [|done].
  by apply response_event_advances in He as [[]|[]].
Qed.
Lemma poll_round_constants c rd s : match poll_round config server c rd s with (s', _, _) => constants s' = constants s end.
Proof.
  unfold poll_round. destruct (es_terminal s); [done|]. destruct (es_pending s) as [|event pending]; [|by destruct (ends_stream event)].
  destruct (c || rd_cancel rd); [done|]. destruct (es_retry_timer s).
  - destruct (_ || rd_wait_cancel rd); [done|]. destruct (rd_timer_ready rd); [|done]. unfold start_attempt. by destruct (_ || _).
  - pose proof (poll_response_request false rd s) as Hr. destruct (poll_response config false rd s) as [[s' c'] result].
    by apply request_of_constants.
Qed.
Lemma drive_constants rounds c s : let '(_, s', _, _) := drive config server c rounds s in constants s' = constants s.
Proof.
  apply (drive_invariant config server (fun _ s' _ => constants s' = constants s) rounds []); [done|]. intros given d rd t Ht.
  pose proof (poll_round_constants d rd t) as Hr. destruct (poll_round config server d rd t) as [[t' d'] [[[]| |]|]]; congruence.
Qed.
Lemma start_allowed shared request build c1 c2 :
  es_retries_allowed (anthropic_start config shared request build c1 c2 server) =
  match mr_purpose request with PurposeCacheMaintenance => false | _ => true end.
Proof.
  unfold anthropic_start. destruct c1; [done|]. destruct (validate_model config request); [done|]. destruct build as [|built]; [done|].
  destruct (to_json_string (bt_body built)); [|done..]. unfold start_attempt. by destruct c2.
Qed.

(** After output, or after the end, nothing is sent. *)
Definition request_committed (sent : list TransportRequest) (given : list ModelStreamEvent) (s : EventStream) (c : bool) : Prop :=
  stream_ok config given s c /\ es_sent s = sent /\ (es_visible s = true \/ es_terminal s = true).
Lemma poll_round_committed sent given c rd s : request_committed sent given s c ->
  match poll_round config server c rd s with
  | (s', c', Some (Ready (Some event))) => request_committed sent (given ++ [event]) s' c'
  | (s', c', _) => request_committed sent given s' c'
  end.
Proof.
  intros (Hok & Hs & Hv). pose proof (poll_round_ok config server given c rd s Hok) as Hr.
  cut (match poll_round config server c rd s with (s', _, _) => es_sent s' = sent /\ (es_visible s' = true \/ es_terminal s' = true) end).
  { destruct (poll_round config server c rd s) as [[s' c'] [[[event|]| |]|]]; intros Hc; split; done. }
  clear Hr. unfold poll_round. destruct (es_terminal s) eqn:Hterm; [auto|]. destruct Hv as [Hv|]; [|done].
  destruct (es_pending s) as [|event pending]; [|destruct (ends_stream event); auto]. destruct (c || rd_cancel rd) eqn:Hc; [auto|].
  destruct (es_retry_timer s) eqn:Ht; [destruct (so_timer _ _ _ _ Hok) as [Hno _]; [by eexists|congruence]|].
  unfold poll_response. destruct (es_response s) as [[|event rest]|]; [auto| |auto]. destruct (rd_response_ready rd); [|auto].
  destruct (response_event config _ event _) as [s'|[]|] eqn:He; cbn [continue_with]; [|auto].
  apply response_event_advances in He as [[Hr _ Hvis _ _]|[_ _ _ _ [Hno _] _ _]]; [|cbn in Hno; congruence].
  apply (request_of_fields config) in Hr as (_ & Es & _). rewrite Es. auto.
Qed.
End requests.

(** C24: However the server fails, an Anthropic request is sent at most once more than the
    policy retries it (cache maintenance at most once), every time with the same bytes and
    headers; and once the run was given output, whatever happens later, it is not sent again. *)
Theorem requests_bounded_and_not_replayed `{Miniserde} config shared request build server c1 c2 rounds more :
  let started := anthropic_start config shared request build c1 (c1 || c2) server in
  let allowed := match mr_purpose request with PurposeCacheMaintenance => 1 | _ => rp_max_retries (nc_retry_policy config) + 1 end in
  let '(events, s, c, _) := drive config server (c1 || c2) rounds started in
  es_sent s = repeat (attempt_request config started) (length (es_sent s)) /\ (N.of_nat (length (es_sent s)) <= allowed) /\
  (existsb is_visible events = true -> let '(_, later, _, _) := drive config server c more s in es_sent later = es_sent s).
Proof.
  intros started allowed. pose proof (drive_ok config server shared request build c1 c2 rounds) as Hok. fold started in Hok.
  pose proof (drive_constants config server rounds (c1 || c2) started) as Hc.
  destruct (drive config server (c1 || c2) rounds started) as [[[events s] c] ending]. pose proof Hok as [Ho Hd _ Hs Ha _ Hv].
  pose proof (f_equal fst Hc : attempt_request config s = _) as Hq. pose proof (f_equal snd Hc : es_retries_allowed s = _) as Hr.
  rewrite Hq in Hs. split_and!.
  - rewrite Hs at 2. by rewrite repeat_length.
  - rewrite Hs, repeat_length, N2Nat.id. unfold attempts_allowed in Ha. rewrite Hr in Ha. cbn [constants snd] in Ha. unfold started in Ha. rewrite start_allowed in Ha.
    unfold allowed. by destruct (mr_purpose request).
  - intros Hout. assert (Hcommitted : request_committed config (es_sent s) events s c).
    { split_and!; [done|done|]. destruct (es_terminal s) eqn:Ht; [by right|left]. destruct (Ho eq_refl) as [Hq' _].
      apply existsb_exists in Hout as (e & Hin & He). apply list_elem_of_In in Hin. apply Forall_app in Hv as [Hv _].
      rewrite Forall_forall in Hv. destruct (Hv e Hin He) as [|Hterm]; [done|]. unfold no_terminal in Hq'. rewrite Forall_forall in Hq'.
      by rewrite (Hq' e Hin) in Hterm. }
    pose proof (drive_invariant config server (request_committed config (es_sent s)) more events c s Hcommitted
      (fun given c rd t => poll_round_committed config server _ given c rd t)) as Hmore.
    destruct (drive config server c more s) as [[[? later] ?] ?]. by destruct Hmore as (_ & ? & _).
Qed.

(** ** What is sent *)

Section sent.
Context `{Miniserde} (config : AnthropicConfig) (server : N -> list TransportStreamEvent).

(** A stream that never opened an attempt opens none later. *)
Definition unopened (_ : list ModelStreamEvent) (s : EventStream) (_ : bool) : Prop :=
  es_sent s = [] /\ es_response s = None /\ es_retry_timer s = None.
Lemma poll_round_unopened given c rd s : unopened given s c ->
  match poll_round config server c rd s with
  | (s', c', Some (Ready (Some event))) => unopened (given ++ [event]) s' c'
  | (s', c', _) => unopened given s' c'
  end.
Proof.
  intros (Hs & Hr & Ht). unfold poll_round. destruct (es_terminal s); [done|].
  destruct (es_pending s) as [|event pending]; [|by destruct (ends_stream event)].
  destruct (c || rd_cancel rd); [done|]. rewrite Ht. unfold poll_response. by rewrite Hr.
Qed.
Lemma start_opens shared request build c1 c2 : let s := anthropic_start config shared request build c1 c2 server in
  unopened [] s c1 \/
  exists built text, build = inr built /\ to_json_string (bt_body built) = Ok text /\ es_body s = bytes_of text.
Proof.
  unfold anthropic_start. destruct c1; [by left|]. destruct (validate_model config request); [by left|]. destruct build as [|built]; [by left|].
  destruct (to_json_string (bt_body built)) as [text| |] eqn:Ht; [|by left..]. unfold start_attempt. destruct c2; [by left|]. right. by exists built, text.
Qed.
Lemma sent_bodies shared request build c1 c2 rounds :
  let '(_, s, _, _) := drive config server (c1 || c2) rounds (anthropic_start config shared request build c1 (c1 || c2) server) in
  Forall (fun sent => exists built text, build = inr built /\ to_json_string (bt_body built) = Ok text /\ tq_body sent = bytes_of text) (es_sent s).
Proof.
  destruct (start_opens shared request build c1 (c1 || c2)) as [Hun|(built & text & Hb & Ht & Hbody)].
  - pose proof (drive_invariant config server unopened rounds [] (c1 || c2) _ Hun poll_round_unopened) as Hd.
    destruct (drive config server _ rounds _) as [[[events s] c] ending]. destruct Hd as [-> _]. constructor.
  - pose proof (drive_ok config server shared request build c1 c2 rounds) as Hok.
    pose proof (drive_constants config server rounds (c1 || c2) (anthropic_start config shared request build c1 (c1 || c2) server)) as Hc.
    destruct (drive config server _ rounds _) as [[[events s] c] ending]. rewrite (so_sent _ _ _ _ Hok).
    apply (f_equal fst) in Hc. cbn [fst constants] in Hc. rewrite Hc. apply Forall_forall. intros sent Hin.
    apply list_elem_of_In, repeat_spec in Hin as ->. exists built, text. split_and!; [done|done|]. by rewrite <-Hbody.
Qed.
End sent.

(** C26: In every request the Anthropic adapter sends, whatever the transcript lacked, each tool
    use is answered: the message after an assistant message that uses tools is a user message
    with a result for every use, under the identity of the use, and the identities are those
    Anthropic accepts. *)
Theorem sent_tool_uses_answered `{Miniserde} `{Blake3} config shared request server c1 c2 rounds :
  let '(_, s, _, _) := drive config server (c1 || c2) rounds (provider_stream config shared request c1 (c1 || c2) server) in
  Forall (fun sent => exists body text messages, to_json_string body = Ok text /\ tq_body sent = bytes_of text /\
    json_get "messages" body = Some (JsonArray messages) /\ wire_paired messages = true /\ uses_valid messages) (es_sent s).
Proof.
  unfold provider_stream. set (build := match build_request config request with Ok _ => _ | Err _ => _ | Panic _ => _ end).
  pose proof (sent_bodies config server shared request build c1 c2 rounds) as Hsent.
  destruct (drive config server _ rounds _) as [[[events s] c] ending]. eapply Forall_impl; [exact Hsent|].
  intros sent (built & text & Hb & Ht & Hbody). exists (bt_body built), text.
  destruct (build_request config request) as [b| |] eqn:Hbuild; [|done..]. injection Hb as ->.
  destruct (built_fields _ _ _ Hbuild) as (max_tokens & _ & Hm & _). eexists. split_and!; [done|done|exact Hm|..];
    apply request_messages_ok, prepared_calls.
Qed.

(** ** Every stream is over in the end *)

Section liveness.
Context `{Miniserde} (config : AnthropicConfig) (server : N -> list TransportStreamEvent).

(** The last event of a response; a round in which nothing is waited for. *)
Definition closes (event : TransportStreamEvent) : bool :=
  match event with TransportEnd | TransportFailure _ => true | _ => false end.
Definition all_ready (rd : PollRound) : bool := rd_timer_ready rd && rd_response_ready rd.
Definition answering (s : EventStream) : Prop := match es_response s with Some rest => existsb closes rest = true | None => True end.

Lemma advances_closed s s' : es_response s = None -> advances s s' -> es_response s' = None.
Proof. intros Hr [_ _ _ _ [->|[-> _]]]; done. Qed.
Lemma closing_event c event s s' : closes event = true -> response_event config c event s = Ok s' -> es_response s' = None.
Proof.
  destruct event as [| | |error]; try done; intros _; cbn [response_event].
  - destruct (is_failed_status s) eqn:Hf.
    + unfold handle_status_failure. destruct (status_retryable _ _); [|by intros [= <-]].
      destruct (retry_delay _) as [delay| |]; [|done..]. cbn [obind]. pose proof (queue_retry_cases config s delay) as Hq.
      destruct (queue_retry config s delay) as [t [|[]]]; intros [= <-]; [done|by destruct Hq|done].
    + destruct (sse_finish _) as [d events]. destruct (reduce_rest config events _) as [t| |] eqn:Ht; [|done..].
      apply reduce_rest_advances, advances_closed in Ht; [|done]. cbn [obind]. destruct (existsb _ _); [by intros [= <-]|].
      destruct (reducer_finish _) as [out|f|]; [|by intros [= <-]|done]. intros Hd. cbn [stream_reduced] in Hd.
      apply deliver_frame in Hd as [shared ->]. done.
  - destruct (_ || _); [by intros [= <-]|]. unfold handle_transport_failure. intros [= <-].
    destruct (_ && _); [|done]. match goal with |- context [queue_retry config ?t None] => pose proof (queue_retry_cases config t None) as Hq end.
    destruct (queue_retry config _ None) as [t [|[]]]; [done|by destruct Hq|done].
Qed.

(** The phase, the attempts left, the rest of the response, the events not yet handed out. *)
Definition progress_measure (s : EventStream) (c : bool) : nat * (nat * (nat * nat)) :=
  (if es_terminal s then 0%nat else if c then 1%nat else 2%nat,
   (N.to_nat (attempts_allowed config s - es_attempt s),
    (match es_response s with Some rest => S (length rest) | None => 0%nat end, length (es_pending s)))).
Definition smaller : relation (nat * (nat * (nat * nat))) := slexprod _ _ lt (slexprod _ _ lt (slexprod _ _ lt lt)).
Lemma smaller_wf : well_founded smaller.
Proof. repeat (apply wf_slexprod; [apply Wf_nat.lt_wf|]). apply Wf_nat.lt_wf. Qed.

Definition moves (rd : PollRound) (s : EventStream) (c : bool) (s' : EventStream) (c' : bool) (result : option PollResult) : Prop :=
  answering s' /\
  (result = Some (Ready None) \/ (exists reason, result = Some (Panicked reason)) \/
   smaller (progress_measure s' c') (progress_measure s c) \/ all_ready rd = false /\ progress_measure s' c' = progress_measure s c).

Lemma poll_response_moves given rd s : stream_ok config given s false -> answering s -> es_terminal s = false -> es_pending s = [] ->
  es_retry_timer s = None -> match poll_response config false rd s with (s', c', result) => moves rd s false s' c' result end.
Proof.
  intros Hok Ha Hterm Hp Ht. unfold poll_response, moves. pose proof Ha as Hanswer. unfold answering in Hanswer.
  destruct (es_response s) as [[|event rest]|] eqn:Hr; [done| |by eauto].
  unfold all_ready. destruct (rd_response_ready rd); [|rewrite andb_false_r; auto 6].
  destruct (response_event config _ event _) as [s'|[]|] eqn:He; cbn [continue_with]; [|eauto 6].
  assert (Hs' : request_of s' = request_of s /\ (es_response s' = None \/ es_response s' = Some rest)).
  { apply response_event_advances in He as [[Hq _ _ _ [Hx|[Hx _]]]|[Hq _ Hx _ _ _ _]]; auto. }
  destruct Hs' as [Hq Hx]. apply (request_of_fields config) in Hq as (Et & _ & Ea & Er & _). split.
  - unfold answering. destruct Hx as [Hx|Hx]; rewrite Hx; [done|]. cbn in Hanswer. destruct (closes event) eqn:Hc; [|done].
    apply closing_event in He; [|done]. congruence.
  - right; right; left. unfold progress_measure, attempts_allowed. rewrite Et, Ea, Er, Hterm, Hr. destruct (_ || _); [left; lia|].
    right. right. left. destruct Hx as [->| ->]; cbn; lia.
Qed.

Lemma poll_round_moves given c rd s : (forall attempt, existsb closes (server attempt) = true) -> stream_ok config given s c -> answering s ->
  match poll_round config server c rd s with (s', c', result) => moves rd s c s' c' result end.
Proof.
  intros Hserver Hok Ha. unfold poll_round. destruct (es_terminal s) eqn:Hterm; [by split; auto|].
  destruct (es_pending s) as [|event pending] eqn:Hp.
  - destruct (c || rd_cancel rd) eqn:Hc.
    { split; [done|]. right; right; left. unfold progress_measure. rewrite Hterm. left. cbn. destruct c; lia. }
    apply orb_false_iff in Hc as [-> _]. destruct (es_retry_timer s) as [delay|] eqn:Ht; [|by eapply poll_response_moves].
    cbn [orb]. destruct (so_timer _ _ _ _ Hok) as (_ & Hallowed & Hattempt); [by eexists|].
    assert (Hphase : forall t d, es_terminal t = es_terminal s -> d = true -> smaller (progress_measure t d) (progress_measure s false)).
    { intros t d Htt ->. unfold progress_measure. rewrite Htt, Hterm. left. lia. }
    destruct (rd_wait_cancel rd); [split; [done|]; right; right; left; by apply Hphase|].
    unfold moves, all_ready. destruct (rd_timer_ready rd); [|split; [done|]; right; right; right; done].
    unfold start_attempt. destruct (rd_attempt_cancel rd) eqn:Hac.
    + split; [done|]. right; right; left. by apply Hphase.
    + split; [apply Hserver|]. right; right; left. unfold progress_measure, attempts_allowed. cbn. rewrite Hterm, Hallowed. right. left. lia.
  - destruct (ends_stream event).
    + split; [done|]. right; right; left. unfold progress_measure. rewrite Hterm. left. cbn. destruct c; lia.
    + split; [done|]. right; right; left. unfold progress_measure, attempts_allowed. cbn. rewrite Hp. right. right. right. cbn. lia.
Qed.

(** One round, and what then follows. *)
Definition stream_over (rounds : nat -> PollRound) (i : nat) (c : bool) (s : EventStream) : Prop :=
  exists n, let '(_, _, _, ending) := drive config server c (map rounds (seq i n)) s in ending <> Waiting.
Lemma over_step rounds i given c s : stream_ok config given s c ->
  (forall given' s' c' result, poll_round config server c (rounds i) s = (s', c', result) -> result <> Some (Ready None) ->
    (forall reason, result <> Some (Panicked reason)) -> stream_ok config given' s' c' -> stream_over rounds (S i) c' s') ->
  stream_over rounds i c s.
Proof.
  intros Hok Hnext. pose proof (poll_round_ok config server given c (rounds i) s Hok) as Hround. unfold stream_over.
  destruct (poll_round config server c (rounds i) s) as [[s' c'] [[[event|]| |reason]|]] eqn:Hp.
  2: { exists 1%nat. cbn. by rewrite Hp. }
  3: { exists 1%nat. cbn. by rewrite Hp. }
  all: edestruct Hnext as [n Hn]; [reflexivity|done|done|exact Hround|]; exists (S n); cbn [seq map drive]; rewrite Hp; try exact Hn.
  by destruct (drive config server c' _ s') as [[[? ?] ?] ?].
Qed.

Lemma drive_closes (rounds : nat -> PollRound) :
  (forall attempt, existsb closes (server attempt) = true) -> (forall i, exists j, (i <= j)%nat /\ all_ready (rounds j) = true) ->
  forall m given s c i, progress_measure s c = m -> stream_ok config given s c -> answering s -> stream_over rounds i c s.
Proof.
  intros Hserver Hfair m. induction (smaller_wf m) as [m _ IH]. intros given s c i.
  destruct (Hfair i) as (j & Hij & Hj). assert (exists k, j = (i + k)%nat) as [k Hk] by (exists (j - i)%nat; lia).
  revert given s c i Hij Hk. induction k as [|k IHk]; intros given s c i Hij Hk Hm Hok Ha.
  all: apply (over_step rounds i given c s Hok); intros given' s' c' result Hp Hnone Hpanic Hok'.
  all: pose proof (poll_round_moves given c (rounds i) s Hserver Hok Ha) as Hmove; rewrite Hp in Hmove.
  all: destruct Hmove as [Ha' [Hm'|[[reason Hm']|[Hm'|[Hready Hm']]]]]; [done|by destruct (Hpanic reason)| |].
  - eapply IH; [|reflexivity|exact Hok'|exact Ha']. by rewrite <-Hm.
  - replace i with j in Hready by lia. congruence.
  - eapply IH; [|reflexivity|exact Hok'|exact Ha']. by rewrite <-Hm.
  - eapply IHk; [| |by rewrite Hm'|exact Hok'|exact Ha']; lia.
Qed.
End liveness.

(** C25: If every answer of the server comes to an end and the run keeps being polled when the
    response or the timer is ready, the stream is over after finitely many rounds, cancelled or
    not: the retries cannot go on for ever and no state waits for nothing. *)
Theorem anthropic_stream_closes `{Miniserde} config shared request build server c1 c2 (rounds : nat -> PollRound) :
  (forall attempt, existsb closes (server attempt) = true) -> (forall i, exists j, (i <= j)%nat /\ all_ready (rounds j) = true) ->
  exists n, let '(_, _, _, ending) := drive config server (c1 || c2) (map rounds (seq 0 n))
    (anthropic_start config shared request build c1 (c1 || c2) server) in ending <> Waiting.
Proof.
  intros Hserver Hfair. eapply (drive_closes config server rounds Hserver Hfair _ []); [reflexivity|apply start_ok|].
  unfold anthropic_start. destruct c1; [done|]. destruct (validate_model config request); [done|]. destruct build as [|built]; [done|].
  destruct (to_json_string (bt_body built)); [|done..]. unfold start_attempt. destruct c2; [done|]. apply Hserver.
Qed.

(** ** The events are those of the response *)

Section response.
Context `{Miniserde}.

Definition failure_event (f : StreamFailure) : ModelStreamEvent :=
  if fail_overflows (sf_message f) (sf_error_type f) then ContextOverflow (sf_message f) else StreamError (sf_message f).

(** The reference: the decoded events of a whole body, reduced one after the other up to the first
    failure, then settled. *)
Fixpoint reduce_response (r : StreamReducer) (events : list ServerSentEvent) : list ModelStreamEvent * (StreamFailure + StreamReducer) :=
  match events with
  | [] => ([], inr r)
  | event :: events =>
      match reducer_push r event with
      | (r, inr out) => let '(rest, result) := reduce_response r events in (out ++ rest, result)
      | (_, inl f) => ([], inl f)
      end
  end.
Definition settle (result : StreamFailure + StreamReducer) : list ModelStreamEvent :=
  match result with
  | inl f => [failure_event f]
  | inr r => match reducer_finish r with Ok out => out | Err f => [failure_event f] | Panic _ => [] end
  end.
Definition response_events (r : StreamReducer) (events : list ServerSentEvent) : list ModelStreamEvent :=
  let '(out, result) := reduce_response r events in out ++ settle result.

Lemma reduce_all_app events more : forall r,
  reduce_response r (events ++ more) =
  match reduce_response r events with
  | (out, inr r) => let '(rest, result) := reduce_response r more in (out ++ rest, result)
  | (out, inl f) => (out, inl f)
  end.
Proof.
  induction events as [|e events IH]; intros r; cbn [reduce_response app]; [by destruct (reduce_response r more)|].
  destruct (reducer_push r e) as [r' [f|out]]; [done|]. rewrite IH. destruct (reduce_response r' events) as [out' [f|r2]]; [done|].
  destruct (reduce_response r2 more). by rewrite app_assoc.
Qed.
Lemma reduce_all_content events : forall r, Forall (fun e => is_content e = true) (reduce_response r events).1.
Proof.
  induction events as [|e events IH]; intros r; cbn [reduce_response]; [constructor|]. pose proof (push_content r e) as Hc.
  destruct (reducer_push r e) as [r' [f|out]]; [constructor|]. specialize (IH r'). destruct (reduce_response r' events). by apply Forall_app.
Qed.

(** What is still to come of a response, the chunks taken as they are. *)
Fixpoint upcoming (d : SseDecoder) (r : StreamReducer) (rest : list TransportStreamEvent) : list ModelStreamEvent :=
  match rest with
  | TransportResponse _ _ :: rest => upcoming d r rest
  | TransportChunk bytes :: rest =>
      let '(d, events) := sse_push d bytes in
      match reduce_response r events with
      | (out, inr r) => out ++ upcoming d r rest
      | (out, inl f) => out ++ settle (inl f)
      end
  | TransportEnd :: _ => response_events r (sse_finish d).2
  | _ => []
  end.
Lemma upcoming_chunks chunks : forall d r,
  upcoming d r (map TransportChunk chunks ++ [TransportEnd]) =
  response_events r ((sse_feed d chunks).2 ++ (sse_finish (sse_feed d chunks).1).2).
Proof.
  induction chunks as [|bytes chunks IH]; intros d r; [done|]. cbn [map app upcoming sse_feed].
  destruct (sse_push d bytes) as [d' events]. unfold response_events.
  destruct (sse_feed d' chunks) as [d2 events2] eqn:Hf. cbn [fst snd]. rewrite <-app_assoc, reduce_all_app.
  destruct (reduce_response r events) as [out [f|r']]; [done|]. rewrite IH, Hf. unfold response_events. cbn [fst snd].
  destruct (reduce_response r' _) as [rest result]. by rewrite app_assoc.
Qed.

(** The events handed out: without the evidence of failures, up to the terminal one. *)
Definition is_evidence (event : ModelStreamEvent) : bool := match event with StreamProviderError _ => true | _ => false end.
Definition hide (events : list ModelStreamEvent) : list ModelStreamEvent := List.filter (fun e => negb (is_evidence e)) events.
Fixpoint cut (events : list ModelStreamEvent) : list ModelStreamEvent :=
  match events with [] => [] | e :: events => if ends_stream e then [e] else e :: cut events end.

Lemma hide_app a b : hide (a ++ b) = hide a ++ hide b.
Proof. apply List.filter_app. Qed.
Lemma hide_id events : Forall (fun e => is_evidence e = false) events -> hide events = events.
Proof. unfold hide. induction 1 as [|e events He _ IH]; cbn; [done|]. by rewrite He, IH. Qed.
Lemma hide_content events : Forall (fun e => is_content e = true) events -> hide events = events.
Proof. intros Hc. apply hide_id. eapply Forall_impl; [exact Hc|]. by intros []. Qed.
Lemma cut_terminal before e after : ends_stream e = true -> cut (before ++ e :: after) = cut (before ++ [e]).
Proof. intros He. induction before as [|x before IH]; cbn; [by rewrite He|]. by rewrite IH. Qed.
End response.

Section tracking.
Context `{Miniserde} (config : AnthropicConfig) (server : N -> list TransportStreamEvent).

(** A reduction touches neither the decoder nor the status; what it does to the rest. *)
Definition same_response (s s' : EventStream) : Prop :=
  es_decoder s' = es_decoder s /\ es_status_code s' = es_status_code s /\ es_retry_timer s' = es_retry_timer s /\ es_terminal s' = es_terminal s.

Lemma reduce_event_tracks s event s' : reduce_event config s event = Ok s' -> same_response s s' /\
  match reducer_push (es_reducer s) event with
  | (r, inr out) => es_reducer s' = r /\ es_pending s' = es_pending s ++ out /\ es_response s' = es_response s
  | (_, inl f) => exists evidence, es_pending s' = es_pending s ++ [StreamProviderError evidence; failure_event f] /\ es_response s' = None
  end.
Proof.
  unfold reduce_event. destruct (reducer_push (es_reducer s) event) as [r [f|out]]; cbn [stream_reduced].
  - intros [= <-]. split; [done|]. eexists. split; [|done]. cbn. by rewrite <-app_assoc.
  - intros (shared & ->)%deliver_frame. done.
Qed.

Lemma reduce_chunk_tracks events : forall s s' rest, es_response s = Some rest -> reduce_chunk config events s = Ok s' -> same_response s s' /\
  match reduce_response (es_reducer s) events with
  | (out, inr r) => es_reducer s' = r /\ es_pending s' = es_pending s ++ out /\ es_response s' = Some rest
  | (out, inl f) => exists evidence, es_pending s' = es_pending s ++ out ++ [StreamProviderError evidence; failure_event f] /\ es_response s' = None
  end.
Proof.
  induction events as [|e events IH]; intros s s' rest Hr; cbn [reduce_chunk reduce_response]; [intros [= <-]; by rewrite app_nil_r|].
  destruct (reduce_event config s e) as [t| |] eqn:He; [|done..]. apply reduce_event_tracks in He as [(Hd & Hc & Ht & Hx) He]. cbn [obind].
  destruct (reducer_push (es_reducer s) e) as [r [f|out]].
  - destruct He as (evidence & Hp & Hn). rewrite Hn. intros [= <-]. split; [done|]. by exists evidence.
  - destruct He as (Hred & Hp & Hn). rewrite Hn, Hr. intros Hs. apply (IH _ _ rest) in Hs as [(Hd' & Hc' & Ht' & Hx') Hs]; [|congruence].
    rewrite Hred in Hs. split; [unfold same_response; split_and!; congruence|].
    destruct (reduce_response r events) as [out' [f|r']]; [destruct Hs as (evidence & Hs & Hn'); exists evidence|destruct Hs as (? & Hs & ?)];
      by rewrite Hs, Hp, <-?app_assoc.
Qed.

Lemma reduce_rest_tracks events : forall s s', es_response s = None -> reduce_rest config events s = Ok s' ->
  same_response s s' /\ es_response s' = None /\
  match reduce_response (es_reducer s) events with
  | (out, inr r) => es_reducer s' = r /\ es_pending s' = es_pending s ++ out
  | (out, inl f) => exists evidence more, es_pending s' = es_pending s ++ out ++ StreamProviderError evidence :: failure_event f :: more
  end.
Proof.
  induction events as [|e events IH]; intros s s' Hr; cbn [reduce_rest reduce_response]; [intros [= <-]; by rewrite app_nil_r|].
  destruct (reduce_event config s e) as [t| |] eqn:He; [|done..]. apply reduce_event_tracks in He as [(Hd & Hc & Ht & Hx) He]. cbn [obind].
  intros Hs. pose proof (reduce_rest_advances config events t s' Hs) as [_ _ _ (new & Hnew & _) _].
  destruct (reducer_push (es_reducer s) e) as [r [f|out]].
  - destruct He as (evidence & Hp & Hn). apply IH in Hs as [(Hd' & Hc' & Ht' & Hx') [Hs _]]; [|done].
    split_and!; [unfold same_response; split_and!; congruence|done|]. exists evidence, new. by rewrite Hnew, Hp, <-app_assoc.
  - destruct He as (Hred & Hp & Hn). apply IH in Hs as [(Hd' & Hc' & Ht' & Hx') [Hn' Hs]]; [|congruence].
    rewrite Hred in Hs. split_and!; [unfold same_response; split_and!; congruence|done|].
    destruct (reduce_response r events) as [out' [f|r']]; [destruct Hs as (evidence & more & Hs); exists evidence, more|destruct Hs as (? & Hs)];
      by rewrite Hs, Hp, <-?app_assoc.
Qed.

(** A round without cancellation; an event of a response that succeeds. *)
Definition calm (rd : PollRound) : bool :=
  negb (rd_cancel rd) && negb (rd_wait_cancel rd) && negb (rd_attempt_cancel rd) && negb (rd_failure_cancel rd).
Definition answers_well (event : TransportStreamEvent) : bool :=
  match event with TransportResponse status _ => (200 <=? status) && (status <? 300) | TransportFailure _ => false | _ => true end.

(** What will have been handed out in the end does not change. *)
Definition still_to_come (s : EventStream) : list ModelStreamEvent :=
  if es_terminal s then []
  else cut (hide (es_pending s) ++ match es_response s with Some rest => upcoming (es_decoder s) (es_reducer s) rest | None => [] end).
Record tracks (expected given : list ModelStreamEvent) (s : EventStream) (c : bool) : Prop := mk_tracks {
  tk_cancelled : c = false;
  tk_timer : es_retry_timer s = None;
  tk_status : is_failed_status s = false;
  tk_answered : match es_response s with Some rest => forallb answers_well rest = true | None => True end;
  tk_events : hide given ++ still_to_come s = expected;
}.

Lemma failure_event_terminal f : ends_stream (failure_event f) = true /\ is_evidence (failure_event f) = false.
Proof. unfold failure_event. by destruct (fail_overflows _ _). Qed.
Lemma hide_failed out evidence f more : Forall (fun e => is_content e = true) out ->
  cut (hide (out ++ StreamProviderError evidence :: failure_event f :: more)) = cut (out ++ [failure_event f]).
Proof.
  intros Hc. rewrite hide_app, (hide_content out Hc). destruct (failure_event_terminal f) as [Ht He].
  unfold hide at 1. cbn [List.filter is_evidence negb]. rewrite He. by apply cut_terminal.
Qed.
Lemma finish_hidden r out : reducer_finish r = Ok out -> hide out = out.
Proof.
  intros (before & terminal & -> & Ht & Hb)%finish_shape. apply hide_id, Forall_app. split; [|repeat constructor; by destruct terminal].
  eapply Forall_impl; [exact Hb|]. by intros [] [? ?].
Qed.
Lemma settle_end r out t s' : Forall (fun e => is_content e = true) out -> es_reducer t = r -> es_pending t = out ->
  match reducer_finish r with
  | Ok events => stream_reduced config t (inr events)
  | Err failure => stream_reduced config t (inl failure)
  | Panic reason => Panic reason
  end = Ok s' -> cut (hide (es_pending s')) = cut (out ++ settle (inr r)).
Proof.
  intros Hc <- Hp. cbn [settle]. destruct (reducer_finish (es_reducer t)) as [events|f|] eqn:Hf; [| |done]; cbn [stream_reduced].
  - intros (shared & ->)%deliver_frame. cbn. by rewrite Hp, hide_app, (hide_content out Hc), (finish_hidden _ _ Hf).
  - intros [= <-]. cbn. rewrite Hp, <-app_assoc. cbn [app]. by apply hide_failed.
Qed.

Lemma reduced_frame t result s' : es_response t = None -> stream_reduced config t result = Ok s' ->
  same_response t s' /\ es_response s' = None /\ exists new, es_pending s' = es_pending t ++ new.
Proof.
  intros Hn. destruct result as [f|events]; cbn [stream_reduced]; [|intros (shared & ->)%deliver_frame; split_and!; [done|done|by exists events]].
  intros [= <-]. split_and!; [done|done|]. eexists. cbn. by rewrite <-app_assoc.
Qed.

(** The end of the body. *)
Lemma end_tracks s s' : is_failed_status s = false -> es_pending s = [] -> response_event config false TransportEnd s = Ok s' ->
  es_status_code s' = es_status_code s /\ es_retry_timer s' = es_retry_timer s /\ es_terminal s' = es_terminal s /\ es_response s' = None /\
  cut (hide (es_pending s')) = cut (response_events (es_reducer s) (sse_finish (es_decoder s)).2).
Proof.
  intros Hstatus Hp. cbn [response_event]. rewrite Hstatus. destruct (sse_finish (es_decoder s)) as [d events]. cbn [snd].
  destruct (reduce_rest config events _) as [t| |] eqn:Hrest; [|done..].
  apply reduce_rest_tracks in Hrest as [(Hd & Hc & Ht & Hx) [Hn Hs]]; [|done]. cbn in Hd, Hc, Ht, Hx, Hs. cbn [obind].
  rewrite Hp in Hs. cbn [app] in Hs. pose proof (reduce_all_content events (es_reducer s)) as Hout. unfold response_events.
  intros Hend. assert (Hframe : same_response t s' /\ es_response s' = None /\ exists new, es_pending s' = es_pending t ++ new).
  { destruct (existsb is_stream_error (es_pending t)); [injection Hend as <-; split_and!; [done|done|exists []; by rewrite app_nil_r]|].
    destruct (reducer_finish _); [by eapply reduced_frame..|done]. }
  destruct Hframe as [(_ & Hc' & Ht' & Hx') [Hn' [new Hnew]]]. split_and!; [congruence..|].
  destruct (reduce_response (es_reducer s) events) as [out [f|r]].
  - destruct Hs as (evidence & more & Hs). rewrite Hnew, Hs, <-app_assoc. cbn [app]. by apply hide_failed.
  - destruct Hs as [Hred Hpt]. eapply settle_end; [exact Hout|exact Hred|exact Hpt|].
    destruct (existsb is_stream_error (es_pending t)) eqn:He; [|by rewrite Hred in Hend]. exfalso.
    apply existsb_exists in He as (e & Hin & He). rewrite Hpt in Hin. apply list_elem_of_In in Hin.
    rewrite Forall_forall in Hout. specialize (Hout e Hin). by destruct e.
Qed.

Lemma response_tracks event rest s s' : answers_well event = true -> is_failed_status s = false -> es_pending s = [] ->
  es_response s = Some rest -> response_event config false event s = Ok s' ->
  is_failed_status s' = false /\ es_retry_timer s' = es_retry_timer s /\ es_terminal s' = es_terminal s /\
  (es_response s' = Some rest \/ es_response s' = None) /\
  cut (hide (es_pending s') ++ match es_response s' with Some rest => upcoming (es_decoder s') (es_reducer s') rest | None => [] end)
  = cut (upcoming (es_decoder s) (es_reducer s) (event :: rest)).
Proof.
  intros Hanswered Hstatus Hp Hr. destruct event as [status headers|bytes| |error]; [| | |done].
  - intros [= <-]. unfold is_failed_status. cbn in *. rewrite Hanswered, Hr, Hp. split_and!; auto.
  - cbn [response_event upcoming]. rewrite Hstatus. destruct (sse_push (es_decoder s) bytes) as [d events].
    intros Hs. apply (reduce_chunk_tracks events _ _ rest) in Hs as [(Hd & Hc & Ht & Hx) Hs]; [|done]. cbn in Hd, Hc, Ht, Hx, Hs.
    pose proof (reduce_all_content events (es_reducer s)) as Hout. unfold is_failed_status in *. rewrite Hc.
    destruct (reduce_response (es_reducer s) events) as [out [f|r]].
    + destruct Hs as (evidence & -> & ->). rewrite Hp, app_nil_r. cbn [app]. rewrite (hide_failed out) by done. auto 6.
    + destruct Hs as (-> & -> & ->). rewrite Hp, Hd. cbn [app]. rewrite (hide_content out Hout). auto 6.
  - intros (Hc & Ht & Hx & -> & Hs)%end_tracks; [|done..]. unfold is_failed_status in *. rewrite Hc, app_nil_r. cbn [upcoming]. auto 6.
Qed.

Lemma pop_tracks expected given s event pending : es_terminal s = false -> es_pending s = event :: pending -> tracks expected given s false ->
  tracks expected (given ++ [event])
    (if ends_stream event
     then s <| es_pending := pending |> <| es_terminal := true |> <| es_response := None |> <| es_retry_timer := None |> <| es_retry_cancellation := false |>
     else s <| es_pending := pending |>) false.
Proof.
  intros Hterm Hp [_ Ht Hs Ha He]. unfold still_to_come in He. rewrite Hterm, Hp in He.
  destruct (ends_stream event) eqn:Hevent; constructor; try done; unfold still_to_come; cbn [es_terminal es_pending]; rewrite hide_app, <-He, <-app_assoc; f_equal.
  - unfold hide. cbn [List.filter]. replace (is_evidence event) with false by by destruct event. cbn. by rewrite Hevent.
  - cbn. rewrite Hterm. destruct (is_evidence event); cbn; [done|]. by rewrite Hevent.
Qed.

Lemma poll_round_tracks expected given rd s : calm rd = true -> tracks expected given s false ->
  match poll_round config server false rd s with
  | (s', c', Some (Ready (Some event))) => tracks expected (given ++ [event]) s' c'
  | (s', c', _) => tracks expected given s' c'
  end.
Proof.
  intros Hcalm Htr. unfold calm in Hcalm. apply andb_true_iff in Hcalm as [Hcalm Hfailure%negb_true_iff].
  apply andb_true_iff in Hcalm as [Hcalm _]. apply andb_true_iff in Hcalm as [Hcancel%negb_true_iff _].
  unfold poll_round. destruct (es_terminal s) eqn:Hterm; [done|]. destruct (es_pending s) as [|event pending] eqn:Hp; [|by apply pop_tracks].
  rewrite Hcancel. cbn [orb]. rewrite (tk_timer _ _ _ _ Htr). unfold poll_response.
  destruct (es_response s) as [[|event rest]|] eqn:Hr; [done| |done]. destruct (rd_response_ready rd); [|done].
  pose proof Htr as [_ Ht Hs Ha He]. rewrite Hr in Ha. cbn in Ha. apply andb_true_iff in Ha as [Hevent Ha].
  assert (Hc : match event with TransportFailure _ => rd_failure_cancel rd | _ => false end = false) by by destruct event.
  rewrite Hc. cbn [orb]. destruct (response_event config false event _) as [s'|[]|] eqn:Hstep; cbn [continue_with]; [|done].
  apply (response_tracks event rest) in Hstep as (Hs' & Ht' & Hx' & Hr' & He'); [|done..]. cbn in Ht', Hx', He'.
  constructor; [done|congruence|done|by destruct Hr' as [->| ->]|]. rewrite <-He. unfold still_to_come. rewrite Hx', Hterm, Hp, Hr. by rewrite He'.
Qed.
End tracking.

Section whole_response.
Context `{Miniserde} (config : AnthropicConfig) (server : N -> list TransportStreamEvent).

Lemma start_tracks shared request built body status headers chunks :
  validate_model config request = inr () -> to_json_string (bt_body built) = Ok body -> (200 <=? status) && (status <? 300) = true ->
  server 1 = TransportResponse status headers :: map TransportChunk chunks ++ [TransportEnd] ->
  tracks (RequestObservation (request_observation config built (N.of_nat (str_len body)))
          :: cut (response_events (reducer_new (bt_managed_effort built)) (sse_decode chunks))) []
    (anthropic_start config shared request (inr built) false false server) false.
Proof.
  intros Hmodel Hbody Hstatus Hserver. unfold anthropic_start. rewrite Hmodel, Hbody. unfold start_attempt.
  constructor; [done|done|done| |]; unfold still_to_come; cbn -[upcoming sse_decode]; change (N.succ 0) with 1; rewrite Hserver.
  - cbn [forallb answers_well]. rewrite Hstatus. apply forallb_forall. intros e [Hin| [<-|[]]]%in_app_iff; [|done].
    by apply in_map_iff in Hin as (bytes & <- & _).
  - rewrite length_bytes_of. f_equal. cbn [upcoming]. rewrite upcoming_chunks.
    unfold sse_decode. by destruct (sse_feed decoder_new chunks).
Qed.

(** At any time a prefix was handed out, in the end all of it. *)
Lemma drive_tracks shared request built body status headers chunks rounds :
  validate_model config request = inr () -> to_json_string (bt_body built) = Ok body -> (200 <=? status) && (status <? 300) = true ->
  server 1 = TransportResponse status headers :: map TransportChunk chunks ++ [TransportEnd] -> Forall (fun rd => calm rd = true) rounds ->
  let expected := RequestObservation (request_observation config built (N.of_nat (str_len body)))
    :: cut (response_events (reducer_new (bt_managed_effort built)) (sse_decode chunks)) in
  let '(events, _, _, ending) := drive config server false rounds (anthropic_start config shared request (inr built) false false server) in
  hide events `prefix_of` expected /\ (ending = Closed -> hide events = expected).
Proof.
  intros Hmodel Hbody Hstatus Hserver Hcalm expected.
  pose proof (start_tracks shared request built body status headers chunks Hmodel Hbody Hstatus Hserver) as Hstart. fold expected in Hstart.
  pose proof (closed_terminal config server rounds _ _ _ (start_ok config server shared request (inr built) false false)) as Hclosed.
  cbn [orb] in Hclosed. set (started := anthropic_start _ _ _ _ _ _ _) in *.
  pose proof (drive_invariant_on config server (fun rd => calm rd = true) (tracks expected) rounds [] false started Hcalm Hstart) as Hd.
  destruct (drive config server false rounds started) as [[[events s] c] ending].
  destruct Hd as [_ _ _ _ He].
  - intros given c' rd t Hrd Ht. pose proof (tk_cancelled _ _ _ _ Ht) as ->. by apply poll_round_tracks.
  - cbn [app] in He. split; [rewrite <-He; by apply prefix_app_r|]. intros ->. unfold still_to_come in He. rewrite (Hclosed eq_refl) in He.
    by rewrite app_nil_r in He.
Qed.
End whole_response.

(** C22: An answered Anthropic request hands out exactly its response: the server writes events
    in any line ending, the transport cuts the bytes into any chunks, the run polls at any
    times, and what the run is given, the evidence of a failure aside, is the observation of the
    request and then the reduction of the written events, up to and with the terminal event;
    before the stream is over it is a prefix of that. *)
Theorem answered_request_hands_out_response `{Miniserde} config server shared request built body status headers ending sse chunks rounds :
  validate_model config request = inr () -> to_json_string (bt_body built) = Ok body -> (200 <=? status) && (status <? 300) = true ->
  Forall event_ok sse -> concat chunks = concat (map (event_text ending) sse) ->
  server 1 = TransportResponse status headers :: map TransportChunk chunks ++ [TransportEnd] -> Forall (fun rd => calm rd = true) rounds ->
  let expected := RequestObservation (request_observation config built (N.of_nat (str_len body)))
    :: cut (response_events (reducer_new (bt_managed_effort built)) sse) in
  let '(events, _, _, ended) := drive config server false rounds (anthropic_start config shared request (inr built) false false server) in
  hide events `prefix_of` expected /\ (ended = Closed -> hide events = expected).
Proof.
  intros Hmodel Hbody Hstatus Hsse Hchunks Hserver Hcalm. rewrite <-(sse_events_read_back ending sse chunks Hsse Hchunks).
  by eapply drive_tracks.
Qed.

(** ** A delay that does not fit *)

Definition ready_round : PollRound := mk_round false false true false true false.
Definition HUGE_DELAY : Headers := [("retry-after", "1e20")].

Lemma huge_delay_panics {E} : @retry_delay E HUGE_DELAY = Panic "cannot convert float seconds to Duration: value is either too big or NaN".
Proof. vm_compute. reflexivity. Qed.

Section huge_delay.
Context `{Miniserde} (config : AnthropicConfig) (server : N -> list TransportStreamEvent).
Lemma huge_status_panics s : es_status_code s = Some 429 -> es_headers s = HUGE_DELAY ->
  response_event config false TransportEnd s = Panic "cannot convert float seconds to Duration: value is either too big or NaN".
Proof.
  intros Hs Hh. cbn [response_event]. unfold is_failed_status, handle_status_failure. rewrite Hs, Hh.
  assert (status_retryable 429 HUGE_DELAY = true) as Hr by (vm_compute; reflexivity).
  change (default 0 (Some 429)) with 429. rewrite Hr, huge_delay_panics. reflexivity.
Qed.
Lemma poll_ready_event s event rest : es_terminal s = false -> es_pending s = [] -> es_retry_timer s = None -> es_response s = Some (event :: rest) ->
  poll_round config server false ready_round s =
  continue_with false (response_event config false event (s <| es_response := Some rest |>)) s.
Proof.
  intros Hterm Hp Ht Hr. unfold poll_round, poll_response. rewrite Hterm, Hp, Ht, Hr. cbn [ready_round rd_cancel rd_response_ready rd_failure_cancel orb].
  by destruct event.
Qed.
Lemma huge_delay_crashes s more : es_terminal s = false -> es_pending s = [] -> es_retry_timer s = None ->
  es_response s = Some [TransportResponse 429 HUGE_DELAY; TransportEnd] ->
  let '(events, _, _, ended) := drive config server false (ready_round :: ready_round :: more) s in
  events = [] /\ ended = Crashed "cannot convert float seconds to Duration: value is either too big or NaN".
Proof.
  intros Hterm Hp Ht Hr. cbn [drive]. rewrite (poll_ready_event s _ _ Hterm Hp Ht Hr). cbn [response_event continue_with].
  match goal with |- context [poll_round config server false ready_round ?t] => set (next := t) end.
  rewrite (poll_ready_event next TransportEnd []) by done. by rewrite huge_status_panics.
Qed.
End huge_delay.

(** C39: A server that answers with a retryable status and asks to wait for more than a Duration
    holds crashes the client: the requested delay is converted before it is compared with the
    configured maximum, even where no retry is allowed. *)
Theorem huge_retry_after_panics `{Miniserde} config server shared request built body more :
  validate_model config request = inr () -> to_json_string (bt_body built) = Ok body ->
  server 1 = [TransportResponse 429 HUGE_DELAY; TransportEnd] ->
  let '(events, _, _, ended) := drive config server false (ready_round :: ready_round :: ready_round :: more)
    (anthropic_start config shared request (inr built) false false server) in
  hide events = [RequestObservation (request_observation config built (N.of_nat (str_len body)))] /\
  ended = Crashed "cannot convert float seconds to Duration: value is either too big or NaN".
Proof.
  intros Hmodel Hbody Hserver. unfold anthropic_start. rewrite Hmodel, Hbody. unfold start_attempt.
  match goal with |- context [drive config server false _ ?t] => set (started := t) end.
  set (rounds := ready_round :: ready_round :: more). cbn [drive].
  assert (Hpop : poll_round config server false ready_round started =
    (started <| es_pending := [] |>, false,
     Some (Ready (Some (RequestObservation (request_observation config built (N.of_nat (length (bytes_of body))))))))) by done.
  rewrite Hpop. pose proof (huge_delay_crashes config server (started <| es_pending := [] |>) more eq_refl eq_refl eq_refl) as Hcrash.
  fold rounds in Hcrash. destruct (drive config server false rounds _) as [[[events s] c] ended].
  destruct Hcrash as [-> ->]; [change (Some (server 1) = Some [TransportResponse 429 HUGE_DELAY; TransportEnd]); by rewrite Hserver|].
  by rewrite length_bytes_of.
Qed.

(** ** Backoff and cost *)

Lemma delay_loop_backoff rounds : forall max_delay delay, delay <= max_delay -> max_delay <= DURATION_MAX ->
  delay_loop rounds max_delay delay = (delay * 2 ^ N.of_nat rounds) `min` max_delay.
Proof.
  induction rounds as [|rounds IH]; intros max_delay delay Hd Hm; cbn [delay_loop]; [by rewrite N.mul_1_r|].
  rewrite Nat2N.inj_succ, N.pow_succ_r'. assert (Hpos : 1 <= 2 ^ N.of_nat rounds) by (pose proof (N.pow_nonzero 2 (N.of_nat rounds)); lia).
  unfold double_delay. destruct (N.ltb_spec DURATION_MAX (2 * delay)); cbn [default from_option id].
  - rewrite (proj2 (N.leb_le _ _)) by lia. rewrite N.min_r; [done|]. nia.
  - destruct (N.leb_spec max_delay (2 * delay)); [rewrite N.min_r; [done|nia]|]. rewrite IH by lia. f_equal. lia.
Qed.

(** The delay before a retry doubles from the initial one and is capped, whatever the index. *)
Theorem delay_before_retry_backoff max_retries initial_delay max_delay retry_index :
  initial_delay <= DURATION_MAX -> max_delay <= DURATION_MAX ->
  let policy := retry_policy_new max_retries initial_delay max_delay in
  delay_before_retry policy retry_index = (initial_delay * 2 ^ retry_index) `min` (initial_delay `max` max_delay).
Proof.
  intros Hi Hm policy. unfold delay_before_retry, policy, retry_policy_new. cbn [rp_max_delay rp_initial_delay].
  rewrite delay_loop_backoff; [|destruct (N.ltb_spec max_delay initial_delay); lia..]. rewrite N2Nat.id. f_equal.
  destruct (N.ltb_spec max_delay initial_delay); lia.
Qed.

(** A decimal in units of [10^-12]. *)
Definition cost_value (d : CostDecimal) : N := cd_digits d * 10 ^ (12 - cd_scale d).
Lemma cost_parse_scale text d : cost_parse text = Some d -> cd_scale d <= 12.
Proof.
  unfold cost_parse. destruct (default _ _) as [whole fraction].
  destruct (_ || (12 <? str_len fraction)%nat) eqn:Hc; [done|]. apply orb_false_iff in Hc as [_ Hc%Nat.ltb_ge].
  destruct (_ <? _); [done|]. intros [= <-]. cbn. lia.
Qed.
Lemma u128_Ok {E} operation value x : @u128_checked E operation value = Ok x -> x = value.
Proof. unfold u128_checked. destruct (_ <? _); [done|]. by intros [= <-]. Qed.
Lemma mul_tokens_exact {E} d tokens x : @mul_tokens E d tokens = Ok x -> cd_scale x = cd_scale d /\ cost_value x = cost_value d * tokens.
Proof.
  unfold mul_tokens. destruct (u128_checked _ _) as [digits| |] eqn:Hd; [|done..]. apply u128_Ok in Hd as ->. intros [= <-].
  unfold cost_value. cbn. split; [done|lia].
Qed.
Lemma rescale_exact {E} d scale x : cd_scale d <= scale -> scale <= 12 -> @cost_rescale E d scale = Ok x ->
  x * 10 ^ (12 - scale) = cost_value d.
Proof.
  intros Hd Hs ->%u128_Ok. unfold cost_value. rewrite <-N.mul_assoc, <-N.pow_add_r. do 2 f_equal. lia.
Qed.
Lemma cost_add_exact {E} a b x : cd_scale a <= 12 -> cd_scale b <= 12 -> @cost_add E a b = Ok x ->
  cd_scale x <= 12 /\ cost_value x = cost_value a + cost_value b.
Proof.
  intros Ha Hb. unfold cost_add. destruct (cost_rescale a _) as [l| |] eqn:Hl; [|done..]. destruct (cost_rescale b _) as [r| |] eqn:Hr; [|done..].
  cbn [obind]. destruct (u128_checked "add" (l + r)) as [digits| |] eqn:Hd; [|done..]. apply u128_Ok in Hd as ->. intros [= <-].
  apply rescale_exact in Hl; [|lia..]. apply rescale_exact in Hr; [|lia..]. split; [cbn; lia|]. rewrite <-Hl, <-Hr. unfold cost_value. cbn. lia.
Qed.
Lemma add_priced_exact {E} total price tokens factor (rest : CostDecimal -> Outcome E (option string)) text : cd_scale total <= 12 ->
  add_priced total price tokens factor rest = Ok (Some text) ->
  exists d total', cost_parse price = Some d /\ cd_scale total' <= 12 /\
    cost_value total' = cost_value total + cost_value d * tokens * factor /\ rest total' = Ok (Some text).
Proof.
  intros Ht. unfold add_priced. destruct (cost_parse price) as [d|] eqn:Hp; [|done]. apply cost_parse_scale in Hp as Hs.
  destruct (mul_tokens d tokens) as [x| |] eqn:Hx; [|done..]. apply mul_tokens_exact in Hx as [Hxs Hx]. cbn [obind].
  destruct (mul_tokens x factor) as [y| |] eqn:Hy; [|done..]. apply mul_tokens_exact in Hy as [Hys Hy]. cbn [obind].
  destruct (cost_add total y) as [z| |] eqn:Hz; [|done..]. apply cost_add_exact in Hz as [Hzs Hz]; [|lia..]. cbn [obind].
  intros Hrest. exists d, z. split_and!; [done|done| |done]. rewrite Hz, Hy, Hx. done.
Qed.

(** An estimated cost is the exact sum of the priced counters, in millionths; one-hour cache writes
    cost twice the input price. *)
Theorem estimate_cost_exact {E} usage pricing text : @estimate_cost E usage pricing = Ok (Some text) ->
  exists i o r w total,
    cost_parse (pr_input pricing) = Some i /\ cost_parse (pr_output pricing) = Some o /\
    cost_parse (pr_cache_read pricing) = Some r /\ cost_parse (pr_cache_write pricing) = Some w /\
    text = cost_display (per_million total) /\
    cost_value total = cost_value i * nu_input usage + cost_value o * nu_output usage + cost_value r * nu_cache_read usage
      + cost_value w * (nu_cache_write usage - nu_cache_write_1h usage) + cost_value i * (2 * nu_cache_write_1h usage).
Proof.
  unfold estimate_cost. intros He. apply add_priced_exact in He as (i & t1 & Hi & S1 & V1 & He); [|cbn; lia].
  apply add_priced_exact in He as (o & t2 & Ho & S2 & V2 & He); [|done]. apply add_priced_exact in He as (r & t3 & Hr & S3 & V3 & He); [|done].
  apply add_priced_exact in He as (w & t4 & Hw & S4 & V4 & He); [|done]. apply add_priced_exact in He as (i' & t5 & Hi' & S5 & V5 & He); [|done].
  injection He as <-. simplify_eq. exists i, o, r, w, t5. split_and!; try done. rewrite V5, V4, V3, V2, V1. unfold cost_zero, cost_value at 1. cbn. lia.
Qed.

(** ** What a failure reveals *)

(** The message of the server is repeated as it is, in the terminal event and in the evidence that is
    persisted; only the response prefix of the evidence is redacted. *)
Theorem failed_status_repeats_message `{Miniserde} config s s' error_type message :
  status_retryable (default 0 (es_status_code s)) (es_headers s) = false ->
  parse_error_body (es_error_body s) = mk_parsed_error error_type (Some message) ->
  handle_status_failure config s = Ok s' ->
  exists prefix evidence terminal, es_pending s' = es_pending s ++ [StreamProviderError evidence; terminal] /\
    per_message evidence = Some (prefix +:+ message) /\
    (terminal = StreamError (prefix +:+ message) \/ terminal = ContextOverflow (prefix +:+ message)).
Proof.
  intros Hr Hp. unfold handle_status_failure. rewrite Hr, Hp. intros [= <-].
  assert (exists prefix, describe_status (default 0 (es_status_code s)) (mk_parsed_error error_type (Some message)) = prefix +:+ message) as [prefix Hd].
  { unfold describe_status. cbn. destruct error_type; eexists; rewrite <-!append_assoc; reflexivity. }
  exists prefix. cbn [pe_error_type]. rewrite Hd. do 2 eexists. split; [cbn; by rewrite <-app_assoc|]. split; [done|].
  destruct (fail_overflows _ _); auto.
Qed.

(** ** Witnesses *)

(** A codec that knows four texts. *)
#[local] Instance reply_codec : Miniserde := {|
  mini_to_string _ := "{}";
  mini_from_str text :=
    if String.eqb text "block" then
      Some (MiniObject [("content_block", MiniObject [("type", MiniString "text"); ("text", MiniString "hi")])])
    else if String.eqb text "delta" then Some (MiniObject [("delta", MiniObject [("stop_reason", MiniString "end_turn")])])
    else Some (MiniObject []);
|}.
Definition reply_config : AnthropicConfig :=
  mk_anthropic_config "key" "claude" conservative (Some 200000) 4096 (Some (mk_pricing "5" "25" "0.5" "6.25")) RetentionShort
    DisplaySummarized None 0 0 retry_policy_standard 60000000000 "tea" None.
Definition reply_request : ModelRequest :=
  mk_request PurposeTurn (transcript_new []) (Some (mk_model PROVIDER_ID "claude" None)) None Off None None.
Definition reply_built : BuiltRequest := mk_built (JsonObject []) ["beta"] None.
Definition reply_sse : list ServerSentEvent :=
  [mk_sse (Some "message_start") "start"; mk_sse (Some "content_block_start") "block"; mk_sse (Some "message_delta") "delta";
   mk_sse (Some "message_stop") "stop"].
Definition reply_bytes : list N := concat (map (event_text EndCrLf) reply_sse).
Definition reply_chunks : list (list N) := [take 23 reply_bytes; take 30 (drop 23 reply_bytes); drop 53 reply_bytes].
Definition reply_server (_ : N) : list TransportStreamEvent := TransportResponse 200 [] :: map TransportChunk reply_chunks ++ [TransportEnd].

Lemma answered_request_hands_out_response_witness :
  exists events, hide events =
    [RequestObservation (request_observation reply_config reply_built 2); TextDelta "hi";
     StreamUsage (mk_usage (Some 0) (Some 0) (Some 0) None (Some 0) (Some 0) None); StreamEnd Stop] /\
    (drive reply_config reply_server false (repeat ready_round 20)
       (anthropic_start reply_config anthropic_shared_default reply_request (inr reply_built) false false reply_server)).1.1.1 = events.
Proof.
  pose proof (answered_request_hands_out_response reply_config reply_server anthropic_shared_default reply_request reply_built "{}" 200 [] EndCrLf
    reply_sse reply_chunks (repeat ready_round 20)) as Hall.
  specialize (Hall eq_refl eq_refl eq_refl). eexists. split; [|reflexivity].
  assert (Hsse : Forall event_ok reply_sse).
  { repeat (constructor; [split; [intros name [= <-]; split; [reflexivity|repeat constructor]|repeat constructor]|]). constructor. }
  specialize (Hall Hsse ltac:(vm_compute; reflexivity) eq_refl ltac:(repeat constructor)).
  destruct (drive reply_config _ _ _ _) as [[[events s] c] ended] eqn:Hd. cbn [fst].
  destruct Hall as [_ Hall]. rewrite Hall; [vm_compute; reflexivity|]. vm_compute in Hd. congruence.
Defined.

Lemma anthropic_stream_closes_witness :
  exists n, let '(_, _, _, ending) := drive reply_config reply_server false (map (fun _ => ready_round) (seq 0 n))
    (anthropic_start reply_config anthropic_shared_default reply_request (inr reply_built) false false reply_server) in ending <> Waiting.
Proof.
  apply (anthropic_stream_closes reply_config anthropic_shared_default reply_request (inr reply_built) reply_server false false (fun _ => ready_round)).
  - intros attempt. reflexivity.
  - intros i. exists i. split; [lia|reflexivity].
Defined.

Lemma huge_retry_after_panics_witness :
  (drive reply_config (fun _ => [TransportResponse 429 HUGE_DELAY; TransportEnd]) false [ready_round; ready_round; ready_round]
    (anthropic_start reply_config anthropic_shared_default reply_request (inr reply_built) false false
       (fun _ => [TransportResponse 429 HUGE_DELAY; TransportEnd]))).2 =
  Crashed "cannot convert float seconds to Duration: value is either too big or NaN".
Proof.
  pose proof (huge_retry_after_panics reply_config (fun _ => [TransportResponse 429 HUGE_DELAY; TransportEnd]) anthropic_shared_default reply_request
    reply_built "{}" [] eq_refl eq_refl eq_refl) as Hcrash.
  destruct (drive reply_config _ _ _ _) as [[[events s] c] ended]. exact (proj2 Hcrash).
Defined.

(** A call without a result, on the wire. *)
Definition interrupted_transcript : Transcript :=
  transcript_new [User 1 "go"; Assistant (mk_assistant 2 [Text "look"] [mk_call "call.1" "read" "{}"; mk_call "call-2" "read" "{}"] None None [] None);
    User 3 "and?"].
Example interrupted_request_paired :
  let messages := request_messages reply_config reply_request (prepared_for interrupted_transcript None) in
  map tool_use_ids messages = [[]; ["call_1"; "call-2"]; []; []] /\
  map tool_result_ids messages = [[]; []; ["call_1"; "call-2"]; []].
Proof. vm_compute. split; reflexivity. Qed.
