(* ===== verification/Trace.v ===== *)
(** * tea-trace: trajectory records and their encodings
    ([crates/tea-trace/src/event.rs], [encoding/mod.rs], [encoding/cbor.rs],
    [encoding/json.rs], [sink.rs], [redaction.rs])

    The records of an episode and the two writers.  A writer's definition is
    the bytes it appends to its output. *)

From stdpp Require Import base gmap list strings pretty.
From S2P Require Import Prelude RustStr Ids.

Local Open Scope N_scope.

Definition TRACE_SCHEMA_VERSION : N := 1.

Inductive CompactionStage :=
| Started | SourceSelected | RequestPrepared | ProviderUsageObserved | ReplacementProposed | Terminal
| PostCompactionRequestObserved.

(** [Compaction]. *)
Record CompactionTrace := mk_compaction_trace {
  ct_compaction_id : string;
  ct_stage : CompactionStage;
  ct_trigger : option string;
  ct_reason : option string;
  ct_phase : option string;
  ct_strategy_id : option string;
  ct_strategy_schema_version : option N;
  ct_request_layout : option string;
  ct_prompt_fingerprint : option N;
  ct_source_history_revision : option N;
  ct_attempt : option N;
  ct_automatic_ordinal : option N;
  ct_overflow_retry_ordinal : option N;
  ct_retry_provider_request : option bool;
  ct_source_message_count : option N;
  ct_source_message_bytes : option N;
  ct_retained_message_count : option N;
  ct_retained_suffix_bytes : option N;
  ct_tool_result_bytes : option N;
  ct_compactor_context_bytes : option N;
  ct_compactor_tool_count : option N;
  ct_tools_execution_prohibited : option bool;
  ct_source_is_active_context_prefix : option bool;
  ct_replacement_message_count : option N;
  ct_replacement_bytes : option N;
  ct_estimated_context_tokens_after : option N;
  ct_headroom_tokens : option N;
  ct_structural_validation_passed : option bool;
  ct_retained_suffix_exact : option bool;
  ct_source_generation_matches : option bool;
  ct_provider_input_tokens : option N;
  ct_provider_output_tokens : option N;
  ct_provider_cache_read_tokens : option N;
  ct_provider_cache_write_tokens : option N;
  ct_serialized_request_bytes : option N;
  ct_cache_domain_fingerprint : option N;
  ct_terminal_outcome : option string;
  ct_post_compaction_turn_index : option N;
}.

Record TraceProvenance := mk_provenance {
  tp_session_id : option string;
  tp_lane_id : option string;
  tp_agent_id : option string;
  tp_operation_id : option string;
  tp_epoch_id : option string;
  tp_core_run_id : option string;
  tp_harness_snapshot_id : option string;
  tp_harness_revision_id : option string;
  tp_model_harness_profile_id : option string;
  tp_experiment_id : option string;
}.

(** [CacheEvidence]; the component map is ordered by key. *)
Record CacheEvidence := mk_evidence {
  ce_continuity : option string;
  ce_cache_domain_fingerprint : option N;
  ce_changed_cache_domain_components : list string;
  ce_context_bytes : option N;
  ce_common_context_prefix_bytes : option N;
  ce_common_context_prefix_ratio_millionths : option N;
  ce_context_projection_changed : option bool;
  ce_context_fingerprint : option N;
  ce_system_prompt_fingerprint : option N;
  ce_tool_definition_fingerprint : option N;
  ce_tool_order_fingerprint : option N;
  ce_model_fingerprint : option N;
  ce_thinking_fingerprint : option N;
  ce_deterministic_common_prefix_bytes : option N;
  ce_deterministic_common_prefix_tokens_estimate : option N;
  ce_provider_cache_read_tokens : option N;
  ce_provider_cache_write_tokens : option N;
  ce_serialized_request_bytes : option N;
  ce_adapter_cache_domain_fingerprint : option N;
  ce_adapter_cache_domain_components : list (string * N);
  ce_provider_surface_digest : option string;
}.

(** [EpisodeHeader]; the metadata map is ordered by key. *)
Record EpisodeHeader := mk_episode_header {
  eh_episode_id : string;
  eh_metadata : list (string * string);
  eh_started_at_ms : option N;
  eh_provenance : option TraceProvenance;
}.

(** [Turn], [Tool]. *)
Record TurnTrace := mk_turn_trace {
  tn_index : N;
  tn_input : string;
  tn_output : option string;
  tn_stop_reason : option string;
  tn_cache_evidence : option CacheEvidence;
}.
Record ToolTrace := mk_tool_trace {
  tl_turn_index : N;
  tl_call_id : string;
  tl_name : string;
  tl_input : string;
  tl_output : option string;
  tl_error : option string;
}.

Inductive EndReason := EndCompleted | EndCancelled | EndFailed | EndAborted | EndOther (value : string).

Record EpisodeEnd := mk_episode_end {
  ee_reason : EndReason;
  ee_error : option string;
  ee_finished_at_ms : option N;
}.

Inductive TraceEvent :=
| EvHeader (header : EpisodeHeader)
| EvTurn (turn : TurnTrace)
| EvTool (tool : ToolTrace)
| EvCompaction (compaction : CompactionTrace)
| EvEnd (end_ : EpisodeEnd).

(** [TraceEvent::is_terminal]. *)
Definition is_terminal_event (e : TraceEvent) : bool := match e with EvEnd _ => true | _ => false end.
Definition is_header_event (e : TraceEvent) : bool := match e with EvHeader _ => true | _ => false end.

(** [event_type], [compaction_stage_name], [end_reason_name]. *)
Definition event_type (e : TraceEvent) : string :=
  match e with
  | EvHeader _ => "episode_header"
  | EvTurn _ => "turn"
  | EvTool _ => "tool"
  | EvCompaction _ => "compaction"
  | EvEnd _ => "episode_end"
  end.
Definition compaction_stage_name (s : CompactionStage) : string :=
  match s with
  | Started => "started"
  | SourceSelected => "source_selected"
  | RequestPrepared => "request_prepared"
  | ProviderUsageObserved => "provider_usage_observed"
  | ReplacementProposed => "replacement_proposed"
  | Terminal => "terminal"
  | PostCompactionRequestObserved => "post_compaction_request_observed"
  end.
Definition end_reason_name (r : EndReason) : string :=
  match r with
  | EndCompleted => "completed"
  | EndCancelled => "cancelled"
  | EndFailed => "failed"
  | EndAborted => "aborted"
  | EndOther value => value
  end.

(** ** CBOR *)

(** [cbor_major_length]: the head of a value. *)
Definition cbor_major_length (major value : N) : list N :=
  let lead info := N.lor (N.shiftl major 5) info in
  if value <=? 23 then [lead value]
  else if value <=? 255 then [lead 24; value]
  else if value <=? 65535 then lead 25 :: be_bytes 2 value
  else if value <=? 4294967295 then lead 26 :: be_bytes 4 value
  else lead 27 :: be_bytes 8 value.

Definition cbor_unsigned (value : N) : list N := cbor_major_length 0 value.
Definition cbor_text (value : string) : list N :=
  cbor_major_length 3 (N.of_nat (str_len value)) ++ bytes_of value.
Definition cbor_map (length : nat) : list N := cbor_major_length 5 (N.of_nat length).
Definition cbor_bool (value : bool) : list N := [if value then 245 else 244].
Definition cbor_null : list N := [246].
Definition cbor_text_array (values : list string) : list N :=
  cbor_major_length 4 (N.of_nat (length values)) ++ concat (map cbor_text values).
Definition cbor_u64_map (values : list (string * N)) : list N :=
  cbor_map (length values) ++ concat (map (fun kv => cbor_text kv.1 ++ cbor_unsigned kv.2) values).
Definition cbor_optional_text (value : option string) : list N :=
  match value with Some value => cbor_text value | None => cbor_null end.
Definition cbor_optional_unsigned (value : option N) : list N :=
  match value with Some value => cbor_unsigned value | None => cbor_null end.
Definition cbor_optional_bool (value : option bool) : list N :=
  match value with Some value => cbor_bool value | None => cbor_null end.

(** [cbor_optional_provenance]: the names in the order they are written. *)
Definition provenance_fields (p : TraceProvenance) : list (string * option string) :=
  [("session_id", tp_session_id p);
   ("lane_id", tp_lane_id p);
   ("agent_id", tp_agent_id p);
   ("operation_id", tp_operation_id p);
   ("epoch_id", tp_epoch_id p);
   ("core_run_id", tp_core_run_id p);
   ("harness_snapshot_id", tp_harness_snapshot_id p);
   ("harness_revision_id", tp_harness_revision_id p);
   ("model_harness_profile_id", tp_model_harness_profile_id p);
   ("experiment_id", tp_experiment_id p)].
Definition cbor_optional_provenance (provenance : option TraceProvenance) : list N :=
  match provenance with
  | None => cbor_null
  | Some p => cbor_map 10 ++ concat (map (fun nv => cbor_text nv.1 ++ cbor_optional_text nv.2) (provenance_fields p))
  end.

(** [cbor_optional_cache_evidence]. *)
Definition cbor_optional_cache_evidence (evidence : option CacheEvidence) : list N :=
  match evidence with
  | None => cbor_null
  | Some e =>
      cbor_map 21
      ++ cbor_text "continuity" ++ cbor_optional_text (ce_continuity e)
      ++ cbor_text "cache_domain_fingerprint" ++ cbor_optional_unsigned (ce_cache_domain_fingerprint e)
      ++ cbor_text "changed_cache_domain_components" ++ cbor_text_array (ce_changed_cache_domain_components e)
      ++ cbor_text "context_bytes" ++ cbor_optional_unsigned (ce_context_bytes e)
      ++ cbor_text "common_context_prefix_bytes" ++ cbor_optional_unsigned (ce_common_context_prefix_bytes e)
      ++ cbor_text "common_context_prefix_ratio_millionths" ++ cbor_optional_unsigned (ce_common_context_prefix_ratio_millionths e)
      ++ cbor_text "context_projection_changed" ++ cbor_optional_bool (ce_context_projection_changed e)
      ++ cbor_text "context_fingerprint" ++ cbor_optional_unsigned (ce_context_fingerprint e)
      ++ cbor_text "system_prompt_fingerprint" ++ cbor_optional_unsigned (ce_system_prompt_fingerprint e)
      ++ cbor_text "tool_definition_fingerprint" ++ cbor_optional_unsigned (ce_tool_definition_fingerprint e)
      ++ cbor_text "tool_order_fingerprint" ++ cbor_optional_unsigned (ce_tool_order_fingerprint e)
      ++ cbor_text "model_fingerprint" ++ cbor_optional_unsigned (ce_model_fingerprint e)
      ++ cbor_text "thinking_fingerprint" ++ cbor_optional_unsigned (ce_thinking_fingerprint e)
      ++ cbor_text "deterministic_common_prefix_bytes" ++ cbor_optional_unsigned (ce_deterministic_common_prefix_bytes e)
      ++ cbor_text "deterministic_common_prefix_tokens_estimate" ++ cbor_optional_unsigned (ce_deterministic_common_prefix_tokens_estimate e)
      ++ cbor_text "provider_cache_read_tokens" ++ cbor_optional_unsigned (ce_provider_cache_read_tokens e)
      ++ cbor_text "provider_cache_write_tokens" ++ cbor_optional_unsigned (ce_provider_cache_write_tokens e)
      ++ cbor_text "serialized_request_bytes" ++ cbor_optional_unsigned (ce_serialized_request_bytes e)
      ++ cbor_text "adapter_cache_domain_fingerprint" ++ cbor_optional_unsigned (ce_adapter_cache_domain_fingerprint e)
      ++ cbor_text "adapter_cache_domain_components" ++ cbor_u64_map (ce_adapter_cache_domain_components e)
      ++ cbor_text "provider_surface_digest" ++ cbor_optional_text (ce_provider_surface_digest e)
  end.

Definition write_cbor_header (h : EpisodeHeader) : list N :=
  cbor_text "episode_id" ++ cbor_text (eh_episode_id h)
  ++ cbor_text "metadata" ++ cbor_map (length (eh_metadata h))
  ++ concat (map (fun kv => cbor_text kv.1 ++ cbor_text kv.2) (eh_metadata h))
  ++ cbor_text "started_at_ms" ++ cbor_optional_unsigned (eh_started_at_ms h)
  ++ cbor_text "provenance" ++ cbor_optional_provenance (eh_provenance h).
Definition write_cbor_turn (t : TurnTrace) : list N :=
  cbor_text "index" ++ cbor_unsigned (tn_index t)
  ++ cbor_text "input" ++ cbor_text (tn_input t)
  ++ cbor_text "output" ++ cbor_optional_text (tn_output t)
  ++ cbor_text "stop_reason" ++ cbor_optional_text (tn_stop_reason t)
  ++ cbor_text "cache_evidence" ++ cbor_optional_cache_evidence (tn_cache_evidence t).
Definition write_cbor_tool (t : ToolTrace) : list N :=
  cbor_text "turn_index" ++ cbor_unsigned (tl_turn_index t)
  ++ cbor_text "call_id" ++ cbor_text (tl_call_id t)
  ++ cbor_text "name" ++ cbor_text (tl_name t)
  ++ cbor_text "input" ++ cbor_text (tl_input t)
  ++ cbor_text "output" ++ cbor_optional_text (tl_output t)
  ++ cbor_text "error" ++ cbor_optional_text (tl_error t).
Definition write_cbor_end (e : EpisodeEnd) : list N :=
  cbor_text "reason" ++ cbor_text (end_reason_name (ee_reason e))
  ++ cbor_text "error" ++ cbor_optional_text (ee_error e)
  ++ cbor_text "finished_at_ms" ++ cbor_optional_unsigned (ee_finished_at_ms e).

Definition is_present {A} (o : option A) : bool := match o with Some _ => true | None => false end.

(** [compaction_field_count]. *)
Definition compaction_field_count (c : CompactionTrace) : nat :=
  4 + length (List.filter (fun present => present)
    [is_present (ct_trigger c);
     is_present (ct_reason c);
     is_present (ct_phase c);
     is_present (ct_strategy_id c);
     is_present (ct_strategy_schema_version c);
     is_present (ct_request_layout c);
     is_present (ct_prompt_fingerprint c);
     is_present (ct_source_history_revision c);
     is_present (ct_attempt c);
     is_present (ct_automatic_ordinal c);
     is_present (ct_overflow_retry_ordinal c);
     is_present (ct_retry_provider_request c);
     is_present (ct_source_message_count c);
     is_present (ct_source_message_bytes c);
     is_present (ct_retained_message_count c);
     is_present (ct_retained_suffix_bytes c);
     is_present (ct_tool_result_bytes c);
     is_present (ct_compactor_context_bytes c);
     is_present (ct_compactor_tool_count c);
     is_present (ct_tools_execution_prohibited c);
     is_present (ct_source_is_active_context_prefix c);
     is_present (ct_replacement_message_count c);
     is_present (ct_replacement_bytes c);
     is_present (ct_estimated_context_tokens_after c);
     is_present (ct_headroom_tokens c);
     is_present (ct_structural_validation_passed c);
     is_present (ct_retained_suffix_exact c);
     is_present (ct_source_generation_matches c);
     is_present (ct_provider_input_tokens c);
     is_present (ct_provider_output_tokens c);
     is_present (ct_provider_cache_read_tokens c);
     is_present (ct_provider_cache_write_tokens c);
     is_present (ct_serialized_request_bytes c);
     is_present (ct_cache_domain_fingerprint c);
     is_present (ct_terminal_outcome c);
     is_present (ct_post_compaction_turn_index c)]).

(** The macros of [write_cbor_compaction]. *)
Definition cbor_field_text (name : string) (value : option string) : list N :=
  match value with Some value => cbor_text name ++ cbor_text value | None => [] end.
Definition cbor_field_unsigned (name : string) (value : option N) : list N :=
  match value with Some value => cbor_text name ++ cbor_unsigned value | None => [] end.
Definition cbor_field_bool (name : string) (value : option bool) : list N :=
  match value with Some value => cbor_text name ++ cbor_bool value | None => [] end.

(** [write_cbor_compaction]. *)
Definition write_cbor_compaction (c : CompactionTrace) : list N :=
  cbor_text "compaction_id" ++ cbor_text (ct_compaction_id c)
  ++ cbor_text "stage" ++ cbor_text (compaction_stage_name (ct_stage c))
  ++ cbor_field_text "trigger" (ct_trigger c)
  ++ cbor_field_text "reason" (ct_reason c)
  ++ cbor_field_text "phase" (ct_phase c)
  ++ cbor_field_text "strategy_id" (ct_strategy_id c)
  ++ cbor_field_unsigned "strategy_schema_version" (ct_strategy_schema_version c)
  ++ cbor_field_text "request_layout" (ct_request_layout c)
  ++ cbor_field_unsigned "prompt_fingerprint" (ct_prompt_fingerprint c)
  ++ cbor_field_unsigned "source_history_revision" (ct_source_history_revision c)
  ++ cbor_field_unsigned "attempt" (ct_attempt c)
  ++ cbor_field_unsigned "automatic_ordinal" (ct_automatic_ordinal c)
  ++ cbor_field_unsigned "overflow_retry_ordinal" (ct_overflow_retry_ordinal c)
  ++ cbor_field_bool "retry_provider_request" (ct_retry_provider_request c)
  ++ cbor_field_unsigned "source_message_count" (ct_source_message_count c)
  ++ cbor_field_unsigned "source_message_bytes" (ct_source_message_bytes c)
  ++ cbor_field_unsigned "retained_message_count" (ct_retained_message_count c)
  ++ cbor_field_unsigned "retained_suffix_bytes" (ct_retained_suffix_bytes c)
  ++ cbor_field_unsigned "tool_result_bytes" (ct_tool_result_bytes c)
  ++ cbor_field_unsigned "compactor_context_bytes" (ct_compactor_context_bytes c)
  ++ cbor_field_unsigned "compactor_tool_count" (ct_compactor_tool_count c)
  ++ cbor_field_bool "tools_execution_prohibited" (ct_tools_execution_prohibited c)
  ++ cbor_field_bool "source_is_active_context_prefix" (ct_source_is_active_context_prefix c)
  ++ cbor_field_unsigned "replacement_message_count" (ct_replacement_message_count c)
  ++ cbor_field_unsigned "replacement_bytes" (ct_replacement_bytes c)
  ++ cbor_field_unsigned "estimated_context_tokens_after" (ct_estimated_context_tokens_after c)
  ++ cbor_field_unsigned "headroom_tokens" (ct_headroom_tokens c)
  ++ cbor_field_bool "structural_validation_passed" (ct_structural_validation_passed c)
  ++ cbor_field_bool "retained_suffix_exact" (ct_retained_suffix_exact c)
  ++ cbor_field_bool "source_generation_matches" (ct_source_generation_matches c)
  ++ cbor_field_unsigned "provider_input_tokens" (ct_provider_input_tokens c)
  ++ cbor_field_unsigned "provider_output_tokens" (ct_provider_output_tokens c)
  ++ cbor_field_unsigned "provider_cache_read_tokens" (ct_provider_cache_read_tokens c)
  ++ cbor_field_unsigned "provider_cache_write_tokens" (ct_provider_cache_write_tokens c)
  ++ cbor_field_unsigned "serialized_request_bytes" (ct_serialized_request_bytes c)
  ++ cbor_field_unsigned "cache_domain_fingerprint" (ct_cache_domain_fingerprint c)
  ++ cbor_field_text "terminal_outcome" (ct_terminal_outcome c)
  ++ cbor_field_unsigned "post_compaction_turn_index" (ct_post_compaction_turn_index c).

(** [write_cbor_event]. *)
Definition write_cbor_event (event : TraceEvent) : list N :=
  cbor_map (match event with
            | EvHeader _ => 6
            | EvTurn _ => 7
            | EvEnd _ => 5
            | EvTool _ => 8
            | EvCompaction c => compaction_field_count c
            end)
  ++ cbor_text "schema_version" ++ cbor_unsigned TRACE_SCHEMA_VERSION
  ++ cbor_text "type" ++ cbor_text (event_type event)
  ++ match event with
     | EvHeader header => write_cbor_header header
     | EvTurn turn => write_cbor_turn turn
     | EvTool tool => write_cbor_tool tool
     | EvCompaction compaction => write_cbor_compaction compaction
     | EvEnd end_ => write_cbor_end end_
     end.

(** ** JSON *)

Definition json_decimal (n : N) : list N := bytes_of (pretty n).
Definition json_bool (b : bool) : list N := bytes_of (if b then "true" else "false").
Definition json_null : list N := bytes_of "null".

(** A lowercase hexadecimal digit. *)
Definition hex_digit_byte (n : N) : N := if n <? 10 then 48 + n else 87 + n.

(** One character of [json_string]; the bytes of a character outside ASCII are
    written as they are. *)
Definition json_escape (b : N) : list N :=
  if b =? 34 then [92; 34]
  else if b =? 92 then [92; 92]
  else if b =? 8 then [92; 98]
  else if b =? 12 then [92; 102]
  else if b =? 10 then [92; 110]
  else if b =? 13 then [92; 114]
  else if b =? 9 then [92; 116]
  else if b <=? 31 then [92; 117; 48; 48; hex_digit_byte (b / 16); hex_digit_byte (b mod 16)]
  else [b].

(** [json_string]. *)
Definition json_string (value : string) : list N := 34 :: concat (map json_escape (bytes_of value)) ++ [34].

Definition comma : list N := [44].
Definition json_field_name (name : string) : list N := json_string name ++ [58].
Definition json_field_string (name value : string) : list N := json_field_name name ++ json_string value.
Definition json_field_optional_string (name : string) (value : option string) : list N :=
  json_field_name name ++ match value with Some value => json_string value | None => json_null end.
Definition json_field_optional_number (name : string) (value : option N) : list N :=
  json_field_name name ++ match value with Some value => json_decimal value | None => json_null end.
Definition json_field_optional_bool (name : string) (value : option bool) : list N :=
  json_field_name name ++ match value with Some value => json_bool value | None => json_null end.
Definition json_field_string_with_comma (name value : string) : list N := comma ++ json_field_string name value.
Definition json_field_number_with_comma (name : string) (value : N) : list N :=
  comma ++ json_field_name name ++ json_decimal value.
Definition json_field_bool_with_comma (name : string) (value : bool) : list N :=
  comma ++ json_field_name name ++ json_bool value.

(** The loops that push a comma before every element but the first. *)
Fixpoint separated (l : list (list N)) : list N :=
  match l with
  | [] => []
  | [x] => x
  | x :: l => x ++ comma ++ separated l
  end.
Definition json_map (values : list (string * string)) : list N :=
  123 :: separated (map (fun kv => json_field_string kv.1 kv.2) values) ++ [125].
Definition json_u64_map (values : list (string * N)) : list N :=
  123 :: separated (map (fun kv => json_field_name kv.1 ++ json_decimal kv.2) values) ++ [125].
Definition json_string_array (values : list string) : list N := 91 :: separated (map json_string values) ++ [93].

Definition json_optional_provenance (provenance : option TraceProvenance) : list N :=
  match provenance with
  | None => json_null
  | Some p => 123 :: separated (map (fun nv => json_field_optional_string nv.1 nv.2) (provenance_fields p)) ++ [125]
  end.

(** [json_optional_cache_evidence]. *)
Definition json_optional_cache_evidence (evidence : option CacheEvidence) : list N :=
  match evidence with
  | None => json_null
  | Some e =>
      [123]
      ++ json_field_optional_string "continuity" (ce_continuity e)
      ++ comma ++ json_field_optional_number "cache_domain_fingerprint" (ce_cache_domain_fingerprint e)
      ++ comma ++ json_field_name "changed_cache_domain_components" ++ json_string_array (ce_changed_cache_domain_components e)
      ++ comma ++ json_field_optional_number "context_bytes" (ce_context_bytes e)
      ++ comma ++ json_field_optional_number "common_context_prefix_bytes" (ce_common_context_prefix_bytes e)
      ++ comma ++ json_field_optional_number "common_context_prefix_ratio_millionths" (ce_common_context_prefix_ratio_millionths e)
      ++ comma ++ json_field_optional_bool "context_projection_changed" (ce_context_projection_changed e)
      ++ comma ++ json_field_optional_number "context_fingerprint" (ce_context_fingerprint e)
      ++ comma ++ json_field_optional_number "system_prompt_fingerprint" (ce_system_prompt_fingerprint e)
      ++ comma ++ json_field_optional_number "tool_definition_fingerprint" (ce_tool_definition_fingerprint e)
      ++ comma ++ json_field_optional_number "tool_order_fingerprint" (ce_tool_order_fingerprint e)
      ++ comma ++ json_field_optional_number "model_fingerprint" (ce_model_fingerprint e)
      ++ comma ++ json_field_optional_number "thinking_fingerprint" (ce_thinking_fingerprint e)
      ++ comma ++ json_field_optional_number "deterministic_common_prefix_bytes" (ce_deterministic_common_prefix_bytes e)
      ++ comma ++ json_field_optional_number "deterministic_common_prefix_tokens_estimate" (ce_deterministic_common_prefix_tokens_estimate e)
      ++ comma ++ json_field_optional_number "provider_cache_read_tokens" (ce_provider_cache_read_tokens e)
      ++ comma ++ json_field_optional_number "provider_cache_write_tokens" (ce_provider_cache_write_tokens e)
      ++ comma ++ json_field_optional_number "serialized_request_bytes" (ce_serialized_request_bytes e)
      ++ comma ++ json_field_optional_number "adapter_cache_domain_fingerprint" (ce_adapter_cache_domain_fingerprint e)
      ++ comma ++ json_field_name "adapter_cache_domain_components" ++ json_u64_map (ce_adapter_cache_domain_components e)
      ++ comma ++ json_field_optional_string "provider_surface_digest" (ce_provider_surface_digest e)
      ++ [125]
  end.

Definition write_json_header (h : EpisodeHeader) : list N :=
  comma ++ json_field_string "episode_id" (eh_episode_id h)
  ++ comma ++ json_field_name "metadata" ++ json_map (eh_metadata h)
  ++ comma ++ json_field_optional_number "started_at_ms" (eh_started_at_ms h)
  ++ comma ++ json_field_name "provenance" ++ json_optional_provenance (eh_provenance h).
Definition write_json_turn (t : TurnTrace) : list N :=
  comma ++ json_field_name "index" ++ json_decimal (tn_index t)
  ++ comma ++ json_field_string "input" (tn_input t)
  ++ comma ++ json_field_optional_string "output" (tn_output t)
  ++ comma ++ json_field_optional_string "stop_reason" (tn_stop_reason t)
  ++ comma ++ json_field_name "cache_evidence" ++ json_optional_cache_evidence (tn_cache_evidence t).
Definition write_json_tool (t : ToolTrace) : list N :=
  comma ++ json_field_name "turn_index" ++ json_decimal (tl_turn_index t)
  ++ comma ++ json_field_string "call_id" (tl_call_id t)
  ++ comma ++ json_field_string "name" (tl_name t)
  ++ comma ++ json_field_string "input" (tl_input t)
  ++ comma ++ json_field_optional_string "output" (tl_output t)
  ++ comma ++ json_field_optional_string "error" (tl_error t).
Definition write_json_end (e : EpisodeEnd) : list N :=
  comma ++ json_field_string "reason" (end_reason_name (ee_reason e))
  ++ comma ++ json_field_optional_string "error" (ee_error e)
  ++ comma ++ json_field_optional_number "finished_at_ms" (ee_finished_at_ms e).

(** The macros of [write_json_compaction]. *)
Definition json_opt_string (name : string) (value : option string) : list N :=
  match value with Some value => json_field_string_with_comma name value | None => [] end.
Definition json_opt_number (name : string) (value : option N) : list N :=
  match value with Some value => json_field_number_with_comma name value | None => [] end.
Definition json_opt_bool (name : string) (value : option bool) : list N :=
  match value with Some value => json_field_bool_with_comma name value | None => [] end.

(** [write_json_compaction]. *)
Definition write_json_compaction (c : CompactionTrace) : list N :=
  json_field_string_with_comma "compaction_id" (ct_compaction_id c)
  ++ json_field_string_with_comma "stage" (compaction_stage_name (ct_stage c))
  ++ json_opt_string "trigger" (ct_trigger c)
  ++ json_opt_string "reason" (ct_reason c)
  ++ json_opt_string "phase" (ct_phase c)
  ++ json_opt_string "strategy_id" (ct_strategy_id c)
  ++ json_opt_number "strategy_schema_version" (ct_strategy_schema_version c)
  ++ json_opt_string "request_layout" (ct_request_layout c)
  ++ json_opt_number "prompt_fingerprint" (ct_prompt_fingerprint c)
  ++ json_opt_number "source_history_revision" (ct_source_history_revision c)
  ++ json_opt_number "attempt" (ct_attempt c)
  ++ json_opt_number "automatic_ordinal" (ct_automatic_ordinal c)
  ++ json_opt_number "overflow_retry_ordinal" (ct_overflow_retry_ordinal c)
  ++ json_opt_bool "retry_provider_request" (ct_retry_provider_request c)
  ++ json_opt_number "source_message_count" (ct_source_message_count c)
  ++ json_opt_number "source_message_bytes" (ct_source_message_bytes c)
  ++ json_opt_number "retained_message_count" (ct_retained_message_count c)
  ++ json_opt_number "retained_suffix_bytes" (ct_retained_suffix_bytes c)
  ++ json_opt_number "tool_result_bytes" (ct_tool_result_bytes c)
  ++ json_opt_number "compactor_context_bytes" (ct_compactor_context_bytes c)
  ++ json_opt_number "compactor_tool_count" (ct_compactor_tool_count c)
  ++ json_opt_bool "tools_execution_prohibited" (ct_tools_execution_prohibited c)
  ++ json_opt_bool "source_is_active_context_prefix" (ct_source_is_active_context_prefix c)
  ++ json_opt_number "replacement_message_count" (ct_replacement_message_count c)
  ++ json_opt_number "replacement_bytes" (ct_replacement_bytes c)
  ++ json_opt_number "estimated_context_tokens_after" (ct_estimated_context_tokens_after c)
  ++ json_opt_number "headroom_tokens" (ct_headroom_tokens c)
  ++ json_opt_bool "structural_validation_passed" (ct_structural_validation_passed c)
  ++ json_opt_bool "retained_suffix_exact" (ct_retained_suffix_exact c)
  ++ json_opt_bool "source_generation_matches" (ct_source_generation_matches c)
  ++ json_opt_number "provider_input_tokens" (ct_provider_input_tokens c)
  ++ json_opt_number "provider_output_tokens" (ct_provider_output_tokens c)
  ++ json_opt_number "provider_cache_read_tokens" (ct_provider_cache_read_tokens c)
  ++ json_opt_number "provider_cache_write_tokens" (ct_provider_cache_write_tokens c)
  ++ json_opt_number "serialized_request_bytes" (ct_serialized_request_bytes c)
  ++ json_opt_number "cache_domain_fingerprint" (ct_cache_domain_fingerprint c)
  ++ json_opt_string "terminal_outcome" (ct_terminal_outcome c)
  ++ json_opt_number "post_compaction_turn_index" (ct_post_compaction_turn_index c).

(** [write_json_event]. *)
Definition write_json_event (event : TraceEvent) : list N :=
  [123] ++ json_field_name "schema_version" ++ json_decimal TRACE_SCHEMA_VERSION
  ++ comma ++ json_field_name "type" ++ json_string (event_type event)
  ++ match event with
     | EvHeader header => write_json_header header
     | EvTurn turn => write_json_turn turn
     | EvTool tool => write_json_tool tool
     | EvCompaction compaction => write_json_compaction compaction
     | EvEnd end_ => write_json_end end_
     end
  ++ [125].

(** ** Sinks *)

(** A [TraceSink]: appending an event changes the sink or fails. *)
Record TraceSink (S X : Type) := mk_sink { sink_append : S -> TraceEvent -> S * Outcome X unit }.
Arguments sink_append {S X}.

(** The bytes [JsonLinesSink] and [CborSink] write for one event. *)
Definition json_line_record (event : TraceEvent) : list N := write_json_event event ++ [10].
Definition cbor_record (event : TraceEvent) : list N := write_cbor_event event.

(** [RedactingSink::append]. *)
Definition redacting_append {S X} (inner : TraceSink S X) (redact : TraceEvent -> TraceEvent) (s : S)
    (event : TraceEvent) : S * Outcome X unit := sink_append inner s (redact event).

(** [IsolatedSink]: the wrapped sink and the number of failed events. *)
Definition isolated_append {S X Y} (inner : TraceSink S X) (s : S * N) (event : TraceEvent) : (S * N) * Outcome Y unit :=
  let '(s', result) := sink_append inner s.1 event in
  match result with
  | Ok _ => ((s', s.2), Ok ())
  | Err _ => ((s', u64_saturating_add s.2 1), Ok ())
  | Panic reason => ((s', s.2), Panic reason)
  end.

(** [Vec<TraceEvent>::append]. *)
Definition vec_append {X} (s : list TraceEvent) (event : TraceEvent) : list TraceEvent * Outcome X unit :=
  (s ++ [event], Ok ()).
