(* ===== verification/TraceProofs.v ===== *)
(** * tea-trace: both encodings carry the same record

    [event_wire] is the record of an event as an ordered tree.  The JSON line
    is its JSON text and the CBOR item its CBOR encoding, the declared map
    lengths included; a reference CBOR decoder reads a sequence of records
    back, so the sequence needs no other framing: the second part of the file. *)

From stdpp Require Import base gmap list strings pretty.
From S2P Require Import Prelude RustStr Ids Trace.

Local Open Scope N_scope.

(** ** Wire trees *)

Inductive Wire :=
| WNull
| WBool (value : bool)
| WNum (value : N)
| WStr (value : string)
| WArr (values : list Wire)
| WObj (fields : list (string * Wire)).

Fixpoint wire_cbor (v : Wire) : list N :=
  match v with
  | WNull => cbor_null
  | WBool b => cbor_bool b
  | WNum n => cbor_unsigned n
  | WStr s => cbor_text s
  | WArr l => cbor_major_length 4 (N.of_nat (length l)) ++ concat (map wire_cbor l)
  | WObj l => cbor_map (length l) ++ concat (map (fun kv => cbor_text kv.1 ++ wire_cbor kv.2) l)
  end.

Fixpoint wire_json (v : Wire) : list N :=
  match v with
  | WNull => json_null
  | WBool b => json_bool b
  | WNum n => json_decimal n
  | WStr s => json_string s
  | WArr l => 91 :: separated (map wire_json l) ++ [93]
  | WObj l => 123 :: separated (map (fun kv => json_field_name kv.1 ++ wire_json kv.2) l) ++ [125]
  end.

Definition wire_text (o : option string) : Wire := match o with Some s => WStr s | None => WNull end.
Definition wire_number (o : option N) : Wire := match o with Some n => WNum n | None => WNull end.
Definition wire_bool (o : option bool) : Wire := match o with Some b => WBool b | None => WNull end.

(** A field that is left out when absent. *)
Definition present {A} (name : string) (wire : A -> Wire) (o : option A) : list (string * Wire) :=
  match o with Some x => [(name, wire x)] | None => [] end.

(** ** The record of an event *)

Definition provenance_wire (o : option TraceProvenance) : Wire :=
  match o with
  | None => WNull
  | Some p => WObj (map (fun nv => (nv.1, wire_text nv.2)) (provenance_fields p))
  end.

Definition evidence_fields (e : CacheEvidence) : list (string * Wire) :=
  [
("continuity", wire_text (ce_continuity e));
   ("cache_domain_fingerprint", wire_number (ce_cache_domain_fingerprint e));
   ("changed_cache_domain_components", WArr (map WStr (ce_changed_cache_domain_components e)));
   ("context_bytes", wire_number (ce_context_bytes e));
   ("common_context_prefix_bytes", wire_number (ce_common_context_prefix_bytes e));
   ("common_context_prefix_ratio_millionths", wire_number (ce_common_context_prefix_ratio_millionths e));
   ("context_projection_changed", wire_bool (ce_context_projection_changed e));
   ("context_fingerprint", wire_number (ce_context_fingerprint e));
   ("system_prompt_fingerprint", wire_number (ce_system_prompt_fingerprint e));
   ("tool_definition_fingerprint", wire_number (ce_tool_definition_fingerprint e));
   ("tool_order_fingerprint", wire_number (ce_tool_order_fingerprint e));
   ("model_fingerprint", wire_number (ce_model_fingerprint e));
   ("thinking_fingerprint", wire_number (ce_thinking_fingerprint e));
   ("deterministic_common_prefix_bytes", wire_number (ce_deterministic_common_prefix_bytes e));
   ("deterministic_common_prefix_tokens_estimate", wire_number (ce_deterministic_common_prefix_tokens_estimate e));
   ("provider_cache_read_tokens", wire_number (ce_provider_cache_read_tokens e));
   ("provider_cache_write_tokens", wire_number (ce_provider_cache_write_tokens e));
   ("serialized_request_bytes", wire_number (ce_serialized_request_bytes e));
   ("adapter_cache_domain_fingerprint", wire_number (ce_adapter_cache_domain_fingerprint e));
   ("adapter_cache_domain_components", WObj (map (fun kv => (kv.1, WNum kv.2)) (ce_adapter_cache_domain_components e)));
   ("provider_surface_digest", wire_text (ce_provider_surface_digest e))].
Definition evidence_wire (o : option CacheEvidence) : Wire :=
  match o with None => WNull | Some e => WObj (evidence_fields e) end.

Definition episode_header_fields (h : EpisodeHeader) : list (string * Wire) :=
  [("episode_id", WStr (eh_episode_id h));
   ("metadata", WObj (map (fun kv => (kv.1, WStr kv.2)) (eh_metadata h)));
   ("started_at_ms", wire_number (eh_started_at_ms h));
   ("provenance", provenance_wire (eh_provenance h))].
Definition turn_fields (t : TurnTrace) : list (string * Wire) :=
  [("index", WNum (tn_index t)); ("input", WStr (tn_input t)); ("output", wire_text (tn_output t));
   ("stop_reason", wire_text (tn_stop_reason t)); ("cache_evidence", evidence_wire (tn_cache_evidence t))].
Definition tool_fields (t : ToolTrace) : list (string * Wire) :=
  [("turn_index", WNum (tl_turn_index t)); ("call_id", WStr (tl_call_id t)); ("name", WStr (tl_name t));
   ("input", WStr (tl_input t)); ("output", wire_text (tl_output t)); ("error", wire_text (tl_error t))].
Definition end_fields (e : EpisodeEnd) : list (string * Wire) :=
  [("reason", WStr (end_reason_name (ee_reason e))); ("error", wire_text (ee_error e));
   ("finished_at_ms", wire_number (ee_finished_at_ms e))].
Definition compaction_fields (c : CompactionTrace) : list (string * Wire) :=
  [("compaction_id", WStr (ct_compaction_id c)); ("stage", WStr (compaction_stage_name (ct_stage c)))]
  ++ present "trigger" WStr (ct_trigger c)
  ++ present "reason" WStr (ct_reason c)
  ++ present "phase" WStr (ct_phase c)
  ++ present "strategy_id" WStr (ct_strategy_id c)
  ++ present "strategy_schema_version" WNum (ct_strategy_schema_version c)
  ++ present "request_layout" WStr (ct_request_layout c)
  ++ present "prompt_fingerprint" WNum (ct_prompt_fingerprint c)
  ++ present "source_history_revision" WNum (ct_source_history_revision c)
  ++ present "attempt" WNum (ct_attempt c)
  ++ present "automatic_ordinal" WNum (ct_automatic_ordinal c)
  ++ present "overflow_retry_ordinal" WNum (ct_overflow_retry_ordinal c)
  ++ present "retry_provider_request" WBool (ct_retry_provider_request c)
  ++ present "source_message_count" WNum (ct_source_message_count c)
  ++ present "source_message_bytes" WNum (ct_source_message_bytes c)
  ++ present "retained_message_count" WNum (ct_retained_message_count c)
  ++ present "retained_suffix_bytes" WNum (ct_retained_suffix_bytes c)
  ++ present "tool_result_bytes" WNum (ct_tool_result_bytes c)
  ++ present "compactor_context_bytes" WNum (ct_compactor_context_bytes c)
  ++ present "compactor_tool_count" WNum (ct_compactor_tool_count c)
  ++ present "tools_execution_prohibited" WBool (ct_tools_execution_prohibited c)
  ++ present "source_is_active_context_prefix" WBool (ct_source_is_active_context_prefix c)
  ++ present "replacement_message_count" WNum (ct_replacement_message_count c)
  ++ present "replacement_bytes" WNum (ct_replacement_bytes c)
  ++ present "estimated_context_tokens_after" WNum (ct_estimated_context_tokens_after c)
  ++ present "headroom_tokens" WNum (ct_headroom_tokens c)
  ++ present "structural_validation_passed" WBool (ct_structural_validation_passed c)
  ++ present "retained_suffix_exact" WBool (ct_retained_suffix_exact c)
  ++ present "source_generation_matches" WBool (ct_source_generation_matches c)
  ++ present "provider_input_tokens" WNum (ct_provider_input_tokens c)
  ++ present "provider_output_tokens" WNum (ct_provider_output_tokens c)
  ++ present "provider_cache_read_tokens" WNum (ct_provider_cache_read_tokens c)
  ++ present "provider_cache_write_tokens" WNum (ct_provider_cache_write_tokens c)
  ++ present "serialized_request_bytes" WNum (ct_serialized_request_bytes c)
  ++ present "cache_domain_fingerprint" WNum (ct_cache_domain_fingerprint c)
  ++ present "terminal_outcome" WStr (ct_terminal_outcome c)
  ++ present "post_compaction_turn_index" WNum (ct_post_compaction_turn_index c).

Definition event_fields (e : TraceEvent) : list (string * Wire) :=
  match e with
  | EvHeader h => episode_header_fields h
  | EvTurn t => turn_fields t
  | EvTool t => tool_fields t
  | EvCompaction c => compaction_fields c
  | EvEnd e => end_fields e
  end.
Definition event_wire (e : TraceEvent) : Wire :=
  WObj ([("schema_version", WNum TRACE_SCHEMA_VERSION); ("type", WStr (event_type e))] ++ event_fields e).

(** ** The writers print the record *)

Definition cbor_fields (l : list (string * Wire)) : list N :=
  concat (map (fun kv => cbor_text kv.1 ++ wire_cbor kv.2) l).

Lemma cbor_fields_cons k v l : cbor_fields ((k, v) :: l) = cbor_text k ++ wire_cbor v ++ cbor_fields l.
Proof. unfold cbor_fields. cbn [map concat fst snd]. by rewrite <-app_assoc. Qed.
Lemma cbor_fields_app l k : cbor_fields (l ++ k) = cbor_fields l ++ cbor_fields k.
Proof. unfold cbor_fields. by rewrite map_app, concat_app. Qed.
Lemma wire_cbor_obj l : wire_cbor (WObj l) = cbor_map (length l) ++ cbor_fields l.
Proof. done. Qed.

Lemma cbor_wire_text o : wire_cbor (wire_text o) = cbor_optional_text o.
Proof. by destruct o. Qed.
Lemma cbor_wire_number o : wire_cbor (wire_number o) = cbor_optional_unsigned o.
Proof. by destruct o. Qed.
Lemma cbor_wire_bool o : wire_cbor (wire_bool o) = cbor_optional_bool o.
Proof. by destruct o. Qed.

Lemma cbor_present_text name o : cbor_fields (present name WStr o) = cbor_field_text name o.
Proof. destruct o; [|done]. unfold cbor_fields. cbn. by rewrite !app_nil_r. Qed.
Lemma cbor_present_number name o : cbor_fields (present name WNum o) = cbor_field_unsigned name o.
Proof. destruct o; [|done]. unfold cbor_fields. cbn. by rewrite !app_nil_r. Qed.
Lemma cbor_present_bool name o : cbor_fields (present name WBool o) = cbor_field_bool name o.
Proof. destruct o; [|done]. unfold cbor_fields. cbn. by rewrite !app_nil_r. Qed.

Lemma cbor_string_map l :
  wire_cbor (WObj (map (fun kv : string * string => (kv.1, WStr kv.2)) l))
    = cbor_map (length l) ++ concat (map (fun kv => cbor_text kv.1 ++ cbor_text kv.2) l).
Proof. cbn [wire_cbor]. by rewrite length_map, map_map. Qed.
Lemma cbor_number_map l :
  wire_cbor (WObj (map (fun kv : string * N => (kv.1, WNum kv.2)) l)) = cbor_u64_map l.
Proof. cbn [wire_cbor]. by rewrite length_map, map_map. Qed.
Lemma cbor_string_list l : wire_cbor (WArr (map WStr l)) = cbor_text_array l.
Proof. cbn [wire_cbor]. by rewrite length_map, map_map. Qed.
Lemma cbor_provenance o : wire_cbor (provenance_wire o) = cbor_optional_provenance o.
Proof.
  destruct o as [p|]; [|done]. cbn [provenance_wire cbor_optional_provenance]. rewrite wire_cbor_obj, length_map.
  unfold cbor_fields. rewrite map_map. f_equal. f_equal. apply map_ext. intros nv. cbn [fst snd].
  by rewrite cbor_wire_text.
Qed.

Lemma cbor_evidence o : wire_cbor (evidence_wire o) = cbor_optional_cache_evidence o.
Proof.
  destruct o as [e|]; [|done]. cbn [evidence_wire cbor_optional_cache_evidence]. rewrite wire_cbor_obj.
  unfold evidence_fields.
  rewrite !cbor_fields_cons, !cbor_wire_text, !cbor_wire_number, !cbor_wire_bool, cbor_number_map, cbor_string_list.
  change (cbor_fields []) with (@nil N). by rewrite app_nil_r.
Qed.

Lemma cbor_compaction c : cbor_fields (compaction_fields c) = write_cbor_compaction c.
Proof.
  unfold compaction_fields, write_cbor_compaction.
  rewrite !cbor_fields_app, !cbor_fields_cons, !cbor_present_text, !cbor_present_number, !cbor_present_bool.
  change (cbor_fields []) with (@nil N). rewrite app_nil_r. cbn [wire_cbor]. by rewrite <-!app_assoc.
Qed.

Lemma length_present {A} name (wire : A -> Wire) o : length (present name wire o) = Nat.b2n (is_present o).
Proof. by destruct o. Qed.

Lemma count_present l : length (List.filter (fun b : bool => b) l) = foldr (fun b n => (Nat.b2n b + n)%nat) 0%nat l.
Proof. induction l as [|[] l IH]; cbn; [done| |done]. by rewrite IH. Qed.

(** The declared number of fields is the number written. *)
Lemma compaction_count c : compaction_field_count c = (2 + length (compaction_fields c))%nat.
Proof.
  unfold compaction_field_count, compaction_fields. rewrite count_present, !length_app, !length_present.
  cbn [length foldr]. by rewrite Nat.add_0_r.
Qed.

Lemma write_cbor_wire e : write_cbor_event e = wire_cbor (event_wire e).
Proof.
  unfold write_cbor_event, event_wire. rewrite wire_cbor_obj, length_app, cbor_fields_app, !cbor_fields_cons.
  change (cbor_fields []) with (@nil N). rewrite app_nil_r, <-!app_assoc. cbn [wire_cbor].
  destruct e as [h|t|t|c|e]; cbn [event_fields].
  - unfold episode_header_fields. rewrite !cbor_fields_cons, cbor_string_map, cbor_wire_number, cbor_provenance.
    change (cbor_fields []) with (@nil N). rewrite app_nil_r. unfold write_cbor_header. cbn [wire_cbor]. by rewrite <-!app_assoc.
  - unfold turn_fields. rewrite !cbor_fields_cons, !cbor_wire_text, cbor_evidence.
    change (cbor_fields []) with (@nil N). by rewrite app_nil_r.
  - unfold tool_fields. rewrite !cbor_fields_cons, !cbor_wire_text. change (cbor_fields []) with (@nil N). by rewrite app_nil_r.
  - rewrite cbor_compaction, compaction_count. done.
  - unfold end_fields. rewrite !cbor_fields_cons, cbor_wire_text, cbor_wire_number.
    change (cbor_fields []) with (@nil N). by rewrite app_nil_r.
Qed.

Lemma separated_cons x l : separated (x :: l) = x ++ concat (map (fun y => comma ++ y) l).
Proof.
  revert x. induction l as [|y l IH]; intros x; [by rewrite app_nil_r|].
  change (separated (x :: y :: l)) with (x ++ comma ++ separated (y :: l)). rewrite IH. cbn [map concat].
  by rewrite <-!app_assoc.
Qed.

(** Fields after the first, each with its comma. *)
Definition json_fields (l : list (string * Wire)) : list N :=
  concat (map (fun kv => comma ++ json_field_name kv.1 ++ wire_json kv.2) l).

Lemma json_fields_cons k v l : json_fields ((k, v) :: l) = comma ++ json_field_name k ++ wire_json v ++ json_fields l.
Proof. unfold json_fields. cbn [map concat fst snd]. by rewrite <-!app_assoc. Qed.
Lemma json_fields_app l k : json_fields (l ++ k) = json_fields l ++ json_fields k.
Proof. unfold json_fields. by rewrite map_app, concat_app. Qed.
Lemma wire_json_obj k v l :
  wire_json (WObj ((k, v) :: l)) = [123] ++ json_field_name k ++ wire_json v ++ json_fields l ++ [125].
Proof.
  cbn [wire_json map fst snd]. rewrite separated_cons, map_map. unfold json_fields. cbn [app]. by rewrite <-!app_assoc.
Qed.

Lemma json_wire_text name o : json_field_name name ++ wire_json (wire_text o) = json_field_optional_string name o.
Proof. by destruct o. Qed.
Lemma json_wire_number name o : json_field_name name ++ wire_json (wire_number o) = json_field_optional_number name o.
Proof. by destruct o. Qed.
Lemma json_wire_bool name o : json_field_name name ++ wire_json (wire_bool o) = json_field_optional_bool name o.
Proof. by destruct o. Qed.

Lemma json_present_text name o : json_fields (present name WStr o) = json_opt_string name o.
Proof. destruct o; [|done]. unfold json_fields. cbn. by rewrite !app_nil_r. Qed.
Lemma json_present_number name o : json_fields (present name WNum o) = json_opt_number name o.
Proof. destruct o; [|done]. unfold json_fields. cbn. by rewrite !app_nil_r. Qed.
Lemma json_present_bool name o : json_fields (present name WBool o) = json_opt_bool name o.
Proof. destruct o; [|done]. unfold json_fields. cbn. by rewrite !app_nil_r. Qed.

Lemma json_string_map l : wire_json (WObj (map (fun kv : string * string => (kv.1, WStr kv.2)) l)) = json_map l.
Proof. cbn [wire_json]. by rewrite map_map. Qed.
Lemma json_number_map l : wire_json (WObj (map (fun kv : string * N => (kv.1, WNum kv.2)) l)) = json_u64_map l.
Proof. cbn [wire_json]. by rewrite map_map. Qed.
Lemma json_string_list l : wire_json (WArr (map WStr l)) = json_string_array l.
Proof. cbn [wire_json]. by rewrite map_map. Qed.

Lemma json_provenance o : wire_json (provenance_wire o) = json_optional_provenance o.
Proof.
  destruct o as [p|]; [|done]. cbn [provenance_wire json_optional_provenance wire_json]. rewrite map_map.
  f_equal. f_equal. f_equal. apply map_ext. intros nv. cbn [fst snd]. by rewrite json_wire_text.
Qed.

Lemma json_evidence o : wire_json (evidence_wire o) = json_optional_cache_evidence o.
Proof.
  destruct o as [e|]; [|done]. cbn [evidence_wire json_optional_cache_evidence].
  unfold evidence_fields. rewrite wire_json_obj, !json_fields_cons, json_number_map, json_string_list.
  rewrite <-!json_wire_text, <-!json_wire_number, <-!json_wire_bool. change (json_fields []) with (@nil N).
  by rewrite <-!app_assoc.
Qed.

Lemma json_compaction c : json_fields (compaction_fields c) = write_json_compaction c.
Proof.
  unfold compaction_fields, write_json_compaction.
  rewrite !json_fields_app, !json_fields_cons, !json_present_text, !json_present_number, !json_present_bool.
  change (json_fields []) with (@nil N). unfold json_field_string_with_comma, json_field_string. cbn [wire_json].
  rewrite app_nil_r. by rewrite <-!app_assoc.
Qed.

(** The fields of each kind of record, as JSON. *)
Lemma json_event_fields e :
  match e with
  | EvHeader header => write_json_header header
  | EvTurn turn => write_json_turn turn
  | EvTool tool => write_json_tool tool
  | EvCompaction compaction => write_json_compaction compaction
  | EvEnd end_ => write_json_end end_
  end = json_fields (event_fields e).
Proof.
  destruct e as [h|t|t|c|e]; cbn [event_fields]; [| | |by rewrite json_compaction|].
  - unfold episode_header_fields, write_json_header. rewrite !json_fields_cons, json_string_map, json_provenance.
    rewrite <-json_wire_number. change (json_fields []) with (@nil N). unfold json_field_string. cbn [wire_json].
    by rewrite app_nil_r, <-!app_assoc.
  - unfold turn_fields, write_json_turn. rewrite !json_fields_cons, json_evidence.
    rewrite <-!json_wire_text. change (json_fields []) with (@nil N). unfold json_field_string. cbn [wire_json].
    by rewrite app_nil_r, <-!app_assoc.
  - unfold tool_fields, write_json_tool. rewrite !json_fields_cons.
    rewrite <-!json_wire_text. change (json_fields []) with (@nil N). unfold json_field_string. cbn [wire_json].
    by rewrite app_nil_r, <-!app_assoc.
  - unfold end_fields, write_json_end. rewrite !json_fields_cons.
    rewrite <-json_wire_text, <-json_wire_number. change (json_fields []) with (@nil N). unfold json_field_string.
    cbn [wire_json]. by rewrite app_nil_r, <-!app_assoc.
Qed.

Lemma write_json_wire e : write_json_event e = wire_json (event_wire e).
Proof.
  unfold write_json_event, event_wire. rewrite json_event_fields. cbn [app].
  rewrite wire_json_obj, json_fields_cons. cbn [wire_json]. by rewrite <-!app_assoc.
Qed.

(** ** The reference decoder *)

(** [k] further bytes as the argument of a head. *)
Definition long_argument (major : N) (k : nat) (rest : list N) : option (N * N * list N) :=
  if (length rest <? k)%nat then None else Some (major, be_value (take k rest), drop k rest).

(** The major type and argument at the front of the input. *)
Definition cbor_head (bytes : list N) : option (N * N * list N) :=
  match bytes with
  | [] => None
  | b :: rest =>
      let major := b / 32 in
      let info := b mod 32 in
      if info <=? 23 then Some (major, info, rest)
      else if info =? 24 then long_argument major 1 rest
      else if info =? 25 then long_argument major 2 rest
      else if info =? 26 then long_argument major 4 rest
      else if info =? 27 then long_argument major 8 rest
      else None
  end.

Section items.
Context {A : Type} (item : list N -> option (A * list N)).
Fixpoint cbor_items (n : nat) (bytes : list N) : option (list A * list N) :=
  match n with
  | O => Some ([], bytes)
  | S n =>
      '(x, rest) ← item bytes;
      '(l, rest) ← cbor_items n rest;
      Some (x :: l, rest)
  end.
End items.

(** A value, with at most [depth] nested containers. *)
Fixpoint cbor_value (depth : nat) (bytes : list N) : option (Wire * list N) :=
  match depth with
  | O => None
  | S depth =>
      '(major, n, rest) ← cbor_head bytes;
      if major =? 0 then Some (WNum n, rest)
      else if major =? 3 then
        if (length rest <? N.to_nat n)%nat then None
        else Some (WStr (string_of_bytes (take (N.to_nat n) rest)), drop (N.to_nat n) rest)
      else if major =? 4 then
        '(l, rest) ← cbor_items (cbor_value depth) (N.to_nat n) rest; Some (WArr l, rest)
      else if major =? 5 then
        '(l, rest) ← cbor_items (fun bytes =>
            '(key, rest) ← cbor_value depth bytes;
            '(value, rest) ← cbor_value depth rest;
            match key with WStr key => Some ((key, value), rest) | _ => None end) (N.to_nat n) rest;
        Some (WObj l, rest)
      else if major =? 7 then
        if n =? 20 then Some (WBool false, rest)
        else if n =? 21 then Some (WBool true, rest)
        else if n =? 22 then Some (WNull, rest)
        else None
      else None
  end.

(** A sequence of values up to the end of the input. *)
Fixpoint cbor_sequence (count depth : nat) (bytes : list N) : option (list Wire) :=
  match bytes with
  | [] => Some []
  | _ =>
      match count with
      | O => None
      | S count =>
          '(v, rest) ← cbor_value depth bytes;
          l ← cbor_sequence count depth rest;
          Some (v :: l)
      end
  end.

(** ** Heads *)

Lemma lead_byte major info : major < 8 -> info < 32 -> N.lor (N.shiftl major 5) info = major * 32 + info.
Proof.
  intros Hm Hi.
  assert (forall b, b < 256 -> N.lor (N.shiftl (b / 32) 5) (b mod 32) = b) as Hall.
  { intros b Hb. apply N.eqb_eq. revert b Hb. apply byte_forall. vm_compute. reflexivity. }
  rewrite <-(Hall (major * 32 + info)) by lia. f_equal; [f_equal|].
  - rewrite N.div_add_l by lia. rewrite N.div_small by lia. lia.
  - rewrite N.add_comm, N.Div0.mod_add. by rewrite N.mod_small.
Qed.

Lemma lead_split major info : info < 32 -> (major * 32 + info) / 32 = major /\ (major * 32 + info) mod 32 = info.
Proof.
  intros Hi. split; [rewrite N.div_add_l by lia; rewrite N.div_small by lia; lia|].
  rewrite N.add_comm, N.Div0.mod_add. by rewrite N.mod_small.
Qed.

Lemma long_argument_bytes major k v rest :
  v < 256 ^ N.of_nat k -> long_argument major k (be_bytes k v ++ rest) = Some (major, v, rest).
Proof.
  intros Hv. unfold long_argument. rewrite length_app, length_be_bytes.
  destruct (Nat.ltb_spec (k + length rest) k); [lia|].
  rewrite take_app_length', drop_app_length' by (by rewrite length_be_bytes). by rewrite be_value_be_bytes.
Qed.

Lemma cbor_head_bytes major value rest :
  major < 8 -> value <= u64_max -> cbor_head (cbor_major_length major value ++ rest) = Some (major, value, rest).
Proof.
  intros Hm Hv. unfold cbor_major_length. unfold u64_max in Hv.
  destruct (N.leb_spec value 23) as [H1|H1].
  { rewrite lead_byte by lia. cbn [app cbor_head]. destruct (lead_split major value) as [-> ->]; [lia|].
    by rewrite (proj2 (N.leb_le value 23)). }
  destruct (N.leb_spec value 255) as [H2|H2].
  { rewrite lead_byte by lia. cbn [app cbor_head]. destruct (lead_split major 24) as [-> ->]; [lia|]. cbn.
    unfold be_value. cbn. by rewrite drop_0. }
  destruct (N.leb_spec value 65535) as [H3|H3].
  { rewrite lead_byte by lia. cbn [app cbor_head]. destruct (lead_split major 25) as [-> ->]; [lia|].
    apply long_argument_bytes. cbn. lia. }
  destruct (N.leb_spec value 4294967295) as [H4|H4].
  { rewrite lead_byte by lia. cbn [app cbor_head]. destruct (lead_split major 26) as [-> ->]; [lia|].
    apply long_argument_bytes. cbn. lia. }
  rewrite lead_byte by lia. cbn [app cbor_head]. destruct (lead_split major 27) as [-> ->]; [lia|].
  apply long_argument_bytes. cbn. lia.
Qed.

(** ** Values *)

Section wire_induction.
Variable P : Wire -> Prop.
Hypothesis Hnull : P WNull.
Hypothesis Hbool : forall b, P (WBool b).
Hypothesis Hnum : forall n, P (WNum n).
Hypothesis Hstr : forall s, P (WStr s).
Hypothesis Harr : forall l, Forall P l -> P (WArr l).
Hypothesis Hobj : forall l, Forall (fun kv => P kv.2) l -> P (WObj l).

Fixpoint wire_ind' (v : Wire) : P v :=
  match v with
  | WNull => Hnull
  | WBool b => Hbool b
  | WNum n => Hnum n
  | WStr s => Hstr s
  | WArr l => Harr l ((fix go l : Forall P l :=
      match l with [] => Forall_nil_2 _ | x :: l => Forall_cons_2 _ _ _ (wire_ind' x) (go l) end) l)
  | WObj l => Hobj l ((fix go l : Forall (fun kv => P kv.2) l :=
      match l with [] => Forall_nil_2 _ | x :: l => Forall_cons_2 _ _ _ (wire_ind' x.2) (go l) end) l)
  end.
End wire_induction.

Definition fits (n : nat) : bool := N.of_nat n <=? u64_max.

(** Numbers and lengths fit the machine. *)
Fixpoint wire_fits (v : Wire) : bool :=
  match v with
  | WNum n => n <=? u64_max
  | WStr s => fits (str_len s)
  | WArr l => fits (length l) && forallb wire_fits l
  | WObj l => fits (length l) && forallb (fun kv => fits (str_len kv.1) && wire_fits kv.2) l
  | _ => true
  end.

Fixpoint wire_height (v : Wire) : nat :=
  match v with
  | WArr l => S (foldr (fun x n => wire_height x `max` n)%nat O l)
  | WObj l => S (foldr (fun kv n => wire_height kv.2 `max` n)%nat 1%nat l)
  | _ => 1%nat
  end.

Lemma cbor_text_decodes depth s rest :
  fits (str_len s) = true -> cbor_value (S depth) (cbor_text s ++ rest) = Some (WStr s, rest).
Proof.
  intros Hs%N.leb_le. unfold cbor_text. rewrite <-app_assoc. cbn [cbor_value]. rewrite cbor_head_bytes by (done || lia).
  cbn -[N.to_nat Nat.ltb str_len]. rewrite Nat2N.id. unfold str_len. rewrite <-length_bytes_of, length_app.
  destruct (Nat.ltb_spec (length (bytes_of s) + length rest) (length (bytes_of s))); [lia|].
  rewrite take_app_length, drop_app_length. by rewrite string_of_bytes_of.
Qed.

Lemma cbor_items_decode {A} (item : list N -> option (A * list N)) (encode : A -> list N) l rest :
  (forall x rest, x ∈ l -> item (encode x ++ rest) = Some (x, rest)) ->
  cbor_items item (length l) (concat (map encode l) ++ rest) = Some (l, rest).
Proof.
  intros Hl. induction l as [|x l IH]; cbn [cbor_items length map concat]; [done|].
  rewrite <-app_assoc, Hl by (by left). cbn [mbind option_bind]. rewrite IH; [done|].
  intros y r Hy. apply Hl. by right.
Qed.

Lemma foldr_max_le {A} (h : A -> nat) l b n x :
  (foldr (fun x n => h x `max` n) b l <= n)%nat -> x ∈ l -> (h x <= n)%nat.
Proof.
  induction l as [|y l IH]; cbn; intros Hn; [by intros ?%not_elem_of_nil|].
  intros [->|Hx]%elem_of_cons; [lia|]. apply IH; [lia|done].
Qed.
Lemma foldr_max_base {A} (h : A -> nat) l b n :
  (foldr (fun x n => h x `max` n) b l <= n)%nat -> (b <= n)%nat.
Proof. induction l as [|y l IH]; cbn; [done|]. intros Hn. apply IH. lia. Qed.

(** Every record tree is read back, whatever follows it. *)
Lemma cbor_value_decodes v depth rest :
  wire_fits v = true -> (wire_height v <= depth)%nat -> cbor_value depth (wire_cbor v ++ rest) = Some (v, rest).
Proof.
  revert depth rest. induction v as [|b|n|s|l IH|l IH] using wire_ind'; intros [|depth] rest Hf Hd;
    try (exfalso; cbn in Hd; lia); try rewrite Forall_forall in IH.
  - done.
  - by destruct b.
  - apply N.leb_le in Hf. cbn [wire_cbor cbor_value]. unfold cbor_unsigned. by rewrite cbor_head_bytes.
  - by apply cbor_text_decodes.
  - cbn [wire_fits wire_height] in *. apply andb_true_iff in Hf as [Hlen%N.leb_le Hall]. rewrite forallb_elem in Hall.
    cbn [wire_cbor cbor_value]. rewrite <-app_assoc, cbor_head_bytes by (done || lia).
    cbn -[N.to_nat cbor_items]. rewrite Nat2N.id, (cbor_items_decode _ wire_cbor); [done|].
    intros x r Hx. apply IH; [done|by apply Hall|]. eapply (foldr_max_le wire_height l 0); [|done]. lia.
  - cbn [wire_fits wire_height] in *. apply andb_true_iff in Hf as [Hlen%N.leb_le Hall]. rewrite forallb_elem in Hall.
    cbn [wire_cbor cbor_value]. unfold cbor_map. rewrite <-app_assoc, cbor_head_bytes by (done || lia).
    cbn -[N.to_nat cbor_items]. rewrite Nat2N.id.
    rewrite (cbor_items_decode _ (fun kv : string * Wire => cbor_text kv.1 ++ wire_cbor kv.2)); [done|].
    intros [k x] r Hx. specialize (Hall _ Hx). cbn [fst snd] in *. apply andb_true_iff in Hall as [Hk Hv].
    assert (wire_height x <= depth)%nat as Hh by (eapply (foldr_max_le (fun kv => wire_height kv.2) l 1 depth (k, x)); [lia|done]).
    assert (1 <= depth)%nat as Hdepth by (eapply (foldr_max_base (fun kv => wire_height kv.2) l); lia).
    destruct depth as [|depth]; [lia|]. rewrite <-app_assoc, cbor_text_decodes by done. cbn [mbind option_bind].
    rewrite (IH (k, x)) by done. done.
Qed.

(** ** Sequences of records *)

Lemma map_height {A} (f : A -> Wire) (l : list (string * A)) :
  (forall x, wire_height (f x) = 1%nat) ->
  wire_height (WObj (map (fun kv => (kv.1, f kv.2)) l)) = 2%nat.
Proof.
  intros Hf. cbn [wire_height]. f_equal. induction l as [|[k x] l IH]; cbn; [done|]. rewrite IH. by rewrite Hf.
Qed.
Lemma strings_height l : (wire_height (WArr (map WStr l)) <= 2)%nat.
Proof. cbn [wire_height]. apply le_n_S. induction l as [|x l IH]; cbn -[Nat.max]; [lia|]. lia. Qed.
Lemma text_height o : wire_height (wire_text o) = 1%nat.
Proof. by destruct o. Qed.
Lemma number_height o : wire_height (wire_number o) = 1%nat.
Proof. by destruct o. Qed.
Lemma bool_height o : wire_height (wire_bool o) = 1%nat.
Proof. by destruct o. Qed.

(** The height of an object whose fields are at most [n] high. *)
Lemma object_height l n : (1 <= n)%nat -> Forall (fun kv => wire_height kv.2 <= n)%nat l -> (wire_height (WObj l) <= S n)%nat.
Proof. intros Hn Hl. cbn [wire_height]. apply le_n_S. induction Hl as [|kv l Hkv Hl IH]; cbn -[Nat.max]; lia. Qed.

Lemma present_height {A} name (wire : A -> Wire) o :
  (forall x, wire_height (wire x) = 1%nat) -> Forall (fun kv : string * Wire => wire_height kv.2 <= 1)%nat (present name wire o).
Proof. intros Hw. destruct o as [x|]; [|constructor]. apply List.Forall_cons; [|constructor]. cbn [snd]. rewrite Hw. lia. Qed.

Lemma provenance_height o : (wire_height (provenance_wire o) <= 2)%nat.
Proof.
  destruct o as [p|]; [|cbn; lia]. unfold provenance_wire. by rewrite (map_height wire_text) by apply text_height.
Qed.
Ltac field_height := apply List.Forall_cons; [cbn [snd]; first [lia | rewrite text_height; lia | rewrite number_height; lia
  | rewrite bool_height; lia | rewrite (map_height WNum) by done; lia | rewrite (map_height WStr) by done; lia | cbn; lia]|].

Lemma evidence_height o : (wire_height (evidence_wire o) <= 3)%nat.
Proof.
  destruct o as [e|]; [|cbn; lia]. apply object_height; [lia|]. unfold evidence_fields.
  pose proof (strings_height (ce_changed_cache_domain_components e)). repeat field_height. constructor.
Qed.
Lemma compaction_height c : Forall (fun kv : string * Wire => wire_height kv.2 <= 1)%nat (compaction_fields c).
Proof.
  unfold compaction_fields. apply Forall_app; split; [by repeat constructor|].
  repeat (apply Forall_app; split; [by apply present_height|]). by apply present_height.
Qed.

(** Records nest at most four levels. *)
Lemma event_height e : (wire_height (event_wire e) <= 4)%nat.
Proof.
  unfold event_wire. apply object_height; [lia|]. apply Forall_app; split; [repeat constructor; cbn; lia|].
  destruct e as [h|t|t|c|e]; cbn [event_fields].
  - pose proof (provenance_height (eh_provenance h)). unfold episode_header_fields. repeat field_height. constructor.
  - pose proof (evidence_height (tn_cache_evidence t)). unfold turn_fields. repeat field_height. constructor.
  - unfold tool_fields. repeat field_height. constructor.
  - eapply Forall_impl; [apply compaction_height|]. cbn. lia.
  - unfold end_fields. repeat field_height. constructor.
Qed.

Lemma cbor_sequence_cons count depth v bytes :
  wire_fits v = true -> (wire_height v <= depth)%nat ->
  cbor_sequence (S count) depth (wire_cbor v ++ bytes) = l ← cbor_sequence count depth bytes; Some (v :: l).
Proof.
  intros Hf Hd. pose proof (cbor_value_decodes v depth bytes Hf Hd) as Hv.
  destruct (wire_cbor v ++ bytes) as [|b rest] eqn:Hb; [by destruct depth|].
  cbn [cbor_sequence]. by rewrite Hv.
Qed.

Lemma cbor_sequence_decodes {A} (wire : A -> Wire) depth l :
  (forall x, (wire_height (wire x) <= depth)%nat) -> forallb (fun x => wire_fits (wire x)) l = true ->
  cbor_sequence (length l) depth (concat (map (fun x => wire_cbor (wire x)) l)) = Some (map wire l).
Proof.
  intros Hd. induction l as [|x l IH]; cbn [forallb length map concat]; [done|].
  intros [Hf Hl]%andb_true_iff. rewrite cbor_sequence_cons by done. by rewrite IH.
Qed.

Lemma cbor_records_wire events : map cbor_record events = map (fun e => wire_cbor (event_wire e)) events.
Proof. apply map_ext. apply write_cbor_wire. Qed.

(** A decoder for definite-length CBOR reads the concatenation of any number of written
    trace records back as exactly their record trees (the trees whose JSON text the JSON Lines
    writer prints): the declared map lengths are right and the sequence needs no other framing.
    *)
Theorem cbor_records_read_back (events : list TraceEvent) :
  forallb (fun e => wire_fits (event_wire e)) events = true ->
  cbor_sequence (length events) 4 (concat (map cbor_record events)) = Some (map event_wire events).
Proof. rewrite cbor_records_wire. apply cbor_sequence_decodes, event_height. Qed.

(** An episode with a turn, a tool call and a compaction. *)
Definition sample_events : list TraceEvent :=
  [EvHeader (mk_episode_header "e1" [("model", "m")] (Some 1700000000000)
     (Some (mk_provenance (Some "s1") (Some "l1") None None None None None None None None)));
   EvTurn (mk_turn_trace 0 "hello" (Some "hi") None None);
   EvTool (mk_tool_trace 0 "call" "read" "{}" None (Some "denied"));
   EvCompaction (mk_compaction_trace "c1" Terminal (Some "manual")
     None None None None None None None None None None None None None None None None None None None None None None None None
     (Some true) None None None None None None None None (Some "installed") (Some 1));
   EvEnd (mk_episode_end EndCompleted None (Some 1700000000500))].

Lemma cbor_records_read_back_witness :
  cbor_sequence 5 4 (concat (map cbor_record sample_events)) = Some (map event_wire sample_events).
Proof. apply (cbor_records_read_back sample_events). vm_compute. reflexivity. Defined.
