(* ===== verification/TraceDecode.v ===== *)
(** * tea-trace: decoding JSON Lines
    ([decode_json_line], [decode_jsonl] in [crates/tea-trace/src/encoding/json.rs])

    A record is parsed by the miniserde package, read field by field and
    accepted only if writing it again gives the same line.  The theorems show
    that an episode that was written is read back. *)

From Stdlib Require Import Ascii.
From stdpp Require Import base gmap list strings pretty.
From S2P Require Import Prelude RustStr Json Ids DecimalProofs WireFields JsonlLog Trace TraceProofs.

Local Open Scope N_scope.

(** [Obj], and the [JsonTraceDecodeError] as its message. *)
Definition Obj : Type := list (string * MiniValue).
Definition TraceDecoded (A : Type) : Type := Outcome string A.

Definition wrong_type (n : string) : string := "field " +:+ n +:+ " has wrong type".

(** The field readers. *)
Definition take_field (o : Obj) (n : string) : TraceDecoded MiniValue := ok_or (btree_get n o) ("missing field " +:+ n).
Definition take_str (o : Obj) (n : string) : TraceDecoded string :=
  let? v := take_field o n in
  match v with MiniString s => Ok s | _ => Err (wrong_type n) end.
Definition take_opt_str (o : Obj) (n : string) : TraceDecoded (option string) :=
  match btree_get n o with
  | None | Some MiniNull => Ok None
  | Some (MiniString s) => Ok (Some s)
  | Some _ => Err (wrong_type n)
  end.
Definition take_u64 (o : Obj) (n : string) : TraceDecoded N :=
  let? v := take_field o n in
  match v with MiniNum (MiniU64 v) => Ok v | _ => Err (wrong_type n) end.
Definition take_opt_u64 (o : Obj) (n : string) : TraceDecoded (option N) :=
  match btree_get n o with
  | None | Some MiniNull => Ok None
  | Some (MiniNum (MiniU64 v)) => Ok (Some v)
  | Some _ => Err (wrong_type n)
  end.
Definition take_opt_bool (o : Obj) (n : string) : TraceDecoded (option bool) :=
  match btree_get n o with
  | None | Some MiniNull => Ok None
  | Some (MiniBool b) => Ok (Some b)
  | Some _ => Err (wrong_type n)
  end.
Definition take_map_str (o : Obj) (n : string) : TraceDecoded (list (string * string)) :=
  let? v := take_field o n in
  match v with
  | MiniObject m =>
      let? l := omap_list (fun kv => match kv.2 with
                                     | MiniString s => Ok (kv.1, s)
                                     | _ => Err "map value has wrong type"
                                     end) m in
      Ok (btree_collect l)
  | _ => Err (wrong_type n)
  end.
Definition take_strings (o : Obj) (n : string) : TraceDecoded (list string) :=
  let? v := take_field o n in
  match v with
  | MiniArray a => omap_list (fun v => match v with MiniString s => Ok s | _ => Err "array value has wrong type" end) a
  | _ => Err (wrong_type n)
  end.
(** The component map of [parse_cache]. *)
Definition take_map_u64 (o : Obj) (n : string) : TraceDecoded (list (string * N)) :=
  let? v := take_field o n in
  match v with
  | MiniObject m =>
      let? l := omap_list (fun kv => match kv.2 with
                                     | MiniNum (MiniU64 v) => Ok (kv.1, v)
                                     | _ => Err "map value has wrong type"
                                     end) m in
      Ok (btree_collect l)
  | _ => Err (wrong_type n)
  end.

(** [u32::try_from]; [usize::try_from] of a [u64] always succeeds. *)
Definition to_u32 (message : string) (v : N) : TraceDecoded N := if v <=? u32_max then Ok v else Err message.
Definition to_opt_u32 (message : string) (v : option N) : TraceDecoded (option N) :=
  match v with Some v => let? v := to_u32 message v in Ok (Some v) | None => Ok None end.

(** [parse_provenance]. *)
Definition parse_provenance (o : Obj) : TraceDecoded (option TraceProvenance) :=
  let? v := take_field o "provenance" in
  match v with
  | MiniNull => Ok None
  | MiniObject p =>
      let? session_id := take_opt_str p "session_id" in
      let? lane_id := take_opt_str p "lane_id" in
      let? agent_id := take_opt_str p "agent_id" in
      let? operation_id := take_opt_str p "operation_id" in
      let? epoch_id := take_opt_str p "epoch_id" in
      let? core_run_id := take_opt_str p "core_run_id" in
      let? harness_snapshot_id := take_opt_str p "harness_snapshot_id" in
      let? harness_revision_id := take_opt_str p "harness_revision_id" in
      let? model_harness_profile_id := take_opt_str p "model_harness_profile_id" in
      let? experiment_id := take_opt_str p "experiment_id" in
      Ok (Some (mk_provenance session_id lane_id agent_id operation_id epoch_id core_run_id harness_snapshot_id harness_revision_id model_harness_profile_id experiment_id))
  | _ => Err "field provenance has wrong type"
  end.

(** [parse_header]. *)
Definition parse_header (o : Obj) : TraceDecoded TraceEvent :=
  let? episode_id := take_str o "episode_id" in
  let? metadata := take_map_str o "metadata" in
  let? started_at_ms := take_opt_u64 o "started_at_ms" in
  let? provenance := parse_provenance o in
  Ok (EvHeader (mk_episode_header episode_id metadata started_at_ms provenance)).

(** [parse_cache]. *)
Definition parse_cache (o : Obj) : TraceDecoded (option CacheEvidence) :=
  let? v := take_field o "cache_evidence" in
  match v with
  | MiniNull => Ok None
  | MiniObject p =>
      let? continuity := take_opt_str p "continuity" in
      let? cache_domain_fingerprint := take_opt_u64 p "cache_domain_fingerprint" in
      let? changed_cache_domain_components := take_strings p "changed_cache_domain_components" in
      let? context_bytes := take_opt_u64 p "context_bytes" in
      let? common_context_prefix_bytes := take_opt_u64 p "common_context_prefix_bytes" in
      let? common_context_prefix_ratio_millionths := take_opt_u64 p "common_context_prefix_ratio_millionths" in
      let? common_context_prefix_ratio_millionths := to_opt_u32 "ratio out of range" common_context_prefix_ratio_millionths in
      let? context_projection_changed := take_opt_bool p "context_projection_changed" in
      let? context_fingerprint := take_opt_u64 p "context_fingerprint" in
      let? system_prompt_fingerprint := take_opt_u64 p "system_prompt_fingerprint" in
      let? tool_definition_fingerprint := take_opt_u64 p "tool_definition_fingerprint" in
      let? tool_order_fingerprint := take_opt_u64 p "tool_order_fingerprint" in
      let? model_fingerprint := take_opt_u64 p "model_fingerprint" in
      let? thinking_fingerprint := take_opt_u64 p "thinking_fingerprint" in
      let? deterministic_common_prefix_bytes := take_opt_u64 p "deterministic_common_prefix_bytes" in
      let? deterministic_common_prefix_tokens_estimate := take_opt_u64 p "deterministic_common_prefix_tokens_estimate" in
      let? provider_cache_read_tokens := take_opt_u64 p "provider_cache_read_tokens" in
      let? provider_cache_write_tokens := take_opt_u64 p "provider_cache_write_tokens" in
      let? serialized_request_bytes := take_opt_u64 p "serialized_request_bytes" in
      let? adapter_cache_domain_fingerprint := take_opt_u64 p "adapter_cache_domain_fingerprint" in
      let? provider_surface_digest := take_opt_str p "provider_surface_digest" in
      let? adapter_cache_domain_components := take_map_u64 p "adapter_cache_domain_components" in
      Ok (Some (mk_evidence continuity cache_domain_fingerprint changed_cache_domain_components context_bytes common_context_prefix_bytes common_context_prefix_ratio_millionths context_projection_changed context_fingerprint system_prompt_fingerprint tool_definition_fingerprint tool_order_fingerprint model_fingerprint thinking_fingerprint deterministic_common_prefix_bytes deterministic_common_prefix_tokens_estimate provider_cache_read_tokens provider_cache_write_tokens serialized_request_bytes adapter_cache_domain_fingerprint adapter_cache_domain_components provider_surface_digest))
  | _ => Err "field cache_evidence has wrong type"
  end.

(** [parse_turn], [parse_tool]. *)
Definition parse_turn (o : Obj) : TraceDecoded TraceEvent :=
  let? index := take_u64 o "index" in
  let? index := to_u32 "index out of range" index in
  let? input := take_str o "input" in
  let? output := take_opt_str o "output" in
  let? stop_reason := take_opt_str o "stop_reason" in
  let? cache_evidence := parse_cache o in
  Ok (EvTurn (mk_turn_trace index input output stop_reason cache_evidence)).
Definition parse_tool (o : Obj) : TraceDecoded TraceEvent :=
  let? turn_index := take_u64 o "turn_index" in
  let? turn_index := to_u32 "turn_index out of range" turn_index in
  let? call_id := take_str o "call_id" in
  let? name := take_str o "name" in
  let? input := take_str o "input" in
  let? output := take_opt_str o "output" in
  let? error := take_opt_str o "error" in
  Ok (EvTool (mk_tool_trace turn_index call_id name input output error)).

(** [parse_end]. *)
Definition end_reason_of (name : string) : EndReason :=
  if String.eqb name "completed" then EndCompleted
  else if String.eqb name "cancelled" then EndCancelled
  else if String.eqb name "failed" then EndFailed
  else if String.eqb name "aborted" then EndAborted
  else EndOther name.
Definition parse_end (o : Obj) : TraceDecoded TraceEvent :=
  let? reason := take_str o "reason" in
  let? error := take_opt_str o "error" in
  let? finished_at_ms := take_opt_u64 o "finished_at_ms" in
  Ok (EvEnd (mk_episode_end (end_reason_of reason) error finished_at_ms)).

(** [parse_compaction]. *)
Definition stage_of (name : string) : option CompactionStage :=
  List.find (fun stage => String.eqb (compaction_stage_name stage) name)
    [Started; SourceSelected; RequestPrepared; ProviderUsageObserved; ReplacementProposed; Terminal;
     PostCompactionRequestObserved].
Definition parse_compaction (o : Obj) : TraceDecoded TraceEvent :=
  let? stage := take_str o "stage" in
  let? stage := ok_or (stage_of stage) "unknown compaction stage" in
  let? compaction_id := take_str o "compaction_id" in
  let? trigger := take_opt_str o "trigger" in
  let? reason := take_opt_str o "reason" in
  let? phase := take_opt_str o "phase" in
  let? strategy_id := take_opt_str o "strategy_id" in
  let? strategy_schema_version := take_opt_u64 o "strategy_schema_version" in
  let? strategy_schema_version := to_opt_u32 "number out of range" strategy_schema_version in
  let? request_layout := take_opt_str o "request_layout" in
  let? prompt_fingerprint := take_opt_u64 o "prompt_fingerprint" in
  let? source_history_revision := take_opt_u64 o "source_history_revision" in
  let? attempt := take_opt_u64 o "attempt" in
  let? attempt := to_opt_u32 "number out of range" attempt in
  let? automatic_ordinal := take_opt_u64 o "automatic_ordinal" in
  let? automatic_ordinal := to_opt_u32 "number out of range" automatic_ordinal in
  let? overflow_retry_ordinal := take_opt_u64 o "overflow_retry_ordinal" in
  let? overflow_retry_ordinal := to_opt_u32 "number out of range" overflow_retry_ordinal in
  let? retry_provider_request := take_opt_bool o "retry_provider_request" in
  let? source_message_count := take_opt_u64 o "source_message_count" in
  let? source_message_bytes := take_opt_u64 o "source_message_bytes" in
  let? retained_message_count := take_opt_u64 o "retained_message_count" in
  let? retained_suffix_bytes := take_opt_u64 o "retained_suffix_bytes" in
  let? tool_result_bytes := take_opt_u64 o "tool_result_bytes" in
  let? compactor_context_bytes := take_opt_u64 o "compactor_context_bytes" in
  let? compactor_tool_count := take_opt_u64 o "compactor_tool_count" in
  let? tools_execution_prohibited := take_opt_bool o "tools_execution_prohibited" in
  let? source_is_active_context_prefix := take_opt_bool o "source_is_active_context_prefix" in
  let? replacement_message_count := take_opt_u64 o "replacement_message_count" in
  let? replacement_bytes := take_opt_u64 o "replacement_bytes" in
  let? estimated_context_tokens_after := take_opt_u64 o "estimated_context_tokens_after" in
  let? headroom_tokens := take_opt_u64 o "headroom_tokens" in
  let? structural_validation_passed := take_opt_bool o "structural_validation_passed" in
  let? retained_suffix_exact := take_opt_bool o "retained_suffix_exact" in
  let? source_generation_matches := take_opt_bool o "source_generation_matches" in
  let? provider_input_tokens := take_opt_u64 o "provider_input_tokens" in
  let? provider_output_tokens := take_opt_u64 o "provider_output_tokens" in
  let? provider_cache_read_tokens := take_opt_u64 o "provider_cache_read_tokens" in
  let? provider_cache_write_tokens := take_opt_u64 o "provider_cache_write_tokens" in
  let? serialized_request_bytes := take_opt_u64 o "serialized_request_bytes" in
  let? cache_domain_fingerprint := take_opt_u64 o "cache_domain_fingerprint" in
  let? terminal_outcome := take_opt_str o "terminal_outcome" in
  let? post_compaction_turn_index := take_opt_u64 o "post_compaction_turn_index" in
  let? post_compaction_turn_index := to_opt_u32 "number out of range" post_compaction_turn_index in
  Ok (EvCompaction (mk_compaction_trace compaction_id stage trigger reason phase strategy_id strategy_schema_version request_layout prompt_fingerprint source_history_revision attempt automatic_ordinal overflow_retry_ordinal retry_provider_request source_message_count source_message_bytes retained_message_count retained_suffix_bytes tool_result_bytes compactor_context_bytes compactor_tool_count tools_execution_prohibited source_is_active_context_prefix replacement_message_count replacement_bytes estimated_context_tokens_after headroom_tokens structural_validation_passed retained_suffix_exact source_generation_matches provider_input_tokens provider_output_tokens provider_cache_read_tokens provider_cache_write_tokens serialized_request_bytes cache_domain_fingerprint terminal_outcome post_compaction_turn_index)).

Section decode.
Context `{Miniserde}.

(** The dispatch of [decode_json_line]. *)
Definition parse_event (object : Obj) : TraceDecoded TraceEvent :=
  let? schema := take_u64 object "schema_version" in
  if negb (schema =? TRACE_SCHEMA_VERSION) then Err "unsupported trace schema version" else
  let? kind := take_str object "type" in
  if String.eqb kind "episode_header" then parse_header object
  else if String.eqb kind "turn" then parse_turn object
  else if String.eqb kind "tool" then parse_tool object
  else if String.eqb kind "compaction" then parse_compaction object
  else if String.eqb kind "episode_end" then parse_end object
  else Err "unknown trace record type".

(** [decode_json_line]. *)
Definition decode_json_line (line : string) : TraceDecoded TraceEvent :=
  let? value := ok_or (mini_from_str line) "invalid JSON trace record" in
  let? object := match value with MiniObject o => Ok o | _ => Err "trace record is not an object" end in
  let? event := parse_event object in
  if bool_decide (write_json_event event = bytes_of line) then Ok event
  else Err "non-canonical or extra trace fields".

Definition line_feed : ascii := ascii_of_byte 10.

(** The lifecycle test of [decode_jsonl]. *)
Definition valid_episode (events : list TraceEvent) : bool :=
  match head events with Some e => is_header_event e | None => false end
  && match last events with Some e => is_terminal_event e | None => false end
  && negb (existsb is_header_event (drop 1 events))
  && negb (existsb is_terminal_event (take (length events - 1) events)).

(** [decode_jsonl]. *)
Definition decode_jsonl (input : string) : TraceDecoded (list TraceEvent) :=
  if str_is_empty input then Err "empty trace" else
  let? events := omap_list decode_json_line (List.filter (fun line => negb (str_is_empty line)) (str_split line_feed input)) in
  if valid_episode events then Ok events else Err "invalid episode lifecycle".
End decode.

(** ** The parsed tree *)

Fixpoint wire_mini (v : Wire) : MiniValue :=
  match v with
  | WNull => MiniNull
  | WBool b => MiniBool b
  | WNum n => MiniNum (MiniU64 n)
  | WStr s => MiniString s
  | WArr l => MiniArray (map wire_mini l)
  | WObj l => MiniObject (btree_collect (map (fun kv => (kv.1, wire_mini kv.2)) l))
  end.

(** The object of a list of fields. *)
Definition mini_object (l : list (string * Wire)) : Obj := btree_collect (map (fun kv => (kv.1, wire_mini kv.2)) l).

Lemma assoc_last_map {V W} (f : V -> W) k l :
  assoc_last k (map (fun kv => (kv.1, f kv.2)) l) = f <$> assoc_last k l.
Proof.
  induction l as [|[k' v] l IH]; cbn [map assoc_last fst snd]; [done|]. rewrite IH.
  destruct (assoc_last k l); [done|]. by destruct (String.eqb k k').
Qed.

Lemma get_mini_object k l : btree_get k (mini_object l) = wire_mini <$> assoc_last k l.
Proof. unfold mini_object. by rewrite btree_get_collect, assoc_last_map. Qed.

(** ** The readers *)

Section readers.
Context (l : list (string * Wire)) (k : string).
Implicit Types (v : Wire) (s : string) (n : N).

Lemma take_field_at v : assoc_last k l = Some v -> take_field (mini_object l) k = Ok (wire_mini v).
Proof. intros Ha. unfold take_field. by rewrite get_mini_object, Ha. Qed.
Lemma take_str_at s : assoc_last k l = Some (WStr s) -> take_str (mini_object l) k = Ok s.
Proof. intros Ha. unfold take_str. by rewrite (take_field_at _ Ha). Qed.
Lemma take_u64_at n : assoc_last k l = Some (WNum n) -> take_u64 (mini_object l) k = Ok n.
Proof. intros Ha. unfold take_u64. by rewrite (take_field_at _ Ha). Qed.

(** An absent optional field reads like a written null. *)
Lemma take_opt_str_at o :
  assoc_last k l = Some (wire_text o) \/ assoc_last k l = WStr <$> o -> take_opt_str (mini_object l) k = Ok o.
Proof. unfold take_opt_str. rewrite get_mini_object. intros [-> | ->]; by destruct o. Qed.
Lemma take_opt_u64_at o :
  assoc_last k l = Some (wire_number o) \/ assoc_last k l = WNum <$> o -> take_opt_u64 (mini_object l) k = Ok o.
Proof. unfold take_opt_u64. rewrite get_mini_object. intros [-> | ->]; by destruct o. Qed.
Lemma take_opt_bool_at o :
  assoc_last k l = Some (wire_bool o) \/ assoc_last k l = WBool <$> o -> take_opt_bool (mini_object l) k = Ok o.
Proof. unfold take_opt_bool. rewrite get_mini_object. intros [-> | ->]; by destruct o. Qed.

Lemma take_strings_at ss : assoc_last k l = Some (WArr (map WStr ss)) -> take_strings (mini_object l) k = Ok ss.
Proof.
  intros Ha. unfold take_strings. rewrite (take_field_at _ Ha). cbn [obind wire_mini]. clear Ha.
  induction ss as [|s ss IH]; cbn [map omap_list wire_mini obind]; [done|]. by rewrite IH.
Qed.
End readers.

(** A map read back entry by entry. *)
Lemma omap_list_entries {V} (f : string * MiniValue -> TraceDecoded (string * V)) (g : V -> MiniValue) m :
  (forall k x, f (k, g x) = Ok (k, x)) -> omap_list f (map (fun kv => (kv.1, g kv.2)) m) = Ok m.
Proof.
  intros Hf. induction m as [|[k x] m IH]; cbn [map omap_list fst snd]; [done|]. rewrite Hf. cbn [obind]. by rewrite IH.
Qed.

Lemma btree_wf_map {V W} (f : V -> W) (l : list (string * V)) : btree_wf l -> btree_wf (map (fun kv => (kv.1, f kv.2)) l).
Proof.
  induction 1 as [|[k v] l Hl IH Hk]; cbn [map]; constructor; [done|].
  apply Forall_map. eapply Forall_impl; [exact Hk|]. by intros [k' v'].
Qed.

Lemma take_map_str_at l k m :
  btree_wf m -> assoc_last k l = Some (WObj (map (fun kv => (kv.1, WStr kv.2)) m)) ->
  take_map_str (mini_object l) k = Ok m.
Proof.
  intros Hm Ha. unfold take_map_str. rewrite (take_field_at _ _ _ Ha). cbn [obind wire_mini].
  rewrite map_map. cbn [fst snd wire_mini]. rewrite btree_collect_sorted by by apply (btree_wf_map MiniString).
  rewrite (omap_list_entries _ MiniString) by done. cbn [obind]. by rewrite btree_collect_sorted.
Qed.
Lemma take_map_u64_at l k m :
  btree_wf m -> assoc_last k l = Some (WObj (map (fun kv => (kv.1, WNum kv.2)) m)) ->
  take_map_u64 (mini_object l) k = Ok m.
Proof.
  intros Hm Ha. unfold take_map_u64. rewrite (take_field_at _ _ _ Ha). cbn [obind wire_mini].
  rewrite map_map. cbn [fst snd wire_mini]. rewrite btree_collect_sorted by by apply (btree_wf_map (fun n => MiniNum (MiniU64 n))).
  rewrite (omap_list_entries _ (fun n => MiniNum (MiniU64 n))) by done. cbn [obind]. by rewrite btree_collect_sorted.
Qed.

(** ** Optional fields left out *)

(** A record as a table in which absent fields have no value. *)
Definition flatten (table : list (string * option Wire)) : list (string * Wire) :=
  concat (map (fun row => present row.1 id row.2) table).

Lemma flatten_names k table : k ∉ map fst table -> assoc_last k (flatten table) = None.
Proof.
  unfold flatten. induction table as [|[k' [v|]] table IH]; cbn [map concat present fst snd app assoc_last]; [done|..];
    intros [Hk Ht]%not_elem_of_cons; [|by apply IH].
  rewrite IH by done. by apply String.eqb_neq in Hk as ->.
Qed.

(** With distinct names, the value of a name is its row. *)
Lemma assoc_flatten k o table :
  NoDup (map fst table) -> (k, o) ∈ table -> assoc_last k (flatten table) = o.
Proof.
  induction table as [|[k' o'] table IH]; [by intros _ ?%not_elem_of_nil|].
  cbn [map fst]. intros [Hk Ht]%NoDup_cons [[= -> ->]|Hin]%elem_of_cons.
  - unfold flatten. cbn [map concat]. pose proof (flatten_names _ _ Hk) as Hnone. unfold flatten in Hnone.
    destruct o' as [v|]; cbn [present fst snd app assoc_last]; rewrite Hnone; [|done]. by rewrite String.eqb_refl.
  - specialize (IH Ht Hin). assert (k <> k') as Hne.
    { intros ->. apply Hk. apply list_elem_of_fmap. by exists (k', o). }
    unfold flatten in *. cbn [map concat]. destruct o' as [v|]; cbn [present fst snd app assoc_last]; [|done].
    rewrite IH. apply String.eqb_neq in Hne as ->. by destruct o.
Qed.

Lemma present_row {A} name (wire : A -> Wire) o : present name wire o = present name id (wire <$> o).
Proof. by destruct o. Qed.

(** The table of a compaction record. *)
Definition compaction_table (c : CompactionTrace) : list (string * option Wire) :=
  [("schema_version", Some (WNum TRACE_SCHEMA_VERSION));
   ("type", Some (WStr "compaction"));
   ("compaction_id", Some (WStr (ct_compaction_id c)));
   ("stage", Some (WStr (compaction_stage_name (ct_stage c))));
   ("trigger", WStr <$> ct_trigger c);
   ("reason", WStr <$> ct_reason c);
   ("phase", WStr <$> ct_phase c);
   ("strategy_id", WStr <$> ct_strategy_id c);
   ("strategy_schema_version", WNum <$> ct_strategy_schema_version c);
   ("request_layout", WStr <$> ct_request_layout c);
   ("prompt_fingerprint", WNum <$> ct_prompt_fingerprint c);
   ("source_history_revision", WNum <$> ct_source_history_revision c);
   ("attempt", WNum <$> ct_attempt c);
   ("automatic_ordinal", WNum <$> ct_automatic_ordinal c);
   ("overflow_retry_ordinal", WNum <$> ct_overflow_retry_ordinal c);
   ("retry_provider_request", WBool <$> ct_retry_provider_request c);
   ("source_message_count", WNum <$> ct_source_message_count c);
   ("source_message_bytes", WNum <$> ct_source_message_bytes c);
   ("retained_message_count", WNum <$> ct_retained_message_count c);
   ("retained_suffix_bytes", WNum <$> ct_retained_suffix_bytes c);
   ("tool_result_bytes", WNum <$> ct_tool_result_bytes c);
   ("compactor_context_bytes", WNum <$> ct_compactor_context_bytes c);
   ("compactor_tool_count", WNum <$> ct_compactor_tool_count c);
   ("tools_execution_prohibited", WBool <$> ct_tools_execution_prohibited c);
   ("source_is_active_context_prefix", WBool <$> ct_source_is_active_context_prefix c);
   ("replacement_message_count", WNum <$> ct_replacement_message_count c);
   ("replacement_bytes", WNum <$> ct_replacement_bytes c);
   ("estimated_context_tokens_after", WNum <$> ct_estimated_context_tokens_after c);
   ("headroom_tokens", WNum <$> ct_headroom_tokens c);
   ("structural_validation_passed", WBool <$> ct_structural_validation_passed c);
   ("retained_suffix_exact", WBool <$> ct_retained_suffix_exact c);
   ("source_generation_matches", WBool <$> ct_source_generation_matches c);
   ("provider_input_tokens", WNum <$> ct_provider_input_tokens c);
   ("provider_output_tokens", WNum <$> ct_provider_output_tokens c);
   ("provider_cache_read_tokens", WNum <$> ct_provider_cache_read_tokens c);
   ("provider_cache_write_tokens", WNum <$> ct_provider_cache_write_tokens c);
   ("serialized_request_bytes", WNum <$> ct_serialized_request_bytes c);
   ("cache_domain_fingerprint", WNum <$> ct_cache_domain_fingerprint c);
   ("terminal_outcome", WStr <$> ct_terminal_outcome c);
   ("post_compaction_turn_index", WNum <$> ct_post_compaction_turn_index c)].

Lemma compaction_flatten c :
  [("schema_version", WNum TRACE_SCHEMA_VERSION); ("type", WStr "compaction")] ++ compaction_fields c
    = flatten (compaction_table c).
Proof.
  unfold compaction_fields, flatten, compaction_table. rewrite !(present_row _ WStr), !(present_row _ WNum), !(present_row _ WBool). cbn [map concat fst snd].
  by rewrite app_nil_r.
Qed.

Lemma compaction_names c : NoDup (map fst (compaction_table c)).
Proof.
  assert (map fst (compaction_table c) = map fst (compaction_table
    (mk_compaction_trace "" Started None None None None None None None None None None None None None None None None None None None None None None None None None None None None None None None None None None None None))) as -> by reflexivity.
  apply (bool_decide_unpack _). vm_compute. exact I.
Qed.

(** The value of a compaction field. *)
Lemma compaction_at c k o :
  (k, o) ∈ compaction_table c ->
  assoc_last k ([("schema_version", WNum TRACE_SCHEMA_VERSION); ("type", WStr "compaction")] ++ compaction_fields c) = o.
Proof. rewrite compaction_flatten. apply assoc_flatten, compaction_names. Qed.

(** ** Records *)

(** [u32] fields hold [u32] values, and maps are ordered by key. *)
Definition opt_u32 (o : option N) : bool := match o with Some n => n <=? u32_max | None => true end.
Definition evidence_typed (e : CacheEvidence) : bool :=
  opt_u32 (ce_common_context_prefix_ratio_millionths e) && keys_sorted (map fst (ce_adapter_cache_domain_components e)).
Definition event_typed (e : TraceEvent) : bool :=
  match e with
  | EvHeader h => keys_sorted (map fst (eh_metadata h))
  | EvTurn t => (tn_index t <=? u32_max) && match tn_cache_evidence t with Some e => evidence_typed e | None => true end
  | EvTool t => tl_turn_index t <=? u32_max
  | EvCompaction c =>
      opt_u32 (ct_strategy_schema_version c)
      && opt_u32 (ct_attempt c)
      && opt_u32 (ct_automatic_ordinal c)
      && opt_u32 (ct_overflow_retry_ordinal c)
      && opt_u32 (ct_post_compaction_turn_index c)
  | EvEnd _ => true
  end.

(** The reason a named value reads as. *)
Definition normal_event (e : TraceEvent) : TraceEvent :=
  match e with
  | EvEnd e => EvEnd (mk_episode_end (end_reason_of (end_reason_name (ee_reason e))) (ee_error e) (ee_finished_at_ms e))
  | e => e
  end.

Lemma obind_step {X A B} (m : Outcome X A) x (f : A -> Outcome X B) r : m = Ok x -> f x = r -> obind m f = r.
Proof. intros -> <-. done. Qed.

Lemma to_u32_ok message n : (n <=? u32_max) = true -> to_u32 message n = Ok n.
Proof. unfold to_u32. by intros ->. Qed.
Lemma to_opt_u32_ok message o : opt_u32 o = true -> to_opt_u32 message o = Ok o.
Proof. destruct o as [n|]; [|done]. cbn [opt_u32 to_opt_u32]. intros Hn. by rewrite to_u32_ok. Qed.

Lemma stage_of_name s : stage_of (compaction_stage_name s) = Some s.
Proof. by destruct s. Qed.

(** One field of a record with a fixed list of fields. *)
Ltac take_step := eapply obind_step;
  [first [eapply take_str_at; reflexivity | eapply take_u64_at; reflexivity | eapply take_opt_str_at; left; reflexivity
    | eapply take_opt_u64_at; left; reflexivity | eapply take_opt_bool_at; left; reflexivity
    | eapply take_strings_at; reflexivity | apply to_u32_ok; done | apply to_opt_u32_ok; done]|].

Lemma parse_provenance_at l o :
  assoc_last "provenance" l = Some (provenance_wire o) -> parse_provenance (mini_object l) = Ok o.
Proof.
  intros Ha. unfold parse_provenance. rewrite (take_field_at _ _ _ Ha). clear Ha. destruct o as [p|]; [|done].
  cbn [provenance_wire wire_mini obind].
  change (btree_collect _) with (mini_object (map (fun nv => (nv.1, wire_text nv.2)) (provenance_fields p))).
  repeat take_step. by destruct p.
Qed.

Lemma parse_cache_at l o :
  match o with Some e => evidence_typed e = true | None => True end ->
  assoc_last "cache_evidence" l = Some (evidence_wire o) -> parse_cache (mini_object l) = Ok o.
Proof.
  intros Ht Ha. unfold parse_cache. rewrite (take_field_at _ _ _ Ha). clear Ha. destruct o as [e|]; [|done].
  apply andb_true_iff in Ht as [Hratio Hkeys].
  cbn [evidence_wire wire_mini obind]. change (btree_collect _) with (mini_object (evidence_fields e)).
  repeat take_step. eapply obind_step; [eapply take_map_u64_at; [by apply keys_sorted_wf|reflexivity]|]. by destruct e.
Qed.

(** The fields every record starts with. *)
Definition record_fields (e : TraceEvent) : list (string * Wire) :=
  [("schema_version", WNum TRACE_SCHEMA_VERSION); ("type", WStr (event_type e))] ++ event_fields e.

Lemma parse_header_at h :
  event_typed (EvHeader h) = true -> parse_header (mini_object (record_fields (EvHeader h))) = Ok (EvHeader h).
Proof.
  intros Ht. unfold parse_header. take_step.
  eapply obind_step; [eapply take_map_str_at; [by apply keys_sorted_wf|reflexivity]|].
  take_step. eapply obind_step; [by eapply parse_provenance_at|]. by destruct h.
Qed.
Lemma parse_turn_at t :
  event_typed (EvTurn t) = true -> parse_turn (mini_object (record_fields (EvTurn t))) = Ok (EvTurn t).
Proof.
  intros [Hi Ht]%andb_true_iff. unfold parse_turn. repeat take_step.
  eapply obind_step; [eapply parse_cache_at; [|reflexivity]; by destruct (tn_cache_evidence t)|]. by destruct t.
Qed.
Lemma parse_tool_at t :
  event_typed (EvTool t) = true -> parse_tool (mini_object (record_fields (EvTool t))) = Ok (EvTool t).
Proof. intros Ht. cbn in Ht. unfold parse_tool. repeat take_step. by destruct t. Qed.
Lemma parse_end_at e : parse_end (mini_object (record_fields (EvEnd e))) = Ok (normal_event (EvEnd e)).
Proof. unfold parse_end. repeat take_step. done. Qed.

Ltac table_row := unfold compaction_table; repeat first [apply list_elem_of_here | apply list_elem_of_further].
Ltac compaction_step := eapply obind_step;
  [first [eapply take_str_at; apply compaction_at; table_row
    | eapply take_opt_str_at; right; apply compaction_at; table_row
    | eapply take_opt_u64_at; right; apply compaction_at; table_row
    | eapply take_opt_bool_at; right; apply compaction_at; table_row
    | apply to_opt_u32_ok; done]|].

Lemma parse_compaction_at c :
  event_typed (EvCompaction c) = true ->
  parse_compaction (mini_object (record_fields (EvCompaction c))) = Ok (EvCompaction c).
Proof.
  intros Ht. cbn [event_typed] in Ht. rewrite !andb_true_iff in Ht. destruct Ht as ((((Hv & Ha) & Hau) & Ho) & Hp).
  unfold parse_compaction. compaction_step. eapply obind_step; [by rewrite stage_of_name|].
  repeat compaction_step. by destruct c.
Qed.

(** ** The text of a record *)

Definition printable (b : N) : bool := (32 <=? b) && (b <? 256).

Lemma printable_spec b : printable b = true <-> 32 <= b < 256.
Proof. unfold printable. rewrite andb_true_iff, N.leb_le, N.ltb_lt. done. Qed.

Lemma escape_printable b : b < 256 -> forallb printable (json_escape b) = true.
Proof. apply (byte_forall (fun b => forallb printable (json_escape b))). vm_compute. done. Qed.

Lemma forallb_concat_map {A B} (p : B -> bool) (f : A -> list B) l :
  (forall x, x ∈ l -> forallb p (f x) = true) -> forallb p (concat (map f l)) = true.
Proof.
  intros Hf. induction l as [|x l IH]; cbn [map concat]; [done|]. rewrite forallb_app, Hf by (by left).
  apply IH. intros y Hy. apply Hf. by right.
Qed.

Lemma json_string_printable s : forallb printable (json_string s) = true.
Proof.
  unfold json_string. cbn [forallb]. rewrite forallb_app, forallb_concat_map; [done|].
  intros b Hb. apply escape_printable. by apply (proj1 (Forall_forall _ _) (bytes_of_bound s)).
Qed.

Lemma digit_printable x : printable (byte_of (pretty_N_char x)) = true.
Proof. unfold pretty_N_char. by repeat case_match. Qed.

Lemma decimal_printable n : forallb printable (json_decimal n) = true.
Proof.
  assert (forall x s, forallb printable (bytes_of s) = true -> forallb printable (bytes_of (pretty_N_go x s)) = true) as Hgo.
  { intros x. induction (N.lt_wf_0 x) as [x _ IH]; intros s Hs. destruct (decide (x = 0)) as [->|Hx].
    - by rewrite pretty_N_go_0.
    - rewrite pretty_N_go_step by lia. apply IH; [apply N.div_lt; lia|].
      change (printable (byte_of (pretty_N_char (x mod 10))) && forallb printable (bytes_of s) = true).
      by rewrite digit_printable. }
  unfold json_decimal, pretty, pretty_N. case_decide; [done|]. by apply Hgo.
Qed.

Lemma separated_printable l : forallb (forallb printable) l = true -> forallb printable (separated l) = true.
Proof.
  induction l as [|x [|y l] IH]; [done|cbn; by rewrite andb_true_r|].
  change (separated (x :: y :: l)) with (x ++ comma ++ separated (y :: l)).
  intros [Hx Hl]%andb_true_iff. rewrite !forallb_app, Hx, IH by done. done.
Qed.

Lemma forallb_map_elem {A B} (p : B -> bool) (f : A -> B) l :
  (forall x, x ∈ l -> p (f x) = true) -> forallb p (map f l) = true.
Proof. intros Hf. rewrite forallb_elem. intros y (x & -> & Hx)%list_elem_of_fmap. by apply Hf. Qed.

(** A record is one line of text. *)
Lemma wire_json_printable v : forallb printable (wire_json v) = true.
Proof.
  induction v as [|b|n|s|l IH|l IH] using wire_ind'; cbn [wire_json]; try rewrite Forall_forall in IH.
  - done.
  - by destruct b.
  - apply decimal_printable.
  - apply json_string_printable.
  - cbn [forallb]. rewrite forallb_app, separated_printable; [done|]. by apply forallb_map_elem.
  - cbn [forallb]. rewrite forallb_app, separated_printable; [done|]. apply forallb_map_elem. intros kv Hkv.
    unfold json_field_name. rewrite !forallb_app, json_string_printable, IH by done. done.
Qed.

Lemma record_printable e : forallb printable (write_json_event e) = true.
Proof. rewrite write_json_wire. apply wire_json_printable. Qed.

(** The line of an event as text. *)
Definition event_line (e : TraceEvent) : string := string_of_bytes (write_json_event e).

Lemma printable_bound l : forallb printable l = true -> Forall (fun b => b < 256) l.
Proof. rewrite forallb_elem, Forall_forall. intros Hl b Hb. by apply Hl, printable_spec in Hb as []. Qed.
Lemma bytes_of_event_line e : bytes_of (event_line e) = write_json_event e.
Proof. apply bytes_of_string_of_bytes, printable_bound, record_printable. Qed.

(** ** One line *)

Lemma end_reason_of_name name : end_reason_name (end_reason_of name) = name.
Proof. unfold end_reason_of. by repeat match goal with |- context [String.eqb ?x ?y] => destruct (String.eqb_spec x y) as [->|] end. Qed.
Lemma end_reason_written e : write_json_event (normal_event e) = write_json_event e.
Proof.
  destruct e as [h|t|t|c|e]; try done. unfold write_json_event. cbn [normal_event event_type]. unfold write_json_end.
  cbn [ee_reason ee_error ee_finished_at_ms]. by rewrite end_reason_of_name.
Qed.

Lemma parse_event_at e :
  event_typed e = true -> parse_event (mini_object (record_fields e)) = Ok (normal_event e).
Proof.
  intros Ht. unfold parse_event.
  assert (assoc_last "schema_version" (record_fields e) = Some (WNum TRACE_SCHEMA_VERSION)
          /\ assoc_last "type" (record_fields e) = Some (WStr (event_type e))) as [Hs Hk].
  { destruct e as [h|t|t|c|e]; try done. split; apply (compaction_at c); table_row. }
  rewrite (take_u64_at _ _ _ Hs), (take_str_at _ _ _ Hk). cbn [obind]. destruct e as [h|t|t|c|e]; cbn [event_type].
  - by apply parse_header_at.
  - by apply parse_turn_at.
  - by apply parse_tool_at.
  - by apply parse_compaction_at.
  - apply parse_end_at.
Qed.

Section lines.
Context `{Miniserde}.

(** The parser gives the tree of a written record. *)
Definition parses_record (e : TraceEvent) : Prop := mini_from_str (event_line e) = Some (wire_mini (event_wire e)).

Lemma decode_json_line_written e :
  event_typed e = true -> parses_record e -> decode_json_line (event_line e) = Ok (normal_event e).
Proof.
  intros Ht Hp. unfold decode_json_line. rewrite Hp. cbn [ok_or obind event_wire wire_mini].
  change (btree_collect _) with (mini_object (record_fields e)). rewrite parse_event_at by done. cbn [obind].
  rewrite bool_decide_eq_true_2; [done|]. by rewrite end_reason_written, bytes_of_event_line.
Qed.

(** Only the canonical line of an event is accepted. *)
Lemma decode_json_line_canonical line e : decode_json_line line = Ok e -> line = event_line e.
Proof.
  unfold decode_json_line. intros (value & _ & Hd)%obind_Ok_inv. apply obind_Ok_inv in Hd as (object & _ & Hd).
  apply obind_Ok_inv in Hd as (event & _ & Hd). case_bool_decide as Hw; [|done]. injection Hd as <-.
  unfold event_line. by rewrite Hw, string_of_bytes_of.
Qed.
End lines.

(** ** Episodes *)

Lemma str_split_line c s rest :
  str_contains c s = false -> str_split c (s +:+ String c rest) = s :: str_split c rest.
Proof.
  induction s as [|a s IH]; intros Hs.
  - change (str_split c (String c rest) = EmptyString :: str_split c rest). cbn [str_split].
    by rewrite Ascii.eqb_refl.
  - cbn [str_contains] in Hs. apply orb_false_iff in Hs as [Ha Hs].
    change (str_split c (String a (s +:+ String c rest)) = String a s :: str_split c rest). cbn [str_split].
    by rewrite Ha, IH.
Qed.

Lemma event_line_one_line e : str_contains line_feed (event_line e) = false.
Proof.
  apply not_true_iff_false. intros Hc%str_contains_bytes. rewrite bytes_of_event_line in Hc.
  pose proof (record_printable e) as Hp. rewrite forallb_elem in Hp. apply Hp, printable_spec in Hc.
  cbn in Hc. lia.
Qed.
Lemma event_line_not_empty e : str_is_empty (event_line e) = false.
Proof. done. Qed.

(** The text [JsonLinesSink] writes. *)
Definition jsonl_text (events : list TraceEvent) : string := string_of_bytes (concat (map json_line_record events)).

Lemma jsonl_text_cons e events : jsonl_text (e :: events) = event_line e +:+ String line_feed (jsonl_text events).
Proof.
  unfold jsonl_text, json_line_record. cbn [map concat]. by rewrite <-app_assoc, string_of_bytes_app.
Qed.

Lemma jsonl_text_lines events :
  List.filter (fun line => negb (str_is_empty line)) (str_split line_feed (jsonl_text events)) = map event_line events.
Proof.
  induction events as [|e events IH]; [done|].
  rewrite jsonl_text_cons, str_split_line by apply event_line_one_line. cbn [List.filter map].
  by rewrite event_line_not_empty, IH.
Qed.

Lemma existsb_pointwise {A} (p q : A -> bool) l : (forall x, p x = q x) -> existsb p l = existsb q l.
Proof. intros Hpq. induction l as [|x l IH]; cbn; [done|]. by rewrite Hpq, IH. Qed.
Lemma existsb_map {A B} (p : B -> bool) (f : A -> B) l : existsb p (map f l) = existsb (fun x => p (f x)) l.
Proof. induction l as [|x l IH]; cbn; [done|]. by rewrite IH. Qed.

Lemma valid_episode_normal events : valid_episode (map normal_event events) = valid_episode events.
Proof.
  assert (forall e, is_header_event (normal_event e) = is_header_event e) as Hh by (by intros []).
  assert (forall e, is_terminal_event (normal_event e) = is_terminal_event e) as Ht by (by intros []).
  unfold valid_episode. rewrite length_map, skipn_map, firstn_map, !existsb_map.
  rewrite (existsb_pointwise _ _ _ Hh), (existsb_pointwise _ _ _ Ht). f_equal. f_equal. f_equal.
  - destruct events as [|e l]; [done|]. apply Hh.
  - change (map normal_event events) with (normal_event <$> events). rewrite fmap_last.
    destruct (last events); [apply Ht|done].
Qed.

(** A header, records that are neither header nor end, an end. *)
Lemma valid_episode_shape events :
  valid_episode events = true ->
  exists header body end_, events = EvHeader header :: body ++ [EvEnd end_]
    /\ forallb (fun e => negb (is_header_event e) && negb (is_terminal_event e)) body = true.
Proof.
  unfold valid_episode. rewrite !andb_true_iff, !negb_true_iff. intros (((Hh & Ht) & Hhs) & Hts).
  destruct events as [|e l]; [done|]. destruct e as [header| | | |]; try done.
  destruct l as [|x l _] using rev_ind; [done|]. rewrite app_comm_cons, last_snoc in Ht.
  destruct x as [| | | |end_]; try done. exists header, l, end_. split; [done|].
  change (existsb is_header_event (l ++ [EvEnd end_]) = false) in Hhs. rewrite existsb_app in Hhs. apply orb_false_iff in Hhs as [Hhs _].
  rewrite app_comm_cons, length_app, Nat.add_sub, take_app_length in Hts. cbn [existsb] in Hts.
  apply orb_false_iff in Hts as [_ Hts]. apply forallb_elem. intros e He.
  rewrite <-not_true_iff_false, existsb_exists in Hhs, Hts. apply list_elem_of_In in He.
  destruct e; try done; exfalso; eauto.
Qed.

Lemma omap_list_lines {X A B C} (f : B -> Outcome X C) (h : A -> C) (g : A -> B) l :
  (forall x, x ∈ l -> f (g x) = Ok (h x)) -> omap_list f (map g l) = Ok (map h l).
Proof.
  intros Hf. induction l as [|x l IH]; cbn [map omap_list]; [done|]. rewrite Hf by (by left). cbn [obind].
  rewrite IH; [done|]. intros y Hy. apply Hf. by right.
Qed.

Section episodes.
Context `{Miniserde}.

(** When the JSON parser returns the tree of each written line, the JSON Lines text of an
    episode in lifecycle order decodes to the same events, an end reason spelled like a standard
    one becoming that reason; no field of any record kind is lost or mixed up. *)
Theorem written_episode_decodes (events : list TraceEvent) :
  valid_episode events = true -> forallb event_typed events = true ->
  (forall e, e ∈ events -> parses_record e) ->
  decode_jsonl (jsonl_text events) = Ok (map normal_event events).
Proof.
  intros Hv Ht Hp. unfold decode_jsonl. destruct events as [|e events]; [done|].
  rewrite jsonl_text_lines, (omap_list_lines _ normal_event).
  - cbn [obind]. by rewrite valid_episode_normal, Hv.
  - intros e' He'. apply decode_json_line_written; [|by apply Hp]. rewrite forallb_elem in Ht. by apply Ht.
Qed.

(** Whatever the JSON parser does, an accepted trace consists of one header, records that
    are neither header nor end, and one end, and its non-empty lines are byte for byte the
    canonical lines of the returned events. *)
Theorem decoded_episode_canonical (input : string) (events : list TraceEvent) :
  decode_jsonl input = Ok events ->
  (exists header body end_, events = EvHeader header :: body ++ [EvEnd end_]
    /\ forallb (fun e => negb (is_header_event e) && negb (is_terminal_event e)) body = true)
  /\ List.filter (fun line => negb (str_is_empty line)) (str_split line_feed input) = map event_line events.
Proof.
  unfold decode_jsonl. case_match; [done|]. intros (es & Hes & Hv)%obind_Ok_inv. case_match eqn:Hvalid; [|done].
  injection Hv as ->. split; [by apply valid_episode_shape|]. apply omap_list_Forall2 in Hes.
  revert Hes. generalize (List.filter (fun line => negb (str_is_empty line)) (str_split line_feed input)). clear.
  induction 1 as [|line e lines es Hd Hl IH]; cbn [map]; [done|]. f_equal; [by apply decode_json_line_canonical|done].
Qed.
End episodes.

(** ** Sinks *)

Section sinks.
Context {S X : Type} (inner : TraceSink S X).

(** The wrapped sink after [events], and how many of them it refused. *)
Fixpoint sink_run (s : S) (events : list TraceEvent) : S * nat :=
  match events with
  | [] => (s, O)
  | e :: events =>
      let '(s, result) := sink_append inner s e in
      let '(s, refused) := sink_run s events in
      (s, (if is_ok result then refused else refused + 1)%nat)
  end.

(** An isolated sink passes every event on, whatever was refused before, never
    fails, and counts the refusals. *)
Lemma isolated_sink_counts (s : S) (n : N) events :
  (forall s e reason, (sink_append inner s e).2 <> Panic reason) -> n <= u64_max ->
  foldl (fun s e => (@isolated_append S X X inner s e).1) (s, n) events
    = ((sink_run s events).1, N.min (n + N.of_nat (sink_run s events).2) u64_max).
Proof.
  intros Hp. revert s n. induction events as [|e events IH]; intros s n Hn; cbn [foldl sink_run].
  - rewrite N.add_0_r, N.min_l by lia. done.
  - unfold isolated_append at 2. cbn [fst snd]. specialize (Hp s e).
    destruct (sink_append inner s e) as [s' [[]|x|reason]]; cbn [fst snd is_ok].
    + rewrite IH by done. by destruct (sink_run s' events).
    + rewrite IH by apply u64_saturating_add_bound. destruct (sink_run s' events) as [s'' k]. cbn [fst snd].
      f_equal. unfold u64_saturating_add. lia.
    + by destruct (Hp reason).
Qed.
End sinks.

(** ** An episode read back *)

(** A parser that knows the lines of [events]. *)
Definition table_codec (events : list TraceEvent) : Miniserde := {|
  mini_to_string _ := "";
  mini_from_str line :=
    (fun e => wire_mini (event_wire e)) <$> List.find (fun e => String.eqb (event_line e) line) events;
|}.

Lemma written_episode_decodes_witness :
  @decode_jsonl (table_codec sample_events) (jsonl_text sample_events) = Ok sample_events.
Proof.
  apply (@written_episode_decodes (table_codec sample_events) sample_events); [vm_compute; reflexivity..|].
  intros e He. repeat (apply elem_of_cons in He as [->|He]; [vm_compute; reflexivity|]). by apply not_elem_of_nil in He.
Defined.

Lemma decoded_episode_canonical_witness :
  List.filter (fun line => negb (str_is_empty line)) (str_split line_feed (jsonl_text sample_events))
    = map event_line sample_events.
Proof.
  apply (@decoded_episode_canonical (table_codec sample_events) (jsonl_text sample_events) sample_events).
  vm_compute. reflexivity.
Defined.
